(* ===== verification/_CoqProject ===== *)
-Q . S2P
Prelude.v
Bytes.v
GoSort.v
Float64.v
Hlc.v
LogicalClock.v
RaftLog.v
Raft.v
RaftSpec.v
RaftSafety.v
RaftNode.v
RaftSystem.v
RaftFailover.v
RaftTransport.v
Crdt.v
Command.v
WalRecord.v
Wal.v
Bloom.v
Skiplist.v
SSTable.v
Engine.v
EngineSpec.v
StateMachine.v
Tso.v
LockManager.v
Ssi.v
Saga.v
TwoPC.v
TwoPhaseCommit.v
Percolator.v
Memberlist.v
PhiAccrual.v
Swim.v
SwimSafety.v
SwimTransport.v
DistLock.v
Linearizability.v
ReadPath.v
Md5.v
HashRing.v
ShardMap.v
Router.v
Rebalancer.v
Query.v
ChangeFeed.v
RateLimit.v
MvccGc.v
Topology.v
Metrics.v
Health.v
Tracing.v
Server.v
ServerApi.v
ChandyLamport.v
EventHeap.v
Simulator.v
Jepsen.v
Transport.v
NetworkSimulator.v
Logger.v
Cli.v
FaultInjector.v
MemCluster.v
Demo.v
ObservabilityText.v
OsStudies.v
DemoClock.v
DemoConsistency.v
DemoChaos.v
DemoPartition.v
DemoTxn.v
DemoStorage.v
DemoMembership.v
DemoObservability.v
DemoTransport.v
DemoAdvanced.v
NodeLifecycle.v
Programs.v
DemoRaft.v
