(* ===== verification/Prelude.v ===== *)
(** * Hermes: a verification library for the Hermes key-value store

    Hermes (src/hermes) is a replicated key-value store written in Go.  A
    client reaches a server over HTTP or gRPC (cmd/hermes-cli, pkg/server);
    the server proposes a write to Raft (pkg/raft), which replicates it as an
    encoded command; the state machine of the server applies committed
    commands to a storage engine (pkg/storage) made of a write-ahead log, a
    memtable and sorted tables.  Packages for clocks, transactions,
    consistency, partitioning, queries, change feeds, membership, rate limits,
    several regions, observability and fault injection surround these.  The
    library translates the Go code into executable Rocq functions and proves
    what makes each part correct.

    ** Conventions

    - A Go integer is a [Z] in the range of its type; operations that can
      leave it are wrapped explicitly ([u64], [i64], [u32], [u16]).  A
      [float64] is a binary64 number of the Standard Library's executable
      IEEE specification ([Float64]).
    - A method is a function from the receiver's record to the new record; a
      panic (index out of range, nil dereference, division by zero) and a
      loop that does not end are [None]; an [error] result is a sum or option.
    - Objects shared through pointers live in a heap and a pointer is an
      index, where the sharing matters ([Skiplist], [ShardMap], [DistLock],
      [Tracing]).
    - Maps and sets are [gmap] and [gset].  Where the code iterates over a map
      the order is an argument, or the result does not depend on it, or the
      file says so.  [sort.Slice] is any function with its documented
      behaviour ([SortSlice] in [GoSort]), since it is not stable.
    - The wall clock, random numbers and the outcome of disk operations, sends
      and callbacks are arguments or oracles.  Locks are not modelled where a
      method holds its lock throughout; where it releases it in between, or a
      goroutine waits on a channel, the parts are separate steps that
      interleave.
    - Code outside the repository (gRPC, [math.Erfc], [math.Log10]) is a
      parameter, with what is relied on as a named hypothesis.

    ** Files: foundations

    - [Prelude]: integers, Go's string order and sorting, loops in [option],
      list lemmas, tactics.  [Bytes]: byte lists, little and big endian
      integers with their round trips, decimal output.  [GoSort], [Float64],
      [Md5]: the parts of Go's packages sort, math and crypto/md5 in use.

    ** Files: clocks (pkg/clock)

    - [Hlc] (hlc.go): timestamps of a clock increase while the 16-bit counter
      has room, the clock stays within the skew bound of the wall clock,
      timestamps survive packing and encoding; a full counter wraps and time
      goes backwards.
    - [LogicalClock] (lamport.go, vector_clock.go): executions of processes
      that tick, send and receive.  Vector clocks decide happened-before
      exactly, Lamport clocks respect it.

    ** Files: replication (pkg/raft, pkg/server)

    - [RaftLog] (log.go, state.go): the log as a slice above a snapshot and
      the progress of peers.  [Raft] (raft.go): every handler of the state
      machine.  [RaftSpec]: each handler refines a sequence of elementary
      transitions ([ustep]), with well-formedness of states and messages.
      [RaftSafety]: the election and log invariants of those transitions, with
      ghost maps for votes, winners and leader logs.  [RaftNode] (node.go):
      one round of the node's loop.
    - [RaftSystem]: nodes over a network that loses, delays, reorders and
      duplicates messages; election safety, log matching, committed prefixes
      that never change, application in order, absence of panics, and a
      reachable state in which a heartbeat makes replicas diverge.
      [RaftFailover]: after a leader crash no new leader is elected, and a
      rejected append does not make the leader back up.  Terms are assumed
      below 2^64-1 and indexes below 2^63 ([room]).
    - [RaftTransport] (pkg/server/node.go, handlers.go): the translation of
      Raft messages to remote calls and back, and a cluster of servers on it,
      in which no entry is ever committed, because the responses lack the
      index that the leader needs.
    - [MemCluster] (pkg/raft/demo.go): the in-memory transport with partitions
      and the key-value state machine of the demonstrations.  The cluster
      refines [RaftSystem], its stores hold the last assignments of the applied
      logs, and after the leader is cut off there is no new one.

    ** Files: storage (pkg/storage)

    - [Command] (command.go): the command encoding and its round trip.
    - [WalRecord] (wal/record.go, errors.go): CRC-32C by table, records,
      scanning a file.  One changed byte is always detected, a file cut
      anywhere reads as its complete records.  [Wal] (wal/segment.go, wal.go):
      the log over a file system with inodes, fsync, scripted faults and
      crashes.  [store_inv] relates files to the records written; acknowledged
      entries survive crashes and reads return the log, both for a log opened
      in an empty directory and without checkpoints.  Four theorems at the end
      show why those limits are there: reopening and checkpoints lose
      acknowledged entries.  The segment size is an argument of [Open_sized];
      the source fixes it to 64 MB, which the theorems include.  At most 2^63
      operations keep sequence numbers from wrapping.
    - [Bloom] (bloom/bloom.go): no false negatives, also after serialization.
      The floating-point formulas that size a filter are arguments.
    - [Skiplist] (memtable/skiplist.go): the skip list on a heap of nodes
      refines a finite map for every outcome of the coin flips.  The loops
      have the number of nodes as fuel, which is shown to be enough.
    - [SSTable] (sstable/sstable.go): blocks, index, filter and footer of a
      table file; [writer_inv] relates the file to the entries added.  A
      finished table is opened and iterated as its entries; a point lookup in
      an opened table finds nothing, and a writer for no keys panics.
    - [Engine] (engine.go): log, memtables, tables, flush and compaction as
      steps.  [EngineSpec]: the engine refines a map while the flush channel
      was never full, and its log replays to the last acknowledged writes.
    - [MvccGc] (mvcc_gc.go): the safe point is below every active read.

    ** Files: the server (pkg/server, cmd)

    - [StateMachine] (node.go): committed commands applied to the engine.  The
      store of a server holds the last writes of its applied log, and servers
      that applied the same entries answer alike; this composes [RaftSystem],
      [Command] and [EngineSpec].
    - [Server] (node.go): puts, gets, deletes, scans, status, leadership and
      health of a node over the components above.  [ServerApi] (handlers.go,
      http_api.go): the gRPC and HTTP handlers; the prefix scan returns exactly
      the live keys with the prefix.  [Cli]: the requests of the command-line
      client, and what the server reads from a key put into a URL unescaped.
    - [NodeLifecycle] (node.go): the start of a node stage by stage, its
      background loop, its endpoints for probes and its stop.  A start without
      failures assembles the node of [Server] and a stop ends its parts; a
      failed start can leave parts running or a stop that waits forever.
      [Programs] (cmd/hermes-server, cmd/hermes-cli, http_api.go): commands,
      environment, routes and the interactive loop; a get of the client prints
      what the node reads.
    - [Transport] (pkg/transport): interceptors with retries and panics, the
      connection pool and its health check, TLS settings.  [NetworkSimulator]
      (network_simulator.go): link rules.

    ** Files: transactions and consistency (pkg/txn, pkg/consistency)

    - [Tso] (tso.go): timestamps are unique.  [LockManager] (types.go): the
      lock table.  [Ssi] (ssi.go): the conflict detector; the later of two
      live writers is refused, and write skew is not.
    - [TwoPC] (twopc.go), [TwoPhaseCommit] (two_phase_commit.go), [Percolator]
      (percolator.go): atomicity of the coordinators and the order of their
      messages.  [Saga] (saga.go): a saga ends completed or compensated.
    - [Crdt] (crdt.go): merges are order-independent, a gossiping group counts
      exactly, the register converges to the latest write; two nodes' first
      adds share a tag.  [DistLock] (distlock.go): at most one valid grant and
      fencing.  [ReadPath] (lease.go, readindex.go): leases and read index.
      [Linearizability] (linearizability.go): what the checker accepts.

    ** Files: partitioning and data services

    - [HashRing] (pkg/partition/consistent_hash.go): only the keys of a
      removed or added node move.  [ShardMap] (shard.go): the shards partition
      the keys through splits and merges.  [Router] (router.go): a key reaches
      its owner.  [Rebalancer] (rebalancer.go): every proposal is acceptable
      to the shard map.  The clients are proved against the lemmas of
      [ShardMap].
    - [Query] (pkg/query): scatter and gather equal a central scan, for every
      executor that obeys [LawfulExecutor].  [ChangeFeed] (pkg/cdc):
      exactly-once delivery on sinks that obey [AtomicSink].
    - [RateLimit] (pkg/ratelimit): limiters and the circuit breaker.
      [Topology] (pkg/multiregion): regions and follower reads.

    ** Files: membership (pkg/membership)

    - [Memberlist] (memberlist.go, manager.go): the same updates in any order
      give the same view.  [PhiAccrual] (phi_accrual.go).  [Swim] (swim.go):
      the goroutines of a node.  [SwimSafety]: probes of a cluster are
      answered only by their targets, and no step panics.  [SwimTransport]
      (grpc_transport.go, mem_transport.go): messages survive the transport.

    ** Files: observability, chaos and studies

    - [Metrics], [Health], [Tracing], [Logger] (pkg/observability): counters
      and histograms, health reports, span trees, log levels and fields.
      [ObservabilityText]: the Prometheus text and the printed trace.
    - [ChandyLamport] (pkg/chaos/snapshot.go): coordinators over FIFO channels
      record a consistent cut, which the initiator never completes.
      [EventHeap], [Simulator] (simulator.go): the event queue stays a heap;
      runs execute the due events in order and end when the actions schedule
      nothing.  [Jepsen] (jepsen_checker.go): what the checker reports.
      [FaultInjector] (fault_injector.go): which faults a query sees.
    - [OsStudies] (pkg/os_fundamentals): length-prefixed messages, the
      partition table, the worker pool, votes, fan-in, a select loop and
      counters under every schedule of the goroutines, and the measurements.

    ** Files: demonstrations (demo.go of the packages)

    - [Demo]: a demonstration as the lines it prints, orders of map iteration
      ([RangeOrder]), and the exploration of systems with finitely many states.
    - [DemoClock], [DemoConsistency], [DemoChaos], [DemoPartition], [DemoTxn],
      [DemoStorage], [DemoMembership], [DemoObservability], [DemoTransport],
      [DemoAdvanced], [DemoRaft]: the scenarios of each package on the
      components above, for every clock, draw, order and interleaving they may
      meet.  The theorems say what the lines show, and where that is not what
      the text says.

    ** Fuel

    Loops that are not structural take fuel from their data (the nodes of a
    skip list, the bytes left in a file, the length of a heap), and their
    theorems show that it is enough.  The event loop of the simulator need not
    end, so its fuel is an argument and the theorem on its end asks for one
    unit per queued event.

    ** Not modelled

    - Demonstrations and studies that only print fixed text, the headers and
      summaries of the others, and the scratch programs.  Those of SWIM that
      watch a cluster for a time: its goroutines are those of [Swim].
    - The code generated from proto/*.proto: its messages are records of the
      fields in use, and gRPC, TLS and connections are arguments.
    - Lines of fixed text, explanations and descriptions, and the encoding as
      JSON. *)

From Stdlib Require Export Ascii.
From Stdlib Require String.
From stdpp Require Export base gmap sets list strings numbers option sorting.
From stdpp Require Export ssreflect.
From Hammer Require Export Tactics.

#[global] Open Scope Z_scope.

(** ** Go's machine integers

    A Go integer is a [Z] in the range of its type; every arithmetic
    operation that may leave the range is wrapped explicitly. *)

Abbreviation two16 := 65536.
Abbreviation two32 := 4294967296.
Abbreviation two63 := 9223372036854775808.
Abbreviation two64 := 18446744073709551616.

Definition u8 (z : Z) : Z := z mod 256.
Definition u16 (z : Z) : Z := z mod two16.
Definition u32 (z : Z) : Z := z mod two32.
Definition u64 (z : Z) : Z := z mod two64.
Definition i64 (z : Z) : Z := (z + two63) mod two64 - two63.
Definition i32 (z : Z) : Z := (z + 2147483648) mod two32 - 2147483648.

Definition is_u64 (z : Z) : Prop := 0 <= z < two64.
Definition is_i64 (z : Z) : Prop := - two63 <= z < two63.

Lemma u64_small z : 0 <= z < two64 -> u64 z = z.
Proof. apply Z.mod_small. Qed.

Lemma u32_small z : 0 <= z < two32 -> u32 z = z.
Proof. apply Z.mod_small. Qed.

Lemma u16_small z : 0 <= z < two16 -> u16 z = z.
Proof. apply Z.mod_small. Qed.

Lemma i64_small z : - two63 <= z < two63 -> i64 z = z.
Proof. intros. unfold i64. rewrite Z.mod_small; lia. Qed.

Lemma u64_range z : 0 <= u64 z < two64.
Proof. apply Z.mod_pos_bound. lia. Qed.

Lemma u32_range z : 0 <= u32 z < two32.
Proof. apply Z.mod_pos_bound. lia. Qed.

Lemma u16_range z : 0 <= u16 z < two16.
Proof. apply Z.mod_pos_bound. lia. Qed.

Lemma i64_range z : - two63 <= i64 z < two63.
Proof. unfold i64. pose proof (Z.mod_pos_bound (z + two63) two64). lia. Qed.

(** Wrapping once at the end of a sum is enough. *)
Lemma i64_add_l a b : i64 (i64 a + b) = i64 (a + b).
Proof.
  unfold i64. f_equal. replace ((a + two63) mod two64 - two63 + b + two63) with ((a + two63) mod two64 + b) by lia.
  rewrite Zplus_mod_idemp_l. f_equal. lia.
Qed.

(** Converting to [uint64] and back loses nothing. *)
Lemma i64_u64 z : - two63 <= z < two63 -> i64 (u64 z) = z.
Proof.
  intros. unfold i64, u64. rewrite Zplus_mod_idemp_l Z.mod_small; lia.
Qed.

(** Removes the wrap-arounds whose argument is provably in range. *)
Ltac unwrap :=
  repeat first
    [ rewrite -> u64_small in * by lia
    | rewrite -> i64_small in * by lia
    | rewrite -> u32_small in * by lia
    | rewrite -> u16_small in * by lia ].

(** ** Booleans and comparisons of the source *)

Ltac bool_hyp :=
  repeat match goal with
  | H : (_ && _) = true |- _ => apply andb_true_iff in H as [? ?]
  | H : (_ || _) = true |- _ => apply orb_true_iff in H
  | H : (_ && _) = false |- _ => apply andb_false_iff in H
  | H : (_ || _) = false |- _ => apply orb_false_iff in H as [? ?]
  | H : negb _ = true |- _ => apply negb_true_iff in H
  | H : negb _ = false |- _ => apply negb_false_iff in H
  | H : (_ =? _) = true |- _ => apply Z.eqb_eq in H
  | H : (_ =? _) = false |- _ => apply Z.eqb_neq in H
  | H : (_ <? _) = true |- _ => apply Z.ltb_lt in H
  | H : (_ <? _) = false |- _ => apply Z.ltb_ge in H
  | H : (_ <=? _) = true |- _ => apply Z.leb_le in H
  | H : (_ <=? _) = false |- _ => apply Z.leb_gt in H
  | H : bool_decide _ = true |- _ => apply bool_decide_eq_true in H
  | H : bool_decide _ = false |- _ => apply bool_decide_eq_false in H
  end.

(** Case analysis on the first [if] or [match] on a test in the goal or in
    [H], with the test recorded as a proposition. *)
Ltac split_if :=
  match goal with
  | |- context [if ?b then _ else _] =>
      lazymatch type of b with bool => destruct b eqn:?; bool_hyp end
  end.

Ltac split_if_in H :=
  match type of H with
  | context [if ?b then _ else _] =>
      lazymatch type of b with bool => destruct b eqn:?; bool_hyp end
  end.

(** ** Strings

    Go orders strings by their bytes; [String.ltb] is that order. *)

Notation "a <?s b" := (String.ltb a b) (at level 70) : Z_scope.
Notation "a <=?s b" := (String.leb a b) (at level 70) : Z_scope.
Notation "a =?s b" := (String.eqb a b) (at level 70) : Z_scope.

Definition str_lt (a b : string) : Prop := String.ltb a b = true.

Lemma str_ltb_leb a b : String.ltb a b = negb (String.leb b a).
Proof.
  unfold String.ltb, String.leb. rewrite String.compare_antisym.
  by destruct (String.compare b a).
Qed.

Lemma str_leb_refl a : String.leb a a = true.
Proof. destruct (String.leb_total a a); done. Qed.

Lemma str_leb_trans a b c :
  String.leb a b = true -> String.leb b c = true -> String.leb a c = true.
Proof.
  intros H1 H2. apply Is_true_true. apply Is_true_true in H1, H2.
  change (String.le a c). by etrans; [apply H1|apply H2].
Qed.

#[global] Instance str_lt_strict : StrictOrder str_lt.
Proof.
  unfold str_lt. split.
  - intros a. unfold complement. by rewrite str_ltb_leb str_leb_refl.
  - intros a b c. rewrite !str_ltb_leb !negb_true_iff => H1 H2.
    destruct (String.leb c a) eqn:E; [|done].
    destruct (String.leb_total b a) as [?|?]; [congruence|].
    by rewrite (str_leb_trans c a b) in H2.
Qed.

#[global] Instance str_lt_dec : RelDecision str_lt.
Proof. intros a b. unfold str_lt. apply _. Defined.

Lemma str_lt_trichotomy a b : str_lt a b \/ a = b \/ str_lt b a.
Proof.
  unfold str_lt. rewrite !str_ltb_leb !negb_true_iff.
  destruct (String.leb a b) eqn:E1, (String.leb b a) eqn:E2; auto.
  right; left. by apply String.leb_antisym.
Qed.

Lemma str_eqb_spec a b : (a =?s b) = bool_decide (a = b).
Proof.
  case_bool_decide; [subst; apply String.eqb_refl|by apply String.eqb_neq].
Qed.

Lemma str_leb_lt a b : String.leb a b = false <-> str_lt b a.
Proof. unfold str_lt. rewrite str_ltb_leb negb_true_iff. done. Qed.

Lemma str_leb_le a b : String.leb a b = true <-> str_lt a b \/ a = b.
Proof.
  split.
  - intros H. destruct (str_lt_trichotomy a b) as [?|[?|Hl]]; auto.
    apply str_leb_lt in Hl. congruence.
  - intros [H| ->]; [|apply str_leb_refl].
    destruct (String.leb a b) eqn:E; [done|].
    apply str_leb_lt in E. exfalso. by apply (irreflexivity str_lt a); trans b.
Qed.

Definition str_le (a b : string) : Prop := String.leb a b = true.

#[global] Instance str_le_dec : RelDecision str_le.
Proof. intros a b. unfold str_le. apply _. Defined.

#[global] Instance str_le_total : Total str_le.
Proof. intros a b. apply String.leb_total. Qed.

#[global] Instance str_le_trans : Transitive str_le.
Proof. intros a b c. apply str_leb_trans. Qed.

(** [sort.Strings]. *)
Definition sort_Strings (l : list string) : list string := merge_sort str_le l.

Lemma sort_Strings_elem l x : x ∈ sort_Strings l <-> x ∈ l.
Proof. unfold sort_Strings. by rewrite merge_sort_Permutation. Qed.

Lemma sort_Strings_sorted l : StronglySorted str_le (sort_Strings l).
Proof. apply StronglySorted_merge_sort; apply _. Qed.

(** Pairs in the strict order of their keys. *)
Definition key_sorted {V} (l : list (string * V)) : Prop := StronglySorted (fun a b => str_lt a.1 b.1) l.

Section key_sorted.
  Context {V : Type}.
  Implicit Types l k : list (string * V).

Lemma key_sorted_NoDup l : key_sorted l -> NoDup l.
Proof.
  induction 1 as [|x l _ IH Hx]; constructor; [|done]. intros Hin. rewrite Forall_forall in Hx. by apply (irreflexivity str_lt (x.1)), Hx.
Qed.

Lemma key_sorted_take l n : key_sorted l -> key_sorted (take n l).
Proof. intros Hs. unfold key_sorted in *. rewrite -(take_drop n l) in Hs. by apply StronglySorted_app in Hs as (_ & ? & _). Qed.

(** Their elements determine the list. *)
Lemma key_sorted_unique l k : key_sorted l -> key_sorted k -> (forall x, x ∈ l <-> x ∈ k) -> l = k.
Proof.
  intros Hl Hk Hp. apply (StronglySorted_unique_strong (fun a b : string * V => str_lt a.1 b.1)); [|done|done|].
  - intros x y _ _ Hxy Hyx. by destruct (irreflexivity str_lt (x.1)); trans (y.1).
  - apply NoDup_Permutation; [by apply key_sorted_NoDup..|done].
Qed.

Lemma key_sorted_fmap {A} (f : A -> string * V) (l : list A) : StronglySorted str_lt ((fun x => (f x).1) <$> l) -> key_sorted (f <$> l).
Proof.
  induction l as [|x l IH]; intros Hs; [constructor|]. rewrite fmap_cons in Hs. apply StronglySorted_inv in Hs as [Hs Hx].
  rewrite fmap_cons. constructor; [by apply IH|]. apply Forall_fmap. by apply (Forall_fmap (fun x => (f x).1)) in Hx.
Qed.

End key_sorted.

(** ** Loops

    A [for ... range] loop over a slice whose body may panic or return
    early is a fold in [option]. *)

Fixpoint for_each {A S} (f : A -> S -> option S) (l : list A) (s : S) : option S :=
  match l with
  | [] => Some s
  | x :: l => s ← f x s; for_each f l s
  end.

Lemma for_each_app {A S} (f : A -> S -> option S) l k s : for_each f (l ++ k) s = (s ← for_each f l s; for_each f k s).
Proof. revert s. induction l as [|x l IH]; intros s; [done|]. simpl. destruct (f x s); [apply IH|done]. Qed.

(** A loop keeps what its body keeps. *)
Lemma for_each_inv {A S} (P : S -> Prop) (f : A -> S -> option S) l s s' :
  (forall x s s', x ∈ l -> P s -> f x s = Some s' -> P s') ->
  P s -> for_each f l s = Some s' -> P s'.
Proof.
  revert s. induction l as [|x l IH]; intros s Hf Hs H; simpl in H; [by simplify_eq|].
  apply bind_Some in H as (s1 & Hx & H).
  eapply IH; [|eapply Hf; [left|exact Hs|exact Hx]|exact H].
  intros y ? ? Hy. apply Hf. by right.
Qed.

(** A loop ends normally when each round does and keeps what the next needs. *)
Lemma for_each_total {A S} (P : S -> Prop) (f : A -> S -> option S) l s :
  (forall x s, x ∈ l -> P s -> exists s', f x s = Some s' /\ P s') ->
  P s -> exists s', for_each f l s = Some s' /\ P s'.
Proof.
  revert s. induction l as [|x l IH]; intros s Hf Hs; simpl; [by exists s|].
  destruct (Hf x s) as (s1 & -> & H1); [left|done|]. simpl.
  apply IH; [|done]. intros y s2 Hy. apply Hf. by right.
Qed.

(** ** Bit operations within a width *)

Lemma log2_lt_width n x : 0 < n -> 0 <= x < 2 ^ n -> Z.log2 x < n.
Proof. intros Hn Hx. destruct (Z.eq_dec x 0) as [->|]; [done|]. apply Z.log2_lt_pow2; lia. Qed.

Lemma lxor_range n a b : 0 <= n -> 0 <= a < 2 ^ n -> 0 <= b < 2 ^ n -> 0 <= Z.lxor a b < 2 ^ n.
Proof.
  intros Hn Ha Hb. split; [apply Z.lxor_nonneg; lia|].
  destruct (Z.eq_dec (Z.lxor a b) 0) as [->|Hne]; [lia|].
  apply Z.log2_lt_pow2; [pose proof (proj2 (Z.lxor_nonneg a b)); lia|].
  destruct (Z.eq_dec n 0) as [->|Hn0].
  { exfalso. apply Hne. replace a with 0 by lia. by replace b with 0 by lia. }
  pose proof (Z.log2_lxor a b). pose proof (log2_lt_width n a). pose proof (log2_lt_width n b). lia.
Qed.

Lemma lor_lt_pow2 n a b : 0 < n -> 0 <= a < 2 ^ n -> 0 <= b < 2 ^ n -> Z.lor a b < 2 ^ n.
Proof.
  intros Hn Ha Hb. destruct (Z.eq_dec (Z.lor a b) 0) as [->|Hne]; [lia|].
  apply Z.log2_lt_pow2; [pose proof (proj2 (Z.lor_nonneg a b)); lia|]. rewrite Z.log2_lor; [|lia..].
  pose proof (log2_lt_width n a). pose proof (log2_lt_width n b). lia.
Qed.

(** ** Lists *)

(** [len(s)] as an [int]. *)
Definition zlen {A} (l : list A) : Z := Z.of_nat (length l).

Lemma zlen_app {A} (l k : list A) : zlen (l ++ k) = zlen l + zlen k.
Proof. unfold zlen. rewrite length_app. lia. Qed.

Lemma zlen_nonneg {A} (l : list A) : 0 <= zlen l.
Proof. unfold zlen. lia. Qed.

Lemma zlen_cons {A} (x : A) l : zlen (x :: l) = zlen l + 1.
Proof. unfold zlen. simpl. lia. Qed.

Lemma zlen_nil {A} : zlen (@nil A) = 0.
Proof. done. Qed.

Lemma zlen_take {A} (l : list A) n : 0 <= n <= zlen l -> zlen (take (Z.to_nat n) l) = n.
Proof. unfold zlen. intros. rewrite length_take. lia. Qed.

#[export] Hint Rewrite @zlen_app @zlen_cons @zlen_nil : zlen.

Lemma take_length_take {A} (k : nat) (l : list A) : take (length (take k l)) l = take k l.
Proof.
  rewrite length_take. destruct (decide (k <= length l)%nat).
  - by rewrite Nat.min_l.
  - rewrite !take_ge //; lia.
Qed.

Lemma NoDup_fst_filter {A B} (P : A * B -> Prop) `{!forall x, Decision (P x)} (l : list (A * B)) :
  NoDup l.*1 -> NoDup (filter P l).*1.
Proof.
  induction l as [|x l IH]; [done|]. rewrite filter_cons. simpl. intros [Hx Hl]%NoDup_cons.
  case_decide; [|by apply IH]. simpl. apply NoDup_cons. split; [|by apply IH].
  intros (y & Hy & Hin)%list_elem_of_fmap. apply Hx. rewrite Hy. apply list_elem_of_fmap_2.
  by apply list_elem_of_filter in Hin as [_ ?].
Qed.

Lemma bfilter_all {A} (f : A -> bool) (l : list A) : (forall x, x ∈ l -> f x = true) -> List.filter f l = l.
Proof.
  induction l as [|x l IH]; intros Hl; [done|]. cbn [List.filter]. rewrite (Hl x); [|left].
  f_equal. apply IH. intros y Hy. apply Hl. by right.
Qed.

Lemma bfilter_none {A} (f : A -> bool) (l : list A) : (forall x, x ∈ l -> f x = false) -> List.filter f l = [].
Proof.
  induction l as [|x l IH]; intros Hl; [done|]. cbn [List.filter]. rewrite (Hl x); [|left]. apply IH. intros y Hy. apply Hl. by right.
Qed.

Lemma filter_all {A} (P : A -> Prop) `{!forall x, Decision (P x)} (l : list A) : Forall P l -> filter P l = l.
Proof. induction 1; [done|]. rewrite filter_cons_True //. by f_equal. Qed.

Lemma filter_ne_notin {A} `{EqDecision A} (x : A) (l : list A) :
  x ∉ l -> filter (fun y => y <> x) l = l.
Proof.
  intros Hx. induction l as [|y l IH]; [done|]. apply not_elem_of_cons in Hx as [Hxy Hx].
  rewrite filter_cons decide_True // IH //.
Qed.

(** Removing a member of a duplicate-free list. *)
Lemma length_filter_ne {A} `{EqDecision A} (x : A) (l : list A) :
  NoDup l -> x ∈ l -> (length (filter (fun y => y <> x) l) + 1 = length l)%nat.
Proof.
  induction l as [|y l IH]; intros Hnd Hx; [by apply elem_of_nil in Hx|].
  apply NoDup_cons in Hnd as [Hy Hnd]. rewrite filter_cons. apply elem_of_cons in Hx as [->|Hx].
  - rewrite decide_False; [|by intros ?]. rewrite filter_ne_notin //. simpl. lia.
  - rewrite decide_True; [|by intros ->]. simpl. rewrite IH //.
Qed.

(** ** Sums over maps *)

Definition map_sum (m : gmap string Z) : Z := map_fold (fun _ c t => t + c) 0 m.

Lemma map_sum_insert_None m k v : m !! k = None -> map_sum (<[k := v]> m) = map_sum m + v.
Proof.
  intros Hk. unfold map_sum. rewrite map_fold_insert_L; [lia| |done]. intros. lia.
Qed.

Lemma map_sum_insert m k v w : m !! k = Some v -> map_sum (<[k := w]> m) = map_sum m - v + w.
Proof.
  intros Hk. rewrite -(insert_delete_id m k v Hk) insert_insert_eq.
  rewrite !map_sum_insert_None ?lookup_delete_eq //. lia.
Qed.

Lemma map_sum_nonneg m : (forall k v, m !! k = Some v -> 0 <= v) -> 0 <= map_sum m.
Proof.
  induction m as [|k v m Hk IH] using map_ind; intros H; [unfold map_sum; by rewrite map_fold_empty|].
  rewrite map_sum_insert_None //. pose proof (H k v ltac:(apply lookup_insert_eq)).
  assert (0 <= map_sum m); [|lia]. apply IH. intros k' v' Hk'. apply (H k').
  rewrite lookup_insert_ne //. congruence.
Qed.

Lemma map_sum_ge m k v : (forall k v, m !! k = Some v -> 0 <= v) -> m !! k = Some v -> v <= map_sum m.
Proof.
  intros H Hk. rewrite -(insert_delete_id m k v Hk) map_sum_insert_None ?lookup_delete_eq //.
  assert (0 <= map_sum (delete k m)); [|lia]. apply map_sum_nonneg.
  intros k' v' Hk'. apply lookup_delete_Some in Hk' as [_ Hk']. eauto.
Qed.
