(* ===== verification/Bytes.v ===== *)
(** * Bytes: Go byte slices and [encoding/binary]

    A [[]byte] (and the bytes of a [string]) is a [list ascii]: an [ascii]
    is exactly an 8-bit value.  The fixed-width little- and big-endian
    encoders of [encoding/binary] used by the WAL, the SSTables, the bloom
    filter and the replicated commands are modelled here, with the lemmas
    their round trips need. *)

From S2P Require Import Prelude.

Abbreviation bytes := (list ascii).

Definition byte_of_Z (z : Z) : ascii := ascii_of_N (Z.to_N (z mod 256)).
Definition Z_of_byte (b : ascii) : Z := Z.of_N (N_of_ascii b).

Lemma Z_of_byte_range b : 0 <= Z_of_byte b < 256.
Proof. unfold Z_of_byte. pose proof (N_ascii_bounded b). lia. Qed.

Lemma Z_of_byte_of_Z z : Z_of_byte (byte_of_Z z) = z mod 256.
Proof.
  unfold Z_of_byte, byte_of_Z. pose proof (Z.mod_pos_bound z 256).
  rewrite N_ascii_embedding; lia.
Qed.

Lemma byte_of_Z_of_byte b : byte_of_Z (Z_of_byte b) = b.
Proof.
  pose proof (Z_of_byte_range b). unfold byte_of_Z. rewrite Z.mod_small //.
  unfold Z_of_byte. by rewrite N2Z.id ascii_N_embedding.
Qed.

(** [binary.LittleEndian.PutUint{32,64}] on [n] bytes, and the reader. *)
Fixpoint put_le (n : nat) (z : Z) : bytes :=
  match n with
  | O => []
  | S n => byte_of_Z z :: put_le n (z / 256)
  end.

Fixpoint get_le (l : bytes) : Z :=
  match l with
  | [] => 0
  | b :: l => Z_of_byte b + 256 * get_le l
  end.

(** [binary.BigEndian]: the same bytes in the opposite order. *)
Definition put_be (n : nat) (z : Z) : bytes := rev (put_le n z).
Definition get_be (l : bytes) : Z := get_le (rev l).

Lemma length_put_le n z : length (put_le n z) = n.
Proof. revert z; induction n; intros; simpl; auto. Qed.

Lemma length_put_be n z : length (put_be n z) = n.
Proof. unfold put_be. by rewrite length_rev length_put_le. Qed.

Lemma get_put_le n z : get_le (put_le n z) = z mod 256 ^ Z.of_nat n.
Proof.
  revert z; induction n as [|n IH]; intros z; simpl put_le; simpl get_le.
  { by rewrite Z.pow_0_r Z.mod_1_r. }
  rewrite Z_of_byte_of_Z IH Nat2Z.inj_succ Z.pow_succ_r; [|lia].
  rewrite Z.rem_mul_r; [done|lia|].
  apply Z.pow_pos_nonneg; lia.
Qed.

Lemma get_put_be n z : get_be (put_be n z) = z mod 256 ^ Z.of_nat n.
Proof. unfold get_be, put_be. by rewrite rev_involutive get_put_le. Qed.

Lemma get_put_le32 z : get_le (put_le 4 z) = u32 z.
Proof. apply (get_put_le 4). Qed.
Lemma get_put_le64 z : get_le (put_le 8 z) = u64 z.
Proof. apply (get_put_le 8). Qed.
Lemma get_put_be32 z : get_be (put_be 4 z) = u32 z.
Proof. apply (get_put_be 4). Qed.
Lemma get_put_be64 z : get_be (put_be 8 z) = u64 z.
Proof. apply (get_put_be 8). Qed.

Lemma get_le_range l : 0 <= get_le l < 256 ^ Z.of_nat (length l).
Proof.
  induction l as [|b l IH]; simpl get_le; simpl length; [done|].
  rewrite Nat2Z.inj_succ Z.pow_succ_r; [|lia].
  pose proof (Z_of_byte_range b). lia.
Qed.

Lemma put_get_le l : put_le (length l) (get_le l) = l.
Proof.
  induction l as [|b l IH]; simpl; [done|].
  pose proof (Z_of_byte_range b).
  assert ((Z_of_byte b + 256 * get_le l) / 256 = get_le l) as ->.
  { symmetry. apply (Z.div_unique _ _ _ (Z_of_byte b)); lia. }
  rewrite IH. f_equal. unfold byte_of_Z.
  assert ((Z_of_byte b + 256 * get_le l) mod 256 = Z_of_byte b) as ->.
  { symmetry. apply (Z.mod_unique _ _ (get_le l)); lia. }
  unfold Z_of_byte. by rewrite N2Z.id ascii_N_embedding.
Qed.

(** [string(b)] and [[]byte(s)]. *)
Definition bytes_of_string (s : string) : bytes := String.list_ascii_of_string s.
Definition string_of_bytes (l : bytes) : string := String.string_of_list_ascii l.

Lemma string_of_bytes_of_string s : string_of_bytes (bytes_of_string s) = s.
Proof. apply String.string_of_list_ascii_of_string. Qed.

Lemma bytes_of_string_of_bytes l : bytes_of_string (string_of_bytes l) = l.
Proof. apply String.list_ascii_of_string_of_list_ascii. Qed.

(** ** Decimal output

    [fmt_020d] is [fmt.Sprintf("%020d", n)] of a [uint64]: twenty digits,
    which is enough for every value; [fmt_d] is [%d], without leading zeros. *)

Fixpoint dec_digits (k : nat) (n : Z) : bytes :=
  match k with
  | O => []
  | S k => dec_digits k (n / 10) ++ [byte_of_Z (48 + n mod 10)]
  end.

Fixpoint strip_zeros (l : bytes) : bytes :=
  match l with
  | b :: ((_ :: _) as l') => if Z_of_byte b =? 48 then strip_zeros l' else l
  | _ => l
  end.

Definition fmt_020d (n : Z) : bytes := dec_digits 20 n.
Definition fmt_d (n : Z) : bytes := strip_zeros (dec_digits 20 n).

Lemma dec_digits_inj k : forall n m,
  0 <= n < 10 ^ Z.of_nat k -> 0 <= m < 10 ^ Z.of_nat k -> dec_digits k n = dec_digits k m -> n = m.
Proof.
  induction k as [|k IH]; intros n m Hn Hm; cbn [dec_digits]; [simpl in *; lia|].
  rewrite Nat2Z.inj_succ Z.pow_succ_r in Hn Hm; [|lia..].
  intros [Hq Hr]%app_inj_tail. apply IH in Hq; [|split; [apply Z.div_pos; lia|apply Z.div_lt_upper_bound; lia]..].
  apply (f_equal Z_of_byte) in Hr. rewrite !Z_of_byte_of_Z in Hr.
  pose proof (Z.mod_pos_bound n 10). pose proof (Z.mod_pos_bound m 10).
  rewrite (Z.mod_small (48 + n mod 10)) in Hr; [|lia]. rewrite (Z.mod_small (48 + m mod 10)) in Hr; [|lia].
  rewrite (Z.div_mod n 10) // (Z.div_mod m 10) //. lia.
Qed.

Lemma length_dec_digits k : forall n, length (dec_digits k n) = k.
Proof. induction k; intros n; cbn [dec_digits]; [done|]. rewrite length_app IHk. simpl. lia. Qed.

Lemma length_strip_zeros l : (length (strip_zeros l) <= length l)%nat.
Proof.
  induction l as [|b [|c l] IH]; [done..|]. cbn [strip_zeros]. destruct (_ =? _); [|done].
  simpl in *. lia.
Qed.

(** A number is determined by its digits without leading zeros. *)
Lemma strip_zeros_pad l : exists k, l = replicate k (byte_of_Z 48) ++ strip_zeros l.
Proof.
  induction l as [|b [|c l] IH]; [by exists 0%nat..|]. cbn [strip_zeros]. destruct (Z.eqb_spec (Z_of_byte b) 48) as [Hb|]; [|by exists 0%nat].
  destruct IH as [k Hk]. exists (S k). cbn [replicate app]. rewrite -Hk. f_equal. by rewrite -(byte_of_Z_of_byte b) Hb.
Qed.

Lemma fmt_d_inj a b : 0 <= a < two64 -> 0 <= b < two64 -> fmt_d a = fmt_d b -> a = b.
Proof.
  intros Ha Hb Heq. apply (dec_digits_inj 20); [simpl; lia..|].
  destruct (strip_zeros_pad (dec_digits 20 a)) as [k Hk], (strip_zeros_pad (dec_digits 20 b)) as [j Hj].
  fold (fmt_d a) in Hk. fold (fmt_d b) in Hj.
  assert (k = j) as ->; [|by rewrite Hk Hj Heq].
  apply (f_equal length) in Hk, Hj. rewrite length_app length_replicate length_dec_digits Heq in Hk.
  rewrite length_app length_replicate length_dec_digits in Hj. lia.
Qed.

(** [buf[lo:hi]] for bounds that the caller has checked. *)
(** Digits hold no separator, so the first number of a text can be read off. *)
Lemma dec_digits_digit k : forall n b, b ∈ dec_digits k n -> 48 <= Z_of_byte b < 58.
Proof.
  induction k as [|k IH]; intros n b; cbn [dec_digits]; [by intros ?%elem_of_nil|].
  intros [Hb|Hb]%elem_of_app; [by eapply IH|]. apply list_elem_of_singleton in Hb as ->. rewrite Z_of_byte_of_Z.
  pose proof (Z.mod_pos_bound n 10). rewrite Z.mod_small; lia.
Qed.

Lemma fmt_d_digit n b : b ∈ fmt_d n -> 48 <= Z_of_byte b < 58.
Proof.
  intros Hb. apply (dec_digits_digit 20 n). destruct (strip_zeros_pad (dec_digits 20 n)) as [k ->]. apply elem_of_app. by right.
Qed.

Lemma app_sep_inj {A} (a b x y : list A) d : d ∉ a -> d ∉ b -> a ++ d :: x = b ++ d :: y -> a = b /\ x = y.
Proof.
  revert b. induction a as [|c a IH]; intros [|e b] Ha Hb H; simplify_eq/=; [done|set_solver..|].
  apply not_elem_of_cons in Ha as [_ Ha]. apply not_elem_of_cons in Hb as [_ Hb]. destruct (IH b Ha Hb) as [-> ->]; done.
Qed.

Lemma fmt_d_prefix_inj a b x y : 0 <= a < two64 -> 0 <= b < two64 ->
  fmt_d a ++ bytes_of_string "-" ++ x = fmt_d b ++ bytes_of_string "-" ++ y -> a = b.
Proof.
  intros Ha Hb H. assert (Hn : forall n, "-"%char ∉ fmt_d n).
  { intros n Hd%fmt_d_digit. change (Z_of_byte "-"%char) with 45 in Hd. lia. }
  destruct (app_sep_inj (fmt_d a) (fmt_d b) x y "-"%char (Hn a) (Hn b) H) as [H' _]. by apply fmt_d_inj.
Qed.

Definition subslice {A} (lo hi : nat) (l : list A) : list A :=
  take (hi - lo) (drop lo l).

Lemma subslice_app_mid {A} (a b c : list A) lo hi :
  lo = length a -> hi = (length a + length b)%nat ->
  subslice lo hi (a ++ b ++ c) = b.
Proof.
  intros -> ->. unfold subslice.
  replace (length a + length b - length a)%nat with (length b) by lia.
  rewrite drop_app_length take_app_length //.
Qed.

Lemma drop_app_skip {A} (a b : list A) n k :
  n = (length a + k)%nat -> drop n (a ++ b) = drop k b.
Proof. intros ->. by rewrite drop_app_add. Qed.

Lemma zlen_put_le n z : zlen (put_le n z) = Z.of_nat n.
Proof. unfold zlen. by rewrite length_put_le. Qed.

Lemma zlen_put_be n z : zlen (put_be n z) = Z.of_nat n.
Proof. unfold zlen. by rewrite length_put_be. Qed.

#[export] Hint Rewrite zlen_put_le zlen_put_be : zlen.
#[export] Hint Rewrite @length_app @length_put_le @length_put_be @length_rev : bytes.

Create HintDb hermes.
#[export] Hint Resolve Z_of_byte_range u64_range u32_range u16_range : hermes.
