(* ===== verification/GoSort.v ===== *)
(** * GoSort: package sort of Go's standard library

    [sort.Search] is the binary search of the source.  [sort.Slice] is not
    stable, and what it does with equal elements is unspecified: the class
    [SortSlice] states what its documentation promises, and what is proved of
    its callers holds for every instance. *)

From S2P Require Import Prelude.

(** ** [sort.Search] *)

Fixpoint sort_Search_loop (fuel : nat) (f : nat -> bool) (i j : nat) : nat :=
  match fuel with
  | O => i
  | S fuel =>
      if (i <? j)%nat then
        let h := ((i + j) / 2)%nat in
        if f h then sort_Search_loop fuel f i h else sort_Search_loop fuel f (S h) j
      else i
  end.

Definition sort_Search (n : nat) (f : nat -> bool) : nat := sort_Search_loop (S n) f 0 n.

Lemma sort_Search_loop_spec fuel f n : forall i j, (i <= j <= n)%nat -> (j - i < fuel)%nat ->
  (forall a b, (a <= b < n)%nat -> f a = true -> f b = true) ->
  (forall a, (a < i)%nat -> f a = false) -> (forall a, (j <= a < n)%nat -> f a = true) ->
  let r := sort_Search_loop fuel f i j in
  (r <= n)%nat /\ (forall a, (a < r)%nat -> f a = false) /\ (forall a, (r <= a < n)%nat -> f a = true).
Proof.
  induction fuel as [|fuel IH]; intros i j Hij Hf Hmono Hlo Hhi; [lia|]. cbn [sort_Search_loop].
  destruct (Nat.ltb_spec i j) as [Hlt|Hge].
  2: { cbv zeta. split_and!; [lia|done|]. intros a Ha. apply Hhi. lia. }
  pose proof (Nat.div_mod_eq (i + j) 2) as Hdiv. pose proof (Nat.mod_upper_bound (i + j) 2) as Hmod.
  set (h := ((i + j) / 2)%nat) in *. destruct (f h) eqn:Hfh; apply IH; try done; try lia.
  - intros a Ha. apply (Hmono h); [lia|done].
  - intros a Ha. destruct (f a) eqn:Hfa; [|done]. rewrite (Hmono a h) // in Hfh. lia.
Qed.

(** The least index at which a monotone test holds. *)
Lemma sort_Search_spec n f :
  (forall a b, (a <= b < n)%nat -> f a = true -> f b = true) ->
  (sort_Search n f <= n)%nat /\ (forall a, (a < sort_Search n f)%nat -> f a = false) /\
  (forall a, (sort_Search n f <= a < n)%nat -> f a = true).
Proof. intros Hmono. apply sort_Search_loop_spec; try done; lia. Qed.

Lemma sort_Search_eq n f r :
  (forall a b, (a <= b < n)%nat -> f a = true -> f b = true) ->
  (r <= n)%nat -> (forall a, (a < r)%nat -> f a = false) -> ((r < n)%nat -> f r = true) -> sort_Search n f = r.
Proof.
  intros Hmono Hr Hlo Hhi. destruct (sort_Search_spec n f Hmono) as (Hn & H1 & H2).
  destruct (Nat.lt_trichotomy (sort_Search n f) r) as [Hlt|[->|Hgt]]; [|done|].
  - pose proof (H2 (sort_Search n f)) as Ht. rewrite Hlo // in Ht. discriminate Ht; lia.
  - rewrite H1 // in Hhi. discriminate Hhi; lia.
Qed.

Lemma sort_Search_le n f : (sort_Search n f <= n)%nat.
Proof.
  assert (forall fuel i j, (i <= j)%nat -> (sort_Search_loop fuel f i j <= j)%nat) as Hle.
  { induction fuel as [|fuel IH]; intros i j Hij; cbn [sort_Search_loop]; [done|]. destruct (Nat.ltb_spec i j); [|done].
    pose proof (Nat.div_mod_eq (i + j) 2). pose proof (Nat.mod_upper_bound (i + j) 2).
    destruct (f _); [etrans; [apply IH|]; lia|apply IH; lia]. }
  apply Hle. lia.
Qed.

(** ** [sort.Slice] *)

Definition strict_weak {A} (less : A -> A -> bool) : Prop :=
  (forall a, less a a = false) /\ (forall a b c, less a b = true -> less b c = true -> less a c = true) /\
  (forall a b c, less a b = false -> less b c = false -> less a c = false).

Class SortSlice := {
  sort_Slice : forall {A : Type}, (A -> A -> bool) -> list A -> list A;
  sort_Slice_perm : forall {A : Type} (less : A -> A -> bool) l, sort_Slice less l ≡ₚ l;
  sort_Slice_sorted : forall {A : Type} (less : A -> A -> bool) l,
    strict_weak less -> StronglySorted (fun a b => less b a = false) (sort_Slice less l);
}.

(** A stable sort is one. *)
Definition slice_le {A} (less : A -> A -> bool) (a b : A) : Prop := less b a = false.

#[global] Instance slice_le_dec {A} (less : A -> A -> bool) : RelDecision (slice_le less).
Proof. intros a b. unfold slice_le. apply _. Defined.

Lemma merge_sort_slice {A} (less : A -> A -> bool) l :
  strict_weak less -> StronglySorted (slice_le less) (merge_sort (slice_le less) l).
Proof.
  intros (Hirr & Htrans & Hneg). apply StronglySorted_merge_sort.
  - intros a b c. unfold slice_le. intros Hba Hcb. by apply (Hneg c b a).
  - intros a b. unfold slice_le. destruct (less b a) eqn:Hba; [|by left]. right.
    destruct (less a b) eqn:Hab; [|done]. rewrite -(Hirr a). symmetry. by apply (Htrans a b a).
Qed.

#[global] Program Instance stable_sort : SortSlice := {|
  sort_Slice A less l := merge_sort (slice_le less) l;
|}.
Next Obligation. intros. apply merge_sort_Permutation. Qed.
Next Obligation. intros. by apply merge_sort_slice. Qed.

(** Orders given by a key. *)
Lemma strict_weak_str {A} (key : A -> string) : strict_weak (fun a b => key a <?s key b).
Proof.
  split_and!.
  - intros a. apply not_true_is_false. apply (irreflexivity str_lt).
  - intros a b c. apply (transitivity (R := str_lt)).
  - intros a b c. rewrite !str_ltb_leb !negb_false_iff. intros H1 H2. by eapply str_leb_trans.
Qed.

Lemma strict_weak_Z {A} (key : A -> Z) : strict_weak (fun a b => key a <? key b).
Proof. split_and!; intros *; rewrite ?Z.ltb_lt ?Z.ltb_ge; lia. Qed.

Lemma StronglySorted_total {A} (R : A -> A -> Prop) l x y : StronglySorted R l -> x ∈ l -> y ∈ l -> x = y \/ R x y \/ R y x.
Proof.
  induction 1 as [|z l _ IH Hf]; intros Hx Hy; [by apply elem_of_nil in Hx|]. rewrite Forall_forall in Hf.
  apply elem_of_cons in Hx as [->|Hx]; apply elem_of_cons in Hy as [->|Hy]; auto.
Qed.

(** A slice without ties has one sorted order. *)
Lemma sort_Slice_unique `{SortSlice} {A} (less : A -> A -> bool) l k : strict_weak less ->
  StronglySorted (fun a b => less a b = true) k -> l ≡ₚ k -> sort_Slice less l = k.
Proof.
  intros Hw Hk Hl. pose proof Hw as (Hirr & Htrans & _). apply (StronglySorted_unique_strong (slice_le less)).
  - intros x y Hx Hy H1 H2. unfold slice_le in *. rewrite sort_Slice_perm Hl in Hx. destruct (StronglySorted_total _ _ _ _ Hk Hx Hy) as [|[?|?]]; congruence.
  - by apply sort_Slice_sorted.
  - clear Hl. induction Hk as [|z k _ IH Hf]; constructor; [done|]. eapply Forall_impl; [exact Hf|]. intros y Hy. unfold slice_le.
    destruct (less y z) eqn:E; [|done]. rewrite -(Hirr y). symmetry. by apply (Htrans y z y).
  - by rewrite sort_Slice_perm.
Qed.

Lemma StronglySorted_mono {A} (R R' : A -> A -> Prop) l :
  (forall a b, R a b -> R' a b) -> StronglySorted R l -> StronglySorted R' l.
Proof.
  intros HR. induction 1 as [|x l Hl IH Hx]; constructor; [done|]. eapply Forall_impl; [exact Hx|]. intros y. apply HR.
Qed.

Lemma StronglySorted_bfilter {A} (R : A -> A -> Prop) f l : StronglySorted R l -> StronglySorted R (List.filter f l).
Proof.
  induction 1 as [|x l Hl IH Hx]; [constructor|]. cbn [List.filter]. destruct (f x); [|done]. constructor; [done|].
  apply Forall_forall. intros y [Hy _]%list_elem_of_In%filter_In. rewrite Forall_forall in Hx. by apply Hx, list_elem_of_In.
Qed.

#[global] Instance bfilter_perm {A} (f : A -> bool) : Proper (Permutation ==> Permutation) (List.filter f).
Proof.
  induction 1; cbn [List.filter]; [done| | |by etrans].
  - destruct (f x); by rewrite ?IHPermutation.
  - destruct (f x), (f y); try done. constructor.
Qed.

Lemma StronglySorted_lookup_lt {A} (R : A -> A -> Prop) l i j a b :
  StronglySorted R l -> l !! i = Some a -> l !! j = Some b -> (i < j)%nat -> R a b.
Proof.
  intros Hs. revert i j. induction Hs as [|x l Hl IH Hx]; intros i j Hi Hj Hij; [done|].
  destruct j as [|j]; [lia|]. destruct i as [|i]; simplify_eq/=; [|apply (IH i j); [done|done|lia]].
  rewrite Forall_forall in Hx. by apply Hx, list_elem_of_lookup_2 with j.
Qed.
