(* ===== verification/Float64.v ===== *)
(** * Float64: Go's float64

    A [float64] is a binary64 number of IEEE 754, rounded to nearest even by
    the executable specification of the Standard Library. *)

From Stdlib Require Import SpecFloat.
From S2P Require Import Prelude.

Definition float64 : Type := spec_float.

(** [float64(z)] of an integer. *)
Definition f64 (z : Z) : float64 := binary_normalize 53 1024 z 0 false.

Definition fadd (a b : float64) : float64 := SFadd 53 1024 a b.
Definition fsub (a b : float64) : float64 := SFsub 53 1024 a b.
Definition fmul (a b : float64) : float64 := SFmul 53 1024 a b.
Definition fdiv (a b : float64) : float64 := SFdiv 53 1024 a b.
Definition fsqrt (a : float64) : float64 := SFsqrt 53 1024 a.
Definition fltb (a b : float64) : bool := SFltb a b.
Definition fleb (a b : float64) : bool := SFleb a b.
Definition feqb (a b : float64) : bool := SFeqb a b.

(** A decimal constant [m / 10^k] of at most 15 digits: both are exact, so the
    quotient is the nearest float. *)
Definition fdec (m : Z) (k : nat) : float64 := fdiv (f64 m) (f64 (10 ^ Z.of_nat k)).

(** [int64(f)] of a float in range: truncation towards zero. *)
Definition ftrunc (f : float64) : Z :=
  match f with
  | S754_finite s m e =>
      let v := if 0 <=? e then Z.pos m * 2 ^ e else Z.pos m / 2 ^ (- e) in if s then - v else v
  | _ => 0
  end.

Definition fzero : float64 := f64 0.

(** [time.Second] and [Duration.Seconds]. *)
Definition Second : Z := 1000000000.

Definition Seconds (d : Z) : float64 := fadd (f64 (Z.quot d Second)) (fdiv (f64 (Z.rem d Second)) (f64 Second)).

Lemma fleb_refl_not_nan f : f <> S754_nan -> fleb f f = true.
Proof.
  intros Hf. unfold fleb, SFleb, SFcompare. destruct f as [s|s| |s m e]; try done; [by destruct s|].
  rewrite Z.compare_refl. change (Pos.compare_cont Eq m m) with (Pos.compare m m). rewrite Pos.compare_refl. by destruct s.
Qed.

(** A number is never both below and at least another. *)
Lemma fltb_fleb a b : fltb a b = true -> fleb b a = false.
Proof.
  unfold fltb, fleb, SFltb, SFleb, SFcompare.
  destruct a as [s|s| |s m e], b as [s'|s'| |s' m' e']; try done; try (by destruct s); try (by destruct s'); try (by destruct s, s').
  rewrite (Z.compare_antisym e e'). change (Pos.compare_cont Eq m' m) with (Pos.compare m' m).
  change (Pos.compare_cont Eq m m') with (Pos.compare m m'). rewrite (Pos.compare_antisym m m').
  destruct s, s'; try done; destruct (e ?= e'); simpl; try done; by destruct (Pos.compare m m').
Qed.

(** ** Small integers are exact

    [rep f z]: the float is the integer [z] of less than 53 bits, with its
    mantissa normalised. *)

Notation two53 := (2 ^ 53).

Definition rep (f : float64) (z : Z) : Prop :=
  (z = 0 /\ f = S754_zero false) \/
  exists m e, f = S754_finite false m e /\ 0 < z < two53 /\ 2 ^ 52 <= Z.pos m < two53 /\ -52 <= e <= 0 /\ Z.pos m = z * 2 ^ (- e).

Lemma digits_log2 p : Z.pos (digits2_pos p) = Z.log2 (Z.pos p) + 1.
Proof.
  induction p as [p IH|p IH|]; [| |done]; cbn [digits2_pos]; rewrite Pos2Z.inj_succ IH.
  - rewrite (Pos2Z.inj_xI p) Z.log2_succ_double; lia.
  - rewrite (Pos2Z.inj_xO p) Z.log2_double; lia.
Qed.

Lemma iter_pos_nat {A} (f : A -> A) n x : SpecFloat.iter_pos f n x = Nat.iter (Pos.to_nat n) f x.
Proof.
  revert x. induction n as [n IH|n IH|]; intros x; [| |done]; cbn [SpecFloat.iter_pos]; rewrite !IH.
  - rewrite Pos2Nat.inj_xI. replace (S (2 * Pos.to_nat n)) with (Pos.to_nat n + (Pos.to_nat n + 1))%nat by lia. by rewrite !Nat.iter_add.
  - rewrite Pos2Nat.inj_xO. replace (2 * Pos.to_nat n)%nat with (Pos.to_nat n + Pos.to_nat n)%nat by lia. by rewrite Nat.iter_add.
Qed.

Lemma shr_exact n k : 0 < k -> Nat.iter n shr_1 (Build_shr_record (k * 2 ^ Z.of_nat n) false false) = Build_shr_record k false false.
Proof.
  intros Hk. induction n as [|n IH]; [by rewrite Z.mul_1_r|]. rewrite Nat.iter_succ_r.
  replace (shr_1 _) with (Build_shr_record (k * 2 ^ Z.of_nat n) false false); [done|].
  rewrite Nat2Z.inj_succ Z.pow_succ_r; [|lia]. assert (0 < k * 2 ^ Z.of_nat n) by (apply Z.mul_pos_pos; lia).
  replace (k * (2 * 2 ^ Z.of_nat n)) with (2 * (k * 2 ^ Z.of_nat n)) by lia. by destruct (k * 2 ^ Z.of_nat n).
Qed.

Lemma shl_align_value m e e' : e' <= e -> Z.pos (fst (shl_align m e e')) = Z.pos m * 2 ^ (e - e') /\ snd (shl_align m e e') = e'.
Proof.
  intros He. unfold shl_align. destruct (e' - e) as [|p|p] eqn:Hd; [|lia|].
  - replace (e - e') with 0 by lia. cbn. lia.
  - replace (e - e') with (Z.pos p) by lia. cbn [fst snd]. split; [|done]. clear Hd.
    rewrite Pos2Nat.inj_iter. rewrite -(positive_nat_Z p). induction (Pos.to_nat p) as [|n IH]; [cbn; lia|].
    rewrite Nat2Z.inj_succ Z.pow_succ_r; [|lia]. cbn [Nat.iter nat_rect]. rewrite Pos2Z.inj_xO. unfold Nat.iter in IH. lia.
Qed.

Lemma fexp_small x : -1000 <= x -> fexp 53 1024 x = x - 53.
Proof. intros. unfold fexp, emin. lia. Qed.

(** Shifting a mantissa with enough zeros to 53 bits is exact. *)
Lemma shr_fexp_exact z M E : 0 < z < two53 -> -900 <= E <= 0 -> M = z * 2 ^ (- E) -> 2 ^ 52 <= M ->
  exists k E', shr_fexp 53 1024 M E loc_Exact = (Build_shr_record k false false, E') /\
    2 ^ 52 <= k < two53 /\ -52 <= E' <= 0 /\ k = z * 2 ^ (- E').
Proof.
  intros Hz HE HM Hlow. assert (Hpos : 0 < M) by lia. unfold shr_fexp. destruct M as [|p|p]; [lia| |lia]. cbn [Zdigits2 shr_record_of_loc].
  assert (Hlog : Z.log2 (Z.pos p) = Z.log2 z - E). { rewrite HM Z.log2_mul_pow2; lia. }
  assert (Hz2 : 0 <= Z.log2 z <= 52). { split; [apply Z.log2_nonneg|]. enough (Z.log2 z < 53) by lia. apply Z.log2_lt_pow2; lia. }
  assert (Hp52 : 52 <= Z.log2 (Z.pos p)) by (apply Z.log2_le_pow2; lia).
  rewrite digits_log2 fexp_small; [|lia]. set (n := Z.log2 (Z.pos p) + 1 + E - 53 - E).
  assert (Hk : Z.pos p = (z * 2 ^ (- (E + n))) * 2 ^ n). { rewrite HM -Z.mul_assoc -Z.pow_add_r; [f_equal; f_equal; lia|lia|lia]. }
  assert (Hk0 : 0 < z * 2 ^ (- (E + n))) by (apply Z.mul_pos_pos; [lia|apply Z.pow_pos_nonneg; lia]).
  assert (Hklog : Z.log2 (z * 2 ^ (- (E + n))) = 52) by (rewrite Z.log2_mul_pow2; lia).
  exists (z * 2 ^ (- (E + n))), (E + n). split; [|split; [pose proof (Z.log2_spec _ Hk0) as Hs; rewrite Hklog in Hs; exact Hs|split; [lia|done]]].
  rewrite Hk. destruct n as [|q|q] eqn:Hn; [|cbn [shr]|lia].
  - cbn [shr]. by rewrite Z.mul_1_r Z.add_0_r.
  - rewrite iter_pos_nat. rewrite -{2}(positive_nat_Z q) shr_exact //.
Qed.

Lemma round_rep z M E : 0 < z < two53 -> -900 <= E <= 0 -> M = z * 2 ^ (- E) -> 2 ^ 52 <= M ->
  rep (binary_round_aux 53 1024 false M E loc_Exact) z.
Proof.
  intros Hz HE HM Hlow. unfold binary_round_aux. destruct (shr_fexp_exact z M E Hz HE HM Hlow) as (k & E' & -> & Hk & HE' & Hkz).
  cbn [shr_m loc_of_shr_record round_nearest_even]. destruct (shr_fexp_exact z k E') as (k' & E'' & -> & Hk' & HE'' & Hkz'); [done|lia|done|lia|].
  cbn [shr_m]. destruct k' as [|p|p]; [lia| |lia]. destruct (Z.leb_spec E'' (1024 - 53)); [|lia]. right. by exists p, E''.
Qed.

Lemma normalize_rep z M E : 0 <= z < two53 -> -800 <= E <= 0 -> M = z * 2 ^ (- E) -> rep (binary_normalize 53 1024 M E false) z.
Proof.
  intros Hz HE HM. destruct (decide (z = 0)) as [->|Hne]; [left; by rewrite HM|]. assert (Hz' : 0 < z < two53) by lia.
  assert (0 < M) by (rewrite HM; apply Z.mul_pos_pos; [lia|apply Z.pow_pos_nonneg; lia]). destruct M as [|p|p]; [lia| |lia]. cbn [binary_normalize].
  unfold binary_round. rewrite digits_log2. pose proof (Z.log2_nonneg (Z.pos p)) as Hl0. rewrite fexp_small; [|lia].
  destruct (Z.log2_spec (Z.pos p)) as [Hlo Hhi]; [done|]. destruct (decide (52 <= Z.log2 (Z.pos p))) as [Hbig|Hsmall].
  - replace (shl_align _ _ _) with (p, E) by (unfold shl_align; destruct (Z.log2 (Z.pos p) + 1 + E - 53 - E) eqn:Hd; [done|done|lia]).
    apply round_rep; [done|lia|done|]. etrans; [|exact Hlo]. apply Z.pow_le_mono_r; lia.
  - set (E' := Z.log2 (Z.pos p) + 1 + E - 53). destruct (shl_align_value p E E') as [Hv Hs]; [lia|]. destruct (shl_align p E E') as [m' e']. cbn in Hv, Hs. subst e'.
    apply round_rep; [done|lia| |].
    + rewrite Hv HM -Z.mul_assoc -Z.pow_add_r; [f_equal; f_equal; lia|lia|lia].
    + rewrite Hv. replace (2 ^ 52) with (2 ^ Z.log2 (Z.pos p) * 2 ^ (E - E')); [apply Z.mul_le_mono_nonneg_r; lia|]. rewrite -Z.pow_add_r; [f_equal; lia|lia|lia].
Qed.

Lemma rep_f64 z : 0 <= z < two53 -> rep (f64 z) z.
Proof. intros Hz. apply normalize_rep; [done|lia|lia]. Qed.

(** The mantissa of an integer has its leading bit at the top: a smaller
    exponent is a smaller integer. *)
Lemma rep_exponent z1 z2 m1 m2 e1 e2 : 2 ^ 52 <= m1 < two53 -> 2 ^ 52 <= m2 < two53 -> e1 <= 0 -> e2 <= 0 ->
  m1 = z1 * 2 ^ (- e1) -> m2 = z2 * 2 ^ (- e2) -> e1 < e2 -> z1 < z2.
Proof.
  intros Hm1 Hm2 He1 He2 Hz1 Hz2 Hlt. assert (Hp : 0 < 2 ^ (- e2)) by (apply Z.pow_pos_nonneg; lia).
  assert (Heq : m1 = 2 * 2 ^ (e2 - e1 - 1) * (z1 * 2 ^ (- e2))).
  { rewrite Hz1. replace (- e1) with (1 + (e2 - e1 - 1) + (- e2)) by lia. rewrite (Z.pow_add_r 2 (1 + (e2 - e1 - 1)) (- e2)); [|lia|lia]. rewrite (Z.pow_add_r 2 1 (e2 - e1 - 1)); [|lia|lia]. ring. }
  assert (0 < 2 ^ (e2 - e1 - 1)) by (apply Z.pow_pos_nonneg; lia). apply (Z.mul_lt_mono_pos_r (2 ^ (- e2))); [done|]. rewrite -Hz2.
  set (q := z1 * 2 ^ (- e2)) in *. set (r := 2 ^ (e2 - e1 - 1)) in *. clearbody q r. nia.
Qed.

Lemma rep_unique f g z : rep f z -> rep g z -> f = g.
Proof.
  intros [[-> ->]|(m1 & e1 & -> & Hz & Hm1 & He1 & Hv1)] [[? ->]|(m2 & e2 & -> & Hz2 & Hm2 & He2 & Hv2)]; [done|lia|lia|].
  assert (e1 = e2) as ->.
  { destruct (Z.lt_trichotomy e1 e2) as [Hlt|[?|Hlt]]; [|done|].
    - assert (z < z) by (apply (rep_exponent z z (Z.pos m1) (Z.pos m2) e1 e2); (done || lia)). lia.
    - assert (z < z) by (apply (rep_exponent z z (Z.pos m2) (Z.pos m1) e2 e1); (done || lia)). lia. }
  f_equal. congruence.
Qed.

Lemma rep_eq f z : 0 <= z < two53 -> rep f z -> f = f64 z.
Proof. intros Hz Hf. apply (rep_unique _ _ z); [done|by apply rep_f64]. Qed.

Lemma f64_pos z : 0 < z < two53 -> exists m e, f64 z = S754_finite false m e /\ 2 ^ 52 <= Z.pos m < two53 /\ -52 <= e <= 0 /\ Z.pos m = z * 2 ^ (- e).
Proof. intros Hz. destruct (rep_f64 z) as [[? _]|(m & e & -> & _ & ?)]; [lia|lia|eauto]. Qed.

Lemma f64_add a b : 0 <= a -> 0 <= b -> a + b < two53 -> fadd (f64 a) (f64 b) = f64 (a + b).
Proof.
  intros Ha Hb Hs. destruct (decide (a = 0)) as [->|Ha'].
  { rewrite Z.add_0_l. destruct (rep_f64 b) as [[_ ->]|(m & e & -> & _)]; [lia|done|done]. }
  destruct (decide (b = 0)) as [->|Hb'].
  { rewrite Z.add_0_r. destruct (rep_f64 a) as [[_ ->]|(m & e & -> & _)]; [lia|done|done]. }
  apply rep_eq; [lia|]. destruct (f64_pos a) as (m1 & e1 & -> & Hm1 & He1 & Hv1); [lia|]. destruct (f64_pos b) as (m2 & e2 & -> & Hm2 & He2 & Hv2); [lia|].
  unfold fadd, SFadd. cbn [cond_Zopp]. apply normalize_rep; [lia|lia|].
  rewrite (proj1 (shl_align_value m1 e1 (Z.min e1 e2) ltac:(lia))) (proj1 (shl_align_value m2 e2 (Z.min e1 e2) ltac:(lia))) Hv1 Hv2.
  rewrite -!Z.mul_assoc -!Z.pow_add_r; try lia. replace (- e1 + (e1 - Z.min e1 e2)) with (- Z.min e1 e2) by lia.
  replace (- e2 + (e2 - Z.min e1 e2)) with (- Z.min e1 e2) by lia. lia.
Qed.

Lemma f64_sub a b : 0 <= b -> b <= a -> a < two53 -> fsub (f64 a) (f64 b) = f64 (a - b).
Proof.
  intros Hb Ha Hs. destruct (decide (b = 0)) as [->|Hb'].
  { rewrite Z.sub_0_r. destruct (rep_f64 a) as [[_ ->]|(m & e & -> & _)]; [lia|done|done]. }
  apply rep_eq; [lia|]. destruct (f64_pos a) as (m1 & e1 & -> & Hm1 & He1 & Hv1); [lia|]. destruct (f64_pos b) as (m2 & e2 & -> & Hm2 & He2 & Hv2); [lia|].
  unfold fsub, SFsub. cbn [cond_Zopp]. apply normalize_rep; [lia|lia|].
  rewrite (proj1 (shl_align_value m1 e1 (Z.min e1 e2) ltac:(lia))) (proj1 (shl_align_value m2 e2 (Z.min e1 e2) ltac:(lia))) Hv1 Hv2.
  rewrite -!Z.mul_assoc -!Z.pow_add_r; try lia. replace (- e1 + (e1 - Z.min e1 e2)) with (- Z.min e1 e2) by lia.
  replace (- e2 + (e2 - Z.min e1 e2)) with (- Z.min e1 e2) by lia. lia.
Qed.

Lemma f64_mul a b : 0 <= a < two53 -> 0 <= b < two53 -> a * b < two53 -> fmul (f64 a) (f64 b) = f64 (a * b).
Proof.
  intros Ha Hb Hs. destruct (decide (a = 0)) as [->|Ha'].
  { destruct (rep_f64 b) as [[_ ->]|(m & e & -> & _)]; [lia|done|done]. }
  destruct (decide (b = 0)) as [->|Hb'].
  { rewrite Z.mul_0_r. destruct (rep_f64 a) as [[_ ->]|(m & e & -> & _)]; [lia|done|done]. }
  assert (0 < a * b) by (apply Z.mul_pos_pos; lia).
  apply rep_eq; [lia|]. destruct (f64_pos a) as (m1 & e1 & -> & Hm1 & He1 & Hv1); [lia|]. destruct (f64_pos b) as (m2 & e2 & -> & Hm2 & He2 & Hv2); [lia|].
  unfold fmul, SFmul. cbn [xorb]. apply round_rep; [lia|lia| |]; rewrite Pos2Z.inj_mul; [|nia].
  rewrite Hv1 Hv2. replace (- (e1 + e2)) with (- e1 + - e2) by lia. rewrite Z.pow_add_r; [ring|lia|lia].
Qed.

Lemma f64_compare a b : 0 <= a < two53 -> 0 <= b < two53 -> SFcompare (f64 a) (f64 b) = Some (a ?= b).
Proof.
  intros Ha Hb. destruct (rep_f64 a Ha) as [[-> ->]|(m1 & e1 & -> & Hz1 & Hm1 & He1 & Hv1)];
    destruct (rep_f64 b Hb) as [[-> ->]|(m2 & e2 & -> & Hz2 & Hm2 & He2 & Hv2)]; cbn [SFcompare]; [done| | |].
  - f_equal. symmetry. apply Z.compare_lt_iff. lia.
  - f_equal. symmetry. apply Z.compare_gt_iff. lia.
  - f_equal. destruct (Z.compare_spec e1 e2) as [->|Hlt|Hgt].
    + change (Pos.compare_cont Eq m1 m2) with (Z.compare (Z.pos m1) (Z.pos m2)). rewrite Hv1 Hv2. symmetry.
      apply Zmult_compare_compat_r. apply Z.lt_gt, Z.pow_pos_nonneg; lia.
    + symmetry. apply Z.compare_lt_iff. apply (rep_exponent a b (Z.pos m1) (Z.pos m2) e1 e2); (done || lia).
    + symmetry. apply Z.compare_gt_iff. apply (rep_exponent b a (Z.pos m2) (Z.pos m1) e2 e1); (done || lia).
Qed.

Lemma f64_leb a b : 0 <= a < two53 -> 0 <= b < two53 -> fleb (f64 a) (f64 b) = (a <=? b).
Proof. intros Ha Hb. unfold fleb, SFleb. by rewrite f64_compare. Qed.

Lemma f64_ltb a b : 0 <= a < two53 -> 0 <= b < two53 -> fltb (f64 a) (f64 b) = (a <? b).
Proof. intros Ha Hb. unfold fltb, SFltb. by rewrite f64_compare. Qed.

Lemma f64_trunc z : 0 <= z < two53 -> ftrunc (f64 z) = z.
Proof.
  intros Hz. destruct (rep_f64 z Hz) as [[-> ->]|(m & e & -> & Hz1 & Hm & He & Hv)]; [done|]. cbn [ftrunc].
  destruct (Z.leb_spec 0 e) as [He0|He0].
  - assert (e = 0) as -> by lia. cbn in *. lia.
  - rewrite Hv. apply Z.div_mul. apply Z.pow_nonzero; lia.
Qed.
