(* ===== verification/Hlc.v ===== *)
(** * Hlc: the hybrid logical clock (pkg/clock/hlc.go)

    [HLCTimestamp] is an [int64] packing 48 bits of physical milliseconds
    and a 16-bit logical counter.  [HLC] keeps the largest physical time
    seen ([l]) and a logical counter ([c], a [uint16]).  The wall clock is
    not part of the repository: each operation takes the value
    [h.wallClock().UnixMilli()] it reads as the argument [ptMs]. *)

From S2P Require Import Prelude Bytes.

Definition MaxClockSkewMs : Z := 500.
Definition LogicalBits : Z := 16.
Definition LogicalMax : Z := Z.shiftl 1 LogicalBits - 1.

Definition Pack (physicalMs logical : Z) : Z :=
  Z.lor (i64 (Z.shiftl physicalMs LogicalBits)) logical.

Definition Unpack (ts : Z) : Z * Z :=
  (Z.shiftr ts LogicalBits, u16 (Z.land ts LogicalMax)).

Definition HLC_Logical (ts : Z) : Z := snd (Unpack ts).
Definition HLC_Before (ts other : Z) : bool := ts <? other.
Definition HLC_After (ts other : Z) : bool := other <? ts.
Definition HLC_Equal (ts other : Z) : bool := ts =? other.

Definition ToBytes (ts : Z) : bytes := put_be 8 (u64 ts).
Definition HLCTimestampFromBytes (b : bytes) : Z := i64 (get_be (take 8 b)).

Record HLC := mkHLC {
  hlc_nodeID : string;
  hlc_l : Z;
  hlc_c : Z;
  hlc_maxSkewMs : Z;
}.

Definition NewHLC (nodeID : string) : HLC := mkHLC nodeID 0 0 MaxClockSkewMs.

(** [Now]: the new timestamp and the new clock.  [h.c] is a [uint16], so
    [h.c++] wraps before the comparison with [LogicalMax]. *)
Definition HLC_Now (ptMs : Z) (h : HLC) : Z * HLC :=
  let lNew := if ptMs <? hlc_l h then hlc_l h else ptMs in
  let '(lNew, c) :=
    if lNew =? hlc_l h then
      let c := u16 (hlc_c h + 1) in
      if LogicalMax <? c then (i64 (lNew + 1), 0) else (lNew, c)
    else (lNew, 0) in
  (Pack lNew c, mkHLC (hlc_nodeID h) lNew c (hlc_maxSkewMs h)).

Inductive HLCError := ErrFutureTimestamp (msgL ptMs maxFutureMs : Z).

(** [Update]: an error leaves the clock as it was. *)
Definition HLC_Update (ptMs msgTS : Z) (h : HLC) : (HLCError + Z) * HLC :=
  let '(msgL, msgC) := Unpack msgTS in
  let maxFutureMs := i64 (ptMs + hlc_maxSkewMs h) in
  if maxFutureMs <? msgL then (inl (ErrFutureTimestamp msgL ptMs maxFutureMs), h)
  else
    let lNew := if ptMs <? hlc_l h then hlc_l h else ptMs in
    let lNew := if lNew <? msgL then msgL else lNew in
    let cNew :=
      if (lNew =? hlc_l h) && (lNew =? msgL) then
        u16 ((if hlc_c h <? msgC then msgC else hlc_c h) + 1)
      else if lNew =? hlc_l h then u16 (hlc_c h + 1)
      else if lNew =? msgL then u16 (msgC + 1)
      else 0 in
    (inr (Pack lNew cNew), mkHLC (hlc_nodeID h) lNew cNew (hlc_maxSkewMs h)).

Definition IsWithinSkewBound (now ts : Z) (h : HLC) : bool :=
  let '(physMs, _) := Unpack ts in
  let skew := i64 (physMs - now) in
  let skew := if skew <? 0 then i64 (- skew) else skew in
  skew <=? hlc_maxSkewMs h.

Definition ClockSkewMs (ptMs : Z) (h : HLC) : Z := i64 (hlc_l h - ptMs).

(** ** Well-formedness

    Physical times fit the 48 signed bits the packing leaves for them. *)

Abbreviation two47 := 140737488355328.

Definition phys_ok (p : Z) : Prop := - two47 <= p < two47.
Definition logical_ok (c : Z) : Prop := 0 <= c < two16.

Definition hlc_wf (h : HLC) : Prop := phys_ok (hlc_l h) /\ logical_ok (hlc_c h).

(** The timestamp the clock stands at. *)
Definition hlc_ts (h : HLC) : Z := Pack (hlc_l h) (hlc_c h).

Lemma Pack_eq p c : phys_ok p -> logical_ok c -> Pack p c = p * two16 + c.
Proof.
  unfold Pack, phys_ok, logical_ok, LogicalBits. intros Hp Hc.
  rewrite Z.shiftl_mul_pow2; [|lia].
  change (2 ^ 16) with two16. rewrite i64_small; [|lia].
  assert (Z.land (p * two16) c = 0) as Hand.
  { apply Z.bits_inj'. intros n Hn. rewrite Z.land_spec Z.bits_0.
    destruct (Z.lt_ge_cases n 16).
    { change two16 with (2 ^ 16). rewrite Z.mul_pow2_bits_low //. }
    rewrite -(Z.mod_small c two16) //. change two16 with (2 ^ 16).
    rewrite Z.mod_pow2_bits_high; [apply andb_false_r|lia]. }
  by rewrite Z.add_nocarry_lxor // Z.lxor_lor.
Qed.

Lemma Unpack_eq ts : Unpack ts = (ts / two16, ts mod two16).
Proof.
  unfold Unpack, LogicalMax, LogicalBits. rewrite Z.shiftr_div_pow2; [|lia].
  change (Z.shiftl 1 16 - 1) with (Z.ones 16). rewrite Z.land_ones; [|lia].
  change (2 ^ 16) with two16. f_equal. apply u16_small.
  apply Z.mod_pos_bound. lia.
Qed.

Lemma Unpack_Pack p c :
  phys_ok p -> logical_ok c -> Unpack (Pack p c) = (p, c).
Proof.
  intros Hp Hc. rewrite Pack_eq // Unpack_eq. unfold logical_ok in Hc.
  f_equal; [|symmetry]; first (symmetry; apply (Z.div_unique _ _ _ c); lia).
  apply (Z.mod_unique _ _ p); lia.
Qed.

Lemma Pack_Unpack ts :
  is_i64 ts -> let '(p, c) := Unpack ts in Pack p c = ts.
Proof.
  unfold is_i64. intros Hts. rewrite Unpack_eq.
  pose proof (Z.div_mod ts two16). pose proof (Z.mod_pos_bound ts two16).
  rewrite Pack_eq; unfold phys_ok, logical_ok; lia.
Qed.

Lemma LogicalMax_eq : LogicalMax = 65535.
Proof. done. Qed.

Lemma Pack_lt p c p' c' :
  phys_ok p -> logical_ok c -> phys_ok p' -> logical_ok c' ->
  Pack p c < Pack p' c' <-> p < p' \/ (p = p' /\ c < c').
Proof.
  intros. rewrite !Pack_eq //. unfold logical_ok in *. lia.
Qed.

(** Decides an order between two packed timestamps. *)
Ltac pack_lt :=
  unfold hlc_ts; apply Pack_lt; unfold phys_ok, logical_ok in *; lia.

(** ** What [Now] does on every branch *)

Lemma HLC_Now_spec ptMs h :
  hlc_wf h ->
  HLC_Now ptMs h =
    let l := Z.max ptMs (hlc_l h) in
    let c := if ptMs <=? hlc_l h then u16 (hlc_c h + 1) else 0 in
    (Pack l c, mkHLC (hlc_nodeID h) l c (hlc_maxSkewMs h)).
Proof.
  intros [Hl Hc]. unfold HLC_Now. rewrite LogicalMax_eq.
  pose proof (u16_range (hlc_c h + 1)).
  destruct (Z.ltb_spec ptMs (hlc_l h)), (Z.leb_spec ptMs (hlc_l h)); try lia.
  - rewrite Z.eqb_refl. destruct (Z.ltb_spec 65535 (u16 (hlc_c h + 1))); [lia|].
    by rewrite Z.max_r; [|lia].
  - assert (ptMs = hlc_l h) as -> by lia. rewrite Z.eqb_refl Z.max_id.
    by destruct (Z.ltb_spec 65535 (u16 (hlc_c h + 1))); [lia|].
  - rewrite Z.max_l; [|lia]. by destruct (Z.eqb_spec ptMs (hlc_l h)); [lia|].
Qed.

(** A clock stays well formed and its timestamps are [int64]s. *)
Lemma HLC_Now_wf ptMs h ts h' :
  hlc_wf h -> phys_ok ptMs -> HLC_Now ptMs h = (ts, h') -> hlc_wf h' /\ is_i64 ts.
Proof.
  intros Hwf Hp. rewrite HLC_Now_spec //. destruct Hwf as [Hl Hc]. cbv zeta. intros [= <- <-].
  assert (logical_ok (if ptMs <=? hlc_l h then u16 (hlc_c h + 1) else 0)) as Hlc.
  { unfold logical_ok. destruct (_ <=? _); [apply u16_range|lia]. }
  assert (phys_ok (ptMs `max` hlc_l h)) by (unfold phys_ok in *; lia).
  split; [done|]. rewrite Pack_eq //. unfold is_i64, phys_ok, logical_ok in *. lia.
Qed.

(** ** Sequences of operations on one clock *)

Inductive hlc_op :=
| OpNow (ptMs : Z)
| OpUpdate (ptMs msgTS : Z).

Definition op_wall (o : hlc_op) : Z :=
  match o with OpNow pt | OpUpdate pt _ => pt end.

(** One operation: the timestamp handed out, if any, and the new clock. *)
Definition hlc_step (o : hlc_op) (h : HLC) : option Z * HLC :=
  match o with
  | OpNow pt => let '(ts, h) := HLC_Now pt h in (Some ts, h)
  | OpUpdate pt msg =>
      match HLC_Update pt msg h with
      | (inr ts, h) => (Some ts, h)
      | (inl _, h) => (None, h)
      end
  end.

Fixpoint hlc_run (os : list hlc_op) (h : HLC) : list Z * HLC :=
  match os with
  | [] => ([], h)
  | o :: os =>
      let '(r, h) := hlc_step o h in
      let '(tss, h) := hlc_run os h in
      (match r with Some ts => ts :: tss | None => tss end, h)
  end.

Definition op_ok (o : hlc_op) : Prop :=
  match o with
  | OpNow pt => phys_ok pt
  | OpUpdate pt msg => phys_ok pt /\ phys_ok (pt + MaxClockSkewMs) /\ is_i64 msg
  end.

(** The logical counter can be advanced: it is not at its maximum, or the
    operation moves to a new physical time. *)
Definition headroom (o : hlc_op) (h : HLC) : Prop :=
  match o with
  | OpNow pt => hlc_l h < pt \/ hlc_c h < LogicalMax
  | OpUpdate pt msg =>
      let '(msgL, msgC) := Unpack msg in
      (Z.max (hlc_l h) msgL < pt \/ (hlc_c h < LogicalMax /\ msgC < LogicalMax))
  end.

Lemma Unpack_ok msg p c :
  is_i64 msg -> Unpack msg = (p, c) -> phys_ok p /\ logical_ok c /\ msg = Pack p c.
Proof.
  unfold is_i64. intros Hm Hu. pose proof (Pack_Unpack msg Hm) as Hp.
  rewrite Hu in Hp. rewrite Unpack_eq in Hu. injection Hu as <- <-.
  pose proof (Z.div_mod msg two16). pose proof (Z.mod_pos_bound msg two16).
  unfold phys_ok, logical_ok. split_and!; lia.
Qed.

Lemma HLC_Now_lt ptMs h :
  hlc_wf h -> phys_ok ptMs -> headroom (OpNow ptMs) h ->
  let '(ts, h') := HLC_Now ptMs h in
  hlc_ts h < ts /\ ts = hlc_ts h' /\ hlc_wf h'.
Proof.
  intros Hwf Hpt Hroom. rewrite HLC_Now_spec //. simpl in Hroom |- *.
  rewrite LogicalMax_eq in Hroom. destruct Hwf as [Hl Hc].
  unfold logical_ok in Hc. destruct (Z.leb_spec ptMs (hlc_l h)).
  - assert (hlc_c h < 65535) by lia. rewrite Z.max_r; [|lia].
    rewrite u16_small; [|lia].
    split_and!; [|done|by split; [|hnf; simpl; lia]].
    pack_lt.
  - rewrite Z.max_l; [|lia]. split_and!; [|done|done].
    pack_lt.
Qed.

(** A clock whose counter has been advanced at most [n] times. *)
Definition clock_used (n : Z) (h : HLC) : Prop := hlc_wf h /\ 0 <= hlc_l h /\ hlc_c h <= n.

Lemma HLC_Now_used n ptMs h ts h' :
  clock_used n h -> n < LogicalMax -> 0 <= ptMs < two47 -> HLC_Now ptMs h = (ts, h') ->
  clock_used (n + 1) h' /\ hlc_ts h < ts /\ ts = hlc_ts h'.
Proof.
  rewrite LogicalMax_eq. intros (Hwf & Hl & Hc) Hn Hp H. assert (Hpo : phys_ok ptMs) by (unfold phys_ok; lia).
  pose proof (HLC_Now_lt ptMs h Hwf Hpo) as Hlt. rewrite H in Hlt.
  destruct Hlt as (Hlt & Hts & Hwf'); [right; rewrite LogicalMax_eq; lia|]. unfold clock_used. split_and!; [done| | |done|done];
    rewrite HLC_Now_spec // in H; injection H as _ <-; simpl; [lia|]. destruct Hwf as [_ Hco]. unfold logical_ok in Hco.
  destruct (ptMs <=? hlc_l h); [rewrite u16_small; lia|lia].
Qed.

Lemma HLC_Update_err ptMs msg h :
  phys_ok (ptMs + hlc_maxSkewMs h) ->
  (exists e, fst (HLC_Update ptMs msg h) = inl e) <->
  ptMs + hlc_maxSkewMs h < fst (Unpack msg).
Proof.
  unfold phys_ok. intros Hpt. unfold HLC_Update. destruct (Unpack msg) as [mL mC].
  rewrite i64_small; [|lia]. simpl.
  destruct (Z.ltb_spec (ptMs + hlc_maxSkewMs h) mL); simpl; [split; [done|eauto]|].
  split; [by intros [? [=]]|lia].
Qed.

(** A successful [Update] moves past the message and past the clock. *)
Lemma HLC_Update_lt ptMs msg h ts h' :
  hlc_wf h -> phys_ok ptMs -> is_i64 msg -> headroom (OpUpdate ptMs msg) h ->
  HLC_Update ptMs msg h = (inr ts, h') ->
  hlc_ts h < ts /\ msg < ts /\ ts = hlc_ts h' /\ hlc_wf h'.
Proof.
  intros [Hl Hc] Hpt Hm Hroom Hup. unfold HLC_Update, headroom in *.
  destruct (Unpack msg) as [mL mC] eqn:Hu.
  apply Unpack_ok in Hu as (HmL & HmC & ->); [|done].
  rewrite LogicalMax_eq in Hroom. split_if_in Hup; [done|]. simplify_eq.
  unfold hlc_ts, hlc_wf. simpl. unfold logical_ok in Hc, HmC.
  set (l0 := if ptMs <? hlc_l h then hlc_l h else ptMs).
  assert (Hl0 : l0 = Z.max ptMs (hlc_l h)) by (unfold l0; split_if; lia).
  set (l1 := if l0 <? mL then mL else l0).
  assert (Hl1 : l1 = Z.max l0 mL) by (unfold l1; split_if; lia).
  assert (Hphys : phys_ok l1) by (unfold phys_ok in *; lia).
  repeat split_if; try (rewrite u16_small; [|lia]);
    split_and!; try done; try (unfold logical_ok; lia);
    pack_lt.
Qed.

Lemma hlc_step_lt o h :
  hlc_wf h -> op_ok o -> headroom o h ->
  let '(r, h') := hlc_step o h in
  hlc_wf h' /\ hlc_ts h <= hlc_ts h' /\
  match r with Some ts => hlc_ts h < ts /\ ts = hlc_ts h' | None => h' = h end.
Proof.
  intros Hwf Hok Hroom. destruct o as [pt|pt msg]; simpl in Hok; simpl.
  - pose proof (HLC_Now_lt pt h Hwf Hok Hroom) as Hnow.
    destruct (HLC_Now pt h) as [ts h']. destruct Hnow as (? & -> & ?).
    split_and!; auto; lia.
  - destruct Hok as (Hpt & _ & Hm).
    destruct (HLC_Update pt msg h) as [[e|ts] h'] eqn:Hup.
    + assert (h' = h) as ->; [|split_and!; auto; lia].
      unfold HLC_Update in Hup. destruct (Unpack msg). split_if_in Hup; congruence.
    + apply HLC_Update_lt in Hup as (? & ? & -> & ?); auto.
      split_and!; auto; lia.
Qed.

(** Every step of a run finds room in the logical counter. *)
Fixpoint run_headroom (os : list hlc_op) (h : HLC) : Prop :=
  match os with
  | [] => True
  | o :: os => headroom o h /\ run_headroom os (snd (hlc_step o h))
  end.

Lemma hlc_run_lt os h :
  hlc_wf h -> Forall op_ok os -> run_headroom os h ->
  StronglySorted Z.lt (hlc_ts h :: fst (hlc_run os h)) /\ hlc_wf (snd (hlc_run os h)).
Proof.
  revert h. induction os as [|o os IH]; intros h Hwf Hok Hroom.
  { simpl. split; [repeat constructor|done]. }
  inversion_clear Hok as [|?? Ho Hos]. destruct Hroom as [Hr Hroom].
  pose proof (hlc_step_lt o h Hwf Ho Hr) as Hstep. simpl in *.
  destruct (hlc_step o h) as [r h1]. destruct Hstep as (Hwf1 & Hle & Hres).
  simpl in Hroom. specialize (IH h1 Hwf1 Hos Hroom) as [Hs Hw].
  destruct (hlc_run os h1) as [tss h2]. simpl in *. split; [|done].
  inversion_clear Hs as [|?? Hss Hall].
  destruct r as [ts|]; [destruct Hres as [Hlt ->]|subst h1].
  - constructor; [by constructor|]. constructor; [done|].
    eapply Forall_impl; [exact Hall|]. simpl. lia.
  - by constructor.
Qed.

Lemma HLC_Now_headroom_run os h :
  hlc_wf h -> hlc_c h + Z.of_nat (length os) <= LogicalMax ->
  Forall (fun o => exists pt, o = OpNow pt /\ phys_ok pt) os ->
  run_headroom os h.
Proof.
  revert h. induction os as [|o os IH]; intros h Hwf Hlen Hall; [done|].
  inversion_clear Hall as [|?? (pt & -> & Hpt) Hos]. simpl length in Hlen.
  assert (Hroom : headroom (OpNow pt) h) by (simpl; lia).
  split; [exact Hroom|]. pose proof (HLC_Now_lt pt h Hwf Hpt Hroom) as Hnow.
  simpl. rewrite HLC_Now_spec // in Hnow |- *. simpl in *.
  destruct Hnow as (_ & _ & Hwf'). apply IH; [done| |done]. simpl.
  destruct Hwf as [_ Hc]. unfold logical_ok in Hc. rewrite LogicalMax_eq in Hlen |- *.
  split_if; [rewrite u16_small; lia|lia].
Qed.

(** The physical component never runs ahead of the wall clock by more than
    the allowed skew. *)
Lemma hlc_step_drift o h T :
  hlc_wf h -> op_ok o -> hlc_maxSkewMs h = MaxClockSkewMs ->
  op_wall o <= T -> hlc_l h <= T + MaxClockSkewMs ->
  let h' := snd (hlc_step o h) in
  hlc_wf h' /\ hlc_maxSkewMs h' = MaxClockSkewMs /\ hlc_l h' <= T + MaxClockSkewMs.
Proof.
  intros Hwf Hok Hsk Hw Hl. unfold op_ok, MaxClockSkewMs in *.
  destruct o as [pt|pt msg]; simpl in *.
  - rewrite HLC_Now_spec //. destruct Hwf as [Hwl Hwc]. simpl.
    pose proof (u16_range (hlc_c h + 1)).
    unfold hlc_wf, phys_ok, logical_ok in *. simpl.
    split_and!; try done; repeat split_if; lia.
  - destruct Hok as (Hpt & Hptk & Hm). destruct (Unpack msg) as [mL mC] eqn:Hu.
    pose proof (Unpack_ok msg mL mC Hm Hu) as (HmL & HmC & _).
    unfold HLC_Update. rewrite Hu Hsk. unfold phys_ok in Hptk.
    rewrite i64_small; [|lia].
    destruct (Z.ltb_spec (pt + 500) mL); [done|]. simpl.
    destruct Hwf as [Hwl Hwc].
    unfold hlc_wf, phys_ok, logical_ok in *. simpl.
    split_and!; try done; repeat split_if; try lia;
      match goal with |- context [u16 ?z] => pose proof (u16_range z) end; lia.
Qed.

(** ** Properties *)

(** The timestamps a hybrid clock hands out, by [Now] and by successful
    [Update]s in any order and for any (also backwards) wall-clock readings,
    strictly increase and stay above the clock's initial timestamp, as long
    as no step needs more than the 16 bits of the logical counter. *)
Theorem hlc_timestamps_increase (os : list hlc_op) (h : HLC)
  (Hwf : hlc_wf h) (Hok : Forall op_ok os) (Hroom : run_headroom os h) :
  StronglySorted Z.lt (hlc_ts h :: fst (hlc_run os h)).
Proof. by apply hlc_run_lt. Qed.

Lemma hlc_timestamps_increase_witness :
  StronglySorted Z.lt
    (hlc_ts (NewHLC "n") ::
     fst (hlc_run [OpNow 1000; OpUpdate 1000 (Pack 1200 7); OpNow 900] (NewHLC "n"))).
Proof.
  apply (hlc_timestamps_increase [OpNow 1000; OpUpdate 1000 (Pack 1200 7); OpNow 900]).
  - done.
  - repeat constructor; done.
  - vm_compute. naive_solver.
Defined.

(** A fresh clock hands out strictly increasing timestamps for the first
    65535 calls of [Now] whatever the wall clock reads, even when it stalls
    or goes backwards. *)
Theorem hlc_fresh_clock_increases (nodeID : string) (pts : list Z)
  (Hpts : Forall phys_ok pts) (Hlen : Z.of_nat (length pts) <= LogicalMax) :
  StronglySorted Z.lt (fst (hlc_run (map OpNow pts) (NewHLC nodeID))).
Proof.
  assert (Hwf : hlc_wf (NewHLC nodeID)) by done.
  assert (Hnow : Forall (fun o => exists pt, o = OpNow pt /\ phys_ok pt) (map OpNow pts)).
  { apply Forall_map. eapply Forall_impl; [exact Hpts|]. simpl. eauto. }
  assert (Hroom : run_headroom (map OpNow pts) (NewHLC nodeID)).
  { apply HLC_Now_headroom_run; [done| |done]. rewrite length_map. simpl. lia. }
  assert (Hok : Forall op_ok (map OpNow pts)).
  { by apply Forall_map. }
  pose proof (hlc_run_lt _ _ Hwf Hok Hroom) as [Hs _]. by inversion Hs.
Qed.

Lemma hlc_fresh_clock_increases_witness :
  StronglySorted Z.lt (fst (hlc_run (map OpNow [5; 5; 3; 9]) (NewHLC "n"))).
Proof.
  apply (hlc_fresh_clock_increases "n" [5; 5; 3; 9]); [repeat constructor; done|done].
Defined.

(** When the logical counter is at its maximum and the wall clock has not
    moved past [l], [Now] wraps the [uint16] counter to 0 without advancing
    [l]: the overflow branch guarded by [h.c > LogicalMax] is dead code, and
    the timestamp returned is 65535 below the previous one. *)
Theorem hlc_now_goes_backwards (h : HLC) (ptMs : Z)
  (Hwf : hlc_wf h) (Hc : hlc_c h = LogicalMax) (Hpt : ptMs <= hlc_l h) :
  fst (HLC_Now ptMs h) = hlc_ts h - 65535 /\
  hlc_l (snd (HLC_Now ptMs h)) = hlc_l h /\ hlc_c (snd (HLC_Now ptMs h)) = 0.
Proof.
  rewrite HLC_Now_spec //. simpl. rewrite Z.max_r // Hc LogicalMax_eq.
  destruct (Z.leb_spec ptMs (hlc_l h)); [|lia]. split_and!; [|done..].
  change (u16 (65535 + 1)) with 0. destruct Hwf as [Hl _]. unfold hlc_ts.
  rewrite Hc LogicalMax_eq !Pack_eq //. lia.
Qed.

Lemma hlc_now_goes_backwards_witness :
  fst (HLC_Now 1000 (mkHLC "n" 1000 65535 500)) = hlc_ts (mkHLC "n" 1000 65535 500) - 65535 /\
  hlc_l (snd (HLC_Now 1000 (mkHLC "n" 1000 65535 500))) = 1000 /\
  hlc_c (snd (HLC_Now 1000 (mkHLC "n" 1000 65535 500))) = 0.
Proof. apply (hlc_now_goes_backwards (mkHLC "n" 1000 65535 500) 1000); done. Defined.

(** Whatever mix of [Now] and [Update] calls a fresh clock serves while
    its wall clock reads at most [T], its physical component stays within the
    500 ms skew of [T]: a peer with a fast clock cannot drag it further. *)
Theorem hlc_bounded_drift (nodeID : string) (os : list hlc_op) (T : Z)
  (Hok : Forall op_ok os) (HT : Forall (fun o => op_wall o <= T) os) (HT0 : 0 <= T) :
  hlc_l (snd (hlc_run os (NewHLC nodeID))) <= T + MaxClockSkewMs.
Proof.
  assert (Hinv : forall h, hlc_wf h -> hlc_maxSkewMs h = MaxClockSkewMs ->
    hlc_l h <= T + MaxClockSkewMs -> hlc_l (snd (hlc_run os h)) <= T + MaxClockSkewMs).
  { induction os as [|o os IH]; intros h Hwf Hsk Hl; [done|].
    inversion_clear Hok as [|?? Ho Hos]. inversion_clear HT as [|?? HTo HTs].
    destruct (hlc_step_drift o h T Hwf Ho Hsk HTo Hl) as (Hwf1 & Hsk1 & Hl1). simpl.
    destruct (hlc_step o h) as [r h1]. simpl in *.
    specialize (IH Hos HTs h1 Hwf1 Hsk1 Hl1). by destruct (hlc_run os h1). }
  apply Hinv; [done|done|]. unfold MaxClockSkewMs. simpl. lia.
Qed.

Lemma hlc_bounded_drift_witness :
  hlc_l (snd (hlc_run [OpNow 1000; OpUpdate 1001 (Pack 1400 3)] (NewHLC "n")))
    <= 1001 + MaxClockSkewMs.
Proof.
  apply (hlc_bounded_drift "n" [OpNow 1000; OpUpdate 1001 (Pack 1400 3)] 1001);
    repeat constructor; done.
Defined.

(** Packing, the 8-byte big-endian encoding stored in the WAL and the
    SSTables, decoding and unpacking give back the physical and the logical
    component, and the integer order of packed timestamps is the
    lexicographic order of the components. *)
Theorem hlc_timestamp_roundtrip (p c p' c' : Z)
  (Hp : phys_ok p) (Hc : logical_ok c) (Hp' : phys_ok p') (Hc' : logical_ok c') :
  Unpack (HLCTimestampFromBytes (ToBytes (Pack p c))) = (p, c) /\
  (HLC_Before (Pack p c) (Pack p' c') = true <-> p < p' \/ (p = p' /\ c < c')).
Proof.
  split.
  - unfold HLCTimestampFromBytes, ToBytes. rewrite take_ge.
    2:{ rewrite length_put_be. lia. }
    rewrite get_put_be64. unfold u64 at 1. rewrite Z.mod_mod // -/(u64 _) i64_u64.
    { by apply Unpack_Pack. }
    rewrite Pack_eq //. unfold phys_ok, logical_ok in *. lia.
  - unfold HLC_Before. rewrite Z.ltb_lt. by apply Pack_lt.
Qed.

Lemma hlc_timestamp_roundtrip_witness :
  Unpack (HLCTimestampFromBytes (ToBytes (Pack 1700000000000 65535))) = (1700000000000, 65535) /\
  (HLC_Before (Pack 1700000000000 65535) (Pack 1700000000001 0) = true <->
   1700000000000 < 1700000000001 \/ (1700000000000 = 1700000000001 /\ 65535 < 0)).
Proof. apply (hlc_timestamp_roundtrip 1700000000000 65535 1700000000001 0); done. Defined.
