(* ===== verification/LogicalClock.v ===== *)
(** * LogicalClock: Lamport and vector clocks
    (pkg/clock/lamport.go, pkg/clock/vector_clock.go)

    Both clocks are modelled operation by operation; a history of a system
    of processes that tick, send and receive relates them to the
    happened-before order they are meant to track. *)

From S2P Require Import Prelude.

(** ** Lamport clocks *)

Record LamportClock := mkLamport { lc_counter : Z; lc_nodeID : string }.

Definition NewLamportClock (nodeID : string) : LamportClock := mkLamport 0 nodeID.

Definition Lamport_Tick (c : LamportClock) : Z * LamportClock :=
  let v := i64 (lc_counter c + 1) in (v, mkLamport v (lc_nodeID c)).

Definition Lamport_Send (c : LamportClock) : Z * LamportClock :=
  let v := i64 (lc_counter c + 1) in (v, mkLamport v (lc_nodeID c)).

(** The value one iteration of [Receive] tries to install. *)
Definition receive_newVal (current received : Z) : Z :=
  if received <=? current then i64 (current + 1) else i64 (received + 1).

(** The compare-and-swap loop of [Receive].  [mem] lists, for each iteration,
    the value the load observes and the value the counter holds when the
    compare-and-swap runs (other goroutines may have changed it in between).
    The result is the new counter value with the number of failed attempts;
    [None] when the listed iterations all lose the race. *)
Fixpoint Lamport_Receive_loop (mem : list (Z * Z)) (received : Z) : option (Z * nat) :=
  match mem with
  | [] => None
  | (current, now) :: mem =>
      if now =? current then Some (receive_newVal current received, O)
      else '(v, n) ← Lamport_Receive_loop mem received; Some (v, S n)
  end.

(** Without interference the first iteration succeeds. *)
Definition Lamport_Receive (received : Z) (c : LamportClock) : Z * LamportClock :=
  let v := receive_newVal (lc_counter c) received in (v, mkLamport v (lc_nodeID c)).

Definition HappenedBefore (a b : Z) : bool := a <? b.

(** ** Vector clocks *)

Record VectorClock := mkVC { vc_nodeID : string; vc_vector : gmap string Z }.

(** A missing key of a Go map reads as the zero value. *)
Definition vget (v : gmap string Z) (k : string) : Z := default 0 (v !! k).

Definition NewVectorClock (nodeID : string) (initialPeers : list string) : VectorClock :=
  mkVC nodeID (foldl (fun v p => <[p := 0]> v) {[nodeID := 0]} initialPeers).

Definition VC_incr (vc : VectorClock) : VectorClock :=
  mkVC (vc_nodeID vc)
    (<[vc_nodeID vc := i64 (vget (vc_vector vc) (vc_nodeID vc) + 1)]> (vc_vector vc)).

Definition VC_Tick (vc : VectorClock) : gmap string Z * VectorClock :=
  let vc := VC_incr vc in (vc_vector vc, vc).

Definition VC_Send (vc : VectorClock) : gmap string Z * VectorClock :=
  let vc := VC_incr vc in (vc_vector vc, vc).

(** The body of the loop of [Receive]. *)
Definition VC_merge_one (nodeID : string) (receivedTime : Z) (v : gmap string Z) : gmap string Z :=
  match v !! nodeID with
  | None => <[nodeID := receivedTime]> v
  | Some localTime =>
      if localTime <? receivedTime then <[nodeID := receivedTime]> v else v
  end.

Definition VC_merge (received v : gmap string Z) : gmap string Z :=
  map_fold VC_merge_one v received.

Definition VC_Receive (received : gmap string Z) (vc : VectorClock) : gmap string Z * VectorClock :=
  let vc := VC_incr (mkVC (vc_nodeID vc) (VC_merge received (vc_vector vc))) in
  (vc_vector vc, vc).

Inductive Relation := Before | After | Concurrent | Equal.

#[global] Instance Relation_eq_dec : EqDecision Relation.
Proof. solve_decision. Defined.

(** The loop of [Compare], with its early return. *)
Fixpoint Compare_loop (nodes : list string) (a b : gmap string Z)
    (aLessInSome bLessInSome : bool) : Relation :=
  match nodes with
  | [] =>
      if negb aLessInSome && negb bLessInSome then Equal
      else if aLessInSome then Before else After
  | node :: nodes =>
      let aVal := vget a node in
      let bVal := vget b node in
      let aLess := if aVal <? bVal then true else aLessInSome in
      let bLess := if aVal <? bVal then bLessInSome
                   else if bVal <? aVal then true else bLessInSome in
      if aLess && bLess then Concurrent else Compare_loop nodes a b aLess bLess
  end.

Definition Compare (a b : gmap string Z) : Relation :=
  Compare_loop (elements (dom a ∪ dom b)) a b false false.

Definition IsConcurrent (a b : gmap string Z) : bool :=
  bool_decide (Compare a b = Concurrent).

(** ** The pointwise order and what [Compare] decides *)

Definition vc_le (a b : gmap string Z) : Prop := forall k, vget a k <= vget b k.

#[global] Instance vc_le_preorder : PreOrder vc_le.
Proof.
  split; [intros a k; lia|]. intros a b c Hab Hbc k.
  specialize (Hab k). specialize (Hbc k). lia.
Qed.

Lemma Compare_loop_spec nodes a b fa fb :
  fa && fb = false ->
  let la := fa \/ exists k, k ∈ nodes /\ vget a k < vget b k in
  let lb := fb \/ exists k, k ∈ nodes /\ vget b k < vget a k in
  match Compare_loop nodes a b fa fb with
  | Before => la /\ ~ lb
  | After => ~ la /\ lb
  | Concurrent => la /\ lb
  | Equal => ~ la /\ ~ lb
  end.
Proof.
  revert fa fb. induction nodes as [|n nodes IH]; intros fa fb Hf; simpl.
  { destruct fa, fb; simpl in *; try done; set_solver. }
  destruct (Z.ltb_spec (vget a n) (vget b n)), (Z.ltb_spec (vget b n) (vget a n)); try lia.
  - destruct fb; simpl; [split; [right; set_solver|by left]|].
    specialize (IH true false eq_refl). destruct (Compare_loop _ _ _ _ _); set_solver by lia.
  - rewrite andb_true_r. destruct fa; simpl; [split; [by left|right; set_solver]|].
    specialize (IH false true eq_refl). destruct (Compare_loop _ _ _ _ _); set_solver by lia.
  - rewrite Hf. specialize (IH fa fb Hf). destruct (Compare_loop _ _ _ _ _); set_solver by lia.
Qed.

Lemma vget_not_dom v k : k ∉ dom v -> vget v k = 0.
Proof. intros H. unfold vget. by rewrite (not_elem_of_dom_1 v k H). Qed.

Lemma vget_insert v k x k' :
  vget (<[k := x]> v) k' = if decide (k = k') then x else vget v k'.
Proof. unfold vget. rewrite lookup_insert. by case_decide. Qed.

(** What [Compare] decides, stated with the pointwise order. *)
Lemma Compare_spec a b :
  match Compare a b with
  | Before => vc_le a b /\ ~ vc_le b a
  | After => vc_le b a /\ ~ vc_le a b
  | Concurrent => ~ vc_le a b /\ ~ vc_le b a
  | Equal => vc_le a b /\ vc_le b a
  end.
Proof.
  pose proof (Compare_loop_spec (elements (dom a ∪ dom b)) a b false false eq_refl) as Hl.
  assert (Hle : forall x y : gmap string Z, dom x ∪ dom y = dom a ∪ dom b ->
    vc_le x y <-> ~ (False \/ exists k, k ∈ elements (dom a ∪ dom b) /\ vget y k < vget x k)).
  { intros x y <-. split.
    - intros Hxy [[]|(k & _ & Hk)]. specialize (Hxy k). lia.
    - intros Hn k. destruct (Z.le_gt_cases (vget x k) (vget y k)); [done|].
      destruct (decide (k ∈ dom x ∪ dom y)).
      { exfalso. apply Hn. right. exists k. split; [by apply elem_of_elements|lia]. }
      rewrite (vget_not_dom x) in H; [|set_solver].
      rewrite (vget_not_dom y) in H; [lia|set_solver]. }
  pose proof (Hle a b eq_refl) as Hab.
  pose proof (Hle b a (union_comm_L _ _)) as Hba.
  unfold Compare. simpl in Hl.
  assert (Hd1 := Hab). assert (Hd2 := Hba).
  destruct (Compare_loop _ _ _ _ _); tauto.
Qed.

Lemma Compare_Before a b : Compare a b = Before <-> vc_le a b /\ ~ vc_le b a.
Proof. pose proof (Compare_spec a b). destruct (Compare a b); naive_solver. Qed.

Lemma Compare_Concurrent a b : Compare a b = Concurrent <-> ~ vc_le a b /\ ~ vc_le b a.
Proof. pose proof (Compare_spec a b). destruct (Compare a b); naive_solver. Qed.

(** ** Merging *)

Lemma VC_merge_lookup received v k :
  VC_merge received v !! k = union_with (fun x y => Some (Z.max x y)) (v !! k) (received !! k).
Proof.
  unfold VC_merge. revert k.
  apply (map_fold_weak_ind (fun r m => forall k, r !! k =
    union_with (fun x y => Some (Z.max x y)) (v !! k) (m !! k))).
  { intros k. rewrite lookup_empty. by destruct (v !! k). }
  intros i x m r Hi IH k. unfold VC_merge_one. rewrite (IH i) Hi.
  destruct (decide (i = k)) as [->|Hne].
  - rewrite lookup_insert_eq. destruct (v !! k) as [y|] eqn:Hy; simpl.
    + destruct (Z.ltb_spec y x).
      * rewrite lookup_insert_eq. f_equal. lia.
      * rewrite IH Hy Hi /=. f_equal. lia.
    + by rewrite lookup_insert_eq.
  - rewrite lookup_insert_ne // -IH. destruct (v !! i) as [y|]; simpl.
    + split_if; by rewrite ?lookup_insert_ne.
    + by rewrite lookup_insert_ne.
Qed.

Definition vc_nonneg (v : gmap string Z) : Prop := forall k, 0 <= vget v k.

Lemma VC_merge_vget received v k :
  vc_nonneg received -> vc_nonneg v ->
  vget (VC_merge received v) k = Z.max (vget v k) (vget received k).
Proof.
  intros Hr Hv. specialize (Hr k). specialize (Hv k). unfold vget in *.
  rewrite VC_merge_lookup. destruct (v !! k), (received !! k); simpl in *; lia.
Qed.

(** ** Histories and happened-before

    A history is the sequence of events of all processes in the order in
    which they happen.  An event carries the stamp its clock returned and
    its kind; a receive names the position of the send it receives. *)

Inductive ekind := Local | Sent | Received (from : nat).

Section history.
Context {A : Type}.

Record hent := mkHent { he_node : string; he_stamp : A; he_kind : ekind }.

Definition hb1 (h : list hent) (i j : nat) : Prop :=
  (i < j)%nat /\ exists x y, h !! i = Some x /\ h !! j = Some y /\
    (he_node x = he_node y \/ he_kind y = Received i).

(** Lamport's happened-before: program order and message order, closed
    under transitivity. *)
Definition hb (h : list hent) : relation nat := tc (hb1 h).

Definition hbeq (h : list hent) (i j : nat) : Prop := i = j \/ hb h i j.

Lemma hb_lt h i j : hb h i j -> (i < j)%nat /\ (j < length h)%nat.
Proof.
  induction 1 as [i j (? & x & y & Hx & Hy & _)|i j k (? & x & y & Hx & Hy & _) _ IH].
  - split; [done|by eapply lookup_lt_Some].
  - destruct IH. lia.
Qed.

Lemma hb1_app h e i j : (j < length h)%nat -> hb1 (h ++ [e]) i j <-> hb1 h i j.
Proof.
  intros Hj. unfold hb1. split; intros (Hij & x & y & Hx & Hy & Hor);
    (split; [done|]); exists x, y.
  - rewrite !lookup_app_l in Hx Hy; [|lia..]. done.
  - rewrite !lookup_app_l; [|lia..]. done.
Qed.

Lemma hb_app h e i j : (j < length h)%nat -> hb (h ++ [e]) i j <-> hb h i j.
Proof.
  intros Hj. split.
  - intros H. revert Hj. induction H as [i j H|i j k H Hjk IH]; intros Hk.
    + apply tc_once. by eapply (hb1_app h e).
    + specialize (IH Hk). apply hb_lt in IH as Hlt.
      eapply tc_l; [|exact IH]. eapply (hb1_app h e); [lia|done].
  - intros H. revert Hj. induction H as [i j H|i j k H Hjk IH]; intros Hk.
    + apply tc_once. by apply hb1_app.
    + specialize (IH Hk). apply hb_lt in Hjk as Hlt.
      eapply tc_l; [|exact IH]. apply hb1_app; [lia|done].
Qed.

(** The last step into [j] goes through one of its direct predecessors. *)
Lemma hb_last h i j : hb h i j <-> exists k, hbeq h i k /\ hb1 h k j.
Proof.
  split.
  - intros H. unfold hb in H.
    induction H as [i j H|i j k H Hjk (m & Hm & Hmk)].
    + exists i. split; [by left|done].
    + exists m. split; [|done]. right. destruct Hm as [<-|Hm].
      * by apply tc_once.
      * by eapply tc_l.
  - intros (k & [<-|Hik] & Hkj); [by apply tc_once|]. by eapply tc_r.
Qed.

Lemma hb1_new h e k :
  hb1 (h ++ [e]) k (length h) <->
  exists x, h !! k = Some x /\ (he_node x = he_node e \/ he_kind e = Received k).
Proof.
  unfold hb1. split.
  - intros (Hk & x & y & Hx & Hy & Hor). rewrite lookup_app_l // in Hx.
    rewrite list_lookup_middle // in Hy. naive_solver.
  - intros (x & Hx & Hor). apply lookup_lt_Some in Hx as Hk. split; [done|].
    exists x, e. rewrite lookup_app_l // list_lookup_middle //.
Qed.
End history.
Arguments hent : clear implicits.

(** ** A system of processes with vector clocks *)

Inductive cevent := CTick (n : string) | CSend (n : string) | CRecv (n : string) (from : nat).

Record vsys := mkVsys {
  vs_clocks : gmap string VectorClock;
  vs_hist : list (hent (gmap string Z));
}.

Definition vs_record (n : string) (k : ekind) (r : gmap string Z * VectorClock) (s : vsys) : vsys :=
  mkVsys (<[n := snd r]> (vs_clocks s)) (vs_hist s ++ [mkHent n (fst r) k]).

(** A receive takes the vector that an earlier [Send] returned. *)
Definition vstep (e : cevent) (s : vsys) : option vsys :=
  match e with
  | CTick n => vc ← vs_clocks s !! n; Some (vs_record n Local (VC_Tick vc) s)
  | CSend n => vc ← vs_clocks s !! n; Some (vs_record n Sent (VC_Send vc) s)
  | CRecv n i =>
      vc ← vs_clocks s !! n; x ← vs_hist s !! i;
      match he_kind x with
      | Sent => Some (vs_record n (Received i) (VC_Receive (he_stamp x) vc) s)
      | _ => None
      end
  end.

Fixpoint vrun (es : list cevent) (s : vsys) : option vsys :=
  match es with
  | [] => Some s
  | e :: es => s ← vstep e s; vrun es s
  end.

Definition vinit (ids : list string) : vsys :=
  mkVsys (list_to_map ((fun n => (n, NewVectorClock n ids)) <$> ids)) [].

Definition seqno (x : hent (gmap string Z)) : Z := vget (he_stamp x) (he_node x).

Record vinv (s : vsys) : Prop := {
  vi_id n vc : vs_clocks s !! n = Some vc -> vc_nodeID vc = n;
  vi_above n vc j x : vs_clocks s !! n = Some vc -> vs_hist s !! j = Some x ->
    he_node x = n -> vc_le (he_stamp x) (vc_vector vc);
  vi_last n vc : vs_clocks s !! n = Some vc ->
    (forall k, vget (vc_vector vc) k = 0) \/
    exists j x, vs_hist s !! j = Some x /\ he_node x = n /\ he_stamp x = vc_vector vc;
  vi_range j x : vs_hist s !! j = Some x -> forall k,
    0 <= vget (he_stamp x) k <= Z.of_nat (length (vs_hist s));
  vi_pos j x : vs_hist s !! j = Some x -> 0 < seqno x;
  vi_hb_le i j x y : vs_hist s !! i = Some x -> vs_hist s !! j = Some y ->
    hb (vs_hist s) i j -> vc_le (he_stamp x) (he_stamp y);
  vi_origin j x p : vs_hist s !! j = Some x ->
    vget (he_stamp x) p = 0 \/
    exists i y, hbeq (vs_hist s) i j /\ vs_hist s !! i = Some y /\ he_node y = p /\
      seqno y = vget (he_stamp x) p;
  vi_seq i j x y : vs_hist s !! i = Some x -> vs_hist s !! j = Some y ->
    (i < j)%nat -> he_node x = he_node y -> seqno x < seqno y;
}.

Lemma NewVectorClock_zero n ids k : vget (vc_vector (NewVectorClock n ids)) k = 0.
Proof.
  unfold NewVectorClock. simpl.
  assert (H : forall v, (forall k, vget v k = 0) ->
    forall k, vget (foldl (fun v p => <[p := 0]> v) v ids) k = 0).
  { induction ids as [|p ids IH]; simpl; [done|]. intros v Hv. apply IH.
    intros k'. rewrite vget_insert. by case_decide. }
  apply H. intros k'. unfold vget. rewrite lookup_singleton. by case_decide.
Qed.

Lemma vinit_inv ids : vinv (vinit ids).
Proof.
  assert (Hc : forall n vc, vs_clocks (vinit ids) !! n = Some vc -> vc = NewVectorClock n ids).
  { intros n vc H. apply elem_of_list_to_map_2 in H.
    apply list_elem_of_fmap in H as (m & [= -> ->] & _). done. }
  split; simpl; try (intros; by rewrite lookup_nil in *); try done.
  - intros n vc H. by apply Hc in H as ->.
  - intros n vc H. apply Hc in H as ->. left. apply NewVectorClock_zero.
Qed.

Lemma vinv_clock_range s n vc k :
  vinv s -> vs_clocks s !! n = Some vc ->
  0 <= vget (vc_vector vc) k <= Z.of_nat (length (vs_hist s)).
Proof.
  intros Hs Hvc. destruct (vi_last s Hs n vc Hvc) as [H0|(j & x & Hx & _ & <-)].
  - rewrite H0. lia.
  - by eapply vi_range.
Qed.

(** The vector a clock merges before it increments: its own, or its own
    joined with the stamp of the received send event. *)
Definition merged (s : vsys) (vc : VectorClock) (kind : ekind) (m : gmap string Z) : Prop :=
  match kind with
  | Received i => exists x, vs_hist s !! i = Some x /\
      forall k, vget m k = Z.max (vget (vc_vector vc) k) (vget (he_stamp x) k)
  | _ => m = vc_vector vc
  end.

Lemma merged_range s n vc kind m k :
  vinv s -> vs_clocks s !! n = Some vc -> merged s vc kind m ->
  0 <= vget m k <= Z.of_nat (length (vs_hist s)).
Proof.
  intros Hs Hvc Hm. pose proof (vinv_clock_range s n vc k Hs Hvc).
  destruct kind as [| |i]; simpl in Hm; [by subst..|].
  destruct Hm as (x & Hx & Hm). rewrite Hm. pose proof (vi_range s Hs i x Hx k). lia.
Qed.

(** The direct predecessors of the new event are below the merged vector. *)
Lemma merged_above s n vc kind m i x :
  vinv s -> vs_clocks s !! n = Some vc -> merged s vc kind m ->
  vs_hist s !! i = Some x -> (he_node x = n \/ kind = Received i) ->
  vc_le (he_stamp x) m.
Proof.
  intros Hs Hvc Hm Hx Hor k.
  assert (Hown : vget (vc_vector vc) k <= vget m k).
  { destruct kind as [| |i']; simpl in Hm; [by subst..|].
    destruct Hm as (x' & _ & ->). lia. }
  destruct Hor as [Hn|Hk].
  - pose proof (vi_above s Hs n vc i x Hvc Hx Hn k). lia.
  - subst kind. destruct Hm as (x' & Hx' & ->). simplify_eq. lia.
Qed.

(** Every component of the merged vector is the sequence number of an event
    at or before a direct predecessor of the new event. *)
Lemma merged_origin s n vc kind m p :
  vinv s -> vs_clocks s !! n = Some vc -> merged s vc kind m ->
  vget m p = 0 \/
  exists i y j z, hbeq (vs_hist s) i j /\ vs_hist s !! i = Some y /\ he_node y = p /\
    seqno y = vget m p /\ vs_hist s !! j = Some z /\ (he_node z = n \/ kind = Received j).
Proof.
  intros Hs Hvc Hm.
  assert (Hown : vget (vc_vector vc) p = 0 \/
    exists i y j z, hbeq (vs_hist s) i j /\ vs_hist s !! i = Some y /\ he_node y = p /\
      seqno y = vget (vc_vector vc) p /\ vs_hist s !! j = Some z /\
      (he_node z = n \/ kind = Received j)).
  { destruct (vi_last s Hs n vc Hvc) as [H0|(j & z & Hz & Hn & Heq)]; [auto|].
    rewrite -Heq. destruct (vi_origin s Hs j z p Hz) as [?|(i & y & ? & ? & ? & ?)];
      [by left|right]. exists i, y, j, z; split_and!; auto. }
  destruct kind as [| |j]; simpl in Hm; [by subst..|].
  destruct Hm as (x & Hx & Hm). rewrite Hm.
  destruct (Z.max_spec (vget (vc_vector vc) p) (vget (he_stamp x) p)) as [[? ->]|[? ->]]; [|done].
  destruct (vi_origin s Hs j x p Hx) as [?|(i & y & ? & ? & ? & ?)]; [by left|right].
  exists i, y, j, x; split_and!; auto.
Qed.

Section extend.
Context (s : vsys) (n : string) (vc : VectorClock) (kind : ekind) (m : gmap string Z).
Context (Hs : vinv s) (Hvc : vs_clocks s !! n = Some vc) (Hm : merged s vc kind m).
Context (Hlen : Z.of_nat (length (vs_hist s)) + 1 < two63).

Let h := vs_hist s.
Let st := <[n := vget m n + 1]> m.
Let e := mkHent n st kind.
Let s' := mkVsys (<[n := mkVC n st]> (vs_clocks s)) (h ++ [e]).

Lemma extend_stamp k : vget st k = if decide (n = k) then vget m n + 1 else vget m k.
Proof. apply vget_insert. Qed.

Lemma extend_stamp_le : vc_le m st.
Proof. intros k. rewrite extend_stamp. case_decide; [subst|]; lia. Qed.

Lemma extend_seqno : seqno e = vget m n + 1.
Proof. unfold seqno, e. simpl. by rewrite extend_stamp decide_True. Qed.

Lemma extend_lookup j x :
  (h ++ [e]) !! j = Some x ->
  (h !! j = Some x /\ (j < length h)%nat) \/ (j = length h /\ x = e).
Proof.
  intros Hx. apply lookup_app_Some in Hx as [Hx|[Hj Hx]].
  - left. split; [done|by eapply lookup_lt_Some].
  - right. apply list_lookup_singleton_Some in Hx as [? <-]. split; [lia|done].
Qed.

Lemma extend_hb_new i x :
  h !! i = Some x -> hb (h ++ [e]) i (length h) -> vc_le (he_stamp x) m.
Proof.
  intros Hx Hb. apply hb_last in Hb as (k & Hik & Hk).
  apply hb1_new in Hk as (z & Hz & Hor).
  transitivity (he_stamp z); [|by eapply merged_above].
  destruct Hik as [<-|Hik]; [by simplify_eq|].
  apply hb_app in Hik; [|by eapply lookup_lt_Some]. by eapply (vi_hb_le s Hs).
Qed.

Lemma extend_above n' vc' j x :
  vs_clocks s' !! n' = Some vc' -> (h ++ [e]) !! j = Some x -> he_node x = n' ->
  vc_le (he_stamp x) (vc_vector vc').
Proof.
  simpl. rewrite lookup_insert. intros Hv Hx Hn.
  destruct (decide (n = n')) as [Heq|]; [injection Hv as <-; rewrite -Heq in Hn|]; simpl.
  - apply extend_lookup in Hx as [[Hx _]|[_ ->]]; [|done].
    transitivity m; [eapply merged_above; eauto|apply extend_stamp_le].
  - apply extend_lookup in Hx as [[Hx _]|[_ ->]]; [by eapply (vi_above s Hs)|done].
Qed.

Lemma extend_last n' vc' :
  vs_clocks s' !! n' = Some vc' ->
  (forall k, vget (vc_vector vc') k = 0) \/
  exists j x, (h ++ [e]) !! j = Some x /\ he_node x = n' /\ he_stamp x = vc_vector vc'.
Proof.
  simpl. rewrite lookup_insert. intros Hv.
  destruct (decide (n = n')) as [Heq|]; [injection Hv as <-|]; simpl.
  - right. exists (length h), e. by rewrite list_lookup_middle.
  - destruct (vi_last s Hs n' vc' Hv) as [?|(j & x & Hx & ? & ?)]; [by left|right].
    exists j, x. rewrite lookup_app_l; [done|by eapply lookup_lt_Some].
Qed.

Lemma extend_range j x :
  (h ++ [e]) !! j = Some x ->
  (forall k, 0 <= vget (he_stamp x) k <= Z.of_nat (length (h ++ [e]))) /\ 0 < seqno x.
Proof.
  intros Hx. pose proof (merged_range s n vc kind m) as Hr. fold h in Hr.
  rewrite length_app. simpl. apply extend_lookup in Hx as [[Hx _]|[_ ->]].
  - split; [|by eapply (vi_pos s Hs)]. intros k.
    pose proof (vi_range s Hs j x Hx k) as Hk. fold h in Hk. lia.
  - rewrite extend_seqno. pose proof (Hr n Hs Hvc Hm). split; [|lia]. intros k. simpl.
    rewrite extend_stamp. pose proof (Hr k Hs Hvc Hm). case_decide; lia.
Qed.

Lemma extend_hb_le i j x y :
  (h ++ [e]) !! i = Some x -> (h ++ [e]) !! j = Some y -> hb (h ++ [e]) i j ->
  vc_le (he_stamp x) (he_stamp y).
Proof.
  intros Hx Hy Hb. apply hb_lt in Hb as Hlt.
  apply extend_lookup in Hy as [[Hy Hj]|[-> ->]]; rewrite lookup_app_l in Hx; try lia.
  - apply hb_app in Hb; [|done]. by eapply (vi_hb_le s Hs).
  - transitivity m; [by eapply extend_hb_new|apply extend_stamp_le].
Qed.

Lemma extend_origin j x p :
  (h ++ [e]) !! j = Some x ->
  vget (he_stamp x) p = 0 \/
  exists i y, hbeq (h ++ [e]) i j /\ (h ++ [e]) !! i = Some y /\ he_node y = p /\
    seqno y = vget (he_stamp x) p.
Proof.
  assert (Hold : forall i k, hbeq h i k -> (k < length h)%nat -> hbeq (h ++ [e]) i k).
  { intros i k [?|Hik] Hk; [by left|right]. by apply hb_app. }
  intros Hx. apply extend_lookup in Hx as [[Hx Hj]|[-> ->]].
  - destruct (vi_origin s Hs j x p Hx) as [?|(i & y & Hij & Hy & ? & ?)]; [by left|right].
    exists i, y. rewrite lookup_app_l; [|by eapply lookup_lt_Some]. split_and!; auto.
  - simpl. destruct (decide (n = p)) as [<-|Hnp].
    { right. exists (length h), e. rewrite list_lookup_middle //. split_and!; auto. by left. }
    rewrite extend_stamp decide_False //.
    destruct (merged_origin s n vc kind m p Hs Hvc Hm)
      as [?|(i & y & k & z & Hik & Hy & ? & ? & Hz & Hor)]; [by left|right].
    exists i, y. rewrite lookup_app_l; [|by eapply lookup_lt_Some].
    split_and!; try done. right. apply hb_last. exists k. split.
    + apply Hold; [done|by eapply lookup_lt_Some].
    + apply hb1_new. exists z. done.
Qed.

Lemma extend_seq i j x y :
  (h ++ [e]) !! i = Some x -> (h ++ [e]) !! j = Some y ->
  (i < j)%nat -> he_node x = he_node y -> seqno x < seqno y.
Proof.
  intros Hx Hy Hij Hn.
  apply extend_lookup in Hy as [[Hy Hj]|[-> ->]]; rewrite lookup_app_l in Hx; try lia.
  - by eapply (vi_seq s Hs i j).
  - rewrite extend_seqno. simpl in Hn. unfold seqno. rewrite Hn.
    pose proof (merged_above s n vc kind m i x Hs Hvc Hm Hx (or_introl Hn) n). lia.
Qed.

Lemma vinv_extend :
  let vc' := VC_incr (mkVC (vc_nodeID vc) m) in
  vinv (vs_record n kind (vc_vector vc', vc') s).
Proof.
  assert (VC_incr (mkVC (vc_nodeID vc) m) = mkVC n st) as ->.
  { unfold VC_incr, st. simpl. rewrite (vi_id s Hs n vc Hvc). f_equal.
    pose proof (merged_range s n vc kind m n Hs Hvc Hm). rewrite i64_small; [done|lia]. }
  change (vinv s'). split; simpl.
  - intros n' vc'. rewrite lookup_insert. case_decide; [naive_solver|apply (vi_id s Hs)].
  - apply extend_above.
  - apply extend_last.
  - intros j x Hx. by apply (extend_range j x).
  - intros j x Hx. by apply (extend_range j x).
  - apply extend_hb_le.
  - apply extend_origin.
  - apply extend_seq.
Qed.
End extend.

Lemma vstep_inv ev s s' :
  vinv s -> Z.of_nat (length (vs_hist s)) + 1 < two63 -> vstep ev s = Some s' ->
  vinv s' /\ length (vs_hist s') = S (length (vs_hist s)).
Proof.
  intros Hs Hlen Hst.
  assert (Hrec : forall n k r, length (vs_hist (vs_record n k r s)) = S (length (vs_hist s))).
  { intros. unfold vs_record. simpl. rewrite length_app. simpl. lia. }
  destruct ev as [n|n|n i]; simpl in Hst; apply bind_Some in Hst as (vc & Hvc & Hst).
  - injection Hst as <-. split; [|done]. destruct vc as [id v].
    by apply (vinv_extend s n (mkVC id v) Local v).
  - injection Hst as <-. split; [|done]. destruct vc as [id v].
    by apply (vinv_extend s n (mkVC id v) Sent v).
  - apply bind_Some in Hst as (x & Hx & Hst).
    destruct (he_kind x); try done. injection Hst as <-. split; [|done].
    apply (vinv_extend s n vc (Received i)); auto. simpl. exists x. split; [done|].
    intros k. apply VC_merge_vget; intros k'.
    + by apply (vi_range s Hs i x).
    + by apply (vinv_clock_range s n vc).
Qed.

Lemma vrun_inv es s s' :
  vinv s -> Z.of_nat (length (vs_hist s) + length es) < two63 ->
  vrun es s = Some s' -> vinv s'.
Proof.
  revert s. induction es as [|ev es IH]; intros s Hs Hlen Hr; simpl in *; [by simplify_eq|].
  apply bind_Some in Hr as (s1 & Hst & Hr).
  apply vstep_inv in Hst as [Hs1 Hl]; [|done|lia].
  apply (IH s1); [done| |done]. lia.
Qed.

(** In a history of correct clocks happened-before is the strict pointwise
    order of the stamps. *)
Lemma vinv_hb_iff s i j x y :
  vinv s -> vs_hist s !! i = Some x -> vs_hist s !! j = Some y -> i <> j ->
  hb (vs_hist s) i j <-> vc_le (he_stamp x) (he_stamp y).
Proof.
  intros Hs Hx Hy Hij. split; [by eapply vi_hb_le|]. intros Hle.
  pose proof (vi_pos s Hs i x Hx) as Hpos. pose proof (Hle (he_node x)) as Hlx.
  fold (seqno x) in Hlx.
  destruct (vi_origin s Hs j y (he_node x) Hy) as [?|(k & z & Hkj & Hz & Hn & Hsq)]; [lia|].
  assert (i <= k)%nat.
  { destruct (Nat.le_gt_cases i k); [done|].
    pose proof (vi_seq s Hs k i z x Hz Hx ltac:(lia) Hn). lia. }
  destruct (decide (i = k)) as [<-|].
  { destruct Hkj; [done|done]. }
  assert (Hik : hb1 (vs_hist s) i k).
  { split; [lia|]. exists x, z. split_and!; auto. }
  destruct Hkj as [->|Hkj]; [by apply tc_once|by eapply tc_l].
Qed.

Lemma vinv_not_le_back s i j x y :
  vinv s -> vs_hist s !! i = Some x -> vs_hist s !! j = Some y -> i <> j ->
  vc_le (he_stamp x) (he_stamp y) -> ~ vc_le (he_stamp y) (he_stamp x).
Proof.
  intros Hs Hx Hy Hij H1 H2.
  apply (vinv_hb_iff s i j x y) in H1; auto. apply (vinv_hb_iff s j i y x) in H2; auto.
  apply hb_lt in H1. apply hb_lt in H2. lia.
Qed.

(** C32: vector clocks characterise causality.  In every execution of processes
    that tick, send and receive with fresh vector clocks, [Compare] of the
    stamps of two different events answers [Before] exactly when the first
    happened before the second, and [Concurrent] exactly when neither
    happened before the other. *)
Theorem vector_clock_causality (ids : list string) (es : list cevent) (s : vsys)
  (i j : nat) (x y : hent (gmap string Z))
  (Hrun : vrun es (vinit ids) = Some s) (Hlen : Z.of_nat (length es) < two63)
  (Hx : vs_hist s !! i = Some x) (Hy : vs_hist s !! j = Some y) (Hij : i <> j) :
  (Compare (he_stamp x) (he_stamp y) = Before <-> hb (vs_hist s) i j) /\
  (Compare (he_stamp x) (he_stamp y) = Concurrent <->
   ~ hb (vs_hist s) i j /\ ~ hb (vs_hist s) j i).
Proof.
  assert (Hs : vinv s) by (eapply vrun_inv; [apply vinit_inv| |exact Hrun]; simpl; lia).
  rewrite Compare_Before Compare_Concurrent.
  rewrite (vinv_hb_iff s i j x y) // (vinv_hb_iff s j i y x) //.
  split; [|done]. split; [by intros [? _]|]. intros Hle. split; [done|].
  by eapply vinv_not_le_back.
Qed.

(** a sends, b receives and answers, c works on its own. *)
Definition vc_demo : list cevent :=
  [CSend "a"; CTick "c"; CRecv "b" 0%nat; CSend "b"; CRecv "a" 3%nat].

Definition vc_demo_end : vsys :=
  default (vinit []) (vrun vc_demo (vinit ["a"; "b"; "c"])).

Definition vc_demo_event (i : nat) : hent (gmap string Z) :=
  default (mkHent "" ∅ Local) (vs_hist vc_demo_end !! i).

Lemma vector_clock_causality_witness :
  Compare (he_stamp (vc_demo_event 0)) (he_stamp (vc_demo_event 3)) = Before /\
  (Compare (he_stamp (vc_demo_event 0)) (he_stamp (vc_demo_event 3)) = Before <->
   hb (vs_hist vc_demo_end) 0%nat 3%nat).
Proof.
  split; [vm_compute; reflexivity|].
  apply (vector_clock_causality ["a"; "b"; "c"] vc_demo vc_demo_end 0%nat 3%nat
    (vc_demo_event 0) (vc_demo_event 3)); [vm_compute; reflexivity..|done].
Defined.

(** ** A system of processes with Lamport clocks *)

Record lsys := mkLsys {
  ls_clocks : gmap string LamportClock;
  ls_hist : list (hent Z);
}.

Definition ls_record (n : string) (k : ekind) (r : Z * LamportClock) (s : lsys) : lsys :=
  mkLsys (<[n := snd r]> (ls_clocks s)) (ls_hist s ++ [mkHent n (fst r) k]).

Definition lstep (e : cevent) (s : lsys) : option lsys :=
  match e with
  | CTick n => c ← ls_clocks s !! n; Some (ls_record n Local (Lamport_Tick c) s)
  | CSend n => c ← ls_clocks s !! n; Some (ls_record n Sent (Lamport_Send c) s)
  | CRecv n i =>
      c ← ls_clocks s !! n; x ← ls_hist s !! i;
      match he_kind x with
      | Sent => Some (ls_record n (Received i) (Lamport_Receive (he_stamp x) c) s)
      | _ => None
      end
  end.

Fixpoint lrun (es : list cevent) (s : lsys) : option lsys :=
  match es with
  | [] => Some s
  | e :: es => s ← lstep e s; lrun es s
  end.

Definition linit (ids : list string) : lsys :=
  mkLsys (list_to_map ((fun n => (n, NewLamportClock n)) <$> ids)) [].

Record linv (s : lsys) : Prop := {
  li_clock n c : ls_clocks s !! n = Some c ->
    0 <= lc_counter c <= Z.of_nat (length (ls_hist s));
  li_above n c j x : ls_clocks s !! n = Some c -> ls_hist s !! j = Some x ->
    he_node x = n -> he_stamp x <= lc_counter c;
  li_range j x : ls_hist s !! j = Some x -> 0 <= he_stamp x <= Z.of_nat (length (ls_hist s));
  li_hb1 i j x y : ls_hist s !! i = Some x -> ls_hist s !! j = Some y ->
    hb1 (ls_hist s) i j -> he_stamp x < he_stamp y;
}.

Lemma linit_inv ids : linv (linit ids).
Proof.
  split; simpl; [|discriminate..].
  intros n c H. apply elem_of_list_to_map_2 in H.
  apply list_elem_of_fmap in H as (m & [= -> ->] & _). simpl. lia.
Qed.

(** An event whose stamp exceeds the clock and, for a receive, the received
    stamp keeps the invariant. *)
Lemma linv_extend s n c kind v :
  linv s -> ls_clocks s !! n = Some c -> lc_counter c < v ->
  v <= Z.of_nat (length (ls_hist s)) + 1 ->
  (forall i x, kind = Received i -> ls_hist s !! i = Some x -> he_stamp x < v) ->
  linv (ls_record n kind (v, mkLamport v (lc_nodeID c)) s).
Proof.
  intros Hs Hc Hv Hmax Hsrc. pose proof (li_clock s Hs n c Hc).
  assert (Hlook : forall j x, (ls_hist s ++ [mkHent n v kind]) !! j = Some x ->
    ls_hist s !! j = Some x \/ (j = length (ls_hist s) /\ x = mkHent n v kind)).
  { intros j x Hx. apply lookup_app_Some in Hx as [Hx|[Hj Hx]]; [by left|right].
    apply list_lookup_singleton_Some in Hx as [? <-]. split; [lia|done]. }
  unfold ls_record. split; simpl; rewrite ?length_app; simpl.
  - intros n' c'. rewrite lookup_insert. case_decide; intros Hc'; simplify_eq; simpl; [lia|].
    pose proof (li_clock s Hs n' c' Hc'). lia.
  - intros n' c' j x. rewrite lookup_insert. intros Hc' Hx Hn.
    apply Hlook in Hx as [Hx|[_ ->]]; case_decide; simplify_eq; simpl; try done.
    + pose proof (li_above s Hs _ c j x Hc Hx eq_refl). lia.
    + by eapply (li_above s Hs).
  - intros j x Hx. apply Hlook in Hx as [Hx|[_ ->]]; simpl; [|lia].
    pose proof (li_range s Hs j x Hx). lia.
  - intros i j x y Hx Hy Hb. pose proof Hb as [Hij _].
    apply Hlook in Hy as [Hy|[-> ->]]; simpl.
    + apply lookup_lt_Some in Hy as Hj. rewrite lookup_app_l in Hx; [|lia].
      apply (li_hb1 s Hs i j); auto. by apply (hb1_app _ _ i j Hj) in Hb.
    + rewrite lookup_app_l // in Hx. apply hb1_new in Hb as (x' & Hx' & [Hn|Hk]); rewrite Hx in Hx'; injection Hx' as <-.
      * pose proof (li_above s Hs n c i x Hc Hx Hn). lia.
      * by apply (Hsrc i x).
Qed.

Lemma lstep_inv ev s s' :
  linv s -> Z.of_nat (length (ls_hist s)) + 1 < two63 -> lstep ev s = Some s' ->
  linv s' /\ length (ls_hist s') = S (length (ls_hist s)).
Proof.
  intros Hs Hlen Hst.
  assert (Hrec : forall n k r, length (ls_hist (ls_record n k r s)) = S (length (ls_hist s))).
  { intros. unfold ls_record. simpl. rewrite length_app. simpl. lia. }
  destruct ev as [n|n|n i]; simpl in Hst; apply bind_Some in Hst as (c & Hc & Hst);
    pose proof (li_clock s Hs n c Hc).
  1,2: injection Hst as <-; split; [|done]; apply linv_extend; auto;
    rewrite i64_small; (lia || done).
  apply bind_Some in Hst as (x & Hx & Hst).
  destruct (he_kind x); try done. injection Hst as <-. split; [|done].
  pose proof (li_range s Hs i x Hx). unfold Lamport_Receive, receive_newVal.
  apply linv_extend; auto; try (split_if; rewrite i64_small; lia).
  intros i' x' [= <-] Hx'. simplify_eq. split_if; rewrite i64_small; lia.
Qed.

Lemma lrun_inv es s s' :
  linv s -> Z.of_nat (length (ls_hist s) + length es) < two63 ->
  lrun es s = Some s' -> linv s'.
Proof.
  revert s. induction es as [|ev es IH]; intros s Hs Hlen Hr; simpl in *; [by simplify_eq|].
  apply bind_Some in Hr as (s1 & Hst & Hr).
  apply lstep_inv in Hst as [Hs1 Hl]; [|done|lia].
  apply (IH s1); [done| |done]. lia.
Qed.

(** The Lamport clock condition.  In every execution of processes with
    fresh Lamport clocks, an event that happened before another has the
    smaller timestamp. *)
Theorem lamport_clock_condition (ids : list string) (es : list cevent) (s : lsys)
  (i j : nat) (x y : hent Z)
  (Hrun : lrun es (linit ids) = Some s) (Hlen : Z.of_nat (length es) < two63)
  (Hx : ls_hist s !! i = Some x) (Hy : ls_hist s !! j = Some y)
  (Hij : hb (ls_hist s) i j) :
  HappenedBefore (he_stamp x) (he_stamp y) = true.
Proof.
  assert (Hs : linv s) by (eapply lrun_inv; [apply linit_inv| |exact Hrun]; simpl; lia).
  apply Z.ltb_lt. revert x y Hx Hy.
  induction Hij as [i j H|i j k H Hjk IH]; intros x y Hx Hy; [by eapply (li_hb1 s Hs)|].
  pose proof H as (_ & x' & z & _ & Hz & _).
  pose proof (li_hb1 s Hs i j x z Hx Hz H). pose proof (IH z y Hz Hy). lia.
Qed.

Definition lc_demo_end : lsys :=
  default (linit []) (lrun vc_demo (linit ["a"; "b"; "c"])).

Definition lc_demo_event (i : nat) : hent Z :=
  default (mkHent "" 0 Local) (ls_hist lc_demo_end !! i).

Lemma lamport_clock_condition_witness :
  HappenedBefore (he_stamp (lc_demo_event 0)) (he_stamp (lc_demo_event 2)) = true.
Proof.
  apply (lamport_clock_condition ["a"; "b"; "c"] vc_demo lc_demo_end 0%nat 2%nat);
    [vm_compute; reflexivity..|].
  apply tc_once. split; [lia|]. exists (lc_demo_event 0), (lc_demo_event 2).
  split_and!; [vm_compute; reflexivity..|]. right. vm_compute; reflexivity.
Defined.

(** The value a racing [Receive] finally installs is the one it would install
    alone on the counter it wins against: it exceeds that counter and the
    received timestamp. *)
Lemma Lamport_Receive_loop_wins mem received v n :
  Lamport_Receive_loop mem received = Some (v, n) ->
  exists current, mem !! n = Some (current, current) /\ v = receive_newVal current received.
Proof.
  revert v n. induction mem as [|[cur now] mem IH]; intros v n H; simpl in H; [done|].
  split_if_in H.
  - simplify_eq. by exists cur.
  - apply bind_Some in H as ([v' n'] & Hl & H). simplify_eq. by apply IH.
Qed.
