(* ===== verification/RaftLog.v ===== *)
(** * RaftLog: the replicated log of a node and a peer's replication progress
    (pkg/raft/log.go, and the data types of pkg/raft/state.go)

    Indexes and terms are [uint64] values kept as [Z] with the wrap-around of
    each arithmetic operation written out.  A function that can panic returns
    [None] in that case.  The mutex of the log serialises its operations and
    is not modelled. *)

From S2P Require Import Prelude Bytes.

Inductive NodeState := Follower | Candidate | Leader.

#[global] Instance NodeState_eq_dec : EqDecision NodeState.
Proof. solve_decision. Defined.

Inductive EntryType := EntryNormal | EntryConfig | EntryBarrier | EntryNoop.

#[global] Instance EntryType_eq_dec : EqDecision EntryType.
Proof. solve_decision. Defined.

Record LogEntry := mkEntry {
  le_Index : Z;
  le_Term : Z;
  le_Type : EntryType;
  le_Data : bytes;
}.

#[global] Instance LogEntry_eq_dec : EqDecision LogEntry.
Proof. solve_decision. Defined.

(** ** Progress *)

Inductive ProgressState := ProgressProbe | ProgressReplicate | ProgressSnapshot.

#[global] Instance ProgressState_eq_dec : EqDecision ProgressState.
Proof. solve_decision. Defined.

Record Progress := mkProgress {
  NextIndex : Z;
  MatchIndex : Z;
  pr_State : ProgressState;
  Inflight : Z;
  RecentActive : bool;
}.

Definition MaybeUpdate (newIndex : Z) (p : Progress) : bool * Progress :=
  if newIndex <=? MatchIndex p then (false, p)
  else
    let next := if NextIndex p <=? newIndex then u64 (newIndex + 1) else NextIndex p in
    (true, mkProgress next newIndex (pr_State p) (Inflight p) (RecentActive p)).

Definition MaybeDecrTo (rejected conflictIndex : Z) (p : Progress) : bool * Progress :=
  if decide (pr_State p = ProgressReplicate) then
    (true, mkProgress (u64 (MatchIndex p + 1)) (MatchIndex p) ProgressProbe (Inflight p) (RecentActive p))
  else if negb (rejected =? u64 (NextIndex p - 1)) then (false, p)
  else
    let newNext := if conflictIndex <? 1 then 1 else conflictIndex in
    if newNext <? NextIndex p then
      (true, mkProgress newNext (MatchIndex p) (pr_State p) (Inflight p) (RecentActive p))
    else (false, p).

Definition BecomeReplicate (p : Progress) : Progress :=
  mkProgress (u64 (MatchIndex p + 1)) (MatchIndex p) ProgressReplicate 0 (RecentActive p).

(** The condition on [ProgressSnapshot] is tested after the state has been
    overwritten, as in the source. *)
Definition BecomeProbe (p : Progress) : Progress :=
  let p := mkProgress (NextIndex p) (MatchIndex p) ProgressProbe (Inflight p) (RecentActive p) in
  if decide (pr_State p = ProgressSnapshot) then
    mkProgress (u64 (MatchIndex p + 1)) (MatchIndex p) (pr_State p) (Inflight p) (RecentActive p)
  else p.

(** ** The log *)

Record RaftLog := mkLog {
  entries : list LogEntry;
  snapshotIndex : Z;
  snapshotTerm : Z;
  committed : Z;
  applied : Z;
}.

Definition set_entries (es : list LogEntry) (l : RaftLog) : RaftLog :=
  mkLog es (snapshotIndex l) (snapshotTerm l) (committed l) (applied l).

Definition set_committed (c : Z) (l : RaftLog) : RaftLog :=
  mkLog (entries l) (snapshotIndex l) (snapshotTerm l) c (applied l).

Definition set_applied (a : Z) (l : RaftLog) : RaftLog :=
  mkLog (entries l) (snapshotIndex l) (snapshotTerm l) (committed l) a.

Definition sentinel (index term : Z) : LogEntry := mkEntry index term EntryNormal [].

Definition newRaftLog : RaftLog := mkLog [sentinel 0 0] 0 0 0 0.

Definition lastIndex (l : RaftLog) : Z := u64 (snapshotIndex l + zlen (entries l) - 1).

Definition termOf (l : RaftLog) (index : Z) : Z :=
  if index <? snapshotIndex l then 0
  else if index =? snapshotIndex l then snapshotTerm l
  else
    let offset := u64 (index - snapshotIndex l) in
    if zlen (entries l) <=? offset then 0
    else match entries l !! Z.to_nat offset with Some e => le_Term e | None => 0 end.

Definition LastTerm (l : RaftLog) : Z := termOf l (lastIndex l).

(** The loop of [Append] over the entries still to be handled. *)
Fixpoint Append_loop (es : list LogEntry) (l : RaftLog) : option RaftLog :=
  match es with
  | [] => Some l
  | entry :: rest =>
      if le_Index entry <=? lastIndex l then
        if termOf l (le_Index entry) =? le_Term entry then Append_loop rest l
        else
          let offset := u64 (le_Index entry - snapshotIndex l) in
          if offset <=? zlen (entries l)
          then Some (set_entries (take (Z.to_nat offset) (entries l) ++ es) l)
          else None
      else Some (set_entries (entries l ++ es) l)
  end.

Definition Append (es : list LogEntry) (l : RaftLog) : option (Z * RaftLog) :=
  l ← Append_loop es l; Some (lastIndex l, l).

Definition AppendOne (entry : LogEntry) (l : RaftLog) : option RaftLog :=
  if le_Index entry =? u64 (lastIndex l + 1)
  then Some (set_entries (entries l ++ [entry]) l) else None.

Definition slice (lo hi : Z) (l : RaftLog) : option (list LogEntry) :=
  if hi <=? lo then Some []
  else
    let lo := if lo <? u64 (snapshotIndex l + 1) then u64 (snapshotIndex l + 1) else lo in
    let hi := if u64 (lastIndex l + 1) <? hi then u64 (lastIndex l + 1) else hi in
    let loOffset := u64 (lo - snapshotIndex l) in
    let hiOffset := u64 (hi - snapshotIndex l) in
    if zlen (entries l) <=? loOffset then Some []
    else if (loOffset <=? hiOffset) && (hiOffset <=? zlen (entries l))
    then Some (take (Z.to_nat (hiOffset - loOffset)) (drop (Z.to_nat loOffset) (entries l)))
    else None.

Definition Entries (lo hi : Z) (l : RaftLog) : option (list LogEntry) := slice lo hi l.

Definition CommitTo (newCommitted : Z) (l : RaftLog) : option (list LogEntry * RaftLog) :=
  if newCommitted <=? committed l then Some ([], l)
  else
    let newCommitted := if lastIndex l <? newCommitted then lastIndex l else newCommitted in
    let from := u64 (committed l + 1) in
    let to := u64 (newCommitted + 1) in
    let l := set_committed newCommitted l in
    es ← slice from to l; Some (es, l).

Definition AppliedTo (a : Z) (l : RaftLog) : option RaftLog :=
  if committed l <? a then None else Some (set_applied a l).

Definition IsUpToDate (l : RaftLog) (index term : Z) : bool :=
  let myLastTerm := termOf l (lastIndex l) in
  let myLastIndex := lastIndex l in
  if negb (term =? myLastTerm) then myLastTerm <? term
  else myLastIndex <=? index.

(** The count of one iteration of [MaybeCommit]; it starts at 1. *)
Definition commit_count (matchIndexes : list Z) (n : Z) : Z :=
  foldl (fun count mi => if n <=? mi then count + 1 else count) 1 matchIndexes.

Definition commit_majority (matchIndexes : list Z) : Z := (zlen matchIndexes + 1) / 2 + 1.

(** The loop of [MaybeCommit]: [n] runs down from the last index to the
    commit index, so [lastIndex - committed] iterations are enough. *)
Fixpoint MaybeCommit_loop (fuel : nat) (matchIndexes : list Z) (currentTerm n : Z)
    (l : RaftLog) : bool * RaftLog :=
  match fuel with
  | O => (false, l)
  | S fuel =>
      if n <=? committed l then (false, l)
      else if (commit_majority matchIndexes <=? commit_count matchIndexes n)
              && (termOf l n =? currentTerm)
      then (true, set_committed n l)
      else MaybeCommit_loop fuel matchIndexes currentTerm (u64 (n - 1)) l
  end.

Definition MaybeCommit (matchIndexes : list Z) (term currentTerm : Z) (l : RaftLog) : bool * RaftLog :=
  MaybeCommit_loop (Z.to_nat (lastIndex l - committed l)) matchIndexes currentTerm (lastIndex l) l.

Definition Compact (index term : Z) (l : RaftLog) : RaftLog :=
  if index <=? snapshotIndex l then l
  else
    let offset := u64 (index - snapshotIndex l) in
    let es :=
      if offset <? zlen (entries l)
      then <[0%nat := sentinel index term]> (drop (Z.to_nat offset) (entries l))
      else [sentinel index term] in
    mkLog es index term
      (if committed l <? index then index else committed l)
      (if applied l <? index then index else applied l).

Record LogStats := mkLogStats {
  ls_FirstIndex : Z;
  ls_LastIndex : Z;
  ls_CommitIndex : Z;
  ls_AppliedIndex : Z;
  ls_SnapshotIndex : Z;
  ls_EntryCount : Z;
}.

Definition Stats (l : RaftLog) : LogStats :=
  mkLogStats (u64 (snapshotIndex l + 1)) (lastIndex l) (committed l) (applied l)
    (snapshotIndex l) (u64 (zlen (entries l) - 1)).

(** ** Well-formed logs *)

Record log_wf (l : RaftLog) : Prop := {
  lw_snap : 0 <= snapshotIndex l;
  lw_len : 1 <= zlen (entries l);
  lw_bound : snapshotIndex l + zlen (entries l) < two63;
  lw_index i e : entries l !! i = Some e -> le_Index e = snapshotIndex l + Z.of_nat i;
  lw_term i e : entries l !! i = Some e -> (0 < i)%nat -> 1 <= le_Term e;
  lw_applied : snapshotIndex l <= applied l <= committed l;
  lw_committed : committed l <= snapshotIndex l + zlen (entries l) - 1;
}.

(** The entry stored under an index. *)
Definition entry_at (l : RaftLog) (index : Z) : option LogEntry :=
  if index <=? snapshotIndex l then None
  else entries l !! Z.to_nat (index - snapshotIndex l).

Lemma newRaftLog_wf : log_wf newRaftLog.
Proof.
  split; simpl; try (unfold zlen; simpl; lia).
  - intros [|i] e H; simpl in H; [by simplify_eq|done].
  - intros [|i] e H; [lia|done].
Qed.

Section wf.
Context (l : RaftLog) (Hwf : log_wf l).

Lemma lastIndex_wf : lastIndex l = snapshotIndex l + zlen (entries l) - 1.
Proof. destruct Hwf. unfold lastIndex. rewrite u64_small; lia. Qed.

Lemma termOf_at i e : entry_at l i = Some e -> termOf l i = le_Term e.
Proof.
  destruct Hwf. unfold entry_at, termOf. intros H. split_if_in H; [done|].
  pose proof (lookup_lt_Some _ _ _ H) as Hlt. unfold zlen in *.
  rewrite u64_small; [|lia].
  repeat (split_if; [lia|]). by rewrite H.
Qed.

Lemma termOf_none i : snapshotIndex l < i < two64 -> entry_at l i = None -> termOf l i = 0.
Proof.
  destruct Hwf. unfold entry_at, termOf. intros Hi H. split_if_in H; [lia|].
  apply lookup_ge_None in H. unfold zlen in *. rewrite u64_small; [|lia].
  do 2 (split_if; [lia|]). split_if; [done|lia].
Qed.

Lemma entry_at_range i : is_Some (entry_at l i) <-> snapshotIndex l < i <= lastIndex l.
Proof.
  rewrite lastIndex_wf. unfold entry_at, zlen. split_if.
  - split; [intros [? [=]]|lia].
  - rewrite lookup_lt_is_Some. lia.
Qed.

Lemma entry_at_term i e : entry_at l i = Some e -> 1 <= le_Term e.
Proof.
  unfold entry_at. intros H. split_if_in H; [done|].
  eapply (lw_term l Hwf); [exact H|lia].
Qed.

Lemma entry_at_index i e : entry_at l i = Some e -> le_Index e = i.
Proof.
  unfold entry_at. intros H. split_if_in H; [done|].
  rewrite (lw_index l Hwf _ _ H). lia.
Qed.

(** A positive term above the snapshot belongs to a stored entry. *)
Lemma termOf_pos i : snapshotIndex l < i < two64 -> 1 <= termOf l i ->
  exists e, entry_at l i = Some e /\ le_Term e = termOf l i.
Proof.
  intros Hi Ht. destruct (entry_at l i) as [e|] eqn:He.
  - exists e. split; [done|]. symmetry. by apply termOf_at.
  - rewrite termOf_none // in Ht.
Qed.

(** Slices start above the snapshot in every call of the source. *)
Lemma slice_wf lo hi : snapshotIndex l < lo < two64 -> 0 <= hi < two64 ->
  slice lo hi l = Some (take (Z.to_nat (Z.min hi (lastIndex l + 1) - lo))
                          (drop (Z.to_nat (lo - snapshotIndex l)) (entries l))).
Proof.
  intros Hlo Hhi. pose proof lastIndex_wf as Hlast. pose proof Hwf as []. unfold slice.
  destruct (Z.leb_spec hi lo).
  { replace (Z.to_nat (Z.min hi (lastIndex l + 1) - lo)) with 0%nat by lia. done. }
  rewrite !(u64_small (snapshotIndex l + 1)); [|lia].
  rewrite !(u64_small (lastIndex l + 1)); [|lia].
  destruct (Z.ltb_spec lo (snapshotIndex l + 1)); [lia|].
  replace (if lastIndex l + 1 <? hi then lastIndex l + 1 else hi)
    with (Z.min hi (lastIndex l + 1)) by (split_if; lia).
  rewrite (u64_small (lo - snapshotIndex l)); [|lia].
  destruct (Z.leb_spec (zlen (entries l)) (lo - snapshotIndex l)).
  { rewrite drop_ge; [by rewrite take_nil|unfold zlen in *; lia]. }
  rewrite u64_small; [|lia].
  destruct (Z.leb_spec (lo - snapshotIndex l) (Z.min hi (lastIndex l + 1) - snapshotIndex l)); [|lia].
  destruct (Z.leb_spec (Z.min hi (lastIndex l + 1) - snapshotIndex l) (zlen (entries l))); [|lia].
  simpl. do 2 f_equal. lia.
Qed.

Lemma AppendOne_wf e : le_Index e = lastIndex l + 1 -> 1 <= le_Term e ->
  snapshotIndex l + zlen (entries l) + 1 < two63 ->
  AppendOne e l = Some (set_entries (entries l ++ [e]) l) /\
  log_wf (set_entries (entries l ++ [e]) l).
Proof.
  intros Hi Ht Hb. pose proof lastIndex_wf as Hlast. pose proof Hwf as [].
  unfold AppendOne. rewrite u64_small; [|lia].
  destruct (Z.eqb_spec (le_Index e) (lastIndex l + 1)); [|lia]. split; [done|].
  split; simpl; autorewrite with zlen; try (done || lia).
  - intros i e' H. apply lookup_app_Some in H as [H|[Hge H]]; [eauto|].
    apply list_lookup_singleton_Some in H as [? <-]. unfold zlen in *. lia.
  - intros i e' H Hpos. apply lookup_app_Some in H as [H|[Hge H]]; [eauto|].
    by apply list_lookup_singleton_Some in H as [? <-].
Qed.

Lemma set_committed_wf c : applied l <= c <= lastIndex l -> log_wf (set_committed c l).
Proof.
  intros Hc. rewrite lastIndex_wf in Hc. pose proof Hwf as []. split; simpl; try (done || lia).
Qed.

End wf.

Lemma CommitTo_wf l c : log_wf l -> 0 <= c < two64 ->
  exists es, CommitTo c l = Some (es, set_committed (Z.max (committed l) (Z.min c (lastIndex l))) l) /\
  log_wf (set_committed (Z.max (committed l) (Z.min c (lastIndex l))) l).
Proof.
  intros Hwf Hc. pose proof (lastIndex_wf l Hwf) as Hlast. pose proof Hwf as []. unfold CommitTo.
  assert (Hwf' : log_wf (set_committed (Z.max (committed l) (Z.min c (lastIndex l))) l)).
  { apply set_committed_wf; [done|lia]. }
  destruct (Z.leb_spec c (committed l)) as [Hle|Hgt].
  { exists []. split; [|done]. rewrite Z.max_l; [|lia]. by destruct l. }
  replace (if lastIndex l <? c then lastIndex l else c)
    with (Z.max (committed l) (Z.min c (lastIndex l))) by (split_if; lia).
  rewrite !u64_small; [|lia..].
  rewrite slice_wf; [by eexists|done|simpl; lia..].
Qed.

(** ** [Append]: the reconciliation of a follower's log *)

(** [es] is a run of entries directly above index [prev]. *)
Definition contiguous (prev : Z) (es : list LogEntry) : Prop :=
  forall i e, es !! i = Some e -> le_Index e = prev + 1 + Z.of_nat i.

Lemma contiguous_cons prev e es :
  contiguous prev (e :: es) <-> le_Index e = prev + 1 /\ contiguous (prev + 1) es.
Proof.
  split.
  - intros H. split; [rewrite (H 0%nat e eq_refl); lia|].
    intros i x Hx. rewrite (H (S i) x Hx). lia.
  - intros [H0 H] [|i] x Hx; simpl in Hx; [simplify_eq; lia|]. rewrite (H i x Hx). lia.
Qed.

(** The first [k] entries of [es] are in the log already, by their terms. *)
Definition matches (l : RaftLog) (es : list LogEntry) : Prop :=
  Forall (fun e => exists x, entry_at l (le_Index e) = Some x /\ le_Term x = le_Term e) es.

(** What [Append] does: it skips the entries whose terms the log has, and at
    the first one it lacks or has with another term it replaces the rest of
    the log by the remaining entries. *)
Lemma Append_loop_spec l es prev :
  log_wf l -> snapshotIndex l <= prev <= lastIndex l -> contiguous prev es ->
  (matches l es /\ Append_loop es l = Some l) \/
  (exists pre e post, es = pre ++ e :: post /\ matches l pre /\
     (forall x, entry_at l (le_Index e) = Some x -> le_Term x <> le_Term e) /\
     Append_loop es l = Some (set_entries
       (take (Z.to_nat (prev + 1 - snapshotIndex l) + length pre) (entries l) ++ e :: post) l)).
Proof.
  intros Hwf. pose proof (lastIndex_wf l Hwf) as Hlast. pose proof Hwf as [].
  revert prev. induction es as [|e es IH]; intros prev Hprev Hc.
  { left. split; [constructor|done]. }
  apply contiguous_cons in Hc as [He Hc]. simpl.
  destruct (Z.leb_spec (le_Index e) (lastIndex l)) as [Hle|Hgt].
  - destruct (proj2 (entry_at_range l Hwf (le_Index e))) as [x Hx]; [lia|].
    rewrite (termOf_at l Hwf _ _ Hx).
    destruct (Z.eqb_spec (le_Term x) (le_Term e)) as [Ht|Ht].
    + destruct (IH (prev + 1)) as [[Hm Hr]|(pre & e' & post & -> & Hm & Hne & Hr)]; [lia|done|..].
      * left. split; [constructor; eauto|done].
      * right. exists (e :: pre), e', post. split_and!; [done|constructor; eauto|done|].
        rewrite Hr. do 2 f_equal. f_equal. f_equal. simpl. lia.
    + right. exists [], e, es. split_and!; [done|constructor|by intros; simplify_eq|].
      rewrite u64_small; [|lia]. rewrite (proj2 (Z.leb_le _ _)); [|lia].
      do 4 f_equal. simpl. lia.
  - right. exists [], e, es. split_and!; [done|constructor| |].
    + intros y Hy. exfalso. assert (is_Some (entry_at l (le_Index e))) as Hs by eauto.
      apply (entry_at_range l Hwf) in Hs. lia.
    + rewrite take_ge; [done|]. simpl. unfold zlen in *. lia.
Qed.

Lemma entry_at_set_entries l k es i :
  log_wf l -> snapshotIndex l + Z.of_nat k <= lastIndex l + 1 ->
  entry_at (set_entries (take k (entries l) ++ es) l) i =
  if i <? snapshotIndex l + Z.of_nat k then entry_at l i
  else if i <=? snapshotIndex l then None
  else es !! Z.to_nat (i - snapshotIndex l - Z.of_nat k).
Proof.
  intros Hwf Hk. rewrite (lastIndex_wf l Hwf) in Hk. unfold zlen in *.
  unfold entry_at. simpl. repeat split_if; try done.
  - rewrite lookup_app_l; [rewrite lookup_take_lt; [done|lia]|rewrite length_take; lia].
  - rewrite lookup_app_r; rewrite length_take; [f_equal; lia|lia].
Qed.

Lemma set_entries_wf l k es :
  log_wf l -> (0 < k)%nat -> snapshotIndex l + Z.of_nat k <= lastIndex l + 1 ->
  contiguous (snapshotIndex l + Z.of_nat k - 1) es -> Forall (fun e => 1 <= le_Term e) es ->
  committed l < snapshotIndex l + Z.of_nat k + zlen es ->
  snapshotIndex l + Z.of_nat k + zlen es < two63 ->
  log_wf (set_entries (take k (entries l) ++ es) l).
Proof.
  intros Hwf Hk0 Hk Hc Ht Hcm Hb. rewrite (lastIndex_wf l Hwf) in Hk. pose proof Hwf as [].
  assert (Hl : zlen (take k (entries l)) = Z.of_nat k).
  { unfold zlen in *. rewrite length_take. lia. }
  split; simpl; autorewrite with zlen; rewrite ?Hl; try (done || lia).
  - intros i e H. apply lookup_app_Some in H as [H|[Hge H]].
    + apply lookup_take_Some in H as [H _]. eauto.
    + rewrite (Hc _ _ H). unfold zlen in *. lia.
  - intros i e H Hi. apply lookup_app_Some in H as [H|[Hge H]].
    + apply lookup_take_Some in H as [H _]. eauto.
    + rewrite Forall_lookup in Ht. eauto.
Qed.

Lemma contiguous_app prev es es' :
  contiguous prev (es ++ es') <-> contiguous prev es /\ contiguous (prev + zlen es) es'.
Proof.
  revert prev. induction es as [|e es IH]; intros prev; simpl.
  - rewrite zlen_nil Z.add_0_r. split; [intros H; split; [by intros ? ? [=]|done]|by intros [_ ?]].
  - rewrite !contiguous_cons IH zlen_cons. replace (prev + (zlen es + 1)) with (prev + 1 + zlen es) by lia.
    tauto.
Qed.

Lemma contiguous_lookup prev es i e :
  contiguous prev es -> es !! i = Some e -> es !! Z.to_nat (le_Index e - prev - 1) = Some e.
Proof. intros Hc H. rewrite (Hc i e H). rewrite <- H. f_equal. lia. Qed.

(** A matched run lies within the log. *)
Lemma matches_range l prev es :
  log_wf l -> prev <= lastIndex l -> contiguous prev es -> matches l es ->
  prev + zlen es <= lastIndex l.
Proof.
  intros Hwf Hprev Hc Hm. destruct es as [|e es _] using rev_ind; [rewrite zlen_nil; lia|].
  apply Forall_app in Hm as [_ Hm]. apply Forall_singleton in Hm as (x & Hx & _).
  apply contiguous_app in Hc as [_ Hc]. apply contiguous_cons in Hc as [Hc _].
  assert (is_Some (entry_at l (le_Index e))) as Hs by eauto.
  apply (entry_at_range l Hwf) in Hs. autorewrite with zlen. lia.
Qed.

(** After the tail above a matched run [pre] is replaced by [post], the log
    matches [pre ++ post]. *)
Lemma matches_replaced l k prev pre post :
  log_wf l -> snapshotIndex l <= prev -> snapshotIndex l + Z.of_nat k = prev + 1 + zlen pre ->
  snapshotIndex l + Z.of_nat k <= lastIndex l + 1 -> contiguous prev (pre ++ post) -> matches l pre ->
  matches (set_entries (take k (entries l) ++ post) l) (pre ++ post).
Proof.
  intros Hwf Hprev Hkz Hk Hc Hm. apply contiguous_app in Hc as [Hcpre Hcpost].
  pose proof (zlen_nonneg pre). unfold matches in *. rewrite Forall_app !Forall_lookup. rewrite Forall_lookup in Hm.
  split; intros i x Hx.
  - destruct (Hm i x Hx) as (y & Hy & Hty). exists y. split; [|done].
    rewrite entry_at_set_entries //. pose proof (Hcpre _ _ Hx). apply lookup_lt_Some in Hx.
    split_if; [done|]. unfold zlen in *. lia.
  - exists x. split; [|done]. rewrite entry_at_set_entries //. pose proof (Hcpost _ _ Hx) as Hi.
    destruct (Z.ltb_spec (le_Index x) (snapshotIndex l + Z.of_nat k)); [lia|].
    destruct (Z.leb_spec (le_Index x) (snapshotIndex l)); [lia|].
    rewrite <- Hx. f_equal. lia.
Qed.

(** The result of [Append] on a well-formed log. *)
Lemma Append_loop_wf l es prev :
  log_wf l -> committed l <= prev <= lastIndex l -> contiguous prev es ->
  Forall (fun e => 1 <= le_Term e) es -> prev + 1 + zlen es < two63 ->
  exists l', Append_loop es l = Some l' /\ log_wf l' /\ matches l' es /\
    (l' = l \/ lastIndex l' = prev + zlen es) /\
    (exists es', l' = set_entries es' l) /\
    (forall i, i <= prev -> entry_at l' i = entry_at l i).
Proof.
  intros Hwf Hprev Hc Ht Hb. pose proof Hwf as [].
  destruct (Append_loop_spec l es prev) as [[Hm Hr]|(pre & e & post & -> & Hm & Hne & Hr)]; auto; [lia|..].
  { exists l. split_and!; auto. exists (entries l). by destruct l. }
  rewrite Hr. set (k := (Z.to_nat (prev + 1 - snapshotIndex l) + length pre)%nat).
  pose proof Hc as [Hcpre Hcpost]%contiguous_app. apply Forall_app in Ht as [_ Ht].
  autorewrite with zlen in Hb. pose proof (zlen_nonneg pre). pose proof (zlen_nonneg post).
  assert (Hkz : snapshotIndex l + Z.of_nat k = prev + 1 + zlen pre) by (unfold k, zlen in *; lia).
  assert (Hk : snapshotIndex l + Z.of_nat k <= lastIndex l + 1).
  { pose proof (matches_range l prev pre Hwf). unfold k, zlen in *. intuition lia. }
  assert (Hwf' : log_wf (set_entries (take k (entries l) ++ e :: post) l)).
  { apply set_entries_wf; autorewrite with zlen; auto; try (unfold k in *; lia).
    rewrite Hkz. by replace (prev + 1 + zlen pre - 1) with (prev + zlen pre) by lia. }
  eexists. split_and!; [done|done| | |by eexists|].
  - eapply matches_replaced; eauto. lia.
  - right. rewrite lastIndex_wf //. simpl. rewrite !zlen_app zlen_cons.
    rewrite lastIndex_wf // in Hk. unfold zlen in *. rewrite length_take. lia.
  - intros i Hi. rewrite entry_at_set_entries //. split_if; [done|lia].
Qed.

(** Every entry of the result was in the log at its place or is in the run. *)
Lemma Append_loop_origin l l' es prev :
  log_wf l -> snapshotIndex l <= prev <= lastIndex l -> contiguous prev es ->
  Append_loop es l = Some l' ->
  entries l' !! 0%nat = entries l !! 0%nat /\
  forall i e, entries l' !! i = Some e -> entries l !! i = Some e \/ e ∈ es.
Proof.
  intros Hwf Hprev Hc Hl. pose proof (lw_len l Hwf).
  destruct (Append_loop_spec l es prev) as [[_ Hr]|(pre & e & post & -> & _ & _ & Hr)]; auto;
    rewrite Hl in Hr; injection Hr as ->; [by auto|simpl].
  assert (Hk : (0 < Z.to_nat (prev + 1 - snapshotIndex l) + length pre)%nat) by lia.
  split.
  - rewrite lookup_app_l; [by rewrite lookup_take_lt|]. rewrite length_take. unfold zlen in *. lia.
  - intros i x Hx. apply lookup_app_Some in Hx as [Hx|[_ Hx]].
    + apply lookup_take_Some in Hx as [Hx _]. by left.
    + right. apply list_elem_of_lookup_2 in Hx. set_solver.
Qed.

(** ** [MaybeCommit] *)

(** What the loop looks for at index [n]. *)
Definition commit_ok (matchIndexes : list Z) (currentTerm : Z) (l : RaftLog) (n : Z) : Prop :=
  commit_majority matchIndexes <= commit_count matchIndexes n /\ termOf l n = currentTerm.

(** The members that hold index [n], by the leader's bookkeeping. *)
Definition holders (matchIndexes : list Z) (n : Z) : Z :=
  zlen (filter (fun mi => n <= mi) matchIndexes).

Lemma commit_count_holders ms n : commit_count ms n = 1 + holders ms n.
Proof.
  unfold commit_count, holders.
  assert (H : forall acc, foldl (fun count mi => if n <=? mi then count + 1 else count) acc ms
            = acc + zlen (filter (fun mi => n <= mi) ms)); [|done].
  induction ms as [|m ms IH]; intros acc; simpl; [rewrite zlen_nil; lia|].
  rewrite IH filter_cons. destruct (Z.leb_spec n m); case_decide; try lia.
  rewrite zlen_cons. lia.
Qed.

Lemma MaybeCommit_loop_spec fuel ms cur n l :
  log_wf l -> committed l <= n <= lastIndex l -> n - committed l <= Z.of_nat fuel ->
  (exists k, committed l < k <= n /\ commit_ok ms cur l k /\
     (forall j, k < j <= n -> ~ commit_ok ms cur l j) /\
     MaybeCommit_loop fuel ms cur n l = (true, set_committed k l)) \/
  ((forall j, committed l < j <= n -> ~ commit_ok ms cur l j) /\
   MaybeCommit_loop fuel ms cur n l = (false, l)).
Proof.
  intros Hwf. pose proof (lastIndex_wf l Hwf). pose proof Hwf as [].
  revert n. induction fuel as [|fuel IH]; intros n Hn Hf; simpl.
  { right. split; [lia|done]. }
  destruct (Z.leb_spec n (committed l)); [right; split; [lia|done]|].
  destruct (_ && _) eqn:Hb; bool_hyp.
  { left. exists n. split_and!; try lia; [by split|done]. }
  assert (Hno : ~ commit_ok ms cur l n).
  { intros [? ?]. destruct Hb; bool_hyp; lia. }
  rewrite u64_small; [|lia].
  destruct (IH (n - 1)) as [(k & Hk & Hok & Hmax & Hr)|[Hnone Hr]]; [lia..| |].
  - left. exists k. split_and!; try done; [lia..|]. intros j Hj.
    destruct (decide (j = n)) as [->|]; [done|]. apply Hmax. lia.
  - right. split; [|done]. intros j Hj. destruct (decide (j = n)) as [->|]; [done|]. apply Hnone. lia.
Qed.

Lemma MaybeCommit_spec ms t cur l :
  log_wf l ->
  (exists k, committed l < k <= lastIndex l /\ commit_ok ms cur l k /\
     (forall j, k < j <= lastIndex l -> ~ commit_ok ms cur l j) /\
     MaybeCommit ms t cur l = (true, set_committed k l)) \/
  ((forall j, committed l < j <= lastIndex l -> ~ commit_ok ms cur l j) /\
   MaybeCommit ms t cur l = (false, l)).
Proof.
  intros Hwf. pose proof (lastIndex_wf l Hwf). pose proof Hwf as [].
  apply MaybeCommit_loop_spec; auto; lia.
Qed.

Lemma MaybeCommit_wf ms t cur l : log_wf l ->
  exists c, snd (MaybeCommit ms t cur l) = set_committed c l /\
    committed l <= c <= lastIndex l /\ log_wf (set_committed c l).
Proof.
  intros Hwf. pose proof (lastIndex_wf l Hwf). pose proof Hwf as [].
  destruct (MaybeCommit_spec ms t cur l Hwf) as [(k & Hk & _ & _ & ->)|[_ ->]]; simpl.
  - exists k. split_and!; try lia; [done|]. apply set_committed_wf; [done|lia].
  - exists (committed l). split_and!; try lia; by destruct l.
Qed.

(** ** [Compact] *)

Lemma Compact_wf index term l :
  log_wf l -> 0 <= index < two63 - 1 -> log_wf (Compact index term l).
Proof.
  intros Hwf Hi. pose proof Hwf as []. unfold Compact.
  destruct (Z.leb_spec index (snapshotIndex l)); [done|].
  rewrite u64_small; [|lia]. destruct (Z.ltb_spec (index - snapshotIndex l) (zlen (entries l))).
  - split; simpl; unfold zlen in *; rewrite ?length_insert ?length_drop; try (repeat split_if; lia).
    + intros i e. rewrite list_lookup_insert_Some lookup_drop. intros [(<- & <- & _)|[_ H']]; simpl; [lia|].
      rewrite (lw_index0 _ _ H'). lia.
    + intros i e. rewrite list_lookup_insert_Some lookup_drop. intros [(<- & _)|[_ H']] ?; [lia|].
      eapply lw_term0; [done|lia].
  - split; simpl; unfold zlen in *; simpl; try (repeat split_if; lia).
    + intros [|i] e He; simpl in He; [|done]. simplify_eq. simpl. lia.
    + intros [|i] e He; simpl in He; [lia|done].
Qed.

Lemma Compact_entry_at index term l i :
  log_wf l -> 0 <= index < two63 - 1 -> index < i -> entry_at (Compact index term l) i = entry_at l i.
Proof.
  intros Hwf Hi Hlt. pose proof Hwf as []. unfold Compact.
  destruct (Z.leb_spec index (snapshotIndex l)); [done|].
  rewrite u64_small; [|lia]. unfold entry_at. simpl.
  destruct (Z.leb_spec i index); [lia|]. destruct (Z.leb_spec i (snapshotIndex l)); [lia|].
  destruct (Z.ltb_spec (index - snapshotIndex l) (zlen (entries l))).
  - rewrite list_lookup_insert_ne; [|lia]. rewrite lookup_drop. f_equal. lia.
  - rewrite !lookup_ge_None_2 //; unfold zlen in *; simpl; lia.
Qed.

(** ** Properties *)

(** A follower's [Append] never panics on a run of entries directly above
    an index it holds and has not committed beyond; afterwards the log is
    well formed, holds every entry of the run by index and term, ends with
    the run when anything had to be replaced, and is unchanged up to the
    index the run was attached to (so no committed entry is lost). *)
Theorem append_reconciles (l : RaftLog) (es : list LogEntry) (prev : Z)
  (Hwf : log_wf l) (Hprev : committed l <= prev <= lastIndex l) (Hc : contiguous prev es)
  (Ht : Forall (fun e => 1 <= le_Term e) es) (Hb : prev + 1 + zlen es < two63) :
  exists l', Append es l = Some (lastIndex l', l') /\ log_wf l' /\ matches l' es /\
    (l' = l \/ lastIndex l' = prev + zlen es) /\
    committed l' = committed l /\
    (forall i, i <= prev -> entry_at l' i = entry_at l i).
Proof.
  destruct (Append_loop_wf l es prev) as (l' & Hr & ? & ? & ? & [es' ->] & ?); auto.
  eexists. split_and!; eauto. unfold Append. by rewrite Hr.
Qed.

(** A follower's log and a run of entries that overwrites its last two
    entries. *)
Definition demo_log : RaftLog :=
  mkLog [sentinel 0 0; mkEntry 1 1 EntryNoop []; mkEntry 2 1 EntryNormal []; mkEntry 3 1 EntryNormal []]
    0 0 1 1.
Definition demo_run : list LogEntry := [mkEntry 2 2 EntryNoop []].

Lemma demo_log_wf : log_wf demo_log.
Proof.
  split; simpl; unfold zlen; simpl; try lia.
  - intros [|[|[|[|i]]]] e H; simpl in H; by simplify_eq.
  - intros [|[|[|[|i]]]] e H ?; simpl in H; simplify_eq; simpl; lia.
Qed.

Lemma append_reconciles_witness :
  exists l', Append demo_run demo_log = Some (lastIndex l', l') /\ log_wf l' /\ matches l' demo_run /\
    (l' = demo_log \/ lastIndex l' = 1 + zlen demo_run) /\
    committed l' = committed demo_log /\
    (forall i, i <= 1 -> entry_at l' i = entry_at demo_log i).
Proof.
  apply (append_reconciles demo_log demo_run 1); [apply demo_log_wf|done| |repeat constructor; done|done].
  unfold demo_run. intros [|i] e H; simpl in H; by simplify_eq.
Defined.

(** [MaybeCommit] moves the commit index to the greatest index above it
    whose entry is of the current term and reaches the required count of
    match indexes, and reports false and changes nothing when there is none;
    the loop always ends within the log. *)
Theorem maybe_commit_greatest (ms : list Z) (t cur : Z) (l : RaftLog) (Hwf : log_wf l) :
  (exists k, committed l < k <= lastIndex l /\ commit_ok ms cur l k /\
     (forall j, k < j <= lastIndex l -> ~ commit_ok ms cur l j) /\
     MaybeCommit ms t cur l = (true, set_committed k l)) \/
  ((forall j, committed l < j <= lastIndex l -> ~ commit_ok ms cur l j) /\
   MaybeCommit ms t cur l = (false, l)).
Proof. by apply MaybeCommit_spec. Qed.

Lemma maybe_commit_greatest_witness :
  (exists k, committed demo_log < k <= lastIndex demo_log /\ commit_ok [3; 2; 0] 1 demo_log k /\
     (forall j, k < j <= lastIndex demo_log -> ~ commit_ok [3; 2; 0] 1 demo_log j) /\
     MaybeCommit [3; 2; 0] 1 1 demo_log = (true, set_committed k demo_log)) \/
  ((forall j, committed demo_log < j <= lastIndex demo_log -> ~ commit_ok [3; 2; 0] 1 demo_log j) /\
   MaybeCommit [3; 2; 0] 1 1 demo_log = (false, demo_log)).
Proof. apply (maybe_commit_greatest [3; 2; 0] 1 1 demo_log). apply demo_log_wf. Defined.

(** The leader passes one match index per member, its own included, and
    the count starts at 1.  With an odd number of members an index is
    committed only if a majority of them holds it. *)
Theorem commit_majority_odd (ms : list Z) (t cur : Z) (l l' : RaftLog)
  (Hwf : log_wf l) (Hodd : Z.odd (zlen ms) = true)
  (Hr : MaybeCommit ms t cur l = (true, l')) :
  zlen ms < 2 * holders ms (committed l').
Proof.
  destruct (MaybeCommit_spec ms t cur l Hwf) as [(k & Hk & [Hcnt _] & _ & Hr')|[_ Hr']];
    rewrite Hr' in Hr; simplify_eq. simpl.
  rewrite commit_count_holders in Hcnt. unfold commit_majority in Hcnt.
  apply Z.odd_spec in Hodd as [m Hm]. rewrite Hm in Hcnt |- *.
  replace (2 * m + 1 + 1) with ((m + 1) * 2) in Hcnt by lia. rewrite Z.div_mul in Hcnt; lia.
Qed.

Lemma commit_majority_odd_witness : zlen [3; 2; 0] < 2 * holders [3; 2; 0] 2.
Proof.
  apply (commit_majority_odd [3; 2; 0] 1 1 demo_log (set_committed 2 demo_log));
    [apply demo_log_wf|done|vm_compute; reflexivity].
Defined.

(** With an even number of members half of them is enough: the leader
    counts itself twice, once by the initial 1 and once by its own match
    index.  In a cluster of two, or with two of four members up, the leader
    commits its last entry although no majority holds it. *)
Theorem commit_half_even (ms : list Z) (t cur : Z) (l : RaftLog)
  (Hwf : log_wf l) (Hhalf : 2 * holders ms (lastIndex l) = zlen ms)
  (Hlast : committed l < lastIndex l) (Hcur : termOf l (lastIndex l) = cur) :
  MaybeCommit ms t cur l = (true, set_committed (lastIndex l) l).
Proof.
  assert (Hok : commit_ok ms cur l (lastIndex l)).
  { split; [|done]. rewrite commit_count_holders. unfold commit_majority. rewrite -Hhalf.
    replace (2 * holders ms (lastIndex l) + 1) with (1 + holders ms (lastIndex l) * 2) by lia.
    rewrite Z.div_add; [|lia]. rewrite (Z.div_small 1 2); lia. }
  destruct (MaybeCommit_spec ms t cur l Hwf) as [(k & Hk & _ & Hmax & ->)|[Hnone _]].
  - destruct (decide (k = lastIndex l)) as [->|]; [done|]. exfalso. apply (Hmax (lastIndex l)); [lia|done].
  - exfalso. apply (Hnone (lastIndex l)); [lia|done].
Qed.

Lemma commit_half_even_witness :
  MaybeCommit [3; 0] 1 1 demo_log = (true, set_committed 3 demo_log).
Proof.
  apply (commit_half_even [3; 0] 1 1 demo_log); [apply demo_log_wf|vm_compute; reflexivity..].
Defined.

(** Compacting at a snapshot keeps the log well formed and every entry
    above the snapshot where it was, and answers the snapshot's term for its
    index; a snapshot the log already covers changes nothing. *)
Theorem compact_keeps_tail (index term : Z) (l : RaftLog)
  (Hwf : log_wf l) (Hi : 0 <= index < two63 - 1) :
  log_wf (Compact index term l) /\
  (forall i, index < i -> entry_at (Compact index term l) i = entry_at l i) /\
  (snapshotIndex l < index -> termOf (Compact index term l) index = term) /\
  (index <= snapshotIndex l -> Compact index term l = l).
Proof.
  split_and!; [by apply Compact_wf|by intros; apply Compact_entry_at|..]; unfold Compact.
  - intros Hlt. destruct (Z.leb_spec index (snapshotIndex l)); [lia|].
    unfold termOf. simpl. rewrite Z.ltb_irrefl Z.eqb_refl. done.
  - intros Hle. by rewrite (proj2 (Z.leb_le _ _) Hle).
Qed.

Lemma compact_keeps_tail_witness :
  log_wf (Compact 2 1 demo_log) /\
  (forall i, 2 < i -> entry_at (Compact 2 1 demo_log) i = entry_at demo_log i) /\
  (snapshotIndex demo_log < 2 -> termOf (Compact 2 1 demo_log) 2 = 1) /\
  (2 <= snapshotIndex demo_log -> Compact 2 1 demo_log = demo_log).
Proof. apply (compact_keeps_tail 2 1 demo_log); [apply demo_log_wf|lia]. Defined.
