(* ===== verification/Raft.v ===== *)
(** * Raft: the state machine of one node (pkg/raft/raft.go)

    Every method of [*Raft] is a function on the record of its fields.  The
    fields [step] and [tick] of the source hold the handlers of the current
    role; they are only assigned together with [state], so the model
    dispatches on [state].  [rng] is an oracle ([Rand]) with the number of
    draws made so far.  A panic of the source is [None].  The messages
    printed for the operator are not modelled. *)

From S2P Require Import Prelude Bytes RaftLog.

(** The random source of a node: [Intn id k n] is the [k]-th draw of
    [rng.Intn(n)] at node [id]. *)
Class Rand := {
  Intn : string -> nat -> Z -> Z;
  Intn_range : forall id k n, 0 < n -> 0 <= Intn id k n < n;
}.

(** ** Data *)

Record Config := mkConfig {
  NodeID : string;
  Peers : list string;
  HeartbeatTick : Z;
  ElectionTick : Z;
  MaxEntriesToSend : Z;
  MaxInflight : Z;
}.

Definition DefaultConfig (nodeID : string) (peers : list string) : Config :=
  mkConfig nodeID peers 5 10 100 16.

Inductive MsgType :=
  | MsgHeartbeat | MsgHeartbeatRsp | MsgAppend | MsgAppendRsp | MsgVote | MsgVoteRsp
  | MsgPreVote | MsgPreVoteRsp | MsgPropose | MsgSnapshot | MsgSnapshotRsp | MsgTimeoutNow
  | MsgReadIndex | MsgReadIndexRsp | MsgTick | MsgUnreachable.

#[global] Instance MsgType_eq_dec : EqDecision MsgType.
Proof. solve_decision. Defined.

Record Snapshot := mkSnapshot { snap_Index : Z; snap_Term : Z; snap_Data : bytes }.

#[global] Instance Snapshot_eq_dec : EqDecision Snapshot.
Proof. solve_decision. Defined.

Record Message := mkMsg {
  m_Type : MsgType;
  m_To : string;
  m_From : string;
  m_Term : Z;
  m_Index : Z;
  m_LogTerm : Z;
  m_LogIndex : Z;
  m_Entries : list LogEntry;
  m_CommitIndex : Z;
  m_Success : bool;
  m_ConflictIndex : Z;
  m_ConflictTerm : Z;
  m_LastLogIndex : Z;
  m_LastLogTerm : Z;
  m_VoteGranted : bool;
  m_PreVote : bool;
  m_Snapshot : option Snapshot;
  m_Reject : bool;
  m_RejectHint : Z;
}.

#[global] Instance Message_eq_dec : EqDecision Message.
Proof. solve_decision. Defined.

Record HardState := mkHardState { hs_Term : Z; hs_Vote : string; hs_Commit : Z }.
Record SoftState := mkSoftState { ss_Lead : string; ss_RaftState : NodeState }.
Record ReadState := mkReadState { rs_Index : Z; rs_RequestCtx : bytes }.

Record Ready := mkReady {
  rd_Entries : list LogEntry;
  rd_Messages : list Message;
  rd_CommittedEntries : list LogEntry;
  rd_Snapshot : option Snapshot;
  rd_SoftState : option SoftState;
  rd_HardState : option HardState;
  rd_ReadStates : list ReadState;
}.

Definition Ready_IsEmpty (r : Ready) : bool :=
  match rd_Entries r, rd_Messages r, rd_CommittedEntries r, rd_Snapshot r,
        rd_SoftState r, rd_HardState r, rd_ReadStates r with
  | [], [], [], None, None, None, [] => true
  | _, _, _, _, _, _, _ => false
  end.

(** ** Pending linearizable reads *)

Record readIndexState := mkReadIndexState {
  ri_index : Z;
  ri_from : string;
  ri_ctx : bytes;
  ri_acks : gmap string bool;
}.

Record readOnly := mkReadOnly {
  pendingReadIndex : gmap string readIndexState;
  readIndexQueue : list string;
}.

Definition newReadOnly : readOnly := mkReadOnly ∅ [].

Definition addRequest (index : Z) (from : string) (ctx : bytes) (r : readOnly) : readOnly :=
  let key := string_of_bytes ctx in
  match pendingReadIndex r !! key with
  | Some _ => r
  | None =>
      mkReadOnly (<[key := mkReadIndexState index from ctx ∅]> (pendingReadIndex r))
        (readIndexQueue r ++ [key])
  end.

Definition takeReadStates (r : readOnly) : list ReadState := [].

(** ** The state machine *)

Record Raft := mkRaft {
  config : Config;
  id : string;
  term : Z;
  vote : string;
  log : RaftLog;
  state : NodeState;
  lead : string;
  electionElapsed : Z;
  electionTimeout : Z;
  heartbeatElapsed : Z;
  progress : gmap string Progress;
  votes : gmap string bool;
  msgs : list Message;
  read_only : readOnly;
  draws : nat;
}.

Definition set_term (v : Z) (r : Raft) : Raft :=
  mkRaft (config r) (id r) v (vote r) (log r) (state r) (lead r) (electionElapsed r)
    (electionTimeout r) (heartbeatElapsed r) (progress r) (votes r) (msgs r) (read_only r) (draws r).
Definition set_vote (v : string) (r : Raft) : Raft :=
  mkRaft (config r) (id r) (term r) v (log r) (state r) (lead r) (electionElapsed r)
    (electionTimeout r) (heartbeatElapsed r) (progress r) (votes r) (msgs r) (read_only r) (draws r).
Definition set_log (v : RaftLog) (r : Raft) : Raft :=
  mkRaft (config r) (id r) (term r) (vote r) v (state r) (lead r) (electionElapsed r)
    (electionTimeout r) (heartbeatElapsed r) (progress r) (votes r) (msgs r) (read_only r) (draws r).
Definition set_state (v : NodeState) (r : Raft) : Raft :=
  mkRaft (config r) (id r) (term r) (vote r) (log r) v (lead r) (electionElapsed r)
    (electionTimeout r) (heartbeatElapsed r) (progress r) (votes r) (msgs r) (read_only r) (draws r).
Definition set_lead (v : string) (r : Raft) : Raft :=
  mkRaft (config r) (id r) (term r) (vote r) (log r) (state r) v (electionElapsed r)
    (electionTimeout r) (heartbeatElapsed r) (progress r) (votes r) (msgs r) (read_only r) (draws r).
Definition set_electionElapsed (v : Z) (r : Raft) : Raft :=
  mkRaft (config r) (id r) (term r) (vote r) (log r) (state r) (lead r) v
    (electionTimeout r) (heartbeatElapsed r) (progress r) (votes r) (msgs r) (read_only r) (draws r).
Definition set_electionTimeout (v : Z) (r : Raft) : Raft :=
  mkRaft (config r) (id r) (term r) (vote r) (log r) (state r) (lead r) (electionElapsed r)
    v (heartbeatElapsed r) (progress r) (votes r) (msgs r) (read_only r) (S (draws r)).
Definition set_heartbeatElapsed (v : Z) (r : Raft) : Raft :=
  mkRaft (config r) (id r) (term r) (vote r) (log r) (state r) (lead r) (electionElapsed r)
    (electionTimeout r) v (progress r) (votes r) (msgs r) (read_only r) (draws r).
Definition set_progress (v : gmap string Progress) (r : Raft) : Raft :=
  mkRaft (config r) (id r) (term r) (vote r) (log r) (state r) (lead r) (electionElapsed r)
    (electionTimeout r) (heartbeatElapsed r) v (votes r) (msgs r) (read_only r) (draws r).
Definition set_votes (v : gmap string bool) (r : Raft) : Raft :=
  mkRaft (config r) (id r) (term r) (vote r) (log r) (state r) (lead r) (electionElapsed r)
    (electionTimeout r) (heartbeatElapsed r) (progress r) v (msgs r) (read_only r) (draws r).
Definition set_msgs (v : list Message) (r : Raft) : Raft :=
  mkRaft (config r) (id r) (term r) (vote r) (log r) (state r) (lead r) (electionElapsed r)
    (electionTimeout r) (heartbeatElapsed r) (progress r) (votes r) v (read_only r) (draws r).
Definition set_readOnly (v : readOnly) (r : Raft) : Raft :=
  mkRaft (config r) (id r) (term r) (vote r) (log r) (state r) (lead r) (electionElapsed r)
    (electionTimeout r) (heartbeatElapsed r) (progress r) (votes r) (msgs r) v (draws r).

Inductive RaftError := ErrNoLeader | ErrProposeDuringElection | ErrEmptyProposal.

(** A message literal that sets [Type], [To] and [Term] only. *)
Definition basic_msg (ty : MsgType) (to : string) (t : Z) : Message :=
  mkMsg ty to "" t 0 0 0 [] 0 false 0 0 0 0 false false None false 0.

(** Assignments to fields of a message. *)
Definition m_set_To (to : string) (m : Message) : Message :=
  mkMsg (m_Type m) to (m_From m) (m_Term m) (m_Index m) (m_LogTerm m) (m_LogIndex m)
    (m_Entries m) (m_CommitIndex m) (m_Success m) (m_ConflictIndex m) (m_ConflictTerm m)
    (m_LastLogIndex m) (m_LastLogTerm m) (m_VoteGranted m) (m_PreVote m) (m_Snapshot m)
    (m_Reject m) (m_RejectHint m).
Definition m_set_FromTerm (from : string) (t : Z) (m : Message) : Message :=
  mkMsg (m_Type m) (m_To m) from t (m_Index m) (m_LogTerm m) (m_LogIndex m)
    (m_Entries m) (m_CommitIndex m) (m_Success m) (m_ConflictIndex m) (m_ConflictTerm m)
    (m_LastLogIndex m) (m_LastLogTerm m) (m_VoteGranted m) (m_PreVote m) (m_Snapshot m)
    (m_Reject m) (m_RejectHint m).

Section machine.
Context `{R : Rand}.

(** [send] fills in the sender and, for a zero term, the current term. *)
Definition send (m : Message) (r : Raft) : Raft :=
  let from := if m_From m =?s "" then id r else m_From m in
  let t := if m_Term m =? 0 then term r else m_Term m in
  set_msgs (msgs r ++ [m_set_FromTerm from t m]) r.

(** [rng.Intn] panics on a bound that is not positive. *)
Definition resetElectionTimeout (r : Raft) : option Raft :=
  let r := set_electionElapsed 0 r in
  let tick := ElectionTick (config r) in
  if tick <=? 0 then None
  else Some (set_electionTimeout (i64 (tick + Intn (id r) (draws r) tick)) r).

Definition becomeFollower (t : Z) (lead : string) (r : Raft) : option Raft :=
  let r := if term r <? t then set_vote "" (set_term t r) else r in
  resetElectionTimeout (set_lead lead (set_state Follower r)).

Definition becomeCandidate (r : Raft) : option Raft :=
  if decide (state r = Leader) then None
  else
    let r := set_vote (id r) (set_term (u64 (term r + 1)) r) in
    let r := set_votes {[id r := true]} (set_lead "" (set_state Candidate r)) in
    resetElectionTimeout r.

Definition sendHeartbeat (to : string) (r : Raft) : Raft :=
  let commit := ls_CommitIndex (Stats (log r)) in
  send (mkMsg MsgHeartbeat to "" (term r) 0 0 0 [] commit false 0 0 0 0 false false None false 0) r.

Definition sendAppendEntries (to : string) (r : Raft) : option Raft :=
  match progress r !! to with
  | None => Some r
  | Some prog =>
      if decide (pr_State prog = ProgressSnapshot) then Some r
      else
        let nextIndex := NextIndex prog in
        let prevIndex := u64 (nextIndex - 1) in
        let prevTerm := termOf (log r) prevIndex in
        es ← Entries nextIndex (u64 (nextIndex + u64 (MaxEntriesToSend (config r)))) (log r);
        Some (send (mkMsg MsgAppend to "" (term r) 0 prevTerm prevIndex es
                      (ls_CommitIndex (Stats (log r))) false 0 0 0 0 false false None false 0) r)
  end.

Definition broadcastAppendEntries (heartbeat : bool) (r : Raft) : option Raft :=
  for_each (fun peer r => if heartbeat then Some (sendHeartbeat peer r) else sendAppendEntries peer r)
    (Peers (config r)) r.

Definition broadcastHeartbeat (r : Raft) : Raft :=
  foldl (fun r peer => sendHeartbeat peer r) r (Peers (config r)).

Definition appendEntry (entry : LogEntry) (r : Raft) : option Raft :=
  let entry := mkEntry (u64 (lastIndex (log r) + 1)) (term r) (le_Type entry) (le_Data entry) in
  l ← AppendOne entry (log r); Some (set_log l r).

Definition leader_progress (r : Raft) (last : Z) : gmap string Progress :=
  let own := mkProgress (u64 (last + 1)) last ProgressReplicate 0 true in
  foldl (fun pm peer => <[peer := mkProgress (u64 (last + 1)) 0 ProgressProbe 0 false]> pm)
    (<[id r := own]> (progress r)) (Peers (config r)).

Definition becomeLeader (r : Raft) : option Raft :=
  if decide (state r = Candidate) then
    let r := set_heartbeatElapsed 0 (set_lead (id r) (set_state Leader r)) in
    let last := lastIndex (log r) in
    let r := set_progress (leader_progress r last) r in
    r ← appendEntry (mkEntry 0 0 EntryNoop []) r;
    broadcastAppendEntries true r
  else None.

Definition campaign (r : Raft) : option Raft :=
  r ← becomeCandidate r;
  match Peers (config r) with
  | [] => becomeLeader r
  | _ :: _ =>
      let last := lastIndex (log r) in
      let lastTerm := LastTerm (log r) in
      Some (foldl (fun r peer =>
        send (mkMsg MsgVote peer "" (term r) 0 lastTerm last [] 0 false 0 0 last lastTerm
                false false None false 0) r) r (Peers (config r)))
  end.

Definition tickElection (r : Raft) : option Raft :=
  let r := set_electionElapsed (i64 (electionElapsed r + 1)) r in
  if electionTimeout r <=? electionElapsed r
  then campaign (set_electionElapsed 0 r) else Some r.

Definition tickHeartbeat (r : Raft) : option Raft :=
  let r := set_heartbeatElapsed (i64 (heartbeatElapsed r + 1)) r in
  if HeartbeatTick (config r) <=? heartbeatElapsed r
  then broadcastAppendEntries true (set_heartbeatElapsed 0 r) else Some r.

Definition Tick (r : Raft) : option Raft :=
  match state r with
  | Leader => tickHeartbeat r
  | Follower | Candidate => tickElection r
  end.

Definition hasQuorum (vs : gmap string bool) (r : Raft) : bool :=
  let granted := zlen (filter (fun p => snd p = true) (map_to_list vs)) in
  let total := 1 + zlen (Peers (config r)) in
  total <? granted * 2.

Definition maybeCommit (r : Raft) : Raft :=
  let matchIndexes := (fun p => MatchIndex (snd p)) <$> map_to_list (progress r) in
  set_log (snd (MaybeCommit matchIndexes (LastTerm (log r)) (term r) (log r))) r.

(** The entries of a proposal with their index and term filled in. *)
Definition stamp_entries (last t : Z) (es : list LogEntry) : list LogEntry :=
  imap (fun i e => mkEntry (u64 (u64 (last + 1) + Z.of_nat i)) t (le_Type e) (le_Data e)) es.

Definition handleProposal (m : Message) (r : Raft) : option Raft :=
  let es := stamp_entries (lastIndex (log r)) (term r) (m_Entries m) in
  l ← for_each AppendOne es (log r);
  let r := set_log l r in
  let r := match progress r !! id r with
           | Some prog =>
               set_progress (<[id r := snd (MaybeUpdate (lastIndex (log r)) prog)]> (progress r)) r
           | None => r
           end in
  r ← broadcastAppendEntries false r;
  Some (maybeCommit r).

Definition logConsistencyCheck (prevIndex prevTerm : Z) (r : Raft) : bool :=
  if prevIndex =? 0 then true else termOf (log r) prevIndex =? prevTerm.

(** The loop of [findConflict]: [index] runs down to the snapshot index. *)
Fixpoint findConflict_loop (fuel : nat) (l : RaftLog) (conflictTerm index : Z) : Z :=
  match fuel with
  | O => index
  | S fuel =>
      if (snapshotIndex l <? index) && (termOf l (u64 (index - 1)) =? conflictTerm)
      then findConflict_loop fuel l conflictTerm (u64 (index - 1)) else index
  end.

Definition findConflict (rejectedIndex : Z) (r : Raft) : Z * Z :=
  let conflictTerm := termOf (log r) rejectedIndex in
  if conflictTerm =? 0 then (lastIndex (log r), 0)
  else (findConflict_loop (Z.to_nat (rejectedIndex - snapshotIndex (log r))) (log r)
          conflictTerm rejectedIndex, conflictTerm).

Definition appendRsp (to : string) (t index : Z) : Message :=
  mkMsg MsgAppendRsp to "" t index 0 0 [] 0 false 0 0 0 0 false false None false 0.

Definition handleAppendEntries (m : Message) (r : Raft) : option Raft :=
  let commit := ls_CommitIndex (Stats (log r)) in
  if m_LogIndex m <? commit then Some (send (appendRsp (m_From m) (term r) commit) r)
  else if negb (logConsistencyCheck (m_LogIndex m) (m_LogTerm m) r) then
    let '(conflictIndex, conflictTerm) := findConflict (m_LogIndex m) r in
    Some (send (mkMsg MsgAppendRsp (m_From m) "" (term r) 0 0 0 [] 0 false conflictIndex conflictTerm
                  0 0 false false None true 0) r)
  else
    r ← match m_Entries m with
        | [] => Some r
        | _ :: _ => '(_, l) ← Append (m_Entries m) (log r); Some (set_log l r)
        end;
    r ← (if ls_CommitIndex (Stats (log r)) <? m_CommitIndex m then
           let newCommit := m_CommitIndex m in
           let lastIdx := lastIndex (log r) in
           let newCommit := if lastIdx <? newCommit then lastIdx else newCommit in
           '(_, l) ← CommitTo newCommit (log r); Some (set_log l r)
         else Some r);
    Some (send (appendRsp (m_From m) (term r) (lastIndex (log r))) r).

Definition set_prog (peer : string) (p : Progress) (r : Raft) : Raft :=
  set_progress (<[peer := p]> (progress r)) r.

Definition p_set_RecentActive (b : bool) (p : Progress) : Progress :=
  mkProgress (NextIndex p) (MatchIndex p) (pr_State p) (Inflight p) b.

Definition handleAppendResponse (m : Message) (r : Raft) : option Raft :=
  match progress r !! m_From m with
  | None => Some r
  | Some prog =>
      let prog := p_set_RecentActive true prog in
      if m_Reject m then
        let '(ok, prog) := MaybeDecrTo (m_Index m) (m_ConflictIndex m) prog in
        let r := set_prog (m_From m) prog r in
        if ok then sendAppendEntries (m_From m) r else Some r
      else
        let '(ok, prog) := MaybeUpdate (m_Index m) prog in
        if ok then
          let prog := if decide (pr_State prog = ProgressReplicate) then prog else BecomeReplicate prog in
          let r := maybeCommit (set_prog (m_From m) prog r) in
          if MatchIndex prog <? lastIndex (log r) then sendAppendEntries (m_From m) r else Some r
        else Some (set_prog (m_From m) prog r)
  end.

Definition handleHeartbeat (m : Message) (r : Raft) : option Raft :=
  r ← (if ls_CommitIndex (Stats (log r)) <? m_CommitIndex m
       then '(_, l) ← CommitTo (m_CommitIndex m) (log r); Some (set_log l r) else Some r);
  Some (send (mkMsg MsgHeartbeatRsp (m_From m) "" (term r) 0 0 0 [] (ls_CommitIndex (Stats (log r)))
                false 0 0 0 0 false false None false 0) r).

Definition voteRsp (to : string) (t : Z) (granted preVote : bool) : Message :=
  mkMsg MsgVoteRsp to "" t 0 0 0 [] 0 false 0 0 0 0 granted preVote None false 0.

Definition handleVoteRequest (m : Message) (r : Raft) : Raft :=
  let canVote := ((vote r =?s "") && (lead r =?s "")) || (vote r =?s m_From m)
                 || (m_PreVote m && (term r <? m_Term m)) in
  let logOK := IsUpToDate (log r) (m_LastLogIndex m) (m_LastLogTerm m) in
  if canVote && logOK then
    let r := if m_PreVote m then r else set_term (m_Term m) (set_vote (m_From m) r) in
    send (voteRsp (m_From m) (m_Term m) true (m_PreVote m)) (set_electionElapsed 0 r)
  else send (voteRsp (m_From m) (term r) false (m_PreVote m)) r.

Definition handleVoteResponse (m : Message) (r : Raft) : option Raft :=
  if m_VoteGranted m then
    let r := set_votes (<[m_From m := true]> (votes r)) r in
    if hasQuorum (votes r) r then
      if m_PreVote m then campaign r else becomeLeader r
    else Some r
  else Some (set_votes (<[m_From m := false]> (votes r)) r).

Definition handleInstallSnapshot (m : Message) (r : Raft) : Raft :=
  match m_Snapshot m with
  | None => r
  | Some s =>
      let r := set_log (Compact (snap_Index s) (snap_Term s) (log r)) r in
      send (mkMsg MsgSnapshotRsp (m_From m) "" (term r) (snap_Index s) 0 0 [] 0 false 0 0 0 0
              false false None false 0) r
  end.

(** [m.Entries[0]] panics on a request without a context. *)
Definition handleReadIndex (m : Message) (r : Raft) : option Raft :=
  match m_Entries m with
  | [] => None
  | e :: _ =>
      let r := set_readOnly
        (addRequest (ls_CommitIndex (Stats (log r))) (m_From m) (le_Data e) (read_only r)) r in
      Some (broadcastHeartbeat r)
  end.

(** The end of a handler without error. *)
Definition ok (r : option Raft) : option (option RaftError * Raft) :=
  r ← r; Some (None, r).

Definition stepFollower (m : Message) (r : Raft) : option (option RaftError * Raft) :=
  match m_Type m with
  | MsgHeartbeat => ok (handleHeartbeat m (set_lead (m_From m) (set_electionElapsed 0 r)))
  | MsgAppend => ok (handleAppendEntries m (set_lead (m_From m) (set_electionElapsed 0 r)))
  | MsgSnapshot => ok (Some (handleInstallSnapshot m (set_lead (m_From m) (set_electionElapsed 0 r))))
  | MsgVote | MsgPreVote => ok (Some (handleVoteRequest m r))
  | MsgTimeoutNow => ok (campaign r)
  | MsgPropose =>
      if lead r =?s "" then Some (Some ErrNoLeader, r)
      else ok (Some (send (m_set_To (lead r) m) r))
  | _ => Some (None, r)
  end.

Definition stepCandidate (m : Message) (r : Raft) : option (option RaftError * Raft) :=
  match m_Type m with
  | MsgVoteRsp | MsgPreVoteRsp => ok (handleVoteResponse m r)
  | MsgAppend => ok (r ← becomeFollower (m_Term m) (m_From m) r; handleAppendEntries m r)
  | MsgHeartbeat => ok (r ← becomeFollower (m_Term m) (m_From m) r; handleHeartbeat m r)
  | MsgPropose => Some (Some ErrProposeDuringElection, r)
  | MsgVote => ok (Some (handleVoteRequest m r))
  | _ => Some (None, r)
  end.

Definition stepLeader (m : Message) (r : Raft) : option (option RaftError * Raft) :=
  match m_Type m with
  | MsgPropose =>
      match m_Entries m with
      | [] => Some (Some ErrEmptyProposal, r)
      | _ :: _ => ok (handleProposal m r)
      end
  | MsgAppendRsp => ok (handleAppendResponse m r)
  | MsgHeartbeatRsp =>
      match progress r !! m_From m with
      | None => Some (None, r)
      | Some prog =>
          let r := set_prog (m_From m) (p_set_RecentActive true prog) r in
          ok (if MatchIndex prog <? lastIndex (log r) then sendAppendEntries (m_From m) r else Some r)
      end
  | MsgVote | MsgPreVote => ok (Some (handleVoteRequest m r))
  | MsgUnreachable =>
      match progress r !! m_From m with
      | None => Some (None, r)
      | Some prog =>
          if decide (pr_State prog = ProgressReplicate)
          then Some (None, set_prog (m_From m) (BecomeProbe prog) r) else Some (None, r)
      end
  | MsgReadIndex => ok (handleReadIndex m r)
  | _ => Some (None, r)
  end.

(** The handler stored in [r.step]. *)
Definition step (m : Message) (r : Raft) : option (option RaftError * Raft) :=
  match state r with
  | Follower => stepFollower m r
  | Candidate => stepCandidate m r
  | Leader => stepLeader m r
  end.

Definition is_vote_req (ty : MsgType) : bool :=
  match ty with MsgVote | MsgPreVote => true | _ => false end.

Definition is_vote_rsp (ty : MsgType) : bool :=
  match ty with MsgVoteRsp | MsgPreVoteRsp => true | _ => false end.

Definition Step (m : Message) (r : Raft) : option (option RaftError * Raft) :=
  if m_Term m =? 0 then step m r
  else if term r <? m_Term m then
    if is_vote_req (m_Type m) then step m r
    else
      let lead := if is_vote_rsp (m_Type m) then "" else m_From m in
      r ← becomeFollower (m_Term m) lead r; step m r
  else if m_Term m <? term r then Some (None, r)
  else step m r.

Definition NewRaft (c : Config) : option Raft :=
  becomeFollower 0 ""
    (mkRaft c (NodeID c) 0 "" newRaftLog Follower "" 0 0 0 ∅ ∅ [] newReadOnly 0).

Definition TakeMessages (r : Raft) : list Message * Raft := (msgs r, set_msgs [] r).

Definition TakeReady (r : Raft) : option (Ready * Raft) :=
  let stats := Stats (log r) in
  es ← (if ls_AppliedIndex stats <? ls_LastIndex stats
        then Entries (u64 (ls_AppliedIndex stats + 1)) (u64 (ls_LastIndex stats + 1)) (log r)
        else Some []);
  ces ← (if ls_AppliedIndex stats <? ls_CommitIndex stats
         then Entries (u64 (ls_AppliedIndex stats + 1)) (u64 (ls_CommitIndex stats + 1)) (log r)
         else Some []);
  let '(ms, r) := TakeMessages r in
  Some (mkReady es ms ces None None None (takeReadStates (read_only r)), r).

End machine.
