(* ===== verification/RaftSpec.v ===== *)
(** * RaftSpec: what a Raft node may do, and that the code does nothing else

    [ustep] lists the elementary transitions of a node: adopt a newer term,
    start a candidacy, grant a vote, count a vote, win, append to the own
    log as leader, reconcile the log with a leader's entries, move the commit
    index, send a message.  Every handler of the source refines a sequence of
    them ([Step_refines], [Tick_refines]); in particular it never panics on
    the messages nodes exchange.  The invariants of a node and of a cluster
    are proved of the elementary transitions. *)

From S2P Require Import Prelude Bytes RaftLog Raft.

Section spec.
Context `{R : Rand}.

(** ** Well-formed nodes and messages *)

Definition progress_ok (p : Progress) : Prop :=
  1 <= NextIndex p < two64 /\ 0 <= MatchIndex p < two63.

Record raft_ok (r : Raft) : Prop := {
  ro_id : id r = NodeID (config r) /\ id r <> "";
  ro_log : log_wf (log r);
  ro_snap : snapshotIndex (log r) = 0;
  ro_snapTerm : snapshotTerm (log r) = 0;
  ro_head : entries (log r) !! 0%nat = Some (sentinel 0 0);
  ro_terms i e : entries (log r) !! i = Some e -> le_Term e <= term r;
  ro_term : 0 <= term r < two64;
  ro_tick : 0 < ElectionTick (config r);
  ro_peers : id r ∉ Peers (config r);
  ro_progress p pr : progress r !! p = Some pr -> progress_ok pr;
  ro_active : state r <> Follower -> vote r = id r /\ 1 <= term r;
}.

(** Entries a leader of term [t] may send above index [prev]. *)
Definition run_ok (t prev prevTerm : Z) (es : list LogEntry) : Prop :=
  contiguous prev es /\ Forall (fun e => 1 <= le_Term e <= t) es /\
  (es <> [] -> prev + 1 + zlen es < two63 /\ (prev = 0 \/ 1 <= prevTerm)).

(** The messages nodes exchange: the types a node sends, with the ranges
    their receivers rely on. *)
Definition msg_ok (m : Message) : Prop :=
  0 <= m_Term m < two64 /\
  match m_Type m with
  | MsgHeartbeat => 1 <= m_Term m /\ 0 <= m_CommitIndex m < two64
  | MsgAppend => 1 <= m_Term m /\ 0 <= m_CommitIndex m < two64 /\ 0 <= m_LogIndex m < two64 /\
      run_ok (m_Term m) (m_LogIndex m) (m_LogTerm m) (m_Entries m)
  | MsgAppendRsp => 0 <= m_Index m < two63
  | MsgVote => 1 <= m_Term m /\ m_PreVote m = false
  | MsgVoteRsp => m_PreVote m = false /\ (m_VoteGranted m = true -> 1 <= m_Term m)
  | MsgHeartbeatRsp | MsgPropose => True
  | _ => False
  end.

(** ** Elementary transitions *)

(** The fields the protocol depends on. *)
Definition same_core (r r' : Raft) : Prop :=
  config r' = config r /\ id r' = id r /\ term r' = term r /\ vote r' = vote r /\
  log r' = log r /\ state r' = state r /\ progress r' = progress r /\
  votes r' = votes r /\ msgs r' = msgs r.

(** The messages a node may send by itself: as a leader heartbeats and runs
    of its log, as a candidate vote requests, and answers that carry no vote. *)
Definition sendable (r : Raft) (m : Message) : Prop :=
  match m_Type m with
  | MsgHeartbeat => state r = Leader /\ m_From m = id r /\ m_Term m = term r
  | MsgAppend => state r = Leader /\ m_From m = id r /\ m_Term m = term r /\
      (m_Entries m <> [] ->
       (exists e, entries (log r) !! Z.to_nat (m_LogIndex m) = Some e /\ le_Term e = m_LogTerm m) /\
       m_Entries m = take (length (m_Entries m)) (drop (S (Z.to_nat (m_LogIndex m))) (entries (log r))))
  | MsgVote => state r = Candidate /\ m_From m = id r /\ m_Term m = term r /\
      m_To m ∈ Peers (config r)
  | MsgVoteRsp => m_VoteGranted m = false
  | _ => True
  end.

(** The sender of a message is the node, or the node passes on a proposal. *)
Definition sent_by (inp : option Message) (r : Raft) (m : Message) : Prop :=
  m_From m = id r \/
  m_Type m = MsgPropose /\ exists q, inp = Some q /\ m_Type q = MsgPropose /\ m_From m = m_From q.

Inductive ustep (inp : option Message) (r : Raft) : list Message -> Raft -> Prop :=
  | U_aux r' : same_core r r' -> ustep inp r [] r'
  | U_commit c : committed (log r) <= c <= lastIndex (log r) ->
      ustep inp r [] (set_log (set_committed c (log r)) r)
  | U_progress pm : (forall p pr, pm !! p = Some pr -> progress_ok pr) ->
      ustep inp r [] (set_progress pm r)
  | U_follow t : term r < t < two64 ->
      ustep inp r [] (set_state Follower (set_vote "" (set_term t r)))
  | U_demote : state r <> Leader -> ustep inp r [] (set_state Follower r)
  | U_candidate : state r <> Leader -> term r + 1 < two64 ->
      ustep inp r []
        (set_votes {[id r := true]} (set_state Candidate (set_vote (id r) (set_term (term r + 1) r))))
  | U_voted m : inp = Some m -> m_Type m = MsgVoteRsp -> m_VoteGranted m = true ->
      m_Term m = term r -> state r = Candidate ->
      ustep inp r [] (set_votes (<[m_From m := true]> (votes r)) r)
  | U_denied v : ustep inp r [] (set_votes (<[v := false]> (votes r)) r)
  | U_win : state r = Candidate -> hasQuorum (votes r) r = true ->
      ustep inp r [] (set_state Leader r)
  | U_lappend e : state r = Leader -> le_Index e = lastIndex (log r) + 1 -> le_Term e = term r ->
      zlen (entries (log r)) + 1 < two63 ->
      ustep inp r [] (set_log (set_entries (entries (log r) ++ [e]) (log r)) r)
  | U_reconcile m l : inp = Some m -> m_Type m = MsgAppend -> m_Term m = term r ->
      state r = Follower -> committed (log r) <= m_LogIndex m ->
      logConsistencyCheck (m_LogIndex m) (m_LogTerm m) r = true ->
      m_Entries m <> [] -> Append_loop (m_Entries m) (log r) = Some l ->
      ustep inp r [] (set_log l r)
  | U_grant m : inp = Some m -> m_Type m = MsgVote -> term r <= m_Term m ->
      (vote r = "" \/ vote r = m_From m) -> m_From m <> id r ->
      IsUpToDate (log r) (m_LastLogIndex m) (m_LastLogTerm m) = true ->
      let r1 := set_term (m_Term m) (set_vote (m_From m) r) in
      let g := m_set_FromTerm (id r) (m_Term m) (voteRsp (m_From m) (m_Term m) true false) in
      ustep inp r [g] (set_msgs (msgs r ++ [g]) r1)
  | U_send m : sent_by inp r m -> sendable r m -> msg_ok m ->
      ustep inp r [m] (set_msgs (msgs r ++ [m]) r).

Inductive usteps (inp : option Message) : Raft -> list Message -> Raft -> Prop :=
  | US_refl r : usteps inp r [] r
  | US_step r o1 r1 o2 r2 : ustep inp r o1 r1 -> usteps inp r1 o2 r2 -> usteps inp r (o1 ++ o2) r2.

Lemma usteps_one inp r o r' : ustep inp r o r' -> usteps inp r o r'.
Proof. intros H. rewrite -(app_nil_r o). econstructor; [exact H|constructor]. Qed.

Lemma usteps_trans inp r o1 r1 o2 r2 :
  usteps inp r o1 r1 -> usteps inp r1 o2 r2 -> usteps inp r (o1 ++ o2) r2.
Proof.
  induction 1 as [|r o r' o' r'' Hs Hss IH]; intros H2; [done|].
  rewrite -app_assoc. econstructor; [exact Hs|by apply IH].
Qed.

(** ** The transitions keep a node well formed *)

Definition input_ok (inp : option Message) : Prop := forall m, inp = Some m -> msg_ok m.

(** The consistency check of a non-empty run succeeds only at an index the
    log holds. *)
Lemma check_in_log r m :
  raft_ok r -> msg_ok m -> m_Type m = MsgAppend -> m_Entries m <> [] ->
  logConsistencyCheck (m_LogIndex m) (m_LogTerm m) r = true ->
  0 <= m_LogIndex m <= lastIndex (log r) /\
  (m_LogIndex m <> 0 -> exists e, entries (log r) !! Z.to_nat (m_LogIndex m) = Some e /\
                                  le_Term e = m_LogTerm m).
Proof.
  intros Hr [Ht Hm] Hty Hne Hc. rewrite Hty in Hm. destruct Hm as (_ & _ & Hli & _ & _ & Hrun).
  destruct (Hrun Hne) as [_ Hpt]. pose proof (ro_log r Hr) as Hwf. pose proof (ro_snap r Hr) as Hs.
  pose proof (lastIndex_wf _ Hwf) as Hlast. pose proof (lw_len _ Hwf).
  unfold logConsistencyCheck in Hc. split_if_in Hc; [split; lia|].
  apply Z.eqb_eq in Hc. destruct Hpt as [?|Hpt]; [lia|].
  destruct (termOf_pos (log r) Hwf (m_LogIndex m)) as (e & He & Hte); [lia|lia|].
  assert (is_Some (entry_at (log r) (m_LogIndex m))) as Hsome by eauto.
  apply (entry_at_range _ Hwf) in Hsome. split; [lia|]. intros _. exists e.
  unfold entry_at in He. split_if_in He; [done|]. rewrite Hs Z.sub_0_r in He.
  split; [done|lia].
Qed.

Lemma reconcile_ok r m l :
  raft_ok r -> msg_ok m -> m_Type m = MsgAppend -> m_Term m = term r ->
  committed (log r) <= m_LogIndex m ->
  logConsistencyCheck (m_LogIndex m) (m_LogTerm m) r = true ->
  m_Entries m <> [] -> Append_loop (m_Entries m) (log r) = Some l ->
  log_wf l /\ (exists es, l = set_entries es (log r)) /\
  entries l !! 0%nat = Some (sentinel 0 0) /\
  (forall i e, entries l !! i = Some e -> le_Term e <= term r) /\
  (forall i, i <= committed (log r) -> entry_at l i = entry_at (log r) i).
Proof.
  intros Hr Hm Hty Htm Hcm Hck Hne Hl.
  destruct (check_in_log r m Hr Hm Hty Hne Hck) as [Hli _].
  destruct Hm as [_ Hm]. rewrite Hty in Hm. destruct Hm as (_ & _ & _ & Hct & Hts & Hrun).
  destruct (Hrun Hne) as [Hb _]. pose proof (ro_log r Hr) as Hwf.
  destruct (Append_loop_wf (log r) (m_Entries m) (m_LogIndex m)) as (l' & Hl' & Hwf' & _ & _ & Hes & Hpre);
    auto; [lia|..].
  { eapply Forall_impl; [exact Hts|]. simpl. lia. }
  rewrite Hl in Hl'. injection Hl' as <-.
  destruct (Append_loop_origin (log r) l (m_Entries m) (m_LogIndex m)) as [H0 Horig]; auto;
    [rewrite (ro_snap r Hr); lia|].
  split_and!; auto.
  - rewrite H0. apply (ro_head r Hr).
  - intros i e He. apply Horig in He as [He|He]; [by eapply ro_terms|].
    rewrite Forall_forall in Hts. apply Hts in He. lia.
  - intros i Hi. apply Hpre. lia.
Qed.

(** A node that grants a vote is a follower. *)
Lemma grant_follower r m :
  raft_ok r -> vote r = "" \/ vote r = m_From m -> m_From m <> id r -> state r = Follower.
Proof.
  intros Hr Hv Hne. destruct (decide (state r = Follower)) as [|Hs]; [done|].
  apply (ro_active r Hr) in Hs as [Hv' _]. pose proof (ro_id r Hr) as [_ ?].
  destruct Hv; congruence.
Qed.

Lemma lappend_ok r e :
  raft_ok r -> state r = Leader -> le_Index e = lastIndex (log r) + 1 -> le_Term e = term r ->
  zlen (entries (log r)) + 1 < two63 ->
  raft_ok (set_log (set_entries (entries (log r) ++ [e]) (log r)) r).
Proof.
  intros Hr Hs Hi Ht Hb. pose proof (ro_log r Hr) as Hwf.
  destruct (ro_active r Hr) as [_ Hpos]; [congruence|].
  destruct (AppendOne_wf (log r) Hwf e) as [_ Hwf']; [done|lia|rewrite (ro_snap r Hr); lia|].
  pose proof Hr as []. split; simpl; auto.
  - rewrite lookup_app_l; [done|]. apply lookup_lt_Some in ro_head0. done.
  - intros i x Hx. apply lookup_app_Some in Hx as [Hx|[_ Hx]]; [eauto|].
    apply list_lookup_singleton_Some in Hx as [_ <-]. lia.
Qed.

Lemma ustep_ok inp r o r' : input_ok inp -> raft_ok r -> ustep inp r o r' -> raft_ok r'.
Proof.
  intros Hin Hr Hs. pose proof Hr as [].
  inversion Hs as [? Hcore|c Hc|pm Hpm|t Ht| |Hst Ht|m Hi Hty Hg Htm Hst|v|Hst Hq|e Hst Hi Ht Hb
    |m l Hi Hty Htm Hst Hcm Hck Hne Hl|m Hi Hty Htm Hv Hfrom Hup r1 g|m Hby Hsend Hm]; subst.
  - destruct Hcore as (Hc & Hid & Ht & Hv & Hl & Hst & Hp & Hvs & _).
    split; rewrite ?Hc ?Hid ?Ht ?Hv ?Hl ?Hst ?Hp; auto.
  - split; simpl; auto. apply set_committed_wf; [done|]. pose proof (lw_applied _ ro_log0). lia.
  - split; simpl; auto.
  - split; simpl; auto; [|lia|done]. intros i e He. apply ro_terms0 in He. lia.
  - split; simpl; auto.
  - split; simpl; auto; [intros i e He; apply ro_terms0 in He; lia|lia|intros _; split; [done|lia]].
  - split; simpl; auto.
  - split; simpl; auto.
  - split; simpl; auto. intros _. apply ro_active0. congruence.
  - by apply lappend_ok.
  - destruct (reconcile_ok r m l) as (Hwf & [es ->] & H0 & Hts & _); auto.
    split; simpl; auto.
  - pose proof (grant_follower r m Hr Hv Hfrom) as Hst. destruct (Hin m eq_refl) as [Htr _].
    split; simpl; auto; [intros i e He; apply ro_terms0 in He; lia|congruence].
  - split; simpl; auto.
Qed.

Lemma usteps_ok inp r o r' : input_ok inp -> raft_ok r -> usteps inp r o r' -> raft_ok r'.
Proof. intros Hin Hr H. induction H as [|r o1 r1 o2 r2 H1 _ IH]; eauto using ustep_ok. Qed.

(** ** The handlers refine sequences of elementary transitions *)

(** [x] does not panic; its result is reached from [r] by elementary
    transitions and satisfies [P]. *)
Definition refines (inp : option Message) (r : Raft) (x : option Raft) (P : Raft -> Prop) : Prop :=
  exists r' out, x = Some r' /\ usteps inp r out r' /\ P r'.

(** Everything but the outgoing messages is kept. *)
Definition keeps (r r' : Raft) : Prop :=
  config r' = config r /\ id r' = id r /\ term r' = term r /\ vote r' = vote r /\
  log r' = log r /\ state r' = state r /\ progress r' = progress r /\ votes r' = votes r.

Lemma keeps_refl r : keeps r r.
Proof. repeat split. Qed.

Lemma keeps_trans r1 r2 r3 : keeps r1 r2 -> keeps r2 r3 -> keeps r1 r3.
Proof. unfold keeps. intros. intuition congruence. Qed.

Section refine.
Context (inp : option Message) (Hin : input_ok inp).

Lemma refines_mono r x (P Q : Raft -> Prop) :
  refines inp r x P -> (forall r', P r' -> Q r') -> refines inp r x Q.
Proof. intros (r' & o & ? & ? & ?) HPQ. exists r', o. auto. Qed.

Lemma refines_ret r o r' (P : Raft -> Prop) : usteps inp r o r' -> P r' -> refines inp r (Some r') P.
Proof. intros H HP. exists r', o. auto. Qed.

Lemma refines_same r (P : Raft -> Prop) : P r -> refines inp r (Some r) P.
Proof. apply refines_ret with (o := []). constructor. Qed.

Lemma refines_trans r o r1 x P : usteps inp r o r1 -> refines inp r1 x P -> refines inp r x P.
Proof. intros H (r' & o' & ? & ? & ?). exists r', (o ++ o'). split_and!; eauto using usteps_trans. Qed.

Lemma refines_step r o r1 x P : ustep inp r o r1 -> refines inp r1 x P -> refines inp r x P.
Proof. intros H. eapply refines_trans, usteps_one, H. Qed.

Lemma refines_bind r x (g : Raft -> option Raft) (P Q : Raft -> Prop) :
  raft_ok r -> refines inp r x P ->
  (forall r', raft_ok r' -> P r' -> refines inp r' (g r') Q) ->
  refines inp r (r' ← x; g r') Q.
Proof.
  intros Hr (r1 & o1 & -> & Hs & HP) Hg. simpl.
  eapply refines_trans; [exact Hs|]. apply Hg; [by eapply usteps_ok|done].
Qed.

Lemma refines_for_each {A} (f : A -> Raft -> option Raft) l r (P : Raft -> Prop) :
  (forall x r, x ∈ l -> raft_ok r -> P r -> refines inp r (f x r) P) ->
  raft_ok r -> P r -> refines inp r (for_each f l r) P.
Proof.
  revert r. induction l as [|x l IH]; intros r Hf Hr HP; simpl; [by apply refines_same|].
  apply refines_bind with (P := P); [done|apply Hf; [left|done..]|].
  intros r' Hr' HP'. apply IH; auto. intros y ? ?. apply Hf. by right.
Qed.

Lemma refines_foldl {A} (f : Raft -> A -> Raft) l r (P : Raft -> Prop) :
  (forall x r, x ∈ l -> P r -> refines inp r (Some (f r x)) P) ->
  P r -> refines inp r (Some (foldl f r l)) P.
Proof.
  revert r. induction l as [|x l IH]; intros r Hf HP; simpl; [by apply refines_same|].
  destruct (Hf x r) as (r' & o & [= <-] & Hs & HP'); [left|done|].
  eapply refines_trans; [exact Hs|]. apply IH; [|done]. intros y ? ?. apply Hf. by right.
Qed.

(** [send] of a message with the sender and term left to be filled in. *)
Lemma send_refines r m (P : Raft -> Prop) :
  let m' := m_set_FromTerm (if m_From m =?s "" then id r else m_From m)
              (if m_Term m =? 0 then term r else m_Term m) m in
  m_From m = "" -> sendable r m' -> msg_ok m' -> P (send m r) -> refines inp r (Some (send m r)) P.
Proof. intros m' Hf Hs Hm HP. assert (sent_by inp r m') by (left; unfold m'; rewrite Hf; done). eapply refines_ret; [|exact HP]. apply usteps_one. by apply U_send. Qed.

Lemma send_keeps m r : keeps r (send m r).
Proof. repeat split. Qed.

Lemma if_same_term r (t : Z) : t = term r -> (if t =? 0 then term r else t) = term r.
Proof. intros ->. by split_if. Qed.

Lemma reset_refines r : raft_ok r ->
  exists r', resetElectionTimeout r = Some r' /\ same_core r r' /\ lead r' = lead r.
Proof.
  intros Hr. pose proof (ro_tick r Hr). unfold resetElectionTimeout. simpl.
  destruct (Z.leb_spec (ElectionTick (config r)) 0); [lia|]. eexists. split; [done|]. repeat split.
Qed.

Lemma becomeFollower_refines t l r :
  raft_ok r -> t < two64 -> term r < t \/ state r <> Leader ->
  refines inp r (becomeFollower t l r)
    (fun r' => state r' = Follower /\ term r' = Z.max (term r) t /\ log r' = log r /\ id r' = id r).
Proof.
  intros Hr Ht Hor. unfold becomeFollower.
  set (r1 := if term r <? t then _ else _).
  assert (Hs1 : ustep inp r [] (set_state Follower r1)).
  { unfold r1. split_if; [by apply U_follow|]. apply U_demote. destruct Hor; [lia|done]. }
  eapply refines_step; [exact Hs1|].
  assert (Hr1 : raft_ok (set_state Follower r1)) by (by eapply ustep_ok).
  assert (Hr2 : raft_ok (set_lead l (set_state Follower r1))).
  { eapply (ustep_ok inp); [done|exact Hr1|]. apply U_aux. repeat split. }
  destruct (reset_refines _ Hr2) as (r2 & Hr2' & (Hc & Hid & Htm & Hv & Hl & Hst & Hp & Hvs & Hms) & _).
  eapply refines_step; [apply U_aux with (r' := set_lead l (set_state Follower r1)); repeat split|].
  rewrite Hr2'. eapply refines_ret; [apply usteps_one, U_aux; repeat split; done|].
  rewrite Hst Htm Hl Hid. simpl. unfold r1. split_if; simpl; split_and!; auto; lia.
Qed.

Lemma becomeCandidate_refines r :
  raft_ok r -> state r <> Leader -> term r + 1 < two64 ->
  refines inp r (becomeCandidate r)
    (fun r' => state r' = Candidate /\ term r' = term r + 1 /\ log r' = log r /\
               config r' = config r /\ id r' = id r /\ votes r' = {[id r := true]}).
Proof.
  intros Hr Hs Ht. unfold becomeCandidate. rewrite decide_False //.
  rewrite u64_small; [|pose proof (ro_term r Hr); lia].
  set (r1 := set_votes {[id r := true]} (set_state Candidate (set_vote (id r) (set_term (term r + 1) r)))).
  assert (Hs1 : ustep inp r [] r1) by (by apply U_candidate).
  assert (Hr1 : raft_ok r1) by (by eapply ustep_ok).
  set (r2 := set_votes _ _).
  assert (Hr2 : raft_ok r2).
  { eapply (ustep_ok inp); [done|exact Hr1|]. apply U_aux. repeat split. }
  destruct (reset_refines _ Hr2) as (r3 & -> & (Hc & Hid & Htm & Hv & Hl & Hst & Hp & Hvs & Hms) & _).
  eapply refines_step; [exact Hs1|].
  eapply refines_ret; [apply usteps_one, U_aux; repeat split; done|].
  rewrite Hst Htm Hl Hid Hc Hvs. by simpl.
Qed.

(** A stretch of a log is a run its leader may send. *)
Lemma log_run r n k :
  raft_ok r -> (1 <= n)%nat ->
  let es := take k (drop n (entries (log r))) in
  run_ok (term r) (Z.of_nat n - 1) (termOf (log r) (Z.of_nat n - 1)) es /\
  (es <> [] -> exists e, entries (log r) !! (n - 1)%nat = Some e /\
                         le_Term e = termOf (log r) (Z.of_nat n - 1)).
Proof.
  intros Hr Hn es. pose proof (ro_log r Hr) as Hwf. pose proof (ro_snap r Hr) as Hs.
  assert (Hes : forall i e, es !! i = Some e -> entries (log r) !! (n + i)%nat = Some e).
  { intros i e He. apply lookup_take_Some in He as [He _]. by rewrite lookup_drop in He. }
  assert (Hprev : es <> [] -> exists e, entries (log r) !! (n - 1)%nat = Some e /\
                         le_Term e = termOf (log r) (Z.of_nat n - 1)).
  { intros Hne. destruct es as [|e0 es'] eqn:Ees; [done|].
    pose proof (Hes 0%nat e0 eq_refl) as H0. apply lookup_lt_Some in H0.
    destruct (lookup_lt_is_Some_2 (entries (log r)) (n - 1)) as [e He]; [lia|].
    exists e. split; [done|]. destruct (decide (n = 1%nat)) as [->|Hn1].
    - pose proof (ro_head r Hr) as Hh. simpl in He. rewrite Hh in He. injection He as <-.
      unfold termOf. rewrite Hs. simpl. by rewrite (ro_snapTerm r Hr).
    - symmetry. apply termOf_at; [done|]. unfold entry_at. rewrite Hs.
      destruct (Z.leb_spec (Z.of_nat n - 1) 0); [lia|]. rewrite <- He. f_equal. lia. }
  split; [|done]. split_and!.
  - intros i e He. apply Hes in He. rewrite (lw_index _ Hwf _ _ He). lia.
  - apply Forall_lookup. intros i e He. apply Hes in He.
    split; [eapply (lw_term _ Hwf); [exact He|lia]|by eapply (ro_terms r Hr)].
  - intros Hne. split.
    + pose proof (lw_bound _ Hwf). destruct es as [|e0 es'] eqn:Ees; [done|].
      pose proof (Hes 0%nat e0 eq_refl) as H0. apply lookup_lt_Some in H0.
      rewrite -Ees. unfold es, zlen in *. rewrite length_take length_drop. lia.
    + destruct (Hprev Hne) as (e & He & Ht). destruct (decide (n = 1%nat)) as [->|]; [lia|right].
      rewrite -Ht. eapply (lw_term _ Hwf); [exact He|lia].
Qed.

Lemma commit_range r : raft_ok r -> 0 <= committed (log r) < two63.
Proof.
  intros Hr. pose proof (ro_log r Hr) as []. pose proof (ro_snap r Hr). lia.
Qed.

Lemma sendHeartbeat_refines to r : raft_ok r -> state r = Leader ->
  refines inp r (Some (sendHeartbeat to r)) (keeps r).
Proof.
  intros Hr Hs. destruct (ro_active r Hr) as [_ Ht]; [congruence|].
  pose proof (ro_term r Hr). pose proof (commit_range r Hr).
  apply send_refines; [done| | |apply send_keeps]; unfold sendable, msg_ok; simpl; rewrite if_same_term //.
  split_and!; lia.
Qed.

Lemma sendAppendEntries_refines to r : raft_ok r -> state r = Leader ->
  refines inp r (sendAppendEntries to r) (keeps r).
Proof.
  intros Hr Hs. destruct (ro_active r Hr) as [_ Ht]; [congruence|].
  pose proof (ro_term r Hr). pose proof (commit_range r Hr). pose proof (ro_snap r Hr) as Hsn.
  unfold sendAppendEntries. destruct (progress r !! to) as [pr|] eqn:Hpr; [|by apply refines_same].
  case_decide; [by apply refines_same|]. destruct (ro_progress r Hr _ _ Hpr) as [Hn _].
  unfold Entries. rewrite slice_wf; [|apply (ro_log r Hr)|rewrite Hsn; lia|apply u64_range].
  simpl. rewrite Hsn Z.sub_0_r (u64_small (NextIndex pr - 1)); [|lia].
  set (k := Z.to_nat (_ - NextIndex pr)). set (n := Z.to_nat (NextIndex pr)).
  destruct (log_run r n k Hr) as [Hrun Hprev]; [lia|].
  replace (Z.of_nat n - 1) with (NextIndex pr - 1) in * by lia.
  apply send_refines; [done| | |apply send_keeps]; unfold sendable, msg_ok; simpl; rewrite if_same_term //.
  - split_and!; try done. intros Hne. destruct (Hprev Hne) as (e & He & Hte). split.
    + exists e. split; [|done]. rewrite <- He. f_equal. lia.
    + replace (S (Z.to_nat (NextIndex pr - 1))) with n by lia. by rewrite take_length_take.
  - split_and!; try lia; apply Hrun.
Qed.

Lemma broadcastAppendEntries_refines hb r : raft_ok r -> state r = Leader ->
  refines inp r (broadcastAppendEntries hb r) (keeps r).
Proof.
  intros Hr Hs. unfold broadcastAppendEntries.
  apply refines_for_each; [|done|apply keeps_refl]. intros peer r1 _ Hr1 Hk.
  assert (Hs1 : state r1 = Leader) by (destruct Hk as (_ & _ & _ & _ & _ & -> & _); done).
  eapply refines_mono; [|intros r2 Hk2; eapply keeps_trans; [exact Hk|exact Hk2]].
  destruct hb; [by apply sendHeartbeat_refines|by apply sendAppendEntries_refines].
Qed.

(** Appending one entry of the current term as a leader. *)
Lemma leader_AppendOne e r : raft_ok r -> state r = Leader ->
  le_Index e = lastIndex (log r) + 1 -> le_Term e = term r -> zlen (entries (log r)) + 1 < two63 ->
  let l := set_entries (entries (log r) ++ [e]) (log r) in
  AppendOne e (log r) = Some l /\ ustep inp r [] (set_log l r).
Proof.
  intros Hr Hs Hi Ht Hb l. destruct (ro_active r Hr) as [_ Hpos]; [congruence|].
  destruct (AppendOne_wf (log r) (ro_log r Hr) e) as [Ha _]; auto; [lia|rewrite (ro_snap r Hr); lia|].
  split; [exact Ha|]. by apply U_lappend.
Qed.

Lemma lastIndex_ok r : raft_ok r -> lastIndex (log r) = zlen (entries (log r)) - 1.
Proof. intros Hr. rewrite lastIndex_wf; [|apply (ro_log r Hr)]. rewrite (ro_snap r Hr). lia. Qed.

Lemma lastIndex_range r : raft_ok r -> 0 <= lastIndex (log r) < two63.
Proof.
  intros Hr. rewrite lastIndex_ok //. pose proof (ro_log r Hr) as []. pose proof (ro_snap r Hr). lia.
Qed.

Lemma leader_progress_ok r last p pr :
  raft_ok r -> 0 <= last < two63 -> leader_progress r last !! p = Some pr -> progress_ok pr.
Proof.
  intros Hr Hl. unfold leader_progress.
  assert (Hgen : forall (peers : list string) (pm : gmap string Progress), (forall p pr, pm !! p = Some pr -> progress_ok pr) ->
    forall p pr, foldl (fun pm peer => <[peer := mkProgress (u64 (last + 1)) 0 ProgressProbe 0 false]> pm)
      pm peers !! p = Some pr -> progress_ok pr).
  { induction peers as [|q peers IH]; simpl; intros pm Hpm; [done|]. apply IH.
    intros p' pr'. rewrite lookup_insert. case_decide; intros; simplify_eq; [|eauto].
    unfold progress_ok. simpl. rewrite u64_small; lia. }
  apply Hgen. intros p' pr'. rewrite lookup_insert. case_decide; intros; simplify_eq.
  - unfold progress_ok. simpl. rewrite u64_small; lia.
  - by eapply (ro_progress r Hr).
Qed.

Lemma becomeLeader_refines r :
  raft_ok r -> state r = Candidate -> hasQuorum (votes r) r = true ->
  zlen (entries (log r)) + 1 < two63 ->
  refines inp r (becomeLeader r) (fun _ => True).
Proof.
  intros Hr Hs Hq Hb. unfold becomeLeader. rewrite decide_True //.
  eapply refines_step; [by apply U_win|].
  assert (Hr1 : raft_ok (set_state Leader r)) by (eapply ustep_ok; [done|exact Hr|by apply U_win]).
  set (r2 := set_heartbeatElapsed 0 _).
  assert (Hs2 : ustep inp (set_state Leader r) [] r2) by (apply U_aux; repeat split).
  eapply refines_step; [exact Hs2|].
  assert (Hr2 : raft_ok r2) by (by eapply ustep_ok).
  set (r3 := set_progress _ r2). pose proof (lastIndex_range r Hr) as Hlast.
  assert (Hs3 : ustep inp r2 [] r3).
  { apply U_progress. intros p pr. by apply leader_progress_ok. }
  eapply refines_step; [exact Hs3|].
  assert (Hr3 : raft_ok r3) by (by eapply ustep_ok).
  unfold appendEntry. set (e := mkEntry _ _ _ _).
  destruct (leader_AppendOne e r3 Hr3) as [-> Hs4]; simpl; auto.
  { rewrite u64_small; [done|]. lia. }
  eapply refines_step; [exact Hs4|].
  eapply refines_mono; [|done]. apply broadcastAppendEntries_refines; [by eapply ustep_ok|done].
Qed.

(** A single voter is a quorum of a cluster of one. *)
Lemma hasQuorum_alone r : Peers (config r) = [] -> hasQuorum {[id r := true]} r = true.
Proof. intros Hp. unfold hasQuorum. rewrite map_to_list_singleton Hp. done. Qed.

Lemma campaign_refines r :
  raft_ok r -> state r <> Leader -> term r + 1 < two64 -> zlen (entries (log r)) + 1 < two63 ->
  refines inp r (campaign r) (fun _ => True).
Proof.
  intros Hr Hs Ht Hb. unfold campaign.
  eapply refines_bind; [done|by apply becomeCandidate_refines|].
  intros r1 Hr1 (Hs1 & Ht1 & Hl1 & Hc1 & Hid1 & Hv1).
  destruct (Peers (config r1)) as [|q qs] eqn:Hp.
  - apply becomeLeader_refines; auto; [|by rewrite Hl1].
    rewrite Hv1 -Hid1. by apply hasQuorum_alone.
  - rewrite -Hp. eapply refines_mono; [|done].
    apply refines_foldl with (P := fun r' => keeps r1 r'); [|apply keeps_refl].
    intros p r' Hin' Hk. destruct Hk as (Kc & Kid & Kt & Kv & Kl & Kst & Kp & Kvs).
    pose proof (ro_term r1 Hr1). pose proof (ro_term r Hr).
    apply send_refines; [done|..]; unfold sendable, msg_ok; simpl; rewrite ?if_same_term //.
    + rewrite Kst Kc. done.
    + rewrite Kt. split_and!; try lia; done.
Qed.

Lemma tickElection_refines r :
  raft_ok r -> state r <> Leader -> term r + 1 < two64 -> zlen (entries (log r)) + 1 < two63 ->
  refines inp r (tickElection r) (fun _ => True).
Proof.
  intros Hr Hs Ht Hb. unfold tickElection. set (r1 := set_electionElapsed _ r).
  assert (Hs1 : ustep inp r [] r1) by (apply U_aux; repeat split).
  split_if; [|eapply refines_ret; [by apply usteps_one|done]].
  eapply refines_step; [apply U_aux with (r' := set_electionElapsed 0 r1); repeat split|].
  apply campaign_refines; auto. eapply ustep_ok; [done|exact Hr|]. apply U_aux; repeat split.
Qed.

Lemma tickHeartbeat_refines r : raft_ok r -> state r = Leader ->
  refines inp r (tickHeartbeat r) (fun _ => True).
Proof.
  intros Hr Hs. unfold tickHeartbeat. set (r1 := set_heartbeatElapsed _ r).
  assert (Hs1 : ustep inp r [] r1) by (apply U_aux; repeat split).
  split_if; [|eapply refines_ret; [by apply usteps_one|done]].
  eapply refines_step; [apply U_aux with (r' := set_heartbeatElapsed 0 r1); repeat split|].
  eapply refines_mono; [|done]. apply broadcastAppendEntries_refines; [|done].
  eapply ustep_ok; [done|exact Hr|]. apply U_aux; repeat split.
Qed.

(** Enough room in the counters for one more event with [n] new entries. *)
Definition room (n : Z) (r : Raft) : Prop :=
  term r + 1 < two64 /\ zlen (entries (log r)) + n + 1 < two63.

(** A tick never panics and refines elementary transitions. *)
Lemma Tick_refines r : raft_ok r -> room 0 r -> refines inp r (Tick r) (fun _ => True).
Proof.
  intros Hr [Ht Hb]. unfold Tick. destruct (state r) eqn:Hs.
  - apply tickElection_refines; auto; [congruence|lia].
  - apply tickElection_refines; auto; [congruence|lia].
  - by apply tickHeartbeat_refines.
Qed.

Lemma maybeCommit_refines r : raft_ok r ->
  ustep inp r [] (maybeCommit r) /\ exists c, maybeCommit r = set_log (set_committed c (log r)) r.
Proof.
  intros Hr. unfold maybeCommit.
  match goal with |- context [MaybeCommit ?a ?b ?c ?d] =>
    destruct (MaybeCommit_wf a b c d (ro_log r Hr)) as (k & -> & Hk & _) end.
  split; [by apply U_commit|by eexists].
Qed.

Lemma MaybeUpdate_ok i pr : progress_ok pr -> 0 <= i < two63 -> progress_ok (snd (MaybeUpdate i pr)).
Proof.
  intros [Hn Hm] Hi. unfold MaybeUpdate. split_if; [done|]. unfold progress_ok. simpl.
  split_if; [rewrite u64_small|]; lia.
Qed.

Lemma MaybeDecrTo_ok i c pr : progress_ok pr -> progress_ok (snd (MaybeDecrTo i c pr)).
Proof.
  intros [Hn Hm]. unfold MaybeDecrTo. case_decide; [unfold progress_ok; simpl; rewrite u64_small; lia|].
  destruct (negb _); [done|].
  destruct (Z.ltb_spec (if c <? 1 then 1 else c) (NextIndex pr)); [|done].
  unfold progress_ok. simpl. split_if; lia.
Qed.

Lemma BecomeReplicate_ok pr : progress_ok pr -> progress_ok (BecomeReplicate pr).
Proof. intros [Hn Hm]. unfold progress_ok, BecomeReplicate. simpl. rewrite u64_small; lia. Qed.

Lemma set_prog_step p pr r : raft_ok r -> progress_ok pr -> ustep inp r [] (set_prog p pr r).
Proof.
  intros Hr Hp. apply U_progress. intros q pr'. rewrite lookup_insert.
  case_decide; intros; simplify_eq; [done|]. by eapply (ro_progress r Hr).
Qed.

(** A leader appends a run of entries of its term. *)
Lemma leader_append_all es r :
  raft_ok r -> state r = Leader -> contiguous (lastIndex (log r)) es ->
  Forall (fun e => le_Term e = term r) es -> zlen (entries (log r)) + zlen es < two63 ->
  exists l, for_each AppendOne es (log r) = Some l /\ usteps inp r [] (set_log l r).
Proof.
  revert r. induction es as [|e es IH]; intros r Hr Hs Hc Ht Hb; simpl.
  { exists (log r). split; [done|]. destruct r; constructor. }
  apply contiguous_cons in Hc as [Hi Hc]. apply Forall_cons in Ht as [Ht Hts].
  rewrite zlen_cons in Hb. pose proof (zlen_nonneg es).
  destruct (leader_AppendOne e r Hr Hs Hi Ht) as [-> Hstep]; [lia|]. simpl.
  set (l1 := set_entries _ (log r)) in *.
  assert (Hr1 : raft_ok (set_log l1 r)) by (by eapply ustep_ok).
  destruct (IH (set_log l1 r)) as (l & Hl & Hss); auto.
  - rewrite lastIndex_ok // . simpl. rewrite zlen_app zlen_cons zlen_nil.
    rewrite lastIndex_ok // in Hc. by replace (zlen (entries (log r)) + (0 + 1) - 1)
      with (zlen (entries (log r)) - 1 + 1) by lia.
  - simpl. rewrite zlen_app zlen_cons zlen_nil. lia.
  - exists l. split; [done|]. change (set_log l r) with (set_log l (set_log l1 r)).
    change (@nil Message) with (@nil Message ++ []). by eapply US_step.
Qed.

Lemma stamp_entries_run last t es : 0 <= last -> last + 1 + zlen es < two63 ->
  contiguous last (stamp_entries last t es) /\
  Forall (fun e => le_Term e = t) (stamp_entries last t es) /\
  zlen (stamp_entries last t es) = zlen es.
Proof.
  intros H0 Hb. unfold stamp_entries. split_and!.
  - intros i e He. rewrite list_lookup_imap in He. apply fmap_Some in He as (x & Hx & ->). simpl.
    apply lookup_lt_Some in Hx. unfold zlen in *. rewrite !u64_small; lia.
  - apply Forall_lookup. intros i e He. rewrite list_lookup_imap in He.
    by apply fmap_Some in He as (x & Hx & ->).
  - unfold zlen. by rewrite length_imap.
Qed.

Lemma handleProposal_refines m r :
  raft_ok r -> state r = Leader -> room (zlen (m_Entries m)) r ->
  refines inp r (handleProposal m r) (fun _ => True).
Proof.
  intros Hr Hs [Ht Hb]. unfold handleProposal. pose proof (lastIndex_range r Hr) as Hlast.
  destruct (stamp_entries_run (lastIndex (log r)) (term r) (m_Entries m)) as (Hc & Hts & Hlen);
    [lia|rewrite lastIndex_ok //; lia|].
  destruct (leader_append_all _ r Hr Hs Hc Hts) as (l & -> & Hss); [rewrite Hlen; lia|]. simpl.
  eapply refines_trans; [exact Hss|].
  assert (Hr1 : raft_ok (set_log l r)) by (by eapply usteps_ok).
  set (r2 := match progress r !! id r with Some _ => _ | None => _ end).
  assert (Hs2 : ustep inp (set_log l r) [] r2 /\ state r2 = Leader).
  { unfold r2. destruct (progress r !! id r) as [pr|] eqn:Hpr; [|split; [by apply U_aux|done]].
    split; [|done]. apply (set_prog_step (id r) _ (set_log l r)); [done|]. apply MaybeUpdate_ok.
    - by eapply (ro_progress r Hr).
    - apply (lastIndex_range (set_log l r) Hr1). }
  destruct Hs2 as [Hs2 Hst2]. eapply refines_step; [exact Hs2|].
  eapply refines_bind; [by eapply ustep_ok|apply broadcastAppendEntries_refines; [by eapply ustep_ok|done]|].
  intros r3 Hr3 _. eapply refines_ret; [|done]. apply usteps_one. by apply maybeCommit_refines.
Qed.

(** Moving the commit index forward in [handleHeartbeat] and
    [handleAppendEntries]. *)
Lemma CommitTo_refines c r : raft_ok r -> 0 <= c < two64 ->
  refines inp r ('(_, l) ← CommitTo c (log r); Some (set_log l r))
    (fun r' => id r' = id r /\ term r' = term r).
Proof.
  intros Hr Hc. destruct (CommitTo_wf (log r) c (ro_log r Hr) Hc) as (es & -> & _). simpl.
  eapply refines_ret; [|done]. apply usteps_one, U_commit.
  pose proof (ro_log r Hr) as []. rewrite lastIndex_ok //. pose proof (ro_snap r Hr). lia.
Qed.

Lemma reply_refines r m (P : Raft -> Prop) :
  raft_ok r -> m_From m = "" -> m_Term m = term r ->
  m_Type m = MsgHeartbeatRsp \/ m_Type m = MsgAppendRsp /\ 0 <= m_Index m < two63 ->
  P (send m r) -> refines inp r (Some (send m r)) P.
Proof.
  intros Hr Hf Ht Hty HP. pose proof (ro_term r Hr).
  apply send_refines; [done| | |done]; unfold sendable, msg_ok; simpl; rewrite if_same_term //.
  - by destruct Hty as [->|[-> _]].
  - split; [done|]. by destruct Hty as [->|[-> ?]].
Qed.

Lemma handleHeartbeat_refines m r : raft_ok r -> 0 <= m_CommitIndex m < two64 ->
  refines inp r (handleHeartbeat m r) (fun _ => True).
Proof.
  intros Hr Hc. unfold handleHeartbeat.
  apply refines_bind with (P := fun r' => id r' = id r /\ term r' = term r); [done| |].
  - split_if; [by apply CommitTo_refines|by apply refines_same].
  - intros r1 Hr1 _. apply reply_refines; auto.
Qed.

Lemma handleAppendEntries_refines m r :
  raft_ok r -> msg_ok m -> inp = Some m -> m_Type m = MsgAppend -> m_Term m = term r ->
  state r = Follower -> refines inp r (handleAppendEntries m r) (fun _ => True).
Proof.
  intros Hr Hm Hi Hty Htm Hs. unfold handleAppendEntries. pose proof (commit_range r Hr). simpl.
  destruct (Z.ltb_spec (m_LogIndex m) (committed (log r))) as [|Hge].
  { apply reply_refines; auto. }
  destruct (logConsistencyCheck _ _ _) eqn:Hck; simpl.
  2: { destruct (findConflict _ _). apply reply_refines; auto. right. simpl. split; [done|lia]. }
  pose proof Hm as [_ Hm']. rewrite Hty in Hm'. destruct Hm' as (_ & Hcm & _ & Hct & Hts & Hrun).
  eapply refines_bind with (P := fun r' => id r' = id r /\ term r' = term r); [done| |].
  - destruct (m_Entries m) as [|e es] eqn:Ees; [by apply refines_same|].
    destruct (check_in_log r m Hr Hm Hty) as [Hli _]; [congruence|done|].
    destruct (Hrun ltac:(done)) as [Hb _].
    destruct (Append_loop_wf (log r) (m_Entries m) (m_LogIndex m)) as (l & Hl & _);
      rewrite ?Ees; auto; [apply (ro_log r Hr)|lia|eapply Forall_impl; [exact Hts|simpl; lia]|].
    unfold Append. rewrite -Ees Hl. simpl. eapply refines_ret; [|done].
    apply usteps_one. eapply U_reconcile; eauto. congruence.
  - intros r1 Hr1 [Hid1 Ht1].
    eapply refines_bind with (P := fun r' => id r' = id r1 /\ term r' = term r1); [done| |].
    + destruct (_ <? m_CommitIndex m); [|by apply refines_same]. apply CommitTo_refines; [done|].
      pose proof (lastIndex_range r1 Hr1). split_if; lia.
    + intros r2 Hr2 _. apply reply_refines; auto. right. split; [done|]. by apply lastIndex_range.
Qed.

Lemma handleAppendResponse_refines m r :
  raft_ok r -> state r = Leader -> 0 <= m_Index m < two63 ->
  refines inp r (handleAppendResponse m r) (fun _ => True).
Proof.
  intros Hr Hs Hi. unfold handleAppendResponse.
  destruct (progress r !! m_From m) as [pr|] eqn:Hpr; [|by apply refines_same].
  assert (Hp1 : progress_ok (p_set_RecentActive true pr)) by apply (ro_progress r Hr _ _ Hpr).
  assert (Hsend : forall r1, ustep inp r [] r1 -> state r1 = Leader ->
    forall b : bool, refines inp r1 (if b then sendAppendEntries (m_From m) r1 else Some r1) (fun _ => True)).
  { intros r1 H1 Hs1 []; [|by apply refines_same]. eapply refines_mono; [|done].
    apply sendAppendEntries_refines; [by eapply ustep_ok|done]. }
  destruct (m_Reject m).
  - pose proof (MaybeDecrTo_ok (m_Index m) (m_ConflictIndex m) _ Hp1) as Hp2.
    destruct (MaybeDecrTo _ _ _) as [b pr2]. simpl in Hp2.
    pose proof (set_prog_step (m_From m) pr2 r Hr Hp2) as Hstep.
    eapply refines_step; [exact Hstep|]. by apply Hsend.
  - pose proof (MaybeUpdate_ok (m_Index m) _ Hp1 Hi) as Hp2.
    destruct (MaybeUpdate _ _) as [b pr2]. simpl in Hp2. destruct b.
    + set (pr3 := if decide _ then pr2 else BecomeReplicate pr2).
      assert (Hp3 : progress_ok pr3) by (unfold pr3; case_decide; auto using BecomeReplicate_ok).
      pose proof (set_prog_step (m_From m) pr3 r Hr Hp3) as Hstep.
      eapply refines_step; [exact Hstep|].
      assert (Hr3 : raft_ok (set_prog (m_From m) pr3 r)) by (by eapply ustep_ok).
      destruct (maybeCommit_refines _ Hr3) as [Hc _].
      eapply refines_step; [exact Hc|]. split_if; [|by apply refines_same].
      eapply refines_mono; [|done].
      apply sendAppendEntries_refines; [by eapply ustep_ok|done].
    + eapply refines_ret; [|done]. apply usteps_one. by apply set_prog_step.
Qed.

Lemma handleVoteRequest_refines m r :
  raft_ok r -> msg_ok m -> inp = Some m -> m_Type m = MsgVote -> term r <= m_Term m ->
  m_From m <> id r -> refines inp r (Some (handleVoteRequest m r)) (fun _ => True).
Proof.
  intros Hr Hm Hi Hty Ht Hne. destruct Hm as [Htr Hm]. rewrite Hty in Hm. destruct Hm as [Hpos Hpv].
  unfold handleVoteRequest. rewrite Hpv. simpl. rewrite orb_false_r.
  destruct (_ && IsUpToDate _ _ _) eqn:Hg.
  - apply andb_true_iff in Hg as [Hv Hup].
    assert (Hv' : vote r = "" \/ vote r = m_From m).
    { apply orb_true_iff in Hv as [Hv|Hv]; [apply andb_true_iff in Hv as [Hv _]; left|right];
        by apply String.eqb_eq in Hv. }
    eapply refines_step; [by eapply U_grant|]. eapply refines_ret; [|done].
    apply usteps_one, U_aux. unfold send. simpl. destruct (Z.eqb_spec (m_Term m) 0); [lia|].
    repeat split.
  - pose proof (ro_term r Hr). apply send_refines; [done|done| |done].
    unfold msg_ok. simpl. rewrite if_same_term //.
Qed.

Lemma handleVoteResponse_refines m r :
  raft_ok r -> inp = Some m -> m_Type m = MsgVoteRsp -> m_PreVote m = false ->
  (m_VoteGranted m = true -> m_Term m = term r) -> state r = Candidate ->
  zlen (entries (log r)) + 1 < two63 ->
  refines inp r (handleVoteResponse m r) (fun _ => True).
Proof.
  intros Hr Hi Hty Hpv Hg Hs Hb. unfold handleVoteResponse. rewrite Hpv.
  destruct (m_VoteGranted m) eqn:Hgr.
  - assert (Hstep : ustep inp r [] (set_votes (<[m_From m := true]> (votes r)) r)).
    { eapply U_voted; eauto. }
    eapply refines_step; [exact Hstep|]. split_if; [|by apply refines_same].
    apply becomeLeader_refines; auto. by eapply ustep_ok.
  - eapply refines_ret; [|done]. apply usteps_one, U_denied.
Qed.

(** The same for handlers that also return an error value. *)
Definition refines_err (r : Raft) (x : option (option RaftError * Raft)) : Prop :=
  exists e r' out, x = Some (e, r') /\ usteps inp r out r'.

Lemma refines_ok r x P : refines inp r x P -> refines_err r (ok x).
Proof. intros (r' & o & -> & H & _). by exists None, r', o. Qed.

Lemma refines_err_same r e : refines_err r (Some (e, r)).
Proof. exists e, r, []. split; [done|constructor]. Qed.

Lemma refines_err_step r o r1 x : usteps inp r o r1 -> refines_err r1 x -> refines_err r x.
Proof. intros H (e & r' & o' & -> & H'). exists e, r', (o ++ o'). split; [done|]. by eapply usteps_trans. Qed.

(** The receiver of [m] is the node. *)
Definition addressed (m : Message) (r : Raft) : Prop :=
  m_Type m = MsgVote -> m_From m <> id r.

Lemma stepFollower_refines m r :
  raft_ok r -> msg_ok m -> inp = Some m -> addressed m r -> m_Term m = 0 \/ term r <= m_Term m ->
  (m_Type m = MsgAppend -> m_Term m = term r) -> state r = Follower ->
  refines_err r (stepFollower m r).
Proof.
  intros Hr Hm Hi Ha Ht Hta Hs. unfold stepFollower. pose proof Hm as [Htr Hm'].
  set (r1 := set_lead (m_From m) (set_electionElapsed 0 r)).
  assert (Hs1 : ustep inp r [] r1) by (apply U_aux; repeat split).
  assert (Hr1 : raft_ok r1) by (by eapply ustep_ok).
  destruct (m_Type m) eqn:Hty; try done; try apply refines_err_same.
  - eapply refines_err_step; [apply usteps_one, Hs1|]. eapply refines_ok.
    apply handleHeartbeat_refines; [done|apply Hm'].
  - eapply refines_err_step; [apply usteps_one, Hs1|]. eapply refines_ok.
    apply handleAppendEntries_refines; auto.
  - eapply refines_ok. apply handleVoteRequest_refines; auto. destruct Ht; lia.
  - split_if; [apply refines_err_same|]. apply refines_ok with (P := fun _ => True). pose proof (ro_term r Hr).
    eapply refines_ret; [|exact I]. apply usteps_one, U_send; unfold sent_by, sendable, msg_ok; simpl; rewrite Hty //.
    + destruct (String.eqb_spec (m_From m) ""); [by left|right; eauto].
    + split; [|done]. split_if; lia.
Qed.

Lemma stepCandidate_refines m r :
  raft_ok r -> msg_ok m -> inp = Some m -> addressed m r -> m_Term m = 0 \/ m_Term m = term r \/
    (m_Type m = MsgVote /\ term r <= m_Term m) ->
  state r = Candidate -> room 0 r -> refines_err r (stepCandidate m r).
Proof.
  intros Hr Hm Hi Ha Ht Hs [_ Hb]. unfold stepCandidate. pose proof Hm as [Htr Hm'].
  destruct (m_Type m) eqn:Hty; try done; try apply refines_err_same; eapply refines_ok.
  - eapply refines_bind; [done|apply becomeFollower_refines; [done|lia|right; congruence]|].
    intros r1 Hr1 _. apply handleHeartbeat_refines; [done|apply Hm'].
  - eapply refines_bind; [done|apply becomeFollower_refines; [done|lia|right; congruence]|].
    intros r1 Hr1 (Hs1 & Ht1 & _). apply handleAppendEntries_refines; auto.
    destruct Ht as [?|[?|[? _]]]; [lia|lia|done].
  - apply handleVoteRequest_refines; auto. destruct Ht as [?|[?|[_ ?]]]; lia.
  - destruct Hm' as [Hpv Hgr]. apply handleVoteResponse_refines; auto; [|lia].
    intros Hg. specialize (Hgr Hg). destruct Ht as [?|[?|[? _]]]; [lia|done|done].
Qed.

Lemma stepLeader_refines m r :
  raft_ok r -> msg_ok m -> inp = Some m -> addressed m r ->
  (m_Type m = MsgVote -> term r <= m_Term m) ->
  state r = Leader -> room (zlen (m_Entries m)) r -> refines_err r (stepLeader m r).
Proof.
  intros Hr Hm Hi Ha Ht Hs Hroom. unfold stepLeader. pose proof Hm as [Htr Hm'].
  destruct (m_Type m) eqn:Hty; try done; try apply refines_err_same.
  - destruct (progress r !! m_From m) as [pr|] eqn:Hpr; [|apply refines_err_same].
    assert (Hs1 : ustep inp r [] (set_prog (m_From m) (p_set_RecentActive true pr) r)).
    { apply set_prog_step; [done|]. apply (ro_progress r Hr _ _ Hpr). }
    eapply refines_err_step; [apply usteps_one, Hs1|]. apply refines_ok with (P := fun _ => True).
    split_if; [|by apply refines_same]. eapply refines_mono; [|done]. apply sendAppendEntries_refines; [by eapply ustep_ok|done].
  - eapply refines_ok. by apply handleAppendResponse_refines.
  - eapply refines_ok. apply handleVoteRequest_refines; auto.
  - destruct (m_Entries m) eqn:Ees; [apply refines_err_same|]. rewrite -Ees in Hroom.
    eapply refines_ok. by apply handleProposal_refines.
Qed.

(** No message nodes exchange makes [Step] panic, and what it does refines
    elementary transitions. *)
Lemma Step_refines m r :
  raft_ok r -> msg_ok m -> inp = Some m -> addressed m r -> room (zlen (m_Entries m)) r ->
  refines_err r (Step m r).
Proof.
  intros Hr Hm Hi Ha Hroom. pose proof Hm as [Htr Hm']. pose proof (zlen_nonneg (m_Entries m)).
  assert (Hroom0 : room 0 r) by (destruct Hroom; split; lia). unfold Step.
  destruct (Z.eqb_spec (m_Term m) 0) as [H0|H0].
  { unfold step. destruct (state r) eqn:Hs; [apply stepFollower_refines|apply stepCandidate_refines
      |apply stepLeader_refines]; auto; intros Hty; rewrite Hty in Hm'; lia. }
  destruct (Z.ltb_spec (term r) (m_Term m)) as [Hgt|Hle].
  - destruct (is_vote_req (m_Type m)) eqn:Hvr.
    + assert (Hty : m_Type m = MsgVote).
      { destruct (m_Type m) eqn:Hty; try done. }
      unfold step. destruct (state r) eqn:Hs; [apply stepFollower_refines|apply stepCandidate_refines
        |apply stepLeader_refines]; auto; try congruence; try lia. right; right. split; [done|lia].
    + set (l := if is_vote_rsp _ then "" else _).
      destruct (becomeFollower_refines (m_Term m) l r) as (r1 & o & Hbf & Hss & Hs1 & Ht1 & Hl1 & Hid1);
        [done|lia|by left|]. rewrite Hbf. simpl.
      eapply refines_err_step; [exact Hss|]. unfold step. rewrite Hs1.
      apply stepFollower_refines; auto; [by eapply usteps_ok| |lia|lia].
      unfold addressed. by rewrite Hid1.
  - destruct (Z.ltb_spec (m_Term m) (term r)); [apply refines_err_same|].
    assert (Heq : m_Term m = term r) by lia.
    unfold step. destruct (state r) eqn:Hs; [apply stepFollower_refines|apply stepCandidate_refines
      |apply stepLeader_refines]; auto; lia.
Qed.

End refine.
(** ** How a node evolves

    Along any transitions terms and commit indexes only grow, the committed
    part of the log never changes, and a leader that stays in its term stays
    leader and only appends. *)

Record evolves (r r' : Raft) : Prop := {
  ev_config : config r' = config r /\ id r' = id r;
  ev_term : term r <= term r';
  ev_commit : committed (log r) <= committed (log r');
  ev_applied : applied (log r') = applied (log r);
  ev_stable i : i <= committed (log r) -> entry_at (log r') i = entry_at (log r) i;
  ev_leader : state r = Leader -> term r' = term r ->
    state r' = Leader /\ entries (log r) `prefix_of` entries (log r');
}.

#[global] Instance evolves_refl : Reflexive evolves.
Proof. intros r. split; auto; reflexivity. Qed.

#[global] Instance evolves_trans : Transitive evolves.
Proof.
  intros r1 r2 r3 [[Hc1 Hi1] Ht1 Hm1 Ha1 Hs1 Hl1] [[Hc2 Hi2] Ht2 Hm2 Ha2 Hs2 Hl2].
  split; try lia; [split; congruence| |].
  - intros i Hi. rewrite Hs2; [|lia]. auto.
  - intros Hl Ht. destruct Hl1 as [Hl' Hp]; [done|lia|]. destruct Hl2 as [? ?]; [done|lia|].
    split; [done|]. by etrans.
Qed.

Lemma ustep_evolves inp r o r' : input_ok inp -> raft_ok r -> ustep inp r o r' -> evolves r r'.
Proof.
  intros Hin Hr Hs. pose proof (ro_term r Hr).
  inversion Hs as [? Hcore|c Hc|pm Hpm|t Ht|Hst|Hst Ht|m Hi Hty Hg Htm Hst|v|Hst Hq|e Hst Hi Ht Hb
    |m l Hi Hty Htm Hst Hcm Hck Hne Hl|m Hi Hty Htm Hv Hfrom Hup r1 g|m Hby Hsend Hm]; subst.
  - destruct Hcore as (Hc & Hid & Ht & Hv & Hl & Hst & _). split; rewrite ?Hl ?Ht ?Hst; auto; lia.
  - split; simpl; auto; lia.
  - split; simpl; auto; lia.
  - split; simpl; auto; lia.
  - split; simpl; auto; try lia; congruence.
  - split; simpl; auto; try lia; congruence.
  - split; simpl; auto; lia.
  - split; simpl; auto; lia.
  - split; simpl; auto; lia.
  - split; simpl; auto; try lia.
    + intros i Hi'. pose proof (ro_log r Hr) as Hwf. pose proof (lw_committed _ Hwf).
      unfold entry_at. simpl. split_if; [done|]. rewrite lookup_app_l; [done|].
      pose proof (ro_snap r Hr). unfold zlen in *. lia.
    + intros _ _. split; [done|]. by eexists.
  - destruct (reconcile_ok r m l) as (Hwf & [es ->] & H0 & Hts & Hpre); auto.
    split; simpl; auto; try lia; congruence.
  - pose proof (grant_follower r m Hr Hv Hfrom). split; simpl; auto; try lia; congruence.
  - split; simpl; auto; lia.
Qed.

Lemma usteps_evolves inp r o r' : input_ok inp -> raft_ok r -> usteps inp r o r' -> evolves r r'.
Proof.
  intros Hin Hr H. induction H as [|r o1 r1 o2 r2 H1 _ IH]; [reflexivity|].
  etrans; [by eapply ustep_evolves|]. apply IH. by eapply ustep_ok.
Qed.

(** What goes out is well formed, and it is exactly what is queued. *)
Lemma usteps_msgs inp r o r' : input_ok inp -> usteps inp r o r' ->
  msgs r' = msgs r ++ o /\ Forall msg_ok o.
Proof.
  intros Hin H. induction H as [|r o1 r1 o2 r2 H1 _ [IHm IHo]]; [by rewrite app_nil_r|].
  rewrite Forall_app app_assoc IHm.
  assert (H2 : msgs r1 = msgs r ++ o1 /\ Forall msg_ok o1); [|intuition congruence].
  inversion H1 as [? Hcore| | | | | | | | | | |m Hi Hty Htm Hv Hfrom Hup r1' g|m Hby Hsend Hm]; subst;
    simpl; rewrite ?app_nil_r; auto.
  - by destruct Hcore as (_ & _ & _ & _ & _ & _ & _ & _ & ->).
  - split; [done|]. apply Forall_singleton. destruct (Hin m eq_refl) as [Htr Hmo]. rewrite Hty in Hmo.
    split; simpl; [done|]. split; [done|]. intros _. apply Hmo.
Qed.

(** A node sends in its own name, except for proposals it passes on. *)
Lemma usteps_sent_by inp r o r' : usteps inp r o r' -> id r' = id r /\ Forall (sent_by inp r) o.
Proof.
  intros H. induction H as [|r o1 r1 o2 r2 H1 _ [IHi IHo]]; [done|].
  assert (H2 : id r1 = id r /\ Forall (sent_by inp r) o1).
  { inversion H1 as [? Hcore| | | | | | | | | | |m Hi Hty Htm Hv Hfrom Hup r1' g|m Hby Hsend Hm]; subst; simpl; auto.
    - by destruct Hcore as (_ & -> & _).
    - split; [done|]. apply Forall_singleton. by left. }
  destruct H2 as [Hid Ho]. split; [congruence|]. apply Forall_app. split; [done|].
  eapply Forall_impl; [exact IHo|]. unfold sent_by. by rewrite Hid.
Qed.

(** ** A fresh node *)

Definition config_ok (c : Config) : Prop :=
  NodeID c <> "" /\ NodeID c ∉ Peers c /\ 0 < ElectionTick c.

Lemma NewRaft_ok c : config_ok c ->
  exists r, NewRaft c = Some r /\ raft_ok r /\ config r = c /\ id r = NodeID c /\ term r = 0 /\
    vote r = "" /\ log r = newRaftLog /\ state r = Follower /\ msgs r = [].
Proof.
  intros (Hid & Hp & Ht). unfold NewRaft, becomeFollower, resetElectionTimeout. simpl.
  destruct (Z.leb_spec (ElectionTick c) 0); [lia|]. eexists. split; [done|].
  split_and!; try done. split; simpl; try done.
  - apply newRaftLog_wf.
  - intros [|i] e He; simpl in He; by simplify_eq.
Qed.

End spec.
