(* ===== verification/RaftSafety.v ===== *)
(** * RaftSafety: election safety and log matching of a cluster

    The invariants of a cluster are stated of the protocol-relevant part of
    each node (its [view]) and of the messages ever sent, with three ghost
    maps: the votes cast, the winners of the terms, and the logs of the
    leaders of the terms.  They are preserved by every elementary transition
    of [RaftSpec]. *)

From S2P Require Import Prelude Bytes RaftLog Raft RaftSpec.

Record gview := mkView {
  v_term : Z;
  v_vote : string;
  v_state : NodeState;
  v_votes : gmap string bool;
  v_ents : list LogEntry;
}.

Definition view (r : Raft) : gview :=
  mkView (term r) (vote r) (state r) (votes r) (entries (log r)).

(** ** Logs of leaders *)

(** Every entry of [E] was created by the leader of its term, and [E] agrees
    with that leader's log up to the entry. *)
Definition ents_ok (L : gmap Z (list LogEntry)) (E : list LogEntry) : Prop :=
  E !! 0%nat = Some (sentinel 0 0) /\
  forall i e, (0 < i)%nat -> E !! i = Some e ->
    exists Lt, L !! le_Term e = Some Lt /\ take (S i) E = take (S i) Lt.

(** The leaders' logs have only grown. *)
Definition grown (L L' : gmap Z (list LogEntry)) : Prop :=
  forall t Lt, L !! t = Some Lt -> exists Lt', L' !! t = Some Lt' /\ Lt `prefix_of` Lt'.

Lemma take_prefix {A} (E F G : list A) n :
  take n E = take n F -> (n <= length E)%nat -> F `prefix_of` G -> take n E = take n G.
Proof.
  intros Heq Hn [k ->]. rewrite take_app_le; [done|].
  pose proof (f_equal length Heq) as Hl. rewrite !length_take in Hl. lia.
Qed.

Lemma ents_ok_grown L L' E : grown L L' -> ents_ok L E -> ents_ok L' E.
Proof.
  intros Hg [H0 HE]. split; [done|]. intros i e Hi He.
  destruct (HE i e Hi He) as (Lt & HL & Ht). destruct (Hg _ _ HL) as (Lt' & HL' & Hp).
  exists Lt'. split; [done|]. eapply take_prefix; [exact Ht| |done].
  apply lookup_lt_Some in He. lia.
Qed.

(** Two logs with entries of the same term at the same index agree up to it. *)
Lemma ents_agree L E F i x y :
  ents_ok L E -> ents_ok L F -> E !! i = Some x -> F !! i = Some y -> le_Term x = le_Term y ->
  take (S i) E = take (S i) F.
Proof.
  intros [HE0 HE] [HF0 HF] Hx Hy Hxy. destruct i as [|i].
  { destruct E, F; simpl in *; simplify_eq. done. }
  destruct (HE (S i) x) as (Lt & HL & ->); [lia|done|].
  destruct (HF (S i) y) as (Lt' & HL' & ->); [lia|done|]. congruence.
Qed.

Lemma ents_ok_take L E n : (0 < n)%nat -> ents_ok L E -> ents_ok L (take n E).
Proof.
  intros Hn [H0 HE]. split; [by rewrite lookup_take_lt|].
  intros i e Hi He. apply lookup_take_Some in He as [He Hin].
  destruct (HE i e Hi He) as (Lt & HL & Ht). exists Lt. split; [done|].
  rewrite take_take Nat.min_l; [done|lia].
Qed.

(** A leader's own new entry. *)
Lemma ents_ok_snoc L E e :
  L !! le_Term e = Some (E ++ [e]) -> ents_ok L E -> ents_ok L (E ++ [e]).
Proof.
  intros HL [H0 HE]. split; [by apply lookup_app_l_Some|].
  intros i x Hi Hx. apply lookup_app_Some in Hx as [Hx|[Hge Hx]].
  - destruct (HE i x Hi Hx) as (Lt & HL' & Ht). exists Lt. split; [done|].
    rewrite take_app_le; [done|]. apply lookup_lt_Some in Hx. lia.
  - apply list_lookup_singleton_Some in Hx as [_ <-]. by eexists.
Qed.

(** What a follower's [Append] of a run of the leader's log results in. *)
Lemma reconcile_ents L Lt l l' es p :
  log_wf l -> snapshotIndex l = 0 -> ents_ok L (entries l) -> ents_ok L Lt ->
  (p < length (entries l))%nat -> take (S p) (entries l) = take (S p) Lt ->
  es = take (length es) (drop (S p) Lt) -> contiguous (Z.of_nat p) es ->
  Append_loop es l = Some l' ->
  entries l' = entries l \/ entries l' = take (S p + length es) Lt.
Proof.
  intros Hwf Hs HE HL Hp Hag Hes Hc Hl.
  destruct (Append_loop_spec l es (Z.of_nat p)) as [[_ Hr]|(pre & e & post & Heq & Hm & _ & Hr)]; auto;
    rewrite ?lastIndex_wf // ?Hs; [unfold zlen; lia|..]; rewrite Hl in Hr; injection Hr as ->; [by left|].
  right. simpl. rewrite Hs.
  replace (Z.to_nat (Z.of_nat p + 1 - 0) + length pre)%nat with (S p + length pre)%nat by lia.
  assert (Hsplit : take (S p + length es) Lt = take (S p) Lt ++ pre ++ e :: post).
  { rewrite -take_take_drop -Hes. by rewrite Heq. }
  assert (Hpre : take (S p + length pre) (entries l) = take (S p) Lt ++ pre).
  { assert (Hlp : length (take (S p) Lt) = S p).
    { rewrite -Hag length_take. lia. }
    assert (HtL : take (S p + length pre) Lt = take (S p) Lt ++ pre).
    { rewrite -(take_app_length' (take (S p) Lt ++ pre) (e :: post) (S p + length pre));
        [|rewrite length_app Hlp; lia]. rewrite -app_assoc -Hsplit take_take. f_equal.
      rewrite Heq length_app. lia. }
    destruct pre as [|x pre' _] using rev_ind; [by rewrite Nat.add_0_r app_nil_r|].
    apply Forall_app in Hm as [_ Hm]. apply Forall_singleton in Hm as (y & Hy & Hty).
    rewrite Heq in Hc. apply contiguous_app in Hc as [Hc _]. apply contiguous_app in Hc as [_ Hc].
    apply contiguous_cons in Hc as [Hix _]. unfold entry_at in Hy. split_if_in Hy; [done|].
    rewrite -HtL. rewrite length_app Nat.add_1_r Nat.add_succ_r.
    eapply (ents_agree L _ _ _ y x); auto.
    - rewrite <- Hy. f_equal. rewrite Hs Hix. unfold zlen. lia.
    - assert (Hlk : take (S p + length (pre' ++ [x])) Lt !! (S p + length pre')%nat = Some x).
      { rewrite HtL lookup_app_r Hlp; [|lia]. rewrite lookup_app_r; [|lia].
        by replace (S p + length pre' - S p - length pre')%nat with 0%nat by lia. }
      by apply lookup_take_Some in Hlk as [Hlk _]. }
  rewrite Hpre Hsplit. by rewrite -app_assoc.
Qed.

(** ** The election invariant *)

Section election.
Context (ids : list string) (Hnd : NoDup ids) (Hne : "" ∉ ids).

Definition is_majority (Q : gset string) : Prop :=
  Q ⊆ list_to_set ids /\ (length ids < 2 * size Q)%nat.

Lemma majorities_meet Q1 Q2 : is_majority Q1 -> is_majority Q2 -> exists x, x ∈ Q1 /\ x ∈ Q2.
Proof.
  intros [H1 H1'] [H2 H2'].
  destruct (decide (Q1 ∩ Q2 = ∅)) as [Hd|Hd].
  - exfalso. assert (Hu : size (Q1 ∪ Q2) = (size Q1 + size Q2)%nat) by (apply size_union; set_solver).
    assert (Hs : (size (Q1 ∪ Q2) <= size (list_to_set ids : gset string))%nat) by (apply subseteq_size; set_solver).
    rewrite size_list_to_set // in Hs. lia.
  - apply set_choose_L in Hd as [x Hx]. exists x. set_solver.
Qed.

Abbreviation votemap := (gmap (string * Z) string).

(** [V] records the votes cast, by voter and term; [W] the winners. *)
Record einv (vs : gmap string gview) (net : list Message) (V : votemap) (W : gmap Z string) : Prop := {
  ei_dom n v : vs !! n = Some v -> n ∈ ids;
  ei_cast n t c : V !! (n, t) = Some c -> c <> "" /\
    exists v, vs !! n = Some v /\ t <= v_term v /\ (t = v_term v -> v_vote v = c);
  ei_grant m : m ∈ net -> m_Type m = MsgVoteRsp -> m_VoteGranted m = true ->
    V !! (m_From m, m_Term m) = Some (m_To m);
  ei_votes n v x : vs !! n = Some v -> v_state v <> Follower -> v_votes v !! x = Some true ->
    V !! (x, v_term v) = Some n;
  ei_won t c : W !! t = Some c ->
    (exists Q, is_majority Q /\ forall x, x ∈ Q -> V !! (x, t) = Some c) /\
    exists v, vs !! c = Some v /\ t <= v_term v;
  ei_leader n v : vs !! n = Some v -> v_state v = Leader -> W !! v_term v = Some n;
  ei_cand n v : vs !! n = Some v -> v_state v = Candidate -> W !! v_term v <> Some n;
  ei_lead_msg m : m ∈ net -> m_Type m = MsgHeartbeat \/ m_Type m = MsgAppend ->
    W !! m_Term m = Some (m_From m);
  ei_vote_msg m : m ∈ net -> m_Type m = MsgVote -> m_From m ∈ ids /\ m_From m <> m_To m;
}.

(** A step of node [n] that casts no vote, wins nothing and counts no new
    vote keeps the invariant. *)
Lemma einv_update vs net V W n v v' :
  einv vs net V W -> vs !! n = Some v -> v_term v <= v_term v' ->
  (v_term v' = v_term v -> v_vote v' = v_vote v \/ v_vote v = "") ->
  (v_state v' <> Follower -> v_term v' = v_term v /\ v_state v' = v_state v /\
     forall x, v_votes v' !! x = Some true -> v_votes v !! x = Some true) ->
  einv (<[n := v']> vs) net V W.
Proof.
  intros Hi Hv Ht Hvote Hact. destruct Hi as [Hdom Hcast Hgrant Hvotes Hwon Hleader Hcand Hlm Hvm].
  split; auto.
  - intros k w. rewrite lookup_insert. case_decide; intros; simplify_eq; eauto.
  - intros k t c Hc. destruct (Hcast k t c Hc) as (Hcne & w & Hw & Htw & Hvw). split; [done|].
    destruct (decide (n = k)) as [->|Hnk].
    + rewrite lookup_insert_eq. rewrite Hv in Hw. injection Hw as ->. exists v'. split_and!; [done|lia|].
      intros ->. pose proof (Hvw ltac:(lia)). destruct Hvote; [lia|congruence..].
    + rewrite lookup_insert_ne //. eauto.
  - intros k w x. rewrite lookup_insert. case_decide as Hk; intros Hw Hs Hx; [|eauto].
    subst k. injection Hw as <-. destruct (Hact Hs) as (-> & Hst & Hsub). eapply Hvotes; eauto. congruence.
  - intros t c Hc. destruct (Hwon t c Hc) as (HQ & w & Hw & Htw). split; [done|].
    destruct (decide (n = c)) as [->|]; [|rewrite lookup_insert_ne //; eauto].
    rewrite lookup_insert_eq. rewrite Hv in Hw. injection Hw as ->. exists v'. split; [done|lia].
  - intros k w. rewrite lookup_insert. case_decide as Hk; intros Hw Hs; [|eauto].
    subst k. injection Hw as <-. destruct Hact as (-> & Hst & _); [congruence|]. apply Hleader; congruence.
  - intros k w. rewrite lookup_insert. case_decide as Hk; intros Hw Hs; [|eauto].
    subst k. injection Hw as <-. destruct Hact as (-> & Hst & _); [congruence|]. apply Hcand; congruence.
Qed.

(** More votes, consistent with those cast. *)
Lemma einv_cast vs net V W n t c v :
  einv vs net V W -> vs !! n = Some v -> v_term v = t -> v_vote v = c -> c <> "" ->
  (V !! (n, t) = None \/ V !! (n, t) = Some c) ->
  einv vs net (<[(n, t) := c]> V) W.
Proof.
  intros Hi Hv Ht Hc Hcne HV. destruct Hi as [Hdom Hcast Hgrant Hvotes Hwon Hleader Hcand Hlm Hvm].
  assert (Hsub : forall k w, V !! k = Some w -> <[(n, t) := c]> V !! k = Some w).
  { intros k w Hk. rewrite lookup_insert. case_decide; [subst k|done]. destruct HV; congruence. }
  split; eauto.
  - intros k t' c'. rewrite lookup_insert. case_decide as Hk; [|eauto].
    intros Hc'. simplify_eq. split; [done|]. eauto with lia.
  - intros t' c' Hw. destruct (Hwon t' c' Hw) as ((Q & HQ & HQV) & Hx). split; [|done]. eauto.
Qed.

(** Sending messages that grant nothing. *)
Lemma einv_send vs net V W out :
  einv vs net V W ->
  (forall m, m ∈ out -> m_Type m = MsgVoteRsp -> m_VoteGranted m = true ->
     V !! (m_From m, m_Term m) = Some (m_To m)) ->
  (forall m, m ∈ out -> m_Type m = MsgHeartbeat \/ m_Type m = MsgAppend -> W !! m_Term m = Some (m_From m)) ->
  (forall m, m ∈ out -> m_Type m = MsgVote -> m_From m ∈ ids /\ m_From m <> m_To m) ->
  einv vs (net ++ out) V W.
Proof.
  intros [] H1 H2 H3. split; auto; intros m Hm; apply elem_of_app in Hm as [Hm|Hm]; eauto.
Qed.

(** The voters of a quorum. *)
Lemma hasQuorum_majority vs net V W n v r :
  einv vs net V W -> vs !! n = Some v -> v_state v <> Follower ->
  (length (Peers (config r)) + 1 = length ids)%nat -> hasQuorum (v_votes v) r = true ->
  exists Q, is_majority Q /\ forall x, x ∈ Q -> V !! (x, v_term v) = Some n.
Proof.
  intros Hi Hv Hs Hlen Hq. unfold hasQuorum in Hq. apply Z.ltb_lt in Hq.
  set (T := filter (fun p : string * bool => snd p = true) (v_votes v)).
  assert (Hsz : size (dom T : gset string) =
    length (filter (fun p : string * bool => snd p = true) (map_to_list (v_votes v)))).
  { rewrite size_dom -length_map_to_list. unfold T. rewrite map_filter_alt.
    apply Permutation_length, map_to_list_to_map.
    apply NoDup_fst_filter, NoDup_fst_map_to_list. }
  assert (HV : forall x, x ∈ (dom T : gset string) -> V !! (x, v_term v) = Some n).
  { intros x Hx. apply elem_of_dom in Hx as [b Hb]. unfold T in Hb.
    apply map_lookup_filter_Some in Hb as [Hb Hbt]. simpl in Hbt. subst b.
    by eapply (ei_votes _ _ _ _ Hi). }
  exists (dom T). split; [|done]. split.
  - intros x Hx. apply HV in Hx. destruct (ei_cast _ _ _ _ Hi _ _ _ Hx) as (_ & w & Hw & _).
    apply elem_of_list_to_set. by eapply (ei_dom _ _ _ _ Hi).
  - unfold zlen in Hq. lia.
Qed.

(** Winning a term nobody has won. *)
Lemma einv_win vs net V W n v v' Q :
  einv vs net V W -> vs !! n = Some v -> v_state v = Candidate ->
  v' = mkView (v_term v) (v_vote v) Leader (v_votes v) (v_ents v) ->
  is_majority Q -> (forall x, x ∈ Q -> V !! (x, v_term v) = Some n) ->
  W !! v_term v = None /\ einv (<[n := v']> vs) net V (<[v_term v := n]> W).
Proof.
  intros Hi Hv Hs Hv' HQ HQV.
  assert (HW : W !! v_term v = None).
  { destruct (W !! v_term v) as [c|] eqn:Hc; [exfalso|done].
    destruct (ei_won _ _ _ _ Hi _ _ Hc) as ((Q' & HQ' & HQV') & _).
    destruct (majorities_meet Q Q' HQ HQ') as (x & Hx & Hx').
    apply HQV in Hx. apply HQV' in Hx'. rewrite Hx in Hx'. injection Hx' as <-.
    by apply (ei_cand _ _ _ _ Hi n v Hv Hs). }
  split; [done|]. destruct Hi as [Hdom Hcast Hgrant Hvotes Hwon Hleader Hcand Hlm Hvm].
  assert (HWsub : forall t c, W !! t = Some c -> <[v_term v := n]> W !! t = Some c).
  { intros t c Hc. rewrite lookup_insert_ne //. intros <-. congruence. }
  split; auto.
  - intros k w. rewrite lookup_insert. case_decide; intros; simplify_eq; eauto.
  - intros k t c Hc. destruct (Hcast k t c Hc) as (Hcne & w & Hw & Htw & Hvw). split; [done|].
    destruct (decide (n = k)) as [->|Hnk]; [|rewrite lookup_insert_ne //; eauto].
    rewrite lookup_insert_eq. rewrite Hv in Hw. injection Hw as ->. exists v'. by rewrite Hv'.
  - intros k w x. rewrite lookup_insert. case_decide as Hk; intros Hw Hsw Hx; [|eauto].
    subst k. injection Hw as <-. rewrite Hv' in Hx |- *. simpl in *. eapply Hvotes; eauto. congruence.
  - intros t c. rewrite (lookup_insert W). case_decide as Ht.
    + intros Hc. injection Hc as <-. subst t. split; [eauto|]. rewrite lookup_insert_eq.
      exists v'. split; [done|]. by rewrite Hv'.
    + intros Hc. destruct (Hwon t c Hc) as (HQc & w & Hw & Htw). split; [done|].
      destruct (decide (n = c)) as [->|]; [|rewrite lookup_insert_ne //; eauto].
      rewrite lookup_insert_eq. rewrite Hv in Hw. injection Hw as ->. exists v'. by rewrite Hv'.
  - intros k w. rewrite (lookup_insert vs). case_decide as Hk; intros Hw Hsw; [|eauto].
    subst k. injection Hw as <-. rewrite Hv'. simpl. apply lookup_insert_eq.
  - intros k w. rewrite (lookup_insert vs). case_decide as Hk; intros Hw Hsw.
    + injection Hw as <-. by rewrite Hv' in Hsw.
    + rewrite (lookup_insert W). case_decide; [by intros [= ->]|eauto].
Qed.

(** Becoming a candidate, or counting a vote as one. *)
Lemma einv_candidate vs net V W n v v' :
  einv vs net V W -> vs !! n = Some v -> v_term v' = v_term v -> v_vote v' = v_vote v ->
  v_state v' = Candidate -> W !! v_term v <> Some n ->
  (forall x, v_votes v' !! x = Some true -> V !! (x, v_term v) = Some n) ->
  einv (<[n := v']> vs) net V W.
Proof.
  intros Hi Hv Ht Hvote Hs HW HV.
  destruct Hi as [Hdom Hcast Hgrant Hvotes Hwon Hleader Hcand Hlm Hvm].
  split; auto.
  - intros k w. rewrite lookup_insert. case_decide; intros; simplify_eq; eauto.
  - intros k t c Hc. destruct (Hcast k t c Hc) as (Hcne & w & Hw & Htw & Hvw). split; [done|].
    destruct (decide (n = k)) as [->|Hnk]; [|rewrite lookup_insert_ne //; eauto].
    rewrite lookup_insert_eq. rewrite Hv in Hw. injection Hw as ->. exists v'. by rewrite Ht Hvote.
  - intros k w x. rewrite lookup_insert. case_decide as Hk; intros Hw Hsw Hx; [|eauto].
    subst k. injection Hw as <-. rewrite Ht. auto.
  - intros t c Hc. destruct (Hwon t c Hc) as (HQ & w & Hw & Htw). split; [done|].
    destruct (decide (n = c)) as [->|]; [|rewrite lookup_insert_ne //; eauto].
    rewrite lookup_insert_eq. rewrite Hv in Hw. injection Hw as ->. exists v'. by rewrite Ht.
  - intros k w. rewrite lookup_insert. case_decide as Hk; intros Hw Hsw; [|eauto].
    injection Hw as <-. congruence.
  - intros k w. rewrite lookup_insert. case_decide as Hk; intros Hw Hsw; [|eauto].
    subst k. injection Hw as <-. by rewrite Ht.
Qed.

(** Starting a candidacy. *)
Lemma einv_campaign vs net V W n v v' :
  einv vs net V W -> vs !! n = Some v -> n <> "" ->
  v' = mkView (v_term v + 1) n Candidate {[n := true]} (v_ents v) ->
  einv (<[n := v']> vs) net (<[(n, v_term v + 1) := n]> V) W.
Proof.
  intros Hi Hv Hn Hv'. set (t := v_term v + 1). set (vf := mkView t n Follower ∅ (v_ents v)).
  assert (HV : V !! (n, t) = None).
  { destruct (V !! (n, t)) as [c|] eqn:Hc; [exfalso|done].
    destruct (ei_cast _ _ _ _ Hi _ _ _ Hc) as (_ & w & Hw & Htw & _). rewrite Hv in Hw.
    injection Hw as <-. unfold t in Htw. lia. }
  assert (HW : W !! t <> Some n).
  { intros Hc. destruct (ei_won _ _ _ _ Hi _ _ Hc) as (_ & w & Hw & Htw). rewrite Hv in Hw.
    injection Hw as <-. unfold t in Htw. lia. }
  assert (H1 : einv (<[n := vf]> vs) net V W).
  { eapply einv_update; eauto; simpl; unfold t; (done || lia). }
  assert (H2 : einv (<[n := vf]> vs) net (<[(n, t) := n]> V) W).
  { eapply einv_cast; eauto; [apply lookup_insert_eq|done..]. }
  rewrite -(insert_insert_eq vs n v' vf). 
  apply (einv_candidate _ _ _ _ n vf v' H2); [apply lookup_insert_eq|by rewrite Hv'..|done|].
  rewrite Hv'. simpl. intros x [<- _]%lookup_singleton_Some. apply lookup_insert_eq.
Qed.

(** Granting a vote. *)
Lemma einv_vote vs net V W n v v' t c g :
  einv vs net V W -> vs !! n = Some v -> v_state v = Follower -> v_term v <= t ->
  v_vote v = "" \/ v_vote v = c -> c <> "" ->
  v' = mkView t c Follower (v_votes v) (v_ents v) ->
  m_Type g = MsgVoteRsp -> m_From g = n -> m_Term g = t -> m_To g = c ->
  einv (<[n := v']> vs) (net ++ [g]) (<[(n, t) := c]> V) W.
Proof.
  intros Hi Hv Hs Ht Hvt Hc Hv' Hty Hf Htg Hto.
  apply einv_send; [|intros m ->%list_elem_of_singleton; try (intros [?|?]); try congruence..].
  - apply einv_cast with (v := v'); [|apply lookup_insert_eq|by rewrite Hv'..|done|].
    + eapply einv_update; eauto; rewrite Hv'; simpl; [done| |done]. intros _. destruct Hvt; auto.
    + destruct (V !! (n, t)) as [c'|] eqn:HV; [right|by left].
      destruct (ei_cast _ _ _ _ Hi _ _ _ HV) as (Hc' & w & Hw & Htw & Hvw). rewrite Hv in Hw.
      injection Hw as <-. f_equal. rewrite -Hvw; [|lia]. destruct Hvt as [Hvt|]; [|done].
      exfalso. apply Hc'. rewrite -Hvt. symmetry. apply Hvw. lia.
  - intros _ _. rewrite Hf Htg Hto. apply lookup_insert_eq.
Qed.

(** The election invariant along one elementary transition of node [n]. *)
Lemma einv_ustep vs net V W n r inp o r' :
  einv vs net V W -> vs !! n = Some (view r) -> id r = n -> raft_ok r -> input_ok inp ->
  (length (Peers (config r)) + 1 = length ids)%nat ->
  (forall m, inp = Some m -> m_Type m <> MsgPropose -> m ∈ net /\ m_To m = n) ->
  ustep inp r o r' ->
  exists V' W', einv (<[n := view r']> vs) (net ++ o) V' W' /\
    (W' = W /\ (state r' = Leader -> state r = Leader) \/ r' = set_state Leader r /\ o = [] /\ W !! term r = None /\ W' = <[term r := n]> W).
Proof.
  intros Hi Hv Hid Hr Hin Hlen Hinp Hs.
  inversion Hs as [? Hcore|c Hc|pm Hpm|t Ht|Hst|Hst Ht|m Hm Hty Hg Htm Hst|x|Hst Hq|e Hst He Ht Hb
    |m l Hm Hty Htm Hst Hcm Hck Hnil Hl|m Hm Hty Htm Hvt Hfrom Hup r1 g|m Hby Hsend Hm]; subst o r';
    rewrite ?app_nil_r.
  - destruct Hcore as (_ & _ & Ht & Hvt & Hl & Hst & _ & Hvs & _).
    exists V, W. split; [|left; split; [done|simpl; congruence]]. replace (view _) with (view r); [by rewrite insert_id|]. unfold view. by rewrite Ht Hvt Hl Hst Hvs.
  - exists V, W. split; [|left; split; [done|simpl; congruence]]. change (view _) with (view r). by rewrite insert_id.
  - exists V, W. split; [|left; split; [done|simpl; congruence]]. change (view _) with (view r). by rewrite insert_id.
  - exists V, W. split; [|left; split; [done|simpl; congruence]]. eapply einv_update; eauto; simpl; (done || lia || auto).
  - exists V, W. split; [|left; split; [done|simpl; congruence]]. eapply einv_update; eauto; simpl; (done || auto).
  - eexists _, W. split; [|left; split; [done|simpl; congruence]]. eapply einv_campaign; [done|exact Hv| |].
    + subst n. apply (ro_id r Hr).
    + unfold view. simpl. by subst n.
  - exists V, W. split; [|left; split; [done|simpl; congruence]]. destruct (Hinp m Hm) as [Hnet Hto]; [congruence|].
    pose proof (ei_grant _ _ _ _ Hi m Hnet Hty Hg) as HV. rewrite Hto Htm in HV.
    eapply einv_candidate; eauto; simpl; [by apply (ei_cand _ _ _ _ Hi n (view r))|].
    intros x. rewrite lookup_insert. case_decide; [congruence|].
    apply (ei_votes _ _ _ _ Hi n (view r) x Hv). simpl. congruence.
  - exists V, W. split; [|left; split; [done|simpl; congruence]]. eapply einv_update; eauto; simpl; try done; try lia. intros Hs'. split_and!; auto.
    intros y. rewrite lookup_insert. case_decide; [done|auto].
  - destruct (hasQuorum_majority vs net V W n (view r) r) as (Q & HQ & HQV); auto; simpl; [congruence|].
    destruct (einv_win vs net V W n (view r) (view (set_state Leader r)) Q) as [HW Hi']; auto.
    exists V, (<[term r := n]> W). split; [exact Hi'|]. right. done.
  - exists V, W. split; [|left; split; [done|simpl; congruence]]. eapply einv_update; eauto; simpl; (done || lia || auto).
  - exists V, W. split; [|left; split; [done|simpl; congruence]]. eapply einv_update; eauto; simpl; (done || lia || auto).
  - destruct (Hinp m Hm) as [Hnet Hto]; [congruence|].
    pose proof (ei_vote_msg _ _ _ _ Hi m Hnet Hty) as [Hids _].
    eexists _, W. split; [|left; split; [done|simpl; congruence]]. eapply einv_vote; eauto; simpl.
    + by eapply grant_follower.
    + intros Heq. by rewrite Heq in Hids.
    + unfold view. simpl. by rewrite (grant_follower r m).
  - exists V, W. split; [|left; split; [done|simpl; congruence]]. change (view _) with (view r). rewrite insert_id //.
    apply einv_send; [done|intros m' ->%list_elem_of_singleton..].
    + intros Hty Hg. unfold sendable in Hsend. rewrite Hty in Hsend. congruence.
    + intros Hty. unfold sendable in Hsend.
      assert (Hlead : state r = Leader /\ m_From m = id r /\ m_Term m = term r).
      { destruct Hty as [Hty|Hty]; rewrite Hty in Hsend; intuition. }
      destruct Hlead as (Hst & -> & ->). rewrite Hid. by apply (ei_leader _ _ _ _ Hi n (view r)).
    + intros Hty. unfold sendable in Hsend. rewrite Hty in Hsend. destruct Hsend as (_ & -> & _ & Hto).
      split; [rewrite Hid; by eapply (ei_dom _ _ _ _ Hi)|]. intros Heq. apply (ro_peers r Hr). congruence.
Qed.

End election.

(** ** The log invariant *)

Section matching.
Context (ids : list string).

(** [m] carries a stretch of the log [Lt] together with the term of the entry
    before it. *)
Definition carries (m : Message) (Lt : list LogEntry) : Prop :=
  (exists e, Lt !! Z.to_nat (m_LogIndex m) = Some e /\ le_Term e = m_LogTerm m) /\
  m_Entries m = take (length (m_Entries m)) (drop (S (Z.to_nat (m_LogIndex m))) Lt).

(** [L] maps each term that was won to the log of its leader. *)
Record minv (vs : gmap string gview) (net : list Message) (W : gmap Z string)
    (L : gmap Z (list LogEntry)) : Prop := {
  mi_dom t : is_Some (W !! t) <-> is_Some (L !! t);
  mi_leader n v : vs !! n = Some v -> v_state v = Leader -> L !! v_term v = Some (v_ents v);
  mi_ents n v : vs !! n = Some v -> ents_ok L (v_ents v);
  mi_logs t Lt : L !! t = Some Lt -> ents_ok L Lt;
  mi_msg m : m ∈ net -> m_Type m = MsgAppend -> m_Entries m <> [] ->
    exists Lt, L !! m_Term m = Some Lt /\ carries m Lt;
}.

Lemma carries_prefix m Lt Lt' : carries m Lt -> Lt `prefix_of` Lt' -> carries m Lt'.
Proof.
  intros [(e & He & Ht) Hes] [k ->]. split.
  - exists e. split; [by apply lookup_app_l_Some|done].
  - assert (Hlen : (S (Z.to_nat (m_LogIndex m)) <= length Lt)%nat) by (apply lookup_lt_Some in He; lia).
    rewrite drop_app_le // take_app_le //.
    pose proof (f_equal length Hes) as Hl. rewrite length_take in Hl. lia.
Qed.

(** A transition that leaves the log alone and makes no leader. *)
Lemma minv_same vs net W L n v v' :
  minv vs net W L -> vs !! n = Some v -> v_ents v' = v_ents v ->
  (v_state v' = Leader -> v_state v = Leader /\ v_term v' = v_term v) ->
  minv (<[n := v']> vs) net W L.
Proof.
  intros [Hdom Hlead Hents Hlogs Hmsg] Hv He Hs. split; auto.
  - intros k w. rewrite lookup_insert. case_decide as Hk; intros Hw Hsw; [|eauto].
    injection Hw as <-. destruct (Hs Hsw) as [Hs' ->]. rewrite He. eauto.
  - intros k w. rewrite lookup_insert. case_decide as Hk; intros Hw; [|eauto].
    injection Hw as <-. rewrite He. eauto.
Qed.

Lemma minv_send vs net W L out :
  minv vs net W L ->
  (forall m, m ∈ out -> m_Type m = MsgAppend -> m_Entries m <> [] ->
     exists Lt, L !! m_Term m = Some Lt /\ carries m Lt) ->
  minv vs (net ++ out) W L.
Proof.
  intros [] H. split; auto. intros m Hm. apply elem_of_app in Hm as [Hm|Hm]; auto.
Qed.

Lemma minv_win vs net W L n v v' :
  minv vs net W L -> vs !! n = Some v -> W !! v_term v = None ->
  v' = mkView (v_term v) (v_vote v) Leader (v_votes v) (v_ents v) ->
  minv (<[n := v']> vs) net (<[v_term v := n]> W) (<[v_term v := v_ents v]> L).
Proof.
  intros [Hdom Hlead Hents Hlogs Hmsg] Hv HW Hv'.
  assert (HL : L !! v_term v = None).
  { destruct (L !! v_term v) eqn:HL; [|done]. destruct (proj2 (Hdom (v_term v))); [by rewrite HL|congruence]. }
  assert (Hsub : forall t Lt, L !! t = Some Lt -> <[v_term v := v_ents v]> L !! t = Some Lt).
  { intros t Lt HLt. rewrite lookup_insert_ne //. intros <-. congruence. }
  assert (Hg : grown L (<[v_term v := v_ents v]> L)).
  { intros t Lt HLt. exists Lt. split; [by apply Hsub|done]. }
  split.
  - intros t. rewrite !lookup_insert. case_decide; [split; by eexists|apply Hdom].
  - intros k w. rewrite (lookup_insert vs). case_decide as Hk; intros Hw Hs.
    + injection Hw as <-. rewrite Hv'. simpl. apply lookup_insert_eq.
    + apply Hsub. eauto.
  - intros k w. rewrite lookup_insert. case_decide as Hk; intros Hw; apply (ents_ok_grown L); eauto.
    injection Hw as <-. rewrite Hv'. simpl. eauto.
  - intros t Lt. rewrite lookup_insert. case_decide as Ht; intros HLt; apply (ents_ok_grown L); eauto.
    injection HLt as <-. eauto.
  - intros m Hm Hty Hne. destruct (Hmsg m Hm Hty Hne) as (Lt & HLt & Hc). eauto.
Qed.

(** A leader appends to its own log. *)
Lemma minv_lappend vs net V W L n v v' e :
  einv ids vs net V W -> minv vs net W L -> vs !! n = Some v -> v_state v = Leader ->
  le_Term e = v_term v ->
  v' = mkView (v_term v) (v_vote v) (v_state v) (v_votes v) (v_ents v ++ [e]) ->
  minv (<[n := v']> vs) net W (<[v_term v := v_ents v ++ [e]]> L).
Proof.
  intros Hei [Hdom Hlead Hents Hlogs Hmsg] Hv Hs He Hv'.
  pose proof (Hlead n v Hv Hs) as HL. set (L' := <[v_term v := v_ents v ++ [e]]> L).
  assert (Hg : grown L L').
  { intros t Lt HLt. unfold L'. rewrite lookup_insert. case_decide as Ht; [|by exists Lt].
    subst t. rewrite HL in HLt. injection HLt as <-. eexists. split; [done|]. by exists [e]. }
  assert (Hnew : ents_ok L' (v_ents v ++ [e])).
  { apply ents_ok_snoc; [rewrite He; apply lookup_insert_eq|]. apply (ents_ok_grown L); eauto. }
  split.
  - intros t. unfold L'. rewrite (Hdom t) lookup_insert. case_decide as Ht; [subst t; rewrite HL|done].
    split; by eexists.
  - intros k w. rewrite (lookup_insert vs). case_decide as Hk; intros Hw Hsw.
    + injection Hw as <-. rewrite Hv'. simpl. apply lookup_insert_eq.
    + unfold L'. rewrite lookup_insert_ne; [eauto|]. intros Ht.
      pose proof (ei_leader _ _ _ _ _ Hei n v Hv Hs) as HW1.
      pose proof (ei_leader _ _ _ _ _ Hei k w Hw Hsw) as HW2. congruence.
  - intros k w. rewrite (lookup_insert vs). case_decide as Hk; intros Hw.
    + injection Hw as <-. by rewrite Hv'.
    + apply (ents_ok_grown L); eauto.
  - intros t Lt. unfold L' at 1. rewrite lookup_insert. case_decide as Ht; intros HLt.
    + by injection HLt as <-.
    + apply (ents_ok_grown L); eauto.
  - intros m Hm Hty Hne. destruct (Hmsg m Hm Hty Hne) as (Lt & HLt & Hc).
    destruct (Hg _ _ HLt) as (Lt' & HLt' & Hp). exists Lt'. split; [done|]. by eapply carries_prefix.
Qed.

(** A follower reconciles its log with a leader's. *)
Lemma minv_reconcile vs net W L n r m l :
  minv vs net W L -> vs !! n = Some (view r) -> raft_ok r -> msg_ok m -> m ∈ net ->
  m_Type m = MsgAppend -> m_Term m = term r -> state r = Follower ->
  logConsistencyCheck (m_LogIndex m) (m_LogTerm m) r = true -> m_Entries m <> [] ->
  Append_loop (m_Entries m) (log r) = Some l ->
  minv (<[n := view (set_log l r)]> vs) net W L.
Proof.
  intros Hi Hv Hr Hm Hnet Hty Htm Hs Hck Hne Hl.
  destruct (mi_msg _ _ _ _ Hi m Hnet Hty Hne) as (Lt & HL & (e & He & Hte) & Hes).
  destruct (check_in_log r m Hr Hm Hty Hne Hck) as [Hli Hat].
  pose proof (mi_ents _ _ _ _ Hi n (view r) Hv) as HE. simpl in HE.
  pose proof (mi_logs _ _ _ _ Hi _ _ HL) as HLt.
  assert (Hag : take (S (Z.to_nat (m_LogIndex m))) (entries (log r)) = take (S (Z.to_nat (m_LogIndex m))) Lt).
  { destruct (decide (m_LogIndex m = 0)) as [H0|H0].
    - rewrite H0. destruct HE as [HE0 _], HLt as [HL0 _].
      destruct (entries (log r)), Lt; simpl in *; simplify_eq. done.
    - destruct (Hat H0) as (x & Hx & Htx). eapply (ents_agree L); eauto. congruence. }
  pose proof (lastIndex_ok r Hr) as Hlast. pose proof Hm as [_ Hm']. rewrite Hty in Hm'.
  destruct Hm' as (_ & _ & _ & Hc & _).
  assert (Hl' : entries l = entries (log r) \/
    entries l = take (S (Z.to_nat (m_LogIndex m)) + length (m_Entries m)) Lt).
  { eapply (reconcile_ents L Lt (log r)); eauto.
    - apply (ro_log r Hr).
    - apply (ro_snap r Hr).
    - unfold zlen in Hlast. lia.
    - rewrite Z2Nat.id; [done|lia]. }
  destruct Hl' as [Hsame|Htake].
  - eapply minv_same; [done..|]; simpl; congruence.
  - destruct Hi as [Hdom Hlead Hents Hlogs Hmsg]. split; auto.
    + intros k w. rewrite lookup_insert. case_decide as Hk; intros Hw Hsw; [|eauto].
      injection Hw as <-. simpl in Hsw. congruence.
    + intros k w. rewrite lookup_insert. case_decide as Hk; intros Hw; [|eauto].
      injection Hw as <-. simpl. rewrite Htake. apply ents_ok_take; [lia|done].
Qed.

(** The log invariant along one elementary transition. *)
Lemma minv_ustep vs net V W W' L n r inp o r' :
  einv ids vs net V W -> minv vs net W L -> vs !! n = Some (view r) -> raft_ok r -> input_ok inp ->
  (forall m, inp = Some m -> m_Type m <> MsgPropose -> m ∈ net) ->
  ustep inp r o r' ->
  (W' = W /\ (state r' = Leader -> state r = Leader) \/ r' = set_state Leader r /\ o = [] /\ W !! term r = None /\ W' = <[term r := n]> W) ->
  exists L', minv (<[n := view r']> vs) (net ++ o) W' L'.
Proof.
  intros He Hi Hv Hr Hin Hinp Hs [[-> Hnl]|(-> & -> & HW & ->)].
  2: { exists (<[term r := entries (log r)]> L). rewrite app_nil_r. by apply (minv_win vs net W L n (view r)). }
  inversion Hs as [? Hcore|c Hc|pm Hpm|t Ht|Hst|Hst Ht|m Hm Hty Hg Htm Hst|x|Hst Hq|e Hst Hie Ht Hb
    |m l Hm Hty Htm Hst Hcm Hck Hnil Hl|m Hm Hty Htm Hvt Hfrom Hup r1 g|m Hby Hsend Hm]; subst o r';
    rewrite ?app_nil_r.
  - exists L. destruct Hcore as (_ & _ & Ht & Hvt & Hl & Hst & _ & Hvs & _).
    eapply minv_same; [done|exact Hv|by simpl; rewrite Hl|]. simpl. intros. split; congruence.
  - exists L. by eapply minv_same.
  - exists L. by eapply minv_same.
  - exists L. by eapply minv_same.
  - exists L. by eapply minv_same.
  - exists L. by eapply minv_same.
  - exists L. by eapply minv_same.
  - exists L. by eapply minv_same.
  - exfalso. simpl in Hnl. specialize (Hnl eq_refl). congruence.
  - eexists. eapply (minv_lappend vs net V W L n (view r)); eauto.
  - exists L. eapply minv_reconcile; eauto. apply Hinp; [done|congruence].
  - exists L. apply minv_send; [|intros m' ->%list_elem_of_singleton; done].
    eapply minv_same; eauto; simpl. rewrite (grant_follower r m) //.
  - exists L. apply minv_send; [by eapply minv_same|].
    intros m' ->%list_elem_of_singleton Hty Hne. unfold sendable in Hsend. rewrite Hty in Hsend.
    destruct Hsend as (Hst & _ & -> & Hrun). exists (entries (log r)).
    split; [by apply (mi_leader _ _ _ _ Hi n (view r))|]. by apply Hrun.
Qed.

End matching.
