(* ===== verification/RaftNode.v ===== *)
(** * RaftNode: the driver loop around the Raft state machine (pkg/raft/node.go)

    [run] handles one event at a time: a tick, a client proposal or a message
    from a peer, and then takes and processes what is ready: it records the
    unapplied entries, hands the queued messages to the transport and applies
    the committed entries.  The channels only decide the order in which
    events arrive, so a node is a function from events to its next state and
    the messages it sends.  [StateMachine] is an interface of the program:
    the model records the calls made to it. *)

From S2P Require Import Prelude Bytes RaftLog Raft RaftSpec.

(** The calls on the [StateMachine] interface. *)
Inductive sm_call :=
  | CallApply (e : LogEntry)
  | CallRestore (data : bytes).

Record RaftNode := mkNode {
  n_raft : Raft;
  n_config : Config;
  n_storage : option (list sm_call);
  n_wal : list LogEntry;
  n_hardState : HardState;
  n_appliedIndex : Z;
  n_prevLead : string;
  n_leaderChangeCh : option string;
}.

Definition n_set_raft (r : Raft) (n : RaftNode) : RaftNode :=
  mkNode r (n_config n) (n_storage n) (n_wal n) (n_hardState n) (n_appliedIndex n)
    (n_prevLead n) (n_leaderChangeCh n).

Inductive event :=
  | EvTick
  | EvPropose (es : list LogEntry)
  | EvStep (m : Message).

Section node.
Context `{R : Rand}.

Definition NewRaftNode (c : Config) (has_storage : bool) : option RaftNode :=
  r ← NewRaft c;
  Some (mkNode r c (if has_storage then Some [] else None) [] (mkHardState 0 "" 0) 0 "" None).

(** The proposal a client's [Propose] puts on the channel. *)
Definition Propose (data : bytes) : event := EvPropose [mkEntry 0 0 EntryNormal data].

Definition persistEntries (es : list LogEntry) (n : RaftNode) : RaftNode :=
  mkNode (n_raft n) (n_config n) (n_storage n) (n_wal n ++ es) (n_hardState n) (n_appliedIndex n)
    (n_prevLead n) (n_leaderChangeCh n).

Definition persistHardState (hs : HardState) (n : RaftNode) : RaftNode :=
  mkNode (n_raft n) (n_config n) (n_storage n) (n_wal n) hs (n_appliedIndex n)
    (n_prevLead n) (n_leaderChangeCh n).

Definition call_storage (c : sm_call) (n : RaftNode) : RaftNode :=
  mkNode (n_raft n) (n_config n) (calls ← n_storage n; Some (calls ++ [c])) (n_wal n)
    (n_hardState n) (n_appliedIndex n) (n_prevLead n) (n_leaderChangeCh n).

Definition saveSnapshot (s : Snapshot) (n : RaftNode) : RaftNode :=
  call_storage (CallRestore (snap_Data s)) n.

Definition set_appliedIndex (i : Z) (n : RaftNode) : RaftNode :=
  mkNode (n_raft n) (n_config n) (n_storage n) (n_wal n) (n_hardState n) i
    (n_prevLead n) (n_leaderChangeCh n).

(** The body of the loop of [applyEntries]; an error of [Apply] is only
    printed. *)
Definition apply_one (n : RaftNode) (entry : LogEntry) : RaftNode :=
  if decide (le_Type entry = EntryNoop) then set_appliedIndex (le_Index entry) n
  else set_appliedIndex (le_Index entry) (call_storage (CallApply entry) n).

Definition applyEntries (es : list LogEntry) (n : RaftNode) : option RaftNode :=
  let n := foldl apply_one n es in
  l ← AppliedTo (n_appliedIndex n) (log (n_raft n));
  Some (n_set_raft (set_log l (n_raft n)) n).

(** The result carries the messages handed to the transport. *)
Definition processReady (ready : Ready) (n : RaftNode) : option (RaftNode * list Message) :=
  let n := match rd_Entries ready with [] => n | es => persistEntries es n end in
  let n := match rd_HardState ready with None => n | Some hs => persistHardState hs n end in
  let n := match rd_Snapshot ready with None => n | Some s => saveSnapshot s n end in
  let sent := rd_Messages ready in
  n ← match rd_CommittedEntries ready with [] => Some n | ces => applyEntries ces n end;
  Some (n, sent).

(** The notification of a leader change; a full channel drops it. *)
Definition notify_leader (n : RaftNode) : RaftNode :=
  if lead (n_raft n) =?s n_prevLead n then n
  else
    mkNode (n_raft n) (n_config n) (n_storage n) (n_wal n) (n_hardState n) (n_appliedIndex n)
      (lead (n_raft n))
      (match n_leaderChangeCh n with None => Some (lead (n_raft n)) | Some l => Some l end).

Definition ready_phase (n : RaftNode) : option (RaftNode * list Message) :=
  '(ready, r) ← TakeReady (n_raft n);
  let n := n_set_raft r n in
  if Ready_IsEmpty ready then Some (n, [])
  else '(n, sent) ← processReady ready n; Some (notify_leader n, sent).

(** The message [run] builds from a proposal. *)
Definition propose_msg (from : string) (es : list LogEntry) : Message :=
  mkMsg MsgPropose "" from 0 0 0 0 es 0 false 0 0 0 0 false false None false 0.

Definition handle_event (ev : event) (n : RaftNode) : option (option RaftError * RaftNode * list Message) :=
  match ev with
  | EvTick => r ← Tick (n_raft n); Some (None, n_set_raft r n, [])
  | EvPropose es =>
      '(err, r) ← Step (propose_msg (NodeID (n_config n)) es) (n_raft n);
      let n := n_set_raft r n in
      match err with
      | None => '(n, sent) ← ready_phase n; Some (None, n, sent)
      | Some _ => Some (err, n, [])
      end
  | EvStep m => '(_, r) ← Step m (n_raft n); Some (None, n_set_raft r n, [])
  end.

(** One round of [run], with the loop entered at its [select]: the event,
    then the ready phase that opens the next iteration. *)
Definition run_round (ev : event) (n : RaftNode) : option (option RaftError * RaftNode * list Message) :=
  '(err, n, sent1) ← handle_event ev n;
  '(n, sent2) ← ready_phase n;
  Some (err, n, sent1 ++ sent2).

(** ** The ready phase *)

(** The calls that applying the entries [es] makes. *)
Definition apply_calls (es : list LogEntry) : list sm_call :=
  CallApply <$> filter (fun e => le_Type e <> EntryNoop) es.

Lemma apply_one_fields n e :
  n_raft (apply_one n e) = n_raft n /\ n_appliedIndex (apply_one n e) = le_Index e /\
  n_config (apply_one n e) = n_config n /\
  n_storage (apply_one n e) = (calls ← n_storage n; Some (calls ++ apply_calls [e])).
Proof.
  unfold apply_one, apply_calls. rewrite filter_cons filter_nil.
  destruct (decide (le_Type e = EntryNoop)) as [H|H].
  - rewrite decide_False; [|by intros ?]. split_and!; [done..|]. simpl.
    destruct (n_storage n); simpl; by rewrite ?app_nil_r.
  - rewrite decide_True //.
Qed.

Lemma apply_all_fields es n :
  n_raft (foldl apply_one n es) = n_raft n /\
  n_appliedIndex (foldl apply_one n es) = default (n_appliedIndex n) (le_Index <$> last es) /\
  n_config (foldl apply_one n es) = n_config n /\
  n_storage (foldl apply_one n es) = (calls ← n_storage n; Some (calls ++ apply_calls es)).
Proof.
  induction es as [|e es IH] using rev_ind; simpl.
  { split_and!; [done..|]. destruct (n_storage n); simpl; by rewrite ?app_nil_r. }
  rewrite foldl_app. simpl. destruct IH as (Hr & Ha & Hc & Hs).
  destruct (apply_one_fields (foldl apply_one n es) e) as (-> & -> & -> & ->). rewrite Hr Hs Hc last_snoc.
  split_and!; [done..|]. destruct (n_storage n); simpl; [|done].
  unfold apply_calls. by rewrite filter_app fmap_app app_assoc.
Qed.

(** The entries of a log with indexes [1 .. n]. *)
Definition log_prefix (l : RaftLog) (n : Z) : list LogEntry := take (Z.to_nat n) (drop 1 (entries l)).

Record node_ok (n : RaftNode) : Prop := {
  no_raft : raft_ok (n_raft n);
  no_applied : n_appliedIndex n = applied (log (n_raft n));
  no_calls calls : n_storage n = Some calls ->
    calls = apply_calls (log_prefix (log (n_raft n)) (applied (log (n_raft n))));
}.

Lemma set_applied_ok r : raft_ok r -> raft_ok (set_log (set_applied (committed (log r)) (log r)) (set_msgs [] r)).
Proof.
  intros Hr. pose proof (ro_log r Hr) as Hwf.
  destruct Hr. split; simpl; auto. destruct Hwf. split; simpl; auto; lia.
Qed.

Lemma log_prefix_app l a c : 0 <= a <= c ->
  log_prefix l c = log_prefix l a ++ take (Z.to_nat (c - a)) (drop (Z.to_nat (a + 1)) (entries l)).
Proof.
  intros Hac. unfold log_prefix. replace (Z.to_nat c) with (Z.to_nat a + Z.to_nat (c - a))%nat by lia.
  rewrite -take_take_drop drop_drop. do 3 f_equal. lia.
Qed.

Lemma last_take_index l a c :
  log_wf l -> snapshotIndex l = 0 -> 0 <= a < c -> c <= lastIndex l ->
  le_Index <$> last (take (Z.to_nat (c - a)) (drop (Z.to_nat (a + 1)) (entries l))) = Some c.
Proof.
  intros Hwf Hs Hac Hc. rewrite lastIndex_wf // Hs in Hc. unfold zlen in Hc.
  rewrite last_lookup length_take length_drop.
  destruct (lookup_lt_is_Some_2 (entries l) (Z.to_nat c)) as [e He]; [lia|].
  rewrite lookup_take_lt; [|lia]. rewrite lookup_drop.
  replace (Z.to_nat (a + 1) + Init.Nat.pred (Z.to_nat (c - a) `min` (length (entries l) - Z.to_nat (a + 1))))%nat
    with (Z.to_nat c) by lia.
  rewrite He. simpl. f_equal. rewrite (lw_index l Hwf _ _ He) Hs. lia.
Qed.

(** The committed entries not yet applied. *)
Definition to_apply (l : RaftLog) : list LogEntry :=
  take (Z.to_nat (committed l - applied l)) (drop (Z.to_nat (applied l + 1)) (entries l)).

Lemma TakeReady_ok r : raft_ok r ->
  exists es, TakeReady r =
    Some (mkReady es (msgs r) (to_apply (log r)) None None None [], set_msgs [] r).
Proof.
  intros Hr. pose proof (ro_log r Hr) as Hwf. pose proof (ro_snap r Hr) as Hs.
  pose proof (lastIndex_range r Hr) as Hlast. pose proof (lw_applied _ Hwf) as Hap.
  pose proof (lw_committed _ Hwf) as Hcm. pose proof (lastIndex_wf _ Hwf) as Hli.
  unfold TakeReady, to_apply. simpl.
  assert (Hsl : forall hi, applied (log r) < hi <= lastIndex (log r) ->
    Entries (u64 (applied (log r) + 1)) (u64 (hi + 1)) (log r) =
    Some (take (Z.to_nat (hi - applied (log r))) (drop (Z.to_nat (applied (log r) + 1)) (entries (log r))))).
  { intros hi Hhi. unfold Entries. rewrite !u64_small; [|lia..]. rewrite slice_wf; [|done|lia..].
    rewrite Hs Z.sub_0_r. do 2 f_equal. lia. }
  assert (Hces : (if applied (log r) <? committed (log r)
     then Entries (u64 (applied (log r) + 1)) (u64 (committed (log r) + 1)) (log r) else Some []) =
     Some (to_apply (log r))).
  { unfold to_apply. split_if; [apply Hsl; lia|].
    by replace (Z.to_nat (committed (log r) - applied (log r))) with 0%nat by lia. }
  rewrite Hces. split_if; [rewrite Hsl; [|lia]|]; simpl; by eexists.
Qed.

(** Applying the committed entries brings a node up to its commit index. *)
Lemma apply_committed_ok n :
  node_ok n -> msgs (n_raft n) = [] -> let l := log (n_raft n) in
  exists n', match to_apply l with [] => Some n | ces => applyEntries ces n end = Some n' /\
    node_ok n' /\ n_config n' = n_config n /\
    n_raft n' = set_log (set_applied (committed l) l) (n_raft n).
Proof.
  intros [Hr Ha Hcalls] Hms l. set (r := n_raft n) in *.
  pose proof (ro_log r Hr) as Hwf. pose proof (ro_snap r Hr) as Hs. fold l in Hwf, Hs.
  pose proof (lw_applied l Hwf) as Hap. pose proof (lw_committed l Hwf) as Hcm.
  pose proof (lastIndex_wf l Hwf) as Hli.
  pose proof (set_applied_ok r Hr) as Hr'. replace (set_msgs [] r) with r in Hr' by (destruct r; simpl in *; by subst).
  destruct (decide (applied l = committed l)) as [Heq|Hne].
  - assert (Hnil : to_apply l = []).
    { unfold to_apply. by replace (Z.to_nat (committed l - applied l)) with 0%nat by lia. }
    rewrite Hnil. exists n. assert (Hsame : r = set_log (set_applied (committed l) l) r).
    { unfold l in *. destruct r as [? ? ? ? lg]. simpl in *. destruct lg; simpl in *. by subst. }
    split_and!; [done| |done|exact Hsame]. split; done.
  - pose proof (log_prefix_app l (applied l) (committed l) ltac:(lia)) as Hpre. fold (to_apply l) in Hpre.
    assert (Hlast : le_Index <$> last (to_apply l) = Some (committed l)).
    { apply last_take_index; auto; lia. }
    destruct (to_apply l) as [|e0 es0] eqn:Ees; [done|]. rewrite -Ees in Hlast |- *.
    unfold applyEntries. destruct (apply_all_fields (to_apply l) n) as (Hfr & Hfa & Hfc & Hfs).
    rewrite Hlast in Hfa. simpl in Hfa. rewrite Hfa Hfr. unfold AppliedTo. fold r l.
    rewrite Z.ltb_irrefl. simpl. eexists. split_and!; [done| |done|done].
    split; simpl; [done|done|]. intros calls Hc. rewrite Hfs in Hc.
    destruct (n_storage n) as [c0|] eqn:Hst; [|done]. injection Hc as <-.
    rewrite (Hcalls c0 eq_refl). unfold apply_calls. rewrite -fmap_app -filter_app.
    do 2 f_equal. rewrite Ees. symmetry. exact Hpre.
Qed.

(** The ready phase never panics: it sends everything queued and applies
    everything committed. *)
Lemma ready_phase_ok n : node_ok n ->
  exists n', ready_phase n = Some (n', msgs (n_raft n)) /\ node_ok n' /\
    n_config n' = n_config n /\
    n_raft n' = set_log (set_applied (committed (log (n_raft n))) (log (n_raft n))) (set_msgs [] (n_raft n)).
Proof.
  intros Hn. destruct (TakeReady_ok (n_raft n) (no_raft n Hn)) as [es Hready].
  unfold ready_phase. rewrite Hready. cbn [mbind option_bind].
  set (n1 := n_set_raft (set_msgs [] (n_raft n)) n).
  set (n2 := match es with [] => n1 | e :: es' => persistEntries (e :: es') n1 end).
  assert (Hn2 : node_ok n2 /\ n_raft n2 = set_msgs [] (n_raft n) /\ n_config n2 = n_config n).
  { destruct Hn as [Hr Ha Hc]. unfold n2. destruct es; split_and!; try done; split; simpl; try done; by destruct Hr. }
  destruct Hn2 as (Hn2 & Hr2 & Hc2).
  destruct (apply_committed_ok n2 Hn2) as (n3 & Happ & Hn3 & Hc3 & Hr3); [by rewrite Hr2|].
  rewrite Hr2 in Happ, Hr3. simpl in Happ, Hr3.
  destruct (Ready_IsEmpty _) eqn:Hempty.
  - unfold Ready_IsEmpty in Hempty. simpl in Hempty. destruct es; [|done].
    destruct (msgs (n_raft n)) eqn:Hms; [|done]. destruct (to_apply (log (n_raft n))); [|done].
    simpl in *. injection Happ as <-. exists n1. split_and!; auto.
  - unfold processReady. simpl. fold n2. rewrite Happ. simpl.
    exists (notify_leader n3). unfold notify_leader.
    split_if; (split_and!; [done|destruct Hn3; split; done|simpl; congruence|done]).
Qed.

(** ** One round of the loop *)

(** The state machine after the ready phase. *)
Definition flush (r : Raft) : Raft :=
  set_log (set_applied (committed (log r)) (log r)) (set_msgs [] r).

Definition ev_input (ev : event) (n : RaftNode) : option Message :=
  match ev with
  | EvTick => None
  | EvPropose es => Some (propose_msg (NodeID (n_config n)) es)
  | EvStep m => Some m
  end.

(** The state machine after the event, before the ready phase. *)
Definition ev_raft (ev : event) (n : RaftNode) : option Raft :=
  match ev with
  | EvTick => Tick (n_raft n)
  | EvPropose es => snd <$> Step (propose_msg (NodeID (n_config n)) es) (n_raft n)
  | EvStep m => snd <$> Step m (n_raft n)
  end.

Definition ev_entries (ev : event) : list LogEntry :=
  match ev with EvTick => [] | EvPropose es => es | EvStep m => m_Entries m end.

(** The events a node is exposed to: ticks, proposals, and messages of the
    kind nodes send, while its counters have room. *)
Definition event_ok (ev : event) (n : RaftNode) : Prop :=
  room (zlen (ev_entries ev)) (n_raft n) /\
  match ev with EvStep m => msg_ok m /\ addressed m (n_raft n) | _ => True end.

Lemma ev_input_ok ev n : event_ok ev n -> input_ok (ev_input ev n).
Proof. intros [_ He] m Hm. destruct ev; simpl in Hm; simplify_eq; [done|apply He]. Qed.

Lemma log_prefix_evolves r r' : raft_ok r -> raft_ok r' -> evolves r r' ->
  log_prefix (log r') (applied (log r)) = log_prefix (log r) (applied (log r)).
Proof.
  intros Hr Hr' He. pose proof (ev_stable _ _ He) as Hst. unfold log_prefix.
  pose proof (lw_applied _ (ro_log r Hr)) as Hap. rewrite (ro_snap r Hr) in Hap.
  apply list_eq. intros i. destruct (decide (i < Z.to_nat (applied (log r)))%nat) as [Hi|Hi].
  - rewrite !lookup_take_lt // !lookup_drop. specialize (Hst (Z.of_nat (1 + i)) ltac:(lia)).
    unfold entry_at in Hst. rewrite (ro_snap r Hr) (ro_snap r' Hr') in Hst.
    destruct (Z.leb_spec (Z.of_nat (1 + i)) 0); [lia|].
    by replace (Z.to_nat (Z.of_nat (1 + i) - 0)) with (1 + i)%nat in Hst by lia.
  - rewrite !lookup_take_ge //; lia.
Qed.

(** A node whose state machine has made transitions is still in order. *)
Lemma node_ok_evolves n inp out r :
  node_ok n -> input_ok inp -> usteps inp (n_raft n) out r -> node_ok (n_set_raft r n).
Proof.
  intros [Hr Ha Hc] Hin Hs. pose proof (usteps_ok _ _ _ _ Hin Hr Hs) as Hr'.
  pose proof (usteps_evolves _ _ _ _ Hin Hr Hs) as He.
  split; simpl; [done|by rewrite (ev_applied _ _ He)|].
  intros calls Hcalls. rewrite (ev_applied _ _ He) log_prefix_evolves //. by apply Hc.
Qed.

Lemma ready_phase_flush n : node_ok n ->
  exists n', ready_phase n = Some (n', msgs (n_raft n)) /\ node_ok n' /\
    n_config n' = n_config n /\ n_raft n' = flush (n_raft n).
Proof. apply ready_phase_ok. Qed.

Lemma run_round_ok ev n :
  node_ok n -> msgs (n_raft n) = [] -> event_ok ev n ->
  exists err n' r out, run_round ev n = Some (err, n', out) /\ node_ok n' /\
    n_config n' = n_config n /\ ev_raft ev n = Some r /\
    usteps (ev_input ev n) (n_raft n) out r /\ n_raft n' = flush r.
Proof.
  intros Hn Hms Hev. pose proof (ev_input_ok ev n Hev) as Hin. pose proof (no_raft n Hn) as Hr.
  assert (Hstep : forall m, ev_input ev n = Some m -> room (zlen (m_Entries m)) (n_raft n) ->
    addressed m (n_raft n) -> exists err r out, Step m (n_raft n) = Some (err, r) /\
      usteps (ev_input ev n) (n_raft n) out r).
  { intros m Hm Hroom Had. by apply (Step_refines (ev_input ev n) Hin); [|apply Hin|..]. }
  assert (Hready : forall r out, usteps (ev_input ev n) (n_raft n) out r ->
    exists n', ready_phase (n_set_raft r n) = Some (n', out) /\ node_ok n' /\
      n_config n' = n_config n /\ n_raft n' = flush r).
  { intros r out Hs. destruct (ready_phase_flush (n_set_raft r n)) as (n' & Hrp & Hn' & Hc' & Hr').
    - by eapply node_ok_evolves.
    - exists n'. split_and!; auto. rewrite Hrp. do 2 f_equal. simpl.
      destruct (usteps_msgs _ _ _ _ Hin Hs) as [-> _]. by rewrite Hms. }
  unfold run_round. destruct ev as [|es|m]; simpl in *.
  - destruct Hev as [Hroom _].
    destruct (Tick_refines None Hin (n_raft n) Hr Hroom) as (r & out & -> & Hs & _). simpl.
    destruct (Hready r out Hs) as (n' & -> & Hn' & Hc' & Hr'). simpl. by exists None, n', r, out.
  - destruct (Hstep _ eq_refl) as (err & r & out & -> & Hs); [apply Hev|done|]. simpl.
    destruct (Hready r out Hs) as (n' & Hrp & Hn' & Hc' & Hr'). destruct err as [err|]; simpl.
    + rewrite Hrp. simpl. by exists (Some err), n', r, out.
    + rewrite Hrp. simpl.
      destruct (ready_phase_flush n' Hn') as (n'' & Hrp2 & Hn'' & Hc'' & Hr''). rewrite Hrp2 Hr'. simpl.
      exists None, n'', r, out. rewrite app_nil_r. split_and!; auto; [congruence|].
      rewrite Hr'' Hr'. done.
  - destruct Hev as [Hroom [Hm Had]].
    destruct (Hstep m eq_refl) as (err & r & out & -> & Hs); [done..|]. simpl.
    destruct (Hready r out Hs) as (n' & -> & Hn' & Hc' & Hr'). simpl. by exists None, n', r, out.
Qed.

(** A fresh node is in order and has nothing ready, so its first ready phase
    does nothing. *)
Lemma NewRaftNode_ok c b : config_ok c ->
  exists n, NewRaftNode c b = Some n /\ node_ok n /\ n_config n = c /\ msgs (n_raft n) = [] /\
    config (n_raft n) = c /\ id (n_raft n) = NodeID c /\ term (n_raft n) = 0 /\ vote (n_raft n) = "" /\
    state (n_raft n) = Follower /\ log (n_raft n) = newRaftLog /\ ready_phase n = Some (n, []).
Proof.
  intros Hc. destruct (NewRaft_ok c Hc) as (r & Hr & Hok & Hcf & Hid & Ht & Hv & Hl & Hs & Hm).
  unfold NewRaftNode. rewrite Hr. simpl. eexists. split; [done|]. simpl. split_and!; try done.
  - split; simpl; [done|by rewrite Hl|]. intros calls H. destruct b; simplify_eq. by rewrite Hl.
  - unfold ready_phase, TakeReady. simpl. rewrite Hl. simpl. rewrite Hm. simpl.
    unfold n_set_raft. simpl. destruct r; simpl in *. by subst.
Qed.

End node.
