(* ===== verification/RaftSystem.v ===== *)
(** * RaftSystem: a cluster of Raft nodes over an unreliable network

    A state is the nodes and every message ever sent.  A step lets one node
    handle a tick, a client proposal or any message ever sent to it, so
    messages may be delayed, reordered, duplicated and lost, and a node that
    is never scheduled again has crashed. *)

From S2P Require Import Prelude Bytes RaftLog Raft RaftSpec RaftSafety RaftNode.

Record sys := mkSys { s_nodes : gmap string RaftNode; s_net : list Message }.

Inductive action :=
  | ATick (n : string)
  | APropose (n : string) (es : list LogEntry)
  | ADeliver (n : string) (m : Message).

Definition a_node (a : action) : string :=
  match a with ATick n | APropose n _ | ADeliver n _ => n end.

Definition a_event (a : action) : event :=
  match a with ATick _ => EvTick | APropose _ es => EvPropose es | ADeliver _ m => EvStep m end.

Definition roomb (n : Z) (r : Raft) : bool :=
  (term r + 1 <? two64) && (zlen (entries (log r)) + n + 1 <? two63).

(** A node of the cluster may act, a message has to have been sent to it, and
    its counters have room (terms below [2^64 - 1], log indexes below
    [2^63]). *)
Definition enabled (a : action) (s : sys) : bool :=
  match s_nodes s !! a_node a with
  | None => false
  | Some node =>
      roomb (zlen (ev_entries (a_event a))) (n_raft node) &&
      match a with
      | ADeliver n m => bool_decide (m ∈ s_net s) && (m_To m =?s n)
      | _ => true
      end
  end.

Section cluster.
Context `{R : Rand}.

(** [None] is a panic of the node. *)
Definition sstep (a : action) (s : sys) : option sys :=
  node ← s_nodes s !! a_node a;
  '(_, node', out) ← run_round (a_event a) node;
  Some (mkSys (<[a_node a := node']> (s_nodes s)) (s_net s ++ out)).

Fixpoint exec (acts : list action) (s : sys) : option sys :=
  match acts with
  | [] => Some s
  | a :: acts => if enabled a s then s ← sstep a s; exec acts s else None
  end.

Context (ids : list string) (conf : string -> Config).

Definition add_node (n : string) (s : sys) : option sys :=
  node ← NewRaftNode (conf n) true;
  Some (mkSys (<[n := node]> (s_nodes s)) (s_net s)).

Definition init : option sys := for_each add_node ids (mkSys ∅ []).

Inductive steps : sys -> sys -> Prop :=
  | steps_refl s : steps s s
  | steps_step s a s1 s2 : enabled a s = true -> sstep a s = Some s1 -> steps s1 s2 -> steps s s2.

Definition reachable (s : sys) : Prop := exists s0, init = Some s0 /\ steps s0 s.

Lemma exec_steps acts s s' : exec acts s = Some s' -> steps s s'.
Proof.
  revert s. induction acts as [|a acts IH]; intros s H; simpl in H; [simplify_eq; constructor|].
  split_if_in H; [|done]. apply bind_Some in H as (s1 & Hs & H). econstructor; eauto.
Qed.

(** The members know each other. *)
Record cluster_ok : Prop := {
  co_nodup : NoDup ids;
  co_names : "" ∉ ids;
  co_id n : n ∈ ids -> NodeID (conf n) = n;
  co_tick n : n ∈ ids -> 0 < ElectionTick (conf n);
  co_peers n : n ∈ ids -> Peers (conf n) ≡ₚ filter (fun p => p <> n) ids;
}.

Section inv.
Context (Hco : cluster_ok).

Definition views (s : sys) : gmap string gview := (fun node => view (n_raft node)) <$> s_nodes s.

Record member_ok (n : string) (node : RaftNode) : Prop := {
  mo_in : n ∈ ids;
  mo_ok : node_ok node;
  mo_msgs : msgs (n_raft node) = [];
  mo_conf : n_config node = conf n;
  mo_rconf : config (n_raft node) = conf n;
  mo_id : id (n_raft node) = n;
}.

Record sinv (s : sys) : Prop := {
  si_members n node : s_nodes s !! n = Some node -> member_ok n node;
  si_net : Forall msg_ok (s_net s);
  si_ghost : exists V W L, einv ids (views s) (s_net s) V W /\ minv (views s) (s_net s) W L;
}.

Lemma peers_length n : n ∈ ids -> (length (Peers (conf n)) + 1 = length ids)%nat.
Proof.
  intros Hn. rewrite (co_peers Hco n Hn). apply length_filter_ne; [apply (co_nodup Hco)|done].
Qed.

Lemma conf_ok n : n ∈ ids -> config_ok (conf n).
Proof.
  intros Hn. split_and!.
  - rewrite (co_id Hco n Hn). intros ->. by apply (co_names Hco).
  - rewrite (co_peers Hco n Hn) (co_id Hco n Hn). by intros [? _]%list_elem_of_filter.
  - by apply (co_tick Hco).
Qed.

(** The ghost invariants along a sequence of transitions of one node. *)
Lemma ghost_usteps inp n r o r' :
  usteps inp r o r' -> raft_ok r -> input_ok inp -> id r = n ->
  (length (Peers (config r)) + 1 = length ids)%nat ->
  forall vs net V W L,
  einv ids vs net V W -> minv vs net W L -> vs !! n = Some (view r) ->
  (forall m, inp = Some m -> m_Type m <> MsgPropose -> m ∈ net /\ m_To m = n) ->
  exists V' W' L', einv ids (<[n := view r']> vs) (net ++ o) V' W' /\
    minv (<[n := view r']> vs) (net ++ o) W' L'.
Proof.
  induction 1 as [r|r o1 r1 o2 r2 H1 H2 IH]; intros Hr Hin Hid Hlen vs net V W L He Hm Hv Hinp.
  - rewrite app_nil_r insert_id //. eauto.
  - destruct (einv_ustep ids (co_nodup Hco) (co_names Hco) vs net V W n r inp o1 r1)
      as (V1 & W1 & He1 & HW); auto.
    destruct (minv_ustep ids vs net V W W1 L n r inp o1 r1) as (L1 & Hm1); auto.
    { intros m Hi Ht. by apply Hinp. }
    pose proof (ev_config _ _ (ustep_evolves _ _ _ _ Hin Hr H1)) as [Hc Hid1].
    destruct (IH (ustep_ok _ _ _ _ Hin Hr H1) Hin) with (vs := <[n := view r1]> vs) (net := net ++ o1)
      (V := V1) (W := W1) (L := L1) as (V2 & W2 & L2 & He2 & Hm2); auto.
    + congruence.
    + by rewrite Hc.
    + apply lookup_insert_eq.
    + intros m Hi Ht. destruct (Hinp m Hi Ht). split; [|done]. apply elem_of_app. by left.
    + rewrite insert_insert_eq in He2, Hm2. rewrite app_assoc. eauto.
Qed.

Lemma roomb_room n r : roomb n r = true -> room n r.
Proof. unfold roomb, room. intros. bool_hyp. done. Qed.

(** Every enabled action succeeds and keeps the invariant. *)
Lemma sstep_inv a s : sinv s -> enabled a s = true ->
  exists s' node node', sstep a s = Some s' /\ sinv s' /\
    s_nodes s !! a_node a = Some node /\ s_nodes s' = <[a_node a := node']> (s_nodes s) /\
    exists r out, usteps (ev_input (a_event a) node) (n_raft node) out r /\
      n_raft node' = flush r /\ s_net s' = s_net s ++ out /\
      ev_raft (a_event a) node = Some r /\ out = msgs r.
Proof.
  intros [Hmem Hnet (V & W & L & He & Hm)] Hen. unfold enabled in Hen.
  destruct (s_nodes s !! a_node a) as [node|] eqn:Hnode; [|done].
  apply andb_true_iff in Hen as [Hroom Hdel]. apply roomb_room in Hroom.
  destruct (Hmem _ _ Hnode) as [Hin Hok Hms Hcf Hrcf Hid].
  assert (Hinp : forall m, ev_input (a_event a) node = Some m -> m_Type m <> MsgPropose ->
    m ∈ s_net s /\ m_To m = a_node a).
  { destruct a as [n|n es|n m']; simpl; intros m Hi Ht; simplify_eq; try done.
    apply andb_true_iff in Hdel as [Hd1 Hd2]. apply bool_decide_eq_true in Hd1.
    by apply String.eqb_eq in Hd2. }
  assert (Hev : event_ok (a_event a) node).
  { split; [done|]. destruct a as [n|n es|n m]; simpl in *; [done..|].
    apply andb_true_iff in Hdel as [Hd1 Hd2]. apply bool_decide_eq_true in Hd1.
    apply String.eqb_eq in Hd2. split; [by rewrite Forall_forall in Hnet; apply Hnet|].
    intros Hty. destruct (ei_vote_msg _ _ _ _ _ He m Hd1 Hty) as [_ Hne]. congruence. }
  destruct (run_round_ok (a_event a) node Hok Hms Hev) as (err & node' & r & out & Hrun & Hok' & Hcf' & Her & Hs & Hfl).
  pose proof (ev_input_ok _ _ Hev) as Hio. pose proof (no_raft _ Hok) as Hr.
  pose proof (ev_config _ _ (usteps_evolves _ _ _ _ Hio Hr Hs)) as [Hc1 Hid1].
  destruct (usteps_msgs _ _ _ _ Hio Hs) as [Hmr Hmo]. rewrite Hms in Hmr.
  unfold sstep. rewrite Hnode. simpl. rewrite Hrun. simpl.
  exists (mkSys (<[a_node a := node']> (s_nodes s)) (s_net s ++ out)), node, node'.
  split_and!; try done; [|exists r, out; by split_and!].
  split; simpl.
  - intros k nk. rewrite lookup_insert. case_decide as Hk; intros Hnk; [|by apply Hmem].
    subst k. injection Hnk as <-. split; rewrite ?Hfl; simpl; try done; congruence.
  - apply Forall_app. done.
  - unfold views. rewrite fmap_insert. simpl. rewrite Hfl. change (view (flush r)) with (view r).
    eapply ghost_usteps; eauto.
    + rewrite Hrcf. by apply peers_length.
    + unfold views. rewrite lookup_fmap Hnode. done.
Qed.

(** A cluster that has not done anything yet. *)
Definition fresh (s : sys) : Prop :=
  s_net s = [] /\
  forall n node, s_nodes s !! n = Some node ->
    member_ok n node /\ state (n_raft node) = Follower /\ log (n_raft node) = newRaftLog.

Lemma init_fresh : exists s0, init = Some s0 /\ fresh s0.
Proof.
  unfold init. apply (for_each_total fresh); [|split; [done|intros n node Hn; by rewrite lookup_empty in Hn]].
  intros n s Hn [Hnet Hs]. unfold add_node.
  destruct (NewRaftNode_ok (conf n) true (conf_ok n Hn))
    as (node & -> & Hok & Hc & Hm & Hrc & Hid & _ & _ & Hst & Hl & _). simpl.
  eexists. split; [done|]. split; [done|]. simpl. intros k nk. rewrite lookup_insert.
  case_decide as Hk; intros Hnk; [|by apply Hs]. subst k. injection Hnk as <-.
  split_and!; [|done..]. split; auto. by rewrite Hid (co_id Hco).
Qed.

Lemma fresh_inv s : fresh s -> sinv s.
Proof.
  intros [Hnet Hs]. split; [by intros; apply Hs|by rewrite Hnet|].
  assert (Hv : forall n v, views s !! n = Some v -> n ∈ ids /\ v_state v = Follower /\ v_ents v = [sentinel 0 0]).
  { intros n v. unfold views. rewrite lookup_fmap. intros (node & Hn & ->)%fmap_Some.
    destruct (Hs n node Hn) as ([Hin _ _ _ _ _] & Hst & Hl). simpl. rewrite Hl. done. }
  assert (Hf : forall n v, views s !! n = Some v -> v_state v <> Follower -> False).
  { intros n v Hn Hst. apply Hv in Hn as (_ & ? & _). congruence. }
  exists ∅, ∅, ∅. rewrite Hnet. split; split.
  - intros n v Hn. by apply Hv in Hn as [? _].
  - by intros n t c ?%lookup_empty_Some.
  - by intros m ?%elem_of_nil.
  - intros n v x Hn Hst. destruct (Hf n v Hn Hst).
  - by intros t c ?%lookup_empty_Some.
  - intros n v Hn Hst. destruct (Hf n v Hn). congruence.
  - intros n v Hn Hst. destruct (Hf n v Hn). congruence.
  - by intros m ?%elem_of_nil.
  - by intros m ?%elem_of_nil.
  - intros t. rewrite !lookup_empty. split; by intros [].
  - intros n v Hn Hst. destruct (Hf n v Hn). congruence.
  - intros n v Hn. apply Hv in Hn as (_ & _ & ->). split; [done|]. intros [|i] e; [lia|done].
  - by intros t Lt ?%lookup_empty_Some.
  - by intros m ?%elem_of_nil.
Qed.

Lemma steps_inv s s' : sinv s -> steps s s' -> sinv s'.
Proof.
  intros Hs H. induction H as [|s a s1 s2 Hen Hst _ IH]; [done|]. apply IH.
  destruct (sstep_inv a s Hs Hen) as (s1' & _ & _ & Hst' & Hs1 & _). rewrite Hst in Hst'.
  by injection Hst' as <-.
Qed.

Lemma reachable_inv s : reachable s -> sinv s.
Proof.
  intros (s0 & Hi & Hs). destruct init_fresh as (s0' & Hi' & Hf). rewrite Hi in Hi'.
  injection Hi' as <-. eapply steps_inv; [by apply fresh_inv|done].
Qed.

(** Along the steps of a cluster each node evolves. *)
Lemma steps_evolves s s' n node : sinv s -> steps s s' -> s_nodes s !! n = Some node ->
  exists node', s_nodes s' !! n = Some node' /\
    term (n_raft node) <= term (n_raft node') /\
    committed (log (n_raft node)) <= committed (log (n_raft node')) /\
    (forall i, i <= committed (log (n_raft node)) ->
       entry_at (log (n_raft node')) i = entry_at (log (n_raft node)) i) /\
    (state (n_raft node) = Leader -> term (n_raft node') = term (n_raft node) ->
       entries (log (n_raft node)) `prefix_of` entries (log (n_raft node'))).
Proof.
  intros Hs H. revert node. induction H as [s|s a s1 s2 Hen Hst _ IH]; intros node Hn.
  { exists node. split_and!; auto; lia. }
  destruct (sstep_inv a s Hs Hen) as (s1' & na & na' & Hst' & Hs1 & Hna & Hnodes & r & out & Hus & Hfl & _).
  rewrite Hst in Hst'. injection Hst' as <-. specialize (IH Hs1).
  destruct (decide (a_node a = n)) as [Ha|Ha].
  2: { apply IH. by rewrite Hnodes lookup_insert_ne. }
  subst n. rewrite Hna in Hn. injection Hn as <-.
  destruct (IH na') as (n2 & Hn2 & Ht & Hc & Hstb & Hld); [by rewrite Hnodes lookup_insert_eq|].
  pose proof (mo_ok _ _ (si_members _ Hs _ _ Hna)) as Hok.
  assert (Hio : input_ok (ev_input (a_event a) na)).
  { intros m Hm. destruct a; simpl in Hm; simplify_eq; [done|]. unfold enabled in Hen. simpl in *.
    rewrite Hna in Hen. apply andb_true_iff in Hen as [_ Hen]. apply andb_true_iff in Hen as [Hin _].
    apply bool_decide_eq_true in Hin. pose proof (si_net _ Hs) as Hnet. rewrite Forall_forall in Hnet. auto. }
  destruct (usteps_evolves _ _ _ _ Hio (no_raft _ Hok) Hus) as [_ Et Ec _ Es El].
  rewrite Hfl in Ht, Hc, Hstb, Hld. simpl in *.
  exists n2. split_and!; [done|lia|lia| |].
  - intros i Hi. rewrite Hstb; [|lia]. by apply Es.
  - intros Hl Hteq. destruct El as [El1 El2]; [done|lia|]. etrans; [exact El2|]. apply Hld; [done|lia].
Qed.

End inv.
End cluster.

(** ** A concrete cluster and scripted runs *)

#[local] Instance zero_rand : Rand := {| Intn _ _ _ := 0; Intn_range _ _ n H := conj (Z.le_refl 0) H |}.

Definition demo_ids : list string := ["a"; "b"; "c"].
Definition demo_conf (n : string) : Config := DefaultConfig n (filter (fun p => p <> n) demo_ids).

Lemma demo_cluster_ok : cluster_ok demo_ids demo_conf.
Proof.
  split; unfold demo_ids; try done.
  - repeat constructor; set_solver.
  - set_solver.
Qed.

(** A script names the message to deliver by its type and its ends; the last
    such message sent is meant. *)
Inductive script :=
  | STicks (n : string) (k : nat)
  | SPropose (n : string) (data : string)
  | SDeliver (ty : MsgType) (from to : string).

Definition find_msg (ty : MsgType) (from to : string) (net : list Message) : option Message :=
  last (filter (fun m => m_Type m = ty /\ m_From m = from /\ m_To m = to) net).

Definition script_actions (sc : script) (s : sys) : list action :=
  match sc with
  | STicks n k => repeat (ATick n) k
  | SPropose n data => [APropose n [mkEntry 0 0 EntryNormal (bytes_of_string data)]]
  | SDeliver ty from to =>
      match find_msg ty from to (s_net s) with Some m => [ADeliver to m] | None => [] end
  end.

Fixpoint play (scs : list script) (s : sys) : option sys :=
  match scs with
  | [] => Some s
  | sc :: scs => s ← exec (script_actions sc s) s; play scs s
  end.

Lemma steps_trans s1 s2 s3 : steps s1 s2 -> steps s2 s3 -> steps s1 s3.
Proof. induction 1; intros; [done|]. econstructor; eauto. Qed.

Lemma play_steps scs s s' : play scs s = Some s' -> steps s s'.
Proof.
  revert s. induction scs as [|sc scs IH]; intros s H; simpl in H; [simplify_eq; constructor|].
  apply bind_Some in H as (s1 & H1 & H). eapply steps_trans; [by eapply exec_steps|by apply IH].
Qed.

Definition demo_init : sys := default (mkSys ∅ []) (init demo_ids demo_conf).
Definition demo_run (scs : list script) : sys := default demo_init (play scs demo_init).

Lemma demo_reachable scs : is_Some (play scs demo_init) -> reachable demo_ids demo_conf (demo_run scs).
Proof.
  intros [s Hs]. exists demo_init. split; [vm_compute; reflexivity|].
  unfold demo_run. rewrite Hs. simpl. by eapply play_steps.
Qed.

(** [a] is elected in term 1 by [b]; the entry it then proposes is not
    replicated.  [b] is elected in term 2 by [c] and replicates its own
    entry to [c]. *)
Definition two_elections : list script :=
  [ STicks "a" 10; SDeliver MsgVote "a" "b"; SDeliver MsgVoteRsp "b" "a"; SPropose "a" "x";
    STicks "b" 10; SDeliver MsgVote "b" "c"; SDeliver MsgVoteRsp "c" "b"; SPropose "b" "y";
    SDeliver MsgAppend "b" "c"; SDeliver MsgAppendRsp "c" "b" ].

(** ** Properties *)

(** [n] acts as the leader of term [t]: it is in that role now, or it has
    sent a heartbeat or entries in it. *)
Definition leads (s : sys) (t : Z) (n : string) : Prop :=
  (exists node, s_nodes s !! n = Some node /\ state (n_raft node) = Leader /\ term (n_raft node) = t) \/
  (exists m, m ∈ s_net s /\ (m_Type m = MsgHeartbeat \/ m_Type m = MsgAppend) /\
             m_From m = n /\ m_Term m = t).

Lemma leads_won ids V W s t n : einv ids (views s) (s_net s) V W -> leads s t n -> W !! t = Some n.
Proof.
  intros He [(node & Hn & Hs & <-)|(m & Hm & Hty & <- & <-)].
  - apply (ei_leader _ _ _ _ _ He n (view (n_raft node))); [|done].
    unfold views. by rewrite lookup_fmap Hn.
  - by apply (ei_lead_msg _ _ _ _ _ He).
Qed.

Section properties.
Context {R : Rand} (ids : list string) (conf : string -> Config).

(** C1: Election Safety.  In every reachable state of a cluster over a
    network that may lose, delay, duplicate and reorder messages, at most one
    node ever acts as leader in a term, counting present leaders and every
    heartbeat and append message ever sent. *)
Theorem election_safety (s : sys) (t : Z) (n1 n2 : string)
  (Hco : cluster_ok ids conf) (Hs : reachable ids conf s)
  (H1 : leads s t n1) (H2 : leads s t n2) : n1 = n2.
Proof.
  destruct (si_ghost _ _ _ (reachable_inv ids conf Hco s Hs)) as (V & W & L & He & _).
  apply (leads_won _ _ _ _ _ _ He) in H1, H2. congruence.
Qed.

(** C2: Log Matching.  If the logs of two nodes hold entries of the same term
    at the same index, they are identical, data included, up to that index. *)
Theorem log_matching (s : sys) (n1 n2 : string) (node1 node2 : RaftNode) (i : nat) (e1 e2 : LogEntry)
  (Hco : cluster_ok ids conf) (Hs : reachable ids conf s)
  (Hn1 : s_nodes s !! n1 = Some node1) (Hn2 : s_nodes s !! n2 = Some node2)
  (He1 : entries (log (n_raft node1)) !! i = Some e1)
  (He2 : entries (log (n_raft node2)) !! i = Some e2)
  (Ht : le_Term e1 = le_Term e2) :
  take (S i) (entries (log (n_raft node1))) = take (S i) (entries (log (n_raft node2))).
Proof.
  destruct (si_ghost _ _ _ (reachable_inv ids conf Hco s Hs)) as (V & W & L & _ & Hm).
  assert (Hents : forall n node, s_nodes s !! n = Some node -> ents_ok L (entries (log (n_raft node)))).
  { intros n node Hn. apply (mi_ents _ _ _ _ Hm n (view (n_raft node))).
    unfold views. by rewrite lookup_fmap Hn. }
  eapply (ents_agree L); eauto.
Qed.

(** C4: no node of a reachable cluster panics: every enabled tick, proposal or
    delivery is handled, whatever happened before. *)
Theorem cluster_never_panics (s : sys) (a : action)
  (Hco : cluster_ok ids conf) (Hs : reachable ids conf s) (Ha : enabled a s = true) :
  exists s', sstep a s = Some s'.
Proof.
  destruct (sstep_inv ids conf Hco a s (reachable_inv ids conf Hco s Hs) Ha) as (s' & _ & _ & H & _).
  by exists s'.
Qed.

(** C5: what a node has committed is final for that node: along every
    execution its term and commit index never decrease and the entries up to
    the commit index never change; while it leads a term it only appends. *)
Theorem committed_prefix_stable (s s' : sys) (n : string) (node : RaftNode)
  (Hco : cluster_ok ids conf) (Hs : reachable ids conf s) (Hss : steps s s')
  (Hn : s_nodes s !! n = Some node) :
  exists node', s_nodes s' !! n = Some node' /\
    term (n_raft node) <= term (n_raft node') /\
    committed (log (n_raft node)) <= committed (log (n_raft node')) /\
    (forall i, i <= committed (log (n_raft node)) ->
       entry_at (log (n_raft node')) i = entry_at (log (n_raft node)) i) /\
    (state (n_raft node) = Leader -> term (n_raft node') = term (n_raft node) ->
       entries (log (n_raft node)) `prefix_of` entries (log (n_raft node'))).
Proof. eapply steps_evolves; eauto. by apply reachable_inv. Qed.

(** C3: the calls a node makes on its state machine are exactly the entries
    of its log up to the applied index, each once and in order, with the
    leaders' no-ops left out; everything applied is committed. *)
Theorem applied_in_order (s : sys) (n : string) (node : RaftNode) (calls : list sm_call)
  (Hco : cluster_ok ids conf) (Hs : reachable ids conf s)
  (Hn : s_nodes s !! n = Some node) (Hc : n_storage node = Some calls) :
  calls = apply_calls (log_prefix (log (n_raft node)) (applied (log (n_raft node)))) /\
  n_appliedIndex node = applied (log (n_raft node)) /\
  applied (log (n_raft node)) <= committed (log (n_raft node)) <= lastIndex (log (n_raft node)).
Proof.
  pose proof (si_members _ _ _ (reachable_inv ids conf Hco s Hs) n node Hn) as Hm.
  destruct (mo_ok _ _ _ _ Hm) as [Hr Ha Hcalls]. split_and!; auto.
  - apply (lw_applied _ (ro_log _ Hr)).
  - rewrite lastIndex_wf; [|apply (ro_log _ Hr)]. apply (lw_committed _ (ro_log _ Hr)).
Qed.

End properties.

Definition demo_node (s : sys) (n : string) : RaftNode :=
  default (default (mkNode (mkRaft (demo_conf n) n 0 "" newRaftLog Follower "" 0 0 0 ∅ ∅ [] newReadOnly 0)
     (demo_conf n) None [] (mkHardState 0 "" 0) 0 "" None) (NewRaftNode (demo_conf n) true)) (s_nodes s !! n).

Lemma election_safety_witness :
  leads (demo_run two_elections) 2 "b" /\ "b" = "b".
Proof.
  assert (Hl : leads (demo_run two_elections) 2 "b").
  { left. exists (demo_node (demo_run two_elections) "b"). split_and!; vm_compute; reflexivity. }
  split; [exact Hl|].
  apply (election_safety demo_ids demo_conf (demo_run two_elections) 2 "b" "b");
    [apply demo_cluster_ok|apply demo_reachable; vm_compute; eauto|exact Hl..].
Defined.

Lemma log_matching_witness :
  take 3 (entries (log (n_raft (demo_node (demo_run two_elections) "b")))) =
  take 3 (entries (log (n_raft (demo_node (demo_run two_elections) "c")))).
Proof.
  apply (log_matching demo_ids demo_conf (demo_run two_elections) "b" "c"
    (demo_node (demo_run two_elections) "b") (demo_node (demo_run two_elections) "c") 2%nat
    (mkEntry 2 2 EntryNormal (bytes_of_string "y")) (mkEntry 2 2 EntryNormal (bytes_of_string "y")));
    [apply demo_cluster_ok|apply demo_reachable; vm_compute; eauto|vm_compute; reflexivity..].
Defined.

Lemma cluster_never_panics_witness : exists s', sstep (ATick "c") (demo_run two_elections) = Some s'.
Proof.
  apply (cluster_never_panics demo_ids demo_conf (demo_run two_elections) (ATick "c"));
    [apply demo_cluster_ok|apply demo_reachable; vm_compute; eauto|vm_compute; reflexivity].
Defined.

(** [b]'s heartbeat reaches the deposed leader [a]. *)
Definition heartbeat_to_a : list script := [STicks "b" 5; SDeliver MsgHeartbeat "b" "a"].

Lemma committed_prefix_stable_witness :
  let s := demo_run two_elections in let s' := demo_run (two_elections ++ heartbeat_to_a) in
  exists node', s_nodes s' !! "b" = Some node' /\
    term (n_raft (demo_node s "b")) <= term (n_raft node') /\
    committed (log (n_raft (demo_node s "b"))) <= committed (log (n_raft node')) /\
    (forall i, i <= committed (log (n_raft (demo_node s "b"))) ->
       entry_at (log (n_raft node')) i = entry_at (log (n_raft (demo_node s "b"))) i) /\
    (state (n_raft (demo_node s "b")) = Leader -> term (n_raft node') = term (n_raft (demo_node s "b")) ->
       entries (log (n_raft (demo_node s "b"))) `prefix_of` entries (log (n_raft node'))).
Proof.
  apply (committed_prefix_stable demo_ids demo_conf (demo_run two_elections)
    (demo_run (two_elections ++ heartbeat_to_a)) "b");
    [apply demo_cluster_ok|apply demo_reachable; vm_compute; eauto| |vm_compute; reflexivity].
  apply play_steps with (scs := heartbeat_to_a). vm_compute. reflexivity.
Defined.

Lemma applied_in_order_witness :
  let node := demo_node (demo_run two_elections) "b" in
  [CallApply (mkEntry 2 2 EntryNormal (bytes_of_string "y"))] =
    apply_calls (log_prefix (log (n_raft node)) (applied (log (n_raft node)))) /\
  n_appliedIndex node = applied (log (n_raft node)) /\
  applied (log (n_raft node)) <= committed (log (n_raft node)) <= lastIndex (log (n_raft node)).
Proof.
  apply (applied_in_order demo_ids demo_conf (demo_run two_elections) "b");
    [apply demo_cluster_ok|apply demo_reachable; vm_compute; eauto|vm_compute; reflexivity..].
Defined.

(** C29: state-machine safety fails.  A heartbeat makes its receiver commit its
    own log up to the leader's commit index without checking that the logs
    agree: in a reachable state of a three-node cluster two nodes have applied
    different commands at index 2. *)
Theorem heartbeat_commit_divergence :
  exists s na nb, reachable demo_ids demo_conf s /\
    s_nodes s !! "a" = Some na /\ s_nodes s !! "b" = Some nb /\
    n_storage na = Some [CallApply (mkEntry 2 1 EntryNormal (bytes_of_string "x"))] /\
    n_storage nb = Some [CallApply (mkEntry 2 2 EntryNormal (bytes_of_string "y"))].
Proof.
  set (s := demo_run (two_elections ++ heartbeat_to_a)).
  exists s, (demo_node s "a"), (demo_node s "b").
  split; [apply demo_reachable; vm_compute; eauto|]. split_and!; vm_compute; reflexivity.
Qed.
