(* ===== verification/RaftFailover.v ===== *)
(** * RaftFailover: replacing a failed leader and repairing a follower

    Two liveness defects of pkg/raft/raft.go.  A vote request with a newer
    term does not make its receiver adopt the term and forget its old vote,
    so the followers of a crashed leader keep refusing each other
    ([failover_blocked]).  A rejected append carries no index, so the leader
    never backs up ([rejection_never_backs_up]). *)

From S2P Require Import Prelude Bytes RaftLog Raft RaftSpec RaftSafety RaftNode RaftSystem.

(** ** Nodes that will not vote for each other *)

Section stuck.
Context `{R : Rand}.
Context (live : gset string).

(** Everything elections depend on is kept, and [out] is sent. *)
Definition quiet (r r' : Raft) (out : list Message) : Prop :=
  config r' = config r /\ id r' = id r /\ term r' = term r /\ vote r' = vote r /\ state r' = state r /\
  votes r' = votes r /\ lead r' = lead r /\ msgs r' = msgs r ++ out.

(** An answer to a leader. *)
Definition answer (m rsp : Message) : Prop :=
  m_To rsp = m_From m /\ (m_Type rsp = MsgHeartbeatRsp \/ m_Type rsp = MsgAppendRsp).

Lemma handleHeartbeat_quiet m r r' : handleHeartbeat m r = Some r' ->
  exists rsp, quiet r r' [rsp] /\ answer m rsp.
Proof.
  unfold handleHeartbeat. intros (r1 & H1 & H)%bind_Some. injection H as <-.
  split_if_in H1.
  - apply bind_Some in H1 as ([es l] & _ & H1). injection H1 as <-.
    eexists. split; [repeat split|]. split; [done|by left].
  - injection H1 as <-. eexists. split; [repeat split|]. split; [done|by left].
Qed.

Lemma handleAppendEntries_quiet m r r' : handleAppendEntries m r = Some r' ->
  exists rsp, quiet r r' [rsp] /\ answer m rsp.
Proof.
  unfold handleAppendEntries. intros H. split_if_in H.
  { injection H as <-. eexists. split; [repeat split|]. split; [done|by right]. }
  destruct (negb _).
  { destruct (findConflict _ _). injection H as <-. eexists. split; [repeat split|].
    split; [done|by right]. }
  apply bind_Some in H as (r1 & H1 & H). apply bind_Some in H as (r2 & H2 & H). injection H as <-.
  assert (Hq1 : exists l, r1 = set_log l r).
  { destruct (m_Entries m) as [|e0 es0]; [injection H1 as <-; exists (log r); by destruct r|].
    apply bind_Some in H1 as ([i l] & _ & H1). injection H1 as <-. eauto. }
  destruct Hq1 as [l1 ->].
  assert (Hq2 : exists l, r2 = set_log l r).
  { split_if_in H2; [|injection H2 as <-; eauto].
    apply bind_Some in H2 as ([i l] & _ & H2). injection H2 as <-. by exists l. }
  destruct Hq2 as [l2 ->]. eexists. split; [repeat split|]. split; [done|by right].
Qed.

(** A live node that has spent its vote on itself or on a crashed node, and
    follows no live node. *)
Record stuck_node (x : string) (r : Raft) : Prop := {
  sn_id : id r = x;
  sn_state : state r <> Leader;
  sn_vote : vote r <> "" /\ (vote r ∈ live -> vote r = x);
  sn_votes y : state r = Candidate -> votes r !! y = Some true -> y = x;
  sn_lead : lead r ∉ live;
  sn_peers : Peers (config r) <> [];
}.

(** What may be on its way to the live node [x] in term [t]. *)
Definition stuck_msg (x : string) (t : Z) (m : Message) : Prop :=
  (m_Type m <> MsgVote -> m_Term m <= t) /\
  (m_Type m = MsgVoteRsp -> m_VoteGranted m = true -> m_Term m < t) /\
  (m_Type m = MsgHeartbeat \/ m_Type m = MsgAppend -> m_From m ∉ live).

(** What a live node may send: requests for its own vote, refusals, and
    messages to crashed nodes. *)
Definition stuck_out (x : string) (r' : Raft) (inp : option Message) (m : Message) : Prop :=
  (m_Type m = MsgVote /\ m_From m = x /\ m_Term m <= term r') \/
  (m_Type m = MsgVoteRsp /\ m_VoteGranted m = false /\
    exists q, inp = Some q /\ m_Type q = MsgVote /\ m_To m = m_From q /\ m_Term m <= m_Term q) \/
  (m_Type m <> MsgVote /\ m_Type m <> MsgHeartbeat /\ m_Type m <> MsgAppend /\ m_To m ∉ live).

Definition stuck_step (x : string) (inp : option Message) (r r' : Raft) : Prop :=
  stuck_node x r' /\ term r <= term r' /\
  exists out, msgs r' = msgs r ++ out /\ Forall (stuck_out x r' inp) out.

Lemma stuck_keep x inp r r' : stuck_node x r -> quiet r r' [] -> stuck_step x inp r r'.
Proof.
  intros [] (Hc & Hi & Ht & Hv & Hs & Hvs & Hl & Hm). split; [|split; [lia|]].
  - split; rewrite ?Hc ?Hi ?Hv ?Hs ?Hvs ?Hl; auto.
  - exists []. done.
Qed.

(** Following a crashed leader's message. *)
Lemma stuck_answer x inp r r' m rsp :
  stuck_node x r -> m_From m ∉ live -> quiet r r' [rsp] -> answer m rsp -> stuck_step x inp r r'.
Proof.
  intros [] Hf (Hc & Hi & Ht & Hv & Hs & Hvs & Hl & Hm) [Hto Hty]. split; [|split; [lia|]].
  - split; rewrite ?Hc ?Hi ?Hv ?Hs ?Hvs ?Hl; auto.
  - exists [rsp]. split; [done|]. apply Forall_singleton. right; right. rewrite Hto.
    destruct Hty as [-> | ->]; done.
Qed.

Lemma stuck_vote_request x inp r m :
  stuck_node x r -> raft_ok r -> inp = Some m -> m_Type m = MsgVote -> m_PreVote m = false ->
  m_From m <> x -> m_Term m <> 0 -> term r <= m_Term m -> stuck_step x inp r (handleVoteRequest m r).
Proof.
  intros [Hid Hst Hv Hvs Hl Hp] Hr Hinp Hty Hpv Hne H0 Ht. unfold handleVoteRequest. rewrite Hpv. simpl.
  destruct Hv as [Hv0 Hvl]. rewrite (proj2 (String.eqb_neq _ _) Hv0). simpl. rewrite orb_false_r.
  destruct ((vote r =?s m_From m) && _) eqn:Hg.
  - apply andb_true_iff in Hg as [Hg _]. apply String.eqb_eq in Hg.
    assert (Hfl : m_From m ∉ live) by (intros Hin; rewrite -Hg in Hin, Hne; auto).
    assert (Hfo : state r = Follower).
    { eapply (grant_follower r m); eauto. congruence. }
    split; [|split; [simpl; lia|]].
    + split; simpl; try congruence; auto. rewrite -Hg. auto.
    + eexists. split; [done|]. apply Forall_singleton. right; right. simpl. done.
  - split; [by split|split; [simpl; lia|]]. eexists. split; [done|]. apply Forall_singleton.
    right; left. simpl. split_and!; [done..|]. exists m. split_and!; auto. split_if; lia.
Qed.

Lemma stuck_from x inp r r1 r' :
  stuck_step x inp r1 r' -> term r1 = term r -> msgs r1 = msgs r -> stuck_step x inp r r'.
Proof. intros (Hn & Ht & out & Hm & Ho) Et Em. split; [done|]. rewrite -Et -Em. eauto. Qed.

Lemma send_votes_quiet t lt li peers r : t = term r ->
  exists out, quiet r (foldl (fun r peer =>
    send (mkMsg MsgVote peer "" (term r) 0 lt li [] 0 false 0 0 li lt false false None false 0) r) r peers) out /\
  Forall (fun m => m_Type m = MsgVote /\ m_From m = id r /\ m_Term m = t) out.
Proof.
  revert r. induction peers as [|p peers IH]; intros r Ht; simpl.
  { exists []. split; [|done]. repeat split. by rewrite app_nil_r. }
  set (r1 := send _ r). destruct (IH r1) as (out & (Hc & Hi & Htm & Hv & Hs & Hvs & Hl & Hm) & Ho); [done|].
  simpl in *. eexists (_ :: out). split.
  - repeat split; try done. rewrite Hm -app_assoc. done.
  - constructor; [|done]. simpl. split_and!; try done. by rewrite if_same_term.
Qed.

Lemma becomeCandidate_fields r r1 :
  0 <= term r -> term r + 1 < two64 -> becomeCandidate r = Some r1 ->
  config r1 = config r /\ id r1 = id r /\ term r1 = term r + 1 /\ vote r1 = id r /\
  state r1 = Candidate /\ votes r1 = {[id r := true]} /\ lead r1 = "" /\ msgs r1 = msgs r.
Proof.
  intros Ht0 Ht. unfold becomeCandidate, resetElectionTimeout. case_decide; [done|].
  rewrite u64_small; [|lia]. simpl. split_if; [done|]. intros [= <-]. done.
Qed.

Lemma campaign_fields r r' :
  0 <= term r -> term r + 1 < two64 -> Peers (config r) <> [] -> campaign r = Some r' ->
  exists r1 out, becomeCandidate r = Some r1 /\ quiet r1 r' out /\
    Forall (fun m => m_Type m = MsgVote /\ m_From m = id r1 /\ m_Term m = term r1) out.
Proof.
  intros Ht0 Ht Hp. unfold campaign. intros (r1 & H1 & H)%bind_Some.
  destruct (becomeCandidate_fields r r1 Ht0 Ht H1) as (Rc & _). rewrite -Rc in Hp.
  destruct (Peers (config r1)) as [|p ps]; [done|]. injection H as <-.
  destruct (send_votes_quiet (term r1) (LastTerm (log r1)) (lastIndex (log r1)) (p :: ps) r1 eq_refl)
    as (out & Hq & Ho). by exists r1, out.
Qed.

Lemma stuck_campaign x inp r r' :
  stuck_node x r -> 0 <= term r -> term r + 1 < two64 -> x <> "" -> "" ∉ live ->
  campaign r = Some r' -> stuck_step x inp r r'.
Proof.
  intros [Hid Hst Hv Hvs Hl Hp] Ht0 Ht Hx Hlv H.
  destruct (campaign_fields r r' Ht0 Ht Hp H) as (r1 & out & H1 & Hq & Ho).
  destruct (becomeCandidate_fields r r1 Ht0 Ht H1) as (Rc & Ri & Rt & Rv & Rs & Rvs & Rl & Rm).
  destruct Hq as (Hc & Hi & Htm & Hvt & Hs & Hvts & Hld & Hm). split; [|split].
  - split; rewrite ?Hc ?Hi ?Hvt ?Hs ?Hvts ?Hld ?Rc ?Ri ?Rv ?Rs ?Rvs ?Rl ?Hid; try done.
    intros y _. by intros [<- _]%lookup_singleton_Some.
  - rewrite Htm Rt. lia.
  - exists out. split; [by rewrite Hm Rm|]. eapply Forall_impl; [exact Ho|]. intros m (Hty & Hf & Htt).
    left. split_and!; [done|by rewrite Hf Ri|]. rewrite Htm Htt. lia.
Qed.

Lemma stuck_tick x inp r r' :
  stuck_node x r -> 0 <= term r -> term r + 1 < two64 -> x <> "" -> "" ∉ live ->
  Tick r = Some r' -> stuck_step x inp r r'.
Proof.
  intros Hn Ht0 Ht Hx Hlv. unfold Tick. pose proof (sn_state _ _ Hn).
  assert (Hte : tickElection r = Some r' -> stuck_step x inp r r').
  { unfold tickElection. intros H'. split_if_in H'.
    - eapply stuck_from with (r1 := set_electionElapsed 0 (set_electionElapsed (i64 (electionElapsed r + 1)) r));
        [|done..]. eapply stuck_campaign; eauto. by destruct Hn.
    - injection H' as <-. apply stuck_keep; [done|]. repeat split. simpl. by rewrite app_nil_r. }
  destruct (state r); auto. done.
Qed.

Lemma stuck_step_fn x m r e r' :
  stuck_node x r -> raft_ok r -> msg_ok m -> stuck_msg x (term r) m ->
  (m_Type m = MsgVote -> m_From m <> x) ->
  m_Term m = 0 \/ m_Term m = term r \/ (m_Type m = MsgVote /\ term r <= m_Term m) ->
  step m r = Some (e, r') -> stuck_step x (Some m) r r'.
Proof.
  intros Hn Hr [Htr Hm] (Hle & Hgr & Hlf) Hfrom Ht H.
  assert (Hsame : forall e', Some (e', r) = Some (e, r') -> stuck_step x (Some m) r r').
  { intros e' [= _ <-]. apply stuck_keep; [done|]. repeat split. by rewrite app_nil_r. }
  pose proof (sn_state _ _ Hn) as Hnl. unfold step in H. destruct (state r) eqn:Hs; [| |done].
  - unfold stepFollower in H.
    assert (Hn1 : m_From m ∉ live -> stuck_node x (set_lead (m_From m) (set_electionElapsed 0 r))).
    { intros Hf. destruct Hn. by split. }
    destruct (m_Type m) eqn:Hty; try done; try (by eapply Hsame).
    + apply bind_Some in H as (r1 & H1 & H). injection H as _ <-.
      apply handleHeartbeat_quiet in H1 as (rsp & Hq & Ha). pose proof (Hlf (or_introl eq_refl)).
      eapply stuck_from; [eapply stuck_answer; [|done|exact Hq|exact Ha]; auto|done..].
    + apply bind_Some in H as (r1 & H1 & H). injection H as _ <-.
      apply handleAppendEntries_quiet in H1 as (rsp & Hq & Ha). pose proof (Hlf (or_intror eq_refl)).
      eapply stuck_from; [eapply stuck_answer; [|done|exact Hq|exact Ha]; auto|done..].
    + injection H as _ <-. destruct Hm as [Hpos Hpv].
      apply stuck_vote_request; auto; [lia|]. destruct Ht as [?|[?|[_ ?]]]; lia.
    + split_if_in H; [by eapply Hsame|]. injection H as _ <-.
      split; [by destruct Hn|split; [simpl; lia|]]. eexists. split; [done|].
      apply Forall_singleton. right; right. simpl. rewrite Hty. split_and!; try done. apply Hn.
  - unfold stepCandidate in H.
    assert (Hbf : forall r1, m_From m ∉ live -> m_Term m <> 0 -> m_Type m <> MsgVote ->
      becomeFollower (m_Term m) (m_From m) r = Some r1 ->
      stuck_node x r1 /\ term r1 = term r /\ msgs r1 = msgs r).
    { intros r1 Hf H0 Hnv Hb. unfold becomeFollower, resetElectionTimeout in Hb.
      destruct (Z.ltb_spec (term r) (m_Term m)).
      { destruct Ht as [?|[?|[? _]]]; [lia|lia|done]. }
      split_if_in Hb; [done|]. injection Hb as <-. destruct Hn. split; [by split|done]. }
    destruct (m_Type m) eqn:Hty; try done; try (by eapply Hsame).
    + apply bind_Some in H as (r2 & H1 & H). injection H as _ <-. apply bind_Some in H1 as (r1 & Hb & H1).
      destruct (Hbf r1) as (Hn1 & Ht1 & Hm1); auto; [lia|].
      apply handleHeartbeat_quiet in H1 as (rsp & Hq & Ha). pose proof (Hlf (or_introl eq_refl)).
      eapply stuck_from; [eapply stuck_answer; [|done|exact Hq|exact Ha]; auto|done..].
    + apply bind_Some in H as (r2 & H1 & H). injection H as _ <-. apply bind_Some in H1 as (r1 & Hb & H1).
      destruct (Hbf r1) as (Hn1 & Ht1 & Hm1); auto; [lia|].
      apply handleAppendEntries_quiet in H1 as (rsp & Hq & Ha). pose proof (Hlf (or_intror eq_refl)).
      eapply stuck_from; [eapply stuck_answer; [|done|exact Hq|exact Ha]; auto|done..].
    + injection H as _ <-. destruct Hm as [Hpos Hpv].
      apply stuck_vote_request; auto; [lia|]. destruct Ht as [?|[?|[_ ?]]]; lia.
    + unfold handleVoteResponse in H. destruct (m_VoteGranted m) eqn:Hg.
      { exfalso. destruct Hm as [_ Hpos]. specialize (Hpos eq_refl). specialize (Hgr eq_refl eq_refl).
        destruct Ht as [?|[?|[? _]]]; [lia|lia|done]. }
      injection H as _ <-. split; [|split; [simpl; lia|exists []; by rewrite app_nil_r]].
      destruct Hn as [? ? ? Hvs ? ?]. split; simpl; auto. intros y Hc.
      rewrite lookup_insert. case_decide; [done|auto].
Qed.

Lemma stuck_Step x m r e r' :
  stuck_node x r -> raft_ok r -> msg_ok m -> stuck_msg x (term r) m ->
  (m_Type m = MsgVote -> m_From m <> x) ->
  Step m r = Some (e, r') -> stuck_step x (Some m) r r'.
Proof.
  intros Hn Hr Hm Hsm Hfrom H. unfold Step in H.
  destruct (Z.eqb_spec (m_Term m) 0); [eapply stuck_step_fn; eauto|].
  destruct (Z.ltb_spec (term r) (m_Term m)).
  - assert (Hty : m_Type m = MsgVote).
    { destruct (decide (m_Type m = MsgVote)) as [|Hne]; [done|]. destruct Hsm as [Hle _]. specialize (Hle Hne). lia. }
    rewrite Hty in H. simpl in H. eapply stuck_step_fn; eauto. right; right. split; [done|lia].
  - split_if_in H.
    + injection H as _ <-. apply stuck_keep; [done|]. repeat split. by rewrite app_nil_r.
    + eapply stuck_step_fn; eauto. right; left. lia.
Qed.

(** ** Clusters whose live nodes refuse each other *)

Record stuck (s : sys) : Prop := {
  sk_node x node : x ∈ live -> s_nodes s !! x = Some node -> stuck_node x (n_raft node);
  sk_msg m x node : m ∈ s_net s -> m_To m = x -> x ∈ live -> s_nodes s !! x = Some node ->
    stuck_msg x (term (n_raft node)) m;
  sk_vote m y node : m ∈ s_net s -> m_Type m = MsgVote -> m_From m = y -> y ∈ live ->
    s_nodes s !! y = Some node -> m_Term m <= term (n_raft node);
}.

Lemma stuck_node_flush x r : stuck_node x r -> stuck_node x (flush r).
Proof. intros []. by split. Qed.

(** The state machine of a live node after an event. *)
Lemma stuck_event ids conf s a node r :
  cluster_ok ids conf -> sinv ids conf s -> stuck s -> "" ∉ live -> enabled a s = true ->
  a_node a ∈ live -> s_nodes s !! a_node a = Some node ->
  ev_raft (a_event a) node = Some r ->
  stuck_step (a_node a) (ev_input (a_event a) node) (n_raft node) r.
Proof.
  intros Hco Hs Hk Hlv Hen Hal Hn Her. pose proof (sk_node _ Hk _ _ Hal Hn) as Hsn.
  pose proof (mo_ok _ _ _ _ (si_members _ _ _ Hs _ _ Hn)) as [Hr _ _]. pose proof (ro_term _ Hr) as Htr.
  unfold enabled in Hen. rewrite Hn in Hen. apply andb_true_iff in Hen as [Hroom Hdel].
  apply roomb_room in Hroom as [Hroom _].
  destruct a as [n|n es|n m]; simpl in *.
  - apply (stuck_tick n None (n_raft node)); auto; [lia|]. intros ->. done.
  - apply fmap_Some in Her as ([e r1] & Hst & ->). eapply stuck_Step; eauto; simpl; [by split|].
    split_and!; [simpl; lia|done|by intros [?|?]].
  - apply andb_true_iff in Hdel as [Hin Hto]. apply bool_decide_eq_true in Hin.
    apply String.eqb_eq in Hto. apply fmap_Some in Her as ([e r1] & Hst & ->).
    destruct (si_ghost _ _ _ Hs) as (V & W & L & He & _). pose proof (si_net _ _ _ Hs) as Hnet.
    rewrite Forall_forall in Hnet. eapply stuck_Step; eauto.
    + by eapply (sk_msg _ Hk).
    + intros Hty. destruct (ei_vote_msg _ _ _ _ _ He m Hin Hty). congruence.
Qed.

(** What a live node sends is no threat to the live nodes. *)
Lemma stuck_out_msg s x r r' node inp m y nodey :
  stuck s -> stuck_out x r' inp m -> (forall q, inp = Some q -> m_Type q <> MsgPropose -> q ∈ s_net s) ->
  s_nodes s !! x = Some node -> x ∈ live -> n_raft node = r -> term r <= term r' ->
  m_To m = y -> y ∈ live -> s_nodes s !! y = Some nodey ->
  stuck_msg y (if decide (x = y) then term r' else term (n_raft nodey)) m.
Proof.
  intros Hk Ho Hinp Hn Hx Hr Ht Hto Hy Hny.
  assert (Hge : term (n_raft nodey) <= if decide (x = y) then term r' else term (n_raft nodey)).
  { case_decide; [|lia]. subst x. rewrite Hn in Hny. injection Hny as <-. congruence. }
  destruct Ho as [(Hty & _)|[(Hty & Hg & q & Hq & Hqt & Hqf & Hle)|(? & ? & ? & Hnl)]].
  - split_and!; try congruence. intros [?|?]; congruence.
  - split_and!; try congruence; [|intros [?|?]; congruence].
    intros _. assert (Hqn : q ∈ s_net s) by (apply Hinp; [done|congruence]).
    pose proof (sk_vote _ Hk q y nodey Hqn Hqt) as Hv. rewrite -Hto Hqf in Hv.
    rewrite -Hqf Hto in Hv. specialize (Hv eq_refl Hy Hny). lia.
  - congruence.
Qed.

Lemma stuck_sstep ids conf s a s' :
  cluster_ok ids conf -> sinv ids conf s -> stuck s -> "" ∉ live -> enabled a s = true ->
  a_node a ∈ live -> sstep a s = Some s' -> stuck s'.
Proof.
  intros Hco Hs Hk Hlv Hen Hal Hst. set (x := a_node a) in *.
  destruct (sstep_inv ids conf Hco a s Hs Hen)
    as (s1 & node & node' & Hst' & _ & Hn & Hnodes & r & out & _ & Hfl & Hnet & Her & Hout).
  rewrite Hst in Hst'. injection Hst' as <-. fold x in Hn, Hnodes.
  pose proof (mo_msgs _ _ _ _ (si_members _ _ _ Hs _ _ Hn)) as Hms.
  destruct (stuck_event ids conf s a node r Hco Hs Hk Hlv Hen Hal Hn Her) as (Hn' & Ht & out' & Ho & Hos).
  rewrite Hms in Ho. simpl in Ho. subst out'. rewrite -Hout in Hos.
  assert (Hinp : forall q, ev_input (a_event a) node = Some q -> m_Type q <> MsgPropose -> q ∈ s_net s).
  { intros q Hq Hty. unfold enabled in Hen. fold x in Hen. rewrite Hn in Hen.
    apply andb_true_iff in Hen as [_ Hen]. destruct a; simpl in *; simplify_eq; try done.
    apply andb_true_iff in Hen as [Hin _]. by apply bool_decide_eq_true in Hin. }
  assert (Hterm : forall y ny, s_nodes s' !! y = Some ny -> exists ny0, s_nodes s !! y = Some ny0 /\
    term (n_raft ny) = (if decide (x = y) then term r else term (n_raft ny0)) /\
    term (n_raft ny0) <= term (n_raft ny)).
  { intros y ny. rewrite Hnodes lookup_insert. case_decide as Hxy; intros Hy.
    - injection Hy as <-. subst y. exists node. rewrite Hfl. done.
    - exists ny. split_and!; [done..|lia]. }
  split.
  - intros y ny Hy. rewrite Hnodes lookup_insert. case_decide as Hxy; intros Hny; [|by eapply (sk_node _ Hk)].
    injection Hny as <-. rewrite Hfl -Hxy. by apply stuck_node_flush.
  - intros m y ny Hm Hto Hy Hny. destruct (Hterm y ny Hny) as (ny0 & Hny0 & Hteq & Hle).
    rewrite Hnet in Hm. apply elem_of_app in Hm as [Hm|Hm].
    + destruct (sk_msg _ Hk m y ny0 Hm Hto Hy Hny0) as (H1 & H2 & H3).
      split_and!; [intros Hv; specialize (H1 Hv); lia|intros Hv Hg; specialize (H2 Hv Hg); lia|done].
    + rewrite Hteq. rewrite Forall_forall in Hos. by apply (stuck_out_msg s x (n_raft node) r node (ev_input (a_event a) node) m y ny0); auto.
  - intros m y ny Hm Hty Hf Hy Hny. destruct (Hterm y ny Hny) as (ny0 & Hny0 & Hteq & Hle).
    rewrite Hnet in Hm. apply elem_of_app in Hm as [Hm|Hm].
    + pose proof (sk_vote _ Hk m y ny0 Hm Hty Hf Hy Hny0). lia.
    + rewrite Forall_forall in Hos. destruct (Hos m Hm) as [(_ & Hfx & Hle')|[(Hty' & _)|(Hty' & _)]]; [|congruence..].
      rewrite Hteq decide_True; [done|by rewrite -Hf Hfx].
Qed.

(** Executions in which only live nodes act. *)
Inductive live_steps : sys -> sys -> Prop :=
  | ls_refl s : live_steps s s
  | ls_step s a s1 s2 : a_node a ∈ live -> enabled a s = true -> sstep a s = Some s1 ->
      live_steps s1 s2 -> live_steps s s2.

Lemma stuck_forever ids conf s s' :
  cluster_ok ids conf -> sinv ids conf s -> stuck s -> "" ∉ live -> live_steps s s' -> stuck s'.
Proof.
  intros Hco Hs Hk Hlv H. induction H as [|s a s1 s2 Ha Hen Hst _ IH]; [done|].
  apply IH; [|by eapply stuck_sstep].
  destruct (sstep_inv ids conf Hco a s Hs Hen) as (s1' & _ & _ & Hst' & Hs1 & _).
  rewrite Hst in Hst'. by injection Hst' as <-.
Qed.

End stuck.

(** ** A leader that hears nothing

    A leader that only ticks and takes proposals keeps its role and term, and
    sends heartbeats and entries of this term.  They do not help the live nodes
    to elect another one. *)

Section deaf.
Context `{R : Rand}.
Context (live : gset string).

Definition leads_on (r r' : Raft) : Prop :=
  state r' = state r /\ term r' = term r /\ id r' = id r /\ config r' = config r /\
  exists out, msgs r' = msgs r ++ out /\
    Forall (fun m => (m_Type m = MsgHeartbeat \/ m_Type m = MsgAppend) /\ m_From m = id r /\ m_Term m = term r /\ m_To m ∈ Peers (config r)) out.

Lemma leads_on_same r r' : state r' = state r -> term r' = term r -> id r' = id r -> config r' = config r -> msgs r' = msgs r -> leads_on r r'.
Proof. intros. split_and!; try done. exists []. by rewrite app_nil_r. Qed.

Lemma leads_on_trans r1 r2 r3 : leads_on r1 r2 -> leads_on r2 r3 -> leads_on r1 r3.
Proof.
  intros (S1 & T1 & I1 & C1 & o1 & M1 & F1) (S2 & T2 & I2 & C2 & o2 & M2 & F2). split_and!; try congruence.
  exists (o1 ++ o2). rewrite M2 M1 app_assoc. split; [done|]. apply Forall_app. split; [done|]. by rewrite -T1 -I1 -C1.
Qed.

Lemma leads_on_broadcast hb r r' : broadcastAppendEntries hb r = Some r' -> leads_on r r'.
Proof.
  intros H. apply (for_each_inv (leads_on r)) in H; [done| |by apply leads_on_same]. intros p s s' Hp Hs Hx.
  assert (Hpeer : p ∈ Peers (config s)) by (destruct Hs as (_ & _ & _ & -> & _); exact Hp).
  eapply leads_on_trans; [exact Hs|]. destruct hb.
  - simplify_eq. split_and!; try done. eexists. split; [done|]. apply Forall_singleton. simpl. rewrite if_same_term //. split_and!; auto.
  - unfold sendAppendEntries in Hx. destruct (progress s !! p); [|simplify_eq; by apply leads_on_same].
    case_decide; [simplify_eq; by apply leads_on_same|]. apply bind_Some in Hx as (es & _ & Hx). simplify_eq.
    split_and!; try done. eexists. split; [done|]. apply Forall_singleton. simpl. rewrite if_same_term //. split_and!; auto.
Qed.

Lemma leads_on_event ev node r : state (n_raft node) = Leader -> (forall m, ev <> EvStep m) -> ev_raft ev node = Some r ->
  leads_on (n_raft node) r.
Proof.
  intros Hl Hev H. destruct ev as [|es|m]; [| |by destruct (Hev m)]; simpl in H.
  - unfold Tick, tickHeartbeat in H. rewrite Hl in H. split_if_in H; [|simplify_eq; by apply leads_on_same].
    eapply leads_on_trans; [|by eapply leads_on_broadcast]. by apply leads_on_same.
  - apply fmap_Some in H as ([e r1] & H & ->). unfold Step, step in H. simpl in H. rewrite Hl in H. unfold stepLeader in H. simpl in H.
    destruct es as [|e0 es]; [simplify_eq; by apply leads_on_same|]. apply bind_Some in H as (r2 & H2 & H). simplify_eq. simpl.
    unfold handleProposal in H2. apply bind_Some in H2 as (l & _ & H2). apply bind_Some in H2 as (r2 & H2%leads_on_broadcast & H). simplify_eq.
    eapply leads_on_trans; [|eapply leads_on_trans; [exact H2|by apply leads_on_same]].
    simpl. by destruct (progress (n_raft node) !! id (n_raft node)); apply leads_on_same.
Qed.

Lemma stuck_deaf_leader ids conf s a s' node :
  cluster_ok ids conf -> sinv ids conf s -> stuck live s -> enabled a s = true -> sstep a s = Some s' ->
  a_node a ∉ live -> s_nodes s !! a_node a = Some node -> state (n_raft node) = Leader -> (forall m, a_event a <> EvStep m) ->
  (forall x nx, x ∈ live -> s_nodes s !! x = Some nx -> term (n_raft node) <= term (n_raft nx)) ->
  stuck live s' /\ exists node' out, s_nodes s' = <[a_node a := node']> (s_nodes s) /\ s_net s' = s_net s ++ out /\
    state (n_raft node') = Leader /\ term (n_raft node') = term (n_raft node) /\ Forall (fun m => m_From m = a_node a /\ m_Type m <> MsgPropose /\ m_To m <> a_node a) out.
Proof.
  intros Hco Hs Hk Hen Hst Ha Hn Hl Hev Hterm.
  destruct (sstep_inv ids conf Hco a s Hs Hen) as (s1 & n0 & node' & Hst' & _ & Hn0 & Hnodes & r & out & _ & Hfl & Hnet & Her & Hout).
  rewrite Hst in Hst'. injection Hst' as <-. rewrite Hn in Hn0. injection Hn0 as <-.
  pose proof (si_members _ _ _ Hs _ _ Hn) as Hm. destruct (leads_on_event _ _ _ Hl Hev Her) as (S & T & I & _ & o & M & F).
  rewrite (mo_msgs _ _ _ _ Hm) in M. simpl in M. rewrite (mo_id _ _ _ _ Hm) in F. rewrite Hout M in Hnet. rewrite Forall_forall in F.
  assert (Hlive : forall x nx, x ∈ live -> s_nodes s' !! x = Some nx -> s_nodes s !! x = Some nx).
  { intros x nx Hx. rewrite Hnodes lookup_insert_ne //. by intros <-. }
  split; [split|].
  - intros x nx Hx Hnx. by apply (sk_node _ _ Hk x nx Hx), Hlive.
  - intros m x nx Hin Hto Hx Hnx. apply Hlive in Hnx; [|done]. rewrite Hnet in Hin. apply elem_of_app in Hin as [Hin|Hin]; [by eapply (sk_msg _ _ Hk)|].
    destruct (F m Hin) as (Hty & Hf & Ht & _). specialize (Hterm x nx Hx Hnx).
    split_and!; [lia|destruct Hty; congruence|by rewrite Hf].
  - intros m x nx Hin Hty Hf Hx Hnx. apply Hlive in Hnx; [|done]. rewrite Hnet in Hin. apply elem_of_app in Hin as [Hin|Hin]; [by eapply (sk_vote _ _ Hk)|].
    destruct (F m Hin) as ([?|?] & _); congruence.
  - exists node', o. split_and!; [done|done|rewrite Hfl; simpl; congruence|by rewrite Hfl|]. apply Forall_forall. intros m Hin.
    destruct (F m Hin) as (Hty & -> & _ & Hto). split_and!; [done|destruct Hty; congruence|].
    intros E. apply (ro_peers _ (no_raft _ (mo_ok _ _ _ _ Hm))). by rewrite (mo_id _ _ _ _ Hm) -E.
Qed.
End deaf.

(** ** The followers of a crashed leader *)

(** A test that implies [stuck], for states whose live nodes are followers. *)
Definition follower_stuckb (live : gset string) (x : string) (r : Raft) : bool :=
  bool_decide (id r = x /\ state r = Follower /\ vote r <> "" /\ vote r ∉ live /\ lead r ∉ live) &&
  negb (bool_decide (Peers (config r) = [])).

Definition msg_stuckb (live : gset string) (s : sys) (m : Message) : bool :=
  match s_nodes s !! m_To m with
  | Some node =>
      negb (bool_decide (m_To m ∈ live)) ||
      (bool_decide (m_Type m = MsgVote) ||
       (m_Term m <=? term (n_raft node)) && bool_decide (m_Type m <> MsgVoteRsp) &&
       bool_decide (m_From m ∉ live))
  | None => true
  end &&
  match s_nodes s !! m_From m with
  | Some node => negb (bool_decide (m_Type m = MsgVote)) || (m_Term m <=? term (n_raft node))
  | None => true
  end.

Definition stuckb (live : gset string) (s : sys) : bool :=
  forallb (fun p => negb (bool_decide (fst p ∈ live)) || follower_stuckb live (fst p) (n_raft (snd p)))
    (map_to_list (s_nodes s)) &&
  forallb (msg_stuckb live s) (s_net s).

Lemma stuckb_stuck live s : stuckb live s = true -> stuck live s.
Proof.
  unfold stuckb. intros [Hn Hm]%andb_true_iff. rewrite forallb_forall in Hn. rewrite forallb_forall in Hm.
  assert (Hmsg : forall m, m ∈ s_net s -> msg_stuckb live s m = true).
  { intros m Hin. apply Hm. by apply list_elem_of_In. }
  split.
  - intros x node Hx Hnode. apply elem_of_map_to_list, list_elem_of_In, Hn in Hnode. simpl in Hnode.
    apply orb_true_iff in Hnode as [Hnode|Hnode]; [bool_hyp; done|].
    apply andb_true_iff in Hnode as [Hf Hp]. bool_hyp. destruct Hf as (Hid & Hst & Hv & Hvl & Hld).
    split; [done|congruence|by split|congruence|done|done].
  - intros m x node Hin Hto Hx Hnode. apply Hmsg in Hin. unfold msg_stuckb in Hin. rewrite Hto Hnode in Hin.
    apply andb_true_iff in Hin as [Hin _]. apply orb_true_iff in Hin as [Hin|Hin]; [bool_hyp; done|].
    apply orb_true_iff in Hin as [Hty|Hin].
    + bool_hyp. split_and!; intros; [congruence|congruence|]. destruct H; congruence.
    + bool_hyp. split_and!; intros; done.
  - intros m y node Hin Hty Hf Hy Hnode. apply Hmsg in Hin. unfold msg_stuckb in Hin. rewrite Hf Hnode in Hin.
    apply andb_true_iff in Hin as [_ Hin]. apply orb_true_iff in Hin as [Hin|Hin]; bool_hyp; [congruence|done].
Qed.

#[local] Existing Instance zero_rand.

(** [a] wins the first election with both other votes, and both acknowledge
    its first heartbeat. *)
Definition normal_election : list script :=
  [ STicks "a" 10; SDeliver MsgVote "a" "b"; SDeliver MsgVote "a" "c";
    SDeliver MsgVoteRsp "b" "a"; SDeliver MsgHeartbeat "a" "b"; SDeliver MsgHeartbeat "a" "c" ].

Definition bc : gset string := {["b"; "c"]}.


(** ** A follower whose log is behind *)

(** A lagging follower is not repaired.  The answer to an append that
    fails the consistency check leaves [Index] zero, and a leader that is
    probing the follower at any index but the first ignores it: the next
    index stays where it was and nothing is sent. *)
Theorem rejection_never_backs_up (f r : Raft) (m : Message) (prog : Progress)
  (Hid : id f <> "") (Hge : committed (log f) <= m_LogIndex m)
  (Hck : logConsistencyCheck (m_LogIndex m) (m_LogTerm m) f = false)
  (Hpr : progress r !! id f = Some prog) (Hst : pr_State prog <> ProgressReplicate)
  (Hnext : 1 < NextIndex prog < two64) :
  exists rj, handleAppendEntries m f = Some (set_msgs (msgs f ++ [rj]) f) /\
    m_Reject rj = true /\ m_To rj = m_From m /\
    handleAppendResponse rj r = Some (set_prog (id f) (p_set_RecentActive true prog) r).
Proof.
  unfold handleAppendEntries. simpl. destruct (Z.ltb_spec (m_LogIndex m) (committed (log f))); [lia|].
  rewrite Hck. simpl. destruct (findConflict (m_LogIndex m) f) as [ci ct]. unfold send. simpl.
  eexists. split; [done|]. split_and!; [done..|].
  assert (Hdecr : MaybeDecrTo 0 ci (p_set_RecentActive true prog) = (false, p_set_RecentActive true prog)).
  { unfold MaybeDecrTo. rewrite decide_False //. rewrite u64_small; [|simpl; lia].
    by rewrite (proj2 (Z.eqb_neq 0 (NextIndex (p_set_RecentActive true prog) - 1))); [|simpl; lia]. }
  unfold handleAppendResponse. cbn [m_From m_set_FromTerm m_Reject m_Index m_ConflictIndex].
  rewrite Hpr. by rewrite Hdecr.
Qed.

(** The leader [b] of [two_elections] and a node whose log is empty. *)
Definition lagging : Raft := n_raft (demo_node demo_init "a").
Definition probing : Raft :=
  set_progress {["a" := mkProgress 3 0 ProgressProbe 0 false]} (n_raft (demo_node (demo_run two_elections) "b")).
Definition probe : Message := mkMsg MsgAppend "a" "b" 2 0 2 2 [] 2 false 0 0 0 0 false false None false 0.

Lemma rejection_never_backs_up_witness :
  exists rj, handleAppendEntries probe lagging = Some (set_msgs (msgs lagging ++ [rj]) lagging) /\
    m_Reject rj = true /\ m_To rj = m_From probe /\
    handleAppendResponse rj probing =
      Some (set_prog (id lagging) (p_set_RecentActive true (mkProgress 3 0 ProgressProbe 0 false)) probing).
Proof.
  apply (rejection_never_backs_up lagging probing probe (mkProgress 3 0 ProgressProbe 0 false));
    [done|done|vm_compute; reflexivity..|done|done].
Defined.
