(* ===== verification/RaftTransport.v ===== *)
(** * RaftTransport: Raft over gRPC (pkg/server/node.go, pkg/server/handlers.go)

    The transport of the server turns the messages of a Raft node into calls
    of two remote procedures, whose handlers turn them back; the answer of a
    handler is the next message its node sends to the caller.  The messages of
    proto/raft.proto are records of the fields the code uses.  A state of
    [ssys] is a cluster of such nodes with every call and message so far. *)

From S2P Require Import Prelude Bytes RaftLog Raft RaftSpec RaftNode RaftSystem.

(** ** The messages of the protocol *)

Record pbLogEntry := mkPbEntry {
  pe_Index : Z;
  pe_Term : Z;
  pe_Type : Z;
  pe_Data : bytes;
}.

Record AppendEntriesRequest := mkAppendEntriesRequest {
  ar_Term : Z;
  ar_LeaderId : string;
  ar_PrevLogIndex : Z;
  ar_PrevLogTerm : Z;
  ar_Entries : list pbLogEntry;
  ar_LeaderCommit : Z;
}.

Record AppendEntriesResponse := mkAppendEntriesResponse {
  as_Term : Z;
  as_Success : bool;
  as_ConflictIndex : Z;
  as_ConflictTerm : Z;
  as_FollowerId : string;
}.

Record RequestVoteRequest := mkRequestVoteRequest {
  vr_Term : Z;
  vr_CandidateId : string;
  vr_LastLogIndex : Z;
  vr_LastLogTerm : Z;
  vr_PreVote : bool;
}.

Record RequestVoteResponse := mkRequestVoteResponse {
  vs_Term : Z;
  vs_VoteGranted : bool;
  vs_VoterId : string;
}.

(** The conversions between the two enumerations of entry types; a number
    without a name is handled as a normal entry. *)
Definition entry_type_number (t : EntryType) : Z :=
  match t with EntryNormal => 0 | EntryConfig => 1 | EntryBarrier => 2 | EntryNoop => 3 end.

Definition entry_type_of (n : Z) : EntryType :=
  if n =? 1 then EntryConfig else if n =? 2 then EntryBarrier else if n =? 3 then EntryNoop else EntryNormal.

Definition entry_to_pb (e : LogEntry) : pbLogEntry := mkPbEntry (le_Index e) (le_Term e) (entry_type_number (le_Type e)) (le_Data e).
Definition entry_of_pb (e : pbLogEntry) : LogEntry := mkEntry (pe_Index e) (pe_Term e) (entry_type_of (pe_Type e)) (pe_Data e).

(** ** The sender *)

Definition append_request (msg : Message) : AppendEntriesRequest :=
  mkAppendEntriesRequest (m_Term msg) (m_From msg) (m_LogIndex msg) (m_LogTerm msg) (map entry_to_pb (m_Entries msg)) (m_CommitIndex msg).

Definition vote_request (msg : Message) : RequestVoteRequest :=
  mkRequestVoteRequest (m_Term msg) (m_From msg) (m_LogIndex msg) (m_LogTerm msg) (m_PreVote msg).

(** What the goroutine of a call steps when its response arrives. *)
Definition append_reply (m : Message) (resp : AppendEntriesResponse) : Message :=
  mkMsg MsgAppendRsp (m_From m) (m_To m) (as_Term resp) 0 0 0 [] 0 (as_Success resp) (as_ConflictIndex resp) (as_ConflictTerm resp) 0 0
    false false None false 0.

Definition vote_reply (m : Message) (resp : RequestVoteResponse) : Message :=
  mkMsg (if m_PreVote m then MsgPreVoteRsp else MsgVoteRsp) (m_From m) (m_To m) (vs_Term resp) 0 0 0 [] 0 false 0 0 0 0
    (vs_VoteGranted resp) false None false 0.

(** A call in flight, with the message it came from. *)
Inductive rpc :=
  | RpcAppend (m : Message) (req : AppendEntriesRequest)
  | RpcVote (m : Message) (req : RequestVoteRequest).

Definition rpc_msg (c : rpc) : Message := match c with RpcAppend m _ => m | RpcVote m _ => m end.

(** The transport of a node: the peers its pool is connected to, and the
    channel that waits for the next message to a peer. *)
Record hermesRaftTransport := mkTransport {
  rt_pool : gset string;
  rt_pending : gmap string nat;
}.

(** What sending starts: calls, and messages put into channels. *)
Record sent := mkSent {
  st_trans : hermesRaftTransport;
  st_rpcs : list rpc;
  st_chans : list (nat * Message);
}.

Definition send_one (st : sent) (msg : Message) : sent :=
  let '(mkSent t rpcs chans) := st in
  if decide (m_To msg ∈ rt_pool t) then
    match m_Type msg with
    | MsgAppend | MsgHeartbeat => mkSent t (rpcs ++ [RpcAppend msg (append_request msg)]) chans
    | MsgVote | MsgPreVote => mkSent t (rpcs ++ [RpcVote msg (vote_request msg)]) chans
    | MsgAppendRsp | MsgVoteRsp | MsgPreVoteRsp =>
        match rt_pending t !! m_To msg with
        | Some ch => mkSent (mkTransport (rt_pool t) (delete (m_To msg) (rt_pending t))) rpcs (chans ++ [(ch, msg)])
        | None => st
        end
    | _ => st
    end
  else st.

Definition Transport_Send (msgs : list Message) (t : hermesRaftTransport) : sent := foldl send_one (mkSent t [] []) msgs.

Definition Transport_AddPeer (id : string) (t : hermesRaftTransport) : hermesRaftTransport := mkTransport ({[id]} ∪ rt_pool t) (rt_pending t).
Definition Transport_RemovePeer (id : string) (t : hermesRaftTransport) : hermesRaftTransport := mkTransport (rt_pool t ∖ {[id]}) (rt_pending t).

(** ** The handlers

    Each is cut at its wait: the message it steps with the channel it waits
    on, and the response it makes of what the channel holds. *)

Definition append_message (nodeID : string) (req : AppendEntriesRequest) : Message :=
  mkMsg MsgAppend nodeID (ar_LeaderId req) (ar_Term req) 0 (ar_PrevLogTerm req) (ar_PrevLogIndex req) (map entry_of_pb (ar_Entries req)) (ar_LeaderCommit req)
    false 0 0 0 0 false false None false 0.

Definition AppendEntries_start (nodeID : string) (ch : nat) (req : AppendEntriesRequest) (t : hermesRaftTransport) : Message * hermesRaftTransport :=
  (append_message nodeID req, mkTransport (rt_pool t) (<[ar_LeaderId req := ch]> (rt_pending t))).

Definition AppendEntries_finish (nodeID : string) (respMsg : Message) : AppendEntriesResponse :=
  mkAppendEntriesResponse (m_Term respMsg) (m_Success respMsg) (m_ConflictIndex respMsg) (m_ConflictTerm respMsg) nodeID.

Definition vote_message (nodeID : string) (req : RequestVoteRequest) : Message :=
  mkMsg (if vr_PreVote req then MsgPreVote else MsgVote) nodeID (vr_CandidateId req) (vr_Term req) 0 (vr_LastLogTerm req) (vr_LastLogIndex req) [] 0
    false 0 0 0 0 false (vr_PreVote req) None false 0.

Definition RequestVote_start (nodeID : string) (ch : nat) (req : RequestVoteRequest) (t : hermesRaftTransport) : Message * hermesRaftTransport :=
  (vote_message nodeID req, mkTransport (rt_pool t) (<[vr_CandidateId req := ch]> (rt_pending t))).

Definition RequestVote_finish (nodeID : string) (respMsg : Message) : RequestVoteResponse :=
  mkRequestVoteResponse (m_Term respMsg) (m_VoteGranted respMsg) nodeID.

(** The handler of a call up to its wait, and the message the caller steps
    once the channel holds [respMsg]. *)
Definition rpc_start (nodeID : string) (ch : nat) (c : rpc) (t : hermesRaftTransport) : Message * hermesRaftTransport :=
  match c with RpcAppend _ req => AppendEntries_start nodeID ch req t | RpcVote _ req => RequestVote_start nodeID ch req t end.

Definition rpc_finish (c : rpc) (respMsg : Message) : Message :=
  match c with
  | RpcAppend m _ => append_reply m (AppendEntries_finish (m_To m) respMsg)
  | RpcVote m _ => vote_reply m (RequestVote_finish (m_To m) respMsg)
  end.

(** ** Requests survive the transport *)

Lemma pb_entry_roundtrip e : entry_of_pb (entry_to_pb e) = e.
Proof. destruct e as [i t ty d]. by destruct ty. Qed.

(** An append arrives with the term, position, entries and commit index it was
    sent with, from the same sender. *)
Lemma append_roundtrip m : m_Type m = MsgAppend ->
  let m' := append_message (m_To m) (append_request m) in
  m_Type m' = MsgAppend /\ m_To m' = m_To m /\ m_From m' = m_From m /\ m_Term m' = m_Term m /\ m_LogIndex m' = m_LogIndex m /\
  m_LogTerm m' = m_LogTerm m /\ m_Entries m' = m_Entries m /\ m_CommitIndex m' = m_CommitIndex m.
Proof.
  intros Ht. cbn. split_and!; try done. rewrite map_map. rewrite -{2}(map_id (m_Entries m)). apply map_ext. apply pb_entry_roundtrip.
Qed.

(** ** Answers do not

    A Raft node that is told of no progress: commit and applied index are 0,
    and no other node is known to hold anything. *)

Record stalled (c : Config) (r : Raft) : Prop := {
  sk_config : config r = c;
  sk_id : id r = NodeID c;
  sk_committed : committed (log r) = 0;
  sk_applied : applied (log r) = 0;
  sk_match p pr : progress r !! p = Some pr -> 0 <= MatchIndex pr /\ (p <> NodeID c -> MatchIndex pr = 0);
  sk_leader : state r = Leader -> forall p, p ∈ NodeID c :: Peers c -> is_Some (progress r !! p);
  sk_msgs : Forall (fun m => m_CommitIndex m = 0) (msgs r);
}.

(** What the transport delivers: no commit index, no snapshot, no index in an
    answer. *)
Definition tame (m : Message) : Prop :=
  m_CommitIndex m = 0 /\ m_Type m <> MsgSnapshot /\ (m_Type m = MsgAppendRsp -> m_Index m = 0).

(** A cluster of at least three nodes. *)
Definition three (c : Config) : Prop := NoDup (NodeID c :: Peers c) /\ (2 <= length (Peers c))%nat.

Section stalled.
  Context `{R : Rand} (c : Config) (Hc : three c).

Lemma stk_send m r : m_CommitIndex m = 0 -> stalled c r -> stalled c (send m r).
Proof. intros Hm []. split; try done. cbn. apply Forall_app. split; [done|]. by constructor. Qed.

(** Fields that do not matter. *)
Lemma stk_fields r r' : stalled c r -> config r' = config r -> id r' = id r -> log r' = log r -> progress r' = progress r -> msgs r' = msgs r ->
  (state r' = Leader -> state r = Leader) -> stalled c r'.
Proof. intros [] H1 H2 H3 H4 H5 H6. split; rewrite ?H1 ?H2 ?H3 ?H4 ?H5; auto. Qed.

Lemma stk_log l r : committed l = committed (log r) -> applied l = applied (log r) -> stalled c r -> stalled c (set_log l r).
Proof. intros Hl Ha []. split; cbn; auto; congruence. Qed.

Lemma stk_reset r r' : stalled c r -> resetElectionTimeout r = Some r' -> stalled c r'.
Proof. intros Hr H. unfold resetElectionTimeout in H. destruct (_ <=? 0); simplify_eq. by eapply stk_fields. Qed.

Lemma stk_follower t l r r' : stalled c r -> becomeFollower t l r = Some r' -> stalled c r'.
Proof.
  intros Hr H. unfold becomeFollower in H. eapply stk_reset; [|exact H]. destruct (_ <? _); by eapply stk_fields.
Qed.

Lemma stk_candidate r r' : stalled c r -> becomeCandidate r = Some r' -> stalled c r'.
Proof.
  intros Hr H. unfold becomeCandidate in H. case_decide; [done|]. eapply stk_reset; [|exact H]. by eapply stk_fields.
Qed.

Lemma stk_heartbeat to r : stalled c r -> stalled c (sendHeartbeat to r).
Proof. intros Hr. apply stk_send; [|done]. apply Hr. Qed.

Lemma stk_sendAppend to r r' : stalled c r -> sendAppendEntries to r = Some r' -> stalled c r'.
Proof.
  intros Hr H. unfold sendAppendEntries in H. destruct (progress r !! to); [|by simplify_eq]. case_decide; [by simplify_eq|].
  apply bind_Some in H as (es & _ & H). simplify_eq. apply stk_send; [|done]. apply Hr.
Qed.

Lemma stk_broadcast hb r r' : stalled c r -> broadcastAppendEntries hb r = Some r' -> stalled c r'.
Proof.
  intros Hr H. unfold broadcastAppendEntries in H. eapply (for_each_inv (stalled c)); [|exact Hr|exact H]. intros p s s' _ Hs Hx.
  destruct hb; [simplify_eq; by apply stk_heartbeat|by eapply stk_sendAppend].
Qed.

Lemma AppendOne_indexes e l l' : AppendOne e l = Some l' -> committed l' = committed l /\ applied l' = applied l.
Proof. unfold AppendOne. destruct (_ =? _); intros; by simplify_eq. Qed.

Lemma Append_loop_indexes es l l' : Append_loop es l = Some l' -> committed l' = committed l /\ applied l' = applied l.
Proof.
  induction es as [|e es IH]; intros H; cbn in H; [by simplify_eq|]. destruct (_ <=? lastIndex l); [|by simplify_eq].
  destruct (_ =? _); [by apply IH|]. destruct (_ <=? _); by simplify_eq.
Qed.

Lemma leader_progress_lookup (r : Raft) last p pr : leader_progress r last !! p = Some pr ->
  (p ∈ Peers (config r) /\ MatchIndex pr = 0) \/ (p = id r /\ MatchIndex pr = last) \/ progress r !! p = Some pr.
Proof.
  unfold leader_progress. set (own := mkProgress _ last _ _ _).
  enough (forall l (pm : gmap string Progress), foldl (fun pm peer => <[peer := mkProgress (u64 (last + 1)) 0 ProgressProbe 0 false]> pm) pm l !! p = Some pr ->
    (p ∈ l /\ MatchIndex pr = 0) \/ pm !! p = Some pr) as H.
  { intros [?|Hp]%H; [by left|]. destruct (decide (p = id r)) as [->|Hne]; [|rewrite lookup_insert_ne in Hp; auto].
    rewrite lookup_insert_eq in Hp. simplify_eq. auto. }
  induction l as [|q l IH]; intros pm Hp; [by right|]. cbn in Hp. apply IH in Hp as [[? ?]|Hp]; [left; split; [by right|done]|].
  destruct (decide (p = q)) as [->|Hne]; [|rewrite lookup_insert_ne in Hp; auto]. rewrite lookup_insert_eq in Hp. simplify_eq. left. split; [by left|done].
Qed.

Lemma leader_progress_dom (r : Raft) last p : p ∈ id r :: Peers (config r) -> is_Some (leader_progress r last !! p).
Proof.
  unfold leader_progress. intros Hp.
  enough (forall l (pm : gmap string Progress), p ∈ l \/ is_Some (pm !! p) ->
    is_Some (foldl (fun pm peer => <[peer := mkProgress (u64 (last + 1)) 0 ProgressProbe 0 false]> pm) pm l !! p)) as H.
  { apply H. apply elem_of_cons in Hp as [->|?]; [right; by rewrite lookup_insert_eq|by left]. }
  induction l as [|q l IH]; intros pm Hq; cbn; [destruct Hq as [?%elem_of_nil|?]; done|]. apply IH. destruct Hq as [[->|?]%elem_of_cons|?]; auto.
  - right. by rewrite lookup_insert_eq.
  - right. by apply lookup_insert_is_Some'; auto.
Qed.

Lemma lastIndex_nonneg l : 0 <= lastIndex l.
Proof. apply u64_range. Qed.

Lemma stk_leader r r' : stalled c r -> becomeLeader r = Some r' -> stalled c r'.
Proof.
  intros Hr H. unfold becomeLeader in H. case_decide; [|done]. apply bind_Some in H as (r1 & H1 & H). eapply stk_broadcast; [|exact H].
  unfold appendEntry in H1. apply bind_Some in H1 as (l & Hl & H1). simplify_eq. apply AppendOne_indexes in Hl as [Hl1 Hl2]. cbn in Hl1, Hl2.
  apply stk_log; [done|done|]. destruct Hr as [Hcf Hid Hcm Hap Hma Hle Hms]. split; cbn; try done.
  - intros p pr Hp. apply leader_progress_lookup in Hp as [[Hin ->]|[[-> ->]|Hp]]; cbn in *; [done| |by apply Hma].
    split; [apply lastIndex_nonneg|]. congruence.
  - intros _ p Hp. apply leader_progress_dom. cbn. by rewrite Hid Hcf.
Qed.

Lemma stk_campaign r r' : stalled c r -> campaign r = Some r' -> stalled c r'.
Proof.
  intros Hr H. unfold campaign in H. apply bind_Some in H as (r1 & H1 & H). apply stk_candidate in H1; [|done].
  destruct (Peers (config r1)) as [|p ps]; [by eapply stk_leader|]. simplify_eq. generalize (p :: ps). intros l.
  set (li := lastIndex _). set (lt := LastTerm _). clearbody li lt. clear p ps.
  revert r1 H1. induction l as [|q l IH]; intros r1 H1; [done|]. cbn. apply IH. by apply stk_send.
Qed.

Lemma stk_tick r r' : stalled c r -> Tick r = Some r' -> stalled c r'.
Proof.
  intros Hr H. unfold Tick, tickHeartbeat, tickElection in H.
  destruct (state r) eqn:Hs; cbn in H; destruct (_ <=? _); simplify_eq; try (by eapply stk_fields);
    try (eapply stk_campaign; [|exact H]; by eapply stk_fields). eapply stk_broadcast; [|exact H]. by eapply stk_fields.
Qed.

(** Without the count of a third node nothing is committed. *)
Lemma MaybeCommit_stalled ms t l : committed l = 0 -> 3 <= commit_majority ms -> (forall n, 0 < n -> commit_count ms n <= 2) ->
  forall fuel n, MaybeCommit_loop fuel ms t n l = (false, l).
Proof.
  intros Hcm Hmaj Hcnt. induction fuel as [|fuel IH]; intros n; [done|]. cbn. rewrite Hcm. destruct (Z.leb_spec n 0); [done|].
  specialize (Hcnt n ltac:(lia)). destruct (Z.leb_spec (commit_majority ms) (commit_count ms n)); [lia|]. apply IH.
Qed.

Lemma length_filter_fmap {A B} (f : A -> B) (P : B -> Prop) `{!forall x, Decision (P x)} l :
  length (filter P (f <$> l)) = length (filter (fun x => P (f x)) l).
Proof. induction l as [|x l IH]; [done|]. rewrite fmap_cons !filter_cons. case_decide; cbn; congruence. Qed.

Lemma own_match_only (pm : gmap string Progress) self n : 0 < n ->
  (forall p pr, pm !! p = Some pr -> p <> self -> MatchIndex pr = 0) -> commit_count ((fun x => MatchIndex x.2) <$> map_to_list pm) n <= 2.
Proof.
  intros Hn Hm. rewrite commit_count_holders. unfold holders, zlen. rewrite length_filter_fmap.
  set (l := filter _ _). assert (Hl : forall x, x ∈ l -> x.1 = self).
  { intros [p pr] [Hx Hin%elem_of_map_to_list]%list_elem_of_filter. cbn in *. destruct (decide (p = self)); [done|].
    rewrite (Hm p pr) // in Hx. lia. }
  assert (Hnd : NoDup l.*1) by (apply NoDup_fst_filter, NoDup_fst_map_to_list).
  destruct l as [|x [|y l]]; cbn; [lia|lia|]. exfalso. cbn in Hnd. apply NoDup_cons in Hnd as [Hni _]. apply Hni.
  rewrite (Hl x) ?(Hl y); set_solver.
Qed.

Lemma stk_maybeCommit r : stalled c r -> state r = Leader -> stalled c (maybeCommit r).
Proof.
  intros Hr Hs. pose proof Hr as [Hcf Hid Hcm Hap Hma Hle Hms]. unfold maybeCommit, MaybeCommit. rewrite MaybeCommit_stalled; [by apply stk_log|done| |].
  - destruct Hc as [Hnd Hlen]. unfold commit_majority, zlen. rewrite length_fmap.
    assert (NodeID c :: Peers c ⊆+ (map_to_list (progress r)).*1) as Hsub%submseteq_length.
    { apply NoDup_submseteq; [done|]. intros p Hp. destruct (Hle Hs p Hp) as [pr Hpr]. apply list_elem_of_fmap. exists (p, pr). split; [done|].
      by apply elem_of_map_to_list. }
    rewrite length_fmap in Hsub. cbn in Hsub. assert (2 <= (Z.of_nat (length (map_to_list (progress r))) + 1) / 2) by (apply Z.div_le_lower_bound; lia). lia.
  - intros n Hn. apply (own_match_only _ (NodeID c)); [done|]. intros p pr Hp. by apply Hma.
Qed.

(** A change of one peer's progress that is no news. *)
Lemma stk_set_prog p pr r : 0 <= MatchIndex pr -> (p <> NodeID c -> MatchIndex pr = 0) -> stalled c r -> stalled c (set_prog p pr r).
Proof.
  intros H0 Hp [Hcf Hid Hcm Hap Hma Hle Hms]. split; cbn; try done.
  - intros q qr Hq. destruct (decide (p = q)) as [->|Hne]; [rewrite lookup_insert_eq in Hq; by simplify_eq|].
    rewrite lookup_insert_ne // in Hq. by apply Hma.
  - intros Hs q Hq. destruct (decide (p = q)) as [->|Hne]; [by rewrite lookup_insert_eq|]. rewrite lookup_insert_ne //. by apply Hle.
Qed.

Lemma for_each_AppendOne_indexes es l l' : for_each AppendOne es l = Some l' -> committed l' = committed l /\ applied l' = applied l.
Proof.
  intros H. apply (for_each_inv (fun x => committed x = committed l /\ applied x = applied l)) in H; [done| |done].
  intros e s s' _ [? ?] [? ?]%AppendOne_indexes. split; congruence.
Qed.

Lemma broadcast_state hb r r' : broadcastAppendEntries hb r = Some r' -> state r' = state r.
Proof.
  intros H. unfold broadcastAppendEntries in H. apply (for_each_inv (fun x => state x = state r)) in H; [done| |done].
  intros p s s' _ Hs Hx. destruct hb; [by simplify_eq|]. unfold sendAppendEntries in Hx. destruct (progress s !! p); [|by simplify_eq].
  case_decide; [by simplify_eq|]. apply bind_Some in Hx as (es & _ & Hx). by simplify_eq.
Qed.

Lemma stk_proposal m r r' : stalled c r -> state r = Leader -> handleProposal m r = Some r' -> stalled c r'.
Proof.
  intros Hr Hs H. unfold handleProposal in H. apply bind_Some in H as (l & Hl & H). apply for_each_AppendOne_indexes in Hl as [Hl1 Hl2].
  assert (Hlog : stalled c (set_log l r)) by by apply stk_log.
  apply bind_Some in H as (r2 & H2 & H). simplify_eq. cbn [progress set_log id log] in H2.
  apply stk_maybeCommit; [eapply stk_broadcast; [|exact H2]|rewrite (broadcast_state _ _ _ H2)]; destruct (progress r !! id r) as [pr|] eqn:Hp; try done.
  apply (stk_set_prog (id r) (snd (MaybeUpdate (lastIndex l) pr)) (set_log l r)); [| |done].
  - unfold MaybeUpdate. destruct (_ <=? _); cbn; [by apply (sk_match _ _ Hr _ _ Hp)|apply lastIndex_nonneg].
  - intros Hne. by destruct Hne; apply Hr.
Qed.

Lemma stk_appendEntries m r r' : tame m -> stalled c r -> handleAppendEntries m r = Some r' -> stalled c r'.
Proof.
  intros (Hm & _) Hr H. unfold handleAppendEntries in H. destruct (_ <? _); [simplify_eq; by apply stk_send|].
  destruct (negb _); [destruct (findConflict _ _); cbn in H; injection H as <-; by apply stk_send|].
  apply bind_Some in H as (r1 & H1 & H). assert (Hr1 : stalled c r1).
  { destruct (m_Entries m); [by simplify_eq|]. apply bind_Some in H1 as ([i l'] & Hl & H1). simplify_eq.
    unfold Append in Hl. apply bind_Some in Hl as (l'' & Hl%Append_loop_indexes & ?). simplify_eq. apply stk_log; [apply Hl..|done]. }
  apply bind_Some in H as (r2 & H2 & H). assert (Hr2 : stalled c r2).
  { cbn in H2. rewrite Hm (sk_committed _ _ Hr1) in H2. cbn in H2. by simplify_eq. }
  simplify_eq. by apply stk_send.
Qed.

Lemma stk_appendResponse m r r' : tame m -> m_Type m = MsgAppendRsp -> stalled c r -> handleAppendResponse m r = Some r' -> stalled c r'.
Proof.
  intros (_ & _ & Hm) Ht Hr H. specialize (Hm Ht). unfold handleAppendResponse in H. destruct (progress r !! m_From m) as [pr|] eqn:Hp; [|by simplify_eq].
  destruct (sk_match _ _ Hr _ _ Hp) as [H0 Hpr]. destruct (m_Reject m).
  - assert (MatchIndex (snd (MaybeDecrTo (m_Index m) (m_ConflictIndex m) (p_set_RecentActive true pr))) = MatchIndex pr) as Hd.
    { unfold MaybeDecrTo. case_decide; [done|]. destruct (negb _); [done|]. by destruct (_ <? NextIndex _). }
    destruct (MaybeDecrTo _ _ _) as [ok pr']. cbn in Hd. assert (stalled c (set_prog (m_From m) pr' r)) by (apply stk_set_prog; [lia|rewrite Hd; auto|done]).
    destruct ok; [by eapply stk_sendAppend|by simplify_eq].
  - unfold MaybeUpdate in H. rewrite Hm in H. cbn in H. destruct (Z.leb_spec 0 (MatchIndex pr)); [|lia]. simplify_eq. by apply stk_set_prog.
Qed.

Lemma stk_heartbeatMsg m r r' : tame m -> stalled c r -> handleHeartbeat m r = Some r' -> stalled c r'.
Proof.
  intros (Hm & _) Hr H. unfold handleHeartbeat in H. apply bind_Some in H as (r1 & H1 & H). cbn in H1. rewrite Hm (sk_committed _ _ Hr) in H1. cbn in H1.
  simplify_eq. apply stk_send; [|done]. apply Hr.
Qed.

Lemma stk_voteRequest m r : stalled c r -> stalled c (handleVoteRequest m r).
Proof.
  intros Hr. unfold handleVoteRequest. destruct (_ && _); apply stk_send; try done. destruct (m_PreVote m); by eapply stk_fields.
Qed.

Lemma stk_voteResponse m r r' : stalled c r -> handleVoteResponse m r = Some r' -> stalled c r'.
Proof.
  intros Hr H. unfold handleVoteResponse in H. destruct (m_VoteGranted m); [|simplify_eq; by eapply stk_fields].
  assert (Hr1 : stalled c (set_votes (<[m_From m := true]> (votes r)) r)) by by eapply stk_fields.
  destruct (hasQuorum _ _); [|by simplify_eq]. destruct (m_PreVote m); [by eapply stk_campaign|by eapply stk_leader].
Qed.

Lemma stk_readIndex m r r' : stalled c r -> handleReadIndex m r = Some r' -> stalled c r'.
Proof.
  intros Hr H. unfold handleReadIndex in H. destruct (m_Entries m) as [|e es]; [done|]. simplify_eq. unfold broadcastHeartbeat.
  set (r1 := set_readOnly _ r). assert (Hr1 : stalled c r1) by by eapply stk_fields. clearbody r1.
  generalize (Peers (config r1)). intros ps. revert r1 Hr1. induction ps as [|p ps IH]; intros r1 Hr1; [done|]. cbn. apply IH. by apply stk_heartbeat.
Qed.

Lemma ok_Some x e r' : ok x = Some (e, r') -> x = Some r'.
Proof. unfold ok. destruct x; cbn; intros; by simplify_eq. Qed.

Lemma stk_stepFollower m r e r' : tame m -> stalled c r -> stepFollower m r = Some (e, r') -> stalled c r'.
Proof.
  intros Hm Hr H. unfold stepFollower in H.
  assert (Hl : stalled c (set_lead (m_From m) (set_electionElapsed 0 r))) by by eapply stk_fields.
  destruct (m_Type m) eqn:Ht; try apply ok_Some in H; simplify_eq; try done.
  - by eapply stk_heartbeatMsg.
  - by eapply stk_appendEntries.
  - by apply stk_voteRequest.
  - by apply stk_voteRequest.
  - destruct (_ =?s _); [by simplify_eq|]. apply ok_Some in H. simplify_eq. apply stk_send; [apply Hm|done].
  - by destruct (proj1 (proj2 Hm)).
  - by eapply stk_campaign.
Qed.

Lemma stk_stepCandidate m r e r' : tame m -> stalled c r -> stepCandidate m r = Some (e, r') -> stalled c r'.
Proof.
  intros Hm Hr H. unfold stepCandidate in H. destruct (m_Type m) eqn:Ht; try apply ok_Some in H; simplify_eq; try done.
  - apply bind_Some in H as (r1 & H1%stk_follower & H); [|done]. by eapply stk_heartbeatMsg.
  - apply bind_Some in H as (r1 & H1%stk_follower & H); [|done]. by eapply stk_appendEntries.
  - by apply stk_voteRequest.
  - by eapply stk_voteResponse.
  - by eapply stk_voteResponse.
Qed.

Lemma stk_stepLeader m r e r' : tame m -> stalled c r -> state r = Leader -> stepLeader m r = Some (e, r') -> stalled c r'.
Proof.
  intros Hm Hr Hs H. unfold stepLeader in H. destruct (m_Type m) eqn:Ht; try apply ok_Some in H; simplify_eq; try done.
  - destruct (progress r !! m_From m) as [pr|] eqn:Hp; [|by simplify_eq]. apply ok_Some in H. destruct (sk_match _ _ Hr _ _ Hp).
    assert (stalled c (set_prog (m_From m) (p_set_RecentActive true pr) r)) by by apply stk_set_prog.
    destruct (_ <? _); [by eapply stk_sendAppend|by simplify_eq].
  - by eapply stk_appendResponse.
  - by apply stk_voteRequest.
  - by apply stk_voteRequest.
  - destruct (m_Entries m); [by simplify_eq|]. apply ok_Some in H. by eapply stk_proposal.
  - by eapply stk_readIndex.
  - destruct (progress r !! m_From m) as [pr|] eqn:Hp; [|by simplify_eq]. case_decide; simplify_eq; [|done].
    destruct (sk_match _ _ Hr _ _ Hp). by apply stk_set_prog.
Qed.

Lemma stk_Step m r e r' : tame m -> stalled c r -> Step m r = Some (e, r') -> stalled c r'.
Proof.
  intros Hm Hr H. assert (Hstep : forall r1, stalled c r1 -> step m r1 = Some (e, r') -> stalled c r').
  { intros r1 Hr1 H1. unfold step in H1. destruct (state r1) eqn:Hs; [by eapply stk_stepFollower|by eapply stk_stepCandidate|by eapply stk_stepLeader]. }
  unfold Step in H. destruct (_ =? 0); [by eapply Hstep|]. destruct (term r <? _).
  - destruct (is_vote_req _); [by eapply Hstep|]. apply bind_Some in H as (r1 & H1%stk_follower & H); [|done]. by eapply Hstep.
  - destruct (_ <? term r); [by simplify_eq|by eapply Hstep].
Qed.

(** A node that has applied nothing. *)
Definition node_stalled (n : RaftNode) : Prop := stalled c (n_raft n) /\ n_storage n = Some [] /\ n_config n = c.

Lemma stk_ready n n' out : node_stalled n -> ready_phase n = Some (n', out) -> node_stalled n' /\ Forall (fun m => m_CommitIndex m = 0) out.
Proof.
  intros (Hr & Hst & Hcf) H. unfold ready_phase in H. apply bind_Some in H as ([ready r] & Hready & H).
  unfold TakeReady in Hready. apply bind_Some in Hready as (es & _ & Hready). apply bind_Some in Hready as (ces & Hces & Hready).
  cbn [Stats ls_AppliedIndex ls_CommitIndex] in Hces. rewrite (sk_committed _ _ Hr) (sk_applied _ _ Hr) in Hces. cbn in Hces. simplify_eq. cbn in Hready. simplify_eq.
  assert (Hr1 : stalled c (set_msgs [] (n_raft n))) by (destruct Hr; by split). destruct (Ready_IsEmpty _); [by simplify_eq|].
  apply bind_Some in H as ([n1 out1] & H1 & H). unfold processReady in H1. cbn in H1. simplify_eq.
  assert (forall x, node_stalled x -> node_stalled (notify_leader x)) as Hnl by (intros x (?&?&?); unfold notify_leader; by destruct (_ =?s _)).
  split; [|apply Hr]. apply Hnl. by destruct es.
Qed.

Definition event_tame (ev : event) : Prop := match ev with EvStep m => tame m | _ => True end.

Lemma stk_round ev n err n' out : event_tame ev -> node_stalled n -> run_round ev n = Some (err, n', out) ->
  node_stalled n' /\ Forall (fun m => m_CommitIndex m = 0) out.
Proof.
  intros Hev Hn H. unfold run_round in H. apply bind_Some in H as ([[err1 n1] out1] & H1 & H). apply bind_Some in H as ([n2 out2] & H2 & H). simplify_eq.
  enough (node_stalled n1 /\ Forall (fun m => m_CommitIndex m = 0) out1) as [Hn1 Ho1].
  { apply stk_ready in H2 as [? ?]; [|done]. split; [done|]. by apply Forall_app. }
  assert (Hset : forall r, stalled c r -> node_stalled (n_set_raft r n)) by (intros r Hr; by destruct Hn as (_ & ? & ?)).
  destruct ev as [|es|m]; cbn [handle_event] in H1.
  - apply bind_Some in H1 as (r & Hr%stk_tick & H1); [|apply Hn]. simplify_eq. split; [by apply Hset|done].
  - apply bind_Some in H1 as ([e r] & Hr%stk_Step & H1); [| |apply Hn]; [|by split_and!].
    destruct e; simplify_eq; [split; [by apply Hset|done]|]. apply bind_Some in H1 as ([n3 out3] & H3 & H1). simplify_eq.
    eapply stk_ready; [|exact H3]. by apply Hset.
  - apply bind_Some in H1 as ([e r] & Hr%stk_Step & H1); [|done|apply Hn]. simplify_eq. split; [by apply Hset|done].
Qed.

End stalled.

(** ** A cluster of servers

    Calls, waiting handlers, filled channels and stepped messages are all kept:
    a call may be served late, several times (the client retries) or never,
    and so may an answer be stepped. *)

Record snode := mkSnode {
  sn_node : RaftNode;
  sn_trans : hermesRaftTransport;
}.

Record ssys := mkSsys {
  y_nodes : gmap string snode;
  y_rpcs : list (string * rpc);
  y_waiting : list (nat * nat);
  y_chans : gmap nat Message;
  y_inbox : list (string * Message);
  y_fresh : nat;
}.

Inductive saction :=
  | SConnect (n peer : string)
  | SDisconnect (n peer : string)
  | STick (n : string)
  | SPropose (n : string) (data : bytes)
  | SUnreachable (n from : string)
  | SDeliver (k : nat)
  | SServe (k : nat)
  | SReply (k : nat).

(** The message a server steps when a member is reported dead. *)
Definition unreachable_msg (from : string) : Message := mkMsg MsgUnreachable "" from 0 0 0 0 [] 0 false 0 0 0 0 false false None false 0.

Definition set_trans (n : string) (t : hermesRaftTransport) (sn : snode) (y : ssys) : ssys :=
  mkSsys (<[n := mkSnode (sn_node sn) t]> (y_nodes y)) (y_rpcs y) (y_waiting y) (y_chans y) (y_inbox y) (y_fresh y).

Section servers.
  Context `{R : Rand}.

(** One round of a node's loop with the sending it does; the result is that of
    a proposal. *)
Definition server_round (n : string) (ev : event) (y : ssys) : option (option RaftError * ssys) :=
  sn ← y_nodes y !! n;
  '(err, node, out) ← run_round ev (sn_node sn);
  let '(mkSent t rpcs chans) := Transport_Send out (sn_trans sn) in
  Some (err, mkSsys (<[n := mkSnode node t]> (y_nodes y)) (y_rpcs y ++ map (pair n) rpcs) (y_waiting y)
               (foldl (fun cs x => <[x.1 := x.2]> cs) (y_chans y) chans) (y_inbox y) (y_fresh y)).

Definition server_step (a : saction) (y : ssys) : option (option RaftError * ssys) :=
  match a with
  | SConnect n peer => sn ← y_nodes y !! n; Some (None, set_trans n (Transport_AddPeer peer (sn_trans sn)) sn y)
  | SDisconnect n peer => sn ← y_nodes y !! n; Some (None, set_trans n (Transport_RemovePeer peer (sn_trans sn)) sn y)
  | STick n => server_round n EvTick y
  | SPropose n data => server_round n (Propose data) y
  | SUnreachable n from => server_round n (EvStep (unreachable_msg from)) y
  | SDeliver k => '(n, m) ← y_inbox y !! k; server_round n (EvStep m) y
  | SServe k =>
      '(_, call) ← y_rpcs y !! k;
      let n := m_To (rpc_msg call) in
      sn ← y_nodes y !! n;
      let '(m, t) := rpc_start n (y_fresh y) call (sn_trans sn) in
      Some (None, mkSsys (<[n := mkSnode (sn_node sn) t]> (y_nodes y)) (y_rpcs y) (y_waiting y ++ [(k, y_fresh y)]) (y_chans y) (y_inbox y ++ [(n, m)]) (S (y_fresh y)))
  | SReply k =>
      '(i, ch) ← y_waiting y !! k;
      '(caller, call) ← y_rpcs y !! i;
      respMsg ← y_chans y !! ch;
      Some (None, mkSsys (y_nodes y) (y_rpcs y) (y_waiting y) (y_chans y) (y_inbox y ++ [(caller, rpc_finish call respMsg)]) (y_fresh y))
  end.

(** The results of the proposals that were made, and the state reached. *)
Fixpoint server_run (acts : list saction) (y : ssys) : option (list (option RaftError) * ssys) :=
  match acts with
  | [] => Some ([], y)
  | a :: acts =>
      '(err, y) ← server_step a y; '(errs, y) ← server_run acts y;
      Some (match a with SPropose _ _ => err :: errs | _ => errs end, y)
  end.

Definition add_server (conf : string -> Config) (n : string) (y : ssys) : option ssys :=
  node ← NewRaftNode (conf n) true;
  Some (mkSsys (<[n := mkSnode node (mkTransport ∅ ∅)]> (y_nodes y)) (y_rpcs y) (y_waiting y) (y_chans y) (y_inbox y) (y_fresh y)).

Definition servers (ids : list string) (conf : string -> Config) : option ssys := for_each (add_server conf) ids (mkSsys ∅ [] [] ∅ [] 0).

(** ** Nothing is ever applied *)

Section never.
  Context (conf : string -> Config).

Definition rpc_tame (x : string * rpc) : Prop := match x.2 with RpcAppend _ req => ar_LeaderCommit req = 0 | RpcVote _ _ => True end.

Record sys_stalled (y : ssys) : Prop := {
  ys_nodes n sn : y_nodes y !! n = Some sn -> three (conf n) /\ node_stalled (conf n) (sn_node sn);
  ys_rpcs : Forall rpc_tame (y_rpcs y);
  ys_inbox : Forall (fun x => tame x.2) (y_inbox y);
}.

Lemma nodes_insert y n sn : three (conf n) -> node_stalled (conf n) (sn_node sn) ->
  (forall n sn, y_nodes y !! n = Some sn -> three (conf n) /\ node_stalled (conf n) (sn_node sn)) ->
  forall k sk, <[n := sn]> (y_nodes y) !! k = Some sk -> three (conf k) /\ node_stalled (conf k) (sn_node sk).
Proof. intros H3 Hn Hy k sk [[<- <-]|[_ Hk]]%lookup_insert_Some; [done|by apply Hy]. Qed.

Lemma send_tame out st : Forall (fun m => m_CommitIndex m = 0) out -> Forall (fun x => rpc_tame (EmptyString, x)) (st_rpcs st) ->
  Forall (fun x => rpc_tame (EmptyString, x)) (st_rpcs (foldl send_one st out)).
Proof.
  intros Hout. revert st. induction Hout as [|m out Hm Hout IH]; intros st Hst; [done|]. cbn. apply IH. unfold send_one. destruct st as [t rpcs chans]. cbn in Hst.
  case_decide; [|done]. destruct (m_Type m); try done; try (apply Forall_app; split; [done|by constructor]); by destruct (_ !! _).
Qed.

Lemma round_stalled n ev err y y' : sys_stalled y -> event_tame ev -> server_round n ev y = Some (err, y') -> sys_stalled y'.
Proof.
  intros [Hn Hr Hi] Hev H. unfold server_round in H. apply bind_Some in H as (sn & Hsn & H). apply bind_Some in H as ([[err1 node] out] & Hround & H).
  destruct (Hn _ _ Hsn) as [H3 Hns]. destruct (stk_round _ H3 _ _ _ _ _ Hev Hns Hround) as [Hnode Hout].
  pose proof (send_tame out (mkSent (sn_trans sn) [] []) Hout ltac:(constructor)) as Hs. unfold Transport_Send in H.
  destruct (foldl send_one _ _) as [t rpcs chans]. cbn in Hs. simplify_eq. split; cbn; [by apply nodes_insert| |done].
  apply Forall_app. split; [done|]. by apply Forall_map.
Qed.

Lemma start_tame n ch k call t : rpc_tame (k, call) -> tame (rpc_start n ch call t).1.
Proof.
  unfold rpc_tame, tame. destruct call as [m req|m req]; cbn; intros Hcall; [by split_and!|]. by destruct (vr_PreVote req).
Qed.

Lemma finish_tame call respMsg : tame (rpc_finish call respMsg).
Proof. unfold tame. destruct call as [m req|m req]; cbn; [by split_and!|]. by destruct (m_PreVote m). Qed.

Lemma step_stalled a err y y' : sys_stalled y -> server_step a y = Some (err, y') -> sys_stalled y'.
Proof.
  intros Hy H. pose proof Hy as [Hn Hr Hi]. destruct a as [n p|n p|n|n d|n f|k|k|k]; cbn [server_step] in H.
  1, 2: apply bind_Some in H as (sn & Hsn & H); simplify_eq; destruct (Hn _ _ Hsn); split; cbn; [by apply nodes_insert|done|done].
  1, 2: (eapply round_stalled; [done| |exact H]; done).
  - eapply round_stalled; [done| |exact H]. by split_and!.
  - apply bind_Some in H as ([n m] & Hk & H). eapply round_stalled; [done| |exact H]. rewrite Forall_forall in Hi.
    apply (Hi (n, m)). by eapply list_elem_of_lookup_2.
  - apply bind_Some in H as ([caller call] & Hk & H). apply bind_Some in H as (sn & Hsn & H).
    destruct (rpc_start _ _ _ _) as [m t] eqn:Hstart. simplify_eq. destruct (Hn _ _ Hsn). split; cbn; [by apply nodes_insert|done|].
    apply Forall_app. split; [done|]. constructor; [|done]. cbn. replace m with (rpc_start (m_To (rpc_msg call)) (y_fresh y) call (sn_trans sn)).1 by by rewrite Hstart.
    apply (start_tame _ _ caller). rewrite Forall_forall in Hr. apply Hr. by eapply list_elem_of_lookup_2.
  - apply bind_Some in H as ([i ch] & Hk & H). apply bind_Some in H as ([caller call] & Hc & H). apply bind_Some in H as (respMsg & Hm & H). simplify_eq.
    split; cbn; [done|done|]. apply Forall_app. split; [done|]. constructor; [apply finish_tame|done].
Qed.

Lemma run_stalled acts errs y y' : sys_stalled y -> server_run acts y = Some (errs, y') -> sys_stalled y'.
Proof.
  revert errs y. induction acts as [|a acts IH]; intros errs y Hy H; cbn in H; [by simplify_eq|].
  apply bind_Some in H as ([err y1] & H1 & H). apply bind_Some in H as ([errs1 y2] & H2 & H). simplify_eq. eapply IH; [|exact H2]. by eapply step_stalled.
Qed.

Lemma servers_stalled ids y : Forall (fun n => three (conf n)) ids -> servers ids conf = Some y -> sys_stalled y.
Proof.
  intros Hids H. rewrite Forall_forall in Hids. unfold servers in H. apply (for_each_inv sys_stalled) in H; [done| |by split].
  intros n s s' Hn [Hs Hr Hi] Hadd. unfold add_server in Hadd. apply bind_Some in Hadd as (node & Hnode & Hadd). simplify_eq.
  split; cbn; [|done|done]. apply nodes_insert; [by apply Hids| |done]. unfold NewRaftNode in Hnode. apply bind_Some in Hnode as (r & Hr1 & Hnode). simplify_eq.
  split_and!; [|done|done]. unfold NewRaft in Hr1. cbn [sn_node n_raft]. eapply stk_follower; [|exact Hr1]. by split.
Qed.

(** C31: a cluster of three or more servers connected by the gRPC transport
    never applies a write.  The response message carries neither the index an
    append reached nor its rejection, so a leader never learns that another
    node holds an entry: whatever is connected, delivered, repeated or lost, no
    node ever commits an entry or calls its state machine, although proposals
    are accepted. *)
Theorem grpc_cluster_never_applies (ids : list string) (acts : list saction) (y0 : ssys) (errs : list (option RaftError)) (y : ssys)
  (Hids : Forall (fun n => three (conf n)) ids) (Hinit : servers ids conf = Some y0) (Hrun : server_run acts y0 = Some (errs, y))
  (n : string) (sn : snode) (Hn : y_nodes y !! n = Some sn) :
  committed (log (n_raft (sn_node sn))) = 0 /\ n_storage (sn_node sn) = Some [].
Proof.
  destruct (ys_nodes _ (run_stalled _ _ _ _ (servers_stalled _ _ Hids Hinit) Hrun) _ _ Hn) as (_ & Hr & Hst & _). split; [apply Hr|done].
Qed.

End never.

End servers.

(** ** A run of three servers *)

#[local] Existing Instance zero_rand.

Definition connect_all : list saction := flat_map (fun n => SConnect n <$> filter (fun p => p <> n) demo_ids) demo_ids.

(** [a] wins the election with the vote of [b], accepts a proposal and
    replicates it to both others, whose answers arrive. *)
Definition put_run : list saction :=
  connect_all ++ replicate 10 (STick "a") ++ [SServe 0; SDeliver 0; SReply 0; SDeliver 1] ++
  [SPropose "a" (bytes_of_string "x"); SServe 4; SDeliver 2; SReply 1; SDeliver 3; SServe 5; SDeliver 4; SReply 2; SDeliver 5].

Definition demo_servers : ssys := default (mkSsys ∅ [] [] ∅ [] 0) (servers demo_ids demo_conf).
Definition put_result : list (option RaftError) * ssys := default ([], demo_servers) (server_run put_run demo_servers).

(** Role, last index and commit index of a server. *)
Definition summary (n : string) (y : ssys) : option (NodeState * Z * Z) :=
  sn ← y_nodes y !! n; let r := n_raft (sn_node sn) in Some (state r, lastIndex (log r), committed (log r)).

Lemma demo_three : Forall (fun n => three (demo_conf n)) demo_ids.
Proof. repeat constructor; vm_compute; set_solver. Qed.

Lemma grpc_cluster_never_applies_witness :
  put_result.1 = [None] /\ is_Some (y_nodes put_result.2 !! "b") /\
  forall sn, y_nodes put_result.2 !! "b" = Some sn -> committed (log (n_raft (sn_node sn))) = 0 /\ n_storage (sn_node sn) = Some [].
Proof.
  split; [vm_compute; reflexivity|]. split; [vm_compute; eexists; reflexivity|]. intros sn Hsn.
  apply (grpc_cluster_never_applies demo_conf demo_ids put_run demo_servers put_result.1 put_result.2 demo_three) with (n := "b"); [vm_compute; reflexivity..|done].
Defined.

(** The proposal was accepted and every server holds it. *)
Theorem put_accepted_everywhere :
  put_result.1 = [None] /\ summary "a" put_result.2 = Some (Leader, 2, 0) /\
  summary "b" put_result.2 = Some (Follower, 2, 0) /\ summary "c" put_result.2 = Some (Follower, 2, 0).
Proof. vm_compute. done. Qed.
