(* ===== verification/Crdt.v ===== *)
(** * Crdt: conflict-free replicated data types (pkg/consistency/crdt.go)

    Each type is its replicated state with the operations of the source; a
    map iteration of the source is [map_fold] (the order of the iteration
    does not matter, which the lookup lemmas show).  Convergence is proved
    once, for any commutative, associative and idempotent merge, and each
    type provides the three laws as instances. *)

From S2P Require Import Prelude.

(** ** Convergence *)

Section convergence.
Context {S : Type} (merge : S -> S -> S).
Context `{!Comm (=) merge, !Assoc (=) merge, !IdemP (=) merge}.

Lemma foldl_merge_pull a s l : foldl merge (merge a s) l = merge a (foldl merge s l).
Proof.
  revert s. induction l as [|x l IH]; intros s; simpl; [done|]. by rewrite -IH assoc.
Qed.

Lemma foldl_merge_start s l : merge s (foldl merge s l) = foldl merge s l.
Proof. rewrite -foldl_merge_pull. by rewrite idemp. Qed.

Lemma foldl_merge_absorb s l x : x ∈ l -> merge (foldl merge s l) x = foldl merge s l.
Proof.
  revert s. induction l as [|y l IH]; intros s Hx; [by apply elem_of_nil in Hx|]. simpl.
  apply elem_of_cons in Hx as [->|Hx]; [|by apply IH].
  rewrite (comm merge s y) foldl_merge_pull (comm merge _ y) assoc. by rewrite idemp.
Qed.

Lemma foldl_merge_absorb_all s l k :
  (forall x, x ∈ k -> x ∈ l) -> foldl merge (foldl merge s l) k = foldl merge s l.
Proof.
  induction k as [|x k IH]; intros Hk; simpl; [done|].
  rewrite foldl_merge_absorb; [|apply Hk; left]. apply IH. intros y Hy. apply Hk. by right.
Qed.

Lemma foldl_merge_set_eq s l1 l2 :
  (forall x, x ∈ l1 <-> x ∈ l2) -> foldl merge s l1 = foldl merge s l2.
Proof.
  intros Hl.
  assert (Hall : forall k k', (forall x, x ∈ k' -> x ∈ k) ->
    foldl merge s k = merge (foldl merge s k) (foldl merge s k')).
  { intros k k' Hk. rewrite -foldl_merge_pull (comm merge _ s) foldl_merge_start.
    symmetry. by apply foldl_merge_absorb_all. }
  rewrite (Hall l1 l2); [|by intros x; apply Hl]. rewrite (comm merge).
  symmetry. apply Hall. intros x. apply Hl.
Qed.

End convergence.

(** ** Grow-only counter *)

Record GCounter := mkGCounter { gc_nodeID : string; gc_counts : gmap string Z }.

Definition NewGCounter (nodeID : string) : GCounter := mkGCounter nodeID {[nodeID := 0]}.

Definition GCounter_Increment (n : Z) (c : GCounter) : GCounter :=
  mkGCounter (gc_nodeID c)
    (<[gc_nodeID c := u64 (default 0 (gc_counts c !! gc_nodeID c) + n)]> (gc_counts c)).

Definition GCounter_Value (c : GCounter) : Z :=
  map_fold (fun _ count total => u64 (total + count)) 0 (gc_counts c).

Definition counts_merge_one (nodeID : string) (count : Z) (counts : gmap string Z) : gmap string Z :=
  match counts !! nodeID with
  | None => <[nodeID := count]> counts
  | Some existing => if existing <? count then <[nodeID := count]> counts else counts
  end.

Definition counts_merge (counts other : gmap string Z) : gmap string Z :=
  map_fold counts_merge_one counts other.

Definition GCounter_Merge (other c : GCounter) : GCounter :=
  mkGCounter (gc_nodeID c) (counts_merge (gc_counts c) (gc_counts other)).

Definition GCounter_State (c : GCounter) : gmap string Z := gc_counts c.

(** The larger of two counts, where there are two. *)
Definition max_count (a b : option Z) : option Z :=
  match a, b with
  | Some x, Some y => Some (Z.max x y)
  | Some x, None => Some x
  | None, b => b
  end.

Lemma counts_merge_one_lookup n c m k :
  counts_merge_one n c m !! k = if decide (n = k) then max_count (m !! k) (Some c) else m !! k.
Proof.
  unfold counts_merge_one. destruct (m !! n) as [x|] eqn:Hm.
  - destruct (Z.ltb_spec x c); rewrite ?lookup_insert; case_decide; subst; rewrite ?Hm //=; f_equal; lia.
  - rewrite lookup_insert. case_decide; [subst; by rewrite Hm|done].
Qed.

(** Merging is the pointwise maximum. *)
Lemma counts_merge_lookup a b k : counts_merge a b !! k = max_count (a !! k) (b !! k).
Proof.
  unfold counts_merge. revert k.
  apply (map_fold_weak_ind (fun m b => forall k, m !! k = max_count (a !! k) (b !! k))).
  - intros k. rewrite lookup_empty. by destruct (a !! k).
  - intros n c m r Hn IH k. rewrite counts_merge_one_lookup lookup_insert IH.
    case_decide; [|done]. subst. rewrite Hn. by destruct (a !! k).
Qed.

#[export] Instance counts_merge_comm : Comm (=) counts_merge.
Proof.
  intros a b. apply map_eq. intros k. rewrite !counts_merge_lookup.
  destruct (a !! k), (b !! k); simpl; f_equal; lia.
Qed.

#[export] Instance counts_merge_assoc : Assoc (=) counts_merge.
Proof.
  intros a b c. apply map_eq. intros k. rewrite !counts_merge_lookup.
  destruct (a !! k), (b !! k), (c !! k); simpl; f_equal; lia.
Qed.

#[export] Instance counts_merge_idemp : IdemP (=) counts_merge.
Proof.
  intros a. apply map_eq. intros k. rewrite !counts_merge_lookup.
  destruct (a !! k); simpl; f_equal; lia.
Qed.

(** ** Counter with decrements *)

Record PNCounter := mkPNCounter { pn_nodeID : string; pn_positive : GCounter; pn_negative : GCounter }.

Definition NewPNCounter (nodeID : string) : PNCounter :=
  mkPNCounter nodeID (NewGCounter nodeID) (NewGCounter nodeID).

Definition PNCounter_Increment (n : Z) (c : PNCounter) : PNCounter :=
  mkPNCounter (pn_nodeID c) (GCounter_Increment n (pn_positive c)) (pn_negative c).

Definition PNCounter_Decrement (n : Z) (c : PNCounter) : PNCounter :=
  mkPNCounter (pn_nodeID c) (pn_positive c) (GCounter_Increment n (pn_negative c)).

Definition PNCounter_Value (c : PNCounter) : Z :=
  i64 (i64 (GCounter_Value (pn_positive c)) - i64 (GCounter_Value (pn_negative c))).

Definition PNCounter_Merge (other c : PNCounter) : PNCounter :=
  mkPNCounter (pn_nodeID c) (GCounter_Merge (pn_positive other) (pn_positive c))
    (GCounter_Merge (pn_negative other) (pn_negative c)).

(** ** Last-write-wins register

    A value is any type [V]; the nil value of a fresh register is [None]. *)

Record LWWRegister (V : Type) := mkLWW {
  lww_nodeID : string;
  lww_value : option V;
  lww_timestamp : Z;
  lww_writerID : string;
}.
Arguments mkLWW {V} _ _ _ _.
Arguments lww_nodeID {V} _.
Arguments lww_value {V} _.
Arguments lww_timestamp {V} _.
Arguments lww_writerID {V} _.

Definition NewLWWRegister {V} (nodeID : string) : LWWRegister V := mkLWW nodeID None 0 "".

(** [now] is the wall clock in nanoseconds. *)
Definition LWW_Set {V} (now : Z) (v : V) (r : LWWRegister V) : LWWRegister V :=
  mkLWW (lww_nodeID r) (Some v) now (lww_nodeID r).

Definition LWW_SetAt {V} (v : V) (ts : Z) (r : LWWRegister V) : LWWRegister V :=
  if (lww_timestamp r <? ts) || ((ts =? lww_timestamp r) && (lww_writerID r <?s lww_nodeID r))
  then mkLWW (lww_nodeID r) (Some v) ts (lww_nodeID r) else r.

Definition LWW_Get {V} (r : LWWRegister V) : option V * Z := (lww_value r, lww_timestamp r).

Definition LWW_Merge {V} (other r : LWWRegister V) : LWWRegister V :=
  if lww_timestamp r <? lww_timestamp other
  then mkLWW (lww_nodeID r) (lww_value other) (lww_timestamp other) (lww_writerID other)
  else if (lww_timestamp other =? lww_timestamp r) && (lww_writerID r <?s lww_writerID other)
  then mkLWW (lww_nodeID r) (lww_value other) (lww_timestamp r) (lww_writerID other)
  else r.

(** What a register holds, apart from which replica it is. *)
Definition lww_content {V} (r : LWWRegister V) : option V * Z * string :=
  (lww_value r, lww_timestamp r, lww_writerID r).

(** Writes are ordered by timestamp, then by writer. *)
Definition lww_le {V} (a b : LWWRegister V) : Prop :=
  lww_timestamp a < lww_timestamp b \/
  lww_timestamp a = lww_timestamp b /\ (str_lt (lww_writerID a) (lww_writerID b) \/ lww_writerID a = lww_writerID b).

(** A write is determined by its timestamp and writer. *)
Definition lww_consistent {V} (rs : list (LWWRegister V)) : Prop :=
  forall a b, a ∈ rs -> b ∈ rs -> lww_timestamp a = lww_timestamp b -> lww_writerID a = lww_writerID b ->
    lww_value a = lww_value b.

Lemma lww_le_trans {V} (a b c : LWWRegister V) : lww_le a b -> lww_le b c -> lww_le a c.
Proof.
  unfold lww_le. intros [Hab|[Hab Hw]] [Hbc|[Hbc Hw']]; try (left; lia). right. split; [lia|].
  destruct Hw as [Hw| ->]; [|done]. destruct Hw' as [Hw'|<-]; left; [|done]. by etrans.
Qed.

Lemma lww_le_antisym {V} (a b : LWWRegister V) : lww_le a b -> lww_le b a ->
  lww_timestamp a = lww_timestamp b /\ lww_writerID a = lww_writerID b.
Proof.
  unfold lww_le. intros [Hab|[Hab Hw]] [Hba|[Hba Hw']]; try lia. split; [done|].
  destruct Hw as [Hw|]; [|done]. destruct Hw' as [Hw'|]; [|done].
  exfalso. apply (irreflexivity str_lt (lww_writerID a)). by etrans.
Qed.

(** A merge keeps the later of the two writes. *)
Lemma LWW_Merge_spec {V} (o r : LWWRegister V) :
  (lww_content (LWW_Merge o r) = lww_content r /\ lww_le o r) \/
  (lww_content (LWW_Merge o r) = lww_content o /\ lww_le r o).
Proof.
  unfold LWW_Merge, lww_le. destruct (Z.ltb_spec (lww_timestamp r) (lww_timestamp o)); [right; auto|].
  destruct ((lww_timestamp o =? lww_timestamp r) && _) eqn:Hb.
  - bool_hyp. right. split; [unfold lww_content; simpl; congruence|]. right. auto.
  - left. split; [done|]. apply andb_false_iff in Hb as [Hb|Hb]; bool_hyp; [left; lia|].
    destruct (decide (lww_timestamp o = lww_timestamp r)) as [Heq|]; [right|left; lia]. split; [done|].
    destruct (str_lt_trichotomy (lww_writerID o) (lww_writerID r)) as [?|[?|Hlt]]; auto.
    unfold str_lt in Hlt. congruence.
Qed.

Lemma lww_le_content {V} (a b a' b' : LWWRegister V) :
  lww_content a = lww_content a' -> lww_content b = lww_content b' -> lww_le a b -> lww_le a' b'.
Proof. unfold lww_content, lww_le. intros [= _ Ht Hw] [= _ Ht' Hw']. by rewrite Ht Hw Ht' Hw'. Qed.

(** Merging a list of registers ends with the latest write among them. *)
Lemma LWW_fold_latest {V} (l : list (LWWRegister V)) (r : LWWRegister V) :
  exists x, x ∈ r :: l /\
    lww_content (foldl (fun r o => LWW_Merge o r) r l) = lww_content x /\
    forall y, y ∈ r :: l -> lww_le y x.
Proof.
  revert r. induction l as [|o l IH]; intros r; simpl.
  - exists r. split_and!; [left|done|]. intros y ->%list_elem_of_singleton. right. auto.
  - destruct (IH (LWW_Merge o r)) as (x & Hx & Hc & Hmax).
    assert (Hm : lww_le (LWW_Merge o r) x) by (apply Hmax; left).
    destruct (LWW_Merge_spec o r) as [[Hk Hle]|[Hk Hle]].
    + assert (Hr : lww_le r x) by exact (lww_le_content _ _ _ _ Hk eq_refl Hm).
      apply elem_of_cons in Hx as [->|Hx].
      * exists r. split_and!; [left|congruence|]. intros y Hy.
        apply elem_of_cons in Hy as [->|Hy]; [right; auto|]. apply elem_of_cons in Hy as [->|Hy]; [done|].
        refine (lww_le_content _ _ _ _ eq_refl Hk (Hmax y _)). by right.
      * exists x. split_and!; [by do 2 right|done|]. intros y Hy.
        apply elem_of_cons in Hy as [->|Hy]; [done|]. apply elem_of_cons in Hy as [->|Hy].
        -- by eapply lww_le_trans.
        -- apply Hmax. by right.
    + assert (Ho : lww_le o x) by exact (lww_le_content _ _ _ _ Hk eq_refl Hm).
      apply elem_of_cons in Hx as [->|Hx].
      * exists o. split_and!; [right; left|congruence|]. intros y Hy.
        apply elem_of_cons in Hy as [->|Hy]; [done|]. apply elem_of_cons in Hy as [->|Hy]; [right; auto|].
        refine (lww_le_content _ _ _ _ eq_refl Hk (Hmax y _)). by right.
      * exists x. split_and!; [by do 2 right|done|]. intros y Hy.
        apply elem_of_cons in Hy as [->|Hy]; [by eapply lww_le_trans|].
        apply elem_of_cons in Hy as [->|Hy]; [done|]. apply Hmax. by right.
Qed.

(** ** Observed-remove set *)

Record ORSet := mkORSet {
  or_nodeID : string;
  or_nextTag : Z;
  or_elements : gmap string (gmap Z bool);
}.

Definition NewORSet (nodeID : string) : ORSet := mkORSet nodeID 0 ∅.

Definition tags_of (s : ORSet) (element : string) : gmap Z bool := default ∅ (or_elements s !! element).

Definition ORSet_Add (element : string) (s : ORSet) : ORSet :=
  let tag := u64 (or_nextTag s + 1) in
  mkORSet (or_nodeID s) tag (<[element := <[tag := false]> (tags_of s element)]> (or_elements s)).

Definition ORSet_Remove (element : string) (s : ORSet) : ORSet :=
  match or_elements s !! element with
  | None => s
  | Some tags =>
      mkORSet (or_nodeID s) (or_nextTag s) (<[element := (fun _ => true) <$> tags]> (or_elements s))
  end.

Definition has_live_tag (tags : gmap Z bool) : bool :=
  existsb (fun p => negb (snd p)) (map_to_list tags).

Definition ORSet_Contains (element : string) (s : ORSet) : bool :=
  match or_elements s !! element with
  | None => false
  | Some tags => has_live_tag tags
  end.

Definition ORSet_Elements (s : ORSet) : list string :=
  sort_Strings
    (fst <$> filter (fun p => has_live_tag (snd p) = true) (map_to_list (or_elements s))).

Definition tags_merge_one (tag : Z) (removed : bool) (tags : gmap Z bool) : gmap Z bool :=
  match tags !! tag with
  | Some existing => <[tag := existing || removed]> tags
  | None => <[tag := removed]> tags
  end.

Definition tags_merge (tags other : gmap Z bool) : gmap Z bool := map_fold tags_merge_one tags other.

Definition elements_merge_one (element : string) (otherTags : gmap Z bool)
    (elements : gmap string (gmap Z bool)) : gmap string (gmap Z bool) :=
  <[element := tags_merge (default ∅ (elements !! element)) otherTags]> elements.

Definition elements_merge (elements other : gmap string (gmap Z bool)) : gmap string (gmap Z bool) :=
  map_fold elements_merge_one elements other.

Definition ORSet_Merge (other s : ORSet) : ORSet :=
  mkORSet (or_nodeID s) (or_nextTag s) (elements_merge (or_elements s) (or_elements other)).

(** A tag is removed when either side has removed it. *)
Definition or_flag (a b : option bool) : option bool :=
  match a, b with
  | Some x, Some y => Some (x || y)
  | Some x, None => Some x
  | None, b => b
  end.

Lemma tags_merge_lookup a b k : tags_merge a b !! k = or_flag (a !! k) (b !! k).
Proof.
  unfold tags_merge. revert k.
  apply (map_fold_weak_ind (fun m b => forall k, m !! k = or_flag (a !! k) (b !! k))).
  - intros k. rewrite lookup_empty. by destruct (a !! k).
  - intros t rm m r Hn IH k. unfold tags_merge_one. pose proof (IH t) as IHt. rewrite Hn in IHt.
    rewrite (lookup_insert m). destruct (r !! t) as [x|] eqn:Hr; rewrite lookup_insert IH;
      case_decide; try done; subst; destruct (a !! k); simpl in *; by simplify_eq.
Qed.

#[export] Instance tags_merge_comm : Comm (=) tags_merge.
Proof.
  intros a b. apply map_eq. intros k. rewrite !tags_merge_lookup.
  destruct (a !! k) as [[]|], (b !! k) as [[]|]; done.
Qed.

#[export] Instance tags_merge_assoc : Assoc (=) tags_merge.
Proof.
  intros a b c. apply map_eq. intros k. rewrite !tags_merge_lookup.
  destruct (a !! k) as [[]|], (b !! k) as [[]|], (c !! k) as [[]|]; done.
Qed.

#[export] Instance tags_merge_idemp : IdemP (=) tags_merge.
Proof.
  intros a. apply map_eq. intros k. rewrite !tags_merge_lookup. by destruct (a !! k) as [[]|].
Qed.

Lemma tags_merge_empty_l b : tags_merge ∅ b = b.
Proof. apply map_eq. intros k. rewrite tags_merge_lookup lookup_empty. done. Qed.

Definition join_tags (a b : option (gmap Z bool)) : option (gmap Z bool) :=
  match a, b with
  | Some x, Some y => Some (tags_merge x y)
  | Some x, None => Some x
  | None, b => b
  end.

Lemma elements_merge_lookup a b e : elements_merge a b !! e = join_tags (a !! e) (b !! e).
Proof.
  unfold elements_merge. revert e.
  apply (map_fold_weak_ind (fun m b => forall e, m !! e = join_tags (a !! e) (b !! e))).
  - intros e. rewrite lookup_empty. by destruct (a !! e).
  - intros x t m r Hn IH e. unfold elements_merge_one. rewrite !lookup_insert. pose proof (IH x) as IHx.
    rewrite Hn in IHx. case_decide; [subst|done]. rewrite IHx.
    destruct (a !! e); simpl; [done|]. by rewrite tags_merge_empty_l.
Qed.

#[export] Instance elements_merge_comm : Comm (=) elements_merge.
Proof.
  intros a b. apply map_eq. intros e. rewrite !elements_merge_lookup.
  destruct (a !! e), (b !! e); simpl; try done. by rewrite (comm tags_merge).
Qed.

#[export] Instance elements_merge_assoc : Assoc (=) elements_merge.
Proof.
  intros a b c. apply map_eq. intros e. rewrite !elements_merge_lookup.
  destruct (a !! e), (b !! e), (c !! e); simpl; try done. by rewrite (assoc tags_merge).
Qed.

#[export] Instance elements_merge_idemp : IdemP (=) elements_merge.
Proof.
  intros a. apply map_eq. intros e. rewrite !elements_merge_lookup.
  destruct (a !! e); simpl; try done. by rewrite (idemp tags_merge).
Qed.

Lemma has_live_tag_spec tags : has_live_tag tags = true <-> exists t, tags !! t = Some false.
Proof.
  unfold has_live_tag. rewrite existsb_exists. split.
  - intros ([t b] & Hin & Hb). apply list_elem_of_In, elem_of_map_to_list in Hin.
    simpl in Hb. apply negb_true_iff in Hb. subst. by exists t.
  - intros [t Ht]. exists (t, false). split; [|done]. by apply list_elem_of_In, elem_of_map_to_list.
Qed.

Lemma Contains_spec e s : ORSet_Contains e s = true <-> exists t, tags_of s e !! t = Some false.
Proof.
  unfold ORSet_Contains, tags_of. destruct (or_elements s !! e); simpl; [apply has_live_tag_spec|].
  split; [done|]. intros [t Ht]. by rewrite lookup_empty in Ht.
Qed.

Lemma tags_of_merge o s e : tags_of (ORSet_Merge o s) e = tags_merge (tags_of s e) (tags_of o e).
Proof.
  unfold tags_of, ORSet_Merge. simpl. rewrite elements_merge_lookup.
  destruct (or_elements s !! e), (or_elements o !! e); simpl; try done.
  by rewrite tags_merge_empty_l.
Qed.

(** ** A group of counters that gossip *)

Inductive gop :=
  | GInc (node : string) (n : Z)
  | GMerge (dst src : string).

Definition gstep (o : gop) (rs : gmap string GCounter) : option (gmap string GCounter) :=
  match o with
  | GInc k n => c ← rs !! k; Some (<[k := GCounter_Increment n c]> rs)
  | GMerge d s => c ← rs !! d; o ← rs !! s; Some (<[d := GCounter_Merge o c]> rs)
  end.

Definition ginit (ids : list string) : gmap string GCounter :=
  list_to_map ((fun k => (k, NewGCounter k)) <$> ids).

Lemma Value_sum c : GCounter_Value c = u64 (map_sum (gc_counts c)).
Proof.
  unfold GCounter_Value, map_sum.
  assert (H : forall m : gmap string Z, map_fold (fun _ count total => u64 (total + count)) 0 m =
    u64 (map_fold (fun _ c t => t + c) 0 m)); [|apply H].
  induction m as [|k v m Hk Hm IH] using map_first_key_ind; [by rewrite !map_fold_empty|].
  rewrite !map_fold_insert_first_key // IH. unfold u64. rewrite Zplus_mod_idemp_l. done.
Qed.

Fixpoint grun (os : list gop) (rs : gmap string GCounter) : option (gmap string GCounter) :=
  match os with
  | [] => Some rs
  | o :: os => rs ← gstep o rs; grun os rs
  end.

(** The amount of one operation, and of a list of them. *)
Definition g_amount (o : gop) : Z := match o with GInc _ n => n | GMerge _ _ => 0 end.
Definition g_total (os : list gop) : Z := foldr (fun o t => g_amount o + t) 0 os.

(** [ref] holds what each node has counted itself; the others know at most
    that, and each node knows its own count. *)
Record ginv (rs : gmap string GCounter) (ref : gmap string Z) : Prop := {
  gi_own r c : rs !! r = Some c -> gc_nodeID c = r /\ is_Some (ref !! r) /\ gc_counts c !! r = ref !! r;
  gi_known r c k v : rs !! r = Some c -> gc_counts c !! k = Some v ->
    exists w, ref !! k = Some w /\ v <= w;
  gi_dom k : is_Some (ref !! k) -> is_Some (rs !! k);
  gi_pos k w : ref !! k = Some w -> 0 <= w;
}.

Lemma ginit_inv ids : exists ref, ginv (ginit ids) ref /\ map_sum ref = 0 /\
  forall k, k ∈ ids -> is_Some (ref !! k).
Proof.
  exists (list_to_map ((fun k => (k, 0)) <$> ids)).
  assert (Href : forall k w, (list_to_map ((fun k => (k, 0)) <$> ids) : gmap string Z) !! k = Some w -> w = 0).
  { intros k w H. apply elem_of_list_to_map_2, list_elem_of_fmap in H as (x & [= _ ->] & _). done. }
  assert (Hin : forall k, k ∈ ids ->
    (list_to_map ((fun k => (k, 0)) <$> ids) : gmap string Z) !! k = Some 0).
  { intros k Hk. destruct (_ !! k) as [w|] eqn:Hw; [by rewrite (Href k w Hw)|].
    apply not_elem_of_list_to_map in Hw. exfalso. apply Hw. rewrite -list_fmap_compose.
    apply list_elem_of_fmap. by exists k. }
  assert (Hrs : forall r c, ginit ids !! r = Some c -> c = NewGCounter r /\ r ∈ ids).
  { intros r c H. apply elem_of_list_to_map_2, list_elem_of_fmap in H as (x & [= -> ->] & Hx). done. }
  split_and!; [split| |].
  - intros r c Hc. apply Hrs in Hc as [-> Hr]. simpl. rewrite Hin // lookup_singleton_eq. eauto.
  - intros r c k v Hc Hk. apply Hrs in Hc as [-> Hr]. simpl in Hk.
    apply lookup_singleton_Some in Hk as [<- <-]. exists 0. split; [by apply Hin|lia].
  - intros k [w Hw]. assert (Hk : k ∈ ids).
    { apply elem_of_list_to_map_2, list_elem_of_fmap in Hw as (x & [= -> _] & Hx). done. }
    destruct (ginit ids !! k) as [c|] eqn:Hc; [eauto|]. apply not_elem_of_list_to_map in Hc.
    exfalso. apply Hc. rewrite -list_fmap_compose. apply list_elem_of_fmap. by exists k.
  - intros k w Hw. rewrite (Href k w Hw). done.
  - apply Z.le_antisymm; [|apply map_sum_nonneg; intros k v Hv; by rewrite (Href k v Hv)].
    generalize dependent (list_to_map ((fun k => (k, 0)) <$> ids) : gmap string Z). intros m Hm _ .
    induction m as [|k v m Hk IH] using map_ind; [unfold map_sum; by rewrite map_fold_empty|].
    rewrite map_sum_insert_None //. rewrite (Hm k v); [|apply lookup_insert_eq].
    rewrite Z.add_0_r. apply IH. intros k' w' Hk'. apply (Hm k'). rewrite lookup_insert_ne //. congruence.
  - intros k Hk. by rewrite Hin.
Qed.

Lemma ginc_inv k n rs ref c :
  ginv rs ref -> rs !! k = Some c -> 0 <= n -> map_sum ref + n < two64 ->
  exists w, ref !! k = Some w /\ ginv (<[k := GCounter_Increment n c]> rs) (<[k := w + n]> ref).
Proof.
  intros [Hown Hknown Hdom Hpos] Hc Hn Hb.
  destruct (Hown k c Hc) as (Hid & [w Hw] & Hcw). rewrite Hw in Hcw.
  pose proof (map_sum_ge ref k w Hpos Hw). pose proof (Hpos k w Hw). exists w. split; [done|].
  assert (Hinc : gc_counts (GCounter_Increment n c) = <[k := w + n]> (gc_counts c)).
  { unfold GCounter_Increment. simpl. rewrite Hid Hcw. simpl. rewrite u64_small; [done|lia]. }
  split.
  - intros r c'. rewrite lookup_insert. case_decide as Hr; intros Hc'.
    + injection Hc' as <-. subst r. rewrite Hinc !lookup_insert_eq. split_and!; eauto.
    + rewrite lookup_insert_ne //. by apply Hown.
  - intros r c' k' v. rewrite lookup_insert. case_decide as Hr; intros Hc' Hv.
    + injection Hc' as <-. rewrite Hinc lookup_insert in Hv. rewrite lookup_insert.
      case_decide; [|by eauto]. injection Hv as <-. eauto with lia.
    + destruct (Hknown r c' k' v Hc' Hv) as (w' & Hw' & Hle). rewrite lookup_insert.
      case_decide; [|eauto]. subst k'. rewrite Hw in Hw'. injection Hw' as <-. exists (w + n). split; [done|lia].
  - intros k' Hk'. rewrite lookup_insert. case_decide; [eauto|]. apply Hdom. by rewrite lookup_insert_ne in Hk'.
  - intros k' w'. rewrite lookup_insert. case_decide; [intros [= <-]; lia|apply Hpos].
Qed.

Lemma gmerge_inv d s rs ref c o :
  ginv rs ref -> rs !! d = Some c -> rs !! s = Some o -> ginv (<[d := GCounter_Merge o c]> rs) ref.
Proof.
  intros [Hown Hknown Hdom Hpos] Hc Ho. split; auto.
  - intros r c'. rewrite lookup_insert. case_decide as Hr; intros Hc'; [|by apply Hown].
    injection Hc' as <-. subst r. destruct (Hown d c Hc) as (Hid & Hs & Hcw). split_and!; [done..|].
    simpl. rewrite counts_merge_lookup Hcw. destruct Hs as [w Hw]. rewrite Hw.
    destruct (gc_counts o !! d) as [v|] eqn:Hv; simpl; [|done].
    destruct (Hknown s o d v Ho Hv) as (w' & Hw' & Hle). rewrite Hw in Hw'. injection Hw' as <-.
    f_equal. lia.
  - intros r c' k v. rewrite lookup_insert. case_decide as Hr; intros Hc' Hv; [|eauto].
    injection Hc' as <-. simpl in Hv. rewrite counts_merge_lookup in Hv.
    destruct (gc_counts c !! k) as [x|] eqn:Hx, (gc_counts o !! k) as [y|] eqn:Hy;
      simpl in Hv; try (injection Hv as <-); [|by eauto..|done].
    destruct (Hknown d c k x Hc Hx) as (w & Hw & Hle). destruct (Hknown s o k y Ho Hy) as (w' & Hw' & Hle').
    rewrite Hw in Hw'. injection Hw' as <-. exists w. split; [done|lia].
  - intros k Hk. rewrite lookup_insert. case_decide; [eauto|]. by apply Hdom.
Qed.

Lemma grun_inv os rs rs' ref :
  ginv rs ref -> Forall (fun o => 0 <= g_amount o) os -> map_sum ref + g_total os < two64 ->
  grun os rs = Some rs' ->
  exists ref', ginv rs' ref' /\ map_sum ref' = map_sum ref + g_total os /\
    (forall k, is_Some (ref !! k) -> is_Some (ref' !! k)).
Proof.
  revert rs ref. induction os as [|o os IH]; intros rs ref Hi Hall Hb Hr; simpl in *.
  { injection Hr as <-. exists ref. split_and!; [done|lia|done]. }
  apply Forall_cons in Hall as [Ho Hall]. apply bind_Some in Hr as (rs1 & Hst & Hr).
  assert (Htot : 0 <= g_total os).
  { clear -Hall. induction Hall; simpl; [done|]. unfold g_total in *. simpl. lia. }
  assert (H1 : exists ref1, ginv rs1 ref1 /\ map_sum ref1 = map_sum ref + g_amount o /\
    (forall k, is_Some (ref !! k) -> is_Some (ref1 !! k))).
  { destruct o as [k n|d s]; simpl in *.
    - apply bind_Some in Hst as (c & Hc & Hst). injection Hst as <-.
      destruct (ginc_inv k n rs ref c Hi Hc Ho) as (w & Hw & Hi'); [lia|].
      exists (<[k := w + n]> ref). rewrite (map_sum_insert ref k w) //. split_and!; [done|lia|].
      intros k' Hk'. rewrite lookup_insert. case_decide; [eauto|done].
    - apply bind_Some in Hst as (c & Hc & Hst). apply bind_Some in Hst as (o & Ho' & Hst).
      injection Hst as <-. exists ref. split_and!; [by eapply gmerge_inv|lia|done]. }
  destruct H1 as (ref1 & Hi1 & Hs1 & Hd1).
  destruct (IH rs1 ref1 Hi1 Hall) as (ref2 & Hi2 & Hs2 & Hd2); [lia|done|].
  exists ref2. split_and!; [done|lia|auto].
Qed.

(** Gathering the states of all nodes brings a node up to date. *)
Lemma gather_exact r l rs rs' ref c c' :
  ginv rs ref -> grun (GMerge r <$> l) rs = Some rs' -> rs !! r = Some c -> rs' !! r = Some c' ->
  ginv rs' ref /\ forall k w, ref !! k = Some w -> k ∈ l \/ gc_counts c !! k = Some w -> gc_counts c' !! k = Some w.
Proof.
  revert rs c. induction l as [|s l IH]; intros rs c Hi Hr Hc Hc'; simpl in *.
  { injection Hr as <-. rewrite Hc in Hc'. injection Hc' as <-. split; [done|].
    intros k w Hw [Hk|Hk]; [by apply elem_of_nil in Hk|done]. }
  apply bind_Some in Hr as (rs1 & Hst & Hr). rewrite Hc in Hst. simpl in Hst.
  apply bind_Some in Hst as (o & Ho & Hst). injection Hst as <-.
  pose proof (gmerge_inv r s rs ref c o Hi Hc Ho) as Hi1.
  destruct (IH _ (GCounter_Merge o c) Hi1 Hr) as [Hi2 Hk2]; [apply lookup_insert_eq|done|].
  split; [done|]. intros k w Hw Hor. apply Hk2; [done|].
  assert (Hmax : gc_counts c !! k = Some w \/ gc_counts o !! k = Some w -> gc_counts (GCounter_Merge o c) !! k = Some w).
  { simpl. rewrite counts_merge_lookup. destruct Hi as [_ Hknown _ _].
    intros Hco. destruct (gc_counts c !! k) as [x|] eqn:Hx, (gc_counts o !! k) as [y|] eqn:Hy; simpl;
      try (destruct (Hknown _ _ _ _ Hc Hx) as (w1 & Hw1 & ?); rewrite Hw in Hw1; injection Hw1 as <-);
      try (destruct (Hknown _ _ _ _ Ho Hy) as (w2 & Hw2 & ?); rewrite Hw in Hw2; injection Hw2 as <-);
      destruct Hco as [[= ->]|[= ->]]; f_equal; lia. }
  destruct Hor as [Hkl|Hk]; [|right; auto]. apply elem_of_cons in Hkl as [->|Hkl]; [|by left].
  right. apply Hmax. right. destruct (gi_own _ _ Hi s o Ho) as (_ & _ & ->). done.
Qed.

Lemma grun_app os1 os2 rs : grun (os1 ++ os2) rs = (rs' ← grun os1 rs; grun os2 rs').
Proof. revert rs. induction os1 as [|o os1 IH]; intros rs; simpl; [done|]. by destruct (gstep o rs); simpl. Qed.

Lemma grun_lookup os rs rs' r : grun os rs = Some rs' -> is_Some (rs' !! r) -> is_Some (rs !! r).
Proof.
  revert rs. induction os as [|o os IH]; intros rs H Hr; simpl in H; [by injection H as <-|].
  apply bind_Some in H as (rs1 & Hst & H). pose proof (IH _ H Hr) as Hr1. revert Hr1.
  destruct o as [k n|d s]; simpl in Hst; apply bind_Some in Hst as (c & Hc & Hst).
  - injection Hst as <-. rewrite lookup_insert. case_decide; subst; eauto.
  - apply bind_Some in Hst as (o & _ & Hst). injection Hst as <-.
    rewrite lookup_insert. case_decide; subst; eauto.
Qed.

(** ** Properties *)


(** A group of grow-only counters that gossip loses and double-counts
    nothing: after any increments and merges, a node that gathers the states
    of all nodes reports exactly the sum of all increments. *)
Theorem gcounter_exact (ids : list string) (os : list gop) (rs : gmap string GCounter)
  (r : string) (c : GCounter)
  (Hpos : Forall (fun o => 0 <= g_amount o) os) (Htot : g_total os < two64)
  (Hrun : grun (os ++ (GMerge r <$> ids)) (ginit ids) = Some rs) (Hc : rs !! r = Some c) :
  GCounter_Value c = g_total os.
Proof.
  rewrite grun_app in Hrun. apply bind_Some in Hrun as (rs1 & H1 & H2).
  destruct (ginit_inv ids) as (ref0 & Hi0 & Hs0 & Hd0).
  destruct (grun_inv os _ rs1 ref0 Hi0 Hpos) as (ref & Hi & Hs & Hd); [lia|done|].
  destruct (grun_lookup _ _ _ r H2) as [c1 Hc1]; [by eauto|].
  destruct (gather_exact r ids rs1 rs ref c1 c Hi H2 Hc1 Hc) as [Hi2 Hk].
  assert (Heq : gc_counts c = ref).
  { apply map_eq. intros k. destruct (ref !! k) as [w|] eqn:Hw.
    - apply Hk; [done|left]. destruct (gi_dom _ _ Hi k) as [ck Hck]; [by eauto|].
      destruct (grun_lookup _ _ _ k H1) as [c0 Hc0]; [by eauto|].
      apply elem_of_list_to_map_2, list_elem_of_fmap in Hc0 as (x & [= -> _] & Hx). done.
    - destruct (gc_counts c !! k) as [v|] eqn:Hv; [|done].
      destruct (gi_known _ _ Hi2 r c k v Hc Hv) as (w & Hw' & _). congruence. }
  rewrite Value_sum Heq Hs Hs0. apply u64_small.
  pose proof (map_sum_nonneg ref (gi_pos _ _ Hi)). lia.
Qed.

Definition gossip_demo : list gop :=
  [GInc "a" 3; GMerge "b" "a"; GInc "b" 4; GMerge "a" "b"; GInc "a" 5; GMerge "b" "a"].

Lemma gcounter_exact_witness :
  GCounter_Value (mkGCounter "b" {["a" := 8; "b" := 4]}) = 12.
Proof.
  apply (gcounter_exact ["a"; "b"] gossip_demo
    (default ∅ (grun (gossip_demo ++ (GMerge "b" <$> ["a"; "b"])) (ginit ["a"; "b"]))) "b");
    [repeat constructor; simpl; lia|vm_compute; reflexivity..].
Defined.

(** Merging last-write-wins registers converges: when a write is
    determined by its timestamp and writer, registers that have merged the
    same writes in any order hold the same value, and it is the latest one. *)
Theorem lww_converges {V : Type} (r1 r2 : LWWRegister V) (l1 l2 : list (LWWRegister V))
  (Hc : lww_consistent (r1 :: l1)) (Hl : forall x, x ∈ r1 :: l1 <-> x ∈ r2 :: l2) :
  let m1 := foldl (fun r o => LWW_Merge o r) r1 l1 in
  let m2 := foldl (fun r o => LWW_Merge o r) r2 l2 in
  lww_content m1 = lww_content m2 /\ forall x, x ∈ r1 :: l1 -> lww_le x m1.
Proof.
  destruct (LWW_fold_latest l1 r1) as (x & Hx & Hcx & Hmx).
  destruct (LWW_fold_latest l2 r2) as (y & Hy & Hcy & Hmy). simpl. split.
  - rewrite Hcx Hcy. destruct (lww_le_antisym x y) as [Ht Hw]; [apply Hmy, Hl, Hx|apply Hmx, Hl, Hy|].
    unfold lww_content. rewrite Ht Hw. do 2 f_equal. apply Hc; [done|by apply Hl|done..].
  - intros z Hz. exact (lww_le_content _ _ _ _ eq_refl (eq_sym Hcx) (Hmx z Hz)).
Qed.

Lemma lww_converges_witness :
  let a := mkLWW "a" (Some 1) 10 "a" in let b := mkLWW "b" (Some 2) 10 "b" in
  lww_content (LWW_Merge b a) = lww_content (LWW_Merge a b) /\
  forall x, x ∈ [a; b] -> lww_le x (LWW_Merge b a).
Proof.
  apply (lww_converges (mkLWW "a" (Some 1) 10 "a") (mkLWW "b" (Some 2) 10 "b")
    [mkLWW "b" (Some 2) 10 "b"] [mkLWW "a" (Some 1) 10 "a"]).
  - intros x y Hx Hy. repeat (apply elem_of_cons in Hx as [->|Hx]); repeat (apply elem_of_cons in Hy as [->|Hy]);
      try (by apply elem_of_nil in Hx); try (by apply elem_of_nil in Hy); simpl; congruence.
  - set_solver.
Defined.

(** What a merged set contains: an element with a tag that one side has
    and neither side has removed.  In particular a removal only affects the
    tags its replica has seen. *)
Theorem orset_merge_contains (e : string) (o s : ORSet) :
  ORSet_Contains e (ORSet_Merge o s) = true <->
  exists t, (tags_of s e !! t = Some false \/ tags_of o e !! t = Some false) /\
            tags_of s e !! t <> Some true /\ tags_of o e !! t <> Some true.
Proof.
  rewrite Contains_spec. split; intros [t Ht]; exists t; rewrite tags_of_merge tags_merge_lookup in Ht |- *;
    destruct (tags_of s e !! t) as [[]|], (tags_of o e !! t) as [[]|]; naive_solver.
Qed.

(** Concurrent adds are not kept apart.  Tags are numbered per node from 1
    and do not carry the node, so two nodes give their first adds the same
    tag; a node that adds and then removes an element wipes out the
    concurrent add of another node, which the specification in the source
    says must survive. *)
Theorem orset_concurrent_add_lost (e n1 n2 : string) :
  let s1 := ORSet_Add e (NewORSet n1) in
  let s2 := ORSet_Remove e (ORSet_Add e (NewORSet n2)) in
  ORSet_Contains e s1 = true /\
  ORSet_Contains e (ORSet_Merge s2 s1) = false /\ ORSet_Contains e (ORSet_Merge s1 s2) = false.
Proof.
  intros s1 s2.
  assert (H1 : tags_of s1 e = {[1 := false]}).
  { unfold s1, tags_of, ORSet_Add. simpl. by rewrite lookup_insert_eq. }
  assert (H2 : tags_of s2 e = {[1 := true]}).
  { unfold s2, ORSet_Remove, ORSet_Add, tags_of. simpl. rewrite lookup_insert_eq. simpl.
    rewrite lookup_insert_eq. simpl. by rewrite fmap_insert fmap_empty. }
  split_and!.
  - apply Contains_spec. exists 1. by rewrite H1.
  - apply not_true_iff_false. rewrite Contains_spec tags_of_merge H1 H2. intros [t Ht].
    rewrite tags_merge_lookup !lookup_singleton in Ht. by case_decide.
  - apply not_true_iff_false. rewrite Contains_spec tags_of_merge H1 H2. intros [t Ht].
    rewrite tags_merge_lookup !lookup_singleton in Ht. by case_decide.
Qed.
