(* ===== verification/Command.v ===== *)
(** * Command: the encoding of replicated operations (pkg/storage/command.go)

    A command is encoded as its type byte, the length-prefixed key, the
    length-prefixed value and the version.  A nil value of the source is the
    empty byte list. *)

From S2P Require Import Prelude Bytes.

Definition CmdPut : Z := 1.
Definition CmdDelete : Z := 2.
Definition CmdCAS : Z := 3.

Record Command := mkCommand {
  cmd_Type : Z;
  cmd_Key : string;
  cmd_Value : bytes;
  cmd_Version : Z;
}.

Definition Command_Encode (c : Command) : bytes :=
  let keyBytes := bytes_of_string (cmd_Key c) in
  byte_of_Z (cmd_Type c) :: put_le 4 (zlen keyBytes) ++ keyBytes
    ++ put_le 4 (zlen (cmd_Value c)) ++ cmd_Value c ++ put_le 8 (u64 (cmd_Version c)).

(** The byte at an index the caller has checked. *)
Definition byte_at (i : nat) (data : bytes) : Z :=
  match data !! i with Some b => Z_of_byte b | None => 0 end.

(** The result is the key, the value and whether it is a deletion. *)
Definition DecodeCommand (data : bytes) : string * bytes * bool :=
  let n := zlen data in
  if n <? 5 then ("", [], false)
  else
    let cmdType := byte_at 0 data in
    let keyLen := get_le (subslice 1 5 data) in
    if n <? 5 + keyLen then ("", [], false)
    else
      let key := string_of_bytes (subslice 5 (Z.to_nat (5 + keyLen)) data) in
      let offset := 5 + keyLen in
      if n <? offset + 4 then (key, [], cmdType =? CmdDelete)
      else
        let valLen := get_le (subslice (Z.to_nat offset) (Z.to_nat (offset + 4)) data) in
        let offset := offset + 4 in
        let value := if (0 <? valLen) && (offset + valLen <=? n)
                     then subslice (Z.to_nat offset) (Z.to_nat (offset + valLen)) data else [] in
        (key, value, cmdType =? CmdDelete).

Definition EncodeCommand (key : string) (value : bytes) (deleted : bool) : bytes :=
  let cmdType := if deleted then CmdDelete else CmdPut in
  Command_Encode (mkCommand cmdType key value (-1)).

Definition NewPutCommand (key : string) (value : bytes) : bytes := EncodeCommand key value false.
Definition NewDeleteCommand (key : string) : bytes := EncodeCommand key [] true.

Inductive CommandError := ErrCommandTooShort (n : Z) | ErrUnknownCommandType (t : Z).

Definition ValidateCommand (data : bytes) : option CommandError :=
  if zlen data <? 5 then Some (ErrCommandTooShort (zlen data))
  else
    let cmdType := byte_at 0 data in
    if (cmdType =? CmdPut) || (cmdType =? CmdDelete) || (cmdType =? CmdCAS) then None
    else Some (ErrUnknownCommandType cmdType).

(** ** Decoding by parts *)

(** Decoding what starts like an encoded command, with [rest] after the key. *)
Lemma DecodeCommand_key t key rest :
  zlen (bytes_of_string key) < two32 -> 0 <= t < 256 ->
  let data := byte_of_Z t :: put_le 4 (zlen (bytes_of_string key)) ++ bytes_of_string key ++ rest in
  DecodeCommand data =
    let valLen := get_le (take 4 rest) in
    if zlen rest <? 4 then (key, [], t =? CmdDelete)
    else (key, if (0 <? valLen) && (4 + valLen <=? zlen rest) then take (Z.to_nat valLen) (drop 4 rest) else [],
          t =? CmdDelete).
Proof.
  intros Hk Ht data. set (kb := bytes_of_string key) in *.
  pose proof (zlen_nonneg kb) as Hkb. pose proof (zlen_nonneg rest) as Hrest.
  assert (Hlen : zlen data = 5 + zlen kb + zlen rest).
  { unfold data. autorewrite with zlen. lia. }
  assert (Hty : byte_at 0 data = t).
  { unfold byte_at, data. simpl. rewrite Z_of_byte_of_Z. apply Z.mod_small. lia. }
  assert (Hkl : get_le (subslice 1 5 data) = zlen kb).
  { unfold data. rewrite (subslice_app_mid [byte_of_Z t] (put_le 4 (zlen kb)) (kb ++ rest)) //.
    rewrite get_put_le32 u32_small //. }
  assert (Hdrop : forall k, drop (Z.to_nat (5 + zlen kb) + k) data = drop k rest).
  { intros k. 
    replace data with ((byte_of_Z t :: put_le 4 (zlen kb) ++ kb) ++ rest) by done.
    apply drop_app_skip. rewrite length_cons length_app length_put_le. unfold zlen. lia. }
  unfold DecodeCommand. rewrite Hty Hkl Hlen.
  destruct (Z.ltb_spec (5 + zlen kb + zlen rest) 5); [lia|].
  destruct (Z.ltb_spec (5 + zlen kb + zlen rest) (5 + zlen kb)); [lia|].
  assert (Hkey : string_of_bytes (subslice 5 (Z.to_nat (5 + zlen kb)) data) = key).
  { unfold data. rewrite app_comm_cons (subslice_app_mid (byte_of_Z t :: put_le 4 (zlen kb)) kb rest);
      [apply string_of_bytes_of_string|done|].
    rewrite length_cons length_put_le. unfold zlen. lia. }
  rewrite Hkey. unfold subslice.
  replace (5 + zlen kb + zlen rest <? 5 + zlen kb + 4) with (zlen rest <? 4)
    by (destruct (Z.ltb_spec (zlen rest) 4); symmetry; [apply Z.ltb_lt|apply Z.ltb_ge]; lia).
  destruct (zlen rest <? 4); [done|].
  pose proof (Hdrop 0%nat) as Hd0. rewrite Nat.add_0_r drop_0 in Hd0. rewrite Hd0.
  replace (Z.to_nat (5 + zlen kb + 4) - Z.to_nat (5 + zlen kb))%nat with 4%nat by lia.
  replace (Z.to_nat (5 + zlen kb + 4)) with (Z.to_nat (5 + zlen kb) + 4)%nat by lia. rewrite Hdrop.
  pose proof (get_le_range (take 4 rest)) as Hv. set (v := get_le (take 4 rest)) in *.
  replace (5 + zlen kb + 4 + v <=? 5 + zlen kb + zlen rest) with (4 + v <=? zlen rest)
    by (destruct (Z.leb_spec (4 + v) (zlen rest)); symmetry; [apply Z.leb_le|apply Z.leb_gt]; lia).
  destruct (_ && _); [|done]. do 3 f_equal. lia.
Qed.

(** ** Properties *)

(** Decoding an encoded operation gives back its key, value and kind. *)
Theorem command_roundtrip (key : string) (value : bytes) (deleted : bool)
  (Hk : zlen (bytes_of_string key) < two32) (Hv : zlen value < two32) :
  DecodeCommand (EncodeCommand key value deleted) = (key, value, deleted) /\
  ValidateCommand (EncodeCommand key value deleted) = None.
Proof.
  unfold EncodeCommand, Command_Encode. cbn [cmd_Type cmd_Key cmd_Value cmd_Version]. split.
  - rewrite DecodeCommand_key //; [|by destruct deleted]. pose proof (zlen_nonneg value).
    rewrite take_app_le ?length_put_le // take_ge ?length_put_le // get_put_le32 u32_small; [|lia].
    rewrite drop_app_le ?length_put_le // drop_ge ?length_put_le // app_nil_l. autorewrite with zlen. cbv zeta.
    rewrite (proj2 (Z.ltb_ge _ 4)); [|lia]. rewrite (proj2 (Z.leb_le (4 + zlen value) _)); [|lia].
    rewrite andb_true_r. destruct value as [|b v]; [by destruct deleted|].
    rewrite (proj2 (Z.ltb_lt 0 (zlen (b :: v)))); [|rewrite zlen_cons; pose proof (zlen_nonneg v); lia].
    unfold zlen at 1. rewrite Nat2Z.id take_app_length. by destruct deleted.
  - unfold ValidateCommand. autorewrite with zlen.
    pose proof (zlen_nonneg (bytes_of_string key)). pose proof (zlen_nonneg value).
    destruct (Z.ltb_spec (Z.of_nat 4 + (zlen (bytes_of_string key) + (Z.of_nat 4 + (zlen value + Z.of_nat 8))) + 1) 5);
      [lia|]. unfold byte_at. simpl. rewrite Z_of_byte_of_Z. by destruct deleted.
Qed.

Lemma command_roundtrip_witness :
  DecodeCommand (EncodeCommand "key" (bytes_of_string "value") false) = ("key", bytes_of_string "value", false) /\
  ValidateCommand (EncodeCommand "key" (bytes_of_string "value") false) = None.
Proof. apply (command_roundtrip "key" (bytes_of_string "value") false); vm_compute; reflexivity. Defined.
