(* ===== verification/WalRecord.v ===== *)
(** * WalRecord: the records of the write-ahead log
    (pkg/storage/wal/record.go, errors.go and [Segment.ReadAll] of segment.go)

    The CRC-32 (Castagnoli) checksum of Go's [hash/crc32], the encoding and
    decoding of one record, and the scan of a segment file that stops at a
    torn tail.  A record decodes to what was encoded, a damaged byte behind
    the length field is always reported as corruption, and a file cut at any
    point reads as exactly the records that are complete. *)

From S2P Require Import Prelude Bytes.

(** ** CRC-32C *)

(** [crc32.Castagnoli], bit-reversed as in the package. *)
Definition Castagnoli : Z := 2197175160.

Definition crc_bit (crc : Z) : Z :=
  if Z.odd crc then Z.lxor (Z.shiftr crc 1) Castagnoli else Z.shiftr crc 1.

Definition crcTable : list Z :=
  Eval vm_compute in map (fun i => Nat.iter 8 crc_bit (Z.of_nat i)) (seq 0 256).

Definition crc_entry (i : Z) : Z := nth (Z.to_nat i) crcTable 0.

(** One step of [simpleUpdate]: [crc = tab[byte(crc)^v] ^ (crc >> 8)]. *)
Definition crc_step (crc : Z) (v : ascii) : Z :=
  Z.lxor (crc_entry (Z.lxor (Z.land crc 255) (Z_of_byte v))) (Z.shiftr crc 8).

Definition crc_update (crc : Z) (data : bytes) : Z := fold_left crc_step data crc.

Definition Checksum (data : bytes) : Z := Z.lxor (crc_update (two32 - 1) data) (two32 - 1).

(** ** Records *)

Definition RecordData : Z := 1.
Definition RecordCheckpoint : Z := 2.
Definition RecordSegmentHeader : Z := 3.

Definition HeaderSize : Z := 17.
Definition MaxRecordSize : Z := 64 * 1024 * 1024.

Record WRecord := mkWRecord {
  rec_CRC : Z;
  rec_Type : Z;
  rec_Sequence : Z;
  rec_Data : bytes;
}.

Inductive WalError :=
| ErrRecordTooShort
| ErrSegmentFull
| ErrWALClosed
| ErrInvalidSequence
| ErrCorruption (Sequence StoredCRC ComputedCRC : Z)
| ErrIO.

Definition IsCorruption (err : WalError) : bool :=
  match err with ErrCorruption _ _ _ => true | _ => false end.

(** The bytes the checksum covers. *)
Definition crcBuf (type seq : Z) (data : bytes) : bytes :=
  byte_of_Z type :: put_be 8 seq ++ data.

(** [Encode] stores the checksum in the record and returns the bytes. *)
Definition Record_Encode (r : WRecord) : bytes * WRecord :=
  let dataLen := zlen (rec_Data r) in
  let payloadLen := u32 (4 + 1 + 8 + dataLen) in
  let crc := Checksum (crcBuf (rec_Type r) (rec_Sequence r) (rec_Data r)) in
  (put_le 4 payloadLen ++ put_be 4 crc ++ [byte_of_Z (rec_Type r)]
     ++ put_le 8 (rec_Sequence r) ++ rec_Data r,
   mkWRecord crc (rec_Type r) (rec_Sequence r) (rec_Data r)).

Definition Decode (buf : bytes) : WalError + WRecord :=
  if zlen buf <? HeaderSize then inl ErrRecordTooShort
  else
    let storedCRC := get_be (subslice 4 8 buf) in
    let recordType := match buf !! 8%nat with Some b => Z_of_byte b | None => 0 end in
    let sequence := get_le (subslice 9 17 buf) in
    let data := drop 17 buf in
    let computedCRC := Checksum (crcBuf recordType sequence data) in
    if computedCRC =? storedCRC then inr (mkWRecord storedCRC recordType sequence data)
    else inl (ErrCorruption sequence storedCRC computedCRC).

(** ** Reading a segment file

    Each turn consumes at least the four bytes of the length field, so the
    length of the file bounds the turns. *)
Fixpoint ReadAll_loop (fuel : nat) (file : bytes) (records : list WRecord) : WalError + list WRecord :=
  match fuel with
  | O => inr records
  | S fuel =>
      if zlen file <? 4 then inr records
      else
        let payloadLen := get_le (take 4 file) in
        if MaxRecordSize <? payloadLen then inr records
        else if zlen file - 4 <? payloadLen then inr records
        else
          let fullRecord := take (Z.to_nat (4 + payloadLen)) file in
          match Decode fullRecord with
          | inl err => if IsCorruption err then inl err else inr records
          | inr r => ReadAll_loop fuel (drop (Z.to_nat (4 + payloadLen)) file) (records ++ [r])
          end
  end.

Definition ReadAll (file : bytes) : WalError + list WRecord :=
  ReadAll_loop (S (length file)) file [].

(** ** The checksum separates messages that differ in one byte *)

Definition top_byte (i : Z) : Z := Z.shiftr (crc_entry i) 24.

(** The index of the only table entry with the given top byte. *)
Definition top_index (t : Z) : option nat :=
  fst <$> list_find (fun e => Z.shiftr e 24 = t) crcTable.

Lemma crc_entries_ok :
  Forall (fun i => top_index (top_byte (Z.of_nat i)) = Some i /\ 0 <= crc_entry (Z.of_nat i) < two32) (seq 0 256).
Proof.
  assert (H : forallb (fun i => bool_decide (top_index (top_byte (Z.of_nat i)) = Some i)
     && (0 <=? crc_entry (Z.of_nat i)) && (crc_entry (Z.of_nat i) <? two32)) (seq 0 256) = true)
    by (vm_compute; reflexivity).
  apply Forall_forall. intros i Hi. rewrite forallb_forall in H.
  specialize (H i ltac:(by apply list_elem_of_In)). apply andb_prop in H as [[H ?]%andb_prop ?].
  rewrite bool_decide_eq_true in H. split; [done|lia].
Qed.

Lemma crc_entry_ok i :
  0 <= i < 256 -> top_index (top_byte i) = Some (Z.to_nat i) /\ 0 <= crc_entry i < two32.
Proof.
  intros Hi. pose proof crc_entries_ok as H. rewrite Forall_forall in H.
  specialize (H (Z.to_nat i)). rewrite Z2Nat.id in H; [|lia]. apply H, elem_of_seq. lia.
Qed.

Lemma land_255 z : Z.land z 255 = z mod 256.
Proof. change 255 with (Z.ones 8). by rewrite Z.land_ones. Qed.

Lemma crc_index_range crc v : 0 <= Z.lxor (Z.land crc 255) (Z_of_byte v) < 256.
Proof.
  apply (lxor_range 8); [lia| |apply Z_of_byte_range]. rewrite land_255. apply Z.mod_pos_bound. lia.
Qed.

Lemma crc_step_range crc v : 0 <= crc < two32 -> 0 <= crc_step crc v < two32.
Proof.
  intros Hc. apply (lxor_range 32); [lia|apply crc_entry_ok, crc_index_range|].
  rewrite Z.shiftr_div_pow2; [|lia]. change (2 ^ 8) with 256. change (2 ^ 32) with two32.
  split; [apply Z.div_pos; lia|apply Z.div_lt_upper_bound; lia].
Qed.

Lemma crc_update_range data : forall crc, 0 <= crc < two32 -> 0 <= crc_update crc data < two32.
Proof. induction data; intros; [done|]. apply IHdata. by apply crc_step_range. Qed.

(** A step is determined by the table index and the upper bytes. *)
Lemma crc_step_inv s v s' v' :
  0 <= s < two32 -> 0 <= s' < two32 -> crc_step s v = crc_step s' v' ->
  Z.lxor (Z.land s 255) (Z_of_byte v) = Z.lxor (Z.land s' 255) (Z_of_byte v') /\
  Z.shiftr s 8 = Z.shiftr s' 8.
Proof.
  unfold crc_step. intros Hs Hs' Heq.
  pose proof (crc_index_range s v) as Hi. pose proof (crc_index_range s' v') as Hi'.
  set (i := Z.lxor (Z.land s 255) (Z_of_byte v)) in *.
  set (i' := Z.lxor (Z.land s' 255) (Z_of_byte v')) in *.
  assert (Htop : forall x, 0 <= x < two32 -> Z.shiftr (Z.shiftr x 8) 24 = 0).
  { intros x Hx. rewrite Z.shiftr_shiftr // Z.shiftr_div_pow2 //. apply Z.div_small. done. }
  assert (Hii : i = i').
  { apply (f_equal (fun x => Z.shiftr x 24)) in Heq. rewrite !Z.shiftr_lxor !Htop // !Z.lxor_0_r in Heq.
    apply (f_equal top_index) in Heq.
    rewrite (proj1 (crc_entry_ok i Hi)) (proj1 (crc_entry_ok i' Hi')) in Heq. injection Heq. lia. }
  split; [done|]. rewrite Hii in Heq. apply (f_equal (Z.lxor (crc_entry i'))) in Heq.
  by rewrite -!Z.lxor_assoc Z.lxor_nilpotent !Z.lxor_0_l in Heq.
Qed.

Lemma lxor_inj_l c a b : Z.lxor c a = Z.lxor c b -> a = b.
Proof.
  intros H. apply (f_equal (Z.lxor c)) in H. by rewrite -!Z.lxor_assoc Z.lxor_nilpotent !Z.lxor_0_l in H.
Qed.

Lemma crc_step_state s s' v :
  0 <= s < two32 -> 0 <= s' < two32 -> crc_step s v = crc_step s' v -> s = s'.
Proof.
  intros Hs Hs' (Hlow & Hup)%crc_step_inv; [|done..].
  rewrite !(Z.lxor_comm _ (Z_of_byte v)) in Hlow. apply lxor_inj_l in Hlow.
  rewrite !land_255 in Hlow. rewrite !Z.shiftr_div_pow2 // in Hup.
  rewrite (Z.div_mod s 256) // (Z.div_mod s' 256) //. by rewrite Hlow Hup.
Qed.

Lemma Z_of_byte_inj a b : Z_of_byte a = Z_of_byte b -> a = b.
Proof. intros H. by rewrite -(byte_of_Z_of_byte a) -(byte_of_Z_of_byte b) H. Qed.

Lemma crc_step_byte s v v' : 0 <= s < two32 -> crc_step s v = crc_step s v' -> v = v'.
Proof. intros Hs (Hlow & _)%crc_step_inv; [|done..]. by apply lxor_inj_l, Z_of_byte_inj in Hlow. Qed.

Lemma crc_update_state data : forall s s',
  0 <= s < two32 -> 0 <= s' < two32 -> crc_update s data = crc_update s' data -> s = s'.
Proof.
  induction data as [|v data IH]; intros s s' Hs Hs' H; [done|].
  apply IH in H; [|by apply crc_step_range..]. by eapply crc_step_state.
Qed.

(** Changing one byte of a message changes its checksum. *)
Lemma Checksum_one_byte l v v' r :
  Checksum (l ++ v :: r) = Checksum (l ++ v' :: r) -> v = v'.
Proof.
  unfold Checksum. rewrite !(Z.lxor_comm _ (two32 - 1)). intros H%lxor_inj_l.
  unfold crc_update in H. rewrite !fold_left_app in H. simpl in H.
  assert (Hs : 0 <= crc_update (two32 - 1) l < two32) by (apply crc_update_range; lia).
  apply crc_update_state in H; [|by apply crc_step_range..]. by apply crc_step_byte in H.
Qed.

Lemma Checksum_range data : 0 <= Checksum data < two32.
Proof. apply (lxor_range 32); [lia|apply (crc_update_range data); lia|lia]. Qed.

(** ** Decoding by parts *)

Lemma crcBuf_parts t q d :
  length q = 8%nat -> crcBuf (Z_of_byte t) (get_le q) d = t :: rev q ++ d.
Proof. intros Hq. unfold crcBuf, put_be. by rewrite byte_of_Z_of_byte -{1}Hq put_get_le. Qed.

Lemma Decode_parts p c t q d :
  length p = 4%nat -> length c = 4%nat -> length q = 8%nat ->
  Decode (p ++ c ++ [t] ++ q ++ d) =
    let computed := Checksum (t :: rev q ++ d) in
    if computed =? get_be c then inr (mkWRecord (get_be c) (Z_of_byte t) (get_le q) d)
    else inl (ErrCorruption (get_le q) (get_be c) computed).
Proof.
  intros Hp Hc Hq. unfold Decode.
  assert (Hlen : HeaderSize <= zlen (p ++ c ++ [t] ++ q ++ d)).
  { unfold zlen, HeaderSize. rewrite !length_app Hp Hc Hq. simpl. lia. }
  destruct (Z.ltb_spec (zlen (p ++ c ++ [t] ++ q ++ d)) HeaderSize); [lia|].
  rewrite (subslice_app_mid p c _ 4 8); [|lia..].
  rewrite (lookup_app_r p) ?Hp; [|lia]. rewrite (lookup_app_r c) ?Hc; [|lia]. cbn [Nat.sub app lookup list_lookup].
  replace (subslice 9 17 (p ++ c ++ t :: q ++ d)) with q; last first.
  { rewrite (app_assoc p) (cons_middle t) (app_assoc (p ++ c)).
    rewrite (subslice_app_mid ((p ++ c) ++ [t]) q d) // !length_app Hp Hc ?Hq //. }
  replace (drop 17 (p ++ c ++ t :: q ++ d)) with d; last first.
  { rewrite (app_assoc p) (cons_middle t) (app_assoc (p ++ c)) (app_assoc ((p ++ c) ++ [t])).
    rewrite drop_app_length' // !length_app Hp Hc Hq //. }
  by rewrite crcBuf_parts.
Qed.

(** Records whose fields are in the range of their encodings. *)
Definition rec_ok (r : WRecord) : Prop :=
  0 <= rec_Type r < 256 /\ is_u64 (rec_Sequence r) /\ 13 + zlen (rec_Data r) <= MaxRecordSize.

Definition enc (r : WRecord) : bytes := fst (Record_Encode r).
Definition sealed_rec (r : WRecord) : WRecord := snd (Record_Encode r).

Lemma enc_eq r :
  enc r = put_le 4 (u32 (4 + 1 + 8 + zlen (rec_Data r)))
            ++ put_be 4 (Checksum (crcBuf (rec_Type r) (rec_Sequence r) (rec_Data r)))
            ++ [byte_of_Z (rec_Type r)] ++ put_le 8 (rec_Sequence r) ++ rec_Data r.
Proof. done. Qed.

Lemma Decode_enc r : 0 <= rec_Type r < 256 -> is_u64 (rec_Sequence r) -> Decode (enc r) = inr (sealed_rec r).
Proof.
  intros Ht Hs. rewrite enc_eq. unfold sealed_rec, Record_Encode. cbn [snd].
  rewrite Decode_parts ?length_put_le ?length_put_be //. cbv zeta.
  set (crc := Checksum (crcBuf _ _ _)).
  change (rev (put_le 8 (rec_Sequence r))) with (put_be 8 (rec_Sequence r)).
  fold (crcBuf (rec_Type r) (rec_Sequence r) (rec_Data r)). fold crc.
  rewrite get_put_be32 u32_small; [|apply Checksum_range]. rewrite Z.eqb_refl.
  by rewrite Z_of_byte_of_Z Z.mod_small // get_put_le64 u64_small.
Qed.

Lemma length_enc r : zlen (enc r) = HeaderSize + zlen (rec_Data r).
Proof. rewrite enc_eq. autorewrite with zlen. unfold HeaderSize. lia. Qed.

Lemma enc_length_field r : rec_ok r -> get_le (take 4 (enc r)) = zlen (enc r) - 4.
Proof.
  intros (_ & _ & Hd). rewrite length_enc enc_eq.
  rewrite take_app_le ?length_put_le // take_ge ?length_put_le // get_put_le32.
  pose proof (zlen_nonneg (rec_Data r)). unfold MaxRecordSize, HeaderSize in *.
  rewrite (u32_small (4 + 1 + 8 + _)); [|lia]. rewrite u32_small; lia.
Qed.

(** ** Scanning a file that was cut short *)

(** The records that the first [n] bytes of the encodings of [rs] hold in full. *)
Fixpoint complete (n : nat) (rs : list WRecord) : list WRecord :=
  match rs with
  | [] => []
  | r :: rs => if decide (length (enc r) <= n)%nat
               then sealed_rec r :: complete (n - length (enc r)) rs else []
  end.

Definition encs (rs : list WRecord) : bytes := concat (map enc rs).

Lemma encs_snoc rs r : encs (rs ++ [r]) = encs rs ++ enc r.
Proof. unfold encs. rewrite map_app concat_app. simpl. by rewrite app_nil_r. Qed.

Lemma ReadAll_loop_stop fuel file acc r rest :
  rec_ok r -> file `prefix_of` enc r ++ rest -> (length file < length (enc r))%nat ->
  ReadAll_loop fuel file acc = inr acc.
Proof.
  intros Hr [k Hk] Hlen. destruct fuel; [done|]. simpl.
  destruct (Z.ltb_spec (zlen file) 4); [done|].
  assert (Ht : take 4 file = take 4 (enc r)).
  { unfold zlen in *. rewrite -(take_app_le file k); [|lia]. rewrite -Hk.
    by rewrite take_app_le; [|lia]. }
  rewrite Ht enc_length_field //. destruct (_ <? _); [done|].
  destruct (Z.ltb_spec (zlen file - 4) (zlen (enc r) - 4)); [done|]. unfold zlen in *. lia.
Qed.

Lemma ReadAll_loop_prefix rs : Forall rec_ok rs -> forall n fuel acc,
  (n < fuel)%nat -> ReadAll_loop fuel (take n (encs rs)) acc = inr (acc ++ complete n rs).
Proof.
  induction 1 as [|r rs Hr Hrs IH]; intros n fuel acc Hf.
  { destruct fuel; [lia|]. simpl. rewrite take_nil. by rewrite app_nil_r. }
  change (encs (r :: rs)) with (enc r ++ encs rs). cbn [complete]. case_decide as Hn; last first.
  { rewrite app_nil_r. apply (ReadAll_loop_stop _ _ _ r (encs rs)); [done|apply prefix_take|].
    rewrite length_take length_app. lia. }
  pose proof (length_enc r) as Hl. pose proof (zlen_nonneg (rec_Data r)) as Hd.
  rewrite take_app_ge //. destruct fuel as [|fuel]; [lia|]. cbn [ReadAll_loop].
  assert (H4 : take 4 (enc r ++ take (n - length (enc r)) (encs rs)) = take 4 (enc r)).
  { apply take_app_le. unfold zlen, HeaderSize in *. lia. }
  rewrite H4 enc_length_field // zlen_app. destruct Hr as (Ht & Hs & Hm).
  pose proof (zlen_nonneg (take (n - length (enc r)) (encs rs))). unfold HeaderSize in Hl.
  rewrite (proj2 (Z.ltb_ge _ 4)); [|lia]. rewrite (proj2 (Z.ltb_ge MaxRecordSize _)); [|lia].
  rewrite (proj2 (Z.ltb_ge _ (zlen (enc r) - 4))); [|lia].
  replace (Z.to_nat (4 + (zlen (enc r) - 4))) with (length (enc r)) by (unfold zlen; lia).
  rewrite take_app_length drop_app_length Decode_enc //.
  rewrite IH; [by rewrite -app_assoc|]. unfold zlen in *. lia.
Qed.

Lemma complete_all rs : complete (length (encs rs)) rs = map sealed_rec rs.
Proof.
  induction rs as [|r rs IH]; [done|]. change (encs (r :: rs)) with (enc r ++ encs rs).
  rewrite length_app. cbn [complete map]. rewrite decide_True; [|lia]. f_equal. rewrite -IH. f_equal. lia.
Qed.

Lemma complete_cap rs : forall n, complete (n `min` length (encs rs)) rs = complete n rs.
Proof.
  induction rs as [|r rs IH]; intros n; [done|]. change (encs (r :: rs)) with (enc r ++ encs rs).
  rewrite length_app. cbn [complete]. destruct (decide (length (enc r) <= n)%nat).
  - rewrite decide_True; [|lia]. f_equal. rewrite -(IH (n - length (enc r))%nat). f_equal. lia.
  - rewrite decide_False //. lia.
Qed.

Lemma ReadAll_take rs n : Forall rec_ok rs -> ReadAll (take n (encs rs)) = inr (complete n rs).
Proof.
  intros Hrs.
  unfold ReadAll. set (m := length (take n (encs rs))).
  assert (Hm : take n (encs rs) = take m (encs rs)) by (unfold m; by rewrite take_length_take).
  rewrite Hm ReadAll_loop_prefix //; [|lia].
  unfold m. by rewrite length_take complete_cap.
Qed.

Lemma ReadAll_encs rs : Forall rec_ok rs -> ReadAll (encs rs) = inr (map sealed_rec rs).
Proof. intros Hrs. by rewrite -{1}(firstn_all (encs rs)) ReadAll_take // complete_all. Qed.

Lemma complete_prefix rs : forall rs' n m,
  (n <= m)%nat -> rs `prefix_of` rs' -> complete n rs `prefix_of` complete m rs'.
Proof.
  induction rs as [|r rs IH]; intros rs' n m Hnm [k ->]; [apply prefix_nil|].
  cbn [complete app]. case_decide; [|apply prefix_nil]. rewrite decide_True; [|lia].
  apply prefix_cons, IH; [lia|by exists k].
Qed.

Lemma complete_sub rs : forall n, complete n rs `prefix_of` map sealed_rec rs.
Proof.
  induction rs as [|r rs IH]; intros n; [done|]. cbn [complete map].
  case_decide; [by apply prefix_cons|apply prefix_nil].
Qed.

(** ** Damaged records *)

Lemma Decode_mismatch p c t q d :
  length p = 4%nat -> length c = 4%nat -> length q = 8%nat -> Checksum (t :: rev q ++ d) <> get_be c ->
  exists seq stored computed, Decode (p ++ c ++ [t] ++ q ++ d) = inl (ErrCorruption seq stored computed).
Proof.
  intros Hp Hc Hq Hck. rewrite Decode_parts //. cbv zeta.
  destruct (Z.eqb_spec (Checksum (t :: rev q ++ d)) (get_be c)); [done|eauto].
Qed.

Lemma get_be_inj a b : length a = length b -> get_be a = get_be b -> a = b.
Proof.
  unfold get_be. intros Hl H. apply rev_inj. rewrite -(put_get_le (rev a)) -(put_get_le (rev b)).
  by rewrite !length_rev Hl H.
Qed.

(** Overwriting one byte of a list, in the shape that [Checksum_one_byte] uses. *)
Lemma insert_split (l : bytes) i b b' :
  l !! i = Some b -> exists l1 l2, l = l1 ++ b :: l2 /\ <[i := b']> l = l1 ++ b' :: l2.
Proof.
  intros H. exists (take i l), (drop (S i) l). split; [by rewrite take_drop_middle|].
  apply insert_take_drop. by eapply lookup_lt_Some.
Qed.

(** ** Properties *)

(** Decoding an encoded record gives back its type, sequence number, data
    and checksum. *)
Theorem record_roundtrip (r : WRecord) (Ht : 0 <= rec_Type r < 256) (Hs : is_u64 (rec_Sequence r)) :
  let '(buf, r') := Record_Encode r in
  Decode buf = inr r' /\ rec_Type r' = rec_Type r /\ rec_Sequence r' = rec_Sequence r /\ rec_Data r' = rec_Data r.
Proof. pose proof (Decode_enc r Ht Hs). done. Qed.

Lemma record_roundtrip_witness :
  let '(buf, r') := Record_Encode (mkWRecord 0 RecordData 7 (bytes_of_string "data")) in
  Decode buf = inr r' /\ rec_Type r' = RecordData /\ rec_Sequence r' = 7 /\ rec_Data r' = bytes_of_string "data".
Proof. apply (record_roundtrip (mkWRecord 0 RecordData 7 (bytes_of_string "data"))); vm_compute; split; congruence. Defined.

(** C21: changing any single byte of a stored record behind its length field
    makes decoding report corruption. *)
Theorem record_corruption_detected (r : WRecord) (i : nat) (b b' : ascii)
  (Hi : (4 <= i)%nat) (Hb : enc r !! i = Some b) (Hne : b' <> b) :
  exists seq stored computed, Decode (<[i := b']> (enc r)) = inl (ErrCorruption seq stored computed).
Proof.
  rewrite enc_eq in Hb |- *.
  set (p := put_le 4 _) in *. set (q := put_le 8 _) in *. set (t := byte_of_Z _) in *.
  set (d := rec_Data r) in *.
  assert (Hp : length p = 4%nat) by apply length_put_le. assert (Hq : length q = 8%nat) by apply length_put_le.
  assert (Hsum : Checksum (crcBuf (rec_Type r) (rec_Sequence r) d) = Checksum (t :: rev q ++ d)) by done.
  rewrite Hsum in Hb |- *. set (crc := Checksum (t :: rev q ++ d)) in *.
  assert (Hget : get_be (put_be 4 crc) = crc) by (rewrite get_put_be32 u32_small //; apply Checksum_range).
  set (c := put_be 4 crc) in *. assert (Hc : length c = 4%nat) by apply length_put_be.
  assert (Hcrc : crc = Checksum (t :: rev q ++ d)) by done. clear Hsum. clearbody c crc p q t d.
  rewrite insert_app_r_alt ?Hp; [|lia]. rewrite lookup_app_r ?Hp in Hb; [|lia].
  rewrite lookup_app in Hb. destruct (c !! (i - 4)%nat) as [b0|] eqn:Hci.
  { injection Hb as ->. rewrite insert_app_l; [|by eapply lookup_lt_Some].
    apply Decode_mismatch; rewrite ?length_insert //. rewrite -Hcrc -Hget. intros Heq%get_be_inj; [|by rewrite length_insert].
    apply Hne. apply (f_equal (.!! (i - 4)%nat)) in Heq.
    rewrite Hci list_lookup_insert_eq in Heq; [congruence|by eapply lookup_lt_Some]. }
  apply lookup_ge_None in Hci. rewrite insert_app_r_alt //. rewrite Hc in Hb |- *.
  assert (Hdmg : forall t' q' d', length q' = 8%nat -> Checksum (t' :: rev q' ++ d') <> crc ->
    exists seq stored computed, Decode (p ++ c ++ [t'] ++ q' ++ d') = inl (ErrCorruption seq stored computed)).
  { intros t' q' d' Hq' Hck. apply Decode_mismatch; [done..|by rewrite Hget]. }
  destruct (i - 4 - 4)%nat as [|j]; simpl in Hb.
  { injection Hb as Hb. apply (Hdmg b' q d Hq). rewrite Hcrc. intros Heq.
    apply (Checksum_one_byte [] _ _ (rev q ++ d)) in Heq. congruence. }
  cbn [app insert list_insert]. rewrite lookup_app in Hb. destruct (q !! j) as [b0|] eqn:Hqj.
  - injection Hb as ->. rewrite insert_app_l; [|by eapply lookup_lt_Some].
    apply (Hdmg t (<[j:=b']> q) d); [by rewrite length_insert|].
    destruct (insert_split q j b b' Hqj) as (q1 & q2 & Hq1 & ->). rewrite Hcrc Hq1 !rev_app_distr /= -!app_assoc.
    intros Heq. by apply (Checksum_one_byte (t :: rev q2)) in Heq.
  - apply lookup_ge_None in Hqj. rewrite insert_app_r_alt //.
    destruct (insert_split d (j - length q) b b' Hb) as (d1 & d2 & Hd1 & ->).
    apply (Hdmg t q); [done|]. rewrite Hcrc Hd1. intros Heq.
    rewrite !(app_assoc (rev q)) !(app_comm_cons (rev q ++ d1)) in Heq. by apply Checksum_one_byte in Heq.
Qed.

Lemma record_corruption_detected_witness :
  exists seq stored computed,
    Decode (<[20%nat := "X"%char]> (enc (mkWRecord 0 RecordData 7 (bytes_of_string "data"))))
      = inl (ErrCorruption seq stored computed).
Proof.
  apply (record_corruption_detected (mkWRecord 0 RecordData 7 (bytes_of_string "data")) 20 "a"%char "X"%char);
    [lia|vm_compute; reflexivity|congruence].
Defined.

(** A segment file that was cut after any number of bytes, as by a crash
    in the middle of a write, reads without error as exactly the records it
    still holds in full. *)
Theorem torn_tail_ignored (rs : list WRecord) (n : nat) (Hrs : Forall rec_ok rs) :
  ReadAll (take n (encs rs)) = inr (complete n rs).
Proof.
  by apply ReadAll_take.
Qed.

Lemma torn_tail_ignored_witness :
  ReadAll (take 40 (encs [mkWRecord 0 RecordData 1 (bytes_of_string "data"); mkWRecord 0 RecordData 2 (bytes_of_string "more")]))
    = inr (complete 40 [mkWRecord 0 RecordData 1 (bytes_of_string "data"); mkWRecord 0 RecordData 2 (bytes_of_string "more")]).
Proof.
  apply (torn_tail_ignored [mkWRecord 0 RecordData 1 (bytes_of_string "data");
                            mkWRecord 0 RecordData 2 (bytes_of_string "more")] 40).
  repeat constructor; vm_compute; congruence.
Defined.
