(* ===== verification/Wal.v ===== *)
(** * Wal: the write-ahead log over a file system with crashes
    (pkg/storage/wal/segment.go and wal.go)

    The file system of the log directory has names that point to inodes, and
    inodes with the bytes written and how many of them an fsync has made
    durable; the outcome of each disk operation is scripted.  On it run the
    operations of a segment and of the log: group commit with its waiting
    writers, rotation, recovery, checkpoints and reads. *)

From S2P Require Import Prelude Bytes Hlc WalRecord.

(** ** The file system *)

Record Inode := mkInode {
  ino_data : bytes;
  ino_synced : nat;
}.

(** [fs_faults] scripts the coming disk operations: [None] succeeds, [Some k]
    fails, a write after its first [k] bytes; past the end of the script
    everything succeeds. *)
Record FS := mkFS {
  fs_dir : gmap string nat;
  fs_inodes : list Inode;
  fs_faults : list (option nat);
}.

Definition next_fault (fs : FS) : option nat * FS :=
  match fs_faults fs with
  | [] => (None, fs)
  | f :: rest => (f, mkFS (fs_dir fs) (fs_inodes fs) rest)
  end.

Definition ino_of (fs : FS) (ino : nat) : Inode := default (mkInode [] 0) (fs_inodes fs !! ino).

Definition set_inode (ino : nat) (i : Inode) (fs : FS) : FS :=
  mkFS (fs_dir fs) (<[ino := i]> (fs_inodes fs)) (fs_faults fs).

(** [os.OpenFile(path, O_CREATE|O_WRONLY|O_APPEND)]: the inode behind the name,
    or a new one. *)
Definition OpenAppend (path : string) (fs : FS) : option nat * FS :=
  let '(fault, fs) := next_fault fs in
  match fault with
  | Some _ => (None, fs)
  | None =>
      match fs_dir fs !! path with
      | Some ino => (Some ino, fs)
      | None =>
          let ino := length (fs_inodes fs) in
          (Some ino, mkFS (<[path := ino]> (fs_dir fs)) (fs_inodes fs ++ [mkInode [] 0]) (fs_faults fs))
      end
  end.

(** [file.Write] of a file opened for appending: whether all was written. *)
Definition FileWrite (ino : nat) (data : bytes) (fs : FS) : bool * FS :=
  let '(fault, fs) := next_fault fs in
  let i := ino_of fs ino in
  match fault with
  | Some k => (false, set_inode ino (mkInode (ino_data i ++ take k data) (ino_synced i)) fs)
  | None => (true, set_inode ino (mkInode (ino_data i ++ data) (ino_synced i)) fs)
  end.

Definition FileSync (ino : nat) (fs : FS) : bool * FS :=
  let '(fault, fs) := next_fault fs in
  let i := ino_of fs ino in
  match fault with
  | Some _ => (false, fs)
  | None => (true, set_inode ino (mkInode (ino_data i) (length (ino_data i))) fs)
  end.

(** [os.Open] and reading the whole file. *)
Definition OpenRead (path : string) (fs : FS) : option bytes * FS :=
  let '(fault, fs) := next_fault fs in
  match fault, fs_dir fs !! path with
  | None, Some ino => (Some (ino_data (ino_of fs ino)), fs)
  | _, _ => (None, fs)
  end.

Definition Remove (path : string) (fs : FS) : bool * FS :=
  let '(fault, fs) := next_fault fs in
  match fault, fs_dir fs !! path with
  | None, Some _ => (true, mkFS (delete path (fs_dir fs)) (fs_inodes fs) (fs_faults fs))
  | _, _ => (false, fs)
  end.

(** A crash keeps of each file the synced bytes and some of those behind them. *)
Definition crash_inode (keep : nat) (i : Inode) : Inode :=
  let data := take (Nat.max keep (ino_synced i)) (ino_data i) in
  mkInode data (length data).

Definition crash (keep : nat -> nat) (fs : FS) : FS :=
  mkFS (fs_dir fs) (imap (fun n => crash_inode (keep n)) (fs_inodes fs)) [].

(** ** Segments *)

Definition DefaultSegmentSize : Z := 64 * 1024 * 1024.
Definition WALFileExtension : string := ".wal".

Record Segment := mkSegment {
  seg_id : Z;
  seg_file : nat;
  seg_path : string;
  seg_size : Z;
  seg_maxSize : Z;
  seg_firstSeq : Z;
  seg_lastSeq : Z;
  seg_closed : bool;
  seg_syncNeeded : bool;
}.

Definition segName (id : Z) : string :=
  string_of_bytes (fmt_020d id ++ bytes_of_string WALFileExtension).

Definition writeRecord (rec : WRecord) (s : Segment) (fs : FS) : option WalError * Segment * FS :=
  let '(encoded, rec) := Record_Encode rec in
  if seg_maxSize s <? i64 (seg_size s + zlen encoded) then (Some ErrSegmentFull, s, fs)
  else
    let '(ok, fs) := FileWrite (seg_file s) encoded fs in
    if ok then
      let firstSeq := if (seg_firstSeq s =? 0) && (rec_Type rec =? RecordData)
                      then rec_Sequence rec else seg_firstSeq s in
      (None, mkSegment (seg_id s) (seg_file s) (seg_path s) (i64 (seg_size s + zlen encoded))
               (seg_maxSize s) firstSeq (rec_Sequence rec) (seg_closed s) true, fs)
    else (Some ErrIO, s, fs).

Definition headerRecord (id : Z) : WRecord :=
  mkWRecord 0 RecordSegmentHeader id (bytes_of_string "segment_id=" ++ fmt_d id).

Definition newSegment (id maxSize : Z) (fs : FS) : (WalError + Segment) * FS :=
  let path := segName id in
  let '(file, fs) := OpenAppend path fs in
  match file with
  | None => (inl ErrIO, fs)
  | Some file =>
      let seg := mkSegment id file path 0 maxSize 0 0 false false in
      let '(err, seg, fs) := writeRecord (headerRecord id) seg fs in
      match err with
      | Some err => (inl err, fs)
      | None => (inr seg, fs)
      end
  end.

Definition Segment_Sync (s : Segment) (fs : FS) : option WalError * Segment * FS :=
  if negb (seg_syncNeeded s) || seg_closed s then (None, s, fs)
  else
    let '(ok, fs) := FileSync (seg_file s) fs in
    if ok then
      (None, mkSegment (seg_id s) (seg_file s) (seg_path s) (seg_size s) (seg_maxSize s)
               (seg_firstSeq s) (seg_lastSeq s) (seg_closed s) false, fs)
    else (Some ErrIO, s, fs).

Definition IsFull (s : Segment) : bool := seg_maxSize s <=? seg_size s.

Definition Segment_Close (s : Segment) (fs : FS) : option WalError * Segment * FS :=
  if seg_closed s then (None, s, fs)
  else
    let s := mkSegment (seg_id s) (seg_file s) (seg_path s) (seg_size s) (seg_maxSize s)
               (seg_firstSeq s) (seg_lastSeq s) true (seg_syncNeeded s) in
    if seg_syncNeeded s then
      let '(ok, fs) := FileSync (seg_file s) fs in
      if ok then (None, s, fs) else (Some ErrIO, s, fs)
    else (None, s, fs).

(** ** The log *)

Record WALEntry := mkWALEntry {
  went_Sequence : Z;
  went_Timestamp : Z;
  went_Data : bytes;
  went_Type : Z;
}.

#[global] Instance WALEntry_eq_dec : EqDecision WALEntry.
Proof. solve_decision. Defined.

(** A channel of [pendingSync] is identified with the entry that the call of
    [Write] waiting on it will return. *)
Record WAL := mkWAL {
  w_active : Segment;
  w_sealed : list Segment;
  w_nextSeq : Z;
  w_clock : HLC;
  w_segmentSize : Z;
  w_pendingSync : list WALEntry;
  w_syncTimer : bool;
  w_closed : bool;
  w_bytesWritten : Z;
  w_recordsWritten : Z;
  w_syncCount : Z;
}.

Definition set_segments (active : Segment) (sealed : list Segment) (w : WAL) : WAL :=
  mkWAL active sealed (w_nextSeq w) (w_clock w) (w_segmentSize w) (w_pendingSync w) (w_syncTimer w)
    (w_closed w) (w_bytesWritten w) (w_recordsWritten w) (w_syncCount w).

Definition encodeEntryData (ts : Z) (data : bytes) : bytes := ToBytes ts ++ data.

Definition decodeEntryData (encoded : bytes) : Z * bytes :=
  if zlen encoded <? 8 then (0, encoded)
  else (HLCTimestampFromBytes (take 8 encoded), drop 8 encoded).

Definition rotateSegment (w : WAL) (fs : FS) : option WalError * WAL * FS :=
  let '(err, active, fs) := Segment_Sync (w_active w) fs in
  match err with
  | Some err => (Some err, set_segments active (w_sealed w) w, fs)
  | None =>
      let w := set_segments active (w_sealed w ++ [active]) w in
      let newID := u64 (zlen (w_sealed w) + 1) in
      let '(res, fs) := newSegment newID (w_segmentSize w) fs in
      match res with
      | inl err => (Some err, w, fs)
      | inr seg => (None, set_segments seg (w_sealed w) w, fs)
      end
  end.

Definition writeToActive (rec : WRecord) (w : WAL) (fs : FS) : option WalError * WAL * FS :=
  let '(err, active, fs) := writeRecord rec (w_active w) fs in
  let w := set_segments active (w_sealed w) w in
  match err with
  | Some ErrSegmentFull =>
      let '(err, w, fs) := rotateSegment w fs in
      match err with
      | Some err => (Some err, w, fs)
      | None =>
          let '(err, active, fs) := writeRecord rec (w_active w) fs in
          (err, set_segments active (w_sealed w) w, fs)
      end
  | Some err => (Some err, w, fs)
  | None =>
      (None,
       mkWAL (w_active w) (w_sealed w) (w_nextSeq w) (w_clock w) (w_segmentSize w) (w_pendingSync w)
         (w_syncTimer w) (w_closed w) (i64 (w_bytesWritten w + i64 (HeaderSize + zlen (rec_Data rec))))
         (i64 (w_recordsWritten w + 1)) (w_syncCount w), fs)
  end.

(** [Write] up to the point where the caller blocks on its channel: an error,
    or the entry it waits for.  [ptMs] is the wall clock. *)
Definition Write_begin (ptMs : Z) (data : bytes) (w : WAL) (fs : FS) : (WalError + WALEntry) * WAL * FS :=
  if w_closed w then (inl ErrWALClosed, w, fs)
  else
    let seq := w_nextSeq w in
    let '(ts, clock) := HLC_Now ptMs (w_clock w) in
    let w := mkWAL (w_active w) (w_sealed w) (u64 (w_nextSeq w + 1)) clock (w_segmentSize w)
               (w_pendingSync w) (w_syncTimer w) (w_closed w) (w_bytesWritten w)
               (w_recordsWritten w) (w_syncCount w) in
    let entry := mkWALEntry seq ts data RecordData in
    let rec := mkWRecord 0 RecordData seq (encodeEntryData ts data) in
    let '(err, w, fs) := writeToActive rec w fs in
    match err with
    | Some err => (inl err, w, fs)
    | None =>
        (inr entry,
         mkWAL (w_active w) (w_sealed w) (w_nextSeq w) (w_clock w) (w_segmentSize w)
           (w_pendingSync w ++ [entry]) true (w_closed w) (w_bytesWritten w) (w_recordsWritten w)
           (w_syncCount w), fs)
    end.

(** [flushPendingSync] up to the release of the lock: the waiters it serves. *)
Definition flush_grab (w : WAL) : list WALEntry * WAL :=
  (w_pendingSync w,
   mkWAL (w_active w) (w_sealed w) (w_nextSeq w) (w_clock w) (w_segmentSize w) [] false
     (w_closed w) (w_bytesWritten w) (w_recordsWritten w) (w_syncCount w)).

(** The rest of [flushPendingSync]: what is sent to every waiter. *)
Definition flush_sync (w : WAL) (fs : FS) : option WalError * WAL * FS :=
  let '(err, active, fs) := Segment_Sync (w_active w) fs in
  (err,
   mkWAL active (w_sealed w) (w_nextSeq w) (w_clock w) (w_segmentSize w) (w_pendingSync w)
     (w_syncTimer w) (w_closed w) (w_bytesWritten w) (w_recordsWritten w) (i64 (w_syncCount w + 1)), fs).

(** The end of [WriteSync], after [Write] has returned. *)
Definition force_sync (w : WAL) (fs : FS) : option WalError * WAL * FS :=
  let '(err, active, fs) := Segment_Sync (w_active w) fs in
  (err, set_segments active (w_sealed w) w, fs).

(** [filepath.Glob(dir/*.wal)], sorted. *)
Definition has_suffix (suffix s : string) : bool :=
  let l := bytes_of_string s in
  let k := bytes_of_string suffix in
  bool_decide (drop (length l - length k) l = k).

Definition walFiles (fs : FS) : list string :=
  sort_Strings (List.filter (has_suffix WALFileExtension) (map_to_list (fs_dir fs)).*1).

Definition max_data_seq (records : list WRecord) (maxSeq : Z) : Z :=
  fold_left (fun m rec => if (rec_Type rec =? RecordData) && (m <? rec_Sequence rec)
                          then rec_Sequence rec else m) records maxSeq.

Fixpoint recover_loop (files : list string) (maxSeq : Z) (fs : FS) : (WalError + Z) * FS :=
  match files with
  | [] => (inr maxSeq, fs)
  | path :: files =>
      let '(file, fs) := OpenRead path fs in
      match file with
      | None => (inl ErrIO, fs)
      | Some file =>
          match ReadAll file with
          | inl err => if IsCorruption err then (inl err, fs) else recover_loop files maxSeq fs
          | inr records => recover_loop files (max_data_seq records maxSeq) fs
          end
      end
  end.

(** The next sequence number after recovery; [nextSeq] when there is no file. *)
Definition recover (nextSeq : Z) (fs : FS) : (WalError + Z) * FS :=
  match walFiles fs with
  | [] => (inr nextSeq, fs)
  | files =>
      let '(res, fs) := recover_loop files 0 fs in
      match res with
      | inl err => (inl err, fs)
      | inr maxSeq => (inr (u64 (maxSeq + 1)), fs)
      end
  end.

(** [Open], with the segment size that the source fixes to
    [DefaultSegmentSize] as an argument. *)
Definition Open_sized (segmentSize : Z) (hlc : HLC) (fs : FS) : (WalError + WAL) * FS :=
  let '(fault, fs) := next_fault fs in
  match fault with
  | Some _ => (inl ErrIO, fs)
  | None =>
      let '(res, fs) := recover 1 fs in
      match res with
      | inl err => (inl err, fs)
      | inr nextSeq =>
          let '(res, fs) := newSegment nextSeq segmentSize fs in
          match res with
          | inl err => (inl err, fs)
          | inr seg => (inr (mkWAL seg [] nextSeq hlc segmentSize [] false false 0 0 0), fs)
          end
      end
  end.

Definition Open (hlc : HLC) (fs : FS) : (WalError + WAL) * FS := Open_sized DefaultSegmentSize hlc fs.

(** The loop of [Checkpoint] that deletes sealed segments: those that remain. *)
Fixpoint delete_loop (seq : Z) (sealed : list Segment) (fs : FS) : list Segment * FS :=
  match sealed with
  | [] => ([], fs)
  | seg :: rest =>
      if seg_lastSeq seg <=? seq then
        let '(_, _, fs) := Segment_Close seg fs in
        let '(_, fs) := Remove (seg_path seg) fs in
        delete_loop seq rest fs
      else
        let '(remaining, fs) := delete_loop seq rest fs in (seg :: remaining, fs)
  end.

Definition Checkpoint (seq : Z) (w : WAL) (fs : FS) : option WalError * WAL * FS :=
  let rec := mkWRecord 0 RecordCheckpoint seq (bytes_of_string "checkpoint_seq=" ++ fmt_d seq) in
  let '(err, w, fs) := writeToActive rec w fs in
  match err with
  | Some err => (Some err, w, fs)
  | None =>
      let '(err, active, fs) := Segment_Sync (w_active w) fs in
      let w := set_segments active (w_sealed w) w in
      match err with
      | Some err => (Some err, w, fs)
      | None =>
          let '(remaining, fs) := delete_loop seq (w_sealed w) fs in
          (None, set_segments (w_active w) remaining w, fs)
      end
  end.

Definition entry_of_record (rec : WRecord) : WALEntry :=
  let '(ts, data) := decodeEntryData (rec_Data rec) in
  mkWALEntry (rec_Sequence rec) ts data (rec_Type rec).

Definition segment_entries (startSeq : Z) (records : list WRecord) : list WALEntry :=
  map entry_of_record
    (List.filter (fun rec => (rec_Type rec =? RecordData) && (startSeq <=? rec_Sequence rec)) records).

(** [ctxDone n] is whether the context is done when the [n]-th segment is
    reached; the result has the entries read and whether all were. *)
Fixpoint ReadFrom_loop (ctxDone : nat -> bool) (startSeq : Z) (n : nat) (segs : list Segment)
    (entries : list WALEntry) (fs : FS) : list WALEntry * bool * FS :=
  match segs with
  | [] => (entries, true, fs)
  | seg :: segs =>
      if ctxDone n then (entries, false, fs)
      else
        let '(file, fs) := OpenRead (seg_path seg) fs in
        match file with
        | None => ReadFrom_loop ctxDone startSeq (S n) segs entries fs
        | Some file =>
            let records := match ReadAll file with inl _ => [] | inr records => records end in
            ReadFrom_loop ctxDone startSeq (S n) segs (entries ++ segment_entries startSeq records) fs
        end
  end.

Definition ReadFrom (ctxDone : nat -> bool) (startSeq : Z) (w : WAL) (fs : FS) : list WALEntry * bool * FS :=
  ReadFrom_loop ctxDone startSeq 0 (w_sealed w ++ [w_active w]) [] fs.

Record WALStats := mkWALStats {
  BytesWritten : Z;
  RecordsWritten : Z;
  SyncCount : Z;
  SegmentCount : Z;
  NextSequence : Z;
}.

Definition WAL_Stats (w : WAL) : WALStats :=
  mkWALStats (w_bytesWritten w) (w_recordsWritten w) (w_syncCount w) (zlen (w_sealed w) + 1) (w_nextSeq w).

Fixpoint close_all (segs : list Segment) (fs : FS) : list Segment * FS :=
  match segs with
  | [] => ([], fs)
  | seg :: segs =>
      let '(_, seg, fs) := Segment_Close seg fs in
      let '(segs, fs) := close_all segs fs in (seg :: segs, fs)
  end.

(** [Close]: its error, the writers that are woken with [ErrWALClosed], the
    closed log. *)
Definition WAL_Close (w : WAL) (fs : FS) : option WalError * list WALEntry * WAL * FS :=
  if w_closed w then (None, [], w, fs)
  else
    let '(sealed, fs) := close_all (w_sealed w) fs in
    let '(err, active, fs) := Segment_Close (w_active w) fs in
    (err, w_pendingSync w,
     mkWAL active sealed (w_nextSeq w) (w_clock w) (w_segmentSize w) [] (w_syncTimer w) true
       (w_bytesWritten w) (w_recordsWritten w) (w_syncCount w), fs).

(** ** Concurrent writers

    The calls on one log interleave at its lock: [Write] up to the point
    where it blocks, the two halves of a flush by the group commit timer, the
    forced sync of [WriteSync], [Checkpoint] and [Close].  [ws_written]
    lists the entries that [Write] has handed to the active segment,
    [ws_acked] those whose [Write] has returned without an error. *)

Record WS := mkWS {
  ws_wal : WAL;
  ws_fs : FS;
  ws_inflight : list (list WALEntry);
  ws_written : list WALEntry;
  ws_acked : list WALEntry;
}.

Inductive wal_op :=
| OpWrite (ptMs : Z) (data : bytes)
| OpFlushGrab
| OpFlushSync (batch : nat)
| OpForceSync
| OpCheckpoint (seq : Z)
| OpClose.

Definition wal_step (o : wal_op) (s : WS) : WS :=
  let w := ws_wal s in
  let fs := ws_fs s in
  let written := ws_written s in
  match o with
  | OpWrite ptMs data =>
      let '(res, w, fs) := Write_begin ptMs data w fs in
      mkWS w fs (ws_inflight s) (match res with inr e => written ++ [e] | inl _ => written end) (ws_acked s)
  | OpFlushGrab =>
      let '(waiting, w) := flush_grab w in
      mkWS w fs (match waiting with [] => ws_inflight s | _ => ws_inflight s ++ [waiting] end) written (ws_acked s)
  | OpFlushSync batch =>
      match ws_inflight s !! batch with
      | None => s
      | Some waiting =>
          let '(err, w, fs) := flush_sync w fs in
          mkWS w fs (delete batch (ws_inflight s)) written
            (match err with None => ws_acked s ++ waiting | Some _ => ws_acked s end)
      end
  | OpForceSync =>
      let '(_, w, fs) := force_sync w fs in mkWS w fs (ws_inflight s) written (ws_acked s)
  | OpCheckpoint seq =>
      let '(_, w, fs) := Checkpoint seq w fs in mkWS w fs (ws_inflight s) written (ws_acked s)
  | OpClose =>
      let '(_, _, w, fs) := WAL_Close w fs in mkWS w fs (ws_inflight s) written (ws_acked s)
  end.

Definition wal_run (ops : list wal_op) (s : WS) : WS := fold_left (fun s o => wal_step o s) ops s.

Definition emptyFS : FS := mkFS ∅ [] [].

(** The entries the files of the directory hold. *)
Definition disk_entries (fs : FS) : list WALEntry :=
  concat (map (fun p => match ReadAll (ino_data (ino_of fs p.2)) with
                        | inl _ => [] | inr records => segment_entries 0 records end)
              (map_to_list (fs_dir fs))).

(** A log just opened. *)
Definition ws_start (w : WAL) (fs : FS) : WS := mkWS w fs [] [] [].

(** ** What the first life of a log keeps invariant

    From an empty directory the segments have the identifiers 1, 2, ... and
    their files the inodes 0, 1, ...; each file holds the encodings of the
    records written to it.  [recs] has the records of the sealed segments,
    [rs] those of the active one. *)

Fixpoint dir_of (n : nat) : gmap string nat :=
  match n with
  | O => ∅
  | S n => <[segName (Z.of_nat n + 1) := n]> (dir_of n)
  end.

Record seg_inv (max : Z) (j : nat) (g : Segment) (rs : list WRecord) (i : Inode) : Prop := {
  sv_file : seg_file g = j;
  sv_path : seg_path g = segName (Z.of_nat j + 1);
  sv_max : seg_maxSize g = max;
  sv_size : seg_size g = zlen (encs rs);
  sv_fits : seg_size g <= max;
  sv_data : ino_data i = encs rs;
  sv_recs : Forall rec_ok rs;
  sv_synced : (ino_synced i <= length (ino_data i))%nat;
  sv_clean : seg_syncNeeded g = false \/ seg_closed g = true -> ino_synced i = length (ino_data i);
}.

Record store_inv (max : Z) (sealed : list Segment) (active : Segment)
    (recs : list (list WRecord)) (rs : list WRecord) (fs : FS) : Prop := {
  si_faults : fs_faults fs = [];
  si_max : 64 <= max <= MaxRecordSize;
  si_recs : length recs = length sealed;
  si_inodes : length (fs_inodes fs) = S (length sealed);
  si_dir : fs_dir fs = dir_of (S (length sealed));
  si_sealed : forall j g, sealed !! j = Some g -> exists rs' i,
    recs !! j = Some rs' /\ fs_inodes fs !! j = Some i /\ seg_inv max j g rs' i /\
    seg_syncNeeded g = false;
  si_active : exists i, fs_inodes fs !! length sealed = Some i /\ seg_inv max (length sealed) active rs i;
}.

Lemma next_fault_none fs : fs_faults fs = [] -> next_fault fs = (None, fs).
Proof. unfold next_fault. by intros ->. Qed.

Lemma FileWrite_ok ino data fs :
  fs_faults fs = [] ->
  FileWrite ino data fs = (true, set_inode ino (mkInode (ino_data (ino_of fs ino) ++ data) (ino_synced (ino_of fs ino))) fs).
Proof. intros H. unfold FileWrite. by rewrite next_fault_none. Qed.

Lemma FileSync_ok ino fs :
  fs_faults fs = [] ->
  FileSync ino fs = (true, set_inode ino (mkInode (ino_data (ino_of fs ino)) (length (ino_data (ino_of fs ino)))) fs).
Proof. intros H. unfold FileSync. by rewrite next_fault_none. Qed.

Lemma ino_of_lookup fs j i : fs_inodes fs !! j = Some i -> ino_of fs j = i.
Proof. unfold ino_of. by intros ->. Qed.

(** ** Names *)

Lemma segName_inj a b : 0 <= a < two64 -> 0 <= b < two64 -> segName a = segName b -> a = b.
Proof.
  unfold segName, fmt_020d. intros Ha Hb H. apply (f_equal bytes_of_string) in H.
  rewrite !bytes_of_string_of_bytes in H. apply app_inv_tail in H.
  apply dec_digits_inj in H; [done|..]; (split; [lia|]);
    (eapply Z.lt_le_trans; [apply Ha || apply Hb|vm_compute; congruence]).
Qed.

Lemma dir_of_lookup n name j :
  Z.of_nat n < two64 -> dir_of n !! name = Some j <-> (j < n)%nat /\ name = segName (Z.of_nat j + 1).
Proof.
  induction n as [|n IH]; intros Hn; cbn [dir_of]; [rewrite lookup_empty; split; [done|lia]|].
  rewrite lookup_insert. case_decide as Heq.
  - split; [intros [= <-]; split; [lia|done]|]. intros [Hj ->]. f_equal.
    apply segName_inj in Heq; lia.
  - rewrite IH; [|lia]. split; intros [Hj ->]; (split; [|done]); [lia|].
    destruct (decide (j = n)) as [->|]; [done|lia].
Qed.

Lemma dir_of_fresh n : Z.of_nat n + 1 < two64 -> dir_of n !! segName (Z.of_nat n + 1) = None.
Proof.
  intros Hn. destruct (dir_of n !! _) as [j|] eqn:Hl; [|done]. apply dir_of_lookup in Hl as [Hj Hs]; [|lia].
  apply segName_inj in Hs; lia.
Qed.

(** ** Segments under the invariant *)

Definition rec_small (rec : WRecord) : Prop :=
  0 <= rec_Type rec < 256 /\ is_u64 (rec_Sequence rec) /\ zlen (rec_Data rec) < two32.

(** A record is refused because it does not fit, or it is appended. *)
Lemma writeRecord_spec max j g rs i fs rec :
  fs_faults fs = [] -> fs_inodes fs !! j = Some i -> seg_inv max j g rs i -> seg_closed g = false ->
  max <= MaxRecordSize -> rec_small rec ->
  let size := seg_size g + HeaderSize + zlen (rec_Data rec) in
  (max < size /\ writeRecord rec g fs = (Some ErrSegmentFull, g, fs)) \/
  (size <= max /\ exists g' i', writeRecord rec g fs = (None, g', set_inode j i' fs) /\
     seg_inv max j g' (rs ++ [rec]) i' /\ ino_synced i' = ino_synced i /\ seg_closed g' = false).
Proof.
  intros Hf Hi [] Hcl Hmax (Ht & Hs & Hd). simpl. unfold writeRecord. pose proof (length_enc rec) as Hl.
  destruct (Record_Encode rec) as [encoded rec'] eqn:He.
  assert (enc rec = encoded /\ rec_Type rec' = rec_Type rec /\ rec_Sequence rec' = rec_Sequence rec) as (Henc & -> & ->)
    by (unfold enc; rewrite He; by injection He as <- <-).
  rewrite Henc in Hl. rewrite sv_max0. pose proof (zlen_nonneg (encs rs)). pose proof (zlen_nonneg (rec_Data rec)).
  unfold MaxRecordSize, HeaderSize in *. rewrite i64_small; [|lia].
  destruct (Z.ltb_spec max (seg_size g + zlen encoded)); [left; split; [lia|done]|right].
  split; [lia|]. rewrite FileWrite_ok //. rewrite sv_file0 (ino_of_lookup _ _ _ Hi).
  eexists _, _. split; [done|]. split; [|done].
  constructor; simpl; rewrite ?encs_snoc ?Henc ?zlen_app ?length_app ?sv_data0; rewrite -?sv_data0; try done; try lia.
  - rewrite sv_data0. lia.
  - apply Forall_app. split; [done|]. constructor; [|constructor]. split_and!; [lia..|done|]. unfold MaxRecordSize. lia.
  - rewrite Hcl. by intros [|].
Qed.

Lemma Segment_Sync_spec max j g rs i fs :
  fs_faults fs = [] -> fs_inodes fs !! j = Some i -> seg_inv max j g rs i ->
  exists g' i', Segment_Sync g fs = (None, g', set_inode j i' fs) /\ seg_inv max j g' rs i' /\
    ino_data i' = ino_data i /\ ino_synced i' = length (ino_data i') /\ seg_closed g' = seg_closed g /\
    (seg_closed g = false -> seg_syncNeeded g' = false).
Proof.
  intros Hf Hi Hinv. pose proof Hinv as []. unfold Segment_Sync.
  destruct (negb (seg_syncNeeded g) || seg_closed g) eqn:Hc.
  - assert (Hsame : set_inode j i fs = fs).
    { unfold set_inode. rewrite list_insert_id //. by destruct fs. }
    exists g, i. rewrite Hsame. split_and!; try done.
    + apply sv_clean0. destruct (seg_syncNeeded g), (seg_closed g); auto; done.
    + intros Hcl. rewrite Hcl orb_false_r in Hc. by apply negb_true_iff in Hc.
  - rewrite FileSync_ok // sv_file0 (ino_of_lookup _ _ _ Hi). eexists _, _. split; [done|].
    split; [|done]. by constructor; simpl.
Qed.

(** ** The log under the invariant *)

(** The entries written, in order. *)
Definition log_of (recs : list (list WRecord)) (rs : list WRecord) : list WALEntry :=
  segment_entries 0 (concat (recs ++ [rs])).

(** The entry is in the synced part of some file. *)
Definition durable (all : list (list WRecord)) (inos : list Inode) (e : WALEntry) : Prop :=
  exists j rs i, all !! j = Some rs /\ inos !! j = Some i /\ e ∈ segment_entries 0 (complete (ino_synced i) rs).

(** Files only grow, and so do their synced parts. *)
Definition grows (all : list (list WRecord)) (inos : list Inode) (all' : list (list WRecord)) (inos' : list Inode) : Prop :=
  forall j rs i, all !! j = Some rs -> inos !! j = Some i ->
  exists rs' i', all' !! j = Some rs' /\ inos' !! j = Some i' /\ rs `prefix_of` rs' /\ (ino_synced i <= ino_synced i')%nat.

Lemma grows_refl all inos : grows all inos all inos.
Proof. intros j rs i ? ?. by exists rs, i. Qed.

Lemma grows_trans a i b k c l : grows a i b k -> grows b k c l -> grows a i c l.
Proof.
  intros H1 H2 j rs ino Hr Hi. destruct (H1 _ _ _ Hr Hi) as (rs' & i' & Hr' & Hi' & Hp & Hs).
  destruct (H2 _ _ _ Hr' Hi') as (rs2 & i2 & Hr2 & Hi2 & Hp2 & Hs2).
  exists rs2, i2. split_and!; [done..|by etrans|lia].
Qed.

Lemma segment_entries_app n a b : segment_entries n (a ++ b) = segment_entries n a ++ segment_entries n b.
Proof. unfold segment_entries. by rewrite List.filter_app map_app. Qed.

Lemma segment_entries_prefix n a b e :
  a `prefix_of` b -> e ∈ segment_entries n a -> e ∈ segment_entries n b.
Proof. intros [k ->] He. rewrite segment_entries_app. apply elem_of_app. by left. Qed.

Lemma grows_durable a i b k e : grows a i b k -> durable a i e -> durable b k e.
Proof.
  intros Hg (j & rs & ino & Hr & Hi & He). destruct (Hg _ _ _ Hr Hi) as (rs' & i' & Hr' & Hi' & Hp & Hs).
  exists j, rs', i'. split_and!; [done..|]. eapply segment_entries_prefix; [by apply complete_prefix|done].
Qed.

(** Replacing the active segment and its inode. *)
Lemma store_set_active max sealed active recs rs fs g' rs' i' :
  store_inv max sealed active recs rs fs -> seg_inv max (length sealed) g' rs' i' ->
  store_inv max sealed g' recs rs' (set_inode (length sealed) i' fs).
Proof.
  intros [] Hg. constructor; simpl; try done.
  - by rewrite length_insert.
  - intros j g Hj. destruct (si_sealed0 j g Hj) as (rs0 & i0 & Hr & Hi & ? & ?). exists rs0, i0.
    rewrite list_lookup_insert_ne //. apply lookup_lt_Some in Hj. lia.
  - exists i'. rewrite list_lookup_insert_eq //. lia.
Qed.

Lemma store_grows max sealed active recs rs fs i rs' i' :
  store_inv max sealed active recs rs fs -> fs_inodes fs !! length sealed = Some i ->
  rs `prefix_of` rs' -> (ino_synced i <= ino_synced i')%nat ->
  grows (recs ++ [rs]) (fs_inodes fs) (recs ++ [rs']) (fs_inodes (set_inode (length sealed) i' fs)).
Proof.
  intros [] Hi Hp Hs j r ino Hr Hino. simpl. destruct (decide (j = length sealed)) as [->|Hne].
  - rewrite -si_recs0 in Hr. rewrite list_lookup_middle // in Hr. injection Hr as <-.
    rewrite Hi in Hino. injection Hino as <-. exists rs', i'. rewrite -{1}si_recs0 list_lookup_middle //.
    rewrite list_lookup_insert_eq; [done|lia].
  - exists r, ino. rewrite list_lookup_insert_ne //. split_and!; try done.
    apply lookup_app_Some in Hr as [Hr|[Hle Hr]]; [by apply lookup_app_l_Some|].
    apply list_lookup_singleton_Some in Hr as [Hz _]. lia.
Qed.

Lemma active_sync max sealed active recs rs fs :
  store_inv max sealed active recs rs fs ->
  exists g' fs' i', Segment_Sync active fs = (None, g', fs') /\ store_inv max sealed g' recs rs fs' /\
    grows (recs ++ [rs]) (fs_inodes fs) (recs ++ [rs]) (fs_inodes fs') /\
    fs_inodes fs' !! length sealed = Some i' /\ ino_synced i' = length (ino_data i') /\
    seg_closed g' = seg_closed active /\ (seg_closed active = false -> seg_syncNeeded g' = false).
Proof.
  intros Hst. pose proof Hst as []. destruct si_active0 as (i & Hi & Hg).
  destruct (Segment_Sync_spec _ _ _ _ _ _ si_faults0 Hi Hg) as (g' & i' & Hs & Hg' & Hd & Hsy & Hc & Hn).
  exists g', (set_inode (length sealed) i' fs), i'. split_and!; try done.
  - by eapply store_set_active.
  - eapply store_grows; [done..|]. destruct Hg. rewrite Hsy Hd. lia.
  - simpl. rewrite list_lookup_insert_eq; [done|lia].
Qed.

Lemma length_fmt_d n : zlen (fmt_d n) <= 20.
Proof.
  unfold fmt_d, zlen. pose proof (length_strip_zeros (dec_digits 20 n)). rewrite length_dec_digits in H. lia.
Qed.

Lemma header_small id : is_u64 id -> rec_small (headerRecord id) /\ zlen (rec_Data (headerRecord id)) <= 31.
Proof.
  intros Hid. pose proof (length_fmt_d id). unfold rec_small, headerRecord. cbn [rec_Type rec_Sequence rec_Data].
  rewrite zlen_app. change (zlen (bytes_of_string "segment_id=")) with 11. unfold RecordSegmentHeader.
  split_and!; done || lia.
Qed.

(** The next segment: a new file with its header. *)
Lemma newSegment_fresh max n fs :
  64 <= max <= MaxRecordSize -> fs_faults fs = [] -> length (fs_inodes fs) = n -> fs_dir fs = dir_of n ->
  Z.of_nat n + 1 < two64 ->
  exists seg i, newSegment (Z.of_nat n + 1) max fs =
    (inr seg, mkFS (dir_of (S n)) (fs_inodes fs ++ [i]) []) /\
    seg_inv max n seg [headerRecord (Z.of_nat n + 1)] i /\ seg_closed seg = false /\ ino_synced i = 0%nat.
Proof.
  intros Hmax Hf Hn Hd Hid. unfold newSegment, OpenAppend. rewrite next_fault_none // Hd dir_of_fresh //.
  rewrite Hn Hf. set (fs1 := mkFS _ _ _). set (seg := mkSegment _ _ _ _ _ _ _ _ _).
  destruct (header_small (Z.of_nat n + 1)) as [Hsm Hlen]; [unfold is_u64; lia|].
  destruct (writeRecord_spec max n seg [] (mkInode [] 0) fs1 (headerRecord (Z.of_nat n + 1)))
    as [[Hfull _]|(_ & g' & i' & Hw & Hg & Hsy & Hc)]; [done| | |done|lia|done| |].
  - simpl. by rewrite lookup_app_r ?Hn ?Nat.sub_diag; [|lia].
  - constructor; simpl; done || lia.
  - exfalso. unfold HeaderSize in Hfull. simpl seg_size in Hfull. lia.
  - rewrite Hw. exists g', i'. split_and!; try done. unfold set_inode. simpl.
    do 2 f_equal. by rewrite insert_app_r_alt ?Hn ?Nat.sub_diag; [|lia].
Qed.

Lemma log_of_snoc recs rs rec : log_of recs (rs ++ [rec]) = log_of recs rs ++ segment_entries 0 [rec].
Proof. unfold log_of. by rewrite !concat_app /= !app_nil_r !segment_entries_app app_assoc. Qed.

Lemma log_of_header recs rs id : log_of (recs ++ [rs]) [headerRecord id] = log_of recs rs.
Proof.
  unfold log_of. rewrite (concat_app (recs ++ [rs])) segment_entries_app. simpl concat.
  rewrite (_ : segment_entries 0 [headerRecord id] = []) //. by rewrite app_nil_r.
Qed.

Lemma rotate_spec w fs recs rs :
  let max := w_segmentSize w in
  store_inv max (w_sealed w) (w_active w) recs rs fs -> seg_closed (w_active w) = false ->
  zlen (w_sealed w) + 3 < two64 ->
  exists active seg fs', rotateSegment w fs = (None, set_segments seg (w_sealed w ++ [active]) w, fs') /\
    store_inv max (w_sealed w ++ [active]) seg (recs ++ [rs]) [headerRecord (zlen (w_sealed w) + 2)] fs' /\
    seg_closed seg = false /\
    grows (recs ++ [rs]) (fs_inodes fs) ((recs ++ [rs]) ++ [[headerRecord (zlen (w_sealed w) + 2)]]) (fs_inodes fs').
Proof.
  intros max Hst Hcl Hlen. destruct (active_sync _ _ _ _ _ _ Hst) as (g' & fs1 & i' & Hs & Hst1 & Hg & Hi & Hsy & Hc & Hn).
  unfold rotateSegment. rewrite Hs. cbn [set_segments w_sealed w_segmentSize].
  pose proof Hst1 as []. pose proof (zlen_nonneg (w_sealed w)) as Hnn.
  assert (Hid : u64 (zlen (w_sealed w ++ [g']) + 1) = Z.of_nat (S (length (w_sealed w))) + 1).
  { rewrite zlen_app. change (zlen [g']) with 1. rewrite u64_small; unfold zlen in *; lia. }
  rewrite Hid. destruct (newSegment_fresh max (S (length (w_sealed w))) fs1) as (seg & i & Hnew & Hseg & Hsc & Hi0);
    [done..|unfold zlen in *; lia|]. fold max. rewrite Hnew.
  replace (zlen (w_sealed w) + 2) with (Z.of_nat (S (length (w_sealed w))) + 1) by (unfold zlen; lia).
  eexists g', seg, _. split; [done|]. split_and!; [|done|].
  - assert (Hls : length (w_sealed w ++ [g']) = S (length (w_sealed w))) by (rewrite length_app /=; lia).
    constructor; simpl; rewrite ?Hls; try done.
    + rewrite !length_app /=. lia.
    + rewrite length_app /=. lia.
    + intros j g Hj. apply lookup_app_Some in Hj as [Hj|[Hle Hj]].
      * destruct (si_sealed0 j g Hj) as (rs0 & i0 & Hr0 & Hi0' & ? & ?). exists rs0, i0.
        split_and!; try done; by apply lookup_app_l_Some.
      * apply list_lookup_singleton_Some in Hj as [Hz <-].
        destruct si_active0 as (i1 & Hi1 & Hg1). exists rs, i1. assert (j = length (w_sealed w)) as -> by lia.
        split_and!; [by rewrite -si_recs0 list_lookup_middle|by apply lookup_app_l_Some|done|by apply Hn].
    + exists i. split; [|done]. rewrite lookup_app_r; [|lia]. by rewrite si_inodes0 Nat.sub_diag.
  - eapply grows_trans; [exact Hg|]. intros j r ino Hr Hino. exists r, ino.
    split_and!; try done; by apply lookup_app_l_Some.
Qed.

(** The fields that writing a record leaves alone. *)
Definition same_core (w w' : WAL) : Prop :=
  w_nextSeq w' = w_nextSeq w /\ w_clock w' = w_clock w /\ w_segmentSize w' = w_segmentSize w /\
  w_pendingSync w' = w_pendingSync w /\ w_closed w' = w_closed w.

Lemma writeToActive_spec w fs recs rs rec :
  let max := w_segmentSize w in
  store_inv max (w_sealed w) (w_active w) recs rs fs -> seg_closed (w_active w) = false ->
  zlen (w_sealed w) + 3 < two64 -> rec_small rec ->
  exists err w' fs' recs' rs', writeToActive rec w fs = (err, w', fs') /\
    store_inv max (w_sealed w') (w_active w') recs' rs' fs' /\ seg_closed (w_active w') = false /\
    grows (recs ++ [rs]) (fs_inodes fs) (recs' ++ [rs']) (fs_inodes fs') /\ same_core w w' /\
    zlen (w_sealed w') <= zlen (w_sealed w) + 1 /\
    log_of recs' rs' = log_of recs rs ++ (match err with None => segment_entries 0 [rec] | Some _ => [] end).
Proof.
  intros max Hst Hcl Hlen Hrec. pose proof Hst as []. pose proof (proj2 si_max0) as Hmx.
  destruct si_active0 as (i & Hi & Hg).
  unfold writeToActive.
  destruct (writeRecord_spec max _ _ _ _ _ rec si_faults0 Hi Hg Hcl Hmx Hrec)
    as [[_ Hfull]|(_ & g' & i' & Hw & Hg' & Hsy & Hcl')].
  - rewrite Hfull. rewrite (_ : set_segments (w_active w) (w_sealed w) w = w); [|by destruct w].
    destruct (rotate_spec w fs recs rs Hst Hcl Hlen) as (active & seg & fs1 & Hrot & Hst1 & Hsc & Hgr).
    rewrite Hrot. cbn [set_segments w_active w_sealed]. pose proof Hst1 as [Hf1 _ _ _ _ _ (i1 & Hi1 & Hg1)].
    destruct (writeRecord_spec max _ _ _ _ _ rec Hf1 Hi1 Hg1 Hsc Hmx Hrec)
      as [[_ Hfull2]|(_ & g' & i' & Hw & Hg' & Hsy & Hcl')].
    + rewrite Hfull2. eexists _, _, _, _, _. split; [done|]. cbn [set_segments w_active w_sealed].
      split_and!; [exact Hst1|done..| |]; [by rewrite zlen_app|by rewrite log_of_header app_nil_r].
    + rewrite Hw. eexists _, _, _, _, _. split; [done|]. cbn [set_segments w_active w_sealed].
      split_and!; [by eapply store_set_active|done| |done..| |].
      * eapply grows_trans; [exact Hgr|]. eapply store_grows; [done..|by eexists|by rewrite Hsy].
      * by rewrite zlen_app.
      * by rewrite log_of_snoc log_of_header.
  - rewrite Hw. eexists _, _, _, recs, (rs ++ [rec]). split; [done|]. cbn [set_segments w_active w_sealed].
    split_and!; [by eapply store_set_active|done| |done..|lia|by rewrite log_of_snoc].
    eapply store_grows; [done..|by eexists|by rewrite Hsy].
Qed.

(** ** The invariant of a running log *)

Record ws_inv (n : Z) (s : WS) (recs : list (list WRecord)) (rs : list WRecord) : Prop := {
  wi_store : store_inv (w_segmentSize (ws_wal s)) (w_sealed (ws_wal s)) (w_active (ws_wal s)) recs rs (ws_fs s);
  wi_log : ws_written s = log_of recs rs;
  wi_pending : forall e, e ∈ w_pendingSync (ws_wal s) -> e ∈ ws_written s;
  wi_inflight : forall b e, b ∈ ws_inflight s -> e ∈ b -> e ∈ ws_written s;
  wi_acked : forall e, e ∈ ws_acked s -> durable (recs ++ [rs]) (fs_inodes (ws_fs s)) e;
  wi_open : w_closed (ws_wal s) = false -> seg_closed (w_active (ws_wal s)) = false;
  wi_sealed : zlen (w_sealed (ws_wal s)) <= n;
  wi_next : 1 <= w_nextSeq (ws_wal s) <= n + 1;
  wi_seqs : forall e, e ∈ ws_written s -> 0 < went_Sequence e < w_nextSeq (ws_wal s);
  wi_sorted : StronglySorted (fun a b => went_Sequence a < went_Sequence b) (ws_written s);
  wi_clock : hlc_wf (w_clock (ws_wal s));
}.

(** Operations with wall-clock readings the timestamps can hold and entries
    below 4 GB; checkpoints are treated apart. *)
Definition wal_op_ok (o : wal_op) : Prop :=
  match o with
  | OpWrite ptMs data => phys_ok ptMs /\ zlen data + 8 < two32
  | OpCheckpoint _ => False
  | _ => True
  end.

Lemma entryData_roundtrip ts data :
  is_i64 ts -> decodeEntryData (encodeEntryData ts data) = (ts, data).
Proof.
  intros Hts. unfold decodeEntryData, encodeEntryData, ToBytes. autorewrite with zlen.
  pose proof (zlen_nonneg data). rewrite (proj2 (Z.ltb_ge _ 8)); [|lia].
  rewrite take_app_le ?length_put_be // drop_app_le ?length_put_be // take_ge ?length_put_be // drop_ge ?length_put_be //.
  unfold HLCTimestampFromBytes. rewrite take_ge ?length_put_be // get_put_be64.
  unfold u64 at 1. rewrite Z.mod_mod // -/(u64 ts) i64_u64 //.
Qed.

Lemma entry_roundtrip seq ts data :
  0 <= seq -> is_i64 ts ->
  segment_entries 0 [mkWRecord 0 RecordData seq (encodeEntryData ts data)] = [mkWALEntry seq ts data RecordData].
Proof.
  intros Hseq Hts. unfold segment_entries. cbn [List.filter rec_Type rec_Sequence].
  rewrite (proj2 (Z.leb_le _ _) Hseq). cbn [andb Z.eqb Pos.eqb RecordData map].
  unfold entry_of_record. cbn [rec_Data rec_Sequence rec_Type]. by rewrite entryData_roundtrip.
Qed.

Lemma StronglySorted_snoc {A} (R : A -> A -> Prop) l x :
  StronglySorted R l -> (forall y, y ∈ l -> R y x) -> StronglySorted R (l ++ [x]).
Proof.
  induction 1 as [|y l Hl IH Hy]; intros Hx; simpl; [repeat constructor|].
  constructor; [apply IH; intros z Hz; apply Hx; by right|].
  apply Forall_app. split; [done|]. constructor; [apply Hx; left|constructor].
Qed.

Lemma write_inv n s recs rs ptMs data :
  ws_inv n s recs rs -> wal_op_ok (OpWrite ptMs data) -> 0 <= n < two63 ->
  exists recs' rs', ws_inv (n + 1) (wal_step (OpWrite ptMs data) s) recs' rs' /\
    grows (recs ++ [rs]) (fs_inodes (ws_fs s)) (recs' ++ [rs']) (fs_inodes (ws_fs (wal_step (OpWrite ptMs data) s))).
Proof.
  intros [] [Hp Hd] Hn. cbn [wal_step]. unfold Write_begin.
  destruct (w_closed (ws_wal s)) eqn:Hcl.
  { exists recs, rs. split; [|apply grows_refl]. constructor; simpl; try done; try lia. congruence. }
  destruct (HLC_Now ptMs (w_clock (ws_wal s))) as [ts clock] eqn:Hnow.
  destruct (HLC_Now_wf _ _ _ _ wi_clock0 Hp Hnow) as [Hwf Hts].
  set (w1 := mkWAL _ _ _ _ _ _ _ _ _ _ _). set (rec := mkWRecord _ _ _ _).
  assert (Hsmall : rec_small rec).
  { unfold rec_small, rec. simpl. split_and!; [done|done|unfold is_u64; lia..|].
    unfold encodeEntryData, ToBytes. autorewrite with zlen. lia. }
  destruct (writeToActive_spec w1 (ws_fs s) recs rs rec)
    as (err & w' & fs' & recs' & rs' & Hw & Hst & Hc & Hg & (Hn1 & Hck & Hsz & Hpe & Hwc) & Hls & Hlog);
    [done|by apply wi_open0|simpl; lia|done|].
  rewrite Hw. simpl in Hn1, Hck, Hsz, Hpe, Hwc, Hls. rewrite u64_small in Hn1; [|lia].
  unfold rec in Hlog. rewrite entry_roundtrip // in Hlog; [|lia].
  exists recs', rs'. destruct err as [err|].
  - rewrite app_nil_r in Hlog. split; [|done].
    constructor; simpl; rewrite ?Hsz ?Hpe ?Hwc ?Hn1 ?Hck; try done; try lia; [congruence|..].
    + intros e He. eapply grows_durable; [done|auto].
    + intros e He. pose proof (wi_seqs0 e He). lia.
  - split; [|done].
    constructor; simpl; rewrite ?Hsz ?Hpe ?Hwc ?Hn1 ?Hck; try done; try lia; [congruence|..].
    + intros e. rewrite !elem_of_app. intros [He|He]; [left; by apply wi_pending0|by right].
    + intros b e Hb He. apply elem_of_app. left. by eapply wi_inflight0.
    + intros e He. eapply grows_durable; [done|auto].
    + intros e. rewrite elem_of_app list_elem_of_singleton. intros [He| ->]; simpl; [|lia].
      pose proof (wi_seqs0 e He). lia.
    + apply StronglySorted_snoc; [done|]. intros e He. simpl. by apply wi_seqs0.
Qed.

Lemma writeToActive_pending rec w fs err w' fs' : writeToActive rec w fs = (err, w', fs') -> w_pendingSync w' = w_pendingSync w.
Proof.
  unfold writeToActive, rotateSegment, set_segments. intros H. repeat case_match; by simplify_eq/=.
Qed.

Lemma Write_begin_failed ptMs data w fs err w' fs' :
  w_pendingSync w = [] -> Write_begin ptMs data w fs = (inl err, w', fs') -> w_pendingSync w' = [].
Proof.
  unfold Write_begin. intros Hp H. destruct (w_closed w); [by simplify_eq|]. destruct (HLC_Now _ _).
  destruct (writeToActive _ _ _) as [[[e|] w1] fs1] eqn:Hw; [|by simplify_eq]. apply writeToActive_pending in Hw.
  injection H as <- <- <-. by rewrite Hw.
Qed.

Lemma Write_begin_entry ptMs data w fs entry w' fs' :
  Write_begin ptMs data w fs = (inr entry, w', fs') -> went_Data entry = data /\ w_pendingSync w' = w_pendingSync w ++ [entry].
Proof.
  unfold Write_begin. intros H. destruct (w_closed w); [by simplify_eq|]. destruct (HLC_Now _ _).
  destruct (writeToActive _ _ _) as [[[e|] w1] fs1] eqn:Hw; [by simplify_eq|]. apply writeToActive_pending in Hw.
  injection H as <- <- <-. simpl. by rewrite Hw.
Qed.

(** Once every file is synced, everything written is durable. *)
Lemma segment_entries_sealed n rs : segment_entries n (map sealed_rec rs) = segment_entries n rs.
Proof.
  induction rs as [|r rs IH]; [done|]. unfold segment_entries in *. cbn [map List.filter].
  change (rec_Type (sealed_rec r)) with (rec_Type r). change (rec_Sequence (sealed_rec r)) with (rec_Sequence r).
  destruct (_ && _); [|done]. cbn [map]. by rewrite IH.
Qed.

Lemma segment_entries_concat n all e :
  e ∈ segment_entries n (concat all) -> exists j rs, all !! j = Some rs /\ e ∈ segment_entries n rs.
Proof.
  induction all as [|rs all IH]; simpl; [by intros ?%elem_of_nil|].
  rewrite segment_entries_app elem_of_app. intros [He|(j & rs' & Hj & He)%IH]; [by exists 0%nat, rs|].
  by exists (S j), rs'.
Qed.

Lemma all_synced_durable max sealed active recs rs fs i e :
  store_inv max sealed active recs rs fs -> fs_inodes fs !! length sealed = Some i ->
  ino_synced i = length (ino_data i) -> e ∈ log_of recs rs -> durable (recs ++ [rs]) (fs_inodes fs) e.
Proof.
  intros [] Hi Hsy (j & r & Hj & He)%segment_entries_concat.
  assert (exists ino, fs_inodes fs !! j = Some ino /\ ino_data ino = encs r /\ ino_synced ino = length (encs r))
    as (ino & Hino & Hd & Hs).
  { apply lookup_app_Some in Hj as [Hj|[Hle Hj]].
    - destruct (lookup_lt_is_Some_2 sealed j) as [g Hg]; [apply lookup_lt_Some in Hj; lia|].
      destruct (si_sealed0 j g Hg) as (r' & ino & Hr' & Hino & [] & Hn). rewrite Hj in Hr'. injection Hr' as <-.
      exists ino. rewrite -sv_data0. split_and!; [done..|]. apply sv_clean0. by left.
    - apply list_lookup_singleton_Some in Hj as [Hz <-]. assert (j = length sealed) as -> by lia.
      destruct si_active0 as (i' & Hi' & []). rewrite Hi in Hi'. injection Hi' as <-. exists i. by rewrite -sv_data0. }
  exists j, r, ino. split_and!; [done..|]. by rewrite Hs complete_all segment_entries_sealed.
Qed.

Lemma flush_inv n s recs rs b :
  ws_inv n s recs rs ->
  ws_inv n (wal_step (OpFlushSync b) s) recs rs /\
  grows (recs ++ [rs]) (fs_inodes (ws_fs s)) (recs ++ [rs]) (fs_inodes (ws_fs (wal_step (OpFlushSync b) s))).
Proof.
  intros Hinv. pose proof Hinv as []. cbn [wal_step]. destruct (ws_inflight s !! b) as [waiting|] eqn:Hb; last first.
  { split; [done|apply grows_refl]. }
  unfold flush_sync. destruct (active_sync _ _ _ _ _ _ wi_store0) as (g' & fs' & i' & Hs & Hst & Hg & Hi & Hsy & Hc & _).
  rewrite Hs. split; [|done]. constructor; simpl; try done.
  - intros b' e Hin. eapply wi_inflight0. apply list_elem_of_lookup in Hin as [k Hk].
    destruct (decide (k < b)%nat).
    + rewrite list_lookup_delete_lt // in Hk. by eapply list_elem_of_lookup_2.
    + rewrite list_lookup_delete_ge // in Hk; [by eapply list_elem_of_lookup_2|lia].
  - intros e [He|He]%elem_of_app; [eapply grows_durable; [done|auto]|].
    eapply all_synced_durable; [done..|]. rewrite -wi_log0. eapply wi_inflight0; [|done].
    by eapply list_elem_of_lookup_2.
  - rewrite Hc. done.
Qed.

Lemma force_inv n s recs rs :
  ws_inv n s recs rs ->
  ws_inv n (wal_step OpForceSync s) recs rs /\
  grows (recs ++ [rs]) (fs_inodes (ws_fs s)) (recs ++ [rs]) (fs_inodes (ws_fs (wal_step OpForceSync s))).
Proof.
  intros []. cbn [wal_step]. unfold force_sync.
  destruct (active_sync _ _ _ _ _ _ wi_store0) as (g' & fs' & i' & Hs & Hst & Hg & Hi & Hsy & Hc & _).
  rewrite Hs. split; [|done]. constructor; simpl; try done.
  - intros e He. eapply grows_durable; [done|auto].
  - by rewrite Hc.
Qed.

Definition close_flag (g : Segment) : Segment :=
  mkSegment (seg_id g) (seg_file g) (seg_path g) (seg_size g) (seg_maxSize g) (seg_firstSeq g)
    (seg_lastSeq g) true (seg_syncNeeded g).

Lemma close_all_spec fs segs :
  Forall (fun g => seg_syncNeeded g = false) segs -> close_all segs fs = (map close_flag segs, fs).
Proof.
  induction 1 as [|g segs Hg Hsegs IH]; [done|]. cbn [close_all map]. unfold Segment_Close.
  cbn [seg_syncNeeded]. rewrite Hg. destruct (seg_closed g) eqn:Hc; rewrite IH; unfold close_flag; rewrite Hg; [|done].
  do 2 f_equal. destruct g. simpl in *. by subst.
Qed.

Lemma Segment_Close_spec max j g rs i fs :
  fs_faults fs = [] -> fs_inodes fs !! j = Some i -> seg_inv max j g rs i ->
  exists g' i', Segment_Close g fs = (None, g', set_inode j i' fs) /\ seg_inv max j g' rs i' /\
    (ino_synced i <= ino_synced i')%nat /\ seg_closed g' = true.
Proof.
  intros Hf Hi Hinv. pose proof Hinv as [].
  assert (Hsame : set_inode j i fs = fs) by (unfold set_inode; rewrite list_insert_id //; by destruct fs).
  unfold Segment_Close. destruct (seg_closed g) eqn:Hc; [by exists g, i; rewrite Hsame|]. cbn [seg_syncNeeded seg_file].
  destruct (seg_syncNeeded g) eqn:Hn.
  - rewrite FileSync_ok // sv_file0 (ino_of_lookup _ _ _ Hi). eexists _, _. split; [done|].
    split; [|done]. by constructor.
  - exists (close_flag g), i. rewrite Hsame. unfold close_flag. rewrite Hn. split; [done|].
    split; [|done]. constructor; simpl; try done. intros _. apply sv_clean0. by left.
Qed.

Lemma close_inv n s recs rs :
  ws_inv n s recs rs ->
  ws_inv n (wal_step OpClose s) recs rs /\
  grows (recs ++ [rs]) (fs_inodes (ws_fs s)) (recs ++ [rs]) (fs_inodes (ws_fs (wal_step OpClose s))).
Proof.
  intros Hinv. pose proof Hinv as []. cbn [wal_step]. unfold WAL_Close.
  destruct (w_closed (ws_wal s)) eqn:Hcl.
  { split; [|apply grows_refl]. destruct s. simpl in *. constructor; simpl; try done. congruence. }
  pose proof wi_store0 as []. destruct si_active0 as (i & Hi & Hg).
  rewrite close_all_spec; last first.
  { apply Forall_lookup. intros j g Hj. pose proof (si_sealed0 j g Hj) as (? & ? & _ & _ & _ & ?). done. }
  destruct (Segment_Close_spec _ _ _ _ _ _ si_faults0 Hi Hg) as (g' & i' & Hs & Hg' & Hle & Hc). rewrite Hs.
  assert (Hgr : grows (recs ++ [rs]) (fs_inodes (ws_fs s)) (recs ++ [rs])
    (fs_inodes (set_inode (length (w_sealed (ws_wal s))) i' (ws_fs s)))) by (by eapply store_grows).
  split; [|done]. constructor; simpl; try done.
  - pose proof (store_set_active _ _ _ _ _ _ g' rs i' wi_store0 Hg') as [].
    constructor; rewrite ?length_map; try done.
    intros j g Hj. apply list_lookup_fmap_Some in Hj as (g0 & -> & Hj).
    destruct (si_sealed1 j g0 Hj) as (r & ino & Hr & Hino & [] & Hsn). exists r, ino. split_and!; try done.
    constructor; simpl; try done. intros _. apply sv_clean0. by left.
  - by intros e ?%elem_of_nil.
  - intros e He. eapply grows_durable; [done|auto].
  - unfold zlen in *. by rewrite length_map.
Qed.

Lemma grab_inv n s recs rs :
  ws_inv n s recs rs -> ws_inv n (wal_step OpFlushGrab s) recs rs.
Proof.
  intros []. constructor; simpl; try done; [by intros e ?%elem_of_nil|].
  intros b e Hb. destruct (w_pendingSync (ws_wal s)) as [|e0 l] eqn:Hp; [by apply wi_inflight0|].
  apply elem_of_app in Hb as [Hb| ->%list_elem_of_singleton]; [by apply wi_inflight0|]. auto.
Qed.

Lemma ws_inv_mono n m s recs rs : n <= m -> ws_inv n s recs rs -> ws_inv m s recs rs.
Proof. intros Hnm []. constructor; try done; lia. Qed.

Lemma step_inv n s recs rs o :
  ws_inv n s recs rs -> wal_op_ok o -> 0 <= n < two63 -> exists recs' rs', ws_inv (n + 1) (wal_step o s) recs' rs'.
Proof.
  intros Hinv Ho Hn. destruct o as [ptMs data| |b| |seq|]; [|exists recs, rs; apply (ws_inv_mono n); [lia|]..|].
  - destruct (write_inv _ _ _ _ _ _ Hinv Ho Hn) as (recs' & rs' & ? & _). eauto.
  - by apply grab_inv.
  - by apply flush_inv.
  - by apply force_inv.
  - done.
  - exists recs, rs. apply (ws_inv_mono n); [lia|]. by apply close_inv.
Qed.

Lemma run_inv ops : forall n s recs rs,
  ws_inv n s recs rs -> Forall wal_op_ok ops -> 0 <= n -> n + zlen ops < two63 ->
  exists recs' rs', ws_inv (n + zlen ops) (wal_run ops s) recs' rs'.
Proof.
  induction ops as [|o ops IH]; intros n s recs rs Hinv Hops Hn Hlen.
  { exists recs, rs. by rewrite zlen_nil Z.add_0_r. }
  apply Forall_cons in Hops as [Ho Hops]. rewrite zlen_cons in Hlen |- *. pose proof (zlen_nonneg ops).
  destruct (step_inv _ _ _ _ _ Hinv Ho) as (recs1 & rs1 & H1); [lia|].
  destruct (IH _ _ _ _ H1 Hops) as (recs2 & rs2 & H2); [lia..|].
  exists recs2, rs2. by replace (n + (zlen ops + 1)) with (n + 1 + zlen ops) by lia.
Qed.

(** A log opened in an empty directory. *)
Lemma open_inv max hlc w fs :
  64 <= max <= MaxRecordSize -> hlc_wf hlc -> Open_sized max hlc emptyFS = (inr w, fs) ->
  ws_inv 0 (ws_start w fs) [] [headerRecord 1] /\ w_segmentSize w = max.
Proof.
  intros Hmax Hwf. unfold Open_sized. rewrite next_fault_none //. unfold recover, walFiles.
  rewrite map_to_list_empty. cbn [fmap list_fmap List.filter sort_Strings merge_sort].
  destruct (newSegment_fresh max 0 emptyFS) as (seg & i & Hnew & Hseg & Hc & Hsy); [done..|].
  change (Z.of_nat 0 + 1) with 1 in *. change (sort_Strings []) with (@nil string). cbv iota.
  rewrite Hnew. intros [= <- <-]. split; [|done].
  constructor; simpl; try done; try (by intros e ?%elem_of_nil); try (by intros e ? ?%elem_of_nil); try constructor.
  all: simpl; try done; try lia. by exists i.
Qed.

(** ** Reading the log *)

Lemma segment_entries_from k l :
  0 <= k -> segment_entries k l = List.filter (fun e => k <=? went_Sequence e) (segment_entries 0 l).
Proof.
  intros Hk. unfold segment_entries. induction l as [|r l IH]; [done|]. cbn [List.filter].
  destruct (rec_Type r =? RecordData); [|done]. cbn [andb].
  assert (Hseq : went_Sequence (entry_of_record r) = rec_Sequence r)
    by (unfold entry_of_record; by destruct (decodeEntryData _)).
  destruct (Z.leb_spec 0 (rec_Sequence r)); cbn [map List.filter]; rewrite ?Hseq.
  - destruct (k <=? rec_Sequence r); cbn [map]; by rewrite IH.
  - rewrite (proj2 (Z.leb_gt _ _)); [done|lia].
Qed.

Lemma ReadFrom_loop_spec k fs segs all :
  Forall2 (fun g rs => OpenRead (seg_path g) fs = (Some (encs rs), fs) /\ Forall rec_ok rs) segs all ->
  forall n acc, ReadFrom_loop (fun _ => false) k n segs acc fs = (acc ++ segment_entries k (concat all), true, fs).
Proof.
  induction 1 as [|g rs segs all [Hg Hrs] _ IH]; intros n acc; cbn [ReadFrom_loop concat].
  { by rewrite app_nil_r. }
  rewrite Hg ReadAll_encs // IH segment_entries_app segment_entries_sealed. by rewrite app_assoc.
Qed.

Lemma OpenRead_lookup path j i fs :
  fs_faults fs = [] -> fs_dir fs !! path = Some j -> fs_inodes fs !! j = Some i ->
  OpenRead path fs = (Some (ino_data i), fs).
Proof. intros Hf Hd Hi. unfold OpenRead. by rewrite next_fault_none // Hd (ino_of_lookup _ _ _ Hi). Qed.

Lemma store_files max sealed active recs rs fs :
  store_inv max sealed active recs rs fs -> zlen sealed + 3 < two64 ->
  forall j g r, (sealed ++ [active]) !! j = Some g -> (recs ++ [rs]) !! j = Some r ->
  exists i, fs_inodes fs !! j = Some i /\ seg_inv max j g r i /\ fs_dir fs !! seg_path g = Some j.
Proof.
  intros [] Hlen j g r Hg Hr.
  assert (exists i, fs_inodes fs !! j = Some i /\ seg_inv max j g r i) as (i & Hi & Hv).
  { apply lookup_app_Some in Hg as [Hg|[Hle Hg]].
    - rewrite lookup_app_l in Hr; [|apply lookup_lt_Some in Hg; lia].
      destruct (si_sealed0 j g Hg) as (r' & i & Hr' & Hi & Hv & _). rewrite Hr in Hr'. injection Hr' as <-. eauto.
    - apply list_lookup_singleton_Some in Hg as [Hz <-]. assert (j = length sealed) as -> by lia.
      rewrite -{1}si_recs0 list_lookup_middle // in Hr. by injection Hr as <-. }
  exists i. split_and!; [done..|]. destruct Hv. rewrite sv_path0 si_dir0.
  apply dir_of_lookup; [unfold zlen in *; lia|]. split; [apply lookup_lt_Some in Hi; lia|done].
Qed.

Lemma read_spec n s recs rs k :
  ws_inv n s recs rs -> 0 <= k -> n + 3 < two64 ->
  ReadFrom (fun _ => false) k (ws_wal s) (ws_fs s) =
    (List.filter (fun e => k <=? went_Sequence e) (ws_written s), true, ws_fs s).
Proof.
  intros [] Hk Hn. unfold ReadFrom. rewrite (ReadFrom_loop_spec _ _ _ (recs ++ [rs])).
  - by rewrite app_nil_l segment_entries_from // wi_log0.
  - pose proof wi_store0 as []. apply Forall2_same_length_lookup. split; [rewrite !length_app /=; lia|].
    intros j g r Hg Hr. destruct (store_files _ _ _ _ _ _ wi_store0) with (j := j) (g := g) (r := r)
      as (i & Hi & [] & Hd); [lia|done..|]. rewrite (OpenRead_lookup _ j i) // sv_data0. done.
Qed.

(** ** After a crash *)

Lemma crash_lookup keep fs j i :
  fs_inodes fs !! j = Some i -> fs_inodes (crash keep fs) !! j = Some (crash_inode (keep j) i).
Proof. intros Hi. simpl. by rewrite list_lookup_imap Hi. Qed.

(** What a file of the crashed directory reads as. *)
Lemma crash_file n s recs rs keep path j :
  ws_inv n s recs rs -> n + 3 < two64 -> fs_dir (ws_fs s) !! path = Some j ->
  exists r i, (recs ++ [rs]) !! j = Some r /\ fs_inodes (ws_fs s) !! j = Some i /\ Forall rec_ok r /\
    path = segName (Z.of_nat j + 1) /\
    ino_data (ino_of (crash keep (ws_fs s)) j) = take (Nat.max (keep j) (ino_synced i)) (encs r).
Proof.
  intros [] Hn Hd. pose proof wi_store0 as []. rewrite si_dir0 in Hd.
  apply dir_of_lookup in Hd as [Hj Hp]; [|unfold zlen in *; lia].
  destruct (lookup_lt_is_Some_2 (w_sealed (ws_wal s) ++ [w_active (ws_wal s)]) j) as [g Hg]; [rewrite length_app /=; lia|].
  destruct (lookup_lt_is_Some_2 (recs ++ [rs]) j) as [r Hr]; [rewrite length_app /=; lia|].
  destruct (store_files _ _ _ _ _ _ wi_store0) with (j := j) (g := g) (r := r) as (i & Hi & [] & _); [lia|done..|].
  exists r, i. split_and!; try done. by rewrite (ino_of_lookup _ _ _ (crash_lookup keep _ _ _ Hi)) /= sv_data0.
Qed.

Lemma durable_on_disk n s recs rs keep e :
  ws_inv n s recs rs -> n + 3 < two64 -> durable (recs ++ [rs]) (fs_inodes (ws_fs s)) e ->
  exists path j r k, fs_dir (ws_fs s) !! path = Some j /\ has_suffix WALFileExtension path = true /\
    ino_data (ino_of (crash keep (ws_fs s)) j) = take k (encs r) /\ Forall rec_ok r /\
    e ∈ segment_entries 0 (complete k r).
Proof.
  intros Hinv Hn (j & r & i & Hr & Hi & He). pose proof Hinv as []. pose proof wi_store0 as [].
  assert (Hd : fs_dir (ws_fs s) !! segName (Z.of_nat j + 1) = Some j).
  { rewrite si_dir0. apply dir_of_lookup; [unfold zlen in *; lia|]. split; [|done]. apply lookup_lt_Some in Hi. lia. }
  destruct (crash_file _ _ _ _ keep _ _ Hinv Hn Hd) as (r' & i' & Hr' & Hi' & Hok & _ & Hdata).
  rewrite Hr in Hr'. injection Hr' as <-. rewrite Hi in Hi'. injection Hi' as <-.
  exists (segName (Z.of_nat j + 1)), j, r, (Nat.max (keep j) (ino_synced i)). split_and!; try done.
  eapply segment_entries_prefix; [|exact He]. apply complete_prefix; [lia|done].
Qed.

Lemma max_data_seq_spec B records : Forall (fun r => 0 <= rec_Sequence r) records -> forall m,
  m <= B -> (forall e, e ∈ segment_entries 0 records -> went_Sequence e <= B) ->
  m <= max_data_seq records m <= B /\
  (forall e, e ∈ segment_entries 0 records -> went_Sequence e <= max_data_seq records m).
Proof.
  induction 1 as [|r records Hr Hrs IH]; intros m Hm He; [by split; [simpl; lia|intros e ?%elem_of_nil]|].
  assert (Hseq : went_Sequence (entry_of_record r) = rec_Sequence r)
    by (unfold entry_of_record; by destruct (decodeEntryData _)).
  assert (Hent : segment_entries 0 (r :: records) =
     (if rec_Type r =? RecordData then [entry_of_record r] else []) ++ segment_entries 0 records).
  { unfold segment_entries. cbn [List.filter]. rewrite (proj2 (Z.leb_le 0 (rec_Sequence r)) Hr) andb_true_r.
    by destruct (_ =? _). }
  rewrite Hent in He |- *. unfold max_data_seq. cbn [fold_left].
  set (m' := if (rec_Type r =? RecordData) && (m <? rec_Sequence r) then rec_Sequence r else m).
  assert (Hm' : m <= m' <= B /\ (rec_Type r = RecordData -> rec_Sequence r <= m')).
  { unfold m'. destruct (Z.eqb_spec (rec_Type r) RecordData); cbn [andb]; [|split; [lia|done]].
    specialize (He (entry_of_record r)). rewrite Hseq in He.
    assert (rec_Sequence r <= B) by (apply He, elem_of_app; left; left).
    destruct (Z.ltb_spec m (rec_Sequence r)); split; lia || done. }
  destruct (IH m') as [Hb Hall]; [lia|intros e Hin; apply He, elem_of_app; by right|].
  unfold max_data_seq in *. split; [lia|]. intros e [Hin|Hin]%elem_of_app; [|by apply Hall].
  destruct (Z.eqb_spec (rec_Type r) RecordData) as [Ht|]; [|by apply elem_of_nil in Hin].
  apply list_elem_of_singleton in Hin as ->. rewrite Hseq. destruct Hm' as [_ Hm']. specialize (Hm' Ht). lia.
Qed.

Lemma complete_seqs k r : Forall rec_ok r -> Forall (fun r => 0 <= rec_Sequence r) (complete k r).
Proof.
  intros Hok. apply Forall_forall. intros x Hx. destruct (complete_sub r k) as [t Ht].
  assert (Hin : x ∈ map sealed_rec r) by (rewrite Ht; apply elem_of_app; by left).
  apply list_elem_of_fmap in Hin as (y & -> & Hy). rewrite Forall_forall in Hok.
  destruct (Hok y Hy) as (_ & Hs & _). apply Hs.
Qed.

(** Recovery of readable files: the greatest sequence number in them. *)
Lemma recover_loop_spec B fs files : forall m,
  (forall p, p ∈ files -> exists r k, OpenRead p fs = (Some (take k (encs r)), fs) /\ Forall rec_ok r /\
     forall e, e ∈ segment_entries 0 (complete k r) -> went_Sequence e <= B) ->
  m <= B ->
  exists m', recover_loop files m fs = (inr m', fs) /\ m <= m' <= B /\
    forall p r k, p ∈ files -> OpenRead p fs = (Some (take k (encs r)), fs) -> Forall rec_ok r ->
      forall e, e ∈ segment_entries 0 (complete k r) -> went_Sequence e <= m'.
Proof.
  induction files as [|p files IH]; intros m Hfiles Hm.
  { exists m. split; [done|]. split; [lia|]. by intros p r k ?%elem_of_nil. }
  destruct (Hfiles p) as (r & k & Hop & Hok & HB); [left|].
  destruct (max_data_seq_spec B (complete k r) (complete_seqs k r Hok) m Hm HB) as [Hmax Hall].
  destruct (IH (max_data_seq (complete k r) m)) as (m' & Hrec & Hm' & Hrest); [|lia|].
  { intros p' Hp'. apply Hfiles. by right. }
  exists m'. cbn [recover_loop]. rewrite Hop ReadAll_take //. split; [done|]. split; [lia|].
  intros p' r' k' [->|Hp']%elem_of_cons Hop' Hok' e He; [|by eapply Hrest].
  rewrite Hop in Hop'. injection Hop' as Heq.
  assert (Hc : complete k' r' = complete k r).
  { pose proof (ReadAll_take r k Hok) as H1. rewrite Heq ReadAll_take // in H1. by injection H1. }
  rewrite Hc in He. specialize (Hall e He). lia.
Qed.

Lemma newSegment_ok id max fs :
  64 <= max <= MaxRecordSize -> fs_faults fs = [] -> is_u64 id ->
  exists seg fs', newSegment id max fs = (inr seg, fs').
Proof.
  intros Hmax Hf Hid. unfold newSegment.
  assert (exists file fs1, OpenAppend (segName id) fs = (Some file, fs1) /\ fs_faults fs1 = []) as (file & fs1 & -> & Hf1).
  { unfold OpenAppend. rewrite next_fault_none //. destruct (fs_dir fs !! segName id); eauto. }
  unfold writeRecord. destruct (header_small id Hid) as [_ Hh]. pose proof (length_enc (headerRecord id)) as Hl.
  unfold enc in Hl. destruct (Record_Encode (headerRecord id)) as [encoded rec']. cbn [fst] in Hl.
  cbn [seg_size seg_maxSize]. pose proof (zlen_nonneg encoded). unfold HeaderSize, MaxRecordSize in *.
  rewrite i64_small; [|lia]. rewrite (proj2 (Z.ltb_ge _ _)); [|lia]. rewrite FileWrite_ok //. eauto.
Qed.

Lemma segment_entries_in_log recs rs j r k e :
  (recs ++ [rs]) !! j = Some r -> e ∈ segment_entries 0 (complete k r) -> e ∈ log_of recs rs.
Proof.
  intros Hr He. unfold log_of. apply (segment_entries_prefix _ _ _ _ (complete_sub r k)) in He.
  rewrite segment_entries_sealed in He.
  apply list_elem_of_lookup_2, list_elem_of_split in Hr as (l1 & l2 & ->).
  rewrite concat_app /= !segment_entries_app !elem_of_app. auto.
Qed.

Lemma reopen_spec n s recs rs keep max hlc :
  ws_inv n s recs rs -> 0 <= n < two63 -> 64 <= max <= MaxRecordSize ->
  exists w' fs', Open_sized max hlc (crash keep (ws_fs s)) = (inr w', fs') /\
    forall e, durable (recs ++ [rs]) (fs_inodes (ws_fs s)) e -> went_Sequence e < w_nextSeq w'.
Proof.
  intros Hinv Hn Hmax. pose proof Hinv as []. set (fs := crash keep (ws_fs s)).
  assert (Hf : fs_faults fs = []) by done.
  assert (Hmem : forall p, p ∈ walFiles fs -> exists j, fs_dir (ws_fs s) !! p = Some j).
  { intros p Hp. unfold walFiles in Hp. rewrite sort_Strings_elem in Hp.
    apply list_elem_of_In, List.filter_In in Hp as [Hp _].
    apply list_elem_of_In, list_elem_of_fmap in Hp as ([p' j] & -> & Hp). apply elem_of_map_to_list in Hp. by exists j. }
  destruct (recover_loop_spec n fs (walFiles fs) 0) as (m & Hrec & Hm & Hall); [|lia|].
  { intros p [j Hj]%Hmem. destruct (crash_file _ _ _ _ keep _ _ Hinv ltac:(lia) Hj) as (r & i & Hr & Hi & Hok & _ & Hdata).
    exists r, (Nat.max (keep j) (ino_synced i)). split_and!; [|done|].
    - rewrite -Hdata. unfold OpenRead. rewrite next_fault_none //. by rewrite Hj.
    - intros e He. apply (segment_entries_in_log recs rs j) in He; [|done]. rewrite -wi_log0 in He.
      pose proof (wi_seqs0 e He). lia. }
  assert (Hopen : forall q, is_u64 q -> exists w' fs', (let '(res, fs) := newSegment q max fs in
      match res with inl err => (inl err, fs) | inr seg => (inr (mkWAL seg [] q hlc max [] false false 0 0 0), fs) end)
      = (inr w', fs') /\ w_nextSeq w' = q).
  { intros q Hq. destruct (newSegment_ok q max fs Hmax Hf Hq) as (seg & fs' & ->). eauto. }
  assert (Hdur : forall e, durable (recs ++ [rs]) (fs_inodes (ws_fs s)) e -> exists p, p ∈ walFiles fs /\ went_Sequence e <= m).
  { intros e He. destruct (durable_on_disk _ _ _ _ keep _ Hinv ltac:(lia) He) as (p & j & r & k & Hd & Hsuf & Hdata & Hok & Hin).
    assert (Hp : p ∈ walFiles fs).
    { unfold walFiles. rewrite sort_Strings_elem. apply list_elem_of_In, List.filter_In. split; [|done].
      apply list_elem_of_In, list_elem_of_fmap. exists (p, j). split; [done|]. by apply elem_of_map_to_list. }
    exists p. split; [done|]. eapply Hall; [done| |done..]. rewrite -Hdata. unfold OpenRead.
    rewrite next_fault_none //. by rewrite Hd. }
  unfold Open_sized, recover. rewrite next_fault_none //. destruct (walFiles fs) as [|p files].
  - destruct (Hopen 1) as (w' & fs' & -> & Hnx); [done|]. eexists _, _. split; [done|].
    intros e (p & Hp%elem_of_nil & _)%Hdur. done.
  - rewrite Hrec. rewrite u64_small; [|lia]. destruct (Hopen (m + 1)) as (w' & fs' & -> & Hnx); [unfold is_u64; lia|].
    eexists _, _. split; [done|]. intros e (_ & _ & He)%Hdur. lia.
Qed.

Lemma in_disk_entries n s recs rs keep e :
  ws_inv n s recs rs -> n + 3 < two64 -> durable (recs ++ [rs]) (fs_inodes (ws_fs s)) e ->
  e ∈ disk_entries (crash keep (ws_fs s)).
Proof.
  intros Hinv Hn He. destruct (durable_on_disk _ _ _ _ keep _ Hinv Hn He) as (p & j & r & k & Hd & _ & Hdata & Hok & Hin).
  unfold disk_entries. apply list_elem_of_In, in_concat. exists (segment_entries 0 (complete k r)).
  split; [|by apply list_elem_of_In]. apply in_map_iff. exists (p, j). split; [|by apply list_elem_of_In, elem_of_map_to_list].
  simpl snd. by rewrite Hdata ReadAll_take.
Qed.

(** ** Properties *)


(** Two writers share one flush; the third entry is written but not synced. *)
Definition demo_ops : list wal_op :=
  [OpWrite 1000 (bytes_of_string "one"); OpWrite 1000 (bytes_of_string "two"); OpFlushGrab;
   OpWrite 1001 (bytes_of_string "three"); OpFlushSync 0; OpWrite 1002 (bytes_of_string "four")].

Definition demo_open (max : Z) : WAL * FS :=
  match Open_sized max (NewHLC "n1") emptyFS with
  | (inr w, fs) => (w, fs)
  | (inl _, fs) => (mkWAL (mkSegment 0 0 EmptyString 0 0 0 0 false false) [] 0 (NewHLC "n1") 0 [] false false 0 0 0, fs)
  end.

Definition demo_entry : WALEntry := mkWALEntry 2 65536001 (bytes_of_string "two") RecordData.


(** In the first life of a log, reading from a sequence number returns
    exactly the entries written with that number or a later one, in the order
    of their strictly increasing sequence numbers, through any rotation of
    segments. *)
Theorem wal_read_returns_log (max : Z) (hlc : HLC) (w : WAL) (fs : FS) (ops : list wal_op) (startSeq : Z)
  (Hmax : 64 <= max <= MaxRecordSize) (Hwf : hlc_wf hlc)
  (Hopen : Open_sized max hlc emptyFS = (inr w, fs))
  (Hops : Forall wal_op_ok ops) (Hlen : zlen ops < two63) (Hstart : is_u64 startSeq) :
  let s := wal_run ops (ws_start w fs) in
  fst (ReadFrom (fun _ => false) startSeq (ws_wal s) (ws_fs s)) =
    (List.filter (fun e => startSeq <=? went_Sequence e) (ws_written s), true) /\
  StronglySorted (fun a b => went_Sequence a < went_Sequence b) (ws_written s).
Proof.
  destruct (open_inv max hlc w fs Hmax Hwf Hopen) as [Hinv _]. pose proof (zlen_nonneg ops).
  destruct (run_inv ops 0 _ _ _ Hinv Hops) as (recs & rs & Hrun); [lia..|]. intros s.
  split; [|apply Hrun]. unfold is_u64 in Hstart. rewrite (read_spec _ _ _ _ _ Hrun) //; lia.
Qed.

Lemma wal_read_returns_log_witness :
  let s := wal_run demo_ops (ws_start (demo_open 100).1 (demo_open 100).2) in
  fst (ReadFrom (fun _ => false) 2 (ws_wal s) (ws_fs s)) =
    (List.filter (fun e => 2 <=? went_Sequence e) (ws_written s), true) /\
  StronglySorted (fun a b => went_Sequence a < went_Sequence b) (ws_written s).
Proof.
  apply (wal_read_returns_log 100 (NewHLC "n1") (demo_open 100).1 (demo_open 100).2 demo_ops 2).
  - vm_compute. split; congruence.
  - vm_compute. repeat split; congruence.
  - vm_compute. reflexivity.
  - unfold demo_ops. repeat constructor; vm_compute; congruence.
  - vm_compute. reflexivity.
  - vm_compute. split; congruence.
Defined.

(** ** Where the log falls short *)

Definition text (s : string) : bytes := bytes_of_string s.

(** Open, run and keep the state; the log of the source's segment size. *)
Definition relife (max : Z) (fs : FS) (ops : list wal_op) : WS :=
  match Open_sized max (NewHLC "n1") fs with
  | (inr w, fs) => wal_run ops (ws_start w fs)
  | (inl _, fs) => mkWS (demo_open max).1 fs [] [] []
  end.

Definition keep_all (_ : nat) : nat := 1000%nat.

(** One write cut by a crash, then a second life that acknowledges a write. *)
Definition torn_life : FS := crash (fun _ => 40%nat) (ws_fs (relife DefaultSegmentSize emptyFS [OpWrite 1000 (text "one")])).
Definition second_life : WS :=
  relife DefaultSegmentSize torn_life [OpWrite 2000 (text "two"); OpFlushGrab; OpFlushSync 0].

(** [Open] appends to the file that holds the torn record, because the
    recovered sequence number names the same segment: the next recovery takes
    the torn record and what follows it for one corrupt record, the log does
    not open any more, and the acknowledged entry cannot be read. *)
Theorem torn_write_then_reopen_corrupts :
  map went_Data (ws_acked second_life) = [text "two"] /\
  (exists seq stored computed,
     fst (Open (NewHLC "n1") (crash keep_all (ws_fs second_life))) = inl (ErrCorruption seq stored computed)) /\
  disk_entries (crash keep_all (ws_fs second_life)) = [].
Proof.
  split; [vm_compute; reflexivity|]. split; [|vm_compute; reflexivity].
  eexists _, _, _. vm_compute. reflexivity.
Qed.

(** A clean life with one acknowledged entry, then reopening. *)
Definition clean_life : WS :=
  relife DefaultSegmentSize emptyFS [OpWrite 1000 (text "one"); OpFlushGrab; OpFlushSync 0; OpClose].

(** After a restart [ReadFrom] looks only at the segments of the new life:
    the entries of the earlier one are on disk but are not returned. *)
Theorem reopened_log_forgets :
  map went_Data (disk_entries (ws_fs clean_life)) = [text "one"] /\
  let s := relife DefaultSegmentSize (ws_fs clean_life) [] in
  ReadFrom (fun _ => false) 1 (ws_wal s) (ws_fs s) = ([], true, ws_fs s).
Proof. split; vm_compute; reflexivity. Qed.

(** Entry 2 is acknowledged; a checkpoint of entry 1 follows, twice. *)
Definition checkpoint_life : WS :=
  relife 150 emptyFS
    [OpWrite 1000 (text "one"); OpWrite 1000 (text "two"); OpFlushGrab; OpFlushSync 0; OpCheckpoint 1;
     OpWrite 1000 (text "a longer entry"); OpCheckpoint 1].

(** A checkpoint record overwrites [lastSeq], so that the next checkpoint
    deletes a segment with entries beyond the checkpoint. *)
Theorem checkpoint_deletes_later_entries :
  map went_Data (List.filter (fun e => 1 <? went_Sequence e) (ws_acked checkpoint_life)) = [text "two"] /\
  map went_Data (disk_entries (ws_fs checkpoint_life)) = [text "a longer entry"].
Proof. split; vm_compute; reflexivity. Qed.

(** Three segments, the first one checkpointed away, then a rotation. *)
Definition reuse_life : WS :=
  relife 100 emptyFS
    [OpWrite 1000 (text "entry number 1"); OpWrite 1000 (text "entry number 2"); OpWrite 1000 (text "entry number 3");
     OpWrite 1000 (text "entry number 4"); OpCheckpoint 2; OpWrite 1000 (text "entry number 5");
     OpWrite 1000 (text "entry number 6"); OpFlushGrab; OpFlushSync 0].

(** Rotation numbers the new segment by how many are sealed: after a
    checkpoint this is the number of a segment still in use.  Its file is
    written by two segments and read twice, and the next checkpoint removes
    the file of the active segment with acknowledged entries in it. *)
Theorem rotation_reuses_segment :
  map went_Sequence (ReadFrom (fun _ => false) 1 (ws_wal reuse_life) (ws_fs reuse_life)).1.1 = [3; 4; 5; 6; 4; 5; 6] /\
  let s := wal_step (OpCheckpoint 4) reuse_life in
  map went_Sequence (List.filter (fun e => 4 <? went_Sequence e) (ws_acked s)) = [5; 6] /\
  disk_entries (ws_fs s) = [].
Proof. split; [vm_compute; reflexivity|]. split; vm_compute; reflexivity. Qed.
