(* ===== verification/Bloom.v ===== *)
(** * Bloom: the Bloom filter of the SSTables (pkg/storage/bloom/bloom.go)

    The bit set is a list of 64-bit words.  Division by a size of zero and
    access beyond the words panic ([None]).  A filter never denies a key that
    was added, and serialization keeps its answers. *)

From S2P Require Import Prelude Bytes.

Record BloomFilter := mkBloomFilter {
  bf_bitset : list Z;
  bf_m : Z;
  bf_k : Z;
  bf_count : Z;
}.

(** [((m + 63) / 64) * 64] in [uint64]. *)
Definition round_up64 (m : Z) : Z := u64 (u64 (m + 63) / 64 * 64).

Definition NewWithParams (m k : Z) : BloomFilter :=
  let m := round_up64 m in
  mkBloomFilter (replicate (Z.to_nat (m / 64)) 0) m k 0.

(** [New], given the two floating-point formulas of the source: the optimal
    number of bits for [n] keys and the optimal number of hashes for [m] bits. *)
Definition New (optimalBits : Z -> Z) (optimalHashes : Z -> Z -> Z) (n : Z) : BloomFilter :=
  let m := round_up64 (optimalBits n) in
  let k := optimalHashes m n in
  let k := if k <? 1 then 1 else k in
  let k := if 20 <? k then 20 else k in
  mkBloomFilter (replicate (Z.to_nat (m / 64)) 0) m k 0.

(** 64-bit FNV-1a and a finalizer for the second hash. *)
Definition fnvBasis64 : Z := 14695981039346656037.
Definition fnvPrime64 : Z := 1099511628211.

Definition fnv_step (h : Z) (b : ascii) : Z := u64 (Z.lxor h (Z_of_byte b) * fnvPrime64).

Definition hash128 (key : string) : Z * Z :=
  let h1 := fold_left fnv_step (bytes_of_string key) fnvBasis64 in
  let h2 := Z.lxor h1 (Z.shiftr h1 33) in
  let h2 := u64 (h2 * 18397679294719823053) in
  let h2 := Z.lxor h2 (Z.shiftr h2 33) in
  let h2 := u64 (h2 * 14181476777654086739) in
  let h2 := Z.lxor h2 (Z.shiftr h2 33) in
  (h1, h2).

(** [(h1 + i*h2) % bf.m]. *)
Definition position (h1 h2 i m : Z) : option Z :=
  if m =? 0 then None else Some (u64 (h1 + u64 (i * h2)) mod m).

Definition setBit (pos : Z) (bitset : list Z) : option (list Z) :=
  w ← bitset !! Z.to_nat (pos / 64);
  Some (<[Z.to_nat (pos / 64) := Z.lor w (Z.shiftl 1 (pos mod 64))]> bitset).

Definition getBit (pos : Z) (bitset : list Z) : option bool :=
  w ← bitset !! Z.to_nat (pos / 64);
  Some (Z.land (Z.shiftr w (pos mod 64)) 1 =? 1).

(** The loop over [i] from [i] on, [n] times. *)
Fixpoint Add_loop (n : nat) (i h1 h2 m : Z) (bitset : list Z) : option (list Z) :=
  match n with
  | O => Some bitset
  | S n =>
      pos ← position h1 h2 i m;
      bitset ← setBit pos bitset;
      Add_loop n (i + 1) h1 h2 m bitset
  end.

Definition Bloom_Add (key : string) (bf : BloomFilter) : option BloomFilter :=
  let '(h1, h2) := hash128 key in
  bitset ← Add_loop (Z.to_nat (bf_k bf)) 0 h1 h2 (bf_m bf) (bf_bitset bf);
  Some (mkBloomFilter bitset (bf_m bf) (bf_k bf) (u64 (bf_count bf + 1))).

Fixpoint Contains_loop (n : nat) (i h1 h2 m : Z) (bitset : list Z) : option bool :=
  match n with
  | O => Some true
  | S n =>
      pos ← position h1 h2 i m;
      b ← getBit pos bitset;
      if b : bool then Contains_loop n (i + 1) h1 h2 m bitset else Some false
  end.

Definition Bloom_Contains (key : string) (bf : BloomFilter) : option bool :=
  let '(h1, h2) := hash128 key in
  Contains_loop (Z.to_nat (bf_k bf)) 0 h1 h2 (bf_m bf) (bf_bitset bf).

Definition OnesCount64 (w : Z) : Z :=
  fold_left (fun n i => if Z.testbit w (Z.of_nat i) then n + 1 else n) (seq 0 64) 0.

Definition BitCount (bf : BloomFilter) : Z := fold_left (fun n w => n + OnesCount64 w) (bf_bitset bf) 0.

Definition Bloom_Serialize (bf : BloomFilter) : bytes :=
  put_le 8 (bf_m bf) ++ put_le 8 (bf_k bf) ++ concat (map (put_le 8) (bf_bitset bf)).

(** The words of the data behind the header; those past its end stay zero. *)
Fixpoint read_words (n : nat) (data : bytes) : list Z :=
  match n with
  | O => []
  | S n' => if zlen data <? 8 then replicate n 0 else get_le (take 8 data) :: read_words n' (drop 8 data)
  end.

Inductive BloomError := ErrDataTooShort.

Definition Bloom_Deserialize (data : bytes) : BloomError + BloomFilter :=
  if zlen data <? 16 then inl ErrDataTooShort
  else
    let m := get_le (subslice 0 8 data) in
    let k := get_le (subslice 8 16 data) in
    inr (mkBloomFilter (read_words (Z.to_nat (m / 64)) (drop 16 data)) m k 0).

(** ** Well-formed filters *)

Record bloom_wf (bf : BloomFilter) : Prop := {
  bw_m : 0 < bf_m bf < two64;
  bw_len : zlen (bf_bitset bf) = bf_m bf / 64;
  bw_mult : bf_m bf mod 64 = 0;
  bw_k : is_u64 (bf_k bf);
  bw_words : Forall is_u64 (bf_bitset bf);
}.

Lemma NewWithParams_wf m k :
  0 < m -> m + 63 < two64 -> is_u64 k -> bloom_wf (NewWithParams m k).
Proof.
  intros Hm Hm' Hk. unfold NewWithParams, round_up64. rewrite (u64_small (m + 63)); [|lia].
  pose proof (Z.div_mod (m + 63) 64). pose proof (Z.mod_pos_bound (m + 63) 64).
  set (q := (m + 63) / 64) in *. rewrite u64_small; [|lia].
  constructor; simpl; try done.
  - lia.
  - unfold zlen. rewrite length_replicate Z.div_mul //. lia.
  - by rewrite Z.mod_mul.
  - by apply Forall_replicate.
Qed.

(** ** Bits *)

Definition bit_of (bitset : list Z) (pos : Z) : bool :=
  match bitset !! Z.to_nat (pos / 64) with Some w => Z.testbit w (pos mod 64) | None => false end.

Lemma getBit_bit bitset pos :
  0 <= pos < 64 * zlen bitset -> getBit pos bitset = Some (bit_of bitset pos).
Proof.
  intros Hp. unfold getBit, bit_of.
  destruct (lookup_lt_is_Some_2 bitset (Z.to_nat (pos / 64))) as [w Hw].
  { unfold zlen in Hp. apply Nat2Z.inj_lt. rewrite Z2Nat.id; [|apply Z.div_pos; lia]. apply Z.div_lt_upper_bound; lia. }
  rewrite Hw. simpl. f_equal. change 1 with (Z.ones 1) at 1. rewrite Z.land_ones; [|lia].
  rewrite -Z.bit0_mod Z.shiftr_spec; [|lia]. rewrite Z.add_0_l. by destruct (Z.testbit w (pos mod 64)).
Qed.

Lemma setBit_spec bitset pos :
  0 <= pos < 64 * zlen bitset -> Forall is_u64 bitset ->
  exists bitset', setBit pos bitset = Some bitset' /\ zlen bitset' = zlen bitset /\ Forall is_u64 bitset' /\
    bit_of bitset' pos = true /\ (forall p, 0 <= p -> bit_of bitset p = true -> bit_of bitset' p = true).
Proof.
  intros Hp Hall. unfold setBit.
  destruct (lookup_lt_is_Some_2 bitset (Z.to_nat (pos / 64))) as [w Hw].
  { unfold zlen in Hp. apply Nat2Z.inj_lt. rewrite Z2Nat.id; [|apply Z.div_pos; lia]. apply Z.div_lt_upper_bound; lia. }
  rewrite Hw. simpl. eexists. split; [done|]. pose proof (lookup_lt_Some _ _ _ Hw) as Hlt.
  pose proof (Z.mod_pos_bound pos 64). split_and!.
  - unfold zlen. by rewrite length_insert.
  - apply Forall_insert; [done|]. assert (Hwu : is_u64 w) by (by eapply Forall_lookup_1).
    unfold is_u64 in *. split; [apply Z.lor_nonneg; split; [lia|apply Z.shiftl_nonneg; lia]|].
    apply (lor_lt_pow2 64); [lia|done|]. rewrite Z.shiftl_1_l. split; [lia|apply Z.pow_lt_mono_r; lia].
  - unfold bit_of. rewrite list_lookup_insert_eq // Z.lor_spec Z.shiftl_1_l Z.pow2_bits_true; [apply orb_true_r|lia].
  - intros p Hp0 Hb. unfold bit_of in *. destruct (decide (Z.to_nat (p / 64) = Z.to_nat (pos / 64))) as [Heq|Hne].
    + rewrite Heq Hw in Hb. rewrite Heq list_lookup_insert_eq // Z.lor_spec Hb. done.
    + by rewrite list_lookup_insert_ne.
Qed.

Lemma position_range bf h1 h2 i :
  bloom_wf bf -> exists pos, position h1 h2 i (bf_m bf) = Some pos /\ 0 <= pos < 64 * zlen (bf_bitset bf).
Proof.
  intros []. unfold position. rewrite (proj2 (Z.eqb_neq _ _)); [|lia]. eexists. split; [done|].
  pose proof (Z.div_mod (bf_m bf) 64). pose proof (Z.mod_pos_bound (u64 (h1 + u64 (i * h2))) (bf_m bf)). lia.
Qed.

(** Setting the bits of a key keeps the filter well formed and keeps every bit
    that was set; afterwards the test of the key finds all of its bits. *)
Lemma Add_loop_spec n : forall i h1 h2 bf,
  bloom_wf bf ->
  exists bitset, Add_loop n i h1 h2 (bf_m bf) (bf_bitset bf) = Some bitset /\
    bloom_wf (mkBloomFilter bitset (bf_m bf) (bf_k bf) (bf_count bf)) /\
    (forall p, 0 <= p -> bit_of (bf_bitset bf) p = true -> bit_of bitset p = true) /\
    (forall j pos, 0 <= j < Z.of_nat n -> position h1 h2 (i + j) (bf_m bf) = Some pos -> bit_of bitset pos = true).
Proof.
  induction n as [|n IH]; intros i h1 h2 bf Hwf; cbn [Add_loop].
  { exists (bf_bitset bf). split_and!; [done|by destruct bf|done|lia]. }
  destruct (position_range bf h1 h2 i Hwf) as (pos & Hpos & Hr). rewrite Hpos. simpl.
  pose proof Hwf as []. destruct (setBit_spec _ _ Hr bw_words0) as (bs & -> & Hlen & Hw & Hset & Hkeep). simpl.
  set (bf1 := mkBloomFilter bs (bf_m bf) (bf_k bf) (bf_count bf)).
  destruct (IH (i + 1) h1 h2 bf1) as (bs' & Hadd & Hwf' & Hkeep' & Hall).
  { constructor; simpl; try done. by rewrite Hlen. }
  exists bs'. split_and!; [done|done|auto|]. intros j pos' Hj Hp'. destruct (decide (j = 0)) as [->|].
  - rewrite Z.add_0_r Hpos in Hp'. injection Hp' as <-. apply Hkeep'; [lia|done].
  - apply (Hall (j - 1)); [lia|]. by replace (i + 1 + (j - 1)) with (i + j) by lia.
Qed.

Lemma Contains_loop_spec n : forall i h1 h2 bf,
  bloom_wf bf ->
  exists b, Contains_loop n i h1 h2 (bf_m bf) (bf_bitset bf) = Some b /\
    (b = true <-> forall j pos, 0 <= j < Z.of_nat n -> position h1 h2 (i + j) (bf_m bf) = Some pos ->
                  bit_of (bf_bitset bf) pos = true).
Proof.
  induction n as [|n IH]; intros i h1 h2 bf Hwf; cbn [Contains_loop]; [exists true; split; [done|split; [lia|done]]|].
  destruct (position_range bf h1 h2 i Hwf) as (pos & Hpos & Hr). rewrite Hpos. simpl.
  rewrite getBit_bit //. simpl. destruct (bit_of (bf_bitset bf) pos) eqn:Hb.
  - destruct (IH (i + 1) h1 h2 bf Hwf) as (b & -> & Hb'). exists b. split; [done|]. rewrite Hb'. split; intros H j p Hj Hp.
    + destruct (decide (j = 0)) as [->|]; [rewrite Z.add_0_r Hpos in Hp; by injection Hp as <-|].
      apply (H (j - 1)); [lia|]. by replace (i + 1 + (j - 1)) with (i + j) by lia.
    + apply (H (j + 1)); [lia|]. by replace (i + (j + 1)) with (i + 1 + j) by lia.
  - exists false. split; [done|]. split; [done|]. intros H. assert (bit_of (bf_bitset bf) pos = true) by (apply (H 0); [lia|by rewrite Z.add_0_r]). congruence.
Qed.

(** Every bit of the filter is set in the other one of the same shape. *)
Definition bloom_le (a b : BloomFilter) : Prop :=
  bf_m a = bf_m b /\ bf_k a = bf_k b /\
  forall p, 0 <= p -> bit_of (bf_bitset a) p = true -> bit_of (bf_bitset b) p = true.

#[global] Instance bloom_le_preorder : PreOrder bloom_le.
Proof.
  split; [done|]. intros a b c (Hm & Hk & H) (Hm' & Hk' & H'). split_and!; [congruence..|auto].
Qed.

Lemma position_nonneg h1 h2 i m pos : 0 < m -> position h1 h2 i m = Some pos -> 0 <= pos.
Proof.
  intros Hm. unfold position. destruct (Z.eqb_spec m 0); [lia|]. intros [= <-]. apply Z.mod_pos_bound. lia.
Qed.

Lemma Contains_mono key a b :
  bloom_wf a -> bloom_wf b -> bloom_le a b -> Bloom_Contains key a = Some true -> Bloom_Contains key b = Some true.
Proof.
  intros Ha Hb (Hm & Hk & Hle). unfold Bloom_Contains. destruct (hash128 key) as [h1 h2].
  destruct (Contains_loop_spec (Z.to_nat (bf_k a)) 0 h1 h2 a Ha) as (x & -> & Hx).
  destruct (Contains_loop_spec (Z.to_nat (bf_k b)) 0 h1 h2 b Hb) as (y & -> & Hy).
  intros [= ->]. f_equal. apply Hy. intros j pos Hj Hp. rewrite -Hm in Hp. apply Hle.
  { eapply position_nonneg; [|done]. apply Ha. }
  apply (proj1 Hx eq_refl j); [lia|done].
Qed.

Lemma Bloom_Add_spec key bf :
  bloom_wf bf -> exists bf', Bloom_Add key bf = Some bf' /\ bloom_wf bf' /\ bloom_le bf bf' /\
    Bloom_Contains key bf' = Some true.
Proof.
  intros Hwf. unfold Bloom_Add, Bloom_Contains. destruct (hash128 key) as [h1 h2].
  destruct (Add_loop_spec (Z.to_nat (bf_k bf)) 0 h1 h2 bf Hwf) as (bs & -> & Hwf' & Hkeep & Hall). simpl.
  eexists. split; [done|]. assert (Hwf2 : bloom_wf (mkBloomFilter bs (bf_m bf) (bf_k bf) (u64 (bf_count bf + 1))))
    by (destruct Hwf'; by constructor).
  split_and!; [done|done|]. cbn [bf_k bf_m bf_bitset].
  destruct (Contains_loop_spec (Z.to_nat (bf_k bf)) 0 h1 h2 _ Hwf2) as (y & Hy & Hiff). cbn [bf_k bf_m bf_bitset] in *.
  rewrite Hy. f_equal. by apply Hiff.
Qed.

Definition add_all (keys : list string) (bf : BloomFilter) : option BloomFilter := for_each Bloom_Add keys bf.

Lemma add_all_spec keys : forall bf, bloom_wf bf ->
  exists bf', add_all keys bf = Some bf' /\ bloom_wf bf' /\ bloom_le bf bf' /\
    forall key, key ∈ keys -> Bloom_Contains key bf' = Some true.
Proof.
  induction keys as [|key keys IH]; intros bf Hwf.
  { exists bf. split_and!; [done..|]. by intros key ?%elem_of_nil. }
  destruct (Bloom_Add_spec key bf Hwf) as (bf1 & Hadd & Hwf1 & Hle1 & Hc1).
  destruct (IH bf1 Hwf1) as (bf2 & Hadd2 & Hwf2 & Hle2 & Hc2).
  exists bf2. split; [|split_and!; [done|by transitivity bf1|]].
  { unfold add_all in *. simpl. by rewrite Hadd. }
  intros k [->|Hk]%elem_of_cons; [by apply (Contains_mono _ bf1)|by apply Hc2].
Qed.

(** ** Serialization *)

Lemma read_words_concat ws : Forall is_u64 ws -> read_words (length ws) (concat (map (put_le 8) ws)) = ws.
Proof.
  induction 1 as [|w ws Hw Hws IH]; [done|]. cbn [length read_words map concat].
  autorewrite with zlen. pose proof (zlen_nonneg (concat (map (put_le 8) ws))).
  rewrite (proj2 (Z.ltb_ge _ 8)); [|lia].
  rewrite take_app_le ?length_put_le // drop_app_le ?length_put_le // take_ge ?length_put_le // drop_ge ?length_put_le //.
  by rewrite get_put_le64 u64_small // app_nil_l IH.
Qed.

Lemma Deserialize_Serialize bf :
  bloom_wf bf -> Bloom_Deserialize (Bloom_Serialize bf) = inr (mkBloomFilter (bf_bitset bf) (bf_m bf) (bf_k bf) 0).
Proof.
  intros []. unfold Bloom_Deserialize, Bloom_Serialize. autorewrite with zlen.
  set (body := concat _). pose proof (zlen_nonneg body). rewrite (proj2 (Z.ltb_ge _ 16)); [|lia].
  assert (Hm : subslice 0 8 (put_le 8 (bf_m bf) ++ put_le 8 (bf_k bf) ++ body) = put_le 8 (bf_m bf)).
  { apply (subslice_app_mid []); [done|by rewrite length_put_le]. }
  assert (Hk : subslice 8 16 (put_le 8 (bf_m bf) ++ put_le 8 (bf_k bf) ++ body) = put_le 8 (bf_k bf)).
  { apply subslice_app_mid; by rewrite !length_put_le. }
  assert (Hd : drop 16 (put_le 8 (bf_m bf) ++ put_le 8 (bf_k bf) ++ body) = body).
  { rewrite app_assoc. apply drop_app_length'. by rewrite length_app !length_put_le. }
  rewrite Hm Hk Hd !get_put_le64 (u64_small (bf_k bf)) // (u64_small (bf_m bf)); [|lia]. rewrite -bw_len0. unfold zlen, body. rewrite Nat2Z.id.
  by rewrite read_words_concat.
Qed.

(** ** Properties *)

(** C33: a filter of at least one bit never panics and never denies a key that
    was added to it, neither in memory nor after it was serialized and read
    back. *)
Theorem bloom_no_false_negatives (m k : Z) (keys : list string)
  (Hm : 0 < m) (Hm' : m + 63 < two64) (Hk : is_u64 k) :
  exists bf bf', add_all keys (NewWithParams m k) = Some bf /\
    Bloom_Deserialize (Bloom_Serialize bf) = inr bf' /\
    forall key, key ∈ keys -> Bloom_Contains key bf = Some true /\ Bloom_Contains key bf' = Some true.
Proof.
  destruct (add_all_spec keys _ (NewWithParams_wf m k Hm Hm' Hk)) as (bf & Hadd & Hwf & _ & Hall).
  eexists bf, _. split_and!; [done|by apply Deserialize_Serialize|]. intros key Hkey. split; [by apply Hall|].
  by apply Hall.
Qed.

Lemma bloom_no_false_negatives_witness :
  exists bf bf', add_all ["a"; "b"; "key3"] (NewWithParams 100 7) = Some bf /\
    Bloom_Deserialize (Bloom_Serialize bf) = inr bf' /\
    forall key, key ∈ ["a"; "b"; "key3"] -> Bloom_Contains key bf = Some true /\ Bloom_Contains key bf' = Some true.
Proof. apply (bloom_no_false_negatives 100 7 ["a"; "b"; "key3"]); vm_compute; done. Defined.
