(* ===== verification/Skiplist.v ===== *)
(** * Skiplist: the memtable (pkg/storage/memtable/skiplist.go)

    Nodes live in a heap and point at each other by index, [None] is a nil
    pointer; the head is node 0.  Dereferencing nil, an index beyond a slice
    and a loop that does not end are [None].  The coin flips of the random
    level are an argument.  Every operation ends without a panic and the
    skip list behaves as a finite map from keys to entries whose scans are in
    key order. *)

From S2P Require Import Prelude Bytes Hlc.

Definition maxLevel : nat := 12.

Record MemEntry := mkMemEntry {
  me_Key : string;
  me_Value : bytes;
  me_Timestamp : Z;
  me_Deleted : bool;
  me_Sequence : Z;
}.

Record Node := mkNode {
  nd_entry : option MemEntry;
  nd_forward : list (option nat);
}.

Record SkipList := mkSkipList {
  sl_nodes : list Node;
  sl_level : nat;
  sl_length : Z;
  sl_size : Z;
}.

Definition headNode : nat := 0.

Definition NewSkipList : SkipList := mkSkipList [mkNode None (replicate maxLevel None)] 1 0 0.

(** [draws] are the outcomes of [sl.rng.Float64() < probability]. *)
Fixpoint randomLevel_loop (draws : list bool) (level : nat) : nat :=
  match draws with
  | true :: draws => if (level <? maxLevel)%nat then randomLevel_loop draws (S level) else level
  | _ => level
  end.

Definition randomLevel (draws : list bool) : nat := randomLevel_loop draws 1.

(** [c.forward[i]] and [c.entry.Key]. *)
Definition forward (h : list Node) (c i : nat) : option (option nat) := n ← h !! c; nd_forward n !! i.
Definition node_entry (h : list Node) (c : nat) : option MemEntry := n ← h !! c; nd_entry n.

(** [for current.forward[i] != nil && current.forward[i].entry.Key < key]. *)
Fixpoint walk (fuel : nat) (h : list Node) (key : string) (i current : nat) : option nat :=
  match fuel with
  | O => None
  | S fuel =>
      nx ← forward h current i;
      match nx with
      | None => Some current
      | Some n =>
          e ← node_entry h n;
          if me_Key e <?s key then walk fuel h key i n else Some current
      end
  end.

(** The loop over the levels below [i], from the top one down, which notes
    in [update] where it turned down. *)
Fixpoint descend (i : nat) (h : list Node) (key : string) (current : nat) (update : list (option nat))
    : option (nat * list (option nat)) :=
  match i with
  | O => Some (current, update)
  | S i =>
      current ← walk (S (length h)) h key i current;
      descend i h key current (<[i := Some current]> update)
  end.

(** The node before [key] and the [update] slice. *)
Definition search (key : string) (sl : SkipList) : option (nat * list (option nat)) :=
  descend (sl_level sl) (sl_nodes sl) key headNode (replicate maxLevel None).

(** The node behind [current] when it holds [key]. *)
Definition match_next (key : string) (current : nat) (h : list Node) : option (option nat) :=
  nx ← forward h current 0;
  match nx with
  | None => Some None
  | Some n => e ← node_entry h n; Some (if me_Key e =?s key then Some n else None)
  end.

Definition set_entry (n : nat) (e : MemEntry) (h : list Node) : list Node :=
  alter (fun nd => mkNode (Some e) (nd_forward nd)) n h.

Definition set_forward (n i : nat) (p : option nat) (h : list Node) : list Node :=
  alter (fun nd => mkNode (nd_entry nd) (<[i := p]> (nd_forward nd))) n h.

(** [for i := sl.level; i < newLevel; i++ { update[i] = sl.head }]. *)
Definition raise_update (level newLevel : nat) (update : list (option nat)) : list (option nat) :=
  fold_left (fun u i => <[i := Some headNode]> u) (seq level (newLevel - level)) update.

(** [newNode.forward[i] = update[i].forward[i]; update[i].forward[i] = newNode]. *)
Definition link_one (new : nat) (update : list (option nat)) (i : nat) (h : list Node) : option (list Node) :=
  u ← update !! i;
  u ← u;
  f ← forward h u i;
  Some (set_forward u i (Some new) (set_forward new i f h)).

Definition link (new : nat) (update : list (option nat)) (newLevel : nat) (h : list Node) : option (list Node) :=
  for_each (link_one new update) (seq 0 newLevel) h.

Definition Put (draws : list bool) (key : string) (value : bytes) (ts seq : Z) (sl : SkipList) : option SkipList :=
  r ← search key sl;
  let '(current, update) := r in
  let e := mkMemEntry key value ts false seq in
  found ← match_next key current (sl_nodes sl);
  match found with
  | Some n => Some (mkSkipList (set_entry n e (sl_nodes sl)) (sl_level sl) (sl_length sl) (sl_size sl))
  | None =>
      let newLevel := randomLevel draws in
      let update := raise_update (sl_level sl) newLevel update in
      let level := if (sl_level sl <? newLevel)%nat then newLevel else sl_level sl in
      let new := length (sl_nodes sl) in
      h ← link new update newLevel (sl_nodes sl ++ [mkNode (Some e) (replicate newLevel None)]);
      Some (mkSkipList h level (i64 (sl_length sl + 1))
              (i64 (sl_size sl + (zlen (bytes_of_string key) + zlen value + 64))))
  end.

Definition Delete (draws : list bool) (key : string) (ts seq : Z) (sl : SkipList) : option SkipList :=
  r ← search key sl;
  found ← match_next key r.1 (sl_nodes sl);
  match found with
  | Some n =>
      Some (mkSkipList (set_entry n (mkMemEntry key [] ts true seq) (sl_nodes sl)) (sl_level sl)
              (sl_length sl) (sl_size sl))
  | None =>
      sl ← Put draws key [] ts seq sl;
      r ← search key sl;
      found ← match_next key r.1 (sl_nodes sl);
      match found with
      | Some n =>
          e ← node_entry (sl_nodes sl) n;
          Some (mkSkipList (set_entry n (mkMemEntry (me_Key e) [] (me_Timestamp e) true (me_Sequence e)) (sl_nodes sl))
                  (sl_level sl) (sl_length sl) (sl_size sl))
      | None => Some sl
      end
  end.

Definition Get (key : string) (sl : SkipList) : option (option MemEntry) :=
  r ← search key sl;
  found ← match_next key r.1 (sl_nodes sl);
  match found with
  | Some n => e ← node_entry (sl_nodes sl) n; Some (Some e)
  | None => Some None
  end.

Definition GetAtTimestamp (key : string) (readTS : Z) (sl : SkipList) : option (option MemEntry) :=
  r ← Get key sl;
  Some (match r with
        | None => None
        | Some e => if HLC_After (me_Timestamp e) readTS then None else Some e
        end).

Fixpoint Scan_loop (fuel : nat) (h : list Node) (endKey : string) (current : option nat) (entries : list MemEntry)
    : option (list MemEntry) :=
  match fuel with
  | O => None
  | S fuel =>
      match current with
      | None => Some entries
      | Some c =>
          e ← node_entry h c;
          if negb (endKey =?s EmptyString) && (endKey <=?s me_Key e) then Some entries
          else
            nx ← forward h c 0;
            Scan_loop fuel h endKey nx (entries ++ [e])
      end
  end.

Definition Scan (startKey endKey : string) (sl : SkipList) : option (list MemEntry) :=
  r ← search startKey sl;
  nx ← forward (sl_nodes sl) r.1 0;
  Scan_loop (S (length (sl_nodes sl))) (sl_nodes sl) endKey nx [].

Definition All (sl : SkipList) : option (list MemEntry) := Scan EmptyString EmptyString sl.
Definition Size (sl : SkipList) : Z := sl_size sl.
Definition Len (sl : SkipList) : Z := sl_length sl.

(** ** The shape of the heap

    [order] lists the nodes by increasing key.  On each level a node points
    to the next node in [order] that is high enough. *)

Definition height (h : list Node) (c : nat) : nat := match h !! c with Some n => length (nd_forward n) | None => 0%nat end.
Definition key_at (h : list Node) (c : nat) : string := match node_entry h c with Some e => me_Key e | None => EmptyString end.

(** The nodes of a list that reach level [i]. *)
Definition on_level (h : list Node) (i : nat) (l : list nat) : list nat := filter (fun c => (i < height h c)%nat) l.

Record sl_inv (sl : SkipList) (order : list nat) : Prop := {
  sv_level : (1 <= sl_level sl <= maxLevel)%nat;
  sv_perm : headNode :: order ≡ₚ seq 0 (length (sl_nodes sl));
  sv_head : height (sl_nodes sl) headNode = maxLevel;
  sv_nodes : forall c, c ∈ order -> is_Some (node_entry (sl_nodes sl) c) /\ (1 <= height (sl_nodes sl) c <= sl_level sl)%nat;
  sv_sorted : StronglySorted (fun a b => str_lt (key_at (sl_nodes sl) a) (key_at (sl_nodes sl) b)) order;
  sv_forward : forall a c b i, headNode :: order = a ++ c :: b -> (i < height (sl_nodes sl) c)%nat ->
    forward (sl_nodes sl) c i = Some (hd_error (on_level (sl_nodes sl) i b));
  sv_length : sl_length sl = i64 (zlen order);
}.

Lemma on_level_app h i a b : on_level h i (a ++ b) = on_level h i a ++ on_level h i b.
Proof. apply filter_app. Qed.

Lemma on_level_in h i c l : (i < height h c)%nat -> on_level h i (c :: l) = c :: on_level h i l.
Proof. intros H. unfold on_level. by rewrite filter_cons_True. Qed.

Lemma on_level_split h i l n rest :
  on_level h i l = n :: rest ->
  exists b1 b2, l = b1 ++ n :: b2 /\ on_level h i b1 = [] /\ on_level h i b2 = rest /\ (i < height h n)%nat.
Proof.
  induction l as [|c l IH]; [done|]. unfold on_level in *. rewrite filter_cons. case_decide as Hc.
  - intros [= -> <-]. by exists [], l.
  - intros (b1 & b2 & -> & H1 & H2 & H3)%IH. exists (c :: b1), b2. split_and!; try done.
    by rewrite filter_cons_False.
Qed.

Lemma sorted_split (key : string) (f : nat -> string) order :
  StronglySorted (fun a b => str_lt (f a) (f b)) order ->
  exists lo hi, order = lo ++ hi /\ (forall c, c ∈ lo -> str_lt (f c) key) /\ (forall c, c ∈ hi -> ~ str_lt (f c) key).
Proof.
  induction 1 as [|c order Hs IH Hc]; [exists [], []; split_and!; [done|by intros c ?%elem_of_nil..]|].
  destruct (decide (str_lt (f c) key)) as [Hlt|Hge].
  - destruct IH as (lo & hi & -> & Hlo & Hhi). exists (c :: lo), hi. split_and!; [done| |done].
    intros d [->|Hd]%elem_of_cons; auto.
  - exists [], (c :: order). split_and!; [done|by intros d ?%elem_of_nil|].
    intros d [->|Hd]%elem_of_cons; [done|]. intros Hd'. apply Hge. rewrite Forall_forall in Hc. by trans (f d); [apply Hc|].
Qed.

(** ** Searching *)

Section search.
Context (sl : SkipList) (order lo hi : list nat) (key : string).
Context (Hinv : sl_inv sl order) (Hsplit : order = lo ++ hi).
Context (Hlo : forall c, c ∈ lo -> str_lt (key_at (sl_nodes sl) c) key).
Context (Hhi : forall c, c ∈ hi -> ~ str_lt (key_at (sl_nodes sl) c) key).

Let h := sl_nodes sl.

(** The last node before [key] that reaches level [i]. *)
Definition last_before (i : nat) : option nat := last (on_level h i (headNode :: lo)).

Lemma order_entry c : c ∈ order -> exists e, node_entry h c = Some e /\ key_at h c = me_Key e.
Proof.
  intros Hc. destruct (sv_nodes _ _ Hinv c Hc) as [[e He] _]. exists e. split; [done|]. unfold key_at, h. by rewrite He.
Qed.

Lemma after_in_lo a c b d : headNode :: lo = a ++ c :: b -> d ∈ b -> d ∈ lo.
Proof.
  intros Heq Hd. destruct a as [|x a]; simpl in Heq; injection Heq as <- ->; [done|].
  apply elem_of_app. right. by right.
Qed.

Lemma walk_spec fuel i : forall a cur b,
  headNode :: lo = a ++ cur :: b -> (i < height h cur)%nat -> (length b < fuel)%nat ->
  walk fuel h key i cur = last_before i.
Proof.
  induction fuel as [|fuel IH]; intros a cur b Heq Hi Hf; [lia|]. cbn [walk].
  assert (Hfull : headNode :: order = a ++ cur :: (b ++ hi)).
  { rewrite Hsplit app_comm_cons Heq. by rewrite -app_assoc. }
  fold h. rewrite (sv_forward _ _ Hinv a cur (b ++ hi) i Hfull Hi) on_level_app. cbn [mbind option_bind].
  destruct (on_level (sl_nodes sl) i b) as [|n rest] eqn:Hb; cbn [app hd_error].
  - assert (Hlast : last_before i = Some cur).
    { unfold last_before. rewrite Heq on_level_app on_level_in // Hb. by rewrite last_snoc. }
    destruct (on_level (sl_nodes sl) i hi) as [|n rest] eqn:Hn; [done|]. cbn [hd_error].
    apply on_level_split in Hn as (b1 & b2 & Hhi' & _).
    assert (Hin : n ∈ hi) by (rewrite Hhi'; apply elem_of_app; right; left).
    destruct (order_entry n) as (e & He & Hk); [rewrite Hsplit; apply elem_of_app; by right|].
    rewrite He. cbn [mbind option_bind]. pose proof (Hhi n Hin) as Hge. fold h in Hge. rewrite Hk in Hge. unfold str_lt in Hge.
    by destruct (me_Key e <?s key).
  - apply on_level_split in Hb as (b1 & b2 & -> & _ & _ & Hin).
    assert (Hn : n ∈ lo). { eapply after_in_lo; [done|]. apply elem_of_app. right. left. }
    destruct (order_entry n) as (e & He & Hk); [rewrite Hsplit; apply elem_of_app; by left|].
    rewrite He. cbn [mbind option_bind]. pose proof (Hlo n Hn) as Hlt. fold h in Hlt. rewrite Hk in Hlt. unfold str_lt in Hlt.
    rewrite Hlt. apply (IH (a ++ cur :: b1) n b2); [|done|].
    + by rewrite Heq -app_assoc.
    + rewrite length_app /= in Hf. lia.
Qed.

Lemma last_before_elem i : (i < maxLevel)%nat -> exists c, last_before i = Some c /\ c ∈ headNode :: lo /\ (i < height h c)%nat.
Proof.
  intros Hi. unfold last_before. destruct (last (on_level h i (headNode :: lo))) as [c|] eqn:Hl.
  - exists c. split; [done|]. apply last_Some_elem_of, list_elem_of_filter in Hl. tauto.
  - apply last_None in Hl. rewrite on_level_in in Hl; [done|]. pose proof (sv_head _ _ Hinv). unfold h. lia.
Qed.

Lemma length_order : length h = S (length order).
Proof. pose proof (Permutation_length (sv_perm _ _ Hinv)) as H. rewrite length_seq in H. by rewrite -H. Qed.

Lemma descend_spec i : (i <= maxLevel)%nat -> forall cur update, cur ∈ headNode :: lo ->
  length update = maxLevel -> (0 < i -> i <= height h cur)%nat ->
  exists cur' update', descend i h key cur update = Some (cur', update') /\ length update' = maxLevel /\
    (forall j, (j < i)%nat -> update' !! j = Some (last_before j)) /\
    (forall j, (i <= j)%nat -> update' !! j = update !! j) /\
    ((0 < i)%nat -> last_before 0 = Some cur') /\ (i = 0%nat -> cur' = cur).
Proof.
  induction i as [|i IH]; intros Hi cur update Hcur Hlen Hh; cbn [descend].
  { exists cur, update. split_and!; try done; lia. }
  apply list_elem_of_split in Hcur as (a & b & Heq).
  rewrite (walk_spec _ i a cur b Heq); [|specialize (Hh ltac:(lia)); lia|].
  2:{ pose proof (f_equal length Heq) as Hl. rewrite length_app /= in Hl. rewrite length_order Hsplit length_app. lia. }
  destruct (last_before_elem i) as (c & Hc & Hin & Hci); [lia|]. rewrite Hc. cbn [mbind option_bind].
  destruct (IH ltac:(lia) c (<[i:=Some c]> update) Hin) as (cur' & update' & Hd & Hl & Hlow & Hhigh & Hc0 & Hc1);
    [by rewrite length_insert|lia|].
  exists cur', update'. split_and!; try done.
  - intros j Hj. destruct (decide (j = i)) as [->|]; [|apply Hlow; lia].
    rewrite Hhigh // list_lookup_insert_eq; [by rewrite Hc|lia].
  - intros j Hj. rewrite Hhigh; [|lia]. by rewrite list_lookup_insert_ne; [|lia].
  - intros _. destruct (decide (i = 0)%nat) as [->|]; [by rewrite Hc1|]. apply Hc0. lia.
Qed.

Lemma search_spec :
  exists cur update, search key sl = Some (cur, update) /\ last (headNode :: lo) = Some cur /\
    length update = maxLevel /\
    (forall j, (j < sl_level sl)%nat -> update !! j = Some (last_before j)).
Proof.
  destruct (sv_level _ _ Hinv) as [Hl1 Hl2]. unfold search.
  destruct (descend_spec (sl_level sl) Hl2 headNode (replicate maxLevel None)) as (cur & update & Hd & Hlen & Hlow & _ & Hc & _);
    [left|by rewrite length_replicate|intros _; unfold h; rewrite (sv_head _ _ Hinv); lia|].
  exists cur, update. fold h. split_and!; try done. rewrite -(Hc ltac:(lia)). unfold last_before, on_level. f_equal.
  symmetry. apply filter_all. apply Forall_forall. intros c [->|Hin]%elem_of_cons.
  - unfold h. rewrite (sv_head _ _ Hinv). unfold maxLevel. lia.
  - destruct (sv_nodes _ _ Hinv c) as [_ ?]; [rewrite Hsplit; apply elem_of_app; by left|]. unfold h. lia.
Qed.
End search.

(** ** Writing to the heap *)

Lemma height_set_forward n i p h c : height (set_forward n i p h) c = height h c.
Proof.
  unfold height, set_forward. destruct (decide (c = n)) as [->|Hne].
  - rewrite list_lookup_alter_eq. destruct (h !! n); simpl; [by rewrite length_insert|done].
  - by rewrite list_lookup_alter_ne.
Qed.

Lemma node_entry_set_forward n i p h c : node_entry (set_forward n i p h) c = node_entry h c.
Proof.
  unfold node_entry, set_forward. destruct (decide (c = n)) as [->|Hne].
  - rewrite list_lookup_alter_eq. by destruct (h !! n).
  - by rewrite list_lookup_alter_ne.
Qed.

Lemma forward_set_forward n i p h c j :
  (i < height h n)%nat ->
  forward (set_forward n i p h) c j = if decide (c = n /\ j = i) then Some p else forward h c j.
Proof.
  unfold forward, set_forward, height. intros Hi. destruct (decide (c = n)) as [->|Hne].
  - rewrite list_lookup_alter_eq. destruct (h !! n) as [nd|]; simpl in *; [|lia].
    destruct (decide (j = i)) as [->|Hji].
    + rewrite decide_True //. by rewrite list_lookup_insert_eq.
    + rewrite decide_False; [|tauto]. by rewrite list_lookup_insert_ne.
  - rewrite list_lookup_alter_ne // decide_False //. tauto.
Qed.

Lemma forward_some h c i : (i < height h c)%nat -> is_Some (forward h c i).
Proof.
  unfold height, forward. destruct (h !! c) as [nd|]; [|lia]. simpl. intros Hi. by apply lookup_lt_is_Some_2.
Qed.

(** What linking a new node on the levels from [i] on does. *)
Lemma link_spec new update n : forall i h,
  (forall j, (i <= j < i + n)%nat -> (j < height h new)%nat /\
     exists u, update !! j = Some (Some u) /\ u <> new /\ (j < height h u)%nat) ->
  exists h', for_each (link_one new update) (seq i n) h = Some h' /\ length h' = length h /\
    (forall c, height h' c = height h c) /\ (forall c, node_entry h' c = node_entry h c) /\
    (forall j u, (i <= j < i + n)%nat -> update !! j = Some (Some u) ->
       forward h' u j = Some (Some new) /\ forward h' new j = forward h u j) /\
    (forall c j, ~ (i <= j < i + n)%nat \/ (c <> new /\ update !! j <> Some (Some c)) -> forward h' c j = forward h c j).
Proof.
  induction n as [|n IH]; intros i h Hup; cbn [seq for_each].
  { exists h. split_and!; try done. lia. }
  destruct (Hup i) as (Hnew & u & Hu & Hne & Hhu); [lia|].
  destruct (forward_some h u i Hhu) as [f Hf].
  set (h1 := set_forward u i (Some new) (set_forward new i f h)).
  assert (Hone : link_one new update i h = Some h1) by (unfold link_one; rewrite Hu /= Hf //).
  rewrite Hone. cbn [mbind option_bind].
  assert (Hh1 : forall c, height h1 c = height h c) by (intros c; unfold h1; by rewrite !height_set_forward).
  assert (Hfw : forall c j, forward h1 c j = if decide (c = u /\ j = i) then Some (Some new) else
                              if decide (c = new /\ j = i) then Some f else forward h c j).
  { intros c j. unfold h1. rewrite forward_set_forward ?height_set_forward // forward_set_forward //. }
  destruct (IH (S i) h1) as (h' & Hl & Hlen & Hht & Hen & Hin & Hout).
  { intros j Hj. rewrite !Hh1. destruct (Hup j) as (Hn & v & Hv & Hnv & Hhv); [lia|]. split; [done|].
    exists v. by rewrite Hh1. }
  exists h'. split_and!; try done.
  - rewrite Hlen. unfold h1, set_forward. by rewrite !length_alter.
  - intros c. by rewrite Hht Hh1.
  - intros c. rewrite Hen. unfold h1. by rewrite !node_entry_set_forward.
  - intros j v Hj Hv. destruct (decide (j = i)) as [->|Hji].
    + rewrite Hu in Hv. injection Hv as <-. rewrite !Hout; [|left; lia..]. rewrite !Hfw.
      rewrite decide_True // decide_False; [|naive_solver]. by rewrite decide_True.
    + destruct (Hin j v) as [H1 H2]; [lia|done|]. split; [done|]. rewrite H2 Hfw !decide_False //; naive_solver.
  - intros c j Hc. rewrite Hout; last (destruct Hc; [left; lia|by right]). rewrite Hfw.
    rewrite !decide_False //; intros [-> ->]; destruct Hc as [?|[??]]; (lia || done).
Qed.

(** ** Lists and orders *)

Lemma StronglySorted_insert {A} (R : A -> A -> Prop) lo x hi :
  StronglySorted R (lo ++ hi) -> (forall c, c ∈ lo -> R c x) -> (forall c, c ∈ hi -> R x c) ->
  StronglySorted R (lo ++ x :: hi).
Proof.
  induction lo as [|y lo IH]; simpl; intros Hs Hlo Hhi; [constructor; [done|by apply Forall_forall]|].
  inversion Hs as [|? ? Hs' Hy]; subst. constructor; [apply IH; [done|intros c Hc; apply Hlo; by right|done]|].
  apply Forall_app in Hy as [? ?]. apply Forall_app. split; [done|]. constructor; [apply Hlo; left|done].
Qed.

Lemma StronglySorted_ext {A} (R R' : A -> A -> Prop) l :
  (forall a b, a ∈ l -> b ∈ l -> R a b -> R' a b) -> StronglySorted R l -> StronglySorted R' l.
Proof.
  intros HR Hs. induction Hs as [|x l Hs IH Hx]; constructor.
  - apply IH. intros a b Ha Hb. apply HR; by right.
  - apply Forall_forall. intros y Hy. rewrite Forall_forall in Hx. apply HR; [left|by right|by apply Hx].
Qed.

(** Where an element of a list with a marked element stands. *)
Lemma marked_split {A} (l r a b : list A) x c :
  l ++ x :: r = a ++ c :: b ->
  (exists b0, l = a ++ c :: b0 /\ b = b0 ++ x :: r) \/ (a = l /\ c = x /\ b = r) \/
  (exists a0, a = l ++ x :: a0 /\ r = a0 ++ c :: b).
Proof.
  revert a. induction l as [|y l IH]; intros a Heq; destruct a as [|z a]; simpl in Heq; injection Heq as Hh Heq; subst.
  - auto.
  - right. right. by exists a.
  - left. by exists l.
  - destruct (IH a Heq) as [(b0 & -> & ->)|[(-> & -> & ->)|(a0 & -> & ->)]]; eauto 10.
Qed.

Lemma elem_of_marked {A} (l r : list A) x c : c ∈ l ++ x :: r -> c = x \/ c ∈ l ++ r.
Proof. rewrite !elem_of_app elem_of_cons. tauto. Qed.

Lemma on_level_last h i l u :
  last (on_level h i l) = Some u -> exists a b, l = a ++ u :: b /\ on_level h i b = [] /\ (i < height h u)%nat.
Proof.
  induction l as [|c l IH]; [done|]. unfold on_level in *. rewrite filter_cons. case_decide as Hc.
  - destruct (filter _ l) as [|x l'] eqn:Hl; [intros [= ->]; by exists [], l|].
    rewrite last_cons_cons. intros (a & b & -> & Hb & Hu)%IH. by exists (c :: a), b.
  - intros (a & b & -> & Hb & Hu)%IH. by exists (c :: a), b.
Qed.

Lemma on_level_ext h h' i l : (forall c, c ∈ l -> height h' c = height h c) -> on_level h' i l = on_level h i l.
Proof.
  unfold on_level. induction l as [|c l IH]; intros Hl; [done|]. rewrite !filter_cons (Hl c); [|left].
  rewrite IH; [done|]. intros d Hd. apply Hl. by right.
Qed.

(** ** Inserting a node *)

Section insert.
Context (sl : SkipList) (lo hi : list nat) (key : string) (e : MemEntry) (newLevel : nat) (update : list (option nat)).
Context (Hinv : sl_inv sl (lo ++ hi)).
Context (Hlo : forall c, c ∈ lo -> str_lt (key_at (sl_nodes sl) c) key).
Context (Hhi : forall c, c ∈ hi -> str_lt key (key_at (sl_nodes sl) c)).
Context (Hkey : me_Key e = key) (Hlvl : (1 <= newLevel <= maxLevel)%nat).
Context (Hup : forall j, (j < newLevel)%nat -> update !! j = Some (last_before sl lo j)).

Let h := sl_nodes sl.
Let new := length h.
Let h1 := h ++ [mkNode (Some e) (replicate newLevel None)].

Lemma old_lt c : c ∈ headNode :: lo ++ hi -> (c < new)%nat.
Proof. rewrite (sv_perm _ _ Hinv) elem_of_seq. unfold new, h. lia. Qed.

Lemma old_lookup c : (c < new)%nat -> h1 !! c = h !! c.
Proof. intros Hc. unfold h1. by rewrite lookup_app_l. Qed.

Lemma new_lookup : h1 !! new = Some (mkNode (Some e) (replicate newLevel None)).
Proof. unfold h1, new. by rewrite list_lookup_middle. Qed.

Lemma old_height c : c ∈ headNode :: lo ++ hi -> height h1 c = height h c.
Proof. intros Hc%old_lt. unfold height. by rewrite old_lookup. Qed.

Lemma insert_linked :
  exists h', link new update newLevel h1 = Some h' /\ length h' = S new /\
    (forall c, height h' c = height h1 c) /\ (forall c, node_entry h' c = node_entry h1 c) /\
    (forall j u, (j < newLevel)%nat -> last_before sl lo j = Some u ->
       forward h' u j = Some (Some new) /\ forward h' new j = forward h u j) /\
    (forall c j, c ∈ headNode :: lo ++ hi -> (newLevel <= j)%nat \/ last_before sl lo j <> Some c ->
       forward h' c j = forward h c j).
Proof.
  destruct (link_spec new update newLevel 0 h1) as (h' & Hl & Hlen & Hht & Hen & Hin & Hout).
  { intros j Hj. split; [unfold height; rewrite new_lookup /= length_replicate; lia|].
    destruct (last_before_elem sl (lo ++ hi) lo Hinv j) as (u & Hu & Huin & Hhu); [lia|].
    exists u. rewrite Hup; [|lia]. split; [by rewrite Hu|].
    assert (Hul : u ∈ headNode :: lo ++ hi) by (rewrite app_comm_cons; apply elem_of_app; by left).
    split; [pose proof (old_lt u Hul); lia|]. by rewrite old_height. }
  exists h'. split_and!; try done.
  - rewrite Hlen. unfold h1. rewrite length_app /=. unfold new. lia.
  - intros j u Hj Hu. destruct (Hin j u) as [H1 H2]; [lia|rewrite Hup // Hu //|]. split; [done|].
    rewrite H2. unfold forward. rewrite old_lookup //. apply old_lt. rewrite app_comm_cons. apply elem_of_app. left.
    apply last_Some_elem_of, list_elem_of_filter in Hu. tauto.
  - intros c j Hc Hj. pose proof (old_lt c Hc) as Hlt. rewrite Hout; [unfold forward; by rewrite old_lookup|].
    destruct (decide (j < newLevel)%nat); [|left; lia]. right. split; [lia|]. destruct Hj as [|Hj]; [lia|].
    rewrite Hup //. congruence.
Qed.

Lemma insert_nodup : NoDup (headNode :: lo ++ hi).
Proof. rewrite (sv_perm _ _ Hinv). apply NoDup_seq. Qed.

Lemma insert_forward h' :
  (forall c, height h' c = height h1 c) ->
  (forall j u, (j < newLevel)%nat -> last_before sl lo j = Some u ->
     forward h' u j = Some (Some new) /\ forward h' new j = forward h u j) ->
  (forall c j, c ∈ headNode :: lo ++ hi -> (newLevel <= j)%nat \/ last_before sl lo j <> Some c ->
     forward h' c j = forward h c j) ->
  forall a c b i, headNode :: lo ++ new :: hi = a ++ c :: b -> (i < height h' c)%nat ->
  forward h' c i = Some (hd_error (on_level h' i b)).
Proof.
  intros Hht Hin Hout a c b i Heq Hi.
  assert (Hext : forall l, (forall d, d ∈ l -> d ∈ headNode :: lo ++ hi) -> on_level h' i l = on_level h i l).
  { intros l Hl. apply on_level_ext. intros d Hd. rewrite Hht. by apply old_height, Hl. }
  assert (Hnh : height h' new = newLevel) by (rewrite Hht; unfold height; rewrite new_lookup /= length_replicate //).
  assert (Hold : forall d, d ∈ headNode :: lo ++ hi -> height h' d = height h d) by (intros d Hd; rewrite Hht; by apply old_height).
  assert (Hnew : on_level h' i (new :: hi) = (if decide (i < newLevel)%nat then [new] else []) ++ on_level h i hi).
  { unfold on_level at 1. rewrite filter_cons Hnh. fold (on_level h' i hi).
    rewrite Hext; [by case_decide|]. intros d Hd. right. apply elem_of_app. by right. }
  change (headNode :: lo ++ new :: hi) with ((headNode :: lo) ++ new :: hi) in Heq.
  apply marked_split in Heq as [(b0 & Hpre & ->)|[(-> & -> & ->)|(a0 & -> & Hr)]].
  - assert (Hfull : headNode :: lo ++ hi = a ++ c :: (b0 ++ hi)) by (rewrite app_comm_cons Hpre -app_assoc //).
    assert (Hc : c ∈ headNode :: lo ++ hi) by (rewrite Hfull; apply elem_of_app; right; left).
    assert (Hb0 : forall d, d ∈ b0 -> d ∈ headNode :: lo ++ hi).
    { intros d Hd. rewrite Hfull. apply elem_of_app. right. right. apply elem_of_app. by left. }
    rewrite Hold // in Hi. pose proof (sv_forward _ _ Hinv a c (b0 ++ hi) i Hfull Hi) as Hfw. fold h in Hfw.
    rewrite on_level_app Hext // Hnew. rewrite on_level_app in Hfw. destruct (on_level h i b0) as [|x rest] eqn:Hb.
    + assert (Hlast : last_before sl lo i = Some c).
      { unfold last_before. fold h. by rewrite Hpre on_level_app on_level_in // Hb last_snoc. }
      case_decide; [by destruct (Hin i c)|]. rewrite Hout //. left. lia.
    + rewrite Hout //. right. unfold last_before. fold h. rewrite Hpre on_level_app on_level_in // Hb.
      intros Hlast. assert (Hcb : c ∈ b0).
      { rewrite last_app_cons last_cons_cons in Hlast. apply last_Some_elem_of in Hlast. rewrite -Hb in Hlast.
        by apply list_elem_of_filter in Hlast as [_ ?]. }
      pose proof insert_nodup as Hnd. rewrite Hfull in Hnd. apply NoDup_app in Hnd as (_ & _ & [Hnc _]%NoDup_cons).
      apply Hnc, elem_of_app. by left.
  - rewrite Hnh in Hi. destruct (last_before_elem sl (lo ++ hi) lo Hinv i) as (u & Hu & _); [lia|].
    destruct (Hin i u Hi Hu) as [_ ->]. unfold last_before in Hu. fold h in Hu.
    apply on_level_last in Hu as (a & b & Hpre & Hb & Hhu).
    rewrite (sv_forward _ _ Hinv a u (b ++ hi)) //; [|by rewrite app_comm_cons Hpre -app_assoc].
    fold h. rewrite on_level_app Hb Hext //. intros d Hd. right. apply elem_of_app. by right.
  - assert (Hfull : headNode :: lo ++ hi = ((headNode :: lo) ++ a0) ++ c :: b) by (rewrite Hr app_comm_cons -app_assoc //).
    assert (Hc : c ∈ headNode :: lo ++ hi) by (rewrite Hfull; apply elem_of_app; right; left).
    rewrite Hold // in Hi. rewrite Hout //.
    + rewrite (sv_forward _ _ Hinv _ c b i Hfull Hi). fold h. rewrite Hext //.
      intros d Hd. rewrite Hfull. apply elem_of_app. right. by right.
    + right. intros Hl. unfold last_before in Hl. apply last_Some_elem_of, list_elem_of_filter in Hl as [_ Hl].
      pose proof insert_nodup as Hnd. rewrite Hfull in Hnd. apply NoDup_app in Hnd as (_ & Hnd & _).
      apply (Hnd c); [apply elem_of_app; by left|left].
Qed.
End insert.

(** ** The skip list as a finite map *)

Definition sl_map (h : list Node) (order : list nat) (m : gmap string MemEntry) : Prop :=
  forall k e, m !! k = Some e <-> me_Key e = k /\ exists c, c ∈ order /\ node_entry h c = Some e.

Definition sl_repr (sl : SkipList) (m : gmap string MemEntry) : Prop :=
  exists order, sl_inv sl order /\ sl_map (sl_nodes sl) order m.

Lemma key_at_entry h c e : node_entry h c = Some e -> key_at h c = me_Key e.
Proof. unfold key_at. by intros ->. Qed.

(** Nodes with the same key are the same node. *)
Lemma sorted_key_inj (f : nat -> string) order a b :
  StronglySorted (fun a b => str_lt (f a) (f b)) order -> a ∈ order -> b ∈ order -> f a = f b -> a = b.
Proof.
  induction 1 as [|c order Hs IH Hc]; intros Ha Hb Heq; [by apply elem_of_nil in Ha|].
  rewrite Forall_forall in Hc. apply elem_of_cons in Ha as [->|Ha], Hb as [->|Hb]; try done; [..|by apply IH];
    exfalso; [specialize (Hc b Hb)|specialize (Hc a Ha)]; rewrite Heq in Hc; by apply (irreflexivity str_lt) in Hc.
Qed.

Section inserted.
Context (sl : SkipList) (lo hi : list nat) (key : string) (e : MemEntry) (h' : list Node).
Context (Hinv : sl_inv sl (lo ++ hi)).
Context (Hlo : forall c, c ∈ lo -> str_lt (key_at (sl_nodes sl) c) key).
Context (Hhi : forall c, c ∈ hi -> str_lt key (key_at (sl_nodes sl) c)).
Context (Hkey : me_Key e = key).

Let new := length (sl_nodes sl).

Context (Hent : forall c, c ∈ lo ++ hi -> node_entry h' c = node_entry (sl_nodes sl) c).
Context (Hnew : node_entry h' new = Some e).

Lemma inserted_old_key c : c ∈ lo ++ hi -> key_at h' c = key_at (sl_nodes sl) c.
Proof. intros Hc. unfold key_at. by rewrite Hent. Qed.

(** No old node has the inserted key. *)
Lemma inserted_fresh c x : c ∈ lo ++ hi -> node_entry h' c = Some x -> me_Key x <> key.
Proof.
  intros Hc Hx Heq. pose proof (inserted_old_key c Hc) as Hk. rewrite (key_at_entry _ _ _ Hx) Heq in Hk.
  apply (irreflexivity str_lt key). apply elem_of_app in Hc as [Hc|Hc].
  - pose proof (Hlo c Hc) as H. by rewrite -Hk in H.
  - pose proof (Hhi c Hc) as H. by rewrite -Hk in H.
Qed.

Lemma inserted_map m : sl_map (sl_nodes sl) (lo ++ hi) m -> sl_map h' (lo ++ new :: hi) (<[key := e]> m).
Proof.
  intros Hm k x. destruct (decide (k = key)) as [->|Hne].
  - rewrite lookup_insert_eq. split.
    + intros [= <-]. split; [done|]. exists new. split; [apply elem_of_app; right; left|done].
    + intros [Hx (c & [->|Hc]%elem_of_marked & Hcx)]; [congruence|]. by destruct (inserted_fresh c x Hc Hcx).
  - rewrite lookup_insert_ne // (Hm k x). split; intros [Hx (c & Hc & Hcx)]; (split; [done|]); exists c.
    + rewrite Hent //. split; [|done]. rewrite elem_of_app elem_of_cons. rewrite elem_of_app in Hc. tauto.
    + apply elem_of_marked in Hc as [->|Hc]; [congruence|]. by rewrite -Hent.
Qed.

Lemma inserted_sorted : StronglySorted (fun a b => str_lt (key_at h' a) (key_at h' b)) (lo ++ new :: hi).
Proof.
  assert (Hkn : key_at h' new = key) by (by rewrite (key_at_entry _ _ _ Hnew)).
  apply StronglySorted_insert; rewrite ?Hkn.
  - eapply StronglySorted_ext; [|exact (sv_sorted _ _ Hinv)]. intros a b Ha Hb. by rewrite !inserted_old_key.
  - intros c Hc. rewrite inserted_old_key; [by apply Hlo|apply elem_of_app; by left].
  - intros c Hc. rewrite inserted_old_key; [by apply Hhi|apply elem_of_app; by right].
Qed.
End inserted.

Lemma insert_inv sl lo hi key e newLevel update m h' len sz :
  sl_inv sl (lo ++ hi) -> sl_map (sl_nodes sl) (lo ++ hi) m ->
  (forall c, c ∈ lo -> str_lt (key_at (sl_nodes sl) c) key) ->
  (forall c, c ∈ hi -> str_lt key (key_at (sl_nodes sl) c)) ->
  me_Key e = key -> (1 <= newLevel <= maxLevel)%nat ->
  (forall j, (j < newLevel)%nat -> update !! j = Some (last_before sl lo j)) ->
  len = i64 (sl_length sl + 1) ->
  link (length (sl_nodes sl)) update newLevel (sl_nodes sl ++ [mkNode (Some e) (replicate newLevel None)]) = Some h' ->
  sl_repr (mkSkipList h' (if (sl_level sl <? newLevel)%nat then newLevel else sl_level sl) len sz) (<[key := e]> m).
Proof.
  intros Hinv Hm Hlo Hhi Hkey Hlvl Hup Hlen Hlink. pose proof Hinv as []. set (new := length (sl_nodes sl)) in *.
  destruct (insert_linked sl lo hi e newLevel update Hinv Hlvl Hup) as (h2 & Hl2 & Hn2 & Hht & Hen & Hin & Hout).
  fold new in Hl2, Hn2, Hin. rewrite Hlink in Hl2. injection Hl2 as <-.
  assert (Hoh : forall c, c ∈ headNode :: lo ++ hi -> height h' c = height (sl_nodes sl) c)
    by (intros c Hc; rewrite Hht; by eapply old_height).
  assert (Hent : forall c, c ∈ lo ++ hi -> node_entry h' c = node_entry (sl_nodes sl) c).
  { intros c Hc. rewrite Hen. unfold node_entry. rewrite lookup_app_l //. eapply old_lt; [done..|]. by right. }
  assert (Hnew : node_entry h' new = Some e) by (rewrite Hen; unfold node_entry, new; by rewrite list_lookup_middle).
  exists (lo ++ new :: hi). split; [|by eapply inserted_map].
  constructor; simpl.
  - destruct (Nat.ltb_spec (sl_level sl) newLevel); lia.
  - rewrite Hn2 -(Permutation_middle lo hi new) perm_swap sv_perm0. rewrite (seq_S (length (sl_nodes sl))).
    fold new. by rewrite Permutation_app_comm.
  - rewrite Hoh; [done|left].
  - intros c [->|Hc']%elem_of_marked.
    + split; [by rewrite Hnew|]. rewrite Hht. unfold height, new. rewrite list_lookup_middle //= length_replicate.
      destruct (Nat.ltb_spec (sl_level sl) newLevel); lia.
    + rewrite Hent // Hoh; [|by right]. destruct (sv_nodes0 c Hc') as [? ?]. split; [done|].
      destruct (Nat.ltb_spec (sl_level sl) newLevel); lia.
  - by eapply inserted_sorted.
  - eapply insert_forward; [exact Hinv|exact Hlvl|exact Hht|exact Hin|exact Hout].
  - rewrite Hlen sv_length0 i64_add_l !zlen_app zlen_cons. f_equal. lia.
Qed.

(** ** The operations on the map *)

Lemma on_level_0 sl order l : sl_inv sl order -> (forall c, c ∈ l -> c ∈ order) -> on_level (sl_nodes sl) 0 l = l.
Proof.
  intros Hinv Hl. apply filter_all, Forall_forall. intros c Hc. destruct (sv_nodes _ _ Hinv c (Hl c Hc)). lia.
Qed.

(** Where a search ends and what it finds behind that place. *)
Lemma lookup_spec sl order key :
  sl_inv sl order ->
  exists lo hi cur update, order = lo ++ hi /\ search key sl = Some (cur, update) /\
    (forall c, c ∈ lo -> str_lt (key_at (sl_nodes sl) c) key) /\
    (forall c, c ∈ hi -> ~ str_lt (key_at (sl_nodes sl) c) key) /\
    length update = maxLevel /\ (forall j, (j < sl_level sl)%nat -> update !! j = Some (last_before sl lo j)) /\
    forward (sl_nodes sl) cur 0 = Some (hd_error hi) /\
    ((exists n e hi', hi = n :: hi' /\ node_entry (sl_nodes sl) n = Some e /\ me_Key e = key /\
        match_next key cur (sl_nodes sl) = Some (Some n)) \/
     ((forall c, c ∈ hi -> str_lt key (key_at (sl_nodes sl) c)) /\ match_next key cur (sl_nodes sl) = Some None)).
Proof.
  intros Hinv. destruct (sorted_split key _ _ (sv_sorted _ _ Hinv)) as (lo & hi & Hsplit & Hlo & Hhi).
  destruct (search_spec sl order lo hi key Hinv Hsplit Hlo Hhi) as (cur & update & Hs & Hlast & Hlen & Hup).
  exists lo, hi, cur, update.
  assert (Hfw : forward (sl_nodes sl) cur 0 = Some (hd_error hi)).
  { apply last_Some in Hlast as [a Ha].
    rewrite (sv_forward _ _ Hinv a cur hi 0); [|by rewrite Hsplit app_comm_cons Ha -app_assoc|].
    - rewrite (on_level_0 _ order) //. intros c Hc. rewrite Hsplit. apply elem_of_app. by right.
    - assert (Hcur : cur ∈ headNode :: lo) by (rewrite Ha; apply elem_of_app; right; left).
      apply elem_of_cons in Hcur as [->|Hc]; [rewrite (sv_head _ _ Hinv); unfold maxLevel; lia|].
      destruct (sv_nodes _ _ Hinv cur) as [_ ?]; [rewrite Hsplit; apply elem_of_app; by left|lia]. }
  split_and!; try done. unfold match_next. rewrite Hfw. cbn [mbind option_bind]. destruct hi as [|n hi'].
  { right. split; [by intros c ?%elem_of_nil|done]. }
  cbn [hd_error]. destruct (order_entry sl order Hinv n) as (e & He & Hk); [rewrite Hsplit; apply elem_of_app; right; left|].
  rewrite He. cbn [mbind option_bind]. rewrite str_eqb_spec. case_bool_decide as Heq.
  - left. exists n, e, hi'. done.
  - right. split; [|done]. rewrite -Hk in Heq.
    assert (Hn : str_lt key (key_at (sl_nodes sl) n)).
    { destruct (str_lt_trichotomy key (key_at (sl_nodes sl) n)) as [?|[?|Hlt]]; [done|congruence|].
      exfalso. apply (Hhi n); [left|done]. }
    intros c [->|Hc]%elem_of_cons; [done|]. trans (key_at (sl_nodes sl) n); [done|].
    pose proof (sv_sorted _ _ Hinv) as Hs'. rewrite Hsplit in Hs'. apply StronglySorted_app_1_r in Hs'.
    inversion Hs' as [|? ? _ Hall]; subst. rewrite Forall_forall in Hall. by apply Hall.
Qed.

Lemma Get_spec sl m key : sl_repr sl m -> Get key sl = Some (m !! key).
Proof.
  intros (order & Hinv & Hm). unfold Get.
  destruct (lookup_spec sl order key Hinv) as (lo & hi & cur & update & Hsplit & -> & Hlo & Hhi & _ & _ & _ & Hcase).
  cbn [mbind option_bind fst]. destruct Hcase as [(n & e & hi' & -> & He & Hk & ->)|[Hgt ->]]; cbn [mbind option_bind].
  - rewrite He. cbn [mbind option_bind]. do 2 f_equal. symmetry. apply Hm. split; [done|]. exists n.
    split; [rewrite Hsplit; apply elem_of_app; right; left|done].
  - f_equal. symmetry. apply eq_None_not_Some. intros [e (Hk & c & Hc & He)%Hm]. rewrite Hsplit in Hc.
    apply key_at_entry in He. rewrite Hk in He. apply elem_of_app in Hc as [Hc|Hc].
    + apply Hlo in Hc. rewrite He in Hc. by apply (irreflexivity str_lt) in Hc.
    + apply Hgt in Hc. rewrite He in Hc. by apply (irreflexivity str_lt) in Hc.
Qed.

(** Replacing the entry of a node by one with the same key. *)
Lemma set_entry_repr sl order m n e0 e :
  sl_inv sl order -> sl_map (sl_nodes sl) order m -> n ∈ order -> node_entry (sl_nodes sl) n = Some e0 ->
  me_Key e = me_Key e0 ->
  sl_repr (mkSkipList (set_entry n e (sl_nodes sl)) (sl_level sl) (sl_length sl) (sl_size sl)) (<[me_Key e := e]> m).
Proof.
  intros Hinv Hm Hn He0 Hk. set (h := sl_nodes sl) in *. set (h' := set_entry n e h).
  assert (Hlk : forall c, h' !! c = if decide (n = c) then (fun nd => mkNode (Some e) (nd_forward nd)) <$> h !! n else h !! c).
  { intros c. apply list_lookup_alter. }
  assert (Hht : forall c, height h' c = height h c).
  { intros c. unfold height. rewrite Hlk. case_decide; [subst; by destruct (h !! c)|done]. }
  assert (Hfw : forall c i, forward h' c i = forward h c i).
  { intros c i. unfold forward. rewrite Hlk. case_decide; [subst; by destruct (h !! c)|done]. }
  assert (Hen : forall c, node_entry h' c = if decide (n = c) then Some e else node_entry h c).
  { intros c. unfold node_entry in *. rewrite Hlk. case_decide; [|done]. by destruct (h !! n). }
  assert (Hka : forall c, key_at h' c = key_at h c).
  { intros c. unfold key_at. rewrite Hen. case_decide; [subst; by rewrite He0|done]. }
  pose proof Hinv as []. exists order. split.
  - constructor; cbn [sl_nodes sl_level sl_length]; fold h h'; try done.
    + unfold h', set_entry. by rewrite length_alter.
    + by rewrite Hht.
    + intros c Hc. rewrite Hen Hht. destruct (sv_nodes0 c Hc). split; [by case_decide|done].
    + eapply StronglySorted_ext; [|exact sv_sorted0]. intros a b _ _. by rewrite !Hka.
    + intros a c b i Heq Hi. rewrite Hht in Hi. rewrite Hfw (sv_forward0 a c b i Heq Hi).
      by rewrite (on_level_ext (sl_nodes sl) h').
  - intros k x. cbn [sl_nodes]. fold h'. destruct (decide (k = me_Key e)) as [->|Hne].
    + rewrite lookup_insert_eq. split.
      * intros [= <-]. split; [done|]. exists n. split; [done|]. by rewrite Hen decide_True.
      * intros [Hx (c & Hc & Hcx)]. assert (c = n) as ->.
        { eapply sorted_key_inj; [exact sv_sorted0|done..|]. fold h. rewrite -!Hka (key_at_entry _ _ _ Hcx) Hka.
          by rewrite (key_at_entry _ _ _ He0) Hx. }
        rewrite Hen decide_True // in Hcx.
    + rewrite lookup_insert_ne // (Hm k x). split; intros [Hx (c & Hc & Hcx)]; (split; [done|]); exists c; (split; [done|]);
        rewrite Hen in Hcx |- *; case_decide as Hd; try done; subst; congruence.
Qed.

Lemma raise_lookup level n update j :
  (level + n <= length update)%nat ->
  fold_left (fun u i => <[i := Some headNode]> u) (seq level n) update !! j =
    if decide (level <= j < level + n)%nat then Some (Some headNode) else update !! j.
Proof.
  revert level update. induction n as [|n IH]; intros level update Hlen; cbn [seq fold_left].
  { rewrite decide_False //. lia. }
  rewrite IH; [|rewrite length_insert; lia]. case_decide; [rewrite decide_True //; lia|].
  destruct (decide (j = level)) as [->|].
  - rewrite list_lookup_insert_eq; [|lia]. rewrite decide_True //. lia.
  - rewrite list_lookup_insert_ne // decide_False //. lia.
Qed.

Lemma randomLevel_range draws : (1 <= randomLevel draws <= maxLevel)%nat.
Proof.
  unfold randomLevel. assert (H : forall l, (1 <= l <= maxLevel)%nat -> (1 <= randomLevel_loop draws l <= maxLevel)%nat).
  { induction draws as [|[] draws IH]; intros l Hl; cbn [randomLevel_loop]; try done.
    destruct (Nat.ltb_spec l maxLevel); [apply IH; lia|done]. }
  apply H. unfold maxLevel. lia.
Qed.

Lemma Put_spec draws key value ts seq sl m :
  sl_repr sl m ->
  exists sl', Put draws key value ts seq sl = Some sl' /\ sl_repr sl' (<[key := mkMemEntry key value ts false seq]> m).
Proof.
  intros (order & Hinv & Hm). unfold Put.
  destruct (lookup_spec sl order key Hinv) as (lo & hi & cur & update & Hsplit & -> & Hlo & Hhi & Hlen & Hup & _ & Hcase).
  cbn [mbind option_bind]. destruct Hcase as [(n & e & hi' & -> & He & Hk & ->)|[Hgt ->]]; cbn [mbind option_bind].
  { eexists. split; [done|]. eapply (set_entry_repr sl order m n e (mkMemEntry key value ts false seq)); try done.
    rewrite Hsplit. apply elem_of_app. right. left. }
  pose proof (randomLevel_range draws) as Hlvl. set (newLevel := randomLevel draws) in *. subst order.
  assert (Hup' : forall j, (j < newLevel)%nat ->
            raise_update (sl_level sl) newLevel update !! j = Some (last_before sl lo j)).
  { intros j Hj. unfold raise_update. rewrite raise_lookup; [|destruct (sv_level _ _ Hinv); lia]. case_decide as Hd.
    - f_equal. unfold last_before. rewrite on_level_in; [|rewrite (sv_head _ _ Hinv); lia].
      assert (Hnil : on_level (sl_nodes sl) j lo = []).
      { destruct (on_level (sl_nodes sl) j lo) as [|c rest] eqn:Hc; [done|].
        apply on_level_split in Hc as (b1 & b2 & -> & _ & _ & Hc). destruct (sv_nodes _ _ Hinv c) as [_ ?]; [|lia].
        rewrite !elem_of_app elem_of_cons. auto. }
      by rewrite Hnil.
    - apply Hup. lia. }
  destruct (insert_linked sl lo hi (mkMemEntry key value ts false seq) newLevel _ Hinv Hlvl Hup') as (h' & Hl & _).
  rewrite Hl. cbn [mbind option_bind]. eexists. split; [done|]. by eapply insert_inv.
Qed.

Lemma Delete_spec draws key ts seq sl m :
  sl_repr sl m ->
  exists sl', Delete draws key ts seq sl = Some sl' /\ sl_repr sl' (<[key := mkMemEntry key [] ts true seq]> m).
Proof.
  intros Hr. pose proof Hr as (order & Hinv & Hm). unfold Delete.
  destruct (lookup_spec sl order key Hinv) as (lo & hi & cur & update & Hsplit & -> & _ & _ & _ & _ & _ & Hcase).
  cbn [mbind option_bind fst]. destruct Hcase as [(n & e & hi' & -> & He & Hk & ->)|[_ ->]]; cbn [mbind option_bind].
  { eexists. split; [done|]. eapply (set_entry_repr sl order m n e (mkMemEntry key [] ts true seq)); try done.
    rewrite Hsplit. apply elem_of_app. right. left. }
  destruct (Put_spec draws key [] ts seq sl m Hr) as (sl1 & -> & order1 & Hinv1 & Hm1). cbn [mbind option_bind].
  destruct (lookup_spec sl1 order1 key Hinv1) as (lo1 & hi1 & cur1 & update1 & Hsplit1 & -> & Hlo1 & _ & _ & _ & _ & Hcase1).
  cbn [mbind option_bind fst].
  destruct (proj1 (Hm1 key (mkMemEntry key [] ts false seq))) as [_ (c & Hc & He)]; [by rewrite lookup_insert_eq|].
  destruct Hcase1 as [(n & e & hi' & -> & He' & Hk & ->)|[Hgt _]]; cbn [mbind option_bind].
  - assert (c = n) as ->.
    { eapply sorted_key_inj; [apply Hinv1|done| |by rewrite (key_at_entry _ _ _ He) (key_at_entry _ _ _ He')].
      rewrite Hsplit1. apply elem_of_app. right. left. }
    rewrite He' in He. injection He as ->. rewrite He'. cbn [mbind option_bind me_Key me_Timestamp me_Sequence].
    eexists. split; [done|]. pose proof (set_entry_repr sl1 order1 _ n _ (mkMemEntry key [] ts true seq) Hinv1 Hm1 Hc He' eq_refl) as Hr'.
    by rewrite /= insert_insert_eq in Hr'.
  - exfalso. apply key_at_entry in He. rewrite Hsplit1 in Hc. apply elem_of_app in Hc as [Hc|Hc].
    + apply Hlo1 in Hc. rewrite He in Hc. by apply (irreflexivity str_lt) in Hc.
    + apply Hgt in Hc. rewrite He in Hc. by apply (irreflexivity str_lt) in Hc.
Qed.

(** ** Scans *)

Definition stops (endKey : string) (e : MemEntry) : bool := negb (endKey =?s EmptyString) && (endKey <=?s me_Key e).

(** The entries of the nodes of a list before the first that stops the scan. *)
Fixpoint before_end (h : list Node) (endKey : string) (l : list nat) : list MemEntry :=
  match l with
  | [] => []
  | c :: l => match node_entry h c with
              | Some e => if stops endKey e then [] else e :: before_end h endKey l
              | None => []
              end
  end.

Lemma Scan_loop_spec sl order endKey : sl_inv sl order -> forall l a acc fuel,
  order = a ++ l -> (length l < fuel)%nat ->
  Scan_loop fuel (sl_nodes sl) endKey (hd_error l) acc = Some (acc ++ before_end (sl_nodes sl) endKey l).
Proof.
  intros Hinv l. induction l as [|c l IH]; intros a acc fuel Horder Hf; (destruct fuel as [|fuel]; [simpl in Hf; lia|]);
    cbn [Scan_loop hd_error before_end]; [by rewrite app_nil_r|].
  assert (Hc : c ∈ order) by (rewrite Horder; apply elem_of_app; right; left).
  destruct (order_entry sl order Hinv c Hc) as (e & -> & _). cbn [mbind option_bind]. fold (stops endKey e).
  destruct (stops endKey e); [by rewrite app_nil_r|].
  rewrite (sv_forward _ _ Hinv (headNode :: a) c l 0); [|by rewrite Horder|destruct (sv_nodes _ _ Hinv c Hc); lia].
  rewrite (on_level_0 _ order) //; last (intros d Hd; rewrite Horder; apply elem_of_app; right; by right).
  cbn [mbind option_bind]. rewrite (IH (a ++ [c])); [by rewrite -app_assoc|by rewrite -app_assoc|simpl in Hf; lia].
Qed.

Lemma before_end_elem sl order endKey : sl_inv sl order -> forall l a e, order = a ++ l ->
  e ∈ before_end (sl_nodes sl) endKey l <->
  stops endKey e = false /\ exists c, c ∈ l /\ node_entry (sl_nodes sl) c = Some e.
Proof.
  intros Hinv l. induction l as [|c l IH]; intros a e Horder; cbn [before_end].
  { split; [by intros ?%elem_of_nil|]. by intros (_ & c & ?%elem_of_nil & _). }
  assert (Hc : c ∈ order) by (rewrite Horder; apply elem_of_app; right; left).
  destruct (order_entry sl order Hinv c Hc) as (e0 & He0 & Hk0). rewrite He0.
  assert (Hlater : forall d x, d ∈ l -> node_entry (sl_nodes sl) d = Some x -> str_lt (me_Key e0) (me_Key x)).
  { intros d x Hd Hx. rewrite -Hk0 -(key_at_entry _ _ _ Hx). pose proof (sv_sorted _ _ Hinv) as Hs.
    rewrite Horder in Hs. apply StronglySorted_app_1_r in Hs. inversion Hs as [|? ? _ Hall]; subst.
    rewrite Forall_forall in Hall. by apply Hall. }
  destruct (stops endKey e0) eqn:Hst.
  - split; [by intros ?%elem_of_nil|]. intros (Hse & d & [->|Hd]%elem_of_cons & Hx); [congruence|].
    exfalso. specialize (Hlater d e Hd Hx). unfold stops in *. apply andb_prop in Hst as [Hne Hle]. rewrite Hne in Hse.
    cbn [andb] in Hse. apply str_leb_lt in Hse. apply str_leb_le in Hle.
    apply (irreflexivity str_lt (me_Key e0)). trans (me_Key e); [done|]. destruct Hle as [Hle| <-]; [by trans endKey|done].
  - rewrite elem_of_cons (IH (a ++ [c])); [|by rewrite -app_assoc]. split.
    + intros [->|(Hse & d & Hd & Hx)]; [split; [done|]; exists c; split; [left|done]|]. split; [done|]. exists d. split; [by right|done].
    + intros (Hse & d & [->|Hd]%elem_of_cons & Hx); [left; congruence|right; eauto].
Qed.

Lemma before_end_sorted sl order endKey : sl_inv sl order -> forall l a, order = a ++ l ->
  StronglySorted (fun x y => str_lt (me_Key x) (me_Key y)) (before_end (sl_nodes sl) endKey l).
Proof.
  intros Hinv l. induction l as [|c l IH]; intros a Horder; cbn [before_end]; [constructor|].
  assert (Hc : c ∈ order) by (rewrite Horder; apply elem_of_app; right; left).
  destruct (order_entry sl order Hinv c Hc) as (e0 & He0 & Hk0). rewrite He0. destruct (stops endKey e0); [constructor|].
  assert (Horder' : order = (a ++ [c]) ++ l) by (by rewrite -app_assoc). constructor; [by eapply IH|].
  apply Forall_forall. intros x Hx. apply (before_end_elem sl order endKey Hinv l _ x Horder') in Hx as (_ & d & Hd & Hx).
  rewrite -Hk0 -(key_at_entry _ _ _ Hx). pose proof (sv_sorted _ _ Hinv) as Hs.
  rewrite Horder in Hs. apply StronglySorted_app_1_r in Hs. inversion Hs as [|? ? _ Hall]; subst.
  rewrite Forall_forall in Hall. by apply Hall.
Qed.

Lemma Scan_spec startKey endKey sl m :
  sl_repr sl m ->
  exists l, Scan startKey endKey sl = Some l /\ StronglySorted (fun x y => str_lt (me_Key x) (me_Key y)) l /\
    forall e, e ∈ l <-> m !! me_Key e = Some e /\ (startKey <=?s me_Key e) = true /\ stops endKey e = false.
Proof.
  intros (order & Hinv & Hm). unfold Scan.
  destruct (lookup_spec sl order startKey Hinv) as (lo & hi & cur & update & Hsplit & -> & Hlo & Hhi & _ & _ & Hfw & _).
  cbn [mbind option_bind fst]. rewrite Hfw. cbn [mbind option_bind].
  rewrite (Scan_loop_spec sl order endKey Hinv hi lo) //; last first.
  { rewrite (length_order sl order Hinv) Hsplit length_app. lia. }
  eexists. split; [done|]. split; [by eapply before_end_sorted|]. intros e.
  rewrite (before_end_elem sl order endKey Hinv hi lo e Hsplit) (Hm (me_Key e) e). split.
  - intros (Hst & c & Hc & He). split_and!; [done| |..].
    + exists c. split; [rewrite Hsplit; apply elem_of_app; by right|done].
    + specialize (Hhi c Hc). rewrite (key_at_entry _ _ _ He) in Hhi. destruct (startKey <=?s me_Key e) eqn:Hl; [done|].
      by apply str_leb_lt in Hl.
    + done.
  - intros ([_ (c & Hc & He)] & Hge & Hst). split; [done|]. exists c. split; [|done]. rewrite Hsplit in Hc.
    apply elem_of_app in Hc as [Hc|]; [|done]. apply Hlo in Hc. rewrite (key_at_entry _ _ _ He) in Hc.
    apply str_leb_lt in Hc. congruence.
Qed.

(** ** Properties *)

Lemma NewSkipList_repr : sl_repr NewSkipList ∅.
Proof.
  exists []. split.
  - constructor; try done.
    + unfold maxLevel. simpl. lia.
    + by intros c ?%elem_of_nil.
    + constructor.
    + intros a c b i Heq Hi. destruct a as [|x [|y a]]; simpl in Heq; injection Heq as <-; [subst|done..].
      cbn in Hi. change (forward (sl_nodes NewSkipList) headNode i) with (replicate maxLevel (@None nat) !! i).
      by apply lookup_replicate_2.
  - intros k e. rewrite lookup_empty. split; [done|]. by intros (_ & c & ?%elem_of_nil & _).
Qed.

Lemma repr_size sl m : sl_repr sl m -> sl_length sl = i64 (Z.of_nat (size m)).
Proof.
  intros (order & Hinv & Hm). rewrite (sv_length _ _ Hinv). unfold zlen. do 2 f_equal.
  set (keys := key_at (sl_nodes sl) <$> order).
  assert (Hnd : NoDup keys).
  { assert (Hno : NoDup (headNode :: order)) by (rewrite (sv_perm _ _ Hinv); apply NoDup_seq).
    apply NoDup_cons in Hno as [_ Hno]. unfold keys. apply NoDup_fmap_2_strong; [|done].
    intros a b Ha Hb. by apply (sorted_key_inj _ order); [apply Hinv|..]. }
  rewrite -(length_fmap (key_at (sl_nodes sl)) order). fold keys. rewrite -(size_list_to_set (C:=gset string) keys Hnd) -size_dom.
  f_equal. apply leibniz_equiv. intros k. rewrite elem_of_list_to_set elem_of_dom. unfold keys. split.
  - intros (c & -> & Hc)%list_elem_of_fmap. destruct (order_entry sl order Hinv c Hc) as (e & He & ->).
    exists e. apply Hm. eauto.
  - intros [e (<- & c & Hc & He)%Hm]. apply list_elem_of_fmap. exists c. by rewrite (key_at_entry _ _ _ He).
Qed.

(** Writes to the memtable, each with the coin flips of its level. *)
Inductive mem_op :=
| MPut (draws : list bool) (key : string) (value : bytes) (ts seq : Z)
| MDelete (draws : list bool) (key : string) (ts seq : Z).

Definition mem_step (o : mem_op) (sl : SkipList) : option SkipList :=
  match o with
  | MPut draws key value ts seq => Put draws key value ts seq sl
  | MDelete draws key ts seq => Delete draws key ts seq sl
  end.

Definition map_step (m : gmap string MemEntry) (o : mem_op) : gmap string MemEntry :=
  match o with
  | MPut _ key value ts seq => <[key := mkMemEntry key value ts false seq]> m
  | MDelete _ key ts seq => <[key := mkMemEntry key [] ts true seq]> m
  end.

Lemma mem_run_spec ops : forall sl m, sl_repr sl m ->
  exists sl', for_each mem_step ops sl = Some sl' /\ sl_repr sl' (fold_left map_step ops m).
Proof.
  induction ops as [|o ops IH]; intros sl m Hr; [by exists sl|]. cbn [for_each fold_left].
  assert (exists sl1, mem_step o sl = Some sl1 /\ sl_repr sl1 (map_step m o)) as (sl1 & Hs & Hr1)
    by (destruct o; [by apply Put_spec|by apply Delete_spec]).
  destruct (IH sl1 _ Hr1) as (sl' & Hrun & Hr'). exists sl'. by rewrite Hs.
Qed.

(** C7: after any sequence of puts and deletes with any random levels the
    memtable, which never panics and whose loops all end, answers as the
    finite map of the last entries does: lookups, range scans in key order,
    lookups at a timestamp and the number of entries. *)
Theorem memtable_refines_map (ops : list mem_op) :
  let m := fold_left map_step ops ∅ in
  exists sl, for_each mem_step ops NewSkipList = Some sl /\
    (forall key, Get key sl = Some (m !! key)) /\
    (forall key ts, GetAtTimestamp key ts sl =
       Some (e ← m !! key; if me_Timestamp e <=? ts then Some e else None)) /\
    (forall startKey endKey, exists l, Scan startKey endKey sl = Some l /\
       StronglySorted (fun x y => str_lt (me_Key x) (me_Key y)) l /\
       forall e, e ∈ l <-> m !! me_Key e = Some e /\ (startKey <=?s me_Key e) = true /\
                   (endKey = EmptyString \/ (me_Key e <?s endKey) = true)) /\
    Len sl = i64 (Z.of_nat (size m)).
Proof.
  destruct (mem_run_spec ops NewSkipList ∅ NewSkipList_repr) as (sl & Hrun & Hr).
  exists sl. split_and!; [done|by intros; apply Get_spec| | |by apply repr_size].
  - intros key ts. unfold GetAtTimestamp, HLC_After. rewrite (Get_spec _ _ _ Hr). cbn [mbind option_bind]. f_equal.
    destruct (_ !! key) as [e|]; [|done]. cbn [mbind option_bind]. rewrite Z.ltb_antisym. by destruct (me_Timestamp e <=? ts).
  - intros startKey endKey. destruct (Scan_spec startKey endKey _ _ Hr) as (l & Hl & Hs & Hin). exists l.
    split_and!; [done..|]. intros e. rewrite Hin /stops str_eqb_spec (str_ltb_leb (me_Key e)) andb_false_iff !negb_false_iff negb_true_iff.
    by rewrite bool_decide_eq_true.
Qed.
