(* ===== verification/SSTable.v ===== *)
(** * SSTable: the sorted tables on disk (pkg/storage/sstable/sstable.go)

    A table is written as blocks of entries with a checksum each, an index of
    the blocks, the Bloom filter and a footer.  The file is a byte list;
    writing to it succeeds, reading past its end is an error, and its path is
    left out of the description.  A table in memory has a filter, so the test
    for a nil filter is left out too.  Reading a table back with the iterator gives exactly the entries added to it.  The point
    lookup of a reader finds nothing, because the key range is not read
    back. *)

From S2P Require Import Prelude GoSort Bytes Hlc WalRecord Bloom Skiplist.

Definition BlockSize : Z := 4 * 1024.
Definition FooterSize : Z := 64.
Definition MagicNumber : Z := 5207659035952890946.

Record IndexEntry := mkIndexEntry {
  ix_Key : string;
  ix_Offset : Z;
  ix_Length : Z;
}.

Record SSTableMeta := mkSSTableMeta {
  sm_MinKey : string;
  sm_MaxKey : string;
  sm_EntryCount : Z;
  sm_FileSize : Z;
  sm_Level : Z;
  sm_Filter : BloomFilter;
  sm_Index : list IndexEntry;
}.

Definition MightContain (key : string) (m : SSTableMeta) : option bool :=
  if (key <?s sm_MinKey m) || (sm_MaxKey m <?s key) then Some false
  else Bloom_Contains key (sm_Filter m).

(** The offset and length of the block; a negative offset when there is none. *)
Definition FindBlock (key : string) (m : SSTableMeta) : Z * Z :=
  let idx := Z.of_nat (sort_Search (length (sm_Index m))
    (fun i => match sm_Index m !! i with Some e => key <?s ix_Key e | None => true end)) - 1 in
  if idx <? 0 then (-1, 0)
  else match sm_Index m !! Z.to_nat idx with Some e => (ix_Offset e, ix_Length e) | None => (-1, 0) end.

(** ** Entries and blocks *)

Definition encodeEntry (e : MemEntry) : bytes :=
  let keyBytes := bytes_of_string (me_Key e) in
  put_le 4 (zlen keyBytes) ++ keyBytes ++ put_le 4 (zlen (me_Value e)) ++ me_Value e
    ++ ToBytes (me_Timestamp e) ++ [byte_of_Z (if me_Deleted e then 1 else 0)].

(** One turn of the loop of [decodeBlock]: an entry and the rest of the data. *)
Definition decode_one (data : bytes) : option (MemEntry * bytes) :=
  if zlen data <? 4 then None
  else
    let keyLen := get_le (take 4 data) in
    let data := drop 4 data in
    if zlen data <? keyLen then None
    else
      let key := string_of_bytes (take (Z.to_nat keyLen) data) in
      let data := drop (Z.to_nat keyLen) data in
      if zlen data <? 4 then None
      else
        let valLen := get_le (take 4 data) in
        let data := drop 4 data in
        if zlen data <? valLen then None
        else
          let value := take (Z.to_nat valLen) data in
          let data := drop (Z.to_nat valLen) data in
          if zlen data <? 8 then None
          else
            let ts := HLCTimestampFromBytes (take 8 data) in
            let data := drop 8 data in
            let '(deleted, data) :=
              match data with b :: data => (Z_of_byte b =? 1, data) | [] => (false, []) end in
            Some (mkMemEntry key value ts deleted 0, data).

(** Each turn consumes bytes, so the length of the data bounds the turns. *)
Fixpoint decodeBlock_loop (fuel : nat) (data : bytes) : list MemEntry :=
  match fuel, data with
  | O, _ | _, [] => []
  | S fuel, _ =>
      match decode_one data with
      | None => []
      | Some (e, data) => e :: decodeBlock_loop fuel data
      end
  end.

Definition decodeBlock (data : bytes) : list MemEntry := decodeBlock_loop (length data) data.

Definition searchBlock (data : bytes) (key : string) : option MemEntry :=
  List.find (fun e => me_Key e =?s key) (decodeBlock data).

(** ** Writing *)

Record Writer := mkWriter {
  wr_out : bytes;
  wr_offset : Z;
  wr_blockBuf : bytes;
  wr_blockOffset : Z;
  wr_blockKeys : list string;
  wr_index : list IndexEntry;
  wr_filter : BloomFilter;
  wr_entryCount : Z;
  wr_minKey : string;
  wr_maxKey : string;
}.

(** The arguments are the sizing formulas of [bloom.New] at a false positive
    rate of one percent. *)
Definition NewWriter (optimalBits : Z -> Z) (optimalHashes : Z -> Z -> Z) (expectedKeys : Z) : Writer :=
  mkWriter [] 0 [] 0 [] [] (New optimalBits optimalHashes (u64 expectedKeys)) 0 EmptyString EmptyString.

(** Appending to the file and advancing the offset. *)
Definition emit (data : bytes) (w : Writer) : Writer :=
  mkWriter (wr_out w ++ data) (i64 (wr_offset w + zlen data)) (wr_blockBuf w) (wr_blockOffset w) (wr_blockKeys w)
    (wr_index w) (wr_filter w) (wr_entryCount w) (wr_minKey w) (wr_maxKey w).

Definition flushBlock (w : Writer) : Writer :=
  if zlen (wr_blockBuf w) =? 0 then w
  else
    let crc := Checksum (wr_blockBuf w) in
    let header := put_le 4 crc ++ put_le 4 (u32 (zlen (wr_blockBuf w))) in
    let w := emit header w in
    let w := emit (wr_blockBuf w) w in
    let index :=
      match wr_blockKeys w with
      | [] => wr_index w
      | k :: _ => wr_index w ++ [mkIndexEntry k (wr_blockOffset w) (i32 (8 + zlen (wr_blockBuf w)))]
      end in
    mkWriter (wr_out w) (wr_offset w) [] (wr_blockOffset w) [] index (wr_filter w) (wr_entryCount w)
      (wr_minKey w) (wr_maxKey w).

Definition Writer_Add (entry : MemEntry) (w : Writer) : option Writer :=
  let encoded := encodeEntry entry in
  let w := if (BlockSize <? zlen (wr_blockBuf w) + zlen encoded) && (0 <? zlen (wr_blockBuf w))
           then flushBlock w else w in
  let '(blockOffset, blockKeys) :=
    if zlen (wr_blockBuf w) =? 0 then (wr_offset w, []) else (wr_blockOffset w, wr_blockKeys w) in
  filter ← Bloom_Add (me_Key entry) (wr_filter w);
  Some (mkWriter (wr_out w) (wr_offset w) (wr_blockBuf w ++ encoded) blockOffset (blockKeys ++ [me_Key entry])
          (wr_index w) filter (i64 (wr_entryCount w + 1))
          (if (wr_minKey w =?s EmptyString) || (me_Key entry <?s wr_minKey w) then me_Key entry else wr_minKey w)
          (if wr_maxKey w <?s me_Key entry then me_Key entry else wr_maxKey w)).

Definition encodeIndexEntry (e : IndexEntry) : bytes :=
  put_le 4 (zlen (bytes_of_string (ix_Key e))) ++ bytes_of_string (ix_Key e)
    ++ put_le 8 (u64 (ix_Offset e)) ++ put_le 4 (u32 (ix_Length e)).

Definition writeIndex (w : Writer) : Writer :=
  let w := emit (put_le 4 (u32 (zlen (wr_index w)))) w in
  emit (concat (map encodeIndexEntry (wr_index w))) w.

(** A key of the footer: at most twelve bytes in a field of [room] bytes. *)
Definition footer_key (room : nat) (key : string) : bytes :=
  let b := take 12 (bytes_of_string key) in
  put_le 4 (zlen b) ++ take room b ++ replicate (room - length b) (byte_of_Z 0).

(** The field of the largest key is [footer[52:52]], of no bytes; the four
    bytes before the magic number stay zero. *)
Definition footer (indexOffset indexLen bloomOffset bloomLen : Z) (minKey maxKey : string) : bytes :=
  put_le 8 (u64 indexOffset) ++ put_le 8 (u64 indexLen) ++ put_le 8 (u64 bloomOffset) ++ put_le 8 (u64 bloomLen)
    ++ footer_key 12 minKey ++ footer_key 0 maxKey ++ replicate 4 (byte_of_Z 0) ++ put_le 8 MagicNumber.

Definition writeFooter (indexOffset indexLen bloomOffset bloomLen : Z) (w : Writer) : Writer :=
  emit (footer indexOffset indexLen bloomOffset bloomLen (wr_minKey w) (wr_maxKey w)) w.

(** The file and its description. *)
Definition Finish (w : Writer) : bytes * SSTableMeta :=
  let w := flushBlock w in
  let indexOffset := wr_offset w in
  let w := writeIndex w in
  let indexLen := i64 (wr_offset w - indexOffset) in
  let bloomOffset := wr_offset w in
  let bloomData := Bloom_Serialize (wr_filter w) in
  let w := emit bloomData w in
  let bloomLen := zlen bloomData in
  let w := writeFooter indexOffset indexLen bloomOffset bloomLen w in
  (wr_out w,
   mkSSTableMeta (wr_minKey w) (wr_maxKey w) (wr_entryCount w) (zlen (wr_out w)) 0 (wr_filter w) (wr_index w)).

(** ** Reading *)

Inductive SSTError :=
| ErrRead
| ErrMagic (magic : Z)
| ErrBloom
| ErrIndex
| ErrBlockCorruption (offset : Z).

Record Reader := mkReader {
  rd_file : bytes;
  rd_meta : SSTableMeta;
}.

(** [file.ReadAt(buf, offset)] with a buffer of [n] bytes: an error when the
    file ends before the buffer is full. *)
Definition ReadAt (file : bytes) (n offset : Z) : option bytes :=
  if (offset <? 0) || (0 <? n) && (zlen file <? offset + n) then None
  else Some (take (Z.to_nat n) (drop (Z.to_nat offset) file)).

Fixpoint decodeIndex_loop (count : nat) (data : bytes) : list IndexEntry :=
  match count with
  | O => []
  | S count =>
      if zlen data <? 4 then []
      else
        let keyLen := get_le (take 4 data) in
        let data := drop 4 data in
        if zlen data <? keyLen then []
        else
          let key := string_of_bytes (take (Z.to_nat keyLen) data) in
          let data := drop (Z.to_nat keyLen) data in
          if zlen data <? 12 then []
          else
            mkIndexEntry key (i64 (get_le (take 8 data))) (i32 (get_le (take 4 (drop 8 data))))
              :: decodeIndex_loop count (drop 12 data)
  end.

Definition decodeIndex (data : bytes) : option (list IndexEntry) :=
  if zlen data <? 4 then None
  else Some (decodeIndex_loop (Z.to_nat (get_le (take 4 data))) (drop 4 data)).

(** [make] with a negative length panics. *)
Definition loadMeta (file : bytes) : option (SSTError + SSTableMeta) :=
  match ReadAt file FooterSize (zlen file - FooterSize) with
  | None => Some (inl ErrRead)
  | Some footer =>
      let magic := get_le (drop 56 footer) in
      if negb (magic =? MagicNumber) then Some (inl (ErrMagic magic))
      else
        let indexOffset := i64 (get_le (subslice 0 8 footer)) in
        let indexLen := i64 (get_le (subslice 8 16 footer)) in
        let bloomOffset := i64 (get_le (subslice 16 24 footer)) in
        let bloomLen := i64 (get_le (subslice 24 32 footer)) in
        if bloomLen <? 0 then None
        else
          match ReadAt file bloomLen bloomOffset with
          | None => Some (inl ErrRead)
          | Some bloomData =>
              match Bloom_Deserialize bloomData with
              | inl _ => Some (inl ErrBloom)
              | inr filter =>
                  if indexLen <? 0 then None
                  else
                    match ReadAt file indexLen indexOffset with
                    | None => Some (inl ErrRead)
                    | Some indexData =>
                        match decodeIndex indexData with
                        | None => Some (inl ErrIndex)
                        | Some index => Some (inr (mkSSTableMeta EmptyString EmptyString 0 (zlen file) 0 filter index))
                        end
                    end
              end
          end
  end.

Definition OpenReader (file : bytes) : option (SSTError + Reader) :=
  r ← loadMeta file;
  Some (match r with inl e => inl e | inr meta => inr (mkReader file meta) end).

Definition readBlock (offset length : Z) (r : Reader) : option (SSTError + bytes) :=
  if length <? 0 then None
  else
    match ReadAt (rd_file r) length offset with
    | None => Some (inl ErrRead)
    | Some buf =>
        if zlen buf <? 8 then None
        else
          let storedCRC := get_le (subslice 0 4 buf) in
          let dataLen := get_le (subslice 4 8 buf) in
          let hi := u32 (8 + dataLen) in
          if (hi <? 8) || (zlen buf <? hi) then None
          else
            let data := subslice 8 (Z.to_nat hi) buf in
            if Checksum data =? storedCRC then Some (inr data) else Some (inl (ErrBlockCorruption offset))
    end.

Definition Reader_Get (key : string) (r : Reader) : option (SSTError + option MemEntry) :=
  might ← MightContain key (rd_meta r);
  if negb might then Some (inr None)
  else
    let '(blockOffset, blockLen) := FindBlock key (rd_meta r) in
    if blockOffset <? 0 then Some (inr None)
    else
      block ← readBlock blockOffset blockLen r;
      Some (match block with inl e => inl e | inr data => inr (searchBlock data key) end).

Record SSTableIterator := mkSSTableIterator {
  it_reader : Reader;
  it_blockIndex : nat;
  it_entries : list MemEntry;
  it_entryIndex : nat;
}.

Definition Reader_Iterator (r : Reader) : SSTableIterator := mkSSTableIterator r 0 [] 0.

(** [Next]: the next entry, [None] at the end.  Each turn of its loop takes a
    block, so the number of blocks bounds the turns. *)
Fixpoint Next_loop (fuel : nat) (it : SSTableIterator) : option ((SSTError + option MemEntry) * SSTableIterator) :=
  match it_entries it !! it_entryIndex it with
  | Some e => Some (inr (Some e), mkSSTableIterator (it_reader it) (it_blockIndex it) (it_entries it) (S (it_entryIndex it)))
  | None =>
      match fuel, sm_Index (rd_meta (it_reader it)) !! it_blockIndex it with
      | _, None => Some (inr None, it)
      | O, _ => None
      | S fuel, Some ix =>
          block ← readBlock (ix_Offset ix) (ix_Length ix) (it_reader it);
          match block with
          | inl e => Some (inl e, mkSSTableIterator (it_reader it) (S (it_blockIndex it)) (it_entries it) (it_entryIndex it))
          | inr data => Next_loop fuel (mkSSTableIterator (it_reader it) (S (it_blockIndex it)) (decodeBlock data) 0)
          end
      end
  end.

Definition Next (it : SSTableIterator) : option ((SSTError + option MemEntry) * SSTableIterator) :=
  Next_loop (length (sm_Index (rd_meta (it_reader it)))) it.

(** ** Entries survive encoding *)

(** What is kept of an entry: all but its sequence number. *)
Definition stored (e : MemEntry) : MemEntry :=
  mkMemEntry (me_Key e) (me_Value e) (me_Timestamp e) (me_Deleted e) 0.

(** Entries below 1 GB. *)
Definition entry_small (e : MemEntry) : Prop := is_i64 (me_Timestamp e) /\ zlen (encodeEntry e) <= 1073741824.

Lemma take_app_exact {A} (a b : list A) n : n = length a -> take n (a ++ b) = a.
Proof. intros ->. apply take_app_length. Qed.

Lemma drop_app_exact {A} (a b : list A) n : n = length a -> drop n (a ++ b) = b.
Proof. intros ->. apply drop_app_length. Qed.

Lemma zlen_to_nat {A} (l : list A) : Z.to_nat (zlen l) = length l.
Proof. unfold zlen. apply Nat2Z.id. Qed.

(** Reading back a length and what it counts. *)
Lemma read_prefixed (l rest : bytes) :
  zlen l < two32 ->
  let data := put_le 4 (zlen l) ++ l ++ rest in
  (zlen data <? 4) = false /\ get_le (take 4 data) = zlen l /\ drop 4 data = l ++ rest /\
  (zlen (l ++ rest) <? zlen l) = false /\ take (Z.to_nat (zlen l)) (l ++ rest) = l /\
  drop (Z.to_nat (zlen l)) (l ++ rest) = rest.
Proof.
  intros Hl data. pose proof (zlen_nonneg l). pose proof (zlen_nonneg rest). unfold data. split_and!.
  - apply Z.ltb_ge. autorewrite with zlen. lia.
  - rewrite take_app_exact ?length_put_le // get_put_le32 u32_small //.
  - by rewrite drop_app_exact ?length_put_le.
  - apply Z.ltb_ge. autorewrite with zlen. lia.
  - apply take_app_exact, zlen_to_nat.
  - apply drop_app_exact, zlen_to_nat.
Qed.

Lemma zlen_encodeEntry e :
  zlen (encodeEntry e) = zlen (bytes_of_string (me_Key e)) + zlen (me_Value e) + 17.
Proof. unfold encodeEntry, ToBytes. autorewrite with zlen. lia. Qed.

Lemma decode_one_encode e rest :
  entry_small e -> decode_one (encodeEntry e ++ rest) = Some (stored e, rest).
Proof.
  intros [Hts Hsmall]. rewrite zlen_encodeEntry in Hsmall.
  pose proof (zlen_nonneg (bytes_of_string (me_Key e))). pose proof (zlen_nonneg (me_Value e)). pose proof (zlen_nonneg rest).
  unfold encodeEntry. set (k := bytes_of_string (me_Key e)) in *. set (v := me_Value e) in *.
  set (tail := ToBytes (me_Timestamp e) ++ [byte_of_Z (if me_Deleted e then 1 else 0)] ++ rest).
  replace ((put_le 4 (zlen k) ++ k ++ put_le 4 (zlen v) ++ v ++ ToBytes (me_Timestamp e)
     ++ [byte_of_Z (if me_Deleted e then 1 else 0)]) ++ rest)
    with (put_le 4 (zlen k) ++ k ++ (put_le 4 (zlen v) ++ v ++ tail)) by (unfold tail; by rewrite -!app_assoc).
  unfold decode_one. set (r1 := put_le 4 (zlen v) ++ v ++ tail).
  destruct (read_prefixed k r1) as (-> & -> & -> & -> & -> & ->); [lia|]. cbv zeta. unfold r1.
  destruct (read_prefixed v tail) as (-> & -> & -> & -> & -> & ->); [lia|].
  assert (Ht : zlen (ToBytes (me_Timestamp e)) = 8) by apply zlen_put_be.
  assert (Hl8 : 8%nat = length (ToBytes (me_Timestamp e))) by (unfold zlen in Ht; lia).
  unfold tail. rewrite (proj2 (Z.ltb_ge _ 8)); [|autorewrite with zlen; simpl; lia].
  rewrite take_app_exact // drop_app_exact //. cbn [app]. rewrite Z_of_byte_of_Z. unfold stored, v, k.
  rewrite string_of_bytes_of_string.
  assert (Hrt : HLCTimestampFromBytes (ToBytes (me_Timestamp e)) = me_Timestamp e).
  { unfold HLCTimestampFromBytes. rewrite take_ge; [|lia]. unfold ToBytes. rewrite get_put_be64.
    unfold u64 at 1. rewrite Z.mod_mod // -/(u64 (me_Timestamp e)) i64_u64 //. }
  rewrite Hrt. by destruct (me_Deleted e).
Qed.

Definition block_data (es : list MemEntry) : bytes := concat (map encodeEntry es).

Lemma decodeBlock_loop_encode es : Forall entry_small es -> forall fuel,
  (length es <= fuel)%nat -> decodeBlock_loop fuel (block_data es) = map stored es.
Proof.
  induction 1 as [|e es He Hes IH]; intros fuel Hf; [by destruct fuel|].
  destruct fuel as [|fuel]; [simpl in Hf; lia|]. change (block_data (e :: es)) with (encodeEntry e ++ block_data es).
  pose proof (zlen_encodeEntry e) as Hl. pose proof (zlen_nonneg (bytes_of_string (me_Key e))). pose proof (zlen_nonneg (me_Value e)).
  cbn [decodeBlock_loop]. destruct (encodeEntry e ++ block_data es) as [|b l] eqn:Heq.
  { apply app_eq_nil in Heq as [Heq _]. rewrite Heq zlen_nil in Hl. lia. }
  rewrite -Heq decode_one_encode //. cbn [map]. f_equal. apply IH. simpl in Hf. lia.
Qed.

Lemma length_block_data es : (length es <= length (block_data es))%nat.
Proof.
  induction es as [|e es IH]; [done|]. change (block_data (e :: es)) with (encodeEntry e ++ block_data es).
  rewrite length_app /=. pose proof (zlen_encodeEntry e) as Hl. unfold zlen in Hl. lia.
Qed.

Lemma decodeBlock_encode es : Forall entry_small es -> decodeBlock (block_data es) = map stored es.
Proof. intros Hes. apply decodeBlock_loop_encode; [done|apply length_block_data]. Qed.

(** ** What has been written *)

Definition block_bytes (es : list MemEntry) : bytes :=
  (put_le 4 (Checksum (block_data es)) ++ put_le 4 (u32 (zlen (block_data es)))) ++ block_data es.

Definition file_blocks (blocks : list (list MemEntry)) : bytes := concat (map block_bytes blocks).

Definition first_key (es : list MemEntry) : string := match es with e :: _ => me_Key e | [] => EmptyString end.

(** The index of blocks that start at [off]. *)
Fixpoint index_from (off : Z) (blocks : list (list MemEntry)) : list IndexEntry :=
  match blocks with
  | [] => []
  | b :: blocks => mkIndexEntry (first_key b) (i64 off) (i32 (8 + zlen (block_data b)))
                     :: index_from (off + zlen (block_bytes b)) blocks
  end.

Definition block_ok (b : list MemEntry) : Prop :=
  b <> [] /\ Forall entry_small b /\ zlen (block_data b) <= 1073741824.

(** [blocks] are the blocks flushed, [cur] the entries of the current one. *)
Record writer_inv (w : Writer) (blocks : list (list MemEntry)) (cur : list MemEntry) : Prop := {
  wv_out : wr_out w = file_blocks blocks;
  wv_offset : wr_offset w = i64 (zlen (wr_out w));
  wv_index : wr_index w = index_from 0 blocks;
  wv_buf : wr_blockBuf w = block_data cur;
  wv_cur : cur <> [] -> wr_blockKeys w = map me_Key cur /\ wr_blockOffset w = i64 (zlen (wr_out w)) /\ block_ok cur;
  wv_blocks : Forall block_ok blocks;
  wv_filter : bloom_wf (wr_filter w);
}.

Lemma file_blocks_app a b : file_blocks (a ++ b) = file_blocks a ++ file_blocks b.
Proof. unfold file_blocks. by rewrite map_app concat_app. Qed.

Lemma index_from_app a b : forall off, index_from off (a ++ b) = index_from off a ++ index_from (off + zlen (file_blocks a)) b.
Proof.
  induction a as [|x a IH]; intros off; [by rewrite Z.add_0_r|].
  cbn [index_from app]. rewrite IH. change (file_blocks (x :: a)) with (block_bytes x ++ file_blocks a).
  by rewrite zlen_app Z.add_assoc.
Qed.

Lemma block_data_app a b : block_data (a ++ b) = block_data a ++ block_data b.
Proof. unfold block_data. by rewrite map_app concat_app. Qed.

Lemma block_data_nil es : zlen (block_data es) = 0 -> es = [].
Proof.
  destruct es as [|e es]; [done|]. pose proof (length_block_data (e :: es)). unfold zlen. simpl in *. lia.
Qed.

Lemma flushBlock_empty w blocks : writer_inv w blocks [] -> flushBlock w = w.
Proof. intros []. unfold flushBlock. by rewrite wv_buf0. Qed.

Lemma flushBlock_inv w blocks cur :
  writer_inv w blocks cur -> cur <> [] -> writer_inv (flushBlock w) (blocks ++ [cur]) [].
Proof.
  intros [] Hcur. destruct (wv_cur0 Hcur) as (Hkeys & Hoff & Hok). unfold flushBlock.
  destruct (Z.eqb_spec (zlen (wr_blockBuf w)) 0) as [Hz|Hz]; [rewrite wv_buf0 in Hz; by apply block_data_nil in Hz|].
  assert (Hout : (wr_out w ++ put_le 4 (Checksum (wr_blockBuf w)) ++ put_le 4 (u32 (zlen (wr_blockBuf w)))) ++ wr_blockBuf w
                 = file_blocks (blocks ++ [cur])).
  { rewrite file_blocks_app wv_out0 wv_buf0. unfold file_blocks at 3, block_bytes. simpl map. simpl concat.
    by rewrite app_nil_r -!app_assoc. }
  constructor; cbn [wr_out wr_offset wr_index wr_blockBuf wr_blockKeys wr_blockOffset wr_filter emit].
  - done.
  - rewrite wv_offset0 (i64_add_l (zlen (wr_out w))) i64_add_l !zlen_app. f_equal.
  - rewrite Hkeys Hoff wv_index0 index_from_app wv_buf0 -wv_out0. destruct cur as [|e cur]; [done|]. cbn [map index_from first_key].
    by rewrite Z.add_0_l.
  - done.
  - done.
  - apply Forall_app. split; [done|]. by constructor.
  - done.
Qed.

Lemma Add_inv w blocks cur e :
  writer_inv w blocks cur -> entry_small e ->
  exists w' blocks' cur', Writer_Add e w = Some w' /\ writer_inv w' blocks' cur' /\ cur' <> [] /\
    concat blocks' ++ cur' = (concat blocks ++ cur) ++ [e].
Proof.
  intros Hinv He. unfold Writer_Add.
  set (w1 := if (BlockSize <? _) && _ then flushBlock w else w).
  assert (exists blocks1 cur1, writer_inv w1 blocks1 cur1 /\ concat blocks1 ++ cur1 = concat blocks ++ cur /\
    (cur1 = [] \/ zlen (block_data cur1) + zlen (encodeEntry e) <= BlockSize)) as (blocks1 & cur1 & Hinv1 & Hcat & Hfit).
  { unfold w1. destruct cur as [|c cur].
    - exists blocks, []. rewrite (flushBlock_empty _ _ Hinv). split_and!; [by destruct (_ && _)|done|by left].
    - destruct ((BlockSize <? zlen (wr_blockBuf w) + zlen (encodeEntry e)) && (0 <? zlen (wr_blockBuf w))) eqn:Hb.
      + exists (blocks ++ [c :: cur]), []. split_and!; [by apply flushBlock_inv| |by left].
        rewrite concat_app /= !app_nil_r. done.
      + exists blocks, (c :: cur). split_and!; [done..|]. right. destruct Hinv. rewrite wv_buf0 in Hb.
        apply andb_false_iff in Hb as [Hb%Z.ltb_ge|Hb%Z.ltb_ge]; [done|].
        pose proof (zlen_nonneg (block_data (c :: cur))).
        assert (zlen (block_data (c :: cur)) = 0) as Hz%block_data_nil by lia. done. }
  clearbody w1. pose proof Hinv1 as []. destruct (Bloom_Add_spec (me_Key e) (wr_filter w1) wv_filter0) as (f & -> & Hf & _).
  set (p := if zlen (wr_blockBuf w1) =? 0 then _ else _).
  assert (Hp : p = (i64 (zlen (wr_out w1)), map me_Key cur1)).
  { unfold p. destruct (Z.eqb_spec (zlen (wr_blockBuf w1)) 0) as [Hz|Hz].
    - rewrite wv_buf0 in Hz. apply block_data_nil in Hz as ->. by rewrite wv_offset0.
    - destruct (wv_cur0) as (-> & -> & _); [|done]. intros ->. by rewrite wv_buf0 in Hz. }
  rewrite Hp. cbn [mbind option_bind]. eexists _, blocks1, (cur1 ++ [e]). split; [done|].
  split_and!; [|by destruct cur1|by rewrite app_assoc Hcat].
  constructor; cbn [wr_out wr_offset wr_index wr_blockBuf wr_blockKeys wr_blockOffset wr_filter]; try done.
  - rewrite block_data_app wv_buf0. unfold block_data at 3. simpl. by rewrite app_nil_r.
  - intros _. split_and!; [by rewrite map_app|done|]. split; [by destruct cur1|split].
    + apply Forall_app. split; [|by constructor]. destruct cur1; [constructor|]. by destruct wv_cur0 as (_ & _ & _ & ? & _).
    + rewrite block_data_app zlen_app. change (block_data [e]) with (encodeEntry e ++ []). rewrite app_nil_r.
      destruct He. destruct Hfit as [->|Hfit]; [change (block_data []) with (@nil ascii); rewrite zlen_nil; lia|]. unfold BlockSize in Hfit. lia.
Qed.

Definition add_entries (es : list MemEntry) (w : Writer) : option Writer := for_each Writer_Add es w.

Lemma add_entries_inv es : Forall entry_small es -> forall w blocks cur, writer_inv w blocks cur ->
  exists w' blocks' cur', add_entries es w = Some w' /\ writer_inv w' blocks' cur' /\
    concat blocks' ++ cur' = (concat blocks ++ cur) ++ es.
Proof.
  induction 1 as [|e es He Hes IH]; intros w blocks cur Hinv.
  { exists w, blocks, cur. by rewrite app_nil_r. }
  destruct (Add_inv w blocks cur e Hinv He) as (w1 & b1 & c1 & Hadd & Hinv1 & _ & Hcat).
  destruct (IH w1 b1 c1 Hinv1) as (w2 & b2 & c2 & Hadd2 & Hinv2 & Hcat2).
  exists w2, b2, c2. split; [|split; [done|by rewrite Hcat2 Hcat -app_assoc]].
  unfold add_entries in *. simpl. by rewrite Hadd.
Qed.

(** The first half of [Finish]: all entries are in blocks. *)
Lemma flush_last w blocks cur :
  writer_inv w blocks cur -> exists blocks', writer_inv (flushBlock w) blocks' [] /\ concat blocks' = concat blocks ++ cur.
Proof.
  intros Hinv. destruct cur as [|c cur].
  - exists blocks. by rewrite (flushBlock_empty _ _ Hinv) app_nil_r.
  - exists (blocks ++ [c :: cur]). split; [by apply flushBlock_inv|]. by rewrite concat_app /= app_nil_r.
Qed.

(** ** Reading the parts of a file *)

Lemma ReadAt_mid a b c : ReadAt (a ++ b ++ c) (zlen b) (zlen a) = Some b.
Proof.
  unfold ReadAt. pose proof (zlen_nonneg a). pose proof (zlen_nonneg c). autorewrite with zlen.
  rewrite (proj2 (Z.ltb_ge _ 0)); [|lia]. rewrite (proj2 (Z.ltb_ge (_ + _) _)); [|lia]. rewrite andb_false_r. cbn [orb].
  rewrite !zlen_to_nat drop_app_length. by rewrite take_app_length.
Qed.

Lemma length_footer_key n key : (n = 0 \/ n = 12)%nat -> length (footer_key n key) = (4 + n)%nat.
Proof.
  intros Hn. unfold footer_key. rewrite !length_app length_put_le length_replicate !length_take. lia.
Qed.

Lemma footer_fields io il bo bl mn mx :
  zlen (footer io il bo bl mn mx) = FooterSize /\
  get_le (drop 56 (footer io il bo bl mn mx)) = MagicNumber /\
  get_le (subslice 0 8 (footer io il bo bl mn mx)) = u64 io /\
  get_le (subslice 8 16 (footer io il bo bl mn mx)) = u64 il /\
  get_le (subslice 16 24 (footer io il bo bl mn mx)) = u64 bo /\
  get_le (subslice 24 32 (footer io il bo bl mn mx)) = u64 bl.
Proof.
  unfold footer. set (a := put_le 8 (u64 io)). set (b := put_le 8 (u64 il)). set (c := put_le 8 (u64 bo)).
  set (d := put_le 8 (u64 bl)). set (k1 := footer_key 12 mn). set (k2 := footer_key 0 mx). set (z := replicate 4 _).
  set (m := put_le 8 MagicNumber).
  assert (Ha : length a = 8%nat) by apply length_put_le. assert (Hb : length b = 8%nat) by apply length_put_le.
  assert (Hc : length c = 8%nat) by apply length_put_le. assert (Hd : length d = 8%nat) by apply length_put_le.
  assert (Hk1 : length k1 = 16%nat) by (apply length_footer_key; lia).
  assert (Hk2 : length k2 = 4%nat) by (apply length_footer_key; lia).
  assert (Hz : length z = 4%nat) by apply length_replicate. assert (Hm : length m = 8%nat) by apply length_put_le.
  assert (Hu : forall x, get_le (put_le 8 (u64 x)) = u64 x).
  { intros x. rewrite get_put_le64 u64_small //. apply u64_range. }
  assert (Ga : get_le a = u64 io) by apply Hu. assert (Gb : get_le b = u64 il) by apply Hu.
  assert (Gc : get_le c = u64 bo) by apply Hu. assert (Gd : get_le d = u64 bl) by apply Hu.
  assert (Gm : get_le m = MagicNumber) by (unfold m; by rewrite get_put_le64).
  clearbody a b c d k1 k2 z m. split_and!.
  - unfold zlen. rewrite !length_app Ha Hb Hc Hd Hk1 Hk2 Hz Hm. done.
  - replace (a ++ b ++ c ++ d ++ k1 ++ k2 ++ z ++ m) with ((a ++ b ++ c ++ d ++ k1 ++ k2 ++ z) ++ m) by (by rewrite -!app_assoc).
    rewrite drop_app_exact //. rewrite !length_app. lia.
  - by rewrite (subslice_app_mid [] a).
  - by rewrite (subslice_app_mid a b); [|lia..].
  - by rewrite app_assoc (subslice_app_mid (a ++ b) c); [|rewrite length_app; lia..].
  - by rewrite (app_assoc a) (app_assoc (a ++ b)) (subslice_app_mid ((a ++ b) ++ c) d); [|rewrite !length_app; lia..].
Qed.

(** ** The index *)

Definition index_ok (e : IndexEntry) : Prop :=
  zlen (bytes_of_string (ix_Key e)) < two32 /\ 0 <= ix_Offset e < two63 /\ 0 <= ix_Length e < 2147483648.

Lemma decodeIndex_loop_encode ix : Forall index_ok ix -> forall rest,
  decodeIndex_loop (length ix) (concat (map encodeIndexEntry ix) ++ rest) = ix.
Proof.
  induction 1 as [|e ix (Hk & Ho & Hl) Hix IH]; intros rest; [done|]. cbn [length decodeIndex_loop map concat].
  set (k := bytes_of_string (ix_Key e)) in *.
  set (tail := put_le 8 (u64 (ix_Offset e)) ++ put_le 4 (u32 (ix_Length e)) ++ concat (map encodeIndexEntry ix) ++ rest).
  assert ((encodeIndexEntry e ++ concat (map encodeIndexEntry ix)) ++ rest = put_le 4 (zlen k) ++ k ++ tail) as ->.
  { unfold tail, encodeIndexEntry at 1. by rewrite -!app_assoc. }
  destruct (read_prefixed k tail) as (-> & -> & -> & -> & -> & ->); [done|]. cbv zeta.
  pose proof (zlen_nonneg (concat (map encodeIndexEntry ix) ++ rest)).
  rewrite (proj2 (Z.ltb_ge _ 12)); [|unfold tail; rewrite !zlen_app !zlen_put_le -zlen_app; lia].
  unfold tail. rewrite take_app_exact ?length_put_le // drop_app_exact ?length_put_le // take_app_exact ?length_put_le //.
  rewrite app_assoc drop_app_exact; [|by rewrite length_app !length_put_le].
  rewrite IH get_put_le64 get_put_le32 (u64_small (u64 _)); [|apply u64_range]. rewrite (u32_small (u32 _)); [|apply u32_range].
  rewrite i64_u64; [|lia]. unfold u32, i32. rewrite (Z.mod_small (ix_Length e)); [|lia]. rewrite Z.mod_small; [|lia].
  unfold k. rewrite string_of_bytes_of_string. f_equal. destruct e. simpl in *. f_equal. lia.
Qed.

Definition index_bytes (ix : list IndexEntry) : bytes := put_le 4 (u32 (zlen ix)) ++ concat (map encodeIndexEntry ix).

Lemma decodeIndex_encode ix : Forall index_ok ix -> zlen ix < two32 -> decodeIndex (index_bytes ix) = Some ix.
Proof.
  intros Hix Hn. pose proof (zlen_nonneg ix). unfold decodeIndex, index_bytes.
  pose proof (zlen_nonneg (concat (map encodeIndexEntry ix))). autorewrite with zlen. rewrite (proj2 (Z.ltb_ge _ 4)); [|lia].
  rewrite take_app_exact ?length_put_le // drop_app_exact ?length_put_le // get_put_le32.
  rewrite (u32_small (u32 _)); [|apply u32_range]. rewrite u32_small; [|lia]. rewrite zlen_to_nat.
  by rewrite -(app_nil_r (concat _)) decodeIndex_loop_encode.
Qed.

Lemma zlen_block_bytes b : zlen (block_bytes b) = 8 + zlen (block_data b).
Proof. unfold block_bytes. autorewrite with zlen. lia. Qed.

(** The entries of the index are those of the blocks, at their offsets. *)
Lemma index_from_ok blocks : Forall block_ok blocks -> forall off,
  0 <= off -> off + zlen (file_blocks blocks) < two63 -> Forall index_ok (index_from off blocks).
Proof.
  induction 1 as [|b blocks (Hne & Hes & Hb) Hblocks IH]; intros off Hoff Hend; [constructor|].
  change (file_blocks (b :: blocks)) with (block_bytes b ++ file_blocks blocks) in Hend. rewrite zlen_app in Hend.
  pose proof (zlen_block_bytes b) as Hbb. pose proof (zlen_nonneg (block_data b)). pose proof (zlen_nonneg (file_blocks blocks)).
  constructor; [|apply IH; lia]. unfold index_ok. cbn [ix_Key ix_Offset ix_Length]. split_and!.
  - destruct b as [|e b]; [done|]. cbn [first_key]. change (block_data (e :: b)) with (encodeEntry e ++ block_data b) in Hb.
    rewrite zlen_app zlen_encodeEntry in Hb. pose proof (zlen_nonneg (me_Value e)). pose proof (zlen_nonneg (block_data b)). lia.
  - rewrite i64_small; [lia|]. unfold is_i64. lia.
  - rewrite i64_small; [lia|]. unfold is_i64. lia.
  - unfold i32. rewrite Z.mod_small; lia.
  - unfold i32. rewrite Z.mod_small; lia.
Qed.

Lemma length_index_from blocks : forall off, length (index_from off blocks) = length blocks.
Proof. induction blocks as [|b blocks IH]; intros off; [done|]. simpl. by rewrite IH. Qed.

Lemma index_from_lookup blocks j b : forall off, blocks !! j = Some b ->
  index_from off blocks !! j =
    Some (mkIndexEntry (first_key b) (i64 (off + zlen (file_blocks (take j blocks)))) (i32 (8 + zlen (block_data b)))).
Proof.
  revert j. induction blocks as [|b' blocks IH]; intros j off Hj; [done|]. destruct j as [|j].
  - simplify_eq/=. by rewrite Z.add_0_r.
  - cbn [lookup list_lookup] in Hj. cbn [index_from]. cbn [lookup list_lookup]. rewrite (IH j _ Hj). cbn [take].
    change (file_blocks (b' :: take j blocks)) with (block_bytes b' ++ file_blocks (take j blocks)).
    by rewrite zlen_app Z.add_assoc.
Qed.

(** ** The finished file *)

Definition table_bytes (blocks : list (list MemEntry)) (f : BloomFilter) (mn mx : string) : bytes :=
  let A := file_blocks blocks in
  let I := index_bytes (index_from 0 blocks) in
  let B := Bloom_Serialize f in
  A ++ I ++ B ++ footer (zlen A) (zlen I) (zlen A + zlen I) (zlen B) mn mx.

Lemma Finish_bytes w blocks cur :
  writer_inv w blocks cur -> zlen (fst (Finish w)) < two63 ->
  exists blocks' f mn mx, concat blocks' = concat blocks ++ cur /\ Forall block_ok blocks' /\ bloom_wf f /\
    fst (Finish w) = table_bytes blocks' f mn mx.
Proof.
  intros Hinv. destruct (flush_last w blocks cur Hinv) as (blocks' & [] & Hcat). unfold Finish.
  set (w1 := flushBlock w) in *. clearbody w1. cbn [fst writeFooter writeIndex emit wr_out wr_index wr_filter wr_minKey wr_maxKey wr_offset].
  rewrite wv_offset0 wv_index0 wv_out0. set (A := file_blocks blocks'). set (ix := index_from 0 blocks').
  set (B := Bloom_Serialize (wr_filter w1)). set (mn := wr_minKey w1). set (mx := wr_maxKey w1).
  rewrite (i64_add_l (zlen A)) i64_add_l zlen_put_le. set (F := footer _ _ _ _ _ _).
  set (C := concat (map encodeIndexEntry ix)) in *. intros Hlen.
  exists blocks', (wr_filter w1), mn, mx. split_and!; [done..|]. unfold table_bytes. fold A ix B mn mx.
  unfold index_bytes. fold C. rewrite (zlen_app (put_le 4 _) C) zlen_put_le.
  assert (0 <= zlen A /\ zlen A + Z.of_nat 4 + zlen C < two63) as [HA HC].
  { clearbody A C F B. rewrite !zlen_app zlen_put_le in Hlen. pose proof (zlen_nonneg A). pose proof (zlen_nonneg B).
    pose proof (zlen_nonneg F). lia. }
  assert (0 <= zlen C) by apply zlen_nonneg.
  assert (F = footer (zlen A) (Z.of_nat 4 + zlen C) (zlen A + (Z.of_nat 4 + zlen C)) (zlen B) mn mx) as ->.
  { unfold F. clearbody A B C. clear F Hlen. rewrite (i64_small (zlen A)); [|lia].
    rewrite (i64_small (zlen A + _ + _)); [|lia]. rewrite i64_small; [|lia]. f_equal; lia. }
  clear Hlen. set (F := footer _ _ _ _ _ _). set (P := put_le 4 _). clearbody A B C F P. by rewrite -!app_assoc.
Qed.

(** ** Reading a finished file *)

Lemma table_blocks_bound blocks f mn mx :
  zlen (table_bytes blocks f mn mx) < two63 ->
  zlen (file_blocks blocks) + zlen (index_bytes (index_from 0 blocks)) + zlen (Bloom_Serialize f) + FooterSize < two63.
Proof.
  unfold table_bytes. set (F := footer _ _ _ _ _ _). assert (zlen F = FooterSize) as HF by apply footer_fields.
  set (A := file_blocks blocks). set (I := index_bytes _). set (B := Bloom_Serialize f). clearbody A I B F.
  rewrite !zlen_app HF. lia.
Qed.

Lemma loadMeta_table blocks f mn mx :
  Forall block_ok blocks -> bloom_wf f -> zlen blocks < two32 -> zlen (table_bytes blocks f mn mx) < two63 ->
  loadMeta (table_bytes blocks f mn mx) =
    Some (inr (mkSSTableMeta EmptyString EmptyString 0 (zlen (table_bytes blocks f mn mx)) 0
      (mkBloomFilter (bf_bitset f) (bf_m f) (bf_k f) 0) (index_from 0 blocks))).
Proof.
  intros Hblocks Hf Hn Hlen%table_blocks_bound. unfold loadMeta, table_bytes. cbv zeta.
  set (F := footer _ _ _ _ _ _). destruct (footer_fields (zlen (file_blocks blocks)) (zlen (index_bytes (index_from 0 blocks)))
    (zlen (file_blocks blocks) + zlen (index_bytes (index_from 0 blocks))) (zlen (Bloom_Serialize f)) mn mx)
    as (HF & Hmagic & Hio & Hil & Hbo & Hbl). fold F in HF, Hmagic, Hio, Hil, Hbo, Hbl.
  pose proof (Deserialize_Serialize f Hf) as Hdes.
  pose proof (zlen_nonneg (file_blocks blocks)) as HA0. pose proof (zlen_nonneg (index_bytes (index_from 0 blocks))) as HI0.
  pose proof (zlen_nonneg (Bloom_Serialize f)) as HB0. unfold FooterSize in *.
  assert (Hix : decodeIndex (index_bytes (index_from 0 blocks)) = Some (index_from 0 blocks)).
  { apply decodeIndex_encode; [apply index_from_ok; [done|lia..]|]. unfold zlen in *. by rewrite length_index_from. }
  set (A := file_blocks blocks) in *. set (I := index_bytes _) in *. set (B := Bloom_Serialize f) in *.
  clearbody A I B F.
  assert (Hfoot : ReadAt (A ++ I ++ B ++ F) 64 (zlen (A ++ I ++ B ++ F) - 64) = Some F).
  { rewrite -HF. replace (zlen (A ++ I ++ B ++ F) - zlen F) with (zlen (A ++ I ++ B)) by (rewrite !zlen_app; lia).
    replace (A ++ I ++ B ++ F) with ((A ++ I ++ B) ++ F ++ []) by (by rewrite app_nil_r -!app_assoc). apply ReadAt_mid. }
  rewrite Hfoot Hmagic Z.eqb_refl Hio Hil Hbo Hbl. cbn [negb]. rewrite !i64_u64; [|unfold is_i64; lia..].
  rewrite (proj2 (Z.ltb_ge (zlen B) 0)) // (proj2 (Z.ltb_ge (zlen I) 0)) // ReadAt_mid Hix.
  assert (ReadAt (A ++ I ++ B ++ F) (zlen B) (zlen A + zlen I) = Some B) as ->; [|by rewrite Hdes].
  rewrite -zlen_app app_assoc. apply ReadAt_mid.
Qed.

(** The block of an index entry is read back from any reader of the file. *)
Lemma readBlock_table blocks j b rest r :
  Forall block_ok blocks -> blocks !! j = Some b -> rd_file r = file_blocks blocks ++ rest ->
  zlen (file_blocks blocks) < two63 ->
  exists ix, index_from 0 blocks !! j = Some ix /\ readBlock (ix_Offset ix) (ix_Length ix) r = Some (inr (block_data b)).
Proof.
  intros Hblocks Hj Hfile Hlen. eexists. split; [by apply index_from_lookup|]. cbn [ix_Offset ix_Length].
  assert (block_ok b) as (_ & _ & Hb) by (by eapply Forall_lookup_1).
  pose proof (zlen_nonneg (block_data b)) as Hnn.
  assert (Hsplit : rd_file r = file_blocks (take j blocks) ++ block_bytes b ++ (file_blocks (drop (S j) blocks) ++ rest)).
  { rewrite Hfile -{1}(take_drop_middle blocks j b Hj) file_blocks_app.
    change (file_blocks (b :: drop (S j) blocks)) with (block_bytes b ++ file_blocks (drop (S j) blocks)). by rewrite -!app_assoc. }
  assert (zlen (file_blocks (take j blocks)) < two63) as Hoff.
  { rewrite -(take_drop j blocks) file_blocks_app zlen_app in Hlen. pose proof (zlen_nonneg (file_blocks (drop j blocks))). lia. }
  pose proof (zlen_nonneg (file_blocks (take j blocks))) as Hoff0. rewrite Z.add_0_l i64_small; [|lia].
  replace (i32 (8 + zlen (block_data b))) with (zlen (block_bytes b)); last first.
  { rewrite zlen_block_bytes. unfold i32. rewrite Z.mod_small; lia. }
  unfold readBlock. pose proof (zlen_block_bytes b) as Hbb. rewrite (proj2 (Z.ltb_ge _ 0)); [|lia].
  rewrite Hsplit ReadAt_mid (proj2 (Z.ltb_ge _ 8)); [|lia].
  set (D := block_data b) in *. assert (Hparts : block_bytes b = put_le 4 (Checksum D) ++ put_le 4 (u32 (zlen D)) ++ D).
  { unfold block_bytes. by rewrite -app_assoc. }
  rewrite Hparts. pose proof (Checksum_range D) as HC. clearbody D. set (P := put_le 4 (Checksum D)).
  set (Q := put_le 4 (u32 (zlen D))).
  assert (HP : length P = 4%nat) by apply length_put_le. assert (HQ : length Q = 4%nat) by apply length_put_le.
  assert (subslice 0 4 (P ++ Q ++ D) = P) as -> by (by apply (subslice_app_mid [])).
  assert (subslice 4 8 (P ++ Q ++ D) = Q) as -> by (apply subslice_app_mid; lia).
  assert (get_le P = Checksum D) as -> by (unfold P; by rewrite get_put_le32 u32_small).
  assert (get_le Q = zlen D) as ->.
  { unfold Q. rewrite get_put_le32 (u32_small (u32 _)); [|apply u32_range]. apply u32_small. lia. }
  rewrite u32_small; [|lia]. rewrite (proj2 (Z.ltb_ge _ 8)); [|lia].
  rewrite (proj2 (Z.ltb_ge _ (8 + zlen D))); [|unfold zlen; rewrite !length_app; lia]. cbn [orb].
  assert (subslice 8 (Z.to_nat (8 + zlen D)) (P ++ Q ++ D) = D) as ->; [|by rewrite Z.eqb_refl].
  pose proof (subslice_app_mid (P ++ Q) D [] 8 (Z.to_nat (8 + zlen D))) as Hmid. rewrite app_nil_r -app_assoc in Hmid.
  apply Hmid; unfold zlen; rewrite !length_app; lia.
Qed.

(** ** The iterator *)

(** What a client reads from an iterator that it drives to the end. *)
Fixpoint drain (fuel : nat) (it : SSTableIterator) : option (list MemEntry) :=
  match fuel with
  | O => None
  | S fuel =>
      '(r, it) ← Next it;
      match r with
      | inr (Some e) => es ← drain fuel it; Some (e :: es)
      | inr None => Some []
      | inl _ => None
      end
  end.

Section iterate.
  Context (r : Reader) (blocks : list (list MemEntry)) (rest : bytes)
    (Hblocks : Forall block_ok blocks) (Hfile : rd_file r = file_blocks blocks ++ rest)
    (Hindex : sm_Index (rd_meta r) = index_from 0 blocks) (Hlen : zlen (file_blocks blocks) < two63).

(** The entries that the iterator has still to return. *)
Definition pending (it : SSTableIterator) : list MemEntry :=
  drop (it_entryIndex it) (it_entries it) ++ map stored (concat (drop (it_blockIndex it) blocks)).

Lemma Next_loop_spec fuel : forall it, it_reader it = r -> (length blocks <= fuel + it_blockIndex it)%nat ->
  exists it', it_reader it' = r /\
    Next_loop fuel it = Some (inr (head (pending it)), it') /\ pending it' = tail (pending it).
Proof.
  induction fuel as [|fuel IH]; intros it Hr Hf; cbn [Next_loop]; unfold pending.
  all: destruct (it_entries it !! it_entryIndex it) as [e|] eqn:He.
  1,3: eexists; split; [|split; [by rewrite (drop_S _ _ _ He)|by rewrite (drop_S _ _ _ He)]]; done.
  all: rewrite (drop_ge (it_entries it)); [|by apply lookup_ge_None].
  all: rewrite Hr Hindex; destruct (blocks !! it_blockIndex it) as [b|] eqn:Hb.
  - apply lookup_lt_Some in Hb. lia.
  - rewrite (proj2 (lookup_ge_None _ _)); [|rewrite length_index_from; by apply lookup_ge_None].
    apply lookup_ge_None in Hb. exists it. rewrite drop_ge //. split_and!; [done..|].
    rewrite drop_ge //. by apply lookup_ge_None.
  - destruct (readBlock_table blocks (it_blockIndex it) b rest r) as (ix & -> & Hread); [done..|]. rewrite Hread.
    cbn [mbind option_bind]. assert (block_ok b) as (_ & Hes & _) by (by eapply Forall_lookup_1).
    destruct (IH (mkSSTableIterator r (S (it_blockIndex it)) (decodeBlock (block_data b)) 0)) as (it' & Hr' & Hn & Hp);
      [done|simpl; lia|].
    exists it'. unfold pending in Hn, Hp. rewrite Hn Hp. cbn [it_entries it_entryIndex it_blockIndex].
    rewrite drop_0 decodeBlock_encode // (drop_S _ _ _ Hb). cbn [concat app]. by rewrite map_app.
  - rewrite (proj2 (lookup_ge_None _ _)); [|rewrite length_index_from; by apply lookup_ge_None].
    apply lookup_ge_None in Hb. exists it. rewrite drop_ge //. split_and!; [done..|].
    rewrite drop_ge //. by apply lookup_ge_None.
Qed.

Lemma drain_spec n : forall it, it_reader it = r -> (length (pending it) < n)%nat -> drain n it = Some (pending it).
Proof.
  induction n as [|n IH]; intros it Hr Hn; [lia|]. cbn [drain]. unfold Next.
  destruct (Next_loop_spec (length (sm_Index (rd_meta (it_reader it)))) it Hr) as (it' & Hr' & -> & Hp).
  { rewrite Hr Hindex length_index_from. lia. }
  cbn [mbind option_bind]. destruct (pending it) as [|e l] eqn:Hpend; [done|]. cbn [head tail] in *.
  rewrite (IH it' Hr'); [cbn [mbind option_bind]; by rewrite Hp|]. rewrite Hp. simpl in Hn. lia.
Qed.

End iterate.

(** ** Properties *)

Lemma New_wf bits hashes n :
  0 < bits n -> bits n + 63 < two64 -> bloom_wf (New bits hashes n).
Proof.
  intros Hm Hm'. unfold New. set (k := if 20 <? _ then _ else _).
  assert (is_u64 k) as Hk.
  { unfold k, is_u64. destruct (Z.ltb_spec (hashes (round_up64 (bits n)) n) 1);
      destruct (Z.ltb_spec 20 (if hashes (round_up64 (bits n)) n <? 1 then 1 else hashes (round_up64 (bits n)) n));
      repeat case_match; lia. }
  by apply (NewWithParams_wf (bits n) k).
Qed.

Lemma NewWriter_inv bits hashes n : bloom_wf (New bits hashes (u64 n)) -> writer_inv (NewWriter bits hashes n) [] [].
Proof. by constructor. Qed.

Lemma blocks_count blocks : Forall block_ok blocks -> zlen blocks <= zlen (concat blocks).
Proof.
  induction 1 as [|b blocks (Hne & _) Hblocks IH]; [done|]. unfold zlen in *. cbn [concat length]. rewrite length_app.
  destruct b; [done|]. simpl in *. lia.
Qed.

Lemma length_file_blocks blocks : (length (concat blocks) <= length (file_blocks blocks))%nat.
Proof.
  induction blocks as [|b blocks IH]; [done|]. change (file_blocks (b :: blocks)) with (block_bytes b ++ file_blocks blocks).
  cbn [concat]. unfold block_bytes. rewrite !length_app. pose proof (length_block_data b). lia.
Qed.

(** A finished table can be opened and iterated to its end. *)
Lemma open_finished w blocks cur es :
  writer_inv w blocks cur -> concat blocks ++ cur = es -> zlen es < two32 -> zlen (fst (Finish w)) < two63 ->
  exists r, OpenReader (fst (Finish w)) = Some (inr r) /\
    drain (S (length es)) (Reader_Iterator r) = Some (map stored es) /\
    (length es <= length (sm_Index (rd_meta r)) * length (rd_file r))%nat.
Proof.
  intros Hinv Hcat Hcount Hsize.
  destruct (Finish_bytes w blocks cur Hinv Hsize) as (blocks' & f & mn & mx & Hcat' & Hok & Hf & Hbytes).
  rewrite Hcat in Hcat'. pose proof (blocks_count blocks' Hok) as Hn. rewrite Hcat' in Hn.
  rewrite Hbytes in Hsize. pose proof (loadMeta_table blocks' f mn mx Hok Hf) as Hload.
  eexists. rewrite Hbytes. unfold OpenReader. rewrite Hload; [|lia|done].
  split; [done|]. apply table_blocks_bound in Hsize. unfold FooterSize in Hsize.
  pose proof (zlen_nonneg (index_bytes (index_from 0 blocks'))). pose proof (zlen_nonneg (Bloom_Serialize f)).
  set (it := Reader_Iterator _). assert (Hp : pending blocks' it = map stored es) by (by rewrite -Hcat').
  split.
  - rewrite -Hp. eapply (drain_spec (it_reader it)); [done|reflexivity|done|lia|done|]. rewrite Hp length_map. lia.
  - cbn [rd_meta rd_file sm_Index]. rewrite length_index_from. unfold table_bytes. rewrite length_app.
    pose proof (length_file_blocks blocks') as Hlen. rewrite Hcat' in Hlen. unfold zlen in Hn.
    assert (length es = 0 \/ 1 <= length blocks')%nat as [->|Hb]; [|lia|nia].
    destruct blocks'; [left; by rewrite -Hcat'|right; simpl; lia].
Qed.

(** C20: a table of entries of at most 1 GB each, fewer than 2^32 of them, is
    written without a panic, can be opened, and driving the iterator of the
    reader to its end returns exactly the entries added, in the order they
    were added and without an error; only the in-memory sequence number is
    not kept. *)
Theorem sstable_iterates_entries (bits : Z -> Z) (hashes : Z -> Z -> Z) (expected : Z) (es : list MemEntry)
  (Hbits : 0 < bits (u64 expected)) (Hbits' : bits (u64 expected) + 63 < two64)
  (Hes : Forall entry_small es) (Hcount : zlen es < two32)
  (Hsize : forall w, add_entries es (NewWriter bits hashes expected) = Some w -> zlen (fst (Finish w)) < two63) :
  exists w r, add_entries es (NewWriter bits hashes expected) = Some w /\
    OpenReader (fst (Finish w)) = Some (inr r) /\
    drain (S (length es)) (Reader_Iterator r) = Some (map stored es).
Proof.
  destruct (add_entries_inv es Hes (NewWriter bits hashes expected) [] []) as (w & blocks & cur & Hadd & Hinv & Hcat).
  { by apply NewWriter_inv, New_wf. }
  destruct (open_finished w blocks cur es Hinv Hcat Hcount (Hsize w Hadd)) as (r & Hopen & Hdrain & _).
  by exists w, r.
Qed.

Lemma sstable_iterates_entries_witness :
  exists w r, add_entries [mkMemEntry "a" (bytes_of_string "1") 7 false 1; mkMemEntry "b" [] 9 true 2]
      (NewWriter (fun _ => 64) (fun _ _ => 7) 2) = Some w /\
    OpenReader (fst (Finish w)) = Some (inr r) /\
    drain 3 (Reader_Iterator r) = Some [mkMemEntry "a" (bytes_of_string "1") 7 false 0; mkMemEntry "b" [] 9 true 0].
Proof.
  apply (sstable_iterates_entries (fun _ => 64) (fun _ _ => 7) 2
    [mkMemEntry "a" (bytes_of_string "1") 7 false 1; mkMemEntry "b" [] 9 true 2]); [done|done| |done|].
  - repeat constructor; vm_compute; done.
  - intros w Hw. vm_compute in Hw. injection Hw as <-. vm_compute. done.
Defined.

(** ** The key range and the size of a table *)

Lemma flushBlock_keeps w :
  wr_minKey (flushBlock w) = wr_minKey w /\ wr_maxKey (flushBlock w) = wr_maxKey w /\ wr_filter (flushBlock w) = wr_filter w.
Proof. unfold flushBlock. by destruct (_ =? 0). Qed.

(** The keys added so far, none of them empty, are between the two bounds. *)
Record keys_between (w : Writer) (keys : list string) : Prop := {
  kb_range : forall k, k ∈ keys -> str_le (wr_minKey w) k /\ str_le k (wr_maxKey w);
  kb_min : keys <> [] -> wr_minKey w <> EmptyString;
}.

Lemma Writer_Add_fields e w w' :
  Writer_Add e w = Some w' ->
  wr_minKey w' = (if (wr_minKey w =?s EmptyString) || (me_Key e <?s wr_minKey w) then me_Key e else wr_minKey w) /\
  wr_maxKey w' = (if wr_maxKey w <?s me_Key e then me_Key e else wr_maxKey w) /\
  bf_m (wr_filter w') = bf_m (wr_filter w).
Proof.
  unfold Writer_Add. set (w1 := if (BlockSize <? _) && _ then flushBlock w else w).
  assert (wr_minKey w1 = wr_minKey w /\ wr_maxKey w1 = wr_maxKey w /\ wr_filter w1 = wr_filter w) as (<- & <- & <-).
  { unfold w1. destruct (_ && _); [apply flushBlock_keeps|done]. }
  clearbody w1. destruct (if zlen (wr_blockBuf w1) =? 0 then _ else _) as [bo bk].
  unfold Bloom_Add. destruct (hash128 (me_Key e)). destruct (Add_loop _ _ _ _ _ _); [|done]. by intros [= <-].
Qed.

Lemma Add_between e w w' keys :
  Writer_Add e w = Some w' -> keys_between w keys -> me_Key e <> EmptyString -> keys_between w' (keys ++ [me_Key e]).
Proof.
  intros (Hmin & Hmax & _)%Writer_Add_fields [Hr Hm] Hne. rewrite str_eqb_spec in Hmin.
  assert (Hminle : str_le (wr_minKey w') (me_Key e) /\ (keys <> [] -> str_le (wr_minKey w') (wr_minKey w)) /\ wr_minKey w' <> EmptyString).
  { rewrite Hmin. case_bool_decide as He; simpl; [split_and!; [apply str_leb_refl|intros ?%Hm; done|done]|].
    destruct (me_Key e <?s wr_minKey w) eqn:Hl; split_and!; try done; try apply str_leb_refl.
    - intros _. apply str_leb_le. by left.
    - rewrite str_ltb_leb in Hl. by apply negb_false_iff in Hl.
    - intros _. apply str_leb_refl. }
  assert (Hmaxle : str_le (me_Key e) (wr_maxKey w') /\ str_le (wr_maxKey w) (wr_maxKey w')).
  { rewrite Hmax. destruct (wr_maxKey w <?s me_Key e) eqn:Hl; split; try apply str_leb_refl.
    - apply str_leb_le. by left.
    - rewrite str_ltb_leb in Hl. by apply negb_false_iff in Hl. }
  destruct Hminle as (H1 & H2 & H3), Hmaxle as [H4 H5]. constructor; [|done].
  intros k [Hk|[Hk| ?%elem_of_nil]%elem_of_cons]%elem_of_app; [|by subst|done].
  assert (keys <> []) as Hnn by (by intros ->; apply elem_of_nil in Hk).
  destruct (Hr k Hk). split; [by trans (wr_minKey w); [apply H2|]|by trans (wr_maxKey w)].
Qed.

Lemma add_entries_between es : Forall (fun e => me_Key e <> EmptyString) es -> forall w w' keys,
  add_entries es w = Some w' -> keys_between w keys -> keys_between w' (keys ++ map me_Key es) /\ bf_m (wr_filter w') = bf_m (wr_filter w).
Proof.
  induction 1 as [|e es He Hes IH]; intros w w' keys Hadd Hk.
  { injection Hadd as <-. by rewrite app_nil_r. }
  unfold add_entries in Hadd. cbn [for_each] in Hadd. apply bind_Some in Hadd as (w1 & H1 & H2).
  destruct (IH w1 w' (keys ++ [me_Key e]) H2) as [Hk' Hm]; [by eapply Add_between|].
  rewrite -app_assoc in Hk'. split; [done|]. rewrite Hm. by eapply Writer_Add_fields.
Qed.

Lemma zlen_file_blocks blocks : zlen (file_blocks blocks) = 8 * zlen blocks + zlen (block_data (concat blocks)).
Proof.
  induction blocks as [|b blocks IH]; [done|]. change (file_blocks (b :: blocks)) with (block_bytes b ++ file_blocks blocks).
  cbn [concat]. rewrite (zlen_app (block_bytes b)) zlen_block_bytes IH block_data_app (zlen_app (block_data b)) zlen_cons. lia.
Qed.

Lemma zlen_first_key b : b <> [] -> zlen (bytes_of_string (first_key b)) <= zlen (block_data b).
Proof.
  destruct b as [|e b]; [done|]. intros _. change (block_data (e :: b)) with (encodeEntry e ++ block_data b).
  rewrite zlen_app zlen_encodeEntry. pose proof (zlen_nonneg (me_Value e)). pose proof (zlen_nonneg (block_data b)). cbn [first_key]. lia.
Qed.

Lemma zlen_index blocks : Forall block_ok blocks -> forall off,
  zlen (concat (map encodeIndexEntry (index_from off blocks))) <= 16 * zlen blocks + zlen (block_data (concat blocks)).
Proof.
  induction 1 as [|b blocks (Hne & _) Hblocks IH]; intros off; [done|]. cbn [index_from map concat].
  rewrite block_data_app (zlen_app (encodeIndexEntry _)) (zlen_app (block_data b)) zlen_cons. specialize (IH (off + zlen (block_bytes b))).
  pose proof (zlen_first_key b Hne). unfold encodeIndexEntry at 1. cbn [ix_Key]. autorewrite with zlen. lia.
Qed.

(** The size of a finished file, whatever the offsets written into it. *)
Lemma zlen_Finish w blocks cur :
  writer_inv w blocks cur -> exists blocks', concat blocks' = concat blocks ++ cur /\ Forall block_ok blocks' /\
    zlen (fst (Finish w)) <= 24 * zlen blocks' + 2 * zlen (block_data (concat blocks')) + bf_m (wr_filter w) / 8 + 84.
Proof.
  intros Hinv. destruct (flush_last w blocks cur Hinv) as (blocks' & [] & Hcat). exists blocks'. split_and!; [done..|].
  destruct (flushBlock_keeps w) as (_ & _ & Hfil). unfold Finish. set (w1 := flushBlock w) in *. clearbody w1.
  cbn [fst writeFooter writeIndex emit wr_out wr_index wr_filter wr_minKey wr_maxKey wr_offset].
  rewrite wv_index0 wv_out0 -Hfil. set (F := footer _ _ _ _ _ _). assert (zlen F = FooterSize) as HF by apply footer_fields.
  pose proof (zlen_index blocks' wv_blocks0 0) as Hix. pose proof (zlen_file_blocks blocks') as Hfb.
  assert (HB : zlen (Bloom_Serialize (wr_filter w1)) = 16 + 8 * (bf_m (wr_filter w1) / 64)).
  { unfold Bloom_Serialize. autorewrite with zlen. rewrite -(bw_len _ wv_filter0).
    assert (Hc : forall l, zlen (concat (map (put_le 8) l)) = 8 * zlen l).
    { induction l as [|x l IH]; [done|]. cbn [map concat]. rewrite zlen_app IH zlen_put_le zlen_cons. lia. }
    rewrite Hc. lia. }
  set (B := Bloom_Serialize _) in *. set (C := concat (map encodeIndexEntry _)) in *. set (A := file_blocks blocks') in *.
  clearbody A B C F. rewrite !zlen_app zlen_put_le HF HB Hfb. unfold FooterSize.
  pose proof (bw_m _ wv_filter0). pose proof (bw_mult _ wv_filter0).
  assert (8 * (bf_m (wr_filter w1) / 64) <= bf_m (wr_filter w1) / 8).
  { apply Z.div_le_lower_bound; [lia|]. pose proof (Z.mul_div_le (bf_m (wr_filter w1)) 64). lia. }
  lia.
Qed.

(** What a reader can rely on of a table written from [es]. *)
Record table_of (file : bytes) (meta : SSTableMeta) (es : list MemEntry) : Prop := {
  to_reader : exists r, OpenReader file = Some (inr r) /\
    drain (S (length es)) (Reader_Iterator r) = Some (map stored es) /\
    (length es <= length (sm_Index (rd_meta r)) * length (rd_file r))%nat;
  to_range : forall e, e ∈ es -> str_le (sm_MinKey meta) (me_Key e) /\ str_le (me_Key e) (sm_MaxKey meta);
  to_filter : bloom_wf (sm_Filter meta);
}.

Lemma write_table bits hashes n es :
  0 < bits (u64 n) <= 2 ^ 60 -> Forall entry_small es -> Forall (fun e => me_Key e <> EmptyString) es -> zlen es < 2 ^ 31 ->
  exists w, add_entries es (NewWriter bits hashes n) = Some w /\ table_of (fst (Finish w)) (snd (Finish w)) es.
Proof.
  intros Hbits Hes Hne Hcount.
  destruct (add_entries_inv es Hes (NewWriter bits hashes n) [] []) as (w & blocks & cur & Hadd & Hinv & Hcat).
  { apply NewWriter_inv, New_wf; lia. }
  exists w. split; [done|]. cbn [concat app] in Hcat.
  destruct (add_entries_between es Hne (NewWriter bits hashes n) w [] Hadd) as [[Hr _] Hm].
  { constructor; [by intros k ?%elem_of_nil|done]. }
  assert (Hmb : bf_m (wr_filter w) <= 2 ^ 60 + 63).
  { rewrite Hm. cbn [NewWriter wr_filter New bf_m]. unfold round_up64. rewrite (u64_small (_ + 63)); [|lia].
    pose proof (Z.mul_div_le (bits (u64 n) + 63) 64). pose proof (Z.div_pos (bits (u64 n) + 63) 64). rewrite u64_small; lia. }
  destruct (flush_last w blocks cur Hinv) as (blocks1 & [] & _). pose proof (flushBlock_keeps w) as (Hmn & Hmx & Hfil).
  constructor.
  - apply (open_finished w blocks cur es Hinv Hcat); [lia|].
    destruct (zlen_Finish w blocks cur Hinv) as (blocks' & Hcat' & Hok & Hlen). pose proof (blocks_count blocks' Hok) as Hn.
    rewrite Hcat' Hcat in Hlen, Hn.
    assert (Hdata : zlen (block_data es) <= 1073741824 * zlen es).
    { clear -Hes. induction Hes as [|e es [_ He] Hes IH]; [done|]. change (block_data (e :: es)) with (encodeEntry e ++ block_data es).
      rewrite zlen_app zlen_cons. lia. }
    assert (bf_m (wr_filter w) / 8 <= 2 ^ 60 + 63) by (apply Z.div_le_upper_bound; lia). lia.
  - intros e He. cbn [Finish snd sm_MinKey sm_MaxKey writeFooter writeIndex emit wr_minKey wr_maxKey]. rewrite Hmn Hmx. apply Hr.
    by apply list_elem_of_fmap_2.
  - cbn [Finish snd sm_Filter writeFooter writeIndex emit wr_filter]. done.
Qed.

(** The reader does not read the key range back, and its empty bounds exclude
    every key but the empty one: a point lookup in an opened table finds no
    key, whatever the table holds. *)
Theorem opened_table_finds_nothing (file : bytes) (r : Reader) (key : string) :
  OpenReader file = Some (inr r) -> key <> EmptyString -> Reader_Get key r = Some (inr None).
Proof.
  unfold OpenReader. intros Hopen Hkey. destruct (loadMeta file) as [[|meta]|] eqn:Hl; [done| |done].
  simplify_eq/=. assert (sm_MinKey meta = EmptyString /\ sm_MaxKey meta = EmptyString) as [Hmin Hmax].
  { unfold loadMeta in Hl. repeat case_match; by simplify_eq/=. }
  unfold Reader_Get, MightContain. cbn [rd_meta]. rewrite Hmin Hmax.
  assert (("" <?s key) = true) as -> by (by destruct key). by rewrite orb_true_r.
Qed.

(** A writer for zero expected keys has a filter of no bits: adding an entry
    to it divides by zero. *)
Theorem writer_for_no_keys_panics (bits : Z -> Z) (hashes : Z -> Z -> Z) (e : MemEntry) :
  bits 0 = 0 -> Writer_Add e (NewWriter bits hashes 0) = None.
Proof.
  intros Hbits. unfold NewWriter, New. rewrite (u64_small 0) // Hbits. change (round_up64 0) with 0.
  set (k := if 20 <? _ then _ else _). assert (exists n, Z.to_nat k = S n) as [n Hn].
  { exists (Nat.pred (Z.to_nat k)). unfold k. repeat case_match; lia. }
  clearbody k. unfold Writer_Add, flushBlock. cbn [wr_blockBuf]. rewrite zlen_nil andb_false_r. cbn [wr_filter].
  unfold Bloom_Add. cbn [bf_k bf_m bf_bitset]. destruct (hash128 (me_Key e)). by rewrite Hn.
Qed.
