(* ===== verification/Engine.v ===== *)
(** * Engine: the storage engine (pkg/storage/engine.go)

    The engine puts the write-ahead log ([Wal]), the memtable ([Skiplist]) and
    the tables on disk ([SSTable]) together.  A memtable is a Go pointer, so
    it carries an identity; the directory of the tables maps paths to file
    contents.  A call of [Write] of the log is the group commit of one writer
    ([wal_Write]); a put is two steps, because the engine takes its lock only
    after the log has answered.  The flush worker is two steps as well, the
    receive from the channel and [flushMemTable].  Writing table files
    succeeds; the wall clock, the coin flips of the memtable and the two
    sizing formulas of the Bloom filter are arguments.  Console output is left
    out, except that a put reports whether the flush channel was full. *)

From S2P Require Import Prelude GoSort Bytes Hlc WalRecord Wal Bloom Skiplist SSTable Command.

Record EngineConfig := mkEngineConfig {
  cfg_MemTableSize : Z;
  cfg_MaxLevel0SSTables : Z;
  cfg_CompactionConcurrency : Z;
}.

Definition DefaultEngineConfig : EngineConfig := mkEngineConfig (64 * 1024 * 1024) 4 2.

(** A memtable and its address. *)
Record MemRef := mkMemRef {
  mr_id : nat;
  mr_table : SkipList;
}.

(** A table of a level and its path. *)
Record TableRef := mkTableRef {
  tr_Path : string;
  tr_meta : SSTableMeta;
}.

(** [en_nextMem] is the next free address. *)
Record Engine := mkEngine {
  en_config : EngineConfig;
  en_wal : WAL;
  en_memTable : MemRef;
  en_immutable : list MemRef;
  en_levels : list (list TableRef);
  en_flushCh : list MemRef;
  en_compactCh : list Z;
  en_sequence : Z;
  en_writeCount : Z;
  en_readCount : Z;
  en_flushCount : Z;
  en_closed : bool;
  en_nextMem : nat;
}.

Definition numLevels : nat := 7.
Definition flushChCap : nat := 4.
Definition compactChCap : nat := 10.

Inductive EngineError :=
| ErrEngineClosed
| ErrWAL (e : WalError)
| ErrTable (e : SSTError)
| ErrOpenTable (path : string).

(** ** Field updates *)

Definition set_wal (w : WAL) (e : Engine) : Engine :=
  mkEngine (en_config e) w (en_memTable e) (en_immutable e) (en_levels e) (en_flushCh e) (en_compactCh e)
    (en_sequence e) (en_writeCount e) (en_readCount e) (en_flushCount e) (en_closed e) (en_nextMem e).

Definition set_mem (mem : MemRef) (imm ch : list MemRef) (next : nat) (e : Engine) : Engine :=
  mkEngine (en_config e) (en_wal e) mem imm (en_levels e) ch (en_compactCh e)
    (en_sequence e) (en_writeCount e) (en_readCount e) (en_flushCount e) (en_closed e) next.

Definition set_levels (levels : list (list TableRef)) (imm : list MemRef) (cch : list Z) (e : Engine) : Engine :=
  mkEngine (en_config e) (en_wal e) (en_memTable e) imm levels (en_flushCh e) cch
    (en_sequence e) (en_writeCount e) (en_readCount e) (en_flushCount e) (en_closed e) (en_nextMem e).

Definition set_counts (seq writes reads flushes : Z) (closed : bool) (e : Engine) : Engine :=
  mkEngine (en_config e) (en_wal e) (en_memTable e) (en_immutable e) (en_levels e) (en_flushCh e) (en_compactCh e)
    seq writes reads flushes closed (en_nextMem e).

(** ** Writing *)

(** [wal.Write] with no other writer in its commit window. *)
Definition wal_Write (ptMs : Z) (data : bytes) (w : WAL) (fs : FS) : (WalError + WALEntry) * WAL * FS :=
  let '(res, w, fs) := Write_begin ptMs data w fs in
  match res with
  | inl err => (inl err, w, fs)
  | inr entry =>
      let '(_, w) := flush_grab w in
      let '(err, w, fs) := flush_sync w fs in
      (match err with Some err => inl err | None => inr entry end, w, fs)
  end.

(** [putWithTimestamp] up to the engine's lock. *)
Definition put_log (ptMs : Z) (key : string) (value : bytes) (deleted : bool) (e : Engine) (fs : FS) :
    (EngineError + WALEntry) * Engine * FS :=
  if en_closed e then (inl ErrEngineClosed, e, fs)
  else
    let cmd := EncodeCommand key value deleted in
    let '(res, w, fs) := wal_Write ptMs cmd (en_wal e) fs in
    (match res with inl err => inl (ErrWAL err) | inr entry => inr entry end, set_wal w e, fs).

(** The rest of [putWithTimestamp]: whether the flush channel was full. *)
Definition put_apply (draws : list bool) (key : string) (value : bytes) (deleted : bool) (entry : WALEntry)
    (e : Engine) : option (bool * Engine) :=
  mem ← (if deleted then Delete draws key (went_Timestamp entry) (went_Sequence entry) (mr_table (en_memTable e))
         else Put draws key value (went_Timestamp entry) (went_Sequence entry) (mr_table (en_memTable e)));
  let memRef := mkMemRef (mr_id (en_memTable e)) mem in
  let shouldFlush := cfg_MemTableSize (en_config e) <=? Size mem in
  let '(stall, e) :=
    if shouldFlush then
      let full := (flushChCap <=? length (en_flushCh e))%nat in
      (full, set_mem (mkMemRef (en_nextMem e) NewSkipList) (en_immutable e ++ [memRef])
               (if full then en_flushCh e else en_flushCh e ++ [memRef]) (S (en_nextMem e)) e)
    else (false, set_mem memRef (en_immutable e) (en_flushCh e) (en_nextMem e) e) in
  Some (stall, set_counts (en_sequence e) (i64 (en_writeCount e + 1)) (en_readCount e) (en_flushCount e) (en_closed e) e).

(** A put that no other put overtakes: its error and whether the flush channel was full. *)
Definition putWithTimestamp (ptMs : Z) (draws : list bool) (key : string) (value : bytes) (deleted : bool) (e : Engine) (fs : FS) :
    option (option EngineError * bool * Engine * FS) :=
  let '(res, e, fs) := put_log ptMs key value deleted e fs in
  match res with
  | inl err => Some (Some err, false, e, fs)
  | inr entry => '(stall, e) ← put_apply draws key value deleted entry e; Some (None, stall, e, fs)
  end.

Definition Engine_Put (ptMs : Z) (draws : list bool) (key : string) (value : bytes) (e : Engine) (fs : FS) :
    option (option EngineError * bool * Engine * FS) := putWithTimestamp ptMs draws key value false e fs.

Definition Engine_Delete (ptMs : Z) (draws : list bool) (key : string) (e : Engine) (fs : FS) :
    option (option EngineError * bool * Engine * FS) := putWithTimestamp ptMs draws key [] true e fs.

(** ** Reading *)

Definition entry_result (e : MemEntry) : option bytes := if me_Deleted e then None else Some (me_Value e).

Definition readFromSSTable (sst : gmap string bytes) (t : TableRef) (key : string) :
    option (EngineError + option MemEntry) :=
  might ← MightContain key (tr_meta t);
  if negb might then Some (inr None)
  else
    match sst !! tr_Path t with
    | None => Some (inl (ErrOpenTable (tr_Path t)))
    | Some file =>
        reader ← OpenReader file;
        match reader with
        | inl err => Some (inl (ErrTable err))
        | inr reader =>
            res ← Reader_Get key reader;
            Some (match res with inl err => inl (ErrTable err) | inr entry => inr entry end)
        end
    end.

Definition readFromLevel (sst : gmap string bytes) (tables : list TableRef) (key : string) :
    option (EngineError + option MemEntry) :=
  let idx := sort_Search (length tables)
    (fun i => match tables !! i with Some t => key <=?s sm_MaxKey (tr_meta t) | None => true end) in
  match tables !! idx with
  | None => Some (inr None)
  | Some table =>
      if (key <?s sm_MinKey (tr_meta table)) || (sm_MaxKey (tr_meta table) <?s key) then Some (inr None)
      else readFromSSTable sst table key
  end.

(** The loop over the tables of level 0, newest first. *)
Fixpoint readFromLevel0 (sst : gmap string bytes) (tables : list TableRef) (key : string) :
    option (EngineError + option MemEntry) :=
  match tables with
  | [] => Some (inr None)
  | t :: tables =>
      res ← readFromSSTable sst t key;
      match res with
      | inr None => readFromLevel0 sst tables key
      | _ => Some res
      end
  end.

(** The loop over the levels. *)
Fixpoint readFromLevels (sst : gmap string bytes) (level : nat) (levels : list (list TableRef)) (key : string) :
    option (EngineError + option MemEntry) :=
  match levels with
  | [] => Some (inr None)
  | tables :: levels =>
      res ← (if (level =? 0)%nat then readFromLevel0 sst (rev tables) key else readFromLevel sst tables key);
      match res with
      | inr None => readFromLevels sst (S level) levels key
      | _ => Some res
      end
  end.

Definition mem_lookup (readTS : Z) (key : string) (mem : MemRef) : option (option MemEntry) :=
  if readTS =? 0 then Get key (mr_table mem) else GetAtTimestamp key readTS (mr_table mem).

(** The memtable and then the immutable ones, newest first. *)
Fixpoint mems_lookup (readTS : Z) (key : string) (mems : list MemRef) : option (option MemEntry) :=
  match mems with
  | [] => Some None
  | mem :: mems =>
      found ← mem_lookup readTS key mem;
      match found with
      | Some entry => Some (Some entry)
      | None => mems_lookup readTS key mems
      end
  end.

(** [getAtTimestamp]: an error, or the value if the key is found. *)
Definition getAtTimestamp (key : string) (readTS : Z) (sst : gmap string bytes) (e : Engine) :
    option ((EngineError + option bytes) * Engine) :=
  if en_closed e then Some (inl ErrEngineClosed, e)
  else
    let e := set_counts (en_sequence e) (en_writeCount e) (i64 (en_readCount e + 1)) (en_flushCount e) (en_closed e) e in
    found ← mems_lookup readTS key (en_memTable e :: rev (en_immutable e));
    match found with
    | Some entry => Some (inr (entry_result entry), e)
    | None =>
        res ← readFromLevels sst 0 (en_levels e) key;
        Some (match res with inl err => inl err | inr entry => inr (entry ← entry; entry_result entry) end, e)
    end.

Definition Engine_Get (key : string) (sst : gmap string bytes) (e : Engine) : option ((EngineError + option bytes) * Engine) :=
  getAtTimestamp key 0 sst e.

Definition Engine_GetAtTimestamp (key : string) (readTS : Z) (sst : gmap string bytes) (e : Engine) :
    option ((EngineError + option bytes) * Engine) :=
  getAtTimestamp key readTS sst e.

(** [sort.Slice] of entries by key. *)
Definition key_le (a b : MemEntry) : Prop := str_le (me_Key a) (me_Key b).
#[global] Instance key_le_dec : RelDecision key_le.
Proof. intros a b. unfold key_le. apply _. Defined.
Definition sort_entries (l : list MemEntry) : list MemEntry := merge_sort key_le l.

(** A bound on the entries an iterator can return: each takes bytes of a block. *)
Definition iter_fuel (it : SSTableIterator) : nat :=
  S (length (sm_Index (rd_meta (it_reader it))) * length (rd_file (it_reader it))).

Definition in_range (startKey endKey : string) (e : MemEntry) : bool :=
  (startKey <=?s me_Key e) && ((endKey =?s EmptyString) || (me_Key e <?s endKey)).

(** The loop of [Scan] over the entries of one table; an error ends it. *)
Fixpoint scan_table (fuel : nat) (startKey endKey : string) (it : SSTableIterator) (results : gmap string MemEntry) :
    option (gmap string MemEntry) :=
  match fuel with
  | O => None
  | S fuel =>
      '(r, it) ← Next it;
      match r with
      | inr (Some e) =>
          scan_table fuel startKey endKey it
            (if in_range startKey endKey e then <[me_Key e := e]> results else results)
      | _ => Some results
      end
  end.

Definition scan_one (sst : gmap string bytes) (startKey endKey : string) (table : TableRef) (results : gmap string MemEntry) :
    option (gmap string MemEntry) :=
  if (sm_MaxKey (tr_meta table) <?s startKey) || (endKey <?s sm_MinKey (tr_meta table)) then Some results
  else
    match sst !! tr_Path table with
    | None => Some results
    | Some file =>
        reader ← OpenReader file;
        match reader with
        | inl _ => Some results
        | inr reader => let it := Reader_Iterator reader in scan_table (iter_fuel it) startKey endKey it results
        end
    end.

Definition Engine_Scan (startKey endKey : string) (sst : gmap string bytes) (e : Engine) : option (list MemEntry) :=
  results ← for_each (scan_one sst startKey endKey) (concat (rev (en_levels e))) ∅;
  entries ← Scan startKey endKey (mr_table (en_memTable e));
  let results := fold_left (fun results entry => <[me_Key entry := entry]> results) entries results in
  Some (sort_entries (List.filter (fun entry => negb (me_Deleted entry)) (map_to_list results).*2)).

(** ** Flushing and compaction *)

Section sized.
  Context (bits : Z -> Z) (hashes : Z -> Z -> Z).

(** [fmt.Sprintf("L%d_%d.sst", level, nanos)] in the directory of the level. *)
Definition level_dir (level : Z) : string := string_of_bytes (bytes_of_string "L" ++ fmt_d level ++ bytes_of_string "/").
Definition table_path (level nanos : Z) : string :=
  string_of_bytes (bytes_of_string (level_dir level) ++ bytes_of_string "L" ++ fmt_d level
    ++ bytes_of_string "_" ++ fmt_d nanos ++ bytes_of_string ".sst").

Fixpoint remove_mem (id : nat) (imm : list MemRef) : list MemRef :=
  match imm with
  | [] => []
  | t :: imm => if (mr_id t =? id)%nat then imm else t :: remove_mem id imm
  end.

(** A non-blocking send on [compactCh]. *)
Definition send_compact (level : Z) (ch : list Z) : list Z :=
  if (length ch <? compactChCap)%nat then ch ++ [level] else ch.

Definition flushMemTable (nanos : Z) (table : MemRef) (e : Engine) (sst : gmap string bytes) :
    option (Engine * gmap string bytes) :=
  entries ← All (mr_table table);
  match entries with
  | [] => Some (e, sst)
  | _ =>
      let path := table_path 0 nanos in
      writer ← add_entries entries (NewWriter bits hashes (zlen entries));
      let '(file, meta) := Finish writer in
      let sst := <[path := file]> sst in
      tables0 ← en_levels e !! 0%nat;
      let tables0 := tables0 ++ [mkTableRef path meta] in
      let cch := if cfg_MaxLevel0SSTables (en_config e) <=? zlen tables0 then send_compact 0 (en_compactCh e)
                 else en_compactCh e in
      let e := set_levels (<[0%nat := tables0]> (en_levels e)) (remove_mem (mr_id table) (en_immutable e)) cch e in
      Some (set_counts (en_sequence e) (en_writeCount e) (en_readCount e) (i64 (en_flushCount e + 1)) (en_closed e) e, sst)
  end.

(** The flush worker receives a memtable. *)
Definition flush_take (e : Engine) : option MemRef * Engine :=
  match en_flushCh e with
  | [] => (None, e)
  | t :: ch => (Some t, set_mem (en_memTable e) (en_immutable e) ch (en_nextMem e) e)
  end.

(** The inner loop of [kWayMerge]. *)
Fixpoint merge_table (fuel : nat) (it : SSTableIterator) (seen : gmap string MemEntry) :
    option (SSTError + gmap string MemEntry) :=
  match fuel with
  | O => None
  | S fuel =>
      '(r, it) ← Next it;
      match r with
      | inl err => Some (inl err)
      | inr None => Some (inr seen)
      | inr (Some e) =>
          merge_table fuel it
            (match seen !! me_Key e with
             | Some existing => if HLC_After (me_Timestamp e) (me_Timestamp existing) then <[me_Key e := e]> seen else seen
             | None => <[me_Key e := e]> seen
             end)
      end
  end.

Fixpoint merge_loop (its : list SSTableIterator) (seen : gmap string MemEntry) : option (SSTError + gmap string MemEntry) :=
  match its with
  | [] => Some (inr seen)
  | it :: its =>
      r ← merge_table (iter_fuel it) it seen;
      match r with
      | inl err => Some (inl err)
      | inr seen => merge_loop its seen
      end
  end.

Definition kWayMerge (its : list SSTableIterator) : option (SSTError + list MemEntry) :=
  r ← merge_loop its ∅;
  Some (match r with inl err => inl err | inr seen => inr (sort_entries (map_to_list seen).*2) end).

(** The iterators of the tables that open. *)
Fixpoint open_iterators (sst : gmap string bytes) (tables : list TableRef) : option (list SSTableIterator) :=
  match tables with
  | [] => Some []
  | t :: tables =>
      match sst !! tr_Path t with
      | None => open_iterators sst tables
      | Some file =>
          r ← OpenReader file;
          its ← open_iterators sst tables;
          Some (match r with inl _ => its | inr reader => Reader_Iterator reader :: its end)
      end
  end.

Definition remove_files (tables : list TableRef) (sst : gmap string bytes) : gmap string bytes :=
  fold_left (fun sst t => delete (tr_Path t) sst) tables sst.

Definition with_level (level : nat) (meta : SSTableMeta) : SSTableMeta :=
  mkSSTableMeta (sm_MinKey meta) (sm_MaxKey meta) (sm_EntryCount meta) (sm_FileSize meta) (Z.of_nat level)
    (sm_Filter meta) (sm_Index meta).

(** The tables that [compact] copies under the read lock; [None] when there is
    nothing to do. *)
Definition compact_source (level : nat) (e : Engine) : option (list TableRef) :=
  if (length (en_levels e) - 1 <=? level)%nat then None
  else match en_levels e !! level with
       | None | Some [] => None
       | Some source => Some source
       end.

(** The rest of [compact]: its error, the engine and the files. *)
Definition compact_tables (level : nat) (source : list TableRef) (nanos : Z) (e : Engine) (sst : gmap string bytes) :
    option (option EngineError * Engine * gmap string bytes) :=
  its ← open_iterators sst source;
  let nextLevel := S level in
  let path := table_path (Z.of_nat nextLevel) nanos in
  let writer := NewWriter bits hashes 0 in
  let sst := <[path := []]> sst in
  merged ← kWayMerge its;
  match merged with
  | inl err => Some (Some (ErrTable err), e, sst)
  | inr merged =>
      let kept := List.filter
        (fun entry => negb (me_Deleted entry && (nextLevel =? length (en_levels e) - 1)%nat)) merged in
      writer ← add_entries kept writer;
      let '(file, meta) := Finish writer in
      let sst := <[path := file]> sst in
      next ← en_levels e !! nextLevel;
      let levels := <[nextLevel := next ++ [mkTableRef path (with_level nextLevel meta)]]> (<[level := []]> (en_levels e)) in
      Some (None, set_levels levels (en_immutable e) (en_compactCh e) e, remove_files source sst)
  end.

(** The compaction worker receives a level and copies its tables. *)
Definition compact_take (e : Engine) : option (nat * list TableRef) * Engine :=
  match en_compactCh e with
  | [] => (None, e)
  | level :: ch =>
      (pair (Z.to_nat level) <$> compact_source (Z.to_nat level) e, set_levels (en_levels e) (en_immutable e) ch e)
  end.

End sized.

(** ** Opening and closing *)

(** The body of the loop of [replayWAL]; [draws] has the coin flips of each
    memtable write. *)
Definition replay_one (draws : nat -> list bool) (ie : nat * WALEntry) (s : SkipList * Z) : option (SkipList * Z) :=
  let '(i, entry) := ie in
  let '(mem, sequence) := s in
  let '(key, value, deleted) := DecodeCommand (went_Data entry) in
  mem ← (if deleted : bool then Delete (draws i) key (went_Timestamp entry) (went_Sequence entry) mem
         else Put (draws i) key value (went_Timestamp entry) (went_Sequence entry) mem);
  Some (mem, if sequence <? went_Sequence entry then went_Sequence entry else sequence).

Definition replay_entries (draws : nat -> list bool) (entries : list WALEntry) (s : SkipList * Z) : option (SkipList * Z) :=
  for_each (replay_one draws) (imap pair entries) s.

(** The context of the engine is not done while it opens. *)
Definition replayWAL (draws : nat -> list bool) (e : Engine) (fs : FS) : option (Engine * FS) :=
  let '(entries, _, fs) := ReadFrom (fun _ => false) 1 (en_wal e) fs in
  '(mem, sequence) ← replay_entries draws entries (mr_table (en_memTable e), en_sequence e);
  let e := set_mem (mkMemRef (mr_id (en_memTable e)) mem) (en_immutable e) (en_flushCh e) (en_nextMem e) e in
  Some (set_counts sequence (en_writeCount e) (en_readCount e) (en_flushCount e) (en_closed e) e, fs).

Definition has_prefix (prefix s : string) : bool :=
  bool_decide (take (String.length prefix) (bytes_of_string s) = bytes_of_string prefix).

(** [filepath.Glob] of the tables of a level: their paths in order. *)
Definition level_files (level : Z) (sst : gmap string bytes) : list string :=
  sort_Strings (List.filter (fun p => has_prefix (level_dir level) p && has_suffix ".sst" p) (map_to_list sst).*1).

Definition load_one (level : nat) (sst : gmap string bytes) (path : string) (tables : list TableRef) : option (list TableRef) :=
  match sst !! path with
  | None => Some tables
  | Some file =>
      r ← OpenReader file;
      Some (match r with
            | inl _ => tables
            | inr reader => tables ++ [mkTableRef path (with_level level (rd_meta reader))]
            end)
  end.

Definition load_level (sst : gmap string bytes) (level : nat) : option (list TableRef) :=
  for_each (load_one level sst) (level_files (Z.of_nat level) sst) [].

(** [loadSSTables]: the tables of each level. *)
Definition loadSSTables (sst : gmap string bytes) : option (list (list TableRef)) :=
  mapM (load_level sst) (seq 0 numLevels).

Definition engine_of (config : EngineConfig) (w : WAL) (levels : list (list TableRef)) : Engine :=
  mkEngine config w (mkMemRef 0 NewSkipList) [] levels [] [] 0 0 0 0 false 1.

(** [Open], with the segment size of the log as an argument. *)
Definition Engine_Open (segmentSize : Z) (config : EngineConfig) (hlc : HLC) (draws : nat -> list bool)
    (fs : FS) (sst : gmap string bytes) : option ((EngineError + Engine) * FS) :=
  let '(res, fs) := Open_sized segmentSize hlc fs in
  match res with
  | inl err => Some (inl (ErrWAL err), fs)
  | inr w =>
      levels ← loadSSTables sst;
      '(e, fs) ← replayWAL draws (engine_of config w levels) fs;
      Some (inr e, fs)
  end.

(** [Close], after the workers have ended. *)
Definition Engine_Close (bits : Z -> Z) (hashes : Z -> Z -> Z) (nanos : Z) (e : Engine) (fs : FS) (sst : gmap string bytes) :
    option (option EngineError * Engine * FS * gmap string bytes) :=
  if en_closed e then Some (None, e, fs, sst)
  else
    let e := set_counts (en_sequence e) (en_writeCount e) (en_readCount e) (en_flushCount e) true e in
    '(e, sst) ← (if 0 <? Len (mr_table (en_memTable e)) then flushMemTable bits hashes nanos (en_memTable e) e sst
                 else Some (e, sst));
    let '(err, _, w, fs) := WAL_Close (en_wal e) fs in
    Some (ErrWAL <$> err, set_wal w e, fs, sst).

Record EngineStats := mkEngineStats {
  es_WriteCount : Z;
  es_ReadCount : Z;
  es_FlushCount : Z;
  es_MemTableSize : Z;
  es_MemTableLen : Z;
  es_SSTableCount : Z;
  es_WALStats : WALStats;
}.

Definition Engine_Stats (e : Engine) : EngineStats :=
  mkEngineStats (en_writeCount e) (en_readCount e) (en_flushCount e) (Size (mr_table (en_memTable e)))
    (Len (mr_table (en_memTable e))) (zlen (concat (en_levels e))) (WAL_Stats (en_wal e)).

(** ** Runs

    The calls of the engine and the steps of its workers interleave at the
    engine's lock.  [st_inflight] has the puts whose log write is done and
    whose memtable write is not, [st_worker] the memtable that the flush
    worker holds, [st_compactor] the level and the tables that the compaction
    worker has copied, [st_stalls] counts the puts that found the flush channel
    full. *)

Record EPut := mkEPut {
  ep_key : string;
  ep_value : bytes;
  ep_deleted : bool;
  ep_entry : WALEntry;
}.

Record EState := mkEState {
  st_engine : Engine;
  st_fs : FS;
  st_sst : gmap string bytes;
  st_inflight : list EPut;
  st_worker : option MemRef;
  st_compactor : option (nat * list TableRef);
  st_stalls : Z;
}.

Inductive engine_op :=
| EPutLog (ptMs : Z) (key : string) (value : bytes) (deleted : bool)
| EPutApply (i : nat) (draws : list bool)
| EFlushTake
| EFlushDone (nanos : Z)
| EGet (key : string) (readTS : Z)
| ECompactTake
| ECompactDone (nanos : Z).

(** A step; a panic of any goroutine ends the process and is [None]. *)
Definition engine_step (bits : Z -> Z) (hashes : Z -> Z -> Z) (o : engine_op) (s : EState) : option EState :=
  let e := st_engine s in
  match o with
  | EPutLog ptMs key value deleted =>
      let '(res, e, fs) := put_log ptMs key value deleted e (st_fs s) in
      Some (mkEState e fs (st_sst s)
              (match res with inr entry => st_inflight s ++ [mkEPut key value deleted entry] | inl _ => st_inflight s end)
              (st_worker s) (st_compactor s) (st_stalls s))
  | EPutApply i draws =>
      match st_inflight s !! i with
      | None => Some s
      | Some p =>
          '(stall, e) ← put_apply draws (ep_key p) (ep_value p) (ep_deleted p) (ep_entry p) e;
          Some (mkEState e (st_fs s) (st_sst s) (delete i (st_inflight s)) (st_worker s) (st_compactor s)
                  (st_stalls s + (if stall : bool then 1 else 0)))
      end
  | EFlushTake =>
      match st_worker s with
      | Some _ => Some s
      | None =>
          let '(t, e) := flush_take e in
          Some (mkEState e (st_fs s) (st_sst s) (st_inflight s) t (st_compactor s) (st_stalls s))
      end
  | EFlushDone nanos =>
      match st_worker s with
      | None => Some s
      | Some t =>
          '(e, sst) ← flushMemTable bits hashes nanos t e (st_sst s);
          Some (mkEState e (st_fs s) sst (st_inflight s) None (st_compactor s) (st_stalls s))
      end
  | EGet key readTS =>
      '(_, e) ← getAtTimestamp key readTS (st_sst s) e;
      Some (mkEState e (st_fs s) (st_sst s) (st_inflight s) (st_worker s) (st_compactor s) (st_stalls s))
  | ECompactTake =>
      match st_compactor s with
      | Some _ => Some s
      | None =>
          let '(c, e) := compact_take e in
          Some (mkEState e (st_fs s) (st_sst s) (st_inflight s) (st_worker s) c (st_stalls s))
      end
  | ECompactDone nanos =>
      match st_compactor s with
      | None => Some s
      | Some (level, source) =>
          '(_, e, sst) ← compact_tables bits hashes level source nanos e (st_sst s);
          Some (mkEState e (st_fs s) sst (st_inflight s) (st_worker s) None (st_stalls s))
      end
  end.

Definition engine_run (bits : Z -> Z) (hashes : Z -> Z -> Z) (ops : list engine_op) (s : EState) : option EState :=
  for_each (engine_step bits hashes) ops s.

Definition engine_start (e : Engine) (fs : FS) (sst : gmap string bytes) : EState := mkEState e fs sst [] None None 0.
