(* ===== verification/EngineSpec.v ===== *)
(** * EngineSpec: what the storage engine answers

    The layers of an engine are the memtable, the immutable memtables and the
    tables of level 0, newest first; together they hold the last value written
    to each key.  [eng_inv] relates a running engine to the maps its layers
    stand for.  As long as no put has found the flush channel full and no
    compaction has run, a range scan answers as the map of all writes when no
    memtable waits to be flushed, and a point lookup as the layers in memory. *)

From S2P Require Import Prelude Bytes Hlc WalRecord Wal Bloom Skiplist SSTable Command Engine.

(** ** Scanning one table *)

Definition krange (startKey endKey key : string) : bool :=
  (startKey <=?s key) && ((endKey =?s EmptyString) || (key <?s endKey)).

Definition scan_add (startKey endKey : string) (results : gmap string MemEntry) (e : MemEntry) : gmap string MemEntry :=
  if in_range startKey endKey e then <[me_Key e := e]> results else results.

Lemma scan_table_drain startKey endKey n : forall it es fuel results,
  drain n it = Some es -> (n <= fuel)%nat ->
  scan_table fuel startKey endKey it results = Some (fold_left (scan_add startKey endKey) es results).
Proof.
  induction n as [|n IH]; intros it es fuel results Hd Hf; [done|]. destruct fuel as [|fuel]; [lia|].
  cbn [drain scan_table] in *. destruct (Next it) as [[[err|[e|]] it']|]; cbn [mbind option_bind] in *; [done| |by injection Hd as <-|done].
  destruct (drain n it') as [es'|] eqn:Hd'; [|done]. injection Hd as <-. cbn [fold_left]. apply IH; [done|lia].
Qed.

Definition by_key (es : list MemEntry) : gmap string MemEntry := list_to_map ((fun e => (me_Key e, e)) <$> es).

Lemma by_key_None es k : k ∉ me_Key <$> es -> by_key es !! k = None.
Proof. intros Hk. apply not_elem_of_list_to_map. by rewrite -list_fmap_compose. Qed.

Lemma by_key_Some es k e : NoDup (me_Key <$> es) -> by_key es !! k = Some e <-> e ∈ es /\ me_Key e = k.
Proof.
  intros Hnd. unfold by_key. rewrite -elem_of_list_to_map; [|by rewrite -list_fmap_compose]. rewrite list_elem_of_fmap. split.
  - intros (x & [= -> ->] & Hx). done.
  - intros [He <-]. eauto.
Qed.

(** Adding entries of distinct keys one after the other. *)
Lemma fold_insert_by_key es : forall results, NoDup (me_Key <$> es) ->
  fold_left (fun results e => <[me_Key e := e]> results) es results = by_key es ∪ results.
Proof.
  induction es as [|e es IH]; intros results; [by intros _; rewrite left_id_L|].
  intros [He Hnd]%NoDup_cons. cbn [fold_left]. rewrite IH //. unfold by_key. rewrite fmap_cons. cbn [list_to_map foldr].
  fold (by_key es). rewrite -insert_union_r; [|by apply by_key_None]. by rewrite -insert_union_l.
Qed.

Lemma fold_scan_add a b es : forall results,
  fold_left (scan_add a b) es results = fold_left (fun results e => <[me_Key e := e]> results) (filter (fun e => in_range a b e = true) es) results.
Proof.
  induction es as [|e es IH]; intros results; [done|]. cbn [fold_left]. rewrite IH filter_cons. unfold scan_add.
  destruct (in_range a b e); by case_decide.
Qed.

(** [es] lists the entries of [m] by key. *)
Record lists (es : list MemEntry) (m : gmap string MemEntry) : Prop := {
  ls_sorted : StronglySorted (fun x y => str_lt (me_Key x) (me_Key y)) es;
  ls_elem : forall e, e ∈ es <-> m !! me_Key e = Some e;
}.

Lemma sorted_NoDup (es : list MemEntry) :
  StronglySorted (fun x y => str_lt (me_Key x) (me_Key y)) es -> NoDup (me_Key <$> es).
Proof.
  induction 1 as [|e es Hs IH He]; [constructor|]. apply NoDup_cons. split; [|done].
  intros (x & Hk & Hx)%list_elem_of_fmap. rewrite Forall_forall in He. specialize (He x Hx). rewrite Hk in He.
  by apply (irreflexivity str_lt) in He.
Qed.

Definition keyed (m : gmap string MemEntry) : Prop := map_Forall (fun k e => me_Key e = k) m.

Lemma by_key_lists es m : keyed m -> lists es m -> by_key es = m.
Proof.
  intros Hk []. apply map_eq. intros k. apply option_eq. intros e. rewrite by_key_Some; [|by apply sorted_NoDup].
  rewrite ls_elem0. split; [by intros [H <-]|]. intros H. pose proof (Hk k e H) as <-. done.
Qed.

Lemma filter_keys_NoDup (P : MemEntry -> Prop) `{!forall x, Decision (P x)} es :
  NoDup (me_Key <$> es) -> NoDup (me_Key <$> filter P es).
Proof.
  induction es as [|e es IH]; [done|]. rewrite fmap_cons. intros [He Hnd]%NoDup_cons. rewrite filter_cons.
  case_decide; [|by apply IH]. rewrite fmap_cons. apply NoDup_cons. split; [|by apply IH].
  intros (x & Hx & Hin)%list_elem_of_fmap. apply He. apply list_elem_of_filter in Hin as [_ Hin]. rewrite Hx. by apply list_elem_of_fmap_2.
Qed.

Lemma stored_key e : me_Key (stored e) = me_Key e.
Proof. done. Qed.

(** Scanning the entries of a table adds those of [m] in the range. *)
Lemma scan_entries a b es m results k :
  keyed m -> lists es m ->
  fold_left (scan_add a b) (map stored es) results !! k =
    if krange a b k then from_option (Some ∘ stored) (results !! k) (m !! k) else results !! k.
Proof.
  intros Hk Hl. assert (Hnd : NoDup (me_Key <$> map stored es)).
  { rewrite -list_fmap_compose. apply sorted_NoDup, Hl. }
  rewrite fold_scan_add fold_insert_by_key; [|by apply filter_keys_NoDup]. rewrite lookup_union.
  set (l := filter _ _). assert (Hsel : forall e, by_key l !! k = Some e <-> krange a b k = true /\ stored <$> m !! k = Some e).
  { intros e. rewrite by_key_Some; [|by apply filter_keys_NoDup]. unfold l. rewrite list_elem_of_filter list_elem_of_fmap. split.
    - intros ((Hr & x & -> & Hx) & <-). rewrite stored_key in Hr |- *. apply Hl in Hx. by rewrite Hx.
    - intros (Hr & Hm). destruct (m !! k) as [x|] eqn:Hx; [|done]. injection Hm as <-. pose proof (Hk _ _ Hx) as Hkx. simpl in Hkx.
      split; [|done]. split; [by unfold in_range; rewrite stored_key Hkx|]. exists x. split; [done|]. apply Hl. by rewrite Hkx. }
  destruct (by_key l !! k) as [e|].
  - destruct (proj1 (Hsel e) eq_refl) as [-> Hm]. destruct (m !! k); [|done]. injection Hm as <-. simpl. by destruct (results !! k).
  - rewrite left_id_L. destruct (krange a b k); [|done]. destruct (m !! k) as [x|]; [|done].
    by pose proof (proj2 (Hsel (stored x)) (conj eq_refl eq_refl)).
Qed.

(** ** Layers *)

Definition union_layers (layers : list (gmap string MemEntry)) : gmap string MemEntry := foldr (∪) ∅ layers.

Lemma union_layers_app a b : union_layers (a ++ b) = union_layers a ∪ union_layers b.
Proof.
  induction a as [|m a IH]; [cbn [union_layers foldr app]; by rewrite (left_id_L ∅ (∪))|]. cbn [union_layers foldr app]. fold (union_layers (a ++ b)) (union_layers a).
  by rewrite IH assoc_L.
Qed.

(** A table of level 0 whose file holds the entries of [m]. *)
Definition table_ok (sst : gmap string bytes) (t : TableRef) (m : gmap string MemEntry) : Prop :=
  exists file es, sst !! tr_Path t = Some file /\ table_of file (tr_meta t) es /\ lists es m /\ keyed m /\ m <> ∅.

Lemma scan_one_spec sst a b t m results :
  table_ok sst t m -> b <> EmptyString ->
  exists results', scan_one sst a b t results = Some results' /\
    forall k, results' !! k = if krange a b k then from_option (Some ∘ stored) (results !! k) (m !! k) else results !! k.
Proof.
  intros (file & es & Hfile & [(r & Hopen & Hdrain & Hlen) Hrange Hf] & Hl & Hk & _) Hb. unfold scan_one.
  destruct ((sm_MaxKey (tr_meta t) <?s a) || (b <?s sm_MinKey (tr_meta t))) eqn:Hskip.
  - exists results. split; [done|]. intros k. destruct (krange a b k) eqn:Hr; [|done].
    destruct (m !! k) as [e|] eqn:Hm; [|done]. exfalso. pose proof (Hk _ _ Hm) as <-.
    destruct (Hrange e) as [Hmin Hmax]; [by apply Hl|]. unfold krange in Hr. rewrite str_eqb_spec bool_decide_false // in Hr.
    apply andb_true_iff in Hr as [Ha Hlt]. cbn [orb] in Hlt. apply orb_true_iff in Hskip as [Hs|Hs].
    + assert (str_le a (sm_MaxKey (tr_meta t))) as H by (by trans (me_Key e)). rewrite str_ltb_leb H // in Hs.
    + assert (str_lt (me_Key e) (me_Key e)) as []%(irreflexivity str_lt). trans b; [done|].
      apply str_leb_le in Hmin as [Hmin| <-]; [by trans (sm_MinKey (tr_meta t))|done].
  - rewrite Hfile Hopen. cbn [mbind option_bind]. eexists. split; [|intros k; by apply scan_entries].
    eapply scan_table_drain; [done|]. unfold iter_fuel. cbn [Reader_Iterator it_reader]. lia.
Qed.

Lemma scan_tables_spec sst a b : b <> EmptyString -> forall tables tabs, Forall2 (table_ok sst) tables tabs -> forall results,
  exists results', for_each (scan_one sst a b) tables results = Some results' /\
    forall k, results' !! k = if krange a b k then from_option (Some ∘ stored) (results !! k) (union_layers (rev tabs) !! k) else results !! k.
Proof.
  intros Hb. induction 1 as [|t m tables tabs Ht Hts IH]; intros results.
  { exists results. split; [done|]. intros k. cbn [rev union_layers foldr]. rewrite lookup_empty. by destruct (krange a b k). }
  destruct (scan_one_spec sst a b t m results Ht Hb) as (r1 & Hr1 & H1). destruct (IH r1) as (r2 & Hr2 & H2).
  exists r2. cbn [for_each]. rewrite Hr1. split; [done|]. intros k. rewrite H2 H1. destruct (krange a b k); [|done].
  cbn [rev]. rewrite union_layers_app lookup_union. cbn [union_layers foldr]. rewrite right_id_L. fold (union_layers (rev tabs)).
  by destruct (union_layers (rev tabs) !! k), (m !! k).
Qed.

(** ** The flushed map of a memtable *)

Lemma All_spec sl m : sl_repr sl m -> exists es, All sl = Some es /\ lists es m.
Proof.
  intros Hr. destruct (Scan_spec EmptyString EmptyString sl m Hr) as (l & Hl & Hs & Hin). exists l. split; [done|].
  constructor; [done|]. intros e. rewrite Hin. split; [by intros (? & _)|]. intros He. split_and!; [done| |done].
  by destruct (me_Key e).
Qed.

Lemma lists_length es m : lists es m -> (length es <= size m)%nat.
Proof.
  intros []. rewrite -(length_fmap me_Key es) -size_dom.
  rewrite -(size_list_to_set (C:=gset string) (me_Key <$> es)); [|by apply sorted_NoDup]. apply subseteq_size.
  intros k (e & -> & He)%elem_of_list_to_set%list_elem_of_fmap. apply elem_of_dom. exists e. by apply ls_elem0.
Qed.

Lemma lists_nonempty es m : lists es m -> m <> ∅ -> keyed m -> es <> [].
Proof.
  intros [] Hne Hk ->. apply Hne, map_eq. intros k. rewrite lookup_empty. destruct (m !! k) as [e|] eqn:He; [|done].
  exfalso. pose proof (Hk _ _ He) as <-. by apply ls_elem0, elem_of_nil in He.
Qed.

(** ** The invariant of a running engine *)

Definition entry_ok (k : string) (e : MemEntry) : Prop := me_Key e = k /\ k <> EmptyString /\ entry_small e.

Definition map_ok (n : Z) (m : gmap string MemEntry) : Prop := map_Forall entry_ok m /\ Z.of_nat (size m) <= n.

Lemma map_ok_keyed n m : map_ok n m -> keyed m.
Proof. intros [H _] k e He. by apply (H k e He). Qed.

Lemma map_ok_mono n n' m : n <= n' -> map_ok n m -> map_ok n' m.
Proof. intros ? [? ?]. split; [done|lia]. Qed.

Lemma map_ok_insert n m k e : entry_ok k e -> map_ok n m -> map_ok (n + 1) (<[k := e]> m).
Proof.
  intros He [Hm Hs]. split; [by apply map_Forall_insert_2|].
  pose proof (map_size_insert k e m) as Hsz. destruct (m !! k); simpl in Hsz; lia.
Qed.

Definition put_ok (p : EPut) : Prop :=
  ep_key p <> EmptyString /\ is_i64 (went_Timestamp (ep_entry p)) /\
  zlen (bytes_of_string (ep_key p)) + zlen (ep_value p) + 17 <= 1073741824.

(** The value of a key after a write; a deleted key has none. *)
Definition apply_put (model : gmap string (option bytes)) (p : EPut) : gmap string (option bytes) :=
  <[ep_key p := if ep_deleted p then None else Some (ep_value p)]> model.

(** A table that a worker may read: its file is complete and one of [used]. *)
Definition source_ok (sst : gmap string bytes) (used : list Z) (t : TableRef) : Prop :=
  (exists m, table_ok sst t m) /\ exists k, k ∈ used /\ tr_Path t = table_path 0 k.

Record eng_inv (n : Z) (used : list Z) (s : EState) (mm : gmap string MemEntry) (ims tabs : list (gmap string MemEntry))
    (model : gmap string (option bytes)) : Prop := {
  ev_closed : en_closed (st_engine s) = false;
  ev_clock : hlc_wf (w_clock (en_wal (st_engine s)));
  ev_inflight : Forall put_ok (st_inflight s);
  ev_mem : sl_repr (mr_table (en_memTable (st_engine s))) mm;
  ev_imm : Forall2 (fun r m => sl_repr (mr_table r) m /\ m <> ∅) (en_immutable (st_engine s)) ims;
  ev_maps : Forall (map_ok n) (mm :: ims);
  ev_queue : option_list (st_worker s) ++ en_flushCh (st_engine s) `sublist_of` en_immutable (st_engine s);
  ev_all_queued : st_stalls s = 0 -> en_immutable (st_engine s) = option_list (st_worker s) ++ en_flushCh (st_engine s);
  ev_ids : NoDup (mr_id <$> en_memTable (st_engine s) :: en_immutable (st_engine s));
  ev_next : Forall (fun r => mr_id r < en_nextMem (st_engine s))%nat (en_memTable (st_engine s) :: en_immutable (st_engine s));
  ev_levels : exists tables, en_levels (st_engine s) = tables :: replicate 6 [] /\ Forall2 (table_ok (st_sst s)) tables tabs /\
    Forall (fun t => exists k, k ∈ used /\ tr_Path t = table_path 0 k) tables;
  ev_used : Forall (fun k => 0 <= k < two63) used;
  ev_stalls : 0 <= st_stalls s;
  ev_compactCh : Forall (fun level => level = 0) (en_compactCh (st_engine s));
  ev_compactor : forall level source, st_compactor s = Some (level, source) ->
    level = 0%nat /\ source <> [] /\ Forall (source_ok (st_sst s) used) source;
  ev_model : st_stalls s = 0 -> model = entry_result <$> union_layers (mm :: rev ims ++ rev tabs);
}.

(** ** The log *)

Lemma writeToActive_clock rec w fs err w' fs' : writeToActive rec w fs = (err, w', fs') -> w_clock w' = w_clock w.
Proof. unfold writeToActive, rotateSegment, set_segments. intros H. repeat case_match; by simplify_eq/=. Qed.

Lemma wal_Write_clock ptMs data w fs res w' fs' :
  wal_Write ptMs data w fs = (res, w', fs') -> hlc_wf (w_clock w) -> phys_ok ptMs ->
  hlc_wf (w_clock w') /\ forall e, res = inr e -> is_i64 (went_Timestamp e).
Proof.
  unfold wal_Write, Write_begin. intros H Hwf Hp. destruct (w_closed w); [by simplify_eq/=|].
  destruct (HLC_Now ptMs (w_clock w)) as [ts clock] eqn:Hnow. destruct (HLC_Now_wf _ _ _ _ Hwf Hp Hnow) as [Hwf' Hts].
  destruct (writeToActive _ _ _) as [[err w1] fs1] eqn:Hw. apply writeToActive_clock in Hw. cbn [w_clock] in Hw.
  rewrite -Hw in Hwf'. clear Hw Hnow. destruct err; [by simplify_eq/=|]. unfold flush_grab, flush_sync in H. cbn [w_active] in H.
  destruct (Segment_Sync _ _) as [[err a] fs2]. destruct err; simplify_eq/=; (split; [done|]); [done|]. by intros e [= <-].
Qed.

(** ** Memtables in the queue *)

Lemma remove_mem_split id imm t :
  t ∈ imm -> mr_id t = id -> NoDup (mr_id <$> imm) -> exists l r, imm = l ++ t :: r /\ remove_mem id imm = l ++ r.
Proof.
  intros Ht <-. induction imm as [|x imm IH]; intros Hnd; [by apply elem_of_nil in Ht|]. rewrite fmap_cons in Hnd.
  apply NoDup_cons in Hnd as [Hx Hnd]. cbn [remove_mem]. destruct (Nat.eqb_spec (mr_id x) (mr_id t)) as [Heq|Hne].
  - apply elem_of_cons in Ht as [->|Ht]; [by exists [], imm|]. exfalso. apply Hx. rewrite Heq. by apply list_elem_of_fmap_2.
  - apply elem_of_cons in Ht as [->|Ht]; [done|]. destruct (IH Ht Hnd) as (l & r & -> & ->). by exists (x :: l), r.
Qed.

Lemma sublist_without (t : MemRef) q l r :
  t :: q `sublist_of` l ++ t :: r -> t ∉ l -> q `sublist_of` l ++ r.
Proof.
  intros H Ht. induction l as [|x l IH]; simpl in *.
  - apply sublist_cons_r in H as [H|(q' & [= <-] & H)]; [|done]. etrans; [|exact H]. by apply sublist_cons.
  - apply not_elem_of_cons in Ht as [Hx Ht]. apply sublist_cons_r in H as [H|(q' & [= <- <-] & H)]; [|done].
    apply sublist_cons. by apply IH.
Qed.

(** ** Reads *)

Lemma Bloom_Contains_total key f : bloom_wf f -> is_Some (Bloom_Contains key f).
Proof.
  intros Hf. unfold Bloom_Contains. destruct (hash128 key) as [h1 h2].
  destruct (Contains_loop_spec (Z.to_nat (bf_k f)) 0 h1 h2 f Hf) as (b & -> & _). eauto.
Qed.

(** A table never answers a point lookup. *)
Lemma readFromSSTable_ok sst t m key :
  table_ok sst t m -> key <> EmptyString -> readFromSSTable sst t key = Some (inr None).
Proof.
  intros (file & es & Hfile & [(r & Hopen & _) _ Hf] & _) Hkey. unfold readFromSSTable, MightContain.
  destruct (Bloom_Contains_total key _ Hf) as [b Hb]. destruct (_ || _); [done|]. rewrite Hb. cbn [mbind option_bind].
  destruct b; [|done]. cbn [negb]. rewrite Hfile Hopen. cbn [mbind option_bind]. by rewrite (opened_table_finds_nothing _ _ _ Hopen Hkey).
Qed.

Lemma readFromLevels_ok sst tables tabs key :
  Forall2 (table_ok sst) tables tabs -> key <> EmptyString ->
  readFromLevels sst 0 (tables :: replicate 6 []) key = Some (inr None).
Proof.
  intros Htabs Hkey. cbn [readFromLevels Nat.eqb].
  assert (Forall (fun t => exists m, table_ok sst t m) tables) as Hall.
  { clear Hkey. induction Htabs; constructor; eauto. }
  assert (readFromLevel0 sst (rev tables) key = Some (inr None)) as ->; [|done].
  assert (Forall (fun t => exists m, table_ok sst t m) (rev tables)) as Hrev by (by apply List.Forall_rev).
  clear -Hrev Hkey. induction Hrev as [|t l [m Ht] Hl IH]; [done|]. cbn [readFromLevel0].
  by rewrite (readFromSSTable_ok _ _ _ _ Ht Hkey).
Qed.

Lemma mems_lookup_latest key mems maps :
  Forall2 (fun r m => sl_repr (mr_table r) m) mems maps -> mems_lookup 0 key mems = Some (union_layers maps !! key).
Proof.
  induction 1 as [|r m mems maps Hr Hrs IH]; [by rewrite lookup_empty|]. cbn [mems_lookup union_layers foldr].
  unfold mem_lookup. rewrite (Get_spec _ _ _ Hr) IH. cbn [mbind option_bind Z.eqb]. fold (union_layers maps). rewrite lookup_union.
  by destruct (m !! key), (union_layers maps !! key).
Qed.

Lemma mems_lookup_total readTS key mems maps :
  Forall2 (fun r m => sl_repr (mr_table r) m) mems maps -> is_Some (mems_lookup readTS key mems).
Proof.
  induction 1 as [|r m mems maps Hr Hrs IH]; [by eexists|]. cbn [mems_lookup]. unfold mem_lookup, GetAtTimestamp.
  rewrite (Get_spec _ _ _ Hr). cbn [mbind option_bind]. destruct (readTS =? 0), (m !! key) as [e|]; cbn [mbind option_bind]; try done.
  destruct (HLC_After _ _); done.
Qed.

Lemma Forall2_rev {A B} (P : A -> B -> Prop) l k : Forall2 P l k -> Forall2 P (rev l) (rev k).
Proof. induction 1; [done|]. simpl. by apply Forall2_app; [|constructor]. Qed.

Section reads.
  Context {n : Z} {used : list Z} {s : EState} {mm : gmap string MemEntry} {ims tabs : list (gmap string MemEntry)}
    {model : gmap string (option bytes)} (Hinv : eng_inv n used s mm ims tabs model).

Lemma mem_layers : Forall2 (fun r m => sl_repr (mr_table r) m)
  (en_memTable (st_engine s) :: rev (en_immutable (st_engine s))) (mm :: rev ims).
Proof.
  destruct Hinv. constructor; [done|]. apply Forall2_rev. eapply Forall2_impl; [done|]. by intros r m [].
Qed.

(** A point lookup sees the layers in memory and nothing else. *)
Lemma get_spec key : key <> EmptyString ->
  exists e', getAtTimestamp key 0 (st_sst s) (st_engine s) =
    Some (inr (e ← union_layers (mm :: rev ims) !! key; entry_result e), e').
Proof.
  intros Hkey. pose proof mem_layers as Hmem. destruct Hinv as [Hcl _ _ _ _ _ _ _ _ _ (tables & Hlev & Htabs & _) _ _ _].
  unfold getAtTimestamp. rewrite Hcl. cbn [en_memTable en_immutable en_levels set_counts].
  rewrite (mems_lookup_latest _ _ _ Hmem). cbn [mbind option_bind]. rewrite Hlev (readFromLevels_ok _ _ _ _ Htabs Hkey).
  destruct (_ !! key); by eexists.
Qed.

Lemma get_total key readTS : key <> EmptyString ->
  exists r, getAtTimestamp key readTS (st_sst s) (st_engine s) =
    Some (r, set_counts (en_sequence (st_engine s)) (en_writeCount (st_engine s)) (i64 (en_readCount (st_engine s) + 1))
      (en_flushCount (st_engine s)) (en_closed (st_engine s)) (st_engine s)).
Proof.
  intros Hkey. pose proof mem_layers as Hmem. destruct Hinv as [Hcl _ _ _ _ _ _ _ _ _ (tables & Hlev & Htabs & _) _ _ _].
  unfold getAtTimestamp. rewrite Hcl. cbn [en_memTable en_immutable en_levels set_counts].
  destruct (mems_lookup_total readTS key _ _ Hmem) as [found Hfound]. rewrite Hfound. cbn [mbind option_bind].
  rewrite Hlev (readFromLevels_ok _ _ _ _ Htabs Hkey). destruct found; by eexists.
Qed.

End reads.

(** ** Writes *)

Definition put_entry (p : EPut) : MemEntry :=
  mkMemEntry (ep_key p) (if ep_deleted p then [] else ep_value p) (went_Timestamp (ep_entry p)) (ep_deleted p)
    (went_Sequence (ep_entry p)).

Lemma put_entry_ok p : put_ok p -> entry_ok (ep_key p) (put_entry p).
Proof.
  intros (Hk & Hts & Hlen). split_and!; [done..|]. split; [done|]. rewrite zlen_encodeEntry. cbn [put_entry me_Key me_Value].
  pose proof (zlen_nonneg (ep_value p)). destruct (ep_deleted p); [rewrite zlen_nil; lia|lia].
Qed.

Lemma put_entry_result p : entry_result (put_entry p) = if ep_deleted p then None else Some (ep_value p).
Proof. unfold entry_result, put_entry. simpl. by destruct (ep_deleted p). Qed.

Lemma mem_put_spec draws p sl m : sl_repr sl m ->
  exists sl', (if ep_deleted p then Delete draws (ep_key p) (went_Timestamp (ep_entry p)) (went_Sequence (ep_entry p)) sl
               else Put draws (ep_key p) (ep_value p) (went_Timestamp (ep_entry p)) (went_Sequence (ep_entry p)) sl) = Some sl' /\
    sl_repr sl' (<[ep_key p := put_entry p]> m).
Proof. intros Hr. unfold put_entry. destruct (ep_deleted p); [by apply Delete_spec|by apply Put_spec]. Qed.

Lemma model_put model p layers m :
  model = entry_result <$> union_layers (m :: layers) ->
  apply_put model p = entry_result <$> union_layers (<[ep_key p := put_entry p]> m :: layers).
Proof.
  intros ->. unfold apply_put. cbn [union_layers foldr]. rewrite -insert_union_l fmap_insert put_entry_result. done.
Qed.

Lemma maps_ok_mono n maps : Forall (map_ok n) maps -> Forall (map_ok (n + 1)) maps.
Proof. intros H. eapply Forall_impl; [exact H|]. intros m Hm. eapply map_ok_mono; [|exact Hm]. lia. Qed.

Lemma eng_inv_mono n used s mm ims tabs model : eng_inv n used s mm ims tabs model -> eng_inv (n + 1) used s mm ims tabs model.
Proof. intros []. constructor; try done. by apply maps_ok_mono. Qed.

Lemma put_apply_inv bits hashes n used s mm ims tabs model i draws p :
  eng_inv n used s mm ims tabs model -> st_inflight s !! i = Some p ->
  exists s' mm' ims', engine_step bits hashes (EPutApply i draws) s = Some s' /\
    eng_inv (n + 1) used s' mm' ims' tabs (apply_put model p).
Proof.
  intros [] Hi. cbn [engine_step]. rewrite Hi. unfold put_apply.
  destruct (mem_put_spec draws p _ _ ev_mem0) as (sl' & -> & Hsl). cbn [mbind option_bind].
  assert (put_ok p) as Hp by (by eapply Forall_lookup_1). pose proof (put_entry_ok p Hp) as Hok.
  apply Forall_cons in ev_maps0 as [Hmm Hims]. pose proof (map_ok_insert _ _ _ _ Hok Hmm) as Hmm'.
  apply Forall_cons in ev_next0 as [Hid0 Hids]. rewrite fmap_cons in ev_ids0. apply NoDup_cons in ev_ids0 as [Hnin Hnd].
  destruct (_ <=? Size sl').
  - generalize (flushChCap <=? length (en_flushCh (st_engine s)))%nat. intros full.
    eexists _, ∅, (ims ++ [<[ep_key p := put_entry p]> mm]). split; [reflexivity|].
    constructor; cbn -[union_layers replicate]; try done.
    + by apply Forall_delete.
    + apply NewSkipList_repr.
    + apply Forall2_app; [done|]. constructor; [|constructor]. split; [done|]. apply insert_non_empty.
    + constructor; [split; [apply map_Forall_empty|rewrite map_size_empty; destruct Hmm; lia]|].
      apply Forall_app. split; [by apply maps_ok_mono|]. by constructor.
    + destruct full; [by apply sublist_inserts_r|].
      rewrite assoc_L. by apply sublist_app.
    + intros Hs. destruct full; [lia|].
      rewrite ev_all_queued0; [|lia]. by rewrite -assoc_L.
    + apply NoDup_cons. rewrite fmap_app. split.
      * intros [(r & Hr & Hin)%list_elem_of_fmap|(r & Hr & ->%list_elem_of_singleton)%list_elem_of_fmap]%elem_of_app.
        { rewrite Forall_forall in Hids. specialize (Hids r Hin). lia. } simpl in Hr. lia.
      * apply NoDup_app. split_and!; [done| |apply NoDup_singleton]. intros x Hx ->%list_elem_of_singleton. done.
    + constructor; [simpl; lia|]. apply Forall_app. split; [eapply Forall_impl; [exact Hids|]; simpl; intros; lia|].
      constructor; [simpl; lia|constructor].
    + destruct full; lia.
    + intros Hs. rewrite rev_app_distr. cbn [rev app]. cbn [union_layers foldr]. rewrite (left_id_L ∅ (∪)).
      apply model_put, ev_model0. destruct full; lia.
  - eexists _, (<[ep_key p := put_entry p]> mm), ims. split; [reflexivity|].
    constructor; cbn -[union_layers replicate]; try done.
    + by apply Forall_delete.
    + constructor; [done|]. by apply maps_ok_mono.
    + intros Hs. apply ev_all_queued0. lia.
    + apply NoDup_cons. done.
    + by constructor.
    + lia.
    + intros Hs. apply model_put, ev_model0. lia.
Qed.

Lemma put_log_inv bits hashes n used s mm ims tabs model ptMs key value deleted :
  eng_inv n used s mm ims tabs model -> phys_ok ptMs -> key <> EmptyString ->
  zlen (bytes_of_string key) + zlen value + 17 <= 1073741824 ->
  exists s', engine_step bits hashes (EPutLog ptMs key value deleted) s = Some s' /\ eng_inv n used s' mm ims tabs model.
Proof.
  intros [] Hp Hk Hlen. cbn [engine_step]. unfold put_log. rewrite ev_closed0.
  destruct (wal_Write _ _ _ _) as [[res w] fs] eqn:Hw. destruct (wal_Write_clock _ _ _ _ _ _ _ Hw ev_clock0 Hp) as [Hwf Hts].
  destruct res as [err|entry]; (eexists; split; [reflexivity|]); constructor; cbn -[union_layers replicate]; try done.
  apply Forall_app. split; [done|]. constructor; [|constructor]. split_and!; [done|by apply Hts|done].
Qed.

Lemma flush_take_inv bits hashes n used s mm ims tabs model :
  eng_inv n used s mm ims tabs model ->
  exists s', engine_step bits hashes EFlushTake s = Some s' /\ eng_inv n used s' mm ims tabs model.
Proof.
  intros Hinv. cbn [engine_step]. destruct (st_worker s) as [t|] eqn:Hw; [by exists s|]. destruct Hinv. rewrite Hw in ev_queue0 ev_all_queued0.
  unfold flush_take. destruct (en_flushCh (st_engine s)) as [|t ch] eqn:Hch; (eexists; split; [reflexivity|]);
    constructor; cbn -[union_layers replicate]; rewrite ?Hch; done.
Qed.

Lemma table_path_inj a b : 0 <= a < two63 -> 0 <= b < two63 -> table_path 0 a = table_path 0 b -> a = b.
Proof.
  intros Ha Hb Heq. apply (f_equal bytes_of_string) in Heq. unfold table_path in Heq. rewrite !bytes_of_string_of_bytes in Heq.
  do 4 apply app_inv_head in Heq. apply app_inv_tail in Heq. apply fmt_d_inj; [lia..|done].
Qed.

Lemma table_ok_insert sst path file t m : table_ok sst t m -> tr_Path t <> path -> table_ok (<[path := file]> sst) t m.
Proof. intros (f & es & Hf & H) Hne. exists f, es. split; [|done]. by rewrite lookup_insert_ne. Qed.

Lemma source_ok_used sst used k t : source_ok sst used t -> source_ok sst (k :: used) t.
Proof. intros [Ht (j & Hj & ?)]. split; [done|]. exists j. split; [by right|done]. Qed.

Lemma source_ok_insert sst used nanos file t :
  source_ok sst used t -> Forall (fun k => 0 <= k < two63) used -> 0 <= nanos < two63 -> nanos ∉ used ->
  source_ok (<[table_path 0 nanos := file]> sst) (nanos :: used) t.
Proof.
  intros [[m Hm] (k & Hk & Hp)] Hused Hn Hfresh. split; [|exists k; split; [by right|done]]. exists m.
  apply table_ok_insert; [done|]. rewrite Hp. intros ->%table_path_inj; [done| |done]. rewrite Forall_forall in Hused. by apply Hused.
Qed.

(** The memtable of the worker and its place among the immutable ones. *)
Lemma worker_split n used s mm ims tabs model t :
  eng_inv n used s mm ims tabs model -> st_worker s = Some t ->
  exists l r il m ir, en_immutable (st_engine s) = l ++ t :: r /\ ims = il ++ m :: ir /\
    remove_mem (mr_id t) (en_immutable (st_engine s)) = l ++ r /\
    Forall2 (fun r m => sl_repr (mr_table r) m /\ m <> ∅) l il /\ sl_repr (mr_table t) m /\ m <> ∅ /\
    Forall2 (fun r m => sl_repr (mr_table r) m /\ m <> ∅) r ir /\ en_flushCh (st_engine s) `sublist_of` l ++ r /\
    (st_stalls s = 0 -> l = [] /\ il = [] /\ r = en_flushCh (st_engine s)).
Proof.
  intros [] Hw. rewrite Hw in ev_queue0 ev_all_queued0. cbn [option_list app] in *. rewrite fmap_cons in ev_ids0.
  apply NoDup_cons in ev_ids0 as [_ Hnd].
  assert (t ∈ en_immutable (st_engine s)) as Hin by (eapply elem_of_submseteq; [left|exact (sublist_submseteq _ _ ev_queue0)]).
  destruct (remove_mem_split (mr_id t) _ t Hin eq_refl Hnd) as (l & r & Hsplit & Hrem). rewrite Hsplit in ev_imm0 ev_queue0 Hnd.
  apply Forall2_app_inv_l in ev_imm0 as (il & k & Hl & Hk & ->). apply Forall2_cons_inv_l in Hk as (m & ir & [Hm Hne] & Hr & ->).
  assert (Htl : t ∉ l).
  { intros Htl. rewrite fmap_app fmap_cons in Hnd. apply NoDup_app in Hnd as (_ & Hdis & _). eapply Hdis; [by apply list_elem_of_fmap_2|left]. }
  exists l, r, il, m, ir. split_and!; [done..| |]; [eapply sublist_without; [exact ev_queue0|exact Htl]|]. intros Hs. specialize (ev_all_queued0 Hs).
  rewrite Hsplit in ev_all_queued0. destruct l as [|x l]; [|injection ev_all_queued0 as -> _; exfalso; apply Htl; left].
  injection ev_all_queued0 as ->. by inversion Hl.
Qed.

Lemma flush_done_inv bits hashes n used s mm ims tabs model nanos :
  (forall k, 0 < k < 2 ^ 31 -> 0 < bits k <= 2 ^ 60) -> n < 2 ^ 31 -> 0 <= nanos < two63 -> nanos ∉ used ->
  eng_inv n used s mm ims tabs model ->
  exists s' ims' tabs', engine_step bits hashes (EFlushDone nanos) s = Some s' /\
    eng_inv n (nanos :: used) s' mm ims' tabs' model.
Proof.
  intros Hbits Hn Hnanos Hfresh Hinv. cbn [engine_step]. destruct (st_worker s) as [t|] eqn:Hw; last first.
  { exists s, ims, tabs. split; [done|]. destruct Hinv. constructor; try done; [|by constructor|].
    - destruct ev_levels0 as (tables & ? & ? & Hp). exists tables. split_and!; [done..|].
      eapply Forall_impl; [exact Hp|]. intros t (k & Hk & ?). exists k. split; [by right|done].
    - intros level source Hc. destruct (ev_compactor0 level source Hc) as (? & ? & Hs). split_and!; [done..|].
      eapply Forall_impl; [exact Hs|]. intros t. apply source_ok_used. }
  destruct (worker_split _ _ _ _ _ _ _ t Hinv Hw) as (l & r & il & m & ir & Hl & -> & Hrem & Hfl & Hm & Hne & Hfr & Hsub & Hz).
  destruct Hinv. destruct ev_levels0 as (tables & Hlev & Htabs & Hpaths). destruct (All_spec _ _ Hm) as (es & Hall & Hes).
  apply Forall_cons in ev_maps0 as [Hmm Hims]. apply Forall_app in Hims as [Hil [Hmok Hir]%Forall_cons].
  pose proof (map_ok_keyed _ _ Hmok) as Hkeyed. pose proof (lists_length _ _ Hes) as Hlen.
  assert (Hesne : es <> []) by (by eapply lists_nonempty). destruct Hmok as [Hmall Hsz].
  destruct (write_table bits hashes (zlen es) es) as (w & Hadd & Htab).
  { assert (0 < zlen es < 2 ^ 31) by (destruct es; [done|]; unfold zlen in *; simpl in *; lia). rewrite u64_small; [|lia]. by apply Hbits. }
  { apply Forall_forall. intros e He. apply Hes in He. by apply (Hmall _ _ He). }
  { apply Forall_forall. intros e He. apply Hes in He. by apply (Hmall _ _ He). }
  { unfold zlen. lia. }
  unfold flushMemTable. rewrite Hall. cbn [mbind option_bind]. rewrite Hadd. cbn [mbind option_bind].
  destruct (Finish w) as [file meta]. cbn [fst snd] in Htab. rewrite Hlev. change ((tables :: replicate 6 []) !! 0%nat) with (Some tables).
  cbn [mbind option_bind]. assert (Hmatch : forall A (x y : A), match es with [] => x | _ :: _ => y end = y) by (by destruct es).
  rewrite Hmatch. eexists _, (il ++ ir), (tabs ++ [m]). split; [reflexivity|].
  constructor; cbn -[union_layers replicate]; rewrite ?Hrem; try done.
  - by apply Forall2_app.
  - constructor; [done|]. by apply Forall_app.
  - intros Hs. by destruct (Hz Hs) as (-> & _ & ->).
  - rewrite Hl in ev_ids0. rewrite !fmap_cons !fmap_app fmap_cons in ev_ids0 |- *. apply NoDup_cons in ev_ids0 as [Hnin Hnd].
    apply NoDup_cons. split; [clear -Hnin; set_solver|]. rewrite -Permutation_middle in Hnd. by apply NoDup_cons in Hnd as [_ ?].
  - rewrite Hl in ev_next0. apply Forall_cons in ev_next0 as [? Hall0]. apply Forall_app in Hall0 as [? [? ?]%Forall_cons].
    constructor; [done|]. by apply Forall_app.
  - exists (tables ++ [mkTableRef (table_path 0 nanos) meta]). split; [done|]. rewrite Forall_forall in Hpaths. split.
    + apply Forall2_app.
      * apply Forall2_same_length_lookup. split; [by eapply Forall2_length|]. intros j t' m' Ht' Hm'.
        apply table_ok_insert; [by eapply Forall2_lookup_lr|]. destruct (Hpaths t') as (k & Hk & ->); [by eapply list_elem_of_lookup_2|].
        intros ->%table_path_inj; [done| |done]. rewrite Forall_forall in ev_used0. by apply ev_used0.
      * constructor; [|constructor]. exists file, es. split_and!; [by rewrite lookup_insert_eq|done..].
    + apply Forall_app. split; [|constructor; [|constructor]]; [|exists nanos; split; [left|done]].
      apply Forall_forall. intros t' Ht'. destruct (Hpaths t' Ht') as (k & Hk & ?). exists k. split; [by right|done].
  - by constructor.
  - destruct (_ <=? _); [|done]. unfold send_compact. destruct (_ <? _)%nat; [|done]. apply Forall_app. split; [done|by constructor].
  - intros level source Hc. destruct (ev_compactor0 level source Hc) as (? & ? & Hs). split_and!; [done..|].
    eapply Forall_impl; [exact Hs|]. intros t' Ht'. by apply source_ok_insert.
  - intros Hs. destruct (Hz Hs) as (_ & -> & _). rewrite ev_model0 //. cbn [rev app]. by rewrite rev_app_distr -app_assoc.
Qed.

(** ** Compaction *)

Lemma compact_take_inv bits hashes n used s mm ims tabs model :
  eng_inv n used s mm ims tabs model ->
  exists s', engine_step bits hashes ECompactTake s = Some s' /\ eng_inv n used s' mm ims tabs model.
Proof.
  intros Hinv. cbn [engine_step]. destruct (st_compactor s) as [c|] eqn:Hc; [by exists s|]. destruct Hinv.
  unfold compact_take. destruct (en_compactCh (st_engine s)) as [|level ch] eqn:Hch.
  { eexists. split; [reflexivity|]. constructor; cbn -[union_layers replicate]; rewrite ?Hch; done. }
  apply Forall_cons in ev_compactCh0 as [-> Hch0]. destruct ev_levels0 as (tables & Hlev & Htabs & Hpaths).
  eexists. split; [reflexivity|]. constructor; cbn -[union_layers replicate compact_source]; try done; [by exists tables|].
  intros level source. unfold compact_source. rewrite Hlev. change (length (tables :: replicate 6 []) - 1 <=? 0)%nat with false.
  change ((tables :: replicate 6 []) !! 0%nat) with (Some tables). destruct tables as [|t0 tables]; [done|]. intros [= <- <-].
  split_and!; [done..|]. apply Forall_forall. intros t Ht. rewrite Forall_forall in Hpaths. split; [|by apply Hpaths].
  apply list_elem_of_lookup in Ht as [j Hj]. destruct (Forall2_lookup_l _ _ _ _ _ Htabs Hj) as (m & _ & Hm). by exists m.
Qed.

Definition merge_add (seen : gmap string MemEntry) (e : MemEntry) : gmap string MemEntry :=
  match seen !! me_Key e with
  | Some existing => if HLC_After (me_Timestamp e) (me_Timestamp existing) then <[me_Key e := e]> seen else seen
  | None => <[me_Key e := e]> seen
  end.

Lemma merge_table_drain n : forall it es fuel seen,
  drain n it = Some es -> (n <= fuel)%nat -> merge_table fuel it seen = Some (inr (fold_left merge_add es seen)).
Proof.
  induction n as [|n IH]; intros it es fuel seen Hd Hf; [done|]. destruct fuel as [|fuel]; [lia|].
  cbn [drain merge_table] in *. destruct (Next it) as [[[err|[e|]] it']|]; cbn [mbind option_bind] in *; [done| |by injection Hd as <-|done].
  destruct (drain n it') as [es'|] eqn:Hd'; [|done]. injection Hd as <-. cbn [fold_left]. apply IH; [done|lia].
Qed.

Lemma merge_add_mono es : forall seen k, is_Some (seen !! k) \/ k ∈ me_Key <$> es -> is_Some (fold_left merge_add es seen !! k).
Proof.
  induction es as [|e es IH]; intros seen k Hk; [by destruct Hk as [?| ?%elem_of_nil]|]. cbn [fold_left]. apply IH.
  assert (Hadd : forall k, is_Some (seen !! k) \/ k = me_Key e -> is_Some (merge_add seen e !! k)).
  { clear. intros k Hk. unfold merge_add. destruct (decide (k = me_Key e)) as [->|Hne].
    - destruct (seen !! me_Key e) eqn:Hs; [destruct (HLC_After _ _)|]; rewrite ?lookup_insert_eq ?Hs; eauto.
    - destruct Hk as [Hk| ->]; [|done]. destruct (seen !! me_Key e); [destruct (HLC_After _ _)|]; rewrite ?lookup_insert_ne //. }
  rewrite fmap_cons elem_of_cons in Hk. destruct Hk as [Hk|[->|Hk]]; [left; apply Hadd; by left|left; apply Hadd; by right|by right].
Qed.

(** Merging tables that can be read never fails and keeps their keys. *)
Lemma merge_sources sst used source : Forall (source_ok sst used) source -> forall seen,
  exists its seen', open_iterators sst source = Some its /\ merge_loop its seen = Some (inr seen') /\
    (forall k, is_Some (seen !! k) -> is_Some (seen' !! k)) /\ (source <> [] -> seen' <> ∅).
Proof.
  induction 1 as [|t source [[m (file & es & Hfile & [(r & Hopen & Hdrain & Hlen) _ _] & Hl & Hk & Hne)] _] Hsource IH]; intros seen.
  { by exists [], seen. }
  destruct (IH (fold_left merge_add (map stored es) seen)) as (its & seen' & Hits & Hmerge & Hkeep & _).
  exists (Reader_Iterator r :: its), seen'. cbn [open_iterators merge_loop]. rewrite Hfile Hopen. cbn [mbind option_bind]. rewrite Hits.
  rewrite (merge_table_drain (S (length es)) _ (map stored es)) //; [|unfold iter_fuel; cbn [Reader_Iterator it_reader]; lia].
  split_and!; [done..|intros k Hs; apply Hkeep, merge_add_mono; by left|]. intros _ Hemp.
  destruct es as [|e es]; [by eapply lists_nonempty|].
  assert (is_Some (seen' !! me_Key e)) as [x Hx]; [|by rewrite Hemp lookup_empty in Hx].
  apply Hkeep, merge_add_mono. right. cbn [map]. rewrite fmap_cons stored_key. left.
Qed.

Lemma sort_entries_nonempty (seen : gmap string MemEntry) : seen <> ∅ -> sort_entries (map_to_list seen).*2 <> [].
Proof.
  intros Hne Hs. apply Hne. assert (sort_entries (map_to_list seen).*2 ≡ₚ (map_to_list seen).*2) as Hp by apply merge_sort_Permutation.
  rewrite Hs in Hp. apply Permutation_nil, fmap_nil_inv, map_to_list_empty_iff in Hp. done.
Qed.

(** ** Runs *)

(** Entries below 1 GB with a non-empty key, clocks the timestamps can hold,
    no compaction that ends. *)
Definition engine_op_ok (o : engine_op) : Prop :=
  match o with
  | EPutLog ptMs key value _ =>
      phys_ok ptMs /\ key <> EmptyString /\ zlen (bytes_of_string key) + zlen value + 17 <= 1073741824
  | EFlushDone nanos => 0 <= nanos < two63
  | EGet key _ => key <> EmptyString
  | ECompactDone _ => False
  | EPutApply _ _ | EFlushTake | ECompactTake => True
  end.

Definition flush_time (o : engine_op) : option Z := match o with EFlushDone nanos => Some nanos | _ => None end.

(** The puts that reach the memtable, in that order. *)
Definition applied_put (o : engine_op) (s : EState) : list EPut :=
  match o with EPutApply i _ => option_list (st_inflight s !! i) | _ => [] end.

Fixpoint applied_puts (bits : Z -> Z) (hashes : Z -> Z -> Z) (ops : list engine_op) (s : EState) : list EPut :=
  match ops with
  | [] => []
  | o :: ops =>
      applied_put o s ++ match engine_step bits hashes o s with Some s => applied_puts bits hashes ops s | None => [] end
  end.

Section runs.
  Context (bits : Z -> Z) (hashes : Z -> Z -> Z) (Hbits : forall k, 0 < k < 2 ^ 31 -> 0 < bits k <= 2 ^ 60).

Lemma engine_step_inv n used s mm ims tabs model o :
  eng_inv n used s mm ims tabs model -> engine_op_ok o -> n < 2 ^ 31 -> (forall k, flush_time o = Some k -> k ∉ used) ->
  exists s' mm' ims' tabs', engine_step bits hashes o s = Some s' /\
    eng_inv (n + 1) (option_list (flush_time o) ++ used) s' mm' ims' tabs' (fold_left apply_put (applied_put o s) model).
Proof.
  intros Hinv Ho Hn Hfresh. destruct o as [ptMs key value deleted|i draws| |nanos|key ts| |nanos]; cbn [applied_put flush_time option_list app fold_left]; try done.
  - destruct Ho as (Hp & Hk & Hl). destruct (put_log_inv bits hashes _ _ _ _ _ _ _ _ _ _ deleted Hinv Hp Hk Hl) as (s' & Hs & Hi).
    exists s', mm, ims, tabs. split; [done|]. by apply eng_inv_mono.
  - destruct (st_inflight s !! i) as [p|] eqn:Hp.
    + destruct (put_apply_inv bits hashes _ _ _ _ _ _ _ i draws p Hinv Hp) as (s' & mm' & ims' & Hs & Hi). by exists s', mm', ims', tabs.
    + exists s, mm, ims, tabs. cbn [engine_step]. rewrite Hp. split; [done|]. by apply eng_inv_mono.
  - destruct (flush_take_inv bits hashes _ _ _ _ _ _ _ Hinv) as (s' & Hs & Hi). exists s', mm, ims, tabs. split; [done|]. by apply eng_inv_mono.
  - destruct (flush_done_inv bits hashes _ _ _ _ _ _ _ nanos Hbits Hn Ho (Hfresh nanos eq_refl) Hinv) as (s' & ims' & tabs' & Hs & Hi).
    exists s', mm, ims', tabs'. split; [done|]. by apply eng_inv_mono.
  - destruct (get_total Hinv key ts Ho) as (r & Hr). cbn [engine_step]. rewrite Hr. eexists _, mm, ims, tabs. split; [reflexivity|].
    apply eng_inv_mono. destruct Hinv. by constructor.
  - destruct (compact_take_inv bits hashes _ _ _ _ _ _ _ Hinv) as (s' & Hs & Hi). exists s', mm, ims, tabs. split; [done|]. by apply eng_inv_mono.
Qed.

Lemma engine_run_inv ops : forall n used s mm ims tabs model,
  eng_inv n used s mm ims tabs model -> Forall engine_op_ok ops -> n + zlen ops < 2 ^ 31 ->
  NoDup (omap flush_time ops ++ used) ->
  exists s' used' mm' ims' tabs', engine_run bits hashes ops s = Some s' /\ used' ≡ₚ omap flush_time ops ++ used /\
    eng_inv (n + zlen ops) used' s' mm' ims' tabs' (fold_left apply_put (applied_puts bits hashes ops s) model).
Proof.
  induction ops as [|o ops IH]; intros n used s mm ims tabs model Hinv Hops Hn Hnd.
  { exists s, used, mm, ims, tabs. by rewrite zlen_nil Z.add_0_r. }
  apply Forall_cons in Hops as [Ho Hops]. rewrite zlen_cons in Hn |- *. pose proof (zlen_nonneg ops).
  assert (Hperm : omap flush_time (o :: ops) ++ used ≡ₚ omap flush_time ops ++ option_list (flush_time o) ++ used).
  { cbn [omap list_omap]. destruct (flush_time o); [|done]. simpl. by rewrite Permutation_middle. }
  rewrite Hperm in Hnd. destruct (engine_step_inv _ _ _ _ _ _ _ o Hinv Ho) as (s1 & mm1 & ims1 & tabs1 & Hs1 & H1); [lia| |].
  { intros k Hk. rewrite Hk in Hnd. apply NoDup_app in Hnd as (_ & _ & Hnd). cbn [option_list app] in Hnd. by apply NoDup_cons in Hnd as [? _]. }
  destruct (IH _ _ _ _ _ _ _ H1 Hops) as (s2 & used2 & mm2 & ims2 & tabs2 & Hs2 & Hu2 & H2); [lia|done|].
  exists s2, used2, mm2, ims2, tabs2. cbn [applied_puts]. rewrite Hs1 fold_left_app. unfold engine_run in *. cbn [for_each]. rewrite Hs1.
  split_and!; [done|by rewrite Hperm|]. by replace (n + (zlen ops + 1)) with (n + 1 + zlen ops) by lia.
Qed.

End runs.

(** An engine opened in an empty directory. *)
Lemma engine_open_inv max config hlc draws e fs :
  64 <= max <= MaxRecordSize -> hlc_wf hlc -> Engine_Open max config hlc draws emptyFS ∅ = Some (inr e, fs) ->
  eng_inv 0 [] (engine_start e fs ∅) ∅ [] [] ∅.
Proof.
  intros Hmax Hwf. unfold Engine_Open. destruct (Open_sized max hlc emptyFS) as [[err|w] fs1] eqn:Hopen; [done|].
  destruct (open_inv max hlc w fs1 Hmax Hwf Hopen) as [Hws _]. change (loadSSTables ∅) with (Some (replicate 7 (@nil TableRef))).
  cbn [mbind option_bind]. unfold replayWAL.
  pose proof (read_spec 0 (ws_start w fs1) [] _ 1 Hws) as Hread. cbn [ws_start ws_wal ws_fs ws_written List.filter] in Hread.
  change (en_wal (engine_of config w (replicate 7 []))) with w. rewrite Hread; [|lia..].
  cbn -[replicate emptyFS]. intros [= <- <-]. destruct Hws. constructor; cbn -[union_layers replicate]; try done.
  - apply NewSkipList_repr.
  - constructor; [|constructor]. split; [apply map_Forall_empty|]. by rewrite map_size_empty.
  - apply NoDup_singleton.
  - constructor; [simpl; lia|constructor].
  - exists []. split_and!; [done|constructor..].
Qed.

(** ** Range scans *)

#[global] Instance key_le_total : Total key_le.
Proof. intros a b. apply str_le_total. Qed.

#[global] Instance key_le_trans : Transitive key_le.
Proof. intros a b c. apply str_le_trans. Qed.

Lemma sort_entries_strict l :
  NoDup (me_Key <$> l) -> StronglySorted str_lt (me_Key <$> sort_entries l).
Proof.
  intros Hnd. assert (NoDup (me_Key <$> sort_entries l)) as Hnd' by (unfold sort_entries; by rewrite merge_sort_Permutation).
  pose proof (StronglySorted_merge_sort key_le l) as Hs. fold (sort_entries l) in Hs. induction Hs as [|e es Hs IH He]; [constructor|].
  rewrite fmap_cons in Hnd' |- *. apply NoDup_cons in Hnd' as [Hin Hnd']. constructor; [by apply IH|].
  apply Forall_forall. intros k (x & -> & Hx)%list_elem_of_fmap. rewrite Forall_forall in He. specialize (He x Hx).
  apply str_leb_le in He as [?|He]; [done|]. exfalso. apply Hin. rewrite He. by apply list_elem_of_fmap_2.
Qed.

Lemma results_NoDup (results : gmap string MemEntry) (f : MemEntry -> bool) :
  keyed results -> NoDup (me_Key <$> List.filter f (map_to_list results).*2).
Proof.
  intros Hk. assert (me_Key <$> (map_to_list results).*2 = (map_to_list results).*1) as Heq.
  { rewrite -list_fmap_compose. apply list_fmap_ext. intros i [k e] Hi. apply list_elem_of_lookup_2, elem_of_map_to_list in Hi.
    apply (Hk _ _ Hi). }
  pose proof (NoDup_fst_map_to_list results) as Hnd. rewrite -Heq in Hnd. revert Hnd. generalize ((map_to_list results).*2).
  induction l as [|e l IH]; [done|]. rewrite fmap_cons. intros [He Hnd]%NoDup_cons. cbn [List.filter]. destruct (f e); [|by apply IH].
  rewrite fmap_cons. apply NoDup_cons. split; [|by apply IH]. intros (x & Hxe & [Hx _]%list_elem_of_In%filter_In)%list_elem_of_fmap.
  apply He. rewrite Hxe. apply list_elem_of_fmap_2. by apply list_elem_of_In.
Qed.

Lemma sorted_results (results : gmap string MemEntry) :
  keyed results ->
  let l := sort_entries (List.filter (fun entry => negb (me_Deleted entry)) (map_to_list results).*2) in
  StronglySorted str_lt (me_Key <$> l) /\
  forall k v, (k, v) ∈ ((fun e => (me_Key e, me_Value e)) <$> l) <-> results !! k ≫= entry_result = Some v.
Proof.
  intros Hk l. split; [by apply sort_entries_strict, results_NoDup|]. intros k v. unfold l, sort_entries.
  rewrite merge_sort_Permutation list_elem_of_fmap. split.
  - intros (e & [= -> ->] & [He Hd]%list_elem_of_In%filter_In). apply list_elem_of_In, list_elem_of_fmap in He as ([k e'] & -> & He).
    apply elem_of_map_to_list in He. pose proof (Hk _ _ He) as Hke. simpl in Hke, Hd |- *. rewrite Hke He. cbn [mbind option_bind].
    unfold entry_result. by destruct (me_Deleted e').
  - intros (e & He & Hv)%bind_Some. pose proof (Hk _ _ He) as Hke. simpl in Hke. unfold entry_result in Hv.
    destruct (me_Deleted e) eqn:Hd; [done|]. injection Hv as <-. exists e. split; [by rewrite Hke|].
    apply list_elem_of_In, filter_In. rewrite Hd. split; [|done]. apply list_elem_of_In, list_elem_of_fmap.
    exists (k, e). split; [done|]. by apply elem_of_map_to_list.
Qed.

Lemma union_keyed layers : Forall keyed layers -> keyed (union_layers layers).
Proof.
  induction 1 as [|m layers Hm Hl IH]; [apply map_Forall_empty|]. cbn [union_layers foldr]. intros k e [He|[_ He]]%lookup_union_Some_raw.
  - by apply (Hm _ _ He).
  - by apply (IH _ _ He).
Qed.

Lemma stored_result e : entry_result (stored e) = entry_result e.
Proof. done. Qed.

Lemma krange_stops a b e : krange a b (me_Key e) = true <-> (a <=?s me_Key e) = true /\ stops b e = false.
Proof.
  unfold krange, stops. rewrite andb_true_iff str_ltb_leb. destruct (b =?s EmptyString); simpl; [by split; intros [? _]|]. by rewrite negb_true_iff.
Qed.

(** A scan merges the tables with the memtable. *)
Lemma scan_spec n used s mm ims tabs model a b :
  eng_inv n used s mm ims tabs model -> b <> EmptyString ->
  exists l, Engine_Scan a b (st_sst s) (st_engine s) = Some l /\ StronglySorted str_lt (me_Key <$> l) /\
    forall k v, (k, v) ∈ ((fun e => (me_Key e, me_Value e)) <$> l) <->
      krange a b k = true /\ (union_layers (mm :: rev tabs) !! k) ≫= entry_result = Some v.
Proof.
  intros [] Hb. destruct ev_levels0 as (tables & Hlev & Htabs & _). unfold Engine_Scan. rewrite Hlev.
  assert (concat (rev (tables :: replicate 6 [])) = tables) as -> by (simpl; by rewrite app_nil_r).
  destruct (scan_tables_spec (st_sst s) a b Hb tables tabs Htabs ∅) as (res & Hres & Hlook). rewrite Hres. cbn [mbind option_bind].
  destruct (Scan_spec a b _ _ ev_mem0) as (entries & Hscan & Hsorted & Hin). rewrite Hscan. cbn [mbind option_bind].
  rewrite fold_insert_by_key; [|by apply sorted_NoDup]. apply Forall_cons in ev_maps0 as [Hmm _]. apply map_ok_keyed in Hmm.
  assert (Hkt : keyed (union_layers (rev tabs))).
  { apply union_keyed, List.Forall_rev, Forall_forall. intros m Hm. apply list_elem_of_lookup in Hm as [j Hj].
    destruct (Forall2_lookup_r _ _ _ _ _ Htabs Hj) as (t & _ & (f & es & _ & _ & _ & ? & _)). done. }
  set (R := by_key entries ∪ res).
  assert (HR : forall k, R !! k ≫= entry_result = if krange a b k then union_layers (mm :: rev tabs) !! k ≫= entry_result else None).
  { intros k. unfold R. cbn [union_layers foldr]. fold (union_layers (rev tabs)). rewrite !lookup_union Hlook lookup_empty.
    destruct (by_key entries !! k) as [e|] eqn:He.
    - apply by_key_Some in He as [(Hm & Hst)%Hin <-]; [|by apply sorted_NoDup]. apply krange_stops in Hst. by rewrite Hst Hm !union_Some_l.
    - rewrite left_id_L. destruct (krange a b k) eqn:Hr; [|done].
      destruct (mm !! k) as [e|] eqn:Hm; [|rewrite left_id_L; by destruct (union_layers (rev tabs) !! k)].
      exfalso. pose proof (Hmm _ _ Hm) as Hke. simpl in Hke. subst k.
      rewrite (proj2 (by_key_Some entries _ e (sorted_NoDup _ Hsorted))) // in He. split; [|done]. apply Hin.
      apply krange_stops in Hr. done. }
  assert (HkR : keyed R).
  { intros k e [He|[_ He]]%lookup_union_Some_raw; [by apply by_key_Some in He as [_ ?]; [|apply sorted_NoDup]|].
    rewrite Hlook lookup_empty in He. destruct (krange a b k); [|done]. destruct (_ !! k) as [x|] eqn:Hx; [|done].
    injection He as <-. by apply (Hkt _ _ Hx). }
  destruct (sorted_results R HkR) as [Hs Hel]. eexists. split; [reflexivity|]. split; [done|].
  intros k v. rewrite Hel HR. destruct (krange a b k); [|split; [done|by intros []]]. split; [done|by intros [_ ?]].
Qed.

(** ** What an engine serves *)

(** With no rotated memtable waiting, a scan with an upper bound returns the
    live keys of the range in order; with nothing flushed, a lookup returns
    the value of its key. *)
Definition serves_map (s : EState) (model : gmap string (option bytes)) : Prop :=
  (en_immutable (st_engine s) = [] -> forall a b, b <> EmptyString ->
     exists l, Engine_Scan a b (st_sst s) (st_engine s) = Some l /\ StronglySorted str_lt (me_Key <$> l) /\
       forall k v, (k, v) ∈ ((fun e => (me_Key e, me_Value e)) <$> l) <-> krange a b k = true /\ mjoin (model !! k) = Some v) /\
  (concat (en_levels (st_engine s)) = [] -> forall key, key <> EmptyString ->
     exists e', Engine_Get key (st_sst s) (st_engine s) = Some (inr (mjoin (model !! key)), e')).

Lemma eng_inv_serves n used s mm ims tabs model : eng_inv n used s mm ims tabs model -> st_stalls s = 0 -> serves_map s model.
Proof.
  intros Hinv Hst. pose proof (ev_model _ _ _ _ _ _ _ Hinv Hst) as Hmodel. split.
  - intros Himm a b Hb. assert (ims = []) as ->.
    { pose proof (ev_imm _ _ _ _ _ _ _ Hinv) as H2. rewrite Himm in H2. by apply Forall2_nil_inv_l in H2. }
    destruct (scan_spec _ _ _ _ _ _ _ a b Hinv Hb) as (l & Hl & Hs & Hin). exists l. split_and!; [done..|].
    intros k v. rewrite Hin Hmodel lookup_fmap. cbn [rev app]. by destruct (_ !! k).
  - intros Hlev key Hkey. assert (tabs = []) as ->.
    { destruct (ev_levels _ _ _ _ _ _ _ Hinv) as (tables & Hl & Ht & _). rewrite Hl in Hlev. cbn [concat replicate] in Hlev.
      apply app_eq_nil in Hlev as [-> _]. by apply Forall2_nil_inv_l in Ht. }
    destruct (get_spec Hinv key Hkey) as [e' He']. exists e'. unfold Engine_Get. rewrite He' Hmodel app_nil_r lookup_fmap.
    by destruct (_ !! key).
Qed.

(** ** The log of a run *)

(** The put that a step acknowledges in the log. *)
Definition logged_put (o : engine_op) (s : EState) : list EPut :=
  match o with
  | EPutLog ptMs key value deleted =>
      match put_log ptMs key value deleted (st_engine s) (st_fs s) with
      | (inr entry, _, _) => [mkEPut key value deleted entry]
      | _ => []
      end
  | _ => []
  end.

Fixpoint logged_puts (bits : Z -> Z) (hashes : Z -> Z -> Z) (ops : list engine_op) (s : EState) : list EPut :=
  match ops with
  | [] => []
  | o :: ops => logged_put o s ++ match engine_step bits hashes o s with Some s => logged_puts bits hashes ops s | None => [] end
  end.

(** A put and its log entry. *)
Definition logged_ok (p : EPut) : Prop :=
  went_Data (ep_entry p) = EncodeCommand (ep_key p) (ep_value p) (ep_deleted p) /\ zlen (bytes_of_string (ep_key p)) < two32 /\ zlen (ep_value p) < two32.

(** The log of the engine is a log of [Wal] with no writer waiting. *)
Definition log_inv (n : Z) (s : EState) (logged : list EPut) : Prop :=
  exists ws recs rs, ws_inv n ws recs rs /\ ws_wal ws = en_wal (st_engine s) /\ ws_fs ws = st_fs s /\
    w_pendingSync (ws_wal ws) = [] /\ ws_inflight ws = [] /\
    ws_written ws = ep_entry <$> logged /\ Forall logged_ok logged.

Lemma wal_Write_inv n ws recs rs ptMs data res w fs :
  ws_inv n ws recs rs -> w_pendingSync (ws_wal ws) = [] -> ws_inflight ws = [] ->
  wal_op_ok (OpWrite ptMs data) -> 0 <= n < two63 ->
  wal_Write ptMs data (ws_wal ws) (ws_fs ws) = (res, w, fs) ->
  exists ws' recs' rs', ws_inv (n + 1) ws' recs' rs' /\ ws_wal ws' = w /\ ws_fs ws' = fs /\
    w_pendingSync w = [] /\ ws_inflight ws' = [] /\
    ws_written ws' = ws_written ws ++ match res with inr entry => [entry] | inl _ => [] end /\
    forall entry, res = inr entry -> went_Data entry = data.
Proof.
  intros Hinv Hp Hi Ho Hn Hw. destruct (write_inv _ _ _ _ _ _ Hinv Ho Hn) as (recs' & rs' & Hinv' & _).
  unfold wal_Write in Hw. cbn [wal_step] in Hinv'. destruct (Write_begin _ _ _ _) as [[[err|entry] w1] fs1] eqn:Hb.
  - injection Hw as <- <- <-. eexists _, recs', rs'. split; [exact Hinv'|]. cbn [ws_wal ws_fs ws_inflight ws_written].
    split_and!; try done; [|by rewrite app_nil_r]. by eapply Write_begin_failed.
  - destruct (Write_begin_entry _ _ _ _ _ _ _ Hb) as [Hdata Hpend]. rewrite Hp in Hpend.
    destruct (flush_inv _ _ _ _ 0 (grab_inv _ _ _ _ Hinv')) as [Hf _]. cbn [wal_step flush_grab ws_wal ws_fs ws_inflight] in Hf, Hw.
    rewrite Hpend Hi in Hf. cbn [wal_step app ws_inflight ws_wal ws_fs ws_written ws_acked lookup list_lookup] in Hf.
    destruct (flush_sync _ _) as [[err w2] fs2] eqn:Hs. injection Hw as <- <- <-.
    assert (w_pendingSync w2 = []) as Hp2 by (unfold flush_sync in Hs; destruct (Segment_Sync _ _) as [[? ?] ?]; by injection Hs as _ <- _).
    assert (err = None) as ->.
    { pose proof (grab_inv _ _ _ _ Hinv') as [Hst _ _ _ _ _ _ _ _ _ _]. unfold flush_sync in Hs. cbn in Hst, Hs.
      destruct (active_sync _ _ _ _ _ _ Hst) as (g' & fs' & i' & Hsync & _). rewrite Hsync in Hs. by injection Hs as <- _ _. }
    eexists _, recs', rs'. split; [exact Hf|]. cbn [ws_wal ws_fs ws_inflight ws_written delete list_delete]. split_and!; try done.
    by intros ? [= <-].
Qed.

Lemma engine_step_wal bits hashes o s s' :
  (forall ptMs key value deleted, o <> EPutLog ptMs key value deleted) -> engine_step bits hashes o s = Some s' ->
  en_wal (st_engine s') = en_wal (st_engine s) /\ st_fs s' = st_fs s.
Proof.
  intros Ho Hs. destruct o as [ptMs key value deleted| | | | | |]; [by edestruct Ho| | | | | |]; cbn [engine_step] in Hs.
  - destruct (_ !! i) as [p|]; [|by simplify_eq]. unfold put_apply in Hs.
    destruct (if ep_deleted p then _ else _) as [mem|]; [|done]. cbn in Hs.
    destruct (_ <=? Size mem); by simplify_eq/=.
  - destruct (st_worker s); [by simplify_eq|]. unfold flush_take in Hs. by destruct (en_flushCh _); simplify_eq/=.
  - destruct (st_worker s) as [t|]; [|by simplify_eq]. unfold flushMemTable in Hs.
    destruct (All _) as [[|x l]|]; cbn [mbind option_bind] in Hs; [by simplify_eq| |done].
    destruct (add_entries _ _) as [wr|]; [|done]. cbn [mbind option_bind] in Hs. destruct (Finish wr).
    destruct (_ !! 0%nat); [|done]. by simplify_eq/=.
  - unfold getAtTimestamp in Hs. destruct (en_closed _); [by simplify_eq/=|].
    destruct (mems_lookup _ _ _) as [[?|]|]; cbn [mbind option_bind] in Hs; [by simplify_eq/=| |done].
    destruct (readFromLevels _ _ _ _); [|done]. by simplify_eq/=.
  - destruct (st_compactor s); [by simplify_eq|]. unfold compact_take in Hs. by destruct (en_compactCh _); simplify_eq/=.
  - destruct (st_compactor s) as [[level source]|]; [|by simplify_eq]. unfold compact_tables in Hs.
    destruct (open_iterators _ _); cbn [mbind option_bind] in Hs; [|done].
    destruct (kWayMerge _) as [[?|?]|]; cbn [mbind option_bind] in Hs; [by simplify_eq/=| |done].
    destruct (add_entries _ _) as [wr|]; [|done]. cbn [mbind option_bind] in Hs. destruct (Finish wr).
    destruct (_ !! S level); [|done]. by simplify_eq/=.
Qed.

(** The size of a command. *)
Lemma zlen_EncodeCommand key value deleted : zlen (EncodeCommand key value deleted) = zlen (bytes_of_string key) + zlen value + 17.
Proof. unfold EncodeCommand, Command_Encode. autorewrite with zlen. cbn [cmd_Key cmd_Value]. lia. Qed.

Section log.
  Context (bits : Z -> Z) (hashes : Z -> Z -> Z).

Lemma log_step_inv n s logged o s' :
  log_inv n s logged -> engine_op_ok o -> 0 <= n < two63 -> engine_step bits hashes o s = Some s' ->
  log_inv (n + 1) s' (logged ++ logged_put o s).
Proof.
  intros (ws & recs & rs & Hinv & Hw & Hf & Hp & Hi & Hwr & Hok) Ho Hn Hs.
  assert ((exists ptMs key value deleted, o = EPutLog ptMs key value deleted) \/
          (forall ptMs key value deleted, o <> EPutLog ptMs key value deleted)) as [(ptMs & key & value & deleted & ->)|Hne].
  { destruct o; eauto 6; by right. }
  - destruct Ho as (Hpt & Hk & Hlen). cbn [engine_step logged_put] in *. unfold put_log in *.
    destruct (en_closed _).
    { injection Hs as <-. exists ws, recs, rs. rewrite app_nil_r. split_and!; try done. by apply (ws_inv_mono n); [lia|]. }
    rewrite -Hw -Hf in Hs |- *. destruct (wal_Write _ _ _ _) as [[res w] fs] eqn:Hwrite.
    assert (Hwo : wal_op_ok (OpWrite ptMs (EncodeCommand key value deleted))).
    { split; [done|]. rewrite zlen_EncodeCommand. lia. }
    destruct (wal_Write_inv _ _ _ _ _ _ _ _ _ Hinv Hp Hi Hwo Hn Hwrite)
      as (ws' & recs' & rs' & Hinv' & Hw' & Hf' & Hp' & Hi' & Hwr' & Hdata).
    exists ws', recs', rs'. destruct res as [err|entry]; injection Hs as <-; cbn [st_engine st_fs set_wal en_wal].
    + rewrite !app_nil_r in Hwr' |- *. by rewrite Hw' Hwr'.
    + rewrite Hw' Hwr' fmap_app Hwr. split_and!; try done. apply Forall_app. split; [done|]. constructor; [|constructor].
      split; [by apply Hdata|]. cbn [ep_key ep_value]. pose proof (zlen_nonneg value). pose proof (zlen_nonneg (bytes_of_string key)).
      lia.
  - destruct (engine_step_wal _ _ _ _ _ Hne Hs) as [Hw' Hf']. assert (logged_put o s = []) as -> by (destruct o; [by edestruct Hne|done..]).
    rewrite app_nil_r. exists ws, recs, rs. rewrite Hw' Hf'. split_and!; try done. by apply (ws_inv_mono n); [lia|].
Qed.

Lemma log_run_inv ops : forall n s logged s',
  log_inv n s logged -> Forall engine_op_ok ops -> 0 <= n -> n + zlen ops < two63 -> engine_run bits hashes ops s = Some s' ->
  log_inv (n + zlen ops) s' (logged ++ logged_puts bits hashes ops s).
Proof.
  induction ops as [|o ops IH]; intros n s logged s' Hinv Hops Hn Hlen Hrun.
  { injection Hrun as <-. by rewrite zlen_nil Z.add_0_r app_nil_r. }
  apply Forall_cons in Hops as [Ho Hops]. rewrite zlen_cons in Hlen |- *. pose proof (zlen_nonneg ops).
  unfold engine_run in Hrun. cbn [for_each] in Hrun. cbn [logged_puts].
  destruct (engine_step bits hashes o s) as [s1|] eqn:Hs; [|done].
  replace (n + (zlen ops + 1)) with (n + 1 + zlen ops) by lia. rewrite app_assoc. apply IH; [|done|lia|lia|done].
  eapply log_step_inv; [done..|lia|done].
Qed.

End log.

(** Replaying entries into a memtable. *)
Lemma replay_puts draws puts : Forall logged_ok puts -> forall k mem seq m model,
  sl_repr mem m -> entry_result <$> m = model ->
  exists mem' seq' m', for_each (replay_one draws) (imap (fun i e => (k + i, e)%nat) (ep_entry <$> puts)) (mem, seq) = Some (mem', seq') /\
    sl_repr mem' m' /\ entry_result <$> m' = fold_left apply_put puts model.
Proof.
  induction 1 as [|p puts [Hd [Hk Hv]] Hputs IH]; intros k mem seq m model Hm Hmodel; [by exists mem, seq, m|].
  rewrite fmap_cons imap_cons. cbn [for_each fold_left]. rewrite Nat.add_0_r.
  destruct (mem_put_spec (draws k) p mem m Hm) as (mem1 & Hput & Hm1).
  assert (replay_one draws (k, ep_entry p) (mem, seq) =
    Some (mem1, if seq <? went_Sequence (ep_entry p) then went_Sequence (ep_entry p) else seq)) as Hone.
  { unfold replay_one. rewrite Hd (proj1 (command_roundtrip _ _ _ Hk Hv)) Hput. done. }
  rewrite Hone. cbn [mbind option_bind].
  destruct (IH (S k) mem1 (if seq <? went_Sequence (ep_entry p) then went_Sequence (ep_entry p) else seq) _
    (apply_put model p) Hm1) as (mem' & seq' & m' & Hrun & Hm' & Hmodel').
  { unfold apply_put. by rewrite fmap_insert put_entry_result Hmodel. }
  exists mem', seq', m'. split_and!; [|done..]. rewrite -Hrun. f_equal. apply imap_ext. intros i x _. simpl. f_equal. lia.
Qed.

Lemma engine_open_log max config hlc draws e fs :
  64 <= max <= MaxRecordSize -> hlc_wf hlc -> Engine_Open max config hlc draws emptyFS ∅ = Some (inr e, fs) ->
  log_inv 0 (engine_start e fs ∅) [].
Proof.
  intros Hmax Hwf. unfold Engine_Open. destruct (Open_sized max hlc emptyFS) as [[err|w] fs1] eqn:Hopen; [done|].
  destruct (open_inv max hlc w fs1 Hmax Hwf Hopen) as [Hws _]. change (loadSSTables ∅) with (Some (replicate 7 (@nil TableRef))).
  cbn [mbind option_bind]. unfold replayWAL.
  pose proof (read_spec 0 (ws_start w fs1) [] _ 1 Hws) as Hread. cbn [ws_start ws_wal ws_fs ws_written List.filter] in Hread.
  change (en_wal (engine_of config w (replicate 7 []))) with w. rewrite Hread; [|lia..]. cbn -[replicate emptyFS]. intros [= <- <-].
  exists (ws_start w fs1), [], [headerRecord 1]. split_and!; try done.
  destruct Hws as [_ _ Hp _ _ _ _ _ _ _ _]. cbn [ws_start ws_wal ws_written] in Hp |- *.
  destruct (w_pendingSync w) as [|x l]; [done|]. exfalso. eapply not_elem_of_nil, Hp. left.
Qed.

(** ** Properties *)



(** A compaction that starts never ends: the table writer is created for
    no keys, its Bloom filter has no bits, and adding the first merged entry
    indexes an empty slice.  The engine survives until then. *)
Theorem engine_compaction_panics (bits : Z -> Z) (hashes : Z -> Z -> Z) (max : Z) (config : EngineConfig) (hlc : HLC)
  (draws : nat -> list bool) (e : Engine) (fs : FS) (ops : list engine_op) (nanos : Z)
  (Hbits : forall k, 0 < k < 2 ^ 31 -> 0 < bits k <= 2 ^ 60) (Hbits0 : bits 0 = 0)
  (Hmax : 64 <= max <= MaxRecordSize) (Hwf : hlc_wf hlc)
  (Hopen : Engine_Open max config hlc draws emptyFS ∅ = Some (inr e, fs))
  (Hops : Forall engine_op_ok ops) (Hnd : NoDup (omap flush_time ops)) (Hlen : zlen ops < 2 ^ 31) :
  exists s, engine_run bits hashes ops (engine_start e fs ∅) = Some s /\
    (is_Some (st_compactor s) -> engine_step bits hashes (ECompactDone nanos) s = None).
Proof.
  destruct (engine_run_inv bits hashes Hbits ops 0 [] _ _ _ _ _ (engine_open_inv _ _ _ _ _ _ Hmax Hwf Hopen) Hops)
    as (s & used & mm & ims & tabs & Hrun & _ & Hinv); [lia|by rewrite app_nil_r|].
  exists s. split; [done|]. intros [[level source] Hc]. destruct (ev_compactor _ _ _ _ _ _ _ Hinv _ _ Hc) as (-> & Hne & Hsrc).
  cbn [engine_step]. rewrite Hc. unfold compact_tables.
  destruct (merge_sources _ _ _ Hsrc ∅) as (its & seen & Hits & Hmerge & _ & Hseen). rewrite Hits. cbn [mbind option_bind].
  unfold kWayMerge. rewrite Hmerge. cbn [mbind option_bind].
  destruct (ev_levels _ _ _ _ _ _ _ Hinv) as (tables & -> & _). cbn [length replicate Nat.sub Nat.eqb].
  assert (forall l, List.filter (fun entry => negb (me_Deleted entry && false)) l = l) as ->.
  { intros l. apply bfilter_all. intros x _. by rewrite andb_false_r. }
  pose proof (sort_entries_nonempty _ (Hseen Hne)) as Hs. destruct (sort_entries _) as [|x l]; [done|].
  unfold add_entries. cbn [for_each]. by rewrite writer_for_no_keys_panics.
Qed.

(** ** Concrete runs *)

Definition demo_engine (memTableSize : Z) : Engine * FS :=
  match Engine_Open 1000 (mkEngineConfig memTableSize 1 2) (NewHLC "n1") (fun _ => []) emptyFS ∅ with
  | Some (inr e, fs) => (e, fs)
  | _ => (engine_of DefaultEngineConfig (demo_open 1000).1 [], (demo_open 1000).2)
  end.

Definition demo_state (memTableSize : Z) : EState := engine_start (demo_engine memTableSize).1 (demo_engine memTableSize).2 ∅.

(** A filter of eight bits for each key and two hashes. *)
Definition demo_bits (n : Z) : Z := 8 * n.
Definition demo_hashes (n m : Z) : Z := 2.

Definition put_ops (ptMs : Z) (key : string) (value : string) (deleted : bool) : list engine_op :=
  [EPutLog ptMs key (bytes_of_string value) deleted; EPutApply 0 [true]].

Definition flush_ops (nanos : Z) : list engine_op := [EFlushTake; EFlushDone nanos].

(** Two puts, the flush of the first memtable, the start of a compaction. *)
Definition demo_engine_ops : list engine_op :=
  put_ops 1000 "a" "one" false ++ put_ops 1000 "b" "two" false ++ flush_ops 5 ++ [ECompactTake].

Lemma demo_bits_ok k : 0 < k < 2 ^ 31 -> 0 < demo_bits k <= 2 ^ 60.
Proof. unfold demo_bits. lia. Qed.

Lemma demo_ops_ok : Forall engine_op_ok demo_engine_ops.
Proof. unfold demo_engine_ops, put_ops, flush_ops. repeat constructor; try done; vm_compute; congruence. Qed.


Definition run_result (memTableSize : Z) (ops : list engine_op) : EState :=
  match engine_run demo_bits demo_hashes ops (demo_state memTableSize) with Some s => s | None => demo_state memTableSize end.


Lemma engine_compaction_panics_witness :
  exists s, engine_run demo_bits demo_hashes demo_engine_ops (demo_state 10) = Some s /\
    (is_Some (st_compactor s) -> engine_step demo_bits demo_hashes (ECompactDone 9) s = None).
Proof.
  apply (engine_compaction_panics demo_bits demo_hashes 1000 (mkEngineConfig 10 1 2) (NewHLC "n1") (fun _ => [])
    (demo_engine 10).1 (demo_engine 10).2 demo_engine_ops 9 demo_bits_ok).
  - vm_compute. reflexivity.
  - vm_compute. split; congruence.
  - vm_compute. repeat split; congruence.
  - vm_compute. reflexivity.
  - apply demo_ops_ok.
  - vm_compute. repeat constructor; set_solver.
  - vm_compute. reflexivity.
Defined.

(** The run above leaves a compaction in progress. *)
Theorem demo_compactor : is_Some (st_compactor (run_result 10 demo_engine_ops)).
Proof. vm_compute. eauto. Qed.

Definition get_value (key : string) (s : EState) : option (EngineError + option bytes) :=
  fst <$> Engine_Get key (st_sst s) (st_engine s).

Definition scan_values (startKey endKey : string) (s : EState) : option (list (string * bytes)) :=
  map (fun e => (me_Key e, me_Value e)) <$> Engine_Scan startKey endKey (st_sst s) (st_engine s).

(** A key that was flushed to a table is found by a scan with an upper bound,
    not by a lookup, and not by a scan without one. *)
Theorem engine_flushed_key_lost :
  let s := run_result 10 (put_ops 1000 "a" "one" false ++ flush_ops 5) in
  get_value "a" s = Some (inr None) /\ scan_values "a" "z" s = Some [("a", bytes_of_string "one")] /\
  scan_values "a" EmptyString s = Some [].
Proof. vm_compute. done. Qed.

(** A rotated memtable is not scanned until its flush is done. *)
Theorem engine_scan_skips_rotated :
  let s := run_result 10 (put_ops 1000 "a" "one" false) in
  get_value "a" s = Some (inr (Some (bytes_of_string "one"))) /\ scan_values "a" "z" s = Some [].
Proof. vm_compute. done. Qed.

(** The fifth put of a burst finds the flush channel full; its memtable is
    never flushed and hides a later value of the key. *)
Theorem engine_full_channel_stale :
  let burst := put_ops 1000 "k" "1" false ++ put_ops 1000 "k" "2" false ++ put_ops 1000 "k" "3" false ++
    put_ops 1000 "k" "4" false ++ put_ops 1000 "x" "old" false ++ flush_ops 5 ++ put_ops 1000 "x" "new" false ++
    flush_ops 6 ++ flush_ops 7 ++ flush_ops 8 ++ flush_ops 9 in
  let s := run_result 1 burst in
  st_stalls s = 1 /\ en_flushCh (st_engine s) = [] /\ get_value "x" s = Some (inr (Some (bytes_of_string "old"))) /\
  scan_values "x" "z" s = Some [("x", bytes_of_string "new")].
Proof. vm_compute. done. Qed.

(** Two concurrent puts of a key may reach the memtable in the other order
    than the log. *)
Theorem engine_log_order_differs :
  let ops := [EPutLog 1000 "x" (bytes_of_string "one") false; EPutLog 1000 "x" (bytes_of_string "two") false;
              EPutApply 1 [true]; EPutApply 0 [true]] in
  get_value "x" (run_result 1000 ops) = Some (inr (Some (bytes_of_string "one"))) /\
  fold_left apply_put (logged_puts demo_bits demo_hashes ops (demo_state 1000)) ∅ !! "x" = Some (Some (bytes_of_string "two")).
Proof. vm_compute. done. Qed.

(** The engine opened again on the files of a log that acknowledged a put. *)
Theorem engine_restart_forgets :
  let s := run_result 1000 (put_ops 1000 "a" "one" false) in
  get_value "a" s = Some (inr (Some (bytes_of_string "one"))) /\
  (r ← Engine_Open 1000 (mkEngineConfig 1000 1 2) (NewHLC "n1") (fun _ => []) (crash (fun _ => 1000%nat) (st_fs s)) (st_sst s);
   match r with (inr e, fs) => get_value "a" (engine_start e fs (st_sst s)) | _ => None end) = Some (inr None).
Proof. vm_compute. done. Qed.
