(* ===== verification/StateMachine.v ===== *)
(** * StateMachine: applying the Raft log to the storage engine
    (hermesStateMachine in pkg/server/node.go)

    The state machine of a server decodes the commands of the committed
    entries and writes them to its engine.  A run interleaves the calls of the
    Raft node with the steps of the engine's workers and with reads, also
    between the two writes of one call. *)

From S2P Require Import Prelude Bytes Hlc RaftLog Raft RaftSpec RaftNode RaftSystem Command WalRecord Wal Skiplist SSTable Engine EngineSpec.

Inductive ApplyError :=
  | ErrInvalidCommand (index : Z) (err : CommandError)
  | ErrStorage (err : EngineError).

(** [Apply]: the error, the engine and the disk. *)
Definition Apply (ptMs : Z) (draws : list bool) (entry : LogEntry) (e : Engine) (fs : FS) : option (option ApplyError * Engine * FS) :=
  if bool_decide (le_Type entry = EntryNoop) || (zlen (le_Data entry) =? 0) then Some (None, e, fs)
  else
    match ValidateCommand (le_Data entry) with
    | Some err => Some (Some (ErrInvalidCommand (le_Index entry) err), e, fs)
    | None =>
        let '(key, value, deleted) := DecodeCommand (le_Data entry) in
        let put := if deleted : bool then Engine_Delete ptMs draws key e fs else Engine_Put ptMs draws key value e fs in
        match put with
        | Some (err, _, e, fs) => Some (ErrStorage <$> err, e, fs)
        | None => None
        end
    end.

Definition SM_Snapshot : bytes := bytes_of_string "snapshot-placeholder".

(** [Restore] only logs the size of what it is given. *)
Definition SM_Restore (data : bytes) (e : Engine) (fs : FS) : Engine * FS := (e, fs).

(** ** Runs of a server's store *)

(** What [Apply] writes for an entry that it does not skip or refuse. *)
Definition entry_write (entry : LogEntry) : option (string * option bytes) :=
  if bool_decide (le_Type entry = EntryNoop) || (zlen (le_Data entry) =? 0) then None
  else
    match ValidateCommand (le_Data entry) with
    | Some _ => None
    | None => let '(key, value, deleted) := DecodeCommand (le_Data entry) in Some (key, if deleted then None else Some value)
    end.

Section run.
  Context (bits : Z -> Z) (hashes : Z -> Z -> Z).

(** A call of the Raft node, with the steps of other goroutines between its
    write to the log and its write to the memtable, or a step of another
    goroutine. *)
Inductive sm_event :=
  | SmApply (entry : LogEntry) (ptMs : Z) (draws : list bool) (between : list engine_op)
  | SmRestore (data : bytes)
  | SmOther (o : engine_op).

Definition sm_step (ev : sm_event) (s : EState) : option (option ApplyError * EState) :=
  match ev with
  | SmOther o => s ← engine_step bits hashes o s; Some (None, s)
  | SmRestore data =>
      let '(e, fs) := SM_Restore data (st_engine s) (st_fs s) in
      Some (None, mkEState e fs (st_sst s) (st_inflight s) (st_worker s) (st_compactor s) (st_stalls s))
  | SmApply entry ptMs draws between =>
      if bool_decide (le_Type entry = EntryNoop) || (zlen (le_Data entry) =? 0) then Some (None, s)
      else
        match ValidateCommand (le_Data entry) with
        | Some err => Some (Some (ErrInvalidCommand (le_Index entry) err), s)
        | None =>
            let '(key, value, deleted) := DecodeCommand (le_Data entry) in
            let value := if deleted : bool then [] else value in
            s1 ← engine_step bits hashes (EPutLog ptMs key value deleted) s;
            match (put_log ptMs key value deleted (st_engine s) (st_fs s)).1.1 with
            | inl err => Some (Some (ErrStorage err), s1)
            | inr _ =>
                s2 ← engine_run bits hashes between s1;
                s3 ← engine_step bits hashes (EPutApply 0 draws) s2;
                Some (None, s3)
            end
        end
  end.

(** A call that nothing interrupts is [Apply]. *)
Lemma sm_step_Apply entry ptMs draws s : st_inflight s = [] ->
  (fun x => (x.1, st_engine x.2, st_fs x.2)) <$> sm_step (SmApply entry ptMs draws []) s =
  Apply ptMs draws entry (st_engine s) (st_fs s).
Proof.
  intros Hin. unfold sm_step, Apply. destruct (_ || _); [done|]. destruct (ValidateCommand _); [done|].
  destruct (DecodeCommand _) as [[key value] deleted]. cbn [engine_step].
  replace (if deleted then Engine_Delete ptMs draws key (st_engine s) (st_fs s) else Engine_Put ptMs draws key value (st_engine s) (st_fs s))
    with (putWithTimestamp ptMs draws key (if deleted then [] else value) deleted (st_engine s) (st_fs s)) by by destruct deleted.
  unfold putWithTimestamp. destruct (put_log _ _ _ _ _ _) as [[[err|entry'] e] fs]; [done|].
  cbn [mbind option_bind engine_run for_each]. cbn [engine_step st_inflight st_engine st_fs]. rewrite Hin. cbn [app lookup list_lookup ep_key ep_value ep_deleted ep_entry].
  by destruct (put_apply _ _ _ _ _ _) as [[stall e']|].
Qed.

Fixpoint sm_run (evs : list sm_event) (s : EState) : option (list (option ApplyError) * EState) :=
  match evs with
  | [] => Some ([], s)
  | ev :: evs =>
      '(err, s) ← sm_step ev s;
      '(errs, s) ← sm_run evs s;
      Some (err :: errs, s)
  end.

(** The calls of the Raft node among the events. *)
Definition sm_calls (evs : list sm_event) : list sm_call :=
  omap (fun ev => match ev with SmApply entry _ _ _ => Some (CallApply entry) | SmRestore data => Some (CallRestore data) | SmOther _ => None end) evs.

(** The entries whose [Apply] returned no error. *)
Definition sm_applied (evs : list sm_event) (errs : list (option ApplyError)) : list LogEntry :=
  omap (fun x => match x with (SmApply entry _ _ _, None) => Some entry | _ => None end) (zip evs errs).

(** The map that a log describes: the last write of each key. *)
Definition log_write (model : gmap string (option bytes)) (entry : LogEntry) : gmap string (option bytes) :=
  match entry_write entry with Some (key, v) => <[key := v]> model | None => model end.

Definition log_map (es : list LogEntry) : gmap string (option bytes) := fold_left log_write es ∅.

(** ** The conditions of a run *)

Definition background (o : engine_op) : Prop :=
  match o with EPutLog _ _ _ _ | EPutApply _ _ => False | _ => engine_op_ok o end.

(** Clocks that timestamps can hold, non-empty keys, commands below 1 GB. *)
Definition sm_event_ok (ev : sm_event) : Prop :=
  match ev with
  | SmApply entry ptMs _ between =>
      phys_ok ptMs /\ Forall background between /\
      forall key v, entry_write entry = Some (key, v) ->
        key <> EmptyString /\ zlen (bytes_of_string key) + zlen (default [] v) + 17 <= 1073741824
  | SmRestore _ => True
  | SmOther o => background o
  end.

Definition sm_ops (ev : sm_event) : list engine_op :=
  match ev with SmApply _ _ _ between => between | SmOther o => [o] | SmRestore _ => [] end.

Definition sm_flushes (evs : list sm_event) : list Z := omap flush_time (concat (sm_ops <$> evs)).

(** Steps counted against the bounds of the engine. *)
Definition sm_size (evs : list sm_event) : Z := zlen (concat (sm_ops <$> evs)) + 2 * zlen evs.

(** ** The store follows the log *)

Lemma background_ok o : background o -> engine_op_ok o.
Proof. by destruct o. Qed.

Lemma background_inflight o s s' : background o -> engine_step bits hashes o s = Some s' ->
  st_inflight s' = st_inflight s /\ applied_put o s = [].
Proof.
  intros Hb Hs. destruct o as [| | | | | |]; try done; cbn [engine_step] in Hs; (split; [|done]).
  - destruct (st_worker s); [by simplify_eq|]. destruct (flush_take _). by simplify_eq.
  - destruct (st_worker s); [|by simplify_eq]. destruct (flushMemTable _ _ _ _ _ _) as [[? ?]|]; cbn [mbind option_bind] in Hs; by simplify_eq.
  - destruct (getAtTimestamp _ _ _ _) as [[? ?]|]; cbn [mbind option_bind] in Hs; by simplify_eq.
  - destruct (st_compactor s); [by simplify_eq|]. destruct (compact_take _). by simplify_eq.
Qed.

Lemma background_run ops : forall s s', Forall background ops -> engine_run bits hashes ops s = Some s' ->
  st_inflight s' = st_inflight s /\ applied_puts bits hashes ops s = [].
Proof.
  induction ops as [|o ops IH]; intros s s' Hb Hr; [by injection Hr as <-|]. apply Forall_cons in Hb as [Ho Hb].
  unfold engine_run in Hr. cbn [for_each] in Hr. cbn [applied_puts]. destruct (engine_step bits hashes o s) as [s1|] eqn:Hs; [|done].
  destruct (background_inflight _ _ _ Ho Hs) as [Hi ->]. destruct (IH _ _ Hb Hr) as [-> ->]. by rewrite Hi.
Qed.

(** The engine between calls of the Raft node. *)
Definition store_inv (n : Z) (used : list Z) (s : EState) (model : gmap string (option bytes)) : Prop :=
  st_inflight s = [] /\ exists mm ims tabs, eng_inv n used s mm ims tabs model.

Context (Hbits : forall k, 0 < k < 2 ^ 31 -> 0 < bits k <= 2 ^ 60).

(** [n] grows by the steps of an event. *)
Lemma eng_inv_le n n' used s mm ims tabs model : n <= n' -> eng_inv n used s mm ims tabs model -> eng_inv n' used s mm ims tabs model.
Proof.
  intros Hle Hinv. replace n' with (n + Z.of_nat (Z.to_nat (n' - n))) by lia. generalize (Z.to_nat (n' - n)) as k. intros k.
  induction k as [|k IH]; [by rewrite Z.add_0_r|]. replace (n + Z.of_nat (S k)) with (n + Z.of_nat k + 1) by lia. by apply eng_inv_mono.
Qed.

Lemma store_other n used s model o : store_inv n used s model -> background o -> n < 2 ^ 31 -> (forall k, flush_time o = Some k -> k ∉ used) ->
  exists s', engine_step bits hashes o s = Some s' /\ store_inv (n + 1) (option_list (flush_time o) ++ used) s' model.
Proof.
  intros (Hi & mm & ims & tabs & Hinv) Hb Hn Hf.
  destruct (engine_step_inv bits hashes Hbits _ _ _ _ _ _ _ o Hinv (background_ok _ Hb) Hn Hf) as (s' & mm' & ims' & tabs' & Hs & Hinv').
  destruct (background_inflight _ _ _ Hb Hs) as [Hi' Hp]. rewrite Hp in Hinv'. exists s'. split; [done|]. split; [by rewrite Hi'|by eauto].
Qed.

Lemma submseteq_NoDup {A} (l k : list A) : l ⊆+ k -> NoDup k -> NoDup l.
Proof. intros [j ->]%submseteq_Permutation Hnd. by apply NoDup_app in Hnd as [? _]. Qed.

Lemma put_apply_inflight i draws s s' p : st_inflight s !! i = Some p -> engine_step bits hashes (EPutApply i draws) s = Some s' ->
  st_inflight s' = delete i (st_inflight s).
Proof. intros Hp. cbn [engine_step]. rewrite Hp. destruct (put_apply _ _ _ _ _ _) as [[stall e]|]; [|done]. by intros [= <-]. Qed.

(** A call of [Apply]. *)
Lemma store_apply n used s model entry ptMs draws between :
  store_inv n used s model -> sm_event_ok (SmApply entry ptMs draws between) -> n + zlen between + 2 < 2 ^ 31 ->
  NoDup (omap flush_time between ++ used) ->
  exists err s' used', sm_step (SmApply entry ptMs draws between) s = Some (err, s') /\
    used' ⊆+ omap flush_time between ++ used /\
    store_inv (n + zlen between + 2) used' s' (match err with None => log_write model entry | Some _ => model end).
Proof.
  intros (Hi & mm & ims & tabs & Hinv) (Hp & Hb & Hw) Hn Hnd. pose proof (zlen_nonneg between).
  assert (Hsame : store_inv (n + zlen between + 2) used s model) by (split; [done|]; exists mm, ims, tabs; by eapply eng_inv_le, Hinv; lia).
  unfold sm_step, log_write. unfold entry_write in Hw |- *.
  destruct (_ || _); [exists None, s, used; split_and!; [done|by apply submseteq_inserts_l|done]|].
  destruct (ValidateCommand _) as [err|]; [eexists _, s, used; split_and!; [done|by apply submseteq_inserts_l|done]|].
  destruct (DecodeCommand _) as [[key value] deleted].
  destruct (Hw _ _ eq_refl) as [Hk Hsz]. set (v := if deleted then [] else value).
  assert (zlen (bytes_of_string key) + zlen v + 17 <= 1073741824) as Hv by by destruct deleted.
  destruct (put_log_inv bits hashes _ _ _ _ _ _ _ _ _ _ deleted Hinv Hp Hk Hv) as (s1 & Hs1 & Hinv1).
  rewrite Hs1. cbn [mbind option_bind]. cbn [engine_step] in Hs1.
  destruct (put_log ptMs key v deleted (st_engine s) (st_fs s)) as [[[err|e'] e1] fs1] eqn:Hpl; cbn [fst].
  { exists (Some (ErrStorage err)), s1, used. split_and!; [done|by apply submseteq_inserts_l|]. split; [by simplify_eq/=|]. exists mm, ims, tabs. eapply eng_inv_le, Hinv1. lia. }
  assert (st_inflight s1 = [mkEPut key v deleted e']) as Hi1 by (simplify_eq/=; by rewrite Hi).
  destruct (engine_run_inv bits hashes Hbits between n used s1 mm ims tabs model) as (s2 & used' & mm2 & ims2 & tabs2 & Hs2 & Hu2 & Hinv2);
    [done|by eapply Forall_impl, background_ok|lia|done|].
  destruct (background_run _ _ _ Hb Hs2) as [Hi2 Hap]. rewrite Hap Hi1 in Hi2 Hinv2. rewrite Hs2. cbn [mbind option_bind].
  destruct (put_apply_inv bits hashes _ _ _ _ _ _ _ 0 draws (mkEPut key v deleted e') Hinv2) as (s3 & mm3 & ims3 & Hs3 & Hinv3); [by rewrite Hi2|].
  rewrite Hs3. cbn [mbind option_bind]. exists None, s3, used'. split_and!; [done|by rewrite Hu2|].
  split; [rewrite (put_apply_inflight _ _ _ _ (mkEPut key v deleted e') _ Hs3) Hi2 //|]. exists mm3, ims3, tabs2.
  replace (<[key := if deleted then None else Some value]> model) with (apply_put model (mkEPut key v deleted e')) by by destruct deleted.
  eapply eng_inv_le, Hinv3. lia.
Qed.

Lemma sm_step_inv n used s model ev : store_inv n used s model -> sm_event_ok ev -> n + zlen (sm_ops ev) + 2 < 2 ^ 31 ->
  NoDup (omap flush_time (sm_ops ev) ++ used) ->
  exists err s' used', sm_step ev s = Some (err, s') /\ used' ⊆+ omap flush_time (sm_ops ev) ++ used /\
    store_inv (n + zlen (sm_ops ev) + 2) used' s' (fold_left log_write (sm_applied [ev] [err]) model).
Proof.
  intros Hinv Hok Hn Hnd. destruct ev as [entry ptMs draws between|data|o]; cbn [sm_ops] in *.
  - destruct (store_apply _ _ _ _ entry ptMs draws between Hinv Hok Hn Hnd) as (err & s' & used' & Hs & Hu & Hinv').
    exists err, s', used'. split_and!; [done..|]. by destruct err.
  - exists None, s, used. split_and!; [by destruct s|by apply submseteq_inserts_l|]. destruct Hinv as (Hi & mm & ims & tabs & Hinv).
    split; [done|]. exists mm, ims, tabs. eapply eng_inv_le, Hinv. rewrite zlen_nil. lia.
  - change (zlen [o]) with 1 in *. destruct (store_other n used s model o Hinv Hok) as (s' & Hs & Hi & mm & ims & tabs & Hinv'); [lia| |].
    { intros k Hk. cbn [omap list_omap] in Hnd. rewrite Hk in Hnd. by apply NoDup_cons in Hnd as [? _]. }
    exists None, s'. eexists. unfold sm_step. rewrite Hs. split_and!; [done| |split; [done|]; exists mm, ims, tabs; eapply eng_inv_le, Hinv'; lia].
    cbn [omap list_omap]. by destruct (flush_time o).
Qed.

Lemma sm_run_inv evs : forall n used s model, store_inv n used s model -> Forall sm_event_ok evs -> n + sm_size evs < 2 ^ 31 ->
  NoDup (sm_flushes evs ++ used) ->
  exists errs s' used', sm_run evs s = Some (errs, s') /\ length errs = length evs /\
    store_inv (n + sm_size evs) used' s' (fold_left log_write (sm_applied evs errs) model).
Proof.
  unfold sm_size, sm_flushes. induction evs as [|ev evs IH]; intros n used s model Hinv Hok Hn Hnd.
  { exists [], s, used. cbn. by rewrite !zlen_nil Z.add_0_r. }
  apply Forall_cons in Hok as [Hev Hok]. rewrite fmap_cons in Hn Hnd |- *. cbn [concat] in Hn, Hnd |- *.
  rewrite zlen_app zlen_cons in Hn |- *. rewrite omap_app -(assoc_L (++)) in Hnd.
  pose proof (zlen_nonneg evs). pose proof (zlen_nonneg (concat (sm_ops <$> evs))).
  assert (Hnd1 : NoDup (omap flush_time (sm_ops ev) ++ used)).
  { eapply submseteq_NoDup, Hnd. apply submseteq_app; [done|]. by apply submseteq_inserts_l. }
  destruct (sm_step_inv _ _ _ _ ev Hinv Hev) as (err & s1 & used1 & Hs1 & Hu1 & Hinv1); [lia|done|].
  destruct (IH _ _ _ _ Hinv1 Hok) as (errs & s2 & used2 & Hs2 & Hlen & Hinv2); [lia| |].
  { eapply submseteq_NoDup; [|exact Hnd]. rewrite (Permutation_app_comm (omap flush_time (sm_ops ev))) -(assoc_L (++)).
    apply submseteq_app; [done|]. by rewrite (Permutation_app_comm used). }
  exists (err :: errs), s2, used2. cbn [sm_run]. rewrite Hs1. cbn [mbind option_bind]. rewrite Hs2. split_and!; [done|cbn; by rewrite Hlen|].
  replace (sm_applied (ev :: evs) (err :: errs)) with (sm_applied [ev] [err] ++ sm_applied evs errs)
    by (unfold sm_applied; cbn; by destruct ev, err).
  rewrite fold_left_app. destruct Hinv2 as (Hi & mm & ims & tabs & Hinv2). split; [done|]. exists mm, ims, tabs. eapply eng_inv_le, Hinv2. lia.
Qed.

End run.

(** ** Properties *)

Lemma log_map_filter es : log_map (filter (fun e => le_Type e <> EntryNoop) es) = log_map es.
Proof.
  unfold log_map. generalize (∅ : gmap string (option bytes)). induction es as [|e es IH]; intros model; [done|].
  rewrite filter_cons. case_decide as He; cbn [fold_left]; rewrite IH; [done|]. f_equal. unfold log_write, entry_write.
  destruct (bool_decide_reflect (le_Type e = EntryNoop)); [done|naive_solver].
Qed.

Lemma applied_all evs : forall errs es, length errs = length evs -> Forall (fun err => err = None) errs -> sm_calls evs = CallApply <$> es ->
  sm_applied evs errs = es.
Proof.
  induction evs as [|ev evs IH]; intros [|err errs] es Hlen Hok Hc; try done.
  - by destruct es.
  - apply Forall_cons in Hok as [-> Hok]. destruct ev as [entry ptMs draws between|data|o]; cbn in Hc |- *.
    + destruct es as [|e es]; simplify_eq/=. f_equal. apply IH; auto.
    + by destruct es.
    + apply IH; auto.
Qed.

(** What a client's write does. *)
Lemma entry_write_command index term key value deleted : zlen (bytes_of_string key) < two32 -> zlen value < two32 ->
  entry_write (mkEntry index term EntryNormal (EncodeCommand key value deleted)) = Some (key, if deleted then None else Some value).
Proof.
  intros Hk Hv. destruct (command_roundtrip key value deleted Hk Hv) as [Hd Hval]. unfold entry_write. cbn [le_Type le_Data].
  rewrite Hval Hd bool_decide_eq_false_2 //.
Qed.


(** An engine opened in an empty directory has served these events. *)
Definition store_execution (bits : Z -> Z) (hashes : Z -> Z -> Z) (evs : list sm_event) (errs : list (option ApplyError)) (st : EState) : Prop :=
  exists max config hlc draws e fs,
    (forall k, 0 < k < 2 ^ 31 -> 0 < bits k <= 2 ^ 60) /\ 64 <= max <= MaxRecordSize /\ hlc_wf hlc /\
    Engine_Open max config hlc draws emptyFS ∅ = Some (inr e, fs) /\
    Forall sm_event_ok evs /\ NoDup (sm_flushes evs) /\ sm_size evs < 2 ^ 31 /\
    sm_run bits hashes evs (engine_start e fs ∅) = Some (errs, st).

Lemma execution_serves bits hashes evs errs st : store_execution bits hashes evs errs st -> st_stalls st = 0 ->
  serves_map st (log_map (sm_applied evs errs)).
Proof.
  intros (max & config & hlc & draws & e & fs & Hbits & Hmax & Hwf & Hopen & Hok & Hnd & Hlen & Hrun) Hst.
  destruct (sm_run_inv bits hashes Hbits evs 0 [] (engine_start e fs ∅) ∅) as (errs' & st' & used & Hrun' & _ & _ & mm & ims & tabs & Hinv);
    [|done|lia|by rewrite app_nil_r|].
  { split; [done|]. exists ∅, [], []. by apply (engine_open_inv max config hlc draws). }
  rewrite Hrun in Hrun'. injection Hrun' as <- <-. by apply (eng_inv_serves _ _ _ _ _ _ _ Hinv).
Qed.

Definition kv_of (e : MemEntry) : string * bytes := (me_Key e, me_Value e).


(** ** Concrete runs *)

Definition put_k : string := string_of_bytes (NewPutCommand "k" (bytes_of_string "v")).

(** A cluster in which [b] is elected and its put of [k] is committed. *)
Definition put_script : list script :=
  [ STicks "b" 10; SDeliver MsgVote "b" "c"; SDeliver MsgVoteRsp "c" "b"; SPropose "b" put_k;
    SDeliver MsgAppend "b" "c"; SDeliver MsgAppendRsp "c" "b" ].

Definition put_entry_b : LogEntry := mkEntry 2 1 EntryNormal (NewPutCommand "k" (bytes_of_string "v")).

(** The put with a read between its two writes. *)
Definition put_events : list sm_event := [SmApply put_entry_b 1000 [true] [EGet "k" 0]; SmOther (EGet "k" 0)].

Lemma put_events_ok : Forall sm_event_ok put_events.
Proof.
  constructor; [|constructor; [done|constructor]]. split; [by vm_compute|]. split; [by constructor|].
  intros key v. unfold put_entry_b, NewPutCommand. rewrite entry_write_command; [|by vm_compute..]. intros [= <- <-]. by vm_compute.
Qed.

Definition put_state : sys := demo_run put_script.


(** The same entry on a server with tiny memtables, which flushes it. *)
Definition flushed_events : list sm_event :=
  [SmApply put_entry_b 2000 [false] []; SmOther EFlushTake; SmOther (EFlushDone 7)].

Lemma flushed_events_ok : Forall sm_event_ok flushed_events.
Proof.
  constructor; [|by repeat constructor]. split; [by vm_compute|]. split; [constructor|].
  intros key v. unfold put_entry_b, NewPutCommand. rewrite entry_write_command; [|by vm_compute..]. intros [= <- <-]. by vm_compute.
Qed.

Definition store_result (evs : list sm_event) (size : Z) : list (option ApplyError) * EState :=
  default ([], demo_state size) (sm_run demo_bits demo_hashes evs (demo_state size)).

Lemma store_result_execution evs size : Forall sm_event_ok evs -> NoDup (sm_flushes evs) -> sm_size evs < 2 ^ 31 ->
  is_Some (sm_run demo_bits demo_hashes evs (demo_state size)) ->
  Engine_Open 1000 (mkEngineConfig size 1 2) (NewHLC "n1") (fun _ => []) emptyFS ∅ = Some (inr (demo_engine size).1, (demo_engine size).2) ->
  store_execution demo_bits demo_hashes evs (store_result evs size).1 (store_result evs size).2.
Proof.
  intros Hok Hnd Hlen [[errs st] Hr] Hopen.
  exists 1000, (mkEngineConfig size 1 2), (NewHLC "n1"), (fun _ => []), (demo_engine size).1, (demo_engine size).2.
  split; [exact demo_bits_ok|]. split; [clear; by vm_compute|]. split; [clear; by vm_compute|]. split; [exact Hopen|].
  split; [exact Hok|]. split; [exact Hnd|]. split; [exact Hlen|]. unfold store_result. rewrite Hr. reflexivity.
Qed.

