(* ===== verification/Tso.v ===== *)
(** * Tso: the timestamp oracle of transactions (pkg/txn/tso.go)

    Timestamps are handed out from batches of a hundred taken from the hybrid
    logical clock.  Every call of [GetTimestamp] gets its own timestamp, also
    when calls race for a new batch or the oracle is restored; within a batch
    the timestamps fall. *)

From S2P Require Import Prelude Bytes Hlc.

Record TSOConfig := mkTSOConfig {
  SaveInterval : Z;
  MaxBatch : Z;
}.

(** The interval is in nanoseconds. *)
Definition DefaultTSOConfig : TSOConfig := mkTSOConfig 100000000 1000.

Record TimestampOracle := mkTimestampOracle {
  tso_hlc : HLC;
  tso_lastSaved : Z;
  tso_batchBase : Z;
  tso_batchRemaining : Z;
  tso_lastPhysical : Z;
}.

Definition NewTimestampOracle (hlc : HLC) : TimestampOracle := mkTimestampOracle hlc 0 0 0 0.

(** [allocateBatch], with the reading of the wall clock. *)
Definition allocateBatch (ptMs : Z) (t : TimestampOracle) : Z * TimestampOracle :=
  let '(hlcTS, hlc) := HLC_Now ptMs (tso_hlc t) in
  let ts := u64 hlcTS in
  let ts := if ts <=? tso_lastSaved t then u64 (tso_lastSaved t + 1) else ts in
  let batchBase := ts in
  let batchRemaining := 100 in
  let lastSaved := u64 (u64 (ts + batchRemaining) - 1) in
  let batchRemaining := batchRemaining - 1 in
  (u64 (batchBase + batchRemaining),
   mkTimestampOracle hlc lastSaved batchBase batchRemaining (tso_lastPhysical t)).

(** The first half of [GetTimestamp]: a timestamp of the current batch. *)
Definition fast_path (t : TimestampOracle) : option (Z * TimestampOracle) :=
  if 0 <? tso_batchRemaining t then
    Some (u64 (tso_batchBase t + (tso_batchRemaining t - 1)),
          mkTimestampOracle (tso_hlc t) (tso_lastSaved t) (tso_batchBase t) (tso_batchRemaining t - 1)
            (tso_lastPhysical t))
  else None.

Definition GetTimestamp (ptMs : Z) (t : TimestampOracle) : Z * TimestampOracle :=
  match fast_path t with
  | Some r => r
  | None => allocateBatch ptMs t
  end.

Definition GetStartTimestamp (ptMs : Z) (t : TimestampOracle) : Z * TimestampOracle :=
  let '(ts, hlc) := HLC_Now ptMs (tso_hlc t) in
  (u64 ts, mkTimestampOracle hlc (tso_lastSaved t) (tso_batchBase t) (tso_batchRemaining t) (tso_lastPhysical t)).

Definition GetCommitTimestamp (ptMs minTS : Z) (t : TimestampOracle) : Z * TimestampOracle :=
  let '(ts, t) := GetTimestamp ptMs t in
  (if ts <=? minTS then u64 (minTS + 1) else ts, t).

(** [Persist] only reads the state. *)
Definition Persist (t : TimestampOracle) : TimestampOracle := t.

Definition Recover (lastPersisted : Z) (t : TimestampOracle) : TimestampOracle :=
  mkTimestampOracle (tso_hlc t) (if tso_lastSaved t <? lastPersisted then lastPersisted else tso_lastSaved t)
    (tso_batchBase t) (tso_batchRemaining t) (tso_lastPhysical t).

(** ** Callers

    [GetTimestamp] takes the lock twice.  A caller that found the batch empty
    may therefore allocate after another one has filled it again, which is
    [TSlow]; [TGet] is a call that runs undisturbed. *)

Inductive tso_op :=
| TGet (ptMs : Z)
| TSlow (ptMs : Z)
| TStart (ptMs : Z)
| TPersist
| TRecover (lastPersisted : Z).

(** The timestamp that [GetTimestamp] returned, if the step is one of its calls. *)
Definition tso_step (o : tso_op) (t : TimestampOracle) : option Z * TimestampOracle :=
  match o with
  | TGet pt => let '(ts, t) := GetTimestamp pt t in (Some ts, t)
  | TSlow pt => let '(ts, t) := allocateBatch pt t in (Some ts, t)
  | TStart pt => (None, (GetStartTimestamp pt t).2)
  | TPersist => (None, Persist t)
  | TRecover last => (None, Recover last t)
  end.

Fixpoint tso_run (ops : list tso_op) (t : TimestampOracle) : list Z * TimestampOracle :=
  match ops with
  | [] => ([], t)
  | o :: ops =>
      let '(ts, t) := tso_step o t in
      let '(rest, t) := tso_run ops t in
      (match ts with Some ts => ts :: rest | None => rest end, t)
  end.

Definition tso_op_ok (o : tso_op) : Prop :=
  match o with
  | TGet pt | TSlow pt | TStart pt => 0 <= pt < two47
  | TPersist => True
  | TRecover last => 0 <= last < two63
  end.

(** ** The invariant

    [out] are the timestamps handed out so far and [n] bounds the steps. *)

Record tso_inv (n : Z) (t : TimestampOracle) (out : list Z) : Prop := {
  ti_hlc : hlc_wf (tso_hlc t) /\ 0 <= hlc_l (tso_hlc t);
  ti_saved : 0 <= tso_lastSaved t < two63 + 100 * (n + 1);
  ti_base : 0 <= tso_batchBase t;
  ti_remaining : 0 <= tso_batchRemaining t <= 100;
  ti_top : 0 < tso_batchRemaining t -> tso_batchBase t + tso_batchRemaining t - 1 <= tso_lastSaved t;
  ti_out : forall ts, ts ∈ out -> ts <= tso_lastSaved t /\
             (ts < tso_batchBase t \/ tso_batchBase t + tso_batchRemaining t <= ts);
  ti_nodup : NoDup out;
}.

Lemma HLC_Now_nonneg ptMs h ts h' :
  hlc_wf h -> 0 <= hlc_l h -> 0 <= ptMs < two47 -> HLC_Now ptMs h = (ts, h') ->
  hlc_wf h' /\ 0 <= hlc_l h' /\ 0 <= ts < two63.
Proof.
  intros Hwf Hl Hp. assert (Hph : phys_ok ptMs) by (unfold phys_ok; lia). intros Hnow.
  destruct (HLC_Now_wf _ _ _ _ Hwf Hph Hnow) as [Hwf' Hi]. rewrite HLC_Now_spec // in Hnow. cbv zeta in Hnow.
  injection Hnow as <- <-. destruct Hwf as [Hl1 Hc], Hwf' as [Hl2 Hc2]. cbn [hlc_l hlc_c] in *.
  split; [done|]. split; [lia|]. rewrite Pack_eq // in Hi |- *. unfold is_i64, logical_ok, phys_ok in *. lia.
Qed.

Lemma allocateBatch_inv n t out ptMs ts t' :
  tso_inv n t out -> 0 <= n < 2 ^ 50 -> 0 <= ptMs < two47 -> allocateBatch ptMs t = (ts, t') ->
  tso_inv (n + 1) t' (out ++ [ts]).
Proof.
  intros [[Hwf Hl] ? ? ? ? Hout Hnd] Hn Hp. unfold allocateBatch.
  destruct (HLC_Now ptMs (tso_hlc t)) as [hts hlc] eqn:Hnow.
  destruct (HLC_Now_nonneg _ _ _ _ Hwf Hl Hp Hnow) as (Hwf' & Hl' & Hts).
  rewrite (u64_small hts); [|lia]. rewrite (u64_small (tso_lastSaved t + 1)); [|lia].
  set (base := if hts <=? tso_lastSaved t then tso_lastSaved t + 1 else hts).
  assert (Hb : tso_lastSaved t < base <= Z.max (tso_lastSaved t + 1) hts).
  { unfold base. destruct (Z.leb_spec hts (tso_lastSaved t)); lia. }
  rewrite (u64_small (base + 100)); [|lia]. rewrite !u64_small; [|lia..].
  change (100 - 1) with 99. intros [= <- <-]. constructor; cbn; try lia; [done|..].
  - intros x [Hx|Hx%list_elem_of_singleton]%elem_of_app; [|lia]. destruct (Hout x Hx). lia.
  - apply NoDup_app. split_and!; [done| |apply NoDup_singleton].
    intros x Hx Hx'%list_elem_of_singleton. destruct (Hout x Hx). lia.
Qed.

Lemma fast_path_inv n t out ts t' :
  tso_inv n t out -> 0 <= n < 2 ^ 50 -> fast_path t = Some (ts, t') -> tso_inv (n + 1) t' (out ++ [ts]).
Proof.
  intros [? ? ? ? Htop Hout Hnd] Hn. unfold fast_path. destruct (Z.ltb_spec 0 (tso_batchRemaining t)); [|done].
  specialize (Htop ltac:(lia)). rewrite u64_small; [|lia]. intros [= <- <-]. constructor; cbn; try lia; [done|..].
  - intros x [Hx|Hx%list_elem_of_singleton]%elem_of_app; [|lia]. destruct (Hout x Hx). lia.
  - apply NoDup_app. split_and!; [done| |apply NoDup_singleton].
    intros x Hx Hx'%list_elem_of_singleton. destruct (Hout x Hx). lia.
Qed.

Lemma tso_step_inv n t out o :
  tso_inv n t out -> 0 <= n < 2 ^ 50 -> tso_op_ok o ->
  tso_inv (n + 1) (tso_step o t).2 (out ++ match (tso_step o t).1 with Some ts => [ts] | None => [] end).
Proof.
  intros Hinv Hn Ho. destruct o as [pt|pt|pt| |last]; cbn [tso_step].
  - unfold GetTimestamp. destruct (fast_path t) as [[ts t']|] eqn:Hf; [by eapply fast_path_inv|].
    destruct (allocateBatch pt t) as [ts t'] eqn:Ha. by eapply allocateBatch_inv.
  - destruct (allocateBatch pt t) as [ts t'] eqn:Ha. by eapply allocateBatch_inv.
  - cbn [fst snd]. rewrite app_nil_r. unfold GetStartTimestamp.
    destruct (HLC_Now pt (tso_hlc t)) as [ts hlc] eqn:Hnow. destruct Hinv as [[Hwf Hl] ? ? ? ? ? ?].
    destruct (HLC_Now_nonneg _ _ _ _ Hwf Hl Ho Hnow) as (? & ? & ?). constructor; cbn; try done; lia.
  - cbn [fst snd]. rewrite app_nil_r. unfold Persist. destruct Hinv. constructor; try done; lia.
  - cbn [fst snd]. rewrite app_nil_r. destruct Hinv as [? ? ? ? Htop Hout ?]. cbn in Ho.
    unfold Recover. constructor; cbn; try done; destruct (Z.ltb_spec (tso_lastSaved t) last); try lia.
    all: intros ts Hts; destruct (Hout ts Hts); lia.
Qed.

Lemma tso_run_inv ops : forall n t out, tso_inv n t out -> Forall tso_op_ok ops -> 0 <= n -> n + zlen ops < 2 ^ 50 ->
  tso_inv (n + zlen ops) (tso_run ops t).2 (out ++ (tso_run ops t).1).
Proof.
  induction ops as [|o ops IH]; intros n t out Hinv Hops Hn Hlen.
  { cbn. by rewrite app_nil_r zlen_nil Z.add_0_r. }
  apply Forall_cons in Hops as [Ho Hops]. rewrite zlen_cons in Hlen |- *. pose proof (zlen_nonneg ops).
  pose proof (tso_step_inv n t out o Hinv ltac:(lia) Ho) as Hs. cbn [tso_run].
  destruct (tso_step o t) as [ts t1]. cbn [fst snd] in Hs. specialize (IH (n + 1) t1 _ Hs Hops ltac:(lia) ltac:(lia)).
  destruct (tso_run ops t1) as [rest t2]. cbn [fst snd] in *.
  replace (n + (zlen ops + 1)) with (n + 1 + zlen ops) by lia. destruct ts; by rewrite -app_assoc in IH.
Qed.

(** ** Properties *)


Definition tso_demo : list tso_op := [TGet 1000; TGet 1000; TSlow 1000; TGet 1001; TRecover 70000000; TSlow 1002; TGet 1002].


(** The timestamps of a batch are handed out from its end, so the second call
    gets a smaller timestamp than the first. *)
Theorem tso_timestamps_decrease :
  exists a b, (tso_run [TGet 1000; TGet 1000] (NewTimestampOracle (NewHLC "n1"))).1 = [a; b] /\ b < a.
Proof. eexists _, _. split; vm_compute; reflexivity. Qed.

(** A commit timestamp that has to be raised above the start timestamp may be
    the start timestamp of the next transaction. *)
Theorem tso_commit_collides :
  let t0 := (GetTimestamp 1000 (NewTimestampOracle (NewHLC "n1"))).2 in
  let '(s1, t1) := GetStartTimestamp 2000 t0 in
  let '(s2, t2) := GetStartTimestamp 2000 t1 in
  (GetCommitTimestamp 2000 s1 t2).1 = s2.
Proof. vm_compute. reflexivity. Qed.
