(* ===== verification/LockManager.v ===== *)
(** * LockManager: the lock table of a shard (pkg/txn/types.go)

    Two maps are kept together: which transaction holds a key, and which keys
    a transaction holds.  They agree after every operation, a key that is
    held by a live lock is not given away, and a transaction that ends frees
    exactly its own keys. *)

From S2P Require Import Prelude.

(** [ExpiresAt] is [None] for the zero time; times are in nanoseconds. *)
Record Lock := mkLock {
  lk_Key : string;
  lk_TxnID : string;
  lk_Timestamp : Z;
  lk_Primary : string;
  lk_ExpiresAt : option Z;
}.

Record LockManager := mkLockManager {
  lm_locks : gmap string Lock;
  lm_txnLocks : gmap string (gset string);
}.

Definition NewLockManager : LockManager := mkLockManager ∅ ∅.

Definition expired (now : Z) (l : Lock) : bool :=
  match lk_ExpiresAt l with Some t => t <? now | None => false end.

(** The set of keys of a transaction with [key] in it. *)
Definition add_key (txnID key : string) (m : gmap string (gset string)) : gmap string (gset string) :=
  <[txnID := {[key]} ∪ default ∅ (m !! txnID)]> m.

Definition remove_key (txnID key : string) (m : gmap string (gset string)) : gmap string (gset string) :=
  alter (fun keys : gset string => keys ∖ {[key]}) txnID m.

Definition TryLock (now : Z) (key : string) (lock : Lock) (lm : LockManager) : bool * LockManager :=
  match lm_locks lm !! key with
  | None => (true, mkLockManager (<[key := lock]> (lm_locks lm)) (add_key (lk_TxnID lock) key (lm_txnLocks lm)))
  | Some existing =>
      if lk_TxnID existing =?s lk_TxnID lock then (true, lm)
      else if expired now existing then
        (true, mkLockManager (<[key := lock]> (lm_locks lm))
           (add_key (lk_TxnID lock) key (remove_key (lk_TxnID existing) key (lm_txnLocks lm))))
      else (false, lm)
  end.

Definition Unlock (txnID : string) (lm : LockManager) : LockManager :=
  match lm_txnLocks lm !! txnID with
  | None => lm
  | Some keys =>
      mkLockManager (set_fold (fun key locks => delete key locks) (lm_locks lm) keys)
        (delete txnID (lm_txnLocks lm))
  end.

Definition UnlockKey (key txnID : string) (lm : LockManager) : bool * LockManager :=
  match lm_locks lm !! key with
  | Some lock =>
      if lk_TxnID lock =?s txnID then
        (true, mkLockManager (delete key (lm_locks lm)) (remove_key txnID key (lm_txnLocks lm)))
      else (false, lm)
  | None => (false, lm)
  end.

Definition GetLock (key : string) (lm : LockManager) : option Lock := lm_locks lm !! key.

Definition HasConflict (key txnID : string) (lm : LockManager) : bool :=
  match lm_locks lm !! key with
  | None => false
  | Some lock => negb (lk_TxnID lock =?s txnID)
  end.

Definition GetExpiredLocks (now : Z) (lm : LockManager) : list Lock :=
  List.filter (expired now) (map_to_list (lm_locks lm)).*2.

Record LockStats := mkLockStats {
  ActiveLocks : Z;
  ActiveTxns : Z;
}.

Definition LM_Stats (lm : LockManager) : LockStats :=
  mkLockStats (Z.of_nat (size (lm_locks lm))) (Z.of_nat (size (lm_txnLocks lm))).

(** ** The two maps agree *)

Definition holder (lm : LockManager) (key : string) : option string := lk_TxnID <$> lm_locks lm !! key.

Definition lm_ok (lm : LockManager) : Prop :=
  forall key txn, holder lm key = Some txn <-> exists keys, lm_txnLocks lm !! txn = Some keys /\ key ∈ keys.

Lemma add_key_lookup t key m txn k :
  (exists keys, add_key t key m !! txn = Some keys /\ k ∈ keys) <->
  (txn = t /\ k = key) \/ (exists keys, m !! txn = Some keys /\ k ∈ keys).
Proof.
  unfold add_key. destruct (decide (txn = t)) as [->|Hne].
  - rewrite lookup_insert_eq. destruct (m !! t) as [s|]; simpl; split.
    + intros (keys & [= <-] & [Hk|Hk]%elem_of_union); [left; set_solver|right; eauto].
    + intros [[_ ->]|(keys & [= <-] & Hk)]; eexists; (split; [done|]); set_solver.
    + intros (keys & [= <-] & Hk). left. set_solver.
    + intros [[_ ->]|(keys & ? & _)]; [|done]. eexists. split; [done|]. set_solver.
  - rewrite lookup_insert_ne //. naive_solver.
Qed.

Lemma remove_key_lookup t key m txn k :
  (exists keys, remove_key t key m !! txn = Some keys /\ k ∈ keys) <->
  ~ (txn = t /\ k = key) /\ (exists keys, m !! txn = Some keys /\ k ∈ keys).
Proof.
  unfold remove_key. destruct (decide (txn = t)) as [->|Hne].
  - rewrite lookup_alter_eq. destruct (m !! t) as [s|]; simpl; [|naive_solver]. split.
    + intros (keys & [= <-] & [Hk Hn]%elem_of_difference). split; [set_solver|eauto].
    + intros [Hn (keys & [= <-] & Hk)]. eexists. split; [done|]. set_solver.
  - rewrite lookup_alter_ne //. naive_solver.
Qed.

Lemma delete_all_lookup {A} (keys : gset string) (m : gmap string A) k :
  set_fold (fun key m => delete key m) m keys !! k = if decide (k ∈ keys) then None else m !! k.
Proof.
  pose (P := fun (r : gmap string A) (X : gset string) => forall k, r !! k = if decide (k ∈ X) then None else m !! k).
  enough (HP : P (set_fold (fun key m => delete key m) m keys) keys) by apply HP.
  clear k. apply (set_fold_ind_L P); unfold P.
  - intros k. case_decide; [set_solver|done].
  - intros x X r Hx IH k. destruct (decide (k = x)) as [->|Hne].
    + rewrite lookup_delete_eq. case_decide; [done|set_solver].
    + rewrite lookup_delete_ne // IH. repeat case_decide; done || set_solver.
Qed.

Lemma TryLock_ok now key lock lm : lm_ok lm -> lm_ok (TryLock now key lock lm).2.
Proof.
  intros Hok. unfold TryLock. destruct (lm_locks lm !! key) as [ex|] eqn:Hex.
  - destruct (_ =?s _) eqn:Hs; [done|]. rewrite str_eqb_spec in Hs. apply bool_decide_eq_false in Hs.
    destruct (expired now ex); [|done]. intros k txn. cbn [snd lm_txnLocks]. rewrite add_key_lookup remove_key_lookup -Hok.
    unfold holder. cbn [lm_locks]. destruct (decide (k = key)) as [->|Hne].
    + rewrite lookup_insert_eq Hex. simpl. naive_solver.
    + rewrite lookup_insert_ne //. naive_solver.
  - intros k txn. cbn [snd lm_txnLocks]. rewrite add_key_lookup -Hok. unfold holder. cbn [lm_locks].
    destruct (decide (k = key)) as [->|Hne].
    + rewrite lookup_insert_eq Hex. simpl. naive_solver.
    + rewrite lookup_insert_ne //. naive_solver.
Qed.

Lemma Unlock_holder txnID lm key : lm_ok lm ->
  holder (Unlock txnID lm) key = if decide (holder lm key = Some txnID) then None else holder lm key.
Proof.
  intros Hok. unfold Unlock. destruct (lm_txnLocks lm !! txnID) as [keys|] eqn:Hk.
  - unfold holder at 1. cbn [lm_locks]. rewrite delete_all_lookup.
    destruct (decide (key ∈ keys)) as [Hin|Hin].
    + rewrite decide_True //. apply Hok. eauto.
    + rewrite decide_False //. intros (keys' & Hk' & ?)%Hok. congruence.
  - rewrite decide_False //. intros (keys' & Hk' & ?)%Hok. congruence.
Qed.

Lemma Unlock_ok txnID lm : lm_ok lm -> lm_ok (Unlock txnID lm).
Proof.
  intros Hok key txn. rewrite Unlock_holder //. unfold Unlock.
  destruct (lm_txnLocks lm !! txnID) as [keys|] eqn:Hk; cbn [lm_txnLocks].
  - destruct (decide (txn = txnID)) as [->|Hne].
    + rewrite lookup_delete_eq. case_decide; naive_solver.
    + rewrite lookup_delete_ne // -Hok. case_decide; naive_solver.
  - rewrite -Hok. case_decide as Hd; [|done]. apply Hok in Hd as (? & ? & _). congruence.
Qed.

Lemma UnlockKey_ok key txnID lm : lm_ok lm -> lm_ok (UnlockKey key txnID lm).2.
Proof.
  intros Hok. unfold UnlockKey. destruct (lm_locks lm !! key) as [l|] eqn:Hl; [|done].
  rewrite str_eqb_spec. case_bool_decide as Ht; [|done]. intros k txn. cbn [snd lm_txnLocks].
  rewrite remove_key_lookup -Hok. unfold holder. cbn [lm_locks]. destruct (decide (k = key)) as [->|Hne].
  - rewrite lookup_delete_eq Hl. simpl. naive_solver.
  - rewrite lookup_delete_ne //. naive_solver.
Qed.

(** ** Properties *)

Inductive lm_op :=
| LTryLock (now : Z) (key : string) (lock : Lock)
| LUnlock (txnID : string)
| LUnlockKey (key txnID : string).

Definition lm_step (lm : LockManager) (o : lm_op) : LockManager :=
  match o with
  | LTryLock now key lock => (TryLock now key lock lm).2
  | LUnlock txnID => Unlock txnID lm
  | LUnlockKey key txnID => (UnlockKey key txnID lm).2
  end.

Lemma lm_run_ok ops : forall lm, lm_ok lm -> lm_ok (fold_left lm_step ops lm).
Proof.
  induction ops as [|o ops IH]; intros lm Hok; [done|]. apply IH.
  destruct o; [by apply TryLock_ok|by apply Unlock_ok|by apply UnlockKey_ok].
Qed.

(** C35: in every reachable lock table the two indexes agree.  A lock is
    granted exactly when the key is free, already held by the transaction or
    held by an expired lock; a refusal changes nothing, and no other key is
    affected.  Ending a transaction frees exactly the keys it holds. *)
Theorem lock_ownership (ops : list lm_op) :
  let lm := fold_left lm_step ops NewLockManager in
  lm_ok lm /\
  (forall now key lock,
     let '(ok, lm') := TryLock now key lock lm in
     (ok = true <-> match GetLock key lm with
                    | None => True
                    | Some l => lk_TxnID l = lk_TxnID lock \/ expired now l = true
                    end) /\
     (if ok then holder lm' key = Some (lk_TxnID lock) else lm' = lm) /\
     (forall k, k <> key -> GetLock k lm' = GetLock k lm)) /\
  (forall txnID key, holder (Unlock txnID lm) key = if decide (holder lm key = Some txnID) then None else holder lm key) /\
  (forall key txnID, let '(ok, lm') := UnlockKey key txnID lm in
     (ok = true <-> holder lm key = Some txnID) /\
     forall k, GetLock k lm' = if decide (ok = true /\ k = key) then None else GetLock k lm).
Proof.
  intros lm. assert (Hok : lm_ok lm).
  { apply lm_run_ok. intros key txn. unfold holder. cbn. rewrite !lookup_empty. naive_solver. }
  split; [done|]. split; [|split; [by intros; apply Unlock_holder|]].
  - intros now key lock. unfold TryLock, GetLock, holder. destruct (lm_locks lm !! key) as [ex|] eqn:Hex.
    + rewrite str_eqb_spec. case_bool_decide as Hs.
      * split_and!; [naive_solver|rewrite Hex; simpl; by f_equal|done].
      * destruct (expired now ex) eqn:Hx.
        -- split_and!; [naive_solver|cbn; by rewrite lookup_insert_eq|]. intros k Hk. cbn. by rewrite lookup_insert_ne.
        -- split_and!; [naive_solver|done|done].
    + split_and!; [naive_solver|cbn; by rewrite lookup_insert_eq|]. intros k Hk. cbn. by rewrite lookup_insert_ne.
  - intros key txnID. unfold UnlockKey, GetLock, holder. destruct (lm_locks lm !! key) as [l|] eqn:Hl.
    + rewrite str_eqb_spec. case_bool_decide as Ht; simpl.
      * split; [naive_solver|]. intros k. destruct (decide (k = key)) as [->|Hne].
        -- rewrite lookup_delete_eq. case_decide; naive_solver.
        -- rewrite lookup_delete_ne //. case_decide; naive_solver.
      * split; [naive_solver|done].
    + split; [naive_solver|done].
Qed.
