(* ===== verification/Ssi.v ===== *)
(** * Ssi: conflict detection for serializable transactions
    (pkg/txn/ssi.go and the transaction record of pkg/txn/types.go)

    The detector keeps the keys that transactions have read and written and
    decides at commit time whether there is a conflict.  The maps of the
    source are iterated in an unspecified order; the model takes that of
    [map_to_list], and only whether there is a conflict is stated below. *)

From S2P Require Import Prelude Hlc LockManager.

Inductive IsolationLevel := ReadCommitted | SnapshotIsolation | Serializable.

Inductive TxnState :=
| TxnInit | TxnPreparing | TxnPrepared | TxnCommitting | TxnCommitted | TxnAborting | TxnAborted.

Record WriteIntent := mkWriteIntent {
  wi_Key : string;
  wi_Value : list ascii;
  wi_OldValue : list ascii;
  wi_Timestamp : Z;
  wi_Deleted : bool;
}.

Record Transaction := mkTransaction {
  txn_ID : string;
  txn_State : TxnState;
  txn_IsolationLevel : IsolationLevel;
  txn_ReadTimestamp : Z;
  txn_CommitTimestamp : Z;
  txn_StartTime : Z;
  txn_Coordinator : string;
  txn_Participants : list string;
  txn_PrimaryKey : string;
  txn_WriteSet : gmap string WriteIntent;
  txn_ReadSet : gmap string Z;
  txn_Locks : gmap string Lock;
}.

Record RWSet := mkRWSet {
  rw_ReadAt : Z;
  rw_Written : bool;
  rw_WriteAt : Z;
}.

Record committedTxnInfo := mkCommittedTxnInfo {
  ci_TxnID : string;
  ci_CommitTs : Z;
  ci_WriteKeys : gset string;
  ci_ReadKeys : gset string;
  ci_ExpiresAt : Z;
}.

Record SSIDetector := mkSSIDetector {
  ssi_activeTxns : gmap string Transaction;
  ssi_readWriteSets : gmap string (gmap string RWSet);
  ssi_committedTxns : gmap string committedTxnInfo;
}.

Record SerializationError := mkSerializationError {
  se_TxnID : string;
  se_ConflictTxn : string;
  se_Key : string;
  se_Reason : string;
}.

Definition NewSSIDetector : SSIDetector := mkSSIDetector ∅ ∅ ∅.

Definition RegisterTxn (txn : Transaction) (d : SSIDetector) : SSIDetector :=
  mkSSIDetector (<[txn_ID txn := txn]> (ssi_activeTxns d)) (<[txn_ID txn := ∅]> (ssi_readWriteSets d))
    (ssi_committedTxns d).

Definition set_rw (txnID : string) (rwSet : gmap string RWSet) (d : SSIDetector) : SSIDetector :=
  mkSSIDetector (ssi_activeTxns d) (<[txnID := rwSet]> (ssi_readWriteSets d)) (ssi_committedTxns d).

Definition RecordRead (txnID key : string) (ts : Z) (d : SSIDetector) : SSIDetector :=
  let rwSet := default ∅ (ssi_readWriteSets d !! txnID) in
  set_rw txnID (<[key := mkRWSet ts false 0]> rwSet) d.

Definition RecordWrite (txnID key : string) (ts : Z) (d : SSIDetector) : SSIDetector :=
  let rwSet := default ∅ (ssi_readWriteSets d !! txnID) in
  let readAt := match rwSet !! key with Some existing => rw_ReadAt existing | None => 0 end in
  set_rw txnID (<[key := mkRWSet readAt true ts]> rwSet) d.

(** The conflicts with one committed transaction. *)
Definition committed_conflicts (txn : Transaction) (txnRW : gmap string RWSet)
    (c : string * committedTxnInfo) : list SerializationError :=
  let '(committedID, committed) := c in
  if committedID =?s txn_ID txn then []
  else
    concat (map (fun '(key, rw) =>
      if negb (rw_Written rw) then []
      else if bool_decide (key ∈ ci_ReadKeys committed) then
        concat (map (fun committedKey =>
          match txnRW !! committedKey with
          | Some r =>
              if negb (rw_Written r) && HLC_After (txn_ReadTimestamp txn) (ci_CommitTs committed)
              then [mkSerializationError (txn_ID txn) committedID key "rw-dependency cycle detected"] else []
          | None => []
          end) (elements (ci_WriteKeys committed)))
      else []) (map_to_list txnRW)).

(** The conflicts with the writes of one other tracked transaction. *)
Definition active_conflicts (txn : Transaction) (txnRW : gmap string RWSet) (active : gmap string Transaction)
    (o : string * gmap string RWSet) : list SerializationError :=
  let '(otherID, otherRW) := o in
  if otherID =?s txn_ID txn then []
  else
    concat (map (fun '(key, rw) =>
      if negb (rw_Written rw) then []
      else
        match otherRW !! key with
        | Some r =>
            if rw_Written r then
              match active !! otherID with
              | Some otherTxn =>
                  if txn_StartTime otherTxn <? txn_StartTime txn
                  then [mkSerializationError (txn_ID txn) otherID key "write-write conflict"] else []
              | None => []
              end
            else []
        | None => []
        end) (map_to_list txnRW)).

Definition CheckConflict (txn : Transaction) (d : SSIDetector) : option SerializationError :=
  match ssi_readWriteSets d !! txn_ID txn with
  | None => None
  | Some txnRW =>
      hd_error
        (concat (map (committed_conflicts txn txnRW) (map_to_list (ssi_committedTxns d))) ++
         concat (map (active_conflicts txn txnRW (ssi_activeTxns d)) (map_to_list (ssi_readWriteSets d))))
  end.

Definition written_keys (rwSet : gmap string RWSet) : gset string := dom (filter (fun p => rw_Written p.2 = true) rwSet).
Definition read_keys (rwSet : gmap string RWSet) : gset string := dom (filter (fun p => rw_Written p.2 = false) rwSet).

(** Five minutes, in nanoseconds. *)
Definition committedTTL : Z := 300000000000.

Definition SSI_Commit (now : Z) (txnID : string) (commitTs : Z) (d : SSIDetector) : SSIDetector :=
  match ssi_readWriteSets d !! txnID with
  | None => d
  | Some rwSet =>
      mkSSIDetector (delete txnID (ssi_activeTxns d)) (ssi_readWriteSets d)
        (<[txnID := mkCommittedTxnInfo txnID commitTs (written_keys rwSet) (read_keys rwSet) (now + committedTTL)]>
           (ssi_committedTxns d))
  end.

Definition SSI_Abort (txnID : string) (d : SSIDetector) : SSIDetector :=
  mkSSIDetector (delete txnID (ssi_activeTxns d)) (delete txnID (ssi_readWriteSets d)) (ssi_committedTxns d).

(** One round of [gcLoop]. *)
Definition gc_round (now : Z) (d : SSIDetector) : SSIDetector :=
  mkSSIDetector (ssi_activeTxns d) (ssi_readWriteSets d)
    (filter (fun p => ~ ci_ExpiresAt p.2 < now) (ssi_committedTxns d)).

(** ** What a check detects *)

Lemma hd_error_some_iff {A} (l : list A) : is_Some (hd_error l) <-> exists x, x ∈ l.
Proof.
  destruct l as [|x l]; simpl; split; [by intros []|by intros [x ?%elem_of_nil]|intros _; exists x; left|eauto].
Qed.

Lemma elem_of_concat_map {A B} (f : A -> list B) l y : y ∈ concat (map f l) <-> exists x, x ∈ l /\ y ∈ f x.
Proof.
  rewrite list_elem_of_In in_concat. split.
  - intros (l' & (x & <- & Hx)%in_map_iff & Hy). exists x. by rewrite !list_elem_of_In.
  - intros (x & Hx & Hy). exists (f x). split; [apply in_map_iff; exists x; by rewrite -list_elem_of_In|by rewrite -list_elem_of_In].
Qed.

Lemma active_conflicts_iff txn txnRW active otherID otherRW :
  (exists e, e ∈ active_conflicts txn txnRW active (otherID, otherRW)) <->
  otherID <> txn_ID txn /\ exists key rw r other, txnRW !! key = Some rw /\ rw_Written rw = true /\
    otherRW !! key = Some r /\ rw_Written r = true /\ active !! otherID = Some other /\
    txn_StartTime other < txn_StartTime txn.
Proof.
  unfold active_conflicts. rewrite str_eqb_spec. case_bool_decide as Hid.
  { split; [by intros [e ?%elem_of_nil]|by intros [? _]]. }
  split.
  - intros [e ([key rw] & Hin & He)%elem_of_concat_map]. apply elem_of_map_to_list in Hin.
    destruct (rw_Written rw) eqn:Hw; cbn [negb] in He; [|by apply elem_of_nil in He].
    destruct (otherRW !! key) as [r|] eqn:Hr; [|by apply elem_of_nil in He].
    destruct (rw_Written r) eqn:Hrw; [|by apply elem_of_nil in He].
    destruct (active !! otherID) as [other|]; [|by apply elem_of_nil in He].
    destruct (Z.ltb_spec (txn_StartTime other) (txn_StartTime txn)); [|by apply elem_of_nil in He].
    split; [done|]. by exists key, rw, r, other.
  - intros [_ (key & rw & r & other & Hk & Hw & Hr & Hrw & Ho & Hlt)].
    exists (mkSerializationError (txn_ID txn) otherID key "write-write conflict"). apply elem_of_concat_map.
    exists (key, rw). split; [by apply elem_of_map_to_list|]. rewrite Hw Hr Hrw Ho. cbn [negb].
    rewrite (proj2 (Z.ltb_lt _ _) Hlt). left.
Qed.

Lemma committed_conflicts_iff txn txnRW cid c :
  (exists e, e ∈ committed_conflicts txn txnRW (cid, c)) <->
  cid <> txn_ID txn /\ ci_CommitTs c < txn_ReadTimestamp txn /\
  exists key rw ckey r, txnRW !! key = Some rw /\ rw_Written rw = true /\ key ∈ ci_ReadKeys c /\
    ckey ∈ ci_WriteKeys c /\ txnRW !! ckey = Some r /\ rw_Written r = false.
Proof.
  unfold committed_conflicts. rewrite str_eqb_spec. case_bool_decide as Hid.
  { split; [by intros [e ?%elem_of_nil]|by intros [? _]]. }
  split.
  - intros [e ([key rw] & Hin & He)%elem_of_concat_map]. apply elem_of_map_to_list in Hin.
    destruct (rw_Written rw) eqn:Hw; cbn [negb] in He; [|by apply elem_of_nil in He].
    case_bool_decide as Hk; [|by apply elem_of_nil in He].
    apply elem_of_concat_map in He as (ckey & Hc%elem_of_elements & He).
    destruct (txnRW !! ckey) as [r|] eqn:Hr; [|by apply elem_of_nil in He].
    destruct (negb (rw_Written r) && HLC_After (txn_ReadTimestamp txn) (ci_CommitTs c)) eqn:Hb; [|by apply elem_of_nil in He].
    apply andb_prop in Hb as [Hn%negb_true_iff Hlt%Z.ltb_lt].
    split; [done|]. split; [done|]. by exists key, rw, ckey, r.
  - intros (_ & Hlt & key & rw & ckey & r & Hk & Hw & Hrk & Hwk & Hr & Hrw).
    exists (mkSerializationError (txn_ID txn) cid key "rw-dependency cycle detected"). apply elem_of_concat_map.
    exists (key, rw). split; [by apply elem_of_map_to_list|]. rewrite Hw. cbn [negb]. rewrite bool_decide_eq_true_2 //.
    apply elem_of_concat_map. exists ckey. split; [by apply elem_of_elements|]. rewrite Hr Hrw. unfold HLC_After.
    rewrite (proj2 (Z.ltb_lt _ _) Hlt). left.
Qed.

Lemma CheckConflict_iff txn d txnRW :
  ssi_readWriteSets d !! txn_ID txn = Some txnRW ->
  is_Some (CheckConflict txn d) <->
  (exists cid c, ssi_committedTxns d !! cid = Some c /\ exists e, e ∈ committed_conflicts txn txnRW (cid, c)) \/
  (exists oid orw, ssi_readWriteSets d !! oid = Some orw /\ exists e, e ∈ active_conflicts txn txnRW (ssi_activeTxns d) (oid, orw)).
Proof.
  intros Hrw. unfold CheckConflict. rewrite Hrw hd_error_some_iff. setoid_rewrite elem_of_app.
  setoid_rewrite elem_of_concat_map. split.
  - intros [e [([cid c] & Hc%elem_of_map_to_list & He)|([oid orw] & Ho%elem_of_map_to_list & He)]]; [left|right]; eauto 6.
  - intros [(cid & c & Hc & e & He)|(oid & orw & Ho & e & He)]; exists e; [left; exists (cid, c)|right; exists (oid, orw)];
      by rewrite elem_of_map_to_list.
Qed.

(** ** Properties *)

(** Between two live transactions that both wrote a key, the one that
    started later cannot pass the check, whatever else is tracked: of two
    such writers that run the check while both are live at most one commits. *)
Theorem ssi_later_writer_refused (d : SSIDetector) (t1 t2 : Transaction) (key : string)
  (rw1 rw2 : gmap string RWSet) (r1 r2 : RWSet)
  (Hne : txn_ID t1 <> txn_ID t2) (Hstart : txn_StartTime t1 < txn_StartTime t2)
  (Hact : ssi_activeTxns d !! txn_ID t1 = Some t1)
  (Hrw1 : ssi_readWriteSets d !! txn_ID t1 = Some rw1) (Hrw2 : ssi_readWriteSets d !! txn_ID t2 = Some rw2)
  (Hk1 : rw1 !! key = Some r1) (Hk2 : rw2 !! key = Some r2)
  (Hw1 : rw_Written r1 = true) (Hw2 : rw_Written r2 = true) :
  exists e, CheckConflict t2 d = Some e.
Proof.
  assert (H : is_Some (CheckConflict t2 d)); [|destruct H; eauto].
  apply (CheckConflict_iff t2 d rw2 Hrw2). right. exists (txn_ID t1), rw1. split; [done|].
  apply active_conflicts_iff. split; [done|]. by exists key, r2, r1, t1.
Qed.

Definition demo_txn (id : string) (start readTs : Z) : Transaction :=
  mkTransaction id TxnInit Serializable readTs 0 start EmptyString [] EmptyString ∅ ∅ ∅.

Definition demo_ww : SSIDetector :=
  RecordWrite "t2" "x" 5 (RecordWrite "t1" "x" 4 (RegisterTxn (demo_txn "t2" 2 2) (RegisterTxn (demo_txn "t1" 1 1) NewSSIDetector))).

Lemma ssi_later_writer_refused_witness : exists e, CheckConflict (demo_txn "t2" 2 2) demo_ww = Some e.
Proof.
  apply (ssi_later_writer_refused demo_ww (demo_txn "t1" 1 1) (demo_txn "t2" 2 2) "x"
    {["x" := mkRWSet 0 true 4]} {["x" := mkRWSet 0 true 5]} (mkRWSet 0 true 4) (mkRWSet 0 true 5));
    try (vm_compute; reflexivity). vm_compute. congruence.
Defined.

(** Two concurrent transactions read what the other one writes. *)
Definition skew_start : SSIDetector :=
  let d := RegisterTxn (demo_txn "t2" 1 10) (RegisterTxn (demo_txn "t1" 1 10) NewSSIDetector) in
  let d := RecordWrite "t1" "y" 11 (RecordRead "t1" "x" 10 d) in
  RecordWrite "t2" "x" 11 (RecordRead "t2" "y" 10 d).

(** The test for a cycle is on transactions that started after the other one
    committed, which cannot conflict with it; a write skew of concurrent
    transactions passes. *)
Theorem ssi_write_skew_passes :
  CheckConflict (demo_txn "t1" 1 10) skew_start = None /\
  CheckConflict (demo_txn "t2" 1 10) (SSI_Commit 0 "t1" 20 skew_start) = None.
Proof. split; vm_compute; reflexivity. Qed.

(** Conversely a transaction that runs after the other one has committed, a
    serial execution, is refused. *)
Theorem ssi_serial_execution_refused :
  let d := RecordWrite "t1" "y" 11 (RecordRead "t1" "x" 10 (RegisterTxn (demo_txn "t1" 1 10) NewSSIDetector)) in
  let d := RegisterTxn (demo_txn "t2" 2 30) (SSI_Commit 0 "t1" 20 d) in
  let d := RecordWrite "t2" "x" 31 (RecordRead "t2" "y" 30 d) in
  exists e, CheckConflict (demo_txn "t2" 2 30) d = Some e.
Proof. eexists. vm_compute. reflexivity. Qed.

(** Reading a key after writing it makes the detector forget the write. *)
Theorem ssi_read_forgets_write (txnID key : string) (ts ts' : Z) (d : SSIDetector) :
  ssi_readWriteSets (RecordRead txnID key ts' (RecordWrite txnID key ts d)) !! txnID ≫= (.!! key) =
    Some (mkRWSet ts' false 0).
Proof. unfold RecordRead, set_rw. cbn [ssi_readWriteSets]. rewrite lookup_insert_eq. cbn. by rewrite lookup_insert_eq. Qed.
