(* ===== verification/Saga.v ===== *)
(** * Saga: long-running transactions with compensations (pkg/txn/saga.go)

    A step is a pair of functions on the saga's data and the outside world,
    which the type [W] stands for; a call returns whether it failed.  The
    cancellation of the context is asked before every retry, with the number
    of calls made so far.  Events record the calls of the step functions.
    Delays between retries, the console output and the asynchronous variant
    are left out; times are arguments. *)

From S2P Require Import Prelude.

Section saga.
  Context {W : Type}.

Record SagaStep := mkSagaStep {
  sp_Name : string;
  sp_Execute : W -> bool * W;
  sp_Compensate : option (W -> bool * W);
  sp_RetryCount : Z;
  sp_RetryDelay : Z;
}.

Inductive SagaState := SagaPending | SagaRunning | SagaCompleted | SagaFailed | SagaCompensating.

(** Why a step failed. *)
Inductive SagaError := ErrStep | ErrCtx.

Record SagaExecution := mkSagaExecution {
  se_ID : string;
  se_Steps : list SagaStep;
  se_CurrentStep : nat;
  se_State : SagaState;
  se_Data : W;
  se_StartedAt : Z;
  se_CompletedAt : Z;
  se_Error : option SagaError;
}.

Record SagaOrchestrator := mkSagaOrchestrator {
  so_sagas : gmap string SagaExecution;
  so_defaultRetryCount : Z;
  so_defaultRetryDelay : Z;
}.

Definition NewSagaOrchestrator : SagaOrchestrator := mkSagaOrchestrator ∅ 3 100000000.

Definition Saga_Begin (now : Z) (sagaID : string) (steps : list SagaStep) (initialData : W) (o : SagaOrchestrator) :
    SagaExecution * SagaOrchestrator :=
  let execution := mkSagaExecution sagaID steps 0 SagaPending initialData now 0 None in
  (execution, mkSagaOrchestrator (<[sagaID := execution]> (so_sagas o)) (so_defaultRetryCount o) (so_defaultRetryDelay o)).

(** A call of a step function: the step, and whether it failed. *)
Inductive saga_event :=
| EvExecute (i : nat) (failed : bool)
| EvCompensate (i : nat) (failed : bool).

(** The retry loop from an attempt on; [n] counts the attempts left. *)
Fixpoint retry_loop (ctxDone : nat -> bool) (i : nat) (step : SagaStep) (n attempt : nat) (calls : nat) (lastErr : option SagaError) (w : W) :
    option SagaError * list saga_event * W :=
  match n with
  | O => (lastErr, [], w)
  | S n =>
      if (0 <? attempt)%nat && ctxDone calls then (Some ErrCtx, [], w)
      else
        let '(failed, w) := sp_Execute step w in
        if failed then
          let '(err, events, w) := retry_loop ctxDone i step n (S attempt) (S calls) (Some ErrStep) w in
          (err, EvExecute i true :: events, w)
        else (None, [EvExecute i false], w)
  end.

(** Attempts [0] to [retryCount]; none if it is negative. *)
Definition executeStepWithRetry (ctxDone : nat -> bool) (i : nat) (step : SagaStep) (calls : nat) (o : SagaOrchestrator) (w : W) :
    option SagaError * list saga_event * W :=
  let retryCount := if sp_RetryCount step =? 0 then so_defaultRetryCount o else sp_RetryCount step in
  retry_loop ctxDone i step (Z.to_nat (retryCount + 1)) 0 calls None w.

(** Compensation from a step down to the first; [true] if one failed. *)
Fixpoint compensate_loop (steps : list SagaStep) (n : nat) (w : W) : option (bool * list saga_event * W) :=
  match n with
  | O => Some (false, [], w)
  | S i =>
      step ← steps !! i;
      match sp_Compensate step with
      | None => compensate_loop steps i w
      | Some compensate =>
          let '(failed, w) := compensate w in
          if failed then Some (true, [EvCompensate i true], w)
          else
            '(failed, events, w) ← compensate_loop steps i w;
            Some (failed, EvCompensate i false :: events, w)
      end
  end.

(** [compensate(execution, upToStep)] with [n] = upToStep + 1. *)
Definition compensate (n : nat) (execution : SagaExecution) : option (bool * list saga_event * W) :=
  compensate_loop (se_Steps execution) n (se_Data execution).

Definition set_saga (current : nat) (state : SagaState) (data : W) (completedAt : Z) (err : option SagaError) (e : SagaExecution) : SagaExecution :=
  mkSagaExecution (se_ID e) (se_Steps e) current state data (se_StartedAt e) completedAt err.

(** The loop of [Execute] over the steps from the [i]-th on. *)
Fixpoint execute_loop (ctxDone : nat -> bool) (now : Z) (rest : list SagaStep) (i calls : nat) (o : SagaOrchestrator) (e : SagaExecution) :
    option (option (nat * SagaError) * list saga_event * SagaExecution) :=
  match rest with
  | [] => Some (None, [], set_saga (se_CurrentStep e) SagaCompleted (se_Data e) now (se_Error e) e)
  | step :: rest =>
      let e := set_saga i (se_State e) (se_Data e) (se_CompletedAt e) (se_Error e) e in
      let '(err, events, data) := executeStepWithRetry ctxDone i step calls o (se_Data e) in
      match err with
      | Some err =>
          let e := set_saga i SagaCompensating data (se_CompletedAt e) (Some err) e in
          '(_, compEvents, data) ← compensate i e;
          Some (Some (i, err), events ++ compEvents, set_saga i SagaFailed data now (se_Error e) e)
      | None =>
          let e := set_saga i (se_State e) data (se_CompletedAt e) (se_Error e) e in
          '(res, events', e) ← execute_loop ctxDone now rest (S i) (calls + length events) o e;
          Some (res, events ++ events', e)
      end
  end.

Definition Saga_Execute (ctxDone : nat -> bool) (now : Z) (o : SagaOrchestrator) (e : SagaExecution) :
    option (option (nat * SagaError) * list saga_event * SagaExecution) :=
  let e := set_saga (se_CurrentStep e) SagaRunning (se_Data e) (se_CompletedAt e) (se_Error e) e in
  execute_loop ctxDone now (se_Steps e) 0 0 o e.

Definition GetStatus (sagaID : string) (o : SagaOrchestrator) : option SagaExecution := so_sagas o !! sagaID.

(** ** Lemmas *)

(** The calls that one step may make: failures, then at most one success. *)
Definition step_calls (i : nat) (ok : bool) (events : list saga_event) : Prop :=
  exists k, events = replicate k (EvExecute i true) ++ (if ok then [EvExecute i false] else []).

Lemma retry_loop_calls ctxDone i step n : forall attempt calls lastErr w err events w',
  retry_loop ctxDone i step n attempt calls lastErr w = (err, events, w') ->
  (err = None -> lastErr = None -> n <> 0%nat -> step_calls i true events) /\
  (err = None -> lastErr <> None -> step_calls i true events) /\
  (err <> None -> step_calls i false events) /\ (length events <= n)%nat.
Proof.
  induction n as [|n IH]; intros attempt calls lastErr w err events w' H; cbn [retry_loop] in H.
  { injection H as <- <- <-. split_and!; try done. intros _. by exists 0%nat. }
  destruct (_ && _). { injection H as <- <- <-. split_and!; try done; [intros _; by exists 0%nat|simpl; lia]. }
  destruct (sp_Execute step w) as [[] w1].
  - destruct (retry_loop _ _ _ _ _ _ _ _) as [[err1 ev1] w2] eqn:Hr. injection H as <- <- <-.
    destruct (IH _ _ _ _ _ _ _ Hr) as (_ & H2 & H3 & Hl).
    assert (forall ok, step_calls i ok ev1 -> step_calls i ok (EvExecute i true :: ev1)) as Hcons.
    { intros ok [k ->]. by exists (S k). }
    split_and!; [intros ? _ _; by apply Hcons, H2|intros ? _; by apply Hcons, H2|intros ?; by apply Hcons, H3|simpl; lia].
  - injection H as <- <- <-. split_and!; try done; [intros _ _ _; by exists 0%nat|intros _ _; by exists 0%nat|simpl; lia].
Qed.

(** The compensations of the first [n] steps, last first. *)
Fixpoint compensations (steps : list SagaStep) (n : nat) : list nat :=
  match n with
  | O => []
  | S i => match steps !! i with Some step => if sp_Compensate step then [i] else [] | None => [] end ++ compensations steps i
  end.

(** Compensation calls these in order until one fails. *)
Definition compensated (failed : bool) (todo : list nat) (events : list saga_event) : Prop :=
  if failed then exists done i rest, todo = done ++ i :: rest /\ events = map (fun j => EvCompensate j false) done ++ [EvCompensate i true]
  else events = map (fun j => EvCompensate j false) todo.

Lemma compensate_loop_spec steps n : (n <= length steps)%nat -> forall w,
  exists failed events w', compensate_loop steps n w = Some (failed, events, w') /\ compensated failed (compensations steps n) events.
Proof.
  induction n as [|i IH]; intros Hn w; [by exists false, [], w|]. cbn [compensate_loop compensations].
  destruct (lookup_lt_is_Some_2 steps i) as [step Hs]; [lia|]. rewrite Hs. cbn [mbind option_bind].
  destruct (sp_Compensate step) as [comp|]; [|apply IH; lia]. destruct (comp w) as [[] w1].
  - exists true, [EvCompensate i true], w1. split; [done|]. by exists [], i, (compensations steps i).
  - destruct (IH ltac:(lia) w1) as (failed & events & w' & -> & Hc). eexists _, _, _. split; [done|].
    destruct failed; cbn [compensated] in *; [|by rewrite Hc]. destruct Hc as (dn & j & rest & Hd & ->).
    exists (i :: dn), j, rest. by rewrite Hd.
Qed.

(** The calls of successful steps, in order from the [i]-th on. *)
Definition steps_calls (i : nat) (evs : list (list saga_event)) : Prop :=
  forall j ev, evs !! j = Some ev -> step_calls (i + j) true ev.

Lemma steps_calls_cons i ev evs : step_calls i true ev -> steps_calls (S i) evs -> steps_calls i (ev :: evs).
Proof.
  intros He Hes [|j] x Hx; simplify_eq/=; [by rewrite Nat.add_0_r|]. rewrite -Nat.add_succ_comm. by apply Hes.
Qed.

Definition retries (o : SagaOrchestrator) (step : SagaStep) : Z := if sp_RetryCount step =? 0 then so_defaultRetryCount o else sp_RetryCount step.

Lemma step_with_retry ctxDone i step calls o w err events w' :
  0 <= retries o step -> executeStepWithRetry ctxDone i step calls o w = (err, events, w') ->
  step_calls i (match err with None => true | Some _ => false end) events /\ Z.of_nat (length events) <= retries o step + 1.
Proof.
  intros Hr H. unfold executeStepWithRetry in H. fold (retries o step) in H.
  destruct (retry_loop_calls _ _ _ _ _ _ _ _ _ _ _ H) as (H1 & _ & H3 & Hl). split; [|lia].
  destruct err; [by apply H3|]. apply H1; [done..|lia].
Qed.

Lemma execute_loop_spec ctxDone now o rest : forall i calls e,
  drop i (se_Steps e) = rest -> (i <= length (se_Steps e))%nat -> Forall (fun step => 0 <= retries o step) rest ->
  exists res events e', execute_loop ctxDone now rest i calls o e = Some (res, events, e') /\ se_Steps e' = se_Steps e /\
    match res with
    | None => se_State e' = SagaCompleted /\ exists evs, length evs = length rest /\ steps_calls i evs /\ events = concat evs
    | Some (k, err) => se_State e' = SagaFailed /\ se_Error e' = Some err /\
        exists step evs attempts failed comp, se_Steps e !! k = Some step /\ (i + length evs = k)%nat /\ steps_calls i evs /\
          step_calls k false attempts /\ Z.of_nat (length attempts) <= retries o step + 1 /\
          compensated failed (compensations (se_Steps e) k) comp /\ events = concat evs ++ attempts ++ comp
    end.
Proof.
  induction rest as [|step rest IH]; intros i calls e Hd Hi Hr; cbn [execute_loop].
  { eexists _, _, _. split; [done|]. split; [done|]. split; [done|]. by exists []. }
  apply Forall_cons in Hr as [Hs Hr]. assert (Hstep : se_Steps e !! i = Some step).
  { rewrite -(Nat.add_0_r i) -lookup_drop Hd. done. }
  cbn [set_saga se_Data]. destruct (executeStepWithRetry _ _ _ _ _ _) as [[err ev] data] eqn:Hx.
  destruct (step_with_retry _ _ _ _ _ _ _ _ _ Hs Hx) as [Hcalls Hlen]. destruct err as [err|].
  - unfold compensate. cbn [set_saga se_Steps se_Data]. destruct (compensate_loop_spec (se_Steps e) i Hi data) as (failed & comp & w' & -> & Hc).
    eexists _, _, _. split; [done|]. split; [done|]. split; [done|]. split; [done|]. exists step, [], ev, failed, comp.
    split_and!; done.
  - set (e1 := set_saga _ _ _ _ _ _). destruct (IH (S i) (calls + length ev)%nat e1) as (res & ev' & e' & Hrun & Hst & Hres).
    { cbn [e1 set_saga se_Steps]. rewrite (drop_S _ _ _ Hstep) in Hd. by injection Hd. }
    { apply lookup_lt_Some in Hstep. cbn [e1 set_saga se_Steps]. lia. }
    { done. }
    rewrite Hrun. eexists _, _, _. split; [done|]. split; [done|]. destruct res as [[k err]|].
    + destruct Hres as (Hf & Herr & st & evs & att & failed & comp & Hk & Hlen' & Hcs & Hca & Hla & Hco & ->). split; [done|]. split; [done|].
      exists st, (ev :: evs), att, failed, comp. split_and!; try done; [simpl; lia|by apply steps_calls_cons|]. simpl. by rewrite app_assoc.
    + destruct Hres as (Hf & evs & Hlen' & Hcs & ->). split; [done|]. exists (ev :: evs). split_and!; [simpl; lia|by apply steps_calls_cons|done].
Qed.


End saga.

Arguments SagaStep : clear implicits.
Arguments SagaExecution : clear implicits.
Arguments SagaOrchestrator : clear implicits.

(** A world that fails its second call; a saga of three steps. *)
Definition demo_step (name : string) (failing : list nat) : SagaStep nat :=
  mkSagaStep name (fun w => (bool_decide (w ∈ failing), S w)) (Some (fun w => (false, S w))) 1 0.

Definition demo_saga (failing : list nat) : SagaExecution nat :=
  mkSagaExecution "order" [demo_step "reserve" failing; demo_step "charge" failing; demo_step "ship" failing] 0 SagaPending 0%nat 0 0 None.


(** The third step fails twice; the first two are undone, last first. *)
Theorem saga_demo :
  (Saga_Execute (fun _ => false) 7 NewSagaOrchestrator (demo_saga [2; 3]%nat) ≫= fun x => Some x.1) =
  Some (Some (2%nat, ErrStep), [EvExecute 0 false; EvExecute 1 false; EvExecute 2 true; EvExecute 2 true; EvCompensate 1 false; EvCompensate 0 false]).
Proof. vm_compute. reflexivity. Qed.

(** A negative number of retries makes a step succeed without being called. *)
Theorem saga_negative_retries :
  let step := mkSagaStep "charge" (fun w : nat => (true, w)) None (-1) 0 in
  (Saga_Execute (fun _ => false) 7 NewSagaOrchestrator (mkSagaExecution "order" [step] 0 SagaPending 0%nat 0 0 None) ≫= fun x => Some x.1) =
  Some (None, []).
Proof. vm_compute. reflexivity. Qed.

Lemma execute_step_succeeds {W} ctxDone now (step : SagaStep W) rest i calls o e w :
  0 <= retries o step -> sp_Execute step (se_Data e) = (false, w) ->
  execute_loop ctxDone now (step :: rest) i calls o e =
    '(res, events, e) ← execute_loop ctxDone now rest (S i) (calls + 1) o (set_saga i (se_State e) w (se_CompletedAt e) (se_Error e) e);
    Some (res, EvExecute i false :: events, e).
Proof.
  intros Hr He. cbn [execute_loop]. unfold executeStepWithRetry. fold (retries o step).
  replace (Z.to_nat _) with (S (Z.to_nat (retries o step))) by lia. cbn [retry_loop Nat.ltb Nat.leb andb se_Data set_saga]. by rewrite He.
Qed.

(** ** The sample order saga

    Its steps set flags in the data, a map that is not nil. *)
Definition set_flag (key : string) (data : gmap string bool) : bool * gmap string bool := (false, <[key := true]> data).
Definition undo (data : gmap string bool) : bool * gmap string bool := (false, data).

Definition CreateOrderSaga : list (SagaStep (gmap string bool)) :=
  [mkSagaStep "Reserve Inventory" (set_flag "inventory_reserved") (Some undo) 2 0;
   mkSagaStep "Charge Credit Card" (set_flag "payment_charged") (Some undo) 0 0;
   mkSagaStep "Create Shipment" (set_flag "shipment_created") (Some undo) 0 0;
   mkSagaStep "Send Confirmation" (fun data => (false, data)) None 0 0].

Lemma order_saga_run ctxDone now o e : so_defaultRetryCount o = 3 -> se_Steps e = CreateOrderSaga ->
  exists e', Saga_Execute ctxDone now o e = Some (None, [EvExecute 0 false; EvExecute 1 false; EvExecute 2 false; EvExecute 3 false], e') /\
    se_State e' = SagaCompleted /\
    se_Data e' = <["shipment_created" := true]> (<["payment_charged" := true]> (<["inventory_reserved" := true]> (se_Data e))).
Proof.
  intros Ho He. unfold Saga_Execute. cbn [se_Steps set_saga]. rewrite He. unfold CreateOrderSaga.
  do 4 (erewrite execute_step_succeeds; [|unfold retries; cbn [sp_RetryCount Z.eqb]; lia|cbn [sp_Execute]; unfold set_flag; reflexivity]).
  cbn [execute_loop mbind option_bind set_saga se_Data]. eexists. split; [reflexivity|]. split; reflexivity.
Qed.

(** It completes whatever the data, with each step called once. *)
Theorem order_saga_completes ctxDone now sagaID data :
  let '(e, o) := Saga_Begin now sagaID CreateOrderSaga data NewSagaOrchestrator in
  exists e', Saga_Execute ctxDone now o e = Some (None, [EvExecute 0 false; EvExecute 1 false; EvExecute 2 false; EvExecute 3 false], e') /\
    se_State e' = SagaCompleted /\
    se_Data e' = <["shipment_created" := true]> (<["payment_charged" := true]> (<["inventory_reserved" := true]> data)).
Proof. unfold Saga_Begin. cbv zeta beta iota. apply order_saga_run; reflexivity. Qed.
