(* ===== verification/TwoPC.v ===== *)
(** * TwoPC: two-phase commit (pkg/txn/twopc.go)

    The coordinator keeps its transactions by id; callers hold pointers to the
    same records, so a transaction is named by its id.  Each call locks the
    transaction at its start and at its end and is split into the two halves
    accordingly, so that calls on one transaction can overlap.  The
    persistence callbacks, timeouts and cancelled contexts are arguments; the
    participants vote as the source lets them.  [ts_sent] records the decisions
    sent to participants.  Delays and console output are left out. *)

From S2P Require Import Prelude LockManager Ssi.

Inductive Vote := VoteCommit | VoteAbort.

#[global] Instance Vote_eq_dec : EqDecision Vote.
Proof. solve_decision. Defined.

#[global] Instance TxnState_eq_dec : EqDecision TxnState.
Proof. solve_decision. Defined.

Record Participant := mkParticipant {
  pt_NodeID : string;
  pt_ShardID : Z;
  pt_Address : string;
  pt_Voted : bool;
  pt_Vote : Vote;
  pt_Acked : bool;
}.

Record TwoPCTransaction := mkTwoPCTransaction {
  tx_TxnID : Z;
  tx_State : TxnState;
  tx_StartTime : Z;
  tx_Participants : list Participant;
}.

Record TwoPCCoordinator := mkTwoPCCoordinator {
  co_nodeID : string;
  co_transactions : gmap Z TwoPCTransaction;
  co_nextTxnID : Z;
  co_prepareTimeout : Z;
  co_commitTimeout : Z;
}.

Inductive TwoPCError := ErrWrongState | ErrPersist | ErrInterrupted | ErrTerminal | ErrTxnNotFound.

Definition NewTwoPCCoordinator (nodeID : string) : TwoPCCoordinator := mkTwoPCCoordinator nodeID ∅ 1 5000000000 10000000000.

Definition TwoPC_Begin (now : Z) (participants : list Participant) (c : TwoPCCoordinator) : TwoPCTransaction * TwoPCCoordinator :=
  let txnID := co_nextTxnID c in
  let txn := mkTwoPCTransaction txnID TxnInit now participants in
  (txn, mkTwoPCCoordinator (co_nodeID c) (<[txnID := txn]> (co_transactions c)) (u64 (txnID + 1)) (co_prepareTimeout c) (co_commitTimeout c)).

Definition set_txn (txn : TwoPCTransaction) (c : TwoPCCoordinator) : TwoPCCoordinator :=
  mkTwoPCCoordinator (co_nodeID c) (<[tx_TxnID txn := txn]> (co_transactions c)) (co_nextTxnID c) (co_prepareTimeout c) (co_commitTimeout c).

Definition set_state (state : TxnState) (txn : TwoPCTransaction) : TwoPCTransaction :=
  mkTwoPCTransaction (tx_TxnID txn) state (tx_StartTime txn) (tx_Participants txn).

(** The vote of a participant. *)
Definition sendPrepare (txnID : Z) : Vote := if txnID mod 7 =? 0 then VoteAbort else VoteCommit.

(** [Prepare] up to the sending of requests. *)
Definition prepare_start (persist : bool) (txn : TwoPCTransaction) : option TwoPCError * TwoPCTransaction :=
  if negb (bool_decide (tx_State txn = TxnInit)) then (Some ErrWrongState, txn)
  else
    let txn := set_state TxnPreparing txn in
    if persist then (None, txn) else (Some ErrPersist, set_state TxnAborting txn).

Definition record_vote (vote : Vote) (p : Participant) : Participant :=
  mkParticipant (pt_NodeID p) (pt_ShardID p) (pt_Address p) true vote (pt_Acked p).

(** The rest of [Prepare]; [interrupted] when the context ends or a vote does not come in time. *)
Definition prepare_finish (interrupted : bool) (txn : TwoPCTransaction) : (TwoPCError + bool) * TwoPCTransaction :=
  if interrupted then (inl ErrInterrupted, txn)
  else
    let votes := map (fun _ => sendPrepare (tx_TxnID txn)) (tx_Participants txn) in
    let allCommit := forallb (fun vote => negb (bool_decide (vote = VoteAbort))) votes in
    (inr allCommit,
     mkTwoPCTransaction (tx_TxnID txn) TxnPrepared (tx_StartTime txn)
       (map (record_vote (sendPrepare (tx_TxnID txn))) (tx_Participants txn))).

(** [Commit] up to the sending of the decision. *)
Definition commit_start (persist : bool) (txn : TwoPCTransaction) : option TwoPCError * TwoPCTransaction :=
  if negb (bool_decide (tx_State txn = TxnPrepared)) then (Some ErrWrongState, txn)
  else
    let txn := set_state TxnCommitting txn in
    (if persist then None else Some ErrPersist, txn).

Definition sendCommit (p : Participant) : Participant :=
  mkParticipant (pt_NodeID p) (pt_ShardID p) (pt_Address p) (pt_Voted p) (pt_Vote p) true.

(** The rest of [Commit]: the participants acknowledge; a missing one only costs time. *)
Definition commit_finish (ctxDone : bool) (txn : TwoPCTransaction) : option TwoPCError * TwoPCTransaction :=
  let txn := mkTwoPCTransaction (tx_TxnID txn) (tx_State txn) (tx_StartTime txn) (map sendCommit (tx_Participants txn)) in
  if ctxDone then (Some ErrInterrupted, txn) else (None, set_state TxnCommitted txn).

(** [Abort] up to the sending of the decision. *)
Definition abort_start (persist : bool) (txn : TwoPCTransaction) : option TwoPCError * TwoPCTransaction :=
  if bool_decide (tx_State txn = TxnCommitted) || bool_decide (tx_State txn = TxnAborted) then (Some ErrTerminal, txn)
  else (if persist then None else Some ErrPersist, set_state TxnAborting txn).

Definition abort_finish (txn : TwoPCTransaction) : TwoPCTransaction := set_state TxnAborted txn.

Definition TwoPC_GetState (txnID : Z) (c : TwoPCCoordinator) : (TwoPCError + TxnState) :=
  match co_transactions c !! txnID with Some txn => inr (tx_State txn) | None => inl ErrTxnNotFound end.

Definition in_doubt (txn : TwoPCTransaction) : bool :=
  bool_decide (tx_State txn = TxnPrepared) || bool_decide (tx_State txn = TxnCommitting).

(** The ids, in some order. *)
Definition RecoverInDoubt (c : TwoPCCoordinator) : list Z :=
  map fst (List.filter (fun x => in_doubt x.2) (map_to_list (co_transactions c))).

(** ** Whole calls

    The second component records the decisions sent: transaction, participant
    and whether it is to commit. *)

Definition sent_to (commit : bool) (txn : TwoPCTransaction) : list (Z * nat * bool) :=
  map (fun i => (tx_TxnID txn, i, commit)) (seq 0 (length (tx_Participants txn))).

Definition TwoPC_Prepare (persist interrupted : bool) (txn : TwoPCTransaction) : (TwoPCError + bool) * TwoPCTransaction :=
  let '(err, txn) := prepare_start persist txn in
  match err with Some err => (inl err, txn) | None => prepare_finish interrupted txn end.

Definition TwoPC_Commit (persist ctxDone : bool) (txn : TwoPCTransaction) : option TwoPCError * TwoPCTransaction * list (Z * nat * bool) :=
  let '(err, txn) := commit_start persist txn in
  match err with Some err => (Some err, txn, []) | None => (commit_finish ctxDone txn, sent_to true txn) end.

Definition TwoPC_Abort (persist : bool) (txn : TwoPCTransaction) : option TwoPCError * TwoPCTransaction * list (Z * nat * bool) :=
  let '(err, txn) := abort_start persist txn in
  match err with Some err => (Some err, txn, []) | None => (None, abort_finish txn, sent_to false txn) end.

(** ** Clients

    A client commits a transaction only after its [Prepare] has returned true,
    and does not abort it once it has asked for the commit. *)

Inductive phase := PStarted | PReady | PCommit | PAbort.

#[global] Instance phase_eq_dec : EqDecision phase.
Proof. solve_decision. Defined.

Record TwoSys := mkTwoSys {
  ts_co : TwoPCCoordinator;
  ts_phase : gmap Z phase;
  ts_sent : list (Z * nat * bool);
}.

Inductive two_call :=
| CBegin (now : Z) (participants : list Participant)
| CPrepare (txnID : Z) (persist interrupted : bool)
| CCommit (txnID : Z) (persist ctxDone : bool)
| CAbort (txnID : Z) (persist : bool).

Definition two_step (y : TwoSys) (o : two_call) : TwoSys :=
  let c := ts_co y in
  match o with
  | CBegin now participants =>
      let '(txn, c) := TwoPC_Begin now participants c in mkTwoSys c (<[tx_TxnID txn := PStarted]> (ts_phase y)) (ts_sent y)
  | CPrepare id persist interrupted =>
      match co_transactions c !! id with
      | Some txn =>
          let '(res, txn) := TwoPC_Prepare persist interrupted txn in
          mkTwoSys (set_txn txn c) (match res with inr true => <[id := PReady]> (ts_phase y) | _ => ts_phase y end) (ts_sent y)
      | None => y
      end
  | CCommit id persist ctxDone =>
      match co_transactions c !! id with
      | Some txn =>
          if bool_decide (ts_phase y !! id = Some PReady) then
            let '(_, txn, sent) := TwoPC_Commit persist ctxDone txn in
            mkTwoSys (set_txn txn c) (<[id := PCommit]> (ts_phase y)) (ts_sent y ++ sent)
          else y
      | None => y
      end
  | CAbort id persist =>
      match co_transactions c !! id with
      | Some txn =>
          if bool_decide (ts_phase y !! id = Some PCommit) then y
          else
            let '(_, txn, sent) := TwoPC_Abort persist txn in
            mkTwoSys (set_txn txn c) (<[id := PAbort]> (ts_phase y)) (ts_sent y ++ sent)
      | None => y
      end
  end.

Definition two_start (nodeID : string) : TwoSys := mkTwoSys (NewTwoPCCoordinator nodeID) ∅ [].
Definition two_run (calls : list two_call) (y : TwoSys) : TwoSys := fold_left two_step calls y.

(** ** The invariant *)

Definition voted_commit (txn : TwoPCTransaction) : Prop :=
  forall p, p ∈ tx_Participants txn -> pt_Voted p = true /\ pt_Vote p = VoteCommit.

(** The decision has gone to every participant. *)
Definition all_told (commit : bool) (txn : TwoPCTransaction) (sent : list (Z * nat * bool)) : Prop :=
  forall i, (i < length (tx_Participants txn))%nat -> (tx_TxnID txn, i, commit) ∈ sent.

Definition none_told (commit : bool) (id : Z) (sent : list (Z * nat * bool)) : Prop := forall i, (id, i, commit) ∉ sent.

Definition txn_ok (ph : phase) (txn : TwoPCTransaction) (sent : list (Z * nat * bool)) : Prop :=
  match ph with
  | PStarted => tx_State txn ∈ [TxnInit; TxnPreparing; TxnPrepared; TxnAborting] /\
      none_told true (tx_TxnID txn) sent /\ none_told false (tx_TxnID txn) sent
  | PReady => tx_State txn = TxnPrepared /\ voted_commit txn /\ none_told true (tx_TxnID txn) sent /\ none_told false (tx_TxnID txn) sent
  | PCommit => tx_State txn ∈ [TxnCommitting; TxnCommitted] /\ voted_commit txn /\ none_told false (tx_TxnID txn) sent /\
      (tx_State txn = TxnCommitted -> all_told true txn sent)
  | PAbort => tx_State txn ∈ [TxnAborting; TxnAborted] /\ none_told true (tx_TxnID txn) sent /\
      (tx_State txn = TxnAborted -> all_told false txn sent)
  end.

Record two_inv (n : Z) (y : TwoSys) : Prop := {
  ti_next : 1 <= co_nextTxnID (ts_co y) <= n + 1;
  ti_ids : forall id txn, co_transactions (ts_co y) !! id = Some txn -> tx_TxnID txn = id /\ id < co_nextTxnID (ts_co y);
  ti_txns : forall id txn, co_transactions (ts_co y) !! id = Some txn ->
    exists ph, ts_phase y !! id = Some ph /\ txn_ok ph txn (ts_sent y);
  ti_sent : forall id i b, (id, i, b) ∈ ts_sent y -> id < co_nextTxnID (ts_co y);
}.

Lemma sent_to_elem commit txn id i b :
  (id, i, b) ∈ sent_to commit txn <-> id = tx_TxnID txn /\ b = commit /\ (i < length (tx_Participants txn))%nat.
Proof.
  unfold sent_to. rewrite list_elem_of_In in_map_iff. split.
  - intros (j & [= <- <- <-] & Hj%in_seq). split_and!; [done..|lia].
  - intros (-> & -> & Hi). exists i. split; [done|]. apply in_seq. lia.
Qed.

(** Messages about one transaction do not matter to another. *)
Lemma txn_ok_other ph txn sent more : (forall i b, (tx_TxnID txn, i, b) ∉ more) -> txn_ok ph txn sent -> txn_ok ph txn (sent ++ more).
Proof.
  intros Hmore. assert (Hn : forall b, none_told b (tx_TxnID txn) sent -> none_told b (tx_TxnID txn) (sent ++ more)).
  { intros b Hs i [Hi|Hi]%elem_of_app; [by apply (Hs i)|by apply (Hmore i b)]. }
  assert (Ha : forall b, all_told b txn sent -> all_told b txn (sent ++ more)) by (intros b Hs i Hi; apply elem_of_app; left; by apply Hs).
  destruct ph; cbn [txn_ok]; naive_solver.
Qed.

Lemma voted_commit_prepare txn interrupted :
  (prepare_finish interrupted txn).1 = inr true -> voted_commit (prepare_finish interrupted txn).2.
Proof.
  unfold prepare_finish. destruct interrupted; [done|]. cbn [fst snd]. intros [= Hall] p Hp. cbn [tx_Participants] in Hp.
  apply list_elem_of_In, in_map_iff in Hp as (q & <- & Hq). cbn [record_vote pt_Voted pt_Vote]. split; [done|].
  rewrite forallb_forall in Hall. specialize (Hall (sendPrepare (tx_TxnID txn))).
  destruct (sendPrepare (tx_TxnID txn)); [done|]. exfalso. assert (negb (bool_decide (VoteAbort = VoteAbort)) = true); [|done].
  apply Hall, in_map_iff. by exists q.
Qed.

Lemma Prepare_ok persist interrupted txn ph sent res txn' :
  txn_ok ph txn sent -> TwoPC_Prepare persist interrupted txn = (res, txn') ->
  tx_TxnID txn' = tx_TxnID txn /\ txn_ok (match res with inr true => PReady | _ => ph end) txn' sent.
Proof.
  unfold TwoPC_Prepare, prepare_start. intros Hok H. case_bool_decide as Hst; cbn [negb] in H; [|by simplify_eq].
  assert (ph = PStarted) as ->. { destruct ph; cbn [txn_ok] in Hok; rewrite Hst in Hok; set_solver. }
  destruct Hok as (_ & Hc & Ha). destruct persist; [|simplify_eq; by split; [|cbn; split_and!; [set_solver|..]]].
  set (t := set_state TxnPreparing txn) in *. pose proof (voted_commit_prepare t interrupted) as Hv. rewrite H in Hv. cbn [fst snd] in Hv.
  unfold prepare_finish in H. destruct interrupted; [simplify_eq; by split; [|cbn; split_and!; [set_solver|..]]|].
  injection H as <- <-. split; [done|]. destruct (forallb _ _) eqn:Hall; [by split_and!; [|apply Hv|..]|]. cbn. split_and!; [set_solver|done..].
Qed.

Lemma Commit_ok persist ctxDone txn sent err txn' more :
  txn_ok PReady txn sent -> TwoPC_Commit persist ctxDone txn = (err, txn', more) ->
  tx_TxnID txn' = tx_TxnID txn /\ (forall id i b, (id, i, b) ∈ more -> id = tx_TxnID txn) /\ txn_ok PCommit txn' (sent ++ more).
Proof.
  intros (Hst & Hv & Hc & Ha). unfold TwoPC_Commit, commit_start. rewrite bool_decide_true //. cbn [negb].
  destruct persist; [|intros [= <- <- <-]; rewrite app_nil_r; split_and!; [done|by intros id i b Hx%elem_of_nil|cbn; split_and!; [set_solver|done..]]].
  unfold commit_finish. set (t := set_state TxnCommitting txn).
  assert (Hmore : forall id i b, (id, i, b) ∈ sent_to true t -> id = tx_TxnID txn /\ b = true).
  { intros id i b (-> & -> & _)%sent_to_elem. done. }
  assert (Hnone : none_told false (tx_TxnID txn) (sent ++ sent_to true t)).
  { intros i [Hi|Hi]%elem_of_app; [by apply (Ha i)|]. apply Hmore in Hi as [_ ?]. done. }
  assert (Hvc : forall p, p ∈ map sendCommit (tx_Participants t) -> pt_Voted p = true /\ pt_Vote p = VoteCommit).
  { intros p (q & <- & Hq)%list_elem_of_In%in_map_iff. cbn [sendCommit pt_Voted pt_Vote]. by apply Hv, list_elem_of_In. }
  destruct ctxDone; intros [= <- <- <-]; (split_and!; [done|by intros id i b [? _]%Hmore|cbn; split_and!; [set_solver|done|done|]]); [done|].
  intros _ i Hi. apply elem_of_app. right. apply sent_to_elem. cbn [set_state tx_Participants] in Hi. rewrite length_map in Hi. done.
Qed.

Lemma Abort_ok persist txn ph sent err txn' more :
  txn_ok ph txn sent -> ph <> PCommit -> TwoPC_Abort persist txn = (err, txn', more) ->
  tx_TxnID txn' = tx_TxnID txn /\ (forall id i b, (id, i, b) ∈ more -> id = tx_TxnID txn) /\ txn_ok PAbort txn' (sent ++ more).
Proof.
  intros Hok Hph. unfold TwoPC_Abort, abort_start.
  assert (Hc : none_told true (tx_TxnID txn) sent) by (destruct ph; cbn [txn_ok] in Hok; tauto).
  assert (Hcm : tx_State txn <> TxnCommitted).
  { intros Hst. destruct ph; cbn [txn_ok] in Hok; rewrite Hst in Hok; set_solver. }
  rewrite bool_decide_false //. cbn [orb]. case_bool_decide as Hab.
  - intros [= <- <- <-]. rewrite app_nil_r. split_and!; [done|by intros id i b Hx%elem_of_nil|].
    destruct ph; cbn [txn_ok] in Hok |- *; rewrite ?Hab in Hok |- *; set_solver.
  - destruct persist; intros [= <- <- <-]; [|rewrite app_nil_r; split_and!; [done|by intros id i b Hx%elem_of_nil|cbn; split_and!; [set_solver|done..]]].
    set (t := set_state TxnAborting txn). assert (Hmore : forall id i b, (id, i, b) ∈ sent_to false t -> id = tx_TxnID txn /\ b = false).
    { intros id i b (-> & -> & _)%sent_to_elem. done. }
    split_and!; [done|by intros id i b [? _]%Hmore|cbn; split_and!; [set_solver| |]].
    + intros i [Hi|Hi]%elem_of_app; [by apply (Hc i)|]. apply Hmore in Hi as [_ ?]. done.
    + intros _ i Hi. apply elem_of_app. right. by apply sent_to_elem.
Qed.

(** Updating one transaction. *)
Lemma two_inv_set n y id txn txn' ph ph' sent' :
  two_inv n y -> co_transactions (ts_co y) !! id = Some txn -> ts_phase y !! id = Some ph -> tx_TxnID txn' = id ->
  (forall k i b, (k, i, b) ∈ sent' -> k = id) -> txn_ok ph' txn' (ts_sent y ++ sent') ->
  two_inv n (mkTwoSys (set_txn txn' (ts_co y)) (<[id := ph']> (ts_phase y)) (ts_sent y ++ sent')).
Proof.
  intros [] Htxn Hph Hid Hsent Hok. destruct (ti_ids0 _ _ Htxn) as [_ Hlt]. constructor; cbn [ts_co ts_phase ts_sent set_txn co_transactions co_nextTxnID]; [done| | |].
  - intros k t. rewrite Hid. destruct (decide (k = id)) as [->|Hne]; [rewrite lookup_insert_eq; by intros [= <-]|]. rewrite lookup_insert_ne //. apply ti_ids0.
  - intros k t. rewrite Hid. destruct (decide (k = id)) as [->|Hne]; [rewrite !lookup_insert_eq; intros [= <-]; eauto|]. rewrite !lookup_insert_ne //.
    intros Hk. destruct (ti_txns0 _ _ Hk) as (p & Hp & Hpok). exists p. split; [done|]. apply txn_ok_other; [|done].
    intros i b Hin. destruct (ti_ids0 _ _ Hk) as [Hkid _]. apply Hsent in Hin. congruence.
  - intros k i b [Hk|Hk]%elem_of_app; [by eapply ti_sent0|]. by rewrite (Hsent _ _ _ Hk).
Qed.

Lemma two_inv_mono n y : two_inv n y -> two_inv (n + 1) y.
Proof. intros []. constructor; try done. lia. Qed.

Lemma two_step_inv n y o : two_inv n y -> 0 <= n < two64 - 2 -> two_inv (n + 1) (two_step y o).
Proof.
  intros Hinv Hn. destruct o as [now parts|id persist intr|id persist done|id persist]; cbn [two_step].
  - cbn [TwoPC_Begin tx_TxnID]. destruct Hinv. set (id := co_nextTxnID (ts_co y)) in *. rewrite u64_small; [|lia].
    assert (Hnew : co_transactions (ts_co y) !! id = None).
    { destruct (co_transactions (ts_co y) !! id) as [t|] eqn:Ht; [|done]. apply ti_ids0 in Ht. lia. }
    constructor; cbn [ts_co ts_phase ts_sent co_transactions co_nextTxnID]; [lia| | |intros k i b Hk%ti_sent0; lia].
    + intros k t. destruct (decide (k = id)) as [->|Hne]; [rewrite lookup_insert_eq; intros [= <-]; split; [done|lia]|].
      rewrite lookup_insert_ne //. intros [? ?]%ti_ids0. split; [done|lia].
    + intros k t. destruct (decide (k = id)) as [->|Hne].
      * rewrite !lookup_insert_eq. intros [= <-]. exists PStarted. split; [done|]. cbn. split_and!; [set_solver|..]; intros i Hi%ti_sent0; lia.
      * rewrite !lookup_insert_ne //. apply ti_txns0.
  - destruct (co_transactions (ts_co y) !! id) as [txn|] eqn:Htxn; [|by apply two_inv_mono].
    destruct (TwoPC_Prepare persist intr txn) as [res txn'] eqn:Hp. pose proof Hinv as [_ Hids Htxns _].
    destruct (Htxns _ _ Htxn) as (ph & Hph & Hok). destruct (Hids _ _ Htxn) as [Hid _].
    destruct (Prepare_ok _ _ _ _ _ _ _ Hok Hp) as [Hid' Hok']. apply two_inv_mono. rewrite -(app_nil_r (ts_sent y)).
    assert ((match res with inr true => <[id := PReady]> (ts_phase y) | _ => ts_phase y end) =
      <[id := match res with inr true => PReady | _ => ph end]> (ts_phase y)) as -> by (destruct res as [|[]]; rewrite ?(insert_id _ _ _ Hph) //).
    eapply two_inv_set; try done; [congruence|by intros k i b Hx%elem_of_nil|]. by rewrite app_nil_r.
  - destruct (co_transactions (ts_co y) !! id) as [txn|] eqn:Htxn; [|by apply two_inv_mono].
    case_bool_decide as Hph; [|by apply two_inv_mono]. destruct (TwoPC_Commit persist done txn) as [[err txn'] more] eqn:Hc.
    pose proof Hinv as [_ Hids Htxns _]. destruct (Htxns _ _ Htxn) as (ph & Hph' & Hok). rewrite Hph in Hph'. injection Hph' as <-.
    destruct (Hids _ _ Htxn) as [Hid _]. destruct (Commit_ok _ _ _ _ _ _ _ Hok Hc) as (Hid' & Hmore & Hok'). apply two_inv_mono.
    eapply two_inv_set; try done; [congruence|]. intros k i b Hx%Hmore. congruence.
  - destruct (co_transactions (ts_co y) !! id) as [txn|] eqn:Htxn; [|by apply two_inv_mono].
    case_bool_decide as Hph; [by apply two_inv_mono|]. destruct (TwoPC_Abort persist txn) as [[err txn'] more] eqn:Hc.
    pose proof Hinv as [_ Hids Htxns _]. destruct (Htxns _ _ Htxn) as (ph & Hph' & Hok). destruct (Hids _ _ Htxn) as [Hid _].
    destruct (Abort_ok _ _ _ _ _ _ _ Hok ltac:(congruence) Hc) as (Hid' & Hmore & Hok'). apply two_inv_mono.
    eapply two_inv_set; try done; [congruence|]. intros k i b Hx%Hmore. congruence.
Qed.

Lemma two_run_inv calls : forall n y, two_inv n y -> 0 <= n -> n + zlen calls < two64 - 1 -> two_inv (n + zlen calls) (two_run calls y).
Proof.
  induction calls as [|o calls IH]; intros n y Hinv Hn Hlen; [by rewrite zlen_nil Z.add_0_r|]. rewrite zlen_cons in Hlen |- *.
  pose proof (zlen_nonneg calls). replace (n + (zlen calls + 1)) with (n + 1 + zlen calls) by lia. apply IH; [|lia..].
  apply two_step_inv; [done|lia].
Qed.


(** ** Concrete runs *)

Definition demo_participant (nodeID : string) : Participant := mkParticipant nodeID 1 EmptyString false VoteCommit false.
Definition demo_begin : two_call := CBegin 0 [demo_participant "s1"; demo_participant "s2"].


(** The state after calls on one transaction, for the theorems below. *)
Definition seventh : TwoPCTransaction := mkTwoPCTransaction 7 TxnInit 0 [demo_participant "s1"].

(** [Commit] does not look at the votes: a transaction whose participant voted
    to abort is committed. *)
Theorem commit_ignores_votes :
  let '(res, txn) := TwoPC_Prepare true false seventh in
  res = inr false /\ TwoPC_Commit true false txn =
    (None, mkTwoPCTransaction 7 TxnCommitted 0 [mkParticipant "s1" 1 EmptyString true VoteAbort true], [(7, 0%nat, true)]).
Proof. vm_compute. done. Qed.

(** A commit whose context ends has told the participants; an abort is still
    accepted and tells them the opposite. *)
Theorem abort_after_commit_sent :
  let txn := (TwoPC_Prepare true false (mkTwoPCTransaction 1 TxnInit 0 [demo_participant "s1"])).2 in
  let '(err, txn, sent) := TwoPC_Commit true true txn in
  err = Some ErrInterrupted /\ sent = [(1, 0%nat, true)] /\ (TwoPC_Abort true txn).2 = [(1, 0%nat, false)].
Proof. vm_compute. done. Qed.

(** An abort during the prepare phase is undone: [Prepare] sets the state to
    prepared without looking, and the aborted transaction can be committed. *)
Theorem prepare_revives_aborted :
  let txn := (prepare_start true (mkTwoPCTransaction 1 TxnInit 0 [demo_participant "s1"])).2 in
  let '(_, txn, aborts) := TwoPC_Abort true txn in
  let '(res, txn) := prepare_finish false txn in
  tx_State txn = TxnPrepared /\ res = inr true /\ aborts = [(1, 0%nat, false)] /\ (TwoPC_Commit true false txn).2 = [(1, 0%nat, true)].
Proof. vm_compute. done. Qed.
