(* ===== verification/TwoPhaseCommit.v ===== *)
(** * TwoPhaseCommit: the second two-phase commit coordinator
    (pkg/txn/two_phase_commit.go)

    Transactions are found by an id made of a hybrid timestamp and the wall
    clock.  The participants are simulated by the source and always vote to
    commit; votes are collected in the order of the participants, which does
    not matter to the result; calls run one at a time.  Wall-clock readings and the text that names the
    coordinator are arguments; messages and console output are left out. *)

From S2P Require Import Prelude Bytes Hlc LockManager Ssi TwoPC.

Record TwoPhaseCommitState := mkTPCState {
  tp_Txn : Transaction;
  tp_Votes : gmap string Vote;
  tp_Prepared : bool;
  tp_Committed : bool;
  tp_Decision : Vote;
}.

Record TwoPhaseCommitCoordinator := mkTPC {
  tc_transactions : gmap string TwoPhaseCommitState;
  tc_participants : gmap Z Participant;
  tc_prepareTimeout : Z;
  tc_commitTimeout : Z;
  tc_hlc : HLC;
}.

Inductive TPCError := ErrNoParticipants | ErrUnknownTxn | ErrNotPrepared.

Definition NewTwoPhaseCommitCoordinator (hlc : HLC) : TwoPhaseCommitCoordinator := mkTPC ∅ ∅ 5000000000 10000000000 hlc.

Definition AddParticipant (p : Participant) (c : TwoPhaseCommitCoordinator) : TwoPhaseCommitCoordinator :=
  mkTPC (tc_transactions c) (<[pt_ShardID p := p]> (tc_participants c)) (tc_prepareTimeout c) (tc_commitTimeout c) (tc_hlc c).

Definition set_hlc (hlc : HLC) (c : TwoPhaseCommitCoordinator) : TwoPhaseCommitCoordinator :=
  mkTPC (tc_transactions c) (tc_participants c) (tc_prepareTimeout c) (tc_commitTimeout c) hlc.

Definition set_tpc (txnID : string) (st : TwoPhaseCommitState) (c : TwoPhaseCommitCoordinator) : TwoPhaseCommitCoordinator :=
  mkTPC (<[txnID := st]> (tc_transactions c)) (tc_participants c) (tc_prepareTimeout c) (tc_commitTimeout c) (tc_hlc c).

(** [fmt.Sprintf("txn-%d-%d", ts, nanos)]. *)
Definition txn_name (ts nanos : Z) : string :=
  string_of_bytes (bytes_of_string "txn-" ++ fmt_d ts ++ bytes_of_string "-" ++ fmt_d nanos).

Definition TPC_generateTxnID (ptMs nanos : Z) (c : TwoPhaseCommitCoordinator) : string * TwoPhaseCommitCoordinator :=
  let '(ts, hlc) := HLC_Now ptMs (tc_hlc c) in (txn_name ts nanos, set_hlc hlc c).

(** The nodes of the shards that are registered. *)
Definition participant_list (participants : list Z) (c : TwoPhaseCommitCoordinator) : list string :=
  omap (fun shardID => pt_NodeID <$> tc_participants c !! shardID) participants.

Definition TPC_Begin (ptMs nanos now : Z) (coordinator : string) (isolation : IsolationLevel) (participants : list Z)
    (c : TwoPhaseCommitCoordinator) : (TPCError + Transaction) * TwoPhaseCommitCoordinator :=
  let '(txnID, c) := TPC_generateTxnID ptMs nanos c in
  let participantList := participant_list participants c in
  match participantList with
  | [] => (inl ErrNoParticipants, c)
  | _ =>
      let '(readTS, hlc) := HLC_Now ptMs (tc_hlc c) in
      let c := set_hlc hlc c in
      let txn := mkTransaction txnID TxnInit isolation readTS 0 now coordinator participantList EmptyString ∅ ∅ ∅ in
      (inr txn, set_tpc txnID (mkTPCState txn ∅ false false VoteCommit) c)
  end.

Definition set_txn_state (state : TxnState) (t : Transaction) : Transaction :=
  mkTransaction (txn_ID t) state (txn_IsolationLevel t) (txn_ReadTimestamp t) (txn_CommitTimestamp t) (txn_StartTime t)
    (txn_Coordinator t) (txn_Participants t) (txn_PrimaryKey t) (txn_WriteSet t) (txn_ReadSet t) (txn_Locks t).

Definition set_commit_ts (ts : Z) (t : Transaction) : Transaction :=
  mkTransaction (txn_ID t) (txn_State t) (txn_IsolationLevel t) (txn_ReadTimestamp t) ts (txn_StartTime t)
    (txn_Coordinator t) (txn_Participants t) (txn_PrimaryKey t) (txn_WriteSet t) (txn_ReadSet t) (txn_Locks t).

(** The answer of a participant; an error is [None]. *)
Definition TPC_sendPrepare (nodeID : string) (txn : Transaction) : option Vote :=
  let hasConflict := false in if hasConflict : bool then Some VoteAbort else Some VoteCommit.

(** The loop that collects the votes. *)
Fixpoint collect_votes (results : list (string * option Vote)) (votes : gmap string Vote) (allCommit : bool) : gmap string Vote * bool :=
  match results with
  | [] => (votes, allCommit)
  | (participant, None) :: results => collect_votes results votes false
  | (participant, Some vote) :: results =>
      collect_votes results (<[participant := vote]> votes) (if bool_decide (vote = VoteAbort) then false else allCommit)
  end.

Definition TPC_Prepare (txnID : string) (c : TwoPhaseCommitCoordinator) : (TPCError + bool) * TwoPhaseCommitCoordinator :=
  match tc_transactions c !! txnID with
  | None => (inl ErrUnknownTxn, c)
  | Some st =>
      let txn := set_txn_state TxnPreparing (tp_Txn st) in
      let results := map (fun nodeID => (nodeID, TPC_sendPrepare nodeID txn)) (txn_Participants txn) in
      let '(votes, allCommit) := collect_votes results (tp_Votes st) true in
      (inr allCommit, set_tpc txnID (mkTPCState txn votes true (tp_Committed st) (if allCommit then VoteCommit else VoteAbort)) c)
  end.

Definition TPC_Commit (ptMs : Z) (txnID : string) (c : TwoPhaseCommitCoordinator) : option TPCError * TwoPhaseCommitCoordinator :=
  match tc_transactions c !! txnID with
  | None => (Some ErrUnknownTxn, c)
  | Some st =>
      if negb (tp_Prepared st) then (Some ErrNotPrepared, c)
      else
        let '(ts, hlc) := HLC_Now ptMs (tc_hlc c) in
        let c := set_hlc hlc c in
        (None, set_tpc txnID (mkTPCState (set_commit_ts ts (set_txn_state TxnCommitted (tp_Txn st))) (tp_Votes st) (tp_Prepared st) true (tp_Decision st)) c)
  end.

Definition TPC_Abort (txnID : string) (c : TwoPhaseCommitCoordinator) : option TPCError * TwoPhaseCommitCoordinator :=
  match tc_transactions c !! txnID with
  | None => (Some ErrUnknownTxn, c)
  | Some st =>
      (None, set_tpc txnID (mkTPCState (set_txn_state TxnAborted (tp_Txn st)) (tp_Votes st) (tp_Prepared st) (tp_Committed st) (tp_Decision st)) c)
  end.

Definition TPC_GetState (txnID : string) (c : TwoPhaseCommitCoordinator) : option TwoPhaseCommitState := tc_transactions c !! txnID.

(** Completed transactions that started more than five minutes ago. *)
Definition cleanable (now : Z) (st : TwoPhaseCommitState) : bool :=
  (tp_Committed st || bool_decide (txn_State (tp_Txn st) = TxnAborted)) && (300000000000 <? now - txn_StartTime (tp_Txn st)).

Definition TPC_Cleanup (now : Z) (c : TwoPhaseCommitCoordinator) : TwoPhaseCommitCoordinator :=
  mkTPC (filter (fun x => cleanable now x.2 = false) (tc_transactions c)) (tc_participants c) (tc_prepareTimeout c) (tc_commitTimeout c) (tc_hlc c).

(** ** Runs *)

Inductive tpc_call :=
| TBegin (ptMs nanos now : Z) (coordinator : string) (isolation : IsolationLevel) (participants : list Z)
| TPrepare (txnID : string)
| TCommit (ptMs : Z) (txnID : string)
| TAbort (txnID : string)
| TCleanup (now : Z)
| TAdd (p : Participant).

Definition tpc_step (c : TwoPhaseCommitCoordinator) (o : tpc_call) : TwoPhaseCommitCoordinator :=
  match o with
  | TBegin ptMs nanos now coordinator isolation participants => (TPC_Begin ptMs nanos now coordinator isolation participants c).2
  | TPrepare id => (TPC_Prepare id c).2
  | TCommit ptMs id => (TPC_Commit ptMs id c).2
  | TAbort id => (TPC_Abort id c).2
  | TCleanup now => TPC_Cleanup now c
  | TAdd p => AddParticipant p c
  end.

Definition tpc_run (calls : list tpc_call) (c : TwoPhaseCommitCoordinator) : TwoPhaseCommitCoordinator := fold_left tpc_step calls c.

Definition tpc_call_ok (o : tpc_call) : Prop :=
  match o with
  | TBegin ptMs _ _ _ _ _ | TCommit ptMs _ => 0 <= ptMs < two47
  | _ => True
  end.

(** ** The invariant *)

(** A transaction: its id holds a timestamp before its read timestamp, which
    is before its commit timestamp; prepared means all have voted to commit. *)
Record tpc_txn_ok (now : Z) (id : string) (st : TwoPhaseCommitState) : Prop := {
  to_id : txn_ID (tp_Txn st) = id;
  to_name : exists ts nanos, id = txn_name ts nanos /\ 0 <= ts < txn_ReadTimestamp (tp_Txn st);
  to_read : txn_ReadTimestamp (tp_Txn st) <= now;
  to_parts : txn_Participants (tp_Txn st) <> [];
  to_votes : tp_Prepared st = true -> tp_Decision st = VoteCommit /\
    forall p, p ∈ txn_Participants (tp_Txn st) -> tp_Votes st !! p = Some VoteCommit;
  to_commit : tp_Committed st = true -> tp_Prepared st = true /\
    txn_ReadTimestamp (tp_Txn st) < txn_CommitTimestamp (tp_Txn st) <= now;
}.

Record tpc_inv (n : Z) (c : TwoPhaseCommitCoordinator) : Prop := {
  pi_clock : clock_used n (tc_hlc c);
  pi_txns : forall id st, tc_transactions c !! id = Some st -> tpc_txn_ok (hlc_ts (tc_hlc c)) id st;
}.

Lemma collect_commits parts txn : forall votes,
  let '(votes', all) := collect_votes (map (fun nodeID => (nodeID, TPC_sendPrepare nodeID txn)) parts) votes true in
  all = true /\ (forall p, p ∈ parts -> votes' !! p = Some VoteCommit) /\ (forall p, votes !! p = Some VoteCommit -> votes' !! p = Some VoteCommit).
Proof.
  induction parts as [|q parts IH]; intros votes; [split_and!; [done|by intros p ?%elem_of_nil|done]|]. cbn [map collect_votes TPC_sendPrepare].
  specialize (IH (<[q := VoteCommit]> votes)). rewrite bool_decide_false //. destruct (collect_votes _ _ true) as [votes' all].
  destruct IH as (-> & Hp & Hk). split_and!; [done| |].
  - intros p [->|Hin]%elem_of_cons; [|by apply Hp]. apply Hk, lookup_insert_eq.
  - intros p Hv. apply Hk. destruct (decide (p = q)) as [->|Hne]; [apply lookup_insert_eq|by rewrite lookup_insert_ne].
Qed.

Lemma tpc_txn_ok_mono now now' id st : now <= now' -> tpc_txn_ok now id st -> tpc_txn_ok now' id st.
Proof. intros Hle []. constructor; try done; [lia|]. intros Hc. destruct (to_commit0 Hc). split; [done|lia]. Qed.

Lemma clock_used_mono n m h : n <= m -> clock_used n h -> clock_used m h.
Proof. intros Hnm (? & ? & ?). unfold clock_used. split_and!; [done..|lia]. Qed.

Lemma tpc_inv_mono n m c : n <= m -> tpc_inv n c -> tpc_inv m c.
Proof. intros Hnm []. constructor; [by eapply clock_used_mono|done]. Qed.

Lemma tpc_inv_hlc n c hlc : tpc_inv n c -> clock_used (n + 1) hlc -> hlc_ts (tc_hlc c) < hlc_ts hlc -> tpc_inv (n + 1) (set_hlc hlc c).
Proof.
  intros [] Hc Hlt. constructor; cbn [set_hlc tc_hlc tc_transactions]; [done|]. intros id st Hst. eapply tpc_txn_ok_mono; [|by apply pi_txns0]. lia.
Qed.

Lemma tpc_inv_set n c id st : tpc_inv n c -> tpc_txn_ok (hlc_ts (tc_hlc c)) id st -> tpc_inv n (set_tpc id st c).
Proof.
  intros [] Hok. constructor; cbn [set_tpc tc_hlc tc_transactions]; [done|]. intros k s. destruct (decide (k = id)) as [->|Hne].
  - rewrite lookup_insert_eq. by intros [= <-].
  - rewrite lookup_insert_ne //. apply pi_txns0.
Qed.

Lemma clock_used_nonneg n h : clock_used n h -> 0 <= hlc_ts h.
Proof. intros ([Hl Hc] & Hp & _). unfold hlc_ts. rewrite Pack_eq //. unfold logical_ok in Hc. lia. Qed.

(** A timestamp of the clock is fresh, so a new id is too. *)
Lemma txn_name_inj a b x y : 0 <= a < two64 -> 0 <= b < two64 -> txn_name a x = txn_name b y -> a = b.
Proof.
  intros Ha Hb H. unfold txn_name in H. apply (f_equal bytes_of_string) in H. rewrite !bytes_of_string_of_bytes in H.
  apply app_inv_head in H. by eapply fmt_d_prefix_inj.
Qed.

Lemma clock_used_i64 n h : clock_used n h -> hlc_ts h < two64.
Proof. intros ([Hl Hc] & Hp & _). unfold hlc_ts. rewrite Pack_eq //. unfold logical_ok in Hc. unfold phys_ok in Hl. lia. Qed.

Lemma tpc_step_inv n c o : tpc_inv n c -> tpc_call_ok o -> n + 2 <= LogicalMax -> tpc_inv (n + 2) (tpc_step c o).
Proof.
  intros Hinv Ho Hn. destruct o as [ptMs nanos now coord iso parts|id|ptMs id|id|now|p]; cbn [tpc_step tpc_call_ok] in *.
  - unfold TPC_Begin, TPC_generateTxnID. destruct (HLC_Now ptMs (tc_hlc c)) as [ts hlc] eqn:Hnow.
    destruct (HLC_Now_used n _ _ _ _ (pi_clock _ _ Hinv) ltac:(lia) Ho Hnow) as (Hc1 & Hlt1 & ->).
    assert (Hinv1 : tpc_inv (n + 1) (set_hlc hlc c)) by by apply tpc_inv_hlc.
    destruct (participant_list parts (set_hlc hlc c)) as [|q ps] eqn:Hps; [by eapply tpc_inv_mono; [|exact Hinv1]; lia|].
    cbn [set_hlc tc_hlc]. destruct (HLC_Now ptMs hlc) as [readTS hlc2] eqn:Hnow2.
    destruct (HLC_Now_used (n + 1) _ _ _ _ Hc1 ltac:(lia) Ho Hnow2) as (Hc2 & Hlt2 & ->). cbn [snd].
    replace (n + 2) with (n + 1 + 1) in * by lia. apply tpc_inv_set; [by apply tpc_inv_hlc|].
    constructor; cbn; try done. exists (hlc_ts hlc), nanos. split; [done|]. pose proof (clock_used_nonneg _ _ Hc1). lia.
  - unfold TPC_Prepare. destruct (tc_transactions c !! id) as [st|] eqn:Hst; [|by eapply tpc_inv_mono; [|exact Hinv]; lia].
    pose proof (collect_commits (txn_Participants (tp_Txn st)) (set_txn_state TxnPreparing (tp_Txn st)) (tp_Votes st)) as Hcol.
    cbn [set_txn_state txn_Participants] in *. destruct (collect_votes _ _ _) as [votes all]. destruct Hcol as (-> & Hv & _). cbn [snd].
    eapply tpc_inv_mono; [|apply tpc_inv_set; [exact Hinv|]]; [lia|]. destruct (pi_txns _ _ Hinv _ _ Hst). constructor; cbn; try done.
    intros Hc. split; [done|]. by apply to_commit0.
  - unfold TPC_Commit. destruct (tc_transactions c !! id) as [st|] eqn:Hst; [|by eapply tpc_inv_mono; [|exact Hinv]; lia].
    destruct (tp_Prepared st) eqn:Hp; cbn [negb]; [|by eapply tpc_inv_mono; [|exact Hinv]; lia].
    destruct (HLC_Now ptMs (tc_hlc c)) as [ts hlc] eqn:Hnow. cbn [snd].
    destruct (HLC_Now_used n _ _ _ _ (pi_clock _ _ Hinv) ltac:(lia) Ho Hnow) as (Hc1 & Hlt1 & ->).
    eapply tpc_inv_mono; [|apply tpc_inv_set; [by apply tpc_inv_hlc|]]; [lia|]. cbn [set_hlc tc_hlc].
    destruct (pi_txns _ _ Hinv _ _ Hst). constructor; cbn; try done; [lia|by intros _; apply to_votes0|intros _; split; [done|lia]].
  - unfold TPC_Abort. destruct (tc_transactions c !! id) as [st|] eqn:Hst; [|by eapply tpc_inv_mono; [|exact Hinv]; lia]. cbn [snd].
    eapply tpc_inv_mono; [|apply tpc_inv_set; [exact Hinv|]]; [lia|]. by destruct (pi_txns _ _ Hinv _ _ Hst).
  - destruct Hinv. constructor; cbn; [by eapply clock_used_mono; [|done]; lia|]. intros id st [Hst _]%map_lookup_filter_Some. by apply pi_txns0.
  - destruct Hinv. constructor; cbn; [by eapply clock_used_mono; [|done]; lia|done].
Qed.

Lemma tpc_run_inv calls : forall n c, tpc_inv n c -> Forall tpc_call_ok calls -> n + 2 * zlen calls <= LogicalMax ->
  tpc_inv (n + 2 * zlen calls) (tpc_run calls c).
Proof.
  induction calls as [|o calls IH]; intros n c Hinv Hok Hn; [by rewrite zlen_nil Z.add_0_r|]. apply Forall_cons in Hok as [Ho Hok].
  rewrite zlen_cons in Hn |- *. pose proof (zlen_nonneg calls). replace (n + 2 * (zlen calls + 1)) with (n + 2 + 2 * zlen calls) by lia.
  apply IH; [|done|lia]. apply tpc_step_inv; [done|done|lia].
Qed.

(** The coordinator assigns its timestamps in the order of the protocol.
    In every run, whatever calls are made on whatever transactions, a
    transaction counts as committed only after all participants have voted to
    commit, its commit timestamp is after its read timestamp, and a new
    transaction gets an id that no earlier one has. *)
Theorem tpc_commit_order (nodeID : string) (calls : list tpc_call) (id : string) (st : TwoPhaseCommitState)
  (Hcalls : Forall tpc_call_ok calls) (Hlen : 2 * zlen calls + 1 <= LogicalMax)
  (Hst : tc_transactions (tpc_run calls (NewTwoPhaseCommitCoordinator (NewHLC nodeID))) !! id = Some st) :
  txn_ID (tp_Txn st) = id /\
  (tp_Committed st = true ->
     (forall p, p ∈ txn_Participants (tp_Txn st) -> tp_Votes st !! p = Some VoteCommit) /\
     txn_ReadTimestamp (tp_Txn st) < txn_CommitTimestamp (tp_Txn st)) /\
  (forall ptMs nanos, 0 <= ptMs < two47 ->
     (TPC_generateTxnID ptMs nanos (tpc_run calls (NewTwoPhaseCommitCoordinator (NewHLC nodeID)))).1 <> id).
Proof.
  set (c := tpc_run calls _) in *. assert (Hinv : tpc_inv (0 + 2 * zlen calls) c).
  { pose proof (zlen_nonneg calls). apply tpc_run_inv; [|done|lia]. by constructor. }
  destruct Hinv as [Hclock Htxns]. destruct (Htxns _ _ Hst). split_and!; [done| |].
  - intros Hc. destruct (to_commit0 Hc) as [Hp Hlt]. split; [by apply to_votes0|lia].
  - intros ptMs nanos Hp. unfold TPC_generateTxnID. destruct (HLC_Now ptMs (tc_hlc c)) as [ts hlc] eqn:Hnow. cbn [fst].
    destruct (HLC_Now_used _ _ _ _ _ Hclock ltac:(lia) Hp Hnow) as (Hc1 & Hlt1 & ->). destruct to_name0 as (ts0 & n0 & -> & Hts0).
    pose proof (clock_used_i64 _ _ Hc1). intros Heq%txn_name_inj; lia.
Qed.

Definition demo_tpc_calls : list tpc_call :=
  [TAdd (demo_participant "s1"); TBegin 1000 7 7 "c" Serializable [1; 2]; TPrepare (txn_name 65536000 7); TCommit 1001 (txn_name 65536000 7)].

Lemma tpc_commit_order_witness :
  exists st,
  let id := txn_name 65536000 7 in
  txn_ID (tp_Txn st) = id /\
  (tp_Committed st = true ->
     (forall p, p ∈ txn_Participants (tp_Txn st) -> tp_Votes st !! p = Some VoteCommit) /\
     txn_ReadTimestamp (tp_Txn st) < txn_CommitTimestamp (tp_Txn st)) /\
  (forall ptMs nanos, 0 <= ptMs < two47 ->
     (TPC_generateTxnID ptMs nanos (tpc_run demo_tpc_calls (NewTwoPhaseCommitCoordinator (NewHLC "c")))).1 <> id).
Proof.
  eexists. apply (tpc_commit_order "c" demo_tpc_calls (txn_name 65536000 7)).
  - unfold demo_tpc_calls. repeat constructor; vm_compute; congruence.
  - vm_compute. congruence.
  - vm_compute. reflexivity.
Defined.

(** An abort after the commit is accepted and changes the state; a commit
    after an abort too. *)
Theorem tpc_abort_after_commit :
  let c := tpc_run demo_tpc_calls (NewTwoPhaseCommitCoordinator (NewHLC "c")) in
  (TPC_Abort (txn_name 65536000 7) c).1 = None /\
  (TPC_GetState (txn_name 65536000 7) (TPC_Abort (txn_name 65536000 7) c).2 ≫= fun st => Some (txn_State (tp_Txn st), tp_Committed st)) =
    Some (TxnAborted, true).
Proof. vm_compute. done. Qed.
