(* ===== verification/Percolator.v ===== *)
(** * Percolator: transactions coordinated by a primary key
    (pkg/txn/percolator.go)

    The storage is simulated by the source: prewriting and committing a key
    print a line and succeed.  These lines are kept as the trace of a run, so
    that the order in which keys are prewritten and committed can be stated.
    The iteration order over the write set is an argument.  The goroutine that
    commits the secondary keys after [Commit] returns is a step of its own,
    one key at a time. *)

From S2P Require Import Prelude Bytes Hlc LockManager Ssi TwoPC TwoPhaseCommit.

Record PercolatorTransaction := mkPercolatorTransaction {
  pc_Transaction : Transaction;
  pc_PrimaryKey : string;
  pc_PrimaryLock : option Lock;
  pc_SecondaryKeys : list string;
  pc_prewriteSuccess : gmap string bool;
  pc_commitStarted : bool;
}.

Record PercolatorClient := mkPercolatorClient {
  cl_hlc : HLC;
  cl_lockTimeout : Z;
  cl_batchSize : Z;
}.

(** The lines printed by the operations. *)
Inductive pevent :=
| EPrewrite (key : string) (isPrimary : bool)
| ECommit (key : string) (isPrimary : bool)
| ECleanup.

Inductive PercError := ErrNoKeys | ErrPrewrite (key : string) | ErrPrimaryNotPrewritten | ErrCommitPrimary | ErrKeyLocked (key txnID : string).

Definition NewPercolatorClient (hlc : HLC) : PercolatorClient := mkPercolatorClient hlc 5000000000 100.

Definition cl_Now (ptMs : Z) (c : PercolatorClient) : Z * PercolatorClient :=
  let '(ts, hlc) := HLC_Now ptMs (cl_hlc c) in (ts, mkPercolatorClient hlc (cl_lockTimeout c) (cl_batchSize c)).

Definition Perc_generateTxnID (ptMs nanos : Z) (c : PercolatorClient) : string * PercolatorClient :=
  let '(ts, c) := cl_Now ptMs c in
  (string_of_bytes (bytes_of_string "percolator-" ++ fmt_d ts ++ bytes_of_string "-" ++ fmt_d nanos), c).

Definition Perc_Begin (ptMs nanos now : Z) (isolation : IsolationLevel) (c : PercolatorClient) : PercolatorTransaction * PercolatorClient :=
  let '(txnID, c) := Perc_generateTxnID ptMs nanos c in
  let '(readTS, c) := cl_Now ptMs c in
  (mkPercolatorTransaction (mkTransaction txnID TxnInit isolation readTS 0 now EmptyString [] EmptyString ∅ ∅ ∅) EmptyString None [] ∅ false, c).

(** A write, and the primary key on the first write. *)
Definition add_intent (intent : WriteIntent) (t : PercolatorTransaction) : PercolatorTransaction :=
  let x := pc_Transaction t in
  mkPercolatorTransaction
    (mkTransaction (txn_ID x) (txn_State x) (txn_IsolationLevel x) (txn_ReadTimestamp x) (txn_CommitTimestamp x) (txn_StartTime x)
       (txn_Coordinator x) (txn_Participants x) (txn_PrimaryKey x) (<[wi_Key intent := intent]> (txn_WriteSet x)) (txn_ReadSet x) (txn_Locks x))
    (if String.eqb (pc_PrimaryKey t) EmptyString then wi_Key intent else pc_PrimaryKey t)
    (pc_PrimaryLock t) (pc_SecondaryKeys t) (pc_prewriteSuccess t) (pc_commitStarted t).

Definition Perc_Set (key : string) (value : list ascii) (t : PercolatorTransaction) : PercolatorTransaction :=
  add_intent (mkWriteIntent key value [] (txn_ReadTimestamp (pc_Transaction t)) false) t.

Definition Perc_Delete (key : string) (t : PercolatorTransaction) : PercolatorTransaction :=
  add_intent (mkWriteIntent key [] [] (txn_ReadTimestamp (pc_Transaction t)) true) t.

(** The storage read is simulated and finds nothing. *)
Definition Perc_Get (key : string) (t : PercolatorTransaction) : option (list ascii) * PercolatorTransaction :=
  let x := pc_Transaction t in
  match txn_WriteSet x !! key with
  | Some intent => (if wi_Deleted intent then None else Some (wi_Value intent), t)
  | None =>
      (None, mkPercolatorTransaction
        (mkTransaction (txn_ID x) (txn_State x) (txn_IsolationLevel x) (txn_ReadTimestamp x) (txn_CommitTimestamp x) (txn_StartTime x)
           (txn_Coordinator x) (txn_Participants x) (txn_PrimaryKey x) (txn_WriteSet x) (<[key := txn_ReadTimestamp x]> (txn_ReadSet x)) (txn_Locks x))
        (pc_PrimaryKey t) (pc_PrimaryLock t) (pc_SecondaryKeys t) (pc_prewriteSuccess t) (pc_commitStarted t))
  end.

Definition set_success (m : gmap string bool) (t : PercolatorTransaction) : PercolatorTransaction :=
  mkPercolatorTransaction (pc_Transaction t) (pc_PrimaryKey t) (pc_PrimaryLock t) (pc_SecondaryKeys t) m (pc_commitStarted t).

Definition set_secondary (keys : list string) (t : PercolatorTransaction) : PercolatorTransaction :=
  mkPercolatorTransaction (pc_Transaction t) (pc_PrimaryKey t) (pc_PrimaryLock t) keys (pc_prewriteSuccess t) (pc_commitStarted t).

(** The error is [false] for nil. *)
Definition prewriteKey (t : PercolatorTransaction) (key : string) (isPrimary : bool) : bool * list pevent := (false, [EPrewrite key isPrimary]).

Definition commitKey (t : PercolatorTransaction) (key : string) (isPrimary : bool) : bool * list pevent := (false, [ECommit key isPrimary]).

Definition Perc_Cleanup (t : PercolatorTransaction) : PercolatorTransaction * list pevent :=
  (set_success (filter (fun x => txn_WriteSet (pc_Transaction t) !! x.1 = None) (pc_prewriteSuccess t)) t, [ECleanup]).

Fixpoint prewrite_loop (keys : list string) (t : PercolatorTransaction) : option PercError * PercolatorTransaction * list pevent :=
  match keys with
  | [] => (None, t, [])
  | key :: keys =>
      let '(err, ev) := prewriteKey t key false in
      if err then let '(t, ev') := Perc_Cleanup t in (Some (ErrPrewrite key), t, ev ++ ev')
      else
        let '(e, t, evs) := prewrite_loop keys (set_success (<[key := true]> (pc_prewriteSuccess t)) t) in
        (e, t, ev ++ evs)
  end.

(** [order] lists the keys of the write set in the order of the iteration. *)
Definition Perc_Prewrite (order : list string) (t : PercolatorTransaction) : option PercError * PercolatorTransaction * list pevent :=
  if String.eqb (pc_PrimaryKey t) EmptyString then (Some ErrNoKeys, t, [])
  else
    let secondaryKeys := filter (fun key => key <> pc_PrimaryKey t) order in
    let t := set_secondary secondaryKeys t in
    match prewrite_loop secondaryKeys t with
    | (Some e, t, evs) => (Some e, t, evs)
    | (None, t, evs) =>
        let '(err, ev) := prewriteKey t (pc_PrimaryKey t) true in
        if err then let '(t, ev') := Perc_Cleanup t in (Some (ErrPrewrite (pc_PrimaryKey t)), t, evs ++ ev ++ ev')
        else (None, set_success (<[pc_PrimaryKey t := true]> (pc_prewriteSuccess t)) t, evs ++ ev)
    end.

(** Up to and including the commit of the primary key; the boolean says that
    the goroutine for the secondary keys has been started. *)
Definition Perc_Commit (ptMs : Z) (t : PercolatorTransaction) (c : PercolatorClient) :
    option PercError * PercolatorTransaction * PercolatorClient * list pevent * bool :=
  if negb (default false (pc_prewriteSuccess t !! pc_PrimaryKey t)) then (Some ErrPrimaryNotPrewritten, t, c, [], false)
  else
    let '(commitTs, c) := cl_Now ptMs c in
    let t := mkPercolatorTransaction (set_commit_ts commitTs (pc_Transaction t)) (pc_PrimaryKey t) (pc_PrimaryLock t) (pc_SecondaryKeys t) (pc_prewriteSuccess t) true in
    let '(err, ev) := commitKey t (pc_PrimaryKey t) true in
    if err then (Some ErrCommitPrimary, t, c, ev, false)
    else
      (None, mkPercolatorTransaction (set_txn_state TxnCommitted (pc_Transaction t)) (pc_PrimaryKey t) (pc_PrimaryLock t) (pc_SecondaryKeys t)
               (pc_prewriteSuccess t) (pc_commitStarted t), c, ev, true).

Definition Perc_Abort (t : PercolatorTransaction) : PercolatorTransaction * list pevent :=
  let '(t, ev) := Perc_Cleanup t in
  (mkPercolatorTransaction (set_txn_state TxnAborted (pc_Transaction t)) (pc_PrimaryKey t) (pc_PrimaryLock t) (pc_SecondaryKeys t)
     (pc_prewriteSuccess t) (pc_commitStarted t), ev).

(** The zero time is before every other. *)
Definition CheckAndResolve (now : Z) (key : string) (lock : Lock) : bool * option PercError :=
  if match lk_ExpiresAt lock with Some t => t <? now | None => true end then (true, None)
  else (false, Some (ErrKeyLocked key (lk_TxnID lock))).

(** ** Runs of one transaction *)

(** [gs_waiting] goroutines have not started; each of [gs_running] holds the
    keys it has left. *)
Record PSys := mkPSys {
  gs_client : PercolatorClient;
  gs_txn : PercolatorTransaction;
  gs_waiting : nat;
  gs_running : list (list string);
  gs_trace : list pevent;
}.

Inductive perc_call :=
| PSet (key : string) (value : list ascii)
| PDelete (key : string)
| PGet (key : string)
| PPrewrite (order : list string)
| PCommit (ptMs : Z)
| PAbort
| PGoStart
| PGoStep (i : nat).

Definition perc_step (s : PSys) (o : perc_call) : PSys :=
  let c := gs_client s in let t := gs_txn s in let w := gs_waiting s in let r := gs_running s in let tr := gs_trace s in
  match o with
  | PSet key value => mkPSys c (Perc_Set key value t) w r tr
  | PDelete key => mkPSys c (Perc_Delete key t) w r tr
  | PGet key => mkPSys c (Perc_Get key t).2 w r tr
  | PPrewrite order => let '(_, t, ev) := Perc_Prewrite order t in mkPSys c t w r (tr ++ ev)
  | PCommit ptMs => let '(_, t, c, ev, go) := Perc_Commit ptMs t c in mkPSys c t (if go then S w else w) r (tr ++ ev)
  | PAbort => let '(t, ev) := Perc_Abort t in mkPSys c t w r (tr ++ ev)
  | PGoStart => match w with O => s | S w => mkPSys c t w (r ++ [pc_SecondaryKeys t]) tr end
  | PGoStep i =>
      match r !! i with
      | Some (key :: keys) => mkPSys c t w (<[i := keys]> r) (tr ++ (commitKey t key false).2)
      | _ => s
      end
  end.

Definition perc_run (calls : list perc_call) (s : PSys) : PSys := fold_left perc_step calls s.

Definition perc_start (ptMs nanos now : Z) (isolation : IsolationLevel) (c : PercolatorClient) : PSys :=
  let '(t, c) := Perc_Begin ptMs nanos now isolation c in mkPSys c t 0 [] [].

(** [order] lists each key of the write set once. *)
Definition perc_call_ok (s : PSys) (o : perc_call) : Prop :=
  match o with
  | PPrewrite order => order ≡ₚ elements (dom (txn_WriteSet (pc_Transaction (gs_txn s))))
  | PCommit ptMs => 0 <= ptMs < two47
  | _ => True
  end.

Fixpoint perc_ok (calls : list perc_call) (s : PSys) : Prop :=
  match calls with
  | [] => True
  | o :: calls => perc_call_ok s o /\ perc_ok calls (perc_step s o)
  end.

(** ** The order of prewrites and commits *)

Definition prewritten (tr : list pevent) (key : string) : Prop := EPrewrite key true ∈ tr \/ EPrewrite key false ∈ tr.

(** Each commit in the trace comes after the prewrite of its key, and a
    commit of a secondary key after that of the primary key. *)
Definition ordered (primary : string) (tr : list pevent) : Prop :=
  forall i key p, tr !! i = Some (ECommit key p) ->
  prewritten (take i tr) key /\ (if p : bool then key = primary else ECommit primary true ∈ take i tr).

Definition no_commit (evs : list pevent) : Prop := forall key p, ECommit key p ∉ evs.

Lemma prewritten_app tr evs key : prewritten tr key -> prewritten (tr ++ evs) key.
Proof. unfold prewritten. rewrite !elem_of_app. tauto. Qed.

#[local] Hint Resolve prewritten_app : core.

Lemma ordered_app primary tr evs : ordered primary tr -> no_commit evs -> ordered primary (tr ++ evs).
Proof.
  intros Ho Hn i key p [Hi|[Hle Hi]]%lookup_app_Some.
  - pose proof (lookup_lt_Some _ _ _ Hi). rewrite take_app_le; [|lia]. by apply Ho.
  - apply list_elem_of_lookup_2 in Hi. by apply Hn in Hi.
Qed.

Lemma ordered_snoc primary tr key p : ordered primary tr -> prewritten tr key ->
  (if p : bool then key = primary else ECommit primary true ∈ tr) -> ordered primary (tr ++ [ECommit key p]).
Proof.
  intros Ho Hk Hp i key' p' [Hi|[Hle Hi]]%lookup_app_Some.
  - pose proof (lookup_lt_Some _ _ _ Hi). rewrite take_app_le; [|lia]. by apply Ho.
  - assert (i = length tr) as -> by (apply lookup_lt_Some in Hi; cbn in Hi; lia). rewrite Nat.sub_diag in Hi.
    injection Hi as <- <-. by rewrite take_app_length.
Qed.

(** The keys of [prewrite_loop] are marked and prewritten in their order. *)
Lemma prewrite_loop_eq keys : forall t,
  prewrite_loop keys t = (None, set_success (foldl (fun m key => <[key := true]> m) (pc_prewriteSuccess t) keys) t, map (fun k => EPrewrite k false) keys).
Proof. induction keys as [|k keys IH]; intros t; [by destruct t|]. cbn [prewrite_loop prewriteKey]. by rewrite IH. Qed.

Lemma Perc_Prewrite_eq order t : pc_PrimaryKey t <> EmptyString ->
  let secs := filter (fun key => key <> pc_PrimaryKey t) order in
  Perc_Prewrite order t =
    (None, set_success (<[pc_PrimaryKey t := true]> (foldl (fun m key => <[key := true]> m) (pc_prewriteSuccess t) secs)) (set_secondary secs t),
     map (fun k => EPrewrite k false) secs ++ [EPrewrite (pc_PrimaryKey t) true]).
Proof. intros Hne. unfold Perc_Prewrite. rewrite (proj2 (String.eqb_neq _ _) Hne) prewrite_loop_eq. done. Qed.

Lemma foldl_marks (keys : list string) : forall (m : gmap string bool) k,
  foldl (fun m key => <[key := true]> m) m keys !! k = if bool_decide (k ∈ keys) then Some true else m !! k.
Proof.
  induction keys as [|x keys IH]; intros m k; [done|]. cbn [foldl]. rewrite IH. destruct (decide (k = x)) as [->|Hne].
  - rewrite lookup_insert_eq (bool_decide_true (x ∈ x :: keys)); [by case_bool_decide|]. apply elem_of_cons. by left.
  - rewrite lookup_insert_ne //. rewrite (bool_decide_ext (k ∈ x :: keys) (k ∈ keys)) //. rewrite elem_of_cons. naive_solver.
Qed.

(** ** The invariant of a run *)

Record perc_inv (n : Z) (s : PSys) : Prop := {
  qi_clock : clock_used n (cl_hlc (gs_client s));
  qi_read : txn_ReadTimestamp (pc_Transaction (gs_txn s)) <= hlc_ts (cl_hlc (gs_client s));
  qi_ordered : ordered (pc_PrimaryKey (gs_txn s)) (gs_trace s);
  qi_none : pc_PrimaryKey (gs_txn s) = EmptyString -> pc_prewriteSuccess (gs_txn s) = ∅ /\ no_commit (gs_trace s);
  qi_marks : forall k, pc_prewriteSuccess (gs_txn s) !! k = Some true -> prewritten (gs_trace s) k;
  qi_secs : forall k, k ∈ pc_SecondaryKeys (gs_txn s) -> prewritten (gs_trace s) k;
  qi_wait : gs_waiting s <> 0%nat -> ECommit (pc_PrimaryKey (gs_txn s)) true ∈ gs_trace s;
  qi_run : forall keys, keys ∈ gs_running s -> ECommit (pc_PrimaryKey (gs_txn s)) true ∈ gs_trace s /\ forall k, k ∈ keys -> prewritten (gs_trace s) k;
  qi_committed : txn_State (pc_Transaction (gs_txn s)) = TxnCommitted -> ECommit (pc_PrimaryKey (gs_txn s)) true ∈ gs_trace s /\
    txn_ReadTimestamp (pc_Transaction (gs_txn s)) < txn_CommitTimestamp (pc_Transaction (gs_txn s));
}.

Lemma no_commit_ordered primary tr : no_commit tr -> ordered primary tr.
Proof. intros Hn i key p Hi%list_elem_of_lookup_2. by apply Hn in Hi. Qed.

Lemma no_commit_app tr evs : no_commit tr -> no_commit evs -> no_commit (tr ++ evs).
Proof. intros H1 H2 key p. rewrite elem_of_app. intros [H|H]; [by apply H1 in H|by apply H2 in H]. Qed.

Lemma perc_inv_mono n m s : n <= m -> perc_inv n s -> perc_inv m s.
Proof. intros Hnm []. constructor; try done. by eapply clock_used_mono. Qed.

(** Lines that are not commits keep the invariant. *)
Lemma perc_inv_trace n c t w r tr evs : perc_inv n (mkPSys c t w r tr) -> no_commit evs -> perc_inv n (mkPSys c t w r (tr ++ evs)).
Proof.
  intros [] Hn. constructor; cbn in *; try done.
  - by apply ordered_app.
  - intros Hp. destruct (qi_none0 Hp). split; [done|by apply no_commit_app].
  - eauto.
  - eauto.
  - intros Hw. apply elem_of_app. eauto.
  - intros keys Hk. destruct (qi_run0 _ Hk) as [Hc Hall]. split; [apply elem_of_app; eauto|eauto].
  - intros Hc. destruct (qi_committed0 Hc). split; [apply elem_of_app; eauto|done].
Qed.

Lemma perc_inv_intent n c t w r tr i : perc_inv n (mkPSys c t w r tr) -> perc_inv n (mkPSys c (add_intent i t) w r tr).
Proof.
  intros []. unfold add_intent. destruct (String.eqb_spec (pc_PrimaryKey t) EmptyString) as [He|Hne]; constructor; cbn in *; try done.
  - destruct (qi_none0 He) as [_ Hn]. by apply no_commit_ordered.
  - intros _. by apply qi_none0.
  - destruct (qi_none0 He) as [_ Hn]. intros Hw%qi_wait0. by apply Hn in Hw.
  - destruct (qi_none0 He) as [_ Hn]. intros keys Hk. destruct (qi_run0 _ Hk) as [Hc _]. by apply Hn in Hc.
  - destruct (qi_none0 He) as [_ Hn]. intros Hc. destruct (qi_committed0 Hc) as [Hc' _]. by apply Hn in Hc'.
Qed.

Lemma perc_inv_get n c t w r tr key : perc_inv n (mkPSys c t w r tr) -> perc_inv n (mkPSys c (Perc_Get key t).2 w r tr).
Proof. intros Hinv. unfold Perc_Get. destruct (txn_WriteSet _ !! key); [done|]. by destruct Hinv. Qed.

Lemma perc_inv_prewrite n c t w r tr order : perc_inv n (mkPSys c t w r tr) ->
  perc_inv n (perc_step (mkPSys c t w r tr) (PPrewrite order)).
Proof.
  intros Hinv. cbn [perc_step gs_client gs_txn gs_waiting gs_running gs_trace].
  destruct (String.eqb_spec (pc_PrimaryKey t) EmptyString) as [He|Hne].
  { unfold Perc_Prewrite. rewrite He String.eqb_refl app_nil_r. done. }
  rewrite Perc_Prewrite_eq //. set (secs := filter _ order). set (evs := map _ secs ++ _).
  assert (Hn : no_commit evs).
  { intros key p. unfold evs. rewrite elem_of_app list_elem_of_singleton list_elem_of_fmap. naive_solver. }
  assert (Hsecs : forall k, k ∈ secs -> prewritten (tr ++ evs) k).
  { intros k Hk. right. unfold evs. rewrite !elem_of_app list_elem_of_fmap. right; left. eauto. }
  apply (perc_inv_trace _ _ _ _ _ _ evs) in Hinv; [|done]. destruct Hinv. constructor; cbn in *; try done.
  intros k Hk. destruct (decide (k = pc_PrimaryKey t)) as [->|Hkne].
  - left. unfold evs. rewrite !elem_of_app list_elem_of_singleton. auto.
  - rewrite lookup_insert_ne // foldl_marks in Hk. case_bool_decide; [by apply Hsecs|by apply qi_marks0].
Qed.

Lemma perc_inv_commit n c t w r tr ptMs : perc_inv n (mkPSys c t w r tr) -> 0 <= ptMs < two47 -> n < LogicalMax ->
  perc_inv (n + 1) (perc_step (mkPSys c t w r tr) (PCommit ptMs)).
Proof.
  intros Hinv Hp Hn. cbn [perc_step gs_client gs_txn gs_waiting gs_running gs_trace]. unfold Perc_Commit.
  destruct (pc_prewriteSuccess t !! pc_PrimaryKey t) as [[|]|] eqn:Hs; cbn [from_option id negb];
    [|by rewrite app_nil_r; eapply perc_inv_mono; [|exact Hinv]; lia..].
  unfold cl_Now. destruct (HLC_Now ptMs (cl_hlc c)) as [ts hlc] eqn:Hnow. cbn [commitKey].
  destruct (HLC_Now_used n _ _ _ _ (qi_clock _ _ Hinv) Hn Hp Hnow) as (Hc1 & Hlt1 & ->). destruct Hinv. cbn in *.
  assert (Hin : ECommit (pc_PrimaryKey t) true ∈ tr ++ [ECommit (pc_PrimaryKey t) true]) by (apply elem_of_app; right; by apply list_elem_of_singleton).
  constructor; cbn; try done; [lia|by apply ordered_snoc; auto| | | | |].
  - intros He. destruct (qi_none0 He) as [Hempty _]. by rewrite Hempty in Hs.
  - eauto.
  - eauto.
  - intros keys Hk. destruct (qi_run0 _ Hk). eauto.
  - intros _. split; [done|lia].
Qed.

Lemma perc_inv_abort n c t w r tr : perc_inv n (mkPSys c t w r tr) -> perc_inv n (perc_step (mkPSys c t w r tr) PAbort).
Proof.
  intros Hinv. cbn. assert (Hn : no_commit [ECleanup]) by (intros key p; rewrite list_elem_of_singleton; done).
  apply (perc_inv_trace _ _ _ _ _ _ _ ltac:(exact Hinv)) in Hn. clear Hinv. destruct Hn. constructor; cbn in *; try done.
  - intros Hp. destruct (qi_none0 Hp) as [-> Hno]. split; [apply map_filter_empty|done].
  - intros k [Hk _]%map_lookup_filter_Some. by apply qi_marks0.
Qed.

Lemma perc_inv_go n s i : perc_inv n s -> perc_inv n (perc_step s PGoStart) /\ perc_inv n (perc_step s (PGoStep i)).
Proof.
  intros Hinv. destruct s as [c t w r tr]. split; cbn [perc_step gs_client gs_txn gs_waiting gs_running gs_trace].
  - destruct w as [|w]; [done|]. destruct Hinv. constructor; cbn in *; try done; [eauto|].
    intros keys [Hk|Hk%list_elem_of_singleton]%elem_of_app; [by apply qi_run0|]. subst keys. split; [by apply qi_wait0|done].
  - destruct (r !! i) as [[|key keys]|] eqn:Hr; [done| |done]. cbn [commitKey snd].
    pose proof (list_elem_of_lookup_2 _ _ _ Hr) as Hin. destruct (qi_run _ _ Hinv _ Hin) as [Hc Hall]. cbn in Hc, Hall.
    destruct Hinv. cbn in *. constructor; cbn; try done.
    + apply ordered_snoc; [done| |done]. apply Hall. set_solver.
    + intros He. destruct (qi_none0 He) as [_ Hno]. by apply Hno in Hc.
    + eauto.
    + eauto.
    + intros _. apply elem_of_app. auto.
    + intros ks Hks. assert (Hks' : ks ∈ r \/ ks = keys).
      { apply list_elem_of_lookup in Hks as [j Hj]. apply list_lookup_insert_Some in Hj as [(_ & <- & _)|[_ Hj]]; [by right|left; by eapply list_elem_of_lookup_2]. }
      split; [apply elem_of_app; auto|]. intros k Hk. apply prewritten_app. destruct Hks' as [Hks' | ->]; [by eapply qi_run0|]. apply Hall. set_solver.
    + intros Hst. destruct (qi_committed0 Hst). split; [apply elem_of_app; auto|done].
Qed.

Lemma perc_step_inv n s o : perc_inv n s -> perc_call_ok s o -> n < LogicalMax -> perc_inv (n + 1) (perc_step s o).
Proof.
  intros Hinv Ho Hn. destruct o as [key value|key|key|order|ptMs| | |i]; destruct s as [c t w r tr];
    [| | | |by apply perc_inv_commit| | |]; (eapply (perc_inv_mono n); [lia|]).
  - by apply perc_inv_intent.
  - by apply perc_inv_intent.
  - by apply perc_inv_get.
  - by apply perc_inv_prewrite.
  - by apply perc_inv_abort.
  - by apply (perc_inv_go n _ 0%nat).
  - by apply perc_inv_go.
Qed.

Lemma perc_run_inv calls : forall n s, perc_inv n s -> perc_ok calls s -> n + zlen calls <= LogicalMax ->
  perc_inv (n + zlen calls) (perc_run calls s).
Proof.
  induction calls as [|o calls IH]; intros n s Hinv Hok Hn; [by rewrite zlen_nil Z.add_0_r|]. destruct Hok as [Ho Hok].
  rewrite zlen_cons in Hn |- *. pose proof (zlen_nonneg calls). replace (n + (zlen calls + 1)) with (n + 1 + zlen calls) by lia.
  apply IH; [|done|lia]. apply perc_step_inv; [done|done|lia].
Qed.

Lemma perc_start_inv ptMs nanos now isolation nodeID : 0 <= ptMs < two47 ->
  perc_inv 2 (perc_start ptMs nanos now isolation (NewPercolatorClient (NewHLC nodeID))).
Proof.
  intros Hp. unfold perc_start, Perc_Begin, Perc_generateTxnID, cl_Now. cbn [NewPercolatorClient cl_hlc].
  destruct (HLC_Now ptMs (NewHLC nodeID)) as [ts hlc] eqn:Hnow. cbn [cl_hlc].
  assert (Hc0 : clock_used 0 (NewHLC nodeID)) by (by vm_compute).
  destruct (HLC_Now_used 0 _ _ _ _ Hc0 ltac:(rewrite LogicalMax_eq; lia) Hp Hnow) as (Hc1 & Hlt1 & ->).
  destruct (HLC_Now ptMs hlc) as [readTS hlc2] eqn:Hnow2.
  destruct (HLC_Now_used 1 _ _ _ _ Hc1 ltac:(rewrite LogicalMax_eq; lia) Hp Hnow2) as (Hc2 & Hlt2 & ->).
  assert (Hn : no_commit []) by (intros key p; apply not_elem_of_nil).
  constructor; cbn; try done; by intros k ?%elem_of_nil.
Qed.

(** The primary key decides a Percolator transaction.  In every run of a
    transaction, with writes, prewrites, commits, aborts and the steps of the
    goroutines mixed in any order, a key is committed only after it was
    prewritten, a secondary key only after the primary key was committed, and
    no other key is ever committed as the primary one; the transaction is
    marked committed only when its primary key was, with a commit timestamp
    after its read timestamp. *)
Theorem percolator_order (ptMs nanos now : Z) (isolation : IsolationLevel) (nodeID : string) (calls : list perc_call)
  (Hpt : 0 <= ptMs < two47) (Hlen : zlen calls + 2 <= LogicalMax)
  (Hok : perc_ok calls (perc_start ptMs nanos now isolation (NewPercolatorClient (NewHLC nodeID)))) :
  let s := perc_run calls (perc_start ptMs nanos now isolation (NewPercolatorClient (NewHLC nodeID))) in
  let t := gs_txn s in
  (forall i key p, gs_trace s !! i = Some (ECommit key p) ->
     (EPrewrite key true ∈ take i (gs_trace s) \/ EPrewrite key false ∈ take i (gs_trace s)) /\
     (if p : bool then key = pc_PrimaryKey t else ECommit (pc_PrimaryKey t) true ∈ take i (gs_trace s))) /\
  (txn_State (pc_Transaction t) = TxnCommitted ->
     ECommit (pc_PrimaryKey t) true ∈ gs_trace s /\
     txn_ReadTimestamp (pc_Transaction t) < txn_CommitTimestamp (pc_Transaction t)).
Proof.
  cbn zeta. pose proof (perc_start_inv ptMs nanos now isolation nodeID Hpt) as Hinv.
  apply (perc_run_inv calls) in Hinv; [|done|lia]. destruct Hinv. split; [exact qi_ordered0|done].
Qed.

Definition demo_perc_calls : list perc_call :=
  [PSet "a" [ascii_of_nat 1]; PSet "b" [ascii_of_nat 2]; PPrewrite ["a"; "b"]; PCommit 1001; PGoStart; PGoStep 0].

Lemma percolator_order_witness :
  let s := perc_run demo_perc_calls (perc_start 1000 7 7 Serializable (NewPercolatorClient (NewHLC "n"))) in
  let t := gs_txn s in
  gs_trace s = [EPrewrite "b" false; EPrewrite "a" true; ECommit "a" true; ECommit "b" false] /\
  (forall i key p, gs_trace s !! i = Some (ECommit key p) ->
     (EPrewrite key true ∈ take i (gs_trace s) \/ EPrewrite key false ∈ take i (gs_trace s)) /\
     (if p : bool then key = pc_PrimaryKey t else ECommit (pc_PrimaryKey t) true ∈ take i (gs_trace s))) /\
  (txn_State (pc_Transaction t) = TxnCommitted ->
     ECommit (pc_PrimaryKey t) true ∈ gs_trace s /\
     txn_ReadTimestamp (pc_Transaction t) < txn_CommitTimestamp (pc_Transaction t)).
Proof.
  split; [vm_compute; reflexivity|]. apply (percolator_order 1000 7 7 Serializable "n" demo_perc_calls).
  - vm_compute. split; congruence.
  - vm_compute. congruence.
  - unfold demo_perc_calls. cbn [perc_ok]. split_and!; try exact I.
    + vm_compute. apply reflexivity.
    + vm_compute. split; congruence.
Defined.

(** ** The undisturbed path *)

(** After the prewrite of all keys, a commit followed by its goroutine
    commits every key of the write set, the primary key first. *)
Lemma go_drain c t w keys : forall tr,
  perc_run (replicate (length keys) (PGoStep 0)) (mkPSys c t w [keys] tr) = mkPSys c t w [[]] (tr ++ map (fun k => ECommit k false) keys).
Proof.
  induction keys as [|k keys IH]; intros tr; [by rewrite app_nil_r|].
  cbn [length replicate perc_run fold_left]. cbn [perc_step gs_running lookup list_lookup commitKey snd gs_client gs_txn gs_waiting gs_trace].
  rewrite [fold_left _ _ _](IH (tr ++ [ECommit k false])). cbn [map]. by rewrite -app_assoc.
Qed.

Theorem percolator_commits_all c t tr order ptMs : pc_PrimaryKey t <> EmptyString ->
  let secs := filter (fun key => key <> pc_PrimaryKey t) order in
  gs_trace (perc_run ([PPrewrite order; PCommit ptMs; PGoStart] ++ replicate (length secs) (PGoStep 0)) (mkPSys c t 0 [] tr)) =
    tr ++ map (fun k => EPrewrite k false) secs ++ [EPrewrite (pc_PrimaryKey t) true; ECommit (pc_PrimaryKey t) true] ++
    map (fun k => ECommit k false) secs.
Proof.
  intros Hne secs. unfold perc_run. rewrite fold_left_app. cbn [fold_left perc_step gs_client gs_txn gs_waiting gs_running gs_trace].
  rewrite Perc_Prewrite_eq //. cbn [perc_step gs_client gs_txn gs_waiting gs_running gs_trace]. unfold Perc_Commit.
  cbn [pc_prewriteSuccess set_success pc_PrimaryKey set_secondary]. rewrite lookup_insert_eq. cbn [from_option id negb].
  destruct (cl_Now ptMs c) as [ts c']. cbn [commitKey gs_waiting gs_client gs_txn gs_running gs_trace pc_SecondaryKeys app].
  rewrite [fold_left _ _ _]go_drain //. cbn [gs_trace]. by rewrite -!app_assoc.
Qed.

(** ** What a caller can get wrong unnoticed *)

(** A key written after the prewrite is never prewritten or committed, and the
    transaction commits all the same. *)
Theorem percolator_late_write_lost :
  let s := perc_run [PSet "a" []; PPrewrite ["a"]; PSet "b" []; PCommit 1001; PGoStart; PGoStep 0]
    (perc_start 1000 7 7 Serializable (NewPercolatorClient (NewHLC "n"))) in
  txn_State (pc_Transaction (gs_txn s)) = TxnCommitted /\ is_Some (txn_WriteSet (pc_Transaction (gs_txn s)) !! "b") /\
  gs_trace s = [EPrewrite "a" true; ECommit "a" true].
Proof. vm_compute. split_and!; [done|by eexists|done]. Qed.

(** [Abort] does not look whether the transaction was committed, and the
    goroutine goes on to commit the secondary keys after it. *)
Theorem percolator_abort_after_commit :
  let s := perc_run [PSet "a" []; PSet "b" []; PPrewrite ["b"; "a"]; PCommit 1001; PAbort; PGoStart; PGoStep 0]
    (perc_start 1000 7 7 Serializable (NewPercolatorClient (NewHLC "n"))) in
  txn_State (pc_Transaction (gs_txn s)) = TxnAborted /\
  gs_trace s = [EPrewrite "b" false; EPrewrite "a" true; ECommit "a" true; ECleanup; ECommit "b" false].
Proof. vm_compute. done. Qed.
