(* ===== verification/Memberlist.v ===== *)
(** * Memberlist: the view a node has of its cluster
    (pkg/membership/memberlist.go, manager.go and the update codec of
    grpc_transport.go)

    The callbacks are numbered; a change returns the notifications that its
    goroutines will run.  Times are in nanoseconds and arguments, the string
    forms are in DemoMembership.v. *)

From S2P Require Import Prelude.

Inductive MemberState := StateAlive | StateSuspected | StateDead | StateLeft.

#[global] Instance MemberState_eq_dec : EqDecision MemberState.
Proof. solve_decision. Defined.

Record Member := mkMember {
  mb_NodeID : string;
  mb_Address : string;
  mb_State : MemberState;
  mb_Incarnation : Z;
  mb_LastSeen : Z;
  mb_Meta : gmap string string;
}.

Definition statePriority (s : MemberState) : Z :=
  match s with StateAlive => 0 | StateSuspected => 1 | StateDead => 2 | StateLeft => 3 end.

Definition Supersedes (m other : Member) : bool :=
  if negb (String.eqb (mb_NodeID m) (mb_NodeID other)) then false
  else if mb_Incarnation other <? mb_Incarnation m then true
  else if mb_Incarnation m <? mb_Incarnation other then false
  else statePriority (mb_State other) <? statePriority (mb_State m).

Record GossipUpdate := mkGossipUpdate {
  gu_NodeID : string;
  gu_State : MemberState;
  gu_Incarnation : Z;
  gu_Address : string;
}.

Record MemberList := mkMemberList {
  ml_localID : string;
  ml_members : gmap string Member;
  ml_onJoin : list nat;
  ml_onLeave : list nat;
  ml_onSuspect : list nat;
  ml_onDead : list nat;
  ml_deadGCPeriod : Z;
  ml_recentUpdates : list GossipUpdate;
}.

(** A goroutine that will notify the callbacks of a kind. *)
Inductive notification := NotifyJoin (m : Member) | NotifyLeave (m : Member) | NotifySuspect (m : Member) | NotifyDead (m : Member).

Definition NewMemberList (now : Z) (localID : string) : MemberList :=
  mkMemberList localID {[localID := mkMember localID EmptyString StateAlive 1 now ∅]} [] [] [] [] 300000000000 [].

Definition OnJoin (fn : nat) (ml : MemberList) : MemberList :=
  mkMemberList (ml_localID ml) (ml_members ml) (ml_onJoin ml ++ [fn]) (ml_onLeave ml) (ml_onSuspect ml) (ml_onDead ml) (ml_deadGCPeriod ml) (ml_recentUpdates ml).
Definition OnLeave (fn : nat) (ml : MemberList) : MemberList :=
  mkMemberList (ml_localID ml) (ml_members ml) (ml_onJoin ml) (ml_onLeave ml ++ [fn]) (ml_onSuspect ml) (ml_onDead ml) (ml_deadGCPeriod ml) (ml_recentUpdates ml).
Definition OnSuspect (fn : nat) (ml : MemberList) : MemberList :=
  mkMemberList (ml_localID ml) (ml_members ml) (ml_onJoin ml) (ml_onLeave ml) (ml_onSuspect ml ++ [fn]) (ml_onDead ml) (ml_deadGCPeriod ml) (ml_recentUpdates ml).
Definition OnDead (fn : nat) (ml : MemberList) : MemberList :=
  mkMemberList (ml_localID ml) (ml_members ml) (ml_onJoin ml) (ml_onLeave ml) (ml_onSuspect ml) (ml_onDead ml ++ [fn]) (ml_deadGCPeriod ml) (ml_recentUpdates ml).

(** The calls a goroutine makes. *)
Definition notify (n : notification) (ml : MemberList) : list (nat * Member) :=
  match n with
  | NotifyJoin m => map (fun fn => (fn, m)) (ml_onJoin ml)
  | NotifyLeave m => map (fun fn => (fn, m)) (ml_onLeave ml)
  | NotifySuspect m => map (fun fn => (fn, m)) (ml_onSuspect ml)
  | NotifyDead m => map (fun fn => (fn, m)) (ml_onDead ml)
  end.

Definition set_members (members : gmap string Member) (ml : MemberList) : MemberList :=
  mkMemberList (ml_localID ml) members (ml_onJoin ml) (ml_onLeave ml) (ml_onSuspect ml) (ml_onDead ml) (ml_deadGCPeriod ml) (ml_recentUpdates ml).

Definition queueUpdate (update : GossipUpdate) (ml : MemberList) : MemberList :=
  let recentUpdates := ml_recentUpdates ml ++ [update] in
  mkMemberList (ml_localID ml) (ml_members ml) (ml_onJoin ml) (ml_onLeave ml) (ml_onSuspect ml) (ml_onDead ml) (ml_deadGCPeriod ml)
    (if 64 <? zlen recentUpdates then drop 1 recentUpdates else recentUpdates).

Definition update_member (now : Z) (update : GossipUpdate) : Member :=
  mkMember (gu_NodeID update) (gu_Address update) (gu_State update) (gu_Incarnation update) now ∅.

(** Whether the update is news, and the goroutines started. *)
Definition ApplyUpdate (now : Z) (update : GossipUpdate) (ml : MemberList) : bool * MemberList * list notification :=
  let newMember := update_member now update in
  match ml_members ml !! gu_NodeID update with
  | None => (true, queueUpdate update (set_members (<[gu_NodeID update := newMember]> (ml_members ml)) ml), [NotifyJoin newMember])
  | Some existing =>
      if negb (Supersedes newMember existing) then (false, ml, [])
      else
        let prevState := mb_State existing in
        let ml := set_members (<[gu_NodeID update := newMember]> (ml_members ml)) ml in
        if bool_decide (prevState = mb_State newMember) then (true, ml, [])
        else
          (true, queueUpdate update ml,
           match mb_State newMember with
           | StateSuspected => [NotifySuspect newMember]
           | StateDead => [NotifyDead newMember]
           | StateLeft => [NotifyLeave newMember]
           | StateAlive => if bool_decide (prevState = StateSuspected) || bool_decide (prevState = StateDead) then [NotifyJoin newMember] else []
           end)
  end.

Definition set_member_state (state : MemberState) (m : Member) : Member :=
  mkMember (mb_NodeID m) (mb_Address m) state (mb_Incarnation m) (mb_LastSeen m) (mb_Meta m).

Definition SuspectNode (now : Z) (nodeID : string) (ml : MemberList) : MemberList * list notification :=
  match ml_members ml !! nodeID with
  | Some member =>
      if negb (bool_decide (mb_State member = StateAlive)) then (ml, [])
      else
        let member := set_member_state StateSuspected member in
        let ml := set_members (<[nodeID := member]> (ml_members ml)) ml in
        let '(_, ml, notes) := ApplyUpdate now (mkGossipUpdate nodeID StateSuspected (mb_Incarnation member) (mb_Address member)) ml in
        (ml, notes)
  | None => (ml, [])
  end.

Definition ConfirmDead (now : Z) (nodeID : string) (ml : MemberList) : MemberList * list notification :=
  match ml_members ml !! nodeID with
  | Some member =>
      if bool_decide (mb_State member = StateDead) then (ml, [])
      else
        let member := set_member_state StateDead member in
        let ml := set_members (<[nodeID := member]> (ml_members ml)) ml in
        let '(_, ml, notes) := ApplyUpdate now (mkGossipUpdate nodeID StateDead (mb_Incarnation member) EmptyString) ml in
        (ml, notes)
  | None => (ml, [])
  end.

(** [None] is the nil pointer of a list without the local node. *)
Definition RefuteSuspicion (ml : MemberList) : option (GossipUpdate * MemberList) :=
  self ← ml_members ml !! ml_localID ml;
  let self := mkMember (mb_NodeID self) (mb_Address self) StateAlive (u64 (mb_Incarnation self + 1)) (mb_LastSeen self) (mb_Meta self) in
  Some (mkGossipUpdate (ml_localID ml) StateAlive (mb_Incarnation self) (mb_Address self),
        set_members (<[ml_localID ml := self]> (ml_members ml)) ml).

(** In the order of an iteration over the map. *)
Definition ML_Alive (ml : MemberList) : list Member :=
  List.filter (fun m => bool_decide (mb_State m = StateAlive)) (map snd (map_to_list (ml_members ml))).

Definition ML_All (ml : MemberList) : list Member := map snd (map_to_list (ml_members ml)).

Definition ML_Get (nodeID : string) (ml : MemberList) : option Member := ml_members ml !! nodeID.

Definition gc_member (now : Z) (ml : MemberList) (x : string * Member) : bool :=
  if String.eqb x.1 (ml_localID ml) then false
  else bool_decide (mb_State x.2 = StateDead) && (ml_deadGCPeriod ml <? now - mb_LastSeen x.2).

Definition ML_GC (now : Z) (ml : MemberList) : Z * MemberList :=
  (Z.of_nat (size (filter (fun x => gc_member now ml x = true) (ml_members ml))),
   set_members (filter (fun x => gc_member now ml x = false) (ml_members ml)) ml).

(** A negative [max] panics. *)
Definition RecentUpdates (max : Z) (ml : MemberList) : option (list GossipUpdate) :=
  let n := zlen (ml_recentUpdates ml) in
  let n := if max <? n then max else n in
  if n <? 0 then None else Some (take (Z.to_nat n) (ml_recentUpdates ml)).

(** ** The manager *)

Inductive ClusterEventType := EventNodeJoined | EventNodeLeft | EventNodeSuspected | EventNodeDead | EventNodeRevived.

Record ClusterEvent := mkClusterEvent {
  ce_Type : ClusterEventType;
  ce_Member : Member;
  ce_At : Z;
}.

(** The events wait in a channel of 256 places, [None] once it is closed. *)
Record MembershipManager := mkMembershipManager {
  mm_nodeID : string;
  mm_memberList : MemberList;
  mm_events : option (list ClusterEvent);
  mm_started : bool;
}.

(** The callbacks 0 to 3 are the closures given to [OnJoin] to [OnDead]. *)
Definition NewMembershipManager (now : Z) (nodeID : string) : MembershipManager :=
  mkMembershipManager nodeID (OnDead 3 (OnSuspect 2 (OnLeave 1 (OnJoin 0 (NewMemberList now nodeID))))) (Some []) false.

Definition event_type (fn : nat) : ClusterEventType :=
  match fn with O => EventNodeJoined | 1%nat => EventNodeLeft | 2%nat => EventNodeSuspected | _ => EventNodeDead end.

(** Sending to the closed channel panics. *)
Definition mm_emit (event : ClusterEvent) (m : MembershipManager) : option MembershipManager :=
  events ← mm_events m;
  Some (if zlen events <? 256 then mkMembershipManager (mm_nodeID m) (mm_memberList m) (Some (events ++ [event])) (mm_started m) else m).

(** A goroutine started by the member list. *)
Definition run_notification (now : Z) (n : notification) (m : MembershipManager) : option MembershipManager :=
  for_each (fun x m => mm_emit (mkClusterEvent (event_type x.1) x.2 now) m) (notify n (mm_memberList m)) m.

Definition MM_Stop (m : MembershipManager) : MembershipManager := mkMembershipManager (mm_nodeID m) (mm_memberList m) None (mm_started m).

Definition IsAlive (nodeID : string) (m : MembershipManager) : bool :=
  match ML_Get nodeID (mm_memberList m) with Some member => bool_decide (mb_State member = StateAlive) | None => false end.

(** ** Updates on the wire *)

Inductive pbMemberState := pbALIVE | pbSUSPECTED | pbDEAD | pbLEFT.

Record pbMember := mkPbMember {
  pb_Info : option (string * string);
  pb_State : pbMemberState;
  pb_Incarnation : Z;
  pb_LastSeen : Z;
}.

Definition EncodeUpdates (now : Z) (updates : list GossipUpdate) : list pbMember :=
  map (fun u => mkPbMember (Some (gu_NodeID u, gu_Address u))
    (match gu_State u with StateSuspected => pbSUSPECTED | StateDead => pbDEAD | StateLeft => pbLEFT | _ => pbALIVE end)
    (gu_Incarnation u) now) updates.

Definition DecodeUpdates (pbUpdates : list pbMember) : list GossipUpdate :=
  omap (fun u => match pb_Info u with
    | None => None
    | Some (id, address) =>
        Some (mkGossipUpdate id
          (match pb_State u with pbSUSPECTED => StateSuspected | pbDEAD => StateDead | pbLEFT => StateLeft | _ => StateAlive end)
          (pb_Incarnation u) address)
    end) pbUpdates.

(** ** Precedence

    The precedence of [Supersedes] is the order of one number. *)

Definition rank (incarnation : Z) (s : MemberState) : Z := 4 * incarnation + statePriority s.
Definition member_rank (m : Member) : Z := rank (mb_Incarnation m) (mb_State m).
Definition update_rank (u : GossipUpdate) : Z := rank (gu_Incarnation u) (gu_State u).

Lemma statePriority_range s : 0 <= statePriority s <= 3.
Proof. destruct s; cbn; lia. Qed.

Lemma rank_inj i s i' s' : rank i s = rank i' s' -> i = i' /\ s = s'.
Proof.
  unfold rank. intros H. pose proof (statePriority_range s). pose proof (statePriority_range s').
  assert (i = i') as -> by lia. split; [done|]. destruct s, s'; cbn in H; done || lia.
Qed.

Lemma Supersedes_rank m other : mb_NodeID m = mb_NodeID other -> Supersedes m other = (member_rank other <? member_rank m).
Proof.
  intros Hid. unfold Supersedes, member_rank, rank. rewrite Hid String.eqb_refl. cbn [negb].
  pose proof (statePriority_range (mb_State m)). pose proof (statePriority_range (mb_State other)).
  destruct (Z.ltb_spec (mb_Incarnation other) (mb_Incarnation m)); [symmetry; apply Z.ltb_lt; lia|].
  destruct (Z.ltb_spec (mb_Incarnation m) (mb_Incarnation other)); [symmetry; apply Z.ltb_ge; lia|].
  replace (mb_Incarnation m) with (mb_Incarnation other) by lia.
  destruct (Z.ltb_spec (statePriority (mb_State other)) (statePriority (mb_State m))); symmetry; [apply Z.ltb_lt|apply Z.ltb_ge]; lia.
Qed.

(** Members are filed under their own id. *)
Definition ml_wf (ml : MemberList) : Prop := forall k m, ml_members ml !! k = Some m -> mb_NodeID m = k.

Definition ranks (ml : MemberList) (k : string) : option Z := member_rank <$> ml_members ml !! k.

Definition join_rank (r : option Z) (x : Z) : option Z := Some (match r with None => x | Some y => Z.max y x end).

Lemma ApplyUpdate_members now u ml : ml_wf ml ->
  let ml' := (ApplyUpdate now u ml).1.2 in
  ml_wf ml' /\ ml_localID ml' = ml_localID ml /\
  forall k, ranks ml' k = if String.eqb (gu_NodeID u) k then join_rank (ranks ml k) (update_rank u) else ranks ml k.
Proof.
  intros Hwf. unfold ApplyUpdate. set (m := update_member now u).
  assert (Hput : forall ml', ml_members ml' = <[gu_NodeID u := m]> (ml_members ml) -> ml_wf ml' /\
    forall k, ranks ml' k = if String.eqb (gu_NodeID u) k then Some (update_rank u) else ranks ml k).
  { intros ml' Hml'. unfold ml_wf, ranks. rewrite Hml'. split.
    - intros k x [[<- <-]|[_ Hx]]%lookup_insert_Some; [done|by apply Hwf].
    - intros k. destruct (String.eqb_spec (gu_NodeID u) k) as [<-|Hne]; [by rewrite lookup_insert_eq|by rewrite lookup_insert_ne]. }
  assert (Hmr : member_rank m = update_rank u) by done.
  destruct (ml_members ml !! gu_NodeID u) as [old|] eqn:Hold; cbn [fst snd].
  - rewrite Supersedes_rank; [|by rewrite (Hwf _ _ Hold)]. rewrite Hmr. destruct (Z.ltb_spec (member_rank old) (update_rank u)) as [Hlt|Hge]; cbn [negb].
    + assert (Hjoin : join_rank (ranks ml (gu_NodeID u)) (update_rank u) = Some (update_rank u)).
      { unfold ranks, join_rank. rewrite Hold. cbn [fmap option_fmap option_map]. f_equal. lia. }
      case_bool_decide; cbn [fst snd].
      * destruct (Hput (set_members (<[gu_NodeID u := m]> (ml_members ml)) ml)) as [Hw Hr]; [done|]. split_and!; [done|done|].
        intros k. rewrite Hr. destruct (String.eqb_spec (gu_NodeID u) k) as [<-|]; [by rewrite Hjoin|done].
      * destruct (Hput (queueUpdate u (set_members (<[gu_NodeID u := m]> (ml_members ml)) ml))) as [Hw Hr]; [done|]. split_and!; [done|done|].
        intros k. rewrite Hr. destruct (String.eqb_spec (gu_NodeID u) k) as [<-|]; [by rewrite Hjoin|done].
    + split_and!; [done|done|]. intros k. destruct (String.eqb_spec (gu_NodeID u) k) as [<-|]; [|done]. unfold ranks, join_rank. rewrite Hold. cbn [fmap option_fmap option_map]. f_equal. lia.
  - destruct (Hput (queueUpdate u (set_members (<[gu_NodeID u := m]> (ml_members ml)) ml))) as [Hw Hr]; [done|]. split_and!; [done|done|].
    intros k. rewrite Hr. destruct (String.eqb_spec (gu_NodeID u) k) as [<-|]; [|done]. unfold ranks. by rewrite Hold.
Qed.

(** Updates applied one after the other, each at its time. *)
Definition apply_all (us : list (Z * GossipUpdate)) (ml : MemberList) : MemberList :=
  fold_left (fun ml x => (ApplyUpdate x.1 x.2 ml).1.2) us ml.

(** The highest precedence among the updates about a node. *)
Definition top_rank (us : list (Z * GossipUpdate)) (k : string) (r0 r : option Z) : Prop :=
  (forall x, r0 = Some x -> exists y, r = Some y /\ x <= y) /\
  (forall x, x ∈ us -> gu_NodeID x.2 = k -> exists y, r = Some y /\ update_rank x.2 <= y) /\
  (forall y, r = Some y -> r0 = Some y \/ exists x, x ∈ us /\ gu_NodeID x.2 = k /\ update_rank x.2 = y).

Lemma apply_all_ranks us : forall ml, ml_wf ml ->
  ml_wf (apply_all us ml) /\ forall k, top_rank us k (ranks ml k) (ranks (apply_all us ml) k).
Proof.
  induction us as [|[now u] us IH]; intros ml Hwf; cbn [apply_all fold_left fst snd].
  { split; [done|]. intros k. unfold top_rank. split_and!; [intros x ->; eauto with lia|by intros x ?%elem_of_nil|auto]. }
  destruct (ApplyUpdate_members now u ml Hwf) as (Hwf' & _ & Hr). destruct (IH _ Hwf') as [Hw Hall]. split; [exact Hw|].
  intros k. specialize (Hall k). rewrite Hr in Hall. unfold apply_all in Hall. destruct Hall as (H1 & H2 & H3).
  destruct (String.eqb_spec (gu_NodeID u) k) as [Hk|Hk]; unfold top_rank; split_and!.
  - intros x Hx. destruct (H1 _ eq_refl) as (y & Hy & Hle). exists y. split; [done|]. rewrite Hx in Hle. lia.
  - intros x [->|Hin]%elem_of_cons Hid; [|by apply H2]. destruct (H1 _ eq_refl) as (y & Hy & Hle). exists y. split; [done|].
    cbn [snd]. destruct (ranks ml k); lia.
  - intros y Hy. destruct (H3 y Hy) as [Hj|(x & Hx & Hid & Hrk)]; [|right; exists x; by rewrite elem_of_cons; auto].
    unfold join_rank in Hj. injection Hj as <-. destruct (ranks ml k) as [r|].
    + destruct (Z.max_spec r (update_rank u)) as [[_ ->]|[_ ->]]; [right; exists (now, u); rewrite elem_of_cons; auto|by left].
    + right. exists (now, u). rewrite elem_of_cons. auto.
  - done.
  - intros x [->|Hin]%elem_of_cons Hid; [done|by apply H2].
  - intros y Hy. destruct (H3 y Hy) as [?|(x & Hx & Hid & Hrk)]; [by left|right; exists x; by rewrite elem_of_cons; auto].
Qed.

Lemma top_rank_unique us us' k r r' : (forall u, u ∈ map snd us <-> u ∈ map snd us') ->
  top_rank us k None r -> top_rank us' k None r' -> r = r'.
Proof.
  intros Hset (_ & Ha & Hb) (_ & Ha' & Hb').
  assert (Hmove : forall (vs vs' : list (Z * GossipUpdate)) x, (forall u, u ∈ map snd vs <-> u ∈ map snd vs') -> x ∈ vs -> exists x', x' ∈ vs' /\ x'.2 = x.2).
  { intros vs vs' x Heq Hx. assert (Hin : x.2 ∈ map snd vs) by (apply list_elem_of_fmap; eauto). apply Heq, list_elem_of_fmap in Hin as (x' & -> & Hx'). eauto. }
  assert (Hle : forall (vs vs' : list (Z * GossipUpdate)) s s', (forall u, u ∈ map snd vs <-> u ∈ map snd vs') ->
    (forall y, s = Some y -> None = Some y \/ exists x, x ∈ vs /\ gu_NodeID x.2 = k /\ update_rank x.2 = y) ->
    (forall x, x ∈ vs' -> gu_NodeID x.2 = k -> exists y, s' = Some y /\ update_rank x.2 <= y) ->
    forall y, s = Some y -> exists y', s' = Some y' /\ y <= y').
  { intros vs vs' s s' Heq Hs Hs' y Hy. destruct (Hs y Hy) as [?|(x & Hx & Hid & <-)]; [done|].
    destruct (Hmove _ _ _ Heq Hx) as (x' & Hx' & Hxx). rewrite -Hxx in Hid |- *. by apply Hs'. }
  destruct r as [y|] eqn:Hr, r' as [y'|] eqn:Hr'; [| | |done].
  - destruct (Hle _ _ _ _ Hset Hb Ha' y eq_refl) as (z & [= <-] & ?).
    destruct (Hle us' us (Some y') (Some y) ltac:(intros; by rewrite Hset) Hb' Ha y' eq_refl) as (z & [= <-] & ?). f_equal. lia.
  - by destruct (Hle _ _ _ _ Hset Hb Ha' y eq_refl) as (z & ? & _).
  - by destruct (Hle us' us (Some y') None ltac:(intros; by rewrite Hset) Hb' Ha y' eq_refl) as (z & ? & _).
Qed.

Definition member_view (ml : MemberList) (k : string) : option (MemberState * Z) :=
  (fun m => (mb_State m, mb_Incarnation m)) <$> ml_members ml !! k.

Lemma ranks_view ml ml' k : ranks ml k = ranks ml' k -> member_view ml k = member_view ml' k.
Proof.
  unfold ranks, member_view. destruct (ml_members ml !! k) as [m|], (ml_members ml' !! k) as [m'|]; cbn; try done.
  intros [= H%rank_inj]. destruct H. congruence.
Qed.

Lemma NewMemberList_wf now localID : ml_wf (NewMemberList now localID).
Proof. intros k m Hm. cbn in Hm. by apply lookup_singleton_Some in Hm as [<- <-]. Qed.


Definition demo_updates : list (Z * GossipUpdate) :=
  [(1, mkGossipUpdate "b" StateAlive 1 "b:1"); (2, mkGossipUpdate "b" StateSuspected 1 "b:1"); (3, mkGossipUpdate "b" StateAlive 2 "b:1")].


(** ** Local changes *)

(** Setting the state before telling the list makes the update stale. *)
Lemma stale_update now ml k m : ml_wf ml -> ml_members ml !! k = Some m -> forall address,
  ApplyUpdate now (mkGossipUpdate k (mb_State m) (mb_Incarnation m) address) ml = (false, ml, []).
Proof.
  intros Hwf Hm address. unfold ApplyUpdate. cbn [gu_NodeID]. rewrite Hm Supersedes_rank; [|by rewrite (Hwf _ _ Hm)].
  unfold member_rank. cbn [update_member mb_State mb_Incarnation gu_State gu_Incarnation]. by rewrite Z.ltb_irrefl.
Qed.

Lemma set_members_wf k m ml : ml_wf ml -> mb_NodeID m = k -> ml_wf (set_members (<[k := m]> (ml_members ml)) ml).
Proof. intros Hwf Hm k' x H. cbn in H. apply lookup_insert_Some in H as [[<- <-]|[_ Hx]]; [done|by apply Hwf]. Qed.

Lemma SuspectNode_eq now k ml m : ml_wf ml -> ml_members ml !! k = Some m ->
  SuspectNode now k ml = (if bool_decide (mb_State m = StateAlive)
    then set_members (<[k := set_member_state StateSuspected m]> (ml_members ml)) ml else ml, []).
Proof.
  intros Hwf Hm. unfold SuspectNode. rewrite Hm. case_bool_decide; cbn [negb]; [|done].
  pose proof (set_members_wf k (set_member_state StateSuspected m) ml Hwf (Hwf _ _ Hm)) as Hwf'.
  by rewrite (stale_update now _ k (set_member_state StateSuspected m) Hwf' ltac:(cbn; by rewrite lookup_insert_eq)).
Qed.

Lemma ConfirmDead_eq now k ml m : ml_wf ml -> ml_members ml !! k = Some m ->
  ConfirmDead now k ml = (if bool_decide (mb_State m = StateDead)
    then ml else set_members (<[k := set_member_state StateDead m]> (ml_members ml)) ml, []).
Proof.
  intros Hwf Hm. unfold ConfirmDead. rewrite Hm. case_bool_decide; [done|].
  pose proof (set_members_wf k (set_member_state StateDead m) ml Hwf (Hwf _ _ Hm)) as Hwf'.
  by rewrite (stale_update now _ k (set_member_state StateDead m) Hwf' ltac:(cbn; by rewrite lookup_insert_eq)).
Qed.

(** A failure a node finds itself is never announced: suspecting a node or
    confirming its death queues no update for gossip and notifies nobody. *)
Theorem own_detection_not_announced now k ml : ml_wf ml ->
  (SuspectNode now k ml).2 = [] /\ ml_recentUpdates (SuspectNode now k ml).1 = ml_recentUpdates ml /\
  (ConfirmDead now k ml).2 = [] /\ ml_recentUpdates (ConfirmDead now k ml).1 = ml_recentUpdates ml.
Proof.
  intros Hwf. destruct (ml_members ml !! k) as [m|] eqn:Hm.
  - rewrite (SuspectNode_eq _ _ _ _ Hwf Hm) (ConfirmDead_eq _ _ _ _ Hwf Hm). by repeat case_bool_decide.
  - unfold SuspectNode, ConfirmDead. by rewrite Hm.
Qed.

(** The updates passed on are the oldest of the queue, not the most recent:
    with eight places the ninth change is not passed on. *)
Theorem oldest_updates_gossiped :
  let node i := String (ascii_of_nat (97 + i)) EmptyString in
  let us := map (fun i => (0, mkGossipUpdate (node i) StateAlive 1 EmptyString)) (seq 0 9) in
  let ml := apply_all us (NewMemberList 0 "z") in
  zlen (ml_recentUpdates ml) = 9 /\ option_map (map gu_NodeID) (RecentUpdates 8 ml) = Some (map node (seq 0 8)).
Proof. vm_compute. done. Qed.

(** No operation but the garbage collection lets a record fall behind. *)
Theorem records_only_advance now u k ml x : ml_wf ml -> ranks ml k = Some x ->
  (exists y, ranks (ApplyUpdate now u ml).1.2 k = Some y /\ x <= y) /\
  (forall j, exists y, ranks (SuspectNode now j ml).1 k = Some y /\ x <= y).
Proof.
  intros Hwf Hx. split.
  - destruct (ApplyUpdate_members now u ml Hwf) as (_ & _ & Hr). rewrite Hr Hx. destruct (String.eqb _ k); cbn; eauto with lia.
  - intros j. destruct (ml_members ml !! j) as [m|] eqn:Hm; [|unfold SuspectNode; rewrite Hm; eauto with lia].
    rewrite (SuspectNode_eq _ _ _ _ Hwf Hm). case_bool_decide as Hal; [|eauto with lia]. unfold ranks. cbn [fst set_members ml_members].
    destruct (decide (j = k)) as [->|Hne]; [|rewrite lookup_insert_ne //; eauto with lia]. rewrite lookup_insert_eq.
    unfold ranks in Hx. rewrite Hm in Hx. injection Hx as <-. eexists. split; [done|]. unfold member_rank, rank. cbn. rewrite Hal. cbn. lia.
Qed.

Lemma ApplyUpdate_queue now u ml : zlen (ml_recentUpdates ml) <= 64 -> zlen (ml_recentUpdates (ApplyUpdate now u ml).1.2) <= 64.
Proof.
  intros Hq. assert (Hqq : forall ml', ml_recentUpdates ml' = ml_recentUpdates ml -> zlen (ml_recentUpdates (queueUpdate u ml')) <= 64).
  { intros ml' He. unfold queueUpdate. cbn [ml_recentUpdates]. rewrite He. destruct (Z.ltb_spec 64 (zlen (ml_recentUpdates ml ++ [u]))); [|lia].
    unfold zlen in *. rewrite length_drop length_app. cbn. lia. }
  unfold ApplyUpdate. destruct (_ !! _) as [old|]; cbn [fst snd]; [|by apply Hqq].
  destruct (Supersedes _ _); cbn [negb]; [|done]. case_bool_decide; [done|]. cbn [fst snd]. by apply Hqq.
Qed.

(** ** The manager and the codec *)

(** The event queue keeps its bound and its order; a full one drops. *)
Theorem emit_bounded e m : forall evs, mm_events m = Some evs -> zlen evs <= 256 ->
  exists m' evs', mm_emit e m = Some m' /\ mm_events m' = Some evs' /\ zlen evs' <= 256 /\ (evs' = evs \/ evs' = evs ++ [e]).
Proof.
  intros evs Hevs Hlen. unfold mm_emit. rewrite Hevs. cbn. destruct (Z.ltb_spec (zlen evs) 256).
  - eexists _, _. split_and!; [done|done| |by right]. rewrite zlen_app zlen_cons zlen_nil. lia.
  - eexists _, _. split_and!; [done|done|done|by left].
Qed.

(** A notification that is still to run when the manager stops panics. *)
Theorem notification_after_stop_panics now m u :
  let mgr := NewMembershipManager now m in
  let '(_, ml, notes) := ApplyUpdate now u (mm_memberList mgr) in
  gu_NodeID u <> m ->
  exists n, notes = [n] /\ run_notification now n (MM_Stop (mkMembershipManager m ml (mm_events mgr) false)) = None.
Proof.
  cbn zeta. unfold ApplyUpdate. cbn [NewMembershipManager mm_memberList OnDead OnSuspect OnLeave OnJoin NewMemberList ml_members].
  destruct (decide (gu_NodeID u = m)) as [->|Hne]; [destruct (_ !! _); [destruct (negb _); [|case_bool_decide]|]; done|].
  rewrite lookup_singleton_ne //. intros _. eexists. split; [done|]. done.
Qed.

(** Updates survive the wire. *)
Theorem updates_roundtrip now us : DecodeUpdates (EncodeUpdates now us) = us.
Proof.
  induction us as [|[id st inc addr] us IH]; [done|]. destruct st; cbn; f_equal; exact IH.
Qed.
