(* ===== verification/PhiAccrual.v ===== *)
(** * PhiAccrual: the accrual failure detector (pkg/membership/phi_accrual.go)

    Intervals between heartbeats are binary64 milliseconds.  [math.Erfc] and
    [math.Log10] are parameters; all other arithmetic is exact to the bit.  The
    callbacks are returned to the caller; times are in nanoseconds. *)

From Stdlib Require Import SpecFloat.
From S2P Require Import Prelude Float64.

Definition windowSize : Z := 200.
Definition minSamples : Z := 10.
Definition defaultMeanMs : float64 := f64 500.

(** The time of the last heartbeat is [None] before the first one. *)
Record HeartbeatWindow := mkHeartbeatWindow {
  hw_intervals : list float64;
  hw_writeIdx : Z;
  hw_count : Z;
  hw_lastHeartbeat : option Z;
}.

Definition newHeartbeatWindow : HeartbeatWindow := mkHeartbeatWindow (replicate (Z.to_nat windowSize) fzero) 0 0 None.

(** [Time.Sub]. *)
Definition time_Sub (t u : Z) : Z := Z.max (- two63) (Z.min (two63 - 1) (t - u)).

Definition interval_ms (now last : Z) : float64 := fmul (Seconds (time_Sub now last)) (f64 1000).

(** A write outside of the buffer panics. *)
Definition HW_Heartbeat (now : Z) (w : HeartbeatWindow) : option HeartbeatWindow :=
  match hw_lastHeartbeat w with
  | Some last =>
      if (0 <=? hw_writeIdx w) && (hw_writeIdx w <? zlen (hw_intervals w)) then
        Some (mkHeartbeatWindow (<[Z.to_nat (hw_writeIdx w) := interval_ms now last]> (hw_intervals w))
          (Z.rem (hw_writeIdx w + 1) windowSize) (if hw_count w <? windowSize then hw_count w + 1 else hw_count w) (Some now))
      else None
  | None => Some (mkHeartbeatWindow (hw_intervals w) (hw_writeIdx w) (hw_count w) (Some now))
  end.

Definition fsum (l : list float64) : float64 := fold_left fadd l fzero.

(** [intervals[0..count)]; a count beyond the buffer panics. *)
Definition statistics (w : HeartbeatWindow) : option (float64 * float64) :=
  if hw_count w =? 0 then Some (defaultMeanMs, fmul defaultMeanMs defaultMeanMs)
  else if zlen (hw_intervals w) <? hw_count w then None
  else
    let samples := take (Z.to_nat (hw_count w)) (hw_intervals w) in
    let mean := fdiv (fsum samples) (f64 (hw_count w)) in
    if hw_count w <? minSamples then Some (mean, fmul mean mean)
    else
      let varSum := fold_left (fun acc x => let diff := fsub x mean in fadd acc (fmul diff diff)) samples fzero in
      Some (mean, fdiv varSum (f64 (hw_count w))).

Definition math_Sqrt2 : float64 := S754_finite false 6369051672525773 (-52).
Definition fopp (f : float64) : float64 := SFopp f.
Definition fone : float64 := f64 1.
Definition finf : float64 := S754_infinity false.

Record PhiAccrualDetector := mkPhiAccrualDetector {
  ph_peers : gmap string HeartbeatWindow;
  ph_threshold : float64;
  ph_onSuspect : bool;
  ph_onAlive : bool;
}.

Definition NewPhiAccrualDetector (threshold : float64) : PhiAccrualDetector := mkPhiAccrualDetector ∅ threshold false false.

Definition RemovePeer (nodeID : string) (d : PhiAccrualDetector) : PhiAccrualDetector :=
  mkPhiAccrualDetector (delete nodeID (ph_peers d)) (ph_threshold d) (ph_onSuspect d) (ph_onAlive d).

Definition AddPeer (nodeID : string) (d : PhiAccrualDetector) : PhiAccrualDetector :=
  match ph_peers d !! nodeID with
  | Some _ => d
  | None => mkPhiAccrualDetector (<[nodeID := newHeartbeatWindow]> (ph_peers d)) (ph_threshold d) (ph_onSuspect d) (ph_onAlive d)
  end.

Section phi.
  Context (Erfc Log10 : float64 -> float64).

Definition phi_cdf (y : float64) : float64 := fdiv (Erfc (fdiv y math_Sqrt2)) (f64 2).

Definition HW_Phi (now : Z) (w : HeartbeatWindow) : option float64 :=
  match hw_lastHeartbeat w with
  | None => Some fzero
  | Some last =>
      let timeSinceLast := interval_ms now last in
      if fleb timeSinceLast fzero then Some fzero
      else
        '(mean, variance) ← statistics w;
        let mean := if fleb mean fzero then defaultMeanMs else mean in
        let sigma := fsqrt variance in
        let sigma := if fltb sigma fone then fone else sigma in
        let y := fdiv (fsub timeSinceLast mean) sigma in
        let pLater := phi_cdf y in
        Some (if fleb pLater fzero then finf else fopp (Log10 pLater))
  end.

(** The suspicion level given to [onAlive], if it is called. *)
Definition PD_Heartbeat (nodeID : string) (now : Z) (d : PhiAccrualDetector) : option (option float64 * PhiAccrualDetector) :=
  let window := default newHeartbeatWindow (ph_peers d !! nodeID) in
  prevPhi ← HW_Phi now window;
  window ← HW_Heartbeat now window;
  newPhi ← HW_Phi now window;
  Some (if fleb (ph_threshold d) prevPhi && fltb newPhi (ph_threshold d) && ph_onAlive d then Some newPhi else None,
        mkPhiAccrualDetector (<[nodeID := window]> (ph_peers d)) (ph_threshold d) (ph_onSuspect d) (ph_onAlive d)).

Definition PD_Phi (nodeID : string) (now : Z) (d : PhiAccrualDetector) : option float64 :=
  match ph_peers d !! nodeID with None => Some fzero | Some window => HW_Phi now window end.

(** The levels of all peers, and the peers for which [onSuspect] is called. *)
Definition PD_Check (now : Z) (d : PhiAccrualDetector) : option (list (string * float64) * list (string * float64)) :=
  result ← for_each (fun x acc => phi ← HW_Phi now x.2; Some (acc ++ [(x.1, phi)])) (map_to_list (ph_peers d)) [];
  Some (result, List.filter (fun x => fleb (ph_threshold d) x.2 && ph_onSuspect d) result).

(** ** The circular buffer

    [times] are the heartbeats, the latest first. *)

Fixpoint intervals_of (times : list Z) : list float64 :=
  match times with
  | now :: ((last :: _) as rest) => interval_ms now last :: intervals_of rest
  | _ => []
  end.

(** The slot of the [j]-th latest interval. *)
Definition slot (n j : Z) : Z := (n - 1 - j) mod windowSize.

Record window_ok (times : list Z) (w : HeartbeatWindow) : Prop := {
  wo_len : zlen (hw_intervals w) = windowSize;
  wo_last : hw_lastHeartbeat w = head times;
  wo_idx : hw_writeIdx w = zlen (intervals_of times) mod windowSize;
  wo_count : hw_count w = Z.min windowSize (zlen (intervals_of times));
  wo_slots : forall j x, intervals_of times !! j = Some x -> Z.of_nat j < windowSize ->
    hw_intervals w !! Z.to_nat (slot (zlen (intervals_of times)) (Z.of_nat j)) = Some x;
}.

Lemma newHeartbeatWindow_ok : window_ok [] newHeartbeatWindow.
Proof. by constructor. Qed.

Lemma slot_next n j : slot (n + 1) (j + 1) = slot n j.
Proof. unfold slot. f_equal. lia. Qed.

Lemma slot_fresh n j : 0 <= j < windowSize - 1 -> slot n j <> n mod windowSize.
Proof.
  unfold slot, windowSize. intros Hj Heq.
  assert (Hz : ((n - (n - 1 - j)) mod 200 = 0)) by (rewrite Zminus_mod Heq Z.sub_diag; done).
  replace (n - (n - 1 - j)) with (j + 1) in Hz by lia. rewrite Z.mod_small in Hz; lia.
Qed.

Lemma HW_Heartbeat_ok now times w : window_ok times w -> exists w', HW_Heartbeat now w = Some w' /\ window_ok (now :: times) w'.
Proof.
  intros Hw. destruct Hw as [Hlen Hlast Hidx Hcount Hslots]. unfold HW_Heartbeat. rewrite Hlast. destruct times as [|last times]; cbn [head].
  { eexists. split; [done|]. by constructor. }
  set (ivs := intervals_of (last :: times)) in *. pose proof (zlen_nonneg ivs) as Hn.
  assert (Hr : 0 <= hw_writeIdx w < windowSize) by (rewrite Hidx; apply Z.mod_pos_bound; done).
  destruct (Z.leb_spec 0 (hw_writeIdx w)); [|lia]. destruct (Z.ltb_spec (hw_writeIdx w) (zlen (hw_intervals w))); [|lia]. cbn [andb]. eexists. split; [done|].
  assert (Hivs : intervals_of (now :: last :: times) = interval_ms now last :: ivs) by done.
  constructor; rewrite ?Hivs; cbn [hw_intervals hw_lastHeartbeat hw_writeIdx hw_count head]; rewrite ?zlen_cons.
  - unfold zlen. by rewrite length_insert.
  - done.
  - rewrite Z.rem_mod_nonneg; [|lia|done]. rewrite Hidx. by rewrite Zplus_mod_idemp_l.
  - rewrite Hcount. destruct (Z.ltb_spec (Z.min windowSize (zlen ivs)) windowSize); lia.
  - intros [|j] x Hx Hj; cbn in Hx.
    + injection Hx as <-. unfold slot. replace (zlen ivs + 1 - 1 - Z.of_nat 0) with (zlen ivs) by lia. rewrite Hidx.
      rewrite list_lookup_insert_eq //. unfold zlen in Hlen. rewrite Hidx in Hr. lia.
    + replace (Z.of_nat (S j)) with (Z.of_nat j + 1) in Hj |- * by lia. rewrite slot_next.
      rewrite list_lookup_insert_ne; [apply Hslots; [done|lia]|]. rewrite Hidx. pose proof (slot_fresh (zlen ivs) (Z.of_nat j) ltac:(lia)).
      assert (0 <= slot (zlen ivs) (Z.of_nat j) < windowSize) by (apply Z.mod_pos_bound; done).
      assert (0 <= zlen ivs mod windowSize < windowSize) by (apply Z.mod_pos_bound; done). lia.
Qed.

Definition heartbeats (times : list Z) : option HeartbeatWindow := for_each HW_Heartbeat (rev times) newHeartbeatWindow.

(** The window records heartbeats without ever writing out of its buffer and
    holds exactly the latest two hundred intervals. *)
Theorem window_holds_latest times : exists w, heartbeats times = Some w /\
  hw_count w = Z.min windowSize (zlen (intervals_of times)) /\
  forall j x, intervals_of times !! j = Some x -> Z.of_nat j < windowSize ->
    hw_intervals w !! Z.to_nat (slot (zlen (intervals_of times)) (Z.of_nat j)) = Some x.
Proof.
  assert (H : exists w, heartbeats times = Some w /\ window_ok times w).
  { unfold heartbeats. induction times as [|now times (w & Hw & Hok)]; [eexists; split; [done|apply newHeartbeatWindow_ok]|].
    cbn [rev]. rewrite for_each_app Hw. cbn. destruct (HW_Heartbeat_ok now _ _ Hok) as (w' & -> & Hok'). eauto. }
  destruct H as (w & Hw & []). eauto.
Qed.

(** ** Detection *)

Lemma interval_same now : interval_ms now now = fzero.
Proof. unfold interval_ms, time_Sub. by rewrite Z.sub_diag. Qed.

(** A heartbeat clears the suspicion: at its time the level is zero. *)
Lemma HW_Phi_after now w w' : HW_Heartbeat now w = Some w' -> HW_Phi now w' = Some fzero.
Proof.
  intros H. assert (Hl : hw_lastHeartbeat w' = Some now).
  { unfold HW_Heartbeat in H. destruct (hw_lastHeartbeat w); [destruct (_ && _); [|done]|]; by injection H as <-. }
  unfold HW_Phi. by rewrite Hl interval_same.
Qed.

Definition detector_ok (d : PhiAccrualDetector) : Prop := forall k w, ph_peers d !! k = Some w -> exists times, window_ok times w.

Lemma HW_Phi_total now times w : window_ok times w -> exists phi, HW_Phi now w = Some phi.
Proof.
  intros []. unfold HW_Phi, statistics. destruct (hw_lastHeartbeat w); [|eauto]. destruct (fleb _ fzero); [eauto|]. destruct (hw_count w =? 0); [eauto|].
  destruct (Z.ltb_spec (zlen (hw_intervals w)) (hw_count w)); [lia|]. destruct (hw_count w <? minSamples); cbn; eauto.
Qed.

(** Recording a heartbeat never panics, and the peer is reported as back
    exactly when it was above the threshold. *)
Theorem PD_Heartbeat_reports nodeID now d : detector_ok d -> fltb fzero (ph_threshold d) = true ->
  exists prev alive d', PD_Phi nodeID now d = Some prev /\ PD_Heartbeat nodeID now d = Some (alive, d') /\ detector_ok d' /\
    (alive = if fleb (ph_threshold d) prev && ph_onAlive d then Some fzero else None) /\
    PD_Phi nodeID now d' = Some fzero.
Proof.
  intros Hd Hth. unfold PD_Heartbeat, PD_Phi. set (w := default newHeartbeatWindow (ph_peers d !! nodeID)).
  assert (Hw : exists times, window_ok times w).
  { unfold w. destruct (ph_peers d !! nodeID) as [w0|] eqn:Hw0; [by eapply Hd|exists []; apply newHeartbeatWindow_ok]. }
  destruct Hw as (times & Hw). destruct (HW_Phi_total now _ _ Hw) as (prev & Hprev). destruct (HW_Heartbeat_ok now _ _ Hw) as (w' & Hhb & Hw').
  assert (Hpd : (match ph_peers d !! nodeID with Some window => HW_Phi now window | None => Some fzero end) = Some prev).
  { unfold w in Hprev. by destruct (ph_peers d !! nodeID). }
  rewrite Hprev. cbn. rewrite Hhb. cbn. rewrite (HW_Phi_after _ _ _ Hhb). cbn. rewrite Hth andb_true_r.
  eexists prev, _, _. split_and!; [done|done| |done|].
  - intros k x Hx. cbn in Hx. apply lookup_insert_Some in Hx as [[<- <-]|[_ Hx]]; [eauto|by eapply Hd].
  - cbn. rewrite lookup_insert_eq. by eapply HW_Phi_after.
Qed.

Lemma PD_Check_total now d : detector_ok d -> exists result suspects, PD_Check now d = Some (result, suspects).
Proof.
  intros Hd. unfold PD_Check.
  destruct (for_each_total (fun _ => True) (fun x acc => phi ← HW_Phi now x.2; Some (acc ++ [(x.1, phi)])) (map_to_list (ph_peers d)) []) as (r & -> & _).
  - intros [k w] acc Hin _. apply elem_of_map_to_list in Hin. destruct (Hd _ _ Hin) as (times & Hw). destruct (HW_Phi_total now _ _ Hw) as (phi & Hphi).
    cbn. rewrite Hphi. eauto.
  - done.
  - cbn. eauto.
Qed.

End phi.
