(* ===== verification/Swim.v ===== *)
(** * Swim: the SWIM protocol (pkg/membership/swim.go)

    The goroutines of a node are modelled between the points where they wait:
    the protocol loop with its direct and indirect probes, the goroutines that
    ask helpers, the receive loop, the suspicion timers, the loops of the
    failure detector and of the garbage collection, and a call that joins a
    cluster.  The channel made for a ping is known by the sequence number of
    the ping and has one place.  Random choices, the success of [Send] and the
    expiry of timeouts are inputs; messages given to the transport and
    goroutines started for callbacks are logged. *)

From Stdlib Require Import SpecFloat.
From S2P Require Import Prelude Float64 Memberlist PhiAccrual.

Record SWIMConfig := mkSWIMConfig {
  cf_NodeID : string;
  cf_BindAddr : string;
  cf_ProtocolPeriod : Z;
  cf_PingTimeout : Z;
  cf_IndirectPingCount : Z;
  cf_IndirectTimeout : Z;
  cf_SuspicionTimeout : Z;
  cf_GossipFanout : Z;
}.

Definition DefaultSWIMConfig (nodeID bindAddr : string) : SWIMConfig :=
  mkSWIMConfig nodeID bindAddr 200000000 200000000 3 600000000 3000000000 8.

Inductive SWIMMessageType := MsgPing | MsgPingAck | MsgPingReq | MsgPingReqAck.

#[global] Instance SWIMMessageType_eq_dec : EqDecision SWIMMessageType.
Proof. solve_decision. Defined.

Record SWIMMessage := mkSWIMMessage {
  sm_Type : SWIMMessageType;
  sm_From : string;
  sm_To : string;
  sm_Target : string;
  sm_SeqNum : Z;
  sm_Updates : list GossipUpdate;
}.

Record SWIM := mkSWIM {
  sw_config : SWIMConfig;
  sw_memberList : MemberList;
  sw_detector : PhiAccrualDetector;
  sw_seqNum : Z;
  sw_pendingPings : gset Z;
  sw_chans : gmap Z (option bool);
  sw_suspicionTimers : gset string;
  sw_sent : list SWIMMessage;
  sw_notes : list notification;
}.

Definition NewSWIM (config : SWIMConfig) (memberList : MemberList) : SWIM :=
  mkSWIM config memberList (mkPhiAccrualDetector ∅ (f64 8) true true) 0 ∅ ∅ ∅ [] [].

Definition sw_id (s : SWIM) : string := cf_NodeID (sw_config s).

(** A new member list, and the goroutines its change started. *)
Definition set_list (ml : MemberList) (notes : list notification) (s : SWIM) : SWIM :=
  mkSWIM (sw_config s) ml (sw_detector s) (sw_seqNum s) (sw_pendingPings s) (sw_chans s) (sw_suspicionTimers s) (sw_sent s) (sw_notes s ++ notes).

Definition set_detector (d : PhiAccrualDetector) (s : SWIM) : SWIM :=
  mkSWIM (sw_config s) (sw_memberList s) d (sw_seqNum s) (sw_pendingPings s) (sw_chans s) (sw_suspicionTimers s) (sw_sent s) (sw_notes s).

Definition set_timers (timers : gset string) (s : SWIM) : SWIM :=
  mkSWIM (sw_config s) (sw_memberList s) (sw_detector s) (sw_seqNum s) (sw_pendingPings s) (sw_chans s) timers (sw_sent s) (sw_notes s).

Definition set_pings (pending : gset Z) (chans : gmap Z (option bool)) (s : SWIM) : SWIM :=
  mkSWIM (sw_config s) (sw_memberList s) (sw_detector s) (sw_seqNum s) pending chans (sw_suspicionTimers s) (sw_sent s) (sw_notes s).

Definition swim_send (msg : SWIMMessage) (s : SWIM) : SWIM :=
  mkSWIM (sw_config s) (sw_memberList s) (sw_detector s) (sw_seqNum s) (sw_pendingPings s) (sw_chans s) (sw_suspicionTimers s) (sw_sent s ++ [msg]) (sw_notes s).

(** [nextSeq], and the pending channel registered for it. *)
Definition nextSeq (s : SWIM) : Z * SWIM :=
  let seq := u64 (sw_seqNum s + 1) in
  (seq, mkSWIM (sw_config s) (sw_memberList s) (sw_detector s) seq ({[seq]} ∪ sw_pendingPings s) (<[seq := None]> (sw_chans s))
          (sw_suspicionTimers s) (sw_sent s) (sw_notes s)).

Definition drop_ping (seq : Z) (s : SWIM) : SWIM := set_pings (sw_pendingPings s ∖ {[seq]}) (sw_chans s) s.

(** A send that does not wait: lost when the place is taken. *)
Definition chan_send (seq : Z) (v : bool) (s : SWIM) : SWIM :=
  match sw_chans s !! seq with
  | Some None => set_pings (sw_pendingPings s) (<[seq := Some v]> (sw_chans s)) s
  | _ => s
  end.

Definition recent (max : Z) (s : SWIM) : option (list GossipUpdate) := RecentUpdates max (sw_memberList s).

Definition apply_update (now : Z) (u : GossipUpdate) (s : SWIM) : SWIM :=
  let '(_, ml, notes) := ApplyUpdate now u (sw_memberList s) in set_list ml notes s.

(** The suspicion timer is started once. *)
Definition suspectNode (now : Z) (nodeID : string) (s : SWIM) : SWIM :=
  let '(ml, notes) := SuspectNode now nodeID (sw_memberList s) in
  let s := set_list ml notes s in
  if decide (nodeID ∈ sw_suspicionTimers s) then s else set_timers ({[nodeID]} ∪ sw_suspicionTimers s) s.

(** The function of the timer. *)
Definition suspicion_timeout (now : Z) (nodeID : string) (s : SWIM) : SWIM :=
  let s := set_timers (sw_suspicionTimers s ∖ {[nodeID]}) s in
  match ML_Get nodeID (sw_memberList s) with
  | Some m =>
      if bool_decide (mb_State m = StateSuspected) then
        let '(ml, notes) := ConfirmDead now nodeID (sw_memberList s) in set_list ml notes s
      else s
  | None => s
  end.

Definition swim_gc_round (now : Z) (s : SWIM) : SWIM := set_list (ML_GC now (sw_memberList s)).2 [] s.

(** The members that can be probed, or asked for help. *)
Definition others (exclude : list string) (s : SWIM) : list Member :=
  List.filter (fun m => negb (bool_decide (mb_NodeID m ∈ exclude))) (ML_Alive (sw_memberList s)).

(** [choice] is the result of [Intn]. *)
Definition pickRandomMember (choice : nat) (s : SWIM) : option Member := others [sw_id s] s !! (choice mod length (others [sw_id s] s))%nat.

(** [shuffled] are the candidates in their new order; a negative count panics. *)
Definition pickKRandomMembers (k : Z) (shuffled : list Member) : option (list Member) :=
  let k := if zlen shuffled <? k then zlen shuffled else k in
  if k <? 0 then None else Some (take (Z.to_nat k) shuffled).

Section swim.
  Context (Erfc Log10 : float64 -> float64).

(** With the callback for a peer that is back. *)
Definition heartbeat (nodeID : string) (now : Z) (s : SWIM) : option SWIM :=
  '(alive, d) ← PD_Heartbeat Erfc Log10 nodeID now (sw_detector s);
  let s := set_detector d s in
  Some (match alive with Some _ => apply_update now (mkGossipUpdate nodeID StateAlive 0 EmptyString) s | None => s end).

(** A round of the detector's loop. *)
Definition phi_round (now : Z) (s : SWIM) : option SWIM :=
  '(_, suspects) ← PD_Check Erfc Log10 now (sw_detector s);
  Some (fold_left (fun s x => suspectNode now x.1 s) suspects s).

(** ** Messages *)

(** One piggybacked update. *)
Definition gossip_update (now : Z) (u : GossipUpdate) (s : SWIM) : option SWIM :=
  if String.eqb (gu_NodeID u) (sw_id s) then
    match ML_Get (sw_id s) (sw_memberList s) with
    | Some m =>
        if bool_decide (mb_State m = StateSuspected) then
          '(refutation, ml) ← RefuteSuspicion (sw_memberList s);
          Some (apply_update now refutation (set_list ml [] s))
        else Some s
    | None => Some s
    end
  else Some (apply_update now u s).

Definition handlePing (now : Z) (msg : SWIMMessage) (s : SWIM) : option SWIM :=
  s ← heartbeat (sm_From msg) now s;
  updates ← recent (cf_GossipFanout (sw_config s)) s;
  Some (swim_send (mkSWIMMessage MsgPingAck (sw_id s) (sm_From msg) EmptyString (sm_SeqNum msg) updates) s).

Definition handlePingAck (now : Z) (msg : SWIMMessage) (s : SWIM) : option SWIM :=
  let s := if decide (sm_SeqNum msg ∈ sw_pendingPings s) then chan_send (sm_SeqNum msg) true (drop_ping (sm_SeqNum msg) s) else s in
  heartbeat (sm_From msg) now s.

Definition target_suspected (msg : SWIMMessage) : bool :=
  existsb (fun u => String.eqb (gu_NodeID u) (sm_Target msg) && bool_decide (gu_State u = StateSuspected)) (sm_Updates msg).

Definition handlePingReqAck (msg : SWIMMessage) (s : SWIM) : SWIM :=
  if decide (sm_SeqNum msg ∈ sw_pendingPings s) then
    let reached := negb (target_suspected msg) in
    chan_send (sm_SeqNum msg) reached (drop_ping (sm_SeqNum msg) s)
  else s.

(** [handlePingReq] up to its wait for the answer of the target; the number of
    its ping, none if there is no target.  A failing [Send] does not wait. *)
Definition handlePingReq_start (msg : SWIMMessage) (s : SWIM) : option (option Z * SWIM) :=
  if String.eqb (sm_Target msg) EmptyString then Some (None, s)
  else
    let '(seq, s) := nextSeq s in
    updates ← recent (cf_GossipFanout (sw_config s)) s;
    Some (Some seq, swim_send (mkSWIMMessage MsgPing (sw_id s) (sm_Target msg) EmptyString seq updates) s).

(** The rest of it. *)
Definition handlePingReq_finish (msg : SWIMMessage) (seq : Z) (reached : bool) (s : SWIM) : option SWIM :=
  let s := drop_ping seq s in
  updates ← recent (cf_GossipFanout (sw_config s)) s;
  let updates := if reached then updates else updates ++ [mkGossipUpdate (sm_Target msg) StateSuspected 0 EmptyString] in
  Some (swim_send (mkSWIMMessage MsgPingReqAck (sw_id s) (sm_From msg) (sm_Target msg) (sm_SeqNum msg) updates) s).

(** [handleMessage]; the number of the ping it then waits for. *)
Definition handleMessage (now : Z) (msg : SWIMMessage) (s : SWIM) : option (option Z * SWIM) :=
  s ← for_each (gossip_update now) (sm_Updates msg) s;
  match sm_Type msg with
  | MsgPing => s ← handlePing now msg s; Some (None, s)
  | MsgPingAck => s ← handlePingAck now msg s; Some (None, s)
  | MsgPingReq => handlePingReq_start msg s
  | MsgPingReqAck => Some (None, handlePingReqAck msg s)
  end.

(** ** The goroutines of a node *)

(** The protocol loop: idle, waiting for the answer to a ping, or for the
    results of an indirect probe of which some are outstanding. *)
Inductive proto := PIdle | PDirect (target : string) (seq : Z) | PIndirect (target : string) (probe : nat) (outstanding : nat).

(** A goroutine that asks a helper: before and after its request is sent. *)
Inductive helper := HStart (helperID target : string) (probe : nat) | HWait (seq : Z) (probe : nat) | HDone.

(** The receive loop: idle, or inside [handlePingReq]. *)
Inductive recv := RIdle | RPing (msg : SWIMMessage) (seq : Z).

(** A call of [JoinCluster]: the seeds it has left to try. *)
Inductive join := JIdle | JNext (seeds : list string) | JWait (seed : string) (seq : Z) (seeds : list string).

(** [nd_acks] are the results in the channels of the indirect probes; [nd_ok]
    logs the pings answered in time, [nd_indirect] the indirect probes that
    found their target. *)
Record SwimNode := mkSwimNode {
  nd_swim : SWIM;
  nd_proto : proto;
  nd_helpers : list helper;
  nd_acks : list (nat * bool);
  nd_probes : nat;
  nd_recv : recv;
  nd_join : join;
  nd_ok : list (string * Z);
  nd_indirect : list string;
}.

Definition NewSwimNode (now : Z) (config : SWIMConfig) : SwimNode :=
  mkSwimNode (NewSWIM config (NewMemberList now (cf_NodeID config))) PIdle [] [] 0 RIdle JIdle [] [].

Definition with_swim (s : SWIM) (n : SwimNode) : SwimNode :=
  mkSwimNode s (nd_proto n) (nd_helpers n) (nd_acks n) (nd_probes n) (nd_recv n) (nd_join n) (nd_ok n) (nd_indirect n).
Definition with_proto (p : proto) (n : SwimNode) : SwimNode :=
  mkSwimNode (nd_swim n) p (nd_helpers n) (nd_acks n) (nd_probes n) (nd_recv n) (nd_join n) (nd_ok n) (nd_indirect n).
Definition with_helpers (hs : list helper) (acks : list (nat * bool)) (n : SwimNode) : SwimNode :=
  mkSwimNode (nd_swim n) (nd_proto n) hs acks (nd_probes n) (nd_recv n) (nd_join n) (nd_ok n) (nd_indirect n).
Definition with_recv (r : recv) (n : SwimNode) : SwimNode :=
  mkSwimNode (nd_swim n) (nd_proto n) (nd_helpers n) (nd_acks n) (nd_probes n) r (nd_join n) (nd_ok n) (nd_indirect n).
Definition with_join (j : join) (n : SwimNode) : SwimNode :=
  mkSwimNode (nd_swim n) (nd_proto n) (nd_helpers n) (nd_acks n) (nd_probes n) (nd_recv n) j (nd_ok n) (nd_indirect n).
Definition log_ok (target : string) (seq : Z) (n : SwimNode) : SwimNode :=
  mkSwimNode (nd_swim n) (nd_proto n) (nd_helpers n) (nd_acks n) (nd_probes n) (nd_recv n) (nd_join n) (nd_ok n ++ [(target, seq)]) (nd_indirect n).
Definition log_indirect (target : string) (n : SwimNode) : SwimNode :=
  mkSwimNode (nd_swim n) (nd_proto n) (nd_helpers n) (nd_acks n) (nd_probes n) (nd_recv n) (nd_join n) (nd_ok n) (nd_indirect n ++ [target]).

(** [indirectProbe] up to its wait for the helpers. *)
Definition indirectProbe (now : Z) (target : string) (shuffled : list Member) (n : SwimNode) : option SwimNode :=
  helpers ← pickKRandomMembers (cf_IndirectPingCount (sw_config (nd_swim n))) shuffled;
  Some (match helpers with
    | [] => with_proto PIdle (with_swim (suspectNode now target (nd_swim n)) n)
    | _ => mkSwimNode (nd_swim n) (PIndirect target (nd_probes n) (length helpers))
             (nd_helpers n ++ map (fun m => HStart (mb_NodeID m) target (nd_probes n)) helpers) (nd_acks n) (S (nd_probes n)) (nd_recv n) (nd_join n)
             (nd_ok n) (nd_indirect n)
    end).

(** [probe] up to its wait for the answer. *)
Definition probe_start (now : Z) (choice : nat) (sendOk : bool) (shuffled : list Member) (n : SwimNode) : option SwimNode :=
  match pickRandomMember choice (nd_swim n) with
  | None => Some n
  | Some target =>
      let '(seq, s) := nextSeq (nd_swim n) in
      updates ← recent (cf_GossipFanout (sw_config s)) s;
      let s := swim_send (mkSWIMMessage MsgPing (sw_id s) (mb_NodeID target) EmptyString seq updates) s in
      if sendOk then Some (with_proto (PDirect (mb_NodeID target) seq) (with_swim s n))
      else indirectProbe now (mb_NodeID target) shuffled (with_swim (drop_ping seq s) n)
  end.

(** The end of the wait: an answer is received, or the time is over. *)
Definition probe_wait (now : Z) (timeout : bool) (shuffled : list Member) (target : string) (seq : Z) (n : SwimNode) : option SwimNode :=
  if timeout then indirectProbe now target shuffled (with_swim (drop_ping seq (nd_swim n)) n)
  else
    match sw_chans (nd_swim n) !! seq with
    | Some (Some _) => s ← heartbeat target now (nd_swim n); Some (log_ok target seq (with_proto PIdle (with_swim s n)))
    | _ => Some n
    end.

(** A goroutine sends its request. *)
Definition helper_start (i : nat) (sendOk : bool) (helperID target : string) (probe : nat) (n : SwimNode) : option SwimNode :=
  let '(seq, s) := nextSeq (nd_swim n) in
  updates ← recent (cf_GossipFanout (sw_config s)) s;
  let s := swim_send (mkSWIMMessage MsgPingReq (sw_id s) helperID target seq updates) s in
  Some (if sendOk then with_helpers (<[i := HWait seq probe]> (nd_helpers n)) (nd_acks n) (with_swim s n)
        else with_helpers (<[i := HDone]> (nd_helpers n)) (nd_acks n ++ [(probe, false)]) (with_swim (drop_ping seq s) n)).

(** It hands on the result, or gives up. *)
Definition helper_wait (i : nat) (timeout : bool) (seq : Z) (probe : nat) (n : SwimNode) : SwimNode :=
  if timeout then with_helpers (<[i := HDone]> (nd_helpers n)) (nd_acks n ++ [(probe, false)]) (with_swim (drop_ping seq (nd_swim n)) n)
  else
    match sw_chans (nd_swim n) !! seq with
    | Some (Some acked) => with_helpers (<[i := HDone]> (nd_helpers n)) (nd_acks n ++ [(probe, acked)]) n
    | _ => n
    end.

(** One turn of the loop over the results: a result of this probe from the
    channel, or none because the time is over. *)
Definition indirect_wait (now : Z) (i : option nat) (target : string) (probe outstanding : nat) (n : SwimNode) : option SwimNode :=
  let next n :=
    match outstanding with
    | S (S outstanding) => with_proto (PIndirect target probe (S outstanding)) n
    | _ => with_proto PIdle (with_swim (suspectNode now target (nd_swim n)) n)
    end in
  match i with
  | None => Some (next n)
  | Some i =>
      match nd_acks n !! i with
      | Some (p, acked) =>
          if (p =? probe)%nat then
            let n := with_helpers (nd_helpers n) (delete i (nd_acks n)) n in
            if (acked : bool) then (s ← heartbeat target now (nd_swim n); Some (log_indirect target (with_proto PIdle (with_swim s n))))
            else Some (next n)
          else Some n
      | None => Some n
      end
  end.

(** [JoinCluster]: the next seed, and the wait for it. *)
Definition join_start (now : Z) (sendOk : bool) (seed : string) (seeds : list string) (n : SwimNode) : option SwimNode :=
  let s := apply_update now (mkGossipUpdate seed StateAlive 0 seed) (nd_swim n) in
  let '(seq, s) := nextSeq s in
  updates ← recent 8 s;
  let s := swim_send (mkSWIMMessage MsgPing (sw_id s) seed EmptyString seq updates) s in
  Some (if sendOk then with_join (JWait seed seq seeds) (with_swim s n) else with_join (JNext seeds) (with_swim (drop_ping seq s) n)).

Definition join_wait (timeout : bool) (seed : string) (seq : Z) (seeds : list string) (n : SwimNode) : SwimNode :=
  if timeout then with_join (JNext seeds) (with_swim (drop_ping seq (nd_swim n)) n)
  else
    match sw_chans (nd_swim n) !! seq with
    | Some (Some _) => log_ok seed seq (with_join JIdle n)
    | _ => n
    end.

(** The end of [handlePingReq]: the answer is read from the channel unless the
    send failed or the time is over. *)
Definition recv_wait (timeout : bool) (msg : SWIMMessage) (seq : Z) (n : SwimNode) : option SwimNode :=
  if timeout then s ← handlePingReq_finish msg seq false (nd_swim n); Some (with_recv RIdle (with_swim s n))
  else
    match sw_chans (nd_swim n) !! seq with
    | Some (Some acked) => s ← handlePingReq_finish msg seq acked (nd_swim n); Some (with_recv RIdle (with_swim s n))
    | _ => Some n
    end.

Definition recv_message (now : Z) (msg : SWIMMessage) (n : SwimNode) : option SwimNode :=
  '(wait, s) ← handleMessage now msg (nd_swim n);
  Some (with_recv (match wait with Some seq => RPing msg seq | None => RIdle end) (with_swim s n)).

(** ** Nodes and clusters *)

Inductive swim_input :=
| SProbe (now : Z) (choice : nat) (sendOk : bool) (shuffled : list Member)
| SDirect (now : Z) (timeout : bool) (shuffled : list Member)
| SHelper (i : nat) (sendOk timeout : bool)
| SIndirect (now : Z) (i : option nat)
| SRecv (now : Z) (msg : SWIMMessage)
| SRecvWait (timeout : bool)
| STimer (now : Z) (nodeID : string)
| SPhi (now : Z)
| SGC (now : Z)
| SJoin (seeds : list string)
| SJoinStep (now : Z) (sendOk timeout : bool).

(** A step of one goroutine; inputs that do not fit its state change nothing. *)
Definition node_step (i : swim_input) (n : SwimNode) : option SwimNode :=
  match i with
  | SProbe now choice sendOk shuffled => match nd_proto n with PIdle => probe_start now choice sendOk shuffled n | _ => Some n end
  | SDirect now timeout shuffled => match nd_proto n with PDirect target seq => probe_wait now timeout shuffled target seq n | _ => Some n end
  | SHelper i sendOk timeout =>
      match nd_helpers n !! i with
      | Some (HStart helperID target probe) => helper_start i sendOk helperID target probe n
      | Some (HWait seq probe) => Some (helper_wait i timeout seq probe n)
      | _ => Some n
      end
  | SIndirect now i => match nd_proto n with PIndirect target probe outstanding => indirect_wait now i target probe outstanding n | _ => Some n end
  | SRecv now msg => match nd_recv n with RIdle => recv_message now msg n | _ => Some n end
  | SRecvWait timeout => match nd_recv n with RPing msg seq => recv_wait timeout msg seq n | _ => Some n end
  | STimer now nodeID =>
      Some (if decide (nodeID ∈ sw_suspicionTimers (nd_swim n)) then with_swim (suspicion_timeout now nodeID (nd_swim n)) n else n)
  | SPhi now => s ← phi_round now (nd_swim n); Some (with_swim s n)
  | SGC now => Some (with_swim (swim_gc_round now (nd_swim n)) n)
  | SJoin seeds => Some (match nd_join n with JIdle => with_join (JNext seeds) n | _ => n end)
  | SJoinStep now sendOk timeout =>
      match nd_join n with
      | JNext [] => Some (with_join JIdle n)
      | JNext (seed :: seeds) => join_start now sendOk seed seeds n
      | JWait seed seq seeds => Some (join_wait timeout seed seq seeds n)
      | JIdle => Some n
      end
  end.

(** The network delivers any message ever sent, to its receiver, at any time
    and any number of times, or never. *)
Definition in_net (c : gmap string SwimNode) (m : SWIMMessage) : Prop := exists k n, c !! k = Some n /\ m ∈ sw_sent (nd_swim n).

(** What the surroundings of a node guarantee: shuffles are permutations,
    messages come from the network, a node does not join itself, and sequence
    numbers are not exhausted. *)
Definition input_ok (net : SWIMMessage -> Prop) (k : string) (n : SwimNode) (i : swim_input) : Prop :=
  sw_seqNum (nd_swim n) < two64 - 1 /\
  match i with
  | SProbe _ choice _ shuffled =>
      forall target, pickRandomMember choice (nd_swim n) = Some target -> shuffled ≡ₚ others [k; mb_NodeID target] (nd_swim n)
  | SDirect _ _ shuffled => forall target seq, nd_proto n = PDirect target seq -> shuffled ≡ₚ others [k; target] (nd_swim n)
  | SRecv _ msg => net msg /\ sm_To msg = k
  | SJoin seeds => k ∉ seeds
  | _ => True
  end.

Definition config_ok (config : SWIMConfig) : Prop := 0 <= cf_GossipFanout config /\ 0 <= cf_IndirectPingCount config.

Inductive cluster_reach : gmap string SwimNode -> Prop :=
| cluster_init c : (forall k n, c !! k = Some n -> exists now config, cf_NodeID config = k /\ config_ok config /\ n = NewSwimNode now config) -> cluster_reach c
| cluster_step c k n i n' : cluster_reach c -> c !! k = Some n -> input_ok (in_net c) k n i -> node_step i n = Some n' -> cluster_reach (<[k := n']> c).

End swim.
