(* ===== verification/SwimSafety.v ===== *)
(** * SwimSafety: what the probes of a SWIM cluster can find out

    An invariant of all reachable clusters relates the channels and waiting
    goroutines of each node to the messages of the network. *)

From Stdlib Require Import SpecFloat.
From S2P Require Import Prelude Float64 Memberlist PhiAccrual Swim.

Section swim_safety.
  Context (Erfc Log10 : float64 -> float64).

(** ** The local part: member list, detector, timers *)

(** A node sees itself as alive in its first incarnation. *)
Record local_ok (k : string) (s : SWIM) : Prop := {
  lo_id : sw_id s = k;
  lo_cfg : config_ok (sw_config s);
  lo_local : ml_localID (sw_memberList s) = k;
  lo_wf : ml_wf (sw_memberList s);
  lo_self : ranks (sw_memberList s) k = Some (rank 1 StateAlive);
  lo_det : detector_ok (sw_detector s);
  lo_th : ph_threshold (sw_detector s) = f64 8;
  lo_peer : ph_peers (sw_detector s) !! k = None;
  lo_timers : k ∉ sw_suspicionTimers s;
}.

(** Nothing happens to pings and messages. *)
Definition quiet (s s' : SWIM) : Prop :=
  sw_seqNum s' = sw_seqNum s /\ sw_chans s' = sw_chans s /\ sw_sent s' = sw_sent s.

Lemma quiet_refl s : quiet s s.
Proof. done. Qed.

Lemma quiet_trans s1 s2 s3 : quiet s1 s2 -> quiet s2 s3 -> quiet s1 s3.
Proof. intros (? & ? & ?) (? & ? & ?). split_and!; congruence. Qed.

Lemma apply_update_ok now u k s : local_ok k s -> gu_NodeID u <> k -> quiet s (apply_update now u s) /\ local_ok k (apply_update now u s).
Proof.
  intros [] Hu. unfold apply_update. pose proof (ApplyUpdate_members now u (sw_memberList s) lo_wf0) as H.
  destruct (ApplyUpdate now u (sw_memberList s)) as [[b ml] notes]. cbn in H. destruct H as (Hwf & Hloc & Hr).
  split; [done|]. constructor; cbn; try done; [congruence|]. rewrite Hr. by destruct (String.eqb_spec (gu_NodeID u) k).
Qed.

Lemma SuspectNode_ok now j k ml : ml_wf ml -> j <> k ->
  ml_wf (SuspectNode now j ml).1 /\ ml_localID (SuspectNode now j ml).1 = ml_localID ml /\ ranks (SuspectNode now j ml).1 k = ranks ml k.
Proof.
  intros Hwf Hj. destruct (ml_members ml !! j) as [m|] eqn:Hm; [|unfold SuspectNode; by rewrite Hm].
  rewrite (SuspectNode_eq _ _ _ _ Hwf Hm). cbn [fst]. case_bool_decide; [|done].
  split_and!; [apply set_members_wf; [done|by apply (Hwf _ _ Hm)]|done|]. unfold ranks. cbn. by rewrite lookup_insert_ne.
Qed.

Lemma ConfirmDead_ok now j k ml : ml_wf ml -> j <> k ->
  ml_wf (ConfirmDead now j ml).1 /\ ml_localID (ConfirmDead now j ml).1 = ml_localID ml /\ ranks (ConfirmDead now j ml).1 k = ranks ml k.
Proof.
  intros Hwf Hj. destruct (ml_members ml !! j) as [m|] eqn:Hm; [|unfold ConfirmDead; by rewrite Hm].
  rewrite (ConfirmDead_eq _ _ _ _ Hwf Hm). cbn [fst]. case_bool_decide; [done|].
  split_and!; [apply set_members_wf; [done|by apply (Hwf _ _ Hm)]|done|]. unfold ranks. cbn. by rewrite lookup_insert_ne.
Qed.

Lemma suspectNode_ok now j k s : local_ok k s -> j <> k -> quiet s (suspectNode now j s) /\ local_ok k (suspectNode now j s).
Proof.
  intros [] Hj. unfold suspectNode. pose proof (SuspectNode_ok now j k _ lo_wf0 Hj) as H.
  destruct (SuspectNode now j (sw_memberList s)) as [ml notes]. cbn in H. destruct H as (Hwf & Hloc & Hr).
  destruct (decide _); (split; [done|]); constructor; cbn; try done; try congruence. set_solver.
Qed.

Lemma suspicion_timeout_ok now j k s : local_ok k s -> j <> k -> quiet s (suspicion_timeout now j s) /\ local_ok k (suspicion_timeout now j s).
Proof.
  intros [] Hj. unfold suspicion_timeout. cbn [set_timers sw_memberList]. pose proof (ConfirmDead_ok now j k _ lo_wf0 Hj) as H.
  assert (Hs : quiet s (set_timers (sw_suspicionTimers s ∖ {[j]}) s) /\ local_ok k (set_timers (sw_suspicionTimers s ∖ {[j]}) s)).
  { split; [done|]. constructor; cbn; try done. set_solver. }
  destruct (ML_Get j (sw_memberList s)) as [m|]; [|done]. case_bool_decide; [|done].
  destruct (ConfirmDead now j (sw_memberList s)) as [ml notes]. cbn in H. destruct H as (Hwf & Hloc & Hr). destruct Hs as [Hq []].
  split; [done|]. constructor; cbn; try done; congruence.
Qed.

Lemma swim_gc_round_ok now k s : local_ok k s -> quiet s (swim_gc_round now s) /\ local_ok k (swim_gc_round now s).
Proof.
  intros []. split; [done|]. constructor; cbn; try done.
  - intros j m Hm. cbn in Hm. apply map_lookup_filter_Some in Hm as [Hm _]. by apply lo_wf0.
  - unfold ranks in *. cbn. destruct (ml_members (sw_memberList s) !! k) as [m|] eqn:Hm; [|done].
    rewrite (map_lookup_filter_Some_2 _ _ _ m) //. cbn. unfold gc_member. cbn. by rewrite lo_local0 String.eqb_refl.
Qed.

Lemma heartbeat_ok j now k s : local_ok k s -> j <> k -> exists s', heartbeat Erfc Log10 j now s = Some s' /\ quiet s s' /\ local_ok k s'.
Proof.
  intros Hl Hj. pose proof Hl as []. unfold heartbeat.
  destruct (PD_Heartbeat_reports Erfc Log10 j now (sw_detector s)) as (prev & alive & d' & _ & Hd & Hok & _ & _); [done|by rewrite lo_th0|].
  assert (Hd' : ph_threshold d' = f64 8 /\ ph_peers d' !! k = None).
  { unfold PD_Heartbeat in Hd. apply bind_Some in Hd as (p & _ & Hd). apply bind_Some in Hd as (w & _ & Hd). apply bind_Some in Hd as (q & _ & Hd).
    injection Hd as _ <-. cbn. by rewrite lookup_insert_ne. }
  rewrite Hd. cbn. assert (Hl' : local_ok k (set_detector d' s)) by (destruct Hd'; constructor; cbn; done).
  destruct alive; [|eexists; by split_and!]. destruct (apply_update_ok now (mkGossipUpdate j StateAlive 0 EmptyString) k _ Hl' Hj) as [Hq Hl''].
  eexists. by split_and!.
Qed.

Lemma suspects_ok now k l : forall s, local_ok k s -> (forall x, x ∈ l -> x.1 <> k) ->
  quiet s (fold_left (fun s (x : string * float64) => suspectNode now x.1 s) l s) /\ local_ok k (fold_left (fun s x => suspectNode now x.1 s) l s).
Proof.
  induction l as [|x l IH]; intros s Hl Hx; [done|]. cbn [fold_left].
  destruct (suspectNode_ok now x.1 k s Hl) as [Hq Hl']; [apply Hx; set_solver|].
  destruct (IH _ Hl') as [Hq' Hl'']; [intros; apply Hx; set_solver|]. split; [by eapply quiet_trans|done].
Qed.

Lemma PD_Check_peers now d r l : PD_Check Erfc Log10 now d = Some (r, l) -> forall x, x ∈ l -> is_Some (ph_peers d !! x.1).
Proof.
  intros H x Hx. unfold PD_Check in H. apply bind_Some in H as (res & Hres & H). injection H as <- <-.
  apply list_elem_of_In, List.filter_In in Hx as [Hx _]. apply list_elem_of_In in Hx. revert x Hx.
  eapply (for_each_inv (fun acc : list (string * float64) => forall x, x ∈ acc -> is_Some (ph_peers d !! x.1))); [| |exact Hres].
  - intros [j w] acc acc' Hin Hacc Hstep. apply elem_of_map_to_list in Hin. apply bind_Some in Hstep as (phi & _ & Hstep). injection Hstep as <-.
    intros x [Hx| ->%list_elem_of_singleton]%elem_of_app; [by apply Hacc|]. by eexists.
  - by intros x ?%elem_of_nil.
Qed.

Lemma phi_round_ok now k s : local_ok k s -> exists s', phi_round Erfc Log10 now s = Some s' /\ quiet s s' /\ local_ok k s'.
Proof.
  intros Hl. pose proof Hl as []. unfold phi_round. destruct (PD_Check_total Erfc Log10 now _ lo_det0) as (r & l & Hc). rewrite Hc. cbn.
  eexists. split; [done|]. apply suspects_ok; [done|]. intros x Hx <-. destruct (PD_Check_peers _ _ _ _ Hc _ Hx). congruence.
Qed.

(** A node never finds itself suspected, so it never refutes. *)
Lemma gossip_update_ok now u k s : local_ok k s -> exists s', gossip_update now u s = Some s' /\ quiet s s' /\ local_ok k s'.
Proof.
  intros Hl. pose proof Hl as []. unfold gossip_update. rewrite lo_id0. destruct (String.eqb_spec (gu_NodeID u) k) as [Hu|Hu].
  - unfold ML_Get. unfold ranks in lo_self0. destruct (ml_members (sw_memberList s) !! k) as [m|]; [|done]. injection lo_self0 as Hr.
    apply rank_inj in Hr as [_ Hst]. rewrite bool_decide_false; [eexists; by split_and!|congruence].
  - destruct (apply_update_ok now u k s Hl Hu). eauto.
Qed.

Lemma gossip_updates_ok now us k : forall s, local_ok k s -> exists s', for_each (gossip_update now) us s = Some s' /\ quiet s s' /\ local_ok k s'.
Proof.
  induction us as [|u us IH]; intros s Hl; [eauto using quiet_refl|]. cbn [for_each].
  destruct (gossip_update_ok now u k s Hl) as (s1 & -> & Hq1 & Hl1). cbn. destruct (IH s1 Hl1) as (s2 & -> & Hq2 & Hl2). eauto using quiet_trans.
Qed.

(** ** Pings, answers and channels *)

Definition is_ask (m : SWIMMessage) : Prop := sm_Type m = MsgPing \/ sm_Type m = MsgPingReq.

(** An answer has its question in the network, and the answer of a helper
    always reports a failure. *)
Definition msg_ok (net : SWIMMessage -> Prop) (m : SWIMMessage) : Prop :=
  sm_From m <> sm_To m /\
  match sm_Type m with
  | MsgPing => True
  | MsgPingReq => sm_Target m <> sm_To m
  | MsgPingAck => exists p, net p /\ sm_Type p = MsgPing /\ sm_From p = sm_To m /\ sm_To p = sm_From m /\ sm_SeqNum p = sm_SeqNum m
  | MsgPingReqAck => target_suspected m = true /\ exists p, net p /\ sm_Type p = MsgPingReq /\ sm_From p = sm_To m /\ sm_SeqNum p = sm_SeqNum m
  end.

Record swim_inv (net : SWIMMessage -> Prop) (k : string) (s : SWIM) : Prop := {
  si_local : local_ok k s;
  si_seq : 0 <= sw_seqNum s < two64;
  si_sent : forall m, m ∈ sw_sent s -> sm_From m = k /\ msg_ok net m;
  si_ask : forall m, m ∈ sw_sent s -> is_ask m -> sm_SeqNum m <= sw_seqNum s;
  si_uniq : forall m m', m ∈ sw_sent s -> m' ∈ sw_sent s -> is_ask m -> is_ask m' -> sm_SeqNum m = sm_SeqNum m' -> m = m';
  si_chan : forall seq v, sw_chans s !! seq = Some (Some v) ->
    exists m, net m /\ sm_To m = k /\ sm_SeqNum m = seq /\ sm_Type m = (if v : bool then MsgPingAck else MsgPingReqAck);
}.

Lemma swim_quiet net k s s' : swim_inv net k s -> quiet s s' -> local_ok k s' -> swim_inv net k s'.
Proof. intros [] (Hseq & Hch & Hsent) Hl. constructor; [done|rewrite ?Hseq ?Hch ?Hsent; done..]. Qed.

(** Sending a ping or a request for one. *)
Lemma swim_ask net k s ty to target updates : swim_inv net k s -> sw_seqNum s < two64 - 1 -> to <> k ->
  ty = MsgPing \/ ty = MsgPingReq /\ target <> to ->
  let '(seq, s1) := nextSeq s in
  let s2 := swim_send (mkSWIMMessage ty k to target seq updates) s1 in
  swim_inv net k s2 /\ seq = sw_seqNum s + 1 /\ sw_seqNum s2 = seq /\ sw_chans s2 = <[seq := None]> (sw_chans s) /\
  sw_sent s2 = sw_sent s ++ [mkSWIMMessage ty k to target seq updates].
Proof.
  intros [] Hseq Hto Hty. cbn. rewrite u64_small; [|lia]. set (msg := mkSWIMMessage _ _ _ _ _ _).
  split_and!; [|done..]. constructor; cbn.
  - by destruct si_local0.
  - lia.
  - intros m [Hm| ->%list_elem_of_singleton]%elem_of_app; [by apply si_sent0|]. split; [done|]. split; [done|].
    by destruct Hty as [-> | [-> ?]].
  - intros m [Hm| ->%list_elem_of_singleton]%elem_of_app Ha; [|done]. pose proof (si_ask0 _ Hm Ha). lia.
  - intros m m' [Hm| ->%list_elem_of_singleton]%elem_of_app [Hm'| ->%list_elem_of_singleton]%elem_of_app Ha Ha' Heq; [by apply si_uniq0| | |done].
    + pose proof (si_ask0 _ Hm Ha). cbn in Heq. lia.
    + pose proof (si_ask0 _ Hm' Ha'). cbn in Heq. lia.
  - intros seq v [[_ ?]|[_ Hv]]%lookup_insert_Some; [done|by apply si_chan0].
Qed.

(** Sending an answer. *)
Lemma swim_answer net k s m : swim_inv net k s -> sm_From m = k -> msg_ok net m -> ~ is_ask m -> swim_inv net k (swim_send m s).
Proof.
  intros [] Hf Hok Hna. constructor; cbn; try done.
  - by destruct si_local0.
  - intros m' [Hm| ->%list_elem_of_singleton]%elem_of_app; [by apply si_sent0|done].
  - intros m' [Hm| ->%list_elem_of_singleton]%elem_of_app Ha; [by apply si_ask0|done].
  - intros m1 m2 [Hm1| ->%list_elem_of_singleton]%elem_of_app [Hm2| ->%list_elem_of_singleton]%elem_of_app; [by apply si_uniq0|done..].
Qed.

(** An answer that is received. *)
Lemma swim_chan net k s m v : swim_inv net k s -> net m -> sm_To m = k -> sm_Type m = (if v : bool then MsgPingAck else MsgPingReqAck) ->
  swim_inv net k (chan_send (sm_SeqNum m) v (drop_ping (sm_SeqNum m) s)).
Proof.
  intros [] Hm Hto Hty. unfold chan_send. cbn [drop_ping set_pings sw_chans].
  destruct (sw_chans s !! sm_SeqNum m) as [[?|]|]; constructor; cbn; try done; try (by destruct si_local0).
  intros seq w [[<- [= <-]]|[_ Hw]]%lookup_insert_Some; [eauto|by apply si_chan0].
Qed.

(** ** The goroutines *)

Definition asked (s : SWIM) (ty : SWIMMessageType) (to : string) (seq : Z) : Prop :=
  exists m, m ∈ sw_sent s /\ sm_Type m = ty /\ sm_To m = to /\ sm_SeqNum m = seq.

Definition proto_ok (k : string) (s : SWIM) (p : proto) : Prop :=
  match p with
  | PIdle => True
  | PDirect target seq => target <> k /\ asked s MsgPing target seq
  | PIndirect target _ _ => target <> k
  end.

Definition helper_ok (k : string) (s : SWIM) (h : helper) : Prop :=
  match h with
  | HStart h target _ => h <> k /\ target <> h
  | HWait seq _ => exists to, asked s MsgPingReq to seq
  | HDone => True
  end.

Definition recv_ok (net : SWIMMessage -> Prop) (k : string) (s : SWIM) (r : recv) : Prop :=
  match r with
  | RIdle => True
  | RPing msg seq => net msg /\ sm_Type msg = MsgPingReq /\ sm_To msg = k /\ sw_chans s !! seq = Some None /\ seq <= sw_seqNum s
  end.

Definition join_ok (k : string) (s : SWIM) (j : join) : Prop :=
  match j with
  | JIdle => True
  | JNext seeds => k ∉ seeds
  | JWait seed seq seeds => seed <> k /\ k ∉ seeds /\ asked s MsgPing seed seq
  end.

Record node_inv (net : SWIMMessage -> Prop) (k : string) (n : SwimNode) : Prop := {
  ni_swim : swim_inv net k (nd_swim n);
  ni_proto : proto_ok k (nd_swim n) (nd_proto n);
  ni_helpers : forall h, h ∈ nd_helpers n -> helper_ok k (nd_swim n) h;
  ni_acks : forall x, x ∈ nd_acks n -> x.2 = false;
  ni_indirect : nd_indirect n = [];
  ni_recv : recv_ok net k (nd_swim n) (nd_recv n);
  ni_join : join_ok k (nd_swim n) (nd_join n);
  ni_ok : forall target seq, (target, seq) ∈ nd_ok n ->
    exists m, net m /\ sm_Type m = MsgPingAck /\ sm_From m = target /\ sm_To m = k /\ sm_SeqNum m = seq;
}.

(** Messages only add up, and the channel of a waiting receive loop is left alone. *)
Definition grows (r : recv) (s s' : SWIM) : Prop :=
  (forall m, m ∈ sw_sent s -> m ∈ sw_sent s') /\ sw_seqNum s <= sw_seqNum s' /\
  match r with RIdle => True | RPing _ seq => sw_chans s !! seq = Some None -> seq <= sw_seqNum s -> sw_chans s' !! seq = Some None end.

Lemma asked_grows r s s' ty to seq : grows r s s' -> asked s ty to seq -> asked s' ty to seq.
Proof. intros (Hs & _) (m & Hm & H). exists m. auto. Qed.

Lemma node_swim net k n s' : node_inv net k n -> swim_inv net k s' -> grows (nd_recv n) (nd_swim n) s' -> node_inv net k (with_swim s' n).
Proof.
  intros [] Hs Hg. constructor; cbn; try done.
  - destruct (nd_proto n); cbn in *; [done| |done]. destruct ni_proto0. split; [done|by eapply asked_grows].
  - intros h Hh. specialize (ni_helpers0 _ Hh). destruct h; cbn in *; [done| |done]. destruct ni_helpers0 as (to & Ha). exists to. by eapply asked_grows.
  - destruct Hg as (_ & Hle & Hch). destruct (nd_recv n); cbn in *; [done|]. destruct ni_recv0 as (? & ? & ? & ? & ?). split_and!; [done..|by apply Hch|lia].
  - destruct (nd_join n); cbn in *; [done|done|]. destruct ni_join0 as (? & ? & ?). split_and!; [done|done|by eapply asked_grows].
Qed.

Lemma grows_quiet r s s' : quiet s s' -> grows r s s'.
Proof. intros (Hseq & Hch & Hsent). unfold grows. rewrite Hseq Hch Hsent. split_and!; [done|done|]. by destruct r. Qed.

Lemma node_quiet net k n s' : node_inv net k n -> quiet (nd_swim n) s' -> local_ok k s' -> node_inv net k (with_swim s' n).
Proof. intros Hn Hq Hl. apply node_swim; [done|by eapply swim_quiet, Hl; [apply Hn|]|by apply grows_quiet]. Qed.

Lemma grows_ask r s s2 m : sw_seqNum s2 = sw_seqNum s + 1 -> sw_chans s2 = <[sw_seqNum s + 1 := None]> (sw_chans s) -> sw_sent s2 = sw_sent s ++ [m] ->
  grows r s s2.
Proof.
  intros Hseq Hch Hsent. unfold grows. rewrite Hseq Hch Hsent. split_and!; [intros; apply elem_of_app; by left|lia|].
  destruct r; [done|]. intros Hc Hle. rewrite lookup_insert_ne //. lia.
Qed.

(** What a node asks: the answer can only come from the node it asked. *)
Lemma node_ask net k n ty to target updates : node_inv net k n -> sw_seqNum (nd_swim n) < two64 - 1 -> to <> k ->
  ty = MsgPing \/ ty = MsgPingReq /\ target <> to ->
  let '(seq, s1) := nextSeq (nd_swim n) in
  let s2 := swim_send (mkSWIMMessage ty k to target seq updates) s1 in
  node_inv net k (with_swim s2 n) /\ asked s2 ty to seq /\ sw_chans s2 !! seq = Some None /\ seq <= sw_seqNum s2.
Proof.
  intros Hn Hseq Hto Hty. pose proof (swim_ask net k (nd_swim n) ty to target updates (ni_swim _ _ _ Hn) Hseq Hto Hty) as H.
  destruct (nextSeq (nd_swim n)) as [seq s1]. cbn zeta in H |- *. destruct H as (Hs & -> & Hsq & Hch & Hsent). split_and!.
  - apply node_swim; [done|done|]. by eapply grows_ask.
  - eexists. rewrite Hsent. split; [apply elem_of_app; right; by apply list_elem_of_singleton|done].
  - by rewrite Hch lookup_insert_eq.
  - lia.
Qed.

(** ** Steps *)

Lemma recent_total max s : 0 <= max -> exists us, recent max s = Some us.
Proof.
  intros Hm. unfold recent, RecentUpdates. pose proof (zlen_nonneg (ml_recentUpdates (sw_memberList s))).
  destruct (Z.ltb_spec max (zlen (ml_recentUpdates (sw_memberList s)))); (destruct (_ <? 0) eqn:Hlt; [apply Z.ltb_lt in Hlt; lia|eauto]).
Qed.

Lemma pickK_total c shuffled : 0 <= c -> exists hs, pickKRandomMembers c shuffled = Some hs /\ forall m, m ∈ hs -> m ∈ shuffled.
Proof.
  intros Hc. unfold pickKRandomMembers. pose proof (zlen_nonneg shuffled).
  destruct (Z.ltb_spec (zlen shuffled) c); (destruct (_ <? 0) eqn:Hlt; [apply Z.ltb_lt in Hlt; lia|]); eexists; (split; [done|]); intros m Hm;
    (eapply subseteq_take; exact Hm).
Qed.

Lemma others_elem m exclude s : m ∈ others exclude s -> mb_NodeID m ∉ exclude.
Proof.
  unfold others. intros [_ H]%list_elem_of_In%List.filter_In. by case_bool_decide.
Qed.

Lemma node_proto net k n p : node_inv net k n -> proto_ok k (nd_swim n) p -> node_inv net k (with_proto p n).
Proof. by intros [] Hp; constructor. Qed.

Lemma node_recv net k n r : node_inv net k n -> recv_ok net k (nd_swim n) r -> node_inv net k (with_recv r n).
Proof. by intros [] Hp; constructor. Qed.

Lemma node_join net k n j : node_inv net k n -> join_ok k (nd_swim n) j -> node_inv net k (with_join j n).
Proof. by intros [] Hp; constructor. Qed.

Lemma node_helpers net k n hs acks : node_inv net k n -> (forall h, h ∈ hs -> helper_ok k (nd_swim n) h) -> (forall x, x ∈ acks -> x.2 = false) ->
  node_inv net k (with_helpers hs acks n).
Proof. by intros [] Hh Ha; constructor. Qed.

Lemma insert_helpers k s (hs : list helper) (i : nat) h : (forall h, h ∈ hs -> helper_ok k s h) -> helper_ok k s h -> forall h', h' ∈ <[i := h]> hs -> helper_ok k s h'.
Proof.
  intros Hall Hh h' [j Hj]%list_elem_of_lookup. apply list_lookup_insert_Some in Hj as [(_ & <- & _)|[_ Hj]]; [done|].
  by apply Hall, (list_elem_of_lookup_2 _ j).
Qed.

Lemma snoc_acks acks (x : nat * bool) : (forall x, x ∈ acks -> x.2 = false) -> x.2 = false -> forall y, y ∈ acks ++ [x] -> y.2 = false.
Proof. intros Ha Hx y [Hy| ->%list_elem_of_singleton]%elem_of_app; auto. Qed.

Lemma drop_ping_quiet k seq s : local_ok k s -> quiet s (drop_ping seq s) /\ local_ok k (drop_ping seq s).
Proof. intros []. by split. Qed.

Lemma node_drop net k n seq : node_inv net k n -> node_inv net k (with_swim (drop_ping seq (nd_swim n)) n).
Proof. intros Hn. destruct (drop_ping_quiet k seq _ (si_local _ _ _ (ni_swim _ _ _ Hn))). by apply node_quiet. Qed.

Lemma node_suspect net k n now target : node_inv net k n -> target <> k ->
  node_inv net k (with_proto PIdle (with_swim (suspectNode now target (nd_swim n)) n)).
Proof.
  intros Hn Ht. destruct (suspectNode_ok now target k _ (si_local _ _ _ (ni_swim _ _ _ Hn)) Ht). apply node_proto; [by apply node_quiet|done].
Qed.

Section step.
  Context (net : SWIMMessage -> Prop) (k : string) (n : SwimNode).
  Context (Hn : node_inv net k n).
  Context (Hnet : forall m, net m -> msg_ok net m /\ (sm_From m = k -> m ∈ sw_sent (nd_swim n))).
  Context (Hseq : sw_seqNum (nd_swim n) < two64 - 1).

Lemma indirectProbe_ok now target shuffled n' : node_inv net k n' -> target <> k -> (forall m, m ∈ shuffled -> mb_NodeID m ∉ [k; target]) ->
  exists n'', indirectProbe now target shuffled n' = Some n'' /\ node_inv net k n''.
Proof.
  intros Hn' Ht Hsh. unfold indirectProbe. destruct (pickK_total (cf_IndirectPingCount (sw_config (nd_swim n'))) shuffled) as (hs & -> & Hhs).
  { apply (lo_cfg k), (si_local net), Hn'. }
  cbn. destruct hs as [|h hs]; [eexists; split; [done|by apply node_suspect]|].
  eexists. split; [done|]. destruct Hn'. constructor; cbn [nd_swim nd_proto nd_helpers nd_acks nd_recv nd_join nd_ok nd_indirect]; try done.
  intros x [Hx|Hx]%elem_of_app; [by apply ni_helpers0|]. apply list_elem_of_fmap in Hx as (m & -> & Hm).
  specialize (Hsh m (Hhs _ Hm)). cbn. set_solver.
Qed.

(** The value in the channel of an own ping or request. *)
Lemma chan_value seq v ty to : sw_chans (nd_swim n) !! seq = Some (Some v) -> asked (nd_swim n) ty to seq -> ty = MsgPing \/ ty = MsgPingReq ->
  (ty = MsgPing /\ exists m, net m /\ sm_Type m = MsgPingAck /\ sm_From m = to /\ sm_To m = k /\ sm_SeqNum m = seq) \/ (ty = MsgPingReq /\ v = false).
Proof.
  intros Hc (a & Ha & <- & <- & <-) Hty. destruct (ni_swim _ _ _ Hn). destruct (si_chan0 _ _ Hc) as (m & Hm & Hto & Hs & Hmt).
  destruct (Hnet m Hm) as [[_ Hok] _].
  assert (Hsame : forall p, net p -> is_ask p -> sm_From p = sm_To m -> sm_SeqNum p = sm_SeqNum m -> p = a).
  { intros p Hp Hask Hfp Hsp. apply si_uniq0; [by apply Hnet; [|congruence]|done|done|done|congruence]. }
  destruct v; rewrite Hmt in Hok.
  - destruct Hok as (p & Hp & Hpt & Hpf & Hpto & Hps). assert (p = a) as -> by (apply Hsame; [done|by left|done|done]). left. split; [done|]. exists m. done.
  - destruct Hok as (_ & p & Hp & Hpt & Hpf & Hps). assert (p = a) as -> by (apply Hsame; [done|by right|done|done]). by right.
Qed.

Lemma probe_start_ok now choice sendOk shuffled :
  (forall target, pickRandomMember choice (nd_swim n) = Some target -> shuffled ≡ₚ others [k; mb_NodeID target] (nd_swim n)) ->
  exists n', probe_start now choice sendOk shuffled n = Some n' /\ node_inv net k n'.
Proof.
  intros Hsh. unfold probe_start. destruct (pickRandomMember choice (nd_swim n)) as [target|] eqn:Hpick; [|eauto].
  specialize (Hsh _ eq_refl). pose proof (si_local _ _ _ (ni_swim _ _ _ Hn)) as Hl. pose proof (lo_id _ _ Hl) as Hid.
  assert (Ht : mb_NodeID target <> k).
  { unfold pickRandomMember in Hpick. apply list_elem_of_lookup_2, others_elem in Hpick. rewrite Hid in Hpick. set_solver. }
  destruct (nextSeq (nd_swim n)) as [seq s1] eqn:Hns.
  assert (Hcfg : sw_config s1 = sw_config (nd_swim n)) by (by injection Hns as _ <-). assert (Hid1 : sw_id s1 = k) by (unfold sw_id in *; congruence).
  destruct (recent_total (cf_GossipFanout (sw_config s1)) s1) as (us & ->); [rewrite Hcfg; apply (lo_cfg _ _ Hl)|]. cbn. rewrite Hid1.
  pose proof (node_ask net k n MsgPing (mb_NodeID target) EmptyString us Hn Hseq Ht (or_introl eq_refl)) as H. rewrite Hns in H.
  cbn zeta in H. destruct H as (Hn2 & Hask & _). destruct sendOk.
  - eexists. split; [done|]. by apply node_proto.
  - apply indirectProbe_ok; [by apply (node_drop _ _ _ seq) in Hn2|done|]. intros m Hm. rewrite Hsh in Hm. by apply others_elem in Hm.
Qed.

Lemma probe_wait_ok now timeout shuffled target seq : nd_proto n = PDirect target seq -> shuffled ≡ₚ others [k; target] (nd_swim n) ->
  exists n', probe_wait Erfc Log10 now timeout shuffled target seq n = Some n' /\ node_inv net k n'.
Proof.
  intros Hp Hsh. pose proof (ni_proto _ _ _ Hn) as Hpo. rewrite Hp in Hpo. destruct Hpo as [Ht Hask]. unfold probe_wait. destruct timeout.
  { apply indirectProbe_ok; [by apply node_drop|done|]. intros m Hm. rewrite Hsh in Hm. by apply others_elem in Hm. }
  destruct (sw_chans (nd_swim n) !! seq) as [[v|]|] eqn:Hc; [|eauto..].
  destruct (chan_value _ _ _ _ Hc Hask (or_introl eq_refl)) as [[_ Hm]|[? _]]; [|done].
  destruct (heartbeat_ok target now k _ (si_local _ _ _ (ni_swim _ _ _ Hn)) Ht) as (s' & -> & Hq & Hl). cbn. eexists. split; [done|].
  assert (H' : node_inv net k (with_proto PIdle (with_swim s' n))) by (apply node_proto; [by apply node_quiet|done]). destruct H'.
  constructor; cbn in *; try done. intros t sq [Hin|Hin%list_elem_of_singleton]%elem_of_app; [by apply ni_ok0|]. injection Hin as -> ->. done.
Qed.

Lemma helper_start_ok i sendOk helperID target probe : nd_helpers n !! i = Some (HStart helperID target probe) ->
  exists n', helper_start i sendOk helperID target probe n = Some n' /\ node_inv net k n'.
Proof.
  intros Hi. pose proof (ni_helpers _ _ _ Hn _ (list_elem_of_lookup_2 _ _ _ Hi)) as [Hh Ht]. unfold helper_start.
  pose proof (si_local _ _ _ (ni_swim _ _ _ Hn)) as Hl. pose proof (lo_id _ _ Hl) as Hid.
  destruct (nextSeq (nd_swim n)) as [seq s1] eqn:Hns.
  assert (Hcfg : sw_config s1 = sw_config (nd_swim n)) by (by injection Hns as _ <-). assert (Hid1 : sw_id s1 = k) by (unfold sw_id in *; congruence).
  destruct (recent_total (cf_GossipFanout (sw_config s1)) s1) as (us & ->); [rewrite Hcfg; apply (lo_cfg _ _ Hl)|]. cbn. rewrite Hid1.
  pose proof (node_ask net k n MsgPingReq helperID target us Hn Hseq Hh (or_intror (conj eq_refl Ht))) as H. rewrite Hns in H.
  cbn zeta in H. destruct H as (Hn2 & Hask & _). eexists. split; [done|]. destruct sendOk.
  - apply node_helpers; [done| |apply (ni_acks _ _ _ Hn)]. apply insert_helpers; [apply (ni_helpers _ _ _ Hn2)|]. by exists helperID.
  - apply (node_drop _ _ _ seq) in Hn2. apply node_helpers; [done| |apply snoc_acks; [apply (ni_acks _ _ _ Hn)|done]].
    apply insert_helpers; [apply (ni_helpers _ _ _ Hn2)|done].
Qed.

Lemma helper_wait_ok i timeout seq probe : nd_helpers n !! i = Some (HWait seq probe) -> node_inv net k (helper_wait i timeout seq probe n).
Proof.
  intros Hi. pose proof (ni_helpers _ _ _ Hn _ (list_elem_of_lookup_2 _ _ _ Hi)) as [to Hask]. unfold helper_wait. destruct timeout.
  - pose proof (node_drop _ _ _ seq Hn) as Hn2. apply node_helpers; [done| |apply snoc_acks; [apply (ni_acks _ _ _ Hn)|done]].
    apply insert_helpers; [apply (ni_helpers _ _ _ Hn2)|done].
  - destruct (sw_chans (nd_swim n) !! seq) as [[v|]|] eqn:Hc; [|done..].
    destruct (chan_value _ _ _ _ Hc Hask (or_intror eq_refl)) as [[? _]|[_ ->]]; [done|].
    apply node_helpers; [done| |apply snoc_acks; [apply (ni_acks _ _ _ Hn)|done]]. apply insert_helpers; [apply (ni_helpers _ _ _ Hn)|done].
Qed.

(** No helper ever brings good news. *)
Lemma indirect_wait_ok now i target probe outstanding : nd_proto n = PIndirect target probe outstanding ->
  exists n', indirect_wait Erfc Log10 now i target probe outstanding n = Some n' /\ node_inv net k n'.
Proof.
  intros Hp. pose proof (ni_proto _ _ _ Hn) as Ht. rewrite Hp in Ht. unfold indirect_wait.
  assert (Hnext : forall n', node_inv net k n' -> node_inv net k
    (match outstanding with S (S o) => with_proto (PIndirect target probe (S o)) n' | _ => with_proto PIdle (with_swim (suspectNode now target (nd_swim n')) n') end)).
  { intros n' Hn'. destruct outstanding as [|[|o]]; [by apply node_suspect..|by apply node_proto]. }
  destruct i as [i|]; [|eauto]. destruct (nd_acks n !! i) as [[p acked]|] eqn:Ha; [|eauto]. destruct (p =? probe)%nat; [|eauto].
  pose proof (ni_acks _ _ _ Hn _ (list_elem_of_lookup_2 _ _ _ Ha)) as Hf. cbn in Hf. subst acked. eexists. split; [done|]. apply Hnext.
  apply node_helpers; [done|apply (ni_helpers _ _ _ Hn)|]. intros x Hx. apply (ni_acks _ _ _ Hn).
  eapply elem_of_submseteq; [exact Hx|]. apply sublist_submseteq, sublist_delete.
Qed.

Lemma grows_idle s s' : sw_sent s' = sw_sent s -> sw_seqNum s' = sw_seqNum s -> grows RIdle s s'.
Proof. intros Hs Hq. unfold grows. rewrite Hs Hq. by split_and!. Qed.

Lemma chan_send_same seq v s : sw_sent (chan_send seq v (drop_ping seq s)) = sw_sent s /\ sw_seqNum (chan_send seq v (drop_ping seq s)) = sw_seqNum s.
Proof. unfold chan_send. cbn. by destruct (sw_chans s !! seq) as [[]|]. Qed.

(** A message that answers: the channel gets its value. *)
Lemma recv_answer_ok n' m v : node_inv net k n' -> nd_recv n' = RIdle -> net m -> sm_To m = k -> sm_Type m = (if v : bool then MsgPingAck else MsgPingReqAck) ->
  node_inv net k (with_swim (if decide (sm_SeqNum m ∈ sw_pendingPings (nd_swim n')) then chan_send (sm_SeqNum m) v (drop_ping (sm_SeqNum m) (nd_swim n')) else nd_swim n') n').
Proof.
  intros Hn' Hr Hm Hto Hty. destruct (decide _); [|by destruct n']. destruct (chan_send_same (sm_SeqNum m) v (nd_swim n')).
  apply node_swim; [done|apply swim_chan; [apply Hn'|done..]|]. rewrite Hr. by apply grows_idle.
Qed.

Lemma recv_message_ok now msg : nd_recv n = RIdle -> net msg -> sm_To msg = k ->
  exists n', recv_message Erfc Log10 now msg n = Some n' /\ node_inv net k n'.
Proof.
  intros Hr Hm Hto. destruct (Hnet msg Hm) as [[Hft Hok] _]. rewrite Hto in Hft. unfold recv_message, handleMessage.
  destruct (gossip_updates_ok now (sm_Updates msg) k _ (si_local _ _ _ (ni_swim _ _ _ Hn))) as (s1 & -> & Hq1 & Hl1). cbn [mbind option_bind].
  pose proof (node_quiet _ _ _ _ Hn Hq1 Hl1) as Hn1. destruct (sm_Type msg) eqn:Hty.
  - unfold handlePing. destruct (heartbeat_ok (sm_From msg) now k s1 Hl1 Hft) as (s2 & -> & Hq2 & Hl2). cbn [mbind option_bind].
    destruct (recent_total (cf_GossipFanout (sw_config s2)) s2) as (us & ->); [apply (lo_cfg _ _ Hl2)|]. cbn. eexists. split; [done|].
    pose proof (node_quiet _ _ _ s2 Hn (quiet_trans _ _ _ Hq1 Hq2) Hl2) as Hn2. apply node_recv; [|done].
    apply (node_swim net k (with_swim s2 n)); [done| |].
    + apply swim_answer; [apply Hn2|by apply lo_id| |intros [?|?]; done]. rewrite (lo_id _ _ Hl2). split; [done|]. cbn. by exists msg.
    + cbn. rewrite Hr. unfold grows. split_and!; [|done|done]. intros m' ?. apply elem_of_app. by left.
  - unfold handlePingAck. pose proof (recv_answer_ok (with_swim s1 n) msg true Hn1 Hr Hm Hto Hty) as Hn2. cbn [nd_swim with_swim] in Hn2. revert Hn2.
    set (s2 := if decide _ then _ else s1). intros Hn2.
    destruct (heartbeat_ok (sm_From msg) now k s2 (si_local _ _ _ (ni_swim _ _ _ Hn2)) Hft) as (s3 & -> & Hq3 & Hl3). cbn. eexists. split; [done|].
    apply node_recv; [|done]. by apply (node_quiet _ _ _ s3) in Hn2.
  - unfold handlePingReq_start. destruct (String.eqb _ EmptyString); [eexists; split; [done|]; by apply node_recv|].
    destruct (nextSeq s1) as [seq s2] eqn:Hns.
    assert (Hcfg : sw_config s2 = sw_config s1) by (by injection Hns as _ <-).
    assert (Hid : sw_id s2 = k) by (pose proof (lo_id _ _ Hl1); unfold sw_id in *; congruence).
    destruct (recent_total (cf_GossipFanout (sw_config s2)) s2) as (us & ->); [rewrite Hcfg; apply (lo_cfg _ _ Hl1)|]. cbn. rewrite Hid. eexists. split; [done|].
    rewrite Hto in Hok. pose proof (node_ask net k (with_swim s1 n) MsgPing (sm_Target msg) EmptyString us Hn1 ltac:(cbn; destruct Hq1 as [-> _]; done) Hok (or_introl eq_refl)) as H.
    cbn [nd_swim with_swim] in H. rewrite Hns in H. cbn zeta in H. destruct H as (Hn2 & _ & Hch & Hle). apply node_recv; [done|]. by split_and!.
  - unfold handlePingReqAck. destruct Hok as [Hsus _]. rewrite Hsus. cbn [negb]. eexists. split; [done|]. apply node_recv; [|done].
    by apply (recv_answer_ok (with_swim s1 n) msg false).
Qed.

(** The receive loop waits for an answer that only itself could receive. *)
Lemma recv_wait_ok timeout msg seq : nd_recv n = RPing msg seq -> exists n', recv_wait timeout msg seq n = Some n' /\ node_inv net k n'.
Proof.
  intros Hr. pose proof (ni_recv _ _ _ Hn) as H. rewrite Hr in H. destruct H as (Hm & Hty & Hto & Hch & _). unfold recv_wait.
  destruct timeout; [|rewrite Hch; eauto]. unfold handlePingReq_finish. pose proof (node_drop _ _ _ seq Hn) as Hn2.
  pose proof (si_local _ _ _ (ni_swim _ _ _ Hn)) as Hl.
  destruct (recent_total (cf_GossipFanout (sw_config (drop_ping seq (nd_swim n)))) (drop_ping seq (nd_swim n))) as (us & ->); [apply (lo_cfg _ _ Hl)|].
  cbn. eexists. split; [done|]. destruct (Hnet msg Hm) as [[Hft _] _]. rewrite Hto in Hft.
  apply (node_recv _ _ _ RIdle) in Hn2; [|done].
  assert (Hn3 := Hn2). apply (node_swim net k _ (swim_send (mkSWIMMessage MsgPingReqAck (sw_id (nd_swim n)) (sm_From msg) (sm_Target msg) (sm_SeqNum msg)
    (us ++ [mkGossipUpdate (sm_Target msg) StateSuspected 0 EmptyString])) (drop_ping seq (nd_swim n)))) in Hn3; [done| |].
  - apply swim_answer; [apply Hn2|apply (lo_id _ _ Hl)| |intros [?|?]; done]. split; [cbn; rewrite (lo_id _ _ Hl); done|]. cbn. split.
    + unfold target_suspected. cbn. rewrite existsb_app. cbn. rewrite String.eqb_refl. by rewrite !orb_true_r.
    + by exists msg.
  - cbn. unfold grows. split_and!; [|done|done]. intros m' ?. apply elem_of_app. by left.
Qed.

Lemma join_start_ok now sendOk seed seeds : nd_join n = JNext (seed :: seeds) -> exists n', join_start now sendOk seed seeds n = Some n' /\ node_inv net k n'.
Proof.
  intros Hj. pose proof (ni_join _ _ _ Hn) as H. rewrite Hj in H. cbn in H. assert (seed <> k /\ k ∉ seeds) as [Hs Hss] by set_solver.
  unfold join_start. destruct (apply_update_ok now (mkGossipUpdate seed StateAlive 0 seed) k _ (si_local _ _ _ (ni_swim _ _ _ Hn)) Hs) as [Hq1 Hl1].
  set (s1 := apply_update _ _ _) in *. pose proof (node_quiet _ _ _ _ Hn Hq1 Hl1) as Hn1.
  destruct (nextSeq s1) as [seq s2] eqn:Hns. assert (Hcfg : sw_config s2 = sw_config s1) by (by injection Hns as _ <-).
  assert (Hid : sw_id s2 = k) by (pose proof (lo_id _ _ Hl1); unfold sw_id in *; congruence).
  destruct (recent_total 8 s2) as (us & ->); [done|]. cbn. rewrite Hid. eexists. split; [done|].
  pose proof (node_ask net k (with_swim s1 n) MsgPing seed EmptyString us Hn1 ltac:(cbn; destruct Hq1 as [-> _]; done) Hs (or_introl eq_refl)) as H'.
  cbn [nd_swim with_swim] in H'. rewrite Hns in H'. cbn zeta in H'. destruct H' as (Hn2 & Hask & _). destruct sendOk.
  - apply node_join; [done|]. by split_and!.
  - apply node_join; [|done]. by apply (node_drop _ _ _ seq) in Hn2.
Qed.

Lemma join_wait_ok timeout seed seq seeds : nd_join n = JWait seed seq seeds -> node_inv net k (join_wait timeout seed seq seeds n).
Proof.
  intros Hj. pose proof (ni_join _ _ _ Hn) as H. rewrite Hj in H. destruct H as (Hs & Hss & Hask). unfold join_wait. destruct timeout.
  - apply node_join; [by apply node_drop|done].
  - destruct (sw_chans (nd_swim n) !! seq) as [[v|]|] eqn:Hc; [|done..].
    destruct (chan_value _ _ _ _ Hc Hask (or_introl eq_refl)) as [[_ Hm]|[? _]]; [|done].
    assert (H' : node_inv net k (with_join JIdle n)) by by apply node_join. destruct H'.
    constructor; cbn in *; try done. intros t sq [Hin|Hin%list_elem_of_singleton]%elem_of_app; [by apply ni_ok0|]. injection Hin as -> ->. done.
Qed.

(** Every input has a result, which keeps the invariant. *)
Lemma node_step_ok i : input_ok net k n i -> exists n', node_step Erfc Log10 i n = Some n' /\ node_inv net k n'.
Proof.
  intros [_ Hi]. pose proof (si_local _ _ _ (ni_swim _ _ _ Hn)) as Hl.
  destruct i as [now choice sendOk shuffled|now timeout shuffled|i sendOk timeout|now i|now msg|timeout|now nodeID|now|now|seeds|now sendOk timeout]; cbn [node_step].
  - destruct (nd_proto n) eqn:Hp; [by apply probe_start_ok|eauto..].
  - destruct (nd_proto n) eqn:Hp; [eauto|apply probe_wait_ok; eauto|eauto].
  - destruct (nd_helpers n !! i) as [[]|] eqn:Hh; [by apply helper_start_ok| |eauto..]. eexists. split; [done|]. by apply helper_wait_ok.
  - destruct (nd_proto n) eqn:Hp; [eauto..|by apply indirect_wait_ok].
  - destruct (nd_recv n) eqn:Hr; [|eauto]. destruct Hi. by apply recv_message_ok.
  - destruct (nd_recv n) eqn:Hr; [eauto|]. by apply recv_wait_ok.
  - eexists. split; [done|]. destruct (decide _) as [Hin|]; [|done]. assert (nodeID <> k) by (intros ->; by apply (lo_timers _ _ Hl)).
    destruct (suspicion_timeout_ok now nodeID k _ Hl ltac:(done)). by apply node_quiet.
  - destruct (phi_round_ok now k _ Hl) as (s' & -> & Hq & Hl'). cbn. eexists. split; [done|]. by apply node_quiet.
  - destruct (swim_gc_round_ok now k _ Hl). eexists. split; [done|]. by apply node_quiet.
  - eexists. split; [done|]. destruct (nd_join n); [by apply node_join|done..].
  - destruct (nd_join n) as [|[|seed seeds]|seed seq seeds] eqn:Hj; [eauto| |by apply join_start_ok|].
    + eexists. split; [done|]. by apply node_join.
    + eexists. split; [done|]. by apply join_wait_ok.
Qed.

End step.

(** ** Messages stay in the network *)

Definition sent_le (s s' : SWIM) : Prop := forall m, m ∈ sw_sent s -> m ∈ sw_sent s'.

Lemma sent_le_eq s s' : sw_sent s' = sw_sent s -> sent_le s s'.
Proof. unfold sent_le. by intros ->. Qed.

Lemma sent_le_trans s1 s2 s3 : sent_le s1 s2 -> sent_le s2 s3 -> sent_le s1 s3.
Proof. unfold sent_le. auto. Qed.

Lemma sent_le_send m s s' : sent_le s s' -> sent_le s (swim_send m s').
Proof. intros H x Hx. apply elem_of_app. left. by apply H. Qed.

Lemma apply_update_sent now u s : sw_sent (apply_update now u s) = sw_sent s.
Proof. unfold apply_update. by destruct (ApplyUpdate _ _ _) as [[? ?] ?]. Qed.

Lemma suspectNode_sent now j s : sw_sent (suspectNode now j s) = sw_sent s.
Proof. unfold suspectNode. destruct (SuspectNode _ _ _). by destruct (decide _). Qed.

Lemma suspicion_timeout_sent now j s : sw_sent (suspicion_timeout now j s) = sw_sent s.
Proof. unfold suspicion_timeout. destruct (ML_Get _ _); [|done]. case_bool_decide; [|done]. by destruct (ConfirmDead _ _ _). Qed.

Lemma heartbeat_sent j now s s' : heartbeat Erfc Log10 j now s = Some s' -> sw_sent s' = sw_sent s.
Proof.
  unfold heartbeat. intros ([alive d] & _ & H)%bind_Some. destruct alive; injection H as <-; [|done]. by rewrite apply_update_sent.
Qed.

Lemma phi_round_sent now s s' : phi_round Erfc Log10 now s = Some s' -> sw_sent s' = sw_sent s.
Proof.
  unfold phi_round. intros ([r l] & _ & H)%bind_Some. injection H as <-. revert s. induction l as [|x l IH]; intros s; [done|]. cbn [fold_left].
  by rewrite IH suspectNode_sent.
Qed.

Lemma gossip_sent now us : forall s s', for_each (gossip_update now) us s = Some s' -> sw_sent s' = sw_sent s.
Proof.
  induction us as [|u us IH]; intros s s' H; [by injection H as <-|]. apply bind_Some in H as (s1 & H1 & H). rewrite (IH _ _ H).
  unfold gossip_update in H1. destruct (String.eqb _ _); [|injection H1 as <-; apply apply_update_sent].
  destruct (ML_Get _ _); [|by injection H1 as <-]. case_bool_decide; [|by injection H1 as <-].
  apply bind_Some in H1 as ([ref ml] & _ & H1). injection H1 as <-. by rewrite apply_update_sent.
Qed.

Lemma handleMessage_sent now msg s w s' : handleMessage Erfc Log10 now msg s = Some (w, s') -> sent_le s s'.
Proof.
  unfold handleMessage. intros (s1 & H1%gossip_sent & H)%bind_Some. apply (sent_le_trans _ s1); [by apply sent_le_eq|]. clear H1. destruct (sm_Type msg).
  - apply bind_Some in H as (s2 & H2 & H). injection H as _ <-. apply bind_Some in H2 as (s3 & H3%heartbeat_sent & H2).
    apply bind_Some in H2 as (us & _ & H2). injection H2 as <-. by apply sent_le_send, sent_le_eq.
  - apply bind_Some in H as (s2 & H2%heartbeat_sent & H). injection H as _ <-. apply sent_le_eq. rewrite H2. destruct (decide _); [|done]. apply chan_send_same.
  - unfold handlePingReq_start in H. destruct (String.eqb _ _); [injection H as _ <-; by apply sent_le_eq|]. cbn in H.
    apply bind_Some in H as (us & _ & H). injection H as _ <-. by apply sent_le_send, sent_le_eq.
  - injection H as _ <-. apply sent_le_eq. unfold handlePingReqAck. destruct (decide _); [|done]. apply chan_send_same.
Qed.

Lemma indirectProbe_sent now target sh n n' : indirectProbe now target sh n = Some n' -> sw_sent (nd_swim n') = sw_sent (nd_swim n).
Proof. unfold indirectProbe. intros (hs & _ & H)%bind_Some. destruct hs; injection H as <-; [|done]. cbn. apply suspectNode_sent. Qed.

Lemma probe_start_sent now choice sendOk sh n n' : probe_start now choice sendOk sh n = Some n' -> sent_le (nd_swim n) (nd_swim n').
Proof.
  unfold probe_start. destruct (pickRandomMember _ _); [|intros [= <-]; by apply sent_le_eq]. cbn. intros (us & _ & H)%bind_Some.
  destruct sendOk; [injection H as <-; by apply sent_le_send, sent_le_eq|]. apply indirectProbe_sent in H. cbn in H. intros x Hx. rewrite H.
  apply elem_of_app. by left.
Qed.

Lemma indirect_wait_sent now i target probe outstanding n n' : indirect_wait Erfc Log10 now i target probe outstanding n = Some n' ->
  sw_sent (nd_swim n') = sw_sent (nd_swim n).
Proof.
  unfold indirect_wait. intros H. destruct i as [i|].
  - destruct (nd_acks n !! i) as [[p acked]|]; [|by injection H as <-]. destruct (p =? probe)%nat; [|by injection H as <-].
    destruct acked; [apply bind_Some in H as (s & Hs%heartbeat_sent & H); by injection H as <-|].
    destruct outstanding as [|[|o]]; injection H as <-; [apply suspectNode_sent..|done].
  - destruct outstanding as [|[|o]]; injection H as <-; [apply suspectNode_sent..|done].
Qed.

Lemma node_step_sent i n n' : node_step Erfc Log10 i n = Some n' -> sent_le (nd_swim n) (nd_swim n').
Proof.
  intros H. assert (Hsame : n' = n -> sent_le (nd_swim n) (nd_swim n')) by (intros ->; by apply sent_le_eq).
  destruct i as [now choice sendOk shuffled|now timeout shuffled|i sendOk timeout|now i|now msg|timeout|now nodeID|now|now|seeds|now sendOk timeout]; cbn [node_step] in H.
  - destruct (nd_proto n); [by eapply probe_start_sent|apply Hsame; congruence..].
  - destruct (nd_proto n); [apply Hsame; congruence| |apply Hsame; congruence]. unfold probe_wait in H. destruct timeout.
    + apply indirectProbe_sent in H. by apply sent_le_eq.
    + destruct (sw_chans _ !! _) as [[]|]; [|apply Hsame; congruence..]. apply bind_Some in H as (s & Hs%heartbeat_sent & H). injection H as <-. by apply sent_le_eq.
  - destruct (nd_helpers n !! i) as [[]|]; [| |apply Hsame; congruence..].
    + unfold helper_start in H. cbn in H. apply bind_Some in H as (us & _ & H). destruct sendOk; injection H as <-; by apply sent_le_send, sent_le_eq.
    + injection H as <-. unfold helper_wait in *. destruct timeout; [by apply sent_le_eq|]. destruct (sw_chans _ !! _) as [[]|]; by apply sent_le_eq.
  - destruct (nd_proto n); [apply Hsame; congruence..|]. by apply indirect_wait_sent in H; apply sent_le_eq.
  - destruct (nd_recv n); [|apply Hsame; congruence]. apply bind_Some in H as ([w s] & Hs%handleMessage_sent & H). by injection H as <-.
  - destruct (nd_recv n); [apply Hsame; congruence|]. unfold recv_wait in H. destruct timeout; [|destruct (sw_chans _ !! _) as [[]|]; [|apply Hsame; congruence..]];
      apply bind_Some in H as (s & Hs & H); injection H as <-; apply bind_Some in Hs as (us & _ & Hs); injection Hs as <-; by apply sent_le_send, sent_le_eq.
  - injection H as <-. destruct (decide _); [|by apply sent_le_eq]. apply sent_le_eq, suspicion_timeout_sent.
  - apply bind_Some in H as (s & Hs%phi_round_sent & H). injection H as <-. by apply sent_le_eq.
  - injection H as <-. by apply sent_le_eq.
  - injection H as <-. by destruct (nd_join n); apply sent_le_eq.
  - destruct (nd_join n) as [|[|seed seeds]|seed seq seeds]; [apply Hsame; congruence|injection H as <-; by apply sent_le_eq| |].
    + unfold join_start in H. cbn in H. apply bind_Some in H as (us & _ & H).
      destruct sendOk; injection H as <-; by apply sent_le_send, sent_le_eq; cbn; rewrite apply_update_sent.
    + injection H as <-. unfold join_wait in *. destruct timeout; [by apply sent_le_eq|]. destruct (sw_chans _ !! _) as [[]|]; by apply sent_le_eq.
Qed.

(** ** The cluster *)

Lemma msg_ok_mono (net net' : SWIMMessage -> Prop) m : (forall m, net m -> net' m) -> msg_ok net m -> msg_ok net' m.
Proof. intros Hsub [Hf Hm]. split; [done|]. destruct (sm_Type m); naive_solver. Qed.

Lemma node_inv_mono (net net' : SWIMMessage -> Prop) k n : (forall m, net m -> net' m) -> node_inv net k n -> node_inv net' k n.
Proof.
  intros Hsub []. destruct ni_swim0. constructor; try done.
  - constructor; try done.
    + intros m Hm. destruct (si_sent0 _ Hm). eauto using msg_ok_mono.
    + intros seq v Hv. destruct (si_chan0 _ _ Hv) as (m & Hm & ?). eauto.
  - destruct (nd_recv n); cbn in *; naive_solver.
  - intros t sq Hin. destruct (ni_ok0 _ _ Hin) as (m & Hm & ?). eauto.
Qed.

Definition cluster_inv (c : gmap string SwimNode) : Prop := forall k n, c !! k = Some n -> node_inv (in_net c) k n.

Lemma cluster_net c k n : cluster_inv c -> c !! k = Some n ->
  forall m, in_net c m -> msg_ok (in_net c) m /\ (sm_From m = k -> m ∈ sw_sent (nd_swim n)).
Proof.
  intros Hc Hk m (j & nj & Hj & Hm). destruct (si_sent _ _ _ (ni_swim _ _ _ (Hc _ _ Hj)) _ Hm) as [Hf Hok]. split; [done|].
  intros Hfk. assert (j = k) as -> by congruence. rewrite Hj in Hk. by injection Hk as <-.
Qed.

Lemma NewNode_inv net now config : config_ok config -> node_inv net (cf_NodeID config) (NewSwimNode now config).
Proof.
  intros Hcfg. constructor; cbn; try done.
  - constructor; cbn; try done.
    + constructor; cbn; try done; [apply NewMemberList_wf|]. unfold ranks; cbn; by rewrite lookup_singleton_eq.
    + by intros m ?%elem_of_nil.
    + by intros m ?%elem_of_nil.
    + by intros m m' ?%elem_of_nil.
  - by intros h ?%elem_of_nil.
  - by intros h ?%elem_of_nil.
  - by intros t sq ?%elem_of_nil.
Qed.

Lemma cluster_reach_inv c : cluster_reach Erfc Log10 c -> cluster_inv c.
Proof.
  induction 1 as [c Hinit|c k n i n' _ IH Hk Hi Hstep].
  - intros k n Hk. destruct (Hinit _ _ Hk) as (now & config & <- & Hcfg & ->). by apply NewNode_inv.
  - destruct (node_step_ok (in_net c) k n (IH _ _ Hk) (cluster_net _ _ _ IH Hk) (proj1 Hi) i Hi) as (n'' & Hs & Hn'').
    rewrite Hstep in Hs. injection Hs as <-.
    assert (Hsub : forall m, in_net c m -> in_net (<[k := n']> c) m).
    { intros m (j & nj & Hj & Hm). destruct (decide (j = k)) as [->|Hne]; [|exists j, nj; by rewrite lookup_insert_ne].
      exists k, n'. rewrite lookup_insert_eq. split; [done|]. rewrite Hj in Hk. injection Hk as ->. by eapply node_step_sent. }
    intros j nj [[<- <-]|[_ Hj]]%lookup_insert_Some; (eapply node_inv_mono; [exact Hsub|]); [done|by apply IH].
Qed.

(** A step as a function, for examples. *)
Definition step_to (k : string) (i : swim_input) (c : gmap string SwimNode) : gmap string SwimNode :=
  match c !! k with
  | Some n => match node_step Erfc Log10 i n with Some n' => <[k := n']> c | None => c end
  | None => c
  end.

Lemma step_to_reach k i c n : cluster_reach Erfc Log10 c -> c !! k = Some n -> input_ok (in_net c) k n i -> cluster_reach Erfc Log10 (step_to k i c).
Proof.
  intros Hc Hk Hi. unfold step_to. rewrite Hk. pose proof (cluster_reach_inv _ Hc) as Hinv.
  destruct (node_step_ok (in_net c) k n (Hinv _ _ Hk) (cluster_net _ _ _ Hinv Hk) (proj1 Hi) i Hi) as (n' & Hs & _). rewrite Hs.
  by eapply cluster_step.
Qed.

(** C27: a ping that counts as answered was answered.  In every reachable
    cluster, over a network that may lose, delay, reorder and duplicate
    messages and with all goroutines interleaved, no step panics, and whenever
    a node takes a target for alive after a direct ping or a join, that very
    target has sent the acknowledgement of this ping to it. *)
Theorem swim_probe_sound (c : gmap string SwimNode) (k : string) (n : SwimNode) (Hc : cluster_reach Erfc Log10 c) (Hk : c !! k = Some n) :
  (forall target seq, (target, seq) ∈ nd_ok n ->
     exists m, in_net c m /\ sm_Type m = MsgPingAck /\ sm_From m = target /\ sm_To m = k /\ sm_SeqNum m = seq) /\
  (forall i, input_ok (in_net c) k n i -> is_Some (node_step Erfc Log10 i n)).
Proof.
  pose proof (cluster_reach_inv _ Hc) as Hinv. split; [apply Hinv, Hk|]. intros i Hi.
  destruct (node_step_ok (in_net c) k n (Hinv _ _ Hk) (cluster_net _ _ _ Hinv Hk) (proj1 Hi) i Hi) as (n' & -> & _). by eexists.
Qed.

(** An indirect probe never finds its target.  The helper waits for the
    answer of the target inside the receive loop, the only place that could
    receive it, so every helper reports a failure, no indirect probe in any
    reachable cluster ever succeeds, and each lost ping ends in a suspicion. *)
Theorem swim_indirect_never_succeeds (c : gmap string SwimNode) (k : string) (n : SwimNode) (Hc : cluster_reach Erfc Log10 c) (Hk : c !! k = Some n) :
  nd_indirect n = [] /\ (forall x, x ∈ nd_acks n -> x.2 = false) /\
  (forall m, in_net c m -> sm_Type m = MsgPingReqAck -> target_suspected m = true).
Proof.
  pose proof (cluster_reach_inv _ Hc) as Hinv. split_and!; [apply (Hinv _ _ Hk)..|].
  intros m Hm Hty. destruct (cluster_net _ _ _ Hinv Hk m Hm) as [[_ Hok] _]. rewrite Hty in Hok. apply Hok.
Qed.

(** A suspected node never learns of it: updates about itself are not applied,
    its own record stays alive in the first incarnation, and the branch that
    would refute the suspicion is never taken. *)
Theorem swim_never_refutes c k n : cluster_reach Erfc Log10 c -> c !! k = Some n -> member_view (sw_memberList (nd_swim n)) k = Some (StateAlive, 1).
Proof.
  intros Hc Hk. pose proof (lo_self _ _ (si_local _ _ _ (ni_swim _ _ _ (cluster_reach_inv _ Hc _ _ Hk)))) as H. unfold ranks in H. unfold member_view.
  destruct (ml_members _ !! k) as [m|]; [|done]. injection H as Hr. apply rank_inj in Hr as [Hi Hs]. cbn. by rewrite Hi Hs.
Qed.

End swim_safety.

(** ** An example: node [a] joins through [b] *)

Definition demo_erf (x : float64) : float64 := x.
Definition demo_swim0 : gmap string SwimNode :=
  {["a" := NewSwimNode 0 (DefaultSWIMConfig "a" "a:1"); "b" := NewSwimNode 0 (DefaultSWIMConfig "b" "b:1"); "c" := NewSwimNode 0 (DefaultSWIMConfig "c" "c:1")]}.
Definition demo_join_ping : SWIMMessage := mkSWIMMessage MsgPing "a" "b" EmptyString 1 [mkGossipUpdate "b" StateAlive 0 "b"].
Definition demo_join_ack : SWIMMessage := mkSWIMMessage MsgPingAck "b" "a" EmptyString 1 [].
Definition demo_swim1 := step_to demo_erf demo_erf "a" (SJoin ["b"]) demo_swim0.
Definition demo_swim2 := step_to demo_erf demo_erf "a" (SJoinStep 1 true false) demo_swim1.
Definition demo_swim3 := step_to demo_erf demo_erf "b" (SRecv 2 demo_join_ping) demo_swim2.
Definition demo_swim4 := step_to demo_erf demo_erf "a" (SRecv 3 demo_join_ack) demo_swim3.
Definition demo_swim5 := step_to demo_erf demo_erf "a" (SJoinStep 4 true false) demo_swim4.

Definition demo_node (k : string) (c : gmap string SwimNode) : SwimNode := default (NewSwimNode 0 (DefaultSWIMConfig k k)) (c !! k).

Ltac demo_step H k c := apply (step_to_reach _ _ k _ _ (demo_node k c) H); [by vm_compute|split; [by vm_compute|]].
Ltac demo_sent k c i := split; [exists k, (demo_node k c); split; [by vm_compute|apply list_elem_of_lookup; exists i; by vm_compute]|done].

Lemma demo_swim_reach : cluster_reach demo_erf demo_erf demo_swim5.
Proof.
  assert (H0 : cluster_reach demo_erf demo_erf demo_swim0).
  { apply cluster_init. unfold demo_swim0.
    intros k n [[<- <-]|[_ [[<- <-]|[_ [<- <-]%lookup_singleton_Some]]%lookup_insert_Some]]%lookup_insert_Some;
      eexists 0, _; (split; [|split; [|reflexivity]]); by vm_compute. }
  assert (H1 : cluster_reach demo_erf demo_erf demo_swim1) by (demo_step H0 "a" demo_swim0; cbn; set_solver).
  assert (H2 : cluster_reach demo_erf demo_erf demo_swim2) by (demo_step H1 "a" demo_swim1; done).
  assert (H3 : cluster_reach demo_erf demo_erf demo_swim3) by (demo_step H2 "b" demo_swim2; demo_sent "a" demo_swim2 0%nat).
  assert (H4 : cluster_reach demo_erf demo_erf demo_swim4) by (demo_step H3 "a" demo_swim3; demo_sent "b" demo_swim3 0%nat).
  demo_step H4 "a" demo_swim4. done.
Qed.

Lemma swim_probe_sound_witness :
  nd_ok (demo_node "a" demo_swim5) = [("b", 1)] /\
  (forall target seq, (target, seq) ∈ nd_ok (demo_node "a" demo_swim5) ->
     exists m, in_net demo_swim5 m /\ sm_Type m = MsgPingAck /\ sm_From m = target /\ sm_To m = "a" /\ sm_SeqNum m = seq) /\
  (forall i, input_ok (in_net demo_swim5) "a" (demo_node "a" demo_swim5) i -> is_Some (node_step demo_erf demo_erf i (demo_node "a" demo_swim5))).
Proof.
  split; [by vm_compute|]. apply (swim_probe_sound demo_erf demo_erf demo_swim5 "a" (demo_node "a" demo_swim5)).
  - apply demo_swim_reach.
  - by vm_compute.
Defined.

(** Then [a] adds [c], cannot reach [b], and asks [c] to try. *)
Definition demo_update (k : string) : GossipUpdate := mkGossipUpdate k StateAlive 0 k.
Definition demo_req : SWIMMessage := mkSWIMMessage MsgPingReq "a" "c" "b" 4 [demo_update "b"; demo_update "c"].
Definition demo_req_ack : SWIMMessage :=
  mkSWIMMessage MsgPingReqAck "c" "a" "b" 4 [demo_update "b"; mkGossipUpdate "b" StateSuspected 0 EmptyString].
Definition demo_probe0 := step_to demo_erf demo_erf "a" (SJoin ["c"]) demo_swim5.
Definition demo_probe1 := step_to demo_erf demo_erf "a" (SJoinStep 6 true false) demo_probe0.
Definition demo_probe2 := step_to demo_erf demo_erf "a" (SProbe 7 1 false [mkMember "c" "c" StateAlive 0 6 ∅]) demo_probe1.
Definition demo_probe3 := step_to demo_erf demo_erf "a" (SHelper 0 true false) demo_probe2.
Definition demo_probe4 := step_to demo_erf demo_erf "c" (SRecv 8 demo_req) demo_probe3.
Definition demo_probe5 := step_to demo_erf demo_erf "c" (SRecvWait true) demo_probe4.
Definition demo_probe6 := step_to demo_erf demo_erf "a" (SRecv 9 demo_req_ack) demo_probe5.
Definition demo_probe7 := step_to demo_erf demo_erf "a" (SHelper 0 true false) demo_probe6.
Definition demo_probe8 := step_to demo_erf demo_erf "a" (SIndirect 10 (Some 0%nat)) demo_probe7.

Lemma demo_probe_reach : cluster_reach demo_erf demo_erf demo_probe8.
Proof.
  assert (H0 : cluster_reach demo_erf demo_erf demo_probe0) by (demo_step demo_swim_reach "a" demo_swim5; cbn; set_solver).
  assert (H1 : cluster_reach demo_erf demo_erf demo_probe1) by (demo_step H0 "a" demo_probe0; done).
  assert (H2 : cluster_reach demo_erf demo_erf demo_probe2).
  { demo_step H1 "a" demo_probe1. cbn [input_ok]. intros target Ht. vm_compute in Ht. injection Ht as <-. vm_compute. apply Permutation_refl. }
  assert (H3 : cluster_reach demo_erf demo_erf demo_probe3) by (demo_step H2 "a" demo_probe2; done).
  assert (H4 : cluster_reach demo_erf demo_erf demo_probe4) by (demo_step H3 "c" demo_probe3; demo_sent "a" demo_probe3 3%nat).
  assert (H5 : cluster_reach demo_erf demo_erf demo_probe5) by (demo_step H4 "c" demo_probe4; done).
  assert (H6 : cluster_reach demo_erf demo_erf demo_probe6) by (demo_step H5 "a" demo_probe5; demo_sent "c" demo_probe5 1%nat).
  assert (H7 : cluster_reach demo_erf demo_erf demo_probe7) by (demo_step H6 "a" demo_probe6; done).
  demo_step H7 "a" demo_probe7. done.
Qed.

Lemma swim_indirect_never_succeeds_witness :
  member_view (sw_memberList (nd_swim (demo_node "a" demo_probe8))) "b" = Some (StateSuspected, 0) /\
  nd_indirect (demo_node "a" demo_probe8) = [] /\ (forall x, x ∈ nd_acks (demo_node "a" demo_probe8) -> x.2 = false) /\
  (forall m, in_net demo_probe8 m -> sm_Type m = MsgPingReqAck -> target_suspected m = true).
Proof.
  split; [by vm_compute|]. apply (swim_indirect_never_succeeds demo_erf demo_erf demo_probe8 "a" (demo_node "a" demo_probe8)).
  - apply demo_probe_reach.
  - by vm_compute.
Defined.
