(* ===== verification/SwimTransport.v ===== *)
(** * SwimTransport: carrying SWIM messages
    (pkg/membership/grpc_transport.go, mem_transport.go, pkg/server/handlers.go)

    A remote call is its request and its response.  The receive channel of a
    transport is the list of the messages that wait in it; [None] is a send
    that blocks on a full channel. *)

From S2P Require Import Prelude Float64 Memberlist PhiAccrual Swim.

(** ** The gRPC transport *)

Record PingRequest := mkPingRequest {
  pr_SenderId : string;
  pr_SequenceNumber : Z;
  pr_GossipUpdates : list pbMember;
}.

Record PingResponse := mkPingResponse {
  ps_SenderId : string;
  ps_SequenceNumber : Z;
  ps_GossipUpdates : list pbMember;
}.

Record PingReqRequest := mkPingReqRequest {
  qr_SenderId : string;
  qr_TargetId : string;
  qr_SequenceNumber : Z;
}.

Record PingReqResponse := mkPingReqResponse {
  qs_Reached : bool;
  qs_SequenceNumber : Z;
  qs_GossipUpdates : list pbMember;
}.

Record GrpcSWIMTransport := mkGrpcTransport {
  gt_nodeID : string;
  gt_recvCh : list SWIMMessage;
  gt_conns : gset string;
}.

Definition NewGrpcSWIMTransport (nodeID : string) : GrpcSWIMTransport := mkGrpcTransport nodeID [] ∅.

Definition recvCap : Z := 1024.

(** The address a client is made for; [dialOk] is the success of a new dial. *)
Definition getClient (resolver : option (string -> string)) (dialOk : bool) (target : string) (t : GrpcSWIMTransport) :
    option string * GrpcSWIMTransport :=
  let addr := match resolver with
              | Some f => let resolved := f target in if negb (resolved =?s EmptyString) then resolved else target
              | None => target
              end in
  if decide (addr ∈ gt_conns t) then (Some addr, t)
  else if dialOk then (Some addr, mkGrpcTransport (gt_nodeID t) (gt_recvCh t) ({[addr]} ∪ gt_conns t))
  else (None, t).

Inductive swim_request := ReqPing (r : PingRequest) | ReqPingReq (r : PingReqRequest).

(** The call that [Send] makes; other messages are not sent and are no error. *)
Definition send_request (now : Z) (msg : SWIMMessage) (t : GrpcSWIMTransport) : option swim_request :=
  let updates := EncodeUpdates now (sm_Updates msg) in
  match sm_Type msg with
  | MsgPing => Some (ReqPing (mkPingRequest (gt_nodeID t) (sm_SeqNum msg) updates))
  | MsgPingReq => Some (ReqPingReq (mkPingReqRequest (gt_nodeID t) (sm_Target msg) (sm_SeqNum msg)))
  | _ => None
  end.

(** A message put into the receive channel, waiting for a place. *)
Definition recv_put (msg : SWIMMessage) (t : GrpcSWIMTransport) : option GrpcSWIMTransport :=
  if zlen (gt_recvCh t) <? recvCap then Some (mkGrpcTransport (gt_nodeID t) (gt_recvCh t ++ [msg]) (gt_conns t)) else None.

(** What [Send] puts into its own receive channel for a response. *)
Definition ping_ack (resp : PingResponse) (t : GrpcSWIMTransport) : SWIMMessage :=
  mkSWIMMessage MsgPingAck (ps_SenderId resp) (gt_nodeID t) EmptyString (ps_SequenceNumber resp) (DecodeUpdates (ps_GossipUpdates resp)).

Definition ping_req_ack (target : string) (msg : SWIMMessage) (resp : PingReqResponse) (t : GrpcSWIMTransport) : SWIMMessage :=
  mkSWIMMessage MsgPingReqAck target (gt_nodeID t) (sm_Target msg) (qs_SequenceNumber resp) (DecodeUpdates (qs_GossipUpdates resp)).

Definition InjectIncoming (msg : SWIMMessage) (t : GrpcSWIMTransport) : GrpcSWIMTransport :=
  if zlen (gt_recvCh t) <? recvCap then mkGrpcTransport (gt_nodeID t) (gt_recvCh t ++ [msg]) (gt_conns t) else t.

(** ** The membership service *)

Definition handle_Ping (now : Z) (req : PingRequest) (ml : MemberList) (t : GrpcSWIMTransport) : option (PingResponse * GrpcSWIMTransport) :=
  let t := InjectIncoming (mkSWIMMessage MsgPing (pr_SenderId req) (gt_nodeID t) EmptyString (pr_SequenceNumber req)
             (DecodeUpdates (pr_GossipUpdates req))) t in
  recentUpdates ← RecentUpdates 8 ml;
  Some (mkPingResponse (gt_nodeID t) (pr_SequenceNumber req) (EncodeUpdates now recentUpdates), t).

(** The message that [PingReq] sends to its target. *)
Definition ping_req_probe (req : PingReqRequest) (t : GrpcSWIMTransport) : SWIMMessage :=
  mkSWIMMessage MsgPing (gt_nodeID t) (qr_TargetId req) EmptyString (u64 (qr_SequenceNumber req + 1000)) [].

(** [sendErr] is whether its [Send] failed. *)
Definition handle_PingReq (now : Z) (sendErr : bool) (req : PingReqRequest) (ml : MemberList) (t : GrpcSWIMTransport) :
    option (PingReqResponse * GrpcSWIMTransport) :=
  let t := InjectIncoming (mkSWIMMessage MsgPingReq (qr_SenderId req) (gt_nodeID t) (qr_TargetId req) (qr_SequenceNumber req) []) t in
  let reached := negb sendErr in
  recentUpdates ← RecentUpdates 8 ml;
  Some (mkPingReqResponse reached (qr_SequenceNumber req) (EncodeUpdates now recentUpdates), t).

(** [Join] and [Leave] answer that they succeeded. *)
Definition handle_Join (t : GrpcSWIMTransport) : bool * GrpcSWIMTransport := (true, t).
Definition handle_Leave (t : GrpcSWIMTransport) : bool * GrpcSWIMTransport := (true, t).

Definition GetClusterState (ml : MemberList) : list (string * string) := map (fun m => (mb_NodeID m, mb_Address m)) (ML_Alive ml).

(** ** The transport in memory *)

Record MemSWIMTransport := mkMemTransport {
  mt_nodeID : string;
  mt_peers : gset string;
  mt_recvCh : list SWIMMessage;
  mt_dropRate : float64;
  mt_partitions : gset string;
  mt_latencyMin : Z;
  mt_latencyMax : Z;
}.

Definition NewMemSWIMTransport (nodeID : string) : MemSWIMTransport := mkMemTransport nodeID ∅ [] fzero ∅ 0 0.

(** The transports of a process by their node. *)
Notation mem_net := (gmap string MemSWIMTransport).

Inductive SendError := ErrUnknownPeer | ErrPartitioned | ErrRecvBufferFull | ErrCtx.

Definition mem_connect (id other : string) (net : mem_net) : mem_net :=
  alter (fun t => mkMemTransport (mt_nodeID t) ({[other]} ∪ mt_peers t) (mt_recvCh t) (mt_dropRate t) (mt_partitions t) (mt_latencyMin t) (mt_latencyMax t)) id net.

Definition mem_partition (id other : string) (net : mem_net) : mem_net :=
  alter (fun t => mkMemTransport (mt_nodeID t) (mt_peers t) (mt_recvCh t) (mt_dropRate t) ({[other]} ∪ mt_partitions t) (mt_latencyMin t) (mt_latencyMax t)) id net.

Definition mem_heal (id other : string) (net : mem_net) : mem_net :=
  alter (fun t => mkMemTransport (mt_nodeID t) (mt_peers t) (mt_recvCh t) (mt_dropRate t) (mt_partitions t ∖ {[other]}) (mt_latencyMin t) (mt_latencyMax t)) id net.

Definition mem_drop_rate (id : string) (rate : float64) (net : mem_net) : mem_net :=
  alter (fun t => mkMemTransport (mt_nodeID t) (mt_peers t) (mt_recvCh t) rate (mt_partitions t) (mt_latencyMin t) (mt_latencyMax t)) id net.

Definition mem_latency (id : string) (min max : Z) (net : mem_net) : mem_net :=
  alter (fun t => mkMemTransport (mt_nodeID t) (mt_peers t) (mt_recvCh t) (mt_dropRate t) (mt_partitions t) min max) id net.

(** [Send]: [draw] is the random number for the drop rate and [ctxDone] whether
    the context ends during the latency. *)
Definition mem_send (id to : string) (draw : float64) (ctxDone : bool) (msg : SWIMMessage) (net : mem_net) : option SendError * mem_net :=
  match net !! id with
  | None => (Some ErrUnknownPeer, net)
  | Some t =>
      if negb (bool_decide (to ∈ mt_peers t)) then (Some ErrUnknownPeer, net)
      else if bool_decide (to ∈ mt_partitions t) then (Some ErrPartitioned, net)
      else if fltb fzero (mt_dropRate t) && fltb draw (mt_dropRate t) then (None, net)
      else if (mt_latencyMin t <? mt_latencyMax t) && ctxDone then (Some ErrCtx, net)
      else
        match net !! to with
        | None => (Some ErrUnknownPeer, net)
        | Some p =>
            if zlen (mt_recvCh p) <? 256 then
              (None, <[to := mkMemTransport (mt_nodeID p) (mt_peers p) (mt_recvCh p ++ [msg]) (mt_dropRate p) (mt_partitions p) (mt_latencyMin p) (mt_latencyMax p)]> net)
            else (Some ErrRecvBufferFull, net)
        end
  end.

(** ** What arrives *)

(** A ping reaches the other side with its updates, and the answer that the
    caller hands to its own protocol carries the number of the ping and the
    other side's recent updates. *)
Theorem grpc_ping_exchange now now' msg t t' ml ups : sm_Type msg = MsgPing -> RecentUpdates 8 ml = Some ups -> zlen (gt_recvCh t') < recvCap ->
  exists req resp t'', send_request now msg t = Some (ReqPing req) /\ handle_Ping now' req ml t' = Some (resp, t'') /\
    gt_recvCh t'' = gt_recvCh t' ++ [mkSWIMMessage MsgPing (gt_nodeID t) (gt_nodeID t') EmptyString (sm_SeqNum msg) (sm_Updates msg)] /\
    ping_ack resp t = mkSWIMMessage MsgPingAck (gt_nodeID t') (gt_nodeID t) EmptyString (sm_SeqNum msg) ups.
Proof.
  intros Hty Hups Hcap. unfold send_request. rewrite Hty. eexists _, _, _. split; [reflexivity|]. unfold handle_Ping. rewrite Hups.
  cbn [mbind option_bind pr_SenderId pr_SequenceNumber pr_GossipUpdates]. unfold InjectIncoming. rewrite (proj2 (Z.ltb_lt _ _) Hcap).
  split; [reflexivity|]. unfold ping_ack. cbn [gt_recvCh gt_nodeID ps_SenderId ps_SequenceNumber ps_GossipUpdates]. by rewrite !updates_roundtrip.
Qed.

(** The transport hands a helper's answer to the protocol without looking at
    [Reached]: unless the helper happens to gossip a suspicion of the target,
    a target that it could not reach counts as reached. *)
Theorem unreached_counts_as_reached now req ml t t' resp msg helper s i probe n :
  handle_PingReq now true req ml t' = Some (resp, t) -> qr_SequenceNumber req = sm_SeqNum msg -> sm_Type msg = MsgPingReq ->
  sm_SeqNum msg ∈ sw_pendingPings s -> sw_chans s !! sm_SeqNum msg = Some None ->
  (forall u, u ∈ DecodeUpdates (qs_GossipUpdates resp) -> gu_NodeID u = sm_Target msg -> gu_State u <> StateSuspected) ->
  qs_Reached resp = false /\
  nd_acks (helper_wait i false (sm_SeqNum msg) probe (with_swim (handlePingReqAck (ping_req_ack helper msg resp t') s) n)) = nd_acks n ++ [(probe, true)].
Proof.
  unfold handle_PingReq. intros Hresp Hseq _ Hp Hc Hu. destruct (RecentUpdates 8 ml) as [ups|]; [|done]. cbn [mbind option_bind] in Hresp.
  injection Hresp as <- <-. cbn [qs_GossipUpdates] in Hu. split; [done|]. unfold handlePingReqAck, ping_req_ack.
  cbn [sm_SeqNum qs_SequenceNumber qs_GossipUpdates]. rewrite Hseq decide_True //.
  assert (target_suspected (mkSWIMMessage MsgPingReqAck helper (gt_nodeID t') (sm_Target msg) (sm_SeqNum msg) (DecodeUpdates (EncodeUpdates now ups))) = false) as ->.
  { unfold target_suspected. cbn [sm_Updates sm_Target]. apply not_true_is_false. intros (u & Hin & Hx)%existsb_exists.
    apply andb_true_iff in Hx as [Hid Hst]. apply String.eqb_eq in Hid. apply bool_decide_eq_true in Hst.
    by apply (Hu u); [apply list_elem_of_In|..]. }
  unfold chan_send, drop_ping, set_pings. cbn [sw_chans sw_pendingPings negb]. rewrite Hc. unfold helper_wait. cbn [nd_swim with_swim sw_chans].
  by rewrite lookup_insert_eq.
Qed.

(** A partition in memory lets nothing through until it is healed. *)
Theorem mem_partition_blocks id to draw ctxDone msg net :
  (mem_send id to draw ctxDone msg (mem_partition id to net)).2 = mem_partition id to net /\
  ((mem_send id to draw ctxDone msg (mem_partition id to net)).1 = Some ErrPartitioned \/
   (mem_send id to draw ctxDone msg (mem_partition id to net)).1 = Some ErrUnknownPeer).
Proof.
  assert (mem_partition id to net !! id = None \/ exists t, mem_partition id to net !! id = Some t /\ to ∈ mt_partitions t) as [H|(t & H & Ht)].
  { unfold mem_partition. rewrite lookup_alter_eq. destruct (net !! id) as [t|]; [|by left]. right. eexists. split; [reflexivity|]. set_solver. }
  - unfold mem_send. rewrite H. split; [done|by right].
  - unfold mem_send. rewrite H. destruct (negb _); [split; [done|by right]|]. rewrite bool_decide_eq_true_2 //. split; [done|by left].
Qed.
