(* ===== verification/DistLock.v ===== *)
(** * DistLock: named locks with fencing tokens (pkg/consistency/distlock.go)

    The service hands out pointers to its grants and renews them in place, so
    the grants live in a heap; a grant is known by its token, which no other
    grant has.  Times are in nanoseconds and arguments; the text of the log and
    of error messages is left out. *)

From S2P Require Import Prelude.

Record LockGrant := mkLockGrant {
  lg_Token : Z;
  lg_ExpiresAt : Z;
  lg_LockName : string;
  lg_Holder : string;
}.

Definition LG_IsValid (now : Z) (g : LockGrant) : bool := now <? lg_ExpiresAt g.

Inductive lock_record := LOCK_ACQUIRE (name holder : string) (token ttl : Z) | LOCK_RELEASE (name : string) (token : Z).

Record DistributedLockService := mkDLS {
  dl_heap : gmap Z LockGrant;
  dl_locks : gmap string Z;
  dl_nextToken : Z;
  dl_defaultTTL : Z;
  dl_raftLog : list lock_record;
}.

Definition NewDistributedLockService : DistributedLockService := mkDLS ∅ ∅ 1 30000000000 [].

Inductive DLError := ErrHeld | ErrNotFound | ErrTokenMismatch | ErrStaleToken | ErrExpired.

(** The grant a lock points to. *)
Definition current (s : DistributedLockService) (lockName : string) : option LockGrant := p ← dl_locks s !! lockName; dl_heap s !! p.

Definition Acquire (now : Z) (lockName holder : string) (ttl : Z) (s : DistributedLockService) : (DLError + LockGrant) * DistributedLockService :=
  let ttl := if ttl <=? 0 then dl_defaultTTL s else ttl in
  if match current s lockName with Some existing => LG_IsValid now existing | None => false end then (inl ErrHeld, s)
  else
    let token := u64 (dl_nextToken s + 1) in
    let grant := mkLockGrant token (now + ttl) lockName holder in
    (inr grant, mkDLS (<[token := grant]> (dl_heap s)) (<[lockName := token]> (dl_locks s)) token (dl_defaultTTL s)
                  (dl_raftLog s ++ [LOCK_ACQUIRE lockName holder token ttl])).

Definition Release (lockName : string) (token : Z) (s : DistributedLockService) : option DLError * DistributedLockService :=
  match current s lockName with
  | None => (Some ErrNotFound, s)
  | Some existing =>
      if negb (lg_Token existing =? token) then (Some ErrTokenMismatch, s)
      else (None, mkDLS (dl_heap s) (delete lockName (dl_locks s)) (dl_nextToken s) (dl_defaultTTL s) (dl_raftLog s ++ [LOCK_RELEASE lockName token]))
  end.

Definition Renew (now : Z) (lockName : string) (token ttl : Z) (s : DistributedLockService) : option DLError * DistributedLockService :=
  match current s lockName with
  | None => (Some ErrNotFound, s)
  | Some existing =>
      if negb (lg_Token existing =? token) then (Some ErrStaleToken, s)
      else if negb (LG_IsValid now existing) then (Some ErrExpired, s)
      else
        let renewed := mkLockGrant (lg_Token existing) (now + ttl) (lg_LockName existing) (lg_Holder existing) in
        (None, mkDLS (<[lg_Token existing := renewed]> (dl_heap s)) (dl_locks s) (dl_nextToken s) (dl_defaultTTL s) (dl_raftLog s))
  end.

Definition VerifyToken (now : Z) (lockName : string) (token : Z) (s : DistributedLockService) : option DLError :=
  match current s lockName with
  | None => Some ErrNotFound
  | Some existing =>
      if token <? lg_Token existing then Some ErrStaleToken
      else if negb (LG_IsValid now existing) then Some ErrExpired
      else None
  end.

(** One round of [expireLoop]. *)
Definition expire (now : Z) (s : DistributedLockService) : DistributedLockService :=
  mkDLS (dl_heap s)
    (filter (fun x => match dl_heap s !! x.2 with Some grant => lg_ExpiresAt grant <? now | None => false end = false) (dl_locks s))
    (dl_nextToken s) (dl_defaultTTL s) (dl_raftLog s).

Definition Status (s : DistributedLockService) : gmap string LockGrant := omap (fun p => dl_heap s !! p) (dl_locks s).

(** ** Runs

    [ds_issued] are the grants returned, [ds_released] the tokens given back. *)

Inductive dl_call :=
| DAcquire (lockName holder : string) (ttl : Z)
| DRelease (lockName : string) (token : Z)
| DRenew (lockName : string) (token ttl : Z)
| DExpire.

Record DSys := mkDSys {
  ds_svc : DistributedLockService;
  ds_now : Z;
  ds_released : gset Z;
}.

(** A call at a time. *)
Definition dl_step (y : DSys) (x : Z * dl_call) : DSys :=
  let '(now, o) := x in
  match o with
  | DAcquire lockName holder ttl => mkDSys (Acquire now lockName holder ttl (ds_svc y)).2 now (ds_released y)
  | DRelease lockName token =>
      let '(err, s) := Release lockName token (ds_svc y) in
      mkDSys s now (match err with None => {[token]} ∪ ds_released y | Some _ => ds_released y end)
  | DRenew lockName token ttl => mkDSys (Renew now lockName token ttl (ds_svc y)).2 now (ds_released y)
  | DExpire => mkDSys (expire now (ds_svc y)) now (ds_released y)
  end.

Definition dl_run (calls : list (Z * dl_call)) : DSys := fold_left dl_step calls (mkDSys NewDistributedLockService 0 ∅).

(** The clock does not go back. *)
Fixpoint ordered_from (t : Z) (calls : list (Z * dl_call)) : Prop :=
  match calls with
  | [] => True
  | (now, _) :: calls => t <= now /\ ordered_from now calls
  end.

(** ** The invariant *)

Record dl_inv (y : DSys) : Prop := {
  dv_heap : forall t g, dl_heap (ds_svc y) !! t = Some g -> lg_Token g = t /\ 2 <= t <= dl_nextToken (ds_svc y);
  dv_next : 1 <= dl_nextToken (ds_svc y);
  dv_locks : forall nm t, dl_locks (ds_svc y) !! nm = Some t -> exists g, dl_heap (ds_svc y) !! t = Some g /\ lg_LockName g = nm;
  dv_held : forall t g, dl_heap (ds_svc y) !! t = Some g -> t ∉ ds_released y -> ds_now y < lg_ExpiresAt g ->
    dl_locks (ds_svc y) !! lg_LockName g = Some t;
  dv_last : forall nm t, dl_locks (ds_svc y) !! nm = Some t -> forall t' g, dl_heap (ds_svc y) !! t' = Some g -> lg_LockName g = nm -> t' <= t;
}.

Lemma current_Some y nm g : dl_inv y -> current (ds_svc y) nm = Some g <->
  dl_locks (ds_svc y) !! nm = Some (lg_Token g) /\ dl_heap (ds_svc y) !! lg_Token g = Some g.
Proof.
  intros []. unfold current. split.
  - intros (t & Ht & Hg)%bind_Some. destruct (dv_heap0 _ _ Hg) as [-> _]. done.
  - intros [Hl Hg]. by rewrite Hl.
Qed.

Lemma dl_inv_later y now : dl_inv y -> ds_now y <= now -> dl_inv (mkDSys (ds_svc y) now (ds_released y)).
Proof. intros [] Hnow. constructor; cbn; try done. intros t g Hg Hr Hlt. apply dv_held0; [done|done|lia]. Qed.

Lemma grant_inv y now nm holder ttl : dl_inv y -> ds_now y <= now -> dl_nextToken (ds_svc y) < two64 - 1 ->
  (forall g, current (ds_svc y) nm = Some g -> lg_ExpiresAt g <= now) ->
  let token := dl_nextToken (ds_svc y) + 1 in
  let s := ds_svc y in
  dl_inv (mkDSys (mkDLS (<[token := mkLockGrant token (now + ttl) nm holder]> (dl_heap s)) (<[nm := token]> (dl_locks s)) token (dl_defaultTTL s)
    (dl_raftLog s ++ [LOCK_ACQUIRE nm holder token ttl])) now (ds_released y)).
Proof.
  intros Hinv Hnow Hnext Hcur token s. pose proof Hinv as []. subst s.
  assert (Hne : forall t g, dl_heap (ds_svc y) !! t = Some g -> t <> token) by (intros t g Hg ->; destruct (dv_heap0 _ _ Hg); lia).
  constructor; cbn.
  - intros t g [[<- <-]|[_ Hg]]%lookup_insert_Some; [cbn; lia|]. destruct (dv_heap0 _ _ Hg). split; [done|lia].
  - lia.
  - intros nm' t [[<- <-]|[Hnm Ht]]%lookup_insert_Some; [eexists; by rewrite lookup_insert_eq|].
    destruct (dv_locks0 _ _ Ht) as (g & Hg & Hgn). exists g. rewrite lookup_insert_ne //. by apply not_eq_sym, (Hne _ g).
  - intros t g [[<- <-]|[_ Hg]]%lookup_insert_Some Hr Hlt; cbn; [by rewrite lookup_insert_eq|].
    pose proof (dv_held0 _ _ Hg Hr ltac:(lia)) as Hl. rewrite lookup_insert_ne //. intros ->. destruct (dv_heap0 _ _ Hg) as [Htok _].
    specialize (Hcur g). rewrite current_Some // Htok in Hcur. specialize (Hcur (conj Hl Hg)). lia.
  - intros nm' t [[<- <-]|[Hnm Ht]]%lookup_insert_Some t' g [[<- <-]|[_ Hg]]%lookup_insert_Some Hgn; [lia|destruct (dv_heap0 _ _ Hg); lia|done|by eapply dv_last0].
Qed.

Lemma dl_step_inv y now o : dl_inv y -> ds_now y <= now -> dl_nextToken (ds_svc y) < two64 - 1 ->
  dl_inv (dl_step y (now, o)) /\ dl_nextToken (ds_svc (dl_step y (now, o))) <= dl_nextToken (ds_svc y) + 1.
Proof.
  intros Hinv Hnow Hnext. pose proof (dl_inv_later _ _ Hinv Hnow) as Hlater. pose proof Hinv as []. destruct o as [nm holder ttl|nm token|nm token ttl|]; cbn [dl_step].
  - unfold Acquire. set (ttl' := if ttl <=? 0 then _ else _). rewrite u64_small; [|lia].
    destruct (current (ds_svc y) nm) as [g|] eqn:Hcur; [destruct (LG_IsValid now g) eqn:Hv|]; cbn [snd ds_svc]; [split; [done|lia]| |].
    + split; [|cbn; lia]. apply grant_inv; [done..|]. intros g' [= <-]%(eq_trans (eq_sym Hcur)). by apply Z.ltb_ge in Hv.
    + split; [|cbn; lia]. apply grant_inv; [done..|]. intros g'. by rewrite Hcur.
  - unfold Release. destruct (current (ds_svc y) nm) as [g|] eqn:Hcur; [|split; [done|cbn; lia]]. apply current_Some in Hcur as [Hl Hg]; [|done].
    destruct (Z.eqb_spec (lg_Token g) token) as [<-|]; cbn [negb]; [|split; [done|cbn; lia]]. split; [|cbn; lia]. destruct Hlater. constructor; cbn in *; try done.
    + intros nm' t [_ Ht]%lookup_delete_Some. by apply dv_locks0.
    + intros t g' Hg' Hr Hlt. rewrite lookup_delete_ne; [apply dv_held1; [done|set_solver|done]|]. intros Heq.
      assert (Hl' : dl_locks (ds_svc y) !! lg_LockName g' = Some t) by (apply dv_held0; [done|set_solver|lia]). rewrite -Heq Hl in Hl'. set_solver.
    + intros nm' t [_ Ht]%lookup_delete_Some. by apply dv_last0.
  - unfold Renew. destruct (current (ds_svc y) nm) as [g|] eqn:Hcur; [|split; [done|cbn; lia]]. apply current_Some in Hcur as [Hl Hg]; [|done].
    destruct (Z.eqb_spec (lg_Token g) token) as [<-|]; cbn [negb]; [|split; [done|cbn; lia]].
    destruct (LG_IsValid now g) eqn:Hv; cbn [negb]; [|split; [done|cbn; lia]]. split; [|cbn; lia]. destruct (dv_heap0 _ _ Hg) as [_ Hrng].
    destruct (dv_locks0 _ _ Hl) as (g0 & Hg0 & Hnm). rewrite Hg in Hg0. injection Hg0 as <-. constructor; cbn.
    + intros t g' [[<- <-]|[_ Hg']]%lookup_insert_Some; [done|by apply dv_heap0].
    + done.
    + intros nm' t Ht. destruct (dv_locks0 _ _ Ht) as (g' & Hg' & Hn'). destruct (decide (t = lg_Token g)) as [->|Hne].
      * rewrite lookup_insert_eq. rewrite Hg in Hg'. injection Hg' as <-. eauto.
      * exists g'. by rewrite lookup_insert_ne.
    + intros t g' [[<- <-]|[_ Hg']]%lookup_insert_Some Hr Hlt; cbn; [by rewrite Hnm|]. apply dv_held0; [done|done|lia].
    + intros nm' t Ht t' g' [[<- <-]|[_ Hg']]%lookup_insert_Some Hn'; [|by eapply dv_last0]. cbn in Hn'. by eapply (dv_last0 _ _ Ht _ g).
  - split; [|cbn; lia]. destruct Hlater. constructor; cbn in *; try done.
    + intros nm t [Ht _]%map_lookup_filter_Some. by apply dv_locks0.
    + intros t g Hg Hr Hlt. apply map_lookup_filter_Some_2; [by apply dv_held1|]. cbn. rewrite Hg. apply Z.ltb_ge. lia.
    + intros nm t [Ht _]%map_lookup_filter_Some. by apply dv_last0.
Qed.

Lemma dl_run_inv calls : forall y, dl_inv y -> ordered_from (ds_now y) calls -> dl_nextToken (ds_svc y) + zlen calls < two64 ->
  dl_inv (fold_left dl_step calls y).
Proof.
  induction calls as [|[now o] calls IH]; intros y Hinv Hord Hlen; [done|]. destruct Hord as [Hnow Hord]. rewrite zlen_cons in Hlen. pose proof (zlen_nonneg calls).
  cbn [fold_left]. destruct (dl_step_inv y now o Hinv Hnow ltac:(lia)) as [Hinv' Hnext]. apply IH; [done| |lia].
  assert (ds_now (dl_step y (now, o)) = now) as ->; [|done]. destruct o as [| | |]; cbn; try done. by destruct (Release _ _ _).
Qed.

Lemma dl_start_inv : dl_inv (mkDSys NewDistributedLockService 0 ∅).
Proof. by constructor. Qed.

(** C36: a lock excludes and fences.  In every run two grants of one lock that
    have not been given back are never valid at the same time, and a token
    that was issued for the lock passes the check of the resource exactly when
    its grant is the one the lock currently points to and has not expired;
    then no later grant of the lock exists. *)
Theorem distlock_fences (calls : list (Z * dl_call)) (now : Z)
  (Hord : ordered_from 0 calls) (Hlen : zlen calls < two64 - 1) (Hnow : ds_now (dl_run calls) <= now) :
  let y := dl_run calls in
  (forall t1 g1 t2 g2, dl_heap (ds_svc y) !! t1 = Some g1 -> dl_heap (ds_svc y) !! t2 = Some g2 -> lg_LockName g1 = lg_LockName g2 ->
     t1 ∉ ds_released y -> t2 ∉ ds_released y -> LG_IsValid now g1 = true -> LG_IsValid now g2 = true -> t1 = t2) /\
  (forall t g, dl_heap (ds_svc y) !! t = Some g ->
     VerifyToken now (lg_LockName g) t (ds_svc y) = None <->
       dl_locks (ds_svc y) !! lg_LockName g = Some t /\ LG_IsValid now g = true) /\
  (forall t g, dl_heap (ds_svc y) !! t = Some g -> VerifyToken now (lg_LockName g) t (ds_svc y) = None ->
     forall t' g', dl_heap (ds_svc y) !! t' = Some g' -> lg_LockName g' = lg_LockName g -> t' <= t).
Proof.
  cbn zeta. assert (Hinv : dl_inv (dl_run calls)) by (apply dl_run_inv; [apply dl_start_inv|done|cbn; lia]).
  assert (Hver : forall t g, dl_heap (ds_svc (dl_run calls)) !! t = Some g -> VerifyToken now (lg_LockName g) t (ds_svc (dl_run calls)) = None <->
    dl_locks (ds_svc (dl_run calls)) !! lg_LockName g = Some t /\ LG_IsValid now g = true).
  { intros t g Hg. destruct (dv_heap _ Hinv _ _ Hg) as [Htok _]. unfold VerifyToken. destruct (current _ (lg_LockName g)) as [g'|] eqn:Hcur.
    - apply current_Some in Hcur as [Hl Hg']; [|done]. pose proof (dv_last _ Hinv _ _ Hl _ _ Hg eq_refl) as Hle. destruct (Z.ltb_spec t (lg_Token g')) as [Hlt|Hge].
      + split; [done|]. intros [Hl' _]. rewrite Hl in Hl'. injection Hl' as Heq. lia.
      + assert (t = lg_Token g') as -> by lia. rewrite Hg in Hg'. injection Hg' as <-. rewrite Hl. destruct (LG_IsValid now g); naive_solver.
    - split; [done|]. intros [Hl _]. unfold current in Hcur. rewrite Hl in Hcur. cbn in Hcur. by rewrite Hg in Hcur. }
  split_and!; [|done|].
  - intros t1 g1 t2 g2 H1 H2 Hn Hr1 Hr2 Hv1%Z.ltb_lt Hv2%Z.ltb_lt. pose proof (dv_held _ Hinv _ _ H1 Hr1 ltac:(lia)) as L1.
    pose proof (dv_held _ Hinv _ _ H2 Hr2 ltac:(lia)) as L2. rewrite Hn L2 in L1. congruence.
  - intros t g Hg [Hl _]%(Hver _ _ Hg) t' g' Hg' Hn. by eapply dv_last.
Qed.

Definition demo_dl_calls : list (Z * dl_call) :=
  [(0, DAcquire "db" "a" 10); (5, DRenew "db" 2 10); (20, DExpire); (21, DAcquire "db" "b" 10)].

Lemma distlock_fences_witness :
  let y := dl_run demo_dl_calls in
  VerifyToken 22 "db" 2 (ds_svc y) = Some ErrStaleToken /\ VerifyToken 22 "db" 3 (ds_svc y) = None /\
  (forall t1 g1 t2 g2, dl_heap (ds_svc y) !! t1 = Some g1 -> dl_heap (ds_svc y) !! t2 = Some g2 -> lg_LockName g1 = lg_LockName g2 ->
     t1 ∉ ds_released y -> t2 ∉ ds_released y -> LG_IsValid 22 g1 = true -> LG_IsValid 22 g2 = true -> t1 = t2) /\
  (forall t g, dl_heap (ds_svc y) !! t = Some g ->
     VerifyToken 22 (lg_LockName g) t (ds_svc y) = None <->
       dl_locks (ds_svc y) !! lg_LockName g = Some t /\ LG_IsValid 22 g = true) /\
  (forall t g, dl_heap (ds_svc y) !! t = Some g -> VerifyToken 22 (lg_LockName g) t (ds_svc y) = None ->
     forall t' g', dl_heap (ds_svc y) !! t' = Some g' -> lg_LockName g' = lg_LockName g -> t' <= t).
Proof.
  split; [by vm_compute|]. split; [by vm_compute|]. apply (distlock_fences demo_dl_calls 22).
  - cbn. lia.
  - by vm_compute.
  - by vm_compute.
Defined.

(** The check compares numbers only: a token of another lock, or one that was
    never issued, passes if it is large enough. *)
Theorem token_of_other_lock_accepted :
  let y := dl_run [(0, DAcquire "db" "a" 10); (0, DAcquire "log" "b" 10)] in
  option_map lg_Token (current (ds_svc y) "log") = Some 3 /\ VerifyToken 1 "db" 3 (ds_svc y) = None /\ VerifyToken 1 "db" 99 (ds_svc y) = None.
Proof. vm_compute. done. Qed.
