(* ===== verification/Linearizability.v ===== *)
(** * Linearizability: the history checker (pkg/consistency/linearizability.go)

    A value is a string or nil; the end of an operation is [None] until it
    completes.  The iteration order over keys is an argument, the explanation
    texts are left out: a result names the key and the position of the
    operation that violates linearizability. *)

From S2P Require Import Prelude GoSort.

Inductive OpType := OpGet | OpPut | OpDelete | OpCAS.

#[global] Instance OpType_eq_dec : EqDecision OpType.
Proof. solve_decision. Defined.

Record Operation := mkOperation {
  op_ID : Z;
  op_Type : OpType;
  op_Key : string;
  op_Value : option string;
  op_Start : Z;
  op_End : option Z;
  op_Err : bool;
}.

#[global] Instance Operation_eq_dec : EqDecision Operation.
Proof. solve_decision. Defined.

Record LinearizabilityChecker := mkChecker {
  lc_history : list Operation;
  lc_nextID : Z;
}.

Definition NewLinearizabilityChecker : LinearizabilityChecker := mkChecker [] 0.

Definition Invoke (now : Z) (opType : OpType) (key : string) (value : option string) (c : LinearizabilityChecker) : Z * LinearizabilityChecker :=
  let id := lc_nextID c in
  (id, mkChecker (lc_history c ++ [mkOperation id opType key value now None false]) (u64 (id + 1))).

Fixpoint complete_first (now id : Z) (result : option string) (err : bool) (l : list Operation) : list Operation :=
  match l with
  | [] => []
  | op :: l =>
      if op_ID op =? id then mkOperation (op_ID op) (op_Type op) (op_Key op) result (op_Start op) (Some now) err :: l
      else op :: complete_first now id result err l
  end.

Definition Complete (now id : Z) (result : option string) (err : bool) (c : LinearizabilityChecker) : LinearizabilityChecker :=
  mkChecker (complete_first now id result err (lc_history c)) (lc_nextID c).

(** The end of a completed operation. *)
Definition op_end (op : Operation) : Z := default 0 (op_End op).

Definition is_put (op : Operation) : bool := bool_decide (op_Type op = OpPut).

(** A put other than the [i]-th operation that overlaps with it. *)
Definition hasConcurrentPut (ops : list Operation) (i : nat) (op : Operation) : bool :=
  existsb (fun x => negb (x.1 =? i)%nat && is_put x.2 && (op_Start x.2 <? op_end op) && (op_Start op <? op_end x.2)) (imap pair ops).

(** The simulation of the key, from the [i]-th operation on. *)
Fixpoint scan (ops : list Operation) (i : nat) (rest : list Operation) (currentValue : option string) : option nat :=
  match rest with
  | [] => None
  | op :: rest =>
      match op_Type op with
      | OpPut => scan ops (S i) rest (op_Value op)
      | OpGet =>
          if bool_decide (op_Value op = currentValue) then scan ops (S i) rest currentValue
          else if hasConcurrentPut ops i op then scan ops (S i) rest currentValue
          else Some i
      | _ => scan ops (S i) rest currentValue
      end
  end.

Definition completed (ops : list Operation) : list Operation :=
  List.filter (fun op => negb (op_Err op) && match op_End op with Some _ => true | None => false end) ops.

Definition LC_Reset (c : LinearizabilityChecker) : LinearizabilityChecker := mkChecker [] 0.

Record HistoryStats := mkHistoryStats {
  hs_Total : Z;
  hs_Puts : Z;
  hs_Gets : Z;
  hs_Deletes : Z;
  hs_Failed : Z;
}.

Definition count_op (t : OpType) (l : list Operation) : Z := zlen (List.filter (fun op => negb (op_Err op) && bool_decide (op_Type op = t)) l).

Definition LC_Stats (c : LinearizabilityChecker) : HistoryStats :=
  mkHistoryStats (zlen (lc_history c)) (count_op OpPut (lc_history c)) (count_op OpGet (lc_history c)) (count_op OpDelete (lc_history c))
    (zlen (List.filter op_Err (lc_history c))).

Section check.
  Context {SS : SortSlice}.

Definition by_end (a b : Operation) : bool := op_end a <? op_end b.

Definition checkKeyLinearization (ops : list Operation) : option nat :=
  let ops := sort_Slice by_end ops in scan ops 0 ops None.

Definition key_ops (ops : list Operation) (key : string) : list Operation := List.filter (fun op => String.eqb (op_Key op) key) ops.

(** The first key, in the order of the iteration, with a violation. *)
Fixpoint checkLinearization (ops : list Operation) (order : list string) : option (string * nat) :=
  match order with
  | [] => None
  | key :: order => match checkKeyLinearization (key_ops ops key) with Some i => Some (key, i) | None => checkLinearization ops order end
  end.

(** [None] when the history is linearizable. *)
Definition LC_Check (order : list string) (c : LinearizabilityChecker) : option (string * nat) :=
  let done := completed (lc_history c) in
  match done with [] => None | _ => checkLinearization done order end.

(** ** Sequential histories *)

(** No two operations overlap. *)
Definition sequential (l : list Operation) : Prop :=
  NoDup l /\ (forall a, a ∈ l -> op_Start a <= op_end a) /\
  (forall a b, a ∈ l -> b ∈ l -> a <> b -> op_end a < op_Start b \/ op_end b < op_Start a).

(** The value a get must return: that of the latest put that had ended. *)
Definition reads_latest (l : list Operation) (g : Operation) : Prop :=
  (exists p, p ∈ l /\ is_put p = true /\ op_Key p = op_Key g /\ op_end p < op_Start g /\ op_Value p = op_Value g /\
     forall q, q ∈ l -> is_put q = true -> op_Key q = op_Key g -> op_end q < op_Start g -> op_end q <= op_end p) \/
  (op_Value g = None /\ forall q, q ∈ l -> is_put q = true -> op_Key q = op_Key g -> ~ op_end q < op_Start g).

Definition last_put (l : list Operation) : option string := foldl (fun cur op => if is_put op then op_Value op else cur) None l.

Lemma last_put_snoc l op : last_put (l ++ [op]) = if is_put op then op_Value op else last_put l.
Proof. unfold last_put. by rewrite foldl_app. Qed.

Lemma sequential_no_concurrent l i op : sequential l -> l !! i = Some op -> hasConcurrentPut l i op = false.
Proof.
  intros (Hnd & Hle & Hdis) Hi. apply not_true_is_false. intros H. apply existsb_exists in H as ([j o] & Hin & H).
  apply list_elem_of_In, elem_of_lookup_imap in Hin as (j' & o' & [= <- <-] & Hj). cbn in H. bool_hyp.
  match goal with Hji : (j =? i)%nat = false |- _ => apply Nat.eqb_neq in Hji end.
  assert (Hne : o <> op) by (intros ->; assert (j = i) by (by eapply NoDup_lookup); lia).
  destruct (Hdis o op) as [?|?]; [by eapply list_elem_of_lookup_2|by eapply list_elem_of_lookup_2|done|lia|lia].
Qed.

(** Only puts and gets: the scan accepts exactly the gets of the last put. *)
Lemma scan_exact l : sequential l -> forall rest pre, pre ++ rest = l ->
  Forall (fun op => op_Type op = OpGet \/ op_Type op = OpPut) rest ->
  scan l (length pre) rest (last_put pre) = None <->
  (forall n g, rest !! n = Some g -> op_Type g = OpGet -> op_Value g = last_put (pre ++ take n rest)).
Proof.
  intros Hseq. induction rest as [|op rest IH]; intros pre Hl Hty; [done|]. apply Forall_cons in Hty as [Hop Hty].
  assert (Hi : l !! length pre = Some op) by (rewrite -Hl lookup_app_r // Nat.sub_diag //).
  specialize (IH (pre ++ [op])). rewrite -app_assoc length_app Nat.add_1_r last_put_snoc in IH. specialize (IH Hl Hty).
  assert (Hsplit : (forall n g, (op :: rest) !! n = Some g -> op_Type g = OpGet -> op_Value g = last_put (pre ++ take n (op :: rest))) <->
    (op_Type op = OpGet -> op_Value op = last_put pre) /\
    (forall n g, rest !! n = Some g -> op_Type g = OpGet -> op_Value g = last_put ((pre ++ [op]) ++ take n rest))).
  { split.
    - intros H. split; [intros Hg; rewrite -(app_nil_r pre); by apply (H 0%nat)|]. intros n g Hn Hg. rewrite -app_assoc. by apply (H (S n)).
    - intros [H0 H] [|n] g Hn Hg; cbn in *; [injection Hn as <-; rewrite app_nil_r; auto|]. specialize (H n g Hn Hg). by rewrite -app_assoc in H. }
  rewrite Hsplit. clear Hsplit. cbn [scan]. unfold is_put in IH. destruct Hop as [Hg|Hp].
  - rewrite Hg in IH |- *. rewrite bool_decide_false // in IH. case_bool_decide as Hv; [rewrite IH; naive_solver|].
    rewrite sequential_no_concurrent //. naive_solver.
  - rewrite Hp in IH |- *. rewrite bool_decide_true // in IH. rewrite IH. naive_solver.
Qed.

Lemma last_put_spec l : StronglySorted (fun a b => by_end b a = false) l ->
  (exists p, p ∈ l /\ is_put p = true /\ op_Value p = last_put l /\ forall q, q ∈ l -> is_put q = true -> op_end q <= op_end p) \/
  (last_put l = None /\ forall q, q ∈ l -> is_put q = false).
Proof.
  induction l as [|op l IH] using rev_ind; intros Hs; [right; split; [done|by intros q ?%elem_of_nil]|].
  rewrite last_put_snoc. apply StronglySorted_app in Hs as (Hcross & Hs & _). destruct (is_put op) eqn:Hp.
  - left. exists op. split_and!; [set_solver|done|done|]. intros q [Hq| ->%list_elem_of_singleton]%elem_of_app Hqp; [|done].
    specialize (Hcross q op Hq ltac:(set_solver)). unfold by_end in Hcross. apply Z.ltb_ge in Hcross. lia.
  - destruct (IH Hs) as [(p & Hin & Hpp & Hv & Hmax)|[Hn Hall]].
    + left. exists p. split_and!; [set_solver|done|done|]. intros q [Hq| ->%list_elem_of_singleton]%elem_of_app Hqp; [by apply Hmax|congruence].
    + right. split; [done|]. intros q [Hq| ->%list_elem_of_singleton]%elem_of_app; [by apply Hall|done].
Qed.

Lemma by_end_weak : strict_weak by_end.
Proof. apply (strict_weak_Z op_end). Qed.

Lemma sequential_perm l l' : l ≡ₚ l' -> sequential l -> sequential l'.
Proof.
  intros Hp (Hnd & Hle & Hdis). unfold sequential. setoid_rewrite <- Hp. by split_and!.
Qed.

Lemma key_ops_elem l k op : op ∈ key_ops l k <-> op ∈ l /\ op_Key op = k.
Proof. unfold key_ops. by rewrite !list_elem_of_In filter_In String.eqb_eq. Qed.

Lemma key_ops_sequential l k : sequential l -> sequential (key_ops l k).
Proof.
  intros (Hnd & Hle & Hdis). split_and!.
  - apply NoDup_ListNoDup. apply NoDup_ListNoDup in Hnd. by apply List.NoDup_filter.
  - intros a [Ha _]%key_ops_elem. by apply Hle.
  - intros a b [Ha _]%key_ops_elem [Hb _]%key_ops_elem. by apply Hdis.
Qed.

(** In the sorted history of a key, the operations before a get are those that
    had ended before it. *)
Lemma before_get l n g : sequential l -> StronglySorted (fun a b => by_end b a = false) l -> l !! n = Some g ->
  forall q, q ∈ take n l <-> q ∈ l /\ op_end q < op_Start g.
Proof.
  intros (Hnd & Hle & Hdis) Hs Hn q. pose proof (list_elem_of_lookup_2 _ _ _ Hn) as Hg. split.
  - intros (i & Hi & Hlt)%elem_of_take. pose proof (StronglySorted_lookup_lt _ _ _ _ _ _ Hs Hi Hn Hlt) as Hend. cbn in Hend. unfold by_end in Hend. apply Z.ltb_ge in Hend.
    pose proof (list_elem_of_lookup_2 _ _ _ Hi) as Hq. split; [done|].
    assert (Hne : q <> g) by (intros ->; assert (i = n) by (by eapply NoDup_lookup); lia).
    destruct (Hdis q g Hq Hg Hne) as [?|?]; [done|]. pose proof (Hle _ Hq). lia.
  - intros [[i Hi]%list_elem_of_lookup Hlt]. apply elem_of_take. exists i. split; [done|]. pose proof (Hle _ Hg).
    destruct (decide (i < n)%nat) as [?|Hge]; [done|]. destruct (decide (i = n)) as [->|Hne]; [rewrite Hn in Hi; injection Hi as <-; lia|].
    pose proof (StronglySorted_lookup_lt _ _ _ _ _ _ Hs Hn Hi ltac:(lia)) as Hend. cbn in Hend. unfold by_end in Hend. apply Z.ltb_ge in Hend. lia.
Qed.

Lemma StronglySorted_take {A} (R : A -> A -> Prop) l n : StronglySorted R l -> StronglySorted R (take n l).
Proof. intros Hs. rewrite -(take_drop n l) in Hs. by apply StronglySorted_app in Hs as (_ & ? & _). Qed.

(** The last put of the sorted prefix is the latest put that had ended. *)
Lemma last_put_latest l n g : sequential l -> StronglySorted (fun a b => by_end b a = false) l -> (forall q, q ∈ l -> op_Key q = op_Key g) -> l !! n = Some g ->
  op_Value g = last_put (take n l) <-> reads_latest l g.
Proof.
  intros Hseq Hs Hkey Hn. pose proof (before_get l n g Hseq Hs Hn) as Hb. pose proof Hseq as (Hnd & Hle & Hdis).
  destruct (last_put_spec (take n l) (StronglySorted_take _ _ _ Hs)) as [(p & [Hp Hlt]%Hb & Hpp & <- & Hmax)|[-> Hnone]].
  - split.
    + intros Hv. left. exists p. split_and!; [done|done|by apply Hkey|done|done|]. intros q Hq Hqp _ Hqlt. apply Hmax; [by apply Hb|done].
    + intros [(p' & Hp' & Hpp' & Hk' & Hlt' & <- & Hmax')|[_ Hno]]; [|by destruct (Hno p Hp Hpp (Hkey _ Hp))].
      destruct (decide (p' = p)) as [->|Hne]; [done|]. assert (op_end p' <= op_end p) by (apply Hmax; [by apply Hb|done]).
      assert (op_end p <= op_end p') by (apply Hmax'; auto). pose proof (Hle _ Hp). pose proof (Hle _ Hp').
      destruct (Hdis p' p Hp' Hp Hne); lia.
  - split.
    + intros Hv. right. split; [done|]. intros q Hq Hqp _ Hqlt. specialize (Hnone q (proj2 (Hb q) (conj Hq Hqlt))). congruence.
    + intros [(p' & Hp' & Hpp' & _ & Hlt' & _)|[Hv _]]; [|done]. specialize (Hnone p' (proj2 (Hb p') (conj Hp' Hlt'))). congruence.
Qed.

Lemma checkKey_spec l k : sequential l -> Forall (fun op => op_Type op = OpGet \/ op_Type op = OpPut) l ->
  checkKeyLinearization (key_ops l k) = None <-> (forall g, g ∈ l -> op_Key g = k -> op_Type g = OpGet -> reads_latest l g).
Proof.
  intros Hseq Hty. unfold checkKeyLinearization. set (s := sort_Slice by_end (key_ops l k)).
  assert (Hperm : s ≡ₚ key_ops l k) by apply sort_Slice_perm.
  assert (Hss : sequential s) by (eapply sequential_perm; [symmetry; exact Hperm|by apply key_ops_sequential]).
  assert (Hsort : StronglySorted (fun a b => by_end b a = false) s) by (apply sort_Slice_sorted, by_end_weak).
  assert (Hels : forall q, q ∈ s <-> q ∈ l /\ op_Key q = k) by (intros q; by rewrite Hperm key_ops_elem).
  assert (Htys : Forall (fun op => op_Type op = OpGet \/ op_Type op = OpPut) s).
  { apply Forall_forall. intros op [Hop _]%Hels. rewrite Forall_forall in Hty. by apply Hty. }
  change (scan s 0 s None) with (scan s (length (@nil Operation)) s (last_put [])). rewrite (scan_exact s Hss s [] eq_refl Htys). cbn [app].
  assert (Hreads : forall g, g ∈ s -> reads_latest s g <-> reads_latest l g).
  { intros g [_ Hgk]%Hels. unfold reads_latest. setoid_rewrite Hels. rewrite Hgk. split; (intros [(p & ?)|[? ?]]; [left; exists p|right]; naive_solver). }
  split.
  - intros H g Hg Hk Hget. assert (Hgs : g ∈ s) by by apply Hels. apply Hreads; [done|]. apply list_elem_of_lookup in Hgs as [n Hn].
    eapply (last_put_latest s n g); [done|done| |done|by apply H]. intros q [_ Hq]%Hels. congruence.
  - intros H n g Hn Hget. pose proof (list_elem_of_lookup_2 _ _ _ Hn) as Hgs. pose proof Hgs as [Hgl Hgk]%Hels.
    apply (last_put_latest s n g); [done|done| |done|]. { intros q [_ Hq]%Hels. congruence. }
    apply Hreads; [done|]. by apply H.
Qed.

Lemma checkLinearization_None l order : checkLinearization l order = None <-> forall k, k ∈ order -> checkKeyLinearization (key_ops l k) = None.
Proof.
  induction order as [|k order IH]; cbn [checkLinearization]; [split; [by intros _ k ?%elem_of_nil|done]|].
  setoid_rewrite elem_of_cons. destruct (checkKeyLinearization (key_ops l k)) eqn:Hk; naive_solver.
Qed.

(** The checker is exact on sequential histories.  If the completed puts
    and gets do not overlap, it accepts the history exactly when every get
    returned the value of the latest put of its key that had ended before, or
    nothing if there was none, whatever sort and iteration order are used. *)
Theorem checker_exact_sequential (c : LinearizabilityChecker) (order : list string)
  (Hseq : sequential (completed (lc_history c)))
  (Hty : Forall (fun op => op_Type op = OpGet \/ op_Type op = OpPut) (completed (lc_history c)))
  (Horder : forall op, op ∈ completed (lc_history c) -> op_Key op ∈ order) :
  LC_Check order c = None <-> (forall g, g ∈ completed (lc_history c) -> op_Type g = OpGet -> reads_latest (completed (lc_history c)) g).
Proof.
  unfold LC_Check. set (l := completed (lc_history c)) in *.
  assert (H : checkLinearization l order = None <-> forall g, g ∈ l -> op_Type g = OpGet -> reads_latest l g).
  { rewrite checkLinearization_None. split.
    - intros H g Hg Hget. by eapply (checkKey_spec l (op_Key g)); [|done|by apply H, Horder| | |].
    - intros H k _. apply checkKey_spec; [done..|]. intros g Hg _ Hget. by apply H. }
  destruct l as [|op l']; [|done]. split; [by intros _ g ?%elem_of_nil|done].
Qed.

End check.

Definition run_ops (l : list (OpType * string * option string * Z * Z)) : LinearizabilityChecker :=
  fold_left (fun c x => let '(t, k, v, start, fin) := x in
    let '(id, c) := Invoke start t k v c in Complete fin id v false c) l NewLinearizabilityChecker.

Definition demo_history : LinearizabilityChecker :=
  run_ops [(OpPut, "x", Some "1", 1, 2); (OpGet, "x", Some "1", 3, 4); (OpGet, "y", None, 5, 6)].

Lemma checker_exact_sequential_witness :
  LC_Check ["x"; "y"] demo_history = None <->
  (forall g, g ∈ completed (lc_history demo_history) -> op_Type g = OpGet -> reads_latest (completed (lc_history demo_history)) g).
Proof.
  apply (checker_exact_sequential demo_history ["x"; "y"]).
  - split_and!; [apply (bool_decide_unpack _); by vm_compute| |].
    + apply Forall_forall. repeat constructor; vm_compute; congruence.
    + cut (Forall (fun a => Forall (fun b => a = b \/ op_end a < op_Start b \/ op_end b < op_Start a) (completed (lc_history demo_history))) (completed (lc_history demo_history))).
      { intros H a b Ha Hb Hne. rewrite Forall_forall in H. specialize (H a Ha). rewrite Forall_forall in H. destruct (H b Hb); [done|done]. }
      vm_compute. repeat constructor; (by left) || (by right; left) || (by right; right).
  - vm_compute. repeat constructor; (by left) || (by right).
  - apply Forall_forall. vm_compute. repeat constructor.
Defined.

(** ** Concurrent histories *)

(** Two concurrent puts may take effect in either order, so a later get may
    return either value; the checker refuses one of them. *)
Theorem checker_refuses_linearizable :
  LC_Check ["x"] (run_ops [(OpPut, "x", Some "1", 0, 10); (OpPut, "x", Some "2", 1, 5); (OpGet, "x", Some "2", 20, 21)]) = Some ("x", 2%nat).
Proof. vm_compute. done. Qed.

(** A get that overlaps with a put may return anything, even a value that was
    never written. *)
Theorem checker_accepts_garbage :
  LC_Check ["x"] (run_ops [(OpPut, "x", Some "1", 0, 10); (OpGet, "x", Some "42", 5, 15)]) = None.
Proof. vm_compute. done. Qed.

(** Deletes are ignored: a correct history with one is refused. *)
Theorem checker_ignores_deletes :
  LC_Check ["x"] (run_ops [(OpPut, "x", Some "1", 0, 1); (OpDelete, "x", None, 2, 3); (OpGet, "x", None, 4, 5)]) = Some ("x", 2%nat).
Proof. vm_compute. done. Qed.
