(* ===== verification/ReadPath.v ===== *)
(** * ReadPath: leader leases and the read index
    (pkg/consistency/lease.go, readindex.go)

    Times are in nanoseconds and arguments; the zero time is [None].  A read
    request waits on a channel of one place, known by its id; its call is
    modelled up to the wait and from the wait on. *)

From S2P Require Import Prelude.

(** ** Leases *)

Record LeaseConfig := mkLeaseConfig {
  le_ElectionTimeout : Z;
  le_MaxClockDrift : Z;
}.

Definition DefaultLeaseConfig : LeaseConfig := mkLeaseConfig 150000000 5000000.

Record LeaderLease := mkLeaderLease {
  ll_config : LeaseConfig;
  ll_nodeID : string;
  ll_leaseExpiry : option Z;
  ll_lastRenewal : option Z;
  ll_leaseDuration : Z;
  ll_readsServedUnderLease : Z;
  ll_leaseExpirations : Z;
}.

Definition NewLeaderLease (nodeID : string) (config : LeaseConfig) : LeaderLease :=
  mkLeaderLease config nodeID None None (i64 (le_ElectionTimeout config - i64 (2 * le_MaxClockDrift config))) 0 0.

Definition LL_Renew (at_ : Z) (l : LeaderLease) : LeaderLease :=
  mkLeaderLease (ll_config l) (ll_nodeID l) (Some (at_ + ll_leaseDuration l)) (Some at_) (ll_leaseDuration l) (ll_readsServedUnderLease l) (ll_leaseExpirations l).

Definition LL_IsValid (now : Z) (l : LeaderLease) : bool :=
  match ll_leaseExpiry l with None => false | Some expiry => now <? expiry end.

Definition LL_Expire (l : LeaderLease) : LeaderLease :=
  mkLeaderLease (ll_config l) (ll_nodeID l) None (ll_lastRenewal l) (ll_leaseDuration l) (ll_readsServedUnderLease l) (u64 (ll_leaseExpirations l + 1)).

(** The zero time lies in the past. *)
Definition TimeRemaining (now : Z) (l : LeaderLease) : Z :=
  match ll_leaseExpiry l with
  | None => 0
  | Some expiry => let remaining := expiry - now in if remaining <? 0 then 0 else remaining
  end.

Definition ServeWithLease (now : Z) (l : LeaderLease) : bool * LeaderLease :=
  if LL_IsValid now l then
    (true, mkLeaderLease (ll_config l) (ll_nodeID l) (ll_leaseExpiry l) (ll_lastRenewal l) (ll_leaseDuration l) (u64 (ll_readsServedUnderLease l + 1)) (ll_leaseExpirations l))
  else (false, l).

Record LeaseStats := mkLeaseStats {
  lt_Valid : bool;
  lt_ReadsServedUnderLease : Z;
  lt_LeaseExpirations : Z;
  lt_TimeRemaining : Z;
}.

Definition LL_Stats (now : Z) (l : LeaderLease) : LeaseStats :=
  mkLeaseStats (LL_IsValid now l) (ll_readsServedUnderLease l) (ll_leaseExpirations l) (TimeRemaining now l).

(** ** The argument for leases

    [leader] and [follower] are the readings of two clocks at a real time. *)

Section lease.
  Context (leader follower : Z -> Z) (config : LeaseConfig).
  Context (Hdrift : forall r, Z.abs (leader r - follower r) <= le_MaxClockDrift config).
  Context (Hmono : forall r r', r <= r' -> leader r <= leader r').

(** A lease renewed at the time the heartbeats were sent is over before a
    follower that waits its election timeout after receiving one starts an
    election, and reads are served exactly until then. *)
Theorem lease_ends_before_election nodeID sent received election l :
  - two63 <= 2 * le_MaxClockDrift config < two63 -> - two63 <= le_ElectionTimeout config - 2 * le_MaxClockDrift config < two63 ->
  sent <= received -> follower received + le_ElectionTimeout config <= follower election ->
  l = LL_Renew (leader sent) (NewLeaderLease nodeID config) ->
  (forall r, election <= r -> (ServeWithLease (leader r) l).1 = false) /\
  (forall r, (ServeWithLease (leader r) l).1 = true -> leader r < leader election).
Proof.
  intros Hw1 Hw2 Hsr Hel ->. unfold ServeWithLease, LL_IsValid. cbn [LL_Renew NewLeaderLease ll_leaseExpiry ll_leaseDuration]. rewrite (i64_small (2 * _)) // i64_small //.
  pose proof (Hdrift received). pose proof (Hdrift election). pose proof (Hmono _ _ Hsr). split.
  - intros r Hr. pose proof (Hmono _ _ Hr). destruct (Z.ltb_spec (leader r) (leader sent + (le_ElectionTimeout config - 2 * le_MaxClockDrift config))); [lia|done].
  - intros r. destruct (Z.ltb_spec (leader r) (leader sent + (le_ElectionTimeout config - 2 * le_MaxClockDrift config))); [lia|done].
Qed.

End lease.

(** ** Read requests *)

Record ReadIndexRequest := mkReadIndexRequest {
  rq_RequestID : Z;
  rq_ReadIndex : Z;
}.

(** [ri_results] holds what the channel of each request contains. *)
Record ReadIndexTracker := mkReadIndexTracker {
  ri_nodeID : string;
  ri_pending : list ReadIndexRequest;
  ri_nextRequestID : Z;
  ri_applied : Z;
  ri_results : gmap Z (option Z);
}.

Definition NewReadIndexTracker (nodeID : string) : ReadIndexTracker := mkReadIndexTracker nodeID [] 0 0 ∅.

Definition allocateID (t : ReadIndexTracker) : Z * ReadIndexTracker :=
  let id := u64 (ri_nextRequestID t + 1) in (id, mkReadIndexTracker (ri_nodeID t) (ri_pending t) id (ri_applied t) (ri_results t)).

(** [RequestRead] up to its wait: the id, and whether a heartbeat is started. *)
Definition RequestRead (commitIndex : Z) (t : ReadIndexTracker) : Z * bool * ReadIndexTracker :=
  let '(id, t) := allocateID t in
  let pending := ri_pending t ++ [mkReadIndexRequest id commitIndex] in
  (id, zlen pending =? 1, mkReadIndexTracker (ri_nodeID t) pending (ri_nextRequestID t) (ri_applied t) (<[id := None]> (ri_results t))).

Fixpoint remove_request (id : Z) (l : list ReadIndexRequest) : list ReadIndexRequest :=
  match l with
  | [] => []
  | p :: l => if rq_RequestID p =? id then l else p :: remove_request id l
  end.

(** The end of the wait: a result, or the context is done. *)
Definition RequestRead_wait (ctxDone : bool) (id : Z) (t : ReadIndexTracker) : option Z * ReadIndexTracker :=
  if ctxDone then (None, mkReadIndexTracker (ri_nodeID t) (remove_request id (ri_pending t)) (ri_nextRequestID t) (ri_applied t) (ri_results t))
  else
    match ri_results t !! id with
    | Some (Some index) => (Some index, mkReadIndexTracker (ri_nodeID t) (ri_pending t) (ri_nextRequestID t) (ri_applied t) (<[id := None]> (ri_results t)))
    | _ => (None, t)
    end.

Definition notify_request (req : ReadIndexRequest) (results : gmap Z (option Z)) : gmap Z (option Z) :=
  match results !! rq_RequestID req with Some None => <[rq_RequestID req := Some (rq_ReadIndex req)]> results | _ => results end.

Definition ConfirmLeadership (maxCommitIndex : Z) (t : ReadIndexTracker) : ReadIndexTracker :=
  let toNotify := List.filter (fun req => rq_ReadIndex req <=? maxCommitIndex) (ri_pending t) in
  let pending := List.filter (fun req => negb (rq_ReadIndex req <=? maxCommitIndex)) (ri_pending t) in
  mkReadIndexTracker (ri_nodeID t) pending (ri_nextRequestID t) (ri_applied t) (fold_left (fun r req => notify_request req r) toNotify (ri_results t)).

Definition OnApplied (appliedIndex : Z) (t : ReadIndexTracker) : ReadIndexTracker :=
  mkReadIndexTracker (ri_nodeID t) (ri_pending t) (ri_nextRequestID t) appliedIndex (ri_results t).

(** Calls in any order; [rs_asked] and [rs_confirmed] log the requests and the
    confirmations, each with the number of calls before it. *)
Inductive ri_call := QRequest (commitIndex : Z) | QWait (ctxDone : bool) (id : Z) | QConfirm (maxCommitIndex : Z) | QApplied (index : Z).

Record RSys := mkRSys {
  rs_tracker : ReadIndexTracker;
  rs_clock : Z;
  rs_asked : gmap Z (Z * Z);
  rs_confirmed : list (Z * Z);
  rs_heartbeats : Z;
  rs_answers : list (Z * Z);
}.

Definition ri_step (y : RSys) (o : ri_call) : RSys :=
  let t := rs_tracker y in
  let n := rs_clock y + 1 in
  match o with
  | QRequest commitIndex =>
      let '(id, hb, t) := RequestRead commitIndex t in
      mkRSys t n (<[id := (commitIndex, n)]> (rs_asked y)) (rs_confirmed y) (if hb : bool then rs_heartbeats y + 1 else rs_heartbeats y) (rs_answers y)
  | QWait ctxDone id =>
      let '(res, t) := RequestRead_wait ctxDone id t in
      mkRSys t n (rs_asked y) (rs_confirmed y) (rs_heartbeats y) (match res with Some i => rs_answers y ++ [(id, i)] | None => rs_answers y end)
  | QConfirm m => mkRSys (ConfirmLeadership m t) n (rs_asked y) ((m, n) :: rs_confirmed y) (rs_heartbeats y) (rs_answers y)
  | QApplied i => mkRSys (OnApplied i t) n (rs_asked y) (rs_confirmed y) (rs_heartbeats y) (rs_answers y)
  end.

Definition ri_run (nodeID : string) (calls : list ri_call) : RSys :=
  fold_left ri_step calls (mkRSys (NewReadIndexTracker nodeID) 0 ∅ [] 0 []).

(** The request was made at that index and confirmed afterwards. *)
Definition answered_ok (y : RSys) (id index : Z) : Prop :=
  exists t0 m t1, rs_asked y !! id = Some (index, t0) /\ (m, t1) ∈ rs_confirmed y /\ t0 < t1 /\ index <= m.

Record ri_inv (y : RSys) : Prop := {
  ry_next : forall id x, rs_asked y !! id = Some x -> 1 <= id <= ri_nextRequestID (rs_tracker y) /\ x.2 <= rs_clock y;
  ry_range : 0 <= ri_nextRequestID (rs_tracker y) <= rs_clock y;
  ry_pending : forall req, req ∈ ri_pending (rs_tracker y) -> exists t0, rs_asked y !! rq_RequestID req = Some (rq_ReadIndex req, t0);
  ry_results : forall id i, ri_results (rs_tracker y) !! id = Some (Some i) -> answered_ok y id i;
  ry_answers : forall id i, (id, i) ∈ rs_answers y -> answered_ok y id i;
}.

Lemma notify_lookup l : forall results id i,
  fold_left (fun r req => notify_request req r) l results !! id = Some (Some i) ->
  results !! id = Some (Some i) \/ exists req, req ∈ l /\ rq_RequestID req = id /\ rq_ReadIndex req = i.
Proof.
  induction l as [|req l IH]; intros results id i H; [by left|]. cbn [fold_left] in H.
  destruct (IH _ _ _ H) as [H'|(r & Hr & ?)]; [|right; exists r; set_solver]. unfold notify_request in H'.
  destruct (results !! rq_RequestID req) as [[x|]|] eqn:Hx; [by left| |by left].
  apply lookup_insert_Some in H' as [[<- [= <-]]|[_ H']]; [right; exists req; set_solver|by left].
Qed.

Lemma remove_request_elem id l req : req ∈ remove_request id l -> req ∈ l.
Proof. induction l as [|p l IH]; cbn [remove_request]; [done|]. destruct (rq_RequestID p =? id); set_solver. Qed.

Lemma ri_step_inv y o : ri_inv y -> rs_clock y < two64 - 1 -> ri_inv (ri_step y o) /\ rs_clock (ri_step y o) = rs_clock y + 1.
Proof.
  intros [] Hb. assert (Hkeep : forall y', rs_asked y' = rs_asked y -> rs_confirmed y' = rs_confirmed y -> forall id i, answered_ok y id i -> answered_ok y' id i).
  { intros y' Ha Hc id i (t0 & m & t1 & ?). exists t0, m, t1. by rewrite Ha Hc. }
  destruct o as [ci|ctxDone id|m|i]; cbn [ri_step].
  - unfold RequestRead, allocateID. cbn. rewrite u64_small; [|lia]. set (id := ri_nextRequestID (rs_tracker y) + 1). split; [|done].
    assert (Hfresh : rs_asked y !! id = None) by (destruct (rs_asked y !! id) as [x|] eqn:Hx; [apply ry_next0 in Hx; lia|done]).
    assert (Hok : forall j x, answered_ok y j x -> answered_ok (mkRSys (rs_tracker y) (rs_clock y + 1) (<[id := (ci, rs_clock y + 1)]> (rs_asked y)) (rs_confirmed y) 0 []) j x).
    { intros j x (t0 & m & t1 & Ha & ?). exists t0, m, t1. cbn. rewrite lookup_insert_ne; [done|congruence]. }
    constructor; cbn.
    + intros j x [[<- <-]|[_ Hx]]%lookup_insert_Some; [cbn; lia|]. destruct (ry_next0 _ _ Hx). lia.
    + lia.
    + intros req [Hr| ->%list_elem_of_singleton]%elem_of_app; cbn; [|rewrite lookup_insert_eq; eauto].
      destruct (ry_pending0 _ Hr) as (t0 & Ht). exists t0. rewrite lookup_insert_ne; [done|congruence].
    + intros j x [[_ ?]|[_ Hx]]%lookup_insert_Some; [done|]. by apply Hok, ry_results0.
    + intros j x Hx. by apply Hok, ry_answers0.
  - split; [|by destruct (RequestRead_wait _ _ _)]. unfold RequestRead_wait. destruct ctxDone; [|destruct (ri_results (rs_tracker y) !! id) as [[i|]|] eqn:Hr]; constructor; cbn; try done; try lia;
      try (intros j x Hx; destruct (ry_next0 _ _ Hx); lia).
    + intros req Hq%remove_request_elem. by apply ry_pending0.
    + intros j x [[_ ?]|[_ Hx]]%lookup_insert_Some; [done|by apply ry_results0].
    + intros j x [Hx|Hx%list_elem_of_singleton]%elem_of_app; [by apply ry_answers0|]. injection Hx as -> ->. by apply ry_results0.
  - split; [|done]. assert (Hok : forall j x, answered_ok y j x -> answered_ok (ri_step y (QConfirm m)) j x).
    { intros j x (t0 & m' & t1 & Ha & Hm & ?). exists t0, m', t1. cbn. split_and!; [done|by apply elem_of_cons; right|lia..]. }
    constructor; cbn; try done; try lia.
    + intros j x Hx. destruct (ry_next0 _ _ Hx). lia.
    + intros req [Hr _]%list_elem_of_In%filter_In. apply list_elem_of_In in Hr. by apply ry_pending0.
    + intros j x [Hx|(req & [Hr Hle]%list_elem_of_In%filter_In & <- & <-)]%notify_lookup; [by apply Hok, ry_results0|].
      apply list_elem_of_In in Hr. destruct (ry_pending0 _ Hr) as (t0 & Ht). destruct (ry_next0 _ _ Ht) as [_ Hc]. cbn in Hc.
      exists t0, m, (rs_clock y + 1). cbn. split_and!; [done|by apply elem_of_cons; left|lia|by apply Z.leb_le].
    + intros j x Hx. by apply Hok, ry_answers0.
  - split; [|done]. constructor; cbn; try done; try lia. intros j x Hx. destruct (ry_next0 _ _ Hx). lia.
Qed.

(** A read is answered with the commit index it was made at, and only by a
    confirmation that came after the request and covers this index. *)
Theorem read_index_confirmed nodeID calls id index : zlen calls < two64 - 1 ->
  (id, index) ∈ rs_answers (ri_run nodeID calls) -> answered_ok (ri_run nodeID calls) id index.
Proof.
  intros Hlen. unfold ri_run. set (y0 := mkRSys _ _ _ _ _ _).
  assert (H : forall calls y, ri_inv y -> rs_clock y + zlen calls < two64 - 1 -> ri_inv (fold_left ri_step calls y)).
  { clear. induction calls as [|o calls IH]; intros y Hinv Hlen; [done|]. rewrite zlen_cons in Hlen. pose proof (zlen_nonneg calls). cbn [fold_left].
    destruct (ri_step_inv y o Hinv ltac:(lia)) as [Hinv' Hclk]. apply IH; [done|lia]. }
  apply (H calls y0); [|done]. constructor; cbn; try done; [by intros req ?%elem_of_nil|by intros id' i ?%elem_of_nil].
Qed.

(** Only the first of the pending requests starts a heartbeat: while it stays
    pending, the later ones wait without one. *)
Theorem later_reads_start_no_heartbeat :
  let y := ri_run "n" [QRequest 5; QConfirm 3; QRequest 2; QRequest 2] in
  rs_heartbeats y = 1 /\ map rq_RequestID (ri_pending (rs_tracker y)) = [1; 2; 3].
Proof. vm_compute. done. Qed.
