(* ===== verification/Md5.v ===== *)
(** * Md5: crypto/md5 of Go's standard library

    The digest of RFC 1321 on 32-bit words, as the hash ring uses it. *)

From S2P Require Import Prelude Bytes.

Definition md5_K : list Z :=
  [3614090360; 3905402710; 606105819; 3250441966; 4118548399; 1200080426; 2821735955; 4249261313;
   1770035416; 2336552879; 4294925233; 2304563134; 1804603682; 4254626195; 2792965006; 1236535329;
   4129170786; 3225465664; 643717713; 3921069994; 3593408605; 38016083; 3634488961; 3889429448;
   568446438; 3275163606; 4107603335; 1163531501; 2850285829; 4243563512; 1735328473; 2368359562;
   4294588738; 2272392833; 1839030562; 4259657740; 2763975236; 1272893353; 4139469664; 3200236656;
   681279174; 3936430074; 3572445317; 76029189; 3654602809; 3873151461; 530742520; 3299628645;
   4096336452; 1126891415; 2878612391; 4237533241; 1700485571; 2399980690; 4293915773; 2240044497;
   1873313359; 4264355552; 2734768916; 1309151649; 4149444226; 3174756917; 718787259; 3951481745].

Definition md5_shift (i : nat) : Z :=
  nth (4 * (i / 16) + i mod 4) [7; 12; 17; 22; 5; 9; 14; 20; 4; 11; 16; 23; 6; 10; 15; 21] 0.

Definition not32 (x : Z) : Z := Z.lxor x (two32 - 1).
Definition rotl32 (x k : Z) : Z := Z.lor (u32 (Z.shiftl x k)) (Z.shiftr x (32 - k)).

(** The mixing function and the message word of a step. *)
Definition md5_mix (i : nat) (b c d : Z) : Z * nat :=
  match (i / 16)%nat with
  | 0%nat => (Z.lor (Z.land b c) (Z.land (not32 b) d), i)
  | 1%nat => (Z.lor (Z.land d b) (Z.land (not32 d) c), ((5 * i + 1) mod 16)%nat)
  | 2%nat => (Z.lxor b (Z.lxor c d), ((3 * i + 5) mod 16)%nat)
  | _ => (Z.lxor c (Z.lor b (not32 d)), ((7 * i) mod 16)%nat)
  end.

Definition md5_step (words : list Z) (s : Z * Z * Z * Z) (i : nat) : Z * Z * Z * Z :=
  let '(a, b, c, d) := s in
  let '(f, g) := md5_mix i b c d in
  let f := u32 (f + a + nth i md5_K 0 + nth g words 0) in
  (d, u32 (b + rotl32 f (md5_shift i)), b, c).

Fixpoint words_of (n : nat) (block : bytes) : list Z :=
  match n with
  | O => []
  | S n => get_le (take 4 block) :: words_of n (drop 4 block)
  end.

Definition md5_block (s : Z * Z * Z * Z) (block : bytes) : Z * Z * Z * Z :=
  let '(a, b, c, d) := s in
  let '(a', b', c', d') := fold_left (md5_step (words_of 16 block)) (seq 0 64) s in
  (u32 (a + a'), u32 (b + b'), u32 (c + c'), u32 (d + d')).

Fixpoint blocks_of (n : nat) (l : bytes) : list bytes :=
  match n with
  | O => []
  | S n => take 64 l :: blocks_of n (drop 64 l)
  end.

(** The message, a one bit, zeros up to 56 modulo 64, and the length in bits. *)
Definition md5_pad (msg : bytes) : bytes :=
  msg ++ byte_of_Z 128 :: replicate ((119 - length msg mod 64) mod 64) (byte_of_Z 0) ++ put_le 8 (8 * zlen msg).

Definition md5_Sum (msg : bytes) : bytes :=
  let padded := md5_pad msg in
  let '(a, b, c, d) := fold_left md5_block (blocks_of (length padded / 64) padded)
    (1732584193, 4023233417, 2562383102, 271733878) in
  put_le 4 a ++ put_le 4 b ++ put_le 4 c ++ put_le 4 d.

Lemma length_md5_pad msg : (length (md5_pad msg) mod 64 = 0)%nat.
Proof.
  unfold md5_pad. rewrite !length_app length_cons !length_app length_replicate length_put_le.
  pose proof (Nat.mod_upper_bound (length msg) 64). pose proof (Nat.div_mod_eq (length msg) 64).
  set (r := (length msg mod 64)%nat) in *. set (q := (length msg / 64)%nat) in *.
  destruct (decide (r < 56)%nat).
  - rewrite (_ : (119 - r) mod 64 = 55 - r)%nat.
    + rewrite H0. replace (64 * q + r + S (55 - r + 8))%nat with ((q + 1) * 64)%nat by lia. apply Nat.Div0.mod_mul.
    + replace (119 - r)%nat with (55 - r + 1 * 64)%nat by lia. rewrite Nat.Div0.mod_add Nat.mod_small; lia.
  - rewrite (Nat.mod_small (119 - r)); [|lia]. rewrite H0.
    replace (64 * q + r + S (119 - r + 8))%nat with ((q + 2) * 64)%nat by lia. apply Nat.Div0.mod_mul.
Qed.

Lemma length_md5_Sum msg : length (md5_Sum msg) = 16%nat.
Proof.
  unfold md5_Sum. destruct (fold_left md5_block _ _) as [[[a b] c] d]. by rewrite !length_app !length_put_le.
Qed.

(** The test suite of RFC 1321. *)
Definition hex_digit (z : Z) : ascii := byte_of_Z (if z <? 10 then 48 + z else 87 + z).
Definition hex (l : bytes) : string :=
  string_of_bytes (concat (map (fun b => [hex_digit (Z_of_byte b / 16); hex_digit (Z_of_byte b mod 16)]) l)).

Lemma md5_test_suite :
  map (fun s => hex (md5_Sum (bytes_of_string s)))
    [EmptyString; "a"; "abc"; "message digest"; "abcdefghijklmnopqrstuvwxyz";
     "ABCDEFGHIJKLMNOPQRSTUVWXYZabcdefghijklmnopqrstuvwxyz0123456789";
     "12345678901234567890123456789012345678901234567890123456789012345678901234567890"] =
  ["d41d8cd98f00b204e9800998ecf8427e"; "0cc175b9c0f1b6a831c399e269772661"; "900150983cd24fb0d6963f7d28e17f72";
   "f96b697d7cb7938d525a2f31aaf161d0"; "c3fcd3d76192e4007dfb496cca67e13b"; "d174ab98d277d9f5a5611c2c9f419d9f";
   "57edf4a22be3c955ac49da2e2107b67a"].
Proof. vm_compute. reflexivity. Qed.
