(* ===== verification/HashRing.v ===== *)
(** * HashRing: consistent hashing (pkg/partition/consistent_hash.go)

    Every physical node has the same number of points on a ring of 2^32
    positions, found by hashing with MD5; a key belongs to the node of the
    first point at or after its own position.  The ring is a slice sorted by
    position with [sort.Slice]; the theorems hold for every way it may order
    points at the same position.  The text picture of the ring is left out. *)

From S2P Require Import Prelude GoSort Bytes Md5 Float64.

Record VirtualNode := mkVirtualNode {
  vn_Hash : Z;
  vn_NodeID : string;
  vn_VNodeIndex : Z;
}.

Record ConsistentHashRing := mkRing {
  hr_vnodes : list VirtualNode;
  hr_nodeMap : gset string;
  hr_virtualNodes : Z;
}.

Inductive RingError := ErrRingEmpty.

Definition DefaultVirtualNodes : Z := 150.

Definition NewConsistentHashRing (virtualNodes : Z) : ConsistentHashRing :=
  mkRing [] ∅ (if virtualNodes <=? 0 then DefaultVirtualNodes else virtualNodes).

Definition hashKey (key : string) : Z := get_be (take 4 (md5_Sum (bytes_of_string key))).

(** [fmt.Sprintf("%s-vnode-%d", nodeID, i)]. *)
Definition vnode_name (nodeID : string) (i : Z) : string :=
  string_of_bytes (bytes_of_string nodeID ++ bytes_of_string "-vnode-" ++ fmt_d i).

Definition vnode_of (nodeID : string) (i : nat) : VirtualNode :=
  mkVirtualNode (hashKey (vnode_name nodeID (Z.of_nat i))) nodeID (Z.of_nat i).

Definition new_vnodes (virtualNodes : Z) (nodeID : string) : list VirtualNode :=
  map (vnode_of nodeID) (seq 0 (Z.to_nat virtualNodes)).

Section sorted.
  Context `{SortSlice}.

Definition AddNode (nodeID : string) (r : ConsistentHashRing) : ConsistentHashRing :=
  if bool_decide (nodeID ∈ hr_nodeMap r) then r
  else
    mkRing (sort_Slice (fun a b => vn_Hash a <? vn_Hash b) (hr_vnodes r ++ new_vnodes (hr_virtualNodes r) nodeID))
      ({[nodeID]} ∪ hr_nodeMap r) (hr_virtualNodes r).

Definition RemoveNode (nodeID : string) (r : ConsistentHashRing) : ConsistentHashRing :=
  if negb (bool_decide (nodeID ∈ hr_nodeMap r)) then r
  else
    mkRing (List.filter (fun vn => negb (vn_NodeID vn =?s nodeID)) (hr_vnodes r))
      (hr_nodeMap r ∖ {[nodeID]}) (hr_virtualNodes r).

(** The index of the first point at or after a position, the first point after the last one. *)
Definition ring_index (vnodes : list VirtualNode) (hash : Z) : nat :=
  let idx := sort_Search (length vnodes)
    (fun i => match vnodes !! i with Some vn => hash <=? vn_Hash vn | None => true end) in
  if (idx =? length vnodes)%nat then 0%nat else idx.

Definition GetNode (key : string) (r : ConsistentHashRing) : option (RingError + string) :=
  if (length (hr_vnodes r) =? 0)%nat then Some (inl ErrRingEmpty)
  else
    vn ← hr_vnodes r !! ring_index (hr_vnodes r) (hashKey key);
    Some (inr (vn_NodeID vn)).

(** The walk of [GetNodes]; it gives up after two turns. *)
Fixpoint GetNodes_loop (fuel : nat) (vnodes : list VirtualNode) (startIdx i : nat) (count : Z)
    (seen : gset string) (nodes : list string) : option (list string) :=
  match fuel with
  | O => None
  | S fuel =>
      if zlen nodes <? count then
        if (length vnodes =? 0)%nat then None
        else
          vn ← vnodes !! ((startIdx + i) mod length vnodes)%nat;
          let nodeID := vn_NodeID vn in
          let '(seen, nodes) :=
            if bool_decide (nodeID ∈ seen) then (seen, nodes) else ({[nodeID]} ∪ seen, nodes ++ [nodeID]) in
          if (length vnodes * 2 <? i)%nat then Some nodes
          else GetNodes_loop fuel vnodes startIdx (S i) count seen nodes
      else Some nodes
  end.

Definition GetNodes (key : string) (count : Z) (r : ConsistentHashRing) : option (RingError + list string) :=
  if (size (hr_nodeMap r) =? 0)%nat then Some (inl ErrRingEmpty)
  else
    let count := if Z.of_nat (size (hr_nodeMap r)) <? count then Z.of_nat (size (hr_nodeMap r)) else count in
    nodes ← GetNodes_loop (3 + length (hr_vnodes r) * 2) (hr_vnodes r)
      (ring_index (hr_vnodes r) (hashKey key)) 0 count ∅ [];
    Some (inr nodes).

(** The slots of [Distribution]: the distance from each point to the next. *)
Definition slot_size (vnodes : list VirtualNode) (i : nat) : option Z :=
  curr ← vnodes !! i;
  if (i <? length vnodes - 1)%nat then
    next ← vnodes !! S i;
    Some (u32 (vn_Hash next - vn_Hash curr))
  else
    first ← vnodes !! 0%nat;
    Some (u32 (two32 - 1 - vn_Hash curr + vn_Hash first)).

Definition add_slot (vnodes : list VirtualNode) (i : nat) (nodeSlots : gmap string Z) : option (gmap string Z) :=
  curr ← vnodes !! i;
  slotSize ← slot_size vnodes i;
  Some (<[vn_NodeID curr := u64 (default 0 (nodeSlots !! vn_NodeID curr) + slotSize)]> nodeSlots).

Definition node_slots (vnodes : list VirtualNode) : option (gmap string Z) :=
  for_each (add_slot vnodes) (seq 0 (length vnodes)) ∅.

Definition slot_percent (slots : Z) : float64 := fmul (fdiv (f64 slots) (f64 (two32 - 1))) (f64 100).

Definition Distribution (r : ConsistentHashRing) : option (gmap string float64) :=
  if (length (hr_vnodes r) =? 0)%nat then Some ∅
  else
    nodeSlots ← node_slots (hr_vnodes r);
    Some (fmap (M := gmap string) slot_percent nodeSlots).

(** The nodes, in some order. *)
Definition Nodes (r : ConsistentHashRing) : list string := elements (hr_nodeMap r).

(** ** Runs *)

Inductive ring_op :=
| RAdd (nodeID : string)
| RRemove (nodeID : string).

Definition ring_step (r : ConsistentHashRing) (o : ring_op) : ConsistentHashRing :=
  match o with RAdd n => AddNode n r | RRemove n => RemoveNode n r end.

Definition ring_run (virtualNodes : Z) (ops : list ring_op) : ConsistentHashRing :=
  fold_left ring_step ops (NewConsistentHashRing virtualNodes).

(** ** The invariant of a ring *)

Definition hash_le (a b : VirtualNode) : Prop := vn_Hash a <= vn_Hash b.

Record ring_inv (r : ConsistentHashRing) : Prop := {
  ri_virtual : 0 < hr_virtualNodes r;
  ri_sorted : StronglySorted hash_le (hr_vnodes r);
  ri_points : hr_vnodes r ≡ₚ elements (hr_nodeMap r) ≫= new_vnodes (hr_virtualNodes r);
}.

Lemma new_vnodes_node v n vn : vn ∈ new_vnodes v n -> vn_NodeID vn = n.
Proof. unfold new_vnodes. rewrite list_elem_of_In in_map_iff. by intros (i & <- & _). Qed.

Lemma sort_hash_sorted l : StronglySorted hash_le (sort_Slice (fun a b => vn_Hash a <? vn_Hash b) l).
Proof.
  eapply StronglySorted_mono; [|apply sort_Slice_sorted, (strict_weak_Z vn_Hash)].
  intros a b Hab. apply Z.ltb_ge in Hab. done.
Qed.

Lemma AddNode_inv n r : ring_inv r -> ring_inv (AddNode n r).
Proof.
  intros []. unfold AddNode. case_bool_decide; [done|]. constructor; cbn [hr_vnodes hr_nodeMap hr_virtualNodes]; [done|apply sort_hash_sorted|].
  rewrite sort_Slice_perm elements_union_singleton // bind_cons ri_points0. apply Permutation_app_comm.
Qed.

Lemma bind_filter_out v n l : n ∉ l ->
  List.filter (fun vn => negb (vn_NodeID vn =?s n)) (l ≫= new_vnodes v) = l ≫= new_vnodes v.
Proof.
  intros Hn. apply bfilter_all. intros vn (m & Hvn & Hm)%list_elem_of_bind. apply new_vnodes_node in Hvn.
  rewrite Hvn str_eqb_spec. case_bool_decide; [by subst|done].
Qed.

Lemma filter_new_vnodes v n : List.filter (fun vn => negb (vn_NodeID vn =?s n)) (new_vnodes v n) = [].
Proof.
  unfold new_vnodes. induction (seq 0 (Z.to_nat v)) as [|i l IH]; [done|]. cbn [map List.filter vnode_of vn_NodeID].
  by rewrite String.eqb_refl.
Qed.

Lemma RemoveNode_inv n r : ring_inv r -> ring_inv (RemoveNode n r).
Proof.
  intros []. unfold RemoveNode. case_bool_decide as Hn; [|done]. cbn [negb].
  constructor; cbn [hr_vnodes hr_nodeMap hr_virtualNodes]; [done|by apply StronglySorted_bfilter|].
  assert (Hnm : hr_nodeMap r = {[n]} ∪ hr_nodeMap r ∖ {[n]}) by (apply union_difference_L; set_solver).
  rewrite ri_points0 {1}Hnm elements_union_singleton; [|set_solver].
  rewrite bind_cons List.filter_app filter_new_vnodes app_nil_l bind_filter_out //. set_solver.
Qed.

Lemma ring_run_inv virtualNodes ops : ring_inv (ring_run virtualNodes ops).
Proof.
  unfold ring_run. assert (ring_inv (NewConsistentHashRing virtualNodes)) as Hinv.
  { constructor; cbn; [|constructor|by rewrite elements_empty]. destruct (Z.leb_spec virtualNodes 0); [done|lia]. }
  revert Hinv. generalize (NewConsistentHashRing virtualNodes). induction ops as [|o ops IH]; intros r Hinv; [done|].
  cbn [fold_left]. apply IH. destruct o; [by apply AddNode_inv|by apply RemoveNode_inv].
Qed.

(** ** The owner of a position *)

Definition owner (vnodes : list VirtualNode) (hash : Z) : option VirtualNode :=
  match List.find (fun vn => hash <=? vn_Hash vn) vnodes with Some vn => Some vn | None => head vnodes end.

Lemma find_lookup {A} (f : A -> bool) l i x :
  l !! i = Some x -> f x = true -> (forall j y, (j < i)%nat -> l !! j = Some y -> f y = false) -> List.find f l = Some x.
Proof.
  revert i. induction l as [|y l IH]; intros [|i] Hi Hx Hlo; simplify_eq/=; [by rewrite Hx|].
  rewrite (Hlo 0%nat y) //; [|lia]. apply (IH i); try done. intros j z Hj Hz. apply (Hlo (S j)); [lia|done].
Qed.

Lemma find_none {A} (f : A -> bool) l : (forall x, x ∈ l -> f x = false) -> List.find f l = None.
Proof.
  induction l as [|y l IH]; intros Hl; [done|]. simpl. rewrite Hl; [|left]. apply IH. intros x Hx. apply Hl. by right.
Qed.

Lemma sorted_lookup (l : list VirtualNode) i j a b :
  StronglySorted hash_le l -> (i <= j)%nat -> l !! i = Some a -> l !! j = Some b -> vn_Hash a <= vn_Hash b.
Proof.
  intros Hs. revert i j. induction Hs as [|x l Hl IH Hx]; intros i j Hij Hi Hj; [done|].
  destruct i as [|i], j as [|j]; simplify_eq/=; [lia| |lia|apply (IH i j); try done; lia].
  apply list_elem_of_lookup_2 in Hj. rewrite Forall_forall in Hx. by apply Hx.
Qed.

Lemma ring_index_owner l hash : StronglySorted hash_le l -> l !! ring_index l hash = owner l hash.
Proof.
  intros Hs. unfold ring_index, owner. set (f := fun i => _).
  destruct (sort_Search_spec (length l) f) as (Hn & Hlo & Hhi).
  { intros a b Hab. unfold f. destruct (l !! a) as [x|] eqn:Ha; [|apply lookup_ge_None in Ha; lia].
    destruct (l !! b) as [y|] eqn:Hb; [|done]. rewrite !Z.leb_le. pose proof (sorted_lookup l a b x y Hs (proj1 Hab) Ha Hb). lia. }
  destruct (Nat.eqb_spec (sort_Search (length l) f) (length l)) as [Heq|Hne].
  - rewrite find_none; [by destruct l|]. intros x [i Hi]%list_elem_of_lookup. pose proof (lookup_lt_Some _ _ _ Hi).
    assert (f i = false) as Hf by (apply Hlo; lia). unfold f in Hf. by rewrite Hi in Hf.
  - destruct (l !! sort_Search (length l) f) as [x|] eqn:Hx; [|apply lookup_ge_None in Hx; lia].
    rewrite (find_lookup _ l _ x Hx); [done| |].
    + assert (f (sort_Search (length l) f) = true) as Hf by (apply Hhi; lia). unfold f at 1 in Hf. by rewrite Hx in Hf.
    + intros j y Hj Hy. pose proof (Hlo j Hj) as Hf. unfold f in Hf. by rewrite Hy in Hf.
Qed.

Lemma GetNode_owner key r : ring_inv r ->
  GetNode key r = Some (match owner (hr_vnodes r) (hashKey key) with Some vn => inr (vn_NodeID vn) | None => inl ErrRingEmpty end).
Proof.
  intros []. unfold GetNode. rewrite ring_index_owner //. unfold owner.
  destruct (hr_vnodes r) as [|vn l]; [done|]. simpl. destruct (_ <=? _); [done|]. by destruct (List.find _ l).
Qed.

(** Removing points that do not own a position leaves its owner. *)
Lemma find_bfilter {A} (f q : A -> bool) l x : List.find f l = Some x -> q x = true -> List.find f (List.filter q l) = Some x.
Proof.
  induction l as [|y l IH]; [done|]. simpl. destruct (f y) eqn:Hy.
  - intros [= ->] Hq. rewrite Hq. simpl. by rewrite Hy.
  - intros Hf Hq. destruct (q y); simpl; rewrite ?Hy; by apply IH.
Qed.

Lemma owner_bfilter q l hash vn : owner l hash = Some vn -> q vn = true -> owner (List.filter q l) hash = Some vn.
Proof.
  unfold owner. destruct (List.find _ l) as [x|] eqn:Hf.
  - intros [= ->] Hq. by rewrite (find_bfilter _ _ _ _ Hf Hq).
  - intros Hh Hq. destruct l as [|y l]; [done|]. injection Hh as ->. cbn [List.filter]. rewrite Hq.
    rewrite find_none; [done|]. intros x Hx. apply (List.find_none _ _ Hf).
    change (vn :: List.filter q l) with ([vn] ++ List.filter q l) in Hx.
    apply elem_of_app in Hx as [->%list_elem_of_singleton|Hx%list_elem_of_In%filter_In]; [by left|right; tauto].
Qed.

(** Sorted lists without equal positions are determined by their elements. *)
Lemma hash_sorted_unique l k :
  StronglySorted hash_le l -> StronglySorted hash_le k -> l ≡ₚ k -> NoDup (vn_Hash <$> l) -> l = k.
Proof.
  intros Hl Hk Hp Hnd. apply (StronglySorted_unique_strong hash_le); [|done..]. intros x y Hx Hy Hxy Hyx. rewrite -Hp in Hy.
  apply list_elem_of_lookup in Hx as [i Hi]. apply list_elem_of_lookup in Hy as [j Hj].
  assert (i = j) as ->; [|congruence]. apply (NoDup_lookup _ _ _ (vn_Hash x) Hnd); rewrite list_lookup_fmap ?Hi ?Hj //.
  unfold hash_le in *. simpl. f_equal. lia.
Qed.

Lemma AddNode_filter n r : ring_inv r -> n ∉ hr_nodeMap r -> NoDup (vn_Hash <$> hr_vnodes (AddNode n r)) ->
  List.filter (fun vn => negb (vn_NodeID vn =?s n)) (hr_vnodes (AddNode n r)) = hr_vnodes r.
Proof.
  intros Hinv Hn Hnd. pose proof (AddNode_inv n r Hinv) as [_ Hs' _]. destruct Hinv. symmetry.
  assert (Hp : hr_vnodes r ≡ₚ List.filter (fun vn => negb (vn_NodeID vn =?s n)) (hr_vnodes (AddNode n r))).
  { unfold AddNode. rewrite bool_decide_false //. cbn [hr_vnodes]. rewrite sort_Slice_perm List.filter_app filter_new_vnodes app_nil_r.
    rewrite ri_points0 bind_filter_out //. by rewrite elem_of_elements. }
  apply hash_sorted_unique; [done|by apply StronglySorted_bfilter|done|].
  rewrite Hp. revert Hnd. generalize (hr_vnodes (AddNode n r)). clear.
  induction l as [|x l IH]; [done|]. rewrite fmap_cons. intros [Hx Hnd]%NoDup_cons. cbn [List.filter]. destruct (negb _); [|by apply IH].
  rewrite fmap_cons. apply NoDup_cons. split; [|by apply IH]. intros (y & Hy & [Hin _]%list_elem_of_In%filter_In)%list_elem_of_fmap.
  apply Hx. rewrite Hy. by apply list_elem_of_fmap_2, list_elem_of_In.
Qed.

Lemma owner_None l hash : owner l hash = None -> l = [].
Proof. unfold owner. destruct (List.find _ l); [done|]. by destruct l. Qed.

(** A new node takes over keys and moves no other. *)
Lemma AddNode_moves n key r : ring_inv r -> NoDup (vn_Hash <$> hr_vnodes (AddNode n r)) ->
  GetNode key (AddNode n r) = GetNode key r \/ GetNode key (AddNode n r) = Some (inr n).
Proof.
  intros Hinv Hnd. destruct (decide (n ∈ hr_nodeMap r)) as [Hn|Hn].
  { left. unfold AddNode. by rewrite bool_decide_true. }
  pose proof (AddNode_inv n r Hinv) as Hinv'. rewrite !GetNode_owner // -{1}(AddNode_filter n r Hinv Hn Hnd).
  destruct (owner (hr_vnodes (AddNode n r)) (hashKey key)) as [vn|] eqn:Ho.
  - destruct (vn_NodeID vn =?s n) eqn:Hvn; [right; by apply String.eqb_eq in Hvn as ->|left].
    rewrite (owner_bfilter _ _ _ vn Ho) // Hvn //.
  - left. apply owner_None in Ho as ->. done.
Qed.


(** ** Replica sets *)

(** The elements of a list that are not in [seen], at their first occurrence. *)
Fixpoint distinct (seen : gset string) (l : list string) : list string :=
  match l with
  | [] => []
  | x :: l => if bool_decide (x ∈ seen) then distinct seen l else x :: distinct ({[x]} ∪ seen) l
  end.

Lemma distinct_elem l : forall seen x, x ∈ distinct seen l <-> x ∈ l /\ x ∉ seen.
Proof.
  induction l as [|y l IH]; intros seen x; cbn [distinct]; [by rewrite elem_of_nil; split; [|intros []]|].
  case_bool_decide; rewrite !elem_of_cons IH; [naive_solver|]. rewrite not_elem_of_union not_elem_of_singleton.
  destruct (decide (x = y)); naive_solver.
Qed.

Lemma distinct_NoDup l : forall seen, NoDup (distinct seen l).
Proof.
  induction l as [|y l IH]; intros seen; cbn [distinct]; [constructor|]. case_bool_decide; [done|]. apply NoDup_cons.
  split; [|done]. rewrite distinct_elem not_elem_of_union not_elem_of_singleton. naive_solver.
Qed.

Lemma length_distinct l (X : gset string) : (forall x, x ∈ l <-> x ∈ X) -> length (distinct ∅ l) = size X.
Proof.
  intros HX. rewrite -(size_list_to_set (C := gset string) (distinct ∅ l)); [|apply distinct_NoDup]. f_equal.
  apply set_eq. intros x. rewrite elem_of_list_to_set distinct_elem HX. split; [by intros []|]. intros Hx. split; [done|apply not_elem_of_empty].
Qed.

(** The nodes met on a turn that starts at a point. *)
Definition turn (vnodes : list VirtualNode) (start : nat) : list string := vn_NodeID <$> drop start vnodes ++ take start vnodes.

Lemma turn_lookup vnodes start i vn : (start < length vnodes)%nat -> (i < length vnodes)%nat ->
  vnodes !! ((start + i) mod length vnodes)%nat = Some vn -> turn vnodes start !! i = Some (vn_NodeID vn).
Proof.
  intros Hs Hi Hvn. unfold turn. rewrite list_lookup_fmap. destruct (decide (start + i < length vnodes)%nat) as [Hlt|Hge].
  - rewrite Nat.mod_small // in Hvn. rewrite lookup_app_l ?length_drop; [|lia]. by rewrite lookup_drop Hvn.
  - rewrite lookup_app_r length_drop; [|lia]. replace ((start + i) mod length vnodes)%nat with (i - (length vnodes - start))%nat in Hvn.
    + rewrite lookup_take_lt; [|lia]. by rewrite Hvn.
    + replace (start + i)%nat with (i - (length vnodes - start) + 1 * length vnodes)%nat by lia.
      rewrite Nat.Div0.mod_add Nat.mod_small; lia.
Qed.

Lemma GetNodes_loop_spec vnodes start count k : forall fuel i seen nodes,
  (start < length vnodes)%nat -> (i + k = length vnodes)%nat -> (k < fuel)%nat -> zlen nodes <= Z.max count 0 ->
  let rest := distinct seen (drop i (turn vnodes start)) in
  count <= zlen nodes + zlen rest ->
  GetNodes_loop fuel vnodes start i count seen nodes = Some (nodes ++ take (Z.to_nat (count - zlen nodes)) rest).
Proof.
  induction k as [|k IH]; intros fuel i seen nodes Hs Hi Hf Hn rest Hc; (destruct fuel as [|fuel]; [lia|]); cbn [GetNodes_loop].
  - assert (rest = []) as Hr.
    { unfold rest. rewrite drop_ge //. unfold turn. rewrite length_fmap length_app length_drop length_take. lia. }
    rewrite Hr zlen_nil in Hc. rewrite Hr (proj2 (Z.ltb_ge _ _)); [|lia]. by rewrite take_nil app_nil_r.
  - destruct (Z.ltb_spec (zlen nodes) count) as [Hlt|Hge].
    2: { replace (Z.to_nat (count - zlen nodes)) with 0%nat by lia. by rewrite take_0 app_nil_r. }
    destruct (Nat.eqb_spec (length vnodes) 0); [lia|].
    destruct (lookup_lt_is_Some_2 vnodes ((start + i) mod length vnodes)) as [vn Hvn]; [by apply Nat.mod_upper_bound|].
    rewrite Hvn. cbn [mbind option_bind]. rewrite (proj2 (Nat.ltb_ge _ _)); [|lia].
    assert (Hi' : (i < length vnodes)%nat) by lia.
    assert (drop i (turn vnodes start) = vn_NodeID vn :: drop (S i) (turn vnodes start)) as Hd.
    { apply drop_S. by apply turn_lookup. }
    unfold rest in Hc |- *. rewrite Hd in Hc |- *. cbn [distinct] in Hc |- *. case_bool_decide as Hseen.
    + apply IH; try done; lia.
    + rewrite zlen_cons in Hc. rewrite IH; try done; try lia; rewrite zlen_app; [|rewrite zlen_cons zlen_nil; lia..].
      rewrite zlen_cons zlen_nil -app_assoc. f_equal. cbn [app].
      replace (Z.to_nat (count - zlen nodes)) with (S (Z.to_nat (count - (zlen nodes + (0 + 1))))) by lia. done.
Qed.

Lemma vnodes_nodes r : ring_inv r -> forall x, x ∈ vn_NodeID <$> hr_vnodes r <-> x ∈ hr_nodeMap r.
Proof.
  intros [] x. rewrite ri_points0 list_elem_of_fmap. split.
  - intros (vn & -> & (n & Hvn & Hn)%list_elem_of_bind). apply new_vnodes_node in Hvn as ->. by apply elem_of_elements in Hn.
  - intros Hx. exists (vnode_of x 0). split; [done|]. apply list_elem_of_bind. exists x. split; [|by apply elem_of_elements].
    unfold new_vnodes. apply list_elem_of_In, in_map, in_seq. lia.
Qed.

Lemma turn_perm vnodes start : turn vnodes start ≡ₚ vn_NodeID <$> vnodes.
Proof. unfold turn. rewrite fmap_app Permutation_app_comm -fmap_app take_drop. done. Qed.

Lemma ring_index_lt vnodes hash : vnodes <> [] -> (ring_index vnodes hash < length vnodes)%nat.
Proof.
  intros Hne. assert (0 < length vnodes)%nat by (destruct vnodes; [done|simpl; lia]). unfold ring_index. cbv zeta.
  match goal with |- context [sort_Search ?n ?f] => pose proof (sort_Search_le n f); destruct (Nat.eqb_spec (sort_Search n f) n) end; lia.
Qed.

(** Replica sets are complete.  The walk around the ring ends without a
    panic, and returns as many distinct nodes as asked for (all of them if
    there are fewer): the first different nodes met clockwise from the key's
    position, beginning with the node that owns the key. *)
Theorem hash_ring_replicas (virtualNodes : Z) (ops : list ring_op) (key : string) (count : Z) :
  let r := ring_run virtualNodes ops in
  if decide (hr_nodeMap r = ∅) then GetNodes key count r = Some (inl ErrRingEmpty)
  else exists nodes, GetNodes key count r = Some (inr nodes) /\
    nodes = take (Z.to_nat count) (distinct ∅ (turn (hr_vnodes r) (ring_index (hr_vnodes r) (hashKey key)))) /\
    length nodes = Nat.min (Z.to_nat count) (size (hr_nodeMap r)) /\ NoDup nodes /\
    (forall n, n ∈ nodes -> n ∈ hr_nodeMap r) /\
    (0 < count -> inr <$> head nodes = GetNode key r).
Proof.
  intros r. pose proof (ring_run_inv virtualNodes ops) as Hinv. fold r in Hinv. unfold GetNodes.
  destruct (decide (hr_nodeMap r = ∅)) as [->|Hne]; [by rewrite size_empty|].
  assert (Hsz : size (hr_nodeMap r) <> 0%nat) by (by intros ?%size_empty_inv%leibniz_equiv).
  rewrite (proj2 (Nat.eqb_neq _ _) Hsz). set (start := ring_index _ _). set (R := turn (hr_vnodes r) start).
  assert (Hv : hr_vnodes r <> []).
  { intros Hnil. apply set_choose_L in Hne as [x Hx]. apply (vnodes_nodes r Hinv) in Hx. rewrite Hnil in Hx. by apply elem_of_nil in Hx. }
  assert (Hlen : length (distinct ∅ R) = size (hr_nodeMap r)).
  { apply length_distinct. intros x. unfold R. rewrite turn_perm. by apply vnodes_nodes. }
  set (c := if _ <? count then _ else count).
  assert (Hc : Z.to_nat c = Nat.min (Z.to_nat count) (size (hr_nodeMap r)) /\ c <= Z.of_nat (size (hr_nodeMap r))).
  { unfold c. destruct (Z.ltb_spec (Z.of_nat (size (hr_nodeMap r))) count); lia. }
  rewrite (GetNodes_loop_spec _ _ _ (length (hr_vnodes r))); try done; try lia.
  2: by apply ring_index_lt. 2: rewrite zlen_nil; lia. 2: { rewrite zlen_nil drop_0 /zlen. fold R. lia. }
  cbn [mbind option_bind app]. rewrite drop_0. fold R. rewrite zlen_nil Z.sub_0_r. eexists. split; [done|].
  assert (Ht : take (Z.to_nat c) (distinct ∅ R) = take (Z.to_nat count) (distinct ∅ R)).
  { destruct Hc as [-> _]. rewrite -Hlen. destruct (Nat.min_spec (Z.to_nat count) (length (distinct ∅ R))) as [[_ ->]|[? ->]]; [done|]. by rewrite !take_ge. }
  split_and!.
  - done.
  - rewrite length_take Hlen. lia.
  - eapply sublist_NoDup; [apply distinct_NoDup|apply sublist_take].
  - intros n Hn. assert (Hi : n ∈ distinct ∅ R) by (eapply elem_of_sublist; [exact Hn|apply sublist_take]). apply distinct_elem in Hi as [Hi _].
    unfold R in Hi. rewrite turn_perm in Hi. by apply vnodes_nodes.
  - intros Hpos. rewrite GetNode_owner // -(ring_index_owner _ _ (ri_sorted _ Hinv)). fold start.
    assert (Hs : (start < length (hr_vnodes r))%nat) by by apply ring_index_lt.
    destruct (lookup_lt_is_Some_2 _ _ Hs) as [vn Hvn]. rewrite Hvn.
    unfold R, turn. rewrite (drop_S _ _ _ Hvn) fmap_app fmap_cons. cbn [app distinct]. rewrite bool_decide_false; [|set_solver].
    destruct Hc as [Hc _]. destruct (Z.to_nat c) as [|k] eqn:Hk; [lia|done].
Qed.

(** ** Distribution *)

Lemma hashKey_range key : 0 <= hashKey key < two32.
Proof.
  unfold hashKey, get_be. pose proof (get_le_range (rev (take 4 (md5_Sum (bytes_of_string key))))) as Hr.
  rewrite length_rev length_take length_md5_Sum in Hr. done.
Qed.

Lemma ring_hash_range r vn : ring_inv r -> vn ∈ hr_vnodes r -> 0 <= vn_Hash vn < two32.
Proof.
  intros []. rewrite ri_points0. intros (n & Hvn & _)%list_elem_of_bind. unfold new_vnodes in Hvn.
  apply list_elem_of_In, in_map_iff in Hvn as (i & <- & _). apply hashKey_range.
Qed.

(** A node's slots after another one. *)
Lemma add_slot_sum vnodes i m vn size :
  vnodes !! i = Some vn -> slot_size vnodes i = Some size -> 0 <= size ->
  (forall k v, m !! k = Some v -> 0 <= v) -> map_sum m + size < two64 ->
  exists m', add_slot vnodes i m = Some m' /\ (forall k v, m' !! k = Some v -> 0 <= v) /\ map_sum m' = map_sum m + size.
Proof.
  intros Hvn Hsize Hs Hm Hlt. unfold add_slot. rewrite Hvn Hsize. cbn [mbind option_bind]. eexists. split; [done|].
  destruct (m !! vn_NodeID vn) as [v|] eqn:Hv; cbn [default].
  - pose proof (Hm _ _ Hv). pose proof (map_sum_ge m _ _ Hm Hv). rewrite u64_small; [|simpl; lia].
    split; [|rewrite (map_sum_insert m _ v) //; simpl; lia].
    intros k w. destruct (decide (k = vn_NodeID vn)) as [->|Hne]; [rewrite lookup_insert_eq; intros [= <-]; simpl; lia|].
    rewrite lookup_insert_ne; [apply Hm|done].
  - pose proof (map_sum_nonneg m Hm). rewrite u64_small; [|simpl; lia]. split; [|rewrite map_sum_insert_None //].
    intros k w. destruct (decide (k = vn_NodeID vn)) as [->|Hne]; [rewrite lookup_insert_eq; intros [= <-]; simpl; lia|].
    rewrite lookup_insert_ne; [apply Hm|done].
Qed.

(** The first slots reach from the first point to the next one. *)
Lemma slots_prefix vnodes (Hr : forall vn, vn ∈ vnodes -> 0 <= vn_Hash vn < two32) (Hs : StronglySorted hash_le vnodes) first :
  vnodes !! 0%nat = Some first -> forall i vn, vnodes !! i = Some vn ->
  exists m, for_each (add_slot vnodes) (seq 0 i) ∅ = Some m /\ (forall k v, m !! k = Some v -> 0 <= v) /\
    map_sum m = vn_Hash vn - vn_Hash first.
Proof.
  intros Hfirst. induction i as [|i IH]; intros vn Hvn.
  { rewrite Hfirst in Hvn. injection Hvn as <-. exists ∅. split_and!; [done|by intros k v; rewrite lookup_empty|]. rewrite Z.sub_diag. done. }
  destruct (lookup_lt_is_Some_2 vnodes i) as [prev Hprev]; [apply lookup_lt_Some in Hvn; lia|].
  destruct (IH _ Hprev) as (m & Hm & Hpos & Hsum). rewrite seq_S for_each_app Hm. cbn [for_each Nat.add mbind option_bind].
  pose proof (sorted_lookup _ i (S i) _ _ Hs ltac:(lia) Hprev Hvn). pose proof (Hr prev ltac:(by eapply list_elem_of_lookup_2)).
  pose proof (Hr vn ltac:(by eapply list_elem_of_lookup_2)). pose proof (Hr first ltac:(by eapply list_elem_of_lookup_2)).
  assert (slot_size vnodes i = Some (vn_Hash vn - vn_Hash prev)) as Hsize.
  { unfold slot_size. rewrite Hprev. cbn [mbind option_bind]. apply lookup_lt_Some in Hvn as Hlt. rewrite (proj2 (Nat.ltb_lt _ _)); [|lia].
    rewrite Hvn. cbn [mbind option_bind]. rewrite u32_small //. lia. }
  destruct (add_slot_sum vnodes i m prev _ Hprev Hsize) as (m' & Hm' & Hpos' & Hsum'); [lia|done|lia|].
  rewrite Hm'. exists m'. split_and!; [done|done|lia].
Qed.

(** The slots that [Distribution] counts add up to the whole ring, 2^32 - 1,
    for every ring with a node, without a panic or an overflow. *)
Theorem distribution_covers_ring (virtualNodes : Z) (ops : list ring_op) :
  let r := ring_run virtualNodes ops in
  if decide (hr_nodeMap r = ∅) then Distribution r = Some ∅
  else exists slots, node_slots (hr_vnodes r) = Some slots /\ map_sum slots = two32 - 1 /\
    Distribution r = Some (fmap (M := gmap string) slot_percent slots).
Proof.
  intros r. pose proof (ring_run_inv virtualNodes ops) as Hinv. fold r in Hinv. unfold Distribution.
  destruct (decide (hr_nodeMap r = ∅)) as [Hemp|Hne].
  { destruct Hinv. rewrite Hemp elements_empty in ri_points0. apply symmetry, Permutation_nil in ri_points0 as ->. done. }
  assert (Hv : hr_vnodes r <> []).
  { intros Hnil. apply set_choose_L in Hne as [x Hx]. apply (vnodes_nodes r Hinv) in Hx. rewrite Hnil in Hx. by apply elem_of_nil in Hx. }
  pose proof (fun vn => ring_hash_range r vn Hinv) as Hr. destruct Hinv. revert Hv Hr ri_sorted0. generalize (hr_vnodes r).
  intros vnodes Hv Hr Hs. assert (Hlen : length vnodes = S (length vnodes - 1)) by (destruct vnodes; [done|simpl; lia]).
  destruct (lookup_lt_is_Some_2 vnodes 0) as [first Hfirst]; [lia|].
  destruct (lookup_lt_is_Some_2 vnodes (length vnodes - 1)) as [last Hlast]; [lia|].
  destruct (slots_prefix vnodes Hr Hs first Hfirst _ last Hlast) as (m & Hm & Hpos & Hsum).
  pose proof (sorted_lookup _ 0 (length vnodes - 1) _ _ Hs ltac:(lia) Hfirst Hlast).
  pose proof (Hr last ltac:(by eapply list_elem_of_lookup_2)). pose proof (Hr first ltac:(by eapply list_elem_of_lookup_2)).
  assert (slot_size vnodes (length vnodes - 1) = Some (two32 - 1 - vn_Hash last + vn_Hash first)) as Hsize.
  { unfold slot_size. rewrite Hlast. cbn [mbind option_bind]. rewrite Nat.ltb_irrefl Hfirst. cbn [mbind option_bind]. rewrite u32_small //. lia. }
  destruct (add_slot_sum vnodes _ m last _ Hlast Hsize) as (m' & Hm' & Hpos' & Hsum'); [lia|done|lia|].
  exists m'. unfold node_slots. rewrite Hlen seq_S for_each_app Hm. cbn [for_each Nat.add mbind option_bind]. rewrite Hm'.
  split_and!; [done|lia|done].
Qed.

End sorted.

(** ** Concrete rings *)

Definition demo_ring_ops : list ring_op := [RAdd "node-1"; RAdd "node-2"; RAdd "node-3"; RRemove "node-2"].


Lemma hash_ring_replicas_witness :
  let r := ring_run 3 demo_ring_ops in
  if decide (hr_nodeMap r = ∅) then GetNodes "user:1" 2 r = Some (inl ErrRingEmpty)
  else exists nodes, GetNodes "user:1" 2 r = Some (inr nodes) /\
    nodes = take (Z.to_nat 2) (distinct ∅ (turn (hr_vnodes r) (ring_index (hr_vnodes r) (hashKey "user:1")))) /\
    length nodes = Nat.min (Z.to_nat 2) (size (hr_nodeMap r)) /\ NoDup nodes /\
    (forall n, n ∈ nodes -> n ∈ hr_nodeMap r) /\
    (0 < 2 -> inr <$> head nodes = GetNode "user:1" r).
Proof. apply (hash_ring_replicas 3 demo_ring_ops "user:1" 2). Defined.

Lemma distribution_covers_ring_witness :
  let r := ring_run 3 demo_ring_ops in
  if decide (hr_nodeMap r = ∅) then Distribution r = Some ∅
  else exists slots, node_slots (hr_vnodes r) = Some slots /\ map_sum slots = two32 - 1 /\
    Distribution r = Some (fmap (M := gmap string) slot_percent slots).
Proof. apply (distribution_covers_ring 3 demo_ring_ops). Defined.

(** [Distribution] counts the way from a point to the next one for the node of
    the first point, but keys in between belong to the node of the second: in
    this ring of two points a node with less than a tenth of the keys is said
    to own more than nine tenths. *)
Theorem distribution_counts_wrong_node :
  let r := ring_run 1 [RAdd "node-1"; RAdd "node-7"] in
  exists a b, hr_vnodes r = [a; b] /\ vn_Hash b - vn_Hash a < two32 / 10 /\
    (forall key, vn_Hash a < hashKey key <= vn_Hash b -> GetNode key r = Some (inr (vn_NodeID b))) /\
    (slots ← node_slots (hr_vnodes r); slots !! vn_NodeID b) = Some (two32 - 1 - (vn_Hash b - vn_Hash a)).
Proof.
  intros r. pose proof (ring_run_inv 1 [RAdd "node-1"; RAdd "node-7"]) as Hinv. fold r in Hinv.
  set (a := mkVirtualNode 1403746138 "node-1" 0). set (b := mkVirtualNode 1827318732 "node-7" 0).
  assert (Hr : hr_vnodes r = [a; b]) by (vm_compute; reflexivity). clearbody r. exists a, b.
  split_and!; [exact Hr|vm_compute; reflexivity| |rewrite Hr; vm_compute; reflexivity].
  intros key Hkey. rewrite (GetNode_owner key r Hinv) Hr. revert Hkey. generalize (hashKey key). intros h Hkey. unfold owner. cbn [List.find].
  rewrite (proj2 (Z.leb_gt _ _)); [|lia]. by rewrite (proj2 (Z.leb_le _ _)); [|lia].
Qed.
