(* ===== verification/ShardMap.v ===== *)
(** * ShardMap: the ranges of the key space (pkg/partition/shard.go)

    A shard map is a slice of pointers to descriptors, sorted by start key,
    and a map from shard ids to the same pointers.  A pointer is an index into
    [shm_heap], so that an update through the map is seen through the slice.
    Callbacks are the numbers of the routers that registered them; a split
    returns the ones it starts.  Console output is left out. *)

From S2P Require Import Prelude GoSort Bytes.

Inductive ReplicaRole := ReplicaVoter | ReplicaLearner | ReplicaOutgoing.

Record ReplicaDescriptor := mkReplica {
  rep_NodeID : string;
  rep_Address : string;
  rep_Role : ReplicaRole;
}.

Record ShardDescriptor := mkShard {
  sd_ShardID : Z;
  sd_StartKey : string;
  sd_EndKey : string;
  sd_RaftGroup : Z;
  sd_Replicas : list ReplicaDescriptor;
  sd_Leader : string;
  sd_Version : Z;
}.

Inductive ShardError := ErrNoShards | ErrNoShardForKey | ErrShardNotFound | ErrSplitKeyOutside | ErrNotAdjacent.

Definition ContainsKey (key : string) (s : ShardDescriptor) : bool :=
  if negb (sd_StartKey s =?s EmptyString) && (key <?s sd_StartKey s) then false
  else if negb (sd_EndKey s =?s EmptyString) && (sd_EndKey s <=?s key) then false
  else true.

Record ShardMap := mkShardMap {
  shm_heap : list ShardDescriptor;
  shm_shards : list nat;
  shm_shardsByID : gmap Z nat;
  shm_version : Z;
  shm_onChange : list nat;
}.

Definition NewShardMap : ShardMap := mkShardMap [] [] ∅ 0 [].

(** [string(rune(r))]: the UTF-8 encoding. *)
Definition string_of_rune (r : Z) : string :=
  string_of_bytes
    (if (r <? 0) || (1114111 <? r) || ((55296 <=? r) && (r <=? 57343)) then [byte_of_Z 239; byte_of_Z 191; byte_of_Z 189]
     else if r <? 128 then [byte_of_Z r]
     else if r <? 2048 then [byte_of_Z (192 + r / 64); byte_of_Z (128 + r mod 64)]
     else if r <? 65536 then [byte_of_Z (224 + r / 4096); byte_of_Z (128 + r / 64 mod 64); byte_of_Z (128 + r mod 64)]
     else [byte_of_Z (240 + r / 262144); byte_of_Z (128 + r / 4096 mod 64); byte_of_Z (128 + r / 64 mod 64); byte_of_Z (128 + r mod 64)]).

Definition computeSplitPoints (n : Z) : list string :=
  if n <=? 1 then []
  else map (fun i => string_of_rune (33 + Z.quot (i64 (93 * (Z.of_nat i + 1))) n)) (seq 0 (Z.to_nat (n - 1))).

Definition assign_one (nodes : list string) (shardIdx : Z) (i : nat) : option ReplicaDescriptor :=
  node ← nodes !! Z.to_nat ((shardIdx + Z.of_nat i) mod zlen nodes);
  Some (mkReplica node (string_of_bytes (bytes_of_string node ++ bytes_of_string ":7000")) ReplicaVoter).

Definition assignReplicas (nodes : list string) (shardIdx replicationFactor : Z) : option (list ReplicaDescriptor) :=
  let replicationFactor := if zlen nodes <? replicationFactor then zlen nodes else replicationFactor in
  mapM (assign_one nodes shardIdx) (seq 0 (Z.to_nat replicationFactor)).

(** The body of the loop of [Initialize]. *)
Definition init_one (splitPoints : list string) (nodes : list string) (i : nat) (sm : ShardMap) : option ShardMap :=
  startKey ← (if (0 <? i)%nat then splitPoints !! (i - 1)%nat else Some EmptyString);
  endKey ← (if (i <? length splitPoints)%nat then splitPoints !! i else Some EmptyString);
  replicas ← assignReplicas nodes (Z.of_nat i) 3;
  let shard := mkShard (Z.of_nat i) startKey endKey (Z.of_nat i) replicas EmptyString 1 in
  let p := length (shm_heap sm) in
  Some (mkShardMap (shm_heap sm ++ [shard]) (shm_shards sm ++ [p]) (<[Z.of_nat i := p]> (shm_shardsByID sm))
          (shm_version sm) (shm_onChange sm)).

(** A negative number of shards is no capacity for the slice. *)
Definition Initialize (numShards : Z) (nodes : list string) (sm : ShardMap) : option ShardMap :=
  if numShards <? 0 then None
  else
    sm ← for_each (init_one (computeSplitPoints numShards) nodes) (seq 0 (Z.to_nat numShards))
           (mkShardMap (shm_heap sm) [] ∅ (shm_version sm) (shm_onChange sm));
    Some (mkShardMap (shm_heap sm) (shm_shards sm) (shm_shardsByID sm) (u64 (shm_version sm + 1)) (shm_onChange sm)).

Definition shard_at (sm : ShardMap) (i : nat) : option ShardDescriptor := p ← shm_shards sm !! i; shm_heap sm !! p.

(** The search shared by the two lookups: the last shard that does not start after the key. *)
Definition find_index (key : string) (sm : ShardMap) : nat :=
  let idx := Z.of_nat (sort_Search (length (shm_shards sm))
    (fun i => match shard_at sm i with Some s => key <?s sd_StartKey s | None => true end)) - 1 in
  if idx <? 0 then 0%nat else Z.to_nat idx.

Definition Lookup (key : string) (sm : ShardMap) : option (ShardError + nat) :=
  if (length (shm_shards sm) =? 0)%nat then Some (inl ErrNoShards)
  else
    p ← shm_shards sm !! find_index key sm;
    shard ← shm_heap sm !! p;
    Some (if negb (ContainsKey key shard) then inl ErrNoShardForKey else inr p).

(** The loop of [LookupRange] over the shards from the first one on. *)
Fixpoint range_loop (heap : list ShardDescriptor) (endKey : string) (shards : list nat) : option (list nat) :=
  match shards with
  | [] => Some []
  | p :: shards =>
      shard ← heap !! p;
      if negb (endKey =?s EmptyString) && (endKey <=?s sd_StartKey shard) then Some []
      else result ← range_loop heap endKey shards; Some (p :: result)
  end.

Definition LookupRange (startKey endKey : string) (sm : ShardMap) : option (ShardError + list nat) :=
  if (length (shm_shards sm) =? 0)%nat then Some (inl ErrNoShards)
  else
    result ← range_loop (shm_heap sm) endKey (drop (find_index startKey sm) (shm_shards sm));
    Some (inr result).

Definition UpdateLeader (shardID : Z) (leaderNodeID : string) (sm : ShardMap) : option ShardMap :=
  match shm_shardsByID sm !! shardID with
  | None => Some sm
  | Some p =>
      s ← shm_heap sm !! p;
      let s := mkShard (sd_ShardID s) (sd_StartKey s) (sd_EndKey s) (sd_RaftGroup s) (sd_Replicas s) leaderNodeID
                 (u64 (sd_Version s + 1)) in
      Some (mkShardMap (<[p := s]> (shm_heap sm)) (shm_shards sm) (shm_shardsByID sm) (u64 (shm_version sm + 1)) (shm_onChange sm))
  end.

Definition set_end (endKey : string) (s : ShardDescriptor) : ShardDescriptor :=
  mkShard (sd_ShardID s) (sd_StartKey s) endKey (sd_RaftGroup s) (sd_Replicas s) (sd_Leader s) (u64 (sd_Version s + 1)).

Definition start_of (heap : list ShardDescriptor) (p : nat) : string :=
  match heap !! p with Some s => sd_StartKey s | None => EmptyString end.

Section sorted.
  Context `{SortSlice}.

(** [Split]: the two shards, the new map and the callbacks it starts. *)
Definition Split (shardID : Z) (splitKey : string) (newGroupID : Z) (newReplicas : list ReplicaDescriptor) (sm : ShardMap) :
    option ((ShardError + nat * nat) * ShardMap * list nat) :=
  match shm_shardsByID sm !! shardID with
  | None => Some (inl ErrShardNotFound, sm, [])
  | Some p =>
      original ← shm_heap sm !! p;
      if negb (ContainsKey splitKey original) then Some (inl ErrSplitKeyOutside, sm, [])
      else
        let newShardID := zlen (shm_shards sm) in
        let newShard := mkShard newShardID splitKey (sd_EndKey original) newGroupID newReplicas EmptyString 1 in
        let q := length (shm_heap sm) in
        let heap := <[p := set_end splitKey original]> (shm_heap sm) ++ [newShard] in
        let shards := sort_Slice (fun a b => start_of heap a <?s start_of heap b) (shm_shards sm ++ [q]) in
        Some (inr (p, q),
              mkShardMap heap shards (<[newShardID := q]> (shm_shardsByID sm)) (u64 (shm_version sm + 1)) (shm_onChange sm),
              shm_onChange sm)
  end.

Definition id_of (heap : list ShardDescriptor) (p : nat) : option Z := sd_ShardID <$> heap !! p.

(** With no shards left out, the capacity [len(sm.shards)-1] is not negative. *)
Definition Merge (shard1ID shard2ID : Z) (sm : ShardMap) : option ((ShardError + nat) * ShardMap) :=
  match shm_shardsByID sm !! shard1ID, shm_shardsByID sm !! shard2ID with
  | Some p1, Some p2 =>
      s1 ← shm_heap sm !! p1;
      s2 ← shm_heap sm !! p2;
      if negb (sd_EndKey s1 =?s sd_StartKey s2) then Some (inl ErrNotAdjacent, sm)
      else
        let heap := <[p1 := set_end (sd_EndKey s2) s1]> (shm_heap sm) in
        if (length (shm_shards sm) =? 0)%nat then None
        else
          let newShards := List.filter (fun p => negb (bool_decide (id_of heap p = Some shard2ID))) (shm_shards sm) in
          Some (inr p1, mkShardMap heap newShards (delete shard2ID (shm_shardsByID sm)) (u64 (shm_version sm + 1)) (shm_onChange sm))
  | _, _ => Some (inl ErrShardNotFound, sm)
  end.

Definition Version (sm : ShardMap) : Z := shm_version sm.
Definition All (sm : ShardMap) : list nat := shm_shards sm.
Definition OnChange (fn : nat) (sm : ShardMap) : ShardMap :=
  mkShardMap (shm_heap sm) (shm_shards sm) (shm_shardsByID sm) (shm_version sm) (shm_onChange sm ++ [fn]).

(** ** Runs *)

Inductive shard_op :=
| SUpdateLeader (shardID : Z) (leaderNodeID : string)
| SSplit (shardID : Z) (splitKey : string) (newGroupID : Z) (newReplicas : list ReplicaDescriptor)
| SMerge (shard1ID shard2ID : Z).

Definition shard_step (o : shard_op) (sm : ShardMap) : option ShardMap :=
  match o with
  | SUpdateLeader id leader => UpdateLeader id leader sm
  | SSplit id key group replicas => '(_, sm, _) ← Split id key group replicas sm; Some sm
  | SMerge id1 id2 => '(_, sm) ← Merge id1 id2 sm; Some sm
  end.

Definition shard_run (ops : list shard_op) (sm : ShardMap) : option ShardMap := for_each shard_step ops sm.

(** ** Tilings of the key space *)

(** The ranges of [ds] follow each other from [start] to the end of the key space. *)
Fixpoint tiles (start : string) (ds : list ShardDescriptor) : Prop :=
  match ds with
  | [] => False
  | d :: ds =>
      sd_StartKey d = start /\
      match ds with [] => sd_EndKey d = EmptyString | _ => str_lt start (sd_EndKey d) /\ tiles (sd_EndKey d) ds end
  end.

Lemma str_lt_le_trans a b c : str_lt a b -> str_le b c -> str_lt a c.
Proof. intros Hab [Hbc| ->]%str_leb_le; [by trans b|done]. Qed.

Lemma str_le_lt_trans a b c : str_le a b -> str_lt b c -> str_lt a c.
Proof. intros [Hab| ->]%str_leb_le Hbc; [by trans b|done]. Qed.

Lemma str_lt_not_empty a b : str_lt a b -> b <> EmptyString.
Proof. intros Hab ->. by destruct a. Qed.

Lemma str_le_empty a : str_le EmptyString a.
Proof. by destruct a. Qed.

Lemma str_lt_le a b : str_lt a b -> str_le a b.
Proof. intros Hab. apply str_leb_le. by left. Qed.

Lemma tiles_starts ds : forall s d, tiles s ds -> d ∈ ds -> str_le s (sd_StartKey d).
Proof.
  induction ds as [|x ds IH]; intros s d Ht Hd; [by apply elem_of_nil in Hd|]. destruct Ht as [<- Ht].
  apply elem_of_cons in Hd as [->|Hd]; [apply str_leb_refl|]. destruct ds as [|y ds]; [by apply elem_of_nil in Hd|].
  destruct Ht as [Hlt Ht]. pose proof (IH _ _ Ht Hd). apply str_lt_le. by eapply str_lt_le_trans.
Qed.

Lemma contains_true key d : str_le (sd_StartKey d) key -> sd_EndKey d = EmptyString \/ str_lt key (sd_EndKey d) -> ContainsKey key d = true.
Proof.
  intros Hs He. unfold ContainsKey. rewrite str_ltb_leb Hs andb_false_r.
  destruct He as [->|He]; [done|]. apply str_leb_lt in He. by rewrite He andb_false_r.
Qed.

Lemma contains_before key d : sd_EndKey d <> EmptyString -> str_le (sd_EndKey d) key -> ContainsKey key d = false.
Proof.
  intros Hne He. unfold ContainsKey. destruct (_ && (key <?s _)); [done|]. by rewrite He (proj2 (String.eqb_neq _ _) Hne).
Qed.

Lemma contains_after key d : str_lt key (sd_StartKey d) -> ContainsKey key d = false.
Proof.
  intros Hs. unfold ContainsKey. pose proof (str_lt_not_empty _ _ Hs) as Hne. rewrite (proj2 (String.eqb_neq _ _) Hne). cbn [negb andb].
  by rewrite Hs.
Qed.

(** Every key has one owner, the last range that does not start after it. *)
Lemma tiles_owner key ds : forall s, tiles s ds -> str_le s key ->
  exists l1 d l2, ds = l1 ++ d :: l2 /\ ContainsKey key d = true /\ str_le (sd_StartKey d) key /\
    Forall (fun x => str_le (sd_StartKey x) key /\ str_le (sd_EndKey x) key /\ sd_EndKey x <> EmptyString) l1 /\
    Forall (fun x => str_lt key (sd_StartKey x)) l2.
Proof.
  induction ds as [|d ds IH]; intros s Ht Hs; [done|]. destruct Ht as [<- Ht]. destruct ds as [|e ds].
  { exists [], d, []. split_and!; try done. apply contains_true; [done|by left]. }
  destruct Ht as [Hlt Ht]. destruct (String.leb (sd_EndKey d) key) eqn:Hend.
  - destruct (IH _ Ht Hend) as (l1 & x & l2 & -> & Hc & Hx & H1 & H2). exists (d :: l1), x, l2. split_and!; try done.
    constructor; [|done]. split_and!; try done. by eapply str_lt_not_empty.
  - apply str_leb_lt in Hend. exists [], d, (e :: ds). split_and!; try done; [by apply contains_true; [|right]|].
    apply Forall_forall. intros x Hx. eapply str_lt_le_trans; [done|]. by eapply tiles_starts.
Qed.

Lemma tiles_replace l1 d l2 d' : forall s, tiles s (l1 ++ d :: l2) ->
  sd_StartKey d' = sd_StartKey d -> sd_EndKey d' = sd_EndKey d -> tiles s (l1 ++ d' :: l2).
Proof.
  induction l1 as [|x l1 IH]; intros s Ht Hs He.
  - destruct Ht as [<- Ht]. split; [done|]. rewrite He. done.
  - destruct Ht as [Hx Ht]. split; [done|]. destruct l1 as [|y l1]; destruct Ht as [Hlt Ht]; (split; [done|]); by apply IH.
Qed.

Lemma tiles_split l1 d l2 d' n k : forall s, tiles s (l1 ++ d :: l2) ->
  sd_StartKey d' = sd_StartKey d -> sd_EndKey d' = k -> sd_StartKey n = k -> sd_EndKey n = sd_EndKey d ->
  str_lt (sd_StartKey d) k -> sd_EndKey d = EmptyString \/ str_lt k (sd_EndKey d) -> tiles s (l1 ++ d' :: n :: l2).
Proof.
  induction l1 as [|x l1 IH]; intros s Ht Hs He Hns Hne Hlt Hk.
  - destruct Ht as [<- Ht]. split; [done|]. rewrite He. split; [done|]. split; [done|]. rewrite Hne.
    destruct l2; [done|]. destruct Ht as [Hde Ht]. split; [|done]. destruct Hk as [Hk|Hk]; [|done].
    by apply str_lt_not_empty in Hde.
  - destruct Ht as [Hx Ht]. split; [done|]. destruct l1 as [|y l1]; destruct Ht as [Hlt' Ht]; (split; [done|]); by apply IH.
Qed.

Lemma tiles_merge l1 a b l2 a' : forall s, tiles s (l1 ++ a :: b :: l2) ->
  sd_StartKey a' = sd_StartKey a -> sd_EndKey a' = sd_EndKey b -> tiles s (l1 ++ a' :: l2).
Proof.
  induction l1 as [|x l1 IH]; intros s Ht Hs He.
  - destruct Ht as [<- [Hab [Hb Ht]]]. split; [done|]. rewrite He. destruct l2; [done|]. destruct Ht as [Hlt Ht]. split; [|done].
    rewrite -Hb in Hlt. by trans (sd_StartKey b); [rewrite Hb|].
  - destruct Ht as [Hx Ht]. split; [done|]. destruct l1 as [|y l1]; destruct Ht as [Hlt' Ht]; (split; [done|]); by apply IH.
Qed.

(** Start keys increase strictly. *)
Lemma tiles_sorted ds : forall s, tiles s ds -> StronglySorted (fun a b => str_lt (sd_StartKey a) (sd_StartKey b)) ds.
Proof.
  induction ds as [|d ds IH]; intros s Ht; [constructor|]. destruct Ht as [<- Ht]. destruct ds as [|e ds]; [repeat constructor|].
  destruct Ht as [Hlt Ht]. constructor; [by eapply IH|]. apply Forall_forall. intros x Hx. eapply str_lt_le_trans; [done|].
  by eapply tiles_starts.
Qed.

(** A range that ends where another one starts is followed by it. *)
Lemma tiles_next ds : forall s i a, tiles s ds -> ds !! i = Some a -> sd_EndKey a <> EmptyString ->
  exists c, ds !! S i = Some c /\ sd_StartKey c = sd_EndKey a.
Proof.
  induction ds as [|d ds IH]; intros s i a Ht Hi Hne; [done|]. destruct Ht as [<- Ht].
  destruct ds as [|e ds]; [destruct i; simplify_eq/=; done|]. destruct Ht as [Hlt Ht].
  destruct i as [|i]; simplify_eq/=; [|by eapply IH]. exists e. split; [done|]. by destruct Ht.
Qed.

Lemma tiles_adjacent ds s i j a b : tiles s ds -> ds !! i = Some a -> ds !! j = Some b ->
  sd_EndKey a = sd_StartKey b -> sd_EndKey a <> EmptyString -> j = S i.
Proof.
  intros Ht Hi Hj Hab Hne. destruct (tiles_next _ _ _ _ Ht Hi Hne) as (c & Hc & Hca). apply tiles_sorted in Ht.
  destruct (Nat.lt_trichotomy j (S i)) as [Hlt|[Heq|Hlt]]; [|done|]; exfalso; apply (irreflexivity str_lt (sd_EndKey a)).
  - rewrite {1}Hab -Hca. by eapply (StronglySorted_lookup_lt (fun a b => str_lt (sd_StartKey a) (sd_StartKey b))).
  - rewrite {2}Hab -Hca. by eapply (StronglySorted_lookup_lt (fun a b => str_lt (sd_StartKey a) (sd_StartKey b))).
Qed.

(** ** The invariant of a shard map *)

Definition points (heap : list ShardDescriptor) : list nat -> list ShardDescriptor -> Prop :=
  Forall2 (fun p d => heap !! p = Some d).

Record shard_inv (sm : ShardMap) (ds : list ShardDescriptor) : Prop := {
  si_points : points (shm_heap sm) (shm_shards sm) ds;
  si_tiles : tiles EmptyString ds;
  si_nodup : NoDup (shm_shards sm);
  si_byID : forall id p, shm_shardsByID sm !! id = Some p <-> p ∈ shm_shards sm /\ id_of (shm_heap sm) p = Some id;
}.

Lemma points_shard_at sm ds i : points (shm_heap sm) (shm_shards sm) ds -> shard_at sm i = ds !! i.
Proof.
  intros Hp. unfold shard_at. destruct (shm_shards sm !! i) as [p|] eqn:Hi; cbn [mbind option_bind].
  - by destruct (Forall2_lookup_l _ _ _ _ _ Hp Hi) as (d & -> & Hd).
  - symmetry. apply lookup_ge_None. apply lookup_ge_None in Hi. by rewrite -(Forall2_length _ _ _ Hp).
Qed.

Lemma find_index_owner sm l1 d l2 key :
  points (shm_heap sm) (shm_shards sm) (l1 ++ d :: l2) ->
  Forall (fun x => str_le (sd_StartKey x) key) (l1 ++ [d]) -> Forall (fun x => str_lt key (sd_StartKey x)) l2 ->
  find_index key sm = length l1.
Proof.
  intros Hp H1 H2. unfold find_index. set (f := fun i => _).
  assert (Hf : forall i, (i < length (l1 ++ d :: l2))%nat -> f i = bool_decide (length l1 < i)%nat).
  { intros i Hi. unfold f. rewrite (points_shard_at _ _ _ Hp). rewrite cons_middle app_assoc in Hi |- *. rewrite length_app in Hi.
    destruct (decide (i < length (l1 ++ [d]))%nat) as [Hlt|Hge].
    - rewrite lookup_app_l //. destruct (lookup_lt_is_Some_2 _ _ Hlt) as [x Hx]. rewrite Hx.
      rewrite Forall_forall in H1. specialize (H1 x ltac:(by eapply list_elem_of_lookup_2)). rewrite str_ltb_leb H1.
      rewrite bool_decide_false //. rewrite length_app in Hlt. simpl in Hlt. lia.
    - rewrite lookup_app_r; [|lia]. destruct (lookup_lt_is_Some_2 l2 (i - length (l1 ++ [d]))) as [x Hx]; [lia|]. rewrite Hx.
      rewrite Forall_forall in H2. rewrite (H2 x ltac:(by eapply list_elem_of_lookup_2)) bool_decide_true //.
      rewrite length_app in Hge. simpl in Hge. lia. }
  rewrite (Forall2_length _ _ _ Hp). pose proof (length_app l1 (d :: l2)) as Hlen. simpl in Hlen.
  rewrite (sort_Search_eq _ _ (S (length l1))).
  - destruct (Z.ltb_spec (Z.of_nat (S (length l1)) - 1) 0); lia.
  - intros a b Hab. rewrite !Hf; [|lia..]. rewrite !bool_decide_eq_true. lia.
  - lia.
  - intros a Ha. rewrite Hf; [|lia]. rewrite bool_decide_eq_false. lia.
  - intros Ha. rewrite Hf; [|lia]. rewrite bool_decide_eq_true. lia.
Qed.

(** A range overlaps a shard. *)
Definition ends_after (startKey : string) (d : ShardDescriptor) : bool := (sd_EndKey d =?s EmptyString) || (startKey <?s sd_EndKey d).

Definition overlaps (startKey endKey : string) (d : ShardDescriptor) : bool :=
  ends_after startKey d && ((endKey =?s EmptyString) || (sd_StartKey d <?s endKey)).

Definition overlaps_at (heap : list ShardDescriptor) (startKey endKey : string) (p : nat) : bool :=
  match heap !! p with Some d => overlaps startKey endKey d | None => false end.

Lemma tiles_nonempty ds : forall s d, tiles s ds -> d ∈ ds -> sd_EndKey d = EmptyString \/ str_lt (sd_StartKey d) (sd_EndKey d).
Proof.
  induction ds as [|x ds IH]; intros s d Ht Hd; [by apply elem_of_nil in Hd|]. destruct Ht as [<- Ht]. destruct ds as [|y ds].
  - apply list_elem_of_singleton in Hd as ->. by left.
  - destruct Ht as [Hlt Ht]. apply elem_of_cons in Hd as [->|Hd]; [by right|]. by eapply IH.
Qed.

Lemma range_loop_filter heap startKey endKey k ds :
  points heap k ds -> StronglySorted (fun a b => str_lt (sd_StartKey a) (sd_StartKey b)) ds -> Forall (fun d => ends_after startKey d = true) ds ->
  range_loop heap endKey k = Some (List.filter (overlaps_at heap startKey endKey) k).
Proof.
  intros Hp. induction Hp as [|p d k ds Hd Hp IH]; intros Hs He; [done|]. apply StronglySorted_inv in Hs as [Hs Hds].
  apply Forall_cons in He as [Hed He]. cbn [range_loop List.filter]. unfold overlaps_at at 1. rewrite Hd. cbn [mbind option_bind].
  unfold overlaps at 1. rewrite Hed str_ltb_leb. cbn [andb].
  destruct (endKey =?s EmptyString) eqn:Hend; cbn [negb andb orb]; [by rewrite IH|].
  destruct (endKey <=?s sd_StartKey d) eqn:Hle; cbn [negb]; [|by rewrite IH]. rewrite bfilter_none //.
  intros q [i Hq]%list_elem_of_lookup. destruct (Forall2_lookup_l _ _ _ _ _ Hp Hq) as (e & Hi & Hqe). unfold overlaps_at, overlaps.
  rewrite Hqe Hend str_ltb_leb. rewrite Forall_forall in Hds. specialize (Hds e ltac:(by eapply list_elem_of_lookup_2)).
  by rewrite (str_leb_trans _ _ _ Hle (str_lt_le _ _ Hds)) andb_false_r.
Qed.

Section invariant.
  Context {sm : ShardMap} {ds : list ShardDescriptor} (Hinv : shard_inv sm ds).

(** A shard of the map, with its place in the slice. *)
Lemma inv_split p : p ∈ shm_shards sm ->
  exists k1 k2 l1 d l2, shm_shards sm = k1 ++ p :: k2 /\ ds = l1 ++ d :: l2 /\ shm_heap sm !! p = Some d /\
    points (shm_heap sm) k1 l1 /\ points (shm_heap sm) k2 l2 /\ p ∉ k1 /\ p ∉ k2.
Proof.
  destruct Hinv. intros (k1 & k2 & Hk)%list_elem_of_split. rewrite Hk in si_points0, si_nodup0.
  apply Forall2_app_inv_l in si_points0 as (l1 & l2' & Hl1 & Hl2 & ->). apply Forall2_cons_inv_l in Hl2 as (d & l2 & Hd & Hl2 & ->).
  apply NoDup_app in si_nodup0 as (_ & Hn1 & Hn2). apply NoDup_cons in Hn2 as [Hn2 _].
  exists k1, k2, l1, d, l2. split_and!; try done. intros Hp. apply (Hn1 p Hp). left.
Qed.

Lemma inv_length : length (shm_shards sm) <> 0%nat.
Proof. destruct Hinv. rewrite (Forall2_length _ _ _ si_points0). by destruct ds. Qed.

Lemma lookup_owner key : exists k1 p k2 d, shm_shards sm = k1 ++ p :: k2 /\ find_index key sm = length k1 /\
  shm_heap sm !! p = Some d /\ ContainsKey key d = true /\
  (forall q e, q ∈ k1 -> shm_heap sm !! q = Some e -> str_le (sd_EndKey e) key /\ sd_EndKey e <> EmptyString) /\
  (forall q e, q ∈ k2 -> shm_heap sm !! q = Some e -> str_lt key (sd_StartKey e)) /\
  (forall q e, q ∈ shm_shards sm -> shm_heap sm !! q = Some e -> ContainsKey key e = true -> q = p).
Proof.
  pose proof Hinv as []. destruct (tiles_owner key ds _ si_tiles0 (str_le_empty key)) as (l1 & d & l2 & Hds & Hc & Hd & H1 & H2).
  rewrite Hds in si_points0. pose proof si_points0 as Hp.
  apply Forall2_app_inv_r in Hp as (k1 & k2' & Hk1 & Hk2 & Hk). apply Forall2_cons_inv_r in Hk2 as (p & k2 & Hpd & Hk2 & ->).
  exists k1, p, k2, d. split_and!; try done.
  - rewrite (find_index_owner sm l1 d l2) //; [by rewrite (Forall2_length _ _ _ Hk1)|]. apply Forall_app. split; [|by constructor].
    eapply Forall_impl; [exact H1|]. by intros x [? _].
  - intros q e [i Hq]%list_elem_of_lookup He. destruct (Forall2_lookup_l _ _ _ _ _ Hk1 Hq) as (x & Hx & Hqx). rewrite Hqx in He. injection He as <-.
    rewrite Forall_forall in H1. by apply (H1 x), list_elem_of_lookup_2 with i.
  - intros q e [i Hq]%list_elem_of_lookup He. destruct (Forall2_lookup_l _ _ _ _ _ Hk2 Hq) as (x & Hx & Hqx). rewrite Hqx in He. injection He as <-.
    rewrite Forall_forall in H2. by apply (H2 x), list_elem_of_lookup_2 with i.
  - intros q e Hq He Hcq. rewrite Hk in Hq. apply elem_of_app in Hq as [Hq|[->|Hq]%elem_of_cons]; [|done|]; exfalso.
    + apply list_elem_of_lookup in Hq as [i Hq]. destruct (Forall2_lookup_l _ _ _ _ _ Hk1 Hq) as (x & Hx & Hqx). rewrite Hqx in He. injection He as <-.
      rewrite Forall_forall in H1. destruct (H1 x) as (_ & Hle & Hne); [by eapply list_elem_of_lookup_2|]. by rewrite contains_before in Hcq.
    + apply list_elem_of_lookup in Hq as [i Hq]. destruct (Forall2_lookup_l _ _ _ _ _ Hk2 Hq) as (x & Hx & Hqx). rewrite Hqx in He. injection He as <-.
      rewrite Forall_forall in H2. rewrite contains_after // in Hcq. apply H2. by eapply list_elem_of_lookup_2.
Qed.

Lemma Lookup_spec key : exists p d, Lookup key sm = Some (inr p) /\ p ∈ shm_shards sm /\ shm_heap sm !! p = Some d /\
  ContainsKey key d = true /\
  (forall q e, q ∈ shm_shards sm -> shm_heap sm !! q = Some e -> ContainsKey key e = true -> q = p).
Proof.
  destruct (lookup_owner key) as (k1 & p & k2 & d & Hk & Hf & Hp & Hc & _ & _ & Huniq). exists p, d. unfold Lookup.
  rewrite (proj2 (Nat.eqb_neq _ _) inv_length) Hf {1}Hk list_lookup_middle //. cbn [mbind option_bind]. rewrite Hp. cbn [mbind option_bind].
  rewrite Hc. split_and!; try done. rewrite Hk. apply elem_of_app. right. left.
Qed.

Lemma LookupRange_spec startKey endKey :
  LookupRange startKey endKey sm = Some (inr (List.filter (overlaps_at (shm_heap sm) startKey endKey) (shm_shards sm))).
Proof.
  destruct (lookup_owner startKey) as (k1 & p & k2 & d & Hk & Hf & Hp & Hc & H1 & H2 & _). unfold LookupRange.
  rewrite (proj2 (Nat.eqb_neq _ _) inv_length) Hf Hk drop_app_length List.filter_app.
  rewrite (bfilter_none _ k1).
  2: { intros q Hq. unfold overlaps_at. destruct (shm_heap sm !! q) as [e|] eqn:He; [|done]. destruct (H1 q e Hq He) as [Hle Hne].
       unfold overlaps, ends_after. by rewrite (proj2 (String.eqb_neq _ _) Hne) str_ltb_leb Hle. }
  pose proof Hinv as []. rewrite Hk in si_points0. apply Forall2_app_inv_l in si_points0 as (l1 & l2 & Hl1 & Hl2 & Hds).
  rewrite (range_loop_filter _ startKey _ _ l2 Hl2); [done| |].
  - rewrite Hds in si_tiles0. apply tiles_sorted, StronglySorted_app in si_tiles0. tauto.
  - apply Forall2_cons_inv_l in Hl2 as (d' & l2' & Hd' & Hl2 & ->). rewrite Hp in Hd'. injection Hd' as <-. constructor.
    + unfold ContainsKey in Hc. destruct (_ && (startKey <?s _)); [done|]. unfold ends_after.
      destruct (sd_EndKey d =?s EmptyString); [done|]. simpl in *. rewrite str_ltb_leb. by destruct (_ <=?s _).
    + apply Forall_forall. intros e He. assert (Hin : e ∈ ds) by (rewrite Hds; apply elem_of_app; right; by right).
      apply (tiles_nonempty _ _ _ si_tiles0) in Hin. apply list_elem_of_lookup in He as [i He].
      destruct (Forall2_lookup_r _ _ _ _ _ Hl2 He) as (q & Hq & Hqe). pose proof (H2 q e ltac:(by eapply list_elem_of_lookup_2) Hqe) as Hlt.
      unfold ends_after. apply orb_true_iff. destruct Hin as [->|Hin]; [by left|right]. change (str_lt startKey (sd_EndKey e)). by trans (sd_StartKey e).
Qed.

End invariant.

(** ** Steps keep the invariant *)

Lemma points_insert heap k l p d : points heap k l -> p ∉ k -> points (<[p := d]> heap) k l.
Proof.
  intros Hp Hn. induction Hp as [|q e k l Hq Hp IH]; [constructor|]. apply not_elem_of_cons in Hn as [Hne Hn].
  constructor; [|by apply IH]. by rewrite list_lookup_insert_ne.
Qed.

Lemma points_snoc heap k l d : points heap k l -> points (heap ++ [d]) k l.
Proof. intros Hp. eapply Forall2_impl; [exact Hp|]. intros p x Hx. by apply lookup_app_l_Some. Qed.

Lemma id_of_insert heap p d d' q : heap !! p = Some d -> sd_ShardID d' = sd_ShardID d -> id_of (<[p := d']> heap) q = id_of heap q.
Proof.
  intros Hp Hid. unfold id_of. destruct (decide (q = p)) as [->|Hne]; [|by rewrite list_lookup_insert_ne].
  rewrite list_lookup_insert_eq; [|by eapply lookup_lt_Some]. by rewrite Hp /= Hid.
Qed.

Lemma byID_heap sm ds id p : shard_inv sm ds -> shm_shardsByID sm !! id = Some p ->
  p ∈ shm_shards sm /\ exists d, shm_heap sm !! p = Some d /\ sd_ShardID d = id.
Proof.
  intros [] [Hp Hid]%si_byID0. split; [done|]. unfold id_of in Hid. destruct (shm_heap sm !! p) as [d|]; [|done].
  injection Hid as Hid. by exists d.
Qed.

Lemma UpdateLeader_inv sm ds id leader : shard_inv sm ds ->
  exists sm' ds', UpdateLeader id leader sm = Some sm' /\ shard_inv sm' ds'.
Proof.
  intros Hinv. unfold UpdateLeader. destruct (shm_shardsByID sm !! id) as [p|] eqn:Hid; [|by exists sm, ds].
  destruct (byID_heap _ _ _ _ Hinv Hid) as (Hin & d & Hd & Hdid). rewrite Hd. cbn [mbind option_bind].
  destruct (inv_split Hinv p Hin) as (k1 & k2 & l1 & d0 & l2 & Hk & Hds & Hd0 & H1 & H2 & Hn1 & Hn2). rewrite Hd in Hd0. injection Hd0 as <-.
  destruct Hinv. set (d' := mkShard _ _ _ _ _ _ _). eexists _, (l1 ++ d' :: l2). split; [done|]. constructor; cbn [shm_heap shm_shards shm_shardsByID].
  - rewrite Hk. apply Forall2_app; [by apply points_insert|]. constructor; [|by apply points_insert].
    rewrite list_lookup_insert_eq //. by eapply lookup_lt_Some.
  - rewrite Hds in si_tiles0. by eapply tiles_replace.
  - done.
  - intros id' q. rewrite si_byID0 (id_of_insert _ _ d) //.
Qed.

(** A split key inside the shard but not at its start, and an id that is free. *)
Definition split_safe (shardID : Z) (splitKey : string) (sm : ShardMap) : bool :=
  match shm_shardsByID sm !! shardID ≫= (shm_heap sm !!.) with
  | Some d => negb (ContainsKey splitKey d) || (negb (splitKey =?s sd_StartKey d) && bool_decide (shm_shardsByID sm !! zlen (shm_shards sm) = None))
  | None => true
  end.

Lemma contains_inv key d : ContainsKey key d = true -> str_le (sd_StartKey d) key /\ (sd_EndKey d = EmptyString \/ str_lt key (sd_EndKey d)).
Proof.
  unfold ContainsKey. destruct (_ && (key <?s sd_StartKey d)) eqn:H1; [done|]. destruct (_ && (sd_EndKey d <=?s key)) eqn:H2; [done|].
  intros _. split.
  - apply andb_false_iff in H1 as [H1|H1].
    + apply negb_false_iff, String.eqb_eq in H1 as ->. apply str_le_empty.
    + rewrite str_ltb_leb in H1. by apply negb_false_iff in H1.
  - apply andb_false_iff in H2 as [H2|H2]; [left; by apply negb_false_iff, String.eqb_eq in H2|right]. by apply str_leb_lt in H2.
Qed.

Lemma sort_shards heap k1 p q k2 l :
  points heap (k1 ++ p :: q :: k2) l -> StronglySorted (fun a b => str_lt (sd_StartKey a) (sd_StartKey b)) l ->
  sort_Slice (fun a b => start_of heap a <?s start_of heap b) (k1 ++ p :: k2 ++ [q]) = k1 ++ p :: q :: k2.
Proof.
  intros Hp Hs. set (less := fun a b => _).
  assert (Hstrict : StronglySorted (fun a b => str_lt (start_of heap a) (start_of heap b)) (k1 ++ p :: q :: k2)).
  { revert Hs. induction Hp as [|a d k l Ha Hp IH]; intros Hs; [constructor|]. apply StronglySorted_inv in Hs as [Hs Hl].
    constructor; [by apply IH|]. apply Forall_forall. intros b [i Hb]%list_elem_of_lookup. destruct (Forall2_lookup_l _ _ _ _ _ Hp Hb) as (e & He & Hbe).
    unfold start_of. rewrite Ha Hbe. rewrite Forall_forall in Hl. by apply Hl, list_elem_of_lookup_2 with i. }
  apply (StronglySorted_unique_strong (fun a b => less b a = false)).
  - intros a b Ha Hb Hab Hba. rewrite sort_Slice_perm in Ha.
    assert (Hperm : k1 ++ p :: k2 ++ [q] ≡ₚ k1 ++ p :: q :: k2) by (rewrite (Permutation_app_comm k2 [q]); done).
    rewrite Hperm in Ha. apply list_elem_of_lookup in Ha as [i Hi]. apply list_elem_of_lookup in Hb as [j Hj].
    destruct (Nat.lt_trichotomy i j) as [Hij|[->|Hij]]; [|congruence|]; exfalso.
    + pose proof (StronglySorted_lookup_lt _ _ _ _ _ _ Hstrict Hi Hj Hij). unfold less in Hba. congruence.
    + pose proof (StronglySorted_lookup_lt _ _ _ _ _ _ Hstrict Hj Hi Hij). unfold less in Hab. congruence.
  - apply sort_Slice_sorted. unfold less. apply strict_weak_str.
  - eapply StronglySorted_mono; [|exact Hstrict]. intros a b Hab. unfold less. rewrite str_ltb_leb. by rewrite (str_lt_le _ _ Hab).
  - rewrite sort_Slice_perm (Permutation_app_comm k2 [q]). done.
Qed.

Lemma Split_inv sm ds id key group replicas : shard_inv sm ds -> split_safe id key sm = true ->
  exists r sm' cbs ds', Split id key group replicas sm = Some (r, sm', cbs) /\ shard_inv sm' ds'.
Proof.
  intros Hinv Hsafe. unfold Split, split_safe in *. destruct (shm_shardsByID sm !! id) as [p|] eqn:Hid; [|by eexists _, sm, [], ds].
  destruct (byID_heap _ _ _ _ Hinv Hid) as (Hin & d & Hd & Hdid). cbn [mbind option_bind] in Hsafe. rewrite Hd in Hsafe |- *. cbn [mbind option_bind].
  destruct (ContainsKey key d) eqn:Hc; cbn [negb orb] in Hsafe |- *; [|by eexists _, sm, [], ds].
  apply andb_true_iff in Hsafe as [Hkey Hfree]. apply negb_true_iff in Hkey. apply bool_decide_eq_true in Hfree.
  destruct (inv_split Hinv p Hin) as (k1 & k2 & l1 & d0 & l2 & Hk & Hds & Hd0 & H1 & H2 & Hn1 & Hn2). rewrite Hd in Hd0. injection Hd0 as <-.
  destruct (contains_inv _ _ Hc) as [Hle Hend]. pose proof (lookup_lt_Some _ _ _ Hd) as Hplt.
  assert (Hlt : str_lt (sd_StartKey d) key).
  { apply str_leb_le in Hle as [?|Heq]; [done|]. by rewrite Heq String.eqb_refl in Hkey. }
  destruct Hinv. set (d' := set_end key d). set (n := mkShard _ _ _ _ _ _ _). set (heap := <[p := d']> (shm_heap sm) ++ [n]).
  set (q := length (shm_heap sm)).
  assert (Hheap : forall j, (j < q)%nat -> heap !! j = <[p := d']> (shm_heap sm) !! j).
  { intros j Hj. unfold heap. rewrite lookup_app_l // length_insert. done. }
  assert (Hq : heap !! q = Some n) by (unfold heap; rewrite list_lookup_middle // length_insert //).
  assert (Hqn : q ∉ shm_shards sm).
  { intros [i Hi]%list_elem_of_lookup. destruct (Forall2_lookup_l _ _ _ _ _ si_points0 Hi) as (x & _ & Hx). apply lookup_lt_Some in Hx. unfold q in Hx. lia. }
  assert (Hpts : points heap (k1 ++ p :: q :: k2) (l1 ++ d' :: n :: l2)).
  { apply Forall2_app; [by apply points_snoc, points_insert|]. constructor; [|constructor; [done|by apply points_snoc, points_insert]].
    rewrite Hheap // list_lookup_insert_eq //. }
  assert (Htiles : tiles EmptyString (l1 ++ d' :: n :: l2)).
  { rewrite Hds in si_tiles0. by eapply tiles_split. }
  assert (Hsort : sort_Slice (fun a b => start_of heap a <?s start_of heap b) (shm_shards sm ++ [q]) = k1 ++ p :: q :: k2).
  { rewrite Hk -app_assoc. cbn [app]. eapply sort_shards; [exact Hpts|by eapply tiles_sorted]. }
  eexists _, _, _, (l1 ++ d' :: n :: l2). split; [reflexivity|]. constructor; cbn [shm_heap shm_shards shm_shardsByID]; fold heap q; rewrite ?Hsort; try done.
  - assert (k1 ++ p :: q :: k2 ≡ₚ q :: shm_shards sm) as -> by (rewrite Hk; change (k1 ++ p :: q :: k2) with (k1 ++ [p] ++ q :: k2); by rewrite app_assoc -Permutation_middle -app_assoc).
    by apply NoDup_cons.
  - intros id' r. assert (Hel : r ∈ k1 ++ p :: q :: k2 <-> r = q \/ r ∈ shm_shards sm).
    { rewrite Hk !elem_of_app !elem_of_cons. naive_solver. }
    rewrite Hel. destruct (decide (r = q)) as [->|Hrq].
    + unfold id_of at 1. rewrite Hq. cbn [fmap option_fmap option_map]. change (sd_ShardID n) with (zlen (shm_shards sm)).
      destruct (decide (id' = zlen (shm_shards sm))) as [->|Hne]; [rewrite lookup_insert_eq; naive_solver|].
      rewrite lookup_insert_ne //. split; [|intros [_ [= ?]]; congruence]. intros Hx%si_byID0. by destruct Hx.
    + assert (Hido : r ∈ shm_shards sm -> id_of heap r = id_of (shm_heap sm) r).
      { intros [i Hi]%list_elem_of_lookup. destruct (Forall2_lookup_l _ _ _ _ _ si_points0 Hi) as (x & _ & Hx). apply lookup_lt_Some in Hx.
        unfold id_of. rewrite Hheap //. apply (id_of_insert _ _ d d'); done. }
      destruct (decide (id' = zlen (shm_shards sm))) as [->|Hne].
      * rewrite lookup_insert_eq. split; [by intros [= ->]|]. intros [[->|Hr] Hid']; [done|]. rewrite Hido // in Hid'.
        assert (shm_shardsByID sm !! zlen (shm_shards sm) = Some r) by by apply si_byID0. congruence.
      * rewrite lookup_insert_ne // si_byID0. split; [intros [Hr Hx]; rewrite Hido //; auto|]. intros [[->|Hr] Hx]; [done|]. by rewrite Hido in Hx.
Qed.

Lemma inv_adjacent sm ds p1 p2 a b :
  shard_inv sm ds -> p1 ∈ shm_shards sm -> p2 ∈ shm_shards sm -> shm_heap sm !! p1 = Some a -> shm_heap sm !! p2 = Some b ->
  sd_EndKey a = sd_StartKey b -> sd_EndKey a <> EmptyString ->
  exists k1 k2 l1 l2, shm_shards sm = k1 ++ p1 :: p2 :: k2 /\ ds = l1 ++ a :: b :: l2 /\
    points (shm_heap sm) k1 l1 /\ points (shm_heap sm) k2 l2.
Proof.
  intros [] [i Hi]%list_elem_of_lookup [j Hj]%list_elem_of_lookup Ha Hb Hab Hne.
  destruct (Forall2_lookup_l _ _ _ _ _ si_points0 Hi) as (x & Hx & Hxa). rewrite Ha in Hxa. injection Hxa as <-.
  destruct (Forall2_lookup_l _ _ _ _ _ si_points0 Hj) as (y & Hy & Hyb). rewrite Hb in Hyb. injection Hyb as <-.
  pose proof (tiles_adjacent _ _ _ _ _ _ si_tiles0 Hx Hy Hab Hne) as ->.
  exists (take i (shm_shards sm)), (drop (S (S i)) (shm_shards sm)), (take i ds), (drop (S (S i)) ds).
  split_and!; [|by rewrite -(drop_S _ _ _ Hy) take_drop_middle|by apply Forall2_take|by apply Forall2_drop].
  by rewrite -(drop_S _ _ _ Hj) take_drop_middle.
Qed.

(** The first shard does not end the key space. *)
Definition merge_safe (shard1ID : Z) (sm : ShardMap) : bool :=
  match shm_shardsByID sm !! shard1ID ≫= (shm_heap sm !!.) with Some d => negb (sd_EndKey d =?s EmptyString) | None => true end.

Lemma Merge_inv sm ds id1 id2 : shard_inv sm ds -> merge_safe id1 sm = true ->
  exists r sm' ds', Merge id1 id2 sm = Some (r, sm') /\ shard_inv sm' ds'.
Proof.
  intros Hinv Hsafe. unfold Merge, merge_safe in *. destruct (shm_shardsByID sm !! id1) as [p1|] eqn:Hid1; [|by eexists _, sm, ds].
  destruct (shm_shardsByID sm !! id2) as [p2|] eqn:Hid2; [|by eexists _, sm, ds].
  destruct (byID_heap _ _ _ _ Hinv Hid1) as (Hin1 & a & Ha & Haid). destruct (byID_heap _ _ _ _ Hinv Hid2) as (Hin2 & b & Hb & Hbid).
  cbn [mbind option_bind] in Hsafe. rewrite Ha in Hsafe |- *. cbn [mbind option_bind]. rewrite Hb. cbn [mbind option_bind].
  destruct (sd_EndKey a =?s sd_StartKey b) eqn:Hab; cbn [negb]; [|by eexists _, sm, ds]. apply String.eqb_eq in Hab.
  apply negb_true_iff, String.eqb_neq in Hsafe. rewrite (proj2 (Nat.eqb_neq _ _) (inv_length Hinv)).
  destruct (inv_adjacent sm ds p1 p2 a b Hinv) as (k1 & k2 & l1 & l2 & Hk & Hds & H1 & H2); try done.
  destruct Hinv. set (a' := set_end (sd_EndKey b) a). set (heap := <[p1 := a']> (shm_heap sm)).
  pose proof si_nodup0 as Hnd. rewrite Hk in Hnd. apply NoDup_app in Hnd as (Hnd1 & Hn12 & Hnd2).
  apply NoDup_cons in Hnd2 as [Hp1 Hnd2]. apply not_elem_of_cons in Hp1 as [Hp12 Hp1]. apply NoDup_cons in Hnd2 as [Hp2 Hnd2].
  assert (Hp1k : p1 ∉ k1) by (intros Hx; apply (Hn12 _ Hx); left). assert (Hp2k : p2 ∉ k1) by (intros Hx; apply (Hn12 _ Hx); right; left).
  assert (Hido : forall q, id_of heap q = id_of (shm_heap sm) q) by (intros q; by apply (id_of_insert _ _ a a')).
  assert (Hkeep : forall q, q ∈ shm_shards sm -> q <> p2 -> negb (bool_decide (id_of heap q = Some id2)) = true).
  { intros q Hq Hne. apply negb_true_iff, bool_decide_eq_false. rewrite Hido. intros Hx.
    assert (shm_shardsByID sm !! id2 = Some q) by by apply si_byID0. congruence. }
  assert (Hfilter : List.filter (fun p => negb (bool_decide (id_of heap p = Some id2))) (shm_shards sm) = k1 ++ p1 :: k2).
  { rewrite Hk List.filter_app (bfilter_all _ k1). 2: { intros q Hq. apply Hkeep; [rewrite Hk; apply elem_of_app; by left|]. by intros ->. }
    f_equal. cbn [List.filter]. rewrite Hkeep // bool_decide_true; [|by rewrite Hido; apply si_byID0]. cbn [negb]. f_equal. apply bfilter_all.
    intros q Hq. apply Hkeep; [rewrite Hk; apply elem_of_app; right; by do 2 right|]. by intros ->. }
  eexists _, _, (l1 ++ a' :: l2). split; [reflexivity|]. fold heap. rewrite Hfilter. constructor; cbn [shm_heap shm_shards shm_shardsByID].
  - apply Forall2_app; [by apply points_insert|]. constructor; [|by apply points_insert]. apply list_lookup_insert_eq. by eapply lookup_lt_Some.
  - rewrite Hds in si_tiles0. by eapply tiles_merge.
  - apply NoDup_app. split_and!; [done| |by apply NoDup_cons]. intros q Hq [->|Hx]%elem_of_cons; [done|]. apply (Hn12 _ Hq). by do 2 right.
  - intros id q. rewrite Hido. rewrite lookup_delete_Some si_byID0 Hk !elem_of_app !elem_of_cons. split.
    + intros (Hne & Hq & Hx). split; [|done]. destruct Hq as [?|[?|[->|?]]]; auto. apply si_byID0 in Hid2 as [_ Hid2]. congruence.
    + intros (Hq & Hx). split_and!; [|naive_solver|done]. intros <-. assert (q <> p2) by (destruct Hq as [?|[?|?]]; congruence).
      assert (shm_shardsByID sm !! id2 = Some q); [|congruence]. apply si_byID0. split; [|done]. rewrite Hk !elem_of_app !elem_of_cons. naive_solver.
Qed.

(** ** Initialization *)

Lemma tiles_of_index ds : forall f, ds <> [] ->
  (forall j d, ds !! j = Some d -> sd_StartKey d = f j /\ sd_EndKey d = if (S j <? length ds)%nat then f (S j) else EmptyString) ->
  (forall j, (S j < length ds)%nat -> str_lt (f j) (f (S j))) -> tiles (f 0%nat) ds.
Proof.
  induction ds as [|d ds IH]; intros f Hne Hd Hf; [done|]. destruct (Hd 0%nat d eq_refl) as [Hs He]. split; [done|].
  destruct ds as [|e ds]; [done|]. cbn [length Nat.ltb Nat.leb] in He. rewrite He. split; [apply Hf; simpl; lia|].
  apply (IH (fun j => f (S j))); [done| |].
  - intros j x Hx. apply (Hd (S j)) in Hx as [? Hx]. split; [done|]. rewrite Hx. done.
  - intros j Hj. apply Hf. simpl in *. lia.
Qed.

Lemma runes_sorted : forallb (fun a => forallb (fun b => implb (a <? b) (string_of_rune a <?s string_of_rune b)) (seqZ 0 128)) (seqZ 0 128) = true.
Proof. vm_compute. reflexivity. Qed.

Lemma string_of_rune_lt a b : 0 <= a -> a < b -> b < 128 -> str_lt (string_of_rune a) (string_of_rune b).
Proof.
  intros Ha Hab Hb. pose proof runes_sorted as Hs. rewrite forallb_forall in Hs. specialize (Hs a). rewrite -list_elem_of_In elem_of_seqZ in Hs.
  specialize (Hs ltac:(lia)). rewrite forallb_forall in Hs. specialize (Hs b). rewrite -list_elem_of_In elem_of_seqZ in Hs.
  specialize (Hs ltac:(lia)). rewrite (proj2 (Z.ltb_lt _ _) Hab) in Hs. done.
Qed.

(** The boundary before shard [j] of [n]. *)
Definition boundary (n : Z) (j : nat) : string :=
  if (j =? 0)%nat then EmptyString else string_of_rune (33 + Z.quot (i64 (93 * Z.of_nat j)) n).

Lemma computeSplitPoints_lookup n j : 1 <= n <= 93 -> computeSplitPoints n !! j = if (S j <? Z.to_nat n)%nat then Some (boundary n (S j)) else None.
Proof.
  intros Hn. unfold computeSplitPoints. destruct (Z.leb_spec n 1).
  { rewrite lookup_nil (proj2 (Nat.ltb_ge _ _)) //. lia. }
  destruct (Nat.ltb_spec (S j) (Z.to_nat n)) as [Hj|Hj].
  - change (map ?f ?l) with (f <$> l). rewrite list_lookup_fmap lookup_seq_lt; [|lia]. cbn [fmap option_fmap option_map Nat.add]. unfold boundary. cbn [Nat.eqb].
    by replace (Z.of_nat j + 1) with (Z.of_nat (S j)) by lia.
  - change (map ?f ?l) with (f <$> l). apply lookup_ge_None. rewrite length_fmap length_seq. lia.
Qed.

Lemma length_computeSplitPoints n : 1 <= n -> length (computeSplitPoints n) = (Z.to_nat n - 1)%nat.
Proof. intros Hn. unfold computeSplitPoints. destruct (Z.leb_spec n 1); [simpl; lia|]. rewrite length_map length_seq. lia. Qed.

Lemma boundary_lt n j : 1 <= n <= 93 -> (S j < Z.to_nat n)%nat -> str_lt (boundary n j) (boundary n (S j)).
Proof.
  intros Hn Hj. unfold boundary. cbn [Nat.eqb]. rewrite !i64_small; [|lia..]. rewrite !Z.quot_div_nonneg; [|lia..].
  assert (Hup : 93 * Z.of_nat (S j) / n < 93) by (apply Z.div_lt_upper_bound; nia).
  destruct (Nat.eqb_spec j 0) as [->|Hj0].
  { pose proof (string_of_rune_lt 0 (33 + 93 * Z.of_nat 1 / n)) as Hlt. pose proof (Z.div_pos (93 * Z.of_nat 1) n).
    assert (str_lt (string_of_rune 0) (string_of_rune (33 + 93 * Z.of_nat 1 / n))) as Hlt' by (apply Hlt; lia).
    eapply str_le_lt_trans; [apply str_le_empty|done]. }
  apply string_of_rune_lt; [|..].
  - pose proof (Z.div_pos (93 * Z.of_nat j) n). lia.
  - assert (93 * Z.of_nat j / n + 1 <= 93 * Z.of_nat (S j) / n); [|lia].
    replace (93 * Z.of_nat j / n + 1) with ((93 * Z.of_nat j + 1 * n) / n) by (rewrite Z.div_add; lia). apply Z.div_le_mono; lia.
  - lia.
Qed.

Lemma assignReplicas_total nodes i k : is_Some (assignReplicas nodes i k).
Proof.
  unfold assignReplicas. apply mapM_is_Some. apply Forall_forall. intros j Hj. apply elem_of_seq in Hj. unfold compose, assign_one.
  destruct (lookup_lt_is_Some_2 nodes (Z.to_nat ((i + Z.of_nat j) mod zlen nodes))) as [x ->]; [|by eexists].
  assert (0 < zlen nodes) by (destruct (Z.ltb_spec (zlen nodes) k); unfold zlen in *; lia).
  pose proof (Z.mod_pos_bound (i + Z.of_nat j) (zlen nodes)). unfold zlen in *. lia.
Qed.

Lemma init_loop n nodes sm0 i : 1 <= n <= 93 -> (i <= Z.to_nat n)%nat ->
  exists ds, for_each (init_one (computeSplitPoints n) nodes) (seq 0 i)
      (mkShardMap (shm_heap sm0) [] ∅ (shm_version sm0) (shm_onChange sm0)) =
    Some (mkShardMap (shm_heap sm0 ++ ds) (seq (length (shm_heap sm0)) i)
      (list_to_map ((fun j => (Z.of_nat j, length (shm_heap sm0) + j)%nat) <$> rev (seq 0 i))) (shm_version sm0) (shm_onChange sm0)) /\
    length ds = i /\
    forall j d, ds !! j = Some d -> sd_ShardID d = Z.of_nat j /\ sd_StartKey d = boundary n j /\
      sd_EndKey d = if (S j <? Z.to_nat n)%nat then boundary n (S j) else EmptyString.
Proof.
  intros Hn. induction i as [|i IH]; intros Hi; [exists []; by rewrite app_nil_r|].
  destruct IH as (ds & Hrun & Hlen & Hds); [lia|]. rewrite seq_S for_each_app Hrun. cbn [for_each mbind option_bind Nat.add]. unfold init_one.
  assert ((if (0 <? i)%nat then computeSplitPoints n !! (i - 1)%nat else Some EmptyString) = Some (boundary n i)) as ->.
  { destruct i as [|i]; [done|]. cbn [Nat.ltb Nat.leb]. rewrite computeSplitPoints_lookup //. replace (S (S i - 1)) with (S i) by lia.
    by rewrite (proj2 (Nat.ltb_lt _ _)); [|lia]. }
  cbn [mbind option_bind].
  assert ((if (i <? length (computeSplitPoints n))%nat then computeSplitPoints n !! i else Some EmptyString) =
    Some (if (S i <? Z.to_nat n)%nat then boundary n (S i) else EmptyString)) as ->.
  { rewrite length_computeSplitPoints; [|lia]. rewrite computeSplitPoints_lookup //.
    destruct (Nat.ltb_spec i (Z.to_nat n - 1)), (Nat.ltb_spec (S i) (Z.to_nat n)); try lia; done. }
  cbn [mbind option_bind]. destruct (assignReplicas_total nodes (Z.of_nat i) 3) as [replicas ->]. cbn [mbind option_bind].
  set (d := mkShard _ _ _ _ _ _ _). exists (ds ++ [d]). split; [|split].
  - cbn [shm_heap shm_shards shm_shardsByID shm_version shm_onChange]. rewrite rev_app_distr. cbn [rev app]. rewrite fmap_cons list_to_map_cons.
    rewrite length_app Hlen app_assoc seq_S. done.
  - rewrite length_app Hlen /=. lia.
  - intros j x [Hx|[Hge Hx]]%lookup_app_Some; [by apply Hds|]. apply list_lookup_singleton_Some in Hx as [Hz <-].
    assert (j = i) as -> by lia. done.
Qed.

Lemma Initialize_inv n nodes sm0 : 1 <= n <= 93 -> exists sm ds, Initialize n nodes sm0 = Some sm /\ shard_inv sm ds /\ length ds = Z.to_nat n.
Proof.
  intros Hn. unfold Initialize. rewrite (proj2 (Z.ltb_ge _ _)); [|lia].
  destruct (init_loop n nodes sm0 (Z.to_nat n) Hn) as (ds & -> & Hlen & Hds); [lia|]. cbn [mbind option_bind].
  eexists _, ds. split; [done|]. split; [|done]. cbn [shm_heap shm_shards shm_shardsByID shm_version shm_onChange].
  set (h := length (shm_heap sm0)).
  assert (Hlook : forall j d, ds !! j = Some d -> (shm_heap sm0 ++ ds) !! (h + j)%nat = Some d).
  { intros j d Hj. rewrite lookup_app_r; [|unfold h; lia]. by replace (h + j - length (shm_heap sm0))%nat with j by (unfold h; lia). }
  constructor; cbn [shm_heap shm_shards shm_shardsByID].
  - apply Forall2_same_length_lookup. split; [by rewrite length_seq Hlen|]. intros j p d Hp Hd. apply lookup_seq in Hp as [-> _]. by apply Hlook.
  - apply (tiles_of_index ds (boundary n)).
    + intros ->. simpl in Hlen. lia.
    + intros j d Hj. destruct (Hds j d Hj) as (_ & ? & ?). by rewrite Hlen.
    + intros j Hj. apply boundary_lt; [done|lia].
  - apply NoDup_seq.
  - intros id p. rewrite -elem_of_list_to_map.
    2: { rewrite -list_fmap_compose. apply NoDup_fmap_2_strong; [intros; simpl in *; lia|]. rewrite -Permutation_rev. apply NoDup_seq. }
    rewrite list_elem_of_fmap elem_of_seq. split.
    + intros (j & [= -> ->] & Hj). rewrite -Permutation_rev elem_of_seq in Hj. split; [lia|].
      destruct (lookup_lt_is_Some_2 ds j) as [d Hd]; [lia|]. unfold id_of. rewrite (Hlook _ _ Hd) /=. by destruct (Hds j d Hd) as [-> _].
    + intros [Hp Hid]. exists (p - h)%nat. unfold id_of in Hid. destruct (lookup_lt_is_Some_2 ds (p - h)) as [d Hd]; [lia|].
      rewrite -(Nat.add_sub p h) in Hid. replace (p + h - h)%nat with (h + (p - h))%nat in Hid by lia. rewrite (Hlook _ _ Hd) /= in Hid.
      destruct (Hds _ d Hd) as [Hs _]. rewrite Hs in Hid. injection Hid as <-. split; [f_equal; lia|]. rewrite -Permutation_rev elem_of_seq. lia.
Qed.

(** ** Properties *)

(** What a run may do: split strictly inside a shard and with a free id, merge
    a shard with its successor. *)
Definition shard_op_safe (o : shard_op) (sm : ShardMap) : bool :=
  match o with
  | SUpdateLeader _ _ => true
  | SSplit id key _ _ => split_safe id key sm
  | SMerge id1 _ => merge_safe id1 sm
  end.

Fixpoint shard_ops_safe (ops : list shard_op) (sm : ShardMap) : bool :=
  match ops with
  | [] => true
  | o :: ops => shard_op_safe o sm && match shard_step o sm with Some sm => shard_ops_safe ops sm | None => true end
  end.

Lemma shard_step_inv sm ds o : shard_inv sm ds -> shard_op_safe o sm = true ->
  exists sm' ds', shard_step o sm = Some sm' /\ shard_inv sm' ds'.
Proof.
  intros Hinv Hs. destruct o as [id leader|id key group replicas|id1 id2]; cbn [shard_step shard_op_safe] in *.
  - by eapply UpdateLeader_inv.
  - destruct (Split_inv _ _ _ _ group replicas Hinv Hs) as (r & sm' & cbs & ds' & -> & Hinv'). by exists sm', ds'.
  - destruct (Merge_inv _ _ _ id2 Hinv Hs) as (r & sm' & ds' & -> & Hinv'). by exists sm', ds'.
Qed.

Lemma shard_run_inv ops : forall sm ds, shard_inv sm ds -> shard_ops_safe ops sm = true ->
  exists sm' ds', shard_run ops sm = Some sm' /\ shard_inv sm' ds'.
Proof.
  induction ops as [|o ops IH]; intros sm ds Hinv Hs; [by exists sm, ds|]. cbn [shard_ops_safe] in Hs. apply andb_true_iff in Hs as [Ho Hs].
  destruct (shard_step_inv _ _ _ Hinv Ho) as (sm1 & ds1 & H1 & Hinv1). rewrite H1 in Hs. unfold shard_run in *. cbn [for_each]. rewrite H1.
  by eapply IH.
Qed.


End sorted.

Definition demo_shards (n : Z) : ShardMap :=
  match Initialize n ["n1"; "n2"; "n3"; "n4"] NewShardMap with Some sm => sm | None => NewShardMap end.

Definition demo_shard_ops : list shard_op :=
  [SSplit 1 "S" 9 []; SUpdateLeader 4 "n2"; SMerge 0 1; SMerge 2 3].


(** ** What goes wrong outside these limits *)

Definition lookup_after (ops : list shard_op) (key : string) (sm : ShardMap) : option (ShardError + nat) :=
  sm ← shard_run ops sm; Lookup key sm.

(** A new shard is numbered by the count of shards, which a merge has lowered:
    the id of a live shard is reused, and the next merge removes both. *)
Theorem shard_id_reused :
  let ops := [SMerge 0 1; SSplit 0 "A" 9 []; SMerge 0 2] in
  lookup_after [SMerge 0 1; SSplit 0 "A" 9 []] "zebra" (demo_shards 3) = Some (inr 2%nat) /\
  lookup_after ops "zebra" (demo_shards 3) = Some (inl ErrNoShardForKey).
Proof. vm_compute. done. Qed.

(** The end of the last shard and the start of the first one are both the
    empty string, so they count as neighbours; merging them leaves every key
    without a shard. *)
Theorem merge_around_the_end :
  lookup_after [SMerge 1 0] "apple" (demo_shards 2) = Some (inl ErrNoShardForKey) /\
  lookup_after [SMerge 1 0] "!" (demo_shards 2) = Some (inl ErrNoShardForKey).
Proof. vm_compute. done. Qed.

(** A sort that turns equal elements around. *)
Program Definition turning_sort : SortSlice := {|
  sort_Slice A less l := merge_sort (slice_le less) (reverse l);
|}.
Next Obligation. intros. cbn beta. by rewrite merge_sort_Permutation reverse_Permutation. Qed.
Next Obligation. intros. by apply merge_sort_slice. Qed.

(** A split at the start of a shard is accepted; it leaves an empty shard with
    the same start key, and if the sort puts it last its keys are not found. *)
Theorem split_at_start_loses_keys :
  exists d, shm_heap (demo_shards 2) !! 1%nat = Some d /\
    (sm ← @shard_run turning_sort [SSplit 1 (sd_StartKey d) 9 []] (demo_shards 2); Lookup "zebra" sm) = Some (inl ErrNoShardForKey).
Proof. eexists. split; [vm_compute; reflexivity|vm_compute; reflexivity]. Qed.
