(* ===== verification/Router.v ===== *)
(** * Router: requests to shard leaders (pkg/partition/router.go)

    The router looks a key up in the shared shard map ([ShardMap]) and picks
    the node to send to: the leader it has cached, the leader in the
    descriptor, or the first replica.  The callback that clears the cache
    after a split runs in a goroutine of its own, so it is a step of its own
    ([YClear]) and [ys_pending] counts the callbacks that have not run.  A
    request holds a pointer to the descriptor of its shard.  The delay between
    retries and console output are left out. *)

From S2P Require Import Prelude GoSort Bytes ShardMap.

Record RoutedRequest := mkRequest {
  rq_Key : string;
  rq_Shard : nat;
  rq_TargetNode : string;
  rq_Attempt : Z;
}.

Record RouterConfig := mkRouterConfig {
  rc_MaxRetries : Z;
  rc_RetryDelay : Z;
  rc_StaleShardMapTTL : Z;
}.

Definition DefaultRouterConfig : RouterConfig := mkRouterConfig 3 10000000 30000000000.

Record Router := mkRouter {
  rt_config : RouterConfig;
  rt_leaderCache : gmap Z string;
  rt_totalRequests : Z;
  rt_cacheHits : Z;
  rt_leaderRedirects : Z;
  rt_errors : Z;
  rt_lastMapVersion : Z;
}.

Inductive RouterError := ErrRouteShard (e : ShardError) | ErrMaxRetries.

(** [NewRouter]: the router and the shard map with its callback. *)
Definition NewRouter (id : nat) (config : RouterConfig) (sm : ShardMap) : Router * ShardMap :=
  (mkRouter config ∅ 0 0 0 0 0, OnChange id sm).

(** The callback. *)
Definition clear_cache (r : Router) : Router :=
  mkRouter (rt_config r) ∅ (rt_totalRequests r) (rt_cacheHits r) (rt_leaderRedirects r) (rt_errors r) (rt_lastMapVersion r).

Definition resolveLeader (p : nat) (sm : ShardMap) (r : Router) : option (string * Router) :=
  shard ← shm_heap sm !! p;
  match rt_leaderCache r !! sd_ShardID shard with
  | Some cached =>
      Some (cached, mkRouter (rt_config r) (rt_leaderCache r) (rt_totalRequests r) (i64 (rt_cacheHits r + 1))
              (rt_leaderRedirects r) (rt_errors r) (rt_lastMapVersion r))
  | None =>
      if negb (sd_Leader shard =?s EmptyString) then Some (sd_Leader shard, r)
      else match sd_Replicas shard with
           | rep :: _ => Some (rep_NodeID rep, r)
           | [] => Some (EmptyString, r)
           end
  end.

Definition Route (key : string) (sm : ShardMap) (r : Router) : option ((RouterError + RoutedRequest) * Router) :=
  let r := mkRouter (rt_config r) (rt_leaderCache r) (i64 (rt_totalRequests r + 1)) (rt_cacheHits r)
             (rt_leaderRedirects r) (rt_errors r) (rt_lastMapVersion r) in
  res ← Lookup key sm;
  match res with
  | inl err =>
      Some (inl (ErrRouteShard err),
            mkRouter (rt_config r) (rt_leaderCache r) (rt_totalRequests r) (rt_cacheHits r)
              (rt_leaderRedirects r) (i64 (rt_errors r + 1)) (rt_lastMapVersion r))
  | inr p =>
      '(targetNode, r) ← resolveLeader p sm r;
      Some (inr (mkRequest key p targetNode 0), r)
  end.

(** The loop of [RouteRange]; the end of each part is not used. *)
Fixpoint range_requests (startKey : string) (shards : list nat) (sm : ShardMap) (r : Router) : option (list RoutedRequest * Router) :=
  match shards with
  | [] => Some ([], r)
  | p :: shards =>
      shard ← shm_heap sm !! p;
      let reqStart := if startKey <?s sd_StartKey shard then sd_StartKey shard else startKey in
      '(targetNode, r) ← resolveLeader p sm r;
      '(requests, r) ← range_requests startKey shards sm r;
      Some (mkRequest reqStart p targetNode 0 :: requests, r)
  end.

Definition RouteRange (startKey endKey : string) (sm : ShardMap) (r : Router) : option ((RouterError + list RoutedRequest) * Router) :=
  res ← LookupRange startKey endKey sm;
  match res with
  | inl err => Some (inl (ErrRouteShard err), r)
  | inr shards =>
      '(requests, r) ← range_requests startKey shards sm r;
      Some (inr requests, r)
  end.

Definition HandleNotLeader (req : RoutedRequest) (leaderHint : string) (sm : ShardMap) (r : Router) :
    option ((RouterError + RoutedRequest) * ShardMap * Router) :=
  let r := mkRouter (rt_config r) (rt_leaderCache r) (rt_totalRequests r) (rt_cacheHits r)
             (i64 (rt_leaderRedirects r + 1)) (rt_errors r) (rt_lastMapVersion r) in
  if rc_MaxRetries (rt_config r) <=? rq_Attempt req then Some (inl ErrMaxRetries, sm, r)
  else
    '(sm, r) ← (if negb (leaderHint =?s EmptyString) then
      shard ← shm_heap sm !! rq_Shard req;
      let r := mkRouter (rt_config r) (<[sd_ShardID shard := leaderHint]> (rt_leaderCache r)) (rt_totalRequests r) (rt_cacheHits r)
                 (rt_leaderRedirects r) (rt_errors r) (rt_lastMapVersion r) in
      sm ← UpdateLeader (sd_ShardID shard) leaderHint sm;
      Some (sm, r)
    else Some (sm, r));
    Some (inr (mkRequest (rq_Key req) (rq_Shard req) leaderHint (rq_Attempt req + 1)), sm, r).

Record RouterStats := mkRouterStats {
  rs_TotalRequests : Z;
  rs_CacheHits : Z;
  rs_LeaderRedirects : Z;
  rs_Errors : Z;
}.

Definition Router_Stats (r : Router) : RouterStats :=
  mkRouterStats (rt_totalRequests r) (rt_cacheHits r) (rt_leaderRedirects r) (rt_errors r).

(** ** Runs *)

Record RouterSys := mkSys {
  ys_map : ShardMap;
  ys_router : Router;
  ys_pending : nat;
}.

Inductive router_op :=
| YRoute (key : string)
| YRange (startKey endKey : string)
| YNotLeader (req : RoutedRequest) (leaderHint : string)
| YShard (o : shard_op)
| YClear.

Section sorted.
  Context `{SortSlice}.

(** The number of callbacks a shard operation starts. *)
Definition started (o : shard_op) (sm : ShardMap) : nat :=
  match o with
  | SSplit id key group replicas => match Split id key group replicas sm with Some (_, _, cbs) => length cbs | None => 0%nat end
  | _ => 0%nat
  end.

Definition router_step (o : router_op) (y : RouterSys) : option RouterSys :=
  match o with
  | YRoute key => '(_, r) ← Route key (ys_map y) (ys_router y); Some (mkSys (ys_map y) r (ys_pending y))
  | YRange a b => '(_, r) ← RouteRange a b (ys_map y) (ys_router y); Some (mkSys (ys_map y) r (ys_pending y))
  | YNotLeader req hint => '(_, sm, r) ← HandleNotLeader req hint (ys_map y) (ys_router y); Some (mkSys sm r (ys_pending y))
  | YShard o => sm ← shard_step o (ys_map y); Some (mkSys sm (ys_router y) (ys_pending y + started o (ys_map y)))
  | YClear => Some (if (0 <? ys_pending y)%nat then mkSys (ys_map y) (clear_cache (ys_router y)) (ys_pending y - 1) else y)
  end.

(** What a run may do: requests name shards that exist, shard operations are safe. *)
Definition router_op_safe (o : router_op) (y : RouterSys) : bool :=
  match o with
  | YNotLeader req _ => bool_decide (rq_Shard req < length (shm_heap (ys_map y)))%nat
  | YShard o => shard_op_safe o (ys_map y)
  | _ => true
  end.

Fixpoint router_ops_safe (ops : list router_op) (y : RouterSys) : bool :=
  match ops with
  | [] => true
  | o :: ops => router_op_safe o y && match router_step o y with Some y => router_ops_safe ops y | None => true end
  end.

Definition router_run (ops : list router_op) (y : RouterSys) : option RouterSys := for_each router_step ops y.

(** ** Lemmas *)

(** The node that [resolveLeader] picks. *)
Definition target_of (d : ShardDescriptor) (r : Router) : string :=
  match rt_leaderCache r !! sd_ShardID d with
  | Some cached => cached
  | None => if negb (sd_Leader d =?s EmptyString) then sd_Leader d
            else match sd_Replicas d with rep :: _ => rep_NodeID rep | [] => EmptyString end
  end.

Lemma resolveLeader_spec p sm r d : shm_heap sm !! p = Some d ->
  exists r', resolveLeader p sm r = Some (target_of d r, r') /\ rt_leaderCache r' = rt_leaderCache r /\ rt_config r' = rt_config r.
Proof.
  intros Hd. unfold resolveLeader, target_of. rewrite Hd. cbn [mbind option_bind]. destruct (rt_leaderCache r !! _); [by eexists|].
  destruct (negb _); [by eexists|]. destruct (sd_Replicas d); by eexists.
Qed.

Lemma target_of_cache d r r' : rt_leaderCache r' = rt_leaderCache r -> target_of d r' = target_of d r.
Proof. unfold target_of. by intros ->. Qed.

Lemma Route_spec key sm r p d : Lookup key sm = Some (inr p) -> shm_heap sm !! p = Some d ->
  exists r', Route key sm r = Some (inr (mkRequest key p (target_of d r) 0), r') /\ rt_leaderCache r' = rt_leaderCache r.
Proof.
  intros Hl Hd. unfold Route. rewrite Hl. cbn [mbind option_bind]. set (r0 := mkRouter _ _ _ _ _ _ _).
  destruct (resolveLeader_spec p sm r0 d Hd) as (r' & Hr & Hc & _). rewrite Hr. by exists r'.
Qed.

Lemma range_requests_spec startKey shards sm : (forall p, p ∈ shards -> is_Some (shm_heap sm !! p)) -> forall r,
  exists reqs r', range_requests startKey shards sm r = Some (reqs, r') /\
    Forall2 (fun p req => exists d, shm_heap sm !! p = Some d /\
      req = mkRequest (if startKey <?s sd_StartKey d then sd_StartKey d else startKey) p (target_of d r) 0) shards reqs.
Proof.
  induction shards as [|p shards IH]; intros Hs r; [by exists [], r|]. destruct (Hs p ltac:(left)) as [d Hd]. cbn [range_requests].
  rewrite Hd. cbn [mbind option_bind]. destruct (resolveLeader_spec p sm r d Hd) as (r1 & -> & Hc & _). cbn [mbind option_bind].
  destruct (IH (fun q Hq => Hs q ltac:(by right)) r1) as (reqs & r2 & -> & Hreqs). eexists _, _. split; [done|]. constructor; [by exists d|].
  eapply Forall2_impl; [exact Hreqs|]. intros q req (e & He & ->). exists e. by rewrite (target_of_cache _ _ _ Hc).
Qed.

Lemma points_valid sm ds p : shard_inv sm ds -> p ∈ shm_shards sm -> is_Some (shm_heap sm !! p).
Proof.
  intros [Hp _ _ _] [i Hi]%list_elem_of_lookup. destruct (Forall2_lookup_l _ _ _ _ _ Hp Hi) as (d & _ & ->). by eexists.
Qed.

Lemma HandleNotLeader_total req hint sm r ds : shard_inv sm ds -> (rq_Shard req < length (shm_heap sm))%nat ->
  exists res sm' r' ds', HandleNotLeader req hint sm r = Some (res, sm', r') /\ shard_inv sm' ds'.
Proof.
  intros Hinv Hlt. unfold HandleNotLeader. cbn [rt_config]. destruct (_ <=? _); [by eexists _, sm, _, ds|].
  destruct (hint =?s EmptyString); cbn [negb mbind option_bind]; [by eexists _, sm, _, ds|].
  destruct (lookup_lt_is_Some_2 _ _ Hlt) as [d ->]. cbn [mbind option_bind].
  destruct (UpdateLeader_inv sm ds (sd_ShardID d) hint Hinv) as (sm' & ds' & -> & Hinv'). cbn [mbind option_bind]. by eexists _, sm', _, ds'.
Qed.

Lemma router_step_inv o y ds : shard_inv (ys_map y) ds -> router_op_safe o y = true ->
  exists y' ds', router_step o y = Some y' /\ shard_inv (ys_map y') ds'.
Proof.
  intros Hinv Hs. destruct o as [key|a b|req hint|o|]; cbn [router_step router_op_safe] in *.
  - destruct (Lookup_spec Hinv key) as (p & d & Hl & _ & Hd & _). destruct (Route_spec key _ (ys_router y) p d Hl Hd) as (r' & -> & _).
    by eexists _, ds.
  - unfold RouteRange. rewrite (LookupRange_spec Hinv). cbn [mbind option_bind].
    destruct (range_requests_spec a (List.filter (overlaps_at (shm_heap (ys_map y)) a b) (shm_shards (ys_map y))) (ys_map y)) with (r := ys_router y)
      as (reqs & r' & -> & _); [|by eexists _, ds].
    intros p [Hp _]%list_elem_of_In%filter_In. apply list_elem_of_In in Hp. by eapply points_valid.
  - apply bool_decide_eq_true in Hs. destruct (HandleNotLeader_total req hint _ (ys_router y) _ Hinv Hs) as (res & sm' & r' & ds' & -> & Hinv').
    by eexists _, ds'.
  - destruct (shard_step_inv _ _ _ Hinv Hs) as (sm' & ds' & -> & Hinv'). by eexists _, ds'.
  - eexists _, ds. split; [done|]. by destruct (0 <? ys_pending y)%nat.
Qed.

Lemma router_run_inv ops : forall y ds, shard_inv (ys_map y) ds -> router_ops_safe ops y = true ->
  exists y' ds', router_run ops y = Some y' /\ shard_inv (ys_map y') ds'.
Proof.
  induction ops as [|o ops IH]; intros y ds Hinv Hs; [by exists y, ds|]. cbn [router_ops_safe] in Hs. apply andb_true_iff in Hs as [Ho Hs].
  destruct (router_step_inv _ _ _ Hinv Ho) as (y1 & ds1 & H1 & Hinv1). rewrite H1 in Hs. unfold router_run in *. cbn [for_each]. rewrite H1.
  by eapply IH.
Qed.

(** A redirect changes leaders, not ranges or ids. *)
Lemma UpdateLeader_keeps sm ds id leader sm' : shard_inv sm ds -> UpdateLeader id leader sm = Some sm' ->
  shm_shards sm' = shm_shards sm /\
  forall p d, shm_heap sm !! p = Some d -> exists d', shm_heap sm' !! p = Some d' /\ sd_ShardID d' = sd_ShardID d /\
    sd_StartKey d' = sd_StartKey d /\ sd_EndKey d' = sd_EndKey d.
Proof.
  intros Hinv. unfold UpdateLeader. destruct (shm_shardsByID sm !! id) as [q|] eqn:Hid; [|intros [= <-]; eauto 6].
  destruct (byID_heap _ _ _ _ Hinv Hid) as (_ & e & He & _). rewrite He. intros [= <-]. split; [done|]. cbn [shm_heap].
  intros p d Hd. destruct (decide (p = q)) as [->|Hne].
  - rewrite list_lookup_insert_eq; [|by eapply lookup_lt_Some]. rewrite He in Hd. injection Hd as ->. eauto.
  - rewrite list_lookup_insert_ne //. eauto.
Qed.

Lemma ContainsKey_ranges key d d' : sd_StartKey d' = sd_StartKey d -> sd_EndKey d' = sd_EndKey d -> ContainsKey key d' = ContainsKey key d.
Proof. unfold ContainsKey. by intros -> ->. Qed.

(** ** Properties *)


End sorted.

Definition demo_router_ops : list router_op :=
  [YRoute "apple"; YNotLeader (mkRequest "apple" 2 "n3" 0) "n2"; YShard (SSplit 1 "S" 9 []); YRange "a" "t"; YClear; YRoute "zebra"].

Definition demo_sys (n : Z) : RouterSys :=
  mkSys (NewRouter 0 DefaultRouterConfig (demo_shards n)).2 (NewRouter 0 DefaultRouterConfig (demo_shards n)).1 0.


(** A redirect without a hint sends the retry to no node. *)
Theorem redirect_without_hint :
  HandleNotLeader (mkRequest "apple" 2 "n3" 0) EmptyString (demo_shards 4) (ys_router (demo_sys 4)) ≫= (fun x => Some x.1.1) =
  Some (inr (mkRequest "apple" 2 EmptyString 1)).
Proof. vm_compute. reflexivity. Qed.
