(* ===== verification/Rebalancer.v ===== *)
(** * Rebalancer: when shards are split and merged (pkg/partition/rebalancer.go)

    The rebalancer compares the statistics of each shard with its limits and
    queues actions for an operator; it does not carry them out.  Times are
    nanoseconds, request rates are floats.  The ticker loop, the reason texts
    and console output are left out. *)

From S2P Require Import Prelude GoSort Float64 Bytes ShardMap.

Record ShardStats := mkShardStats {
  ss_ShardID : Z;
  ss_SizeBytes : Z;
  ss_RPS : float64;
  ss_LeaderNode : string;
  ss_LastSplit : Z;
  ss_LastMerge : Z;
}.

Record RebalancerConfig := mkRebalancerConfig {
  rbc_MaxShardSize : Z;
  rbc_MinShardSize : Z;
  rbc_MaxShardRPS : float64;
  rbc_CheckInterval : Z;
  rbc_SplitCooldown : Z;
}.

Definition DefaultRebalancerConfig : RebalancerConfig :=
  mkRebalancerConfig (256 * 1024 * 1024) (10 * 1024 * 1024) (f64 10000) 30000000000 300000000000.

Inductive RebalanceActionType := ActionSplit | ActionMerge | ActionMove.

Record RebalanceAction := mkAction {
  ra_Type : RebalanceActionType;
  ra_ShardID : Z;
  ra_SplitKey : string;
  ra_TargetNode : string;
  ra_MergePeer : Z;
}.

Record Rebalancer := mkRebalancer {
  rb_config : RebalancerConfig;
  rb_shardStats : gmap Z ShardStats;
  rb_pendingActions : list RebalanceAction;
}.

Definition NewRebalancer (config : RebalancerConfig) : Rebalancer := mkRebalancer config ∅ [].

Definition UpdateStats (stats : ShardStats) (r : Rebalancer) : Rebalancer :=
  mkRebalancer (rb_config r) (<[ss_ShardID stats := stats]> (rb_shardStats r)) (rb_pendingActions r).

(** [time.Since]: a difference that saturates. *)
Definition time_Since (now t : Z) : Z := Z.max (- two63) (Z.min (two63 - 1) (now - t)).

Definition shouldSplit (now : Z) (stats : ShardStats) (r : Rebalancer) : bool :=
  if time_Since now (ss_LastSplit stats) <? rbc_SplitCooldown (rb_config r) then false
  else (rbc_MaxShardSize (rb_config r) <? ss_SizeBytes stats) || fltb (rbc_MaxShardRPS (rb_config r)) (ss_RPS stats).

Definition shouldMerge (stats : ShardStats) (r : Rebalancer) : bool := ss_SizeBytes stats <? rbc_MinShardSize (rb_config r).

(** The first byte of a key; an empty key has none. *)
Definition first_byte (key : string) : option Z := match bytes_of_string key with [] => None | b :: _ => Some (Z_of_byte b) end.

Definition findSplitKey (shard : ShardDescriptor) : string :=
  if sd_EndKey shard =?s EmptyString then EmptyString
  else
    match first_byte (sd_StartKey shard), first_byte (sd_EndKey shard) with
    | None, Some e => string_of_bytes [byte_of_Z (e / 2)]
    | Some s, Some e => string_of_bytes [byte_of_Z ((s + e) / 2)]
    | _, None => EmptyString
    end.

(** The body of the first loop of [evaluate]. *)
Definition split_action (now : Z) (r : Rebalancer) (shard : ShardDescriptor) : list RebalanceAction :=
  match rb_shardStats r !! sd_ShardID shard with
  | None => []
  | Some stats =>
      if shouldSplit now stats r then
        let splitKey := findSplitKey shard in
        if negb (splitKey =?s EmptyString) then [mkAction ActionSplit (sd_ShardID shard) splitKey EmptyString 0] else []
      else []
  end.

(** The body of the second one. *)
Definition merge_action (r : Rebalancer) (s1 s2 : ShardDescriptor) : list RebalanceAction :=
  match rb_shardStats r !! sd_ShardID s1, rb_shardStats r !! sd_ShardID s2 with
  | Some stats1, Some stats2 =>
      if shouldMerge stats1 r && shouldMerge stats2 r then
        let totalSize := i64 (ss_SizeBytes stats1 + ss_SizeBytes stats2) in
        if totalSize <? rbc_MaxShardSize (rb_config r) then
          [mkAction ActionMerge (sd_ShardID s1) EmptyString EmptyString (sd_ShardID s2)]
        else []
      else []
  | _, _ => []
  end.

Fixpoint merge_actions (r : Rebalancer) (shards : list ShardDescriptor) : list RebalanceAction :=
  match shards with
  | s1 :: ((s2 :: _) as rest) => merge_action r s1 s2 ++ merge_actions r rest
  | _ => []
  end.

Definition evaluate (now : Z) (sm : ShardMap) (r : Rebalancer) : option Rebalancer :=
  allShards ← mapM (shm_heap sm !!.) (All sm);
  let actions := concat (map (split_action now r) allShards) ++ merge_actions r allShards in
  Some (mkRebalancer (rb_config r) (rb_shardStats r) (rb_pendingActions r ++ actions)).

Definition PendingActions (r : Rebalancer) : list RebalanceAction * Rebalancer :=
  (rb_pendingActions r, mkRebalancer (rb_config r) (rb_shardStats r) []).

(** ** Lemmas *)

Lemma tiles_consecutive ds : forall s i a b, tiles s ds -> ds !! i = Some a -> ds !! S i = Some b ->
  sd_EndKey a = sd_StartKey b /\ sd_EndKey a <> EmptyString.
Proof.
  induction ds as [|d ds IH]; intros s i a b Ht Ha Hb; [done|]. destruct Ht as [<- Ht]. destruct ds as [|e ds]; [done|].
  destruct Ht as [Hlt Ht]. destruct i as [|i]; simplify_eq/=; [|by eapply IH]. split; [by destruct Ht|]. by eapply str_lt_not_empty.
Qed.

Lemma merge_actions_elem r ds a : a ∈ merge_actions r ds ->
  exists i s1 s2, ds !! i = Some s1 /\ ds !! S i = Some s2 /\ a ∈ merge_action r s1 s2.
Proof.
  induction ds as [|s1 ds IH]; [by intros ?%elem_of_nil|]. destruct ds as [|s2 ds]; [by intros ?%elem_of_nil|].
  cbn [merge_actions]. intros [Ha|Ha]%elem_of_app; [by exists 0%nat, s1, s2|].
  destruct (IH Ha) as (i & x & y & Hx & Hy & Hin). by exists (S i), x, y.
Qed.

Section sorted.
  Context `{SortSlice}.

(** Neighbours in the slice can be merged. *)
Lemma Merge_neighbours sm ds i a b : shard_inv sm ds -> ds !! i = Some a -> ds !! S i = Some b ->
  exists p sm' ds', Merge (sd_ShardID a) (sd_ShardID b) sm = Some (inr p, sm') /\ shard_inv sm' ds'.
Proof.
  intros Hinv Ha Hb. pose proof Hinv as [Hp Ht Hnd Hid]. destruct (tiles_consecutive _ _ _ _ _ Ht Ha Hb) as [Hab Hne].
  destruct (Forall2_lookup_r _ _ _ _ _ Hp Ha) as (p1 & Hp1 & Hpa). destruct (Forall2_lookup_r _ _ _ _ _ Hp Hb) as (p2 & Hp2 & Hpb).
  assert (Hid1 : shm_shardsByID sm !! sd_ShardID a = Some p1).
  { apply Hid. split; [by eapply list_elem_of_lookup_2|]. unfold id_of. by rewrite Hpa. }
  assert (Hid2 : shm_shardsByID sm !! sd_ShardID b = Some p2).
  { apply Hid. split; [by eapply list_elem_of_lookup_2|]. unfold id_of. by rewrite Hpb. }
  destruct (Merge_inv sm ds (sd_ShardID a) (sd_ShardID b) Hinv) as (r & sm' & ds' & Hm & Hinv').
  { unfold merge_safe. rewrite Hid1. cbn [mbind option_bind]. rewrite Hpa. by apply negb_true_iff, String.eqb_neq. }
  unfold Merge in Hm |- *. rewrite Hid1 Hid2 in Hm |- *. rewrite Hpa in Hm |- *. cbn [mbind option_bind] in Hm |- *. rewrite Hpb in Hm |- *.
  cbn [mbind option_bind] in Hm |- *. rewrite Hab String.eqb_refl in Hm |- *. cbn [negb] in Hm |- *.
  rewrite (proj2 (Nat.eqb_neq _ _) (inv_length Hinv)) in Hm |- *. injection Hm as <- <-. by eexists _, _, _.
Qed.


End sorted.

Definition demo_stats : list ShardStats :=
  [mkShardStats 0 1000 (f64 1) "n1" 0 0; mkShardStats 1 2000 (f64 1) "n2" 0 0; mkShardStats 2 (300 * 1024 * 1024) (f64 1) "n2" 0 0].

Definition demo_rebalancer : Rebalancer := foldr UpdateStats (NewRebalancer DefaultRebalancerConfig) demo_stats.


(** On the initial map both kinds are proposed. *)
Theorem rebalancer_demo :
  (r ← evaluate 1000000000000 (demo_shards 4) demo_rebalancer; Some (PendingActions r).1) =
  Some [mkAction ActionSplit 2 "Z" EmptyString 0; mkAction ActionMerge 0 EmptyString EmptyString 1].
Proof. vm_compute. reflexivity. Qed.

(** The middle of two keys with neighbouring first bytes is the start of the
    shard itself, where a split leaves an empty shard. *)
Theorem split_key_at_start : findSplitKey (mkShard 1 "a" "b" 1 [] EmptyString 1) = "a".
Proof. vm_compute. reflexivity. Qed.
