(* ===== verification/Query.v ===== *)
(** * Query: distributed queries (pkg/query/planner.go)

    The executor that runs a sub-query on a shard is an interface of the
    source; [LawfulExecutor] states what it promises.  Results arrive in any
    order; a timeout is an argument.  Times and console output are left out. *)

From S2P Require Import Prelude GoSort Float64.

Inductive QueryType := QueryScan | QueryAggregate | QueryTopK | QueryDistinct.
Inductive AggregationType := AggNone | AggCount | AggSum | AggAvg | AggMin | AggMax.

(** A key and its value. *)
Definition KeyValue : Type := string * list ascii.

Record Query := mkQuery {
  qu_Type : QueryType;
  qu_KeyPrefix : string;
  qu_StartKey : string;
  qu_EndKey : string;
  qu_Filter : string -> list ascii -> bool;
  qu_Aggregation : AggregationType;
  qu_Limit : Z;
}.

Record ShardQuery := mkShardQuery {
  sq_ShardID : Z;
  sq_NodeID : string;
  sq_StartKey : string;
  sq_EndKey : string;
  sq_Filter : string -> list ascii -> bool;
  sq_LocalAgg : AggregationType;
  sq_Limit : Z;
}.

Record ExecutionPlan := mkExecutionPlan {
  ep_Query : Query;
  ep_ShardPlans : list ShardQuery;
  ep_MergeOp : AggregationType;
  ep_FinalLimit : Z;
}.

Record ShardInfo := mkShardInfo {
  sf_ShardID : Z;
  sf_StartKey : string;
  sf_EndKey : string;
  sf_LeaderID : string;
}.

Definition maxStr (a b : string) : string := if b <?s a then a else b.

Definition minStr (a b : string) : string :=
  if a =?s EmptyString then b else if b =?s EmptyString then a else if a <?s b then a else b.

Definition HasPrefix (s p : string) : bool := String.prefix p s.

(** The tests of [pruneShards] on one shard: whether it is kept. *)
Definition keep_shard (q : Query) (shard : ShardInfo) : bool :=
  if negb (qu_StartKey q =?s EmptyString) && negb (sf_EndKey shard =?s EmptyString) && (sf_EndKey shard <=?s qu_StartKey q) then false
  else if negb (qu_EndKey q =?s EmptyString) && negb (sf_StartKey shard =?s EmptyString) && (qu_EndKey q <=?s sf_StartKey shard) then false
  else if negb (qu_KeyPrefix q =?s EmptyString) then
    if negb (sf_EndKey shard =?s EmptyString) && (sf_EndKey shard <?s qu_KeyPrefix q) then false
    else if negb (sf_StartKey shard =?s EmptyString) && (qu_KeyPrefix q <?s sf_StartKey shard) && negb (HasPrefix (sf_StartKey shard) (qu_KeyPrefix q))
      && negb (HasPrefix (qu_KeyPrefix q)
                 (String.substring 0 (Nat.min (String.length (qu_KeyPrefix q)) (String.length (sf_StartKey shard))) (sf_StartKey shard))) then false
    else true
  else true.

Definition pruneShards (shards : list ShardInfo) (q : Query) : list ShardInfo := List.filter (keep_shard q) shards.

Definition shard_query (q : Query) (shard : ShardInfo) : ShardQuery :=
  mkShardQuery (sf_ShardID shard) (sf_LeaderID shard) (maxStr (qu_StartKey q) (sf_StartKey shard)) (minStr (qu_EndKey q) (sf_EndKey shard)) (qu_Filter q)
    (match qu_Aggregation q with AggCount => AggCount | AggSum => AggSum | AggAvg => AggSum | AggMin => AggMin | AggMax => AggMax | AggNone => AggNone end)
    (qu_Limit q).

Definition Plan (shards : list ShardInfo) (q : Query) : ExecutionPlan :=
  mkExecutionPlan q (map (shard_query q) (pruneShards shards q)) (qu_Aggregation q) (qu_Limit q).

Record ShardResult := mkShardResult {
  sr_ShardID : Z;
  sr_Entries : list KeyValue;
  sr_Count : Z;
  sr_Sum : float64;
  sr_Min : float64;
  sr_Max : float64;
  sr_Err : bool;
}.

Record QueryResult := mkQueryResult {
  qr_Entries : list KeyValue;
  qr_Count : Z;
  qr_Sum : float64;
  qr_Avg : float64;
  qr_Min : float64;
  qr_Max : float64;
  qr_ShardsQueried : Z;
  qr_PartialResult : bool;
}.

Definition empty_result : QueryResult := mkQueryResult [] 0 fzero fzero fzero fzero 0 false.

(** The results without an error. *)
Definition good (results : list ShardResult) : list ShardResult := List.filter (fun r => negb (sr_Err r)) results.

Definition sum_counts (results : list ShardResult) : Z := fold_left (fun acc r => i64 (acc + sr_Count r)) (good results) 0.
Definition sum_sums (results : list ShardResult) : float64 := fold_left (fun acc r => fadd acc (sr_Sum r)) (good results) fzero.

(** The loops of [AggMin] and [AggMax]. *)
Definition merge_min (results : list ShardResult) : float64 :=
  (fold_left (fun '(first, m) r => if (first : bool) || fltb (sr_Min r) m then (false, sr_Min r) else (first, m)) (good results) (true, fzero)).2.
Definition merge_max (results : list ShardResult) : float64 :=
  fold_left (fun m r => if fltb m (sr_Max r) then sr_Max r else m) (good results) fzero.

Definition kv_less (a b : KeyValue) : bool := a.1 <?s b.1.

(** [Entries[:n]] when there are more. *)
Definition apply_limit {A} (n : Z) (l : list A) : list A := if (0 <? n) && (n <? zlen l) then take (Z.to_nat n) l else l.

Class ShardExecutor := ExecuteShard : ShardQuery -> option ShardResult.

(** The goroutine for a shard. *)
Definition run_shard `{!ShardExecutor} (sp : ShardQuery) : ShardResult :=
  match ExecuteShard sp with Some result => result | None => mkShardResult (sq_ShardID sp) [] 0 fzero fzero fzero true end.

Section merge.
  Context `{!SortSlice}.

Definition merge (plan : ExecutionPlan) (results : list ShardResult) : QueryResult :=
  let partial := existsb sr_Err results in
  match ep_MergeOp plan with
  | AggCount => mkQueryResult [] (sum_counts results) fzero fzero fzero fzero 0 partial
  | AggSum => mkQueryResult [] 0 (sum_sums results) fzero fzero fzero 0 partial
  | AggAvg =>
      let totalCount := sum_counts results in
      let totalSum := sum_sums results in
      if 0 <? totalCount then mkQueryResult [] totalCount totalSum (fdiv totalSum (f64 totalCount)) fzero fzero 0 partial
      else mkQueryResult [] 0 fzero fzero fzero fzero 0 partial
  | AggMin => mkQueryResult [] 0 fzero fzero (merge_min results) fzero 0 partial
  | AggMax => mkQueryResult [] 0 fzero fzero fzero (merge_max results) 0 partial
  | AggNone =>
      let allEntries := apply_limit (ep_FinalLimit plan) (sort_Slice kv_less (concat (map sr_Entries (good results)))) in
      mkQueryResult allEntries (zlen allEntries) fzero fzero fzero fzero 0 partial
  end.

(** [arrived] are the results of the shards in the order of their arrival;
    [None] is the timeout error. *)
Definition Execute (shards : list ShardInfo) (timedOut : bool) (arrived : list ShardResult) (q : Query) : option QueryResult :=
  let plan := Plan shards q in
  match ep_ShardPlans plan with
  | [] => Some empty_result
  | plans =>
      if timedOut then None
      else
        let final := merge plan arrived in
        Some (mkQueryResult (qr_Entries final) (qr_Count final) (qr_Sum final) (qr_Avg final) (qr_Min final) (qr_Max final) (zlen plans) (qr_PartialResult final))
  end.

End merge.

(** ** The reference: one store *)

Definition key_in_range (start fin key : string) : bool := (start <=?s key) && ((fin =?s EmptyString) || (key <?s fin)).

Definition matching (store : list KeyValue) (start fin : string) (f : string -> list ascii -> bool) : list KeyValue :=
  List.filter (fun kv => key_in_range start fin kv.1 && f kv.1 kv.2) store.

Definition kv_sorted (l : list KeyValue) : Prop := key_sorted l.

(** What an executor promises: the matching entries of its range in the order
    of their keys, cut at the limit, or their number. *)
Class LawfulExecutor (store : list KeyValue) `{!ShardExecutor} : Prop := {
  exec_scan : forall sq, sq_LocalAgg sq = AggNone -> exists r l, ExecuteShard sq = Some r /\ sr_Err r = false /\
    kv_sorted l /\ l ≡ₚ matching store (sq_StartKey sq) (sq_EndKey sq) (sq_Filter sq) /\ sr_Entries r = apply_limit (sq_Limit sq) l;
  exec_count : forall sq, sq_LocalAgg sq = AggCount -> exists r, ExecuteShard sq = Some r /\ sr_Err r = false /\
    sr_Count r = zlen (matching store (sq_StartKey sq) (sq_EndKey sq) (sq_Filter sq));
}.

(** Every key belongs to exactly one shard. *)
Definition shards_partition (shards : list ShardInfo) : Prop :=
  forall key, exists i s, shards !! i = Some s /\ key_in_range (sf_StartKey s) (sf_EndKey s) key = true /\
    forall j s', shards !! j = Some s' -> key_in_range (sf_StartKey s') (sf_EndKey s') key = true -> j = i.

(** ** Merging sorted parts *)

Definition below (x y : KeyValue) : bool := y.1 <?s x.1.

Lemma below_irrefl x : below x x = false.
Proof. apply not_true_is_false. apply (irreflexivity str_lt). Qed.

Lemma take_below l x : kv_sorted l -> forall n, x ∈ take n l <-> x ∈ l /\ (length (List.filter (below x) l) < n)%nat.
Proof.
  induction 1 as [|y l Hl IH Hy]; intros n; [rewrite take_nil; set_solver|]. rewrite Forall_forall in Hy. destruct n as [|n]; [cbn; split; [by intros ?%elem_of_nil|lia]|].
  cbn [take List.filter]. rewrite !elem_of_cons IH. destruct (decide (x = y)) as [->|Hne].
  - rewrite below_irrefl bfilter_none; [cbn; naive_solver lia|]. intros z Hz. specialize (Hy z Hz). unfold below. apply not_true_is_false. intros Hlt.
    by apply (irreflexivity str_lt (y.1)); trans (z.1).
  - split.
    + intros [->|[Hx Hlt]]; [done|]. split; [by right|]. assert (below x y = true) as -> by by apply Hy. cbn. lia.
    + intros [[->|Hx] Hlt]; [done|]. right. split; [done|]. assert (below x y = true) as Hb by by apply Hy. rewrite Hb in Hlt. cbn in Hlt. lia.
Qed.

Lemma below_length (l k : list KeyValue) x : NoDup l -> (forall y, y ∈ l -> y ∈ k) -> (length (List.filter (below x) l) <= length (List.filter (below x) k))%nat.
Proof.
  intros Hnd Hsub. apply NoDup_ListNoDup in Hnd. apply NoDup_incl_length; [by apply List.NoDup_filter|].
  intros y [Hy Hb]%filter_In. apply filter_In. split; [|done]. apply list_elem_of_In, Hsub. by apply list_elem_of_In.
Qed.

Lemma concat_elem {A} (x : A) ls : x ∈ concat ls <-> exists l, x ∈ l /\ l ∈ ls.
Proof. rewrite list_elem_of_In in_concat. setoid_rewrite list_elem_of_In. naive_solver. Qed.

(** The first [n] entries of all parts are found among the first [n] of each. *)
Lemma take_of_parts n parts s t : kv_sorted s -> kv_sorted t -> Forall kv_sorted parts ->
  s ≡ₚ concat parts -> t ≡ₚ concat (map (take n) parts) -> take n t = take n s.
Proof.
  intros Hs Ht Hparts Hsp Htp. rewrite Forall_forall in Hparts.
  assert (Hin_s : forall x, x ∈ s <-> exists p, x ∈ p /\ p ∈ parts) by (intros x; rewrite Hsp; apply concat_elem).
  assert (Hin_t : forall x, x ∈ t <-> exists p, x ∈ take n p /\ p ∈ parts).
  { intros x. rewrite Htp concat_elem. setoid_rewrite list_elem_of_fmap. naive_solver. }
  assert (Hts : forall x, x ∈ t -> x ∈ s).
  { intros x (p & Hx & Hp)%Hin_t. apply Hin_s. exists p. split; [by eapply subseteq_take|done]. }
  assert (Hfirst : forall x, x ∈ take n s -> x ∈ t).
  { intros x [Hx Hlt]%take_below; [|done]. pose proof Hx as (p & Hxp & Hp)%Hin_s. apply Hin_t. exists p. split; [|done]. apply take_below; [by apply Hparts|].
    split; [done|]. eapply Nat.le_lt_trans; [apply below_length|exact Hlt]; [by apply key_sorted_NoDup, Hparts|]. intros y Hy. apply Hin_s. eauto. }
  apply key_sorted_unique; [by apply key_sorted_take..|]. intros x. split.
  - intros [Hx Hlt]%take_below; [|done]. apply take_below; [done|]. split; [by apply Hts|].
    destruct (decide (length (List.filter (below x) s) < n)%nat) as [?|Hge]; [done|]. exfalso.
    assert (Hall : forall y, y ∈ take n s -> y ∈ List.filter (below x) t).
    { intros y Hy. apply list_elem_of_In, filter_In. split; [apply list_elem_of_In; by apply Hfirst|].
      destruct (below x y) eqn:Hb; [done|]. apply take_below in Hy as [Hys Hyl]; [|done]. exfalso.
      assert (Hle : (length (List.filter (below x) s) <= length (List.filter (below y) s))%nat).
      { pose proof (key_sorted_NoDup _ Hs) as Hnd%NoDup_ListNoDup. apply NoDup_incl_length; [by apply List.NoDup_filter|].
        intros z [Hz Hzb]%filter_In. apply filter_In. split; [done|]. unfold below in *. rewrite str_ltb_leb in Hb. apply negb_false_iff in Hb.
        apply str_leb_le in Hb as [Hb|Hb]; [exact (transitivity (R := str_lt) Hzb Hb)|congruence]. }
      lia. }
    assert (Hlen : (length (take n s) <= length (List.filter (below x) t))%nat).
    { pose proof (key_sorted_NoDup _ (key_sorted_take _ n Hs)) as Hnd%NoDup_ListNoDup. apply NoDup_incl_length; [done|].
      intros y Hy. apply list_elem_of_In, Hall. by apply list_elem_of_In. }
    rewrite length_take in Hlen. pose proof (filter_length_le (below x) s). lia.
  - intros Hx. pose proof Hx as [Hxs Hlt]%take_below; [|done]. apply take_below; [done|]. split; [by apply Hfirst|].
    eapply Nat.le_lt_trans; [apply below_length|exact Hlt]; [by apply key_sorted_NoDup|done].
Qed.

(** ** Splitting a query over the shards *)

(** Lists of tests of which each element passes exactly one. *)
Definition one_test {A} (fs : list (A -> bool)) (x : A) : Prop :=
  exists i f, fs !! i = Some f /\ f x = true /\ forall j g, fs !! j = Some g -> g x = true -> j = i.

Lemma concat_filter_none {A} (fs : list (A -> bool)) x l : (forall f, f ∈ fs -> f x = false) ->
  concat (map (fun f => List.filter f (x :: l)) fs) = concat (map (fun f => List.filter f l) fs).
Proof. induction fs as [|f fs IH]; intros H; [done|]. cbn. rewrite H; [|set_solver]. rewrite IH; [done|set_solver]. Qed.

Lemma concat_filter_cons {A} (fs : list (A -> bool)) x l : one_test fs x ->
  concat (map (fun f => List.filter f (x :: l)) fs) ≡ₚ x :: concat (map (fun f => List.filter f l) fs).
Proof.
  intros (i & f & Hi & Hf & Hu). revert i Hi Hu. induction fs as [|g fs IH]; intros i Hi Hu; [done|]. destruct i as [|i].
  - injection Hi as ->. cbn. rewrite Hf. cbn. f_equiv. f_equiv. rewrite [concat (map _ fs)]concat_filter_none //.
    intros h [j Hj]%list_elem_of_lookup. destruct (h x) eqn:Hh; [|done]. by specialize (Hu (S j) h Hj Hh).
  - assert (g x = false) as Hg by (destruct (g x) eqn:Hg; [by specialize (Hu 0%nat g eq_refl Hg)|done]). cbn. rewrite Hg.
    rewrite [concat (map _ fs)](IH i Hi); [by rewrite -Permutation_middle|]. intros j h Hj Hh. by specialize (Hu (S j) h Hj Hh); injection Hu.
Qed.

Lemma partition_perm {A} (fs : list (A -> bool)) l : (forall x, x ∈ l -> one_test fs x) -> l ≡ₚ concat (map (fun f => List.filter f l) fs).
Proof.
  induction l as [|x l IH]; intros H.
  - clear H. induction fs as [|f fs IHf]; [done|]. cbn. by rewrite -IHf.
  - rewrite concat_filter_cons; [|apply H; set_solver]. f_equiv. apply IH. set_solver.
Qed.

Lemma empty_leb k : (EmptyString <=?s k) = true.
Proof. by destruct k. Qed.

(** Cutting the range of a query at the borders of a shard. *)
Lemma in_range_clip a b s e k : key_in_range (maxStr a s) (minStr b e) k = key_in_range a b k && key_in_range s e k.
Proof.
  unfold key_in_range. assert (Hlo : (maxStr a s <=?s k) = (a <=?s k) && (s <=?s k)).
  { unfold maxStr. destruct (s <?s a) eqn:Hsa.
    - destruct (a <=?s k) eqn:Hak; [|done]. symmetry. apply str_leb_le. apply str_leb_le in Hak as [Hak|<-]; left; [by trans a|done].
    - rewrite str_ltb_leb in Hsa. apply negb_false_iff in Hsa. destruct (s <=?s k) eqn:Hsk; [|by rewrite andb_false_r].
      rewrite (str_leb_trans _ _ _ Hsa Hsk) //. }
  assert (Hhi : ((minStr b e =?s EmptyString) || (k <?s minStr b e)) = ((b =?s EmptyString) || (k <?s b)) && ((e =?s EmptyString) || (k <?s e))).
  { unfold minStr. destruct (b =?s EmptyString) eqn:Hb; [done|]. destruct (e =?s EmptyString) eqn:He; [by rewrite Hb andb_true_r|].
    destruct (b <?s e) eqn:Hbe; rewrite ?Hb ?He; cbn.
    - destruct (k <?s b) eqn:Hkb; [|done]. symmetry. exact (transitivity (R := str_lt) Hkb Hbe).
    - destruct (k <?s e) eqn:Hke; [|by rewrite andb_false_r]. rewrite andb_true_r. symmetry. rewrite str_ltb_leb in Hbe. apply negb_false_iff in Hbe.
      apply str_leb_le in Hbe as [Hbe| <-]; [exact (transitivity (R := str_lt) Hke Hbe)|done]. }
  rewrite Hlo Hhi. destruct (a <=?s k), (s <=?s k), ((b =?s EmptyString) || (k <?s b)); done.
Qed.

(** A shard that is left out has no key of the query. *)
Lemma pruned_empty q s k : qu_KeyPrefix q = EmptyString -> keep_shard q s = false ->
  key_in_range (qu_StartKey q) (qu_EndKey q) k && key_in_range (sf_StartKey s) (sf_EndKey s) k = false.
Proof.
  intros Hp Hk. unfold keep_shard in Hk. rewrite Hp String.eqb_refl in Hk. apply not_true_is_false. intros H. unfold key_in_range in H. bool_hyp.
  destruct (_ && _ && _) eqn:Hprune in Hk.
  - bool_hyp. match goal with Hx : (sf_EndKey s <=?s qu_StartKey q) = true |- _ => rename Hx into Hes end.
    match goal with Hx : (sf_EndKey s =?s EmptyString) = true \/ _ |- _ => destruct Hx as [?|Hke]; [congruence|] end.
    match goal with Hx : (qu_StartKey q <=?s k) = true |- _ => rename Hx into Hqk end.
    pose proof (str_leb_trans _ _ _ Hes Hqk) as Hek. rewrite str_ltb_leb Hek in Hke. done.
  - clear Hprune. destruct (_ && _ && _) eqn:Hprune in Hk; [|done]. bool_hyp. match goal with Hx : (qu_EndKey q <=?s sf_StartKey s) = true |- _ => rename Hx into Hqs end.
    match goal with Hx : (qu_EndKey q =?s EmptyString) = true \/ _ |- _ => destruct Hx as [?|Hkq]; [congruence|] end.
    match goal with Hx : (sf_StartKey s <=?s k) = true |- _ => rename Hx into Hsk end.
    pose proof (str_leb_trans _ _ _ Hqs Hsk) as Hqk. rewrite str_ltb_leb Hqk in Hkq. done.
Qed.

Lemma filter_filter {A} (f g : A -> bool) l : List.filter f (List.filter g l) = List.filter (fun x => g x && f x) l.
Proof. induction l as [|x l IH]; [done|]. cbn. destruct (g x); cbn; [destruct (f x); by rewrite IH|done]. Qed.

Lemma concat_map_kept {A B} (keep : A -> bool) (f : A -> list B) l : (forall x, keep x = false -> f x = []) ->
  concat (map f l) = concat (map f (List.filter keep l)).
Proof. intros H. induction l as [|x l IH]; [done|]. cbn. destruct (keep x) eqn:Hk; cbn; [by rewrite IH|by rewrite H]. Qed.

(** The matching entries are those of the sub-queries, shard by shard. *)
Lemma matching_shards store shards q : shards_partition shards -> qu_KeyPrefix q = EmptyString ->
  matching store (qu_StartKey q) (qu_EndKey q) (qu_Filter q) ≡ₚ
  concat (map (fun sq => matching store (sq_StartKey sq) (sq_EndKey sq) (sq_Filter sq)) (ep_ShardPlans (Plan shards q))).
Proof.
  intros Hpart Hpre. set (m := matching store _ _ _). cbn [Plan ep_ShardPlans]. rewrite map_map. cbn [shard_query sq_StartKey sq_EndKey sq_Filter].
  assert (Hsub : forall s, matching store (maxStr (qu_StartKey q) (sf_StartKey s)) (minStr (qu_EndKey q) (sf_EndKey s)) (qu_Filter q) =
    List.filter (fun kv => key_in_range (sf_StartKey s) (sf_EndKey s) kv.1) m).
  { intros s. unfold m, matching. rewrite filter_filter. apply filter_ext. intros kv. rewrite in_range_clip.
    destruct (key_in_range (qu_StartKey q) _ _), (key_in_range (sf_StartKey s) _ _), (qu_Filter q kv.1 kv.2); done. }
  assert (Hall : m ≡ₚ concat (map (fun s => List.filter (fun kv : KeyValue => key_in_range (sf_StartKey s) (sf_EndKey s) kv.1) m) shards)).
  { rewrite {1}(partition_perm (map (fun s kv => key_in_range (sf_StartKey s) (sf_EndKey s) kv.1) shards) m); [by rewrite map_map|].
    intros x Hx. destruct (Hpart x.1) as (i & s & Hi & Hin & Hu). exists i. eexists. rewrite list_lookup_fmap Hi. split; [done|]. split; [done|].
    intros j g Hj Hg. apply list_lookup_fmap_Some in Hj as (s' & -> & Hs'). by eapply Hu. }
  rewrite {1}Hall (concat_map_kept (keep_shard q)); [by rewrite (map_ext _ _ Hsub)|].
  intros s Hs. apply bfilter_none. intros kv Hkv. unfold m, matching in Hkv. apply list_elem_of_In, filter_In in Hkv as [_ Hkv]. bool_hyp.
  pose proof (pruned_empty q s kv.1 Hpre Hs) as He. destruct (key_in_range (sf_StartKey s) _ _); [|done]. rewrite andb_true_r in He. congruence.
Qed.

Lemma apply_limit_take {A} n (l : list A) : apply_limit n l = if 0 <? n then take (Z.to_nat n) l else l.
Proof. unfold apply_limit, zlen. destruct (Z.ltb_spec 0 n); [|done]. cbn. destruct (Z.ltb_spec n (Z.of_nat (length l))); [done|]. rewrite take_ge //. lia. Qed.

Lemma map_apply_limit {A} n (ls : list (list A)) : map (apply_limit n) ls = if 0 <? n then map (take (Z.to_nat n)) ls else ls.
Proof. pose proof (@apply_limit_take A n) as H. destruct (0 <? n); [by apply map_ext|]. rewrite -{2}(map_id ls). by apply map_ext. Qed.

Lemma kv_less_weak : strict_weak kv_less.
Proof. apply (strict_weak_str (fun kv : KeyValue => kv.1)). Qed.

Lemma unique_sorted (l : list KeyValue) : StronglySorted (fun a b => kv_less b a = false) l -> NoDup (map fst l) -> kv_sorted l.
Proof.
  induction 1 as [|x l Hl IH Hx]; intros Hnd; [constructor|]. cbn in Hnd. apply NoDup_cons in Hnd as [Hni Hnd]. constructor; [by apply IH|].
  rewrite Forall_forall in Hx. apply Forall_forall. intros y Hy. specialize (Hx y Hy). unfold kv_less in Hx. rewrite str_ltb_leb in Hx. apply negb_false_iff in Hx.
  apply str_leb_le in Hx as [Hx|Hx]; [done|]. destruct Hni. rewrite Hx. apply list_elem_of_fmap. eauto.
Qed.

Lemma matching_NoDup store a b f : NoDup (map fst store) -> NoDup (map fst (matching store a b f)).
Proof.
  unfold matching. induction store as [|x store IH]; intros Hnd; [constructor|]. cbn in *. apply NoDup_cons in Hnd as [Hni Hnd].
  destruct (_ && _); [|by apply IH]. cbn. apply NoDup_cons. split; [|by apply IH]. intros (y & Heq & Hy)%list_elem_of_fmap. apply Hni.
  rewrite Heq. apply list_elem_of_fmap. exists y. split; [done|]. apply list_elem_of_In in Hy. apply filter_In in Hy as [Hy _]. by apply list_elem_of_In.
Qed.

Lemma limit_sublist {A} n (parts : list (list A)) : concat (map (apply_limit n) parts) `sublist_of` concat parts.
Proof.
  induction parts as [|p parts IH]; [constructor|]. cbn. apply sublist_app; [|done]. rewrite apply_limit_take. destruct (0 <? n); [apply sublist_take|done].
Qed.

Lemma concat_map_perm {A B} (f : A -> list B) l k : l ≡ₚ k -> concat (map f l) ≡ₚ concat (map f k).
Proof. intros H. rewrite -!flat_map_concat_map. by apply Permutation_flat_map. Qed.

Definition total (l : list Z) : Z := foldr Z.add 0 l.

Lemma total_perm l k : l ≡ₚ k -> total l = total k.
Proof. unfold total. induction 1; cbn; lia. Qed.

Lemma sum_counts_total results : Forall (fun r => 0 <= sr_Count r) (good results) -> total (map sr_Count (good results)) < two63 ->
  sum_counts results = total (map sr_Count (good results)).
Proof.
  unfold sum_counts. intros Hpos. enough (forall l acc, Forall (fun r => 0 <= sr_Count r) l -> 0 <= acc -> acc + total (map sr_Count l) < two63 ->
    fold_left (fun acc r => i64 (acc + sr_Count r)) l acc = acc + total (map sr_Count l)) as H by (intros Hlt; rewrite H //; lia).
  clear. unfold total. induction l as [|r l IH]; intros acc Hp Hacc Hlt; cbn in *; [lia|]. apply Forall_cons in Hp as [Hr Hp].
  assert (0 <= foldr Z.add 0 (map sr_Count l)) by (clear -Hp; induction Hp; cbn in *; lia).
  rewrite i64_small; [|lia]. rewrite IH //; lia.
Qed.

Lemma total_lengths {A} (ls : list (list A)) : total (map zlen ls) = zlen (concat ls).
Proof. unfold total. induction ls as [|l ls IH]; [done|]. cbn. by rewrite IH zlen_app. Qed.

Section distributed.
  Context {SS : SortSlice} {EX : ShardExecutor} (store : list KeyValue).
  Context {LE : LawfulExecutor store}.
  Context (Hstore : NoDup (map fst store)).

Lemma run_scans plans : Forall (fun sq => sq_LocalAgg sq = AggNone) plans -> forall n, Forall (fun sq => sq_Limit sq = n) plans ->
  exists parts, Forall kv_sorted parts /\
    concat parts ≡ₚ concat (map (fun sq => matching store (sq_StartKey sq) (sq_EndKey sq) (sq_Filter sq)) plans) /\
    map sr_Entries (map run_shard plans) = map (apply_limit n) parts /\ Forall (fun r => sr_Err r = false) (map run_shard plans).
Proof.
  induction 1 as [|sq plans Hsq _ IH]; intros n Hn; [exists []; by split_and!|]. apply Forall_cons in Hn as [Hl Hn].
  destruct (IH n Hn) as (parts & Hs & Hp & He & Hg). destruct (exec_scan sq Hsq) as (r & l & Hr & Herr & Hsort & Hperm & Hent).
  exists (l :: parts). cbn [map concat]. unfold run_shard at 1 3. rewrite Hr. split_and!.
  - by constructor.
  - by rewrite Hp Hperm.
  - by rewrite Hent Hl He.
  - by constructor.
Qed.

Lemma run_counts plans : Forall (fun sq => sq_LocalAgg sq = AggCount) plans ->
  map sr_Count (map run_shard plans) = map zlen (map (fun sq => matching store (sq_StartKey sq) (sq_EndKey sq) (sq_Filter sq)) plans) /\
  Forall (fun r => sr_Err r = false) (map run_shard plans).
Proof.
  induction 1 as [|sq plans Hsq _ (IH & Hg)]; [done|]. destruct (exec_count sq Hsq) as (r & Hr & Herr & Hc).
  cbn [map]. unfold run_shard at 1 3. rewrite Hr. split; [by rewrite Hc IH|by constructor].
Qed.

Lemma good_all arrived plans : arrived ≡ₚ map run_shard plans -> Forall (fun r => sr_Err r = false) (map run_shard plans) ->
  good arrived = arrived /\ existsb sr_Err arrived = false.
Proof.
  intros Hp Hg. rewrite -Hp in Hg. rewrite Forall_forall in Hg. split.
  - apply bfilter_all. intros r Hr. by rewrite Hg.
  - apply not_true_is_false. intros (r & Hr & He)%existsb_exists. rewrite Hg // in He. by apply list_elem_of_In.
Qed.

(** The entries of the sub-queries, merged and cut, are those of the store. *)
Lemma merge_entries shards arrived q : shards_partition shards -> qu_KeyPrefix q = EmptyString -> qu_Aggregation q = AggNone ->
  arrived ≡ₚ map run_shard (ep_ShardPlans (Plan shards q)) ->
  apply_limit (qu_Limit q) (sort_Slice kv_less (concat (map sr_Entries (good arrived)))) =
  apply_limit (qu_Limit q) (sort_Slice kv_less (matching store (qu_StartKey q) (qu_EndKey q) (qu_Filter q))) /\ existsb sr_Err arrived = false.
Proof.
  intros Hpart Hpre Hagg Harr. set (plans := ep_ShardPlans (Plan shards q)) in *.
  destruct (run_scans plans) with (n := qu_Limit q) as (parts & Hsort & Hperm & Hent & Hgood).
  { apply Forall_forall. intros sq (s & -> & _)%list_elem_of_fmap. cbn. by rewrite Hagg. }
  { apply Forall_forall. by intros sq (s & -> & _)%list_elem_of_fmap. }
  destruct (good_all arrived plans Harr Hgood) as [-> ->]. split; [|done].
  rewrite -(matching_shards store shards q Hpart Hpre) in Hperm. set (m := matching store _ _ _) in *.
  assert (Hc : concat (map sr_Entries arrived) ≡ₚ concat (map (apply_limit (qu_Limit q)) parts)) by (rewrite (concat_map_perm _ _ _ Harr) Hent //).
  assert (Hkeys : NoDup (map fst m)) by by apply matching_NoDup.
  assert (Hsm : kv_sorted (sort_Slice kv_less m)).
  { apply unique_sorted; [apply sort_Slice_sorted, kv_less_weak|]. by rewrite (sort_Slice_perm kv_less m). }
  assert (Hst : kv_sorted (sort_Slice kv_less (concat (map sr_Entries arrived)))).
  { apply unique_sorted; [apply sort_Slice_sorted, kv_less_weak|]. rewrite (sort_Slice_perm kv_less) Hc.
    eapply sublist_NoDup; [|apply (fmap_sublist fst), limit_sublist]. by rewrite -/(map fst (concat parts)) Hperm. }
  rewrite map_apply_limit in Hc. rewrite !apply_limit_take. destruct (0 <? qu_Limit q).
  - apply (take_of_parts _ parts); [done|done|done|by rewrite (sort_Slice_perm kv_less) Hperm|]. by rewrite (sort_Slice_perm kv_less) Hc.
  - apply key_sorted_unique; [done|done|]. intros x. by rewrite !(sort_Slice_perm kv_less) Hc Hperm.
Qed.

(** A query that leaves some shard is answered by merging. *)
Lemma Execute_merge shards arrived q : ep_ShardPlans (Plan shards q) <> [] ->
  exists r, Execute shards false arrived q = Some r /\ qr_PartialResult r = existsb sr_Err arrived /\
    qr_Entries r = qr_Entries (merge (Plan shards q) arrived) /\ qr_Count r = qr_Count (merge (Plan shards q) arrived).
Proof.
  intros Hne. unfold Execute. destruct (ep_ShardPlans (Plan shards q)) as [|pl ps]; [done|]. eexists. split_and!; [done| |done|done]. cbn -[merge].
  unfold merge. by destruct (ep_MergeOp _); try done; destruct (0 <? _).
Qed.

Lemma merge_count shards arrived q : shards_partition shards -> qu_KeyPrefix q = EmptyString -> qu_Aggregation q = AggCount -> zlen store < two63 ->
  arrived ≡ₚ map run_shard (ep_ShardPlans (Plan shards q)) ->
  sum_counts arrived = zlen (matching store (qu_StartKey q) (qu_EndKey q) (qu_Filter q)) /\ existsb sr_Err arrived = false.
Proof.
  intros Hpart Hpre Hagg Hsize Harr. set (plans := ep_ShardPlans (Plan shards q)) in *.
  destruct (run_counts plans) as [Hcnt Hgood].
  { apply Forall_forall. intros sq (s & -> & _)%list_elem_of_fmap. cbn. by rewrite Hagg. }
  destruct (good_all arrived plans Harr Hgood) as [Hg ->]. split; [|done].
  assert (Htot : total (map sr_Count arrived) = zlen (matching store (qu_StartKey q) (qu_EndKey q) (qu_Filter q))).
  { rewrite (total_perm _ (map sr_Count (map run_shard plans))); [|by rewrite Harr]. rewrite Hcnt total_lengths. unfold zlen.
    by rewrite -(matching_shards store shards q Hpart Hpre). }
  rewrite sum_counts_total Hg //.
  - apply Forall_forall. intros r Hr. rewrite Harr in Hr.
    assert (sr_Count r ∈ map sr_Count (map run_shard plans)) as Hc by (apply list_elem_of_fmap; eauto).
    rewrite Hcnt in Hc. apply list_elem_of_fmap in Hc as (l & -> & _). unfold zlen. lia.
  - rewrite Htot. eapply Z.le_lt_trans; [|exact Hsize]. unfold zlen, matching. apply inj_le. apply List.filter_length_le.
Qed.


End distributed.

(** ** An executor over a store *)

(** The executor that filters, sorts and cuts a list of entries; it knows no
    numeric values, so the other aggregates stay empty. *)
Definition store_executor (store : list KeyValue) : ShardExecutor := fun sq =>
  let m := sort_Slice kv_less (matching store (sq_StartKey sq) (sq_EndKey sq) (sq_Filter sq)) in
  Some (mkShardResult (sq_ShardID sq) (apply_limit (sq_Limit sq) m) (zlen m) fzero fzero fzero false).

Lemma store_executor_lawful store : NoDup (map fst store) -> @LawfulExecutor store (store_executor store).
Proof.
  intros Hnd. split; intros sq _; set (m := matching _ _ _ _).
  - eexists _, (sort_Slice kv_less m). split_and!; [done|done| |apply sort_Slice_perm|done].
    apply unique_sorted; [apply sort_Slice_sorted, kv_less_weak|]. rewrite (sort_Slice_perm kv_less m). by apply matching_NoDup.
  - eexists. split_and!; [done|done|]. cbn -[sort_Slice]. unfold zlen. by rewrite (sort_Slice_perm kv_less _).
Qed.

Definition two_shards : list ShardInfo := [mkShardInfo 1 EmptyString "m" "n1"; mkShardInfo 2 "m" EmptyString "n2"].

Lemma two_shards_partition : shards_partition two_shards.
Proof.
  intros key. assert (Hlow : key_in_range EmptyString "m" key = (key <?s "m")) by (unfold key_in_range; by destruct key).
  assert (Hhigh : key_in_range "m" EmptyString key = negb (key <?s "m")) by (unfold key_in_range; rewrite (str_ltb_leb key "m") negb_involutive andb_true_r //).
  destruct (key <?s "m") eqn:Hk; [exists 0%nat|exists 1%nat]; eexists; (split_and!; [done|by cbn; rewrite ?Hlow ?Hhigh|]);
    intros [|[|j]] s' Hs'; cbn in Hs'; simplify_eq; cbn; rewrite ?Hlow ?Hhigh; done.
Qed.

Definition sample_store : list KeyValue := [("p", ["1"%char]); ("c", ["2"%char]); ("z", ["3"%char]); ("a", ["4"%char])].

Definition scan_query (prefix start : string) (agg : AggregationType) (limit : Z) : Query :=
  mkQuery QueryScan prefix start EmptyString (fun _ _ => true) agg limit.


(** A key prefix only prunes: entries without the prefix come back. *)
Theorem query_prefix_not_filtered :
  let E := store_executor sample_store in let q := scan_query "p" EmptyString AggNone 0 in
  exists r, Execute two_shards false (map run_shard (ep_ShardPlans (Plan two_shards q))) q = Some r /\
    map fst (qr_Entries r) = ["p"; "z"].
Proof. eexists. split; vm_compute; reflexivity. Qed.

(** The maximum of negative numbers is answered as 0. *)
Theorem query_max_negative :
  let res := mkShardResult 1 [] 0 fzero fzero (f64 (-5)) false in
  exists r, Execute two_shards false [res; res] (scan_query EmptyString EmptyString AggMax 0) = Some r /\ qr_Max r = fzero.
Proof. eexists. split; vm_compute; reflexivity. Qed.

(** An average pushes down only the sum: shards asked for [AggSum] that report
    no count give an average of 0. *)
Theorem query_avg_asks_sum shards q : qu_Aggregation q = AggAvg ->
  Forall (fun sq => sq_LocalAgg sq = AggSum) (ep_ShardPlans (Plan shards q)).
Proof. intros Hq. apply Forall_forall. intros sq (s & -> & _)%list_elem_of_fmap. cbn. by rewrite Hq. Qed.
