(* ===== verification/ChangeFeed.v ===== *)
(** * ChangeFeed: change data capture (pkg/cdc/changefeed.go)

    The loop of a feed is a step on its state for each case of its [select]:
    an entry of the log, the end of the log, the ticker or the cancelled
    context.  A sink is an interface of the source; the sinks of the source are
    instances of [Sink], and [AtomicSink] states what exactly-once delivery
    needs of one.  The console lines of [LogSink] are kept as values; those of
    the feed itself are left out. *)

From S2P Require Import Prelude.

Inductive ChangeOp := OpInsert | OpUpdate | OpDelete.

Definition ChangeOp_String (op : ChangeOp) : string :=
  match op with OpInsert => "INSERT" | OpUpdate => "UPDATE" | OpDelete => "DELETE" end.

(** A byte slice that may be nil. *)
Definition image : Type := option (list ascii).

Record ChangeEvent := mkChangeEvent {
  ev_EventID : Z;
  ev_Timestamp : Z;
  ev_Op : ChangeOp;
  ev_Key : string;
  ev_BeforeValue : image;
  ev_AfterValue : image;
  ev_Version : Z;
  ev_ShardID : Z;
  ev_NodeID : string;
}.

Record ChangeFeedConfig := mkChangeFeedConfig {
  fc_ID : string;
  fc_KeyPrefix : string;
  fc_StartAt : Z;
  fc_BatchSize : Z;
  fc_FlushInterval : Z;
}.

Definition DefaultChangeFeedConfig (id : string) : ChangeFeedConfig := mkChangeFeedConfig id EmptyString 0 100 100000000.

Class Sink (σ : Type) := {
  Publish : σ -> list ChangeEvent -> σ * bool;
  Checkpoint : σ -> Z -> σ * bool;
}.

Record WALEntry := mkWALEntry {
  we_Sequence : Z;
  we_Timestamp : Z;
  we_Key : string;
  we_Value : image;
  we_Deleted : bool;
  we_ShardID : Z;
  we_NodeID : string;
}.

(** The state of a feed, with the batch of its loop. *)
Record ChangeFeed (σ : Type) := mkChangeFeed {
  cf_config : ChangeFeedConfig;
  cf_sink : σ;
  cf_lastEventID : Z;
  cf_running : bool;
  cf_eventsDelivered : Z;
  cf_batch : list ChangeEvent;
}.
Arguments mkChangeFeed {σ}. Arguments cf_config {σ}. Arguments cf_sink {σ}. Arguments cf_lastEventID {σ}.
Arguments cf_running {σ}. Arguments cf_eventsDelivered {σ}. Arguments cf_batch {σ}.

Definition NewChangeFeed {σ} (config : ChangeFeedConfig) (sink : σ) : ChangeFeed σ := mkChangeFeed config sink 0 false 0 [].

(** [None] when the feed is already running. *)
Definition CF_Start {σ} (f : ChangeFeed σ) : option (ChangeFeed σ) :=
  if cf_running f then None
  else Some (mkChangeFeed (cf_config f) (cf_sink f) (cf_lastEventID f) true (cf_eventsDelivered f) (cf_batch f)).

(** The filter on the key. *)
Definition passes (config : ChangeFeedConfig) (entry : WALEntry) : bool :=
  if negb (fc_KeyPrefix config =?s EmptyString) then
    negb ((Z.of_nat (String.length (we_Key entry)) <? Z.of_nat (String.length (fc_KeyPrefix config)))
          || negb (String.substring 0 (String.length (fc_KeyPrefix config)) (we_Key entry) =?s fc_KeyPrefix config))
  else true.

Definition build_event (fromVersion id : Z) (entry : WALEntry) : ChangeEvent :=
  let event op after := mkChangeEvent id (we_Timestamp entry) op (we_Key entry) None after (we_Sequence entry) (we_ShardID entry) (we_NodeID entry) in
  if we_Deleted entry then event OpDelete None
  else if we_Sequence entry <=? fromVersion then event OpUpdate (we_Value entry)
  else event OpInsert (we_Value entry).

(** What the [select] of the loop receives. *)
Inductive feed_input := InDone | InEntry (entry : WALEntry) | InClosed | InTick.

Record ChangeFeedStats := mkChangeFeedStats {
  fs_FeedID : string;
  fs_EventsDelivered : Z;
  fs_LastEventID : Z;
  fs_IsRunning : bool;
}.

Definition CF_Stats {σ} (f : ChangeFeed σ) : ChangeFeedStats :=
  mkChangeFeedStats (fc_ID (cf_config f)) (cf_eventsDelivered f) (cf_lastEventID f) (cf_running f).

Section feed.
  Context {σ : Type} {SK : Sink σ}.

Definition flush (f : ChangeFeed σ) : ChangeFeed σ :=
  match last (cf_batch f) with
  | None => f
  | Some lastEvent =>
      let '(sink, ok) := Publish (cf_sink f) (cf_batch f) in
      if (ok : bool) then
        let lastID := ev_EventID lastEvent in
        let '(sink, _) := Checkpoint sink lastID in
        mkChangeFeed (cf_config f) sink lastID (cf_running f) (u64 (cf_eventsDelivered f + zlen (cf_batch f))) []
      else mkChangeFeed (cf_config f) sink (cf_lastEventID f) (cf_running f) (cf_eventsDelivered f) (cf_batch f)
  end.

Definition on_entry (f : ChangeFeed σ) (entry : WALEntry) : ChangeFeed σ :=
  if passes (cf_config f) entry then
    let lastEventID := u64 (cf_lastEventID f + 1) in
    let event := build_event (fc_StartAt (cf_config f)) lastEventID entry in
    let f := mkChangeFeed (cf_config f) (cf_sink f) lastEventID (cf_running f) (cf_eventsDelivered f) (cf_batch f ++ [event]) in
    if fc_BatchSize (cf_config f) <=? zlen (cf_batch f) then flush f else f
  else f.

(** The deferred store when the loop returns. *)
Definition stopped (f : ChangeFeed σ) : ChangeFeed σ :=
  mkChangeFeed (cf_config f) (cf_sink f) (cf_lastEventID f) false (cf_eventsDelivered f) (cf_batch f).

(** The loop over what it receives; it returns at [InDone] and [InClosed]. *)
Fixpoint feed_loop (f : ChangeFeed σ) (inputs : list feed_input) : ChangeFeed σ :=
  match inputs with
  | [] => f
  | InDone :: _ => stopped (flush f)
  | InClosed :: _ => stopped (flush f)
  | InEntry entry :: inputs => feed_loop (on_entry f entry) inputs
  | InTick :: inputs => feed_loop (flush f) inputs
  end.

(** [None] is a log that cannot be read. *)
Definition run (f : ChangeFeed σ) (inputs : option (list feed_input)) : ChangeFeed σ :=
  match inputs with None => stopped f | Some inputs => feed_loop f inputs end.

End feed.

(** ** The sinks *)

Definition truncate (s : string) (n : Z) : string :=
  if Z.of_nat (String.length s) <=? n then s else String.append (String.substring 0 (Z.to_nat n) s) "...".

Inductive log_line :=
  | LineEvent (prefix op key : string) (version : Z)
  | LineAfter (after : string)
  | LineCheckpoint (prefix : string) (eventID : Z).

Record LogSink := mkLogSink { ls_prefix : string; ls_lines : list log_line }.

Definition NewLogSink (prefix : string) : LogSink := mkLogSink prefix [].

Definition event_lines (prefix : string) (e : ChangeEvent) : list log_line :=
  LineEvent prefix (ChangeOp_String (ev_Op e)) (ev_Key e) (ev_Version e) ::
  match ev_AfterValue e with Some v => [LineAfter (truncate (String.string_of_list_ascii v) 50)] | None => [] end.

Definition LogSink_Publish (s : LogSink) (events : list ChangeEvent) : LogSink * bool :=
  (mkLogSink (ls_prefix s) (ls_lines s ++ concat (map (event_lines (ls_prefix s)) events)), true).

Definition LogSink_Checkpoint (s : LogSink) (eventID : Z) : LogSink * bool :=
  (mkLogSink (ls_prefix s) (ls_lines s ++ [LineCheckpoint (ls_prefix s) eventID]), true).

#[export] Instance log_sink : Sink LogSink := {| Publish := LogSink_Publish; Checkpoint := LogSink_Checkpoint |}.

(** A buffered channel: its capacity and what is in it. *)
Record ChannelSink := mkChannelSink { cs_cap : Z; cs_ch : list ChangeEvent }.

Definition NewChannelSink (bufSize : Z) : ChannelSink := mkChannelSink bufSize [].

Fixpoint ChannelSink_Publish (s : ChannelSink) (events : list ChangeEvent) : ChannelSink * bool :=
  match events with
  | [] => (s, true)
  | e :: events =>
      if zlen (cs_ch s) <? cs_cap s then ChannelSink_Publish (mkChannelSink (cs_cap s) (cs_ch s ++ [e])) events
      else (s, false)
  end.

Definition ChannelSink_Checkpoint (s : ChannelSink) (eventID : Z) : ChannelSink * bool := (s, true).

#[export] Instance channel_sink : Sink ChannelSink := {| Publish := ChannelSink_Publish; Checkpoint := ChannelSink_Checkpoint |}.

Section fan_out.
  Context {σ : Type} {SK : Sink σ}.

(** The loop of both operations of [FanOutSink]: the first error ends it. *)
Fixpoint each_sink (op : σ -> σ * bool) (sinks : list σ) : list σ * bool :=
  match sinks with
  | [] => ([], true)
  | s :: sinks =>
      let '(s, ok) := op s in
      if (ok : bool) then let '(sinks, ok) := each_sink op sinks in (s :: sinks, ok) else (s :: sinks, false)
  end.

Definition FanOutSink_Publish (sinks : list σ) (events : list ChangeEvent) : list σ * bool :=
  each_sink (fun s => Publish s events) sinks.

Definition FanOutSink_Checkpoint (sinks : list σ) (eventID : Z) : list σ * bool :=
  each_sink (fun s => Checkpoint s eventID) sinks.

#[export] Instance fan_out_sink : Sink (list σ) := {| Publish := FanOutSink_Publish; Checkpoint := FanOutSink_Checkpoint |}.

End fan_out.

(** ** What a feed should deliver *)

(** The events of the entries that pass, numbered from [id + 1]. *)
Fixpoint events_from (config : ChangeFeedConfig) (id : Z) (entries : list WALEntry) : list ChangeEvent :=
  match entries with
  | [] => []
  | e :: entries =>
      if passes config e then build_event (fc_StartAt config) (u64 (id + 1)) e :: events_from config (u64 (id + 1)) entries
      else events_from config id entries
  end.

(** The entries received before the loop returns. *)
Fixpoint entries_of (inputs : list feed_input) : list WALEntry :=
  match inputs with
  | [] | InDone :: _ | InClosed :: _ => []
  | InEntry e :: inputs => e :: entries_of inputs
  | InTick :: inputs => entries_of inputs
  end.

(** A sink that takes all of a batch or nothing. *)
Class AtomicSink (σ : Type) {SK : Sink σ} := {
  delivered : σ -> list ChangeEvent;
  publish_ok : forall s events s', Publish s events = (s', true) -> delivered s' = delivered s ++ events;
  publish_fail : forall s events s', Publish s events = (s', false) -> delivered s' = delivered s;
  checkpoint_keeps : forall s id s' ok, Checkpoint s id = (s', ok) -> delivered s' = delivered s;
}.

(** The prefix test of the source is a prefix of strings. *)
Lemma passes_prefix config e : passes config e = String.prefix (fc_KeyPrefix config) (we_Key e).
Proof.
  unfold passes. destruct (String.eqb_spec (fc_KeyPrefix config) EmptyString) as [->|_]; [by destruct (we_Key e)|]. cbn [negb].
  generalize (we_Key e) (fc_KeyPrefix config). clear. intros k p. revert k. induction p as [|c p IH]; intros k; [by destruct k|].
  destruct k as [|d k]; [done|]. cbn [String.prefix String.length String.substring String.eqb]. specialize (IH k).
  destruct (Ascii.eqb_spec d c) as [->|Hne]; destruct (ascii_dec c _) as [Heq|Hn]; try congruence.
  - rewrite -IH. f_equal. f_equal. destruct (Z.ltb_spec (Z.of_nat (String.length k)) (Z.of_nat (String.length p))),
      (Z.ltb_spec (Z.of_nat (S (String.length k))) (Z.of_nat (S (String.length p)))); (done || lia).
  - by rewrite orb_true_r.
Qed.

Lemma build_event_id v id e : ev_EventID (build_event v id e) = id.
Proof. unfold build_event. by destruct (we_Deleted e), (we_Sequence e <=? v). Qed.

(** The numbers are consecutive. *)
Lemma events_from_ids config entries id i e : 0 <= id -> id + zlen entries < two64 ->
  events_from config id entries !! i = Some e -> ev_EventID e = id + 1 + Z.of_nat i.
Proof.
  revert id i. induction entries as [|x entries IH]; intros id i Hid Hlt Hi; [done|]. cbn in Hi. rewrite zlen_cons in Hlt. pose proof (zlen_nonneg entries).
  destruct (passes config x).
  - rewrite u64_small in Hi; [|lia]. destruct i as [|i]; cbn in Hi; [simplify_eq; rewrite build_event_id; lia|]. apply IH in Hi; lia.
  - apply IH in Hi; lia.
Qed.

Section delivery.
  Context {σ : Type} {SK : Sink σ} {AS : AtomicSink σ}.

(** The last event of the batch is the last that was numbered. *)
Definition batch_ok (f : ChangeFeed σ) : Prop := forall e, last (cf_batch f) = Some e -> ev_EventID e = cf_lastEventID f.

(** All that the feed has numbered: delivered or waiting. *)
Definition produced (f : ChangeFeed σ) : list ChangeEvent := delivered (cf_sink f) ++ cf_batch f.

(** How far the counter is ahead of what the sink holds. *)
Definition counted (base : Z) (f : ChangeFeed σ) : Prop := cf_eventsDelivered f = u64 (zlen (delivered (cf_sink f)) - base).

Lemma flush_spec base f : batch_ok f -> counted base f ->
  produced (flush f) = produced f /\ cf_lastEventID (flush f) = cf_lastEventID f /\ cf_config (flush f) = cf_config f /\
  batch_ok (flush f) /\ counted base (flush f).
Proof.
  intros Hb Hc. unfold flush. destruct (last (cf_batch f)) as [e|] eqn:Hl; [|done]. specialize (Hb e Hl).
  destruct (Publish (cf_sink f) (cf_batch f)) as [s' ok] eqn:Hp. destruct ok.
  - destruct (Checkpoint s' (ev_EventID e)) as [s'' ok'] eqn:Hk. apply checkpoint_keeps in Hk. apply publish_ok in Hp.
    unfold produced, batch_ok, counted in *. cbn. rewrite Hk Hp app_nil_r. split_and!; [done|done|done|done|].
    rewrite Hc zlen_app. unfold u64. rewrite Zplus_mod_idemp_l. f_equal. lia.
  - apply publish_fail in Hp. unfold produced, batch_ok, counted in *. cbn. rewrite Hp. split_and!; [done|done|done| |done].
    intros e' He'. rewrite Hl in He'. by simplify_eq.
Qed.

Lemma on_entry_spec base f e : batch_ok f -> counted base f ->
  produced (on_entry f e) = produced f ++ events_from (cf_config f) (cf_lastEventID f) [e] /\
  cf_lastEventID (on_entry f e) = (if passes (cf_config f) e then u64 (cf_lastEventID f + 1) else cf_lastEventID f) /\
  cf_config (on_entry f e) = cf_config f /\ batch_ok (on_entry f e) /\ counted base (on_entry f e).
Proof.
  intros Hb Hc. unfold on_entry. cbn [events_from]. destruct (passes (cf_config f) e); [|by rewrite app_nil_r]. cbv zeta.
  set (g := mkChangeFeed _ _ _ _ _ _).
  assert (Hg : batch_ok g). { intros e' He'. cbn in *. rewrite last_snoc in He'. simplify_eq. apply build_event_id. }
  assert (Hcg : counted base g) by done.
  assert (Hpg : produced g = produced f ++ [build_event (fc_StartAt (cf_config f)) (u64 (cf_lastEventID f + 1)) e]) by (unfold produced; cbn; by rewrite app_assoc).
  destruct (_ <=? _); [|done]. destruct (flush_spec base g Hg Hcg) as (-> & -> & -> & ? & ?). done.
Qed.

Lemma feed_loop_spec base inputs f : batch_ok f -> counted base f ->
  produced (feed_loop f inputs) = produced f ++ events_from (cf_config f) (cf_lastEventID f) (entries_of inputs) /\ counted base (feed_loop f inputs).
Proof.
  revert f. induction inputs as [|i inputs IH]; intros f Hb Hc; [by rewrite app_nil_r|]. destruct (flush_spec base f Hb Hc) as (Hp & Hl & Hcf & Hb' & Hc').
  destruct i as [|e| |]; cbn [feed_loop entries_of events_from].
  - rewrite app_nil_r. by split.
  - destruct (on_entry_spec base f e Hb Hc) as (Hp1 & Hl1 & Hcf1 & Hb1 & Hc1). destruct (IH _ Hb1 Hc1) as [-> ?]. split; [|done].
    rewrite Hp1 Hl1 Hcf1 -app_assoc. f_equal. cbn. by destruct (passes _ e).
  - rewrite app_nil_r. by split.
  - destruct (IH _ Hb' Hc') as [-> ?]. by rewrite Hp Hl Hcf.
Qed.

(** C19: a feed on a sink that takes whole batches delivers every change once
    and in order.  Whatever the loop receives and whichever publishes fail, what
    the sink holds followed by what still waits is exactly the events of the
    matching log entries in log order, numbered 1, 2, 3, ...; the counter of
    delivered events counts them; and once the feed stops with an empty batch
    nothing is missing. *)
Theorem changefeed_exactly_once (config : ChangeFeedConfig) (sink : σ) (inputs : list feed_input) (Hlen : zlen (entries_of inputs) < two64) :
  let f := run (NewChangeFeed config sink) (Some inputs) in
  let events := events_from config 0 (entries_of inputs) in
  delivered (cf_sink f) ++ cf_batch f = delivered sink ++ events /\
  cf_eventsDelivered f = u64 (zlen (delivered (cf_sink f)) - zlen (delivered sink)) /\
  (forall i e, events !! i = Some e -> ev_EventID e = Z.of_nat i + 1) /\
  (cf_batch f = [] -> delivered (cf_sink f) = delivered sink ++ events).
Proof.
  cbv zeta. destruct (feed_loop_spec (zlen (delivered sink)) inputs (NewChangeFeed config sink)) as [Hp Hc]; [done|unfold counted; cbn; by rewrite Z.sub_diag|].
  unfold produced in Hp. cbn in *. rewrite app_nil_r in Hp. split_and!; [done|done| |].
  - intros i e Hi. apply events_from_ids in Hi; [lia|lia|lia].
  - intros Hb. by rewrite Hb app_nil_r in Hp.
Qed.

End delivery.

(** ** A sink that fails for a while *)

(** It refuses the first [fl_fails] batches. *)
Record FlakySink := mkFlakySink { fl_fails : nat; fl_got : list ChangeEvent }.

#[export] Instance flaky_sink : Sink FlakySink := {|
  Publish s events := match fl_fails s with S n => (mkFlakySink n (fl_got s), false) | O => (mkFlakySink O (fl_got s ++ events), true) end;
  Checkpoint s _ := (s, true) |}.

#[export] Program Instance flaky_atomic : AtomicSink FlakySink := {| delivered := fl_got |}.
Next Obligation. intros [[|n] got] events s' H; cbn in *; by simplify_eq. Qed.
Next Obligation. intros [[|n] got] events s' H; cbn in *; by simplify_eq. Qed.
Next Obligation. intros s id s' ok H. cbn in H. by simplify_eq. Qed.

Definition put_entry (seq : Z) (key : string) : WALEntry := mkWALEntry seq 0 key (Some ["v"%char]) false 1 "n1".

Definition sample_inputs : list feed_input :=
  [InEntry (put_entry 1 "user:1"); InEntry (put_entry 2 "order:1"); InEntry (put_entry 3 "user:2"); InEntry (put_entry 4 "user:1"); InTick; InDone].

Definition sample_config : ChangeFeedConfig := mkChangeFeedConfig "feed" "user:" 0 2 100.

Lemma changefeed_exactly_once_witness :
  let f := run (NewChangeFeed sample_config (mkFlakySink 1 [])) (Some sample_inputs) in
  map ev_EventID (fl_got (cf_sink f)) = [1; 2; 3] /\ fl_got (cf_sink f) = events_from sample_config 0 (entries_of sample_inputs).
Proof.
  intros f. split; [by vm_compute|].
  destruct (changefeed_exactly_once sample_config (mkFlakySink 1 []) sample_inputs) as (_ & _ & _ & H); [by vm_compute|].
  by apply H; vm_compute.
Defined.

(** ** Sinks that are not atomic *)

(** A channel takes what fits before it refuses the batch. *)
Lemma channel_publish_fits s events : ChannelSink_Publish s events =
  (mkChannelSink (cs_cap s) (cs_ch s ++ take (Z.to_nat (cs_cap s - zlen (cs_ch s))) events), bool_decide (zlen events <= Z.max 0 (cs_cap s - zlen (cs_ch s)))).
Proof.
  revert s. induction events as [|e events IH]; intros [cap ch]; cbn [ChannelSink_Publish cs_cap cs_ch].
  - rewrite take_nil app_nil_r bool_decide_true //. unfold zlen. cbn. lia.
  - pose proof (zlen_nonneg events). rewrite zlen_cons. destruct (Z.ltb_spec (zlen ch) cap) as [Hlt|Hge].
    + rewrite IH. cbn [cs_cap cs_ch]. rewrite zlen_app zlen_cons zlen_nil -app_assoc.
      replace (Z.to_nat (cap - zlen ch)) with (S (Z.to_nat (cap - (zlen ch + (0 + 1))))) by lia. cbn [app take]. f_equal. apply bool_decide_ext. lia.
    + rewrite bool_decide_false; [|lia]. by replace (Z.to_nat (cap - zlen ch)) with O by lia; rewrite app_nil_r.
Qed.

(** A batch larger than an empty channel is never accepted: each flush sends
    its first events again and keeps the batch. *)
Theorem channel_sink_resends f : cs_ch (cf_sink f) = [] -> 0 <= cs_cap (cf_sink f) < zlen (cf_batch f) ->
  cf_batch (flush f) = cf_batch f /\ cs_ch (cf_sink (flush f)) = take (Z.to_nat (cs_cap (cf_sink f))) (cf_batch f).
Proof.
  intros Hch Hcap. unfold flush. destruct (last (cf_batch f)) as [e|] eqn:Hl.
  - cbn [Publish channel_sink]. rewrite channel_publish_fits Hch bool_decide_false; [by rewrite zlen_nil Z.sub_0_r|rewrite zlen_nil; lia].
  - apply last_None in Hl. rewrite Hl zlen_nil in Hcap. lia.
Qed.

(** When a later sink of a fan-out refuses, the earlier ones get the batch again. *)
Theorem fan_out_duplicates :
  let f := run (NewChangeFeed sample_config [mkFlakySink 0 []; mkFlakySink 1 []]) (Some sample_inputs) in
  map (fun s => map ev_EventID (fl_got s)) (cf_sink f) = [[1; 2; 1; 2; 3]; [1; 2; 3]].
Proof. by vm_compute. Qed.

(** A second write of a key is reported as an insert. *)
Theorem update_reported_as_insert :
  map (fun e => (ev_Key e, ev_Op e)) (events_from sample_config 0 [put_entry 1 "user:1"; put_entry 4 "user:1"]) = [("user:1", OpInsert); ("user:1", OpInsert)].
Proof. by vm_compute. Qed.
