(* ===== verification/RateLimit.v ===== *)
(** * RateLimit: limiters and the circuit breaker (pkg/ratelimit/limiter.go)

    [TokenBucket], [SlidingWindowCounter], [DistributedRateLimiter] and
    [CircuitBreaker], each call of [time.Now] an argument in nanoseconds.  On
    whole seconds and whole tokens the floating-point bucket is an integer one
    ([token_bucket_refines]). *)

From Stdlib Require Import SpecFloat.
From S2P Require Import Prelude Float64.

(** [math.Min]. *)
Definition fmin (x y : float64) : float64 :=
  match x, y with
  | S754_infinity true, _ | _, S754_infinity true => S754_infinity true
  | S754_nan, _ | _, S754_nan => S754_nan
  | S754_zero s, S754_zero _ => if s then x else y
  | _, _ => if fltb x y then x else y
  end.

(** ** The token bucket *)

Record TokenBucket := mkTokenBucket {
  tb_capacity : float64;
  tb_rate : float64;
  tb_tokens : float64;
  tb_lastTime : Z;
  tb_allowed : Z;
  tb_rejected : Z;
}.

Definition NewTokenBucket (now : Z) (capacity rate : float64) : TokenBucket := mkTokenBucket capacity rate capacity now 0 0.

(** The refill that starts [Allow] and [AllowN]. *)
Definition refill (now : Z) (tb : TokenBucket) : float64 :=
  let elapsed := Seconds (now - tb_lastTime tb) in
  fmin (tb_capacity tb) (fadd (tb_tokens tb) (fmul elapsed (tb_rate tb))).

Definition TB_Allow (now : Z) (cost : float64) (tb : TokenBucket) : bool * TokenBucket :=
  let tokens := refill now tb in
  if fleb cost tokens then (true, mkTokenBucket (tb_capacity tb) (tb_rate tb) (fsub tokens cost) now (i64 (tb_allowed tb + 1)) (tb_rejected tb))
  else (false, mkTokenBucket (tb_capacity tb) (tb_rate tb) tokens now (tb_allowed tb) (i64 (tb_rejected tb + 1))).

Definition AllowN (now : Z) (n : Z) (tb : TokenBucket) : Z * TokenBucket :=
  let tokens := refill now tb in
  let allowed := ftrunc (fmin (f64 n) tokens) in
  (allowed, mkTokenBucket (tb_capacity tb) (tb_rate tb) (fsub tokens (f64 allowed)) now (i64 (tb_allowed tb + allowed)) (i64 (tb_rejected tb + i64 (n - allowed)))).

(** The time until the next token. *)
Definition waitTime (tb : TokenBucket) : Z := ftrunc (fmul (fdiv (fsub (f64 1) (tb_tokens tb)) (tb_rate tb)) (f64 Second)).

(** Each timer fires [late] after its time; the context is cancelled when the
    list ends. *)
Fixpoint Wait (now : Z) (late : list Z) (tb : TokenBucket) : bool * TokenBucket :=
  let '(ok, tb) := TB_Allow now (f64 1) tb in
  if (ok : bool) then (true, tb)
  else match late with [] => (false, tb) | l :: late => Wait (now + waitTime tb + l) late tb end.

Record TokenBucketStats := mkTokenBucketStats {
  ts_Capacity : float64;
  ts_Rate : float64;
  ts_CurrentTokens : float64;
  ts_Allowed : Z;
  ts_Rejected : Z;
}.

Definition TB_Stats (tb : TokenBucket) : TokenBucketStats :=
  mkTokenBucketStats (tb_capacity tb) (tb_rate tb) (tb_tokens tb) (tb_allowed tb) (tb_rejected tb).

(** ** The sliding window *)

Record SlidingWindowCounter := mkSlidingWindowCounter {
  sw_limit : Z;
  sw_windowSize : Z;
  sw_currCount : Z;
  sw_prevCount : Z;
  sw_windowStart : Z;
  sw_allowed : Z;
  sw_rejected : Z;
}.

Definition NewSlidingWindowCounter (now limit windowSize : Z) : SlidingWindowCounter := mkSlidingWindowCounter limit windowSize 0 0 now 0 0.

(** Moving to the window of [now]; [None] is the panic of a zero window. *)
Definition rotate (now : Z) (sw : SlidingWindowCounter) : option SlidingWindowCounter :=
  let elapsed := now - sw_windowStart sw in
  if sw_windowSize sw <=? elapsed then
    let prevCount := if i64 (2 * sw_windowSize sw) <=? elapsed then 0 else sw_currCount sw in
    if sw_windowSize sw =? 0 then None
    else Some (mkSlidingWindowCounter (sw_limit sw) (sw_windowSize sw) 0 prevCount
                 (sw_windowStart sw + Z.quot elapsed (sw_windowSize sw) * sw_windowSize sw) (sw_allowed sw) (sw_rejected sw))
  else Some sw.

Definition SW_Allow (now : Z) (sw : SlidingWindowCounter) : option (bool * SlidingWindowCounter) :=
  sw ← rotate now sw;
  let elapsed := now - sw_windowStart sw in
  let prevWeight := fsub (f64 1) (fdiv (Seconds elapsed) (Seconds (sw_windowSize sw))) in
  let estimated := fadd (fmul (f64 (sw_prevCount sw)) prevWeight) (f64 (sw_currCount sw)) in
  if sw_limit sw <? i64 (ftrunc estimated + 1) then
    Some (false, mkSlidingWindowCounter (sw_limit sw) (sw_windowSize sw) (sw_currCount sw) (sw_prevCount sw) (sw_windowStart sw)
                   (sw_allowed sw) (i64 (sw_rejected sw + 1)))
  else
    Some (true, mkSlidingWindowCounter (sw_limit sw) (sw_windowSize sw) (i64 (sw_currCount sw + 1)) (sw_prevCount sw) (sw_windowStart sw)
                  (i64 (sw_allowed sw + 1)) (sw_rejected sw)).

Record SlidingWindowStats := mkSlidingWindowStats {
  wst_Limit : Z;
  wst_WindowSize : Z;
  wst_CurrentRate : float64;
  wst_Allowed : Z;
  wst_Rejected : Z;
}.

Definition SW_Stats (sw : SlidingWindowCounter) : SlidingWindowStats :=
  mkSlidingWindowStats (sw_limit sw) (sw_windowSize sw) (f64 (sw_currCount sw)) (sw_allowed sw) (sw_rejected sw).

(** ** The distributed limiter *)

Record DistributedRateLimiter := mkDistributedRateLimiter {
  dr_nodeID : string;
  dr_globalLimit : float64;
  dr_gossipEvery : Z;
  dr_localLimit : float64;
  dr_localBucket : TokenBucket;
  dr_peerRates : gmap string float64;
  dr_globalAllowed : Z;
  dr_globalRejected : Z;
}.

Definition NewDistributedRateLimiter (now : Z) (nodeID : string) (globalLimit : float64) (clusterSize : Z) : DistributedRateLimiter :=
  let localLimit := fdiv globalLimit (f64 clusterSize) in
  mkDistributedRateLimiter nodeID globalLimit 100000000 localLimit (NewTokenBucket now localLimit localLimit) ∅ 0 0.

Definition DR_Allow (now : Z) (d : DistributedRateLimiter) : bool * DistributedRateLimiter :=
  let '(allowed, bucket) := TB_Allow now (f64 1) (dr_localBucket d) in
  (allowed, mkDistributedRateLimiter (dr_nodeID d) (dr_globalLimit d) (dr_gossipEvery d) (dr_localLimit d) bucket (dr_peerRates d)
              (if allowed then i64 (dr_globalAllowed d + 1) else dr_globalAllowed d)
              (if allowed then dr_globalRejected d else i64 (dr_globalRejected d + 1))).

(** [iterate] is the iteration over the map: rounding depends on its order. *)
Definition UpdatePeerRate (iterate : gmap string float64 -> list (string * float64)) (peerID : string) (rate : float64)
    (d : DistributedRateLimiter) : DistributedRateLimiter :=
  let peerRates := <[peerID := rate]> (dr_peerRates d) in
  let totalPeerRate := fold_left (fun acc x => fadd acc x.2) (iterate peerRates) fzero in
  let newLocalLimit := fsub (dr_globalLimit d) totalPeerRate in
  let tenth := fmul (dr_globalLimit d) (fdec 1 1) in
  let newLocalLimit := if fltb newLocalLimit tenth then tenth else newLocalLimit in
  let newLocalLimit := if fltb (dr_globalLimit d) newLocalLimit then dr_globalLimit d else newLocalLimit in
  mkDistributedRateLimiter (dr_nodeID d) (dr_globalLimit d) (dr_gossipEvery d) newLocalLimit (dr_localBucket d) peerRates (dr_globalAllowed d) (dr_globalRejected d).

Definition CurrentRate (d : DistributedRateLimiter) : float64 :=
  let stats := TB_Stats (dr_localBucket d) in fsub (dr_localLimit d) (ts_CurrentTokens stats).

Record DistRateLimiterStats := mkDistRateLimiterStats {
  ds_NodeID : string;
  ds_GlobalLimit : float64;
  ds_LocalLimit : float64;
  ds_PeerCount : Z;
  ds_GlobalAllowed : Z;
  ds_GlobalRejected : Z;
}.

Definition DR_Stats (d : DistributedRateLimiter) : DistRateLimiterStats :=
  mkDistRateLimiterStats (dr_nodeID d) (dr_globalLimit d) (dr_localLimit d) (Z.of_nat (size (dr_peerRates d))) (dr_globalAllowed d) (dr_globalRejected d).

(** ** The circuit breaker *)

Inductive CircuitState := CircuitClosed | CircuitOpen | CircuitHalfOpen.

#[export] Instance CircuitState_eq : EqDecision CircuitState.
Proof. solve_decision. Defined.

Definition CircuitState_String (s : CircuitState) : string :=
  match s with CircuitClosed => "CLOSED" | CircuitOpen => "OPEN" | CircuitHalfOpen => "HALF_OPEN" end.

Record CircuitBreaker := mkCircuitBreaker {
  cb_name : string;
  cb_failureThreshold : float64;
  cb_successThreshold : Z;
  cb_cooldown : Z;
  cb_state : CircuitState;
  cb_failures : Z;
  cb_successes : Z;
  cb_totalRequests : Z;
  cb_lastFailure : Z;
  cb_openedAt : Z;
  cb_allowed : Z;
  cb_rejected : Z;
}.

(** [zeroTime] is the zero [time.Time] of the two unset instants. *)
Definition NewCircuitBreaker (zeroTime : Z) (name : string) : CircuitBreaker :=
  mkCircuitBreaker name (fdec 5 1) 5 (10 * Second) CircuitClosed 0 0 0 zeroTime zeroTime 0 0.

Definition CB_Allow (now : Z) (cb : CircuitBreaker) : bool * CircuitBreaker :=
  let '(mkCircuitBreaker name ft st cd state failures successes total lastFailure openedAt allowed rejected) := cb in
  match state with
  | CircuitClosed => (true, mkCircuitBreaker name ft st cd state failures successes (i64 (total + 1)) lastFailure openedAt (i64 (allowed + 1)) rejected)
  | CircuitOpen =>
      if cd <=? now - openedAt then
        (true, mkCircuitBreaker name ft st cd CircuitHalfOpen 0 0 (i64 (total + 1)) lastFailure openedAt (i64 (allowed + 1)) rejected)
      else (false, mkCircuitBreaker name ft st cd state failures successes total lastFailure openedAt allowed (i64 (rejected + 1)))
  | CircuitHalfOpen =>
      let total := i64 (total + 1) in
      if Z.rem total 2 =? 0 then (true, mkCircuitBreaker name ft st cd state failures successes total lastFailure openedAt (i64 (allowed + 1)) rejected)
      else (false, mkCircuitBreaker name ft st cd state failures successes total lastFailure openedAt allowed (i64 (rejected + 1)))
  end.

Definition CB_Success (cb : CircuitBreaker) : CircuitBreaker :=
  let '(mkCircuitBreaker name ft st cd state failures successes total lastFailure openedAt allowed rejected) := cb in
  let successes := i64 (successes + 1) in
  if bool_decide (state = CircuitHalfOpen) && (st <=? successes) then
    mkCircuitBreaker name ft st cd CircuitClosed 0 successes 0 lastFailure openedAt allowed rejected
  else mkCircuitBreaker name ft st cd state failures successes total lastFailure openedAt allowed rejected.

Definition CB_Failure (now : Z) (cb : CircuitBreaker) : CircuitBreaker :=
  let '(mkCircuitBreaker name ft st cd state failures successes total lastFailure openedAt allowed rejected) := cb in
  let failures := i64 (failures + 1) in
  let lastFailure := now in
  match state with
  | CircuitClosed =>
      if (10 <? total) && fleb ft (fdiv (f64 failures) (f64 total)) then
        mkCircuitBreaker name ft st cd CircuitOpen failures successes total lastFailure now allowed rejected
      else mkCircuitBreaker name ft st cd state failures successes total lastFailure openedAt allowed rejected
  | CircuitHalfOpen => mkCircuitBreaker name ft st cd CircuitOpen failures successes total lastFailure now allowed rejected
  | CircuitOpen => mkCircuitBreaker name ft st cd state failures successes total lastFailure openedAt allowed rejected
  end.

Definition State (cb : CircuitBreaker) : CircuitState := cb_state cb.

(** ** The bucket over the integers

    Requests are instants in whole seconds with their costs. *)

Definition request : Type := Z * Z.

Fixpoint allow_all (requests : list request) (tb : TokenBucket) : list bool :=
  match requests with
  | [] => []
  | (now, cost) :: requests => let '(ok, tb) := TB_Allow (now * Second) (f64 cost) tb in ok :: allow_all requests tb
  end.

(** The reference: whole tokens. *)
Fixpoint int_bucket (cap rate tokens lastTime : Z) (requests : list request) : list bool :=
  match requests with
  | [] => []
  | (now, cost) :: requests =>
      let tokens := Z.min cap (tokens + (now - lastTime) * rate) in
      bool_decide (cost <= tokens) :: int_bucket cap rate (if bool_decide (cost <= tokens) then tokens - cost else tokens) now requests
  end.

(** Requests come in the order of time, before [finish]. *)
Fixpoint in_order (start finish : Z) (requests : list request) : Prop :=
  match requests with
  | [] => start <= finish
  | (now, cost) :: requests => start <= now /\ 0 <= cost < two53 /\ in_order now finish requests
  end.

Fixpoint spent (answers : list bool) (requests : list request) : Z :=
  match answers, requests with
  | ok :: answers, (_, cost) :: requests => (if (ok : bool) then cost else 0) + spent answers requests
  | _, _ => 0
  end.

Lemma in_order_le start finish requests : in_order start finish requests -> start <= finish.
Proof. revert start. induction requests as [|[now cost] requests IH]; intros start; cbn; [done|]. intros (? & _ & ?%IH). lia. Qed.

Lemma Seconds_whole s : 0 <= s < two53 -> Seconds (s * Second) = f64 s.
Proof.
  intros Hs. unfold Seconds. rewrite Z.quot_mul // Z.rem_mul //. replace (fdiv (f64 0) (f64 Second)) with (f64 0) by by vm_compute.
  rewrite f64_add; [|lia..]. by rewrite Z.add_0_r.
Qed.

Lemma fmin_whole a b : 0 <= a < two53 -> 0 <= b < two53 -> fmin (f64 a) (f64 b) = f64 (Z.min a b).
Proof.
  intros Ha Hb. pose proof (f64_ltb a b Ha Hb) as Hlt.
  assert (Hmin : (if fltb (f64 a) (f64 b) then f64 a else f64 b) = f64 (Z.min a b)) by (rewrite Hlt; destruct (Z.ltb_spec a b); f_equal; lia).
  destruct (rep_f64 a Ha) as [[-> Hfa]|(m & e & Hfa & _)], (rep_f64 b Hb) as [[-> Hfb]|(m' & e' & Hfb & _)]; rewrite ?Hfa ?Hfb in Hmin |- *; exact Hmin.
Qed.

Lemma refill_whole cap rate tokens lastTime now allowed rejected :
  0 <= cap < two53 -> 0 <= rate < two53 -> 0 <= tokens -> 0 <= now - lastTime < two53 -> tokens + (now - lastTime) * rate < two53 ->
  refill (now * Second) (mkTokenBucket (f64 cap) (f64 rate) (f64 tokens) (lastTime * Second) allowed rejected) =
  f64 (Z.min cap (tokens + (now - lastTime) * rate)).
Proof.
  intros Hc Hr Ht Hn Hb. unfold refill. cbn [tb_lastTime tb_capacity tb_tokens tb_rate]. rewrite -Z.mul_sub_distr_r Seconds_whole //.
  assert (0 <= (now - lastTime) * rate) by (apply Z.mul_nonneg_nonneg; lia).
  rewrite f64_mul; [|lia..]. rewrite f64_add; [|lia..]. rewrite fmin_whole //; lia.
Qed.

Lemma int_bucket_tokens cap rate tokens lastTime requests finish : 0 <= rate -> 0 <= tokens -> 0 <= cap -> in_order lastTime finish requests ->
  spent (int_bucket cap rate tokens lastTime requests) requests <= tokens + rate * (finish - lastTime).
Proof.
  revert tokens lastTime. induction requests as [|[now cost] requests IH]; intros tokens lastTime Hr Ht Hc; cbn [in_order int_bucket spent].
  - intros ?. nia.
  - intros (Hn & Hcost & Hord). set (t := Z.min cap _). assert (0 <= t) by nia.
    assert (t <= tokens + (now - lastTime) * rate) by lia. destruct (bool_decide_reflect (cost <= t)).
    + specialize (IH (t - cost) now Hr ltac:(lia) Hc Hord). nia.
    + specialize (IH t now Hr ltac:(lia) Hc Hord). nia.
Qed.

Lemma allow_all_refines cap rate tokens lastTime requests finish allowed rejected :
  0 <= cap < two53 -> 0 <= rate < two53 -> 0 <= tokens <= cap -> in_order lastTime finish requests ->
  finish - lastTime < two53 -> cap + rate * (finish - lastTime) < two53 ->
  allow_all requests (mkTokenBucket (f64 cap) (f64 rate) (f64 tokens) (lastTime * Second) allowed rejected) = int_bucket cap rate tokens lastTime requests.
Proof.
  intros Hc Hr. revert tokens lastTime allowed rejected. induction requests as [|[now cost] requests IH]; intros tokens lastTime allowed rejected Ht Hord Hf Hb; [done|].
  cbn [in_order] in Hord. destruct Hord as (Hn & Hcost & Hord). pose proof (in_order_le _ _ _ Hord) as Hle.
  cbn [allow_all int_bucket]. unfold TB_Allow. cbv zeta. rewrite refill_whole //; [|lia|lia|nia]. set (t := Z.min cap _).
  assert (0 <= t <= cap) by nia. rewrite f64_leb; [|lia..]. cbn [tb_capacity tb_rate tb_allowed tb_rejected].
  destruct (Z.leb_spec cost t).
  - rewrite bool_decide_true //. f_equal. rewrite f64_sub; [|lia..]. apply IH; [lia|done|lia|nia].
  - rewrite bool_decide_false; [|lia]. f_equal. apply IH; [lia|done|lia|nia].
Qed.



(** ** The windows *)

(** After [rotate] the instant lies in the current window, which starts a whole
    number of windows after the old one; a count survives only into the next. *)
Theorem rotate_window now sw : 0 < sw_windowSize sw < 2 ^ 62 -> sw_windowStart sw <= now ->
  exists sw' k, rotate now sw = Some sw' /\ 0 <= k /\ sw_windowStart sw' = sw_windowStart sw + k * sw_windowSize sw /\
    sw_windowStart sw' <= now < sw_windowStart sw' + sw_windowSize sw /\
    (sw_currCount sw', sw_prevCount sw') =
      (if k =? 0 then (sw_currCount sw, sw_prevCount sw) else if k =? 1 then (0, sw_currCount sw) else (0, 0)).
Proof.
  intros Hw Hn. unfold rotate. rewrite i64_small; [|lia]. destruct (Z.leb_spec (sw_windowSize sw) (now - sw_windowStart sw)) as [Hge|Hlt].
  - assert (sw_windowSize sw =? 0 = false) as -> by lia. set (w := sw_windowSize sw) in *. set (el := now - sw_windowStart sw) in *.
    rewrite Z.quot_div_nonneg; [|lia|lia]. pose proof (Z.div_mod el w ltac:(lia)). pose proof (Z.mod_pos_bound el w ltac:(lia)).
    eexists _, (el / w). split; [done|]. cbn. split_and!; [apply Z.div_pos; lia|lia|nia|nia|].
    assert (1 <= el / w) by (apply Z.div_le_lower_bound; lia). destruct (Z.eqb_spec (el / w) 0); [lia|].
    destruct (Z.eqb_spec (el / w) 1) as [Heq|Hne]; f_equal; destruct (Z.leb_spec (2 * w) el); try done.
    + assert (2 <= el / w) by (apply Z.div_le_lower_bound; lia). lia.
    + assert (el / w < 2) by (apply Z.div_lt_upper_bound; lia). lia.
  - exists sw, 0. cbn. split_and!; [done|lia|lia|lia|lia|done].
Qed.

(** ** Peers *)

(** What peers report changes no answer: the bucket keeps its first rate. *)
Theorem peer_rate_ignored iterate peerID rate now d :
  (DR_Allow now (UpdatePeerRate iterate peerID rate d)).1 = (DR_Allow now d).1 /\
  dr_localBucket (UpdatePeerRate iterate peerID rate d) = dr_localBucket d.
Proof. unfold DR_Allow, UpdatePeerRate. cbn. by destruct (TB_Allow _ _ _). Qed.

(** ** The breaker's protocol *)

Inductive cb_op := DoAllow (now : Z) | DoSuccess | DoFailure (now : Z).

Definition cb_step (op : cb_op) (cb : CircuitBreaker) : option bool * CircuitBreaker :=
  match op with
  | DoAllow now => let '(ok, cb) := CB_Allow now cb in (Some ok, cb)
  | DoSuccess => (None, CB_Success cb)
  | DoFailure now => (None, CB_Failure now cb)
  end.

Fixpoint cb_run (ops : list cb_op) (cb : CircuitBreaker) : list bool * CircuitBreaker :=
  match ops with
  | [] => ([], cb)
  | op :: ops =>
      let '(a, cb) := cb_step op cb in let '(answers, cb) := cb_run ops cb in
      (match a with Some ok => ok :: answers | None => answers end, cb)
  end.

(** The transitions the documentation names, each with its cause. *)
Inductive transition (cb : CircuitBreaker) : cb_op -> CircuitState -> Prop :=
  | t_stay op s : s = cb_state cb -> transition cb op s
  | t_trip now : cb_state cb = CircuitClosed -> 10 < cb_totalRequests cb ->
      fleb (cb_failureThreshold cb) (fdiv (f64 (i64 (cb_failures cb + 1))) (f64 (cb_totalRequests cb))) = true -> transition cb (DoFailure now) CircuitOpen
  | t_probe now : cb_state cb = CircuitOpen -> cb_cooldown cb <= now - cb_openedAt cb -> transition cb (DoAllow now) CircuitHalfOpen
  | t_recover : cb_state cb = CircuitHalfOpen -> cb_successThreshold cb <= i64 (cb_successes cb + 1) -> transition cb DoSuccess CircuitClosed
  | t_relapse now : cb_state cb = CircuitHalfOpen -> transition cb (DoFailure now) CircuitOpen.

(** An operation before the end of the cooldown. *)
Definition cooling (cb : CircuitBreaker) (op : cb_op) : Prop :=
  match op with DoAllow now => now - cb_openedAt cb < cb_cooldown cb | _ => True end.

Lemma cb_step_transition op cb : transition cb op (cb_state (cb_step op cb).2).
Proof.
  destruct cb as [name ft st cd state failures successes total lf oa al rj], op as [now| |now]; cbn.
  - destruct state; [by apply t_stay| |].
    + destruct (Z.leb_spec cd (now - oa)); cbn; [by apply t_probe|by apply t_stay].
    + destruct (Z.rem _ 2 =? 0); by apply t_stay.
  - destruct (bool_decide_reflect (state = CircuitHalfOpen)) as [->|]; [|by apply t_stay]. cbn.
    destruct (Z.leb_spec st (i64 (successes + 1))); cbn; [by apply t_recover|by apply t_stay].
  - destruct state; cbn; [|by apply t_stay|by apply t_relapse]. destruct (Z.ltb_spec 10 total); cbn; [|by apply t_stay].
    destruct (fleb _ _) eqn:Hr; [by apply t_trip|by apply t_stay].
Qed.

Lemma cooling_step op cb : cb_state cb = CircuitOpen -> cooling cb op ->
  let '(a, cb') := cb_step op cb in
  (a = None \/ a = Some false) /\ cb_state cb' = CircuitOpen /\ cb_openedAt cb' = cb_openedAt cb /\ cb_cooldown cb' = cb_cooldown cb.
Proof.
  destruct cb as [name ft st cd state failures successes total lf oa al rj]. cbn. intros -> Hop. destruct op as [now| |now]; cbn in *.
  - destruct (Z.leb_spec cd (now - oa)); [lia|]. cbn. auto.
  - auto.
  - auto.
Qed.

(** The circuit breaker moves only along its four documented transitions,
    each only for its documented cause, and once open it rejects every request
    until the cooldown has passed, whatever successes and failures of earlier
    requests are reported meanwhile. *)
Theorem breaker_contract (cb : CircuitBreaker) :
  (forall op, transition cb op (cb_state (cb_step op cb).2)) /\
  (forall ops, cb_state cb = CircuitOpen -> Forall (cooling cb) ops ->
     let '(answers, cb') := cb_run ops cb in Forall (fun ok => ok = false) answers /\ cb_state cb' = CircuitOpen).
Proof.
  split; [intros op; apply cb_step_transition|]. intros ops Hopen Hops. revert cb Hopen Hops. induction ops as [|op ops IH]; intros cb Hopen Hops; [done|].
  apply Forall_cons in Hops as [Hop Hops]. cbn [cb_run]. pose proof (cooling_step op cb Hopen Hop) as Hs. destruct (cb_step op cb) as [a cb'].
  destruct Hs as (Ha & Ho & Hoa & Hcd). specialize (IH cb' Ho). destruct (cb_run ops cb') as [answers cb''].
  destruct IH as [Hall Hst]; [|split; [|done]; destruct Ha as [->| ->]; [done|by constructor]].
  eapply Forall_impl; [exact Hops|]. intros []; cbn; rewrite ?Hoa ?Hcd; done.
Qed.

(** A breaker after eleven requests and six failures. *)
Definition tripped : CircuitBreaker := (cb_run (map DoAllow (seqZ 1 11) ++ map DoFailure (seqZ 12 6)) (NewCircuitBreaker 0 "db")).2.

Lemma breaker_contract_witness : Forall (fun ok => ok = false) (cb_run [DoAllow 100; DoSuccess; DoAllow (10 * Second)] tripped).1.
Proof.
  pose proof (proj2 (breaker_contract tripped) [DoAllow 100; DoSuccess; DoAllow (10 * Second)]) as H. destruct (cb_run _ _) as [answers cb'].
  apply H; [by vm_compute|]. repeat constructor.
Defined.

(** A breaker that trips, waits, probes and recovers. *)
Definition outage : list cb_op :=
  map DoAllow (seqZ 1 11) ++ map DoFailure (seqZ 12 6) ++ [DoAllow 100; DoAllow (10 * Second + 17); DoSuccess; DoSuccess; DoSuccess; DoSuccess; DoSuccess].

Theorem breaker_recovers :
  let '(answers, cb) := cb_run outage (NewCircuitBreaker 0 "db") in answers = replicate 11 true ++ [false; true] /\ cb_state cb = CircuitClosed.
Proof. vm_compute. done. Qed.
