(* ===== verification/MvccGc.v ===== *)
(** * MvccGc: the garbage collector of versions (pkg/storage/mvcc_gc.go)

    The tracker of active transactions and its safe point, and the collector's
    passes.  Instants are nanoseconds; the iteration over the tracker's map is
    an argument. *)

From S2P Require Import Prelude.

Record GCConfig := mkGCConfig {
  gc_RetentionPeriod : Z;
  gc_RunInterval : Z;
  gc_MaxKeysPerRun : Z;
  gc_MinVersionsToKeep : Z;
}.

Definition DefaultGCConfig : GCConfig := mkGCConfig 3600000000000 600000000000 100000 1.

Record ActiveTransactionTracker := mkActiveTransactionTracker { at_readTimestamps : gmap Z Z }.

Definition NewActiveTransactionTracker : ActiveTransactionTracker := mkActiveTransactionTracker ∅.

Definition AT_Register (txnID readTS : Z) (t : ActiveTransactionTracker) : ActiveTransactionTracker :=
  mkActiveTransactionTracker (<[txnID := readTS]> (at_readTimestamps t)).

Definition AT_Unregister (txnID : Z) (t : ActiveTransactionTracker) : ActiveTransactionTracker :=
  mkActiveTransactionTracker (delete txnID (at_readTimestamps t)).

(** [order] is the map in the order of the iteration. *)
Definition SafePoint (order : list (Z * Z)) (now retention : Z) : Z :=
  fold_left (fun safePoint x => if i64 (x.2 - 1) <? safePoint then i64 (x.2 - 1) else safePoint) order (i64 (now - retention)).

Record gcResult := mkGcResult {
  gr_keysProcessed : Z;
  gr_versionsRemoved : Z;
  gr_bytesReclaimed : Z;
}.

Record MVCCGarbageCollector := mkMVCCGarbageCollector {
  gc_config : GCConfig;
  gc_tracker : ActiveTransactionTracker;
  gc_versionsRemoved : Z;
  gc_keysGCd : Z;
  gc_bytesReclaimed : Z;
  gc_lastRunAt : Z;
  gc_lastRunDuration : Z;
}.

(** [zeroTime] is the unset instant of the last run. *)
Definition NewMVCCGarbageCollector (zeroTime : Z) (config : GCConfig) (tracker : ActiveTransactionTracker) : MVCCGarbageCollector :=
  mkMVCCGarbageCollector config tracker 0 0 0 zeroTime 0.

Definition simulateGCPass (safePoint : Z) (gc : MVCCGarbageCollector) : gcResult := mkGcResult 0 0 0.

(** [start], [now], [fin] and [fin'] are the four readings of the clock. *)
Definition runOnce (order : list (Z * Z)) (start now fin fin' : Z) (gc : MVCCGarbageCollector) : MVCCGarbageCollector :=
  let safePoint := SafePoint order now (gc_RetentionPeriod (gc_config gc)) in
  let gcResult := simulateGCPass safePoint gc in
  let keysGCd := gr_keysProcessed gcResult in
  let versionsRemoved := gr_versionsRemoved gcResult in
  mkMVCCGarbageCollector (gc_config gc) (gc_tracker gc) (i64 (gc_versionsRemoved gc + versionsRemoved)) (i64 (gc_keysGCd gc + keysGCd))
    (gc_bytesReclaimed gc) fin (fin' - start).

Record GCStats := mkGCStats {
  gs_VersionsRemoved : Z;
  gs_KeysGCd : Z;
  gs_BytesReclaimed : Z;
  gs_LastRunAt : Z;
  gs_LastRunDuration : Z;
}.

Definition GC_Stats (gc : MVCCGarbageCollector) : GCStats :=
  mkGCStats (gc_versionsRemoved gc) (gc_keysGCd gc) (gc_bytesReclaimed gc) (gc_lastRunAt gc) (gc_lastRunDuration gc).

(** ** The safe point *)

Lemma SafePoint_fold order p : Forall (fun x : Z * Z => - two63 < x.2 < two63) order ->
  let s := fold_left (fun safePoint x => if i64 (x.2 - 1) <? safePoint then i64 (x.2 - 1) else safePoint) order p in
  s <= p /\ Forall (fun x : Z * Z => s < x.2) order /\ (s = p \/ Exists (fun x : Z * Z => s = x.2 - 1) order).
Proof.
  intros Hr. revert p. induction Hr as [|x order Hx _ IH]; intros p; cbn; [split_and!; [lia|done|by left]|].
  rewrite i64_small; [|lia]. specialize (IH (if x.2 - 1 <? p then x.2 - 1 else p)). destruct IH as (Hle & Hall & Hmin).
  set (s := fold_left _ _ _) in *. destruct (Z.ltb_spec (x.2 - 1) p).
  - split_and!; [lia|constructor; [lia|done]|]. destruct Hmin as [->|]; [right; by left|right; by right].
  - split_and!; [lia|constructor; [lia|done]|]. destruct Hmin as [->|]; [by left|right; by right].
Qed.



(** A pass removes nothing: the collector only measures its own runs. *)
Theorem gc_removes_nothing order start now fin fin' gc : - two63 <= gc_versionsRemoved gc < two63 ->
  gc_versionsRemoved (runOnce order start now fin fin' gc) = gc_versionsRemoved gc.
Proof. intros H. cbn. rewrite Z.add_0_r i64_small //. Qed.
