(* ===== verification/Topology.v ===== *)
(** * Topology: regions and follower reads (pkg/multiregion/topology.go)

    The iteration over the map of regions is an argument; latencies are
    nanoseconds.  [estimateReplicationLag] is the constant of the source. *)

From S2P Require Import Prelude GoSort.

Record Region := mkRegion {
  rg_ID : string;
  rg_Name : string;
  rg_Location : string;
  rg_Nodes : list string;
  rg_Latency : gmap string Z;
}.

Record RegionTopology := mkRegionTopology {
  rt_regions : gmap string Region;
  rt_localID : string;
}.

Definition NewRegionTopology (localRegionID : string) : RegionTopology := mkRegionTopology ∅ localRegionID.

Definition AddRegion (region : Region) (t : RegionTopology) : RegionTopology :=
  mkRegionTopology (<[rg_ID region := region]> (rt_regions t)) (rt_localID t).

Definition MaxInt64 : Z := two63 - 1.

(** [order] lists the regions as the iteration visits them. *)
Definition NearestRegion (order : list Region) (t : RegionTopology) : option Region :=
  match rt_regions t !! rt_localID t with
  | None => None
  | Some localRegion =>
      (fold_left (fun '(nearest, minLatency) region =>
         if rg_ID region =?s rt_localID t then (nearest, minLatency)
         else match rg_Latency localRegion !! rg_ID region with
              | None => (nearest, minLatency)
              | Some latency => if latency <? minLatency then (Some region, latency) else (nearest, minLatency)
              end) order (None, MaxInt64)).1
  end.

(** The latency under which a region is sorted. *)
Definition latency_of (t : RegionTopology) (localRegion region : Region) : Z :=
  if negb (rg_ID region =?s rt_localID t) then default 0 (rg_Latency localRegion !! rg_ID region) else 0.

Section sorting.
  Context {SS : SortSlice}.

Definition AllRegionsByLatency (order : list Region) (t : RegionTopology) : list Region :=
  match rt_regions t !! rt_localID t with
  | None => []
  | Some localRegion =>
      map fst (sort_Slice (fun a b : Region * Z => a.2 <? b.2) (map (fun region => (region, latency_of t localRegion region)) order))
  end.

Record FollowerReadRouter := mkFollowerReadRouter {
  fr_topology : RegionTopology;
  fr_maxStaleness : Z;
}.

Definition NewFollowerReadRouter (topology : RegionTopology) (maxStaleness : Z) : FollowerReadRouter := mkFollowerReadRouter topology maxStaleness.

Definition estimateReplicationLag (regionID : string) : Z := 50000000.

(** The region, the estimated latency and the estimated staleness. *)
Definition RouteRead (order : list Region) (requiredConsistency : string) (r : FollowerReadRouter) : string * Z * Z :=
  if requiredConsistency =?s "strong" then ("global-leader", 100000000, 0)
  else if requiredConsistency =?s "bounded" then
    match List.find (fun region => estimateReplicationLag (rg_ID region) <=? fr_maxStaleness r) (AllRegionsByLatency order (fr_topology r)) with
    | Some region => (rg_ID region, 1000000, estimateReplicationLag (rg_ID region))
    | None => ("global-leader", 100000000, 0)
    end
  else (rt_localID (fr_topology r), 1000000, 200000000).

End sorting.

(** ** The nearest region *)

(** The latency from the local region to another one, if it is known. *)
Definition known_latency (t : RegionTopology) (localRegion region : Region) : option Z :=
  if rg_ID region =?s rt_localID t then None else rg_Latency localRegion !! rg_ID region.

Definition nearest_step (t : RegionTopology) (localRegion : Region) (acc : option Region * Z) (region : Region) : option Region * Z :=
  match known_latency t localRegion region with Some latency => if latency <? acc.2 then (Some region, latency) else acc | None => acc end.

Lemma NearestRegion_fold order t localRegion : rt_regions t !! rt_localID t = Some localRegion ->
  NearestRegion order t = (fold_left (nearest_step t localRegion) order (None, MaxInt64)).1.
Proof.
  intros Hl. unfold NearestRegion. rewrite Hl. f_equal. generalize (@None Region, MaxInt64). induction order as [|r order IH]; intros acc; [done|].
  cbn [fold_left]. rewrite -IH. f_equal. destruct acc as [n m]. unfold nearest_step, known_latency. cbn [snd]. by destruct (_ =?s _).
Qed.

Lemma nearest_fold t localRegion order acc :
  let out := fold_left (nearest_step t localRegion) order acc in
  out.2 <= acc.2 /\ (forall r l, r ∈ order -> known_latency t localRegion r = Some l -> out.2 <= l) /\
  (out = acc \/ exists r, r ∈ order /\ out.1 = Some r /\ known_latency t localRegion r = Some out.2).
Proof.
  revert acc. induction order as [|x order IH]; intros acc; cbn [fold_left]; [split_and!; [lia|by intros r l ?%elem_of_nil|by left]|].
  destruct (IH (nearest_step t localRegion acc x)) as (Hle & Hall & Hout). set (out := fold_left _ _ _) in *.
  assert (Hstep : (nearest_step t localRegion acc x).2 <= acc.2 /\ (forall l, known_latency t localRegion x = Some l -> (nearest_step t localRegion acc x).2 <= l) /\
    (nearest_step t localRegion acc x = acc \/ (nearest_step t localRegion acc x).1 = Some x /\ known_latency t localRegion x = Some (nearest_step t localRegion acc x).2)).
  { unfold nearest_step. destruct (known_latency t localRegion x) as [l|]; [|split_and!; [lia|done|by left]].
    destruct (Z.ltb_spec l acc.2); cbn; (split_and!; [lia|intros ? [= ->]; lia|auto]). }
  destruct Hstep as (Hs1 & Hs2 & Hs3). split_and!; [lia| |].
  - intros r l [->|Hr]%elem_of_cons Hk; [specialize (Hs2 l Hk); lia|by apply (Hall r)].
  - destruct Hout as [->|(r & Hr & ?)]; [|right; exists r; split; [by right|done]]. destruct Hs3 as [?|[? ?]]; [by left|right].
    exists x. split; [by left|done].
Qed.

(** [NearestRegion] finds a region of least latency, whatever the order of
    the iteration: what it returns is another registered region whose latency
    is known and not above that of any other, and it returns nothing only when
    no other region has a known latency. *)
Theorem nearest_region_minimal (t : RegionTopology) (localRegion : Region) (order : list Region)
  (Hlocal : rt_regions t !! rt_localID t = Some localRegion) (Hiter : order ≡ₚ map snd (map_to_list (rt_regions t)))
  (Hlat : map_Forall (fun _ l => l < MaxInt64) (rg_Latency localRegion)) :
  match NearestRegion order t with
  | Some r => exists l, r ∈ order /\ known_latency t localRegion r = Some l /\ forall r' l', r' ∈ order -> known_latency t localRegion r' = Some l' -> l <= l'
  | None => forall r, r ∈ order -> known_latency t localRegion r = None
  end.
Proof.
  rewrite (NearestRegion_fold order t localRegion Hlocal). destruct (nearest_fold t localRegion order (None, MaxInt64)) as (_ & Hall & Hout).
  set (out := fold_left _ _ _) in *. destruct Hout as [Heq|(r & Hr & -> & Hk)]; [|eauto]. rewrite Heq in Hall |- *. cbn in *.
  intros r Hr. destruct (known_latency t localRegion r) as [l|] eqn:Hk; [|done]. specialize (Hall r l Hr Hk).
  unfold known_latency in Hk. destruct (_ =?s _); [done|]. specialize (Hlat _ _ Hk). cbn in Hlat. lia.
Qed.

(** The regions of the example: one without a known latency. *)
Definition us : Region := mkRegion "us" "US" "us-east-1" [] {["eu" := 80; "ap" := 200]}.
Definition eu : Region := mkRegion "eu" "EU" "eu-west-1" [] ∅.
Definition ap : Region := mkRegion "ap" "AP" "ap-south-1" [] ∅.
Definition sa : Region := mkRegion "sa" "SA" "sa-east-1" [] ∅.
Definition world : RegionTopology := AddRegion sa (AddRegion ap (AddRegion eu (AddRegion us (NewRegionTopology "us")))).

Lemma nearest_region_minimal_witness :
  exists l, eu ∈ map snd (map_to_list (rt_regions world)) /\ known_latency world us eu = Some l /\
    forall r' l', r' ∈ map snd (map_to_list (rt_regions world)) -> known_latency world us r' = Some l' -> l <= l'.
Proof.
  assert (NearestRegion (map snd (map_to_list (rt_regions world))) world = Some eu) as Heq by (vm_compute; reflexivity).
  pose proof (nearest_region_minimal world us (map snd (map_to_list (rt_regions world)))) as H. rewrite Heq in H.
  apply H; [vm_compute; reflexivity|done|]. apply map_Forall_insert_2; [done|]. by apply map_Forall_singleton.
Defined.

(** A region of unknown latency sorts with the local one, and a bounded read may
    be sent to it. *)
Theorem unknown_latency_is_nearest :
  map rg_ID (AllRegionsByLatency [sa; ap; eu; us] world) = ["sa"; "us"; "eu"; "ap"] /\
  RouteRead [sa; ap; eu; us] "bounded" (NewFollowerReadRouter world 60000000) = ("sa", 1000000, 50000000).
Proof. split; vm_compute; reflexivity. Qed.
