(* ===== verification/Metrics.v ===== *)
(** * Metrics: counters, gauges and histograms (pkg/observability/metrics.go)

    A gauge of the source keeps the bits of its float64 in an integer; here it
    keeps the number.  The registry of a node groups its metrics as the
    comments of the source do.  The text sent to Prometheus is in
    ObservabilityText.v. *)

From Stdlib Require Import SpecFloat.
From S2P Require Import Prelude Float64.

(** ** Metric types *)

Record Counter := mkCounter {
  ct_name : string;
  ct_help : string;
  ct_value : Z;
}.

Definition NewCounter (name help : string) : Counter := mkCounter name help 0.
Definition Counter_Add (n : Z) (c : Counter) : Counter := mkCounter (ct_name c) (ct_help c) (i64 (ct_value c + n)).
Definition Counter_Inc (c : Counter) : Counter := Counter_Add 1 c.

Record Gauge := mkGauge {
  ga_name : string;
  ga_help : string;
  ga_value : float64;
}.

Definition NewGauge (name help : string) : Gauge := mkGauge name help fzero.
Definition Gauge_Set (v : float64) (g : Gauge) : Gauge := mkGauge (ga_name g) (ga_help g) v.
Definition Gauge_Add (v : float64) (g : Gauge) : Gauge := mkGauge (ga_name g) (ga_help g) (fadd (ga_value g) v).
Definition Gauge_Inc (g : Gauge) : Gauge := Gauge_Add (f64 1) g.
Definition Gauge_Dec (g : Gauge) : Gauge := Gauge_Add (f64 (-1)) g.

Record Histogram := mkHistogram {
  hi_name : string;
  hi_help : string;
  hi_buckets : list float64;
  hi_counts : list Z;
  hi_sum : float64;
  hi_count : Z;
}.

Definition NewHistogram (name help : string) (buckets : list float64) : Histogram :=
  mkHistogram name help buckets (replicate (S (length buckets)) 0) fzero 0.

(** The loop over the buckets, and the last count; [None] is an index out of
    range. *)
Fixpoint count_buckets (v : float64) (buckets : list float64) (counts : list Z) : option (list Z) :=
  match buckets, counts with
  | [], c :: counts => Some (i64 (c + 1) :: counts)
  | b :: buckets, c :: counts =>
      counts ← count_buckets v buckets counts; Some ((if fleb v b then i64 (c + 1) else c) :: counts)
  | _, [] => None
  end.

Definition Observe (v : float64) (h : Histogram) : option Histogram :=
  counts ← count_buckets v (hi_buckets h) (hi_counts h);
  Some (mkHistogram (hi_name h) (hi_help h) (hi_buckets h) counts (fadd (hi_sum h) v) (i64 (hi_count h + 1))).

Definition finf : float64 := S754_infinity false.

(** The loop of [Percentile]; it indexes the buckets where the source does. *)
Fixpoint percentile_loop (target cumulative : Z) (buckets : list float64) (counts : list Z) : float64 :=
  match counts with
  | [] => fzero
  | count :: counts =>
      let cumulative := i64 (cumulative + count) in
      if target <=? cumulative then match buckets with b :: _ => b | [] => finf end
      else percentile_loop target cumulative (tail buckets) counts
  end.

Definition Percentile (p : float64) (h : Histogram) : float64 :=
  if hi_count h =? 0 then fzero
  else percentile_loop (ftrunc (fmul (f64 (hi_count h)) p)) 0 (hi_buckets h) (hi_counts h).

(** [elapsed] is [time.Since(start)]. *)
Definition ObserveDuration (elapsed : Z) (h : Histogram) : option Histogram := Observe (Seconds elapsed) h.

Record HistogramSummary := mkHistogramSummary {
  hs_P50 : float64;
  hs_P95 : float64;
  hs_P99 : float64;
  hs_Count : Z;
  hs_Sum : float64;
}.

Definition Summary (h : Histogram) : HistogramSummary :=
  mkHistogramSummary (Percentile (fdec 50 2) h) (Percentile (fdec 95 2) h) (Percentile (fdec 99 2) h) (hi_count h) (hi_sum h).

(** ** The registry *)

Definition DefaultLatencyBuckets : list float64 :=
  [fdec 1 4; fdec 5 4; fdec 1 3; fdec 5 3; fdec 10 3; fdec 25 3; fdec 50 3; fdec 100 3; fdec 250 3; fdec 500 3; f64 1; f64 5].

Record RaftMetrics := mkRaftMetrics {
  RaftLeaderChanges : Counter;
  RaftCurrentTerm : Gauge;
  RaftIsLeader : Gauge;
  RaftReplicationLag : Gauge;
  RaftCommitLatency : Histogram;
  RaftHeartbeatsSent : Counter;
  RaftLogAppended : Counter;
}.

Record WALMetrics := mkWALMetrics {
  WALWriteLatency : Histogram;
  WALFsyncLatency : Histogram;
  WALWritesTotal : Counter;
  WALBytesTotal : Counter;
  WALFsyncsTotal : Counter;
}.

Record StorageMetrics := mkStorageMetrics {
  MemTableSize : Gauge;
  SSTableCount : Gauge;
  StorageReadLatency : Histogram;
  StorageWriteLatency : Histogram;
  BloomFilterHits : Counter;
  BloomFilterMisses : Counter;
  CompactionBytesTotal : Counter;
}.

Record RequestMetrics := mkRequestMetrics {
  RequestsTotal : Counter;
  RequestDuration : Histogram;
  NotLeaderTotal : Counter;
}.

Record TxnMetrics := mkTxnMetrics {
  TxnTotal : Counter;
  TxnConflicts : Counter;
  TxnDuration : Histogram;
  TxnActive : Gauge;
}.

Record NetworkMetrics := mkNetworkMetrics {
  NetworkBytesSent : Counter;
  NetworkBytesReceived : Counter;
  GRPCErrors : Counter;
  PeerConnections : Gauge;
}.

Record ClusterMetrics := mkClusterMetrics {
  ClusterSize : Gauge;
  NodesSuspected : Gauge;
  NodesDead : Gauge;
}.

Record SystemMetrics := mkSystemMetrics {
  GoroutineCount : Gauge;
  GCPauseDuration : Histogram;
  MemoryUsageBytes : Gauge;
  FDCount : Gauge;
}.

Record HermesMetrics := mkHermesMetrics {
  hm_NodeID : string;
  hm_raft : RaftMetrics;
  hm_wal : WALMetrics;
  hm_storage : StorageMetrics;
  hm_requests : RequestMetrics;
  hm_txn : TxnMetrics;
  hm_network : NetworkMetrics;
  hm_cluster : ClusterMetrics;
  hm_system : SystemMetrics;
}.

Definition NewHermesMetrics (nodeID : string) : HermesMetrics :=
  mkHermesMetrics nodeID
    (mkRaftMetrics
      (NewCounter "hermes_raft_leader_changes_total" "Total leader changes")
      (NewGauge "hermes_raft_current_term" "Current Raft term")
      (NewGauge "hermes_raft_is_leader" "1 if this node is leader")
      (NewGauge "hermes_raft_replication_lag_entries" "Follower replication lag")
      (NewHistogram "hermes_raft_commit_duration_seconds" "Raft commit latency" DefaultLatencyBuckets)
      (NewCounter "hermes_raft_heartbeats_sent_total" "Heartbeats sent")
      (NewCounter "hermes_raft_log_appended_total" "Log entries appended"))
    (mkWALMetrics
      (NewHistogram "hermes_wal_write_duration_seconds" "WAL write latency" DefaultLatencyBuckets)
      (NewHistogram "hermes_wal_fsync_duration_seconds" "WAL fsync latency" DefaultLatencyBuckets)
      (NewCounter "hermes_wal_writes_total" "WAL writes")
      (NewCounter "hermes_wal_bytes_total" "WAL bytes written")
      (NewCounter "hermes_wal_fsyncs_total" "WAL fsync calls"))
    (mkStorageMetrics
      (NewGauge "hermes_storage_memtable_size_bytes" "MemTable size")
      (NewGauge "hermes_storage_sstable_count" "SSTable count")
      (NewHistogram "hermes_storage_read_duration_seconds" "Storage read latency" DefaultLatencyBuckets)
      (NewHistogram "hermes_storage_write_duration_seconds" "Storage write latency" DefaultLatencyBuckets)
      (NewCounter "hermes_storage_bloom_hits_total" "Bloom filter hits")
      (NewCounter "hermes_storage_bloom_misses_total" "Bloom filter misses")
      (NewCounter "hermes_storage_compaction_bytes_total" "Bytes compacted"))
    (mkRequestMetrics
      (NewCounter "hermes_requests_total" "Total requests")
      (NewHistogram "hermes_request_duration_seconds" "Request latency" DefaultLatencyBuckets)
      (NewCounter "hermes_not_leader_total" "NOT_LEADER responses"))
    (mkTxnMetrics
      (NewCounter "hermes_txn_total" "Total transactions")
      (NewCounter "hermes_txn_conflicts_total" "Transaction conflicts")
      (NewHistogram "hermes_txn_duration_seconds" "Transaction duration" DefaultLatencyBuckets)
      (NewGauge "hermes_txn_active" "Active transactions"))
    (mkNetworkMetrics
      (NewCounter "hermes_network_bytes_sent_total" "Bytes sent")
      (NewCounter "hermes_network_bytes_received_total" "Bytes received")
      (NewCounter "hermes_grpc_errors_total" "gRPC errors")
      (NewGauge "hermes_peer_connections" "Peer connections"))
    (mkClusterMetrics
      (NewGauge "hermes_cluster_size" "Cluster size")
      (NewGauge "hermes_nodes_suspected" "Suspected nodes")
      (NewGauge "hermes_nodes_dead" "Dead nodes"))
    (mkSystemMetrics
      (NewGauge "hermes_goroutines" "Goroutine count")
      (NewHistogram "hermes_gc_pause_duration_seconds" "GC pause duration" DefaultLatencyBuckets)
      (NewGauge "hermes_memory_usage_bytes" "Memory usage")
      (NewGauge "hermes_file_descriptors" "File descriptors")).

Record MetricsSnapshot := mkMetricsSnapshot {
  sn_NodeID : string;
  sn_Timestamp : Z;
  sn_RaftLeaderChanges : Z;
  sn_RaftCurrentTerm : float64;
  sn_RaftIsLeader : bool;
  sn_RaftReplicationLag : float64;
  sn_RaftCommitLatency : HistogramSummary;
  sn_RaftHeartbeatsSent : Z;
  sn_WALWriteLatency : HistogramSummary;
  sn_WALFsyncLatency : HistogramSummary;
  sn_WALWritesTotal : Z;
  sn_WALFsyncsTotal : Z;
  sn_MemTableSizeBytes : float64;
  sn_SSTableCount : float64;
  sn_BloomFilterHits : Z;
  sn_BloomFilterMisses : Z;
  sn_RequestsTotal : Z;
  sn_RequestDuration : HistogramSummary;
  sn_NotLeaderTotal : Z;
  sn_TxnTotal : Z;
  sn_TxnConflicts : Z;
  sn_TxnDuration : HistogramSummary;
  sn_TxnActive : float64;
  sn_NetworkBytesSent : Z;
  sn_NetworkBytesReceived : Z;
  sn_GRPCErrors : Z;
  sn_PeerConnections : float64;
  sn_ClusterSize : float64;
  sn_NodesSuspected : float64;
  sn_NodesDead : float64;
  sn_GoroutineCount : float64;
  sn_MemoryUsageBytes : float64;
  sn_FDCount : float64;
}.

Definition Snapshot (now : Z) (m : HermesMetrics) : MetricsSnapshot := {|
  sn_NodeID := hm_NodeID m;
  sn_Timestamp := now;
  sn_RaftLeaderChanges := ct_value (RaftLeaderChanges (hm_raft m));
  sn_RaftCurrentTerm := ga_value (RaftCurrentTerm (hm_raft m));
  sn_RaftIsLeader := fltb fzero (ga_value (RaftIsLeader (hm_raft m)));
  sn_RaftReplicationLag := ga_value (RaftReplicationLag (hm_raft m));
  sn_RaftCommitLatency := Summary (RaftCommitLatency (hm_raft m));
  sn_RaftHeartbeatsSent := ct_value (RaftHeartbeatsSent (hm_raft m));
  sn_WALWriteLatency := Summary (WALWriteLatency (hm_wal m));
  sn_WALFsyncLatency := Summary (WALFsyncLatency (hm_wal m));
  sn_WALWritesTotal := ct_value (WALWritesTotal (hm_wal m));
  sn_WALFsyncsTotal := ct_value (WALFsyncsTotal (hm_wal m));
  sn_MemTableSizeBytes := ga_value (MemTableSize (hm_storage m));
  sn_SSTableCount := ga_value (SSTableCount (hm_storage m));
  sn_BloomFilterHits := ct_value (BloomFilterHits (hm_storage m));
  sn_BloomFilterMisses := ct_value (BloomFilterMisses (hm_storage m));
  sn_RequestsTotal := ct_value (RequestsTotal (hm_requests m));
  sn_RequestDuration := Summary (RequestDuration (hm_requests m));
  sn_NotLeaderTotal := ct_value (NotLeaderTotal (hm_requests m));
  sn_TxnTotal := ct_value (TxnTotal (hm_txn m));
  sn_TxnConflicts := ct_value (TxnConflicts (hm_txn m));
  sn_TxnDuration := Summary (TxnDuration (hm_txn m));
  sn_TxnActive := ga_value (TxnActive (hm_txn m));
  sn_NetworkBytesSent := ct_value (NetworkBytesSent (hm_network m));
  sn_NetworkBytesReceived := ct_value (NetworkBytesReceived (hm_network m));
  sn_GRPCErrors := ct_value (GRPCErrors (hm_network m));
  sn_PeerConnections := ga_value (PeerConnections (hm_network m));
  sn_ClusterSize := ga_value (ClusterSize (hm_cluster m));
  sn_NodesSuspected := ga_value (NodesSuspected (hm_cluster m));
  sn_NodesDead := ga_value (NodesDead (hm_cluster m));
  sn_GoroutineCount := ga_value (GoroutineCount (hm_system m));
  sn_MemoryUsageBytes := ga_value (MemoryUsageBytes (hm_system m));
  sn_FDCount := ga_value (FDCount (hm_system m))
|}.

(** ** Histograms *)

(** The observations a bucket bounds. *)
Definition below (obs : list float64) (b : float64) : Z := zlen (List.filter (fun v => fleb v b) obs).

(** The counts of a histogram that has seen [obs]. *)
Definition counts_of (buckets obs : list float64) : list Z := (below obs <$> buckets) ++ [zlen obs].

Lemma below_bounds obs b : 0 <= below obs b <= zlen obs.
Proof. unfold below, zlen. pose proof (List.filter_length_le (fun v => fleb v b) obs). lia. Qed.

Lemma below_snoc obs v b : below (obs ++ [v]) b = if fleb v b then below obs b + 1 else below obs b.
Proof. unfold below. rewrite List.filter_app zlen_app. cbn. destruct (fleb v b); rewrite ?zlen_cons zlen_nil; lia. Qed.

Lemma count_buckets_spec v obs : zlen obs < two63 - 1 -> forall buckets,
  count_buckets v buckets (counts_of buckets obs) = Some (counts_of buckets (obs ++ [v])).
Proof.
  intros Hn. pose proof (zlen_nonneg obs). induction buckets as [|b buckets IH]; cbn.
  - rewrite i64_small; [|lia]. by rewrite zlen_app.
  - unfold counts_of in IH. rewrite IH. cbn. rewrite below_snoc. pose proof (below_bounds obs b).
    destruct (fleb v b); [|done]. rewrite i64_small; [done|lia].
Qed.

(** What a histogram is after observing [obs]. *)
Definition observed (h : Histogram) (obs : list float64) : Prop :=
  hi_counts h = counts_of (hi_buckets h) obs /\ hi_count h = zlen obs.

Lemma observed_new name help buckets : observed (NewHistogram name help buckets) [].
Proof.
  split; [|done]. cbn [hi_counts hi_buckets NewHistogram]. unfold counts_of. induction buckets as [|b buckets IH]; [done|].
  change (replicate (S (length (b :: buckets))) 0) with (0 :: replicate (S (length buckets)) 0). by rewrite IH.
Qed.

(** Observing never panics; the count of a bucket is the number of
    observations it bounds and the last count is their number. *)
Theorem histogram_counts (h : Histogram) (vs obs : list float64) : observed h obs -> zlen obs + zlen vs < two63 ->
  exists h', for_each Observe vs h = Some h' /\ hi_buckets h' = hi_buckets h /\ observed h' (obs ++ vs).
Proof.
  revert h obs. induction vs as [|v vs IH]; intros h obs [Hc Hn] Hlen; [exists h; by rewrite app_nil_r|].
  rewrite zlen_cons in Hlen. pose proof (zlen_nonneg vs).
  set (h1 := mkHistogram (hi_name h) (hi_help h) (hi_buckets h) (counts_of (hi_buckets h) (obs ++ [v])) (fadd (hi_sum h) v) (i64 (hi_count h + 1))).
  assert (Observe v h = Some h1) as Hv by (unfold Observe; rewrite Hc count_buckets_spec; [done|lia]).
  cbn [for_each]. rewrite Hv. cbn [mbind option_bind]. destruct (IH h1 (obs ++ [v])) as (h' & Hrun & Hb & Ho).
  - split; [done|]. cbn [h1 hi_count]. pose proof (zlen_nonneg obs). rewrite Hn i64_small ?zlen_app; [done|lia].
  - rewrite zlen_app. change (zlen [v]) with 1. lia.
  - exists h'. rewrite -app_assoc in Ho. done.
Qed.

(** The first bucket that bounds [target] observations. *)
Fixpoint true_percentile (target : Z) (obs buckets : list float64) : nat :=
  match buckets with
  | [] => 0%nat
  | b :: buckets => if target <=? below obs b then 0%nat else S (true_percentile target obs buckets)
  end.

Lemma percentile_loop_low target obs : target <= zlen obs -> forall buckets cumulative,
  0 <= cumulative -> cumulative + zlen obs * (zlen buckets + 1) < two63 ->
  exists j, (j <= true_percentile target obs buckets)%nat /\
    percentile_loop target cumulative buckets (counts_of buckets obs) = default finf (buckets !! j).
Proof.
  intros Ht. pose proof (zlen_nonneg obs). induction buckets as [|b buckets IH]; intros cumulative Hc Hlen.
  - exists 0%nat. split; [lia|]. rewrite zlen_nil in Hlen. unfold counts_of. cbn [fmap list_fmap app percentile_loop]. rewrite i64_small; [|lia].
    destruct (Z.leb_spec target (cumulative + zlen obs)); [done|lia].
  - rewrite zlen_cons in Hlen. pose proof (zlen_nonneg buckets). pose proof (below_bounds obs b).
    unfold counts_of in IH |- *. cbn [fmap list_fmap app percentile_loop true_percentile tail]. rewrite i64_small; [|nia].
    destruct (Z.leb_spec target (cumulative + below obs b)) as [Hle|Hgt]; [exists 0%nat; split; [lia|done]|].
    destruct (Z.leb_spec target (below obs b)); [lia|].
    destruct (IH (cumulative + below obs b)) as (j & Hj & Heq); [lia|nia|]. exists (S j). split; [lia|done].
Qed.

(** A percentile is never above the bucket that bounds that share of the
    observations, because the counts, which already accumulate, are summed
    again. *)
Theorem percentile_low (p : float64) (h : Histogram) (obs : list float64) :
  observed h obs -> obs <> [] -> zlen obs * (zlen (hi_buckets h) + 1) < two63 ->
  let target := ftrunc (fmul (f64 (zlen obs)) p) in target <= zlen obs ->
  exists j, (j <= true_percentile target obs (hi_buckets h))%nat /\ Percentile p h = default finf (hi_buckets h !! j).
Proof.
  intros [Hc Hn] Hne Hlen target Ht. unfold Percentile. rewrite Hn Hc.
  destruct (Z.eqb_spec (zlen obs) 0) as [H0|_]; [by destruct obs|].
  apply percentile_loop_low; [done|lia|lia].
Qed.

(** One request of 100 microseconds and nine of five seconds: the reported
    95th percentile is a quarter of a second. *)
Definition slow_requests : Histogram :=
  default (NewHistogram "h" "h" []) (for_each ObserveDuration (100000 :: replicate 9 (5 * Second)) (NewHistogram "h" "h" DefaultLatencyBuckets)).

Theorem percentile_underestimates :
  hs_P95 (Summary slow_requests) = fdec 250 3 /\
  DefaultLatencyBuckets !! true_percentile 9 (fdec 1 4 :: replicate 9 (f64 5)) DefaultLatencyBuckets = Some (f64 5).
Proof. vm_compute. done. Qed.
