(* ===== verification/Health.v ===== *)
(** * Health: health checks of a node (pkg/observability/health.go)

    Times are in nanoseconds and arguments, the zero time is [None]; the
    iteration over the map of checks is an argument.  A message is its format
    with the values it shows. *)

From S2P Require Import Prelude Float64.

Inductive HealthStatus := HealthHealthy | HealthDegraded | HealthUnhealthy | HealthStarting.

#[global] Instance HealthStatus_eq_dec : EqDecision HealthStatus.
Proof. solve_decision. Defined.

Inductive HealthMessage :=
  | MsgText (s : string)
  | MsgFsyncVerySlow (d : Z)
  | MsgFsyncSlow (d : Z)
  | MsgReplicationLagTooHigh (lag max : Z)
  | MsgFollower (lag : Z)
  | MsgMemTableNearlyFull (pct : float64)
  | MsgCompactionBacklog (files : Z)
  | MsgMemoryCritical (pct : float64)
  | MsgMemoryPressure (pct : float64)
  | MsgMemoryUsage (pct : float64).

Record HealthCheck := mkHealthCheck {
  hc_Name : string;
  hc_Status : HealthStatus;
  hc_Message : HealthMessage;
  hc_LastOK : option Z;
}.

(** The fields of the report that the checker never sets keep their zero
    values and are left out. *)
Record HealthReport := mkHealthReport {
  hr_Status : HealthStatus;
  hr_NodeID : string;
  hr_Timestamp : Z;
  hr_Checks : list HealthCheck;
}.

Record HealthChecker := mkHealthChecker {
  hk_nodeID : string;
  hk_checks : gmap string HealthCheck;
  hk_maxReplicationLag : Z;
  hk_maxApplyLag : Z;
}.

Definition NewHealthChecker (nodeID : string) : HealthChecker := mkHealthChecker nodeID ∅ 1000 100.

Definition SetCheck (now : Z) (name : string) (status : HealthStatus) (message : HealthMessage) (h : HealthChecker) : HealthChecker :=
  let lastOK := if decide (status = HealthHealthy) then Some now
                else match hk_checks h !! name with Some existing => hc_LastOK existing | None => None end in
  mkHealthChecker (hk_nodeID h) (<[name := mkHealthCheck name status message lastOK]> (hk_checks h)) (hk_maxReplicationLag h) (hk_maxApplyLag h).

Definition Millisecond : Z := 1000000.

Definition CheckWAL (now lastFsyncLatency : Z) (h : HealthChecker) : HealthChecker :=
  if 500 * Millisecond <? lastFsyncLatency then SetCheck now "wal" HealthDegraded (MsgFsyncVerySlow lastFsyncLatency) h
  else if 100 * Millisecond <? lastFsyncLatency then SetCheck now "wal" HealthDegraded (MsgFsyncSlow lastFsyncLatency) h
  else SetCheck now "wal" HealthHealthy (MsgText "WAL operating normally") h.

Definition CheckRaft (now : Z) (isLeader leaderKnown : bool) (replicationLag : Z) (h : HealthChecker) : HealthChecker :=
  if negb leaderKnown then SetCheck now "raft" HealthUnhealthy (MsgText "No leader known - cluster may be partitioned") h
  else if hk_maxReplicationLag h <? replicationLag then
    SetCheck now "raft" HealthDegraded (MsgReplicationLagTooHigh replicationLag (hk_maxReplicationLag h)) h
  else if isLeader then SetCheck now "raft" HealthHealthy (MsgText "Node is leader, cluster healthy") h
  else SetCheck now "raft" HealthHealthy (MsgFollower replicationLag) h.

Definition CheckStorage (now : Z) (memTableFullPct : float64) (compactionBacklog : Z) (h : HealthChecker) : HealthChecker :=
  if fltb (f64 95) memTableFullPct then SetCheck now "storage" HealthDegraded (MsgMemTableNearlyFull memTableFullPct) h
  else if 10 <? compactionBacklog then SetCheck now "storage" HealthDegraded (MsgCompactionBacklog compactionBacklog) h
  else SetCheck now "storage" HealthHealthy (MsgText "Storage engine healthy") h.

Definition CheckMemory (now usedBytes limitBytes : Z) (h : HealthChecker) : HealthChecker :=
  let usedPct := fmul (fdiv (f64 usedBytes) (f64 limitBytes)) (f64 100) in
  if fltb (f64 90) usedPct then SetCheck now "memory" HealthUnhealthy (MsgMemoryCritical usedPct) h
  else if fltb (f64 75) usedPct then SetCheck now "memory" HealthDegraded (MsgMemoryPressure usedPct) h
  else SetCheck now "memory" HealthHealthy (MsgMemoryUsage usedPct) h.

(** The body of the loop of [Report]; [order] lists the checks as the
    iteration visits them. *)
Definition report_check (report : HealthReport) (check : HealthCheck) : HealthReport :=
  let status :=
    match hc_Status check with
    | HealthUnhealthy => HealthUnhealthy
    | HealthDegraded => if decide (hr_Status report = HealthHealthy) then HealthDegraded else hr_Status report
    | _ => hr_Status report
    end in
  mkHealthReport status (hr_NodeID report) (hr_Timestamp report) (hr_Checks report ++ [check]).

Definition Report (now : Z) (order : list HealthCheck) (h : HealthChecker) : HealthReport :=
  fold_left report_check order (mkHealthReport HealthHealthy (hk_nodeID h) now []).

Definition IsLive (h : HealthChecker) : bool := true.

Definition IsReady (now : Z) (order : list HealthCheck) (h : HealthChecker) : bool :=
  let report := Report now order h in
  negb (bool_decide (hr_Status report = HealthUnhealthy)) && negb (bool_decide (hr_Status report = HealthStarting)).

(** ** The report is the worst check *)

(** The worst status of the checks, where starting counts as healthy. *)
Definition worst (l : list HealthCheck) : HealthStatus :=
  if existsb (fun c => bool_decide (hc_Status c = HealthUnhealthy)) l then HealthUnhealthy
  else if existsb (fun c => bool_decide (hc_Status c = HealthDegraded)) l then HealthDegraded
  else HealthHealthy.

Lemma worst_snoc l c : worst (l ++ [c]) =
  match hc_Status c with
  | HealthUnhealthy => HealthUnhealthy
  | HealthDegraded => if decide (worst l = HealthHealthy) then HealthDegraded else worst l
  | _ => worst l
  end.
Proof.
  unfold worst. rewrite !existsb_app. cbn.
  destruct (existsb _ l), (existsb _ l), (hc_Status c); done.
Qed.

Lemma report_fold l : forall done r, hr_Status r = worst done -> hr_Checks r = done ->
  hr_Status (fold_left report_check l r) = worst (done ++ l) /\ hr_Checks (fold_left report_check l r) = done ++ l.
Proof.
  induction l as [|c l IH]; intros done r Hs Hc; cbn; [by rewrite app_nil_r|].
  replace (done ++ c :: l) with ((done ++ [c]) ++ l) by by rewrite -app_assoc.
  apply IH; [|by cbn; rewrite Hc]. by rewrite worst_snoc /= Hs.
Qed.

#[global] Instance worst_proper : Proper ((≡ₚ) ==> (=)) worst.
Proof.
  intros l k Hp. unfold worst. assert (forall f, existsb f l = existsb f k) as Hex; [|by rewrite !Hex].
  intros f. apply eq_true_iff_eq. rewrite !existsb_exists. setoid_rewrite <-list_elem_of_In. by setoid_rewrite Hp.
Qed.

Lemma worst_not_starting l : worst l <> HealthStarting.
Proof. unfold worst. by repeat case_match. Qed.

Lemma worst_unhealthy l : worst l = HealthUnhealthy <-> exists c, c ∈ l /\ hc_Status c = HealthUnhealthy.
Proof.
  transitivity (existsb (fun c => bool_decide (hc_Status c = HealthUnhealthy)) l = true).
  - unfold worst. by repeat case_match.
  - rewrite existsb_exists. setoid_rewrite <-list_elem_of_In. by setoid_rewrite bool_decide_eq_true.
Qed.

(** Whatever the order of the iteration, the report lists every check once and
    its status is the worst of them; the node is ready unless a check is
    unhealthy. *)
Theorem report_worst (now : Z) (order : list HealthCheck) (h : HealthChecker) : order ≡ₚ (map_to_list (hk_checks h)).*2 ->
  hr_Checks (Report now order h) ≡ₚ (map_to_list (hk_checks h)).*2 /\
  hr_Status (Report now order h) = worst (map_to_list (hk_checks h)).*2 /\
  (IsReady now order h = true <-> map_Forall (fun _ c => hc_Status c <> HealthUnhealthy) (hk_checks h)).
Proof.
  intros Hp. destruct (report_fold order [] (mkHealthReport HealthHealthy (hk_nodeID h) now []) eq_refl eq_refl) as [Hs Hc].
  cbn [app] in Hs, Hc. change (fold_left _ _ _) with (Report now order h) in Hs, Hc. rewrite (worst_proper _ _ Hp) in Hs. unfold IsReady. rewrite Hs Hc. split_and!; [done..|].
  rewrite (bool_decide_eq_false_2 (_ = HealthStarting)); [|apply worst_not_starting]. rewrite andb_true_r negb_true_iff bool_decide_eq_false worst_unhealthy.
  split.
  - intros Hn k c Hk Hu. apply Hn. exists c. split; [|done]. apply list_elem_of_fmap. exists (k, c). by rewrite elem_of_map_to_list.
  - intros Hall (c & Hin & Hu). apply list_elem_of_fmap in Hin as ([k ?] & -> & Hk). apply elem_of_map_to_list in Hk. by apply (Hall _ _ Hk).
Qed.

(** A node that is still starting is reported ready. *)
Definition starting_checker : HealthChecker := SetCheck 0 "raft" HealthStarting (MsgText "waiting for leader election") (NewHealthChecker "a").

Theorem starting_is_ready : IsReady 1 (map_to_list (hk_checks starting_checker)).*2 starting_checker = true.
Proof. vm_compute. done. Qed.
