(* ===== verification/Tracing.v ===== *)
(** * Tracing: spans and traces (pkg/observability/tracing.go)

    Spans are shared by reference, so they live in a heap, a list that grows,
    and a reference is an index.  A context is the span it carries.  Random
    identifiers and times are arguments.  A trace is printed in ObservabilityText.v. *)

From S2P Require Import Prelude Bytes Float64.

Definition TraceID : Type := bytes.
Definition SpanID : Type := bytes.

(** The zero value of an array of [n] bytes. *)
Definition zero_bytes (n : nat) : bytes := replicate n (byte_of_Z 0).

Inductive SpanStatus := StatusOK | StatusError | StatusCanceled.

(** The attribute values the program stores. *)
Inductive AttrValue := AttrString (s : string) | AttrInt (z : Z).

Record SpanEvent := mkSpanEvent {
  se_Name : string;
  se_Time : Z;
  se_Attributes : gmap string AttrValue;
}.

Record Span := mkSpan {
  sp_TraceID : TraceID;
  sp_SpanID : SpanID;
  sp_ParentID : SpanID;
  sp_Name : string;
  sp_Sampled : bool;
  sp_StartTime : Z;
  sp_EndTime : option Z;
  sp_Duration : Z;
  sp_NodeID : string;
  sp_Service : string;
  sp_Attributes : gmap string AttrValue;
  sp_Events : list SpanEvent;
  sp_Status : SpanStatus;
  sp_Error : option string;
  sp_Children : list nat;
}.

(** [tr_exported] is what the exporter received, if there is one. *)
Record Tracer := mkTracer {
  tr_nodeID : string;
  tr_service : string;
  tr_sampler : TraceID -> bool;
  tr_spans : list nat;
  tr_exported : option (list nat);
}.

Definition AlwaysSample (_ : TraceID) : bool := true.

(** [traceID] is an array of 16 bytes. *)
Definition RateSampler (rate : float64) (traceID : TraceID) : bool :=
  match traceID with
  | b :: _ => fltb (f64 (Z_of_byte b)) (fmul rate (f64 256))
  | [] => false
  end.

Definition NewTracer (nodeID service : string) : Tracer := mkTracer nodeID service AlwaysSample [] None.

(** A tracer with the spans of the process. *)
Record TState := mkTState {
  ts_tracer : Tracer;
  ts_heap : list Span;
}.

Definition SetAttribute (key : string) (value : AttrValue) (s : Span) : Span :=
  mkSpan (sp_TraceID s) (sp_SpanID s) (sp_ParentID s) (sp_Name s) (sp_Sampled s) (sp_StartTime s) (sp_EndTime s) (sp_Duration s) (sp_NodeID s) (sp_Service s)
    (<[key := value]> (sp_Attributes s)) (sp_Events s) (sp_Status s) (sp_Error s) (sp_Children s).

Definition AddEvent (now : Z) (name : string) (attrs : gmap string AttrValue) (s : Span) : Span :=
  mkSpan (sp_TraceID s) (sp_SpanID s) (sp_ParentID s) (sp_Name s) (sp_Sampled s) (sp_StartTime s) (sp_EndTime s) (sp_Duration s) (sp_NodeID s) (sp_Service s)
    (sp_Attributes s) (sp_Events s ++ [mkSpanEvent name now attrs]) (sp_Status s) (sp_Error s) (sp_Children s).

Definition SetError (err : string) (s : Span) : Span :=
  mkSpan (sp_TraceID s) (sp_SpanID s) (sp_ParentID s) (sp_Name s) (sp_Sampled s) (sp_StartTime s) (sp_EndTime s) (sp_Duration s) (sp_NodeID s) (sp_Service s)
    (sp_Attributes s) (sp_Events s) StatusError (Some err) (sp_Children s).

Definition set_end (now : Z) (s : Span) : Span :=
  mkSpan (sp_TraceID s) (sp_SpanID s) (sp_ParentID s) (sp_Name s) (sp_Sampled s) (sp_StartTime s) (Some now) (i64 (now - sp_StartTime s)) (sp_NodeID s) (sp_Service s)
    (sp_Attributes s) (sp_Events s) (sp_Status s) (sp_Error s) (sp_Children s).

Definition add_child (child : nat) (s : Span) : Span :=
  mkSpan (sp_TraceID s) (sp_SpanID s) (sp_ParentID s) (sp_Name s) (sp_Sampled s) (sp_StartTime s) (sp_EndTime s) (sp_Duration s) (sp_NodeID s) (sp_Service s)
    (sp_Attributes s) (sp_Events s) (sp_Status s) (sp_Error s) (sp_Children s ++ [child]).

Definition export (i : nat) (span : Span) (t : Tracer) : Tracer :=
  if negb (sp_Sampled span) then t
  else match tr_exported t with
       | Some l => mkTracer (tr_nodeID t) (tr_service t) (tr_sampler t) (tr_spans t) (Some (l ++ [i]))
       | None => mkTracer (tr_nodeID t) (tr_service t) (tr_sampler t) (tr_spans t ++ [i]) None
       end.

(** [End] of the span at a reference. *)
Definition Span_End (now : Z) (i : nat) (s : TState) : TState :=
  let heap := alter (set_end now) i (ts_heap s) in
  match heap !! i with
  | Some span => mkTState (export i span (ts_tracer s)) heap
  | None => s
  end.

(** [Start]: the new span; the context it returns carries the span. *)
Definition Tracer_Start (ctx : option nat) (name : string) (now : Z) (newTraceID : TraceID) (newSpanID : SpanID) (s : TState) : nat * TState :=
  let t := ts_tracer s in
  let i := length (ts_heap s) in
  let parent := (i' ← ctx; span ← ts_heap s !! i'; Some (i', span)) in
  match parent with
  | Some (i', p) =>
      (i, mkTState t (alter (add_child i) i' (ts_heap s) ++
        [mkSpan (sp_TraceID p) newSpanID (sp_SpanID p) name false now None 0 (tr_nodeID t) (tr_service t) ∅ [] StatusOK None []]))
  | None =>
      (i, mkTState t (ts_heap s ++
        [mkSpan newTraceID newSpanID (zero_bytes 8) name (tr_sampler t newTraceID) now None 0 (tr_nodeID t) (tr_service t) ∅ [] StatusOK None []]))
  end.

Definition GetTraces (t : Tracer) : list nat := tr_spans t.

(** ** Traces are trees *)

Inductive trace_call :=
  | TcStart (ctx : option nat) (name : string) (now : Z) (traceID : TraceID) (spanID : SpanID)
  | TcSetAttribute (i : nat) (key : string) (value : AttrValue)
  | TcAddEvent (i : nat) (now : Z) (name : string) (attrs : gmap string AttrValue)
  | TcSetError (i : nat) (err : string)
  | TcEnd (i : nat) (now : Z).

Definition trace_step (s : TState) (c : trace_call) : TState :=
  match c with
  | TcStart ctx name now traceID spanID => (Tracer_Start ctx name now traceID spanID s).2
  | TcSetAttribute i key value => mkTState (ts_tracer s) (alter (SetAttribute key value) i (ts_heap s))
  | TcAddEvent i now name attrs => mkTState (ts_tracer s) (alter (AddEvent now name attrs) i (ts_heap s))
  | TcSetError i err => mkTState (ts_tracer s) (alter (SetError err) i (ts_heap s))
  | TcEnd i now => Span_End now i s
  end.

Definition trace_run (nodeID service : string) (calls : list trace_call) : TState :=
  fold_left trace_step calls (mkTState (NewTracer nodeID service) []).

(** [j] is a child of [i]. *)
Definition child_of (heap : list Span) (i j : nat) : Prop := exists p, heap !! i = Some p /\ j ∈ sp_Children p.

Record trace_inv (s : TState) : Prop := {
  ti_exporter : tr_exported (ts_tracer s) = None;
  ti_child : forall i j p, ts_heap s !! i = Some p -> j ∈ sp_Children p ->
    (i < j)%nat /\ exists c, ts_heap s !! j = Some c /\ sp_TraceID c = sp_TraceID p /\ sp_ParentID c = sp_SpanID p /\ sp_Sampled c = false;
  ti_root : forall j c, ts_heap s !! j = Some c -> sp_Sampled c = false -> exists i, child_of (ts_heap s) i j;
  ti_parent : forall i i' j, child_of (ts_heap s) i j -> child_of (ts_heap s) i' j -> i = i';
  ti_spans : forall i, i ∈ tr_spans (ts_tracer s) -> exists c, ts_heap s !! i = Some c /\ sp_Sampled c = true /\ is_Some (sp_EndTime c);
}.

(** An update that keeps what ties a span into its trace. *)
Definition keeps (f : Span -> Span) : Prop := forall s,
  sp_TraceID (f s) = sp_TraceID s /\ sp_SpanID (f s) = sp_SpanID s /\ sp_ParentID (f s) = sp_ParentID s /\
  sp_Sampled (f s) = sp_Sampled s /\ sp_Children (f s) = sp_Children s /\ (is_Some (sp_EndTime s) -> is_Some (sp_EndTime (f s))).

Lemma alter_keeps f (i : nat) (heap : list Span) (j : nat) c : keeps f -> alter f i heap !! j = Some c ->
  exists c0, heap !! j = Some c0 /\ sp_TraceID c = sp_TraceID c0 /\ sp_SpanID c = sp_SpanID c0 /\ sp_ParentID c = sp_ParentID c0 /\
    sp_Sampled c = sp_Sampled c0 /\ sp_Children c = sp_Children c0 /\ (is_Some (sp_EndTime c0) -> is_Some (sp_EndTime c)).
Proof.
  intros Hf. destruct (decide (i = j)) as [->|Hne].
  - rewrite list_lookup_alter_eq. destruct (heap !! j) as [c0|]; [|done]. intros [= <-]. exists c0. split; [done|]. apply Hf.
  - rewrite list_lookup_alter_ne; [|done]. intros Hc. by exists c.
Qed.

Lemma alter_keeps_some f (i : nat) (heap : list Span) (j : nat) c0 : keeps f -> heap !! j = Some c0 -> exists c, alter f i heap !! j = Some c.
Proof.
  intros Hf Hc. destruct (decide (i = j)) as [->|Hne]; [rewrite list_lookup_alter_eq Hc; eauto|rewrite list_lookup_alter_ne //; eauto].
Qed.

Lemma child_of_alter f i heap j k : keeps f -> child_of (alter f i heap) j k <-> child_of heap j k.
Proof.
  intros Hf. split.
  - intros (p & Hp & Hk). destruct (alter_keeps _ _ _ _ _ Hf Hp) as (p0 & Hp0 & _ & _ & _ & _ & Hch & _). exists p0. by rewrite -Hch.
  - intros (p0 & Hp0 & Hk). destruct (alter_keeps_some f i heap j p0 Hf Hp0) as (p & Hp). exists p. split; [done|].
    destruct (alter_keeps _ _ _ _ _ Hf Hp) as (p1 & Hp1 & _ & _ & _ & _ & Hch & _). simplify_eq. by rewrite Hch.
Qed.

Lemma keeps_inv f i s : keeps f -> trace_inv s -> trace_inv (mkTState (ts_tracer s) (alter f i (ts_heap s))).
Proof.
  intros Hf [He Hch Hr Hp Hs]. constructor; cbn [ts_tracer ts_heap]; [done|..].
  - intros j k p Hj Hk. destruct (alter_keeps _ _ _ _ _ Hf Hj) as (p0 & Hp0 & Ht & Hsp & _ & _ & Hc & _). rewrite Hc in Hk.
    destruct (Hch _ _ _ Hp0 Hk) as (Hlt & c0 & Hc0 & Ht0 & Hpar & Hsam). split; [done|].
    destruct (alter_keeps_some f i _ _ _ Hf Hc0) as (c & Hcc). exists c. split; [done|].
    destruct (alter_keeps _ _ _ _ _ Hf Hcc) as (c1 & Hc1 & -> & _ & -> & -> & _). simplify_eq. by rewrite Ht Hsp.
  - intros j c Hj Hsam. destruct (alter_keeps _ _ _ _ _ Hf Hj) as (c0 & Hc0 & _ & _ & _ & Hs0 & _). rewrite Hs0 in Hsam.
    destruct (Hr _ _ Hc0 Hsam) as (k & Hk). exists k. by apply child_of_alter.
  - intros j j' k. rewrite !child_of_alter //. apply Hp.
  - intros k Hk. destruct (Hs _ Hk) as (c0 & Hc0 & Hsam & Hend). destruct (alter_keeps_some f i _ _ _ Hf Hc0) as (c & Hcc).
    exists c. split; [done|]. destruct (alter_keeps _ _ _ _ _ Hf Hcc) as (c1 & Hc1 & _ & _ & _ & -> & _ & Hend'). simplify_eq. auto.
Qed.

Lemma end_inv now i s : trace_inv s -> trace_inv (Span_End now i s).
Proof.
  intros Hinv. unfold Span_End. destruct (alter (set_end now) i (ts_heap s) !! i) as [c|] eqn:Hc; [|done].
  assert (keeps (set_end now)) as Hf by (intros ?; split_and!; try done; intros _; by eexists).
  pose proof (keeps_inv _ i s Hf Hinv) as [He Hch Hr Hp Hs]. cbn [ts_tracer ts_heap] in *.
  unfold export. destruct (sp_Sampled c) eqn:Hsam; cbn [negb]; [|by constructor]. rewrite He. constructor; cbn [ts_tracer ts_heap tr_exported tr_spans]; try done.
  intros k. rewrite elem_of_app list_elem_of_singleton. intros [Hk| ->]; [auto|]. exists c. split_and!; [done..|].
  rewrite list_lookup_alter_eq in Hc. destruct (ts_heap s !! i); [|done]. simplify_eq/=. by eexists.
Qed.

(** A new span at the end of the heap. *)
Lemma child_of_app heap sp i j : sp_Children sp = [] -> child_of (heap ++ [sp]) i j <-> child_of heap i j.
Proof.
  intros Hsp. split.
  - intros (p & Hp & Hj). apply lookup_app_Some in Hp as [Hp|[_ Hp]]; [by exists p|].
    apply list_lookup_singleton_Some in Hp as [_ <-]. rewrite Hsp in Hj. by apply not_elem_of_nil in Hj.
  - intros (p & Hp & Hj). exists p. split; [by apply lookup_app_l_Some|done].
Qed.

Lemma child_of_add heap i' p n i j : heap !! i' = Some p ->
  child_of (alter (add_child n) i' heap) i j <-> child_of heap i j \/ (i = i' /\ j = n).
Proof.
  intros Hp. unfold child_of. destruct (decide (i' = i)) as [->|Hne].
  - rewrite list_lookup_alter_eq Hp. cbn. split.
    + intros (q & [= <-] & Hj). cbn in Hj. apply elem_of_app in Hj as [Hj|Hj%list_elem_of_singleton]; [left; by exists p|by right].
    + intros [(q & [= <-] & Hj)|[_ ->]]; eexists; (split; [done|]); cbn; set_solver.
  - rewrite list_lookup_alter_ne //. split; [by left|]. by intros [H|[-> _]].
Qed.

(** A span that joins the heap without a parent. *)
Lemma add_root_inv sp s : sp_Children sp = [] -> sp_Sampled sp = true -> trace_inv s -> trace_inv (mkTState (ts_tracer s) (ts_heap s ++ [sp])).
Proof.
  intros Hsp Hsam [He Hch Hr Hp Hs]. constructor; cbn [ts_tracer ts_heap]; [done|..].
  - intros i j p Hi Hj. apply lookup_app_Some in Hi as [Hi|[_ Hi]].
    + destruct (Hch _ _ _ Hi Hj) as (Hlt & c & Hc & ?). split; [done|]. exists c. split; [by apply lookup_app_l_Some|done].
    + apply list_lookup_singleton_Some in Hi as [_ <-]. rewrite Hsp in Hj. by apply not_elem_of_nil in Hj.
  - intros j c Hj Hc. apply lookup_app_Some in Hj as [Hj|[_ Hj]].
    + destruct (Hr _ _ Hj Hc) as (i & Hi). exists i. by apply child_of_app.
    + apply list_lookup_singleton_Some in Hj as [_ <-]. congruence.
  - intros i i' j. rewrite !child_of_app //. apply Hp.
  - intros i Hi. destruct (Hs _ Hi) as (c & Hc & ?). exists c. split; [by apply lookup_app_l_Some|done].
Qed.

(** A child of a span of the heap. *)
Lemma add_child_inv i' p sp s : ts_heap s !! i' = Some p -> sp_Children sp = [] -> sp_Sampled sp = false ->
  sp_TraceID sp = sp_TraceID p -> sp_ParentID sp = sp_SpanID p -> trace_inv s ->
  trace_inv (mkTState (ts_tracer s) (alter (add_child (length (ts_heap s))) i' (ts_heap s) ++ [sp])).
Proof.
  intros Hi' Hsp Hsam Ht Hpar [He Hch Hr Hp Hs]. set (n := length (ts_heap s)). set (heap := alter (add_child n) i' (ts_heap s)).
  assert (Hlen : length heap = n) by apply length_alter.
  assert (Hold : forall j c, ts_heap s !! j = Some c -> exists c', (heap ++ [sp]) !! j = Some c' /\ sp_TraceID c' = sp_TraceID c /\
    sp_SpanID c' = sp_SpanID c /\ sp_ParentID c' = sp_ParentID c /\ sp_Sampled c' = sp_Sampled c /\ sp_EndTime c' = sp_EndTime c).
  { intros j c Hj. destruct (decide (i' = j)) as [<-|Hne].
    - exists (add_child n c). split; [|done]. apply lookup_app_l_Some. subst heap. by rewrite list_lookup_alter_eq Hj.
    - exists c. split; [|done]. apply lookup_app_l_Some. subst heap. by rewrite list_lookup_alter_ne. }
  assert (Hnew : (heap ++ [sp]) !! n = Some sp) by (rewrite -Hlen; by apply list_lookup_middle).
  assert (Hco : forall i j, child_of (heap ++ [sp]) i j <-> child_of (ts_heap s) i j \/ (i = i' /\ j = n))
    by (intros; rewrite child_of_app // /heap (child_of_add _ _ p) //).
  assert (Hfresh : forall i, child_of (ts_heap s) i n -> False).
  { intros i (q & Hq & Hn). destruct (Hch _ _ _ Hq Hn) as (_ & c & Hc & _). apply lookup_lt_Some in Hc. unfold n in Hc. lia. }
  constructor; cbn [ts_tracer ts_heap]; [done|..].
  - intros i j q Hq Hj. assert (child_of (heap ++ [sp]) i j) as Hc by by exists q. apply Hco in Hc as [(q0 & Hq0 & Hj0)|[-> Hjn]].
    + destruct (Hch _ _ _ Hq0 Hj0) as (Hlt & c & Hc & Ht0 & Hp0 & Hs0). split; [done|].
      destruct (Hold _ _ Hq0) as (q' & Hq' & Htq & Hsq & _). destruct (Hold _ _ Hc) as (c' & Hc' & Htc & _ & Hpc & Hsc & _).
      exists c'. simplify_eq. split; [done|]. by rewrite Htc Htq Hpc Hsq Hsc.
    + destruct (Hold _ _ Hi') as (q' & Hq' & Htq & Hsq & _). rewrite Hjn. rewrite Hq' in Hq. injection Hq as <-. apply lookup_lt_Some in Hi'. split; [unfold n; lia|].
      exists sp. by rewrite Htq Hsq.
  - intros j c Hj Hc. destruct (decide (j = n)) as [->|Hne]; [exists i'; apply Hco; by right|].
    assert (j < n)%nat as Hlt. { apply lookup_lt_Some in Hj. rewrite length_app Hlen /= in Hj. lia. }
    apply lookup_lt_is_Some in Hlt as [c0 Hc0]. destruct (Hold _ _ Hc0) as (c' & Hc' & _ & _ & _ & Hs0 & _). simplify_eq.
    rewrite Hs0 in Hc. destruct (Hr _ _ Hc0 Hc) as (i & Hi). exists i. apply Hco. by left.
  - intros i i2 j. rewrite !Hco. intros [H1|[-> H1]] [H2|[-> H2]]; [by apply (Hp i i2 j)|rewrite H2 in H1; by destruct (Hfresh i)|rewrite H1 in H2; by destruct (Hfresh i2)|done].
  - intros i Hi. destruct (Hs _ Hi) as (c & Hc & Hsc & Hend). destruct (Hold _ _ Hc) as (c' & Hc' & _ & _ & _ & Hs0 & He0).
    exists c'. by rewrite Hs0 He0.
Qed.

Lemma trace_step_inv s c : (forall t, tr_sampler (ts_tracer s) t = true) -> trace_inv s ->
  trace_inv (trace_step s c) /\ tr_sampler (ts_tracer (trace_step s c)) = tr_sampler (ts_tracer s).
Proof.
  intros Hsample Hinv. destruct c as [ctx name now traceID spanID|i key value|i now name attrs|i err|i now]; cbn [trace_step].
  - unfold Tracer_Start. destruct ctx as [i'|]; cbn [mbind option_bind].
    + destruct (ts_heap s !! i') as [p|] eqn:Hp; cbn [mbind option_bind snd]; (split; [|done]); [by eapply add_child_inv|apply add_root_inv; [done|apply Hsample|done]].
    + split; [apply add_root_inv; [done|apply Hsample|done]|done].
  - split; [|done]. apply keeps_inv; [|done]. by intros ?; split_and!.
  - split; [|done]. apply keeps_inv; [|done]. by intros ?; split_and!.
  - split; [|done]. apply keeps_inv; [|done]. by intros ?; split_and!.
  - split; [by apply end_inv|]. unfold Span_End, export. by repeat case_match.
Qed.

Lemma trace_run_inv nodeID service calls : trace_inv (trace_run nodeID service calls).
Proof.
  unfold trace_run. cut (forall s, (forall t, tr_sampler (ts_tracer s) t = true) -> trace_inv s -> trace_inv (fold_left trace_step calls s)).
  { intros H. apply H; [done|]. constructor; cbn [ts_tracer ts_heap NewTracer tr_spans tr_exported]; [done|..].
    - intros i j p Hi. by rewrite lookup_nil in Hi.
    - intros j c Hj. by rewrite lookup_nil in Hj.
    - intros i i' j (p & Hi & _). by rewrite lookup_nil in Hi.
    - intros i Hi. by apply not_elem_of_nil in Hi. }
  induction calls as [|c calls IH]; intros s Hs Hinv; [done|]. cbn [fold_left].
  destruct (trace_step_inv s c Hs Hinv) as [H1 H2]. apply IH; [by rewrite H2|done].
Qed.

(** Whatever the program starts, ends and records, every trace is a tree: a
    child has one parent, an older span of the same trace whose identifier it
    carries.  Only root spans that ended are kept: a child is never marked as
    sampled, so no child span is ever exported. *)
Theorem traces_are_trees (nodeID service : string) (calls : list trace_call) :
  let s := trace_run nodeID service calls in
  (forall i j p, ts_heap s !! i = Some p -> j ∈ sp_Children p ->
     (i < j)%nat /\ (forall i', child_of (ts_heap s) i' j -> i' = i) /\
     exists c, ts_heap s !! j = Some c /\ sp_TraceID c = sp_TraceID p /\ sp_ParentID c = sp_SpanID p) /\
  (forall j, j ∈ GetTraces (ts_tracer s) -> (forall i, ~ child_of (ts_heap s) i j) /\ exists c, ts_heap s !! j = Some c /\ is_Some (sp_EndTime c)).
Proof.
  intros s. destruct (trace_run_inv nodeID service calls) as [_ Hch _ Hp Hs]. fold s in Hch, Hp, Hs. split.
  - intros i j p Hi Hj. destruct (Hch _ _ _ Hi Hj) as (Hlt & c & Hc & Ht & Hpar & _). split_and!; [done| |by exists c].
    intros i' Hi'. apply (Hp _ _ j); [done|by exists p].
  - intros j Hj. destruct (Hs _ Hj) as (c & Hc & Hsam & Hend). split; [|by exists c].
    intros i (p & Hi & Hji). destruct (Hch _ _ _ Hi Hji) as (_ & c' & Hc' & _ & _ & Hf). congruence.
Qed.

(** A put with a child span that ends: only the root is kept. *)
Theorem child_span_lost :
  let s := trace_run "a" "hermes" [TcStart None "HermesNode.Put" 1 [] []; TcStart (Some 0%nat) "Raft.Propose" 2 [] []; TcEnd 1 3; TcEnd 0 4] in
  GetTraces (ts_tracer s) = [0%nat].
Proof. vm_compute. done. Qed.
