(* ===== verification/Server.v ===== *)
(** * Server: the operations of a node (pkg/server/node.go)

    A node composes the Raft node, the storage engine behind its state
    machine, the lease and read index of the read path, the rate limiter, the
    circuit breaker and the observability components.  A call that waits for
    another goroutine is modelled up to its wait and from the wait on; times,
    random identifiers and the alive members are arguments.  An error is its
    kind, [error_text] is its text. *)

From S2P Require Import Prelude Bytes Float64 Hlc RaftLog Raft RaftSpec RaftNode Command WalRecord Wal Skiplist SSTable Engine StateMachine ReadPath RateLimit Memberlist ShardMap Metrics Health Tracing.

(** ** Configuration and start *)

Record ServerConfig := mkServerConfig {
  sc_NodeID : string;
  sc_ListenAddr : string;
  sc_DataDir : string;
  sc_SeedNodes : list string;
  sc_ClusterSize : Z;
  sc_HeartbeatInterval : Z;
  sc_ElectionTimeout : Z;
  sc_MemTableSize : Z;
  sc_WALSync : bool;
  sc_GlobalRateLimit : float64;
  sc_PerClientLimit : float64;
  sc_MetricsAddr : string;
  sc_TLS : bool;
  sc_EnableChaos : bool;
}.

Definition DefaultServerConfig (nodeID listenAddr dataDir : string) : ServerConfig :=
  mkServerConfig nodeID listenAddr dataDir [] 3 (50 * Millisecond) (150 * Millisecond) (64 * 1024 * 1024) true fzero (f64 1000) ":9090" false false.

(** [startStorage]: the engine on the files of the data directory. *)
Definition startStorage (segmentSize : Z) (cfg : ServerConfig) (hlc : HLC) (draws : nat -> list bool) (fs : FS) (sst : gmap string bytes) :=
  Engine_Open segmentSize
    (mkEngineConfig (sc_MemTableSize cfg) (cfg_MaxLevel0SSTables DefaultEngineConfig) (cfg_CompactionConcurrency DefaultEngineConfig)) hlc draws fs sst.

(** The Raft configuration of [startRaft]: the peers are the members that are
    alive when the node starts. *)
Definition raft_config (cfg : ServerConfig) (alive : list Member) : Config :=
  let peerIDs := List.filter (fun id => negb (id =?s sc_NodeID cfg)) (map mb_NodeID alive) in
  let raftCfg := DefaultConfig (sc_NodeID cfg) peerIDs in
  mkConfig (NodeID raftCfg) (Peers raftCfg) (Z.quot (sc_HeartbeatInterval cfg) (10 * Millisecond))
    (Z.quot (sc_ElectionTimeout cfg) (10 * Millisecond)) (MaxEntriesToSend raftCfg) (MaxInflight raftCfg).

Definition startRaft `{R : Rand} (cfg : ServerConfig) (alive : list Member) : option RaftNode := NewRaftNode (raft_config cfg alive) true.

Definition startShardMap (cfg : ServerConfig) (alive : list Member) : option ShardMap :=
  let allNodes := sc_NodeID cfg :: map mb_NodeID alive in
  let numShards := if zlen allNodes <? 1 then 1 else zlen allNodes in
  Initialize numShards allNodes NewShardMap.

Definition startConsistency (cfg : ServerConfig) : LeaderLease * ReadIndexTracker :=
  (NewLeaderLease (sc_NodeID cfg) DefaultLeaseConfig, NewReadIndexTracker (sc_NodeID cfg)).

Definition startRateLimiting (now zeroTime : Z) (cfg : ServerConfig) : option TokenBucket * CircuitBreaker :=
  (if fltb fzero (sc_GlobalRateLimit cfg) then
     let burst := fmul (sc_GlobalRateLimit cfg) (fdec 1 1) in
     let burst := if fltb burst (f64 10) then f64 10 else burst in
     Some (NewTokenBucket now burst (sc_GlobalRateLimit cfg))
   else None,
   NewCircuitBreaker zeroTime "storage").

(** ** A running node *)

Record HermesNode := mkHermesNode {
  hn_config : ServerConfig;
  hn_raft : RaftNode;
  hn_store : EState;
  hn_shardMap : ShardMap;
  hn_lease : LeaderLease;
  hn_readIndex : ReadIndexTracker;
  hn_limiter : option TokenBucket;
  hn_breaker : CircuitBreaker;
  hn_metrics : HermesMetrics;
  hn_trace : TState;
  hn_health : HealthChecker;
}.

(** [Start] with an open engine. *)
Definition Node_Start `{R : Rand} (now zeroTime : Z) (cfg : ServerConfig) (alive : list Member) (store : EState) : option HermesNode :=
  raft ← startRaft cfg alive;
  shards ← startShardMap cfg alive;
  let '(lease, readIndex) := startConsistency cfg in
  let '(limiter, breaker) := startRateLimiting now zeroTime cfg in
  let health := SetCheck now "storage" HealthHealthy (MsgText "storage engine open") (NewHealthChecker (sc_NodeID cfg)) in
  let health := SetCheck now "raft" HealthStarting (MsgText "waiting for leader election") health in
  Some (mkHermesNode cfg raft store shards lease readIndex limiter breaker (NewHermesMetrics (sc_NodeID cfg))
          (mkTState (NewTracer (sc_NodeID cfg) "hermes") []) health).

(** Assignments to one component. *)
Definition set_raft (x : RaftNode) (n : HermesNode) : HermesNode :=
  mkHermesNode (hn_config n) x (hn_store n) (hn_shardMap n) (hn_lease n) (hn_readIndex n) (hn_limiter n) (hn_breaker n) (hn_metrics n) (hn_trace n) (hn_health n).
Definition set_store (x : EState) (n : HermesNode) : HermesNode :=
  mkHermesNode (hn_config n) (hn_raft n) x (hn_shardMap n) (hn_lease n) (hn_readIndex n) (hn_limiter n) (hn_breaker n) (hn_metrics n) (hn_trace n) (hn_health n).
Definition set_lease (x : LeaderLease) (n : HermesNode) : HermesNode :=
  mkHermesNode (hn_config n) (hn_raft n) (hn_store n) (hn_shardMap n) x (hn_readIndex n) (hn_limiter n) (hn_breaker n) (hn_metrics n) (hn_trace n) (hn_health n).
Definition set_readIndex (x : ReadIndexTracker) (n : HermesNode) : HermesNode :=
  mkHermesNode (hn_config n) (hn_raft n) (hn_store n) (hn_shardMap n) (hn_lease n) x (hn_limiter n) (hn_breaker n) (hn_metrics n) (hn_trace n) (hn_health n).
Definition set_limits (l : option TokenBucket) (cb : CircuitBreaker) (n : HermesNode) : HermesNode :=
  mkHermesNode (hn_config n) (hn_raft n) (hn_store n) (hn_shardMap n) (hn_lease n) (hn_readIndex n) l cb (hn_metrics n) (hn_trace n) (hn_health n).
Definition set_metrics (x : HermesMetrics) (n : HermesNode) : HermesNode :=
  mkHermesNode (hn_config n) (hn_raft n) (hn_store n) (hn_shardMap n) (hn_lease n) (hn_readIndex n) (hn_limiter n) (hn_breaker n) x (hn_trace n) (hn_health n).
Definition set_trace (x : TState) (n : HermesNode) : HermesNode :=
  mkHermesNode (hn_config n) (hn_raft n) (hn_store n) (hn_shardMap n) (hn_lease n) (hn_readIndex n) (hn_limiter n) (hn_breaker n) (hn_metrics n) x (hn_health n).
Definition set_health (x : HealthChecker) (n : HermesNode) : HermesNode :=
  mkHermesNode (hn_config n) (hn_raft n) (hn_store n) (hn_shardMap n) (hn_lease n) (hn_readIndex n) (hn_limiter n) (hn_breaker n) (hn_metrics n) (hn_trace n) x.

(** Assignments to one metric. *)
Definition with_raft_metrics (f : RaftMetrics -> RaftMetrics) (m : HermesMetrics) : HermesMetrics :=
  mkHermesMetrics (hm_NodeID m) (f (hm_raft m)) (hm_wal m) (hm_storage m) (hm_requests m) (hm_txn m) (hm_network m) (hm_cluster m) (hm_system m).
Definition with_storage_metrics (f : StorageMetrics -> StorageMetrics) (m : HermesMetrics) : HermesMetrics :=
  mkHermesMetrics (hm_NodeID m) (hm_raft m) (hm_wal m) (f (hm_storage m)) (hm_requests m) (hm_txn m) (hm_network m) (hm_cluster m) (hm_system m).
Definition with_requests (r : RequestMetrics) (m : HermesMetrics) : HermesMetrics :=
  mkHermesMetrics (hm_NodeID m) (hm_raft m) (hm_wal m) (hm_storage m) r (hm_txn m) (hm_network m) (hm_cluster m) (hm_system m).
Definition with_cluster_metrics (f : ClusterMetrics -> ClusterMetrics) (m : HermesMetrics) : HermesMetrics :=
  mkHermesMetrics (hm_NodeID m) (hm_raft m) (hm_wal m) (hm_storage m) (hm_requests m) (hm_txn m) (hm_network m) (f (hm_cluster m)) (hm_system m).
Definition with_system_metrics (f : SystemMetrics -> SystemMetrics) (m : HermesMetrics) : HermesMetrics :=
  mkHermesMetrics (hm_NodeID m) (hm_raft m) (hm_wal m) (hm_storage m) (hm_requests m) (hm_txn m) (hm_network m) (hm_cluster m) (f (hm_system m)).

(** [n.metrics.NotLeaderTotal.Inc()]. *)
Definition not_leader (n : HermesNode) : HermesNode :=
  let r := hm_requests (hn_metrics n) in
  set_metrics (with_requests (mkRequestMetrics (RequestsTotal r) (RequestDuration r) (Counter_Inc (NotLeaderTotal r))) (hn_metrics n)) n.

(** [RequestDuration.ObserveDuration(start)] and [RequestsTotal.Inc()]. *)
Definition count_request (elapsed : Z) (n : HermesNode) : option HermesNode :=
  let r := hm_requests (hn_metrics n) in
  h ← ObserveDuration elapsed (RequestDuration r);
  Some (set_metrics (with_requests (mkRequestMetrics (Counter_Inc (RequestsTotal r)) h (NotLeaderTotal r)) (hn_metrics n)) n).

(** ** Errors *)

Inductive ServerError :=
  | ErrRateLimit
  | ErrCircuitOpen
  | ErrNotLeaderRedirect (leader : string)
  | ErrNotLeader
  | ErrProposeFailed (err : RaftError)
  | ErrPropose (err : RaftError)
  | ErrReadIndexFailed
  | ErrRead (err : EngineError).

Definition raft_error_text (err : RaftError) : string :=
  match err with
  | ErrNoLeader => "raft: no leader known, cannot propose"
  | ErrProposeDuringElection => "raft: cannot propose during election"
  | ErrEmptyProposal => "raft: empty proposal"
  end.

(** The text of an error; of an error of the context or of the storage it has
    the part that the server writes. *)
Definition error_text (err : ServerError) : string :=
  match err with
  | ErrRateLimit => "rate limit exceeded"
  | ErrCircuitOpen => "circuit open: storage unavailable"
  | ErrNotLeaderRedirect leader => "not leader: redirect to " +:+ leader
  | ErrNotLeader => "not leader"
  | ErrProposeFailed err => "raft propose failed: " +:+ raft_error_text err
  | ErrPropose err => raft_error_text err
  | ErrReadIndexFailed => "readindex failed: "
  | ErrRead _ => "storage: "
  end.

(** ** Status *)

Definition Node_IsLeader (n : HermesNode) : bool := bool_decide (state (n_raft (hn_raft n)) = Leader).
Definition Node_Leader (n : HermesNode) : string := lead (n_raft (hn_raft n)).
Definition commit_index (n : HermesNode) : Z := committed (log (n_raft (hn_raft n))).

Record NodeStatus := mkNodeStatus {
  ns_NodeID : string;
  ns_IsLeader : bool;
  ns_LeaderID : string;
  ns_Term : Z;
  ns_CommitIndex : Z;
  ns_AppliedIndex : Z;
  ns_ClusterSize : Z;
  ns_Shards : Z;
  ns_Healthy : bool;
}.

Definition Node_Status (now : Z) (alive : list Member) (order : list HealthCheck) (n : HermesNode) : NodeStatus :=
  let raft := hn_raft n in
  let aliveCount := if zlen alive =? 0 then 1 else zlen alive in
  mkNodeStatus (sc_NodeID (hn_config n)) (Node_IsLeader n) (Node_Leader n) (term (n_raft raft)) (commit_index n) (n_appliedIndex raft)
    aliveCount (zlen (shm_shards (hn_shardMap n))) (IsReady now order (hn_health n)).

(** ** Client calls *)

(** The check of the global limiter. *)
Definition limit (now : Z) (n : HermesNode) : bool * HermesNode :=
  match hn_limiter n with
  | None => (true, n)
  | Some tb => let '(ok, tb) := TB_Allow now (f64 1) tb in (ok, set_limits (Some tb) (hn_breaker n) n)
  end.

(** A span with its attributes. *)
Definition start_span (now : Z) (ctx : option nat) (name : string) (traceID spanID : bytes) (attrs : list (string * AttrValue)) (n : HermesNode) : nat * HermesNode :=
  let '(span, ts) := Tracer_Start ctx name now traceID spanID (hn_trace n) in
  let heap := alter (fun s => fold_left (fun s kv => SetAttribute kv.1 kv.2 s) attrs s) span (ts_heap ts) in
  (span, set_trace (mkTState (ts_tracer ts) heap) n).

Definition end_span (now : Z) (span : nat) (err : option ServerError) (n : HermesNode) : HermesNode :=
  let ts := hn_trace n in
  let heap := match err with Some e => alter (SetError (error_text e)) span (ts_heap ts) | None => ts_heap ts end in
  set_trace (Span_End now span (mkTState (ts_tracer ts) heap)) n.

(** [Put] up to its proposal: the command and the span. *)
Definition Put_begin (now : Z) (ctx : option nat) (traceID spanID : bytes) (key : string) (value : bytes) (n : HermesNode) :
    (ServerError + bytes * nat) * HermesNode :=
  let '(ok, n) := limit now n in
  if negb ok then (inl ErrRateLimit, not_leader n)
  else
    let '(ok, cb) := CB_Allow now (hn_breaker n) in
    let n := set_limits (hn_limiter n) cb n in
    if negb ok then (inl ErrCircuitOpen, n)
    else if negb (Node_IsLeader n) then (inl (ErrNotLeaderRedirect (Node_Leader n)), not_leader n)
    else
      let data := NewPutCommand key value in
      let '(span, n) := start_span now ctx "HermesNode.Put" traceID spanID [("key", AttrString key); ("value_size", AttrInt (zlen value))] n in
      (inr (data, span), n).

(** The rest of [Put], with the answer to its proposal. *)
Definition Put_end (start now : Z) (span : nat) (err : option RaftError) (n : HermesNode) : option (option ServerError * HermesNode) :=
  match err with
  | Some e =>
      let n := set_limits (hn_limiter n) (CB_Failure now (hn_breaker n)) n in
      let res := ErrProposeFailed e in
      Some (Some res, end_span now span (Some (ErrPropose e)) n)
  | None =>
      n ← count_request (now - start) n;
      let n := set_limits (hn_limiter n) (CB_Success (hn_breaker n)) n in
      Some (None, end_span now span None n)
  end.

(** [Get] up to its wait: an error, the read request to wait for and whether a
    heartbeat goroutine starts, or a read under the lease. *)
Definition Get_begin (now : Z) (n : HermesNode) : (ServerError + option (Z * bool)) * HermesNode :=
  let '(ok, n) := limit now n in
  if negb ok then (inl ErrRateLimit, n)
  else if negb (Node_IsLeader n) && negb (LL_IsValid now (hn_lease n)) then (inl (ErrNotLeaderRedirect (Node_Leader n)), n)
  else if Node_IsLeader n then
    let '(id, heartbeat, t) := RequestRead (commit_index n) (hn_readIndex n) in
    (inr (Some (id, heartbeat)), set_readIndex t n)
  else (inr None, n).

(** The goroutine that a first request starts. *)
Definition send_heartbeat (n : HermesNode) : HermesNode := set_readIndex (ConfirmLeadership (commit_index n) (hn_readIndex n)) n.

(** The wait for the request: the read index, or an error; the wait goes on
    while there is neither a result nor a cancelled context. *)
Definition Get_wait (ctxDone : bool) (id : Z) (n : HermesNode) : option (ServerError + Z) * HermesNode :=
  let '(res, t) := RequestRead_wait ctxDone id (hn_readIndex n) in
  (match res with Some index => Some (inr index) | None => if ctxDone then Some (inl ErrReadIndexFailed) else None end, set_readIndex t n).

(** Whether [Get] sleeps for five milliseconds before it reads. *)
Definition Get_sleeps (readIdx : Z) (n : HermesNode) : bool := n_appliedIndex (hn_raft n) <? readIdx.

(** The read of [Get]: an error or the value, if the key is found. *)
Definition Get_read (start now : Z) (ctx : option nat) (traceID spanID : bytes) (key : string) (n : HermesNode) :
    option ((ServerError + option bytes) * HermesNode) :=
  let '(span, n) := start_span start ctx "HermesNode.Get" traceID spanID [("key", AttrString key)] n in
  let s := hn_store n in
  '(res, e) ← Engine_Get key (st_sst s) (st_engine s);
  let n := set_store (mkEState e (st_fs s) (st_sst s) (st_inflight s) (st_worker s) (st_compactor s) (st_stalls s)) n in
  n ← count_request (now - start) n;
  match res with
  | inl err => Some (inl (ErrRead err), end_span now span (Some (ErrRead err)) n)
  | inr v => Some (inr v, end_span now span None n)
  end.

(** [Delete] up to its proposal. *)
Definition Delete_begin (key : string) (n : HermesNode) : ServerError + bytes :=
  if negb (Node_IsLeader n) then inl ErrNotLeader else inr (NewDeleteCommand key).

Record KVPair := mkKVPair {
  kv_Key : string;
  kv_Value : bytes;
}.

(** [Scan] of a node that has started Raft; the engine's scan returns no error. *)
Definition Node_Scan (start now : Z) (ctx : option nat) (traceID spanID : bytes) (startKey endKey : string) (n : HermesNode) :
    option ((ServerError + list KVPair) * HermesNode) :=
  let '(ok, n) := limit start n in
  if negb ok then Some (inl ErrRateLimit, n)
  else if negb (Node_IsLeader n) && negb (LL_IsValid start (hn_lease n)) then Some (inl (ErrNotLeaderRedirect (Node_Leader n)), n)
  else
    let '(span, n) := start_span start ctx "HermesNode.Scan" traceID spanID [("start_key", AttrString startKey); ("end_key", AttrString endKey)] n in
    entries ← Engine_Scan startKey endKey (st_sst (hn_store n)) (st_engine (hn_store n));
    n ← count_request (now - start) n;
    Some (inr (map (fun e => mkKVPair (me_Key e) (me_Value e)) entries), end_span now span None n).

(** ** Background loops *)

Section loops.
  Context `{R : Rand}.

(** A call of the Raft node on the state machine; an error is only printed. *)
Definition apply_call (ptMs : Z) (draws : list bool) (c : sm_call) (s : EState) : option EState :=
  match c with
  | CallApply entry =>
      '(_, e, fs) ← Apply ptMs draws entry (st_engine s) (st_fs s);
      Some (mkEState e fs (st_sst s) (st_inflight s) (st_worker s) (st_compactor s) (st_stalls s))
  | CallRestore data =>
      let '(e, fs) := SM_Restore data (st_engine s) (st_fs s) in
      Some (mkEState e fs (st_sst s) (st_inflight s) (st_worker s) (st_compactor s) (st_stalls s))
  end.

(** A round of the Raft loop with the calls it makes on the state machine: the
    answer to a proposal and the messages it sends. *)
Definition raft_round (ptMs : Z) (draws : list bool) (ev : event) (n : HermesNode) : option (option RaftError * HermesNode * list Message) :=
  '(err, raft, sent) ← run_round ev (hn_raft n);
  let calls := drop (length (default [] (n_storage (hn_raft n)))) (default [] (n_storage raft)) in
  store ← for_each (apply_call ptMs draws) calls (hn_store n);
  Some (err, set_store store (set_raft raft n), sent).

(** A [Put] and a [Delete] that the loop serves at once. *)
Definition Node_Put (now ptMs : Z) (draws : list bool) (traceID spanID : bytes) (key : string) (value : bytes) (n : HermesNode) :
    option (option ServerError * HermesNode * list Message) :=
  let '(res, n) := Put_begin now None traceID spanID key value n in
  match res with
  | inl err => Some (Some err, n, [])
  | inr (data, span) =>
      '(err, n, sent) ← raft_round ptMs draws (Propose data) n;
      '(err, n) ← Put_end now now span err n;
      Some (err, n, sent)
  end.

Definition Node_Delete (ptMs : Z) (draws : list bool) (key : string) (n : HermesNode) : option (option ServerError * HermesNode * list Message) :=
  match Delete_begin key n with
  | inl err => Some (Some err, n, [])
  | inr data =>
      '(err, n, sent) ← raft_round ptMs draws (Propose data) n;
      Some (option_map ErrPropose err, n, sent)
  end.

(** A [Get] whose heartbeat goroutine runs at once: of a leader it is the
    confirmation of its own commit index. *)
Definition Node_Get (now : Z) (traceID spanID : bytes) (key : string) (n : HermesNode) : option ((ServerError + option bytes) * HermesNode) :=
  let '(res, n) := Get_begin now n in
  match res with
  | inl err => Some (inl err, n)
  | inr None => Get_read now now None traceID spanID key n
  | inr (Some (id, heartbeat)) =>
      let n := if heartbeat : bool then send_heartbeat n else n in
      let '(res, n) := Get_wait false id n in
      match res with
      | Some (inr readIdx) => Get_read now now None traceID spanID key n
      | Some (inl err) => Some (inl err, n)
      | None => None
      end
  end.

Definition onLeaderChange (now : Z) (newLeader : string) (n : HermesNode) : HermesNode :=
  if newLeader =?s sc_NodeID (hn_config n) then
    let n := set_metrics (with_raft_metrics (fun m => mkRaftMetrics (Counter_Inc (RaftLeaderChanges m)) (RaftCurrentTerm m) (Gauge_Set (f64 1) (RaftIsLeader m))
      (RaftReplicationLag m) (RaftCommitLatency m) (RaftHeartbeatsSent m) (RaftLogAppended m)) (hn_metrics n)) n in
    set_lease (LL_Renew now (hn_lease n)) n
  else
    let n := set_lease (LL_Expire (hn_lease n)) n in
    set_metrics (with_raft_metrics (fun m => mkRaftMetrics (RaftLeaderChanges m) (RaftCurrentTerm m) (Gauge_Set (f64 0) (RaftIsLeader m))
      (RaftReplicationLag m) (RaftCommitLatency m) (RaftHeartbeatsSent m) (RaftLogAppended m)) (hn_metrics n)) n.

(** The loop that receives a leader change from the channel of the Raft node. *)
Definition receive_leader (now : Z) (n : HermesNode) : HermesNode :=
  match n_leaderChangeCh (hn_raft n) with
  | None => n
  | Some newLeader =>
      let r := hn_raft n in
      onLeaderChange now newLeader
        (set_raft (RaftNode.mkNode (n_raft r) (n_config r) (n_storage r) (n_wal r) (n_hardState r) (n_appliedIndex r) (n_prevLead r) None) n)
  end.

(** A membership event: the node, the peer that joins the connection pool and
    the message stepped into the Raft loop. *)
Definition handleMembershipEvent (event : ClusterEvent) (n : HermesNode) : HermesNode * option (string * string) * option Message :=
  let member := ce_Member event in
  match ce_Type event with
  | EventNodeJoined =>
      (set_metrics (with_cluster_metrics (fun m => mkClusterMetrics (Gauge_Inc (ClusterSize m)) (NodesSuspected m) (NodesDead m)) (hn_metrics n)) n,
       Some (mb_NodeID member, mb_Address member), None)
  | EventNodeDead =>
      (set_metrics (with_cluster_metrics (fun m => mkClusterMetrics (ClusterSize m) (NodesSuspected m) (Gauge_Inc (NodesDead m))) (hn_metrics n)) n, None,
       if mb_NodeID member =?s Node_Leader n then Some (mkMsg MsgUnreachable "" (mb_NodeID member) 0 0 0 0 [] 0 false 0 0 0 0 false false None false 0) else None)
  | EventNodeSuspected =>
      (set_metrics (with_cluster_metrics (fun m => mkClusterMetrics (ClusterSize m) (Gauge_Inc (NodesSuspected m)) (NodesDead m)) (hn_metrics n)) n, None, None)
  | EventNodeRevived =>
      (set_metrics (with_cluster_metrics (fun m => mkClusterMetrics (ClusterSize m) (Gauge_Dec (NodesSuspected m)) (NodesDead m)) (hn_metrics n)) n, None, None)
  | EventNodeLeft => (n, None, None)
  end.

(** [goroutines] and [heapAlloc] are what the runtime reports. *)
Definition updateMetrics (goroutines heapAlloc : Z) (alive : list Member) (n : HermesNode) : HermesNode :=
  let m := with_system_metrics (fun m => mkSystemMetrics (Gauge_Set (f64 goroutines) (GoroutineCount m)) (GCPauseDuration m)
             (Gauge_Set (f64 heapAlloc) (MemoryUsageBytes m)) (FDCount m)) (hn_metrics n) in
  let stats := Engine_Stats (st_engine (hn_store n)) in
  let m := with_storage_metrics (fun m => mkStorageMetrics (Gauge_Set (f64 (es_MemTableSize stats)) (MemTableSize m))
             (Gauge_Set (f64 (es_SSTableCount stats)) (SSTableCount m)) (StorageReadLatency m) (StorageWriteLatency m) (BloomFilterHits m)
             (BloomFilterMisses m) (CompactionBytesTotal m)) m in
  let m := with_cluster_metrics (fun m => mkClusterMetrics (Gauge_Set (f64 (zlen alive)) (ClusterSize m)) (NodesSuspected m) (NodesDead m)) m in
  set_metrics (with_raft_metrics (fun m => mkRaftMetrics (RaftLeaderChanges m) (Gauge_Set (f64 (term (n_raft (hn_raft n)))) (RaftCurrentTerm m))
    (RaftIsLeader m) (RaftReplicationLag m) (RaftCommitLatency m) (RaftHeartbeatsSent m) (RaftLogAppended m)) m) n.

Definition updateHealth (now heapAlloc heapSys : Z) (n : HermesNode) : HermesNode :=
  let h := CheckRaft now (Node_IsLeader n) (negb (Node_Leader n =?s EmptyString)) 0 (hn_health n) in
  let stats := Engine_Stats (st_engine (hn_store n)) in
  let pct := fmul (fdiv (f64 (es_MemTableSize stats)) (f64 (sc_MemTableSize (hn_config n)))) (f64 100) in
  let h := CheckStorage now pct (es_SSTableCount stats) h in
  set_health (CheckMemory now heapAlloc heapSys h) n.

End loops.
