(* ===== verification/ServerApi.v ===== *)
(** * ServerApi: the client interfaces of a node (pkg/server/handlers.go, http_api.go)

    The handlers call the operations of [Server] and turn their results into
    responses.  A request of the HTTP interface carries its method, its query
    values and what its JSON body decodes to, [None] if decoding fails; a
    response is its status and its body before encoding. *)

From S2P Require Import Prelude Bytes Float64 Hlc RaftLog Raft RaftSpec RaftNode Command WalRecord Wal Skiplist SSTable Engine EngineSpec StateMachine RaftSystem ReadPath RateLimit Memberlist ShardMap Metrics Health Tracing Server.

(** [strings.HasPrefix]. *)
Definition HasPrefix (s prefix : string) : bool := has_prefix prefix s.

(** ** The gRPC service *)

Inductive ErrorCode :=
  | CodeOK | CodeNOT_LEADER | CodeNO_LEADER | CodeKEY_NOT_FOUND | CodeTRANSACTION_CONFLICT | CodeCLUSTER_NOT_READY | CodeSTALE_READ
  | CodeTIMEOUT | CodeSTORAGE_ERROR | CodeINVALID_REQUEST.

Definition errorCode (err : option ServerError) : ErrorCode :=
  match err with
  | None => CodeOK
  | Some err =>
      let msg := error_text err in
      if msg =?s "rate limit exceeded" then CodeTIMEOUT
      else if HasPrefix msg "not leader" then CodeNOT_LEADER
      else CodeSTORAGE_ERROR
  end.

(** The responses of the writes. *)
Record WriteResponse := mkWriteResponse {
  wr_Error : ErrorCode;
  wr_ErrorMsg : string;
  wr_LeaderHint : string;
}.

Record GetResponse := mkGetResponse {
  gr_Error : ErrorCode;
  gr_ErrorMsg : string;
  gr_LeaderHint : string;
  gr_Value : bytes;
  gr_Found : bool;
}.

Record ScanResponse := mkScanResponse {
  cr_Error : ErrorCode;
  cr_ErrorMsg : string;
  cr_Items : list (string * bytes);
}.

Section handlers.
  Context `{R : Rand}.

(** The response to a write that returned an error or none. *)
Definition write_response (err : option ServerError) (n : HermesNode) : WriteResponse :=
  match err with
  | Some e => mkWriteResponse (errorCode (Some e)) (error_text e) (Node_Leader n)
  | None => mkWriteResponse CodeOK EmptyString EmptyString
  end.

Definition kv_Put (now ptMs : Z) (draws : list bool) (traceID spanID : bytes) (key : string) (value : bytes) (n : HermesNode) :
    option (WriteResponse * HermesNode * list Message) :=
  if key =?s EmptyString then Some (mkWriteResponse CodeINVALID_REQUEST "key is required" EmptyString, n, [])
  else '(err, n, sent) ← Node_Put now ptMs draws traceID spanID key value n; Some (write_response err n, n, sent).

Definition kv_Delete (ptMs : Z) (draws : list bool) (key : string) (n : HermesNode) : option (WriteResponse * HermesNode * list Message) :=
  if key =?s EmptyString then Some (mkWriteResponse CodeINVALID_REQUEST "key is required" EmptyString, n, [])
  else '(err, n, sent) ← Node_Delete ptMs draws key n; Some (write_response err n, n, sent).

Definition kv_Get (now : Z) (traceID spanID : bytes) (key : string) (n : HermesNode) : option (GetResponse * HermesNode) :=
  if key =?s EmptyString then Some (mkGetResponse CodeINVALID_REQUEST "key is required" EmptyString [] false, n)
  else
    '(res, n) ← Node_Get now traceID spanID key n;
    Some (match res with
          | inl err => mkGetResponse (errorCode (Some err)) (error_text err) (Node_Leader n) [] false
          | inr None => mkGetResponse CodeKEY_NOT_FOUND EmptyString EmptyString [] false
          | inr (Some value) => mkGetResponse CodeOK EmptyString EmptyString value true
          end, n).

Definition kv_Scan (now : Z) (traceID spanID : bytes) (startKey endKey : string) (n : HermesNode) : option (ScanResponse * HermesNode) :=
  '(res, n) ← Node_Scan now now None traceID spanID startKey endKey n;
  Some (match res with
        | inl err => mkScanResponse (errorCode (Some err)) (error_text err) []
        | inr entries => mkScanResponse CodeOK EmptyString (map (fun e => (kv_Key e, kv_Value e)) entries)
        end, n).

(** ** The HTTP interface *)

Record HTTPRequest := mkHTTPRequest {
  hq_Method : string;
  hq_Query : gmap string string;
  hq_Body : option (gmap string string);
}.

Inductive HTTPBody :=
  | BodyError (message : string)
  | BodyOK
  | BodyValue (key : string) (value : bytes)
  | BodyItems (items : list (string * bytes))
  | BodyStatus (s : NodeStatus).

(** [URL.Query().Get] and a field of the decoded body. *)
Definition query_get (r : HTTPRequest) (name : string) : string := default EmptyString (hq_Query r !! name).
Definition body_field (body : gmap string string) (name : string) : string := default EmptyString (body !! name).

Definition statusForErr (err : option ServerError) : Z :=
  match err with
  | None => 200
  | Some e => if HasPrefix (error_text e) "not leader" then 503 else 500
  end.

Definition handlePut (now ptMs : Z) (draws : list bool) (traceID spanID : bytes) (r : HTTPRequest) (n : HermesNode) :
    option (Z * HTTPBody * HermesNode * list Message) :=
  if negb (hq_Method r =?s "POST") then Some (405, BodyError "method not allowed", n, [])
  else
    match hq_Body r with
    | None => Some (400, BodyError "invalid JSON body", n, [])
    | Some body =>
        if body_field body "key" =?s EmptyString then Some (400, BodyError "key is required", n, [])
        else
          '(err, n, sent) ← Node_Put now ptMs draws traceID spanID (body_field body "key") (bytes_of_string (body_field body "value")) n;
          Some (match err with Some e => (statusForErr err, BodyError (error_text e)) | None => (200, BodyOK) end, n, sent)
    end.

Definition handleGet (now : Z) (traceID spanID : bytes) (r : HTTPRequest) (n : HermesNode) : option (Z * HTTPBody * HermesNode) :=
  let key := query_get r "key" in
  if key =?s EmptyString then Some (400, BodyError "key is required", n)
  else
    '(res, n) ← Node_Get now traceID spanID key n;
    Some (match res with
          | inl err => (statusForErr (Some err), BodyError (error_text err))
          | inr None => (404, BodyError "key not found")
          | inr (Some value) => (200, BodyValue key value)
          end, n).

Definition handleDelete (ptMs : Z) (draws : list bool) (r : HTTPRequest) (n : HermesNode) : option (Z * HTTPBody * HermesNode * list Message) :=
  if negb (hq_Method r =?s "POST") && negb (hq_Method r =?s "DELETE") then Some (405, BodyError "method not allowed", n, [])
  else
    let key := query_get r "key" in
    let key := if key =?s EmptyString then body_field (default ∅ (hq_Body r)) "key" else key in
    if key =?s EmptyString then Some (400, BodyError "key is required", n, [])
    else
      '(err, n, sent) ← Node_Delete ptMs draws key n;
      Some (match err with Some e => (statusForErr err, BodyError (error_text e)) | None => (200, BodyOK) end, n, sent).

(** The loop of [prefixEnd], on the bytes from the last to the first. *)
Fixpoint bump_last (l : bytes) : option bytes :=
  match l with
  | [] => None
  | b :: l => if Z_of_byte b <? 255 then Some (byte_of_Z (Z_of_byte b + 1) :: l) else bump_last l
  end.

Definition prefixEnd (prefix : string) : string :=
  if prefix =?s EmptyString then EmptyString
  else match bump_last (rev (bytes_of_string prefix)) with
       | Some l => string_of_bytes (rev l)
       | None => prefix +:+ string_of_bytes [byte_of_Z 0]
       end.

Definition handleScan (now : Z) (traceID spanID : bytes) (r : HTTPRequest) (n : HermesNode) : option (Z * HTTPBody * HermesNode) :=
  let prefix := query_get r "prefix" in
  let '(start, fin) := if negb (prefix =?s EmptyString) then (prefix, prefixEnd prefix) else (query_get r "start", query_get r "end") in
  '(res, n) ← Node_Scan now now None traceID spanID start fin n;
  Some (match res with
        | inl err => (statusForErr (Some err), BodyError (error_text err))
        | inr entries => (200, BodyItems (map (fun e => (kv_Key e, kv_Value e)) entries))
        end, n).

Definition handleClusterStatus (now : Z) (alive : list Member) (order : list HealthCheck) (n : HermesNode) : Z * HTTPBody :=
  (200, BodyStatus (Node_Status now alive order n)).

Definition handleHealth : Z * HTTPBody := (200, BodyOK).

End handlers.

(** ** An unused encoder *)

Definition encodeKVCommand (key : string) (value : bytes) (deleted : bool) : bytes :=
  let keyBytes := bytes_of_string key in
  byte_of_Z (if deleted then 1 else 0) :: put_le 4 (zlen keyBytes) ++ keyBytes ++ put_le 4 (zlen value) ++ value.

(** ** Prefix scans *)

Lemma str_compare_cons a s b t : String.compare (String a s) (String b t) =
  match Z_of_byte a ?= Z_of_byte b with Eq => String.compare s t | c => c end.
Proof. cbn. unfold Ascii.compare, Z_of_byte. by rewrite N2Z.inj_compare. Qed.

Lemma byte_value_inj a b : Z_of_byte a = Z_of_byte b -> a = b.
Proof. intros H. by rewrite -(byte_of_Z_of_byte a) H byte_of_Z_of_byte. Qed.

Fixpoint is_prefix (p k : string) : bool :=
  match p, k with
  | EmptyString, _ => true
  | String a p, String b k => Ascii.eqb a b && is_prefix p k
  | _, _ => false
  end.

Lemma has_prefix_is p : forall k, has_prefix p k = is_prefix p k.
Proof.
  unfold has_prefix, bytes_of_string. induction p as [|a p IH]; intros k; cbn.
  - by rewrite bool_decide_eq_true_2.
  - destruct k as [|b k]; cbn; [by rewrite bool_decide_eq_false_2|]. rewrite -IH. destruct (Ascii.eqb_spec a b) as [->|Hne]; cbn.
    + apply bool_decide_ext. split; [by intros [= ?]|by intros ->].
    + rewrite bool_decide_eq_false_2 //. by intros [= ->].
Qed.

(** Every byte is 0xff. *)
Fixpoint all_ff (p : string) : bool :=
  match p with EmptyString => true | String a p => (Z_of_byte a =? 255) && all_ff p end.

Lemma all_ff_le p : all_ff p = true -> forall k, String.leb p k = is_prefix p k.
Proof.
  unfold String.leb. induction p as [|a p IH]; intros H k; [by destruct k|]. cbn in H. apply andb_true_iff in H as [Ha%Z.eqb_eq Hp].
  destruct k as [|b k]; [done|]. rewrite str_compare_cons. cbn [is_prefix]. rewrite -IH //. pose proof (Z_of_byte_range b).
  destruct (Z.compare_spec (Z_of_byte a) (Z_of_byte b)) as [Hab|Hab|Hab]; [|lia|].
  - rewrite (byte_value_inj _ _ Hab) Ascii.eqb_refl. done.
  - destruct (Ascii.eqb_spec a b) as [->|]; [lia|done].
Qed.

(** [prefixEnd] from the front. *)
Fixpoint prefix_end (p : string) : option string :=
  match p with
  | EmptyString => None
  | String a p =>
      match prefix_end p with
      | Some e => Some (String a e)
      | None => if Z_of_byte a <? 255 then Some (String (byte_of_Z (Z_of_byte a + 1)) EmptyString) else None
      end
  end.

Lemma bump_last_app l k : bump_last (l ++ k) = match bump_last l with Some m => Some (m ++ k) | None => bump_last k end.
Proof. induction l as [|b l IH]; [done|]. cbn. by destruct (_ <? 255). Qed.

Lemma prefix_end_bump p : prefix_end p = (fun l => string_of_bytes (rev l)) <$> bump_last (rev (bytes_of_string p)).
Proof.
  induction p as [|a p IH]; [done|]. cbn [prefix_end]. unfold bytes_of_string in *. cbn [String.list_ascii_of_string rev]. rewrite bump_last_app IH.
  destruct (bump_last (rev _)) as [m|]; cbn; [by rewrite rev_app_distr|]. by destruct (_ <? 255).
Qed.

Lemma prefix_end_ff p : prefix_end p = None <-> all_ff p = true.
Proof.
  induction p as [|a p IH]; [done|]. cbn. pose proof (Z_of_byte_range a). destruct (prefix_end p).
  - split; [done|]. intros [_ H']%andb_true_iff. by apply IH in H'.
  - rewrite (proj1 IH) // andb_true_r. destruct (Z.ltb_spec (Z_of_byte a) 255), (Z.eqb_spec (Z_of_byte a) 255); (done || lia).
Qed.

Lemma prefix_end_range p : forall e k, prefix_end p = Some e -> (p <=?s k) && (k <?s e) = is_prefix p k.
Proof.
  unfold String.leb, String.ltb. induction p as [|a p IH]; intros e k He; [done|]. cbn [prefix_end] in He. pose proof (Z_of_byte_range a).
  destruct k as [|b k]; [done|]. cbn [is_prefix]. pose proof (Z_of_byte_range b). destruct (prefix_end p) as [e'|] eqn:Hp.
  - injection He as <-. rewrite !str_compare_cons -(IH e' k eq_refl) (Z.compare_antisym (Z_of_byte a)).
    destruct (Z.compare_spec (Z_of_byte a) (Z_of_byte b)) as [Hab|Hab|Hab]; cbn [CompOpp].
    + by rewrite (byte_value_inj _ _ Hab) Ascii.eqb_refl.
    + destruct (Ascii.eqb_spec a b) as [->|]; [lia|done].
    + destruct (Ascii.eqb_spec a b) as [->|]; [lia|done].
  - apply prefix_end_ff in Hp. destruct (Z.ltb_spec (Z_of_byte a) 255); [|done]. injection He as <-.
    rewrite !str_compare_cons Z_of_byte_of_Z Z.mod_small; [|lia]. rewrite -(all_ff_le p Hp k). unfold String.leb.
    destruct (Z.compare_spec (Z_of_byte a) (Z_of_byte b)) as [Hab|Hab|Hab].
    + rewrite -(byte_value_inj _ _ Hab) Ascii.eqb_refl. destruct (Z.compare_spec (Z_of_byte a) (Z_of_byte a + 1)); [lia| |lia]. by rewrite andb_true_r.
    + destruct (Ascii.eqb_spec a b) as [->|]; [lia|]. destruct (Z.compare_spec (Z_of_byte b) (Z_of_byte a + 1)); [|lia|done]. by destruct k.
    + destruct (Ascii.eqb_spec a b) as [->|]; [lia|done].
Qed.

(** Between a string and the same string with a zero byte is only the string. *)
Lemma zero_successor p : forall k, (p <=?s k) && (k <?s (p +:+ string_of_bytes [byte_of_Z 0])) = (k =?s p).
Proof.
  unfold String.leb, String.ltb. induction p as [|a p IH]; intros k.
  - destruct k as [|b k]; [done|]. cbn [String.append string_of_bytes String.string_of_list_ascii]. rewrite str_compare_cons Z_of_byte_of_Z.
    pose proof (Z_of_byte_range b). change (0 mod 256) with 0. destruct (Z.compare_spec (Z_of_byte b) 0); [by destruct k|lia|done].
  - destruct k as [|b k]; [done|]. cbn [String.append]. rewrite !str_compare_cons (Z.compare_antisym (Z_of_byte a)). cbn [String.eqb]. rewrite -IH.
    destruct (Z.compare_spec (Z_of_byte a) (Z_of_byte b)) as [Hab|Hab|Hab]; cbn [CompOpp].
    + by rewrite (byte_value_inj _ _ Hab) Ascii.eqb_refl.
    + destruct (Ascii.eqb_spec b a) as [->|]; [lia|done].
    + destruct (Ascii.eqb_spec b a) as [->|]; [lia|done].
Qed.

Lemma prefixEnd_nonempty prefix : prefix <> EmptyString -> prefixEnd prefix <> EmptyString.
Proof.
  intros Hne. unfold prefixEnd. destruct (String.eqb_spec prefix EmptyString) as [|_]; [done|]. pose proof (prefix_end_bump prefix) as Hb.
  destruct (bump_last _) as [l|]; [|by destruct prefix]. intros He. cbn in Hb. rewrite He in Hb. by destruct prefix; cbn in Hb; repeat case_match.
Qed.

(** The range that a prefix scan asks for: the keys with the prefix, or only
    the prefix itself when every byte of it is 0xff. *)
Lemma prefix_range prefix key : prefix <> EmptyString ->
  krange prefix (prefixEnd prefix) key = if all_ff prefix then key =?s prefix else has_prefix prefix key.
Proof.
  intros Hne. unfold krange. destruct (String.eqb_spec (prefixEnd prefix) EmptyString) as [He|_]; [by destruct (prefixEnd_nonempty prefix)|].
  unfold prefixEnd. destruct (String.eqb_spec prefix EmptyString) as [|_]; [done|]. cbn [orb]. pose proof (prefix_end_bump prefix) as Hb. pose proof (prefix_end_ff prefix) as Hff. destruct (bump_last _) as [l|]; cbn in Hb; rewrite Hb in Hff.
  - destruct (all_ff prefix); [discriminate (proj2 Hff eq_refl)|]. rewrite has_prefix_is -(prefix_end_range _ _ key Hb) //.
  - rewrite (proj1 Hff) // -(zero_successor prefix key) //.
Qed.

Lemma prefix_range_has prefix key : prefix <> EmptyString -> all_ff prefix = false -> krange prefix (prefixEnd prefix) key = has_prefix prefix key.
Proof. intros Hne Hff. by rewrite prefix_range // Hff. Qed.

(** ** What clients see *)

Lemma count_request_some elapsed n obs : observed (RequestDuration (hm_requests (hn_metrics n))) obs -> zlen obs + 1 < two63 ->
  exists n', count_request elapsed n = Some n' /\ hn_store n' = hn_store n /\ hn_trace n' = hn_trace n.
Proof.
  intros Ho Hlen. unfold count_request, ObserveDuration. destruct (histogram_counts _ [Seconds elapsed] obs Ho) as (h & Hh & _).
  { change (zlen [Seconds elapsed]) with 1. lia. }
  cbn [for_each] in Hh. destruct (Observe _ _) as [h'|]; [|done]. by eexists.
Qed.

(** The code of a redirect. *)
Lemma redirect_code leader : errorCode (Some (ErrNotLeaderRedirect leader)) = CodeNOT_LEADER.
Proof. unfold errorCode, HasPrefix. rewrite has_prefix_is. done. Qed.

Section properties.
  Context {R : Rand}.


(** Why [Put] refuses a write: the limiter, then the breaker, then the role. *)
Theorem put_refused (now ptMs : Z) (draws : list bool) (traceID spanID : bytes) (key : string) (value : bytes) (n : HermesNode) (err : ServerError) (n' : HermesNode) :
  key <> EmptyString -> Put_begin now None traceID spanID key value n = (inl err, n') ->
  kv_Put now ptMs draws traceID spanID key value n = Some (mkWriteResponse (errorCode (Some err)) (error_text err) (Node_Leader n), n', []) /\
  hn_raft n' = hn_raft n /\ hn_store n' = hn_store n /\
  match errorCode (Some err) with
  | CodeTIMEOUT => (limit now n).1 = false
  | CodeNOT_LEADER => (limit now n).1 = true /\ state (n_raft (hn_raft n)) <> Leader
  | CodeSTORAGE_ERROR => (limit now n).1 = true /\ (CB_Allow now (hn_breaker n)).1 = false
  | _ => False
  end.
Proof.
  intros Hk Hb. unfold kv_Put, Node_Put. destruct (String.eqb_spec key EmptyString) as [|_]; [done|]. rewrite Hb. cbn [mbind option_bind].
  assert (Hl : hn_raft (limit now n).2 = hn_raft n /\ hn_store (limit now n).2 = hn_store n /\ hn_breaker (limit now n).2 = hn_breaker n).
  { unfold limit. destruct (hn_limiter n); [|done]. by destruct (TB_Allow _ _ _). }
  unfold Put_begin in Hb. destruct (limit now n) as [ok n1]. destruct Hl as (Hr1 & Hs1 & Hb1). cbn [fst snd] in *. destruct ok; cbn [negb] in Hb.
  - rewrite Hb1 in Hb. destruct (CB_Allow now (hn_breaker n)) as [ok cb]. destruct ok; cbn [negb] in Hb.
    + unfold Node_IsLeader in Hb. cbn [set_limits hn_raft] in Hb. rewrite Hr1 in Hb.
      destruct (bool_decide_reflect (state (n_raft (hn_raft n)) = Leader)) as [|Hst]; cbn [negb] in Hb.
      { destruct (start_span _ _ _ _ _ _ _). discriminate Hb. }
      injection Hb as <- <-. unfold write_response, Node_Leader. cbn [not_leader set_metrics set_limits hn_raft hn_store]. rewrite Hr1 Hs1.
      by split_and!.
    + injection Hb as <- <-. unfold write_response, Node_Leader. cbn [set_limits hn_raft hn_store]. by rewrite Hr1 Hs1.
  - injection Hb as <- <-. unfold write_response, Node_Leader. cbn [not_leader set_metrics hn_raft hn_store]. by rewrite Hr1 Hs1.
Qed.

End properties.

(** ** Concrete runs *)

#[local] Existing Instance zero_rand.

(** A server whose Raft loop has handled events, with no time between them. *)
Definition serve (evs : list event) (n : HermesNode) : option HermesNode :=
  for_each (fun ev n => '(_, n, _) ← raft_round 1000 [true] ev n; Some n) evs n.

Definition server_config (id : string) : ServerConfig := DefaultServerConfig id ":7000" "/data".

Definition member (id : string) : Member := mkMember id id StateAlive 0 0 ∅.

(** The first server of a cluster sees nobody else when it starts. *)
Definition first_server : option HermesNode :=
  n ← Node_Start 0 0 (server_config "a") [member "a"] (demo_state 1000); serve (replicate 40 EvTick) n.

(** A server that starts when two others are alive, and is elected. *)
Definition vote_for (from to : string) (t : Z) : Message := mkMsg MsgVoteRsp to from t 0 0 0 [] 0 false 0 0 0 0 true false None false 0.

Definition elected_server : option HermesNode :=
  n ← Node_Start 0 0 (server_config "a") [member "a"; member "b"; member "c"] (demo_state 1000);
  serve (replicate 15 EvTick ++ [EvStep (vote_for "b" "a" 1)]) n.

Definition put_then_get (n : HermesNode) : option (option ServerError * (ServerError + option bytes)) :=
  '(err, n, _) ← Node_Put 0 1000 [true] [] [] "k" (bytes_of_string "v") n;
  '(res, _) ← Node_Get 0 [] [] "k" n;
  Some (err, res).

(** The Raft peers of a server are fixed when it starts: the first server of a
    cluster has none, elects itself and applies writes alone, whoever joins
    later. *)
Theorem first_server_alone :
  exists n, first_server = Some n /\ Peers (n_config (hn_raft n)) = [] /\ Node_IsLeader n = true /\
    put_then_get n = Some (None, inr (Some (bytes_of_string "v"))).
Proof.
  destruct first_server as [n|] eqn:Hn; [|vm_compute in Hn; discriminate].
  exists n. vm_compute in Hn. injection Hn as <-. split_and!; vm_compute; reflexivity.
Qed.

(** A put is acknowledged when the leader has accepted it: a read that follows,
    on the same leader and with the read index confirmed, does not find it. *)
Theorem acknowledged_put_not_found : (n ← elected_server; put_then_get n) = Some (None, inr None).
Proof. vm_compute. reflexivity. Qed.

(** A prefix of 0xff bytes finds no longer key. *)
Theorem ff_prefix_misses_keys :
  let ff := string_of_bytes [byte_of_Z 255] in
  let key := string_of_bytes [byte_of_Z 255; byte_of_Z 1] in
  has_prefix ff key = true /\ krange ff (prefixEnd ff) key = false.
Proof. vm_compute. done. Qed.

(** The encoder that is documented to use the format of the storage commands
    does not: a put is refused and a deletion is read as a put. *)
Theorem encodeKVCommand_differs :
  ValidateCommand (encodeKVCommand "k" (bytes_of_string "v") false) = Some (ErrUnknownCommandType 0) /\
  ValidateCommand (encodeKVCommand "k" [] true) = None /\ DecodeCommand (encodeKVCommand "k" [] true) = ("k", [], false).
Proof. vm_compute. done. Qed.

(** A leader with the store of [StateMachine.put_events]. *)
Definition scan_server : HermesNode :=
  match first_server with
  | Some n => set_store (store_result put_events 1000).2 n
  | None => mkHermesNode (server_config "a") (RaftNode.mkNode (n_raft (demo_node put_state "b")) (demo_conf "a") None [] (mkHardState 0 "" 0) 0 "" None)
      (demo_state 1000) NewShardMap (NewLeaderLease "a" DefaultLeaseConfig) (NewReadIndexTracker "a") None (NewCircuitBreaker 0 "storage")
      (NewHermesMetrics "a") (mkTState (NewTracer "a" "hermes") []) (NewHealthChecker "a")
  end.

Definition prefix_request : HTTPRequest := mkHTTPRequest "GET" {[ "prefix" := "k" ]} None.

Lemma scan_server_store : hn_store scan_server = (store_result put_events 1000).2.
Proof. vm_compute. reflexivity. Qed.

