(* ===== verification/ChandyLamport.v ===== *)
(** * ChandyLamport: global snapshots (pkg/chaos/snapshot.go)

    A coordinator records the state of its node and the messages in transit.
    The state is what [onStateRequest] returns; the callbacks [sendMarker] and
    [onComplete] are the markers and the snapshot that a call returns.  A nil
    map is empty: the maps are written only while a snapshot is in progress.
    The second half runs coordinators over FIFO channels. *)

From S2P Require Import Prelude Bytes.

Section coordinator.
  Context {St M : Type}.

Record SnapshotState := mkSnapshotState {
  sst_NodeID : string;
  sst_State : St;
  sst_CapturedAt : Z;
}.

Record ChannelState := mkChannelState {
  cst_From : string;
  cst_To : string;
  cst_Messages : list M;
}.

Record GlobalSnapshot := mkGlobalSnapshot {
  gs_SnapshotID : string;
  gs_Initiator : string;
  gs_StartedAt : Z;
  gs_CompletedAt : option Z;
  gs_NodeStates : gmap string SnapshotState;
  gs_ChannelStates : gmap string ChannelState;
}.

Record SnapshotCoordinator := mkCoordinator {
  co_nodeID : string;
  co_nodes : list string;
  co_currentSnapshot : option GlobalSnapshot;
  co_stateRecorded : bool;
  co_markerReceived : gset string;
  co_recordingFor : gmap string (list M);
}.

Definition NewSnapshotCoordinator (nodeID : string) (nodes : list string) : SnapshotCoordinator := mkCoordinator nodeID nodes None false ∅ ∅.

(** [recordLocalState] in a snapshot in progress. *)
Definition recordLocalState (now : Z) (state : St) (snap : GlobalSnapshot) (c : SnapshotCoordinator) : SnapshotCoordinator :=
  mkCoordinator (co_nodeID c) (co_nodes c)
    (Some (mkGlobalSnapshot (gs_SnapshotID snap) (gs_Initiator snap) (gs_StartedAt snap) (gs_CompletedAt snap)
       (<[co_nodeID c := mkSnapshotState (co_nodeID c) state now]> (gs_NodeStates snap)) (gs_ChannelStates snap)))
    true (co_markerReceived c) (co_recordingFor c).

(** A new snapshot with fresh maps. *)
Definition begin_snapshot (now : Z) (state : St) (initiator snapshotID : string) (c : SnapshotCoordinator) : SnapshotCoordinator :=
  recordLocalState now state (mkGlobalSnapshot snapshotID initiator now None ∅ ∅)
    (mkCoordinator (co_nodeID c) (co_nodes c) (co_currentSnapshot c) (co_stateRecorded c) ∅ ∅).

Definition InitiateSnapshot (now : Z) (state : St) (snapshotID : string) (c : SnapshotCoordinator) : SnapshotCoordinator * list string :=
  (begin_snapshot now state (co_nodeID c) snapshotID c, List.filter (fun node => negb (node =?s co_nodeID c)) (co_nodes c)).

(** [fmt.Sprintf("%s→%s", from, to)]. *)
Definition channelKey (from to : string) : string := from +:+ string_of_bytes [byte_of_Z 226; byte_of_Z 134; byte_of_Z 146] +:+ to.

(** [checkCompletion]: the snapshot it reports. *)
Definition checkCompletion (now : Z) (snap : GlobalSnapshot) (c : SnapshotCoordinator) : SnapshotCoordinator * option GlobalSnapshot :=
  if forallb (fun node => (node =?s co_nodeID c) || bool_decide (node ∈ co_markerReceived c)) (co_nodes c) then
    (mkCoordinator (co_nodeID c) (co_nodes c) None false ∅ ∅,
     Some (mkGlobalSnapshot (gs_SnapshotID snap) (gs_Initiator snap) (gs_StartedAt snap) (Some now) (gs_NodeStates snap) (gs_ChannelStates snap)))
  else (mkCoordinator (co_nodeID c) (co_nodes c) (Some snap) (co_stateRecorded c) (co_markerReceived c) (co_recordingFor c), None).

(** Whether the marker belongs to a snapshot that this node has not started. *)
Definition is_new (snapshotID : string) (c : SnapshotCoordinator) : bool :=
  match co_currentSnapshot c with None => true | Some snap => negb (gs_SnapshotID snap =?s snapshotID) end.

(** The state of the channel from [from], the marker of which has arrived. *)
Definition record_channel (from : string) (snap : GlobalSnapshot) (c : SnapshotCoordinator) : GlobalSnapshot * SnapshotCoordinator :=
  (mkGlobalSnapshot (gs_SnapshotID snap) (gs_Initiator snap) (gs_StartedAt snap) (gs_CompletedAt snap) (gs_NodeStates snap)
     (<[channelKey from (co_nodeID c) := mkChannelState from (co_nodeID c) (default [] (co_recordingFor c !! from))]> (gs_ChannelStates snap)),
   mkCoordinator (co_nodeID c) (co_nodes c) (co_currentSnapshot c) (co_stateRecorded c) ({[from]} ∪ co_markerReceived c) (co_recordingFor c)).

(** [ReceiveMarker]: the markers it sends and the snapshot it reports. *)
Definition ReceiveMarker (now : Z) (state : St) (from snapshotID : string) (c : SnapshotCoordinator) :
    SnapshotCoordinator * list string * option GlobalSnapshot :=
  let '(c, markers) :=
    if is_new snapshotID c then
      (begin_snapshot now state from snapshotID c, List.filter (fun node => negb (node =?s co_nodeID c) && negb (node =?s from)) (co_nodes c))
    else (c, []) in
  match co_currentSnapshot c with
  | None => (c, markers, None)
  | Some snap =>
      let '(snap, c) := record_channel from snap c in
      let '(c, done) := checkCompletion now snap c in
      (c, markers, done)
  end.

Definition RecordMessage (from : string) (msg : M) (c : SnapshotCoordinator) : SnapshotCoordinator :=
  match co_currentSnapshot c with
  | None => c
  | Some _ =>
      if co_stateRecorded c && negb (bool_decide (from ∈ co_markerReceived c)) then
        mkCoordinator (co_nodeID c) (co_nodes c) (co_currentSnapshot c) (co_stateRecorded c) (co_markerReceived c)
          (<[from := default [] (co_recordingFor c !! from) ++ [msg]]> (co_recordingFor c))
      else c
  end.

End coordinator.

Arguments SnapshotState : clear implicits.
Arguments ChannelState : clear implicits.
Arguments GlobalSnapshot : clear implicits.
Arguments SnapshotCoordinator : clear implicits.

(** ** Coordinators over FIFO channels

    The state of a node is its history, so that what is recorded of a node
    determines any state computed from it.  [cy_rec] and [cy_order] log the
    recordings, with the node whose marker caused them. *)

Section system.
  Context {M : Type} (ids : list string) (sid : string).

Inductive levent := LSent (to : string) (m : M) | LRecv (from : string) (m : M).
Inductive item := Mark | App (m : M).

Definition coordinator : Type := SnapshotCoordinator (list levent) M.

Record csys := mkCsys {
  cy_coord : string -> coordinator;
  cy_hist : string -> list levent;
  cy_chan : string -> string -> list item;
  cy_rec : gmap string (option string * list levent);
  cy_order : list string;
  cy_done : list (string * GlobalSnapshot (list levent) M);
}.

Definition upd {A} (p : string) (v : A) (f : string -> A) : string -> A := fun x => if decide (x = p) then v else f x.
Definition upd2 {A} (p q : string) (v : A) (f : string -> string -> A) : string -> string -> A := upd p (upd q v (f p)) f.

Definition cs_init : csys := mkCsys (fun p => NewSnapshotCoordinator p ids) (fun _ => []) (fun _ _ => []) ∅ [] [].

(** Markers put on the channels from [p]. *)
Definition send_markers (p : string) (to : list string) (chan : string -> string -> list item) : string -> string -> list item :=
  upd p (fun q => chan p q ++ (if decide (q ∈ to) then [Mark] else [])) chan.

Inductive cact :=
  | CSend (p q : string) (m : M)
  | CDeliver (p q : string) (now : Z)
  | CInit (p : string) (now : Z).

Definition cs_step (a : cact) (y : csys) : csys :=
  match a with
  | CSend p q m =>
      if decide (p ∈ ids /\ q ∈ ids /\ p <> q) then
        mkCsys (cy_coord y) (upd p (cy_hist y p ++ [LSent q m]) (cy_hist y)) (upd2 p q (cy_chan y p q ++ [App m]) (cy_chan y))
          (cy_rec y) (cy_order y) (cy_done y)
      else y
  | CDeliver p q now =>
      match cy_chan y p q with
      | [] => y
      | App m :: rest =>
          mkCsys (upd q (RecordMessage p m (cy_coord y q)) (cy_coord y)) (upd q (cy_hist y q ++ [LRecv p m]) (cy_hist y))
            (upd2 p q rest (cy_chan y)) (cy_rec y) (cy_order y) (cy_done y)
      | Mark :: rest =>
          let c := cy_coord y q in
          let '(c', markers, done) := ReceiveMarker now (cy_hist y q) p sid c in
          mkCsys (upd q c' (cy_coord y)) (cy_hist y) (send_markers q markers (upd2 p q rest (cy_chan y)))
            (if is_new sid c then <[q := (Some p, cy_hist y q)]> (cy_rec y) else cy_rec y)
            (if is_new sid c then cy_order y ++ [q] else cy_order y)
            (match done with Some snap => cy_done y ++ [(q, snap)] | None => cy_done y end)
      end
  | CInit p now =>
      if decide (p ∈ ids /\ cy_order y = []) then
        let '(c, markers) := InitiateSnapshot now (cy_hist y p) sid (cy_coord y p) in
        mkCsys (upd p c (cy_coord y)) (cy_hist y) (send_markers p markers (cy_chan y)) (<[p := (None, cy_hist y p)]> (cy_rec y)) [p] (cy_done y)
      else y
  end.

Definition cs_run (acts : list cact) : csys := fold_left (fun y a => cs_step a y) acts cs_init.

(** ** Histories and channels *)

Definition sends (h : list levent) (q : string) : list M :=
  omap (fun e => match e with LSent to m => if decide (to = q) then Some m else None | LRecv _ _ => None end) h.
Definition recvs (h : list levent) (p : string) : list M :=
  omap (fun e => match e with LRecv from m => if decide (from = p) then Some m else None | LSent _ _ => None end) h.
Definition apps (ch : list item) : list M := omap (fun i => match i with App m => Some m | Mark => None end) ch.

Definition no_mark (ch : list item) : Prop := forall i, i ∈ ch -> i <> Mark.

(** [q] has received the marker of [p]. *)
Definition got (y : csys) (q p : string) : Prop := q ∈ (cy_done y).*1 \/ p ∈ co_markerReceived (cy_coord y q).

(** The channel from [p] to [q] in a run. *)
Definition fifo_link (y : csys) (p q : string) : Prop :=
  sends (cy_hist y p) q = recvs (cy_hist y q) p ++ apps (cy_chan y p q) /\
  match cy_rec y !! p with
  | None => no_mark (cy_chan y p q) /\ ~ got y q p
  | Some (par, hp) =>
      (par = Some q /\ no_mark (cy_chan y p q) /\ ~ got y q p /\
         exists parq hq, cy_rec y !! q = Some (parq, hq) /\ recvs hq p `prefix_of` sends hp q) \/
      (par <> Some q /\ ~ got y q p /\ exists c1 c2, cy_chan y p q = c1 ++ Mark :: c2 /\ no_mark c1 /\ no_mark c2 /\
         sends hp q = recvs (cy_hist y q) p ++ apps c1) \/
      (par <> Some q /\ got y q p /\ no_mark (cy_chan y p q) /\ is_Some (cy_rec y !! q))
  end.

(** The channel from [p] as recorded in a snapshot of [q]. *)
Definition recorded_channel (y : csys) (p q : string) (hq : list levent) (snap : GlobalSnapshot (list levent) M) : Prop :=
  exists par hp ms, cy_rec y !! p = Some (par, hp) /\ gs_ChannelStates snap !! channelKey p q = Some (mkChannelState p q ms) /\
    sends hp q = recvs hq p ++ ms.

(** What a coordinator knows. *)
Definition local (y : csys) (q : string) : Prop :=
  co_nodeID (cy_coord y q) = q /\ co_nodes (cy_coord y q) = ids /\
  match cy_rec y !! q with
  | None => co_currentSnapshot (cy_coord y q) = None /\ q ∉ (cy_done y).*1 /\ co_markerReceived (cy_coord y q) = ∅
  | Some (par, hq) =>
      hq `prefix_of` cy_hist y q /\
      (q ∈ (cy_done y).*1 /\ co_currentSnapshot (cy_coord y q) = None /\ co_markerReceived (cy_coord y q) = ∅ \/
       q ∉ (cy_done y).*1 /\ co_stateRecorded (cy_coord y q) = true /\
       exists snap, co_currentSnapshot (cy_coord y q) = Some snap /\ gs_SnapshotID snap = sid /\
         sst_State <$> gs_NodeStates snap !! q = Some hq /\
         forall p, p ∈ ids -> p <> q ->
           (p ∈ co_markerReceived (cy_coord y q) -> recorded_channel y p q hq snap) /\
           (p ∉ co_markerReceived (cy_coord y q) ->
              recvs (cy_hist y q) p = recvs hq p ++ default [] (co_recordingFor (cy_coord y q) !! p)))
  end.

Record cinv (y : csys) : Prop := {
  ci_local : forall q, q ∈ ids -> local y q;
  ci_link : forall p q, p ∈ ids -> q ∈ ids -> p <> q -> fifo_link y p q;
  ci_out : forall p q, ~ (p ∈ ids /\ q ∈ ids /\ p <> q) -> cy_chan y p q = [];
  ci_reports : forall q snap, (q, snap) ∈ cy_done y -> q ∈ ids /\ exists par hq, cy_rec y !! q = Some (par, hq) /\
    sst_State <$> gs_NodeStates snap !! q = Some hq /\ forall p, p ∈ ids -> p <> q -> got y q p /\ recorded_channel y p q hq snap;
  ci_order : forall q, is_Some (cy_rec y !! q) <-> q ∈ cy_order y;
  ci_first : match cy_order y with
    | [] => cy_rec y = ∅
    | i :: rest => i ∈ ids /\ fst <$> cy_rec y !! i = Some None /\ match rest with [] => True | p :: _ => p ∈ ids /\ p <> i /\ fst <$> cy_rec y !! p = Some (Some i) end
    end;
}.

(** ** Lemmas *)

#[local] Arguments upd : simpl never.
#[local] Arguments upd2 : simpl never.
#[local] Arguments sends : simpl never.
#[local] Arguments recvs : simpl never.
#[local] Arguments apps : simpl never.

Lemma sends_app h1 h2 q : sends (h1 ++ h2) q = sends h1 q ++ sends h2 q.
Proof. apply omap_app. Qed.
Lemma recvs_app h1 h2 p : recvs (h1 ++ h2) p = recvs h1 p ++ recvs h2 p.
Proof. apply omap_app. Qed.
Lemma apps_app c1 c2 : apps (c1 ++ c2) = apps c1 ++ apps c2.
Proof. apply omap_app. Qed.
Lemma sends_sent to m q : sends [LSent to m] q = if decide (to = q) then [m] else [].
Proof. cbv [sends]. cbn. by case_decide. Qed.
Lemma recvs_recv from m p : recvs [LRecv from m] p = if decide (from = p) then [m] else [].
Proof. cbv [recvs]. cbn. by case_decide. Qed.
Lemma recvs_sent to m p : recvs [LSent to m] p = [].
Proof. done. Qed.
Lemma sends_recv from m q : sends [LRecv from m] q = [].
Proof. done. Qed.
Lemma recvs_prefix h h' p : h `prefix_of` h' -> recvs h p `prefix_of` recvs h' p.
Proof. intros [k ->]. rewrite recvs_app. by eexists. Qed.
Lemma no_mark_nil : no_mark [].
Proof. by intros i ?%elem_of_nil. Qed.
Lemma no_mark_app c1 c2 : no_mark (c1 ++ c2) <-> no_mark c1 /\ no_mark c2.
Proof. unfold no_mark. setoid_rewrite elem_of_app. naive_solver. Qed.
Lemma no_mark_cons i c : no_mark (i :: c) <-> i <> Mark /\ no_mark c.
Proof. unfold no_mark. setoid_rewrite elem_of_cons. naive_solver. Qed.
Lemma no_mark_split c c1 c2 c1' : c = c1 ++ Mark :: c2 -> no_mark c1 -> c = Mark :: c1' -> c1 = [] /\ c2 = c1'.
Proof. intros -> H. destruct c1 as [|i c1]; [naive_solver|]. apply no_mark_cons in H as [Hi _]. naive_solver. Qed.

Lemma channelKey_inj p p' q : channelKey p q = channelKey p' q -> p = p'.
Proof.
  unfold channelKey. intros E%(f_equal String.list_ascii_of_string).
  assert (A : forall a b, String.list_ascii_of_string (a +:+ b) = String.list_ascii_of_string a ++ String.list_ascii_of_string b).
  { intros a b. induction a as [|x a IH]; [done|]. cbn. by rewrite -IH. }
  rewrite !A in E. apply app_inv_tail in E. apply (f_equal String.string_of_list_ascii) in E.
  by rewrite !String.string_of_list_ascii_of_string in E.
Qed.

(** What the parts of the marker handler do to the state of the system.

    [recording]: [q] records its state, because of [par]. *)
Record recording (par : option string) (q : string) (y y' : csys) : Prop := {
  rg_new : cy_rec y !! q = None;
  rg_coord : exists now ini, forall x, cy_coord y' x = upd q (begin_snapshot now (cy_hist y q) ini sid (cy_coord y q)) (cy_coord y) x;
  rg_hist : forall x, cy_hist y' x = cy_hist y x;
  rg_chan : forall a b, cy_chan y' a b =
    if decide (a = q /\ b ∈ ids /\ b <> q /\ par <> Some b) then cy_chan y a b ++ [Mark] else cy_chan y a b;
  rg_rec : cy_rec y' = <[q := (par, cy_hist y q)]> (cy_rec y);
  rg_order : cy_order y' = cy_order y ++ [q];
  rg_done : cy_done y' = cy_done y;
}.

(** [closing]: [q] records the channel from [p], the marker of which it takes. *)
Record closing (p q : string) (y y' : csys) : Prop := {
  cl_coord : exists snap, co_currentSnapshot (cy_coord y q) = Some snap /\ forall x, cy_coord y' x =
    upd q (let '(snap', c) := record_channel p snap (cy_coord y q) in
           mkCoordinator (co_nodeID c) (co_nodes c) (Some snap') (co_stateRecorded c) (co_markerReceived c) (co_recordingFor c)) (cy_coord y) x;
  cl_hist : forall x, cy_hist y' x = cy_hist y x;
  cl_chan : forall a b, cy_chan y a b = if decide (a = p /\ b = q) then Mark :: cy_chan y' a b else cy_chan y' a b;
  cl_rec : cy_rec y' = cy_rec y;
  cl_order : cy_order y' = cy_order y;
  cl_done : cy_done y' = cy_done y;
}.

(** [completing]: [q] reports its snapshot and forgets it. *)
Record completing (q : string) (y y' : csys) : Prop := {
  cp_all : forall p, p ∈ ids -> p <> q -> p ∈ co_markerReceived (cy_coord y q);
  cp_coord : forall x, cy_coord y' x = upd q (mkCoordinator (co_nodeID (cy_coord y q)) (co_nodes (cy_coord y q)) None false ∅ ∅) (cy_coord y) x;
  cp_hist : forall x, cy_hist y' x = cy_hist y x;
  cp_chan : forall a b, cy_chan y' a b = cy_chan y a b;
  cp_rec : cy_rec y' = cy_rec y;
  cp_order : cy_order y' = cy_order y;
  cp_done : exists snap snap', co_currentSnapshot (cy_coord y q) = Some snap /\ cy_done y' = cy_done y ++ [(q, snap')] /\
    gs_NodeStates snap' = gs_NodeStates snap /\ gs_ChannelStates snap' = gs_ChannelStates snap;
}.

Lemma rec_mono_channel y y' p q hq snap :
  (forall x r, cy_rec y !! x = Some r -> cy_rec y' !! x = Some r) -> recorded_channel y p q hq snap -> recorded_channel y' p q hq snap.
Proof. intros H (par & hp & ms & Hp & ?). exists par, hp, ms. eauto. Qed.

(** What a step leaves alone. *)
Lemma local_frame y y' a :
  (forall x r, cy_rec y !! x = Some r -> cy_rec y' !! x = Some r) -> cy_rec y' !! a = cy_rec y !! a ->
  cy_coord y' a = cy_coord y a -> cy_hist y' a = cy_hist y a -> (a ∈ (cy_done y').*1 <-> a ∈ (cy_done y).*1) ->
  local y a -> local y' a.
Proof.
  intros Hmono Hr Hc Hh Hd (? & ? & La). unfold local. rewrite Hr Hc Hh. do 2 (split; [done|]).
  destruct (cy_rec y !! a) as [[pa ha]|]; rewrite Hd; [|done]. destruct La as [? [?|(? & ? & snap & ? & ? & ? & Hs)]]; [by split; [|left]|].
  split; [done|]. right. do 2 (split; [done|]). exists snap. do 3 (split; [done|]). intros p Hp Hpa. destruct (Hs p Hp Hpa) as [Hm Hn].
  split; [|done]. intros ?. eapply rec_mono_channel; [exact Hmono|by apply Hm].
Qed.

Lemma link_frame y y' a b :
  (forall x r, cy_rec y !! x = Some r -> cy_rec y' !! x = Some r) -> cy_rec y' !! a = cy_rec y !! a ->
  cy_hist y' a = cy_hist y a -> cy_hist y' b = cy_hist y b -> cy_chan y' a b = cy_chan y a b -> (got y' b a <-> got y b a) ->
  fifo_link y a b -> fifo_link y' a b.
Proof.
  intros Hmono Hr Ha Hb Hc Hg [Hf Hl]. unfold fifo_link. rewrite Hr Ha Hb Hc. split; [done|].
  destruct (cy_rec y !! a) as [[pa ha]|]; rewrite Hg; [|done].
  destruct Hl as [(? & ? & ? & pb & hb & Hrb & ?)|[?|(? & ? & ? & [r Hrb])]]; [left|by right; left|right; right].
  - split_and!; try done. exists pb, hb. split; [by apply Hmono|done].
  - split_and!; try done. exists r. by apply Hmono.
Qed.

Lemma reports_frame y y' q snap :
  (forall x r, cy_rec y !! x = Some r -> cy_rec y' !! x = Some r) -> (forall p, got y q p -> got y' q p) -> cinv y ->
  (q, snap) ∈ cy_done y -> q ∈ ids /\ exists par hq, cy_rec y' !! q = Some (par, hq) /\
    sst_State <$> gs_NodeStates snap !! q = Some hq /\ forall p, p ∈ ids -> p <> q -> got y' q p /\ recorded_channel y' p q hq snap.
Proof.
  intros Hmono Hg I Ha. destruct (ci_reports _ I q snap Ha) as (? & pa & ha & Hr & Hs & Hp). split; [done|].
  exists pa, ha. split; [by apply Hmono|]. split; [done|]. intros p Hpi Hpa. destruct (Hp p Hpi Hpa).
  split; [by apply Hg|]. by eapply rec_mono_channel.
Qed.

(** *** Recording *)

Section recording.
  Context (par : option string) (q : string) (y y' : csys) (I : cinv y) (Hq : q ∈ ids) (R : recording par q y y').
  Context (Hpar : match par with None => cy_order y = [] | Some p => p ∈ ids /\ p <> q /\ is_Some (cy_rec y !! p) end).

Lemma recording_mono x r : cy_rec y !! x = Some r -> cy_rec y' !! x = Some r.
Proof. intros Hx. rewrite (rg_rec _ _ _ _ R) lookup_insert_ne; [done|]. pose proof (rg_new _ _ _ _ R). congruence. Qed.

Lemma recording_before : co_nodeID (cy_coord y q) = q /\ co_nodes (cy_coord y q) = ids /\ q ∉ (cy_done y).*1 /\ co_markerReceived (cy_coord y q) = ∅.
Proof. destruct (ci_local _ I q Hq) as (Hid & Hnodes & Hl). rewrite (rg_new _ _ _ _ R) in Hl. naive_solver. Qed.

Lemma recording_got a b : got y' a b <-> got y a b.
Proof.
  destruct (rg_coord _ _ _ _ R) as (now & ini & Hc), recording_before as (_ & _ & _ & Hmr).
  unfold got. rewrite (rg_done _ _ _ _ R) Hc /upd. case_decide; [subst; cbn; by rewrite Hmr|done].
Qed.

Lemma recording_local a : a ∈ ids -> local y' a.
Proof.
  intros Ha. destruct (rg_coord _ _ _ _ R) as (now & ini & Hc), recording_before as (Hid & Hnodes & Hnd & Hmr).
  specialize (Hc a). unfold upd in Hc. case_decide as E.
  - subst a. unfold local. rewrite Hc (rg_rec _ _ _ _ R) (rg_done _ _ _ _ R) !(rg_hist _ _ _ _ R) lookup_insert_eq. cbn. do 3 (split; [done|]). right. do 2 (split; [done|]).
    eexists. do 2 (split; [done|]). cbn. rewrite Hid lookup_insert_eq. split; [done|]. intros p Hp Hpq. split; [set_solver|].
    intros _. by rewrite lookup_empty app_nil_r.
  - apply (local_frame y); auto using recording_mono, ci_local.
    + by rewrite (rg_rec _ _ _ _ R) lookup_insert_ne.
    + apply (rg_hist _ _ _ _ R).
    + by rewrite (rg_done _ _ _ _ R).
Qed.

Lemma recording_link a b : a ∈ ids -> b ∈ ids -> a <> b -> fifo_link y' a b.
Proof.
  intros Ha Hb Hab. pose proof (ci_link _ I a b Ha Hb Hab) as [Hf Hl]. pose proof (rg_new _ _ _ _ R) as Hnew.
  destruct (decide (a = q)) as [->|Haq].
  - unfold fifo_link. rewrite !(rg_hist _ _ _ _ R) (rg_chan _ _ _ _ R) (rg_rec _ _ _ _ R) lookup_insert_eq recording_got. rewrite Hnew in Hl. destruct Hl as [Hnm Hng]. case_decide as E.
    + split; [by rewrite apps_app app_nil_r|]. right. left. split; [naive_solver|]. split; [done|].
      exists (cy_chan y q b), []. split_and!; eauto using no_mark_nil.
    + assert (par = Some b) as -> by (destruct par as [r|]; [destruct (decide (r = b)); naive_solver|naive_solver]).
      split; [done|]. left. do 3 (split; [done|]). destruct Hpar as (_ & Hbq & [[pb hb] Hrb]). exists pb, hb.
      split; [by rewrite lookup_insert_ne|]. rewrite Hf. apply prefix_app_r, recvs_prefix. destruct (ci_local _ I b Hb) as (_ & _ & Lb). rewrite Hrb in Lb. apply Lb.
  - pose proof (rg_hist _ _ _ _ R). apply (link_frame y); auto using recording_mono, ci_link, recording_got.
    + by rewrite (rg_rec _ _ _ _ R) lookup_insert_ne.
    + rewrite (rg_chan _ _ _ _ R) decide_False; naive_solver.
Qed.

Lemma recording_first :
  match cy_order y' with
  | [] => cy_rec y' = ∅
  | i :: rest => i ∈ ids /\ fst <$> cy_rec y' !! i = Some None /\ match rest with [] => True | p :: _ => p ∈ ids /\ p <> i /\ fst <$> cy_rec y' !! p = Some (Some i) end
  end.
Proof.
  pose proof (ci_first _ I) as F. pose proof Hpar as Hp. pose proof (rg_new _ _ _ _ R) as Hnew.
  rewrite (rg_rec _ _ _ _ R) (rg_order _ _ _ _ R). destruct (cy_order y) as [|i rest] eqn:Ho; cbn.
  - rewrite lookup_insert_eq. destruct par as [r|]; [|by split_and!]. rewrite F in Hp. destruct Hp as (_ & _ & [? Hx]). done.
  - destruct F as (Hi & Fi & F). destruct par as [r|]; [|done]. assert (q <> i) by (intros ->; by rewrite Hnew in Fi).
    rewrite lookup_insert_ne //. do 2 (split; [done|]). destruct rest as [|p' rest]; cbn.
    + do 2 (split; [done|]). rewrite lookup_insert_eq /=. destruct Hp as (_ & _ & Hr). apply (ci_order _ I) in Hr. rewrite Ho in Hr.
      apply list_elem_of_singleton in Hr. by subst.
    + destruct F as (? & ? & Fp). do 2 (split; [done|]). rewrite lookup_insert_ne //. intros ->. by rewrite Hnew in Fp.
Qed.

Lemma recording_inv : cinv y'.
Proof.
  split; [apply recording_local|apply recording_link| | | |apply recording_first].
  - intros a b Hab. rewrite (rg_chan _ _ _ _ R) (ci_out _ I a b Hab). by rewrite decide_False; [|naive_solver].
  - intros a snap. rewrite (rg_done _ _ _ _ R). apply reports_frame; auto using recording_mono. intros p. by rewrite recording_got.
  - intros x. rewrite (rg_rec _ _ _ _ R) (rg_order _ _ _ _ R) lookup_insert_is_Some (ci_order _ I) elem_of_app list_elem_of_singleton.
    destruct (decide (q = x)); naive_solver.
Qed.

End recording.

(** *** Closing a channel *)

Section closing.
  Context (p q : string) (y y' : csys) (I : cinv y) (C : closing p q y y') (Hq : is_Some (cy_rec y !! q)).

Lemma closing_ids : p ∈ ids /\ q ∈ ids /\ p <> q.
Proof.
  destruct (decide (p ∈ ids /\ q ∈ ids /\ p <> q)) as [|N]; [done|]. apply (ci_out _ I) in N.
  pose proof (cl_chan _ _ _ _ C p q) as E. rewrite decide_True // in E. congruence.
Qed.

(** The marker is the first on the channel. *)
Lemma closing_link : exists par hp, cy_rec y !! p = Some (par, hp) /\ par <> Some q /\ ~ got y q p /\ no_mark (cy_chan y' p q) /\
  sends hp q = recvs (cy_hist y q) p.
Proof.
  destruct closing_ids as (Hp & Hq' & Hpq). pose proof (cl_chan _ _ _ _ C p q) as E. rewrite decide_True // in E.
  destruct (ci_link _ I p q Hp Hq' Hpq) as [_ L].
  assert (N : ~ no_mark (cy_chan y p q)) by (rewrite E no_mark_cons; naive_solver).
  destruct (cy_rec y !! p) as [[par hp]|]; [|naive_solver].
  destruct L as [(? & ? & _)|[(? & ? & c1 & c2 & Ec & N1 & N2 & Hs)|(? & ? & ? & _)]]; [done| |done].
  destruct (no_mark_split _ _ _ _ Ec N1 E) as [-> <-]. exists par, hp. rewrite Hs app_nil_r. by split_and!.
Qed.

Lemma closing_got a b : got y' a b <-> got y a b \/ a = q /\ b = p.
Proof.
  destruct (cl_coord _ _ _ _ C) as (snap & _ & Hc). unfold got. rewrite (cl_done _ _ _ _ C) Hc /upd.
  case_decide; [subst; cbn; set_solver|naive_solver].
Qed.

Lemma closing_local a : a ∈ ids -> local y' a.
Proof.
  intros Ha. destruct (cl_coord _ _ _ _ C) as (snap & Hsnap & Hc). specialize (Hc a). unfold upd in Hc. case_decide as E.
  - subst a. destruct closing_link as (par & hp & Hrp & _ & Hng & _ & Hs). destruct (ci_local _ I q Ha) as (Hid & Hn & L).
    destruct Hq as [[pq hq] Hrq]. unfold local. rewrite Hc (cl_rec _ _ _ _ C) (cl_done _ _ _ _ C) (cl_hist _ _ _ _ C) Hrq. rewrite Hrq in L. cbn.
    do 2 (split; [done|]). destruct L as [Hpre [(_ & ? & _)|(Hd & Hsr & snap' & Hsnap' & Hsid & Hst & Hch)]]; [congruence|]. simplify_eq.
    split; [done|]. right. do 2 (split; [done|]). eexists. split; [done|]. cbn. do 2 (split; [done|]). intros x Hx Hxq. destruct (Hch x Hx Hxq) as [Hy Hn'].
    unfold recorded_channel. rewrite (cl_rec _ _ _ _ C) Hid /=. destruct (decide (x = p)) as [->|Hxp].
    + split; [|set_solver]. intros _. exists par, hp, (default [] (co_recordingFor (cy_coord y q) !! p)). split; [done|]. rewrite lookup_insert_eq.
      split; [done|]. rewrite Hs. apply Hn'. intros ?. apply Hng. by right.
    + rewrite lookup_insert_ne; [|by intros ?%channelKey_inj]. split; [|set_solver]. intros Hm. apply Hy. set_solver.
  - apply (local_frame y); rewrite ?(cl_rec _ _ _ _ C) ?(cl_done _ _ _ _ C) ?(cl_hist _ _ _ _ C); auto using ci_local.
Qed.

Lemma closing_links a b : a ∈ ids -> b ∈ ids -> a <> b -> fifo_link y' a b.
Proof.
  intros Ha Hb Hab. destruct (decide (a = p /\ b = q)) as [[-> ->]|N].
  - destruct closing_link as (par & hp & Hrp & Hpar & _ & Hnm & Hs). destruct (ci_link _ I p q Ha Hb Hab) as [Hf _].
    pose proof (cl_chan _ _ _ _ C p q) as E. rewrite decide_True // in E. unfold fifo_link. rewrite (cl_rec _ _ _ _ C) !(cl_hist _ _ _ _ C) Hrp.
    split; [by rewrite Hf E|]. right; right. split; [done|]. split; [apply closing_got; by right|]. done.
  - apply (link_frame y); rewrite ?(cl_rec _ _ _ _ C) ?(cl_hist _ _ _ _ C) ?closing_got; auto using ci_link; [|naive_solver].
    by rewrite (cl_chan _ _ _ _ C a b) decide_False.
Qed.

Lemma closing_inv : cinv y'.
Proof.
  split; [apply closing_local|apply closing_links| | | |].
  - intros a b Hab. pose proof (cl_chan _ _ _ _ C a b) as E. rewrite (ci_out _ I a b Hab) in E. by case_decide.
  - intros a snap. rewrite (cl_done _ _ _ _ C). apply reports_frame; [by rewrite (cl_rec _ _ _ _ C)| |done]. intros x ?. apply closing_got. by left.
  - intros x. rewrite (cl_rec _ _ _ _ C) (cl_order _ _ _ _ C). apply (ci_order _ I).
  - rewrite (cl_rec _ _ _ _ C) (cl_order _ _ _ _ C). apply (ci_first _ I).
Qed.

End closing.

(** *** Completing *)

Section completing.
  Context (q : string) (y y' : csys) (I : cinv y) (C : completing q y y') (Hq : q ∈ ids).

Lemma completing_done a : a ∈ (cy_done y').*1 <-> a ∈ (cy_done y).*1 \/ a = q.
Proof. destruct (cp_done _ _ _ C) as (snap & snap' & _ & -> & _). rewrite fmap_app elem_of_app /= list_elem_of_singleton. done. Qed.

Lemma completing_got a b : b ∈ ids -> a <> b -> got y' a b <-> got y a b.
Proof.
  intros Hb Hab. unfold got. rewrite completing_done (cp_coord _ _ _ C) /upd. case_decide; [subst; cbn|naive_solver].
  split; [|naive_solver]. intros _. right. by apply (cp_all _ _ _ C).
Qed.

(** The snapshot reported is the one in progress. *)
Lemma completing_active snap : co_currentSnapshot (cy_coord y q) = Some snap ->
  exists par hq, cy_rec y !! q = Some (par, hq) /\ hq `prefix_of` cy_hist y q /\ sst_State <$> gs_NodeStates snap !! q = Some hq /\
    forall p, p ∈ ids -> p <> q -> recorded_channel y p q hq snap.
Proof.
  intros Hs. destruct (ci_local _ I q Hq) as (_ & _ & L). destruct (cy_rec y !! q) as [[par hq]|]; [|naive_solver].
  destruct L as [? [(_ & ? & _)|(_ & _ & snap' & ? & _ & ? & Hch)]]; [congruence|]. simplify_eq. exists par, hq. do 3 (split; [done|]).
  intros p Hp Hpq. apply Hch; [done..|]. by apply (cp_all _ _ _ C).
Qed.

Lemma completing_local a : a ∈ ids -> local y' a.
Proof.
  intros Ha. destruct (cp_done _ _ _ C) as (snap & snap' & Hsnap & Hdone & _). destruct (decide (a = q)) as [->|Haq].
  - destruct (completing_active snap Hsnap) as (par & hq & Hr & Hp & _). destruct (ci_local _ I q Hq) as (Hid & Hn & _).
    unfold local. rewrite (cp_coord _ _ _ C) (cp_rec _ _ _ C) (cp_hist _ _ _ C) Hr completing_done /upd decide_True //=. naive_solver.
  - apply (local_frame y); rewrite ?(cp_rec _ _ _ C) ?(cp_hist _ _ _ C) ?completing_done; auto using ci_local; [|naive_solver].
    by rewrite (cp_coord _ _ _ C) /upd decide_False.
Qed.

Lemma completing_inv : cinv y'.
Proof.
  split; [apply completing_local| | | | |].
  - intros a b Ha Hb Hab. apply (link_frame y); rewrite ?(cp_rec _ _ _ C) ?(cp_hist _ _ _ C) ?(cp_chan _ _ _ C); auto using ci_link, completing_got.
  - intros a b Hab. rewrite (cp_chan _ _ _ C). by apply (ci_out _ I).
  - intros a snap. destruct (cp_done _ _ _ C) as (s0 & s1 & Hs0 & Hdone & Hns & Hcs). rewrite Hdone elem_of_app list_elem_of_singleton. intros [Ha|[= -> ->]].
    + apply (reports_frame y); [by rewrite (cp_rec _ _ _ C)| |done..]. intros p. unfold got. rewrite completing_done (cp_coord _ _ _ C) /upd. case_decide; naive_solver.
    + split; [done|]. destruct (completing_active s0 Hs0) as (par & hq & Hr & _ & Hst & Hch). exists par, hq. rewrite (cp_rec _ _ _ C) Hns. do 2 (split; [done|]).
      intros p Hp Hpq. split; [left; apply completing_done; by right|]. unfold recorded_channel. rewrite (cp_rec _ _ _ C) Hcs. by apply Hch.
  - intros x. rewrite (cp_rec _ _ _ C) (cp_order _ _ _ C). apply (ci_order _ I).
  - rewrite (cp_rec _ _ _ C) (cp_order _ _ _ C). apply (ci_first _ I).
Qed.

End completing.

(** *** Messages *)

Lemma send_inv p q m y : cinv y -> cinv (cs_step (CSend p q m) y).
Proof.
  intros I. cbn [cs_step]. case_decide as E; [|done]. destruct E as (Hp & Hq & Hpq).
  assert (Hr : forall a b, recvs (upd p (cy_hist y p ++ [LSent q m]) (cy_hist y) b) a = recvs (cy_hist y b) a).
  { intros a b. unfold upd. case_decide; [subst; by rewrite recvs_app recvs_sent app_nil_r|done]. }
  split; cbn.
  - intros a Ha. destruct (ci_local _ I a Ha) as (? & ? & L). split; [done|]. split; [done|]. cbn.
    destruct (cy_rec y !! a) as [[pa ha]|]; [|done]. destruct L as [Hpre L].
    split; [unfold upd; case_decide; [subst; by apply prefix_app_r|done]|].
    destruct L as [?|(? & ? & snap & ? & ? & ? & Hch)]; [by left|right]. do 2 (split; [done|]). exists snap. do 3 (split; [done|]). intros x Hx Hxp.
    rewrite Hr. by apply Hch.
  - intros a b Ha Hb Hab. destruct (ci_link _ I a b Ha Hb Hab) as [Hf L]. unfold fifo_link, got. cbn.
    rewrite Hr. destruct (decide (a = p /\ b = q)) as [[-> ->]|N].
    + unfold upd2, upd. rewrite !decide_True // sends_app apps_app Hf -app_assoc sends_sent decide_True //. split; [done|].
      destruct (cy_rec y !! p) as [[par hp]|]; [|rewrite no_mark_app no_mark_cons; naive_solver eauto using no_mark_nil].
      destruct L as [(? & ? & ? & ?)|[(? & ? & c1 & c2 & -> & ? & ? & ?)|(? & ? & ? & ?)]]; [left|right; left|right; right].
      * rewrite no_mark_app no_mark_cons. split_and!; naive_solver eauto using no_mark_nil.
      * split; [done|]. split; [done|]. exists c1, (c2 ++ [App m]). rewrite -app_assoc no_mark_app no_mark_cons. split_and!; naive_solver eauto using no_mark_nil.
      * rewrite no_mark_app no_mark_cons. split_and!; naive_solver eauto using no_mark_nil.
    + assert (Hc : upd2 p q (cy_chan y p q ++ [App m]) (cy_chan y) a b = cy_chan y a b).
      { unfold upd2, upd. repeat case_decide; naive_solver. }
      rewrite Hc. split; [|done]. rewrite -Hf. unfold upd. case_decide; [subst|done]. rewrite sends_app sends_sent decide_False; [by rewrite app_nil_r|naive_solver].
  - intros a b Hab. unfold upd2, upd. repeat case_decide; simplify_eq; [naive_solver|by apply (ci_out _ I)..].
  - apply (ci_reports _ I).
  - apply (ci_order _ I).
  - apply (ci_first _ I).
Qed.

(** [RecordMessage] changes what is recorded for an open channel only. *)
Lemma RecordMessage_spec p m (c : coordinator) :
  co_nodeID (RecordMessage p m c) = co_nodeID c /\ co_nodes (RecordMessage p m c) = co_nodes c /\
  co_currentSnapshot (RecordMessage p m c) = co_currentSnapshot c /\ co_stateRecorded (RecordMessage p m c) = co_stateRecorded c /\
  co_markerReceived (RecordMessage p m c) = co_markerReceived c /\
  (co_currentSnapshot c <> None -> co_stateRecorded c = true -> forall x, x ∉ co_markerReceived c ->
    default [] (co_recordingFor (RecordMessage p m c) !! x) = default [] (co_recordingFor c !! x) ++ if decide (p = x) then [m] else []).
Proof.
  unfold RecordMessage. destruct (co_currentSnapshot c) as [snap|] eqn:Hs; [|split_and!; done].
  destruct (co_stateRecorded c) eqn:Hr; cbn; [|by split_and!].
  destruct (decide (p ∈ co_markerReceived c)) as [Hp|Hp]; [rewrite bool_decide_true //|rewrite bool_decide_false //]; cbn; split_and!; try done.
  - intros _ _ x Hx. rewrite decide_False; [by rewrite app_nil_r|naive_solver].
  - intros _ _ x Hx. case_decide; [subst; by rewrite lookup_insert_eq|]. by rewrite lookup_insert_ne // app_nil_r.
Qed.

Section message.
  Context (p q : string) (m : M) (rest : list item) (y : csys) (I : cinv y) (Hch : cy_chan y p q = App m :: rest).

Definition received : csys :=
  mkCsys (upd q (RecordMessage p m (cy_coord y q)) (cy_coord y)) (upd q (cy_hist y q ++ [LRecv p m]) (cy_hist y))
    (upd2 p q rest (cy_chan y)) (cy_rec y) (cy_order y) (cy_done y).

Lemma received_got a b : got received a b <-> got y a b.
Proof.
  unfold got. cbn. unfold upd. case_decide; [subst|done]. destruct (RecordMessage_spec p m (cy_coord y q)) as (_ & _ & _ & _ & -> & _). done.
Qed.

Lemma received_local a : a ∈ ids -> local received a.
Proof.
  intros Ha. destruct (decide (a = q)) as [->|Haq].
  - destruct (RecordMessage_spec p m (cy_coord y q)) as (E1 & E2 & E3 & E4 & E5 & E6). destruct (ci_local _ I q Ha) as (Hid & Hn & L).
    unfold local. cbn. unfold upd. rewrite !decide_True // E1 E2 E3 E4 E5. do 2 (split; [done|]). destruct (cy_rec y !! q) as [[pq hq]|]; [|done].
    destruct L as [Hpre L]. split; [by apply prefix_app_r|]. destruct L as [?|(? & Hsr & snap & Hs & ? & ? & Hr)]; [by left|right].
    do 2 (split; [done|]). exists snap. do 3 (split; [done|]). intros x Hx Hxq. destruct (Hr x Hx Hxq) as [Hy Hn']. split; [exact Hy|].
    intros Hx'. rewrite recvs_app recvs_recv E6 // ?Hs // (Hn' Hx') app_assoc. done.
  - apply (local_frame y); cbn; rewrite ?/upd ?decide_False //. by apply (ci_local _ I).
Qed.

Lemma received_link a b : a ∈ ids -> b ∈ ids -> a <> b -> fifo_link received a b.
Proof.
  intros Ha Hb Hab. destruct (ci_link _ I a b Ha Hb Hab) as [Hf L].
  assert (Hs : forall c, sends (cy_hist received a) c = sends (cy_hist y a) c).
  { intros c. cbn. unfold upd. case_decide; [subst; by rewrite sends_app sends_recv app_nil_r|done]. }
  unfold fifo_link. rewrite Hs. destruct (decide (a = p /\ b = q)) as [[-> ->]|N].
  - assert (cy_chan received p q = rest) as -> by (cbn; unfold upd2, upd; by rewrite !decide_True).
    assert (recvs (cy_hist received q) p = recvs (cy_hist y q) p ++ [m]) as -> by (cbn; unfold upd; by rewrite decide_True // recvs_app recvs_recv decide_True).
    rewrite Hch in L, Hf. split; [by rewrite Hf -app_assoc|]. change (cy_rec received) with (cy_rec y).
    destruct (cy_rec y !! p) as [[par hp]|]; rewrite received_got; [|by rewrite no_mark_cons in L; naive_solver].
    rewrite no_mark_cons in L. destruct L as [(? & [? ?] & ? & ?)|[(? & ? & c1 & c2 & Ec & N1 & ? & Hsp)|(? & ? & [? ?] & ?)]]; [by left| |by right; right].
    right; left. do 2 (split; [done|]). destruct c1 as [|i c1]; [done|]. cbn in Ec. simplify_eq. apply no_mark_cons in N1 as [_ N1].
    exists c1, c2. do 3 (split; [done|]). by rewrite Hsp -app_assoc.
  - assert (cy_chan received a b = cy_chan y a b) as -> by (cbn; unfold upd2, upd; repeat case_decide; naive_solver).
    assert (recvs (cy_hist received b) a = recvs (cy_hist y b) a) as ->.
    { cbn. unfold upd. case_decide; [subst|done]. rewrite recvs_app recvs_recv decide_False; [by rewrite app_nil_r|naive_solver]. }
    split; [done|]. change (cy_rec received) with (cy_rec y). destruct (cy_rec y !! a) as [[par hp]|]; by rewrite received_got.
Qed.

Lemma received_inv : cinv received.
Proof.
  split; [apply received_local|apply received_link| | |apply (ci_order _ I)|apply (ci_first _ I)].
  - intros a b Hab. cbn. unfold upd2, upd. repeat case_decide; simplify_eq; [|by apply (ci_out _ I)..]. apply (ci_out _ I) in Hab. congruence.
  - intros a snap Ha. apply (reports_frame y); try done. intros x. by rewrite received_got.
Qed.

End message.

(** *** Markers *)

(** [ReceiveMarker] once the snapshot is in progress. *)
Lemma marker_inv p q now y y' snap :
  cinv y -> q ∈ ids -> co_currentSnapshot (cy_coord y q) = Some snap -> is_Some (cy_rec y !! q) ->
  (forall a b, cy_chan y a b = if decide (a = p /\ b = q) then Mark :: cy_chan y' a b else cy_chan y' a b) ->
  (forall x, cy_hist y' x = cy_hist y x) -> cy_rec y' = cy_rec y -> cy_order y' = cy_order y ->
  (let '(snap', c) := record_channel p snap (cy_coord y q) in let '(c', done) := checkCompletion now snap' c in
   (forall x, cy_coord y' x = upd q c' (cy_coord y) x) /\
   cy_done y' = match done with Some s => cy_done y ++ [(q, s)] | None => cy_done y end) ->
  cinv y'.
Proof.
  intros I Hq Hs Hr Hch Hh Hrec Ho. destruct (ci_local _ I q Hq) as (Hid & Hn & _).
  cbn [record_channel]. unfold checkCompletion. destruct (forallb _ _) eqn:Hall; intros [Hc Hd].
  - set (c2 := let '(snap', c) := record_channel p snap (cy_coord y q) in
               mkCoordinator (co_nodeID c) (co_nodes c) (Some snap') (co_stateRecorded c) (co_markerReceived c) (co_recordingFor c)).
    assert (I2 : cinv (mkCsys (upd q c2 (cy_coord y)) (cy_hist y') (cy_chan y') (cy_rec y) (cy_order y) (cy_done y))).
    { apply (closing_inv p q y); [done| |done]. split; cbn; try done. by exists snap. }
    eapply (completing_inv q _ _ I2); [|done]. split; cbn; try done.
    + intros a Ha Haq. unfold upd. rewrite decide_True //. cbn. rewrite forallb_forall in Hall. cbn in Hall. rewrite Hid Hn in Hall.
      apply list_elem_of_In, Hall in Ha. apply orb_true_iff in Ha as [Ha|Ha]; [by apply String.eqb_eq in Ha|by apply bool_decide_eq_true in Ha].
    + intros x. rewrite Hc. unfold upd. by repeat case_decide.
    + unfold upd. rewrite decide_True //. eexists _, _. split; [done|]. split; [exact Hd|]. done.
  - apply (closing_inv p q y); [done| |done]. split; try done. by exists snap.
Qed.

Lemma targets_iff x (f : string -> bool) : x ∈ List.filter f ids <-> x ∈ ids /\ f x = true.
Proof. by rewrite !list_elem_of_In filter_In. Qed.

(** A marker on a channel: the receiver has not closed it, and the sender has recorded. *)
Lemma marker_link p q rest y : cinv y -> cy_chan y p q = Mark :: rest ->
  (p ∈ ids /\ q ∈ ids /\ p <> q) /\ is_Some (cy_rec y !! p) /\ ~ got y q p.
Proof.
  intros I Hch. destruct (decide (p ∈ ids /\ q ∈ ids /\ p <> q)) as [E|N]; [|apply (ci_out _ I) in N; congruence].
  split; [done|]. destruct E as (Hp & Hq & Hpq). destruct (ci_link _ I p q Hp Hq Hpq) as [_ L]. rewrite Hch in L.
  destruct (cy_rec y !! p) as [[par hp]|]; rewrite no_mark_cons in L; naive_solver.
Qed.

Lemma send_markers_nil p chan a b : send_markers p [] chan a b = chan a b.
Proof. unfold send_markers, upd. destruct (decide (a = p)) as [->|]; [|done]. case_decide; [set_solver|by rewrite app_nil_r]. Qed.

Lemma send_markers_pop p q markers rest chan a b : p <> q -> chan p q = Mark :: rest ->
  send_markers q markers chan a b =
  if decide (a = p /\ b = q) then Mark :: send_markers q markers (upd2 p q rest chan) a b else send_markers q markers (upd2 p q rest chan) a b.
Proof.
  intros Hpq Hch. unfold send_markers, upd2, upd. destruct (decide (a = q)) as [->|].
  - destruct (decide (q = p)) as [->|]; [done|]. by destruct (decide (q = p /\ b = q)) as [[-> _]|].
  - destruct (decide (a = p)) as [->|]; [|by destruct (decide (a = p /\ b = q)) as [[-> _]|]].
    destruct (decide (b = q)) as [->|]; [by destruct (decide (p = p /\ q = q)) as [|[]]|by destruct (decide (p = p /\ b = q)) as [[_ ->]|]].
Qed.

Lemma deliver_marker_inv p q now rest y : cinv y -> cy_chan y p q = Mark :: rest -> cinv (cs_step (CDeliver p q now) y).
Proof.
  intros I Hch. destruct (marker_link _ _ _ _ I Hch) as ((Hp & Hq & Hpq) & Hrp & Hng).
  cbn [cs_step]. rewrite Hch. destruct (ci_local _ I q Hq) as (Hid & Hn & L). unfold ReceiveMarker.
  destruct (cy_rec y !! q) as [[par hq]|] eqn:Hrq.
  - destruct L as [_ [(Hd & _)|(_ & _ & snap & Hs & Hsid & _)]]; [destruct Hng; by left|].
    assert (is_new sid (cy_coord y q) = false) as -> by (unfold is_new; rewrite Hs Hsid; by rewrite String.eqb_refl). rewrite Hs.
    destruct (record_channel _ _ _) as [snap' c] eqn:Er, (checkCompletion _ _ _) as [c' done] eqn:Ec.
    apply (marker_inv p q now y _ snap I Hq Hs); [by rewrite Hrq| |done..|by rewrite Er Ec].
    intros a b. rewrite -(send_markers_nil q (cy_chan y)). by apply send_markers_pop.
  - destruct L as (Hs & _ & _). assert (is_new sid (cy_coord y q) = true) as -> by (unfold is_new; by rewrite Hs).
    set (markers := List.filter _ _). set (c1 := begin_snapshot _ _ _ _ _). cbn [co_currentSnapshot c1 begin_snapshot recordLocalState].
    set (y1 := mkCsys (upd q c1 (cy_coord y)) (cy_hist y) (send_markers q markers (cy_chan y))
                 (<[q := (Some p, cy_hist y q)]> (cy_rec y)) (cy_order y ++ [q]) (cy_done y)).
    assert (I1 : cinv y1).
    { apply (recording_inv (Some p) q y); [done..| |done]. split; try done; [by eexists _, _|]. intros a b. cbn. unfold send_markers, upd.
      case_decide; [subst a|by rewrite decide_False; [|naive_solver]].
      assert (b ∈ markers <-> q = q /\ b ∈ ids /\ b <> q /\ Some p <> Some b).
      { unfold markers. rewrite Hid Hn targets_iff andb_true_iff !negb_true_iff !String.eqb_neq. naive_solver. }
      repeat case_decide; rewrite ?app_nil_r; naive_solver. }
    destruct (record_channel _ _ _) as [snap' c] eqn:Er, (checkCompletion _ _ _) as [c' done] eqn:Ec.
    assert (E1 : cy_coord y1 q = c1) by (cbn; unfold upd; by rewrite decide_True).
    eapply (marker_inv p q now y1 _ _ I1 Hq); [by rewrite E1|by cbn; rewrite lookup_insert_eq| |done..|].
    + intros a b. by apply send_markers_pop.
    + rewrite E1 Er Ec. split; [|done]. intros x. cbn [cy_coord y1]. unfold upd. by repeat case_decide.
Qed.

Lemma initiate_inv p now y : cinv y -> cinv (cs_step (CInit p now) y).
Proof.
  intros I. cbn [cs_step]. case_decide as E; [|done]. destruct E as [Hp Ho]. destruct (ci_local _ I p Hp) as (Hid & Hn & _).
  pose proof (ci_first _ I) as F. rewrite Ho in F. cbn. apply (recording_inv None p y); [done..| |done].
  split; cbn; [by rewrite F lookup_empty|by eexists _, _|done| |done|by rewrite Ho|done].
  intros a b. unfold send_markers, upd. case_decide; [subst a|by rewrite decide_False; [|naive_solver]].
  rewrite Hid Hn. set (markers := List.filter _ _).
  assert (b ∈ markers <-> p = p /\ b ∈ ids /\ b <> p /\ None <> Some b) by (unfold markers; rewrite targets_iff negb_true_iff String.eqb_neq; naive_solver).
  repeat case_decide; rewrite ?app_nil_r; naive_solver.
Qed.

Lemma cs_step_inv a y : cinv y -> cinv (cs_step a y).
Proof.
  intros I. destruct a as [p q m|p q now|p now]; [by apply send_inv| |by apply initiate_inv].
  destruct (cy_chan y p q) as [|[|m] rest] eqn:Hch; [cbn; by rewrite Hch|by eapply deliver_marker_inv|].
  cbn [cs_step]. rewrite Hch. by apply received_inv.
Qed.

Lemma cs_init_inv : cinv cs_init.
Proof.
  split; cbn; [| |done|by intros ?? ?%elem_of_nil| |done].
  - intros q _. unfold local. cbn. rewrite lookup_empty. split_and!; [done..|by intros ?%elem_of_nil|done].
  - intros p q _ _ _. unfold fifo_link, got. cbn. rewrite lookup_empty. split_and!; [done|apply no_mark_nil|]. intros [?%elem_of_nil|?%not_elem_of_empty]; done.
  - intros q. rewrite lookup_empty elem_of_nil is_Some_alt. done.
Qed.

Lemma cs_run_inv acts : cinv (cs_run acts).
Proof.
  unfold cs_run. generalize cs_init_inv. generalize cs_init. induction acts as [|a acts IH]; intros y I; [done|]. apply IH, cs_step_inv, I.
Qed.

(** ** Theorems *)

(** The cut that recorded states make: every message received before a
    recorded state was sent before the recorded state of its sender. *)
Lemma recorded_cut y p q parp hp parq hq :
  cinv y -> p ∈ ids -> q ∈ ids -> p <> q -> cy_rec y !! p = Some (parp, hp) -> cy_rec y !! q = Some (parq, hq) ->
  recvs hq p `prefix_of` sends hp q.
Proof.
  intros I Hp Hq Hpq Hrp Hrq. destruct (ci_link _ I p q Hp Hq Hpq) as [_ L]. rewrite Hrp in L.
  destruct (ci_local _ I q Hq) as (_ & _ & Lq). rewrite Hrq in Lq. destruct Lq as [Hpre Lq].
  assert (K : forall snap, recorded_channel y p q hq snap -> recvs hq p `prefix_of` sends hp q).
  { intros snap (par & h & ms & Hr & _ & E). simplify_eq. by exists ms. }
  destruct L as [(_ & _ & _ & parq' & hq' & ? & ?)|[(_ & _ & c1 & c2 & _ & _ & _ & ->)|(_ & G & _)]]; [naive_solver|by apply prefix_app_r, recvs_prefix|].
  destruct G as [G|G].
  - apply list_elem_of_fmap in G as ([q' snap] & -> & Hin). destruct (ci_reports _ I _ _ Hin) as (_ & par & h & Hr & _ & Hch). cbn in *. simplify_eq. by eapply K, Hch.
  - destruct Lq as [(_ & _ & E)|(_ & _ & snap & _ & _ & _ & Hch)]; [rewrite E in G; set_solver|]. by eapply K, Hch.
Qed.

(** C23: the states that coordinators over FIFO channels record make a
    consistent cut, whatever the interleaving of messages and markers: a
    message that a recorded state has received was sent in the recorded
    state of its sender, in order.  A snapshot that a node reports holds its
    recorded state, and for every other node the messages that were on the
    channel at the cut: those the sender's recorded state had sent and the
    receiver's had not received. *)
Theorem snapshot_consistent acts :
  (forall p q parp hp parq hq, p ∈ ids -> q ∈ ids -> p <> q ->
     cy_rec (cs_run acts) !! p = Some (parp, hp) -> cy_rec (cs_run acts) !! q = Some (parq, hq) -> recvs hq p `prefix_of` sends hp q) /\
  (forall q snap, (q, snap) ∈ cy_done (cs_run acts) ->
     exists par hq, cy_rec (cs_run acts) !! q = Some (par, hq) /\ sst_State <$> gs_NodeStates snap !! q = Some hq /\
     forall p, p ∈ ids -> p <> q -> exists par hp ms, cy_rec (cs_run acts) !! p = Some (par, hp) /\
       gs_ChannelStates snap !! channelKey p q = Some (mkChannelState p q ms) /\ sends hp q = recvs hq p ++ ms).
Proof.
  pose proof (cs_run_inv acts) as I. split; [intros p q parp hp parq hq ?????; by eapply recorded_cut|].
  intros q snap Hs. destruct (ci_reports _ I q snap Hs) as (_ & par & hq & Hr & Hst & Hch). exists par, hq. do 2 (split; [done|]).
  intros p Hp Hpq. by apply Hch.
Qed.

(** A node whose marker made another node record never reports. *)
Lemma parent_never_reports y r i hr :
  cinv y -> i ∈ ids -> r ∈ ids -> r <> i -> cy_rec y !! r = Some (Some i, hr) -> i ∉ (cy_done y).*1.
Proof. intros I Hi Hr Hri E Hd. destruct (ci_link _ I r i Hr Hi Hri) as [_ L]. rewrite E in L. unfold got in L. naive_solver. Qed.

(** C24: no run of two nodes or more completes the snapshot at the node that
    initiated it: [ReceiveMarker] does not answer the node whose marker
    started the recording, and the initiator waits for a marker of every
    node. *)
Theorem initiator_never_completes acts i p :
  i ∈ ids -> p ∈ ids -> p <> i -> head (cy_order (cs_run acts)) = Some i -> i ∉ (cy_done (cs_run acts)).*1.
Proof.
  intros Hi Hp Hpi Hh Hd. pose proof (cs_run_inv acts) as I. pose proof (ci_first _ I) as F.
  destruct (cy_order (cs_run acts)) as [|j [|r rest]] eqn:Ho; [done| |]; cbn in Hh; simplify_eq.
  - apply list_elem_of_fmap in Hd as ([i' snap] & -> & Hin). destruct (ci_reports _ I _ _ Hin) as (_ & ? & ? & _ & _ & Hall).
    destruct (Hall p Hp Hpi) as [_ (par & hp & ms & Hr & _)]. assert (Hx : is_Some (cy_rec (cs_run acts) !! p)) by done.
    apply (ci_order _ I) in Hx. rewrite Ho in Hx. set_solver.
  - destruct F as (_ & _ & Hr & Hri & Fr). destruct (cy_rec (cs_run acts) !! r) as [[par hr]|] eqn:E; [|done]. cbn in Fr. simplify_eq.
    by apply (parent_never_reports _ _ _ _ I Hi Hr Hri E).
Qed.

End system.

(** A run of three nodes: [a] starts a snapshot while a message of [b] is on
    its way to [c]; [c] records it and completes. *)
Definition demo_run : list (@cact Z) :=
  [CSend "a" "b" 1; CSend "b" "c" 7; CDeliver "a" "b" 0; CInit "a" 10; CSend "c" "b" 5; CDeliver "a" "c" 11; CDeliver "a" "b" 12;
   CDeliver "b" "c" 13; CDeliver "b" "c" 14; CDeliver "c" "b" 15; CDeliver "c" "b" 16].

Definition demo_ids : list string := ["a"; "b"; "c"].

Lemma demo_reports : map fst (cy_done (cs_run demo_ids "s" demo_run)) = ["c"; "b"].
Proof. by vm_compute. Qed.

Lemma snapshot_consistent_witness : exists hb hc, snd <$> cy_rec (cs_run demo_ids "s" demo_run) !! "b" = Some hb /\
  snd <$> cy_rec (cs_run demo_ids "s" demo_run) !! "c" = Some hc /\ sends hb "c" = [7] /\ recvs hc "b" = [] /\ recvs hc "b" `prefix_of` sends hb "c".
Proof.
  eexists _, _. split; [by vm_compute|]. split; [by vm_compute|]. split; [by vm_compute|]. split; [by vm_compute|].
  eapply (proj1 (snapshot_consistent demo_ids "s" demo_run) "b" "c"); [set_solver..|done|by vm_compute|by vm_compute].
Defined.

Lemma initiator_never_completes_witness : "a" ∉ (cy_done (cs_run demo_ids "s" demo_run)).*1.
Proof.
  apply (initiator_never_completes demo_ids "s" demo_run "a" "b"); [set_solver..|done|by vm_compute].
Defined.
