(* ===== verification/EventHeap.v ===== *)
(** * EventHeap: the event queue of the simulator (pkg/chaos/simulator.go)

    [eventHeap] with the operations of container/heap on it.  An event is
    identified with the object it points to: its index is a field that [Swap]
    keeps up to date.  [Less] and [Swap] are only called with indices in
    range; an index out of range, at which Go panics, compares false and is
    not swapped. *)

From S2P Require Import Prelude.

Section heap.
  Context {A : Type}.

Record SimEvent := mkSimEvent {
  ev_At : Z;
  ev_Action : A;
  ev_Description : string;
  ev_Priority : Z;
  ev_index : Z;
}.

Notation eventHeap := (list SimEvent).

Definition Less (h : eventHeap) (i j : nat) : bool :=
  match h !! i, h !! j with
  | Some a, Some b => if negb (ev_At a =? ev_At b) then ev_At a <? ev_At b else ev_Priority a <? ev_Priority b
  | _, _ => false
  end.

Definition set_index (i : Z) (e : SimEvent) : SimEvent := mkSimEvent (ev_At e) (ev_Action e) (ev_Description e) (ev_Priority e) i.

Definition Swap (i j : nat) (h : eventHeap) : eventHeap :=
  match h !! i, h !! j with
  | Some a, Some b => <[j := set_index (Z.of_nat j) a]> (<[i := set_index (Z.of_nat i) b]> h)
  | _, _ => h
  end.

(** [eventHeap.Push] and [eventHeap.Pop]. *)
Definition heap_append (x : SimEvent) (h : eventHeap) : eventHeap := h ++ [set_index (zlen h) x].

Definition heap_truncate (h : eventHeap) : option (SimEvent * eventHeap) :=
  match last h with
  | None => None
  | Some item => Some (set_index (-1) item, take (length h - 1) h)
  end.

(** [up] and [down] of container/heap: the first is done in as many steps as
    the index, the second in as many as the size. *)
Fixpoint up (fuel j : nat) (h : eventHeap) : eventHeap :=
  match fuel with
  | O => h
  | S fuel =>
      let i := ((j - 1) / 2)%nat in
      if (i =? j)%nat || negb (Less h j i) then h else up fuel i (Swap i j h)
  end.

Fixpoint down (fuel i n : nat) (h : eventHeap) : eventHeap :=
  match fuel with
  | O => h
  | S fuel =>
      let j1 := (2 * i + 1)%nat in
      if (n <=? j1)%nat then h else
      let j2 := (j1 + 1)%nat in
      let j := if (j2 <? n)%nat && Less h j2 j1 then j2 else j1 in
      if negb (Less h j i) then h else down fuel j n (Swap i j h)
  end.

(** [heap.Push] and [heap.Pop]. *)
Definition heap_Push (x : SimEvent) (h : eventHeap) : eventHeap :=
  let h := heap_append x h in up (length h) (length h - 1) h.

Definition heap_Pop (h : eventHeap) : option (SimEvent * eventHeap) :=
  let n := (length h - 1)%nat in heap_truncate (down (length h) 0 n (Swap 0 n h)).

(** ** Keys *)

Definition key : Type := (Z * Z)%type.
Definition kle (a b : key) : Prop := a.1 < b.1 \/ a.1 = b.1 /\ a.2 <= b.2.
Definition event_key (e : SimEvent) : key := (ev_At e, ev_Priority e).
Definition keyat (h : eventHeap) (i : nat) : key := default (0, 0) (event_key <$> h !! i).
Definition swapk (i j : nat) (k : nat -> key) (x : nat) : key := if (x =? i)%nat then k j else if (x =? j)%nat then k i else k x.

Lemma kle_trans a b c : kle a b -> kle b c -> kle a c.
Proof. unfold kle. lia. Qed.
Lemma kle_refl a : kle a a.
Proof. unfold kle. lia. Qed.

Lemma Less_kle h i j : (i < length h)%nat -> (j < length h)%nat -> Less h i j = false <-> kle (keyat h j) (keyat h i).
Proof.
  intros Hi Hj. apply lookup_lt_is_Some in Hi as [a Ha], Hj as [b Hb]. unfold Less, keyat, kle, event_key. rewrite Ha Hb. cbn.
  destruct (Z.eqb_spec (ev_At a) (ev_At b)); cbn; rewrite Z.ltb_ge; lia.
Qed.

Lemma Less_kle_true h i j : (i < length h)%nat -> (j < length h)%nat -> Less h i j = true -> kle (keyat h i) (keyat h j).
Proof.
  intros Hi Hj H. apply lookup_lt_is_Some in Hi as [a Ha], Hj as [b Hb]. unfold Less, keyat, kle, event_key in *. rewrite Ha Hb. rewrite Ha Hb in H. cbn.
  destruct (Z.eqb_spec (ev_At a) (ev_At b)); cbn in H; lia.
Qed.

Lemma Swap_length i j h : length (Swap i j h) = length h.
Proof. unfold Swap. destruct (h !! i), (h !! j); by rewrite ?length_insert. Qed.

Lemma Swap_lookup i j h x : (i < length h)%nat -> (j < length h)%nat ->
  Swap i j h !! x = if (x =? j)%nat then set_index (Z.of_nat j) <$> h !! i else if (x =? i)%nat then set_index (Z.of_nat i) <$> h !! j else h !! x.
Proof.
  intros Hi Hj. pose proof Hi as [a Ha]%lookup_lt_is_Some. pose proof Hj as [b Hb]%lookup_lt_is_Some. unfold Swap. rewrite Ha Hb.
  destruct (Nat.eqb_spec x j) as [->|]; [by rewrite list_lookup_insert_eq ?length_insert|]. rewrite list_lookup_insert_ne //.
  destruct (Nat.eqb_spec x i) as [->|]; [by rewrite list_lookup_insert_eq|]. by rewrite list_lookup_insert_ne.
Qed.

Lemma keyat_Swap i j h x : (i < length h)%nat -> (j < length h)%nat -> keyat (Swap i j h) x = swapk i j (keyat h) x.
Proof.
  intros Hi Hj. unfold keyat, swapk. rewrite Swap_lookup //.
  destruct (Nat.eqb_spec x j), (Nat.eqb_spec x i); subst; by rewrite -?option_fmap_compose.
Qed.

(** ** Well-formed queues *)

Notation parent j := ((j - 1) / 2)%nat.

(** The heap order on the first [n] positions. *)
Definition heap_order (k : nat -> key) (n : nat) : Prop := forall c, (0 < c < n)%nat -> kle (k (parent c)) (k c).

(** The index field of an event is its position. *)
Definition indexed (h : eventHeap) : Prop := forall i e, h !! i = Some e -> ev_index e = Z.of_nat i.

Definition queue_ok (h : eventHeap) : Prop := heap_order (keyat h) (length h) /\ indexed h.

(** The events of a queue, their positions aside. *)
Definition strip (e : SimEvent) : SimEvent := set_index 0 e.

Lemma parent_spec j : (0 < j)%nat -> (parent j < j /\ (j = 2 * parent j + 1 \/ j = 2 * parent j + 2))%nat.
Proof. intros Hj. pose proof (Nat.div_mod_eq (j - 1) 2). pose proof (Nat.mod_upper_bound (j - 1) 2). lia. Qed.

Lemma parent_eq i j : (j = 2 * i + 1 \/ j = 2 * i + 2)%nat -> parent j = i.
Proof. intros H. pose proof (parent_spec j). lia. Qed.

Lemma heap_root_min k n j : heap_order k n -> (j < n)%nat -> kle (k 0%nat) (k j).
Proof.
  intros H. induction j as [j IH] using lt_wf_ind. intros Hj. destruct (decide (j = 0%nat)) as [->|Hj0]; [apply kle_refl|].
  pose proof (parent_spec j). eapply kle_trans; [apply (IH (parent j)); lia|]. apply H. lia.
Qed.

(** ** Sifting

    The order holds everywhere but above [j] (resp. below [i]), and would hold
    there for the neighbours of that position. *)
Definition up_order (k : nat -> key) (n j : nat) : Prop :=
  (forall c, (0 < c < n)%nat -> c <> j -> kle (k (parent c)) (k c)) /\
  (forall c, (0 < c < n)%nat -> parent c = j -> (0 < j)%nat -> kle (k (parent j)) (k c)).

Definition down_order (k : nat -> key) (n i : nat) : Prop :=
  (forall c, (0 < c < n)%nat -> parent c <> i -> kle (k (parent c)) (k c)) /\
  (forall c, (0 < c < n)%nat -> parent c = i -> (0 < i)%nat -> kle (k (parent i)) (k c)).

Ltac eqb_cases := repeat match goal with |- context [(?a =? ?b)%nat] => destruct (Nat.eqb_spec a b) end.
Ltac swap_cases := unfold swapk; eqb_cases.

Lemma swap_up k n j : (0 < j < n)%nat -> kle (k j) (k (parent j)) -> up_order k n j -> up_order (swapk (parent j) j k) n (parent j).
Proof.
  intros Hj Hlt [H1 H2]. pose proof (parent_spec j) as Pj. split.
  - intros c Hc Hci. pose proof (parent_spec c) as Pc. destruct (decide (c = j)) as [->|Hcj].
    { swap_cases; try lia. done. }
    specialize (H1 c Hc Hcj). swap_cases; try lia; try congruence.
    + rewrite e in H1. eapply kle_trans; eauto.
    + apply H2; lia.
  - intros c Hc Hpc Hi. pose proof (parent_spec c) as Pc. pose proof (parent_spec (parent j)) as Pi.
    assert (Hup : kle (k (parent (parent j))) (k (parent j))) by (apply H1; lia).
    swap_cases; try lia; [done|]. eapply kle_trans; [exact Hup|]. rewrite -Hpc. apply H1; lia.
Qed.

Lemma swap_down k n i j : (j < n)%nat -> (j = 2 * i + 1 \/ j = 2 * i + 2)%nat -> (forall c, (0 < c < n)%nat -> parent c = i -> kle (k j) (k c)) ->
  kle (k j) (k i) -> down_order k n i -> down_order (swapk i j k) n j.
Proof.
  intros Hj Hij Hmin Hlt [H1 H2]. pose proof (parent_eq i j Hij) as Pj. split.
  - intros c Hc Hcj. pose proof (parent_spec c) as Pc. destruct (decide (parent c = i)) as [Hci|Hci].
    + specialize (Hmin c Hc Hci). swap_cases; try lia; done.
    + specialize (H1 c Hc Hci). swap_cases; try lia; try done. rewrite e. apply H2; lia.
  - intros c Hc Hcj Hj0. rewrite Pj. pose proof (parent_spec c) as Pc. assert (kle (k j) (k c)) by (rewrite -Hcj; apply H1; lia). swap_cases; try lia. done.
Qed.

Lemma up_order_ext k k' n j : (forall x, k' x = k x) -> up_order k n j -> up_order k' n j.
Proof. intros E [H1 H2]. split; intros c; rewrite !E; auto. Qed.
Lemma down_order_ext k k' n j : (forall x, k' x = k x) -> down_order k n j -> down_order k' n j.
Proof. intros E [H1 H2]. split; intros c; rewrite !E; auto. Qed.

Lemma up_heap fuel : forall j h, (j < length h)%nat -> (j < fuel)%nat -> up_order (keyat h) (length h) j -> heap_order (keyat (up fuel j h)) (length h).
Proof.
  induction fuel as [|fuel IH]; intros j h Hj Hf U; [lia|]. cbn [up]. pose proof (parent_spec j) as Pj.
  destruct (decide (j = 0%nat)) as [->|Hj0]; [cbn; intros c Hc; apply U; lia|].
  destruct (Nat.eqb_spec (parent j) j); [lia|]. destruct (Less h j (parent j)) eqn:L; cbn.
  - pose proof (IH (parent j) (Swap (parent j) j h)) as G. rewrite Swap_length in G. apply G; [lia..|]. eapply up_order_ext; [intros x; apply keyat_Swap; lia|].
    apply swap_up; [lia| |done]. apply Less_kle_true; [lia..|done].
  - apply Less_kle in L; [|lia..]. intros c Hc. destruct (decide (c = j)) as [->|]; [done|]. by apply (proj1 U).
Qed.

Lemma down_heap fuel : forall i n h, (n <= length h)%nat -> (n - i < fuel)%nat -> down_order (keyat h) n i -> heap_order (keyat (down fuel i n h)) n.
Proof.
  induction fuel as [|fuel IH]; intros i n h Hn Hf D; [lia|]. cbn [down].
  destruct (Nat.leb_spec n (2 * i + 1)) as [Hi|Hi].
  { intros c Hc. apply (proj1 D); [done|]. pose proof (parent_spec c). lia. }
  set (j := if _ && _ then _ else _).
  assert (Hj : (j < n)%nat /\ (j = 2 * i + 1 \/ j = 2 * i + 2)%nat /\ forall c, (0 < c < n)%nat -> parent c = i -> kle (keyat h j) (keyat h c)).
  { unfold j. destruct (Nat.ltb_spec (2 * i + 1 + 1) n) as [H2|H2]; cbn [andb]; [destruct (Less h _ _) eqn:L|]; (split_and!; [lia..|]);
      intros c Hc Hp; pose proof (parent_spec c) as Pc; assert (c = 2 * i + 1 \/ c = 2 * i + 1 + 1)%nat as [-> | ->] by lia;
      try apply kle_refl; try lia; [apply Less_kle_true in L|apply Less_kle in L]; (done || lia). }
  destruct Hj as (Hj & Hij & Hmin). destruct (Less h j i) eqn:L; cbn [negb].
  - apply IH; rewrite ?Swap_length; [lia..|]. eapply down_order_ext; [intros x; apply keyat_Swap; lia|].
    apply swap_down; try done. apply Less_kle_true; [lia..|done].
  - apply Less_kle in L; [|lia..]. intros c Hc. destruct (decide (parent c = i)) as [Hp|]; [|by apply (proj1 D)]. rewrite Hp. eapply kle_trans; [exact L|]. by apply Hmin.
Qed.

(** ** What sifting keeps *)

Lemma strip_set_index i e : strip (set_index i e) = strip e.
Proof. done. Qed.

Lemma Swap_strip i j h : strip <$> Swap i j h ≡ₚ strip <$> h.
Proof.
  destruct (h !! i) as [a|] eqn:Ha; [|by unfold Swap; rewrite Ha]. destruct (h !! j) as [b|] eqn:Hb; [|by unfold Swap; rewrite Ha Hb].
  assert (Hi := lookup_lt_Some _ _ _ Ha). assert (Hj := lookup_lt_Some _ _ _ Hb).
  apply Permutation_inj. split; [by rewrite !length_fmap Swap_length|].
  exists (fun x => if (x =? j)%nat then i else if (x =? i)%nat then j else x). split.
  - intros x y. eqb_cases; lia.
  - intros x. rewrite !list_lookup_fmap Swap_lookup //. eqb_cases; by rewrite -?option_fmap_compose.
Qed.

Lemma Swap_indexed i j h : indexed h -> indexed (Swap i j h).
Proof.
  intros H. destruct (h !! i) as [a|] eqn:Ha; [|by unfold Swap; rewrite Ha]. destruct (h !! j) as [b|] eqn:Hb; [|by unfold Swap; rewrite Ha Hb].
  intros x e. rewrite Swap_lookup; [|by eapply lookup_lt_Some..]. rewrite Ha Hb.
  destruct (Nat.eqb_spec x j), (Nat.eqb_spec x i); subst; cbn; intros E; simplify_eq; try done. by apply H.
Qed.

(** Any number of swaps. *)
Definition shuffled (h h' : eventHeap) : Prop := length h' = length h /\ strip <$> h' ≡ₚ strip <$> h /\ (indexed h -> indexed h').

Lemma shuffled_refl h : shuffled h h.
Proof. done. Qed.
Lemma shuffled_swap i j h h' : shuffled (Swap i j h) h' -> shuffled h h'.
Proof.
  intros (H1 & H2 & H3). split_and!; [by rewrite H1 Swap_length|by rewrite H2 Swap_strip|]. intros H. by apply H3, Swap_indexed.
Qed.

Lemma up_shuffled fuel : forall j h, shuffled h (up fuel j h).
Proof.
  induction fuel as [|fuel IH]; intros j h; cbn [up]; [apply shuffled_refl|]. destruct (_ || _); [apply shuffled_refl|].
  eapply shuffled_swap, IH.
Qed.

Lemma down_shuffled fuel : forall i n h, shuffled h (down fuel i n h).
Proof.
  induction fuel as [|fuel IH]; intros i n h; cbn [down]; [apply shuffled_refl|]. destruct (_ <=? _)%nat; [apply shuffled_refl|].
  destruct (negb _); [apply shuffled_refl|]. eapply shuffled_swap, IH.
Qed.

(** [down] does not touch the positions from [n] on. *)
Lemma down_beyond fuel : forall i n h x, (i < n)%nat -> (n <= length h)%nat -> (n <= x)%nat -> down fuel i n h !! x = h !! x.
Proof.
  induction fuel as [|fuel IH]; intros i n h x Hi Hn Hx; cbn [down]; [done|]. destruct (Nat.leb_spec n (2 * i + 1)); [done|].
  set (j := if _ && _ then _ else _). assert (Hj : (j < n)%nat) by (unfold j; destruct (Nat.ltb_spec (2 * i + 1 + 1) n); [destruct (Less h _ _)|]; cbn; lia).
  destruct (negb _); [done|]. rewrite IH ?Swap_length //. rewrite Swap_lookup; [|lia..]. eqb_cases; (lia || done).
Qed.

(** ** Push and Pop *)

Lemma keyat_app h x i : (i < length h)%nat -> keyat (heap_append x h) i = keyat h i.
Proof. intros Hi. unfold keyat, heap_append. by rewrite lookup_app_l. Qed.

Lemma heap_Push_ok x h : queue_ok h -> queue_ok (heap_Push x h) /\ strip <$> heap_Push x h ≡ₚ strip x :: (strip <$> h).
Proof.
  intros [Ho Hi]. unfold heap_Push. set (h1 := heap_append x h).
  assert (L : length h1 = S (length h)) by (unfold h1, heap_append; rewrite length_app /=; lia).
  destruct (up_shuffled (length h1) (length h1 - 1) h1) as (E1 & E2 & E3). split; [split|].
  - rewrite E1. apply up_heap; [lia..|]. split.
    + intros c Hc Hcn. pose proof (parent_spec c). rewrite !keyat_app; [|lia..]. apply Ho. lia.
    + intros c Hc Hp. pose proof (parent_spec c). lia.
  - apply E3. intros i e. unfold h1, heap_append, zlen. intros [?|[? E]]%lookup_app_Some; [by apply Hi|].
    destruct (i - length h)%nat eqn:E'; [|done]. cbn in E. simplify_eq. cbn. lia.
  - rewrite E2. unfold h1, heap_append. rewrite fmap_app /= strip_set_index. by rewrite Permutation_app_comm.
Qed.

(** What [heap.Pop] leaves before the last element is cut off. *)
Lemma pop_parts h : queue_ok h -> h <> [] -> let n := (length h - 1)%nat in
  exists a l, h !! 0%nat = Some a /\ down (length h) 0 n (Swap 0 n h) = l ++ [set_index (Z.of_nat n) a] /\ length l = n /\
    heap_order (keyat l) n /\ indexed l /\ strip <$> h ≡ₚ strip a :: (strip <$> l).
Proof.
  intros [Ho Hi] Hne n. destruct (lookup_lt_is_Some_2 h 0) as [a Ha]; [destruct h; [done|cbn; lia]|].
  assert (Hn : (n < length h)%nat) by (apply lookup_lt_Some in Ha; lia).
  destruct (down_shuffled (length h) 0 n (Swap 0 n h)) as (E1 & E2 & E3). rewrite Swap_length in E1.
  assert (Hlast : down (length h) 0 n (Swap 0 n h) !! n = Some (set_index (Z.of_nat n) a)).
  { destruct (decide (n = 0%nat)) as [E|E].
    - replace (length h) with 1%nat by lia. cbn [down]. rewrite E /=. rewrite Swap_lookup; [|lia..]. by rewrite Ha.
    - rewrite down_beyond ?Swap_length; [|lia..]. rewrite Swap_lookup; [|lia..]. by rewrite Nat.eqb_refl Ha. }
  assert (Hord : heap_order (keyat (down (length h) 0 n (Swap 0 n h))) n).
  { apply down_heap; rewrite ?Swap_length; [lia..|]. eapply down_order_ext; [intros x; apply keyat_Swap; lia|]. split; [|lia].
    intros c Hc Hp. pose proof (parent_spec c). swap_cases; try lia. apply Ho. lia. }
  set (h2 := down _ _ _ _) in *. exists a, (take n h2). split; [done|].
  assert (Hsplit : h2 = take n h2 ++ [set_index (Z.of_nat n) a]).
  { rewrite -{1}(take_drop n h2). f_equal. rewrite (drop_S h2 (set_index (Z.of_nat n) a) n) //. rewrite drop_ge; [done|]. rewrite E1. lia. }
  split; [done|]. split; [rewrite length_take E1; lia|]. split_and!.
  - intros c Hc. pose proof (parent_spec c). unfold keyat. rewrite !lookup_take_lt; [|lia..]. by apply Hord.
  - intros i e [He _]%lookup_take_Some. by apply E3; [apply Swap_indexed|].
  - rewrite -(Swap_strip 0 n h) -E2 {1}Hsplit fmap_app /= strip_set_index. by rewrite Permutation_app_comm.
Qed.

(** The event queue of the simulator is well formed after every [Pop], and
    the event taken is a minimum: no event left is earlier, nor of the same
    time and a lower priority number.  Nothing is lost: the events before are
    the event taken and the events left.  A queue that is not empty always
    gives an event. *)
Lemma heap_Pop_ok h : queue_ok h -> h <> [] -> exists e h', heap_Pop h = Some (e, h') /\ queue_ok h' /\
  strip <$> h ≡ₚ strip e :: (strip <$> h') /\ (forall x, x ∈ h' -> kle (event_key e) (event_key x)) /\ ev_index e = -1 /\ length h = S (length h').
Proof.
  intros Hok Hne. destruct (pop_parts h Hok Hne) as (a & l & Ha & E & L & Ho & Hi & Hp). unfold heap_Pop, heap_truncate. rewrite E last_snoc.
  assert (Hlen : length h = S (length l)) by (apply lookup_lt_Some in Ha; lia).
  assert (Htake : take (length (l ++ [set_index (Z.of_nat (length h - 1)) a]) - 1) (l ++ [set_index (Z.of_nat (length h - 1)) a]) = l).
  { rewrite length_app /= take_app_le; [|lia]. apply take_ge. lia. }
  eexists _, _. split; [done|]. rewrite Htake. split; [split; [by rewrite L|done]|]. split; [done|]. split; [|by split; [|lia]].
  intros x Hx. assert (Hin : strip x ∈ strip <$> h) by (rewrite Hp; apply elem_of_cons; right; by apply list_elem_of_fmap_2).
  apply list_elem_of_fmap in Hin as (y & Ey & [j Hj]%list_elem_of_lookup). pose proof (heap_root_min _ _ j (proj1 Hok) (lookup_lt_Some _ _ _ Hj)) as K.
  unfold keyat in K. rewrite Ha Hj in K. cbn in K. injection Ey as EA _ _ EP. unfold event_key in *. cbn. by rewrite EA EP.
Qed.

End heap.
