(* ===== verification/Simulator.v ===== *)
(** * Simulator: the deterministic simulator (pkg/chaos/simulator.go)

    Actions and message handlers are closures over the simulator in the
    source.  Here an action is a value of a type [U], and [perform] gives what
    its code does: a change of the state of the test ([W]) and calls of the
    simulator's interface, in order.  A handler is the action it takes for a
    message.  [rng] is an oracle of the seed and the number of draws. *)

From S2P Require Import Prelude Bytes Float64 EventHeap.

(** math/rand with a seeded source: the n-th draw of a seed. *)
Class SeededRand := {
  rand_Float64 : Z -> nat -> float64;
  rand_Int63n : Z -> nat -> Z -> Z;
  rand_Int63n_range : forall seed k n, 0 < n -> 0 <= rand_Int63n seed k n < n;
}.

Section simulator.
  Context `{SR : SeededRand} {C W U : Type}.

Record SimulatedMessage := mkSimulatedMessage {
  smsg_From : string;
  smsg_To : string;
  smsg_Content : C;
  smsg_Delay : Z;
}.

(** The closure that [Send] schedules, and the actions of a test. *)
Inductive action := ADeliver (msg : SimulatedMessage) | AUser (u : U).

Record SimulatedNetwork := mkSimulatedNetwork {
  sn_partitions : gmap string (gset string);
  sn_dropRate : float64;
  sn_minDelay : Z;
  sn_maxDelay : Z;
  sn_handlers : gmap string (SimulatedMessage -> U);
}.

Record DeterministicSimulator := mkSimulator {
  ds_seed : Z;
  ds_draws : nat;
  ds_currentTime : Z;
  ds_events : list (@SimEvent action);
  ds_network : SimulatedNetwork;
  ds_crashed : gset string;
  ds_eventsProcessed : Z;
  ds_maxTime : Z;
  ds_world : W;
}.

Definition NewDeterministicSimulator (seed : Z) (w : W) : DeterministicSimulator :=
  mkSimulator seed 0 0 [] (mkSimulatedNetwork ∅ fzero 0 0 ∅) ∅ 0 0 w.

Definition with_events (es : list (@SimEvent action)) (s : DeterministicSimulator) : DeterministicSimulator :=
  mkSimulator (ds_seed s) (ds_draws s) (ds_currentTime s) es (ds_network s) (ds_crashed s) (ds_eventsProcessed s) (ds_maxTime s) (ds_world s).
Definition with_network (n : SimulatedNetwork) (s : DeterministicSimulator) : DeterministicSimulator :=
  mkSimulator (ds_seed s) (ds_draws s) (ds_currentTime s) (ds_events s) n (ds_crashed s) (ds_eventsProcessed s) (ds_maxTime s) (ds_world s).
Definition with_crashed (c : gset string) (s : DeterministicSimulator) : DeterministicSimulator :=
  mkSimulator (ds_seed s) (ds_draws s) (ds_currentTime s) (ds_events s) (ds_network s) c (ds_eventsProcessed s) (ds_maxTime s) (ds_world s).
Definition with_world (w : W) (s : DeterministicSimulator) : DeterministicSimulator :=
  mkSimulator (ds_seed s) (ds_draws s) (ds_currentTime s) (ds_events s) (ds_network s) (ds_crashed s) (ds_eventsProcessed s) (ds_maxTime s) w.

(** One draw of [rng]. *)
Definition drawn (s : DeterministicSimulator) : DeterministicSimulator :=
  mkSimulator (ds_seed s) (S (ds_draws s)) (ds_currentTime s) (ds_events s) (ds_network s) (ds_crashed s) (ds_eventsProcessed s) (ds_maxTime s) (ds_world s).

Definition Schedule (at_ : Z) (description : string) (a : action) (s : DeterministicSimulator) : DeterministicSimulator :=
  with_events (heap_Push (mkSimEvent at_ a description 0 0) (ds_events s)) s.

Definition After (delay : Z) (description : string) (a : action) (s : DeterministicSimulator) : DeterministicSimulator :=
  Schedule (i64 (ds_currentTime s + delay)) description a s.

(** ** The network *)

Definition RegisterNode (nodeID : string) (handler : SimulatedMessage -> U) (s : DeterministicSimulator) : DeterministicSimulator :=
  let n := ds_network s in
  with_network (mkSimulatedNetwork (sn_partitions n) (sn_dropRate n) (sn_minDelay n) (sn_maxDelay n) (<[nodeID := handler]> (sn_handlers n))) s.

Definition sim_IsPartitioned (from to : string) (n : SimulatedNetwork) : bool :=
  bool_decide (to ∈ default ∅ (sn_partitions n !! from)).

Definition sim_Partition (from to : string) (s : DeterministicSimulator) : DeterministicSimulator :=
  let n := ds_network s in
  with_network (mkSimulatedNetwork (<[from := {[to]} ∪ default ∅ (sn_partitions n !! from)]> (sn_partitions n))
    (sn_dropRate n) (sn_minDelay n) (sn_maxDelay n) (sn_handlers n)) s.

Definition sim_Heal (from to : string) (s : DeterministicSimulator) : DeterministicSimulator :=
  let n := ds_network s in
  match sn_partitions n !! from with
  | None => s
  | Some ps => with_network (mkSimulatedNetwork (<[from := ps ∖ {[to]}]> (sn_partitions n))
      (sn_dropRate n) (sn_minDelay n) (sn_maxDelay n) (sn_handlers n)) s
  end.

(** [None]: [Int63n] of a difference that overflowed panics. *)
Definition sim_Send (from to : string) (content : C) (s : DeterministicSimulator) : option DeterministicSimulator :=
  let n := ds_network s in
  if sim_IsPartitioned from to n then Some s else
  let '(dropped, s) :=
    if fltb fzero (sn_dropRate n) then (fltb (rand_Float64 (ds_seed s) (ds_draws s)) (sn_dropRate n), drawn s) else (false, s) in
  if dropped then Some s else
  let range := i64 (sn_maxDelay n - sn_minDelay n) in
  let deliver delay s := Some (Schedule (i64 (ds_currentTime s + delay))
    ("deliver " +:+ from +:+ string_of_bytes [byte_of_Z 226; byte_of_Z 134; byte_of_Z 146] +:+ to) (ADeliver (mkSimulatedMessage from to content 0)) s) in
  if sn_minDelay n <? sn_maxDelay n then
    if range <=? 0 then None
    else deliver (i64 (sn_minDelay n + rand_Int63n (ds_seed s) (ds_draws s) range)) (drawn s)
  else deliver (sn_minDelay n) s.

(** ** Running *)

(** Calls that the code of a test makes. *)
Inductive call :=
  | CallSchedule (at_ : Z) (description : string) (u : U)
  | CallAfter (delay : Z) (description : string) (u : U)
  | CallSend (from to : string) (content : C)
  | CallPartition (from to : string)
  | CallHeal (from to : string)
  | CallRegister (nodeID : string) (handler : SimulatedMessage -> U)
  | CallCrash (nodeID : string)
  | CallRestart (nodeID : string).

Definition do_call (c : call) (s : DeterministicSimulator) : option DeterministicSimulator :=
  match c with
  | CallSchedule t d u => Some (Schedule t d (AUser u) s)
  | CallAfter t d u => Some (After t d (AUser u) s)
  | CallSend from to content => sim_Send from to content s
  | CallPartition from to => Some (sim_Partition from to s)
  | CallHeal from to => Some (sim_Heal from to s)
  | CallRegister n h => Some (RegisterNode n h s)
  | CallCrash n => Some (with_crashed ({[n]} ∪ ds_crashed s) s)
  | CallRestart n => Some (with_crashed (ds_crashed s ∖ {[n]}) s)
  end.

Fixpoint do_calls (cs : list call) (s : DeterministicSimulator) : option DeterministicSimulator :=
  match cs with
  | [] => Some s
  | c :: cs => match do_call c s with Some s => do_calls cs s | None => None end
  end.

  Context (perform : U -> Z -> W -> W * list call).

Definition do_user (u : U) (s : DeterministicSimulator) : option DeterministicSimulator :=
  let '(w, cs) := perform u (ds_currentTime s) (ds_world s) in do_calls cs (with_world w s).

(** [event.Action()]. *)
Definition do_action (a : action) (s : DeterministicSimulator) : option DeterministicSimulator :=
  match a with
  | AUser u => do_user u s
  | ADeliver msg =>
      if bool_decide (smsg_To msg ∈ ds_crashed s) then Some s
      else match sn_handlers (ds_network s) !! smsg_To msg with Some h => do_user (h msg) s | None => Some s end
  end.

(** The loop of [Run], with the events it executed.  [None]: out of fuel, or
    the code of an action panicked. *)
Fixpoint run_loop (fuel : nat) (s : DeterministicSimulator) : option (DeterministicSimulator * list (@SimEvent action)) :=
  match fuel with
  | O => None
  | S fuel =>
      match heap_Pop (ds_events s) with
      | None => Some (s, [])
      | Some (event, es) =>
          let s := with_events es s in
          if ds_maxTime s <? ev_At event then Some (s, []) else
          let s := mkSimulator (ds_seed s) (ds_draws s) (ev_At event) (ds_events s) (ds_network s) (ds_crashed s)
                     (i64 (ds_eventsProcessed s + 1)) (ds_maxTime s) (ds_world s) in
          match do_action (ev_Action event) s with
          | None => None
          | Some s => match run_loop fuel s with Some (s, tr) => Some (s, event :: tr) | None => None end
          end
      end
  end.

Definition sim_Run (fuel : nat) (maxTime : Z) (s : DeterministicSimulator) : option (DeterministicSimulator * list (@SimEvent action)) :=
  run_loop fuel (mkSimulator (ds_seed s) (ds_draws s) (ds_currentTime s) (ds_events s) (ds_network s) (ds_crashed s)
    (ds_eventsProcessed s) maxTime (ds_world s)).

(** ** Scenarios *)

Record TestScenario := mkTestScenario {
  ts_Name : string;
  ts_Description : string;
  ts_Seed : Z;
  ts_Duration : Z;
  ts_Setup : W * list call;
  ts_Verify : DeterministicSimulator -> list string;
}.

Record TestResult := mkTestResult {
  tr_Scenario : string;
  tr_Passed : bool;
  tr_Duration : Z;
  tr_Violations : list string;
  tr_Events : Z;
}.

Record ScenarioRunner := mkScenarioRunner {
  sr_scenarios : list TestScenario;
  sr_results : list TestResult;
}.

Definition NewScenarioRunner : ScenarioRunner := mkScenarioRunner [] [].

Definition Add (scenario : TestScenario) (r : ScenarioRunner) : ScenarioRunner := mkScenarioRunner (sr_scenarios r ++ [scenario]) (sr_results r).

Definition runScenario (fuel : nat) (elapsed : Z) (scenario : TestScenario) : option TestResult :=
  match do_calls (ts_Setup scenario).2 (NewDeterministicSimulator (ts_Seed scenario) (ts_Setup scenario).1) with
  | None => None
  | Some sim =>
      match sim_Run fuel (ts_Duration scenario) sim with
      | None => None
      | Some (sim, _) =>
          let violations := ts_Verify scenario sim in
          Some (mkTestResult (ts_Name scenario) (zlen violations =? 0) elapsed violations (ds_eventsProcessed sim))
      end
  end.

Fixpoint run_scenarios (fuel : nat) (elapsed : Z) (scenarios : list TestScenario) (results : list TestResult) : option (list TestResult) :=
  match scenarios with
  | [] => Some results
  | scenario :: rest =>
      match runScenario fuel elapsed scenario with
      | None => None
      | Some result => run_scenarios fuel elapsed rest (results ++ [result])
      end
  end.

Definition RunAll (fuel : nat) (elapsed : Z) (r : ScenarioRunner) : option (list TestResult * ScenarioRunner) :=
  match run_scenarios fuel elapsed (sr_scenarios r) (sr_results r) with
  | None => None
  | Some results => Some (results, mkScenarioRunner (sr_scenarios r) results)
  end.

(** The counts that [Summary] prints. *)
Fixpoint summary_counts (results : list TestResult) (passed failed : Z) : Z * Z :=
  match results with
  | [] => (passed, failed)
  | result :: rest => if tr_Passed result then summary_counts rest (i64 (passed + 1)) failed else summary_counts rest passed (i64 (failed + 1))
  end.

(** ** The queue *)

(** What a step of the simulator adds to the queue of [s]. *)
Definition adds (P : @SimEvent action -> Prop) (s s' : DeterministicSimulator) : Prop :=
  ds_currentTime s' = ds_currentTime s /\ ds_maxTime s' = ds_maxTime s /\ ds_eventsProcessed s' = ds_eventsProcessed s /\
  sn_minDelay (ds_network s') = sn_minDelay (ds_network s) /\ sn_maxDelay (ds_network s') = sn_maxDelay (ds_network s) /\
  (queue_ok (ds_events s) -> queue_ok (ds_events s') /\
     exists new, strip <$> ds_events s' ≡ₚ (strip <$> new) ++ (strip <$> ds_events s) /\ Forall P new).

Lemma adds_refl P s : adds P s s.
Proof. do 5 (split; [done|]). intros ?. split; [done|]. by exists []. Qed.

Lemma adds_trans P s1 s2 s3 : adds P s1 s2 -> adds P s2 s3 -> adds P s1 s3.
Proof.
  intros (E1 & E2 & E3 & E4 & E5 & H) (F1 & F2 & F3 & F4 & F5 & K). split_and!; try congruence. intros Hq. destruct (H Hq) as (Hq2 & n1 & P1 & A1).
  destruct (K Hq2) as (Hq3 & n2 & P2 & A2). split; [done|]. exists (n2 ++ n1). split; [|by apply Forall_app]. by rewrite P2 P1 fmap_app -app_assoc.
Qed.

Lemma Schedule_adds (P : @SimEvent action -> Prop) t d a s : P (mkSimEvent t a d 0 0) -> adds P s (Schedule t d a s).
Proof.
  intros HP. do 5 (split; [done|]). intros Hq. cbn. destruct (heap_Push_ok (mkSimEvent t a d 0 0) _ Hq) as [? ?]. split; [done|].
  exists [mkSimEvent t a d 0 0]. split; [done|by constructor].
Qed.

(** [s] and [s'] differ in the network, the crashed nodes, the draws and the
    state of the test only. *)
Lemma adds_same P s s' : ds_currentTime s' = ds_currentTime s -> ds_maxTime s' = ds_maxTime s -> ds_eventsProcessed s' = ds_eventsProcessed s ->
  sn_minDelay (ds_network s') = sn_minDelay (ds_network s) -> sn_maxDelay (ds_network s') = sn_maxDelay (ds_network s) ->
  ds_events s' = ds_events s -> adds P s s'.
Proof. intros ????? E. do 5 (split; [done|]). rewrite E. intros ?. split; [done|]. by exists []. Qed.

(** A difference that is positive after wrapping did not wrap. *)
Lemma i64_positive x : 0 < x < two64 -> 0 < i64 x -> i64 x = x.
Proof.
  intros Hx Hi. destruct (Z.lt_ge_cases x two63); [apply i64_small; lia|]. unfold i64 in *.
  replace ((x + two63) mod two64) with (x - two63) in *; [lia|]. apply (Z.mod_unique_pos _ _ 1); lia.
Qed.

(** The delay that [Send] draws. *)
Definition sent_at (s : DeterministicSimulator) (t : Z) : Prop :=
  exists d, t = i64 (ds_currentTime s + d) /\ sn_minDelay (ds_network s) <= d /\
    (d = sn_minDelay (ds_network s) \/ d < sn_maxDelay (ds_network s)).

Lemma sim_Send_adds from to content s s' : is_i64 (sn_minDelay (ds_network s)) -> is_i64 (sn_maxDelay (ds_network s)) ->
  sim_Send from to content s = Some s' -> adds (fun e => sent_at s (ev_At e)) s s'.
Proof.
  intros Hmin Hmax. unfold sim_Send. destruct (sim_IsPartitioned _ _ _); [intros [= <-]; apply adds_refl|].
  set (ds := if fltb fzero _ then _ else _). destruct ds as [dropped s1] eqn:E1.
  assert (A1 : forall P, adds P s s1) by (intros P; unfold ds in E1; destruct (fltb fzero _); simplify_eq; by apply adds_same).
  destruct dropped; [intros [= <-]; apply A1|].
  assert (T1 : ds_currentTime s1 = ds_currentTime s) by apply (A1 (fun _ => True)).
  destruct (Z.ltb_spec (sn_minDelay (ds_network s)) (sn_maxDelay (ds_network s))) as [Hlt|Hge].
  - destruct (Z.leb_spec (i64 (sn_maxDelay (ds_network s) - sn_minDelay (ds_network s))) 0) as [|Hr]; [done|]. intros [= <-].
    set (range := i64 _) in *. assert (Erange : range = sn_maxDelay (ds_network s) - sn_minDelay (ds_network s)).
    { unfold is_i64 in *. apply i64_positive; [lia|done]. }
    pose proof (rand_Int63n_range (ds_seed s1) (ds_draws s1) range Hr) as Hd. set (d := rand_Int63n _ _ _) in *.
    eapply adds_trans; [apply (A1 _)|]. eapply (adds_trans _ _ (drawn s1)); [by apply adds_same|]. apply Schedule_adds. cbn.
    exists (sn_minDelay (ds_network s) + d). rewrite T1. split; [|lia]. f_equal. unfold is_i64 in *. rewrite (i64_small (_ + d)); lia.
  - intros [= <-]. eapply adds_trans; [apply (A1 _)|]. apply Schedule_adds. cbn. exists (sn_minDelay (ds_network s)). rewrite T1. split; [done|lia].
Qed.

Lemma sim_Send_any from to content s s' : sim_Send from to content s = Some s' -> adds (fun _ => True) s s'.
Proof.
  unfold sim_Send. destruct (sim_IsPartitioned _ _ _); [intros [= <-]; apply adds_refl|].
  set (ds := if fltb fzero _ then _ else _). destruct ds as [dropped s1] eqn:E1.
  assert (A1 : forall P, adds P s s1) by (intros P; unfold ds in E1; destruct (fltb fzero _); simplify_eq; by apply adds_same).
  destruct dropped; [intros [= <-]; apply A1|].
  destruct (_ <? _); [destruct (_ <=? _); [done|]|]; intros [= <-]; (eapply adds_trans; [apply A1|]).
  - eapply (adds_trans _ _ (drawn s1)); [by apply adds_same|by apply Schedule_adds].
  - by apply Schedule_adds.
Qed.

(** A call that schedules nothing in the past of the clock. *)
Definition call_future (now : Z) (c : call) : Prop :=
  match c with
  | CallSchedule t _ _ => now <= t
  | CallAfter d _ _ => 0 <= d /\ now + d < two63
  | _ => True
  end.

(** Times that [Run] reaches and delays do not overflow. *)
Definition delays_ok (s : DeterministicSimulator) : Prop :=
  0 <= sn_minDelay (ds_network s) < two63 /\ 0 <= sn_maxDelay (ds_network s) < two63 /\ - two63 <= ds_currentTime s /\
  ds_currentTime s + sn_minDelay (ds_network s) < two63 /\ ds_currentTime s + sn_maxDelay (ds_network s) < two63.

Lemma do_call_any c s s' : do_call c s = Some s' -> adds (fun _ => True) s s'.
Proof.
  destruct c; cbn; try (intros [= <-]); try by apply adds_same.
  - by apply Schedule_adds.
  - by apply Schedule_adds.
  - apply sim_Send_any.
  - unfold sim_Heal. destruct (sn_partitions _ !! _); by apply adds_same.
Qed.

Lemma do_call_future c s s' : delays_ok s -> call_future (ds_currentTime s) c -> do_call c s = Some s' -> adds (fun e => ds_currentTime s <= ev_At e) s s'.
Proof.
  intros (Hmin & Hmax & Hlo & Hov1 & Hov2) Hf. destruct c; cbn; cbn in Hf; try (intros [= <-]); try by apply adds_same.
  - by apply Schedule_adds.
  - apply Schedule_adds. cbn. rewrite i64_small; lia.
  - intros H. apply sim_Send_adds in H as (E1 & E2 & E3 & E4 & E5 & K); [|unfold is_i64; lia..].
    do 5 (split; [done|]). intros Hq. destruct (K Hq) as (Hq' & new & Hp & Hn). split; [done|]. exists new. split; [done|].
    eapply Forall_impl; [exact Hn|]. cbn. intros e (d & Ed & Hd1 & Hd2). rewrite i64_small in Ed; lia.
  - unfold sim_Heal. destruct (sn_partitions _ !! _); by apply adds_same.
Qed.

Lemma do_calls_any cs : forall s s', do_calls cs s = Some s' -> adds (fun _ => True) s s'.
Proof.
  induction cs as [|c cs IH]; intros s s'; cbn; [intros [= <-]; apply adds_refl|]. destruct (do_call c s) as [s1|] eqn:E; [|done].
  intros H. eapply adds_trans; [by eapply do_call_any|by apply IH].
Qed.

Lemma do_calls_future cs : forall s s', delays_ok s -> Forall (call_future (ds_currentTime s)) cs -> do_calls cs s = Some s' ->
  adds (fun e => ds_currentTime s <= ev_At e) s s'.
Proof.
  induction cs as [|c cs IH]; intros s s' Hd Hf; cbn; [intros [= <-]; apply adds_refl|]. destruct (do_call c s) as [s1|] eqn:E; [|done].
  apply Forall_cons in Hf as [Hc Hf]. pose proof (do_call_future _ _ _ Hd Hc E) as A. pose proof A as (E1 & E2 & E3 & E4 & E5 & _).
  intros H. eapply adds_trans; [exact A|]. rewrite -E1. apply IH; [|by rewrite E1|done]. unfold delays_ok in *. by rewrite E1 E4 E5.
Qed.

Lemma do_action_any a s s' : do_action a s = Some s' -> adds (fun _ => True) s s'.
Proof.
  assert (K : forall u, do_user u s = Some s' -> adds (fun _ => True) s s').
  { intros u. unfold do_user. destruct (perform _ _ _) as [w cs]. intros H%do_calls_any. eapply adds_trans; [|exact H]. by apply adds_same. }
  destruct a as [msg|u]; cbn; [|apply K]. case_bool_decide; [intros [= <-]; apply adds_refl|].
  destruct (_ !! _); [apply K|intros [= <-]; apply adds_refl].
Qed.

Lemma do_action_future a s s' : delays_ok s -> (forall u, Forall (call_future (ds_currentTime s)) (perform u (ds_currentTime s) (ds_world s)).2) ->
  do_action a s = Some s' -> adds (fun e => ds_currentTime s <= ev_At e) s s'.
Proof.
  intros Hd Hf. assert (K : forall u, do_user u s = Some s' -> adds (fun e => ds_currentTime s <= ev_At e) s s').
  { intros u. specialize (Hf u). unfold do_user. destruct (perform _ _ _) as [w cs]. intros H.
    apply (do_calls_future cs (with_world w s)) in H; [|done..]. eapply adds_trans; [|exact H]. by apply adds_same. }
  destruct a as [msg|u]; cbn; [|apply K]. case_bool_decide; [intros [= <-]; apply adds_refl|].
  destruct (_ !! _); [apply K|intros [= <-]; apply adds_refl].
Qed.

(** ** Theorems *)

(** The simulator as [Run] leaves it when it takes the event [e]. *)
Definition fired (e : @SimEvent action) (es : list (@SimEvent action)) (s : DeterministicSimulator) : DeterministicSimulator :=
  mkSimulator (ds_seed s) (ds_draws s) (ev_At e) es (ds_network s) (ds_crashed s) (i64 (ds_eventsProcessed s + 1)) (ds_maxTime s) (ds_world s).

(** One turn of the loop of [Run] on a well-formed queue. *)
Lemma run_loop_step fuel s r : queue_ok (ds_events s) -> run_loop (S fuel) s = Some r ->
  ds_events s = [] /\ r = (s, []) \/
  exists e es, heap_Pop (ds_events s) = Some (e, es) /\ queue_ok es /\ strip <$> ds_events s ≡ₚ strip e :: (strip <$> es) /\
    (forall x, x ∈ es -> kle (event_key e) (event_key x)) /\ ev_index e = -1 /\
    (ds_maxTime s < ev_At e /\ r = (with_events es s, []) \/
     ev_At e <= ds_maxTime s /\ exists s1 s2 tr, do_action (ev_Action e) (fired e es s) = Some s1 /\ run_loop fuel s1 = Some (s2, tr) /\ r = (s2, e :: tr)).
Proof.
  intros Hq. destruct (decide (ds_events s = [])) as [E|E]; [cbn; rewrite E; intros [= <-]; by left|].
  destruct (heap_Pop_ok _ Hq E) as (e & es & Hp & Hq' & Hperm & Hmin & Hidx & _). cbn [run_loop]. rewrite Hp. intros H. right. exists e, es.
  do 5 (split; [done|]). cbn in H. destruct (Z.ltb_spec (ds_maxTime s) (ev_At e)) as [Hlt|Hge]; [left; by simplify_eq|right]. split; [done|].
  fold (fired e es s) in H. destruct (do_action _ _) as [s1|]; [|done]. destruct (run_loop fuel s1) as [[s2 tr]|] eqn:E2; [|done]. simplify_eq. by exists s1, s2, tr.
Qed.

Lemma run_loop_queue fuel : forall s s' tr, queue_ok (ds_events s) -> run_loop fuel s = Some (s', tr) ->
  queue_ok (ds_events s') /\ Forall (fun e => ev_index e = -1 /\ ev_At e <= ds_maxTime s) tr.
Proof.
  induction fuel as [|fuel IH]; intros s s' tr Hq H; [done|].
  apply run_loop_step in H; [|done]. destruct H as [[_ ?]|(e & es & _ & Hq' & _ & _ & Hidx & [[_ ?]|(Hle & s1 & s2 & tr' & Ha & Hr & ?)])]; simplify_eq; [by split..|].
  apply do_action_any in Ha as (_ & E2 & _ & _ & _ & K). destruct (K Hq') as [Hq1 _]. destruct (IH _ _ _ Hq1 Hr) as [Hq2 Htr].
  split; [done|]. constructor; [done|]. by rewrite E2 in Htr.
Qed.


(** Events of a queue by their keys, positions aside. *)
Lemma strip_forall (P : Z -> Prop) (l l' : list (@SimEvent action)) : strip <$> l' ≡ₚ strip <$> l ->
  (forall e, e ∈ l -> P (ev_At e)) -> forall e, e ∈ l' -> P (ev_At e).
Proof.
  intros Hp H e He. assert (Hin : strip e ∈ strip <$> l) by (rewrite -Hp; by apply list_elem_of_fmap_2).
  apply list_elem_of_fmap in Hin as (x & Ex & Hx). injection Ex as -> _ _ _. by apply H.
Qed.

(** Time does not run backwards in a simulation whose code schedules
    nothing in the past: the events are executed in the order of their times,
    none before the clock and none past the limit, and the clock ends at the
    last of them. *)
Theorem run_in_order fuel s s' tr :
  queue_ok (ds_events s) -> (forall e, e ∈ ds_events s -> ds_currentTime s <= ev_At e) ->
  0 <= sn_minDelay (ds_network s) < two63 -> 0 <= sn_maxDelay (ds_network s) < two63 -> - two63 <= ds_currentTime s ->
  ds_maxTime s + Z.max (sn_minDelay (ds_network s)) (sn_maxDelay (ds_network s)) < two63 ->
  (forall u now w, now <= ds_maxTime s -> Forall (call_future now) (perform u now w).2) ->
  run_loop fuel s = Some (s', tr) ->
  StronglySorted Z.le (ds_currentTime s :: (ev_At <$> tr)) /\ Forall (fun e => ev_At e <= ds_maxTime s) tr /\
  ds_currentTime s' = default (ds_currentTime s) (last (ev_At <$> tr)).
Proof.
  revert s s' tr. induction fuel as [|fuel IH]; intros s s' tr Hq Hev Hmin Hmax Hlo Hov Hf H; [done|].
  apply run_loop_step in H; [|done]. destruct H as [[_ ?]|(e & es & _ & Hq' & Hperm & Hord & _ & [[_ ?]|(Hle & s1 & s2 & tr' & Ha & Hr & ?)])]; simplify_eq;
    [by repeat constructor..|].
  assert (Hse : ds_currentTime s <= ev_At e).
  { apply (strip_forall (fun t => ds_currentTime s <= t) (ds_events s) (e :: es)); [by rewrite Hperm|done|by left]. }
  apply do_action_future in Ha as (E1 & E2 & _ & E4 & E5 & K); [|unfold delays_ok; cbn; lia|intros u; by apply Hf]. cbn in E1, E2, E4, E5, K.
  destruct (K Hq') as (Hq1 & new & Hnew & Hfut).
  destruct (IH s1 s2 tr') as (S1 & S2 & S3); rewrite ?E1 ?E2 ?E4 ?E5; try done; try lia.
  { apply (strip_forall (fun t => ev_At e <= t) (new ++ es)); [by rewrite fmap_app|]. intros x [Hx|Hx]%elem_of_app.
    - rewrite Forall_forall in Hfut. by apply Hfut.
    - specialize (Hord x Hx). unfold kle, event_key in Hord. cbn in Hord. lia. }
  rewrite E1 in S1. rewrite E2 in S2. rewrite E1 in S3. split; [|split; [by constructor|]].
  - constructor; [done|]. cbn. constructor; [done|]. apply StronglySorted_inv in S1 as [_ S1]. eapply Forall_impl; [exact S1|]. cbn. lia.
  - rewrite S3 fmap_cons last_cons. by destruct (last (ev_At <$> tr')).
Qed.

(** An action that makes no call leaves the queue alone. *)
Lemma do_action_passive a s : (forall u now w, (perform u now w).2 = []) -> exists s', do_action a s = Some s' /\ ds_events s' = ds_events s /\ ds_maxTime s' = ds_maxTime s.
Proof.
  intros Hp. assert (K : forall u, exists s', do_user u s = Some s' /\ ds_events s' = ds_events s /\ ds_maxTime s' = ds_maxTime s).
  { intros u. specialize (Hp u (ds_currentTime s) (ds_world s)). unfold do_user. destruct (perform _ _ _) as [w cs]. cbn in Hp. subst. by eexists. }
  destruct a as [msg|u]; cbn; [|apply K]. case_bool_decide; [by exists s|]. destruct (_ !! _); [apply K|by exists s].
Qed.

(** The events of [l] up to the time [t], and those after it. *)
Definition due (t : Z) (l : list (@SimEvent action)) : list (@SimEvent action) := filter (fun e => ev_At e <= t) (strip <$> l).
Definition overdue (t : Z) (l : list (@SimEvent action)) : list (@SimEvent action) := filter (fun e => t < ev_At e) (strip <$> l).

Lemma filter_no {A} (P : A -> Prop) `{forall x, Decision (P x)} l : Forall (fun x => ~ P x) l -> filter P l = [].
Proof. induction 1; [done|]. by rewrite filter_cons_False. Qed.

Lemma first_late t e (l es : list (@SimEvent action)) : strip <$> l ≡ₚ strip e :: (strip <$> es) -> t < ev_At e ->
  (forall x, x ∈ strip <$> es -> kle (event_key e) (event_key x)) -> due t l = [] /\ overdue t l ≡ₚ strip e :: (strip <$> es).
Proof.
  intros Hp Ht Hs. assert (Hall : Forall (fun x => t < ev_At x) (strip e :: (strip <$> es))).
  { constructor; [done|]. apply Forall_forall. intros x Hx. specialize (Hs x Hx). unfold kle, event_key in Hs. cbn in Hs. lia. }
  split; [apply Permutation_nil_r|]; unfold due, overdue; rewrite Hp.
  - rewrite filter_no; [done|]. eapply Forall_impl; [exact Hall|]. cbn. lia.
  - by rewrite filter_all.
Qed.

Lemma first_due t e (l es : list (@SimEvent action)) : strip <$> l ≡ₚ strip e :: (strip <$> es) -> ev_At e <= t ->
  due t l ≡ₚ strip e :: due t es /\ overdue t l ≡ₚ overdue t es.
Proof.
  intros Hp Ht. unfold due, overdue. rewrite Hp. rewrite !filter_cons. rewrite decide_True; [|done]. by rewrite decide_False; [|cbn; lia].
Qed.

(** C26: [Run] of a test whose actions make no calls ends, after as many turns
    as there are events, and has executed every event that is due, in the
    order of time and priority.  Of the events past the limit it has taken the
    first out of the queue without executing it, so that a later [Run] does
    not execute it either. *)
Theorem run_executes_due fuel s :
  (forall u now w, (perform u now w).2 = []) -> queue_ok (ds_events s) -> (length (ds_events s) < fuel)%nat ->
  exists s' tr, run_loop fuel s = Some (s', tr) /\ strip <$> tr ≡ₚ due (ds_maxTime s) (ds_events s) /\
    StronglySorted (fun a b => kle (event_key a) (event_key b)) tr /\
    (overdue (ds_maxTime s) (ds_events s) = [] /\ ds_events s' = [] \/
     exists lost, overdue (ds_maxTime s) (ds_events s) ≡ₚ strip lost :: (strip <$> ds_events s') /\
       forall x, x ∈ ds_events s' -> kle (event_key lost) (event_key x)).
Proof.
  intros Hpass. revert s. induction fuel as [|fuel IH]; intros s Hq Hlen; [lia|].
  destruct (decide (ds_events s = [])) as [E|E].
  { unfold due, overdue. rewrite E. exists s, []. split; [cbn; by rewrite E|]. split; [done|]. split; [constructor|by left]. }
  destruct (heap_Pop_ok _ Hq E) as (e & es & Hp & Hq' & Hperm & Hmin & Hidx & Hl).
  assert (Hsort : forall x, x ∈ strip <$> es -> kle (event_key e) (event_key x)).
  { intros x (y & -> & Hy)%list_elem_of_fmap. exact (Hmin y Hy). }
  destruct (Z.ltb_spec (ds_maxTime s) (ev_At e)) as [Hlt|Hge].
  - destruct (first_late _ _ _ _ Hperm Hlt Hsort) as [Hd Ho]. exists (with_events es s), []. split; [cbn; rewrite Hp; cbn; rewrite (proj2 (Z.ltb_lt _ _) Hlt); done|]. rewrite Hd. split; [done|]. split; [constructor|].
    right. by exists e.
  - destruct (first_due _ _ _ _ Hperm Hge) as [Hd Ho].
    destruct (do_action_passive (ev_Action e) (fired e es s) Hpass) as (s1 & Ea & E1 & E2). cbn in E1, E2.
    destruct (IH s1) as (s' & tr & Er & Htr & Hst & Hlost); [by rewrite E1|rewrite E1; lia|]. rewrite E1 E2 in Htr, Hlost.
    exists s', (e :: tr). split; [cbn; rewrite Hp; cbn; rewrite (proj2 (Z.ltb_ge _ _) Hge); fold (fired e es s); by rewrite Ea Er|]. split; [by rewrite Hd fmap_cons Htr|]. split.
    + constructor; [done|]. apply Forall_forall. intros x Hx. assert (Hin : strip x ∈ strip <$> tr) by by apply list_elem_of_fmap_2.
      rewrite Htr in Hin. apply list_elem_of_filter in Hin as [_ Hin]. exact (Hsort _ Hin).
    + destruct Hlost as [[Hnil ?]|(lost & Hl' & ?)]; [left|right; exists lost; by rewrite Ho].
      split; [|done]. apply Permutation_nil_r. by rewrite Ho Hnil.
Qed.

End simulator.

(** ** The ping-pong test of pkg/chaos/demo.go

    A source whose draws are all zero. *)

Definition zero_draws : SeededRand.
Proof. refine {| rand_Float64 _ _ := fzero; rand_Int63n _ _ _ := 0 |}. lia. Defined.

Inductive pingpong := Received (node : string) (content : Z) | Reply (from to : string) (content : Z).

Definition Millisecond : Z := 1000000.

(** The messages that were received, in order. *)
Definition pingpong_perform (u : pingpong) (now : Z) (log : list (string * Z * Z)) : list (string * Z * Z) * list (@call Z pingpong) :=
  match u with
  | Received node content =>
      (log ++ [(node, content, now)],
       if content <? 3 then
         if node =?s "alice" then [CallAfter (50 * Millisecond) "alice->bob ping" (Reply "alice" "bob" (content + 1))]
         else [CallAfter (30 * Millisecond) "bob->alice pong" (Reply "bob" "alice" (content + 1))]
       else [])
  | Reply from to content => (log, [CallSend from to content])
  end.

Definition pingpong_setup : list (@call Z pingpong) :=
  [CallRegister "alice" (fun msg => Received "alice" (smsg_Content msg)); CallRegister "bob" (fun msg => Received "bob" (smsg_Content msg));
   CallSchedule 0 "initial ping" (Reply "alice" "bob" 0)].

Notation pingpong_sim := (@DeterministicSimulator Z (list (string * Z * Z)) pingpong).

Definition pingpong_ready : option pingpong_sim := do_calls (SR := zero_draws) pingpong_setup (NewDeterministicSimulator 42 []).

Definition pingpong_start : pingpong_sim :=
  let s := default (NewDeterministicSimulator 42 []) pingpong_ready in
  with_network (mkSimulatedNetwork (sn_partitions (ds_network s)) (sn_dropRate (ds_network s)) (10 * Millisecond) (20 * Millisecond) (sn_handlers (ds_network s)))
    (mkSimulator (ds_seed s) (ds_draws s) (ds_currentTime s) (ds_events s) (ds_network s) (ds_crashed s) (ds_eventsProcessed s) (500 * Millisecond) (ds_world s)).

Definition pingpong_result : option (pingpong_sim * list (@SimEvent (@action Z pingpong))) :=
  run_loop (SR := zero_draws) pingpong_perform 20 pingpong_start.

Lemma pingpong_log : option_map (fun r => ds_world r.1) pingpong_result =
  Some [("bob", 0, 10 * Millisecond); ("alice", 1, 50 * Millisecond); ("bob", 2, 110 * Millisecond); ("alice", 3, 150 * Millisecond)].
Proof. by vm_compute. Qed.

Lemma pingpong_length : option_map (fun r => length r.2) pingpong_result = Some 8%nat.
Proof. by vm_compute. Qed.

Lemma pingpong_queue : queue_ok (ds_events pingpong_start).
Proof. split; [intros c Hc; vm_compute in Hc; lia|]. intros i e. destruct i; vm_compute; intros E; by simplify_eq. Qed.

Lemma pingpong_fields : ds_currentTime pingpong_start = 0 /\ ds_maxTime pingpong_start = 500000000 /\ sn_minDelay (ds_network pingpong_start) = 10000000 /\
  sn_maxDelay (ds_network pingpong_start) = 20000000 /\ ds_events pingpong_start = [mkSimEvent 0 (AUser (Reply "alice" "bob" 0)) "initial ping" 0 0].
Proof. split_and!; by vm_compute. Qed.

Lemma run_in_order_witness : exists s tr, pingpong_result = Some (s, tr) /\ length tr = 8%nat /\ StronglySorted Z.le (0 :: (ev_At <$> tr)).
Proof.
  pose proof pingpong_length as L. destruct pingpong_result as [[s tr]|] eqn:E; [|done]. exists s, tr. split; [done|]. split; [by injection L|].
  destruct pingpong_fields as (F1 & F2 & F3 & F4 & F5). clear L. unfold pingpong_result in E.
  apply (run_in_order (SR := zero_draws) pingpong_perform 20 pingpong_start s tr); rewrite ?F1 ?F2 ?F3 ?F4; [exact pingpong_queue| |lia..| |exact E].
  - intros e He. rewrite F5 in He. apply list_elem_of_singleton in He as ->. done.
  - intros u now w Hn.
    destruct u as [node content|from to content]; cbn; [|by repeat constructor]. destruct (content <? 3); [|by constructor].
    destruct (node =?s "alice"); (constructor; [|by constructor]); unfold call_future, Millisecond; lia.
Defined.

Definition pingpong_run : option (pingpong_sim * list (@SimEvent (@action Z pingpong))) :=
  match pingpong_ready with Some s => sim_Run (SR := zero_draws) pingpong_perform 20 (500 * Millisecond) s | None => None end.

Lemma pingpong_ends : option_map (fun r => length r.2) pingpong_run = Some 8%nat.
Proof. by vm_compute. Qed.


(** A test with an event on each side of the limit. *)
Definition idle_perform (u now : Z) (log : list Z) : list Z * list (@call Z Z) := (log ++ [u], []).

Definition idle_start : @DeterministicSimulator Z (list Z) Z :=
  let s := Schedule 30 "late" (AUser 3) (Schedule 20 "next" (AUser 2) (Schedule 10 "first" (AUser 1) (NewDeterministicSimulator 7 []))) in
  mkSimulator (ds_seed s) (ds_draws s) (ds_currentTime s) (ds_events s) (ds_network s) (ds_crashed s) (ds_eventsProcessed s) 15 (ds_world s).

Lemma run_executes_due_witness : exists s' tr, run_loop (SR := zero_draws) idle_perform 4 idle_start = Some (s', tr) /\
  strip <$> tr ≡ₚ due 15 (ds_events idle_start) /\ map ev_At (ds_events s') = [30].
Proof.
  destruct (run_executes_due (SR := zero_draws) idle_perform 4 idle_start) as (s' & tr & E & Htr & _).
  - done.
  - repeat apply heap_Push_ok. split; [intros c Hc; cbn in Hc; lia|done].
  - vm_compute. lia.
  - exists s', tr. split; [done|]. split; [exact Htr|]. vm_compute in E. by simplify_eq.
Defined.

(** The event at 20 is not executed by a second [Run] with a later limit. *)
Example late_event_lost :
  match run_loop (SR := zero_draws) idle_perform 4 idle_start with
  | Some (s', _) => option_map (fun r => ds_world r.1) (sim_Run (SR := zero_draws) idle_perform 4 100 s')
  | None => None
  end = Some [1; 3].
Proof. by vm_compute. Qed.
