(* ===== verification/Jepsen.v ===== *)
(** * Jepsen: the checker of recorded operations (pkg/chaos/jepsen_checker.go)

    An [interface{}] value is an option ([nil] is [None]).  The descriptions
    of violations, text for people, are left out. *)

From S2P Require Import Prelude GoSort.

Section jepsen.
  Context {V : Type}.

Record JepsenOp := mkJepsenOp {
  jo_ClientID : string;
  jo_Type : string;
  jo_Key : string;
  jo_WriteValue : option V;
  jo_ReadValue : option V;
  jo_InvokeAt : Z;
  jo_CompleteAt : Z;
  jo_Success : bool;
  jo_Error : string;
  jo_ServingNode : string;
}.

Inductive ViolationType := ViolationLostWrite | ViolationStaleRead | ViolationNonMonotonic | ViolationSplitBrain.

Record Violation := mkViolation {
  vi_Type : ViolationType;
  vi_Ops : list JepsenOp;
}.

Record JepsenChecker := mkJepsenChecker {
  jc_ops : list JepsenOp;
}.

Definition NewJepsenChecker : JepsenChecker := mkJepsenChecker [].

Definition Record_op (op : JepsenOp) (c : JepsenChecker) : JepsenChecker := mkJepsenChecker (jc_ops c ++ [op]).

(** [KeyState]: the last successful write and read of a key. *)
Record KeyState := mkKeyState {
  ks_lastWrite : option JepsenOp;
  ks_lastRead : option JepsenOp;
}.

(** The body of the loop of [checkDurability]. *)
Definition durability_step (op : JepsenOp) (st : gmap string KeyState * list Violation) : gmap string KeyState * list Violation :=
  let '(keyStates, violations) := st in
  if negb (jo_Success op) then (keyStates, violations) else
  let state := default (mkKeyState None None) (keyStates !! jo_Key op) in
  if jo_Type op =?s "write" then (<[jo_Key op := mkKeyState (Some op) (ks_lastRead state)]> keyStates, violations)
  else if jo_Type op =?s "read" then
    let violations :=
      match ks_lastWrite state with
      | Some w =>
          if jo_CompleteAt w <? jo_InvokeAt op then
            match jo_ReadValue op with
            | None => violations ++ [mkViolation ViolationLostWrite [w; op]]
            | Some _ => violations
            end
          else violations
      | None => violations
      end in
    (<[jo_Key op := mkKeyState (ks_lastWrite state) (Some op)]> keyStates, violations)
  else (<[jo_Key op := state]> keyStates, violations).

Definition checkDurability (ops : list JepsenOp) : list Violation :=
  (fold_left (fun st op => durability_step op st) ops (∅, [])).2.

(** The body of the loop of [checkStaleReads]: the test of a read has no effect. *)
Definition stale_step (op : JepsenOp) (knownValues : gmap string (option V)) : gmap string (option V) :=
  if negb (jo_Success op) then knownValues
  else if jo_Type op =?s "write" then <[jo_Key op := jo_WriteValue op]> knownValues
  else knownValues.

Definition checkStaleReads `{SortSlice} (ops : list JepsenOp) : list Violation :=
  let sorted := sort_Slice (fun a b => jo_CompleteAt a <? jo_CompleteAt b) ops in
  let '(_, violations) := fold_left (fun '(known, violations) op => (stale_step op known, violations)) sorted (∅ : gmap string (option V), []) in violations.

Definition monotonic_step (op : JepsenOp) (clientLastRead : gmap string (gmap string (option V))) : gmap string (gmap string (option V)) :=
  if negb (jo_Success op) || negb (jo_Type op =?s "read") then clientLastRead
  else <[jo_ClientID op := <[jo_Key op := jo_ReadValue op]> (default ∅ (clientLastRead !! jo_ClientID op))]> clientLastRead.

Definition checkMonotonicReads (ops : list JepsenOp) : list Violation :=
  let '(_, violations) := fold_left (fun '(last, violations) op => (monotonic_step op last, violations)) ops (∅ : gmap string (gmap string (option V)), []) in violations.

Definition jepsen_Verify `{SortSlice} (c : JepsenChecker) : list Violation :=
  checkDurability (jc_ops c) ++ checkStaleReads (jc_ops c) ++ checkMonotonicReads (jc_ops c).

Record JepsenStats := mkJepsenStats {
  js_TotalOps : Z;
  js_Writes : Z;
  js_Reads : Z;
  js_Successes : Z;
  js_Failures : Z;
}.

Definition stats_step (op : JepsenOp) (st : Z * Z * Z * Z) : Z * Z * Z * Z :=
  let '(writes, reads, successes, failures) := st in
  let '(writes, reads) :=
    if jo_Type op =?s "write" then (i64 (writes + 1), reads) else if jo_Type op =?s "read" then (writes, i64 (reads + 1)) else (writes, reads) in
  if jo_Success op then (writes, reads, i64 (successes + 1), failures) else (writes, reads, successes, i64 (failures + 1)).

Definition jepsen_Stats (c : JepsenChecker) : JepsenStats :=
  let '(writes, reads, successes, failures) := fold_left (fun st op => stats_step op st) (jc_ops c) (0, 0, 0, 0) in
  mkJepsenStats (zlen (jc_ops c)) writes reads successes failures.

(** ** What the checker finds *)

Definition is_write (k : string) (op : JepsenOp) : bool := jo_Success op && (jo_Type op =?s "write") && (jo_Key op =?s k).

(** The last successful write of a key in a list of operations. *)
Definition last_write (ops : list JepsenOp) (k : string) : option JepsenOp := last (List.filter (is_write k) ops).

(** A read that misses a write: the operations before it end, for its key,
    with a write that completed before the read began, and the read returned
    nothing. *)
Definition missed (before : list JepsenOp) (w r : JepsenOp) : Prop :=
  jo_Success r = true /\ jo_Type r = "read" /\ jo_ReadValue r = None /\ last_write before (jo_Key r) = Some w /\ jo_CompleteAt w < jo_InvokeAt r.

Lemma last_write_snoc ops op k : last_write (ops ++ [op]) k = if is_write k op then Some op else last_write ops k.
Proof. unfold last_write. rewrite List.filter_app /=. destruct (is_write k op); [by rewrite last_snoc|by rewrite app_nil_r]. Qed.

(** The reads that miss a write, as more operations are recorded. *)
Lemma missed_snoc ops op (P : list JepsenOp -> JepsenOp -> JepsenOp -> Prop) :
  (exists before w r after, ops ++ [op] = before ++ r :: after /\ P before w r) <->
  (exists before w r after, ops = before ++ r :: after /\ P before w r) \/ exists w, P ops w op.
Proof.
  split.
  - intros (before & w & r & after & E & H). destruct after as [|x after _] using rev_ind.
    + apply app_inj_tail in E as [-> ->]. right. by exists w.
    + rewrite app_comm_cons app_assoc in E. apply app_inj_tail in E as [-> ->]. left. by exists before, w, r, after.
  - intros [(before & w & r & after & -> & H)|(w & H)]; [exists before, w, r, (after ++ [op])|exists ops, w, op, []]; by rewrite -?app_assoc.
Qed.

(** The state of the loop of [checkDurability] after the operations [ops]. *)
Definition durability_ok (ops : list JepsenOp) (st : gmap string KeyState * list Violation) : Prop :=
  (forall k, st.1 !! k ≫= ks_lastWrite = last_write ops k) /\
  (forall v, v ∈ st.2 <-> exists before w r after, ops = before ++ r :: after /\ (missed before w r /\ v = mkViolation ViolationLostWrite [w; r])).

Lemma durability_step_ok ops op st : durability_ok ops st -> durability_ok (ops ++ [op]) (durability_step op st).
Proof.
  destruct st as [ks vs]. intros [Hk Hv]. unfold durability_ok. cbn in Hk, Hv. setoid_rewrite (missed_snoc ops op).
  setoid_rewrite last_write_snoc. setoid_rewrite <- Hv. unfold is_write, durability_step.
  destruct (jo_Success op) eqn:Hs; cbn; [|split; [done|]; intros v; unfold missed; naive_solver congruence].
  pose proof (Hk (jo_Key op)) as Hko. set (state := default _ _). assert (Hst : ks_lastWrite state = last_write ops (jo_Key op)).
  { rewrite -Hko. unfold state. by destruct (ks !! jo_Key op). }
  assert (Hsame : forall st', ks_lastWrite st' = ks_lastWrite state -> forall k, <[jo_Key op := st']> ks !! k ≫= ks_lastWrite = last_write ops k).
  { intros st' E k. destruct (decide (jo_Key op = k)) as [<-|]; [by rewrite lookup_insert_eq /= E|by rewrite lookup_insert_ne]. }
  destruct (String.eqb_spec (jo_Type op) "write") as [Hw|Hw]; cbn.
  - split.
    + intros k. destruct (String.eqb_spec (jo_Key op) k) as [<-|]; [by rewrite lookup_insert_eq|by rewrite lookup_insert_ne].
    + intros v. unfold missed. rewrite Hw. naive_solver.
  - destruct (String.eqb_spec (jo_Type op) "read") as [Hr|Hr]; cbn; [|split; [by apply Hsame|intros v; unfold missed; naive_solver]].
    split; [by apply Hsame|]. intros v. rewrite Hst. unfold missed. destruct (last_write ops (jo_Key op)) as [w|]; [|naive_solver].
    destruct (Z.ltb_spec (jo_CompleteAt w) (jo_InvokeAt op)); [|naive_solver lia].
    destruct (jo_ReadValue op) eqn:E; [naive_solver|]. rewrite elem_of_app list_elem_of_singleton. naive_solver.
Qed.

Lemma durability_run ops : durability_ok ops (fold_left (fun st op => durability_step op st) ops (∅, [])).
Proof.
  induction ops as [|op ops IH] using rev_ind.
  - split; [done|]. intros v. cbn. rewrite elem_of_nil. split; [done|]. intros (before & ? & ? & ? & E & _). by destruct before.
  - rewrite fold_left_app. by apply durability_step_ok.
Qed.

Lemma checkStaleReads_nil `{SortSlice} ops : checkStaleReads ops = [].
Proof.
  unfold checkStaleReads. generalize (∅ : gmap string (option V)).
  induction (sort_Slice _ ops) as [|op l IH]; intros m; [done|]. cbn. apply IH.
Qed.

Lemma checkMonotonicReads_nil ops : checkMonotonicReads ops = [].
Proof. unfold checkMonotonicReads. generalize (∅ : gmap string (gmap string (option V))). induction ops as [|op l IH]; intros m; [done|]. cbn. apply IH. Qed.

(** The checker reports exactly the reads that return nothing although the
    last write of their key recorded before them had completed when they
    began.  The checks of stale and of non-monotonic reads report nothing,
    whatever was recorded. *)
Theorem jepsen_verify_exact `{SortSlice} c v :
  v ∈ jepsen_Verify c <-> exists before w r after, jc_ops c = before ++ r :: after /\ missed before w r /\ v = mkViolation ViolationLostWrite [w; r].
Proof. unfold jepsen_Verify. rewrite checkStaleReads_nil checkMonotonicReads_nil !app_nil_r. apply (durability_run (jc_ops c)). Qed.

(** The statistics of a history add up. *)
Theorem jepsen_stats_total c : zlen (jc_ops c) < two63 ->
  js_Successes (jepsen_Stats c) + js_Failures (jepsen_Stats c) = js_TotalOps (jepsen_Stats c) /\
  js_Writes (jepsen_Stats c) + js_Reads (jepsen_Stats c) <= js_TotalOps (jepsen_Stats c).
Proof.
  intros Hlen. unfold jepsen_Stats.
  assert (K : forall ops w r su fa, 0 <= w -> 0 <= r -> 0 <= su -> 0 <= fa -> w + r <= su + fa -> su + fa + zlen ops < two63 ->
    let '(w', r', su', fa') := fold_left (fun st op => stats_step op st) ops (w, r, su, fa) in su' + fa' = su + fa + zlen ops /\ w' + r' <= su' + fa').
  { induction ops as [|op ops IH]; intros w r su fa Hw Hr Hs Hf Hle Hb; [unfold zlen; cbn; lia|]. cbn [fold_left].
    unfold zlen in *. cbn [length] in *. unfold stats_step at 2.
    destruct (jo_Type op =?s "write"), (jo_Type op =?s "read"), (jo_Success op); unwrap;
      (match goal with |- context [fold_left ?f ops (?a, ?b, ?c0, ?d)] => specialize (IH a b c0 d) end);
      destruct (fold_left _ ops _) as [[[? ?] ?] ?]; destruct IH as [IH1 IH2]; lia. }
  specialize (K (jc_ops c) 0 0 0 0). destruct (fold_left _ _ _) as [[[? ?] ?] ?]. cbn. destruct K as [E1 E2]; lia.
Qed.

End jepsen.

(** A stale read: the second read returns the value that was overwritten
    before it began, and nothing is reported. *)
Definition stale_history : list (@JepsenOp Z) :=
  [mkJepsenOp "c1" "write" "x" (Some 1) None 0 1 true EmptyString "n1"; mkJepsenOp "c1" "write" "x" (Some 2) None 2 3 true EmptyString "n1";
   mkJepsenOp "c2" "read" "x" None (Some 2) 4 5 true EmptyString "n1"; mkJepsenOp "c2" "read" "x" None (Some 1) 6 7 true EmptyString "n2"].

Example stale_read_unreported : jepsen_Verify (mkJepsenChecker stale_history) = [].
Proof. by vm_compute. Qed.
