(* ===== verification/Transport.v ===== *)
(** * Transport: the gRPC layer (pkg/transport)

    gRPC itself is not modelled: a handler, an invoker and a dial are
    arguments.  A call runs in a world that holds the clock, the metrics of
    the server and whatever the handler changes.  A handler returns or
    panics. *)

From S2P Require Import Prelude Bytes.

(** ** config.go *)

Record TransportConfig := mkTransportConfig {
  tc_ListenAddr : string;
  tc_NodeID : string;
  tc_MaxConcurrentStreams : Z;
  tc_MaxRecvMsgSize : Z;
  tc_MaxSendMsgSize : Z;
  tc_DialTimeout : Z;
  tc_RequestTimeout : Z;
  tc_KeepAliveTime : Z;
  tc_KeepAliveTimeout : Z;
  tc_MaxConnectionsPerPeer : Z;
  tc_WriteBufferSize : Z;
  tc_ReadBufferSize : Z;
}.

Notation second := 1000000000 (only parsing).

Definition DefaultTransportConfig (listenAddr nodeID : string) : TransportConfig :=
  mkTransportConfig listenAddr nodeID 256 (64 * 1024 * 1024) (64 * 1024 * 1024) (5 * second) (2 * second) (10 * second) (5 * second) 1
    (32 * 1024) (32 * 1024).

(** ** interceptors.go: the server *)

(** The codes of gRPC that the source names; an error may have no status. *)
Inductive Code := CodeOK | CodeInternal | CodeUnavailable | CodeResourceExhausted | CodeOther (n : Z).

#[global] Instance Code_eq_dec : EqDecision Code.
Proof. solve_decision. Defined.

Inductive rpc_error := ErrStatus (c : Code) (text : string) | ErrPlain (text : string) | ErrContext | ErrMaxRetries (n : Z) (last : rpc_error) | ErrNoAttempt (n : Z).

Record MethodMetrics := mkMethodMetrics {
  mm_calls : Z;
  mm_errors : Z;
  mm_totalDur : Z;
}.

(** [MetricsCollector]: by method. *)
Notation MetricsCollector := (gmap string MethodMetrics).

Section server.
  Context {Req Resp X : Type}.

Record world := mkWorld {
  wd_clock : Z;
  wd_metrics : MetricsCollector;
  wd_app : X;
}.

(** What the interceptors read of a [context.Context]. *)
Record context := mkContext {
  cx_deadline : option Z;
  cx_requestIDs : list string;
}.

Inductive outcome := Returned (resp : option Resp) (err : option rpc_error) | Panicked (text : string).

Definition UnaryHandler : Type := context -> Req -> world -> outcome * world.
Definition UnaryServerInterceptor : Type := context -> Req -> string -> UnaryHandler -> world -> outcome * world.

(** The code that [LoggingInterceptor] prints; it returns what the handler returns. *)
Definition logged_code (err : option rpc_error) : Code :=
  match err with
  | None => CodeOK
  | Some (ErrStatus c _) => c
  | Some _ => CodeOK
  end.

Definition LoggingInterceptor : UnaryServerInterceptor := fun ctx req method handler w => handler ctx req w.

(** The counters of a call that returned. *)
Definition count_call (method : string) (duration : Z) (failed : bool) (m : MetricsCollector) : MetricsCollector :=
  let mm := default (mkMethodMetrics 0 0 0) (m !! method) in
  <[method := mkMethodMetrics (i64 (mm_calls mm + 1)) (if failed then i64 (mm_errors mm + 1) else mm_errors mm) (i64 (mm_totalDur mm + duration))]> m.

Definition MetricsInterceptor : UnaryServerInterceptor := fun ctx req method handler w =>
  let start := wd_clock w in
  match handler ctx req w with
  | (Returned resp err, w) =>
      (Returned resp err,
       mkWorld (wd_clock w) (count_call method (wd_clock w - start) (match err with Some _ => true | None => false end) (wd_metrics w)) (wd_app w))
  | (Panicked text, w) => (Panicked text, w)
  end.

Definition RecoveryInterceptor : UnaryServerInterceptor := fun ctx req method handler w =>
  match handler ctx req w with
  | (Panicked text, w) => (Returned None (Some (ErrStatus CodeInternal ("internal error: " +:+ text))), w)
  | r => r
  end.

Definition TimeoutInterceptor (defaultTimeout : Z) : UnaryServerInterceptor := fun ctx req method handler w =>
  match cx_deadline ctx with
  | Some _ => handler ctx req w
  | None => handler (mkContext (Some (wd_clock w + defaultTimeout)) (cx_requestIDs ctx)) req w
  end.

(** The loop from the last interceptor to the first. *)
Definition ChainUnaryInterceptors (interceptors : list UnaryServerInterceptor) : UnaryServerInterceptor := fun ctx req method handler =>
  fold_right (fun interceptor next => fun ctx req => interceptor ctx req method next) handler interceptors ctx req.

(** The interceptor of [NewServer]. *)
Definition server_interceptor (config : TransportConfig) : UnaryServerInterceptor :=
  ChainUnaryInterceptors [LoggingInterceptor; RecoveryInterceptor; TimeoutInterceptor (tc_RequestTimeout config); MetricsInterceptor].

(** The deadline with which a handler runs. *)
Definition with_deadline (timeout : Z) (ctx : context) (w : world) : context :=
  mkContext (Some (default (wd_clock w + timeout) (cx_deadline ctx))) (cx_requestIDs ctx).

(** A call of the server never panics out of the interceptors, and the
    handler always runs with a deadline, the caller's when there is one.  What
    the handler returns is what the caller gets, and it is counted for the
    method, as an error when it is one.  A handler that panics is answered
    with an internal error, and is not counted: the metrics are inside the
    recovery. *)
Theorem server_call config ctx req method handler w :
  server_interceptor config ctx req method handler w =
  let w1 := handler (with_deadline (tc_RequestTimeout config) ctx w) req w in
  match w1 with
  | (Returned resp err, w') =>
      (Returned resp err, mkWorld (wd_clock w') (count_call method (wd_clock w' - wd_clock w) (match err with Some _ => true | None => false end) (wd_metrics w')) (wd_app w'))
  | (Panicked text, w') => (Returned None (Some (ErrStatus CodeInternal ("internal error: " +:+ text))), w')
  end.
Proof.
  unfold server_interceptor, ChainUnaryInterceptors. cbn [fold_right]. unfold LoggingInterceptor, RecoveryInterceptor, TimeoutInterceptor, MetricsInterceptor, with_deadline.
  destruct ctx as [[d|] ids]; cbn; destruct (handler _ req w) as [[resp err|text] w']; done.
Qed.

(** An interceptor that is always the outermost sees what the others made of
    the call: a chain is the composition of its parts. *)
Lemma chain_app is1 is2 ctx req method handler w :
  ChainUnaryInterceptors (is1 ++ is2) ctx req method handler w =
  ChainUnaryInterceptors is1 ctx req method (fun ctx req => ChainUnaryInterceptors is2 ctx req method handler) w.
Proof. unfold ChainUnaryInterceptors. by rewrite fold_right_app. Qed.

End server.

(** ** interceptors.go and client.go: the client *)

Section client.
  Context {X : Type}.

(** An invoker: the error of the call, or [None]. *)
Definition UnaryInvoker : Type := list string -> string -> X -> option rpc_error * X.
Definition UnaryClientInterceptor : Type := list string -> string -> UnaryInvoker -> X -> option rpc_error * X.

(** [now] is [time.Now().UnixNano()]; the metadata is the list of request IDs. *)
Definition ClientRequestIDInterceptor (now : Z) : UnaryClientInterceptor := fun md method invoker x =>
  invoker (md ++ [string_of_bytes (fmt_d now)]) method x.

(** [time.Duration(10<<uint(attempt-1)) * time.Millisecond]. *)
Definition retry_backoff (attempt : nat) : Z := i64 (i64 (Z.shiftl 10 (Z.of_nat (attempt - 1))) * 1000000).

Definition retryable (e : rpc_error) : bool :=
  match e with ErrStatus CodeUnavailable _ | ErrStatus CodeResourceExhausted _ => true | _ => false end.

(** [fmt.Errorf("max retries (%d) exceeded: %w", maxAttempts, lastErr)]; without an attempt it wraps [nil]. *)
Definition max_retries (maxAttempts : Z) (lastErr : option rpc_error) : rpc_error :=
  match lastErr with Some e => ErrMaxRetries maxAttempts e | None => ErrNoAttempt maxAttempts end.

(** The loop of [RetryInterceptor]: [waits attempt] is whether the back-off
    ends before the context, and [remaining] the attempts that remain. *)
Fixpoint attempt_loop (maxAttempts : Z) (waits : nat -> bool) (remaining attempt : nat) (lastErr : option rpc_error)
    (md : list string) (method : string) (invoker : UnaryInvoker) (x : X) : option rpc_error * X :=
  match remaining with
  | O => (Some (max_retries maxAttempts lastErr), x)
  | S remaining =>
      if (0 <? attempt)%nat && negb (waits attempt) then (Some ErrContext, x) else
      match invoker md method x with
      | (None, x) => (None, x)
      | (Some e, x) => if retryable e then attempt_loop maxAttempts waits remaining (S attempt) (Some e) md method invoker x else (Some e, x)
      end
  end.

Definition RetryInterceptor (maxAttempts : Z) (waits : nat -> bool) : UnaryClientInterceptor := fun md method invoker x =>
  attempt_loop maxAttempts waits (Z.to_nat maxAttempts) 0 None md method invoker x.

Definition ChainClientInterceptors (interceptors : list UnaryClientInterceptor) : UnaryClientInterceptor := fun md method invoker =>
  fold_right (fun interceptor next => fun md method => interceptor md method next) invoker interceptors md method.

(** The interceptor of [newPeerClient]. *)
Definition peer_interceptor (now : Z) (waits : nat -> bool) : UnaryClientInterceptor :=
  ChainClientInterceptors [ClientRequestIDInterceptor now; RetryInterceptor 3 waits].

(** The calls that fail with a retryable error, one after the other. *)
Inductive attempts (invoker : UnaryInvoker) (md : list string) (method : string) : nat -> X -> option rpc_error -> X -> Prop :=
  | attempts_none x : attempts invoker md method 0 x None x
  | attempts_more n x le e x1 x2 : attempts invoker md method n x le x1 -> invoker md method x1 = (Some e, x2) -> retryable e = true ->
      attempts invoker md method (S n) x (Some e) x2.

(** How a call with retries ends. *)
Inductive retry_end (maxAttempts : Z) (waits : nat -> bool) (invoker : UnaryInvoker) (md : list string) (method : string) (n : nat) (le : option rpc_error) (x : X) :
    option rpc_error * X -> Prop :=
  | retry_ok x' : (n < Z.to_nat maxAttempts)%nat -> invoker md method x = (None, x') -> retry_end maxAttempts waits invoker md method n le x (None, x')
  | retry_fatal e x' : (n < Z.to_nat maxAttempts)%nat -> invoker md method x = (Some e, x') -> retryable e = false ->
      retry_end maxAttempts waits invoker md method n le x (Some e, x')
  | retry_cancelled : (0 < n < Z.to_nat maxAttempts)%nat -> waits n = false -> retry_end maxAttempts waits invoker md method n le x (Some ErrContext, x)
  | retry_exhausted : n = Z.to_nat maxAttempts -> retry_end maxAttempts waits invoker md method n le x (Some (max_retries maxAttempts le), x).

Lemma retry_loop_end maxAttempts waits invoker md method x0 : forall remaining attempt le x, (attempt + remaining = Z.to_nat maxAttempts)%nat ->
  attempts invoker md method attempt x0 le x -> exists n le' x',
    attempts invoker md method n x0 le' x' /\ retry_end maxAttempts waits invoker md method n le' x' (attempt_loop maxAttempts waits remaining attempt le md method invoker x).
Proof.
  induction remaining as [|remaining IH]; intros attempt le x Hl Ha; cbn [attempt_loop].
  { exists attempt, le, x. split; [done|]. apply retry_exhausted. lia. }
  destruct ((0 <? attempt)%nat && negb (waits attempt)) eqn:Hw.
  { apply andb_true_iff in Hw as [?%Nat.ltb_lt ?%negb_true_iff]. exists attempt, le, x. split; [done|]. apply retry_cancelled; [lia|done]. }
  destruct (invoker md method x) as [[e|] x'] eqn:Hi.
  - destruct (retryable e) eqn:Hr; [|exists attempt, le, x; split; [done|]; apply retry_fatal; [lia|done..]].
    apply IH; [lia|]. by eapply attempts_more.
  - exists attempt, le, x. split; [done|]. apply retry_ok; [lia|done].
Qed.

(** A call with retries makes some number of attempts that all fail with
    an error worth retrying, and then ends in one of four ways: a last attempt
    succeeds, or fails with another error, which is returned; the context ends
    during a back-off; or all attempts are used up.  It makes at most
    [maxAttempts] attempts, and none when that is not positive. *)
Theorem retry_spec maxAttempts waits md method invoker x : exists n le x',
  (n <= Z.to_nat maxAttempts)%nat /\ attempts invoker md method n x le x' /\
  retry_end maxAttempts waits invoker md method n le x' (RetryInterceptor maxAttempts waits md method invoker x).
Proof.
  destruct (retry_loop_end maxAttempts waits invoker md method x (Z.to_nat maxAttempts) 0 None x) as (n & le & x' & Ha & He); [lia|constructor|].
  exists n, le, x'. split; [inversion He; lia|done].
Qed.

End client.

(** ** client.go: the connection pool *)

Record PeerClient := mkPeerClient {
  pc_peerID : string;
  pc_address : string;
  pc_connectedAt : Z;
}.

Record ConnectionPool := mkConnectionPool {
  cp_config : TransportConfig;
  cp_peers : gmap string PeerClient;
}.

Inductive pool_error := ErrConnect (peerID address : string) (cause : rpc_error) | ErrAddPeer (peerID : string) (cause : pool_error).

Definition NewConnectionPool (config : TransportConfig) : ConnectionPool := mkConnectionPool config ∅.

(** [dial] is what [grpc.DialContext] reports for an address. *)
Definition newPeerClient (now : Z) (dial : string -> option rpc_error) (peerID address : string) : PeerClient + pool_error :=
  match dial address with
  | Some err => inr (ErrConnect peerID address err)
  | None => inl (mkPeerClient peerID address now)
  end.

Definition Pool_AddPeer (now : Z) (dial : string -> option rpc_error) (peerID address : string) (p : ConnectionPool) : option pool_error * ConnectionPool :=
  match cp_peers p !! peerID with
  | Some _ => (None, p)
  | None =>
      match newPeerClient now dial peerID address with
      | inr err => (Some (ErrAddPeer peerID err), p)
      | inl client => (None, mkConnectionPool (cp_config p) (<[peerID := client]> (cp_peers p)))
      end
  end.

(** [close] is what closing the connection reports. *)
Definition Pool_RemovePeer (close : PeerClient -> option rpc_error) (peerID : string) (p : ConnectionPool) : option rpc_error * ConnectionPool :=
  match cp_peers p !! peerID with
  | None => (None, p)
  | Some client => (close client, mkConnectionPool (cp_config p) (delete peerID (cp_peers p)))
  end.

Definition GetPeer (peerID : string) (p : ConnectionPool) : option PeerClient := cp_peers p !! peerID.

(** [order]: the order in which the map is visited. *)
Definition GetAllPeers (order : list string) (p : ConnectionPool) : list PeerClient := omap (fun id => cp_peers p !! id) order.

Record BroadcastResult {R : Type} := mkBroadcastResult {
  br_PeerID : string;
  br_Response : option R;
  br_Err : option rpc_error;
}.

(** The results of [BroadcastAppendEntries] and [BroadcastRequestVote] on their
    channel, whose capacity is the number of peers; they arrive in any order. *)
Definition Broadcast {R : Type} (order : list string) (call : PeerClient -> option R * option rpc_error) (p : ConnectionPool) : list (@BroadcastResult R) :=
  map (fun c => let '(resp, err) := call c in mkBroadcastResult R (pc_peerID c) resp err) (GetAllPeers order p).

Definition Pool_Close (p : ConnectionPool) : ConnectionPool := mkConnectionPool (cp_config p) ∅.

Definition Pool_HealthCheck (order : list string) (ping : PeerClient -> option rpc_error) (p : ConnectionPool) : gmap string bool :=
  fold_left (fun results c => <[pc_peerID c := match ping c with None => true | Some _ => false end]> results) (GetAllPeers order p) ∅.

(** The clients of a pool are under their own names. *)
Definition pool_ok (p : ConnectionPool) : Prop := forall id c, cp_peers p !! id = Some c -> pc_peerID c = id.

Lemma AddPeer_ok now dial id addr p : pool_ok p -> pool_ok (Pool_AddPeer now dial id addr p).2.
Proof.
  intros Hp. unfold Pool_AddPeer, newPeerClient. destruct (cp_peers p !! id); [done|]. destruct (dial addr); [done|].
  intros i c. cbn. intros [[<- <-]|[_ ?]]%lookup_insert_Some; [done|by apply Hp].
Qed.

Lemma RemovePeer_ok close id p : pool_ok p -> pool_ok (Pool_RemovePeer close id p).2.
Proof.
  intros Hp. unfold Pool_RemovePeer. destruct (cp_peers p !! id); [|done]. intros i c. cbn. intros [_ ?]%lookup_delete_Some. by apply Hp.
Qed.

(** The health check has an entry for every peer, which says whether it
    answered, in whatever order the peers are visited. *)
Theorem health_check_exact order ping p : pool_ok p -> (forall id, id ∈ order <-> is_Some (cp_peers p !! id)) ->
  forall id, Pool_HealthCheck order ping p !! id = option_map (fun c => match ping c with None => true | Some _ => false end) (cp_peers p !! id).
Proof.
  intros Hp Hord. unfold Pool_HealthCheck, GetAllPeers.
  assert (K : forall l (m : gmap string bool), (forall i, i ∈ l -> is_Some (cp_peers p !! i)) -> forall id,
    fold_left (fun results c => <[pc_peerID c := match ping c with None => true | Some _ => false end]> results) (omap (fun id => cp_peers p !! id) l) m !! id =
    if decide (id ∈ l) then option_map (fun c => match ping c with None => true | Some _ => false end) (cp_peers p !! id) else m !! id).
  { induction l as [|i l IH]; intros m Hl id; [done|]. destruct (Hl i) as [c Hc]; [by left|]. cbn. rewrite Hc. cbn.
    rewrite IH; [|intros j ?; apply Hl; by right]. rewrite (Hp _ _ Hc). destruct (decide (id ∈ l)), (decide (id ∈ i :: l)) as [Hi|Hi]; [done|set_solver| |].
    - apply elem_of_cons in Hi as [->|]; [|done]. by rewrite lookup_insert_eq Hc.
    - rewrite lookup_insert_ne; [done|set_solver]. }
  intros id. rewrite K; [|intros i; by apply Hord]. case_decide as Hi; [done|]. rewrite lookup_empty.
  destruct (cp_peers p !! id) eqn:E; [|done]. destruct Hi. by apply Hord.
Qed.

(** A peer that comes back with another address keeps its first connection. *)
Theorem AddPeer_keeps_address now dial id addr p c : cp_peers p !! id = Some c -> Pool_AddPeer now dial id addr p = (None, p).
Proof. intros H. unfold Pool_AddPeer. by rewrite H. Qed.

(** ** server.go *)

Record GrpcServer := mkGrpcServer {
  gs_config : TransportConfig;
  gs_listener : option string;
  gs_started : bool;
  gs_stopped : bool;
}.

Inductive server_error := ErrAlreadyStarted | ErrListen (addr : string) | ErrStopDeadline.

Definition NewServer (config : TransportConfig) : GrpcServer := mkGrpcServer config None false false.

(** [listen]: the address of the listener that [net.Listen] opens, if it does. *)
Definition Server_Start (listen : string -> option string) (s : GrpcServer) : option server_error * GrpcServer :=
  if gs_started s then (Some ErrAlreadyStarted, s) else
  match listen (tc_ListenAddr (gs_config s)) with
  | None => (Some (ErrListen (tc_ListenAddr (gs_config s))), s)
  | Some addr => (None, mkGrpcServer (gs_config s) (Some addr) true (gs_stopped s))
  end.

(** [graceful]: whether the graceful stop ends before the context. *)
Definition Server_Stop (graceful : bool) (s : GrpcServer) : option server_error * GrpcServer :=
  ((if graceful then None else Some ErrStopDeadline), mkGrpcServer (gs_config s) (gs_listener s) (gs_started s) true).

Definition Server_Addr (s : GrpcServer) : string := match gs_listener s with Some addr => addr | None => tc_ListenAddr (gs_config s) end.

(** ** tls.go *)

Record TLSConfig := mkTLSConfig {
  tl_CertFile : string;
  tl_KeyFile : string;
  tl_CAFile : string;
  tl_ServerName : string;
  tl_InsecureSkipVerify : bool;
}.

Definition TLS_IsEnabled (c : option TLSConfig) : bool :=
  match c with Some c => negb (tl_CertFile c =?s EmptyString) && negb (tl_KeyFile c =?s EmptyString) | None => false end.

Inductive tls_error := ErrLoadCert | ErrReadCA | ErrParseCA.

Section tls.
  (** crypto/tls and crypto/x509: a key pair from two files, the contents of a
      file, a certificate pool from such contents. *)
  Context {Cert Pool : Type} (LoadX509KeyPair : string -> string -> option Cert) (ReadFile : string -> option bytes) (ParsePool : bytes -> option Pool).

Record server_tls := mkServerTLS {
  st_Certificates : list Cert;
  st_RequireAndVerifyClientCert : bool;
  st_ClientCAs : option Pool;
}.

Record client_tls := mkClientTLS {
  ct_Certificates : list Cert;
  ct_RootCAs : option Pool;
  ct_ServerName : string;
  ct_InsecureSkipVerify : bool;
}.

(** The pool of the CA file, if one is named. *)
Definition load_pool (file : string) : option Pool + tls_error :=
  if file =?s EmptyString then inl None else
  match ReadFile file with
  | None => inr ErrReadCA
  | Some data => match ParsePool data with Some pool => inl (Some pool) | None => inr ErrParseCA end
  end.

(** [inl None]: no TLS. *)
Definition LoadServerCredentials (cfg : option TLSConfig) : option server_tls + tls_error :=
  match cfg with
  | Some c =>
      if negb (TLS_IsEnabled cfg) then inl None else
      match LoadX509KeyPair (tl_CertFile c) (tl_KeyFile c) with
      | None => inr ErrLoadCert
      | Some cert => match load_pool (tl_CAFile c) with inr e => inr e | inl pool => inl (Some (mkServerTLS [cert] true pool)) end
      end
  | None => inl None
  end.

Definition LoadClientCredentials (cfg : option TLSConfig) : option client_tls + tls_error :=
  match cfg with
  | Some c =>
      if negb (TLS_IsEnabled cfg) then inl None else
      match LoadX509KeyPair (tl_CertFile c) (tl_KeyFile c) with
      | None => inr ErrLoadCert
      | Some cert =>
          match load_pool (tl_CAFile c) with inr e => inr e | inl pool => inl (Some (mkClientTLS [cert] pool (tl_ServerName c) (tl_InsecureSkipVerify c))) end
      end
  | None => inl None
  end.

(** Server credentials, when there are any, always ask the client for a
    certificate. *)
Theorem server_credentials_mutual cfg creds : LoadServerCredentials cfg = inl (Some creds) -> st_RequireAndVerifyClientCert creds = true /\ TLS_IsEnabled cfg = true.
Proof.
  unfold LoadServerCredentials. destruct cfg as [c|]; [|done]. destruct (TLS_IsEnabled (Some c)); [|done]. cbn [negb].
  destruct (LoadX509KeyPair _ _); [|done]. destruct (load_pool _); [|done]. intros [= <-]. done.
Qed.

End tls.

Definition GenerateTestCerts (dir : string) : TLSConfig :=
  mkTLSConfig (dir +:+ "/hermes-node.crt") (dir +:+ "/hermes-node.key") (dir +:+ "/hermes-test-ca.crt") EmptyString true.
