(* ===== verification/NetworkSimulator.v ===== *)
(** * NetworkSimulator: rules for links (pkg/transport/network_simulator.go)

    Draws of [rng] are arguments.  A delayed message is delivered when the call
    of [ShouldDeliver] returns: the delay is part of its result. *)

From S2P Require Import Prelude Bytes Float64 Transport.

Record NetworkRule := mkNetworkRule {
  nr_DropRate : float64;
  nr_MinDelay : Z;
  nr_MaxDelay : Z;
  nr_DuplicateRate : float64;
  nr_Partition : bool;
  nr_CorruptRate : float64;
}.

Record SimulatorStats := mkSimulatorStats {
  ss_Sent : Z;
  ss_Dropped : Z;
  ss_Delayed : Z;
  ss_Duplicated : Z;
  ss_Corrupted : Z;
  ss_Partitioned : Z;
}.

(** The action strings of [Record]. *)
Inductive sim_action := SimOk | SimDrop | SimDelay | SimDuplicate | SimCorrupt | SimPartition.

Definition Stats_Record (action : sim_action) (s : SimulatorStats) : SimulatorStats :=
  let '(mkSimulatorStats sent dropped delayed duplicated corrupted partitioned) := s in
  let sent := i64 (sent + 1) in
  match action with
  | SimDrop => mkSimulatorStats sent (i64 (dropped + 1)) delayed duplicated corrupted partitioned
  | SimDelay => mkSimulatorStats sent dropped (i64 (delayed + 1)) duplicated corrupted partitioned
  | SimDuplicate => mkSimulatorStats sent dropped delayed (i64 (duplicated + 1)) corrupted partitioned
  | SimCorrupt => mkSimulatorStats sent dropped delayed duplicated (i64 (corrupted + 1)) partitioned
  | SimPartition => mkSimulatorStats sent dropped delayed duplicated corrupted (i64 (partitioned + 1))
  | SimOk => mkSimulatorStats sent dropped delayed duplicated corrupted partitioned
  end.

Record NetworkSimulator := mkNetworkSimulator {
  ns_rules : gmap string (gmap string NetworkRule);
  ns_stats : SimulatorStats;
}.

Definition NewNetworkSimulator : NetworkSimulator := mkNetworkSimulator ∅ (mkSimulatorStats 0 0 0 0 0 0).

Definition SetRule (from to : string) (rule : NetworkRule) (s : NetworkSimulator) : NetworkSimulator :=
  mkNetworkSimulator (<[from := <[to := rule]> (default ∅ (ns_rules s !! from))]> (ns_rules s)) (ns_stats s).

Definition partition_rule : NetworkRule := mkNetworkRule fzero 0 0 fzero true fzero.

Definition net_Partition (groupA groupB : list string) (s : NetworkSimulator) : NetworkSimulator :=
  fold_left (fun s a => fold_left (fun s b => SetRule b a partition_rule (SetRule a b partition_rule s)) groupB s) groupA s.

(** [delete] from the map of a node; deleting from a nil map does nothing. *)
Definition delete_rule (from to : string) (s : NetworkSimulator) : NetworkSimulator :=
  mkNetworkSimulator (alter (delete to) from (ns_rules s)) (ns_stats s).

Definition HealPartition (groupA groupB : list string) (s : NetworkSimulator) : NetworkSimulator :=
  fold_left (fun s a => fold_left (fun s b => delete_rule b a (delete_rule a b s)) groupB s) groupA s.

Definition SetPacketLoss (from to : string) (dropRate : float64) (s : NetworkSimulator) : NetworkSimulator :=
  SetRule from to (mkNetworkRule dropRate 0 0 fzero false fzero) s.

Definition SetLatency (from to : string) (min max : Z) (s : NetworkSimulator) : NetworkSimulator :=
  SetRule from to (mkNetworkRule fzero min max fzero false fzero) s.

Definition net_ClearAll (s : NetworkSimulator) : NetworkSimulator := mkNetworkSimulator ∅ (ns_stats s).

Definition getRule (from to : string) (s : NetworkSimulator) : option NetworkRule := ns_rules s !! from ≫= (fun m => m !! to).

Definition record_action (a : sim_action) (s : NetworkSimulator) : NetworkSimulator := mkNetworkSimulator (ns_rules s) (Stats_Record a (ns_stats s)).

(** Whether the message is delivered, and after what delay.  [drawF] is
    [rng.Float64()] and [drawI n] is [rng.Int63n(n)]. *)
Definition ShouldDeliver (drawF : float64) (drawI : Z -> Z) (from to : string) (s : NetworkSimulator) : bool * Z * NetworkSimulator :=
  match getRule from to s with
  | None => (true, 0, record_action SimOk s)
  | Some rule =>
      if nr_Partition rule then (false, 0, record_action SimPartition s)
      else if fltb fzero (nr_DropRate rule) && fltb drawF (nr_DropRate rule) then (false, 0, record_action SimDrop s)
      else if (0 <? nr_MinDelay rule) || (0 <? nr_MaxDelay rule) then
        let delay := if nr_MinDelay rule <? nr_MaxDelay rule then i64 (nr_MinDelay rule + drawI (i64 (nr_MaxDelay rule - nr_MinDelay rule))) else nr_MinDelay rule in
        (true, delay, record_action SimOk (record_action SimDelay s))
      else (true, 0, record_action SimOk s)
  end.

(** [SimulatorInterceptor], over a world that holds the simulator; [target] is [cc.Target()]. *)
Definition SimulatorInterceptor {X} (get : X -> NetworkSimulator) (set : NetworkSimulator -> X -> X) (drawF : float64) (drawI : Z -> Z)
    (fromNodeID target : string) : UnaryClientInterceptor := fun md method invoker x =>
  let '(deliver, _, sim) := ShouldDeliver drawF drawI fromNodeID target (get x) in
  let x := set sim x in
  if negb deliver then (Some (ErrStatus CodeUnavailable ("simulated network failure: " +:+ fromNodeID +:+ string_of_bytes [byte_of_Z 32; byte_of_Z 226; byte_of_Z 134; byte_of_Z 146; byte_of_Z 32] +:+ target)), x) else invoker md method x.

(** The pairs of different nodes that the scenarios visit, in order. *)
Definition scenario_rules (rule : NetworkRule) (nodes : list string) (s : NetworkSimulator) : NetworkSimulator :=
  fold_left (fun s from => fold_left (fun s to => if negb (from =?s to) then SetRule from to rule s else s) nodes s) nodes s.

Definition ScenarioSlowNetwork (nodes : list string) (s : NetworkSimulator) : NetworkSimulator :=
  scenario_rules (mkNetworkRule fzero (100 * 1000000) (300 * 1000000) fzero false fzero) nodes s.

Definition ScenarioFlakyNetwork (nodes : list string) (dropRate : float64) (s : NetworkSimulator) : NetworkSimulator :=
  scenario_rules (mkNetworkRule dropRate 0 0 fzero false fzero) nodes s.

Definition ScenarioAsymmetricPartition (from to : string) (s : NetworkSimulator) : NetworkSimulator := SetRule to from partition_rule s.

(** ** Rules *)

Lemma getRule_SetRule from to rule s a b :
  getRule a b (SetRule from to rule s) = if decide (a = from /\ b = to) then Some rule else getRule a b s.
Proof.
  unfold getRule, SetRule. cbn. destruct (decide (a = from)) as [->|Ha].
  - rewrite lookup_insert_eq /=. destruct (decide (b = to)) as [->|Hb]; [by rewrite lookup_insert_eq decide_True|].
    rewrite lookup_insert_ne // decide_False; [|naive_solver]. by destruct (ns_rules s !! from); [|rewrite lookup_empty].
  - rewrite lookup_insert_ne // decide_False //. naive_solver.
Qed.

Lemma getRule_delete_rule from to s a b : getRule a b (delete_rule from to s) = if decide (a = from /\ b = to) then None else getRule a b s.
Proof.
  unfold getRule, delete_rule. cbn. destruct (decide (a = from)) as [->|Ha].
  - rewrite lookup_alter_eq. destruct (ns_rules s !! from) as [m|]; cbn; [|by case_decide].
    destruct (decide (b = to)) as [->|Hb]; [by rewrite lookup_delete_eq decide_True|]. rewrite lookup_delete_ne // decide_False //. naive_solver.
  - rewrite lookup_alter_ne // decide_False //. naive_solver.
Qed.

(** A link is between the groups, in one direction or the other. *)
Definition across (groupA groupB : list string) (a b : string) : Prop := a ∈ groupA /\ b ∈ groupB \/ a ∈ groupB /\ b ∈ groupA.

(** Two nested loops that give the links across two groups the value [v]. *)
Lemma across_loops (upd : string -> string -> NetworkSimulator -> NetworkSimulator) (v : option NetworkRule) groupA groupB :
  (forall from to s a b, getRule a b (upd from to s) = if decide (a = from /\ b = to) then v else getRule a b s) ->
  forall s a b, getRule a b (fold_left (fun s x => fold_left (fun s y => upd y x (upd x y s)) groupB s) groupA s) =
    if decide (across groupA groupB a b) then v else getRule a b s.
Proof.
  intros Hupd.
  assert (In : forall x l s a b, getRule a b (fold_left (fun s y => upd y x (upd x y s)) l s) = if decide (across [x] l a b) then v else getRule a b s).
  { intros x l. induction l as [|y l IH]; intros s a b; cbn [fold_left].
    - rewrite decide_False //. unfold across. set_solver.
    - rewrite IH !Hupd. destruct (decide (across [x] l a b)), (decide (across [x] (y :: l) a b)) as [H|H], (decide (a = y /\ b = x)), (decide (a = x /\ b = y));
        try done; unfold across in *; set_solver. }
  induction groupA as [|x l IH]; intros s a b; cbn [fold_left]; [rewrite decide_False //; unfold across; set_solver|].
  rewrite IH In. destruct (decide (across l groupB a b)), (decide (across [x] groupB a b)), (decide (across (x :: l) groupB a b)); try done; unfold across in *; set_solver.
Qed.

(** A partition blocks exactly the links across the groups, in both
    directions, and healing it removes the rules of these links. *)
Theorem partition_and_heal groupA groupB drawF drawI a b s :
  (across groupA groupB a b -> (ShouldDeliver drawF drawI a b (net_Partition groupA groupB s)).1 = (false, 0)) /\
  (~ across groupA groupB a b -> getRule a b (net_Partition groupA groupB s) = getRule a b s) /\
  getRule a b (HealPartition groupA groupB s) = if decide (across groupA groupB a b) then None else getRule a b s.
Proof.
  assert (P : getRule a b (net_Partition groupA groupB s) = if decide (across groupA groupB a b) then Some partition_rule else getRule a b s).
  { apply (across_loops (fun f t => SetRule f t partition_rule) (Some partition_rule)). intros. apply getRule_SetRule. }
  split_and!.
  - intros H. unfold ShouldDeliver. by rewrite P decide_True.
  - intros H. by rewrite P decide_False.
  - apply (across_loops delete_rule None). intros. apply getRule_delete_rule.
Qed.

(** A message that is delivered after a delay is counted as two messages sent. *)
Theorem delayed_counted_twice drawF drawI from to rule s :
  getRule from to s = Some rule -> nr_Partition rule = false -> nr_DropRate rule = fzero -> 0 < nr_MinDelay rule -> 0 <= ss_Sent (ns_stats s) < two63 - 2 ->
  let '(d, _, s') := ShouldDeliver drawF drawI from to s in d = true /\ ss_Sent (ns_stats s') = ss_Sent (ns_stats s) + 2.
Proof.
  intros Hr Hp Hd Hm Hs. unfold ShouldDeliver. rewrite Hr Hp Hd. destruct (Z.ltb_spec 0 (nr_MinDelay rule)); [|lia]. cbn.
  split; [done|]. destruct (ns_stats s). cbn in *. rewrite !i64_small; lia.
Qed.
