(* ===== verification/Logger.v ===== *)
(** * Logger: structured logging (pkg/observability/logger.go)

    A logger writes entries; the output is the list of the entries written.
    The time, the caller and the encoding of an entry as JSON are left out.
    The text of a duration is a parameter. *)

From S2P Require Import Prelude Bytes Float64.

Inductive LogLevel := LevelDebug | LevelInfo | LevelWarn | LevelError | LevelFatal.

Definition level_number (l : LogLevel) : Z :=
  match l with LevelDebug => 0 | LevelInfo => 1 | LevelWarn => 2 | LevelError => 3 | LevelFatal => 4 end.

Definition LogLevel_String (l : LogLevel) : string :=
  match l with LevelDebug => "debug" | LevelInfo => "info" | LevelWarn => "warn" | LevelError => "error" | LevelFatal => "fatal" end.

(** The values of fields that the loggers use. *)
Inductive field_value := FStr (s : string) | FInt (z : Z) | FFloat (f : float64) | FBool (b : bool) | FStrs (l : list string).

Notation fields := (gmap string field_value).

Record LogLine := mkLogLine {
  ll_Level : string;
  ll_Msg : string;
  ll_NodeID : string;
  ll_TraceID : string;
  ll_Component : string;
  ll_Fields : fields;
  ll_Error : string;
}.

Record Logger := mkLogger {
  lg_nodeID : string;
  lg_component : string;
  lg_level : LogLevel;
  lg_fields : fields;
}.

Definition NewLogger (nodeID component : string) : Logger := mkLogger nodeID component LevelInfo ∅.

Definition WithLevel (level : LogLevel) (l : Logger) : Logger := mkLogger (lg_nodeID l) (lg_component l) level (lg_fields l).
Definition WithComponent (component : string) (l : Logger) : Logger := mkLogger (lg_nodeID l) component (lg_level l) (lg_fields l).

(** The copies that [WithFields] and [log] make: later fields replace earlier ones. *)
Definition add_fields (extra base : fields) : fields := extra ∪ base.

Definition WithFields (extra : fields) (l : Logger) : Logger := mkLogger (lg_nodeID l) (lg_component l) (lg_level l) (add_fields extra (lg_fields l)).
Definition WithTraceID (traceID : string) (l : Logger) : Logger := WithFields {[ "trace_id" := FStr traceID ]} l.

(** [log]: the lines it writes. *)
Definition Logger_log (level : LogLevel) (msg : string) (err : option string) (extraFields : list fields) (l : Logger) : list LogLine :=
  if level_number level <? level_number (lg_level l) then []
  else
    let allFields := fold_left (fun all ef => add_fields ef all) extraFields (lg_fields l) in
    let '(traceID, entryFields) := match allFields !! "trace_id" with Some (FStr t) => (t, delete "trace_id" allFields) | _ => (EmptyString, allFields) end in
    [mkLogLine (LogLevel_String level) msg (lg_nodeID l) traceID (lg_component l) entryFields (default EmptyString err)].

Definition Logger_Debug (msg : string) (fs : list fields) (l : Logger) : list LogLine := Logger_log LevelDebug msg None fs l.
Definition Logger_Info (msg : string) (fs : list fields) (l : Logger) : list LogLine := Logger_log LevelInfo msg None fs l.
Definition Logger_Warn (msg : string) (fs : list fields) (l : Logger) : list LogLine := Logger_log LevelWarn msg None fs l.
Definition Logger_Error (msg : string) (err : option string) (fs : list fields) (l : Logger) : list LogLine := Logger_log LevelError msg err fs l.
(** [Fatal] ends the process after its line. *)
Definition Logger_Fatal (msg : string) (err : option string) (fs : list fields) (l : Logger) : list LogLine := Logger_log LevelFatal msg err fs l.

(** ** Loggers of the components *)

Definition Milliseconds (d : Z) : Z := Z.quot d 1000000.
Definition fmt_Z (z : Z) : string := string_of_bytes (fmt_d z).

Section components.
  (** [time.Duration.String]. *)
  Context (fmt_duration : Z -> string).

Definition NewRaftLogger (nodeID : string) : Logger := NewLogger nodeID "raft".

Definition LeaderElected (term duration votesReceived clusterSize : Z) (l : Logger) : list LogLine :=
  Logger_Info "leader elected" [list_to_map [("term", FInt term); ("election_duration_ms", FInt (Milliseconds duration));
    ("votes_received", FInt votesReceived); ("cluster_size", FInt clusterSize)]] l.

Definition LeaderStepDown (term : Z) (reason : string) (l : Logger) : list LogLine :=
  Logger_Warn "leader stepping down" [list_to_map [("term", FInt term); ("reason", FStr reason)]] l.

Definition EntryCommitted (index term commitLatency : Z) (l : Logger) : list LogLine :=
  Logger_Debug "log entry committed" [list_to_map [("index", FInt index); ("term", FInt term); ("commit_latency_ms", FInt (Milliseconds commitLatency))]] l.

Definition SnapshotInstalled (index term size : Z) (l : Logger) : list LogLine :=
  Logger_Info "snapshot installed" [list_to_map [("index", FInt index); ("term", FInt term); ("size_bytes", FInt size)]] l.

Definition lag_level (lag : Z) : LogLevel := if 1000 <? lag then LevelError else if 100 <? lag then LevelWarn else LevelDebug.

Definition ReplicationLag (followerID : string) (lag : Z) (l : Logger) : list LogLine :=
  let fs := [list_to_map [("follower_id", FStr followerID); ("lag_entries", FInt lag)]] in
  match lag_level lag with
  | LevelWarn => Logger_Warn "follower replication lag" fs l
  | LevelError => Logger_Error "critical follower replication lag" (Some ("follower " +:+ followerID +:+ " is " +:+ fmt_Z lag +:+ " entries behind")) fs l
  | _ => Logger_Debug "follower replication lag" fs l
  end.

Definition NewWALLogger (nodeID : string) : Logger := NewLogger nodeID "wal".

Definition WriteComplete (seq bytes duration : Z) (l : Logger) : list LogLine :=
  let fs := [list_to_map [("sequence", FInt seq); ("bytes", FInt bytes); ("duration_ms", FInt (Milliseconds duration))]] in
  if 10 * 1000000 <? duration then Logger_Warn "slow WAL write" fs l else Logger_Debug "WAL write complete" fs l.

Definition FsyncComplete (duration batchSize : Z) (l : Logger) : list LogLine :=
  let fs := [list_to_map [("duration_ms", FInt (Milliseconds duration)); ("batch_size", FInt batchSize)]] in
  if 50 * 1000000 <? duration then Logger_Error "very slow WAL fsync" (Some ("fsync took " +:+ fmt_duration duration +:+ " (> 50ms threshold)")) fs l
  else Logger_Debug "WAL fsync complete" fs l.

Definition SegmentRotated (oldID newID size : Z) (l : Logger) : list LogLine :=
  Logger_Info "WAL segment rotated" [list_to_map [("old_segment_id", FInt oldID); ("new_segment_id", FInt newID); ("old_size_bytes", FInt size)]] l.

Definition NewMembershipLogger (nodeID : string) : Logger := NewLogger nodeID "membership".

Definition NodeJoined (nodeID address : string) (l : Logger) : list LogLine :=
  Logger_Info "node joined cluster" [list_to_map [("joined_node_id", FStr nodeID); ("address", FStr address)]] l.

Definition NodeSuspected (nodeID : string) (phi : float64) (l : Logger) : list LogLine :=
  Logger_Warn "node suspected dead" [list_to_map [("suspected_node", FStr nodeID); ("phi_value", FFloat phi)]] l.

Definition NodeDead (nodeID : string) (suspicionDuration : Z) (l : Logger) : list LogLine :=
  Logger_Error "node confirmed dead" (Some ("node " +:+ nodeID +:+ " is dead after " +:+ fmt_duration suspicionDuration +:+ " suspicion"))
    [list_to_map [("dead_node", FStr nodeID); ("suspicion_duration", FStr (fmt_duration suspicionDuration))]] l.

Definition NodeRevived (nodeID : string) (l : Logger) : list LogLine :=
  Logger_Info "previously dead node revived" [list_to_map [("revived_node", FStr nodeID)]] l.

End components.

(** ** What is written *)

(** The last of the maps that has the field gives its value. *)
Lemma merged_fields k extra base : (fold_left (fun all ef => add_fields ef all) extra base) !! k =
  match last (omap (fun m : fields => m !! k) extra) with Some v => Some v | None => base !! k end.
Proof.
  revert base. induction extra as [|m extra IH]; intros base; [done|]. cbn [fold_left]. rewrite IH. cbn. unfold add_fields.
  destruct (m !! k) as [v|] eqn:E; cbn.
  - rewrite last_cons. destruct (last _); [done|]. by rewrite (lookup_union_Some_l _ _ _ _ E).
  - destruct (last _); [done|]. by rewrite lookup_union_r.
Qed.

(** A line is written exactly when its level is not below the logger's; its
    fields are those of the call over those of the logger, the trace aside. *)
Theorem log_line level msg err extra l :
  (level_number level < level_number (lg_level l) -> Logger_log level msg err extra l = []) /\
  (level_number (lg_level l) <= level_number level -> exists line, Logger_log level msg err extra l = [line] /\ ll_Msg line = msg /\
     forall k, k <> "trace_id" ->
       ll_Fields line !! k = match last (omap (fun m : fields => m !! k) extra) with Some v => Some v | None => lg_fields l !! k end).
Proof.
  unfold Logger_log. split; intros H; [by rewrite (proj2 (Z.ltb_lt _ _) H)|]. rewrite (proj2 (Z.ltb_ge _ _) H).
  set (all := fold_left _ _ _). assert (Hall : forall k, all !! k = match last (omap (fun m : fields => m !! k) extra) with Some v => Some v | None => lg_fields l !! k end).
  { intros k. apply merged_fields. }
  destruct (all !! "trace_id") as [[t|z|f|b|ss]|]; (eexists; split; [done|split; [done|]]); intros k Hk; cbn; rewrite -Hall //.
  by rewrite lookup_delete_ne.
Qed.

(** The trace of a request is on every line of its logger, and not repeated in
    the fields. *)
Theorem trace_on_every_line traceID level msg err l line : Logger_log level msg err [] (WithTraceID traceID l) = [line] ->
  ll_TraceID line = traceID /\ ll_Fields line !! "trace_id" = None.
Proof.
  unfold Logger_log, WithTraceID, WithFields, add_fields. cbn. destruct (_ <? _); [done|].
  rewrite (lookup_union_Some_l _ _ _ (FStr traceID)); [|by rewrite lookup_singleton_eq]. intros [= <-]. cbn. by rewrite lookup_delete_eq.
Qed.

(** Entries are committed below the default level: a Raft logger says nothing of them. *)
Example commits_are_silent : EntryCommitted 5 2 1000000 (NewRaftLogger "n1") = [].
Proof. done. Qed.
