(* ===== verification/Cli.v ===== *)
(** * Cli: the command-line client (cmd/hermes-cli/main.go)

    A command becomes an HTTP request.  The client puts keys into URLs as they
    are, so the parts of net/url and net/http that read a URL back are modelled
    here, on bytes: [ParseQuery] with its unescaping, the fragment that is cut
    off, and the request line that a space breaks.  The server is a function
    from paths and requests to answers; values travel in JSON, which is left
    out.  The interactive loop is in Programs.v. *)

From S2P Require Import Prelude Bytes Server ServerApi.

(** ** net/url *)

Definition ch (c : ascii) : Z := Z_of_byte c.

Definition is_ctl (c : ascii) : bool := (ch c <? 32) || (ch c =? 127).

Definition unhex (c : ascii) : option Z :=
  if (48 <=? ch c) && (ch c <=? 57) then Some (ch c - 48)
  else if (97 <=? ch c) && (ch c <=? 102) then Some (ch c - 97 + 10)
  else if (65 <=? ch c) && (ch c <=? 70) then Some (ch c - 65 + 10)
  else None.

(** [unescape]: a percent sign needs two hexadecimal digits; in a query a plus
    sign is a space. *)
Fixpoint unescape (query : bool) (s : bytes) : option bytes :=
  match s with
  | [] => Some []
  | c :: s =>
      if ch c =? 37 then
        match s with
        | a :: b :: s' =>
            match unhex a, unhex b, unescape query s' with
            | Some x, Some y, Some r => Some (byte_of_Z (16 * x + y) :: r)
            | _, _, _ => None
            end
        | _ => None
        end
      else
        match unescape query s with
        | Some r => Some ((if query && (ch c =? 43) then byte_of_Z 32 else c) :: r)
        | None => None
        end
  end.

(** [strings.Cut] at a byte. *)
Fixpoint cut_at (sep : Z) (s : bytes) : bytes * option bytes :=
  match s with
  | [] => ([], None)
  | c :: s => if ch c =? sep then ([], Some s) else let '(a, b) := cut_at sep s in (c :: a, b)
  end.

Fixpoint split_at (sep : Z) (s : bytes) : list bytes :=
  match s with
  | [] => [[]]
  | c :: s =>
      if ch c =? sep then [] :: split_at sep s
      else match split_at sep s with p :: ps => (c :: p) :: ps | [] => [[c]] end
  end.

(** A piece of a query between ampersands; the first value of a name counts. *)
Definition query_piece (m : gmap string string) (piece : bytes) : gmap string string :=
  if existsb (fun c => ch c =? 59) piece then m
  else match piece with
       | [] => m
       | _ =>
           let '(k, v) := cut_at 61 piece in
           match unescape true k, unescape true (default [] v) with
           | Some k, Some v => match m !! string_of_bytes k with Some _ => m | None => <[string_of_bytes k := string_of_bytes v]> m end
           | _, _ => m
           end
       end.

Definition ParseQuery (query : bytes) : gmap string string := fold_left query_piece (split_at 38 query) ∅.

(** What becomes of a request for a path and a raw query. *)
Inductive sent := SentBadURL | SentMalformed | SentRequest (query : gmap string string).

Definition send_query (raw : bytes) : sent :=
  if existsb is_ctl raw then SentBadURL
  else
    let '(query, fragment) := cut_at 35 raw in
    match fragment with
    | Some f => match unescape false f with
                | None => SentBadURL
                | Some _ => if existsb (fun c => ch c =? 32) query then SentMalformed else SentRequest (ParseQuery query)
                end
    | None => if existsb (fun c => ch c =? 32) query then SentMalformed else SentRequest (ParseQuery query)
    end.

(** ** The commands *)

Inductive cli_error :=
  | ErrUsage (text : string)
  | ErrURL
  | ErrServer (status : Z) (message : string)
  | ErrDecode.

(** An error, or the lines printed. *)
Notation cli_result := (cli_error + list string)%type.

Section commands.
  Context (server : string -> HTTPRequest -> Z * HTTPBody).

Definition readBody (b : HTTPBody) : string := match b with BodyError m => m | _ => EmptyString end.

Definition http_query (method path : string) (raw : bytes) : cli_error + HTTPBody :=
  match send_query raw with
  | SentBadURL => inl ErrURL
  | SentMalformed => inl (ErrServer 400 "400 Bad Request")
  | SentRequest q =>
      let '(status, body) := server path (mkHTTPRequest method q None) in
      if negb (status =? 200) then inl (ErrServer status (readBody body)) else inr body
  end.

Definition doPut (key value : string) : cli_result :=
  let '(status, body) := server "/put" (mkHTTPRequest "POST" ∅ (Some (list_to_map [("key", key); ("value", value)]))) in
  if negb (status =? 200) then inl (ErrServer status (readBody body)) else inr ["OK"].

Definition doGet (key : string) : cli_result :=
  match http_query "GET" "/get" (bytes_of_string ("key=" +:+ key)) with
  | inl err => inl err
  | inr (BodyValue _ value) => inr [string_of_bytes value]
  | inr _ => inl ErrDecode
  end.

Definition doDelete (key : string) : cli_result :=
  match http_query "DELETE" "/delete" (bytes_of_string ("key=" +:+ key)) with
  | inl err => inl err
  | inr _ => inr ["OK"]
  end.

(** [%-11s]: padded to eleven runes; here to eleven bytes, for keys of ASCII text. *)
Definition pad11 (s : string) : string := s +:+ string_of_bytes (replicate (11 - String.length s) (byte_of_Z 32)).

Definition doScan (prefix : string) : cli_result :=
  match http_query "GET" "/scan" (if prefix =?s EmptyString then [] else bytes_of_string ("prefix=" +:+ prefix)) with
  | inl err => inl err
  | inr (BodyItems items) => inr (map (fun kv => pad11 kv.1 +:+ " = " +:+ string_of_bytes kv.2) items)
  | inr _ => inl ErrDecode
  end.

(** The status as the handler fills it; its lines are text for people. *)
Definition doClusterStatus : cli_error + HTTPBody :=
  let '(status, body) := server "/cluster/status" (mkHTTPRequest "GET" ∅ None) in
  if negb (status =? 200) then inl (ErrServer status (readBody body)) else inr body.

Inductive cli_output := OutLines (r : cli_result) | OutStatus (r : cli_error + HTTPBody).

(** [None]: no argument, at which the source panics. *)
Definition runCommand (args : list string) : option cli_output :=
  match args with
  | [] => None
  | cmd :: rest =>
      Some (if cmd =?s "put" then
              match rest with k :: v :: _ => OutLines (doPut k v) | _ => OutLines (inl (ErrUsage "usage: put <key> <value>")) end
            else if cmd =?s "get" then
              match rest with k :: _ => OutLines (doGet k) | _ => OutLines (inl (ErrUsage "usage: get <key>")) end
            else if cmd =?s "delete" then
              match rest with k :: _ => OutLines (doDelete k) | _ => OutLines (inl (ErrUsage "usage: delete <key>")) end
            else if cmd =?s "scan" then
              OutLines (doScan (match rest with
                                | a :: b :: _ => if a =?s "--prefix" then b else a
                                | [a] => a
                                | [] => EmptyString
                                end))
            else if cmd =?s "cluster" then
              match rest with
              | a :: _ => if a =?s "status" then OutStatus doClusterStatus else OutLines (inl (ErrUsage "unknown cluster command. Use 'cluster status'"))
              | [] => OutLines (inl (ErrUsage "unknown cluster command. Use 'cluster status'"))
              end
            else OutLines (inl (ErrUsage ("unknown command: " +:+ cmd))))
  end.

End commands.

(** ** Keys in URLs *)

(** A byte that a query carries as it is. *)
Definition plain (c : ascii) : bool :=
  negb (is_ctl c) && negb (ch c =? 32) && negb (ch c =? 35) && negb (ch c =? 37) && negb (ch c =? 38) && negb (ch c =? 43) && negb (ch c =? 59).

Lemma plain_spec c : plain c = true -> is_ctl c = false /\ ch c <> 32 /\ ch c <> 35 /\ ch c <> 37 /\ ch c <> 38 /\ ch c <> 43 /\ ch c <> 59.
Proof. unfold plain. intros H. bool_hyp. split_and!; done || lia. Qed.

Lemma unescape_plain q s : forallb plain s = true -> unescape q s = Some s.
Proof.
  induction s as [|c s IH]; [done|]. cbn. intros [Hc Hs]%andb_true_iff. apply plain_spec in Hc as (_ & _ & _ & H37 & _ & H43 & _).
  rewrite (proj2 (Z.eqb_neq _ _) H37) (IH Hs) (proj2 (Z.eqb_neq _ _) H43) andb_false_r. done.
Qed.

Lemma cut_plain sep s : forallb (fun c => negb (ch c =? sep)) s = true -> cut_at sep s = (s, None).
Proof. induction s as [|c s IH]; [done|]. cbn. intros [Hc Hs]%andb_true_iff. apply negb_true_iff in Hc. by rewrite Hc (IH Hs). Qed.

Lemma split_plain sep s : forallb (fun c => negb (ch c =? sep)) s = true -> split_at sep s = [s].
Proof. induction s as [|c s IH]; [done|]. cbn. intros [Hc Hs]%andb_true_iff. apply negb_true_iff in Hc. by rewrite Hc (IH Hs). Qed.

Lemma forallb_impl {A} (f g : A -> bool) l : (forall x, f x = true -> g x = true) -> forallb f l = true -> forallb g l = true.
Proof. intros H. rewrite !forallb_forall. eauto. Qed.

Lemma existsb_plain (f : ascii -> bool) s : (forall c, plain c = true -> f c = false) -> forallb plain s = true -> existsb f s = false.
Proof.
  intros H. rewrite forallb_forall. intros Hs. destruct (existsb f s) eqn:E; [|done]. apply existsb_exists in E as (c & Hc & Hf). by rewrite H in Hf; [|apply Hs].
Qed.

(** A query of one name and a plain value is read back as it was written. *)
Theorem query_roundtrip name value : forallb plain (name ++ value) = true -> forallb (fun c => negb (ch c =? 61)) name = true ->
  send_query (name ++ byte_of_Z 61 :: value) = SentRequest {[ string_of_bytes name := string_of_bytes value ]}.
Proof.
  intros Hp Hn. set (raw := name ++ _). assert (Hraw : forallb plain raw = true).
  { unfold raw. rewrite forallb_app in Hp. apply andb_true_iff in Hp as [H1 H2]. rewrite forallb_app H1. cbn. by rewrite H2. }
  assert (Hne : raw <> []) by (unfold raw; by destruct name).
  unfold send_query. rewrite (existsb_plain is_ctl raw); [|intros c Hc; apply plain_spec in Hc; tauto|done].
  rewrite cut_plain; [|eapply forallb_impl; [|exact Hraw]; intros c Hc; apply plain_spec in Hc; apply negb_true_iff, Z.eqb_neq; tauto].
  rewrite (existsb_plain (fun c => ch c =? 32)); [|intros c Hc; apply plain_spec in Hc; apply Z.eqb_neq; tauto|done]. f_equal.
  unfold ParseQuery. rewrite split_plain; [|eapply forallb_impl; [|exact Hraw]; intros c Hc; apply plain_spec in Hc; apply negb_true_iff, Z.eqb_neq; tauto].
  cbn [fold_left]. unfold query_piece. rewrite (existsb_plain (fun c => ch c =? 59)); [|intros c Hc; apply plain_spec in Hc; apply Z.eqb_neq; tauto|done].
  assert (Hm : forall (X : Type) (a b : X), match raw with [] => a | _ => b end = b) by (intros; clear -Hne; by destruct raw). rewrite Hm.
  assert (Hcut : cut_at 61 (name ++ byte_of_Z 61 :: value) = (name, Some value)).
  { clear -Hn. induction name as [|c name IH]; [done|]. cbn in *. apply andb_true_iff in Hn as [Hc Hn]. apply negb_true_iff in Hc. by rewrite Hc (IH Hn). }
  unfold raw. rewrite Hcut. rewrite forallb_app in Hp. apply andb_true_iff in Hp as [H1 H2]. cbn [default]. rewrite !unescape_plain //.
Qed.

(** A client asks for the key it was given, when the key is plain. *)
Theorem get_asks_key server key : forallb plain (bytes_of_string key) = true ->
  http_query server "GET" "/get" (bytes_of_string ("key=" +:+ key)) =
  let '(status, body) := server "/get" (mkHTTPRequest "GET" {[ "key" := key ]} None) in
  if negb (status =? 200) then inl (ErrServer status (readBody body)) else inr body.
Proof.
  intros Hk. unfold http_query. change (bytes_of_string ("key=" +:+ key)) with (bytes_of_string "key" ++ byte_of_Z 61 :: bytes_of_string key).
  rewrite query_roundtrip; [|by rewrite forallb_app Hk|done]. by rewrite !string_of_bytes_of_string.
Qed.

(** A key with a plus sign is put under its name and read under another. *)
Example plus_key_asks_space : send_query (bytes_of_string "key=a+b") = SentRequest {[ "key" := "a b" ]}.
Proof. by vm_compute. Qed.

Example ampersand_key_cut : send_query (bytes_of_string "key=a&b") = SentRequest (list_to_map [("key", "a"); ("b", EmptyString)]).
Proof. by vm_compute. Qed.
