(* ===== verification/FaultInjector.v ===== *)
(** * FaultInjector: the faults that tests inject (pkg/chaos/fault_injector.go)

    The parameters of a fault are a map to values of several types; a type
    assertion that fails gives the zero value.  The queries range over the map
    of faults, in an order that Go does not specify: it is an argument
    ([order]).  A query draws at most once from [rng]: the draw is an argument.
    Descriptions, printed text and the two callbacks are left out. *)

From S2P Require Import Prelude Bytes Float64.

Inductive FaultType :=
  | FaultNetworkPartition | FaultNetworkDelay | FaultNetworkDrop | FaultNodeCrash | FaultNodePause
  | FaultDiskCorruption | FaultDiskFull | FaultDiskSlow | FaultClockSkew | FaultClockJump.

#[global] Instance FaultType_eq_dec : EqDecision FaultType.
Proof. solve_decision. Defined.

Inductive param := PStrings (l : list string) | PString (s : string) | PFloat (f : float64) | PDuration (d : Z).

Record Fault := mkFault {
  fa_ID : string;
  fa_Type : FaultType;
  fa_StartedAt : Z;
  fa_EndsAt : option Z;
  fa_Affects : list string;
  fa_Params : gmap string param;
  fa_Active : bool;
}.

Record FaultStats := mkFaultStats {
  fs_TotalFaultsInjected : Z;
  fs_NetworkDrops : Z;
  fs_NetworkDelays : Z;
  fs_NetworkPartitions : Z;
  fs_NodeCrashes : Z;
  fs_DiskErrors : Z;
  fs_ClockManipulations : Z;
}.

Definition FaultStats_Incr (faultType : FaultType) (s : FaultStats) : FaultStats :=
  let '(mkFaultStats total drops delays partitions crashes disk clock) := s in
  let total := i64 (total + 1) in
  match faultType with
  | FaultNetworkDrop => mkFaultStats total (i64 (drops + 1)) delays partitions crashes disk clock
  | FaultNetworkDelay => mkFaultStats total drops (i64 (delays + 1)) partitions crashes disk clock
  | FaultNetworkPartition => mkFaultStats total drops delays (i64 (partitions + 1)) crashes disk clock
  | FaultNodeCrash => mkFaultStats total drops delays partitions (i64 (crashes + 1)) disk clock
  | FaultDiskCorruption | FaultDiskFull | FaultDiskSlow => mkFaultStats total drops delays partitions crashes (i64 (disk + 1)) clock
  | FaultClockSkew | FaultClockJump => mkFaultStats total drops delays partitions crashes disk (i64 (clock + 1))
  | FaultNodePause => mkFaultStats total drops delays partitions crashes disk clock
  end.

Record FaultInjector := mkFaultInjector {
  fi_faults : gmap string Fault;
  fi_stats : FaultStats;
  fi_active : Z;
}.

Definition NewFaultInjector : FaultInjector := mkFaultInjector ∅ (mkFaultStats 0 0 0 0 0 0 0) 0.

Definition Activate (fi : FaultInjector) : FaultInjector := mkFaultInjector (fi_faults fi) (fi_stats fi) 1.
Definition Deactivate (fi : FaultInjector) : FaultInjector := mkFaultInjector (fi_faults fi) (fi_stats fi) 0.
Definition IsActive (fi : FaultInjector) : bool := fi_active fi =? 1.

Definition InjectFault (now : Z) (fault : Fault) (fi : FaultInjector) : FaultInjector :=
  let fault := mkFault (fa_ID fault) (fa_Type fault) now (fa_EndsAt fault) (fa_Affects fault) (fa_Params fault) true in
  mkFaultInjector (<[fa_ID fault := fault]> (fi_faults fi)) (FaultStats_Incr (fa_Type fault) (fi_stats fi)) (fi_active fi).

Definition ClearFault (faultID : string) (fi : FaultInjector) : FaultInjector :=
  match fi_faults fi !! faultID with
  | None => fi
  | Some _ => mkFaultInjector (delete faultID (fi_faults fi)) (fi_stats fi) (fi_active fi)
  end.

(** [ids] is the order in which the keys are collected. *)
Definition ClearAll (ids : list string) (fi : FaultInjector) : FaultInjector := fold_left (fun fi id => ClearFault id fi) ids fi.

(** [fmt.Sprintf("<kind>-%d", time.Now().UnixNano())] and its variants with the nodes. *)
Definition fault_id (kind : string) (nodes : list string) (now : Z) : string :=
  foldr (fun n acc => n +:+ "-" +:+ acc) (string_of_bytes (fmt_d now)) (kind :: nodes).

Definition zero_fault (id : string) (ty : FaultType) (endsAt : option Z) (affects : list string) (params : list (string * param)) : Fault :=
  mkFault id ty 0 endsAt affects (list_to_map params) false.

Definition PartitionNodes (now : Z) (groupA groupB : list string) (fi : FaultInjector) : string * FaultInjector :=
  let faultID := fault_id "partition" [] now in
  (faultID, InjectFault now (zero_fault faultID FaultNetworkPartition None (groupA ++ groupB) [("groupA", PStrings groupA); ("groupB", PStrings groupB)]) fi).

Definition DropPackets (now : Z) (from to : string) (dropRate : float64) (fi : FaultInjector) : string * FaultInjector :=
  let faultID := fault_id "drop" [from; to] now in
  (faultID, InjectFault now (zero_fault faultID FaultNetworkDrop None [from; to]
     [("from", PString from); ("to", PString to); ("drop_rate", PFloat dropRate)]) fi).

Definition AddLatency (now : Z) (from to : string) (minDelay maxDelay : Z) (fi : FaultInjector) : string * FaultInjector :=
  let faultID := fault_id "latency" [from; to] now in
  (faultID, InjectFault now (zero_fault faultID FaultNetworkDelay None [from; to]
     [("from", PString from); ("to", PString to); ("min_delay", PDuration minDelay); ("max_delay", PDuration maxDelay)]) fi).

Definition CrashNode (now : Z) (nodeID : string) (fi : FaultInjector) : string * FaultInjector :=
  let faultID := fault_id "crash" [nodeID] now in
  (faultID, InjectFault now (zero_fault faultID FaultNodeCrash None [nodeID] [("node_id", PString nodeID)]) fi).

(** The goroutine that clears the fault after [duration] is a later [ClearFault]. *)
Definition PauseNode (now : Z) (nodeID : string) (duration : Z) (fi : FaultInjector) : string * FaultInjector :=
  let faultID := fault_id "pause" [nodeID] now in
  (faultID, InjectFault now (zero_fault faultID FaultNodePause (Some (now + duration)) [nodeID]
     [("node_id", PString nodeID); ("duration", PDuration duration)]) fi).

Definition SkewClock (now : Z) (nodeID : string) (skew : Z) (fi : FaultInjector) : string * FaultInjector :=
  let faultID := fault_id "skew" [nodeID] now in
  (faultID, InjectFault now (zero_fault faultID FaultClockSkew None [nodeID] [("node_id", PString nodeID); ("skew", PDuration skew)]) fi).

Definition CorruptDisk (now : Z) (nodeID : string) (corruptRate : float64) (fi : FaultInjector) : string * FaultInjector :=
  let faultID := fault_id "corrupt" [nodeID] now in
  (faultID, InjectFault now (zero_fault faultID FaultDiskCorruption None [nodeID] [("node_id", PString nodeID); ("corrupt_rate", PFloat corruptRate)]) fi).

Definition SlowDisk (now : Z) (nodeID : string) (delay : Z) (fi : FaultInjector) : string * FaultInjector :=
  let faultID := fault_id "slowdisk" [nodeID] now in
  (faultID, InjectFault now (zero_fault faultID FaultDiskSlow None [nodeID] [("node_id", PString nodeID); ("delay", PDuration delay)]) fi).

(** ** Queries *)

Definition as_strings (p : option param) : option (list string) := match p with Some (PStrings l) => Some l | _ => None end.
Definition as_string (p : option param) : string := match p with Some (PString s) => s | _ => EmptyString end.
Definition as_float (p : option param) : float64 := match p with Some (PFloat f) => f | _ => fzero end.
Definition as_duration (p : option param) : Z := match p with Some (PDuration d) => d | _ => 0 end.

Fixpoint contains (slice : list string) (item : string) : bool :=
  match slice with [] => false | s :: slice => if s =?s item then true else contains slice item end.

(** A loop over the faults that ends at the first that gives a result. *)
Fixpoint range_faults {A} (order : list string) (body : Fault -> option A) (fi : FaultInjector) : option A :=
  match order with
  | [] => None
  | id :: order =>
      match fi_faults fi !! id ≫= body with
      | Some r => Some r
      | None => range_faults order body fi
      end
  end.

Definition drop_body (from to : string) (draw : float64) (fault : Fault) : option bool :=
  if negb (fa_Active fault) then None else
  match fa_Type fault with
  | FaultNetworkPartition =>
      match as_strings (fa_Params fault !! "groupA"), as_strings (fa_Params fault !! "groupB") with
      | Some groupA, Some groupB =>
          if (contains groupA from && contains groupB to) || (contains groupB from && contains groupA to) then Some true else None
      | _, _ => None
      end
  | FaultNetworkDrop =>
      if (as_string (fa_Params fault !! "from") =?s from) && (as_string (fa_Params fault !! "to") =?s to) then
        Some (fltb draw (as_float (fa_Params fault !! "drop_rate")))
      else None
  | _ => None
  end.

Definition ShouldDrop (order : list string) (draw : float64) (from to : string) (fi : FaultInjector) : bool :=
  if negb (IsActive fi) then false else default false (range_faults order (drop_body from to draw) fi).

(** [draw n] is [rng.Int63n(n)]; [n] is positive. *)
Definition delay_body (from to : string) (draw : Z -> Z) (fault : Fault) : option Z :=
  if negb (fa_Active fault) || negb (bool_decide (fa_Type fault = FaultNetworkDelay)) then None
  else if (as_string (fa_Params fault !! "from") =?s from) && (as_string (fa_Params fault !! "to") =?s to) then
    let minDelay := as_duration (fa_Params fault !! "min_delay") in
    let maxDelay := as_duration (fa_Params fault !! "max_delay") in
    if minDelay <? maxDelay then Some (i64 (minDelay + draw (i64 (maxDelay - minDelay)))) else Some minDelay
  else None.

Definition GetDelay (order : list string) (draw : Z -> Z) (from to : string) (fi : FaultInjector) : Z :=
  if negb (IsActive fi) then 0 else default 0 (range_faults order (delay_body from to draw) fi).

(** The faults of a type that name a node. *)
Definition node_body {A} (ty : FaultType) (nodeID : string) (result : Fault -> A) (fault : Fault) : option A :=
  if negb (fa_Active fault) || negb (bool_decide (fa_Type fault = ty)) then None
  else if as_string (fa_Params fault !! "node_id") =?s nodeID then Some (result fault) else None.

Definition IsCrashed (order : list string) (nodeID : string) (fi : FaultInjector) : bool :=
  if negb (IsActive fi) then false else default false (range_faults order (node_body FaultNodeCrash nodeID (fun _ => true)) fi).

Definition IsPaused (order : list string) (now : Z) (nodeID : string) (fi : FaultInjector) : bool :=
  if negb (IsActive fi) then false
  else default false (range_faults order (node_body FaultNodePause nodeID
         (fun fault => match fa_EndsAt fault with Some t => negb (t <? now) | None => true end)) fi).

Definition GetClockSkew (order : list string) (nodeID : string) (fi : FaultInjector) : Z :=
  if negb (IsActive fi) then 0
  else default 0 (range_faults order (node_body FaultClockSkew nodeID (fun fault => as_duration (fa_Params fault !! "skew"))) fi).

Definition ShouldCorrupt (order : list string) (draw : float64) (nodeID : string) (fi : FaultInjector) : bool :=
  if negb (IsActive fi) then false
  else default false (range_faults order (node_body FaultDiskCorruption nodeID (fun fault => fltb draw (as_float (fa_Params fault !! "corrupt_rate")))) fi).

Definition ActiveFaults (order : list string) (fi : FaultInjector) : list Fault :=
  List.filter fa_Active (omap (fun id => fi_faults fi !! id) order).

(** ** What a query answers *)

(** The keys of the map, in the order in which they are visited. *)
Definition visits (order : list string) (fi : FaultInjector) : Prop := forall id, id ∈ order <-> is_Some (fi_faults fi !! id).

Lemma contains_iff l x : contains l x = true <-> x ∈ l.
Proof.
  induction l as [|y l IH]; cbn; [by rewrite elem_of_nil|]. rewrite elem_of_cons. destruct (String.eqb_spec y x); [naive_solver|]. rewrite IH. naive_solver.
Qed.

(** When all faults that answer give the same answer, the order does not matter. *)
Lemma range_faults_some {A} order (body : Fault -> option A) fi r :
  visits order fi -> (exists id f, fi_faults fi !! id = Some f /\ is_Some (body f)) ->
  (forall id f x, fi_faults fi !! id = Some f -> body f = Some x -> x = r) -> range_faults order body fi = Some r.
Proof.
  intros Hv (id & f & Hf & Hb) Hall. assert (Hin : id ∈ order) by by apply Hv. clear Hv.
  induction order as [|i order IH]; [by apply elem_of_nil in Hin|]. cbn. destruct (fi_faults fi !! i) as [g|] eqn:Hg; cbn.
  - destruct (body g) as [x|] eqn:Hx; [by rewrite (Hall _ _ _ Hg Hx)|]. apply IH. apply elem_of_cons in Hin as [->|]; [|done].
    destruct Hb as [? Hb]. congruence.
  - apply IH. apply elem_of_cons in Hin as [->|]; [congruence|done].
Qed.

Lemma range_faults_none {A} order (body : Fault -> option A) fi : (forall id f, fi_faults fi !! id = Some f -> body f = None) -> range_faults order body fi = None.
Proof. intros H. induction order as [|i order IH]; [done|]. cbn. destruct (fi_faults fi !! i) eqn:E; cbn; [by rewrite (H _ _ E)|done]. Qed.


Definition crashes (n : string) (f : Fault) : Prop :=
  fa_Active f = true /\ fa_Type f = FaultNodeCrash /\ as_string (fa_Params f !! "node_id") = n.

(** A node is crashed when an active fault says so, in whatever order the
    faults are visited. *)
Theorem IsCrashed_exact order n fi : IsActive fi = true -> visits order fi ->
  IsCrashed order n fi = true <-> exists id f, fi_faults fi !! id = Some f /\ crashes n f.
Proof.
  intros Ha Hv. unfold IsCrashed. rewrite Ha. cbn [negb]. set (body := node_body _ _ _).
  assert (Hb : forall f, body f = Some true \/ body f = None) by (intros f; unfold body, node_body; destruct (_ || _); [by right|]; destruct (_ =?s _); auto).
  assert (Hc : forall f, is_Some (body f) <-> crashes n f).
  { intros f. unfold body, node_body, crashes. destruct (fa_Active f); cbn; [|split; [intros [? [=]]|intros [[=] _]]].
    case_bool_decide; cbn; [|split; [intros [? [=]]|naive_solver]].
    destruct (String.eqb_spec (as_string (fa_Params f !! "node_id")) n); split; [done|by eexists|intros [? [=]]|naive_solver]. }
  split.
  - intros H. destruct (range_faults order body fi) as [b|] eqn:E; [|done]. clear Hv. induction order as [|i order IH]; [done|]. cbn in E.
    destruct (fi_faults fi !! i) as [f|] eqn:Ef; cbn in E; [|by apply IH]. destruct (body f) as [x|] eqn:Ex; [|by apply IH].
    exists i, f. split; [done|]. by apply Hc.
  - intros (id & f & Hf & Hcr). rewrite (range_faults_some order body fi true) //; [exists id, f; by rewrite Hc|].
    intros i g x _ Hx. destruct (Hb g); congruence.
Qed.

Lemma ClearFault_lookup id fi x : fi_faults (ClearFault id fi) !! x = if decide (x = id) then None else fi_faults fi !! x.
Proof.
  unfold ClearFault. destruct (fi_faults fi !! id) eqn:E; cbn.
  - case_decide; [subst; by rewrite lookup_delete_eq|by rewrite lookup_delete_ne].
  - case_decide; [by subst|done].
Qed.

Lemma ClearAll_lookup ids : forall fi x, fi_faults (ClearAll ids fi) !! x = if decide (x ∈ ids) then None else fi_faults fi !! x.
Proof.
  induction ids as [|id ids IH]; intros fi x; [done|]. change (ClearAll (id :: ids) fi) with (ClearAll ids (ClearFault id fi)).
  rewrite IH ClearFault_lookup. destruct (decide (x ∈ ids)), (decide (x = id)), (decide (x ∈ id :: ids)); set_solver.
Qed.

(** [ClearAll] leaves no fault. *)
Theorem ClearAll_clears ids fi : visits ids fi -> fi_faults (ClearAll ids fi) = ∅.
Proof.
  intros Hv. apply map_eq. intros x. rewrite ClearAll_lookup lookup_empty. case_decide as Hx; [done|].
  destruct (fi_faults fi !! x) eqn:E; [|done]. destruct Hx. by apply Hv.
Qed.

(** No rule drops packets from [from] to [to] with a rate. *)
Definition no_drop_rule (from to : string) (fi : FaultInjector) : Prop :=
  forall id f, fi_faults fi !! id = Some f -> fa_Type f = FaultNetworkDrop ->
    ~ (as_string (fa_Params f !! "from") = from /\ as_string (fa_Params f !! "to") = to).

(** A partition cuts the links between its groups, both ways and in whatever
    order the faults are visited, when no drop rule is set for the link. *)
Theorem partition_cuts now groupA groupB fi order draw a b :
  IsActive fi = true -> a ∈ groupA -> b ∈ groupB ->
  let fi' := (PartitionNodes now groupA groupB fi).2 in
  visits order fi' -> no_drop_rule a b fi -> no_drop_rule b a fi -> ShouldDrop order draw a b fi' = true /\ ShouldDrop order draw b a fi' = true.
Proof.
  intros Ha HA HB fi' Hv Hab Hba.
  assert (K : forall x y, no_drop_rule x y fi -> x ∈ groupA /\ y ∈ groupB \/ x ∈ groupB /\ y ∈ groupA -> ShouldDrop order draw x y fi' = true).
  { intros x y Hnd Hxy. unfold ShouldDrop. change (IsActive fi') with (IsActive fi). rewrite Ha. cbn [negb].
    rewrite (range_faults_some order (drop_body x y draw) fi' true) //.
    - eexists _, _. split; [apply lookup_insert_eq|]. cbn. rewrite -!contains_iff in Hxy. eexists. unfold drop_body. cbn [fa_Active fa_Type fa_Params zero_fault negb list_to_map foldr curry uncurry fst snd].
      rewrite lookup_insert_eq lookup_insert_ne // lookup_insert_eq. cbn [as_strings].
      destruct Hxy as [[-> ->]|[-> ->]]; cbn; [done|]. by rewrite orb_true_r.
    - intros i f r Hf. unfold drop_body. destruct (fa_Active f); cbn; [|done]. destruct (fa_Type f) eqn:Et; try done.
      + destruct (as_strings (fa_Params f !! "groupA")), (as_strings (fa_Params f !! "groupB")); try done. by destruct (_ || _); intros; simplify_eq.
      + destruct (_ && _) eqn:Em; [|done]. apply andb_true_iff in Em as [?%String.eqb_eq ?%String.eqb_eq]. exfalso. cbn in Hf.
        apply lookup_insert_Some in Hf as [[_ <-]|[_ Hf]]; [done|]. by eapply Hnd. }
  split; apply K; auto.
Qed.

(** A drop rule of rate 0 on the link lets packets through a partition, or
    not, depending on the order in which the map is visited. *)
Definition two_faults : FaultInjector :=
  (DropPackets 2 "n1" "n2" fzero (PartitionNodes 1 ["n1"] ["n2"] (Activate NewFaultInjector)).2).2.

Example partition_depends_on_order :
  ShouldDrop ["partition-1"; "drop-n1-n2-2"] fzero "n1" "n2" two_faults = true /\
  ShouldDrop ["drop-n1-n2-2"; "partition-1"] fzero "n1" "n2" two_faults = false.
Proof. split; by vm_compute. Qed.
