(* ===== verification/MemCluster.v ===== *)
(** * MemCluster: Raft nodes over an in-memory network (pkg/raft/demo.go)

    [MemTransport] starts a goroutine for every message, which looks up the
    partitions and then puts the message into the channel of its receiver;
    [SimpleKV] is a state machine of key=value commands.  A state of the
    cluster holds the goroutines before and after they have looked at the
    partitions, and the channels of the nodes.  The cluster refines
    [RaftSystem]; the scenarios are in DemoRaft.v. *)

From S2P Require Import Prelude Bytes RaftLog Raft RaftSpec RaftSafety RaftNode RaftSystem RaftFailover.

(** ** The transport *)

(** [nodes] holds the names of the registered nodes. *)
Record MemTransport := mkMemTransport {
  mt_nodes : gset string;
  mt_dropped : gmap string (gmap string bool);
  mt_delayed : gmap string (gmap string Z);
}.

Definition NewMemTransport : MemTransport := mkMemTransport ∅ ∅ ∅.

Definition mem_Register (i : string) (t : MemTransport) : MemTransport :=
  mkMemTransport ({[i]} ∪ mt_nodes t) (mt_dropped t) (mt_delayed t).

(** Reading a key that a map of maps does not have gives the zero value. *)
Definition lookup2 {A} (d : A) (a b : string) (m : gmap string (gmap string A)) : A :=
  default d (m !! a ≫= (fun row => row !! b)).

(** What [deliver] reads under the lock: [None] when the goroutine ends
    without a [Step], else how long it sleeps before. *)
Definition mem_deliver (t : MemTransport) (msg : Message) : option Z :=
  let dropped := lookup2 false (m_From msg) (m_To msg) (mt_dropped t) in
  let delay := lookup2 0 (m_From msg) (m_To msg) (mt_delayed t) in
  if dropped then None
  else if bool_decide (m_To msg ∈ mt_nodes t) then Some (if 0 <? delay then delay else 0) else None.

(** A goroutine is started for every message. *)
Definition mem_Send (msgs sending : list Message) : list Message := sending ++ msgs.
Arguments mem_Send _ _ /.

Definition mem_Partition (from to : string) (t : MemTransport) : MemTransport :=
  mkMemTransport (mt_nodes t) (<[from := <[to := true]> (default ∅ (mt_dropped t !! from))]> (mt_dropped t)) (mt_delayed t).

Definition mem_Heal (from to : string) (t : MemTransport) : MemTransport :=
  match mt_dropped t !! from with
  | Some row => mkMemTransport (mt_nodes t) (<[from := delete to row]> (mt_dropped t)) (mt_delayed t)
  | None => t
  end.

(** ** The state machine *)

Record SimpleKV := mkSimpleKV { kv_store : gmap string string; kv_nodeID : string }.

Definition NewSimpleKV (nodeID : string) : SimpleKV := mkSimpleKV ∅ nodeID.

(** The place of the first equals sign.  The source ranges over runes; the
    byte of an equals sign occurs in no other rune, so it ranges over bytes
    here. *)
Fixpoint split_equals (cmd : bytes) : option (bytes * bytes) :=
  match cmd with
  | [] => None
  | c :: cmd =>
      if decide (c = "="%char) then Some ([], cmd)
      else match split_equals cmd with Some (key, value) => Some (c :: key, value) | None => None end
  end.

Definition SimpleKV_Apply (entry : LogEntry) (kv : SimpleKV) : SimpleKV :=
  if bool_decide (le_Type entry = EntryNoop) || (zlen (le_Data entry) =? 0) then kv
  else match split_equals (le_Data entry) with
       | Some (key, value) => mkSimpleKV (<[string_of_bytes key := string_of_bytes value]> (kv_store kv)) (kv_nodeID kv)
       | None => kv
       end.

Definition SimpleKV_Get (key : string) (kv : SimpleKV) : string * bool :=
  match kv_store kv !! key with Some v => (v, true) | None => (EmptyString, false) end.

(** [order] is the order in which the map is iterated. *)
Definition SimpleKV_Snapshot (order : list (string * string)) : bytes :=
  foldl (fun result p => result ++ bytes_of_string p.1 ++ ["="%char] ++ bytes_of_string p.2 ++ [ascii_of_nat 10]) [] order.

Definition SimpleKV_Restore (data : bytes) (kv : SimpleKV) : SimpleKV := kv.

Definition SimpleKV_call (kv : SimpleKV) (c : sm_call) : SimpleKV :=
  match c with CallApply entry => SimpleKV_Apply entry kv | CallRestore data => SimpleKV_Restore data kv end.

(** ** The cluster *)

Record DemoCluster := mkDemo {
  dc_nodes : gmap string RaftNode;
  dc_kvStores : gmap string SimpleKV;
  dc_transport : MemTransport;
  dc_sending : list Message;
  dc_sleeping : list Message;
  dc_stepCh : gmap string (list Message);
  dc_proposeCh : gmap string (list bytes);
  dc_stopped : gset string;
}.

Definition demo_config (nodeIDs : list string) (i : string) : Config :=
  DefaultConfig i (filter (fun other => other <> i) nodeIDs).

Section cluster.
  Context `{R : Rand} (nodeIDs : list string).

(** One round of the loop that creates the nodes. *)
Definition add_demo_node (i : string) (c : DemoCluster) : option DemoCluster :=
  node ← NewRaftNode (demo_config nodeIDs i) true;
  Some (mkDemo (<[i := node]> (dc_nodes c)) (<[i := NewSimpleKV i]> (dc_kvStores c)) (mem_Register i (dc_transport c))
    (dc_sending c) (dc_sleeping c) (<[i := []]> (dc_stepCh c)) (<[i := []]> (dc_proposeCh c)) (dc_stopped c)).

Definition NewDemoCluster : option DemoCluster :=
  for_each add_demo_node nodeIDs (mkDemo ∅ ∅ NewMemTransport [] [] ∅ ∅ ∅).

(** The calls a node has made on its state machine. *)
Definition calls_of (node : RaftNode) : list sm_call := default [] (n_storage node).

(** A round of the loop of node [i]: its new calls are made on its store, and
    a goroutine is started for each message it sends. *)
Definition node_round (i : string) (ev : event) (c : DemoCluster) : option DemoCluster :=
  node ← dc_nodes c !! i;
  kv ← dc_kvStores c !! i;
  '(_, node', out) ← run_round ev node;
  Some (mkDemo (<[i := node']> (dc_nodes c))
    (<[i := foldl SimpleKV_call kv (drop (length (calls_of node)) (calls_of node'))]> (dc_kvStores c))
    (dc_transport c) (mem_Send out (dc_sending c)) (dc_sleeping c) (dc_stepCh c) (dc_proposeCh c) (dc_stopped c)).

Definition IsLeader (node : RaftNode) : bool := bool_decide (state (n_raft node) = Leader).

(** [order] is the order in which the map of nodes is iterated. *)
Definition Cluster_Leader (order : list string) (c : DemoCluster) : option string :=
  List.find (fun i => match dc_nodes c !! i with Some node => IsLeader node | None => false end) order.

Definition LeaderID (order : list string) (c : DemoCluster) : string :=
  match Cluster_Leader order c with Some i => i | None => EmptyString end.

(** Ticks and messages handled by a node, the two halves of a proposal, the
    steps of the goroutine at place [k], and what the test does.  A goroutine
    gives up when a second has passed or its receiver has stopped. *)
Inductive demo_action :=
  | DTick (i : string)
  | DPropose (i : string) (data : bytes)
  | DTakePropose (i : string)
  | DTakeStep (i : string)
  | DDeliver (k : nat)
  | DPut (k : nat)
  | DGiveUp (k : nat)
  | DPartition (a b : string)
  | DHeal (a b : string)
  | DStop (i : string).

(** [None] is the error of a cluster without a leader. *)
Definition Cluster_Propose (order : list string) (data : string) (c : DemoCluster) : option demo_action :=
  leader ← Cluster_Leader order c;
  Some (DPropose leader (bytes_of_string data)).

(** The node [i] can handle an event with [n] entries: its loop has not
    stopped, and its counters have room. *)
Definition can_run (i : string) (n : Z) (c : DemoCluster) : bool :=
  bool_decide (i ∉ dc_stopped c) && match dc_nodes c !! i with Some node => roomb n (n_raft node) | None => false end.

(** The channels hold 256 places. *)
Definition demo_enabled (a : demo_action) (c : DemoCluster) : bool :=
  match a with
  | DTick i => can_run i 0 c
  | DPropose i _ => match dc_proposeCh c !! i with Some q => zlen q <? 256 | None => false end
  | DTakePropose i => match dc_proposeCh c !! i with Some (_ :: _) => can_run i 1 c | _ => false end
  | DTakeStep i => match dc_stepCh c !! i with Some (m :: _) => can_run i (zlen (m_Entries m)) c | _ => false end
  | DDeliver k => bool_decide (k < length (dc_sending c))%nat
  | DPut k => match dc_sleeping c !! k with
              | Some m => match dc_stepCh c !! m_To m with Some q => zlen q <? 256 | None => false end
              | None => false
              end
  | DGiveUp k => bool_decide (k < length (dc_sleeping c))%nat
  | DPartition _ _ | DHeal _ _ | DStop _ => true
  end.

Definition set_transport (t : MemTransport) (c : DemoCluster) : DemoCluster :=
  mkDemo (dc_nodes c) (dc_kvStores c) t (dc_sending c) (dc_sleeping c) (dc_stepCh c) (dc_proposeCh c) (dc_stopped c).
Definition set_goroutines (sending sleeping : list Message) (c : DemoCluster) : DemoCluster :=
  mkDemo (dc_nodes c) (dc_kvStores c) (dc_transport c) sending sleeping (dc_stepCh c) (dc_proposeCh c) (dc_stopped c).
Definition set_stepCh (i : string) (q : list Message) (c : DemoCluster) : DemoCluster :=
  mkDemo (dc_nodes c) (dc_kvStores c) (dc_transport c) (dc_sending c) (dc_sleeping c) (<[i := q]> (dc_stepCh c)) (dc_proposeCh c) (dc_stopped c).
Definition set_proposeCh (i : string) (q : list bytes) (c : DemoCluster) : DemoCluster :=
  mkDemo (dc_nodes c) (dc_kvStores c) (dc_transport c) (dc_sending c) (dc_sleeping c) (dc_stepCh c) (<[i := q]> (dc_proposeCh c)) (dc_stopped c).

Definition dstep (a : demo_action) (c : DemoCluster) : option DemoCluster :=
  match a with
  | DTick i => node_round i EvTick c
  | DPropose i data => q ← dc_proposeCh c !! i; Some (set_proposeCh i (q ++ [data]) c)
  | DTakePropose i =>
      match dc_proposeCh c !! i with
      | Some (data :: q) => node_round i (Propose data) (set_proposeCh i q c)
      | _ => None
      end
  | DTakeStep i =>
      match dc_stepCh c !! i with
      | Some (m :: q) => node_round i (EvStep m) (set_stepCh i q c)
      | _ => None
      end
  | DDeliver k =>
      m ← dc_sending c !! k;
      let sleeping := match mem_deliver (dc_transport c) m with Some _ => dc_sleeping c ++ [m] | None => dc_sleeping c end in
      Some (set_goroutines (delete k (dc_sending c)) sleeping c)
  | DPut k =>
      m ← dc_sleeping c !! k;
      q ← dc_stepCh c !! m_To m;
      Some (set_stepCh (m_To m) (q ++ [m]) (set_goroutines (dc_sending c) (delete k (dc_sleeping c)) c))
  | DGiveUp k => Some (set_goroutines (dc_sending c) (delete k (dc_sleeping c)) c)
  | DPartition a b => Some (set_transport (mem_Partition a b (dc_transport c)) c)
  | DHeal a b => Some (set_transport (mem_Heal a b (dc_transport c)) c)
  | DStop i =>
      Some (mkDemo (dc_nodes c) (dc_kvStores c) (dc_transport c) (dc_sending c) (dc_sleeping c) (dc_stepCh c) (dc_proposeCh c) ({[i]} ∪ dc_stopped c))
  end.

Inductive demo_steps : DemoCluster -> DemoCluster -> Prop :=
  | demo_refl c : demo_steps c c
  | demo_next c a c1 c2 : demo_steps c c1 -> demo_enabled a c1 = true -> dstep a c1 = Some c2 -> demo_steps c c2.

Definition demo_reach (c : DemoCluster) : Prop := exists c0, NewDemoCluster = Some c0 /\ demo_steps c0 c.
End cluster.

(** ** The stores *)

(** The assignment an entry makes. *)
Definition assignment (entry : LogEntry) : option (string * string) :=
  if bool_decide (le_Type entry = EntryNoop) || (zlen (le_Data entry) =? 0) then None
  else '(key, value) ← split_equals (le_Data entry); Some (string_of_bytes key, string_of_bytes value).

(** The value that the last assignment to [key] among the entries gives it. *)
Definition assigned (key : string) (es : list LogEntry) : option string :=
  last (omap (fun e => '(k, v) ← assignment e; if decide (k = key) then Some v else None) es).

Lemma kv_Apply_assignment e kv :
  SimpleKV_Apply e kv = match assignment e with Some (k, v) => mkSimpleKV (<[k := v]> (kv_store kv)) (kv_nodeID kv) | None => kv end.
Proof. unfold SimpleKV_Apply, assignment. destruct (_ || _); [done|]. by destruct (split_equals _) as [[k v]|]. Qed.

Lemma assigned_snoc key es e : assigned key (es ++ [e]) =
  match assignment e with Some (k, v) => if decide (k = key) then Some v else assigned key es | None => assigned key es end.
Proof.
  unfold assigned. rewrite omap_app /=. destruct (assignment e) as [[k v]|]; cbn; [|by rewrite app_nil_r].
  case_decide; [by rewrite last_snoc|by rewrite app_nil_r].
Qed.

(** A store after the calls for the entries [es] holds their last
    assignments. *)
Lemma kv_calls_lookup i es key : kv_store (foldl SimpleKV_call (NewSimpleKV i) (apply_calls es)) !! key = assigned key es.
Proof.
  induction es as [|e es IH] using rev_ind; [apply lookup_empty|].
  unfold apply_calls. rewrite filter_app fmap_app foldl_app assigned_snoc. fold (apply_calls es). rewrite filter_cons filter_nil.
  destruct (decide (le_Type e = EntryNoop)) as [E|E].
  - rewrite decide_False; [|by intros ?]. cbn. unfold assignment. by rewrite bool_decide_true.
  - rewrite decide_True //. cbn. rewrite kv_Apply_assignment. destruct (assignment e) as [[k v]|]; [|done]. cbn.
    rewrite lookup_insert IH. done.
Qed.

(** A command written as key=value assigns the value, when the key has no
    equals sign. *)
Lemma split_equals_app key value : "="%char ∉ key -> split_equals (key ++ "="%char :: value) = Some (key, value).
Proof.
  induction key as [|c key IH]; intros Hk; [done|]. cbn. apply not_elem_of_cons in Hk as [Hc Hk]. rewrite decide_False //. by rewrite IH.
Qed.

(** ** A round only adds calls *)

Section rounds.
  Context `{R : Rand}.

(** The calls of [n'] continue those of [n]. *)
Definition calls_extend (n n' : RaftNode) : Prop := exists new, n_storage n' = (calls ← n_storage n; Some (calls ++ new)).

Lemma calls_extend_refl n n' : n_storage n' = n_storage n -> calls_extend n n'.
Proof. intros E. exists []. rewrite E. destruct (n_storage n); cbn; by rewrite ?app_nil_r. Qed.

Lemma calls_extend_trans n1 n2 n3 : calls_extend n1 n2 -> calls_extend n2 n3 -> calls_extend n1 n3.
Proof.
  intros [a Ha] [b Hb]. exists (a ++ b). rewrite Hb Ha. destruct (n_storage n1); cbn; by rewrite ?app_assoc.
Qed.

Lemma processReady_calls rd n n' out : processReady rd n = Some (n', out) -> calls_extend n n'.
Proof.
  unfold processReady. set (n1 := match rd_Entries rd with [] => n | es => persistEntries es n end).
  set (n2 := match rd_HardState rd with None => n1 | Some hs => persistHardState hs n1 end).
  set (n3 := match rd_Snapshot rd with None => n2 | Some s => saveSnapshot s n2 end).
  intros (n4 & H4 & [= <- <-])%bind_Some. apply calls_extend_trans with n2.
  { apply calls_extend_refl. unfold n2, n1. by destruct (rd_HardState rd), (rd_Entries rd). }
  apply calls_extend_trans with n3. { unfold n3. destruct (rd_Snapshot rd); [by eexists|by apply calls_extend_refl]. }
  destruct (rd_CommittedEntries rd) as [|e es]; [injection H4 as <-; by apply calls_extend_refl|]. apply bind_Some in H4 as (l & _ & [= <-]).
  destruct (apply_all_fields (e :: es) n3) as (_ & _ & _ & Hs). eexists. exact Hs.
Qed.

Lemma ready_phase_calls n n' out : ready_phase n = Some (n', out) -> calls_extend n n'.
Proof.
  unfold ready_phase. intros ([rd r] & _ & H)%bind_Some. destruct (Ready_IsEmpty rd); [injection H as <- <-; by apply calls_extend_refl|].
  apply bind_Some in H as ([n1 o] & H1%processReady_calls & [= <- <-]). eapply calls_extend_trans; [|eapply calls_extend_trans; [exact H1|]].
  - by apply calls_extend_refl.
  - apply calls_extend_refl. unfold notify_leader. by destruct (_ =?s _).
Qed.

Lemma run_round_calls ev n err n' out : run_round ev n = Some (err, n', out) -> calls_extend n n'.
Proof.
  unfold run_round. intros ([[e n1] o1] & H1 & H)%bind_Some. apply bind_Some in H as ([n2 o2] & H2%ready_phase_calls & [= <- <- <-]).
  eapply calls_extend_trans; [|exact H2]. destruct ev as [|es|m]; cbn in H1.
  - apply bind_Some in H1 as (r & _ & [= <- <- <-]). by apply calls_extend_refl.
  - apply bind_Some in H1 as ([er r] & _ & H1). destruct er; [injection H1 as <- <- <-; by apply calls_extend_refl|].
    apply bind_Some in H1 as ([n3 o3] & H3%ready_phase_calls & [= <- <- <-]). exact H3.
  - apply bind_Some in H1 as ([er r] & _ & [= <- <- <-]). by apply calls_extend_refl.
Qed.
End rounds.

(** ** The cluster refines the system of [RaftSystem] *)

Lemma demo_config_ok nodeIDs : NoDup nodeIDs -> EmptyString ∉ nodeIDs -> cluster_ok nodeIDs (demo_config nodeIDs).
Proof. intros Hnd Hne. by split. Qed.

(** The nodes are those of [s], every message on its way was sent in [s], and
    each store is what the calls of its node make of an empty one. *)
Record demo_rel (c : DemoCluster) (s : sys) : Prop := {
  dr_nodes : s_nodes s = dc_nodes c;
  dr_flight m : m ∈ dc_sending c ++ dc_sleeping c -> m ∈ s_net s;
  dr_chan i q m : dc_stepCh c !! i = Some q -> m ∈ q -> m ∈ s_net s /\ m_To m = i;
  dr_store i node : dc_nodes c !! i = Some node ->
    exists calls, n_storage node = Some calls /\ dc_kvStores c !! i = Some (foldl SimpleKV_call (NewSimpleKV i) calls);
}.

Section refinement.
  Context `{R : Rand} (nodeIDs : list string) (Hnd : NoDup nodeIDs) (Hne : EmptyString ∉ nodeIDs).
  Notation conf := (demo_config nodeIDs).

Lemma add_demo_node_rel i c s : demo_rel c s -> i ∈ nodeIDs -> exists c' s', add_demo_node nodeIDs i c = Some c' /\ add_node conf i s = Some s' /\ demo_rel c' s'.
Proof.
  intros [Hn Hf Hc Hs] Hi. unfold add_demo_node, add_node.
  destruct (NewRaftNode_ok (conf i) true (conf_ok _ _ (demo_config_ok _ Hnd Hne) i Hi)) as (node & Hnode & _).
  rewrite Hnode. cbn. eexists _, _. split; [done|]. split; [done|]. split; cbn; [by rewrite Hn|exact Hf| |].
  - intros j q m. rewrite lookup_insert. case_decide; [|apply Hc]. by intros [= <-] ?%elem_of_nil.
  - intros j nj. rewrite !lookup_insert. case_decide; [|apply Hs]. intros [= <-]. subst j. exists []. split; [|done].
    unfold NewRaftNode in Hnode. by apply bind_Some in Hnode as (r & _ & [= <-]).
Qed.

Lemma NewDemoCluster_rel : exists c s, NewDemoCluster nodeIDs = Some c /\ init nodeIDs conf = Some s /\ demo_rel c s.
Proof.
  unfold NewDemoCluster, init.
  enough (forall l c s, l ⊆ nodeIDs -> demo_rel c s -> exists c' s', for_each (add_demo_node nodeIDs) l c = Some c' /\ for_each (add_node conf) l s = Some s' /\ demo_rel c' s') as H.
  { destruct (H nodeIDs (mkDemo ∅ ∅ NewMemTransport [] [] ∅ ∅ ∅) (mkSys ∅ [])) as (c & s & ? & ? & ?); [done| |by eauto].
    split; cbn; [done|by intros m ?%elem_of_nil| |]; intros *; by rewrite lookup_empty. }
  induction l as [|i l IH]; intros c s Hl Hr; cbn [for_each]; [by eauto|].
  destruct (add_demo_node_rel i c s Hr) as (c1 & s1 & -> & -> & H1); [set_solver|]. cbn. apply IH; [set_solver|done].
Qed.

(** A round of a node is a step of the system. *)
Lemma node_round_rel i ev a c s : demo_rel c s -> sinv nodeIDs conf s -> a_node a = i -> a_event a = ev -> enabled a s = true ->
  exists c' s' out, node_round i ev c = Some c' /\ sstep a s = Some s' /\ demo_rel c' s' /\ s_net s' = s_net s ++ out /\
    dc_transport c' = dc_transport c /\ dc_sending c' = dc_sending c ++ out /\ dc_sleeping c' = dc_sleeping c /\ dc_stepCh c' = dc_stepCh c.
Proof.
  intros [Hn Hf Hc Hs] Hi <- <- Hen.
  destruct (sstep_inv _ _ (demo_config_ok _ Hnd Hne) a s Hi Hen) as (s' & node & node' & Hst & _ & Hnode & _). clear node'.
  pose proof Hnode as Hnode'. rewrite Hn in Hnode'. destruct (Hs _ _ Hnode') as (calls & Hcalls & Hkv).
  unfold node_round. pose proof Hst as Hst'. unfold sstep in Hst'. rewrite Hnode in Hst'. cbn in Hst'.
  apply bind_Some in Hst' as ([[err node'] out] & Hrun & [= Es]). rewrite Hnode' Hkv. cbn. rewrite Hrun. cbn.
  destruct (run_round_calls _ _ _ _ _ Hrun) as [new Hnew]. rewrite Hcalls in Hnew. cbn in Hnew.
  eexists _, s', out. split; [done|]. split; [done|]. subst s'. split; [|done]. split; cbn.
  - by rewrite Hn.
  - intros m Hm. rewrite !elem_of_app in Hm |- *. destruct Hm as [[Hm|Hm]|Hm]; [left; apply Hf; set_solver|by right|left; apply Hf; set_solver].
  - intros j q m Hj Hm. destruct (Hc j q m Hj Hm). split; [|done]. apply elem_of_app. by left.
  - intros j nj. rewrite !lookup_insert. case_decide; [|apply Hs]. intros [= <-]. subst j. exists (calls ++ new). split; [done|].
    unfold calls_of. rewrite Hcalls Hnew. cbn. by rewrite drop_app_length foldl_app.
Qed.

(** The steps that no node takes part in keep the relation to [s]. *)
Definition node_action (a : demo_action) : option string :=
  match a with DTick i | DTakePropose i | DTakeStep i => Some i | _ => None end.

Lemma elem_of_delete {A} k (l : list A) x : x ∈ delete k l -> x ∈ l.
Proof. rewrite delete_take_drop elem_of_app. intros [H|H]; [by eapply elem_of_take in H as (? & ?%list_elem_of_lookup_2 & _)|by eapply subseteq_drop]. Qed.

Lemma other_action_rel a c s : demo_rel c s -> node_action a = None -> demo_enabled a c = true -> exists c', dstep a c = Some c' /\ demo_rel c' s.
Proof.
  clear Hnd Hne nodeIDs. intros [Hn Hf Hc Hs] Ha Hen. destruct a as [i|i data|i|i|k|k|k|x y|x y|i]; try done; cbn in *.
  - destruct (dc_proposeCh c !! i); [|done]. eexists. by split.
  - bool_hyp. destruct (lookup_lt_is_Some_2 _ _ Hen) as [m Hm]. rewrite Hm. eexists. split; [done|]. split; try done. cbn.
    intros m' Hm'. apply Hf. apply elem_of_app in Hm' as [Hm'%elem_of_delete|Hm']; [set_solver|]. apply list_elem_of_lookup_2 in Hm.
    destruct (mem_deliver _ m); set_solver.
  - destruct (dc_sleeping c !! k) as [m|] eqn:Hm; [|done]. cbn. destruct (dc_stepCh c !! m_To m) as [q|] eqn:Hq; [|done]. eexists. split; [done|].
    assert (Hmn : m ∈ s_net s) by (apply Hf; apply list_elem_of_lookup_2 in Hm; set_solver).
    split; cbn; try done.
    + intros m' [Hm'|Hm'%elem_of_delete]%elem_of_app; apply Hf; set_solver.
    + intros j q' m'. rewrite lookup_insert. case_decide; [|apply Hc]. intros [= <-] [Hm'|Hm'%list_elem_of_singleton]%elem_of_app; [subst j; by eapply Hc|by subst m'].
  - eexists. split; [done|]. split; try done. cbn. intros m [Hm|Hm%elem_of_delete]%elem_of_app; apply Hf; set_solver.
  - eexists. by split.
  - eexists. by split.
  - eexists. by split.
Qed.

Lemma can_run_enabled a c s : demo_rel c s -> can_run (a_node a) (zlen (ev_entries (a_event a))) c = true ->
  (forall m, a_event a = EvStep m -> m ∈ s_net s /\ m_To m = a_node a) -> enabled a s = true.
Proof.
  intros Hr Hrun Hm. unfold can_run in Hrun. apply andb_true_iff in Hrun as [_ Hrun]. unfold enabled. rewrite (dr_nodes _ _ Hr).
  destruct (dc_nodes c !! a_node a) as [node|]; [|done]. rewrite Hrun. destruct a as [i|i es|i m]; [done|done|]. cbn in *.
  destruct (Hm m eq_refl) as [Hin <-]. rewrite bool_decide_true //. by rewrite String.eqb_refl.
Qed.

(** The steps of the system that an action is. *)
Definition shadow (a : demo_action) (c : DemoCluster) : list action :=
  match a with
  | DTick i => [ATick i]
  | DTakePropose i => match dc_proposeCh c !! i with Some (data :: _) => [APropose i [mkEntry 0 0 EntryNormal data]] | _ => [] end
  | DTakeStep i => match dc_stepCh c !! i with Some (m :: _) => [ADeliver i m] | _ => [] end
  | _ => []
  end.

(** The round that an action of a node is, once its event is taken. *)
Lemma node_action_round a i c s : demo_rel c s -> node_action a = Some i -> demo_enabled a c = true ->
  exists c1 b, shadow a c = [b] /\ demo_rel c1 s /\ dstep a c = node_round i (a_event b) c1 /\ a_node b = i /\ enabled b s = true /\
    dc_transport c1 = dc_transport c /\ dc_sending c1 = dc_sending c /\ dc_sleeping c1 = dc_sleeping c /\
    (forall j q m, dc_stepCh c1 !! j = Some q -> m ∈ q -> exists q', dc_stepCh c !! j = Some q' /\ m ∈ q') /\
    (forall m, a_event b = EvStep m -> exists q, dc_stepCh c !! i = Some q /\ m ∈ q).
Proof.
  intros Hr Ha Hen. destruct a as [j|j data|j|j|k|k|k|x y|x y|j]; try done; cbn in Ha, Hen; injection Ha as ->.
  - exists c, (ATick i). split_and!; try done; [by apply (can_run_enabled (ATick i) c)|by eauto].
  - cbn. destruct (dc_proposeCh c !! i) as [[|data q]|]; [done| |done]. exists (set_proposeCh i q c), (APropose i [mkEntry 0 0 EntryNormal data]).
    split_and!; try done; [by destruct Hr|by apply (can_run_enabled (APropose i [mkEntry 0 0 EntryNormal data]) c)|by eauto].
  - cbn. destruct (dc_stepCh c !! i) as [[|m q]|] eqn:Hq; [done| |done]. exists (set_stepCh i q c), (ADeliver i m).
    destruct (dr_chan _ _ Hr i (m :: q) m Hq) as [Hm1 Hm2]; [left|].
    assert (Hsub : forall j q' m', <[i := q]> (dc_stepCh c) !! j = Some q' -> m' ∈ q' -> exists q1, dc_stepCh c !! j = Some q1 /\ m' ∈ q1).
    { intros j q' m'. rewrite lookup_insert. case_decide; [|by eauto]. intros [= <-] Hm'. subst j. exists (m :: q). split; [done|by right]. }
    split_and!; try done.
    + destruct Hr as [Hn Hf Hc Hs]. split; cbn; try done. intros j q' m' Hj Hm'. destruct (Hsub j q' m' Hj Hm') as (q1 & Hq1 & Hm1'). by eapply Hc.
    + apply (can_run_enabled (ADeliver i m) c); [done|done|]. by intros ? [= <-].
    + intros m' [= <-]. exists (m :: q). split; [done|left].
Qed.

(** Every step of the cluster succeeds and is a step of the system, or none. *)
Lemma dstep_rel a c s : demo_rel c s -> sinv nodeIDs conf s -> demo_enabled a c = true ->
  exists c' s', dstep a c = Some c' /\ exec (shadow a c) s = Some s' /\ demo_rel c' s'.
Proof.
  intros Hr Hi Hen. destruct (node_action a) as [i|] eqn:Ha.
  2:{ destruct (other_action_rel a c s Hr Ha Hen) as (c' & Hd & Hr'). exists c', s. split; [done|]. by destruct a. }
  destruct (node_action_round a i c s Hr Ha Hen) as (c1 & b & -> & Hr1 & Hd & Hbi & Hb & _).
  destruct (node_round_rel i _ b c1 s Hr1 Hi Hbi eq_refl Hb) as (c' & s' & out & Hn & Hs & Hr' & _). exists c', s'. split; [by rewrite Hd|].
  split; [|done]. cbn [exec]. by rewrite Hb Hs.
Qed.

Lemma steps_app s1 s2 s3 : steps s1 s2 -> steps s2 s3 -> steps s1 s3.
Proof. induction 1; intros; [done|]. econstructor; eauto. Qed.

Lemma demo_reach_rel c : demo_reach nodeIDs c -> exists s, reachable nodeIDs conf s /\ demo_rel c s.
Proof.
  intros (c0 & H0 & Hs). destruct NewDemoCluster_rel as (c0' & s0 & H0' & Hi & Hr). rewrite H0 in H0'. injection H0' as <-.
  induction Hs as [c|c a c1 c2 _ IH Hen Hd]; [exists s0; split; [exists s0; split; [done|constructor]|done]|].
  destruct (IH H0 Hr) as (s & (si & Hsi & Hst) & Hr1). destruct (dstep_rel a c1 s Hr1) as (c' & s' & Hd' & Hss & Hr2); [|done|].
  { apply reachable_inv; [by apply demo_config_ok|]. by exists si. }
  rewrite Hd in Hd'. injection Hd' as <-. exists s'. split; [|done]. exists si. split; [done|]. eapply steps_app; [exact Hst|by eapply exec_steps].
Qed.
End refinement.

(** ** Partitions *)

Lemma partition_dropped a b t : lookup2 false a b (mt_dropped (mem_Partition a b t)) = true.
Proof. unfold lookup2. cbn. rewrite lookup_insert_eq. cbn. by rewrite lookup_insert_eq. Qed.

Lemma partition_keeps a b x y t : lookup2 false a b (mt_dropped t) = true -> lookup2 false a b (mt_dropped (mem_Partition x y t)) = true.
Proof.
  unfold lookup2. cbn. rewrite lookup_insert. case_decide; [|done]. subst x. cbn. rewrite lookup_insert. case_decide; [done|].
  by destruct (mt_dropped t !! a).
Qed.

Lemma heal_keeps a b x y t : (x, y) <> (a, b) -> lookup2 false a b (mt_dropped t) = true -> lookup2 false a b (mt_dropped (mem_Heal x y t)) = true.
Proof.
  unfold lookup2, mem_Heal. intros Hne. destruct (mt_dropped t !! x) as [row|] eqn:Hx; [|done]. cbn. rewrite lookup_insert.
  case_decide as Hxa; [|done]. subst x. rewrite Hx. cbn. rewrite lookup_delete. case_decide; [congruence|done].
Qed.

(** A healed link delivers again to a registered node. *)
Lemma heal_delivers t m : m_To m ∈ mt_nodes t -> is_Some (mem_deliver (mem_Heal (m_From m) (m_To m) t) m).
Proof.
  intros Hm. unfold mem_deliver, mem_Heal, lookup2. destruct (mt_dropped t !! m_From m) as [row|] eqn:Hr; cbn.
  - rewrite lookup_insert_eq. cbn. rewrite lookup_delete_eq. cbn. by rewrite bool_decide_true.
  - rewrite Hr. cbn. by rewrite bool_decide_true.
Qed.

(** The link from [a] to [b] is cut: nothing new passes, and nothing that has
    passed is on its way. *)
Definition cut (a b : string) (c : DemoCluster) : Prop :=
  lookup2 false a b (mt_dropped (dc_transport c)) = true /\
  forall m, m_From m = a -> m_To m = b -> m ∉ dc_sleeping c /\ forall q, dc_stepCh c !! b = Some q -> m ∉ q.

Lemma node_round_fields `{R : Rand} i ev c c' : node_round i ev c = Some c' ->
  dc_transport c' = dc_transport c /\ dc_sleeping c' = dc_sleeping c /\ dc_stepCh c' = dc_stepCh c.
Proof.
  unfold node_round. intros (node & _ & H)%bind_Some. apply bind_Some in H as (kv & _ & H). apply bind_Some in H as ([[err n'] out] & _ & [= <-]). done.
Qed.

(** A node never handles a message over a link that is cut, until the link is
    healed. *)
Lemma dstep_cut `{R : Rand} a b act c c' : cut a b c -> act <> DHeal a b -> dstep act c = Some c' -> cut a b c'.
Proof.
  intros [Hd Hc] Hne H. destruct act as [i|i data|i|i|k|k|k|x y|x y|i]; cbn in H.
  - apply node_round_fields in H as (Ht & Hs & Hq). split; [by rewrite Ht|]. by rewrite Hs Hq.
  - apply bind_Some in H as (q & _ & [= <-]). done.
  - destruct (dc_proposeCh c !! i) as [[|data q]|]; [done| |done]. apply node_round_fields in H as (Ht & Hs & Hq). split; [by rewrite Ht|]. by rewrite Hs Hq.
  - destruct (dc_stepCh c !! i) as [[|m q]|] eqn:Hi; [done| |done]. apply node_round_fields in H as (Ht & Hs & Hq). split; [by rewrite Ht|].
    rewrite Hs Hq. cbn. intros m' Hf Ht'. destruct (Hc m' Hf Ht') as [H1 H2]. split; [done|]. intros q'. rewrite lookup_insert.
    case_decide; [|apply H2]. intros [= <-] Hm'. subst i. apply (H2 (m :: q) Hi). by right.
  - apply bind_Some in H as (m & Hm & [= <-]). split; [done|]. cbn. intros m' Hf Ht. destruct (Hc m' Hf Ht) as [H1 H2]. split; [|done].
    destruct (mem_deliver (dc_transport c) m) eqn:Hdel; [|done]. intros [?|Hm'%list_elem_of_singleton]%elem_of_app; [done|]. subst m'.
    unfold mem_deliver in Hdel. by rewrite Hf Ht Hd in Hdel.
  - apply bind_Some in H as (m & Hm & H). apply bind_Some in H as (q & Hq & [= <-]). split; [done|]. cbn. intros m' Hf Ht.
    destruct (Hc m' Hf Ht) as [H1 H2]. split; [by intros ?%elem_of_delete|]. intros q'. rewrite lookup_insert. case_decide; [|apply H2].
    intros [= <-] [Hm'|Hm'%list_elem_of_singleton]%elem_of_app; [by eapply H2; [|exact Hm']; congruence|].
    subst m'. by apply H1, list_elem_of_lookup_2 with k.
  - simplify_eq. split; [done|]. cbn. intros m' Hf Ht. destruct (Hc m' Hf Ht) as [H1 H2]. split; [by intros ?%elem_of_delete|done].
  - simplify_eq. split; [by apply partition_keeps|done].
  - simplify_eq. split; [apply heal_keeps; [congruence|done]|done].
  - by simplify_eq.
Qed.

(** ** A leader that is cut off

    The leader [a] receives nothing any more: the links from the other nodes,
    [live], are cut, and what they send to [a] carries their name. *)

Section deaf.
  Context `{R : Rand} (nodeIDs : list string) (Hnd : NoDup nodeIDs) (Hne : EmptyString ∉ nodeIDs).
  Context (live : gset string) (a : string) (Ha : a ∉ live) (Hlive : EmptyString ∉ live).
  Notation conf := (demo_config nodeIDs).

Record deaf_net (c : DemoCluster) : Prop := {
  dn_cut x : x ∈ live -> lookup2 false x a (mt_dropped (dc_transport c)) = true;
  dn_from m : m ∈ dc_sending c -> m_To m = a -> m_From m ∈ live;
  dn_none m : m_To m = a -> m ∉ dc_sleeping c /\ forall q, dc_stepCh c !! a = Some q -> m ∉ q;
  dn_prop m : m_Type m = MsgPropose -> m ∈ dc_sending c ++ dc_sleeping c -> m_From m ∈ live;
  dn_chan i q m : m_Type m = MsgPropose -> dc_stepCh c !! i = Some q -> m ∈ q -> m_From m ∈ live;
}.

Record deaf_nodes (t : Z) (s : sys) : Prop := {
  ds_inv : sinv nodeIDs conf s;
  ds_stuck : stuck live s;
  ds_leader : exists node, s_nodes s !! a = Some node /\ state (n_raft node) = Leader /\ term (n_raft node) = t;
  ds_terms x node : x ∈ live -> s_nodes s !! x = Some node -> t <= term (n_raft node);
  ds_names x : is_Some (s_nodes s !! x) -> x = a \/ x ∈ live;
}.

(** The messages a round adds are no threat to the cut. *)
Definition deaf_out (m : Message) : Prop := (m_To m = a -> m_From m ∈ live) /\ (m_Type m = MsgPropose -> m_From m ∈ live).

Lemma deaf_net_sends c c' out : deaf_net c -> Forall deaf_out out -> dc_transport c' = dc_transport c ->
  dc_sending c' = dc_sending c ++ out -> dc_sleeping c' = dc_sleeping c ->
  (forall j q m, dc_stepCh c' !! j = Some q -> m ∈ q -> exists q', dc_stepCh c !! j = Some q' /\ m ∈ q') -> deaf_net c'.
Proof.
  intros [Hcut Hfrom Hnone Hprop Hchan] Hout Ht Hse Hsl Hq. rewrite Forall_forall in Hout. split.
  - by rewrite Ht.
  - intros m. rewrite Hse. intros [Hm|Hm]%elem_of_app; [by apply Hfrom|by apply Hout].
  - intros m Hm. rewrite Hsl. destruct (Hnone m Hm) as [H1 H2]. split; [done|]. intros q Hqq Hin. destruct (Hq a q m Hqq Hin) as (q' & Hq' & Hin'). by eapply H2.
  - intros m Hty. rewrite Hse Hsl. intros [[Hm|Hm]%elem_of_app|Hm]%elem_of_app; [apply Hprop; set_solver|by apply Hout|apply Hprop; set_solver].
  - intros j q m Hty Hj Hin. destruct (Hq j q m Hj Hin) as (q' & Hq' & Hin'). by eapply Hchan.
Qed.

(** The steps that no node takes part in, healing apart. *)
Lemma deaf_net_other act c c' : deaf_net c -> node_action act = None -> (forall x, x ∈ live -> act <> DHeal x a) -> dstep act c = Some c' -> deaf_net c'.
Proof.
  intros [Hcut Hfrom Hnone Hprop Hchan] Hact Hheal H. destruct act as [i|i data|i|i|k|k|k|x y|x y|i]; try done; cbn in H.
  - apply bind_Some in H as (q & _ & [= <-]). done.
  - apply bind_Some in H as (m & Hm%list_elem_of_lookup_2 & [= <-]). split; cbn; try done.
    + intros m' Hm'%elem_of_delete. by apply Hfrom.
    + intros m' Hto. destruct (Hnone m' Hto) as [H1 H2]. split; [|done]. destruct (mem_deliver (dc_transport c) m) eqn:Hd; [|done].
      intros [?|Hm'%list_elem_of_singleton]%elem_of_app; [done|]. subst m'. unfold mem_deliver in Hd. rewrite Hto in Hd.
      by rewrite (Hcut _ (Hfrom m Hm Hto)) in Hd.
    + intros m' Hty Hm'. apply Hprop; [done|]. apply elem_of_app in Hm' as [Hm'%elem_of_delete|Hm']; [set_solver|].
      destruct (mem_deliver _ m); set_solver.
  - apply bind_Some in H as (m & Hm%list_elem_of_lookup_2 & H). apply bind_Some in H as (q & Hq & [= <-]). split; cbn; try done.
    + intros m' Hto. destruct (Hnone m' Hto) as [H1 H2]. split; [by intros ?%elem_of_delete|]. intros q'. rewrite lookup_insert. case_decide as E; [|apply H2].
      by destruct (Hnone m E).
    + intros m' Hty [Hm'|Hm'%elem_of_delete]%elem_of_app; apply Hprop; set_solver.
    + intros j q' m' Hty. rewrite lookup_insert. case_decide; [|by apply Hchan]. intros [= <-] [Hm'|Hm'%list_elem_of_singleton]%elem_of_app; [by eapply Hchan|].
      subst m'. apply Hprop; set_solver.
  - simplify_eq. split; cbn; try done.
    + intros m' Hto. destruct (Hnone m' Hto) as [H1 H2]. split; [by intros ?%elem_of_delete|done].
    + intros m' Hty [Hm'|Hm'%elem_of_delete]%elem_of_app; apply Hprop; set_solver.
  - simplify_eq. split; cbn; try done. intros z Hz. by apply partition_keeps, Hcut.
  - simplify_eq. split; cbn; try done. intros z Hz. apply heal_keeps; [|by apply Hcut]. intros [= -> ->]. by eapply Hheal.
  - by simplify_eq.
Qed.
(** A live node sends in the name of a live node. *)
Lemma live_sends b s s' out : sinv nodeIDs conf s -> enabled b s = true -> sstep b s = Some s' -> s_net s' = s_net s ++ out -> a_node b ∈ live ->
  (forall m, a_event b = EvStep m -> m_Type m = MsgPropose -> m_From m ∈ live) -> Forall (fun m => m_From m ∈ live) out.
Proof.
  intros Hi Hen Hst Hout Hb Hin.
  destruct (sstep_inv _ _ (demo_config_ok _ Hnd Hne) b s Hi Hen) as (s1 & node & node' & Hst' & _ & Hn & _ & r & o & Hus & _ & Hnet & _).
  rewrite Hst in Hst'. injection Hst' as <-. rewrite Hout in Hnet. apply app_inv_head in Hnet as ->.
  pose proof (si_members _ _ _ Hi _ _ Hn) as Hm. apply usteps_sent_by in Hus as [_ Hby]. eapply Forall_impl; [exact Hby|].
  intros m [->|(_ & q & Hq & Hty & ->)]; [by rewrite (mo_id _ _ _ _ Hm)|]. destruct b as [j|j es|j m']; cbn in Hq; [done| |].
  - injection Hq as <-. cbn. by rewrite (mo_conf _ _ _ _ Hm).
  - injection Hq as ->. by apply Hin.
Qed.

Lemma deaf_nodes_step t b s s' out : deaf_nodes t s -> enabled b s = true -> sstep b s = Some s' -> s_net s' = s_net s ++ out ->
  (forall m, a_event b = EvStep m -> a_node b <> a /\ (m_Type m = MsgPropose -> m_From m ∈ live)) -> deaf_nodes t s' /\ Forall deaf_out out.
Proof.
  intros [Hi Hk (na & Hna & Hl & Ht) Hterm Hnames] Hen Hst Hout Hev. pose proof (demo_config_ok _ Hnd Hne) as Hco.
  assert (Hi' : sinv nodeIDs conf s') by (eapply steps_inv; [exact Hco|exact Hi|]; econstructor; [exact Hen|exact Hst|constructor]).
  assert (Hn : s_nodes s' = <[a_node b := default na (s_nodes s' !! a_node b)]> (s_nodes s)).
  { unfold sstep in Hst. apply bind_Some in Hst as (n0 & _ & Hst). apply bind_Some in Hst as ([[e n1] o] & _ & [= <-]). cbn. by rewrite lookup_insert_eq. }
  assert (Hnames' : forall x, is_Some (s_nodes s' !! x) -> x = a \/ x ∈ live).
  { intros x. rewrite Hn lookup_insert. case_decide as E; [|apply Hnames]. intros _. apply Hnames. rewrite -E. unfold enabled in Hen.
    destruct (s_nodes s !! a_node b); [by eexists|done]. }
  destruct (decide (a_node b = a)) as [E|E].
  - destruct (stuck_deaf_leader live _ _ s b s' na Hco Hi Hk Hen Hst) as (Hk' & node' & o & Hn' & Hnet & Hl' & Ht' & Ho); [by rewrite E|by rewrite E|done| |by rewrite Ht|].
    { intros m Em. by destruct (Hev m Em). }
    rewrite Hout in Hnet. apply app_inv_head in Hnet as ->. split.
    + split; [done|done| | |done].
      * exists node'. rewrite Hn' E lookup_insert_eq. split_and!; [done|done|congruence].
      * intros x nx Hx. rewrite Hn' lookup_insert_ne; [by apply Hterm|]. intros <-. by rewrite E in Hx.
    + eapply Forall_impl; [exact Ho|]. intros m (Hf & Hty & Hto). rewrite E in Hto. by split.
  - assert (Hb : a_node b ∈ live).
    { destruct (Hnames (a_node b)) as [?|?]; [|done|done]. unfold enabled in Hen. destruct (s_nodes s !! a_node b); [by eexists|done]. }
    split.
    + split; [done|eapply (stuck_sstep live nodeIDs conf s b); done| | |done].
      * exists na. rewrite Hn lookup_insert_ne //.
      * intros x nx Hx Hnx. assert (is_Some (s_nodes s !! x)) as [n0 Hn0].
        { rewrite Hn lookup_insert in Hnx. case_decide as E'; [|by eexists]. subst x. unfold enabled in Hen. destruct (s_nodes s !! a_node b); [by eexists|done]. }
        destruct (steps_evolves _ _ Hco s s' x n0 Hi) as (n1 & Hn1 & Hle & _); [econstructor; [exact Hen|exact Hst|constructor]|done|].
        rewrite Hnx in Hn1. injection Hn1 as <-. specialize (Hterm x n0 Hx Hn0). lia.
    + eapply Forall_impl; [apply (live_sends b s s' out); try done; intros m Em; by apply Hev|]. intros m Hm. by split.
Qed.

Definition deaf (t : Z) (c : DemoCluster) : Prop := exists s, demo_rel c s /\ deaf_nodes t s /\ deaf_net c.

Lemma deaf_step t act c c' : deaf t c -> (forall x, x ∈ live -> act <> DHeal x a) -> demo_enabled act c = true -> dstep act c = Some c' -> deaf t c'.
Proof.
  intros (s & Hr & Hs & Hc) Hheal Hen Hd. destruct (node_action act) as [i|] eqn:Hact.
  2:{ destruct (other_action_rel act c s Hr Hact Hen) as (c1 & Hd' & Hr'). rewrite Hd in Hd'. injection Hd' as <-. exists s.
      split_and!; [done|done|by eapply deaf_net_other]. }
  destruct (node_action_round act i c s Hr Hact Hen) as (c1 & b & _ & Hr1 & Hd1 & Hbi & Hb & Ht1 & Hse1 & Hsl1 & Hq1 & Hev).
  destruct (node_round_rel nodeIDs Hnd Hne i _ b c1 s Hr1 (ds_inv _ _ Hs) Hbi eq_refl Hb) as (c2 & s' & out & Hn & Hst & Hr' & Hnet & Ht2 & Hse2 & Hsl2 & Hq2).
  rewrite Hd Hn in Hd1. injection Hd1 as <-.
  destruct (deaf_nodes_step t b s s' out Hs Hb Hst Hnet) as [Hs' Ho].
  { intros m Em. destruct (Hev m Em) as (q & Hq & Hm). split.
    - rewrite Hbi. intros ->. destruct (dr_chan _ _ Hr a q m Hq Hm) as [_ Hto]. destruct (dn_none _ Hc m Hto) as [_ Hx]. by eapply Hx.
    - intros Hty. by eapply (dn_chan _ Hc). }
  exists s'. split_and!; [done|done|]. eapply (deaf_net_sends c); [done|exact Ho|congruence|congruence|congruence|]. by rewrite Hq2.
Qed.

Lemma deaf_no_leader t c x node : deaf t c -> x ∈ live -> dc_nodes c !! x = Some node -> IsLeader node = false.
Proof.
  intros (s & Hr & Hs & _) Hx Hn. rewrite -(dr_nodes _ _ Hr) in Hn. unfold IsLeader. apply bool_decide_eq_false.
  apply (sn_state live x), (sk_node _ _ (ds_stuck _ _ Hs)); done.
Qed.
End deaf.

(** ** Properties *)

(** C13: the cluster of the demonstrations implements the replicated state
    machine.  In every state that ticks, proposals, deliveries, partitions,
    heals, stops and goroutines that give up can reach, the nodes are in a
    reachable state of the abstract system over an unreliable network; every
    step that can be taken succeeds; and the store of each node answers a key
    with exactly the last assignment to it among the entries the node has
    applied, the applied prefix of its log. *)
Theorem mem_cluster_refines {R : Rand} (nodeIDs : list string) (c : DemoCluster)
  (Hnd : NoDup nodeIDs) (Hne : EmptyString ∉ nodeIDs) (Hc : demo_reach nodeIDs c) :
  (exists s, reachable nodeIDs (demo_config nodeIDs) s /\ s_nodes s = dc_nodes c) /\
  (forall a, demo_enabled a c = true -> is_Some (dstep a c)) /\
  (forall i node, dc_nodes c !! i = Some node -> exists kv, dc_kvStores c !! i = Some kv /\
     forall key, SimpleKV_Get key kv =
       match assigned key (log_prefix (log (n_raft node)) (applied (log (n_raft node)))) with Some v => (v, true) | None => (EmptyString, false) end).
Proof.
  destruct (demo_reach_rel nodeIDs Hnd Hne c Hc) as (s & Hs & Hr). pose proof (demo_config_ok _ Hnd Hne) as Hco.
  pose proof (reachable_inv _ _ Hco s Hs) as Hi. split; [exists s; split; [done|apply Hr]|]. split.
  - intros a Ha. destruct (dstep_rel nodeIDs Hnd Hne a c s Hr Hi Ha) as (c' & _ & -> & _). by eexists.
  - intros i node Hnode. destruct (dr_store _ _ Hr i node Hnode) as (calls & Hcalls & Hkv). eexists. split; [exact Hkv|]. intros key.
    rewrite -(dr_nodes _ _ Hr) in Hnode. unfold SimpleKV_Get.
    rewrite (no_calls _ (mo_ok _ _ _ _ (si_members _ _ _ Hi i node Hnode)) calls Hcalls) kv_calls_lookup. done.
Qed.

(** ** The demonstrations *)

#[local] Existing Instance zero_rand.

(** A script is run with the network first: an action of the script is taken
    when no message is on its way.  The system follows. *)
Fixpoint eager (fuel : nat) (acts : list demo_action) (c : DemoCluster) (s : sys) : option (DemoCluster * sys) :=
  match fuel with
  | O => None
  | S fuel =>
      let run a acts := if demo_enabled a c then c' ← dstep a c; s' ← exec (shadow a c) s; eager fuel acts c' s' else None in
      match List.find (fun a => demo_enabled a c) ([DDeliver 0; DPut 0] ++ (DTakeStep <$> demo_ids)) with
      | Some a => run a acts
      | None => match acts with a :: acts => run a acts | [] => Some (c, s) end
      end
  end.

Lemma demo_ids_ok : NoDup demo_ids /\ EmptyString ∉ demo_ids.
Proof. by destruct demo_cluster_ok. Qed.

Lemma eager_ok fuel : forall acts c s c' s', demo_reach demo_ids c -> reachable demo_ids demo_conf s -> demo_rel c s ->
  eager fuel acts c s = Some (c', s') -> demo_reach demo_ids c' /\ reachable demo_ids demo_conf s' /\ demo_rel c' s'.
Proof.
  induction fuel as [|fuel IH]; intros acts c s c' s' Hc Hs Hr H; [done|]. cbn [eager] in H.
  assert (Hrun : forall a acts, (if demo_enabled a c then c1 ← dstep a c; s1 ← exec (shadow a c) s; eager fuel acts c1 s1 else None) = Some (c', s') ->
    demo_reach demo_ids c' /\ reachable demo_ids demo_conf s' /\ demo_rel c' s').
  { clear H. intros a acts' H. destruct (demo_enabled a c) eqn:Hen; [|done].
    destruct (dstep_rel demo_ids (proj1 demo_ids_ok) (proj2 demo_ids_ok) a c s Hr) as (c1 & s1 & Hd & He & Hr1); [by apply reachable_inv; [apply demo_cluster_ok|]|done|].
    rewrite Hd He in H. cbn in H. eapply IH; [| |exact Hr1|exact H].
    - destruct Hc as (c0 & H0 & Hst). exists c0. split; [done|]. by econstructor.
    - destruct Hs as (s0 & H0 & Hst). exists s0. split; [done|]. eapply steps_app; [exact Hst|by eapply exec_steps]. }
  destruct (List.find _ _) as [a|]; [by eapply Hrun|]. destruct acts as [|a acts]; [by simplify_eq|by eapply Hrun].
Qed.

Definition demo_cluster0 : DemoCluster := default (mkDemo ∅ ∅ NewMemTransport [] [] ∅ ∅ ∅) (NewDemoCluster demo_ids).
Definition demo_play (acts : list demo_action) : DemoCluster * sys := default (demo_cluster0, demo_init) (eager 300 acts demo_cluster0 demo_init).

Lemma demo_play_ok acts : is_Some (eager 300 acts demo_cluster0 demo_init) ->
  demo_reach demo_ids (demo_play acts).1 /\ reachable demo_ids demo_conf (demo_play acts).2 /\ demo_rel (demo_play acts).1 (demo_play acts).2.
Proof.
  intros [[c s] H]. unfold demo_play. rewrite H. cbn [default fst snd from_option]. eapply eager_ok; [| | |exact H].
  - exists demo_cluster0. split; [vm_compute; reflexivity|constructor].
  - exists demo_init. split; [vm_compute; reflexivity|constructor].
  - destruct (NewDemoCluster_rel demo_ids (proj1 demo_ids_ok) (proj2 demo_ids_ok)) as (c0 & s0 & Hc & Hs & Hr).
    unfold demo_cluster0, demo_init. rewrite Hc. change (demo_config demo_ids) with demo_conf in Hs. by rewrite Hs.
Qed.

(** [a] is elected and is given a command. *)
Definition replication_script : list demo_action :=
  replicate 10 (DTick "a") ++ [DPropose "a" (bytes_of_string "balance=1000"); DTakePropose "a"] ++ replicate 5 (DTick "a").

Lemma replication_runs : is_Some (eager 300 replication_script demo_cluster0 demo_init).
Proof. vm_compute. eauto. Qed.

Lemma mem_cluster_refines_witness : exists kv, dc_kvStores (demo_play replication_script).1 !! "c" = Some kv /\ SimpleKV_Get "balance" kv = ("1000", true).
Proof.
  destruct (mem_cluster_refines demo_ids (demo_play replication_script).1) as (_ & _ & H).
  - apply demo_ids_ok.
  - apply demo_ids_ok.
  - apply demo_play_ok, replication_runs.
  - destruct (H "c" (default (demo_node demo_init "c") (dc_nodes (demo_play replication_script).1 !! "c"))) as (kv & Hkv & Hget); [vm_compute; reflexivity|].
    exists kv. split; [exact Hkv|]. rewrite (Hget "balance"). vm_compute. reflexivity.
Defined.

(** The demonstration of a leader failure: a command is replicated, then the
    leader is cut off in both directions. *)
Definition failover_script : list demo_action :=
  replicate 10 (DTick "a") ++ [DPropose "a" (bytes_of_string "key=value-before-crash"); DTakePropose "a"] ++ replicate 5 (DTick "a") ++
  [DPartition "a" "b"; DPartition "b" "a"; DPartition "a" "c"; DPartition "c" "a"].

Lemma failover_runs : is_Some (eager 300 failover_script demo_cluster0 demo_init).
Proof. vm_compute. eauto. Qed.

(** What the demonstration does while it waits for another leader. *)
Inductive unhealed : DemoCluster -> DemoCluster -> Prop :=
  | unhealed_refl c : unhealed c c
  | unhealed_next c a c1 c2 : unhealed c c1 -> (forall x y, a <> DHeal x y) -> demo_enabled a c1 = true -> dstep a c1 = Some c2 -> unhealed c c2.

Definition failed_over : DemoCluster := (demo_play failover_script).1.
Definition failed_sys : sys := (demo_play failover_script).2.

Lemma failover_nodes : deaf_nodes demo_ids bc "a" 1 failed_sys.
Proof.
  split.
  - apply reachable_inv; [apply demo_cluster_ok|]. apply demo_play_ok, failover_runs.
  - apply stuckb_stuck. vm_compute. reflexivity.
  - exists (demo_node failed_sys "a"). split; [|split]; vm_compute; reflexivity.
  - assert (Hb : bool_decide (map_Forall (fun _ n => 1 <= term (n_raft n)) (s_nodes failed_sys)) = true) by (vm_compute; reflexivity).
    apply bool_decide_eq_true in Hb. intros x node _ Hn. exact (Hb x node Hn).
  - assert (Hd : dom (s_nodes failed_sys) = {["a"]} ∪ bc) by (vm_compute; reflexivity). intros x Hx%elem_of_dom. rewrite Hd in Hx. clear Hd. set_solver.
Qed.

Lemma failover_net : deaf_net bc "a" failed_over.
Proof.
  assert (Hse : dc_sending failed_over = []) by (vm_compute; reflexivity). assert (Hsl : dc_sleeping failed_over = []) by (vm_compute; reflexivity).
  assert (Hq : bool_decide (map_Forall (fun _ q => q = []) (dc_stepCh failed_over)) = true) by (vm_compute; reflexivity).
  apply bool_decide_eq_true in Hq.
  assert (Hb : lookup2 false "b" "a" (mt_dropped (dc_transport failed_over)) = true) by (vm_compute; reflexivity).
  assert (Hc : lookup2 false "c" "a" (mt_dropped (dc_transport failed_over)) = true) by (vm_compute; reflexivity).
  generalize dependent failed_over. intros c Hse Hsl Hq Hb Hc. split; rewrite ?Hse ?Hsl.
  - intros x [->%elem_of_singleton| ->%elem_of_singleton]%elem_of_union; done.
  - by intros m ?%elem_of_nil.
  - intros m _. split; [by intros ?%elem_of_nil|]. by intros q ->%Hq ?%elem_of_nil.
  - by intros m _ ?%elem_of_nil.
  - by intros i q m _ ->%Hq ?%elem_of_nil.
Qed.

Lemma failover_deaf : deaf demo_ids bc "a" 1 failed_over.
Proof. exists failed_sys. split; [apply demo_play_ok, failover_runs|]. split; [apply failover_nodes|apply failover_net]. Qed.

Lemma unhealed_deaf c0 c : unhealed c0 c -> deaf demo_ids bc "a" 1 c0 -> deaf demo_ids bc "a" 1 c.
Proof.
  assert (Ha : "a" ∉ bc) by (unfold bc; set_solver). assert (He : EmptyString ∉ bc) by (unfold bc; set_solver).
  intros H. induction H as [c|c act c1 c2 _ IH Hheal Hen Hst]; intros Hd; [done|].
  eapply (deaf_step demo_ids); [apply demo_ids_ok|apply demo_ids_ok|done|done|by apply IH| |exact Hen|exact Hst]. intros y _. apply Hheal.
Qed.

(** The demonstration of a leader failure never finds its new leader: after
    the leader [a] of three nodes is cut off, neither of the others becomes
    leader before a link is healed, whatever they and [a] do meanwhile. *)
Theorem failover_demo_finds_no_leader :
  LeaderID demo_ids failed_over = "a" /\
  forall c x node, unhealed failed_over c -> x = "b" \/ x = "c" -> dc_nodes c !! x = Some node -> IsLeader node = false.
Proof.
  split; [vm_compute; reflexivity|]. intros c x node Hc Hx Hn. assert (Hb : x ∈ bc) by (clear -Hx; unfold bc; set_solver).
  eapply (deaf_no_leader demo_ids); [|exact Hb|exact Hn]. eapply unhealed_deaf; [exact Hc|apply failover_deaf].
Qed.
