(* ===== verification/Demo.v ===== *)
(** * Demo: what a demonstration prints (demo.go of the packages)

    A demonstration is modelled as the list of the lines it prints that show a
    value: the format of the line with the values.  Lines of fixed text only
    are left out, and so are the ornaments and line ends of a format.  Readings of the wall clock and random draws are arguments.
    The theorems state what a demonstration shows, for every clock and every
    draw it may meet. *)

From S2P Require Import Prelude Bytes Float64.

(** The values that are printed. *)
Inductive shown :=
  | ShInt (z : Z)
  | ShBool (b : bool)
  | ShStr (s : string)
  | ShFloat (f : float64)
  | ShStrs (l : list string)
  | ShInts (l : list Z).

Coercion ShInt : Z >-> shown.
Coercion ShBool : bool >-> shown.
Coercion ShStr : string >-> shown.

Record printed := say { p_format : string; p_values : list shown }.

Definition ShBytes (b : bytes) : shown := ShStr (string_of_bytes b).

(** A line printed under a condition. *)
Definition say_if (b : bool) (p : printed) : list printed := if b then [p] else [].

(** A line with this format is printed. *)
Definition shows (fmt : string) (out : list printed) : bool := existsb (fun p => p_format p =?s fmt) out.

Lemma shows_app fmt l k : shows fmt (l ++ k) = shows fmt l || shows fmt k.
Proof. apply existsb_app. Qed.

(** Durations in nanoseconds. *)
Abbreviation ms := 1000000.
Abbreviation sec := 1000000000.

(** [Duration.Round], away from the ends of the range. *)
Definition Duration_Round (d m : Z) : Z :=
  if m <=? 0 then d
  else
    let r := Z.rem d m in
    if d <? 0 then if (- r) + (- r) <? m then d - r else d - m - r
    else if r + r <? m then d - r else d + m - r.

(** The order in which [range] visits a map with string keys. *)
Class RangeOrder := {
  range_keys : forall {A}, gmap string A -> list string;
  range_keys_perm : forall {A} (m : gmap string A), range_keys m ≡ₚ (map_to_list m).*1;
}.

Lemma range_keys_empty `{RangeOrder} {A} : range_keys (∅ : gmap string A) = [].
Proof. apply Permutation_nil_r. rewrite range_keys_perm map_to_list_empty. done. Qed.

Lemma range_keys_singleton `{RangeOrder} {A} k (x : A) : range_keys {[k := x]} = [k].
Proof. apply Permutation_singleton_r. rewrite range_keys_perm map_to_list_singleton. done. Qed.

Lemma range_keys_in `{RangeOrder} {A} (m : gmap string A) k : k ∈ range_keys m <-> is_Some (m !! k).
Proof.
  rewrite range_keys_perm list_elem_of_fmap. split.
  - intros ([k' x] & -> & Hx%elem_of_map_to_list). by eexists.
  - intros [x Hx]. exists (k, x). split; [done|]. by apply elem_of_map_to_list.
Qed.

(** The values in the order of [range]. *)
Definition range_values `{RangeOrder} {A} (m : gmap string A) : list A := omap (fun k => m !! k) (range_keys m).

Lemma range_values_perm `{RangeOrder} {A} (m : gmap string A) : range_values m ≡ₚ (map_to_list m).*2.
Proof.
  unfold range_values. rewrite range_keys_perm. assert (Ho : omap (fun k => m !! k) (map_to_list m).*1 = (map_to_list m).*2); [|by rewrite Ho].
  assert (Hall : Forall (fun x => m !! x.1 = Some x.2) (map_to_list m)) by (apply Forall_forall; intros [k c] Hx; by apply elem_of_map_to_list in Hx).
  induction Hall as [|[k c] l Hk _ IH]; [done|]. cbn in *. rewrite Hk. by f_equal.
Qed.

(** The order of the representation. *)
Definition map_order : RangeOrder := {| range_keys A m := (map_to_list m).*1; range_keys_perm A m := reflexivity _ |}.

(** ** Exploration

    The states that steps reach, for a system with finitely many of them:
    a list that contains the first state and every successor of its states
    contains all of them. *)

Section explore.
  Context {St Step : Type} `{EqDecision St} (step : Step -> St -> option St) (steps : list Step).

Fixpoint run_steps (os : list Step) (s : St) : option St :=
  match os with [] => Some s | o :: os => s' ← step o s; run_steps os s' end.

Definition successors (s : St) : list St := omap (fun o => step o s) steps.

(** Depth first, with [fuel] states. *)
Fixpoint explore (fuel : nat) (todo seen : list St) : list St :=
  match fuel, todo with
  | S fuel, s :: todo => if bool_decide (s ∈ seen) then explore fuel todo seen else explore fuel (successors s ++ todo) (s :: seen)
  | _, _ => seen
  end.

Definition closed (seen : list St) : bool := forallb (fun s => forallb (fun s' => bool_decide (s' ∈ seen)) (successors s)) seen.

(** [steps] has every step that is possible in an explored state. *)
Definition covers (seen : list St) : Prop := forall o s, s ∈ seen -> is_Some (step o s) -> o ∈ steps.

Lemma run_steps_closed seen : covers seen -> closed seen = true -> forall os s s', s ∈ seen -> run_steps os s = Some s' -> s' ∈ seen.
Proof.
  intros Hall Hc os. induction os as [|o os IH]; intros s s' Hs Hr; [by injection Hr as <-|].
  cbn in Hr. destruct (step o s) as [s1|] eqn:Ho; [|done]. apply (IH s1); [|done]. assert (Hin : o ∈ steps) by by eapply Hall.
  unfold closed in Hc. rewrite forallb_forall in Hc. apply list_elem_of_In, Hc in Hs. rewrite forallb_forall in Hs.
  apply (bool_decide_unpack _), Is_true_true, Hs, list_elem_of_In, list_elem_of_omap. eauto.
Qed.

(** A check of the explored states is one of all the reachable states. *)
Lemma run_steps_check seen (P : St -> bool) s0 : covers seen -> closed seen && forallb P seen && bool_decide (s0 ∈ seen) = true ->
  forall os s, run_steps os s0 = Some s -> P s = true.
Proof.
  intros Hall H os s Hr. apply andb_prop in H as [H H0]. apply andb_prop in H as [Hc HP]. apply bool_decide_eq_true in H0.
  rewrite forallb_forall in HP. apply HP, list_elem_of_In. by eapply run_steps_closed.
Qed.

End explore.
