(* ===== verification/ObservabilityText.v ===== *)
(** * ObservabilityText: metrics and traces as text
    (pkg/observability/metrics.go, tracing.go)

    The format that Prometheus scrapes and the tree of a trace on the console,
    as lists of lines. *)

From S2P Require Import Prelude Bytes Float64 Metrics Tracing Demo.

(** ** The text format of the metrics *)

Section prometheus.
  Context (labels : string).

Definition metric (name help mtype : string) (value : float64) : list printed :=
  [say "# HELP %s %s" [ShStr name; ShStr help]; say "# TYPE %s %s" [ShStr name; ShStr mtype]; say "%s{%s} %g" [ShStr name; ShStr labels; ShFloat value]].

Definition histogramMetric (name help : string) (summary : HistogramSummary) : list printed :=
  [say "# HELP %s %s" [ShStr name; ShStr help]; say "# TYPE %s histogram" [ShStr name];
   say "%s_p50{%s} %g" [ShStr name; ShStr labels; ShFloat (hs_P50 summary)];
   say "%s_p95{%s} %g" [ShStr name; ShStr labels; ShFloat (hs_P95 summary)];
   say "%s_p99{%s} %g" [ShStr name; ShStr labels; ShFloat (hs_P99 summary)];
   say "%s_count{%s} %d" [ShStr name; ShStr labels; ShInt (hs_Count summary)];
   say "%s_sum{%s} %g" [ShStr name; ShStr labels; ShFloat (hs_Sum summary)]].

End prometheus.

Definition quoted (s : string) : string := String (byte_of_Z 34) (s +:+ String (byte_of_Z 34) EmptyString).

(** One line per element. *)
Definition PrometheusFormat (s : MetricsSnapshot) : list printed :=
  let labels := "node_id=" +:+ quoted (sn_NodeID s) in
  let isLeader := if sn_RaftIsLeader s then f64 1 else fzero in
  metric labels "hermes_raft_leader_changes_total" "Leader changes" "counter" (f64 (sn_RaftLeaderChanges s)) ++
  metric labels "hermes_raft_current_term" "Current term" "gauge" (sn_RaftCurrentTerm s) ++
  metric labels "hermes_raft_is_leader" "Is leader" "gauge" isLeader ++
  histogramMetric labels "hermes_raft_commit_duration_seconds" "Raft commit latency" (sn_RaftCommitLatency s) ++
  histogramMetric labels "hermes_wal_write_duration_seconds" "WAL write latency" (sn_WALWriteLatency s) ++
  histogramMetric labels "hermes_wal_fsync_duration_seconds" "WAL fsync latency" (sn_WALFsyncLatency s) ++
  histogramMetric labels "hermes_request_duration_seconds" "Request latency" (sn_RequestDuration s) ++
  metric labels "hermes_requests_total" "Total requests" "counter" (f64 (sn_RequestsTotal s)) ++
  metric labels "hermes_txn_total" "Total transactions" "counter" (f64 (sn_TxnTotal s)) ++
  metric labels "hermes_txn_conflicts_total" "Transaction conflicts" "counter" (f64 (sn_TxnConflicts s)) ++
  metric labels "hermes_goroutines" "Goroutine count" "gauge" (sn_GoroutineCount s) ++
  metric labels "hermes_memory_usage_bytes" "Memory usage" "gauge" (sn_MemoryUsageBytes s).

(** ** Traces on the console *)

Section tracing.
  Context `{RangeOrder}.

Definition show_attr (v : AttrValue) : shown := match v with AttrString s => ShStr s | AttrInt z => ShInt z end.

(** [PrintTrace]; the indentation is the first value of a line.  [fuel] bounds
    the depth of the tree. *)
Fixpoint PrintTrace (fuel : nat) (heap : list Span) (i : nat) (indent : Z) : option (list printed) :=
  match fuel with
  | O => None
  | S fuel =>
      span ← heap !! i;
      let icon := if indent =? 0 then "┌──" else "├──" in
      let statusIcon := match sp_Status span with StatusError => "❌" | _ => "✅" end in
      let line := say "%s%s %s %s [%v]" [ShInt indent; ShStr icon; ShStr (sp_Name span); ShStr statusIcon; ShInt (Duration_Round (sp_Duration span) 1000)] in
      let attributes := omap (fun k => (fun v => say "%s      %s: %v" [ShInt indent; ShStr k; show_attr v]) <$> sp_Attributes span !! k) (range_keys (sp_Attributes span)) in
      let events := map (fun event => say "%s      📍 %s at T+%v" [ShInt indent; ShStr (se_Name event); ShInt (Duration_Round (se_Time event - sp_StartTime span) 1000)]) (sp_Events span) in
      children ← mapM (fun child => PrintTrace fuel heap child (indent + 1)) (sp_Children span);
      Some (line :: attributes ++ events ++ concat children)
  end.

End tracing.

(** ** Printing a trace ends *)

Section outline.
  Context `{RangeOrder}.

(** The spans of printed lines with their depths. *)
Definition title (p : printed) : option (Z * string) :=
  if p_format p =?s "%s%s %s %s [%v]" then match p_values p with [ShInt depth; _; ShStr name; _; _] => Some (depth, name) | _ => None end else None.

Definition titles (ps : list printed) : list (Z * string) := omap title ps.

Lemma titles_app ps qs : titles (ps ++ qs) = titles ps ++ titles qs.
Proof. apply omap_app. Qed.

Definition shape (heap : list Span) : list (string * list nat) := map (fun s => (sp_Name s, sp_Children s)) heap.

(** The tree below a span in depth-first order. *)
Fixpoint outline (fuel : nat) (tree : list (string * list nat)) (i : nat) (indent : Z) : option (list (Z * string)) :=
  match fuel with
  | O => None
  | S fuel =>
      '(name, children) ← tree !! i;
      below ← mapM (fun child => outline fuel tree child (indent + 1)) children;
      Some ((indent, name) :: concat below)
  end.

Lemma titles_none ps : Forall (fun p => title p = None) ps -> titles ps = [].
Proof. induction 1 as [|p ps Hp _ IH]; [done|]. cbn. by rewrite Hp. Qed.

Lemma attributes_untitled {A} (m : gmap string A) (g : string -> A -> printed) ks :
  (forall k v, title (g k v) = None) -> titles (omap (fun k => g k <$> m !! k) ks) = [].
Proof. intros Hg. apply titles_none, Forall_forall. intros p (k & _ & Hk)%list_elem_of_omap. destruct (m !! k); [|done]. by injection Hk as <-. Qed.

Lemma titles_concat {A} (f : A -> option (list printed)) (g : A -> option (list (Z * string))) l :
  (forall x, x ∈ l -> titles <$> f x = g x) -> (fun ls => titles (concat ls)) <$> mapM f l = (fun gs => concat gs) <$> mapM g l.
Proof.
  induction l as [|x l IH]; intros Hfg; [done|]. cbn [mapM]. rewrite -(Hfg x); [|by left].
  destruct (f x) as [ps|]; [|done]. cbn [fmap option_fmap option_map mbind option_bind]. specialize (IH (fun y Hy => Hfg y (list_elem_of_further _ _ _ Hy))).
  destruct (mapM f l) as [pss|]; destruct (mapM g l) as [gs|]; try done. injection IH as IH. cbn [mbind option_bind mret option_ret fmap option_fmap option_map concat]. by rewrite titles_app IH.
Qed.

Lemma PrintTrace_outline heap : forall fuel i indent, titles <$> PrintTrace fuel heap i indent = outline fuel (shape heap) i indent.
Proof.
  induction fuel as [|fuel IH]; intros i indent; [done|]. cbn [PrintTrace outline]. unfold shape. rewrite list_lookup_fmap.
  destruct (heap !! i) as [span|]; [|done]. cbn [fmap option_fmap option_map mbind option_bind].
  pose proof (titles_concat (fun child => PrintTrace fuel heap child (indent + 1)) (fun child => outline fuel (shape heap) child (indent + 1)) (sp_Children span) (fun c _ => IH c (indent + 1))) as Hc.
  fold (shape heap). destruct (mapM _ (sp_Children span)) as [pss|]; destruct (mapM _ (sp_Children span)) as [gs|]; try done. injection Hc as Hc.
  cbn [mbind option_bind fmap option_fmap option_map]. f_equal.
  match goal with |- titles (_ :: ?l) = _ => change ((indent, sp_Name span) :: titles l = (indent, sp_Name span) :: concat gs) end. rewrite -Hc. f_equal.
  rewrite !titles_app attributes_untitled; [|done]. rewrite titles_none; [done|]. apply Forall_fmap, Forall_forall. done.
Qed.

(** Children are later in the heap than their parents: printing a trace ends. *)
Lemma outline_total heap : (forall i p, heap !! i = Some p -> Forall (fun j => (i < j < length heap)%nat) p.2) ->
  forall fuel i indent, (i < length heap)%nat -> (length heap - i <= fuel)%nat -> is_Some (outline fuel heap i indent).
Proof.
  intros Hc. induction fuel as [|fuel IH]; intros i indent Hi Hf; [lia|]. cbn [outline].
  destruct (heap !! i) as [[name children]|] eqn:Ei; [|apply lookup_ge_None in Ei; lia]. cbn [mbind option_bind]. specialize (Hc _ _ Ei). cbn [snd] in Hc.
  destruct (mapM_is_Some_2 (fun child => outline fuel heap child (indent + 1)) children) as [x ->]; [|by eexists].
  eapply Forall_impl; [exact Hc|]. intros j [Hij Hj]. apply IH; lia.
Qed.

Theorem PrintTrace_total nodeID service calls i :
  let heap := ts_heap (trace_run nodeID service calls) in
  (i < length heap)%nat -> is_Some (PrintTrace (length heap) heap i 0).
Proof.
  intros heap Hi. destruct (outline_total (shape heap)) with (fuel := length heap) (i := i) (indent := 0) as [x Hx].
  - intros k p. unfold shape. rewrite list_lookup_fmap length_map. destruct (heap !! k) as [span|] eqn:Ek; [|done]. intros [= <-]. cbn [snd].
    apply Forall_forall. intros j Hj. destruct (ti_child _ (trace_run_inv nodeID service calls) _ _ _ Ek Hj) as (Hlt & c & Hc%lookup_lt_Some & _). by split.
  - unfold shape. by rewrite length_map.
  - unfold shape. rewrite length_map. lia.
  - rewrite -PrintTrace_outline in Hx. destruct (PrintTrace _ heap i 0); [by eexists|done].
Qed.

End outline.

(** ** The names of the metrics *)

(** The names in the text format: each has its help and its type before its
    samples, and none occurs twice. *)
Definition helped (p : printed) : option string := if p_format p =?s "# HELP %s %s" then match p_values p with ShStr name :: _ => Some name | _ => None end else None.

Theorem prometheus_names_unique s : NoDup (omap helped (PrometheusFormat s)) /\ length (omap helped (PrometheusFormat s)) = 12%nat /\ length (PrometheusFormat s) = 52%nat.
Proof. split_and!; [|done|done]. cbn. by apply (bool_decide_unpack (NoDup (A:=string) _)). Qed.
