(* ===== verification/OsStudies.v ===== *)
(** * OsStudies: the studies of the operating system (pkg/os_fundamentals)

    The length-prefixed messages with the loop that answers them and its client,
    the partition table (networking.go), the worker pool, the votes with a
    timeout, the fan-in of acknowledgements, the select loop and the atomic
    counters (concurrency_patterns.go), the goroutines of process_goroutines.go,
    and the measurements of storage_io.go, memory.go and syscalls.go, with what
    they measure as arguments.  Goroutines run in turns: [run_turns] takes the
    next operation of the goroutine whose turn it is, so that the theorems hold
    for every schedule.  Files are those of the temporary directory.  Output is
    as in Demo.v; text without values is left out. *)

From S2P Require Import Prelude Bytes Float64 Demo.

(** ** Messages on a stream *)

Definition writeMessage (msg : bytes) : bytes := put_be 4 (zlen msg) ++ msg.

(** What is wrong with the end of a stream: nothing left, or a message cut short. *)
Inductive read_error := ErrEOF | ErrUnexpectedEOF.

(** [binary.Read] and [io.ReadFull]; an empty read of no bytes is no error. *)
Definition read_full (n : nat) (s : bytes) : read_error + bytes * bytes :=
  if (length s <? n)%nat then (if (length s =? 0)%nat then inl ErrEOF else inl ErrUnexpectedEOF) else inr (take n s, drop n s).

Definition readMessage (s : bytes) : read_error + bytes * bytes :=
  match read_full 4 s with
  | inl err => inl err
  | inr (lenBuf, s) => read_full (Z.to_nat (get_be lenBuf)) s
  end.

Definition ACK : bytes := bytes_of_string "ACK: ".

(** [handleConnection] on everything the client sends: what is written, and how
    the loop ends.  A message takes at least four bytes, so that the length of
    the stream is enough fuel. *)
Fixpoint handle_loop (fuel : nat) (s : bytes) : option (bytes * read_error) :=
  match fuel with
  | O => None
  | S fuel =>
      match readMessage s with
      | inl err => Some ([], err)
      | inr (msg, s) => match handle_loop fuel s with Some (out, err) => Some (writeMessage (ACK ++ msg) ++ out, err) | None => None end
      end
  end.

Definition handleConnection (s : bytes) : option (bytes * read_error) := handle_loop (S (length s)) s.

Lemma read_full_app n (a b : bytes) : length a = n -> read_full n (a ++ b) = inr (a, b).
Proof.
  intros <-. unfold read_full. rewrite length_app. destruct (Nat.ltb_spec (length a + length b) (length a)); [lia|].
  by rewrite take_app_length drop_app_length.
Qed.

(** What is written is read back, whatever follows. *)
Theorem message_roundtrip msg rest : zlen msg < two32 -> readMessage (writeMessage msg ++ rest) = inr (msg, rest).
Proof.
  intros Hm. unfold readMessage, writeMessage. rewrite -app_assoc read_full_app ?length_put_be // get_put_be.
  rewrite Z.mod_small; [|unfold zlen in *; cbn; lia]. apply read_full_app. unfold zlen. lia.
Qed.

Lemma readMessage_shorter s msg s' : readMessage s = inr (msg, s') -> (length s' + 4 <= length s)%nat.
Proof.
  unfold readMessage, read_full. destruct (Nat.ltb_spec (length s) 4); [by destruct (_ =? _)%nat|].
  destruct (Nat.ltb_spec (length (drop 4 s)) (Z.to_nat (get_be (take 4 s)))); [by destruct (_ =? _)%nat|].
  intros [= _ <-]. rewrite !length_drop. rewrite length_drop in H0. lia.
Qed.

(** The connection loop ends on every stream. *)
Theorem connection_ends s : is_Some (handleConnection s).
Proof.
  unfold handleConnection. assert (K : forall fuel s, (length s < fuel)%nat -> is_Some (handle_loop fuel s)).
  { induction fuel as [|fuel IH]; intros t Ht; [lia|]. cbn. destruct (readMessage t) as [err|[msg t']] eqn:E; [by eexists|].
    apply readMessage_shorter in E. destruct (IH t') as [[out err] ->]; [lia|]. by eexists. }
  apply K. lia.
Qed.

(** A client that sends whole messages gets one answer for each, in order, and
    the loop ends without an error. *)
Theorem connection_answers msgs : Forall (fun m => zlen m < two32) msgs ->
  handleConnection (concat (writeMessage <$> msgs)) = Some (concat ((fun m => writeMessage (ACK ++ m)) <$> msgs), ErrEOF).
Proof.
  intros Hm. unfold handleConnection. assert (K : forall fuel, (length (concat (writeMessage <$> msgs)) < fuel)%nat ->
    handle_loop fuel (concat (writeMessage <$> msgs)) = Some (concat ((fun m => writeMessage (ACK ++ m)) <$> msgs), ErrEOF)); [|apply K; lia].
  induction Hm as [|m msgs Hm _ IH]; intros fuel Hf; (destruct fuel as [|fuel]; [cbn in Hf; lia|]); [done|]. cbn [fmap list_fmap concat handle_loop].
  cbn [fmap list_fmap concat] in Hf. rewrite message_roundtrip // IH //. rewrite length_app in Hf. unfold writeMessage in Hf at 1. rewrite length_app length_put_be in Hf. lia.
Qed.

(** ** The partition table *)

Notation partition_table := (gmap string (gset string)).

Definition table_add (a b : string) (t : partition_table) : partition_table := <[a := {[b]} ∪ default ∅ (t !! a)]> t.
Definition table_del (a b : string) (t : partition_table) : partition_table := alter (fun s => s ∖ {[b]}) a t.

Definition table_Partition (a b : string) (t : partition_table) : partition_table := table_add b a (table_add a b t).
Definition table_Heal (a b : string) (t : partition_table) : partition_table := table_del b a (table_del a b t).
Definition CanCommunicate (from to : string) (t : partition_table) : bool := negb (bool_decide (to ∈ default ∅ (t !! from))).

Lemma table_add_in a b t x y : y ∈ default ∅ (table_add a b t !! x) <-> x = a /\ y = b \/ y ∈ default ∅ (t !! x).
Proof. unfold table_add. destruct (decide (x = a)) as [->|]; [rewrite lookup_insert_eq; set_solver|rewrite lookup_insert_ne //; set_solver]. Qed.

Lemma table_del_in a b t x y : y ∈ default ∅ (table_del a b t !! x) <-> ~ (x = a /\ y = b) /\ y ∈ default ∅ (t !! x).
Proof.
  unfold table_del. destruct (decide (x = a)) as [->|]; [rewrite lookup_alter_eq|rewrite lookup_alter_ne //; naive_solver].
  destruct (t !! a); cbn; set_solver.
Qed.

(** Tables that only [Partition] and [Heal] changed are symmetric. *)
Definition table_sym (t : partition_table) : Prop := forall x y, y ∈ default ∅ (t !! x) <-> x ∈ default ∅ (t !! y).

Lemma table_Partition_sym a b t : table_sym t -> table_sym (table_Partition a b t).
Proof. intros H x y. unfold table_Partition. rewrite !table_add_in (H x y). naive_solver. Qed.
Lemma table_Heal_sym a b t : table_sym t -> table_sym (table_Heal a b t).
Proof. intros H x y. unfold table_Heal. rewrite !table_del_in (H x y). naive_solver. Qed.

(** Healing a partition undoes it, and only it. *)
Theorem partition_heal a b t x y :
  CanCommunicate a b (table_Partition a b t) = false /\ CanCommunicate b a (table_Partition a b t) = false /\
  CanCommunicate a b (table_Heal a b (table_Partition a b t)) = true /\
  (~ (x = a /\ y = b) -> ~ (x = b /\ y = a) -> CanCommunicate x y (table_Heal a b (table_Partition a b t)) = CanCommunicate x y t).
Proof.
  unfold CanCommunicate, table_Heal, table_Partition. split_and!.
  - rewrite bool_decide_true //. rewrite !table_add_in. naive_solver.
  - rewrite bool_decide_true //. rewrite !table_add_in. naive_solver.
  - rewrite bool_decide_false //. rewrite !table_del_in. naive_solver.
  - intros H1 H2. f_equal. apply bool_decide_ext. rewrite !table_del_in !table_add_in. naive_solver.
Qed.

(** ** The worker pool

    Steps of the submitters, the workers and the call of [Close].  A worker is
    idle, running a task, or has left its loop.  A channel without room hands a
    task directly to a worker that waits. *)

Section pool.
  Context {T : Type}.

Inductive worker := Idle | Running (t : T) | Exited.

Record WorkerPool := mkWorkerPool {
  wp_tasks : list T;
  wp_capacity : nat;
  wp_closed : bool;
  wp_workers : list worker;
  wp_submitted : list T;
  wp_executed : list T;
}.

Definition NewWorkerPool (workers queueSize : nat) : WorkerPool := mkWorkerPool [] queueSize false (replicate workers Idle) [] [].

Inductive pool_step : WorkerPool -> WorkerPool -> Prop :=
  | pool_submit t q cap ws sub ex : (length q < cap)%nat ->
      pool_step (mkWorkerPool q cap false ws sub ex) (mkWorkerPool (q ++ [t]) cap false ws (sub ++ [t]) ex)
  | pool_handoff t cap ws i sub ex : ws !! i = Some Idle ->
      pool_step (mkWorkerPool [] cap false ws sub ex) (mkWorkerPool [] cap false (<[i := Running t]> ws) (sub ++ [t]) ex)
  | pool_take t q cap closed ws i sub ex : ws !! i = Some Idle ->
      pool_step (mkWorkerPool (t :: q) cap closed ws sub ex) (mkWorkerPool q cap closed (<[i := Running t]> ws) sub ex)
  | pool_finish t q cap closed ws i sub ex : ws !! i = Some (Running t) ->
      pool_step (mkWorkerPool q cap closed ws sub ex) (mkWorkerPool q cap closed (<[i := Idle]> ws) sub (ex ++ [t]))
  | pool_close q cap ws sub ex :
      pool_step (mkWorkerPool q cap false ws sub ex) (mkWorkerPool q cap true ws sub ex)
  | pool_exit cap ws i sub ex : ws !! i = Some Idle ->
      pool_step (mkWorkerPool [] cap true ws sub ex) (mkWorkerPool [] cap true (<[i := Exited]> ws) sub ex).

(** [Close] returns when [wg.Wait] does. *)
Definition Close_returns (p : WorkerPool) : Prop := wp_closed p = true /\ Forall (fun w => w = Exited) (wp_workers p).

#[local] Instance exited_dec w : Decision (w = Exited).
Proof. destruct w; [right|right|left]; done. Defined.

Definition running (w : worker) : list T := match w with Running t => [t] | _ => [] end.

(** Every task is queued, being run, or was run; workers leave only a closed
    pool with an empty queue. *)
Definition pool_inv (p : WorkerPool) : Prop :=
  wp_submitted p ≡ₚ wp_executed p ++ concat (running <$> wp_workers p) ++ wp_tasks p /\
  (Exited ∈ wp_workers p -> wp_closed p = true /\ wp_tasks p = []).

Lemma running_set (ws : list worker) (i : nat) w w' : ws !! i = Some w ->
  running w' ++ concat (running <$> ws) ≡ₚ running w ++ concat (running <$> <[i := w']> ws).
Proof.
  revert i. induction ws as [|x ws IH]; intros [|i] H; cbn in *; simplify_eq.
  - rewrite !app_assoc. apply Permutation_app_tail, Permutation_app_comm.
  - rewrite app_assoc (Permutation_app_comm (running w')) -app_assoc (IH i H) !app_assoc. apply Permutation_app_tail, Permutation_app_comm.
Qed.

Lemma exited_insert (ws : list worker) (i : nat) w : w <> Exited -> Exited ∈ <[i := w]> ws -> Exited ∈ ws.
Proof.
  intros Hw (j & Hj)%list_elem_of_lookup. destruct (decide (i = j)) as [->|Hij].
  - destruct (decide (j < length ws)%nat); [rewrite list_lookup_insert_eq // in Hj; congruence|].
    rewrite list_insert_ge in Hj; [|lia]. by eapply list_elem_of_lookup_2.
  - rewrite list_lookup_insert_ne // in Hj. by eapply list_elem_of_lookup_2.
Qed.

Lemma pool_step_inv p p' : pool_step p p' -> pool_inv p -> pool_inv p'.
Proof.
  intros S [H1 H2]. destruct S as [t q cap ws sub ex Hc|t cap ws i sub ex Hi|t q cap closed ws i sub ex Hi|t q cap closed ws i sub ex Hi|q cap ws sub ex|cap ws i sub ex Hi];
    cbn in *; split; cbn.
  - rewrite H1. by rewrite -!app_assoc.
  - intros Hx. by destruct (H2 Hx).
  - pose proof (running_set ws i Idle (Running t) Hi) as R. cbn in R. rewrite H1 !app_nil_r -R. rewrite -app_assoc. f_equiv. by rewrite Permutation_app_comm.
  - intros Hx. apply exited_insert in Hx; [|done]. by destruct (H2 Hx).
  - pose proof (running_set ws i Idle (Running t) Hi) as R. cbn in R. rewrite H1 -R. f_equiv. cbn. by rewrite Permutation_middle.
  - intros Hx. apply exited_insert in Hx; [|done]. by destruct (H2 Hx).
  - pose proof (running_set ws i (Running t) Idle Hi) as R. cbn in R. rewrite H1 R -!app_assoc. done.
  - intros Hx. apply exited_insert in Hx; [|done]. by apply H2.
  - done.
  - intros Hx. by destruct (H2 Hx).
  - pose proof (running_set ws i Idle Exited Hi) as R. cbn in R. by rewrite H1 R.
  - done.
Qed.

Lemma new_pool_inv workers queueSize : pool_inv (NewWorkerPool workers queueSize).
Proof.
  split; cbn.
  - rewrite app_nil_r. assert (concat (running <$> replicate workers Idle) = []) as ->; [|done]. by induction workers.
  - intros Hx. apply elem_of_replicate in Hx as [? _]. done.
Qed.

(** When [Close] of a pool with workers returns, every task that was submitted
    has been run exactly once. *)
Theorem pool_close_drains workers queueSize p : (0 < workers)%nat ->
  rtc pool_step (NewWorkerPool workers queueSize) p -> Close_returns p -> wp_executed p ≡ₚ wp_submitted p.
Proof.
  intros Hw Hr [_ Hex]. assert (K : pool_inv p /\ length (wp_workers p) = workers).
  { remember (NewWorkerPool workers queueSize) as p0 eqn:E0. assert (pool_inv p0 /\ length (wp_workers p0) = workers) as HI.
    { subst p0. split; [apply new_pool_inv|]. cbn. apply length_replicate. }
    clear E0 Hex. induction Hr as [|p0 p1 p2 S _ IH]; [done|]. apply IH. destruct HI as [I L]. split; [by eapply pool_step_inv|].
    rewrite -L. by destruct S; cbn; rewrite ?length_insert. }
  destruct K as [[H1 H2] L]. destruct (wp_workers p) as [|w ws] eqn:E; [cbn in L; lia|].
  destruct H2 as [_ Hq]; [apply Forall_cons in Hex as [-> _]; by left|]. rewrite H1 Hq app_nil_r.
  assert (concat (running <$> w :: ws) = []) as ->; [|by rewrite app_nil_r]. clear -Hex. by induction Hex as [|w' l -> _ IH].
Qed.

(** What is left to do in a closed pool. *)
Definition weight (w : worker) : nat := match w with Idle => 1 | Running _ => 2 | Exited => 0 end.
Definition pool_work (p : WorkerPool) : nat := 2 * length (wp_tasks p) + sum_list_with weight (wp_workers p).

Lemma weight_set (ws : list worker) (i : nat) w w' : ws !! i = Some w -> (sum_list_with weight (<[i := w']> ws) + weight w = sum_list_with weight ws + weight w')%nat.
Proof.
  revert i. induction ws as [|x ws IH]; intros [|i] H; cbn in H; simplify_eq; [cbn; lia|]. specialize (IH i H).
  change (<[S i := w']> (x :: ws)) with (x :: <[i := w']> ws). cbn [sum_list_with]. lia.
Qed.

(** A closed pool with workers can always step until [Close] returns, and every
    step leaves less to do: [Close] returns. *)
Theorem pool_close_returns p : wp_closed p = true -> pool_inv p -> (0 < length (wp_workers p))%nat ->
  (Close_returns p \/ exists p', pool_step p p') /\
  forall p', pool_step p p' -> wp_closed p' = true /\ (pool_work p' < pool_work p)%nat.
Proof.
  destruct p as [q cap closed ws sub ex]. cbn. intros -> [_ H2] Hl. cbn in H2. split.
  - destruct (decide (Forall (fun w => w = Exited) ws)) as [|N]; [by left|right].
    apply not_Forall_Exists in N; [|apply _]. apply Exists_exists in N as (w & [i Hi]%list_elem_of_lookup & Hw).
    destruct w as [|t|]; [|eexists; by eapply pool_finish|by destruct Hw]. destruct q as [|t q]; eexists; [by eapply pool_exit|by eapply pool_take].
  - intros p' S. inversion S as [| |t' q' cap' closed' ws' i sub' ex' Hi|t' q' cap' closed' ws' i sub' ex' Hi| |cap' ws' i sub' ex' Hi]; subst; cbn.
    + split; [done|]. pose proof (weight_set ws i Idle (Running t') Hi) as E. unfold pool_work. cbn [wp_tasks wp_workers length weight] in *. lia.
    + split; [done|]. pose proof (weight_set ws i (Running t') Idle Hi) as E. unfold pool_work. cbn [wp_tasks wp_workers length weight] in *. lia.
    + split; [done|]. pose proof (weight_set ws i Idle Exited Hi) as E. unfold pool_work. cbn [wp_tasks wp_workers length weight] in *. lia.
Qed.

End pool.

(** ** Turns *)

Section turns.
  Context {A : Type}.

(** The operations performed, in order, and what is left of each goroutine. *)
Fixpoint run_turns (turns : list nat) (ts : list (list A)) : option (list A * list (list A)) :=
  match turns with
  | [] => Some ([], ts)
  | i :: turns =>
      match ts !! i with
      | Some (a :: rest) => '(ops, remain) ← run_turns turns (<[i := rest]> ts); Some (a :: ops, remain)
      | _ => None
      end
  end.

(** Every goroutine has come to its end. *)
Definition all_done (ts : list (list A)) : bool := forallb (fun t => match t with [] => true | _ => false end) ts.

Lemma Forall3_insert_all {X Y Z} (P : X -> Y -> Z -> Prop) l k m i x y z : Forall3 P l k m -> P x y z -> Forall3 P (<[i := x]> l) (<[i := y]> k) (<[i := z]> m).
Proof. intros H Hp. revert i. induction H; intros [|i]; cbn; constructor; auto. Qed.

(** What a schedule performs is a beginning of each goroutine, mixed. *)
Lemma run_turns_split turns ts ops remain : run_turns turns ts = Some (ops, remain) ->
  exists begun, Forall3 (fun b l t => b ++ l = t) begun remain ts /\ ops ≡ₚ concat begun /\ Forall (fun b => b `sublist_of` ops) begun.
Proof.
  revert ts ops remain. induction turns as [|i turns IH]; intros ts ops remain; cbn.
  - intros [= <- <-]. exists (replicate (length ts) []). split_and!.
    + induction ts; constructor; done.
    + assert (H : concat (replicate (length ts) ([] : list A)) = []) by (by induction ts). by rewrite H.
    + apply Forall_replicate, sublist_nil_l.
  - destruct (ts !! i) as [[|a rest]|] eqn:Hi; [done| |done]. destruct (run_turns turns (<[i:=rest]> ts)) as [[ops' remain']|] eqn:Hr; [|done].
    cbn. intros [= <- <-]. destruct (IH _ _ _ Hr) as (begun & H3 & Hp & Hs).
    assert (Hlen : (i < length ts)%nat) by by eapply lookup_lt_Some.
    destruct (Forall3_lookup_r _ _ _ _ i rest H3) as (b & l & Hb & Hl & Hbl); [by rewrite list_lookup_insert_eq|].
    exists (<[i := a :: b]> begun). split_and!.
    + rewrite -(list_insert_id ts i (a :: rest) Hi) -(list_insert_insert_eq ts i (a :: rest) rest) -(list_insert_id remain' i l Hl). apply Forall3_insert_all; [done|]. cbn. by rewrite Hbl.
    + pose proof (take_drop_middle begun i b Hb) as Hm. rewrite insert_take_drop; [|by eapply lookup_lt_Some]. rewrite Hp -{1}Hm !concat_app. cbn [concat app]. rewrite -Permutation_middle. done.
    + apply Forall_insert; [eapply Forall_impl; [exact Hs|]; intros x Hx; by apply sublist_cons|]. rewrite Forall_lookup in Hs. apply sublist_skip. eauto.
Qed.

(** Once all are done, it performs all of each. *)
Lemma run_turns_done turns ts ops remain : run_turns turns ts = Some (ops, remain) -> all_done remain = true -> ops ≡ₚ concat ts /\ Forall (fun t => t `sublist_of` ops) ts.
Proof.
  intros Hr Hd. destruct (run_turns_split _ _ _ _ Hr) as (begun & H3 & Hp & Hs). assert (Hb : begun = ts); [|by subst].
  clear -H3 Hd. induction H3 as [|b l t begun remain ts E _ IH]; [done|]. cbn in Hd. apply andb_true_iff in Hd as [Hl Hd]. destruct l; [|done]. rewrite app_nil_r in E. subst. f_equal. auto.
Qed.

End turns.

(** ** Votes with a timeout *)

Section votes.
  Context (jitter : string -> Z) (race : string -> bool).

(** The answer comes after the delay of the network and what the scheduler adds
    to it; when it comes with the timeout, [race] says which is taken. *)
Definition networkDelay (peer : string) : Z := (50 + Z.of_nat (String.length peer) * 10) * ms.

Definition voteWithTimeout (peer : string) (timeout : Z) : option bool :=
  let at_ := networkDelay peer + jitter peer in
  if (at_ <? timeout) || ((at_ =? timeout) && race peer) then Some true else None.

Definition vote_peers : list string := ["node-1"; "node-2"; "node-3"; "node-4"].

Definition count_vote (s : list printed * Z) (peer : string) : list printed * Z :=
  let '(out, votes) := s in
  match voteWithTimeout peer (150 * ms) with
  | None => (out ++ [say "  %s: timeout/error (%v)" [ShStr peer; ShStr "context deadline exceeded"]], votes)
  | Some true => (out ++ [say "  %s: GRANTED" [ShStr peer]], votes + 1)
  | Some false => (out ++ [say "  %s: DENIED" [ShStr peer]], votes)
  end.

(** [arrive] is the order in which the goroutines take the lock. *)
Definition ContextCancellationDemo (arrive : list string) : list printed :=
  let '(out, votes) := fold_left count_vote arrive ([], 1) in
  let quorum := Z.quot (zlen vote_peers + 1) 2 + 1 in
  out ++ [say "Votes received: %d/%d, Quorum needed: %d" [ShInt votes; ShInt (zlen vote_peers + 1); ShInt quorum]; say "Election result: %v" [ShBool (quorum <=? votes)]].

End votes.

(** ** Fan-out and fan-in *)

Record AppendResult := mkAppendResult {
  ar_nodeID : string;
  ar_success : bool;
  ar_latency : Z;
}.

Definition send_append (nodeID : string) (latency : Z) : AppendResult := mkAppendResult nodeID (latency <? 100 * ms) latency.

Definition fan_followers : list (string * Z) := [("follower-1", 20 * ms); ("follower-2", 35 * ms); ("follower-3", 250 * ms); ("follower-4", 45 * ms)].

Definition quorumNeeded : Z := 2.

(** [since i] is the time since the start at the [i]-th result. *)
Fixpoint fan_in (since : nat -> Z) (i : nat) (results : list AppendResult) (acks : Z) (committed : bool) : list printed * Z :=
  match results with
  | [] => ([], acks)
  | result :: results =>
      let line := say "  %s: success=%v, latency=%v" [ShStr (ar_nodeID result); ShBool (ar_success result); ShInt (ar_latency result)] in
      if ar_success result then
        let acks := acks + 1 in
        let now := negb committed && (quorumNeeded <=? acks) in
        let '(out, final) := fan_in since (S i) results acks (committed || now) in
        (line :: say_if now (say "  COMMITTED after %v (quorum reached with %d/%d acks)" [ShInt (since i); ShInt acks; ShInt (zlen fan_followers)]) ++ out, final)
      else let '(out, final) := fan_in since (S i) results acks committed in (line :: out, final)
  end.

Definition FanOutFanIn (since : nat -> Z) (arrive : list (string * Z)) : list printed :=
  let '(out, acks) := fan_in since 0 (map (fun x => send_append x.1 x.2) arrive) 0 false in
  out ++ [say "  Final: %d/%d acknowledged" [ShInt acks; ShInt (zlen fan_followers)]].

(** ** Select with priority *)

Inductive select_phase := Polling | Selecting | Returned.

Record SelectLoop := mkSelectLoop {
  sl_ticksLeft : nat;
  sl_tickCh : nat;
  sl_msgsLeft : list string;
  sl_msgCh : list string;
  sl_timer : bool;
  sl_phase : select_phase;
  sl_processed : Z;
  sl_out : list printed;
}.

Inductive select_case := CaseTick | CaseMsg | CaseTimer.

(** The senders, the timer, the poll and the select with the case it takes; the
    channels have room for every tick and message. *)
Inductive select_step := SSendTick | SSendMsg | STimer | SPoll | SSelect (c : select_case).

Definition loop_messages : list string := ["AppendEntries"; "Vote"; "Put"; "Get"; "Put"; "Get"].
Definition loop_start : SelectLoop := mkSelectLoop 10 0 loop_messages [] false Polling 0 [].

Definition tick_line : printed := say "  [TICK] Processing heartbeat timer" [].

Definition SelectPriorityDemo (o : select_step) (s : SelectLoop) : option SelectLoop :=
  let '(mkSelectLoop tl tc ml mc timer phase n out) := s in
  match o, phase with
  | SSendTick, _ => match tl with S tl => Some (mkSelectLoop tl (S tc) ml mc timer phase n out) | O => None end
  | SSendMsg, _ => match ml with m :: ml => Some (mkSelectLoop tl tc ml (mc ++ [m]) timer phase n out) | [] => None end
  | STimer, _ => if timer then None else Some (mkSelectLoop tl tc ml mc true phase n out)
  | SPoll, Polling =>
      match tc with
      | S tc => Some (mkSelectLoop tl tc ml mc timer Polling (n + 1) (out ++ [tick_line]))
      | O => Some (mkSelectLoop tl tc ml mc timer Selecting n out)
      end
  | SSelect CaseTick, Selecting => match tc with S tc => Some (mkSelectLoop tl tc ml mc timer Polling (n + 1) (out ++ [tick_line])) | O => None end
  | SSelect CaseMsg, Selecting =>
      match mc with m :: mc => Some (mkSelectLoop tl tc ml mc timer Polling (n + 1) (out ++ [say "  [MSG]  Processing: %s" [ShStr m]])) | [] => None end
  | SSelect CaseTimer, Selecting => if timer then Some (mkSelectLoop tl tc ml mc timer Returned n (out ++ [say "Processed %d events total" [ShInt n]])) else None
  | _, _ => None
  end.

(** ** Atomic counters *)

Record NodeMetrics := mkNodeMetrics {
  nm_requestsTotal : Z;
  nm_bytesReceived : Z;
  nm_bytesSent : Z;
  nm_activeConns : Z;
  nm_raftCommitTotal : Z;
}.

Definition NewNodeMetrics : NodeMetrics := mkNodeMetrics 0 0 0 0 0.

Definition IncrRequests (m : NodeMetrics) : NodeMetrics :=
  mkNodeMetrics (i64 (nm_requestsTotal m + 1)) (nm_bytesReceived m) (nm_bytesSent m) (nm_activeConns m) (nm_raftCommitTotal m).
Definition AddBytesReceived (n : Z) (m : NodeMetrics) : NodeMetrics :=
  mkNodeMetrics (nm_requestsTotal m) (i64 (nm_bytesReceived m + n)) (nm_bytesSent m) (nm_activeConns m) (nm_raftCommitTotal m).
Definition add_conns (n : Z) (m : NodeMetrics) : NodeMetrics :=
  mkNodeMetrics (nm_requestsTotal m) (nm_bytesReceived m) (nm_bytesSent m) (i64 (nm_activeConns m + n)) (nm_raftCommitTotal m).
Definition IncrConnections : NodeMetrics -> NodeMetrics := add_conns 1.
Definition DecrConnections : NodeMetrics -> NodeMetrics := add_conns (-1).

Inductive metrics_op := MIncrRequests | MAddBytesReceived (n : Z) | MIncrConnections | MDecrConnections.

Definition metrics_apply (m : NodeMetrics) (o : metrics_op) : NodeMetrics :=
  match o with MIncrRequests => IncrRequests m | MAddBytesReceived n => AddBytesReceived n m | MIncrConnections => IncrConnections m | MDecrConnections => DecrConnections m end.

(** A simulated request. *)
Definition metrics_request : list metrics_op := [MIncrRequests; MAddBytesReceived 512; MIncrConnections; MDecrConnections].

(** [turns] is the schedule; [None] when it does not end every goroutine. *)
Definition AtomicMetricsDemo (n : nat) (turns : list nat) : option (list printed) :=
  '(ops, remain) ← run_turns turns (replicate n metrics_request);
  if all_done remain then
    let snapshot := fold_left metrics_apply ops NewNodeMetrics in
    Some [say "Requests:       %d (expected: 1000)" [ShInt (nm_requestsTotal snapshot)]; say "Bytes received: %d (expected: 512000)" [ShInt (nm_bytesReceived snapshot)];
          say "Active conns:   %d (expected: 0)" [ShInt (nm_activeConns snapshot)]]
  else None.

(** ** Goroutines *)

(** The value of the counter while the goroutines run; [peak] is the schedule
    up to the load. *)
Definition goroutine_ops : list Z := [1; -1].

Definition GoroutineVsOSThread (count : nat) (peak : list nat) (numGoroutine gomaxprocs elapsed : Z) : option (list printed) :=
  '(ops, _) ← run_turns peak (replicate count goroutine_ops);
  let running := fold_left (fun c d => i64 (c + d)) ops 0 in
  if (count =? 0)%nat then None
  else Some [say "Peak goroutines running:  %d" [ShInt running]; say "Go scheduler goroutines:  %d" [ShInt numGoroutine];
             say "Time to create+run %d goroutines: %v" [ShInt (Z.of_nat count); ShInt elapsed];
             say "Average per goroutine:            %v" [ShInt (Z.quot elapsed (Z.of_nat count))];
             say "KEY INSIGHT: We can handle %d concurrent connections" [ShInt (Z.of_nat count)];
             say "using only %d actual OS threads (GOMAXPROCS)" [ShInt gomaxprocs]].

Definition subsystems : list string := ["Raft-Timer"; "Client-Handler"; "Compaction"].

Definition subsystem_ops (name : string) : list (string * Z) := [(name, 1); (name, 2); (name, 3)].

Definition ContextSwitchDemo (turns : list nat) : option (list printed) :=
  '(results, remain) ← run_turns turns (map subsystem_ops subsystems);
  if all_done remain then Some (imap (fun i r => say "  %2d: %s (iteration %d)" [ShInt (Z.of_nat i + 1); ShStr r.1; ShInt r.2]) results) else None.

(** ** What the schedules show *)

Lemma filter_zlen_perm {A} (f : A -> bool) l k : l ≡ₚ k -> zlen (List.filter f l) = zlen (List.filter f k).
Proof. unfold zlen. intros Hp. f_equal. induction Hp as [|x l k _ IH|x y l|l k m _ IH1 _ IH2]; cbn; [done| | |lia]; destruct (f x); try destruct (f y); cbn; lia. Qed.

(** *** Votes *)

Section vote_result.
  Context (jitter : string -> Z) (race : string -> bool).

Definition grants (peer : string) : bool := match voteWithTimeout jitter race peer (150 * ms) with Some b => b | None => false end.

Lemma count_votes arrive out votes : exists lines, fold_left (count_vote jitter race) arrive (out, votes) = (out ++ lines, votes + zlen (List.filter grants arrive)).
Proof.
  revert out votes. induction arrive as [|p arrive IH]; intros out votes; cbn [fold_left List.filter]; [exists []; by rewrite app_nil_r Z.add_0_r|].
  unfold count_vote at 2, grants at 1. destruct (voteWithTimeout jitter race p (150 * ms)) as [[]|];
    [destruct (IH (out ++ [say "  %s: GRANTED" [ShStr p]]) (votes + 1)) as [l ->]|destruct (IH (out ++ [say "  %s: DENIED" [ShStr p]]) votes) as [l ->]|
     destruct (IH (out ++ [say "  %s: timeout/error (%v)" [ShStr p; ShStr "context deadline exceeded"]]) votes) as [l ->]];
    rewrite -app_assoc; eexists; f_equal; unfold zlen; cbn; lia.
Qed.

(** In every order of the answers the candidate has its own vote and one for
    each peer in time, and wins with two of them. *)
Theorem election_demo arrive : arrive ≡ₚ vote_peers -> let granted := zlen (List.filter grants vote_peers) in exists lines,
  ContextCancellationDemo jitter race arrive =
  lines ++ [say "Votes received: %d/%d, Quorum needed: %d" [ShInt (1 + granted); ShInt 5; ShInt 3]; say "Election result: %v" [ShBool (2 <=? granted)]].
Proof.
  intros Hp granted. unfold ContextCancellationDemo. destruct (count_votes arrive [] 1) as [lines ->].
  assert (Hl : zlen (List.filter grants arrive) = granted) by by apply filter_zlen_perm.
  rewrite Hl. exists lines. change (Z.quot (zlen vote_peers + 1) 2 + 1) with 3. change (zlen vote_peers + 1) with 5. do 5 f_equal. destruct (Z.leb_spec 3 (1 + granted)), (Z.leb_spec 2 granted); done || lia.
Qed.

(** A scheduler that adds less than forty milliseconds loses no vote. *)
Theorem prompt_votes : (forall p, p ∈ vote_peers -> jitter p < 40 * ms) -> zlen (List.filter grants vote_peers) = 4.
Proof.
  intros Hj. assert (Hg : forall p, p ∈ vote_peers -> grants p = true).
  { intros p Hp. pose proof (Hj p Hp). unfold grants, voteWithTimeout. assert (Hd : networkDelay p = 110 * ms) by (clear -Hp; unfold vote_peers in Hp; set_solver).
    rewrite Hd. destruct (Z.ltb_spec (110 * ms + jitter p) (150 * ms)); [done|lia]. }
  unfold vote_peers in *. cbn [List.filter]. rewrite !Hg //; set_solver.
Qed.

End vote_result.

(** *** Acknowledgements *)

Definition is_commit (p : printed) : bool := p_format p =?s "  COMMITTED after %v (quorum reached with %d/%d acks)".

Lemma fan_in_counts since i results acks committed : let k := zlen (List.filter ar_success results) in
  (fan_in since i results acks committed).2 = acks + k /\
  zlen (List.filter is_commit (fan_in since i results acks committed).1) = if negb committed && (quorumNeeded <=? acks + k) && (0 <? k) then 1 else 0.
Proof.
  revert i acks committed. induction results as [|r results IH]; intros i acks committed; cbn zeta; [cbn; rewrite andb_false_r; split; [unfold zlen; cbn; lia|done]|].
  assert (Hk : 0 <= zlen (List.filter ar_success results)) by (unfold zlen; lia). cbn [fan_in List.filter]. destruct (ar_success r).
  - set (now := negb committed && (quorumNeeded <=? acks + 1)). destruct (IH (S i) (acks + 1) (committed || now)) as [H1 H2].
    destruct (fan_in since (S i) results (acks + 1) (committed || now)) as [out final]. cbn [fst snd] in *. rewrite zlen_cons. split; [lia|].
    cbn [List.filter]. change (is_commit _) with false at 1. cbn match. rewrite List.filter_app. unfold zlen in *. rewrite length_app Nat2Z.inj_add H2. subst now. unfold quorumNeeded in *.
    destruct committed; cbn [negb andb orb say_if]; [done|]. destruct (Z.leb_spec 2 (acks + 1)); cbn [negb andb orb say_if List.filter length is_commit];
      repeat (match goal with |- context [?a <=? ?b] => destruct (Z.leb_spec a b) | |- context [?a <? ?b] => destruct (Z.ltb_spec a b) end); cbn; lia.
  - destruct (IH (S i) acks committed) as [H1 H2]. destruct (fan_in since (S i) results acks committed) as [out final]. by cbn [fst snd] in *.
Qed.

(** Whatever the order of the answers, three followers acknowledge and the
    entry is committed once. *)
Theorem fan_in_demo since arrive : arrive ≡ₚ fan_followers -> exists out,
  FanOutFanIn since arrive = out ++ [say "  Final: %d/%d acknowledged" [ShInt 3; ShInt 4]] /\ zlen (List.filter is_commit out) = 1.
Proof.
  intros Hp. unfold FanOutFanIn. destruct (fan_in_counts since 0 (map (fun x => send_append x.1 x.2) arrive) 0 false) as [H1 H2].
  assert (Hk : zlen (List.filter ar_success (map (fun x => send_append x.1 x.2) arrive)) = 3) by by rewrite (filter_zlen_perm ar_success _ _ (Permutation_map _ Hp)).
  rewrite Hk in H1 H2. destruct (fan_in _ _ _ _ _) as [out acks]. cbn [fst snd] in *. exists out. rewrite H1. by split.
Qed.

(** When the answers come in the order of their latencies, the second one
    commits the entry: that of the follower with 35 milliseconds. *)
Theorem fan_in_commits_second since : fan_in since 0 (map (fun x => send_append x.1 x.2) [("follower-1", 20 * ms); ("follower-2", 35 * ms); ("follower-4", 45 * ms); ("follower-3", 250 * ms)]) 0 false =
  ([say "  %s: success=%v, latency=%v" [ShStr "follower-1"; ShBool true; ShInt (20 * ms)]; say "  %s: success=%v, latency=%v" [ShStr "follower-2"; ShBool true; ShInt (35 * ms)];
    say "  COMMITTED after %v (quorum reached with %d/%d acks)" [ShInt (since 1%nat); ShInt 2; ShInt 4];
    say "  %s: success=%v, latency=%v" [ShStr "follower-4"; ShBool true; ShInt (45 * ms)]; say "  %s: success=%v, latency=%v" [ShStr "follower-3"; ShBool false; ShInt (250 * ms)]], 3).
Proof. reflexivity. Qed.

(** *** The select loop *)

Definition message_of (p : printed) : list string :=
  if p_format p =?s "  [MSG]  Processing: %s" then match p_values p with [ShStr m] => [m] | _ => [] end else [].

Definition is_tick (p : printed) : bool := p_format p =?s "  [TICK] Processing heartbeat timer".

(** Nothing is lost: what was processed, what waits in the channels and what is
    still to be sent are all the ticks and messages, the messages in order. *)
Definition select_inv (s : SelectLoop) : Prop :=
  sl_processed s = zlen (List.filter is_tick (sl_out s)) + zlen (flat_map message_of (sl_out s)) /\
  zlen (List.filter is_tick (sl_out s)) + Z.of_nat (sl_tickCh s) + Z.of_nat (sl_ticksLeft s) = 10 /\
  flat_map message_of (sl_out s) ++ sl_msgCh s ++ sl_msgsLeft s = loop_messages.

Ltac select_inv_tac := rewrite ?List.filter_app ?flat_map_app /zlen ?length_app; cbn [List.filter flat_map is_tick message_of tick_line p_format p_values app length String.eqb Ascii.eqb Bool.eqb]; rewrite ?app_nil_r -?app_assoc.

Lemma select_inv_step o s s' : select_inv s -> SelectPriorityDemo o s = Some s' -> select_inv s'.
Proof.
  destruct s as [tl tc ml mc timer phase n out]. unfold select_inv. cbn [sl_processed sl_out sl_tickCh sl_ticksLeft sl_msgCh sl_msgsLeft]. intros (H1 & H2 & H3).
  destruct o as [| | | |[]], phase; cbn [SelectPriorityDemo]; try done; try (destruct tl as [|tl]; [done|]); try (destruct ml as [|m ml]; [done|]); try (destruct mc as [|m mc]; [done|]);
    try (destruct timer; [done|]); try (destruct timer; [|done]); try (destruct tc as [|tc]; try done); intros [= <-]; cbn [sl_processed sl_out sl_tickCh sl_ticksLeft sl_msgCh sl_msgsLeft];
    select_inv_tac; unfold zlen in *; rewrite ?length_app; cbn [length]; split_and!; try done; try lia.
  all: rewrite -H3; by rewrite -?app_assoc.
Qed.

Theorem select_loses_nothing os s : run_steps SelectPriorityDemo os loop_start = Some s -> select_inv s.
Proof.
  assert (H0 : select_inv loop_start) by by split_and!. revert H0. generalize loop_start. induction os as [|o os IH]; intros s0 H0; cbn; [by intros [= <-]|].
  destruct (SelectPriorityDemo o s0) as [s1|] eqn:E; [|done]. cbn. apply IH. by eapply select_inv_step.
Qed.

(** Once the timer has fired, the loop can take its waiting ticks and return. *)
Theorem select_can_return s : sl_timer s = true -> sl_phase s = Polling -> exists s',
  run_steps SelectPriorityDemo (replicate (S (sl_tickCh s)) SPoll ++ [SSelect CaseTimer]) s = Some s' /\ sl_phase s' = Returned /\ sl_tickCh s' = 0%nat /\
  sl_processed s' = sl_processed s + Z.of_nat (sl_tickCh s).
Proof.
  destruct s as [tl tc ml mc timer phase n out]. cbn [sl_timer sl_phase sl_tickCh sl_processed]. intros -> ->. revert n out. induction tc as [|tc IH]; intros n out.
  - eexists. split; [reflexivity|]. cbn. split_and!; [done|done|lia].
  - destruct (IH (n + 1) (out ++ [tick_line])) as (s' & Hs & H1 & H2 & H3). exists s'. split_and!; [|done|done|lia]. rewrite -Hs. reflexivity.
Qed.

(** A tick that comes between the poll and the select can wait for a message. *)
Example select_tick_overtaken : exists s, run_steps SelectPriorityDemo [SSendMsg; SPoll; SSendTick; SSelect CaseMsg] loop_start = Some s /\
  flat_map message_of (sl_out s) = ["AppendEntries"] /\ sl_tickCh s = 1%nat.
Proof. eexists. split; [reflexivity|]. done. Qed.

(** *** Counters *)

Definition zsum {A} (f : A -> Z) (l : list A) : Z := foldr (fun x s => f x + s) 0 l.

Lemma zsum_app {A} (f : A -> Z) l k : zsum f (l ++ k) = zsum f l + zsum f k.
Proof. induction l as [|x l IH]; cbn; [done|]. unfold zsum in *. rewrite IH. lia. Qed.

Lemma zsum_perm {A} (f : A -> Z) l k : l ≡ₚ k -> zsum f l = zsum f k.
Proof. unfold zsum. induction 1; cbn; lia. Qed.

Lemma zsum_concat {A} (f : A -> Z) (ls : list (list A)) : zsum f (concat ls) = zsum (zsum f) ls.
Proof. induction ls as [|l ls IH]; [done|]. cbn [concat]. rewrite zsum_app IH. done. Qed.

Lemma zsum_replicate {A} (f : A -> Z) n x : zsum f (replicate n x) = Z.of_nat n * f x.
Proof. induction n as [|n IH]; [done|]. change (zsum f (replicate (S n) x)) with (f x + zsum f (replicate n x)). rewrite IH. lia. Qed.

Lemma fold_field {M O} (apply : M -> O -> M) (field : M -> Z) (delta : O -> Z) ops m : (forall m o, is_i64 (field m) -> field (apply m o) = i64 (field m + delta o)) ->
  is_i64 (field m) -> field (fold_left apply ops m) = i64 (field m + zsum delta ops).
Proof.
  intros Hf. revert m. induction ops as [|o ops IH]; intros m Hm; cbn [fold_left]; [cbn; rewrite Z.add_0_r i64_small //|].
  rewrite IH; [|rewrite Hf //; apply i64_range]. rewrite Hf // i64_add_l. f_equal. cbn. unfold zsum. lia.
Qed.

(** What a schedule has added to a counter, when each goroutine has added one or
    nothing at every point of its run. *)
Lemma turns_bounded {A} (delta : A -> Z) t n turns ops remain : (forall b l, b ++ l = t -> 0 <= zsum delta b <= 1) ->
  run_turns turns (replicate n t) = Some (ops, remain) -> 0 <= zsum delta ops <= Z.of_nat n.
Proof.
  intros Ht Hr. destruct (run_turns_split _ _ _ _ Hr) as (begun & H3 & Hp & _). rewrite (zsum_perm _ _ _ Hp) zsum_concat. clear -Ht H3.
  revert begun remain H3. induction n as [|n IH]; intros begun remain H3; [inversion H3; cbn; lia|]. cbn [replicate] in H3. apply Forall3_cons_inv_r in H3 as (b & bs & l & ls & -> & -> & E & H3').
  specialize (IH _ _ H3'). pose proof (Ht b l E). change (zsum (zsum delta) (b :: bs)) with (zsum delta b + zsum (zsum delta) bs). lia.
Qed.

Definition d_requests (o : metrics_op) : Z := match o with MIncrRequests => 1 | _ => 0 end.
Definition d_bytes (o : metrics_op) : Z := match o with MAddBytesReceived n => n | _ => 0 end.
Definition d_conns (o : metrics_op) : Z := match o with MIncrConnections => 1 | MDecrConnections => -1 | _ => 0 end.

Lemma metrics_fields ops : let m := fold_left metrics_apply ops NewNodeMetrics in
  nm_requestsTotal m = i64 (zsum d_requests ops) /\ nm_bytesReceived m = i64 (zsum d_bytes ops) /\ nm_activeConns m = i64 (zsum d_conns ops).
Proof.
  assert (K : forall field delta, (forall m o, is_i64 (field m) -> field (metrics_apply m o) = i64 (field m + delta o)) -> field NewNodeMetrics = 0 ->
    field (fold_left metrics_apply ops NewNodeMetrics) = i64 (zsum delta ops)).
  { intros field delta Hf H0. rewrite (fold_field _ field delta) //; [by rewrite H0|]. rewrite H0. unfold is_i64. lia. }
  cbn zeta. split_and!; (apply K; [|done]); intros m [] Hm; cbn; try done; by rewrite Z.add_0_r i64_small.
Qed.

(** Every schedule of the requests counts each of them once and leaves no
    connection. *)
Theorem metrics_exact n turns out : 512 * Z.of_nat n < two63 -> AtomicMetricsDemo n turns = Some out ->
  map p_values out = [[ShInt (Z.of_nat n)]; [ShInt (512 * Z.of_nat n)]; [ShInt 0]].
Proof.
  intros Hn. unfold AtomicMetricsDemo. destruct (run_turns turns (replicate n metrics_request)) as [[ops remain]|] eqn:Hr; [|done]. cbn [mbind option_bind].
  destruct (all_done remain) eqn:Hd; [|done]. intros [= <-]. destruct (run_turns_done _ _ _ _ Hr Hd) as [Hp _]. destruct (metrics_fields ops) as (H1 & H2 & H3). cbn [map p_values].
  rewrite H1 H2 H3 !(zsum_perm _ _ _ Hp) !zsum_concat !zsum_replicate. change (zsum d_requests metrics_request) with 1. change (zsum d_bytes metrics_request) with 512. change (zsum d_conns metrics_request) with 0.
  rewrite !i64_small; [|lia..]. by rewrite Z.mul_1_r Z.mul_0_r (Z.mul_comm _ 512).
Qed.

(** While they run, the connections are never negative and at most the requests. *)
Theorem metrics_conns_bounded n turns ops remain : Z.of_nat n < two63 -> run_turns turns (replicate n metrics_request) = Some (ops, remain) ->
  0 <= nm_activeConns (fold_left metrics_apply ops NewNodeMetrics) <= Z.of_nat n.
Proof.
  intros Hn Hr. destruct (metrics_fields ops) as (_ & _ & ->). assert (Hb : 0 <= zsum d_conns ops <= Z.of_nat n); [|rewrite i64_small; lia].
  eapply turns_bounded; [|exact Hr]. intros b l E. do 5 (destruct b as [|? b]; [cbn; lia|cbn in E; try discriminate E; injection E as -> E; cbn in *]).
Qed.

(** Goroutine after goroutine is a schedule that ends. *)
Theorem metrics_some_schedule n : is_Some (AtomicMetricsDemo n (flat_map (fun i => [i; i; i; i]) (seq 0 n))).
Proof.
  unfold AtomicMetricsDemo. assert (K : forall k, exists ops, run_turns (flat_map (fun i => [i; i; i; i]) (seq k n)) (replicate k [] ++ replicate n metrics_request) = Some (ops, replicate (k + n) [])).
  { induction n as [|n IH]; intros k; [exists []; by rewrite app_nil_r Nat.add_0_r|]. cbn [seq flat_map app run_turns replicate].
    assert (Hi : forall t, (replicate k [] ++ t :: replicate n metrics_request) !! k = Some t) by (intros t; rewrite list_lookup_middle //; by rewrite length_replicate).
    assert (Hs : forall t u, <[k := u]> (replicate k [] ++ t :: replicate n metrics_request) = replicate k [] ++ u :: replicate n metrics_request)
      by (intros t u; rewrite -{1}(length_replicate k (@nil metrics_op)) -{1}(Nat.add_0_r (length (replicate k []))) insert_app_r; done).
    unfold metrics_request at 1. do 4 (rewrite Hi Hs; cbn [run_turns]). destruct (IH (S k)) as [ops Ho].
    assert (Hrep : replicate (S k) [] ++ replicate n metrics_request = replicate k [] ++ [] :: replicate n metrics_request) by (rewrite replicate_S_end -app_assoc; done).
    rewrite Hrep in Ho. rewrite Ho. eexists. cbn [mbind option_bind]. by rewrite Nat.add_succ_r. }
  destruct (K 0%nat) as [ops Ho]. cbn [replicate app] in Ho. rewrite Ho. cbn [mbind option_bind Nat.add]. assert (Hd : forall m, all_done (replicate m ([] : list metrics_op)) = true) by (intros m; clear; by induction m). rewrite Hd. by eexists.
Qed.

(** *** Goroutines *)

(** The peak is between none and all of the goroutines. *)
Theorem peak_bounded count peak g p e out : Z.of_nat count < two63 -> GoroutineVsOSThread count peak g p e = Some out ->
  exists k, 0 <= k <= Z.of_nat count /\ head out = Some (say "Peak goroutines running:  %d" [ShInt k]).
Proof.
  intros Hc. unfold GoroutineVsOSThread. destruct (run_turns peak (replicate count goroutine_ops)) as [[ops remain]|] eqn:Hr; [|done]. cbn [mbind option_bind].
  destruct (count =? 0)%nat; [done|]. intros [= <-]. exists (fold_left (fun c d => i64 (c + d)) ops 0). split; [|done].
  pose proof (fold_field (fun c d => i64 (c + d)) (fun c => c) id ops 0 (fun m o _ => eq_refl) ltac:(unfold is_i64; lia)) as Hf. cbn beta in Hf. rewrite Hf Z.add_0_l. assert (Hb : 0 <= zsum id ops <= Z.of_nat count); [|rewrite i64_small; lia].
  eapply turns_bounded; [|exact Hr]. intros b l E. do 3 (destruct b as [|? b]; [cbn; lia|cbn in E; try discriminate E; injection E as -> E; cbn in *]).
Qed.

(** The subsystems run three times each, in order, mixed in any way. *)
Theorem switches_in_order turns out : ContextSwitchDemo turns = Some out -> exists results,
  out = imap (fun i r => say "  %2d: %s (iteration %d)" [ShInt (Z.of_nat i + 1); ShStr r.1; ShInt r.2]) results /\
  results ≡ₚ flat_map subsystem_ops subsystems /\ Forall (fun name => subsystem_ops name `sublist_of` results) subsystems.
Proof.
  unfold ContextSwitchDemo. destruct (run_turns turns (map subsystem_ops subsystems)) as [[results remain]|] eqn:Hr; [|done]. cbn [mbind option_bind].
  destruct (all_done remain) eqn:Hd; [|done]. intros [= <-]. exists results. destruct (run_turns_done _ _ _ _ Hr Hd) as [Hp Hs]. split_and!; [done|exact Hp|]. by apply Forall_fmap in Hs.
Qed.

(** ** Networking *)

(** One exchange of [runClient] with the server's loop: the write fails or not,
    the server reads the message and answers, the client reads the answer. *)
Definition preview (msg : bytes) : bytes := if 40 <? zlen msg then take 40 msg ++ bytes_of_string "..." else msg.

Definition exchange (msg : bytes) : read_error + bytes :=
  match readMessage (writeMessage msg) with
  | inl err => inl err
  | inr (received, _) => match readMessage (writeMessage (ACK ++ received)) with inl err => inl err | inr (ack, _) => inr ack end
  end.

(** [writes i] says whether the [i]-th write succeeds, [rtt i] how long the
    exchange takes. *)
Fixpoint client_loop (writes : nat -> bool) (rtt : nat -> Z) (i : nat) (msgs : list bytes) : list printed :=
  match msgs with
  | [] => []
  | msg :: msgs =>
      if negb (writes i) then [say "Client: write error: %v" []]
      else
        match exchange msg with
        | inl _ => [say "Client: read error: %v" []]
        | inr ack => say "Client: sent %q | got %q | RTT: %v" [ShBytes (preview msg); ShBytes ack; ShInt (rtt i)] :: client_loop writes rtt (S i) msgs
        end
  end.

Definition client_messages : list bytes := map bytes_of_string
  ["AppendEntries{term:1, leaderId:node1, entries:[{index:1,cmd:'PUT k1 v1'}]}"; "AppendEntries{term:1, leaderId:node1, entries:[{index:2,cmd:'PUT k2 v2'}]}";
   "Heartbeat{term:1, leaderId:node1}"].

Definition runClient (dialed : bool) (addr : string) (writes : nat -> bool) (rtt : nat -> Z) : list printed :=
  if negb dialed then [say "Client: dial error: %v" []]
  else say "Client: connected to %s" [ShStr addr] :: client_loop writes rtt 0 client_messages.

(** The partition of five nodes, and its end. *)
Definition minority : list string := ["node-1"; "node-2"].
Definition majority : list string := ["node-3"; "node-4"; "node-5"].

Definition each_pair (f : string -> string -> partition_table -> partition_table) (t : partition_table) : partition_table :=
  fold_left (fun t a => fold_left (fun t b => f a b t) majority t) minority t.

Definition pair_lines (fmt : string) : list printed := flat_map (fun a => map (fun b => say fmt [ShStr a; ShStr b]) majority) minority.

(** The table while the switch is down, the table afterwards, and the lines. *)
Definition NetworkConceptsDemo : partition_table * partition_table * list printed :=
  let cut := each_pair table_Partition ∅ in
  let healed := each_pair table_Heal cut in
  (cut, healed, pair_lines "PARTITION: %s <-x-> %s" ++ pair_lines "HEALED:    %s <--> %s").

Definition demonstrateConnLatency (newConnDur reuseDur : Z) : list printed :=
  [say "  %d new connections:    %v (avg %v/req)" [ShInt 100; ShInt newConnDur; ShInt (Z.quot newConnDur 100)];
   say "  %d reused connections: %v (avg %v/req)" [ShInt 100; ShInt reuseDur; ShInt (Z.quot reuseDur 100)]].

(** ** Storage *)

Definition throughputMBs (n d : Z) : float64 := fdiv (fdiv (fdiv (f64 n) (Seconds d)) (f64 1024)) (f64 1024).
Definition throughputGBs (n d : Z) : float64 := fdiv (throughputMBs n d) (f64 1024).

Definition measureRAM (writeTime readTime : Z) : list printed :=
  let size := 100 * 1024 * 1024 in
  [say "RAM write (100MB): %v (%.1f GB/s)" [ShInt writeTime; ShFloat (throughputGBs size writeTime)];
   say "RAM read  (100MB): %v (%.1f GB/s)" [ShInt readTime; ShFloat (throughputGBs size readTime)]].

Definition measureDiskSequential (d : Z) : list printed :=
  [say "Disk sequential (4MB, buffered): %v (%.1f MB/s)" [ShInt d; ShFloat (throughputMBs (1000 * 4096) d)]].

Definition measureDiskWithFsync (d : Z) : list printed :=
  [say "Disk + fsync    (%d ops):         %v (avg %v/fsync)" [ShInt 20; ShInt d; ShInt (Z.quot d 20)];
   say "  WAL write + fsync ~ %v per entry (minimum linearizable write latency)" [ShInt (Z.quot d 20)]].

(** [WriteAt] inside a file. *)
Definition WriteAt (block : bytes) (offset : nat) (file : bytes) : bytes := take offset file ++ block ++ drop (offset + length block) file.

Definition blockSize : nat := Z.to_nat 4096.
Definition rand_offset (ops i : nat) : nat := (i * 17 mod ops) * blockSize.

(** The file of the random writes; [ops] is 500. *)
Definition random_writes (ops : nat) (block file : bytes) : bytes := fold_left (fun file i => WriteAt block (rand_offset ops i) file) (seq 0 ops) file.

Definition demonstrateWritePatterns (seqTime randTime : Z) : list printed :=
  [say "Sequential (%d x 4KB): %v (%.1f MB/s)" [ShInt 500; ShInt seqTime; ShFloat (throughputMBs (500 * 4096) seqTime)];
   say "Random     (%d x 4KB): %v (%.1f MB/s)" [ShInt 500; ShInt randTime; ShFloat (throughputMBs (500 * 4096) randTime)]].

Definition demonstrateFsyncCost (singleFsync groupTime : Z) : list printed :=
  [say "Single fsync:          %v" [ShInt singleFsync];
   say "Max throughput:        %.0f writes/sec (one fsync per write)" [ShFloat (fdiv (f64 1) (Seconds singleFsync))];
   say "Group commit (%d writes, 1 fsync): %v" [ShInt 100; ShInt groupTime];
   say "Effective throughput:  %.0f writes/sec" [ShFloat (fdiv (f64 100) (Seconds groupTime))]].

(** [CreateTemp] with the name it chooses, and what [tempFile] gives to clean up. *)
Definition tempFile (name : string) (files : gmap string bytes) : gmap string bytes := <[name := []]> files.
Definition cleanup (name : string) (files : gmap string bytes) : gmap string bytes := delete name files.

(** [os.Open], [Read] and [Close]: an open that fails gives no file, and reading
    from no file reads nothing. *)
Definition readFile (name : string) (size : nat) (files : gmap string bytes) : bytes :=
  match files !! name with Some content => take size content | None => [] end.

(** The bytes that the two reads get, and the lines. *)
Definition demonstratePageCache (name : string) (payload : bytes) (coldRead warmRead : Z) (files : gmap string bytes) : bytes * bytes * gmap string bytes * list printed :=
  let files := tempFile name files in
  let files := <[name := payload]> files in
  let files := cleanup name files in
  let cold := readFile name (length payload) files in
  let warm := readFile name (length payload) files in
  (cold, warm, delete name files,
   [say "Cold read (10MB, first):  %v" [ShInt coldRead]; say "Warm read (10MB, cached): %v" [ShInt warmRead]] ++
   say_if (0 <? warmRead) (say "Page cache speedup:       %.1fx" [ShFloat (fdiv (f64 coldRead) (f64 warmRead))])).

(** ** Memory *)

(** The page that is mapped. *)
Definition mmap_title : bytes := bytes_of_string "Hermes SSTable Block Data".
Definition mmap_page (size : nat) : bytes :=
  let data := mmap_title ++ replicate (size - length mmap_title) (byte_of_Z 0) in
  fold_left (fun data i => <[i := byte_of_Z (Z.of_nat i mod 256)]> data) (seq 24 (size - 24)) data.

Definition demonstrateMmap (created mapped : bool) (address : Z) : list printed :=
  if negb created then [say "Error creating temp file: %v" []]
  else if negb mapped then [say "mmap failed: %v" []]
  else [say "mmap address:     %p" [ShInt address]; say "First 25 bytes:   %s" [ShBytes (take 25 (mmap_page (Z.to_nat 4096)))]].

Definition demonstrateGCPressure (allocationTime gcTime numGCBefore numGCAfter : Z) : list printed :=
  [say "Allocated 100MB of 1KB objects: %v" [ShInt allocationTime]; say "GC collection time:             %v" [ShInt gcTime];
   say "GC runs:                        %d" [ShInt ((numGCAfter - numGCBefore) mod two32)]].

Definition SyncPoolDemo (noPoolTime withPoolTime : Z) : list printed :=
  [say "Without pool (%d iterations): %v" [ShInt 100000; ShInt noPoolTime]; say "With pool    (%d iterations): %v" [ShInt 100000; ShInt withPoolTime];
   say "Speedup: %.2fx" [ShFloat (fdiv (f64 noPoolTime) (f64 withPoolTime))]].

(** ** System calls *)

(** The file after the writes that succeed, up to the first that fails. *)
Fixpoint buffered_writes (fails : nat -> bool) (i n : nat) (data file : bytes) : bool * bytes :=
  match n with
  | O => (true, file)
  | S n => if fails i then (false, file) else buffered_writes fails (S i) n data (file ++ data)
  end.

Definition wal_line : bytes := bytes_of_string "Hermes WAL Entry: {term:1, index:1, command:'PUT key1 value1'}" ++ [byte_of_Z 10].

Definition SystemCallsDemo (created : bool) (fails : nat -> bool) (bufferedTime fsyncTime : Z) (linux : bool) (tmpFd : Z) : list printed :=
  if negb created then [say "Error: %v" []]
  else
    let '(ok, _) := buffered_writes fails 0 (Z.to_nat 1000) wal_line [] in
    if negb ok then [say "Write error: %v" []]
    else
      [say "   1000 buffered writes: %v (FAST - just writing to RAM)" [ShInt bufferedTime]; say "   One fsync(): %v (SLOW - waiting for disk hardware)" [ShInt fsyncTime]] ++
      (if linux then [say "   read:   syscall #%d" [ShInt 0]; say "   write:  syscall #%d" [ShInt 1]; say "   open:   syscall #%d" [ShInt 2];
                      say "   fsync:  syscall #%d" [ShInt 74]; say "   socket: syscall #%d" [ShInt 41]] else []) ++
      [say "   stdin fd:  %d" [ShInt 0]; say "   stdout fd: %d" [ShInt 1]; say "   stderr fd: %d" [ShInt 2]; say "   tmpFile fd: %d" [ShInt tmpFd]].

(** ** The process *)

Definition ProcessInfo (pid ppid : Z) (hostname : string) (gomaxprocs numCPU numGoroutine heapAlloc heapSys nextGC numGC : Z) : list printed :=
  [say "Process ID (PID):         %d" [ShInt pid]; say "Parent Process ID (PPID): %d" [ShInt ppid]; say "Hostname:                 %s" [ShStr hostname];
   say "Node Identity:            %s:%d" [ShStr hostname; ShInt pid]; say "GOMAXPROCS (logical CPUs used):  %d" [ShInt gomaxprocs];
   say "Number of CPU cores available:   %d" [ShInt numCPU]; say "Current goroutine count:          %d" [ShInt numGoroutine];
   say "Heap allocated:                  %d MB" [ShInt (heapAlloc / 1024 / 1024)]; say "Heap system:                     %d MB" [ShInt (heapSys / 1024 / 1024)];
   say "Next GC at:                      %d MB" [ShInt (nextGC / 1024 / 1024)]; say "GC runs so far:                  %d" [ShInt numGC]].

(** ** What the measurements show *)

Lemma exchange_acks msg : zlen msg + 5 < two32 -> exchange msg = inr (ACK ++ msg).
Proof.
  intros Hm. unfold exchange. pose proof (message_roundtrip msg [] ltac:(lia)) as H1. rewrite app_nil_r in H1. rewrite H1.
  assert (H5 : zlen (ACK ++ msg) < two32) by (unfold zlen in *; rewrite length_app; change (length ACK) with 5%nat; lia).
  pose proof (message_roundtrip (ACK ++ msg) [] H5) as H2. rewrite app_nil_r in H2. by rewrite H2.
Qed.

(** Every message is acknowledged with its text, as long as the writes succeed. *)
Theorem client_acknowledged writes rtt i msgs : (forall j, writes j = true) -> Forall (fun m => zlen m + 5 < two32) msgs ->
  client_loop writes rtt i msgs = imap (fun k m => say "Client: sent %q | got %q | RTT: %v" [ShBytes (preview m); ShBytes (ACK ++ m); ShInt (rtt (i + k)%nat)]) msgs.
Proof.
  intros Hw Hm. revert i. induction Hm as [|m msgs Hm _ IH]; intros i; [done|]. cbn [client_loop imap]. rewrite Hw exchange_acks //. cbn [negb]. rewrite Nat.add_0_r. f_equal.
  rewrite IH. apply imap_ext. intros k x _. cbn. by rewrite Nat.add_succ_r.
Qed.

(** While the switch is down nobody talks across it and everybody on its side;
    afterwards everybody talks. *)
Theorem switch_demo a b : a ∈ minority ++ majority -> b ∈ minority ++ majority -> let '(cut, healed, _) := NetworkConceptsDemo in
  CanCommunicate a b cut = bool_decide (a ∈ minority) && bool_decide (b ∈ minority) || bool_decide (a ∈ majority) && bool_decide (b ∈ majority) /\ CanCommunicate a b healed = true.
Proof.
  assert (H : forallb (fun a => forallb (fun b => let '(cut, healed, _) := NetworkConceptsDemo in
    Bool.eqb (CanCommunicate a b cut) (bool_decide (a ∈ minority) && bool_decide (b ∈ minority) || bool_decide (a ∈ majority) && bool_decide (b ∈ majority)) && CanCommunicate a b healed)
    (minority ++ majority)) (minority ++ majority) = true) by (by vm_compute).
  intros Ha Hb. rewrite forallb_forall in H. apply list_elem_of_In, H in Ha. rewrite forallb_forall in Ha. apply list_elem_of_In, Ha in Hb.
  destruct NetworkConceptsDemo as [[cut healed] lines]. by apply andb_true_iff in Hb as [Hb%eqb_prop Hh].
Qed.

(** The file of the page cache is removed before it is read: both reads get
    nothing, whatever was written. *)
Theorem page_cache_reads_nothing name payload c w files : (demonstratePageCache name payload c w files).1.1 = ([], []) /\ (demonstratePageCache name payload c w files).1.2 = delete name files.
Proof.
  unfold demonstratePageCache, cleanup, tempFile, readFile. cbn [fst snd]. rewrite lookup_delete_eq. split; [done|]. apply map_eq. intros k. destruct (decide (k = name)) as [->|]; [by rewrite !lookup_delete_eq|]. by rewrite !lookup_delete_ne // !lookup_insert_ne.
Qed.

(** The loop that fills the page overwrites the last byte of the title. *)
Theorem mmap_title_cut : forall address, demonstrateMmap true true address =
  [say "mmap address:     %p" [ShInt address]; say "First 25 bytes:   %s" [ShBytes (bytes_of_string "Hermes SSTable Block Dat" ++ [byte_of_Z 24])]].
Proof. intros address. unfold demonstrateMmap. cbn [negb]. assert (H : take 25 (mmap_page (Z.to_nat 4096)) = bytes_of_string "Hermes SSTable Block Dat" ++ [byte_of_Z 24]) by (by vm_compute). by rewrite H. Qed.

(** The random writes touch every block of the file once. *)
Theorem random_writes_cover : map (rand_offset 500) (seq 0 500) ≡ₚ map (fun i => (i * blockSize)%nat) (seq 0 500).
Proof.
  assert (Hp : map (fun i => (i * 17 mod 500)%nat) (seq 0 500) ≡ₚ seq 0 500).
  { apply NoDup_Permutation_bis; [|done|].
    { apply Finite.Injective_map_NoDup_in; [|apply seq_NoDup]. intros i j Hi%in_seq Hj%in_seq E. apply (f_equal Z.of_nat) in E. rewrite !Nat2Z.inj_mod !Nat2Z.inj_mul in E.
      Z.to_euclidean_division_equations. lia. }
    intros x Hx. apply in_map_iff in Hx as (i & <- & _). apply in_seq. pose proof (Nat.mod_upper_bound (i * 17) 500 ltac:(lia)). lia. }
  rewrite -{2}Hp map_map. done.
Qed.

Lemma WriteAt_length block offset file : (offset + length block <= length file)%nat -> length (WriteAt block offset file) = length file.
Proof. intros H. unfold WriteAt. rewrite !length_app length_take length_drop. lia. Qed.

(** They stay inside it. *)
Theorem random_writes_inside ops block file : length block = blockSize -> length file = (ops * blockSize)%nat -> length (random_writes ops block file) = length file.
Proof.
  intros Hb Hf. unfold random_writes. destruct ops as [|ops]; [done|]. assert (K : forall js f, length f = length file -> length (fold_left (fun f i => WriteAt block (rand_offset (S ops) i) f) js f) = length file); [|by apply K].
  induction js as [|i js IH]; intros f Hl; cbn [fold_left]; [done|]. apply IH. rewrite WriteAt_length //.
  unfold rand_offset. pose proof (Nat.mod_upper_bound (i * 17) (S ops) ltac:(lia)). rewrite Hl Hf Hb. nia.
Qed.

(** The writes of the log line stop at the first that fails. *)
Lemma buffered_writes_spec fails i n data file : exists k, (k <= n)%nat /\ buffered_writes fails i n data file = ((k =? n)%nat, file ++ concat (replicate k data)) /\
  (forall j, (j < k)%nat -> fails (i + j)%nat = false) /\ ((k < n)%nat -> fails (i + k)%nat = true).
Proof.
  revert i file. induction n as [|n IH]; intros i file; cbn [buffered_writes]; [exists 0%nat; split_and!; [lia|by rewrite app_nil_r|lia|lia]|].
  destruct (fails i) eqn:Hf; [exists 0%nat; split_and!; [lia|by rewrite app_nil_r|lia|by rewrite Nat.add_0_r]|].
  destruct (IH (S i) (file ++ data)) as (k & Hk & -> & H1 & H2). exists (S k). split_and!; [lia|by rewrite -app_assoc| |].
  - intros [|j] Hj; [by rewrite Nat.add_0_r|]. rewrite Nat.add_succ_r. apply H1. lia.
  - intros Hlt. rewrite Nat.add_succ_r. apply H2. lia.
Qed.

Theorem syscalls_demo fails b f linux fd : (exists i, (i < Z.to_nat 1000)%nat /\ fails i = true) <-> SystemCallsDemo true fails b f linux fd = [say "Write error: %v" []].
Proof.
  unfold SystemCallsDemo. cbn [negb]. destruct (buffered_writes_spec fails 0 (Z.to_nat 1000) wal_line []) as (k & Hk & -> & H1 & H2). generalize dependent (Z.to_nat 1000). intros n Hk H2.
  destruct (Nat.eqb_spec k n) as [->|Hne]; cbn [negb]; (split; [|]).
  - intros (i & Hi & Hf). by rewrite H1 in Hf.
  - by destruct linux.
  - done.
  - intros _. exists k. split; [lia|]. apply H2. lia.
Qed.
