(* ===== verification/DemoClock.v ===== *)
(** * DemoClock: the demonstrations of the clocks (pkg/clock/demo.go)

    [rt] is the real time in milliseconds at a call of [time.Now]. *)

From S2P Require Import Prelude Bytes Float64 Hlc LogicalClock Demo.

(** ** Physical clocks *)

(** The clocks of the nodes are closures over [baseTime]. *)
Definition demonstrateClockSkewProblem (baseTime : Z) : list printed :=
  let node1Clock := baseTime in
  let node2Clock := baseTime + 47 in
  let node3Clock := baseTime - 109 in
  let write2Time := node2Clock in
  let write3Time := node3Clock in
  [say "  Node 1 clock: %s (reference)" [node1Clock : shown];
   say "  Node 2 clock: %s (+47ms drift)" [node2Clock : shown];
   say "  Node 3 clock: %s (-109ms drift)" [node3Clock : shown];
   say "  Write 1 (Node 2, $100): timestamp = %s" [write2Time : shown];
   say "  Write 2 (Node 3, $50):  timestamp = %s" [write3Time : shown]] ++
  say_if (write3Time <? write2Time) (say "DANGER: Node 3's write has EARLIER timestamp!" []).

(** ** Lamport clocks *)

Definition demonstrateLamportClocks : list printed :=
  let printEvent node ts := say "  [node=%s, t=%d] %s" [ShStr node; ShInt ts] in
  let node1 := NewLamportClock "node-1" in
  let node2 := NewLamportClock "node-2" in
  let node3 := NewLamportClock "node-3" in
  let '(t1, node1) := Lamport_Tick node1 in
  let '(t1_send, node1) := Lamport_Send node1 in
  let '(t1_send2, node1) := Lamport_Send node1 in
  let '(t2_recv, node2) := Lamport_Receive t1_send node2 in
  let '(t2_send, node2) := Lamport_Send node2 in
  let '(t3_recv, node3) := Lamport_Receive t1_send2 node3 in
  let '(t3_send, node3) := Lamport_Send node3 in
  let '(t1_recv2, node1) := Lamport_Receive t2_send node1 in
  let '(t1_recv3, node1) := Lamport_Receive t3_send node1 in
  let '(t1_leader, node1) := Lamport_Tick node1 in
  let '(t1_append, node1) := Lamport_Tick node1 in
  let '(t1_ae_send, node1) := Lamport_Send node1 in
  [printEvent "node-1" t1; printEvent "node-1" t1_send; printEvent "node-1" t1_send2; printEvent "node-2" t2_recv; printEvent "node-2" t2_send;
   printEvent "node-3" t3_recv; printEvent "node-3" t3_send; printEvent "node-1" t1_recv2; printEvent "node-1" t1_recv3; printEvent "node-1" t1_leader;
   printEvent "node-1" t1_append; printEvent "node-1" t1_ae_send;
   say "  - BECAME LEADER (t=%d) has larger timestamp than START ELECTION (t=%d)" [ShInt t1_leader; ShInt t1]].

(** ** Vector clocks *)

Definition Relation_String (r : Relation) : string :=
  match r with
  | Before => "happened-before (→)"
  | After => "happened-after (←)"
  | Concurrent => "concurrent (∥) ← CONFLICT!"
  | Equal => "equal (=)"
  end.

Definition demonstrateVectorClocks : list printed :=
  let nodes := ["node-1"; "node-2"; "node-3"] in
  let printVC node vc := say "  [%s] %s VC: {n1:%d, n2:%d, n3:%d}" [ShStr node; ShInt (vget vc "node-1"); ShInt (vget vc "node-2"); ShInt (vget vc "node-3")] in
  let node1 := NewVectorClock "node-1" nodes in
  let node2 := NewVectorClock "node-2" nodes in
  let node3 := NewVectorClock "node-3" nodes in
  let '(vc, node1) := VC_Tick node1 in
  let '(replicaMsg, node1) := VC_Send node1 in
  let '(node2VC, node2) := VC_Receive replicaMsg node2 in
  let '(replicaMsg2, node1) := VC_Send node1 in
  let '(node3VC, node3) := VC_Receive replicaMsg2 node3 in
  let rel := Compare (vc_vector node1) (vc_vector node2) in
  let '(vc2_write, node2) := VC_Tick node2 in
  let '(vc2_write2, node2) := VC_Tick node2 in
  let '(vc3_write, node3) := VC_Tick node3 in
  let vc2_final := vc_vector node2 in
  let vc3_final := vc_vector node3 in
  let relation := Compare vc2_final vc3_final in
  [printVC "node-1" vc; printVC "node-2" node2VC; printVC "node-3" node3VC;
   say "  node-1 vs node-2: %s" [ShStr (Relation_String rel)];
   printVC "node-2" vc2_write; printVC "node-2" vc2_write2; printVC "node-3" vc3_write;
   say "  node-2 final VC: {n1:%d, n2:%d, n3:%d}" [ShInt (vget vc2_final "node-1"); ShInt (vget vc2_final "node-2"); ShInt (vget vc2_final "node-3")];
   say "  node-3 final VC: {n1:%d, n2:%d, n3:%d}" [ShInt (vget vc3_final "node-1"); ShInt (vget vc3_final "node-2"); ShInt (vget vc3_final "node-3")];
   say "  Relationship: %s" [ShStr (Relation_String relation)]] ++
  say_if (bool_decide (relation = Concurrent)) (say "CONFLICT DETECTED!" []).

(** ** The hybrid logical clock *)

(** The loop over a clock that stands still. *)
Fixpoint fixed_events (fixedTime : Z) (evs : list Z) (prev : Z) (clock : HLC) : list printed :=
  match evs with
  | [] => []
  | i :: evs =>
      let '(curr, clock) := HLC_Now fixedTime clock in
      [say "  Event %d: %s (counter=%d)" [ShInt i; ShInt curr; ShInt (HLC_Logical curr)]] ++
      say_if (negb (HLC_After curr prev)) (say "ORDERING VIOLATED at event %d!" [ShInt i]) ++ fixed_events fixedTime evs curr clock
  end.

(** The clock that an NTP correction sets back at every third reading; [k] is
    [backwardsCount]. *)
Definition ntp_wall (currentTime k : Z) : Z := if k mod 3 =? 0 then currentTime - 50 else currentTime.

Fixpoint ntp_events (currentTime : Z) (evs : list Z) (k prev : Z) (allMonotonic : bool) (clock : HLC) : list printed * bool :=
  match evs with
  | [] => ([], allMonotonic)
  | i :: evs =>
      let '(curr, clock) := HLC_Now (ntp_wall currentTime (k + 1)) clock in
      let '(phys, logical) := Unpack curr in
      let back := HLC_Before curr prev in
      let '(rest, allMonotonic) := ntp_events currentTime evs (k + 1) curr (allMonotonic && negb back) clock in
      ([say "  %sEvent %d: physical=%dms, logical=%d" [ShBool ((k + 1) mod 3 =? 0); ShInt (i + 1); ShInt (Z.rem phys 1000); ShInt logical]] ++
       say_if back (say "WENT BACKWARDS!" []) ++ rest, allMonotonic)
  end.

Definition demonstrateHLC (rt : nat -> Z) : list printed :=
  let '(t1, _) := HLC_Now (rt 0%nat) (NewHLC "node-1") in
  let '(t2, hlc2) := HLC_Now (rt 1%nat + 47) (NewHLC "node-2") in
  let '(t3, hlc3) := HLC_Now (rt 2%nat - 30) (NewHLC "node-3") in
  let '(ts_send, hlc2) := HLC_Now (rt 3%nat + 47) hlc2 in
  let '(received, hlc3) := HLC_Update (rt 4%nat - 30) ts_send hlc3 in
  let '(prev, fixedClock) := HLC_Now (rt 5%nat) (NewHLC "fixed") in
  let currentTime := rt 6%nat in
  let '(prev', ntpCorrectedClock) := HLC_Now (ntp_wall currentTime 1) (NewHLC "ntp-node") in
  let '(ntp, allMonotonic) := ntp_events currentTime [0; 1; 2; 3; 4; 5; 6; 7; 8] 1 prev' true ntpCorrectedClock in
  [say "  node-1 (accurate clock): %s = %d" [ShInt t1]; say "  node-2 (+47ms drift):    %s = %d" [ShInt t2];
   say "  node-3 (-30ms drift):    %s = %d" [ShInt t3]; say "  node-2 sends: %s" [ShInt ts_send]] ++
  match received with
  | inl (ErrFutureTimestamp msgL ptMs maxFutureMs) => [say "  Error: %v" [ShInt msgL; ShInt ptMs; ShInt maxFutureMs]]
  | inr ts_recv => [say "  node-3 recv: %s" [ShInt ts_recv]; say "  recv > send: %v" [ShBool (HLC_After ts_recv ts_send)]]
  end ++
  [say "  Event 1: %s" [ShInt prev]] ++ fixed_events (rt 5%nat) [2; 3; 4; 5] prev fixedClock ++ ntp ++
  say_if allMonotonic (say "All timestamps monotonically increasing" []).

Definition demonstrateHLCInHermes (rt : nat -> Z) : list printed :=
  let '(clientTimestamp, leaderHLC) := HLC_Now (rt 0%nat) (NewHLC "leader") in
  let '(walTimestamp, leaderHLC) := HLC_Now (rt 1%nat) leaderHLC in
  let '(appendTimestamp, leaderHLC) := HLC_Now (rt 2%nat) leaderHLC in
  let '(r1, follower1HLC) := HLC_Update (rt 3%nat) appendTimestamp (NewHLC "follower-1") in
  let '(r2, follower2HLC) := HLC_Update (rt 4%nat) appendTimestamp (NewHLC "follower-2") in
  [say "  Leader assigns HLC timestamp: %s" [ShInt clientTimestamp]; say "  WAL entry timestamp: %s" [ShInt walTimestamp];
   say "  AppendEntries carries timestamp: %s" [ShInt appendTimestamp]] ++
  match r1, r2 with
  | inr f1Ts, inr f2Ts =>
      let readTimestamp := walTimestamp in
      let '(ts2, leaderHLC) := HLC_Now (rt 5%nat) leaderHLC in
      let farFutureTS := Pack (rt 6%nat + 2000) 0 in
      let '(r, _) := HLC_Update (rt 7%nat) farFutureTS leaderHLC in
      [say "  Follower-1 HLC after update: %s" [ShInt f1Ts]; say "  Follower-2 HLC after update: %s" [ShInt f2Ts];
       say "  Read at timestamp: %s" [ShInt readTimestamp]; say "  Second write HLC: %s" [ShInt ts2];
       say "  ts2.After(walTimestamp): %v" [ShBool (HLC_After ts2 walTimestamp)];
       say "  Received suspicious timestamp: %s" [ShInt farFutureTS]] ++
      match r with
      | inl (ErrFutureTimestamp msgL ptMs maxFutureMs) => [say "Rejected: %v" [ShInt msgL; ShInt ptMs; ShInt maxFutureMs]]
      | inr _ => []
      end
  | _, _ => [say "  Clock skew error: %v %v" []]
  end.

(** [addOp]: the operations it records are not used. *)
Definition addOp (pt pt' : Z) (causes : list Z) (clusterHLC : HLC) : Z * HLC :=
  match causes with
  | [] => HLC_Now pt clusterHLC
  | c :: cs =>
      let maxCause := fold_left (fun m c => if HLC_After c m then c else m) cs c in
      match HLC_Update pt maxCause clusterHLC with
      | (inr ts, h) => (ts, h)
      | (inl _, h) => HLC_Now pt' h
      end
  end.

Definition demonstrateCausalityInRaft (rt : nat -> Z) : list printed :=
  let '(ts1, h) := addOp (rt 0%nat) (rt 1%nat) [] (NewHLC "cluster") in
  let '(ts2, h) := addOp (rt 2%nat) (rt 3%nat) [ts1] h in
  let '(ts3, h) := addOp (rt 4%nat) (rt 5%nat) [ts1] h in
  let '(ts4, h) := addOp (rt 6%nat) (rt 7%nat) [] h in
  let '(ts5, h) := addOp (rt 8%nat) (rt 9%nat) [ts3; ts4] h in
  let verifyOrdering a b aDesc bDesc :=
    if HLC_Before a b then say "%s → %s (correctly ordered)" [ShStr aDesc; ShStr bDesc] else say "VIOLATION: %s should be before %s!" [ShStr aDesc; ShStr bDesc] in
  [say "node-1: PUT user:alice='registered' → %s" [ShInt ts1]; say "node-2: REPLICATE user:alice ← caused by %s" [ShInt ts2; ShInt ts1];
   say "node-2: GET user:alice → 'registered' ← reads after %s" [ShInt ts3; ShInt ts1]; say "node-3: PUT user:bob='registered' (independent)" [ShInt ts4];
   say "node-1: PUT summary='alice+bob' ← caused by BOTH ts3 AND ts4" [ShInt ts5];
   verifyOrdering ts1 ts2 "PUT alice" "REPLICATE alice"; verifyOrdering ts1 ts3 "PUT alice" "GET alice"; verifyOrdering ts2 ts3 "REPLICATE alice" "GET alice";
   verifyOrdering ts3 ts5 "GET alice" "PUT summary"; verifyOrdering ts4 ts5 "PUT bob" "PUT summary";
   say "ts4 vs ts2 (independent): %s" [ShStr (Relation_String (Compare {["t" := ts4]} {["t" := ts2]}))]].

(** ** What they show *)

(** Ordering by physical clocks puts the second write first. *)
Lemma clock_skew_misorders baseTime : shows "DANGER: Node 3's write has EARLIER timestamp!" (demonstrateClockSkewProblem baseTime) = true.
Proof. unfold demonstrateClockSkewProblem. rewrite (proj2 (Z.ltb_lt _ _)); [done|lia]. Qed.

Example lamport_demo_times : map (fun p => last (p_values p)) (take 12 demonstrateLamportClocks) =
  Some <$> [ShInt 1; ShInt 2; ShInt 3; ShInt 3; ShInt 4; ShInt 4; ShInt 5; ShInt 5; ShInt 6; ShInt 7; ShInt 8; ShInt 9].
Proof. vm_compute. reflexivity. Qed.

(** The writes during the partition are found to conflict.  So are the clocks
    of the leader and of a replica before the partition, which the
    demonstration presents as the verification of their order: the leader has
    sent to the other replica in between. *)
Example vector_demo_conflicts : last demonstrateVectorClocks = Some (say "CONFLICT DETECTED!" []) /\
  p_values <$> demonstrateVectorClocks !! 3%nat = Some [ShStr "concurrent (∥) ← CONFLICT!"].
Proof. vm_compute. done. Qed.

(** *** Readings of a real clock

    The clock is read in order, in the years that 46 bits of milliseconds
    count, and one run of a demonstration takes less than 400 milliseconds. *)
Definition wall_ok (rt : nat -> Z) : Prop := (forall i, 1000 <= rt i < 70368744177664) /\ (forall i j, (i <= j)%nat -> rt i <= rt j) /\ forall i, rt i < rt 0%nat + 400.

Lemma now_later pt h : 0 <= hlc_l h < pt -> pt < two47 -> logical_ok (hlc_c h) -> HLC_Now pt h = (Pack pt 0, mkHLC (hlc_nodeID h) pt 0 (hlc_maxSkewMs h)).
Proof.
  intros Hl Hp Hc. rewrite HLC_Now_spec; [|split; [unfold phys_ok; lia|done]]. cbn zeta. rewrite Z.max_l; [|lia].
  by destruct (Z.leb_spec pt (hlc_l h)); [lia|].
Qed.

Lemma now_same pt h : pt <= hlc_l h -> 0 <= hlc_l h < two47 -> 0 <= hlc_c h < 65535 ->
  HLC_Now pt h = (Pack (hlc_l h) (hlc_c h + 1), mkHLC (hlc_nodeID h) (hlc_l h) (hlc_c h + 1) (hlc_maxSkewMs h)).
Proof.
  intros Hl Hp Hc. rewrite HLC_Now_spec; [|split; [unfold phys_ok; lia|unfold logical_ok; lia]]. cbn zeta. rewrite Z.max_r; [|lia].
  destruct (Z.leb_spec pt (hlc_l h)); [|lia]. by rewrite u16_small; [|lia].
Qed.

(** Events of one clock at one physical time are ordered by the counter. *)
Lemma fixed_events_ordered t evs : forall c id sk, 0 < t < two47 -> 0 <= c -> c + zlen evs < 65535 ->
  shows "ORDERING VIOLATED at event %d!" (fixed_events t evs (Pack t c) (mkHLC id t c sk)) = false.
Proof.
  induction evs as [|i evs IH]; intros c id sk Ht Hc Hn; [done|]. rewrite zlen_cons in Hn. pose proof (zlen_nonneg evs) as H0. cbn [fixed_events].
  rewrite now_same; cbn [hlc_l hlc_c]; [|lia..]. assert (Hlt : HLC_After (Pack t (c + 1)) (Pack t c) = true).
  { unfold HLC_After. apply Z.ltb_lt. apply Pack_lt; unfold phys_ok, logical_ok; lia. }
  rewrite Hlt. cbn. apply IH; lia.
Qed.

(** A clock that is set back keeps its physical time and counts on. *)
Lemma ntp_events_monotonic t evs : forall k c id sk, 0 < t < two47 -> 0 <= c -> c + zlen evs < 65535 ->
  (ntp_events t evs k (Pack t c) true (mkHLC id t c sk)).2 = true /\
  shows "WENT BACKWARDS!" (ntp_events t evs k (Pack t c) true (mkHLC id t c sk)).1 = false.
Proof.
  induction evs as [|i evs IH]; intros k c id sk Ht Hc Hn; [done|]. rewrite zlen_cons in Hn. pose proof (zlen_nonneg evs) as H0. cbn [ntp_events].
  assert (Hw : ntp_wall t (k + 1) <= t) by (unfold ntp_wall; destruct (_ =? 0); lia). rewrite now_same; cbn [hlc_l hlc_c]; [|lia..].
  assert (Hlt : HLC_Before (Pack t (c + 1)) (Pack t c) = false).
  { unfold HLC_Before. apply Z.ltb_ge, Z.lt_le_incl. apply Pack_lt; unfold phys_ok, logical_ok; lia. }
  rewrite Hlt. destruct (Unpack _) as [phys logical]. cbn [negb andb].
  destruct (IH (k + 1) (c + 1) id sk) as [H1 H2]; [lia..|]. destruct (ntp_events _ _ _ _ _ _) as [rest b]. cbn in *. done.
Qed.

(** A clock that is read a millisecond later each time. *)
Definition steady (i : nat) : Z := 1700000000000 + Z.of_nat i.

(** The receive is after the send, events within a millisecond are ordered, and
    an NTP correction does not take a timestamp back. *)
Example hlc_demo_keeps_order : demonstrateHLC steady !! 5%nat = Some (say "  recv > send: %v" [ShBool true]) /\
  shows "ORDERING VIOLATED at event %d!" (demonstrateHLC steady) = false /\ shows "WENT BACKWARDS!" (demonstrateHLC steady) = false /\
  last (demonstrateHLC steady) = Some (say "All timestamps monotonically increasing" []).
Proof. vm_compute. done. Qed.

(** The timestamp two seconds ahead is rejected. *)
Example hlc_hermes_rejects_future : shows "Rejected: %v" (demonstrateHLCInHermes steady) = true /\
  demonstrateHLCInHermes steady !! 7%nat = Some (say "  ts2.After(walTimestamp): %v" [ShBool true]).
Proof. vm_compute. done. Qed.

(** ** Causal chains on one clock *)

(** A timestamp that the clock [h] has handed out while its counter was at
    most [n]. *)
Definition stamped (n : Z) (h : HLC) (ts : Z) : Prop :=
  exists p c, ts = Pack p c /\ 0 <= p < two47 /\ 0 <= c <= n /\ ts <= hlc_ts h.

Lemma stamped_later n n' h h' ts : n <= n' -> hlc_ts h <= hlc_ts h' -> stamped n h ts -> stamped n' h' ts.
Proof. intros Hn Hh (p & c & E & Hp & Hc & Hle). exists p, c. split_and!; try done; lia. Qed.

Lemma stamped_now n h : clock_used n h -> stamped n h (hlc_ts h).
Proof. intros ([Hl Hc] & H0 & Hn). exists (hlc_l h), (hlc_c h). unfold phys_ok, logical_ok in *. split_and!; try done; lia. Qed.

Lemma Update_used n pt msg h ts h' : clock_used n h -> n < LogicalMax -> 0 <= pt < two47 -> stamped n h msg -> HLC_Update pt msg h = (inr ts, h') ->
  clock_used (n + 1) h' /\ hlc_ts h < ts /\ ts = hlc_ts h'.
Proof.
  rewrite LogicalMax_eq. intros (Hwf & H0 & Hn) Hmax Hpt (p & c & -> & Hp & Hc & Hle) Hup. pose proof Hwf as [Hl Hco]. unfold logical_ok in Hco.
  assert (Hphys : phys_ok p) by (unfold phys_ok; lia). assert (Hlog : logical_ok c) by (unfold logical_ok; lia).
  assert (Hi : is_i64 (Pack p c)) by (rewrite Pack_eq //; unfold is_i64, phys_ok, logical_ok in *; lia).
  destruct (HLC_Update_lt pt (Pack p c) h ts h') as (H1 & _ & H2 & H3); [done|unfold phys_ok; lia|done| |done|].
  { unfold headroom. rewrite Unpack_Pack // LogicalMax_eq. right. lia. }
  split; [|done]. split; [done|]. unfold HLC_Update in Hup. rewrite Unpack_Pack // in Hup. split_if_in Hup; [done|]. injection Hup as _ <-. cbn.
  split; [repeat split_if; lia|]. destruct H3 as [_ H3]. cbn in H3. repeat split_if; rewrite ?u16_small; lia.
Qed.

Lemma max_stamped n h c cs : Forall (stamped n h) (c :: cs) -> stamped n h (fold_left (fun m c => if HLC_After c m then c else m) cs c).
Proof.
  revert c. induction cs as [|d cs IH]; intros c Hall; [by inversion Hall|]. cbn. apply IH. inversion_clear Hall as [|?? H1 H2]. inversion_clear H2.
  by destruct (HLC_After d c); constructor.
Qed.

(** An operation is after everything its clock has handed out, its causes
    included, also when the clock rejects a cause. *)
Lemma addOp_after n pt pt' causes h ts h' : clock_used n h -> n < LogicalMax -> 0 <= pt < two47 -> 0 <= pt' < two47 -> Forall (stamped n h) causes ->
  addOp pt pt' causes h = (ts, h') -> clock_used (n + 1) h' /\ hlc_ts h < ts /\ ts = hlc_ts h'.
Proof.
  intros Hu Hn Hp Hp' Hc H. unfold addOp in H. destruct causes as [|c cs]; [eapply HLC_Now_used; [exact Hu|done| |exact H]; lia|].
  pose proof (max_stamped _ _ _ _ Hc) as Hm. destruct (HLC_Update pt _ h) as [[e|t] h1] eqn:E.
  - assert (h1 = h) as -> by (unfold HLC_Update in E; destruct (Unpack _); split_if_in E; congruence). eapply HLC_Now_used; [exact Hu|done| |exact H]; lia.
  - injection H as <- <-. eapply Update_used; [exact Hu|done| |exact Hm|exact E]; lia.
Qed.

(** Every check of the demonstration of causality succeeds, whatever the clock
    shows, also if it is set back. *)
Theorem causality_demo_ordered rt : (forall i, 0 <= rt i < two47) ->
  shows "VIOLATION: %s should be before %s!" (demonstrateCausalityInRaft rt) = false.
Proof.
  intros Hr. unfold demonstrateCausalityInRaft. assert (U0 : clock_used 0 (NewHLC "cluster")) by (split; [done|cbn; lia]).
  destruct (addOp _ _ [] (NewHLC _)) as [ts1 h1] eqn:E1. apply (addOp_after 0) in E1 as (U1 & L1 & S1); [|done|done|done..].
  destruct (addOp _ _ [ts1] h1) as [ts2 h2] eqn:E2.
  apply (addOp_after 1) in E2 as (U2 & L2 & S2); [|done|done|done|done|constructor; [rewrite S1; by apply stamped_now|done]].
  destruct (addOp _ _ [ts1] h2) as [ts3 h3] eqn:E3.
  apply (addOp_after 2) in E3 as (U3 & L3 & S3); [|done|done|done|done|constructor; [|done]].
  2:{ rewrite S1. eapply (stamped_later 1 _ h1); [lia|lia|by apply stamped_now]. }
  destruct (addOp _ _ [] h3) as [ts4 h4] eqn:E4. apply (addOp_after 3) in E4 as (U4 & L4 & S4); [|done|done|done..].
  destruct (addOp _ _ [ts3; ts4] h4) as [ts5 h5] eqn:E5.
  apply (addOp_after 4) in E5 as (U5 & L5 & S5); [|done|done|done|done|].
  2:{ constructor; [rewrite S3; eapply (stamped_later 3 _ h3); [lia|lia|by apply stamped_now]|]. constructor; [rewrite S4; by apply stamped_now|done]. }
  assert (B : forall a b, a < b -> HLC_Before a b = true) by (intros a b ?; unfold HLC_Before; by apply Z.ltb_lt).
  rewrite !B; [done|lia..].
Qed.
