(* ===== verification/DemoConsistency.v ===== *)
(** * DemoConsistency: the demonstrations of the consistency package
    (pkg/consistency/demo.go)

    The readings of the clock are arguments.  The clients of the read index run
    concurrently: their demonstration is a step function over the goroutines,
    and the theorems quantify over every interleaving. *)

From S2P Require Import Prelude GoSort ReadPath Linearizability DistLock Crdt Demo.

(** ** Read index *)

(** Where a client is. *)
Inductive client := CIdle | CWaiting (id : Z) | CServed (readIdx : Z) | CFailed.

#[global] Instance client_eq_dec : EqDecision client.
Proof. solve_decision. Defined.

(** The goroutine that waits for the heartbeat and then for the confirmation. *)
Inductive notifier := NSent | NConfirmed | NDone.

#[global] Instance notifier_eq_dec : EqDecision notifier.
Proof. solve_decision. Defined.

#[global] Instance ReadIndexRequest_eq_dec : EqDecision ReadIndexRequest.
Proof. solve_decision. Defined.

#[global] Instance ReadIndexTracker_eq_dec : EqDecision ReadIndexTracker.
Proof. solve_decision. Defined.

(** [rd_starting] counts the started calls of [sendHeartbeat], [rd_travelling]
    the round trips, [rd_sent] and [rd_confirmed] what the channels hold. *)
Record ReadDemo := mkReadDemo {
  rd_tracker : ReadIndexTracker;
  rd_client1 : client;
  rd_client2 : client;
  rd_starting : Z;
  rd_sent : Z;
  rd_travelling : Z;
  rd_confirmed : Z;
  rd_notifier : notifier;
  rd_heartbeats : Z;
}.

#[global] Instance ReadDemo_eq_dec : EqDecision ReadDemo.
Proof. solve_decision. Defined.

Inductive read_step :=
  | RRequest (second : bool)
  | RAnswer (second : bool)
  | RTimeout (second : bool)
  | RHeartbeat
  | RRoundTrip
  | RNotifier.

Definition rd_client (second : bool) (d : ReadDemo) : client := if second then rd_client2 d else rd_client1 d.

Definition set_client (second : bool) (c : client) (t : ReadIndexTracker) (d : ReadDemo) : ReadDemo :=
  mkReadDemo t (if second then rd_client1 d else c) (if second then c else rd_client2 d) (rd_starting d) (rd_sent d) (rd_travelling d) (rd_confirmed d)
    (rd_notifier d) (rd_heartbeats d).

Definition commitIndex : Z := 100.

Definition new_read_demo : ReadDemo := mkReadDemo (NewReadIndexTracker "leader") CIdle CIdle 0 0 0 0 NSent 0.

(** A step of a goroutine; [None] while it blocks. *)
Definition demoReadIndex (o : read_step) (d : ReadDemo) : option ReadDemo :=
  match o with
  | RRequest second =>
      match rd_client second d with
      | CIdle =>
          let '(id, hb, t) := RequestRead commitIndex (rd_tracker d) in
          let d := set_client second (CWaiting id) t d in
          Some (if hb : bool then
                  mkReadDemo (rd_tracker d) (rd_client1 d) (rd_client2 d) (rd_starting d + 1) (rd_sent d) (rd_travelling d) (rd_confirmed d) (rd_notifier d) (rd_heartbeats d + 1)
                else d)
      | _ => None
      end
  | RAnswer second =>
      match rd_client second d with
      | CWaiting id =>
          match RequestRead_wait false id (rd_tracker d) with (Some readIdx, t) => Some (set_client second (CServed readIdx) t d) | (None, _) => None end
      | _ => None
      end
  | RTimeout second =>
      match rd_client second d with
      | CWaiting id => Some (set_client second CFailed (RequestRead_wait true id (rd_tracker d)).2 d)
      | _ => None
      end
  | RHeartbeat =>
      if (0 <? rd_starting d) && (rd_sent d <? 10) then
        Some (mkReadDemo (rd_tracker d) (rd_client1 d) (rd_client2 d) (rd_starting d - 1) (rd_sent d + 1) (rd_travelling d + 1) (rd_confirmed d) (rd_notifier d) (rd_heartbeats d))
      else None
  | RRoundTrip =>
      if (0 <? rd_travelling d) && (rd_confirmed d <? 10) then
        Some (mkReadDemo (rd_tracker d) (rd_client1 d) (rd_client2 d) (rd_starting d) (rd_sent d) (rd_travelling d - 1) (rd_confirmed d + 1) (rd_notifier d) (rd_heartbeats d))
      else None
  | RNotifier =>
      match rd_notifier d with
      | NSent =>
          if 0 <? rd_sent d then
            Some (mkReadDemo (rd_tracker d) (rd_client1 d) (rd_client2 d) (rd_starting d) (rd_sent d - 1) (rd_travelling d) (rd_confirmed d) NConfirmed (rd_heartbeats d))
          else None
      | NConfirmed =>
          if 0 <? rd_confirmed d then
            Some (mkReadDemo (ConfirmLeadership (u64 (commitIndex + 10)) (rd_tracker d)) (rd_client1 d) (rd_client2 d) (rd_starting d) (rd_sent d) (rd_travelling d)
              (rd_confirmed d - 1) NDone (rd_heartbeats d))
          else None
      | NDone => None
      end
  end.

Definition all_read_steps : list read_step :=
  [RRequest false; RRequest true; RAnswer false; RAnswer true; RTimeout false; RTimeout true; RHeartbeat; RRoundTrip; RNotifier].

(** The steps that need no timeout. *)
Definition prompt_steps : list read_step := [RRequest false; RRequest true; RAnswer false; RAnswer true; RHeartbeat; RRoundTrip; RNotifier].

(** What the clients print, and the last lines. *)
Definition client_line (clientID : Z) (c : client) : list printed :=
  match c with
  | CServed readIdx => [say "  Client %d: can serve read at index %d" [ShInt clientID; ShInt readIdx]]
  | CFailed => [say "  Client %d: error: %v" [ShInt clientID]]
  | _ => []
  end.

Definition client_ended (c : client) : bool := match c with CServed _ | CFailed => true | _ => false end.

Definition read_demo_lines (d : ReadDemo) : list printed :=
  client_line 1 (rd_client1 d) ++ client_line 2 (rd_client2 d) ++
  (if client_ended (rd_client1 d) && client_ended (rd_client2 d) then [say "  KEY INSIGHT: Both reads used ONE heartbeat round-trip!" []] else []).

(** ** Leader lease *)

Fixpoint serve_reads (i : Z) (nows : list Z) (lease : LeaderLease) : list printed * LeaderLease :=
  match nows with
  | [] => ([], lease)
  | now :: nows =>
      let '(served, lease) := ServeWithLease now lease in
      let '(out, lease) := serve_reads (i + 1) nows lease in
      (say_if served (say "  Read %d: served from lease" [ShInt (i + 1)]) ++ out, lease)
  end.

(** [t0] and [t1] are read when the lease is renewed and shown, [nows] at the
    five reads, [t2] at the statistics and [t3] at the last read. *)
Definition demoLeaderLease (t0 t1 : Z) (nows : list Z) (t2 t3 : Z) : list printed :=
  let config := DefaultLeaseConfig in
  let lease := NewLeaderLease "leader-node" config in
  let lease := LL_Renew t0 lease in
  let '(reads, lease') := serve_reads 0 nows lease in
  let stats := LL_Stats t2 lease' in
  let expired := LL_Expire lease' in
  [say "  Election timeout:  %v" [ShInt (le_ElectionTimeout config)];
   say "  Max clock drift:   %v" [ShInt (le_MaxClockDrift config)];
   say "  Effective lease:   %v" [ShInt (i64 (le_ElectionTimeout config - i64 (2 * le_MaxClockDrift config)))];
   say "Lease valid: %v, time remaining: %v" [ShBool (LL_IsValid t1 lease); ShInt (TimeRemaining t1 lease)]] ++ reads ++
  [say "Lease stats: %+v" [ShBool (lt_Valid stats); ShInt (lt_ReadsServedUnderLease stats); ShInt (lt_LeaseExpirations stats); ShInt (lt_TimeRemaining stats)];
   say "Read after expiry: served=%v (must use ReadIndex now)" [ShBool (ServeWithLease t3 expired).1];
   say "  Lease:    %v faster (no network round-trip)" [ShInt (le_ElectionTimeout config)]].

(** ** Histories *)

Section histories.
  Context {SS : SortSlice}.

(** The explanations are left out. *)
Definition demoLinearizabilityChecker (p0 p1 g0 g1 g0' p0' p1' g1' : Z) : list printed :=
  let linearizable r := ShBool (match r with None => true | Some _ => false end) in
  let checker := NewLinearizabilityChecker in
  let '(putID, checker) := Invoke p0 OpPut "x" (Some "1") checker in
  let checker := Complete p1 putID (Some "1") false checker in
  let '(getID, checker) := Invoke g0 OpGet "x" None checker in
  let checker := Complete g1 getID (Some "1") false checker in
  let result := LC_Check ["x"] checker in
  let stats := LC_Stats checker in
  let checker := LC_Reset checker in
  let '(getID2, checker) := Invoke g0' OpGet "y" None checker in
  let '(putID2, checker) := Invoke p0' OpPut "y" (Some "42") checker in
  let checker := Complete p1' putID2 (Some "42") false checker in
  let checker := Complete g1' getID2 None false checker in
  let result2 := LC_Check ["y"] checker in
  [say "  History linearizable: %v" [linearizable result];
   say "  Stats: %+v" [ShInt (hs_Total stats); ShInt (hs_Puts stats); ShInt (hs_Gets stats); ShInt (hs_Deletes stats); ShInt (hs_Failed stats)];
   say "  History linearizable: %v" [linearizable result2]].

End histories.

(** ** Locks

    [rounds i] are the times at which the background goroutine looked for
    expired locks before the [i]-th call; a nil grant that is used panics.  The
    texts of errors are left out. *)

Definition background (rounds : list Z) (svc : DistributedLockService) : DistributedLockService := fold_left (fun s now => expire now s) rounds svc.

Definition granted (r : DLError + LockGrant) : option LockGrant := match r with inr g => Some g | inl _ => None end.

Definition refused {A} (r : DLError + A) : bool := match r with inl _ => true | inr _ => false end.

Definition demoDistributedLock (rounds : nat -> list Z) (t : nat -> Z) : option (list printed) :=
  let svc := NewDistributedLockService in
  match Acquire (t 0%nat) "shard-migration" "node-1" (5 * sec) (background (rounds 0%nat) svc) with
  | (inl _, _) => Some [say "Acquire failed: %v" []]
  | (inr grant1, svc) =>
      let '(r2, svc) := Acquire (t 2%nat) "shard-migration" "node-2" (5 * sec) (background (rounds 1%nat) svc) in
      let svc := background (rounds 2%nat) svc in
      let v1 := VerifyToken (t 3%nat) "shard-migration" (lg_Token grant1) svc in
      let '(_, svc) := Release "shard-migration" (lg_Token grant1) (background (rounds 3%nat) svc) in
      let '(r3, svc) := Acquire (t 4%nat) "shard-migration" "node-2" (5 * sec) (background (rounds 4%nat) svc) in
      grant2 ← granted r3;
      let svc := background (rounds 5%nat) svc in
      let v2 := VerifyToken (t 5%nat) "shard-migration" (lg_Token grant1) svc in
      let svc := background (rounds 6%nat) svc in
      let v3 := VerifyToken (t 6%nat) "shard-migration" (lg_Token grant2) svc in
      Some ([say "node-1 acquired lock (token=%d, expires=%v)" [ShInt (lg_Token grant1); ShInt (Duration_Round (lg_ExpiresAt grant1 - t 1%nat) ms)]] ++
            say_if (refused r2) (say "node-2 acquire: %v (expected)" []) ++
            say_if (bool_decide (v1 = None)) (say "node-1 operation with token=%d: ACCEPTED" [ShInt (lg_Token grant1)]) ++
            [say "node-2 acquired lock (token=%d)" [ShInt (lg_Token grant2)]] ++
            say_if (negb (bool_decide (v2 = None))) (say "  node-1 with token=%d: %v" [ShInt (lg_Token grant1)]) ++
            say_if (bool_decide (v3 = None)) (say "  node-2 with token=%d: ACCEPTED" [ShInt (lg_Token grant2)]))
  end.

(** The last [Release] prints nothing. *)
Definition demoStaleLock (rounds : nat -> list Z) (t : nat -> Z) : option (list printed) :=
  let svc := NewDistributedLockService in
  let '(rA, svc) := Acquire (t 0%nat) "shard-3" "node-A" (100 * ms) (background (rounds 0%nat) svc) in
  grantA ← granted rA;
  let '(rB, svc) := Acquire (t 1%nat) "shard-3" "node-B" (5 * sec) (background (rounds 1%nat) svc) in
  grantB ← granted rB;
  let svc := background (rounds 2%nat) svc in
  let v1 := VerifyToken (t 2%nat) "shard-3" (lg_Token grantA) svc in
  let svc := background (rounds 3%nat) svc in
  let v2 := VerifyToken (t 3%nat) "shard-3" (lg_Token grantB) svc in
  Some ([say "  node-A acquired lock (token=%d)" [ShInt (lg_Token grantA)]; say "  node-B acquired lock (token=%d)" [ShInt (lg_Token grantB)]] ++
        say_if (negb (bool_decide (v1 = None))) (say "  node-A (stale) rejected: %v" []) ++
        say_if (bool_decide (v2 = None)) (say "  node-B still works: ACCEPTED" [])).

(** ** Replicated data types *)

Definition demoCRDTs : list printed :=
  let node1Counter := GCounter_Increment 100 (NewGCounter "node-1") in
  let node2Counter := GCounter_Increment 150 (NewGCounter "node-2") in
  let node3Counter := GCounter_Increment 75 (NewGCounter "node-3") in
  let merged := GCounter_Merge node3Counter (GCounter_Merge node2Counter node1Counter) in
  let inventoryA := PNCounter_Increment 1000 (NewPNCounter "warehouse-A") in
  let inventoryB := PNCounter_Decrement 200 (NewPNCounter "warehouse-B") in
  let inventoryA := PNCounter_Decrement 150 inventoryA in
  let inventoryA := PNCounter_Merge inventoryB inventoryA in
  let reg1 := LWW_SetAt "config-v1" 1000 (NewLWWRegister "node-1") in
  let reg2 := LWW_SetAt "config-v2" 2000 (NewLWWRegister "node-2") in
  let reg1 := LWW_Merge reg2 reg1 in
  let '(val, ts) := LWW_Get reg1 in
  let set1 := ORSet_Add "bob" (ORSet_Add "alice" (NewORSet "node-1")) in
  let set2 := ORSet_Add "charlie" (ORSet_Add "alice" (NewORSet "node-2")) in
  let set2 := ORSet_Remove "alice" set2 in
  [say "   node-1 local count: %d (served 100 requests)" [ShInt (GCounter_Value node1Counter)];
   say "   node-2 local count: %d (served 150 requests)" [ShInt (GCounter_Value node2Counter)];
   say "   node-3 local count: %d (served 75 requests)" [ShInt (GCounter_Value node3Counter)];
   say "   After merge (global total): %d" [ShInt (GCounter_Value merged)];
   say "   Expected: %d" [ShInt (100 + 150 + 75)];
   say "   Inventory after operations: %d" [ShInt (PNCounter_Value inventoryA)];
   say "   After merge: value=%v, timestamp=%d" [ShStr (default "<nil>" val); ShInt ts];
   say "   set1 before merge: %v" [ShStrs (ORSet_Elements set1)];
   say "   set2 before merge: %v" [ShStrs (ORSet_Elements set2)];
   say "   After merge: %v" [ShStrs (ORSet_Elements (ORSet_Merge set2 set1))]].

(** ** What the demonstrations show *)

(** Every state the goroutines reach is in the explored list. *)
Definition read_demo_states : list ReadDemo := explore demoReadIndex all_read_steps 3000 [new_read_demo] [].

Definition read_demo_ok (d : ReadDemo) : bool :=
  forallb (fun c => match c with CServed i => i =? commitIndex | _ => true end) [rd_client1 d; rd_client2 d] &&
  (rd_heartbeats d <=? 2) &&
  (negb (rd_heartbeats d =? 1) || existsb (fun o => match demoReadIndex o d with Some _ => true | None => false end) prompt_steps ||
   forallb client_ended [rd_client1 d; rd_client2 d]).

Lemma read_demo_checked : closed demoReadIndex all_read_steps read_demo_states && forallb read_demo_ok read_demo_states &&
  bool_decide (new_read_demo ∈ read_demo_states) = true.
Proof. vm_compute. done. Qed.

Lemma all_read_steps_all o : o ∈ all_read_steps.
Proof. destruct o as [[]|[]|[]| | |]; set_solver. Qed.

Lemma read_demo_reached os d : run_steps demoReadIndex os new_read_demo = Some d -> read_demo_ok d = true.
Proof.
  apply (run_steps_check demoReadIndex all_read_steps read_demo_states read_demo_ok new_read_demo); [|exact read_demo_checked].
  intros o s _ _. apply all_read_steps_all.
Qed.

(** In every interleaving a client is served only at the commit index; when one
    heartbeat was started and only a timeout could happen next, both clients
    have ended. *)
Theorem read_demo_serves os d : run_steps demoReadIndex os new_read_demo = Some d ->
  (forall second i, rd_client second d = CServed i -> i = commitIndex) /\ rd_heartbeats d <= 2 /\
  (rd_heartbeats d = 1 -> Forall (fun o => demoReadIndex o d = None) prompt_steps -> forall second, client_ended (rd_client second d) = true).
Proof.
  intros H%read_demo_reached.
  unfold read_demo_ok in H. apply andb_prop in H as [[Hs Hh]%andb_prop Hp]. cbn [forallb] in Hs.
  split; [|split; [by apply Z.leb_le|]].
  - intros second i Hi. destruct second; cbn in Hi; rewrite Hi in Hs; unfold commitIndex in Hs |- *; lia.
  - intros H1 Hnone second. rewrite H1 in Hp. cbn [Z.eqb negb orb] in Hp. apply orb_prop in Hp as [Hp|Hp].
    + apply existsb_exists in Hp as (o & Ho%list_elem_of_In & He). rewrite Forall_forall in Hnone. by rewrite Hnone in He.
    + apply andb_prop in Hp as [? [? _]%andb_prop]. by destruct second.
Qed.

(** A client that asks after the confirmation starts a second heartbeat that
    nobody waits for: it times out, and the last line still says that both
    reads used one heartbeat. *)
Example late_client_fails : exists os d, run_steps demoReadIndex os new_read_demo = Some d /\
  rd_heartbeats d = 2 /\ rd_client true d = CFailed /\ shows "  KEY INSIGHT: Both reads used ONE heartbeat round-trip!" (read_demo_lines d) = true.
Proof.
  eexists [RRequest false; RHeartbeat; RNotifier; RRoundTrip; RNotifier; RAnswer false; RRequest true; RHeartbeat; RRoundTrip; RTimeout true], _.
  split; [vm_compute; reflexivity|]. done.
Qed.

Lemma Renew_valid t0 now l : LL_IsValid now (LL_Renew t0 l) = (now <? t0 + ll_leaseDuration l).
Proof. done. Qed.

(** While the lease lasts all reads are served, and none is after its expiry. *)
Lemma serve_reads_all nows : forall i l, Forall (fun now => LL_IsValid now l = true) nows -> zlen nows + ll_readsServedUnderLease l < two64 -> 0 <= ll_readsServedUnderLease l ->
  (serve_reads i nows l).1 = imap (fun k _ => say "  Read %d: served from lease" [ShInt (i + Z.of_nat k + 1)]) nows /\
  (serve_reads i nows l).2 = mkLeaderLease (ll_config l) (ll_nodeID l) (ll_leaseExpiry l) (ll_lastRenewal l) (ll_leaseDuration l) (ll_readsServedUnderLease l + zlen nows) (ll_leaseExpirations l).
Proof.
  induction nows as [|now nows IH]; intros i l Hv Hb H0; cbn [serve_reads imap].
  - split; [done|]. rewrite zlen_nil Z.add_0_r. by destruct l.
  - apply Forall_cons in Hv as [Hnow Hv]. rewrite zlen_cons in Hb |- *. pose proof (zlen_nonneg nows).
    unfold ServeWithLease. rewrite Hnow. rewrite u64_small; [|lia].
    set (l' := mkLeaderLease _ _ _ _ _ _ _). destruct (IH (i + 1) l') as [Ho Hl]; [done|cbn; lia|cbn; lia|].
    destruct (serve_reads (i + 1) nows l') as [out l2]. cbn in Ho, Hl |- *. subst. split.
    + rewrite Z.add_0_r. f_equal. apply imap_ext. intros k x _. cbn. do 3 f_equal. lia.
    + f_equal. lia.
Qed.

(** The five reads are served when they come within 140 ms of the renewal, and
    no read is served once the lease was ended. *)
Theorem lease_demo t0 t1 nows t2 t3 : length nows = 5%nat -> Forall (fun now => now < t0 + 140 * ms) nows -> t0 <= t1 < t0 + 140 * ms -> t0 + 140 * ms <= t2 ->
  demoLeaderLease t0 t1 nows t2 t3 =
    [say "  Election timeout:  %v" [ShInt (150 * ms)]; say "  Max clock drift:   %v" [ShInt (5 * ms)]; say "  Effective lease:   %v" [ShInt (140 * ms)];
     say "Lease valid: %v, time remaining: %v" [ShBool true; ShInt (t0 + 140 * ms - t1)];
     say "  Read %d: served from lease" [ShInt 1]; say "  Read %d: served from lease" [ShInt 2]; say "  Read %d: served from lease" [ShInt 3];
     say "  Read %d: served from lease" [ShInt 4]; say "  Read %d: served from lease" [ShInt 5];
     say "Lease stats: %+v" [ShBool false; ShInt 5; ShInt 0; ShInt 0];
     say "Read after expiry: served=%v (must use ReadIndex now)" [ShBool false]; say "  Lease:    %v faster (no network round-trip)" [ShInt (150 * ms)]].
Proof.
  intros Hlen Hv H1 H2. unfold demoLeaderLease. set (lease := LL_Renew t0 _).
  assert (He : ll_leaseExpiry lease = Some (t0 + 140 * ms)) by done.
  destruct (serve_reads_all nows 0 lease) as [Ho Hl].
  { eapply Forall_impl; [exact Hv|]. intros now Hn. unfold LL_IsValid. rewrite He. by apply Z.ltb_lt. }
  { unfold zlen. rewrite Hlen. done. }
  { done. }
  destruct (serve_reads 0 nows lease) as [out l']. cbn [fst snd] in Ho, Hl. subst out l'. unfold zlen. rewrite Hlen.
  unfold LL_Stats, LL_IsValid, TimeRemaining. cbn [ll_leaseExpiry]. rewrite He.
  do 5 (destruct nows as [|? nows]; [done|]). destruct nows; [|done]. cbn -[Z.add Z.sub Z.mul].
  rewrite (proj2 (Z.ltb_lt t1 _)); [|lia]. rewrite (proj2 (Z.ltb_ge t2 _)); [|lia]. rewrite (proj2 (Z.ltb_ge (t0 + 140 * ms - t1) 0)); [|lia].
  destruct (Z.ltb_spec (t0 + 140 * ms - t2) 0); [done|]. replace (t0 + 140 * ms - t2) with 0 by lia. done.
Qed.

Lemma sort_two {SS : SortSlice} a b l : op_end a < op_end b -> l ≡ₚ [a; b] -> sort_Slice by_end l = [a; b].
Proof.
  intros Hab Hl. apply sort_Slice_unique; [apply by_end_weak| |done]. repeat constructor. by apply Z.ltb_lt.
Qed.

(** Both histories are found linearizable, for every sort and every clock whose
    readings are in the order of the calls. *)
Theorem history_demo {SS : SortSlice} p0 p1 g0 g1 g0' p0' p1' g1' : p0 < p1 -> p1 < g0 -> g0 < g1 -> g0' <= p0' -> p0' < p1' -> p1' < g1' ->
  demoLinearizabilityChecker p0 p1 g0 g1 g0' p0' p1' g1' =
    [say "  History linearizable: %v" [ShBool true]; say "  Stats: %+v" [ShInt 2; ShInt 1; ShInt 1; ShInt 0; ShInt 0]; say "  History linearizable: %v" [ShBool true]].
Proof.
  intros H1 H2 H3 H4 H5 H6. unfold demoLinearizabilityChecker. cbn -[LC_Check].
  match goal with |- context [LC_Check ["x"] ?c] => set (c1 := c) end.
  match goal with |- context [LC_Check ["y"] ?c] => set (c2 := c) end.
  assert (E1 : LC_Check ["x"] c1 = None).
  { unfold LC_Check, c1. cbn. unfold checkKeyLinearization. cbn. rewrite (sort_two (mkOperation 0 OpPut "x" (Some "1") p0 (Some p1) false) (mkOperation 1 OpGet "x" (Some "1") g0 (Some g1) false)); cbn; [done|lia|done]. }
  assert (E2 : LC_Check ["y"] c2 = None).
  { unfold LC_Check, c2. cbn. unfold checkKeyLinearization. cbn. rewrite (sort_two (mkOperation 1 OpPut "y" (Some "42") p0' (Some p1') false) (mkOperation 0 OpGet "y" None g0' (Some g1') false)); cbn; [|lia|apply Permutation_swap].
    unfold hasConcurrentPut. cbn. rewrite (proj2 (Z.ltb_lt p0' g1')); [|lia]. rewrite (proj2 (Z.ltb_lt g0' p1')); [|lia]. done. }
  rewrite E1 E2. done.
Qed.

(** ** Locks *)

(** A round that comes before every expiry removes nothing. *)
Lemma background_keeps rounds s : (forall nm p g, dl_locks s !! nm = Some p -> dl_heap s !! p = Some g -> Forall (fun now => now <= lg_ExpiresAt g) rounds) ->
  background rounds s = s.
Proof.
  induction rounds as [|now rounds IH]; intros H; [done|]. cbn.
  assert (He : expire now s = s).
  { destruct s as [heap locks next ttl lg]. unfold expire. cbn in *. f_equal. apply map_filter_id. intros nm p Hp. cbn.
    destruct (heap !! p) as [g|] eqn:Hg; [|done]. specialize (H _ _ _ Hp Hg). apply Forall_cons in H as [? _]. apply Z.ltb_ge. lia. }
  rewrite He. apply IH. intros nm p g Hp Hg. specialize (H _ _ _ Hp Hg). by apply Forall_cons in H as [_ ?].
Qed.

Lemma background_new rounds : background rounds NewDistributedLockService = NewDistributedLockService.
Proof. apply background_keeps. intros nm p g Hp. by rewrite lookup_empty in Hp. Qed.

Section one_lock.
  Context (s : DistributedLockService) (nm : string) (g : LockGrant).

(** [g] is the only lock. *)
Definition only_lock : Prop := dl_locks s = {[nm := lg_Token g]} /\ dl_heap s !! lg_Token g = Some g.

Lemma only_lock_current : only_lock -> current s nm = Some g.
Proof. intros [Hl Hg]. unfold current. by rewrite Hl lookup_singleton_eq. Qed.

Lemma background_only rounds : only_lock -> Forall (fun now => now <= lg_ExpiresAt g) rounds -> background rounds s = s.
Proof.
  intros [Hl Hg] Hr. apply background_keeps. intros nm' p g' Hp Hg'. rewrite Hl in Hp. apply lookup_singleton_Some in Hp as [_ <-].
  rewrite Hg in Hg'. by injection Hg' as <-.
Qed.

Lemma Acquire_held now holder ttl : only_lock -> now < lg_ExpiresAt g -> Acquire now nm holder ttl s = (inl ErrHeld, s).
Proof. intros Ho Hn. unfold Acquire. rewrite only_lock_current; [|done]. unfold LG_IsValid. by rewrite (proj2 (Z.ltb_lt _ _)). Qed.

(** Expired or released, the lock is granted with the next token. *)
Lemma Acquire_free now holder ttl : 0 < ttl -> 0 <= dl_nextToken s < two64 - 1 -> dl_locks s = ∅ \/ only_lock /\ lg_ExpiresAt g <= now ->
  exists s', Acquire now nm holder ttl s = (inr (mkLockGrant (dl_nextToken s + 1) (now + ttl) nm holder), s') /\ dl_nextToken s' = dl_nextToken s + 1 /\
    dl_locks s' = {[nm := dl_nextToken s + 1]} /\ dl_heap s' !! (dl_nextToken s + 1) = Some (mkLockGrant (dl_nextToken s + 1) (now + ttl) nm holder).
Proof.
  intros Ht Hn H. unfold Acquire. rewrite (proj2 (Z.leb_gt ttl 0)); [|lia]. rewrite u64_small; [|lia].
  assert (Hc : match current s nm with Some existing => LG_IsValid now existing | None => false end = false).
  { destruct H as [H|[Ho Hx]]; [unfold current; by rewrite H lookup_empty|]. rewrite only_lock_current; [|done]. unfold LG_IsValid. by apply Z.ltb_ge. }
  rewrite Hc. eexists. split; [done|]. cbn. rewrite lookup_insert_eq. split; [done|split; [|done]].
  destruct H as [->|[[-> _] _]]; [done|]. apply insert_singleton_eq.
Qed.

Lemma Release_only : only_lock -> exists s', Release nm (lg_Token g) s = (None, s') /\ dl_locks s' = ∅ /\ dl_nextToken s' = dl_nextToken s.
Proof. intros Ho. unfold Release. rewrite only_lock_current; [|done]. rewrite Z.eqb_refl. eexists. split; [done|]. cbn. destruct Ho as [-> _]. by rewrite delete_singleton_eq. Qed.

Lemma Verify_only now token : only_lock -> now < lg_ExpiresAt g -> VerifyToken now nm token s = if token <? lg_Token g then Some ErrStaleToken else None.
Proof. intros Ho Hn. unfold VerifyToken. rewrite only_lock_current; [|done]. unfold LG_IsValid. by rewrite (proj2 (Z.ltb_lt now _)). Qed.

(** The rounds remove the lock or leave it. *)
Lemma background_expires rounds : only_lock -> dl_nextToken (background rounds s) = dl_nextToken s /\
  (dl_locks (background rounds s) = ∅ \/ dl_locks (background rounds s) = {[nm := lg_Token g]} /\ dl_heap (background rounds s) !! lg_Token g = Some g).
Proof.
  unfold only_lock. intros Ho. assert (Hg : dl_locks s = ∅ \/ dl_locks s = {[nm := lg_Token g]} /\ dl_heap s !! lg_Token g = Some g) by (right; exact Ho).
  clear Ho. revert s Hg. induction rounds as [|now rounds IH]; intros s' Hg; [done|]. cbn. destruct (IH (expire now s')) as [Hn Hl]; [|done].
  unfold expire. cbn. destruct Hg as [->|[-> Hh]]; [left; apply map_filter_empty|]. rewrite map_filter_singleton. rewrite Hh.
  destruct (decide _); [by right|by left].
Qed.

End one_lock.

Lemma background_free rounds s : dl_locks s = ∅ -> background rounds s = s.
Proof. intros H. apply background_keeps. intros nm p g Hp. by rewrite H lookup_empty in Hp. Qed.

(** Within five seconds, whatever the rounds of the background goroutine: the
    second client is refused while the first holds the lock, gets the next
    token after the release, and the old token is refused from then on. *)
Theorem lock_demo rounds t : (forall i, (i <= 6)%nat -> t 0%nat <= t i < t 0%nat + 5 * sec) -> (forall i, Forall (fun now => now <= t 0%nat + 5 * sec) (rounds i)) ->
  demoDistributedLock rounds t = Some
    [say "node-1 acquired lock (token=%d, expires=%v)" [ShInt 2; ShInt (Duration_Round (t 0%nat + 5 * sec - t 1%nat) ms)];
     say "node-2 acquire: %v (expected)" []; say "node-1 operation with token=%d: ACCEPTED" [ShInt 2]; say "node-2 acquired lock (token=%d)" [ShInt 3];
     say "  node-1 with token=%d: %v" [ShInt 2]; say "  node-2 with token=%d: ACCEPTED" [ShInt 3]].
Proof.
  intros Ht Hr. unfold demoDistributedLock. rewrite background_new.
  destruct (Acquire_free NewDistributedLockService "shard-migration" (mkLockGrant 0 0 "" "") (t 0%nat) "node-1" (5 * sec)) as (s1 & -> & Hn1 & Hl1 & Hh1); [done..|by left|].
  cbn [dl_nextToken NewDistributedLockService] in *. set (g1 := mkLockGrant (1 + 1) _ _ _) in *.
  assert (Ho1 : only_lock s1 "shard-migration" g1) by done.
  rewrite !(background_only _ _ _ _ Ho1); [|apply Hr..]. rewrite (Acquire_held _ _ _ _ _ _ Ho1); [|apply Ht; lia]. rewrite (background_only _ _ _ _ Ho1); [|apply Hr].
  rewrite (Verify_only _ _ _ _ _ Ho1); [|apply Ht; lia]. rewrite (background_only _ _ _ _ Ho1); [|apply Hr].
  destruct (Release_only _ _ _ Ho1) as (s2 & -> & Hl2 & Hn2). rewrite (background_free _ _ Hl2).
  destruct (Acquire_free s2 "shard-migration" g1 (t 4%nat) "node-2" (5 * sec)) as (s3 & -> & Hn3 & Hl3 & Hh3); [done|lia|by left|].
  rewrite Hn2 Hn1 in Hn3 Hl3 Hh3 |- *. set (g2 := mkLockGrant (1 + 1 + 1) _ _ _) in *. assert (Ho3 : only_lock s3 "shard-migration" g2) by done.
  pose proof (Ht 4%nat ltac:(lia)). cbn [granted mbind option_bind].
  assert (Hr3 : forall i, background (rounds i) s3 = s3).
  { intros i. apply (background_only _ _ _ _ Ho3). eapply Forall_impl; [apply Hr|]. cbn. intros. lia. }
  rewrite !Hr3. rewrite !(Verify_only _ _ _ _ _ Ho3); [|cbn; pose proof (Ht 6%nat ltac:(lia)); lia|cbn; pose proof (Ht 5%nat ltac:(lia)); lia]. done.
Qed.

(** A client that slept past its time to live is refused, and the next holder
    is not, whether or not the background goroutine removed the lock. *)
Theorem stale_lock_demo rounds t : t 0%nat + 200 * ms <= t 1%nat -> (forall i, (2 <= i <= 3)%nat -> t 1%nat <= t i < t 1%nat + 5 * sec) ->
  (forall i, Forall (fun now => now <= t 1%nat + 5 * sec) (rounds i)) ->
  demoStaleLock rounds t = Some [say "  node-A acquired lock (token=%d)" [ShInt 2]; say "  node-B acquired lock (token=%d)" [ShInt 3];
    say "  node-A (stale) rejected: %v" []; say "  node-B still works: ACCEPTED" []].
Proof.
  intros Hsleep Ht Hr. unfold demoStaleLock. rewrite background_new.
  destruct (Acquire_free NewDistributedLockService "shard-3" (mkLockGrant 0 0 "" "") (t 0%nat) "node-A" (100 * ms)) as (s1 & -> & Hn1 & Hl1 & Hh1); [done..|by left|].
  cbn [granted mbind option_bind dl_nextToken NewDistributedLockService] in *. set (gA := mkLockGrant (1 + 1) _ _ _) in *.
  set (s2 := background (rounds 1%nat) s1).
  destruct (background_expires s1 "shard-3" gA (rounds 1%nat)) as [Hn2 Hb]; [done|]. fold s2 in Hn2, Hb.
  destruct (Acquire_free s2 "shard-3" gA (t 1%nat) "node-B" (5 * sec)) as (s3 & -> & Hn3 & Hl3 & Hh3); [done|lia| |].
  { destruct Hb as [Hb|Hb]; [by left|right; split; [done|cbn; lia]]. }
  rewrite Hn2 Hn1 in Hn3 Hl3 Hh3 |- *. set (gB := mkLockGrant (1 + 1 + 1) _ _ _) in *. assert (Ho3 : only_lock s3 "shard-3" gB) by done.
  cbn [granted mbind option_bind]. rewrite !(background_only _ _ _ _ Ho3); [|apply Hr..].
  rewrite !(Verify_only _ _ _ _ _ Ho3); [|apply Ht; lia..]. done.
Qed.

(** ** Replicated data types *)

(** The counters and the register agree with the texts of the demonstration;
    the two first adds carry the same tag, so that the remove of one replica
    takes the element of the other away. *)
Example crdt_demo : demoCRDTs =
  [say "   node-1 local count: %d (served 100 requests)" [ShInt 100]; say "   node-2 local count: %d (served 150 requests)" [ShInt 150];
   say "   node-3 local count: %d (served 75 requests)" [ShInt 75]; say "   After merge (global total): %d" [ShInt 325]; say "   Expected: %d" [ShInt 325];
   say "   Inventory after operations: %d" [ShInt 650]; say "   After merge: value=%v, timestamp=%d" [ShStr "config-v2"; ShInt 2000];
   say "   set1 before merge: %v" [ShStrs ["alice"; "bob"]]; say "   set2 before merge: %v" [ShStrs ["charlie"]]; say "   After merge: %v" [ShStrs ["bob"; "charlie"]]].
Proof. vm_compute. reflexivity. Qed.
