(* ===== verification/DemoChaos.v ===== *)
(** * DemoChaos: the demonstrations of the chaos package (pkg/chaos/demo.go)

    The fault injector ranges over its map of faults in each query: [ro i] is
    the order that the [i]-th query meets, [draw i] the number it draws.  The
    markers of the snapshot travel in goroutines: that demonstration is a step
    function, explored in every order. *)

From S2P Require Import Prelude Bytes Float64 GoSort FaultInjector EventHeap Simulator Jepsen ChandyLamport Demo.

(** ** The fault injector *)

Section faults.
  Context (ro : nat -> RangeOrder) (draw : nat -> float64).

Definition order_of (i : nat) (fi : FaultInjector) : list string := @range_keys (ro i) _ (fi_faults fi).

Definition should_drop (i : nat) (from to : string) (fi : FaultInjector) : bool := ShouldDrop (order_of i fi) (draw i) from to fi.

(** The messages between different nodes, from the [i]-th query on. *)
Fixpoint count_pairs (i : nat) (pairs : list (string * string)) (fi : FaultInjector) (sent dropped : Z) : Z * Z :=
  match pairs with
  | [] => (sent, dropped)
  | (from, to) :: pairs =>
      if negb (from =?s to) then
        if should_drop i from to fi then count_pairs (S i) pairs fi sent (dropped + 1) else count_pairs (S i) pairs fi (sent + 1) dropped
      else count_pairs (S i) pairs fi sent dropped
  end.

Fixpoint count_drops (i trials : nat) (from to : string) (fi : FaultInjector) (drops : Z) : Z :=
  match trials with
  | O => drops
  | S trials => count_drops (S i) trials from to fi (if should_drop i from to fi then drops + 1 else drops)
  end.

Definition all_pairs (nodes : list string) : list (string * string) := from ← nodes; to ← nodes; [(from, to)].

(** [t k] is the clock at the [k]-th reading; [cleared]: the goroutine of the
    pause has removed the fault when the pause is looked at again. *)
Definition demoFaultInjector (t : nat -> Z) (cleared : bool) : list printed :=
  let fi := Activate NewFaultInjector in
  let nodes := ["node-1"; "node-2"; "node-3"; "node-4"; "node-5"] in
  let '(sent, dropped) := count_pairs 0 (all_pairs nodes) fi 0 0 in
  let '(partitionID, fi1) := PartitionNodes (t 0%nat) ["node-1"; "node-2"] ["node-3"; "node-4"; "node-5"] fi in
  let test i from to := say "  %s -> %s: %s" [ShStr from; ShStr to; ShStr (if should_drop i from to fi1 then "DROPPED" else "OK")] in
  let fi2 := ClearFault partitionID fi1 in
  let healed := should_drop 29 "node-1" "node-3" fi2 in
  let '(_, fi3) := DropPackets (t 1%nat) "node-2" "node-3" (fdec 30 2) fi2 in
  let drops := count_drops 30 1000 "node-2" "node-3" fi3 0 in
  let '(pauseID, fi4) := PauseNode (t 2%nat) "node-4" (200 * ms) fi3 in
  let paused := IsPaused (order_of 1030 fi4) (t 3%nat) "node-4" fi4 in
  let fi5 := if cleared then ClearFault pauseID fi4 else fi4 in
  let paused' := IsPaused (order_of 1031 fi5) (t 4%nat) "node-4" fi5 in
  let '(skewID, fi6) := SkewClock (t 5%nat) "node-5" (100 * ms) fi5 in
  let skew := GetClockSkew (order_of 1032 fi6) "node-5" fi6 in
  let fi7 := ClearFault skewID fi6 in
  let skew' := GetClockSkew (order_of 1033 fi7) "node-5" fi7 in
  let fi8 := ClearAll (order_of 1034 fi7) fi7 in
  let stats := fi_stats fi8 in
  [say "  Messages: %d sent, %d dropped" [ShInt sent; ShInt dropped]; test 25%nat "node-1" "node-3"; test 26%nat "node-2" "node-4"; test 27%nat "node-1" "node-2"; test 28%nat "node-3" "node-4";
   say "  node-1 -> node-3: %v" [ShStr (if healed then "DROPPED" else "OK")];
   say "  Actual drop rate: %.1f%% (%d/%d)" [ShFloat (fmul (fdiv (f64 drops) (f64 1000)) (f64 100)); ShInt drops; ShInt 1000];
   say "  node-4 paused: %v" [ShBool paused]; say "  node-4 paused (after 250ms): %v" [ShBool paused'];
   say "Clock skew on node-5: +%v" [ShInt skew]; say "Clock skew after clear: %v" [ShInt skew'];
   say "Fault stats: %+v" [ShInt (fs_TotalFaultsInjected stats); ShInt (fs_NetworkDrops stats); ShInt (fs_NetworkDelays stats); ShInt (fs_NetworkPartitions stats);
     ShInt (fs_NodeCrashes stats); ShInt (fs_DiskErrors stats); ShInt (fs_ClockManipulations stats)]].

(** ** A partition *)

Definition partition_nodes : list string := ["n1"; "n2"; "n3"; "n4"; "n5"].

Fixpoint count_acks (i : nat) (leader : string) (nodes : list string) (fi : FaultInjector) (acks : Z) : Z :=
  match nodes with
  | [] => acks
  | n :: nodes => count_acks (S i) leader nodes fi (if should_drop i leader n fi then acks else acks + 1)
  end.

(** [writeToLeader]: the operations that each node has committed. *)
Definition writeToLeader (i : nat) (fi : FaultInjector) (committedOps : gmap string Z) : bool * gmap string Z :=
  if 3 <=? count_acks i "n1" partition_nodes fi 0 then (true, (fun c => i32 (c + 1)) <$> committedOps) else (false, committedOps).

Fixpoint healthy_writes (i : nat) (ops : list Z) (fi : FaultInjector) (committedOps : gmap string Z) : list printed * gmap string Z :=
  match ops with
  | [] => ([], committedOps)
  | op :: ops =>
      let '(ok, committedOps) := writeToLeader i fi committedOps in
      let '(out, committedOps) := healthy_writes (i + 5) ops fi committedOps in
      (say_if ok (say "  Write op-%d: COMMITTED (5/5 reachable)" [ShInt op]) ++ out, committedOps)
  end.

(** The lines of the demonstration and the operations that the nodes committed. *)
Definition demoNetworkPartition (now : Z) : list printed * gmap string Z :=
  let fi := Activate NewFaultInjector in
  let '(healthy, committedOps) := healthy_writes 0 [0; 1; 2; 3; 4] fi (list_to_map (map (fun id => (id, 0)) partition_nodes)) in
  let '(_, fi) := PartitionNodes now ["n1"; "n2"] ["n3"; "n4"; "n5"] fi in
  let minority k op :=
    let acks := count_acks (25 + 5 * k) "n1" partition_nodes fi 0 in
    if 3 <=? acks then [say "  Write op-%d: COMMITTED (%d acks) <- should NOT happen!" [ShInt op; ShInt acks]]
    else [say "  Write op-%d: BLOCKED (%d acks, need 3)" [ShInt op; ShInt acks]] in
  let majority k op :=
    let acks := count_acks (40 + 5 * k) "n3" partition_nodes fi 0 in
    say_if (3 <=? acks) (say "  Write op-%d: COMMITTED (%d acks)" [ShInt op; ShInt acks]) in
  (healthy ++ minority 0%nat 5 ++ minority 1%nat 6 ++ minority 2%nat 7 ++ majority 0%nat 5 ++ majority 1%nat 6 ++ majority 2%nat 7, committedOps).

End faults.

(** ** Deterministic simulation *)

Section simulation.
  Context `{SR : SeededRand}.

(** The set-up of both runs, which differ only in the name of the simulator. *)
Definition pingpong_session (seed : Z) : option (pingpong_sim * list (@SimEvent (@action Z pingpong))) :=
  s ← do_calls pingpong_setup (NewDeterministicSimulator seed []);
  let n := ds_network s in
  sim_Run pingpong_perform 20 (500 * ms) (with_network (mkSimulatedNetwork (sn_partitions n) (sn_dropRate n) (10 * ms) (20 * ms) (sn_handlers n)) s).

Definition other_node (node : string) : string := if node =?s "alice" then "bob" else "alice".

Definition message_line (m : string * Z * Z) : printed :=
  let '(node, content, at_) := m in say "  %s received '%v' from %s at T+%v" [ShStr node; ShInt content; ShStr (other_node node); ShInt at_].

Definition demoDeterministicSimulation : option (list printed) :=
  let seed := 42 in
  r ← pingpong_session seed;
  r2 ← pingpong_session seed;
  let messages := ds_world r.1 in
  let messages2 := ds_world r2.1 in
  let identical := bool_decide (length messages = length messages2) && forallb (fun x => bool_decide (x.1 = x.2)) (zip messages messages2) in
  Some ([say "Run 1 (seed=%d): %d events processed" [ShInt seed; ShInt (ds_eventsProcessed r.1)]] ++ map message_line messages ++
        [if identical then say "IDENTICAL to first run! Determinism verified." [] else say "Different from first run! Bug in simulator!" []]).

(** ** Scenarios *)

Inductive chaos_action := Track | CrashLeader | VerifyLeader | RestartLeader | CreatePartition | HealPartition | PauseStarts | PauseEnds.

Definition cut_links : list (string * string) := [("n1", "n3"); ("n1", "n4"); ("n1", "n5"); ("n2", "n3"); ("n2", "n4"); ("n2", "n5")].

(** The state of the tests is what their actions print. *)
Definition chaos_perform (u : chaos_action) (now : Z) (out : list string) : list string * list (@call unit chaos_action) :=
  match u with
  | Track => (out, [])
  | CrashLeader => (out ++ ["[T+100ms] n1 (leader) CRASHED"], [CallCrash "n1"])
  | VerifyLeader => (out ++ ["[T+300ms] New leader should be elected"; "[T+300ms] Election timeout = 150-300ms"; "[T+300ms] Expected: one of n2,n3,n4,n5 is leader"], [])
  | RestartLeader => (out ++ ["[T+400ms] n1 restarted (replaying from WAL)"], [CallRestart "n1"])
  | CreatePartition => (out ++ ["[T+50ms] PARTITION: [n1,n2] <-> [n3,n4,n5]"], map (fun l => CallPartition l.1 l.2) cut_links)
  | HealPartition => (out ++ ["[T+200ms] Partition HEALED"], map (fun l => CallHeal l.1 l.2) cut_links)
  | PauseStarts => (out ++ ["[T+100ms] Leader GC PAUSE starts (500ms)"], [])
  | PauseEnds => (out ++ ["[T+600ms] Leader GC PAUSE ends"; "[T+600ms] Old leader sees new term, steps down"], [])
  end.

Notation chaos_scenario := (@TestScenario unit (list string) chaos_action).

Definition leader_failure : chaos_scenario :=
  mkTestScenario "Leader Failure" "Kill the leader, verify new leader elected and data accessible" 42 (500 * ms)
    ([], map (fun id => CallRegister id (fun _ => Track)) ["n1"; "n2"; "n3"; "n4"; "n5"] ++
         [CallAfter (100 * ms) "crash leader n1" CrashLeader; CallAfter (300 * ms) "verify new leader" VerifyLeader; CallAfter (400 * ms) "restart n1" RestartLeader])
    (fun _ => []).

Definition minority_partition : chaos_scenario :=
  mkTestScenario "Minority Partition" "Partition 2/5 nodes, verify they can't commit" 100 (500 * ms)
    ([], [CallAfter (50 * ms) "create partition" CreatePartition; CallAfter (200 * ms) "heal partition" HealPartition]) (fun _ => []).

Definition leader_pause : chaos_scenario :=
  mkTestScenario "Leader GC Pause" "Leader pauses for 500ms (GC), verify lease expires, followers detect" 200 (800 * ms)
    ([], [CallAfter (100 * ms) "GC pause starts" PauseStarts; CallAfter (600 * ms) "GC pause ends" PauseEnds]) (fun _ => []).

(** The last line; [elapsed] is the time that a scenario took. *)
Definition demoChaoScenarios (elapsed : Z) : option (list printed) :=
  let runner := Add leader_pause (Add minority_partition (Add leader_failure NewScenarioRunner)) in
  r ← RunAll chaos_perform 20 elapsed runner;
  let passed := zlen (List.filter tr_Passed r.1) in
  Some [say "Overall: %d/%d scenarios passed" [ShInt passed; ShInt (zlen r.1)]].

End simulation.

(** ** Histories *)

(** The descriptions of the violations are left out. *)
Definition violation_line (v : @Violation Z) : printed :=
  say "  %s: %s" [ShStr (match vi_Type v with ViolationLostWrite => "LOST_WRITE" | ViolationStaleRead => "STALE_READ" | ViolationNonMonotonic => "NON_MONOTONIC_READ" | ViolationSplitBrain => "SPLIT_BRAIN" end)].

Definition demoJepsenVerification {SS : SortSlice} (baseTime baseTime2 : Z) : list printed :=
  let checker := Record_op (mkJepsenOp "client-1" "write" "x" (Some 42) None baseTime (baseTime + 10 * ms) true EmptyString "leader") NewJepsenChecker in
  let checker := Record_op (mkJepsenOp "client-2" "read" "x" None (Some 42) (baseTime + 15 * ms) (baseTime + 20 * ms) true EmptyString "leader") checker in
  let violations := jepsen_Verify checker in
  let checker2 := Record_op (mkJepsenOp "client-1" "write" "balance" (Some 100) None baseTime2 (baseTime2 + 10 * ms) true EmptyString "leader-old") NewJepsenChecker in
  let checker2 := Record_op (mkJepsenOp "client-2" "read" "balance" None None (baseTime2 + 20 * ms) (baseTime2 + 25 * ms) true EmptyString "leader-new") checker2 in
  let violations2 := jepsen_Verify checker2 in
  let stats := jepsen_Stats checker in
  (match violations with [] => [say "  No violations found" []] | _ => map violation_line violations end) ++
  (match violations2 with [] => [say "  No violations found (false negative in simplified checker)" []] | _ => map violation_line violations2 end) ++
  [say "History stats: %+v" [ShInt (js_TotalOps stats); ShInt (js_Writes stats); ShInt (js_Reads stats); ShInt (js_Successes stats); ShInt (js_Failures stats)]].

(** ** Properties of a store

    [draw k n] is the [k]-th draw, [rng.Intn(n)]; [now k] the [k]-th reading of
    the clock. *)

Section property.
  Context (draw : nat -> Z -> Z) (now : nat -> Z).

(** The value and the version of an entry. *)
Definition Entry : Type := Z * Z.

Definition writeValue (version : Z) (key : string) (value : Z) (store : gmap string Entry) : Z * gmap string Entry := (version, <[key := (value, version)]> store).

Definition readValue (key : string) (afterVersion : Z) (store : gmap string Entry) : Z * bool :=
  match store !! key with
  | None => (0, false)
  | Some (value, version) => if version <? afterVersion then (0, false) else (value, true)
  end.

Definition key_of (n : Z) : string := "key-" +:+ string_of_bytes (fmt_d n).

Fixpoint read_after_write (tests i : nat) (store : gmap string Entry) (violations : Z) : list printed * Z * gmap string Entry :=
  match tests with
  | O => ([], violations, store)
  | S tests =>
      let key := key_of (draw (2 * i) 10) in
      let value := draw (2 * i + 1) 100 in
      let '(writeVersion, store) := writeValue (now i) key value store in
      let '(got, ok) := readValue key writeVersion store in
      let bad := negb ok || negb (got =? value) in
      let '(out, violations, store) := read_after_write tests (S i) store (if bad then violations + 1 else violations) in
      (say_if bad (say "  VIOLATION: wrote %d to %s, read back %d (ok=%v)" [ShInt value; ShStr key; ShInt got; ShBool ok]) ++ out, violations, store)
  end.

(** The committed writes that cannot be read back. *)
Definition lost_writes (committedWrites : gmap string Z) (store : gmap string Entry) : Z :=
  zlen (List.filter (fun x => let '(got, ok) := readValue x.1 0 store in negb ok || negb (got =? x.2)) (map_to_list committedWrites)).

Fixpoint durability (tests i : nat) (store : gmap string Entry) (committedWrites : gmap string Z) (violations : Z) : Z :=
  match tests with
  | O => violations
  | S tests =>
      let key := key_of (draw (2 * i) 5) in
      let value := draw (2 * i + 1) 1000 in
      let '(_, store) := writeValue (now i) key value store in
      let committedWrites := <[key := value]> committedWrites in
      durability tests (S i) store committedWrites (violations + lost_writes committedWrites store)
  end.

Definition demoPropertyTesting : list printed :=
  let '(out, violations, store) := read_after_write 1000 0 ∅ 0 in
  let violations2 := durability 500 1000 store ∅ 0 in
  out ++
  [if violations =? 0 then say "  Passed %d trials: no violations" [ShInt 1000] else say "  Found %d violations in %d trials!" [ShInt violations; ShInt 1000];
   if violations2 =? 0 then say "  Passed %d trials: all committed writes preserved" [ShInt 500] else say "  Found %d violations: committed writes were lost!" [ShInt violations2]].

End property.

(** ** Snapshots

    The clock is left out of the snapshots: every reading is zero. *)

Definition app_state : Type := gmap string Z.

#[global] Instance SnapshotState_eq_dec : EqDecision (SnapshotState app_state).
Proof. solve_decision. Defined.

#[global] Instance ChannelState_eq_dec : EqDecision (ChannelState Z).
Proof. solve_decision. Defined.

#[global] Instance GlobalSnapshot_eq_dec : EqDecision (GlobalSnapshot app_state Z).
Proof. solve_decision. Defined.

#[global] Instance SnapshotCoordinator_eq_dec : EqDecision (SnapshotCoordinator app_state Z).
Proof. solve_decision. Defined.

Definition snapshot_nodes : list string := ["node-1"; "node-2"; "node-3"].

Definition appState (node : string) : app_state :=
  if node =?s "node-1" then {["balance_alice" := 1000; "balance_bob" := 0]}
  else if node =?s "node-2" then {["balance_charlie" := 500]} else {["balance_dave" := 250]}.

(** The coordinators, the markers on their way (from, to) and what was reported. *)
Record SnapshotDemo := mkSnapshotDemo {
  sd_coordinators : gmap string (SnapshotCoordinator app_state Z);
  sd_markers : list (string * string);
  sd_received : list (GlobalSnapshot app_state Z);
}.

#[global] Instance SnapshotDemo_eq_dec : EqDecision SnapshotDemo.
Proof. solve_decision. Defined.

(** After [InitiateSnapshot] of node-1. *)
Definition snapshot_started : SnapshotDemo :=
  let coordinators := list_to_map (map (fun id => (id, NewSnapshotCoordinator id snapshot_nodes)) snapshot_nodes) in
  let '(c, markers) := InitiateSnapshot 0 (appState "node-1") "snap-001" (NewSnapshotCoordinator "node-1" snapshot_nodes) in
  mkSnapshotDemo (<["node-1" := c]> coordinators) (map (fun to => ("node-1", to)) markers) [].

Fixpoint take_marker (m : string * string) (l : list (string * string)) : option (list (string * string)) :=
  match l with
  | [] => None
  | x :: l => if bool_decide (x = m) then Some l else rest ← take_marker m l; Some (x :: rest)
  end.

(** The goroutine of a marker delivers it. *)
Definition demoChandyLamportSnapshot (m : string * string) (d : SnapshotDemo) : option SnapshotDemo :=
  markers ← take_marker m (sd_markers d);
  target ← sd_coordinators d !! m.2;
  let '(target, sent, done) := ReceiveMarker 0 (appState m.2) m.1 "snap-001" target in
  Some (mkSnapshotDemo (<[m.2 := target]> (sd_coordinators d)) (markers ++ map (fun to => (m.2, to)) sent) (sd_received d ++ match done with Some s => [s] | None => [] end)).

Definition all_markers : list (string * string) := p ← snapshot_nodes; q ← snapshot_nodes; if p =?s q then [] else [(p, q)].

(** The select: the first snapshot that is reported. *)
Definition snapshot_lines (d : SnapshotDemo) : list printed :=
  match sd_received d with
  | snapshot :: _ =>
      [say "Snapshot %s COMPLETE!" [ShStr (gs_SnapshotID snapshot)]; say "  Initiator: %s" [ShStr (gs_Initiator snapshot)]] ++
      map (fun x => say "  %s: %v" [ShStr x.1]) (map_to_list (gs_NodeStates snapshot)) ++
      map (fun x => say "  %s: %d messages" [ShStr x.1; ShInt (zlen (cst_Messages x.2))]) (map_to_list (gs_ChannelStates snapshot))
  | [] => [say "Snapshot timeout!" []]
  end.

(** ** What the demonstrations show *)

Definition snapshot_states : list SnapshotDemo := explore demoChandyLamportSnapshot all_markers 500 [snapshot_started] [].

(** A reported snapshot holds the state of one node, which is not node-1, and
    two channels; when no marker is on its way one was reported. *)
Definition snapshot_ok (d : SnapshotDemo) : bool :=
  forallb (fun s => bool_decide ((map_to_list (gs_NodeStates s)).*1 = ["node-2"] \/ (map_to_list (gs_NodeStates s)).*1 = ["node-3"]) &&
    bool_decide (size (gs_ChannelStates s) = 2%nat)) (sd_received d) &&
  (negb (bool_decide (sd_markers d = [])) || bool_decide (sd_received d <> [])).

Lemma snapshot_checked : closed demoChandyLamportSnapshot all_markers snapshot_states && forallb snapshot_ok snapshot_states && bool_decide (snapshot_started ∈ snapshot_states) = true.
Proof. vm_compute. done. Qed.

Lemma take_marker_in m l : is_Some (take_marker m l) -> m ∈ l.
Proof.
  induction l as [|x l IH]; cbn; [by intros [? [=]]|]. case_bool_decide as Hx; [subst; by left|].
  destruct (take_marker m l); [right; apply IH; by eexists|by intros [? [=]]].
Qed.

Lemma snapshot_covers : covers demoChandyLamportSnapshot all_markers snapshot_states.
Proof.
  assert (H : forallb (fun d => forallb (fun m => bool_decide (m ∈ all_markers)) (sd_markers d)) snapshot_states = true) by (vm_compute; done).
  intros m d Hd [d' Hs]. rewrite forallb_forall in H. apply list_elem_of_In, H in Hd. clear H. rewrite forallb_forall in Hd.
  apply (bool_decide_unpack _), Is_true_true, Hd, list_elem_of_In, take_marker_in. unfold demoChandyLamportSnapshot in Hs. destruct (take_marker m (sd_markers d)); [by eexists|done].
Qed.

(** In whatever order the markers arrive: a snapshot is reported, not by the
    node that asked for it, and each that is reported holds the state of one of
    the three nodes only. *)
Theorem snapshot_demo os d : run_steps demoChandyLamportSnapshot os snapshot_started = Some d ->
  (sd_markers d = [] -> sd_received d <> []) /\
  forall s, s ∈ sd_received d -> size (gs_ChannelStates s) = 2%nat /\ exists n, n <> "node-1" /\ (map_to_list (gs_NodeStates s)).*1 = [n].
Proof.
  intros H%(run_steps_check demoChandyLamportSnapshot all_markers snapshot_states snapshot_ok snapshot_started snapshot_covers snapshot_checked).
  unfold snapshot_ok in H. apply andb_prop in H as [Hs He]. split.
  - intros Hm. rewrite Hm in He. cbn in He. by apply bool_decide_eq_true in He.
  - intros s Hin. rewrite forallb_forall in Hs. apply list_elem_of_In, Hs, andb_prop in Hin as [Hn Hc]. apply bool_decide_eq_true in Hn, Hc.
    split; [done|]. destruct Hn; eexists; (split; [|done]); done.
Qed.

(** All scenarios pass, for every source of random numbers: their checks are empty. *)
Theorem scenarios_demo `{SeededRand} elapsed : demoChaoScenarios elapsed = Some [say "Overall: %d/%d scenarios passed" [ShInt 3; ShInt 3]].
Proof. vm_compute. reflexivity. Qed.

(** What the first scenario prints, in the order of its events; the leader is up again at the end. *)
Example leader_failure_trace `{SeededRand} : (s ← do_calls (ts_Setup leader_failure).2 (NewDeterministicSimulator 42 []); r ← sim_Run chaos_perform 20 (500 * ms) s; Some (ds_world r.1, ds_crashed r.1)) =
  Some (["[T+100ms] n1 (leader) CRASHED"; "[T+300ms] New leader should be elected"; "[T+300ms] Election timeout = 150-300ms";
         "[T+300ms] Expected: one of n2,n3,n4,n5 is leader"; "[T+400ms] n1 restarted (replaying from WAL)"], ∅).
Proof. vm_compute. reflexivity. Qed.

Lemma write_then_read (w r : @JepsenOp Z) : jo_Success w = true -> jo_Type w = "write" -> jo_Success r = true -> jo_Type r = "read" -> jo_Key r = jo_Key w ->
  checkDurability [w; r] = if jo_CompleteAt w <? jo_InvokeAt r then match jo_ReadValue r with None => [mkViolation ViolationLostWrite [w; r]] | Some _ => [] end else [].
Proof.
  intros Hw1 Hw2 Hr1 Hr2 Hk. unfold checkDurability, durability_step. cbn [fold_left]. rewrite Hw1 Hw2 Hr1 Hr2 Hk. cbn [negb String.eqb Ascii.eqb Bool.eqb].
  rewrite lookup_insert_eq. cbn. by destruct (jo_CompleteAt w <? jo_InvokeAt r), (jo_ReadValue r).
Qed.

(** The correct history passes and the lost write is reported, whatever the clock. *)
Theorem jepsen_demo {SS : SortSlice} baseTime baseTime2 : demoJepsenVerification baseTime baseTime2 =
  [say "  No violations found" []; say "  %s: %s" [ShStr "LOST_WRITE"]; say "History stats: %+v" [ShInt 2; ShInt 1; ShInt 1; ShInt 2; ShInt 0]].
Proof.
  unfold demoJepsenVerification, jepsen_Verify. rewrite !checkStaleReads_nil !checkMonotonicReads_nil !app_nil_r.
  unfold Record_op. cbn [app jc_ops NewJepsenChecker]. rewrite !write_then_read; [|done..]. cbn [jo_CompleteAt jo_InvokeAt jo_ReadValue].
  rewrite (proj2 (Z.ltb_lt (baseTime + _) _)); [|lia]. rewrite (proj2 (Z.ltb_lt (baseTime2 + _) _)); [|lia]. done.
Qed.

(** A value is read back right after it was written, and no committed write is
    lost while the clock reads at least zero. *)
Lemma read_after_write_ok draw now tests : forall i store v, (forall j, 0 <= now j) -> (forall k e, store !! k = Some e -> 0 <= e.2) ->
  exists store', read_after_write draw now tests i store v = ([], v, store') /\ forall k e, store' !! k = Some e -> 0 <= e.2.
Proof.
  induction tests as [|tests IH]; intros i store v Hn Hs; [by eexists|]. cbn [read_after_write writeValue]. unfold readValue. rewrite lookup_insert_eq.
  rewrite Z.ltb_irrefl. cbn [negb orb]. rewrite Z.eqb_refl. cbn [negb].
  destruct (IH (S i) (<[key_of (draw (2 * i)%nat 10) := (draw (2 * i + 1)%nat 100, now i)]> store) v) as (store' & Hr & Hs'); [done| |].
  - intros k e [[_ <-]|[_ He]]%lookup_insert_Some; [apply Hn|by eapply Hs].
  - rewrite Hr. by eexists.
Qed.

(** The store holds what was committed. *)
Definition kept (committed : gmap string Z) (store : gmap string Entry) : Prop := forall k v, committed !! k = Some v -> exists version, store !! k = Some (v, version) /\ 0 <= version.

Lemma kept_no_loss committed store : kept committed store -> lost_writes committed store = 0.
Proof.
  intros Hk. unfold lost_writes. rewrite bfilter_none; [done|]. intros [k v] Hin. apply elem_of_map_to_list, Hk in Hin as (version & Hs & Hv).
  unfold readValue. cbn. rewrite Hs. rewrite (proj2 (Z.ltb_ge version 0)); [|done]. by rewrite Z.eqb_refl.
Qed.

Lemma durability_ok draw now tests : forall i store committed v, (forall j, 0 <= now j) -> kept committed store -> durability draw now tests i store committed v = v.
Proof.
  induction tests as [|tests IH]; intros i store committed v Hn Hk; [done|]. cbn [durability writeValue].
  set (key := key_of _). set (value := draw _ 1000).
  assert (Hk' : kept (<[key := value]> committed) (<[key := (value, now i)]> store)).
  { intros k x [[<- <-]|[Hne Hx]]%lookup_insert_Some; [rewrite lookup_insert_eq; eauto|]. rewrite lookup_insert_ne; [|done]. by apply Hk. }
  rewrite kept_no_loss; [|done]. rewrite Z.add_0_r. by apply IH.
Qed.

Theorem property_demo draw now : (forall j, 0 <= now j) ->
  demoPropertyTesting draw now = [say "  Passed %d trials: no violations" [ShInt 1000]; say "  Passed %d trials: all committed writes preserved" [ShInt 500]].
Proof.
  intros Hn. unfold demoPropertyTesting. destruct (read_after_write_ok draw now 1000 0 ∅ 0) as (store & -> & Hs); [done|by intros k e; rewrite lookup_empty|].
  rewrite durability_ok; [done|done|]. intros k v. by rewrite lookup_empty.
Qed.

(** ** Faults, in every order of the map *)

Section shown_faults.
  Context (ro : nat -> RangeOrder) (draw : nat -> float64).

Lemma order_visits i fi : visits (order_of ro i fi) fi.
Proof. intros id. apply (@range_keys_in (ro i)). Qed.

Lemma no_fault_no_drop i from to fi : fi_faults fi = ∅ -> should_drop ro draw i from to fi = false.
Proof.
  intros H. unfold should_drop, ShouldDrop. destruct (IsActive fi); [|done]. cbn. rewrite range_faults_none; [done|]. intros id f. by rewrite H lookup_empty.
Qed.

(** A single fault decides. *)
Lemma one_fault_drop i from to fi id f : IsActive fi = true -> fi_faults fi = {[id := f]} ->
  should_drop ro draw i from to fi = default false (drop_body from to (draw i) f).
Proof.
  intros Ha Hf. unfold should_drop, ShouldDrop, order_of. rewrite Ha Hf. rewrite (@range_keys_singleton (ro i)). cbn. rewrite Hf lookup_singleton_eq. cbn. by destruct (drop_body _ _ _ f).
Qed.

(** Whether a partition stands between two nodes. *)
Definition across (groupA groupB : list string) (from to : string) : bool :=
  (contains groupA from && contains groupB to) || (contains groupB from && contains groupA to).

Lemma partition_faults now groupA groupB fi : fi_faults fi = ∅ -> IsActive fi = true ->
  let '(id, fi') := PartitionNodes now groupA groupB fi in
  IsActive fi' = true /\ fi_faults (ClearFault id fi') = ∅ /\ forall i from to, should_drop ro draw i from to fi' = across groupA groupB from to.
Proof.
  intros H Ha. unfold PartitionNodes. set (id := fault_id _ _ _). set (fi' := InjectFault _ _ _).
  assert (Hf : exists f, fi_faults fi' = {[id := f]} /\ forall from to d, default false (drop_body from to d f) = across groupA groupB from to).
  { unfold fi', InjectFault. cbn. rewrite H. eexists. split; [done|]. intros from to d. unfold drop_body. cbn -[across].
    rewrite lookup_insert_eq lookup_insert_ne // lookup_insert_eq. cbn. fold (across groupA groupB from to). by destruct (across _ _ _ _). }
  destruct Hf as (f & Hf & Hd). split; [done|split].
  - unfold ClearFault. rewrite Hf lookup_singleton_eq. cbn [fi_faults]. apply delete_singleton_eq.
  - intros i from to. rewrite (one_fault_drop i from to fi' id f) //.
Qed.

(** The loops of the demonstrations with a known outcome of every query. *)
Lemma count_acks_all P leader fi nodes : (forall i n, should_drop ro draw i leader n fi = P n) -> forall i acks,
  count_acks ro draw i leader nodes fi acks = acks + zlen (List.filter (fun n => negb (P n)) nodes).
Proof.
  intros HP. induction nodes as [|n nodes IH]; intros i acks; cbn [count_acks List.filter]; [rewrite zlen_nil; lia|].
  rewrite IH HP. destruct (P n); cbn [negb]; rewrite ?zlen_cons; lia.
Qed.

Lemma count_pairs_all P fi pairs : (forall i from to, should_drop ro draw i from to fi = P from to) -> forall i sent dropped,
  count_pairs ro draw i pairs fi sent dropped =
    (sent + zlen (List.filter (fun x => negb (x.1 =?s x.2) && negb (P x.1 x.2)) pairs), dropped + zlen (List.filter (fun x => negb (x.1 =?s x.2) && P x.1 x.2) pairs)).
Proof.
  intros HP. induction pairs as [|[from to] pairs IH]; intros i sent dropped; cbn [count_pairs List.filter fst snd]; [rewrite zlen_nil; f_equal; lia|].
  destruct (from =?s to); cbn [negb andb]; [apply IH|]. rewrite HP. destruct (P from to); cbn [negb]; rewrite IH ?zlen_cons; f_equal; lia.
Qed.

Lemma count_drops_all from to fi P : (forall i, should_drop ro draw i from to fi = P i) -> forall trials i drops,
  count_drops ro draw i trials from to fi drops = drops + zlen (List.filter P (seq i trials)).
Proof.
  intros HP. induction trials as [|trials IH]; intros i drops; cbn [count_drops seq List.filter]; [rewrite zlen_nil; lia|].
  rewrite IH HP. destruct (P i); rewrite ?zlen_cons; lia.
Qed.

(** The minority never commits and the majority always does, in whatever order
    the map of faults is visited; every node has the five operations from
    before the partition. *)
Theorem partition_demo now : demoNetworkPartition ro draw now =
  (map (fun op => say "  Write op-%d: COMMITTED (5/5 reachable)" [ShInt op]) [0; 1; 2; 3; 4] ++
   map (fun op => say "  Write op-%d: BLOCKED (%d acks, need 3)" [ShInt op; ShInt 2]) [5; 6; 7] ++
   map (fun op => say "  Write op-%d: COMMITTED (%d acks)" [ShInt op; ShInt 3]) [5; 6; 7],
   list_to_map (map (fun id => (id, 5)) partition_nodes)).
Proof.
  unfold demoNetworkPartition. set (fi := Activate NewFaultInjector).
  assert (Hw : forall i c, writeToLeader ro draw i fi c = (true, (fun c => i32 (c + 1)) <$> c)).
  { intros i c. unfold writeToLeader. rewrite (count_acks_all (fun _ => false)); [done|]. intros. by apply no_fault_no_drop. }
  cbn [healthy_writes]. rewrite !Hw.
  pose proof (partition_faults now ["n1"; "n2"] ["n3"; "n4"; "n5"] fi eq_refl eq_refl) as HP. destruct (PartitionNodes _ _ _ fi) as [id fi'].
  destruct HP as (_ & _ & HP). rewrite !(count_acks_all _ _ _ _ (fun i n => HP i _ n)). reflexivity.
Qed.

(** A query for a type of fault of which there is one, and one of which there is none. *)
Lemma node_query_one {A} i fi ty n (result : Fault -> A) id f : fi_faults fi !! id = Some f -> fa_Active f = true -> fa_Type f = ty -> as_string (fa_Params f !! "node_id") = n ->
  (forall id' f', fi_faults fi !! id' = Some f' -> fa_Type f' = ty -> f' = f) -> range_faults (order_of ro i fi) (node_body ty n result) fi = Some (result f).
Proof.
  intros Hf Ha Hty Hn Hone. assert (Hb : node_body ty n result f = Some (result f)).
  { unfold node_body. rewrite Ha Hn String.eqb_refl. by rewrite bool_decide_eq_true_2. }
  apply range_faults_some; [apply order_visits|eexists _, _; split; [exact Hf|by eexists]|]. intros id' f' x Hf' Hx.
  unfold node_body in Hx. destruct (fa_Active f'); [|done]. case_bool_decide as Hty'; [|done]. cbn in Hx. rewrite (Hone _ _ Hf' Hty') in Hx.
  rewrite Hn String.eqb_refl in Hx. by injection Hx as <-.
Qed.

Lemma node_query_none {A} i fi ty n (result : Fault -> A) : (forall id f, fi_faults fi !! id = Some f -> fa_Type f <> ty) -> range_faults (order_of ro i fi) (node_body ty n result) fi = None.
Proof.
  intros Hne. apply range_faults_none. intros id f Hf. unfold node_body. rewrite (bool_decide_eq_false_2 (fa_Type f = ty)); [|by eapply Hne]. by destruct (fa_Active f).
Qed.

Lemma drop_faults now from to rate fi : fi_faults fi = ∅ -> IsActive fi = true -> forall i, should_drop ro draw i from to (DropPackets now from to rate fi).2 = fltb (draw i) rate.
Proof.
  intros H Ha i. unfold DropPackets. cbn [snd]. erewrite one_fault_drop; [|done|unfold InjectFault; cbn; rewrite H; reflexivity].
  unfold drop_body. cbn -[fltb]. rewrite lookup_insert_eq lookup_insert_ne // lookup_insert_eq. cbn -[fltb]. rewrite !String.eqb_refl. cbn -[fltb].
  by rewrite lookup_insert_ne // lookup_insert_ne // lookup_insert_eq.
Qed.

(** No fault of the type. *)
Definition lacks (ty : FaultType) (fi : FaultInjector) : Prop := forall id f, fi_faults fi !! id = Some f -> fa_Type f <> ty.

Lemma lacks_inject ty now f fi : lacks ty fi -> fa_Type f <> ty -> lacks ty (InjectFault now f fi).
Proof. intros Hl Hf id f'. unfold InjectFault. cbn. intros [[_ <-]|[_ H]]%lookup_insert_Some; [done|by eapply Hl]. Qed.

Lemma lacks_clear ty id fi : lacks ty fi -> lacks ty (ClearFault id fi).
Proof. intros Hl id' f. rewrite ClearFault_lookup. case_decide; [done|apply Hl]. Qed.

(** Injecting and clearing again. *)
Lemma lacks_undo ty now f fi : lacks ty fi -> lacks ty (ClearFault (fa_ID f) (InjectFault now f fi)).
Proof. intros Hl id' f'. rewrite ClearFault_lookup. case_decide; [done|]. cbn. rewrite lookup_insert_ne; [apply Hl|done]. Qed.

Lemma clear_stats id fi : fi_stats (ClearFault id fi) = fi_stats fi /\ fi_active (ClearFault id fi) = fi_active fi.
Proof. unfold ClearFault. by destruct (fi_faults fi !! id). Qed.

Lemma clear_all_stats ids : forall fi, fi_stats (ClearAll ids fi) = fi_stats fi.
Proof. induction ids as [|id ids IH]; intros fi; [done|]. change (ClearAll (id :: ids) fi) with (ClearAll ids (ClearFault id fi)). rewrite IH. apply clear_stats. Qed.

Lemma paused_while i now d at_ n fi : IsActive fi = true -> lacks FaultNodePause fi -> let fi' := (PauseNode now n d fi).2 in IsPaused (order_of ro i fi') at_ n fi' = negb (now + d <? at_).
Proof.
  intros Ha Hl fi'. unfold IsPaused. change (IsActive fi') with (IsActive fi). rewrite Ha. cbn [negb].
  erewrite node_query_one; [|apply lookup_insert_eq|done..|]; [done|]. intros id' f'. cbn. intros [[_ <-]|[_ H]]%lookup_insert_Some Hty; [done|]. by apply Hl in H.
Qed.

Lemma skewed_while i now skew n fi : IsActive fi = true -> lacks FaultClockSkew fi -> let fi' := (SkewClock now n skew fi).2 in GetClockSkew (order_of ro i fi') n fi' = skew.
Proof.
  intros Ha Hl fi'. unfold GetClockSkew. change (IsActive fi') with (IsActive fi). rewrite Ha. cbn [negb].
  erewrite node_query_one; [|apply lookup_insert_eq|done..|]; [done|]. intros id' f'. cbn. intros [[_ <-]|[_ H]]%lookup_insert_Some Hty; [done|]. by apply Hl in H.
Qed.

Lemma not_paused i at_ n fi : lacks FaultNodePause fi -> IsPaused (order_of ro i fi) at_ n fi = false.
Proof. intros Hl. unfold IsPaused. destruct (IsActive fi); [|done]. cbn [negb]. by rewrite node_query_none. Qed.

Lemma not_skewed i n fi : lacks FaultClockSkew fi -> GetClockSkew (order_of ro i fi) n fi = 0.
Proof. intros Hl. unfold GetClockSkew. destruct (IsActive fi); [|done]. cbn [negb]. by rewrite node_query_none. Qed.

(** The pause, and the skew of a clock, as the demonstration injects them. *)
Lemma pause_stage fi3 t2 t3 t4 (cleared : bool) : IsActive fi3 = true -> lacks FaultNodePause fi3 -> lacks FaultClockSkew fi3 -> t3 <= t2 + 200 * ms -> t2 + 200 * ms < t4 ->
  let r := PauseNode t2 "node-4" (200 * ms) fi3 in
  let fi5 := if cleared then ClearFault r.1 r.2 else r.2 in
  IsPaused (order_of ro 1030 r.2) t3 "node-4" r.2 = true /\ IsPaused (order_of ro 1031 fi5) t4 "node-4" fi5 = false /\
  IsActive fi5 = true /\ lacks FaultClockSkew fi5 /\ fi_stats fi5 = FaultStats_Incr FaultNodePause (fi_stats fi3).
Proof.
  intros Ha Hlp Hls H3 H4 r fi5. assert (Hl : lacks FaultClockSkew r.2) by by apply lacks_inject.
  split; [|split; [|split; [|split]]].
  - rewrite paused_while; [|done..]. rewrite (proj2 (Z.ltb_ge _ _)); [done|lia].
  - unfold fi5. destruct cleared; [apply not_paused, lacks_undo, Hlp|]. rewrite paused_while; [|done..]. rewrite (proj2 (Z.ltb_lt _ _)); [done|lia].
  - unfold fi5, IsActive. destruct cleared; [rewrite (proj2 (clear_stats _ _))|]; exact Ha.
  - unfold fi5. destruct cleared; [by apply lacks_clear|done].
  - unfold fi5. destruct cleared; [rewrite (proj1 (clear_stats _ _))|]; done.
Qed.

Lemma skew_stage fi5 t5 : IsActive fi5 = true -> lacks FaultClockSkew fi5 ->
  let r := SkewClock t5 "node-5" (100 * ms) fi5 in
  GetClockSkew (order_of ro 1032 r.2) "node-5" r.2 = 100 * ms /\ GetClockSkew (order_of ro 1033 (ClearFault r.1 r.2)) "node-5" (ClearFault r.1 r.2) = 0 /\
  fi_stats (ClearFault r.1 r.2) = FaultStats_Incr FaultClockSkew (fi_stats fi5).
Proof.
  intros Ha Hl r. split; [by apply skewed_while|split].
  - apply not_skewed, lacks_undo, Hl.
  - rewrite (proj1 (clear_stats _ _)). done.
Qed.

(** The order of the map and the goroutine of the pause do not matter: all
    messages pass at first, those across the partition are dropped until it is
    healed, a packet is dropped when its draw is below the rate, the pause is
    over after 250 ms. *)
Theorem fault_demo t cleared : t 2%nat <= t 3%nat <= t 2%nat + 200 * ms -> t 2%nat + 200 * ms < t 4%nat ->
  let drops := zlen (List.filter (fun i => fltb (draw i) (fdec 30 2)) (seq 30 1000)) in
  demoFaultInjector ro draw t cleared =
    [say "  Messages: %d sent, %d dropped" [ShInt 20; ShInt 0];
     say "  %s -> %s: %s" [ShStr "node-1"; ShStr "node-3"; ShStr "DROPPED"]; say "  %s -> %s: %s" [ShStr "node-2"; ShStr "node-4"; ShStr "DROPPED"];
     say "  %s -> %s: %s" [ShStr "node-1"; ShStr "node-2"; ShStr "OK"]; say "  %s -> %s: %s" [ShStr "node-3"; ShStr "node-4"; ShStr "OK"];
     say "  node-1 -> node-3: %v" [ShStr "OK"];
     say "  Actual drop rate: %.1f%% (%d/%d)" [ShFloat (fmul (fdiv (f64 drops) (f64 1000)) (f64 100)); ShInt drops; ShInt 1000];
     say "  node-4 paused: %v" [ShBool true]; say "  node-4 paused (after 250ms): %v" [ShBool false];
     say "Clock skew on node-5: +%v" [ShInt (100 * ms)]; say "Clock skew after clear: %v" [ShInt 0];
     say "Fault stats: %+v" [ShInt 4; ShInt 1; ShInt 0; ShInt 1; ShInt 0; ShInt 0; ShInt 1]].
Proof.
  intros Ht Hlate drops. unfold demoFaultInjector. set (fi := Activate NewFaultInjector).
  rewrite (count_pairs_all (fun _ _ => false)); [|intros; by apply no_fault_no_drop].
  pose proof (partition_faults (t 0%nat) ["node-1"; "node-2"] ["node-3"; "node-4"; "node-5"] fi eq_refl eq_refl) as HP.
  assert (Hst : fi_stats (PartitionNodes (t 0%nat) ["node-1"; "node-2"] ["node-3"; "node-4"; "node-5"] fi).2 = mkFaultStats 1 0 0 1 0 0 0) by done.
  destruct (PartitionNodes _ _ _ fi) as [pid fi1]. destruct HP as (Ha1 & H2 & HP). rewrite !HP. set (fi2 := ClearFault pid fi1) in *.
  assert (Ha2 : IsActive fi2 = true /\ fi_stats fi2 = mkFaultStats 1 0 0 1 0 0 0) by (unfold fi2, ClearFault; by destruct (fi_faults fi1 !! pid)).
  clearbody fi2. clear HP Hst fi1 Ha1 fi. rewrite no_fault_no_drop; [|done]. destruct Ha2 as [Ha2 Hst].
  pose proof (drop_faults (t 1%nat) "node-2" "node-3" (fdec 30 2) fi2 H2 Ha2) as Hd.
  assert (Hl3 : forall ty, ty <> FaultNetworkDrop -> lacks ty (DropPackets (t 1%nat) "node-2" "node-3" (fdec 30 2) fi2).2).
  { intros ty Hty. apply lacks_inject; [|done]. intros id f. by rewrite H2 lookup_empty. }
  assert (Hst3 : fi_stats (DropPackets (t 1%nat) "node-2" "node-3" (fdec 30 2) fi2).2 = mkFaultStats 2 1 0 1 0 0 0) by (cbn; by rewrite Hst).
  assert (Ha3 : IsActive (DropPackets (t 1%nat) "node-2" "node-3" (fdec 30 2) fi2).2 = true) by exact Ha2.
  destruct (DropPackets _ _ _ _ fi2) as [did fi3]. cbn [snd] in *. rewrite (count_drops_all _ _ _ _ Hd). clear Hd.
  destruct (pause_stage fi3 (t 2%nat) (t 3%nat) (t 4%nat) cleared) as (Hp & Hp' & Ha5 & Hl5 & Hst5); [done|auto..|lia|lia|].
  destruct (PauseNode (t 2%nat) "node-4" (200 * ms) fi3) as [pauseID fi4]. cbn [fst snd] in *. rewrite Hp Hp'. clear Hp Hp'.
  destruct (skew_stage (if cleared then ClearFault pauseID fi4 else fi4) (t 5%nat)) as (Hk & Hk' & Hst7); [done..|].
  destruct (SkewClock _ _ _ _) as [skewID fi6]. cbn [fst snd] in *. rewrite Hk Hk'. rewrite clear_all_stats Hst7 Hst5 Hst3. done.
Qed.

End shown_faults.

(** ** The simulation, for every source of random numbers *)

Section pingpong_demo.
  Context `{SR : SeededRand}.

Definition pp_network : @SimulatedNetwork Z pingpong :=
  mkSimulatedNetwork ∅ fzero (10 * ms) (20 * ms) (<["bob" := fun msg => Received "bob" (smsg_Content msg)]> (<["alice" := fun msg => Received "alice" (smsg_Content msg)]> ∅)).

Definition pp_sim (draws : nat) (cur : Z) (events : list (@SimEvent (@action Z pingpong))) (n : Z) (log : list (string * Z * Z)) : pingpong_sim :=
  mkSimulator 42 draws cur events pp_network ∅ n (500 * ms) log.

Definition reply_event (at_ : Z) (desc : string) (from to : string) (c : Z) : @SimEvent (@action Z pingpong) := mkSimEvent at_ (AUser (Reply from to c)) desc 0 0.

Definition think (node : string) : Z := if node =?s "alice" then 50 * ms else 30 * ms.
Definition reply_desc (node : string) : string := if node =?s "alice" then "alice->bob ping" else "bob->alice pong".

(** One step of the loop on a queue of one event. *)
Lemma run_one fuel draws cur n log t (a : @action Z pingpong) desc : t <= 500 * ms -> 0 <= n < 1000 -> exists e,
  run_loop pingpong_perform (S fuel) (pp_sim draws cur [mkSimEvent t a desc 0 0] n log) =
    match do_action pingpong_perform a (pp_sim draws t [] (n + 1) log) with
    | Some s => match run_loop pingpong_perform fuel s with Some (s, tr) => Some (s, e :: tr) | None => None end
    | None => None
    end.
Proof.
  intros Ht Hn. cbn [run_loop]. change (ds_events (pp_sim draws cur [mkSimEvent t a desc 0 0] n log)) with [mkSimEvent t a desc 0 0].
  assert (Hp : exists e, heap_Pop [mkSimEvent t a desc 0 0] = Some (e, []) /\ ev_At e = t /\ ev_Action e = a) by (eexists; split; [reflexivity|done]).
  destruct Hp as (e & -> & HA & Hact). cbn [ds_maxTime with_events pp_sim]. rewrite HA Hact. rewrite (proj2 (Z.ltb_ge (500 * ms) t)); [|done].
  exists e.
  cbn [ds_eventsProcessed ds_seed ds_draws ds_events ds_network ds_crashed ds_world with_events pp_sim]. rewrite (i64_small (n + 1)); [|lia]. reflexivity.
Qed.

(** A reply travels between 10 and 20 ms, is received, and answered. *)
Lemma pp_round fuel draws cur n log t desc from to c :
  to = "alice" \/ to = "bob" -> 0 <= t <= 400 * ms -> 0 <= n <= 100 -> 0 <= c <= 3 ->
  let t' := t + (10 * ms + rand_Int63n 42 draws (10 * ms)) in
  exists e1 e2, run_loop pingpong_perform (S (S fuel)) (pp_sim draws cur [reply_event t desc from to c] n log) =
    match run_loop pingpong_perform fuel (pp_sim (S draws) t' (if c <? 3 then [reply_event (t' + think to) (reply_desc to) to (other_node to) (c + 1)] else []) (n + 2) (log ++ [(to, c, t')])) with
    | Some (s, tr) => Some (s, e1 :: e2 :: tr)
    | None => None
    end.
Proof.
  intros Hto Ht Hn Hc t'. pose proof (rand_Int63n_range 42 draws (10 * ms) ltac:(lia)) as Hd. set (d := rand_Int63n 42 draws (10 * ms)) in *.
  unfold reply_event at 1. destruct (run_one (S fuel) draws cur n log t (AUser (Reply from to c)) desc) as (e1 & ->); [lia|lia|].
  assert (Hsend : do_action pingpong_perform (AUser (Reply from to c)) (pp_sim draws t [] (n + 1) log) =
    Some (pp_sim (S draws) t [mkSimEvent t' (ADeliver (mkSimulatedMessage from to c 0)) ("deliver " +:+ from +:+ string_of_bytes [byte_of_Z 226; byte_of_Z 134; byte_of_Z 146] +:+ to) 0 0] (n + 1) log)).
  { cbn [do_action do_user pingpong_perform do_calls do_call ds_currentTime ds_world pp_sim]. unfold sim_Send.
    change (ds_network (with_world _ _)) with pp_network. cbn [sn_minDelay sn_maxDelay sn_dropRate pp_network]. rewrite (i64_small (20 * ms - 10 * ms)); [|lia].
    change (fltb fzero fzero) with false. cbn match. change (sim_IsPartitioned from to pp_network) with false.
    cbn -[Z.add Z.mul i64 pp_network rand_Int63n]. fold d.
    rewrite (i64_small (10 * ms + d)); [|lia]. rewrite i64_small; [|lia]. reflexivity. }
  rewrite Hsend. clear Hsend.
  match goal with |- context [mkSimEvent t' ?a ?ds 0 0] => destruct (run_one fuel (S draws) t (n + 1) log t' a ds) as (e2 & ->); [lia|lia|] end.
  assert (Hrecv : do_action pingpong_perform (ADeliver (mkSimulatedMessage from to c 0)) (pp_sim (S draws) t' [] (n + 1 + 1) log) =
    Some (pp_sim (S draws) t' (if c <? 3 then [reply_event (t' + think to) (reply_desc to) to (other_node to) (c + 1)] else []) (n + 1 + 1) (log ++ [(to, c, t')]))).
  { cbn [do_action smsg_To]. change (bool_decide (to ∈ ds_crashed _)) with false. cbn match. unfold pp_sim, pp_network. cbn [ds_network sn_handlers].
    destruct Hto as [-> | ->]; rewrite ?lookup_insert_eq; [rewrite lookup_insert_ne; [rewrite lookup_insert_eq|done]|];
      cbn [do_user pingpong_perform smsg_Content ds_currentTime ds_world]; destruct (c <? 3); cbn [do_calls do_call String.eqb Ascii.eqb Bool.eqb]; try reflexivity;
      unfold After, Schedule; cbn [ds_currentTime with_world]; (rewrite i64_small; [|unfold Millisecond; lia]); reflexivity. }
  rewrite Hrecv. replace (n + 1 + 1) with (n + 2) by lia. exists e1, e2. destruct (run_loop _ _ _) as [[s tr]|]; done.
Qed.

(** The run ends after [n] events with that log. *)
Definition ends (x : option (pingpong_sim * list (@SimEvent (@action Z pingpong)))) (n : Z) (log : list (string * Z * Z)) : Prop :=
  exists s tr, x = Some (s, tr) /\ ds_eventsProcessed s = n /\ ds_world s = log.

Lemma ends_round fuel draws cur n log t desc from to c t' N L :
  to = "alice" \/ to = "bob" -> 0 <= t <= 400 * ms -> 0 <= n <= 100 -> 0 <= c <= 3 -> t' = t + (10 * ms + rand_Int63n 42 draws (10 * ms)) ->
  ends (run_loop pingpong_perform fuel (pp_sim (S draws) t' (if c <? 3 then [reply_event (t' + think to) (reply_desc to) to (other_node to) (c + 1)] else []) (n + 2) (log ++ [(to, c, t')]))) N L ->
  ends (run_loop pingpong_perform (S (S fuel)) (pp_sim draws cur [reply_event t desc from to c] n log)) N L.
Proof.
  intros Hto Ht Hn Hc -> (s & tr & Hr & H). destruct (pp_round fuel draws cur n log t desc from to c) as (e1 & e2 & Hround); [done..|]. rewrite Hr in Hround.
  by exists s, (e1 :: e2 :: tr).
Qed.

(** For every source of random numbers: eight events, four messages that travel
    between 10 and 20 ms each, and the second run is identical. *)
Theorem simulation_demo : exists d0 d1 d2 d3, Forall (fun d => 10 * ms <= d < 20 * ms) [d0; d1; d2; d3] /\
  let t0 := d0 in let t1 := t0 + 30 * ms + d1 in let t2 := t1 + 50 * ms + d2 in let t3 := t2 + 30 * ms + d3 in
  demoDeterministicSimulation = Some
    [say "Run 1 (seed=%d): %d events processed" [ShInt 42; ShInt 8];
     say "  %s received '%v' from %s at T+%v" [ShStr "bob"; ShInt 0; ShStr "alice"; ShInt t0]; say "  %s received '%v' from %s at T+%v" [ShStr "alice"; ShInt 1; ShStr "bob"; ShInt t1];
     say "  %s received '%v' from %s at T+%v" [ShStr "bob"; ShInt 2; ShStr "alice"; ShInt t2]; say "  %s received '%v' from %s at T+%v" [ShStr "alice"; ShInt 3; ShStr "bob"; ShInt t3];
     say "IDENTICAL to first run! Determinism verified." []].
Proof.
  set (r k := 10 * ms + rand_Int63n 42 k (10 * ms)).
  assert (Hr : forall k, 10 * ms <= r k < 20 * ms) by (intros k; pose proof (rand_Int63n_range 42 k (10 * ms) ltac:(lia)); unfold r; lia).
  exists (r 0%nat), (r 1%nat), (r 2%nat), (r 3%nat). split; [repeat constructor; apply Hr|]. intros t0 t1 t2 t3.
  assert (Hs : exists s tr, pingpong_session 42 = Some (s, tr) /\ ds_eventsProcessed s = 8 /\ ds_world s = [("bob", 0, t0); ("alice", 1, t1); ("bob", 2, t2); ("alice", 3, t3)]).
  { pose proof (Hr 0%nat). pose proof (Hr 1%nat). pose proof (Hr 2%nat). pose proof (Hr 3%nat).
    change (ends (run_loop pingpong_perform 20 (pp_sim 0 0 [reply_event 0 "initial ping" "alice" "bob" 0] 0 [])) 8 [("bob", 0, t0); ("alice", 1, t1); ("bob", 2, t2); ("alice", 3, t3)]).
    apply (ends_round _ _ _ _ _ _ _ _ _ _ t0); [by right|lia..|done|]. apply (ends_round _ _ _ _ _ _ _ _ _ _ t1); [by left|cbn; lia..|done|].
    apply (ends_round _ _ _ _ _ _ _ _ _ _ t2); [by right|cbn; lia..|done|]. apply (ends_round _ _ _ _ _ _ _ _ _ _ t3); [by left|cbn; lia..|done|].
    eexists _, _. split; [reflexivity|]. done. }
  destruct Hs as (s & tr & Hs & Hn & Hw). unfold demoDeterministicSimulation. rewrite Hs. cbn [mbind option_bind fst]. rewrite Hn Hw.
  cbn [map app message_line other_node String.eqb Ascii.eqb Bool.eqb zip zip_with forallb fst snd]. by rewrite !bool_decide_eq_true_2.
Qed.

End pingpong_demo.
