(* ===== verification/DemoPartition.v ===== *)
(** * DemoPartition: the demonstrations of the partition package
    (pkg/partition/demo.go)

    [range] orders are arguments.  A panic of a nil dereference is [None]. *)

From S2P Require Import Prelude GoSort Bytes Float64 HashRing ShardMap Router Rebalancer Demo.

(** ** The ring *)

Section ring.
  Context `{SortSlice} `{RangeOrder}.

Definition ring_of (virtualNodes : Z) (nodes : list string) : ConsistentHashRing := fold_left (fun ring node => AddNode node ring) nodes (NewConsistentHashRing virtualNodes).

Definition degrees (vn : VirtualNode) : float64 := fmul (fdiv (f64 (vn_Hash vn)) (f64 (two32 - 1))) (f64 360).

Definition RingVisualization (r : ConsistentHashRing) : list printed :=
  if (length (hr_vnodes r) =? 0)%nat then [say "Ring is empty" []]
  else
    let limit := if zlen (hr_vnodes r) <? 20 then zlen (hr_vnodes r) else 20 in
    [say "Ring (%d vnodes, %d physical nodes):" [ShInt (zlen (hr_vnodes r)); ShInt (Z.of_nat (size (hr_nodeMap r)))]] ++
    map (fun vn => say "  [%.1f] %s (vnode-%d)" [ShFloat (degrees vn); ShStr (vn_NodeID vn); ShInt (vn_VNodeIndex vn)]) (take (Z.to_nat limit) (hr_vnodes r)) ++
    say_if (limit <? zlen (hr_vnodes r)) (say "  ... and %d more vnodes" [ShInt (zlen (hr_vnodes r) - limit)]).

(** [for i := 0; i < int(pct); i++ { bar += ... }]: the number of blocks. *)
Definition bar (pct : float64) : Z := Z.max 0 (ftrunc pct).

(** A result whose error is ignored: the zero value. *)
Definition or_zero {E A} (zero : A) (r : E + A) : A := match r with inr x => x | inl _ => zero end.

Definition route_line (ring : ConsistentHashRing) (key : string) : option printed :=
  node ← GetNode key ring;
  nodes3 ← GetNodes key 3 ring;
  Some (say "  %-20s -> primary=%-8s replicas=%v" [ShStr key; ShStr (or_zero EmptyString node); ShStrs (or_zero [] nodes3)]).

Definition demoConsistentHash : option (list printed) :=
  let ring := ring_of 10 ["node-1"; "node-2"; "node-3"] in
  routes ← mapM (route_line ring) ["user:alice"; "user:bob"; "order:1001"; "product:phone"; "session:xyz"; "cache:hot"];
  dist ← Distribution ring;
  Some (RingVisualization ring ++ routes ++
        map (fun node => let pct := default fzero (dist !! node) in
               say "  %-8s: %5.1f%% %s" [ShStr node; ShFloat pct; ShInt (bar (fdiv pct (f64 2)))]) (range_keys dist)).

(** [fmt.Sprintf("key-%04d", i)] of a number below 10000. *)
Definition padded_key (i : nat) : string := "key-" +:+ string_of_bytes (dec_digits 4 (Z.of_nat i)).

(** The closure [modHash], on a key of ASCII text. *)
Definition modHash (key : string) (n : Z) : Z :=
  let h := fold_left (fun h c => i64 (i64 (h * 31) + Z_of_byte c)) (bytes_of_string key) 0 in
  let h := if h <? 0 then i64 (- h) else h in
  Z.rem h n.

Definition mod_keys : list string := map padded_key (seq 0 100).

Definition mod_moved (keys : list string) : Z := zlen (List.filter (fun key => negb (modHash key 3 =? modHash key 4)) keys).

(** The keys that the two rings place on different nodes. *)
Fixpoint moved_keys (ring3 ring4 : ConsistentHashRing) (keys : list string) : option (list string) :=
  match keys with
  | [] => Some []
  | key :: keys =>
      n3 ← GetNode key ring3;
      n4 ← GetNode key ring4;
      rest ← moved_keys ring3 ring4 keys;
      Some (if or_zero EmptyString n3 =?s or_zero EmptyString n4 then rest else key :: rest)
  end.

Definition demoModNProblem : option (list printed) :=
  let keys := mod_keys in
  let moved := mod_moved keys in
  let ring3 := ring_of 150 ["node-1"; "node-2"; "node-3"] in
  let ring4 := ring_of 150 ["node-1"; "node-2"; "node-3"; "node-4"] in
  m ← moved_keys ring3 ring4 keys;
  let movedCH := zlen m in
  let percent n := fmul (fdiv (f64 n) (f64 (zlen keys))) (f64 100) in
  Some [say "  Total keys:     %d" [ShInt (zlen keys)]; say "  Keys that MOVE: %d (%.1f%%)" [ShInt moved; ShFloat (percent moved)];
        say "  Expected:       %.1f%% (formula: (N-1)/N x 100%%)" [ShFloat (fmul (fdiv (f64 3) (f64 4)) (f64 100))];
        say "  Total keys:     %d" [ShInt (zlen keys)]; say "  Keys that MOVE: %d (%.1f%%)" [ShInt movedCH; ShFloat (percent movedCH)];
        say "  Improvement: %.1fx fewer keys move!" [ShFloat (fdiv (f64 moved) (f64 (movedCH + 1)))]].

Definition fneg (f : float64) : float64 := SpecFloat.SFopp f.

Fixpoint max_deviation (dist : gmap string float64) (nodes : list string) (maxDev : float64) : float64 :=
  match nodes with
  | [] => maxDev
  | node :: nodes =>
      let dev := fsub (default fzero (dist !! node)) (f64 25) in
      let dev := if fltb dev fzero then fneg dev else dev in
      max_deviation dist nodes (if fltb maxDev dev then dev else maxDev)
  end.

Definition four_nodes : list string := ["node-1"; "node-2"; "node-3"; "node-4"].

Definition deviation_line (vnodes : Z) : option printed :=
  dist ← Distribution (ring_of vnodes four_nodes);
  Some (say "  %3d vnodes/node: max deviation from ideal = %.1f%%" [ShInt vnodes; ShFloat (max_deviation dist (range_keys dist) fzero)]).

Definition demoVirtualNodes : option (list printed) :=
  devs ← mapM deviation_line [1; 10; 50; 150];
  dist ← Distribution (ring_of 150 four_nodes);
  Some (devs ++ map (fun node => let pct := default fzero (dist !! node) in say "    %-8s: %5.1f%% %s" [ShStr node; ShFloat pct; ShInt (bar pct)]) (sort_Strings (range_keys dist))).

End ring.

(** ** Shards *)

Definition ShardDescriptor_String (s : ShardDescriptor) : printed :=
  let start := if sd_StartKey s =?s EmptyString then "(-∞" else "[" +:+ sd_StartKey s in
  let endk := if sd_EndKey s =?s EmptyString then "+∞)" else sd_EndKey s +:+ ")" in
  say "Shard{id=%d, range=%s..%s, group=%d, leader=%s}" [ShInt (sd_ShardID s); ShStr start; ShStr endk; ShInt (sd_RaftGroup s); ShStr (sd_Leader s)].

Definition shard_lines (sm : ShardMap) : option (list printed) := mapM (fun p => ShardDescriptor_String <$> shm_heap sm !! p) (All sm).

Definition lookup_line (sm : ShardMap) (key : string) : option printed :=
  res ← Lookup key sm;
  match res with
  | inl _ => Some (say "  %-20s -> ERROR: %v" [ShStr key])
  | inr p => shard ← shm_heap sm !! p; Some (say "  %-20s -> shard=%d group=%d leader=%s" [ShStr key; ShInt (sd_ShardID shard); ShInt (sd_RaftGroup shard); ShStr (sd_Leader shard)])
  end.

Definition update_leaders (leaders : list (Z * string)) (sm : ShardMap) : option ShardMap := for_each (fun x => UpdateLeader x.1 x.2) leaders sm.

Definition demoShardMap : option (list printed) :=
  sm ← Initialize 4 ["node-1"; "node-2"; "node-3"; "node-4"; "node-5"] NewShardMap;
  routes ← mapM (lookup_line sm) ["user:alice"; "user:zeus"; "order:0001"; "payment:xyz"; "session:abc"; "product:tv"];
  sm ← update_leaders [(0, "node-1"); (1, "node-2"); (2, "node-3"); (3, "node-4")] sm;
  shards ← shard_lines sm;
  Some (routes ++ shards).

(** ** The router *)

Definition RouterStats_String (s : RouterStats) : printed :=
  let hitRate := if 0 <? rs_TotalRequests s then fmul (fdiv (f64 (rs_CacheHits s)) (f64 (rs_TotalRequests s))) (f64 100) else fzero in
  say "Router{requests=%d, cacheHits=%.1f%%, redirects=%d, errors=%d}" [ShInt (rs_TotalRequests s); ShFloat hitRate; ShInt (rs_LeaderRedirects s); ShInt (rs_Errors s)].

Fixpoint route_lines (sm : ShardMap) (keys : list string) (router : Router) : option (list printed * Router) :=
  match keys with
  | [] => Some ([], router)
  | key :: keys =>
      '(res, router) ← Route key sm router;
      line ← (match res with
              | inl _ => Some (say "  %-20s -> ERROR: %v" [ShStr key])
              | inr req => shard ← shm_heap sm !! rq_Shard req; Some (say "  %-20s -> %s (shard=%d)" [ShStr key; ShStr (rq_TargetNode req); ShInt (sd_ShardID shard)])
              end);
      '(out, router) ← route_lines sm keys router;
      Some (line :: out, router)
  end.

(** The request of a call whose error is ignored. *)
Definition requested (res : RouterError + RoutedRequest) : option RoutedRequest := match res with inr req => Some req | inl _ => None end.

Fixpoint cached_lines (sm : ShardMap) (keys : list string) (router : Router) : option (list printed * Router) :=
  match keys with
  | [] => Some ([], router)
  | key :: keys =>
      '(res, router) ← Route key sm router;
      req ← requested res;
      '(out, router) ← cached_lines sm keys router;
      Some (say "  %-20s -> %s (cached)" [ShStr key; ShStr (rq_TargetNode req)] :: out, router)
  end.

Definition demoRouter : option (list printed) :=
  sm ← Initialize 3 ["node-1"; "node-2"; "node-3"] NewShardMap;
  sm ← update_leaders [(0, "node-1"); (1, "node-2"); (2, "node-3")] sm;
  let '(router, sm) := NewRouter 0 DefaultRouterConfig sm in
  let keys := ["user:alice"; "user:bob"; "payment:001"; "order:999"; "cache:hot"; "session:xyz"] in
  '(cold, router) ← route_lines sm keys router;
  '(warm, router) ← cached_lines sm (take 3 keys) router;
  '(res, router) ← Route "user:alice" sm router;
  req ← requested res;
  '(newReq, sm, router) ← HandleNotLeader req "node-3" sm router;
  Some (cold ++ warm ++ [say "  Routed to: %s" [ShStr (rq_TargetNode req)]] ++
        match newReq with inr newReq => [say "  Retrying with: %s" [ShStr (rq_TargetNode newReq)]] | inl _ => [] end ++
        [RouterStats_String (Router_Stats router)]).

(** ** Splitting *)

Definition demoShardSplit `{SortSlice} : option (list printed) :=
  sm ← Initialize 2 ["node-1"; "node-2"; "node-3"; "node-4"; "node-5"] NewShardMap;
  before ← shard_lines sm;
  let newReplicas := [mkReplica "node-3" "node-3:7000" ReplicaVoter; mkReplica "node-4" "node-4:7000" ReplicaVoter; mkReplica "node-5" "node-5:7000" ReplicaVoter] in
  '(res, sm, _) ← Split 0 "G" 10 newReplicas sm;
  match res with
  | inl _ => Some (before ++ [say "Split error: %v" []])
  | inr (p, q) =>
      original ← shm_heap sm !! p;
      newShard ← shm_heap sm !! q;
      after ← mapM (fun s => shard ← shm_heap sm !! s;
                let indicator := if sd_ShardID shard =? sd_ShardID original then "original" else if sd_ShardID shard =? sd_ShardID newShard then "new" else EmptyString in
                Some (say "%s %s" (ShStr indicator :: p_values (ShardDescriptor_String shard)))) (All sm);
      routes ← mapM (fun key => res ← Lookup key sm; match res with inl _ => Some [] | inr s => shard ← shm_heap sm !! s; Some [say "  %-10s -> shard=%d" [ShStr key; ShInt (sd_ShardID shard)]] end)
                 ["Alice"; "Bob"; "George"; "Zara"];
      Some (before ++ [say "After split (shard map v%d):" [ShInt (Version sm)]] ++ after ++ concat routes)
  end.

(** ** Hot spots

    [f i] and [n i] are the two draws of the [i]-th request. *)

Section hot.
  Context (f : nat -> float64) (n : nat -> Z -> Z).

Definition celebrities : list string := ["user:celeb1"; "user:celeb2"; "user:celeb3"].
Definition normalUsers : list string := map (fun i => "user:normal" +:+ string_of_bytes (dec_digits 3 (Z.of_nat i))) (seq 0 100).

Definition hot_key (i : nat) : option string :=
  if fltb (f i) (fdec 9 1) then celebrities !! Z.to_nat (n i (zlen celebrities)) else normalUsers !! Z.to_nat (n i (zlen normalUsers)).

Fixpoint access_counts (sm : ShardMap) (requests i : nat) (shardAccess : gmap Z Z) : option (gmap Z Z) :=
  match requests with
  | O => Some shardAccess
  | S requests =>
      key ← hot_key i;
      res ← Lookup key sm;
      match res with
      | inl _ => access_counts sm requests (S i) shardAccess
      | inr p =>
          shard ← shm_heap sm !! p;
          access_counts sm requests (S i) (<[sd_ShardID shard := default 0 (shardAccess !! sd_ShardID shard) + 1]> shardAccess)
      end
  end.

Definition action_name (a : RebalanceActionType) : string := match a with ActionSplit => "SPLIT" | ActionMerge => "MERGE" | ActionMove => "MOVE" end.

(** The lines from the counts on; [zeroTime] is [time.Time{}] of the statistics. *)
Definition hot_lines (now zeroTime : Z) (sm : ShardMap) (shardAccess : gmap Z Z) : option (list printed) :=
  let count shardID := default 0 (shardAccess !! shardID) in
  let total := map_fold (fun _ c t => t + c) 0 shardAccess in
  let line shardID :=
    let pct := fmul (fdiv (f64 (count shardID)) (f64 total)) (f64 100) in
    say "  Shard %d: %5d requests (%5.1f%%) %s" [ShInt shardID; ShInt (count shardID); ShFloat pct; ShInt (bar (fdiv pct (f64 2)))] in
  let report shardID r := UpdateStats (mkShardStats shardID (i64 (count shardID * 1024)) (fdiv (f64 (count shardID)) (f64 60)) EmptyString zeroTime zeroTime) r in
  rebalancer ← evaluate now sm (report 2 (report 1 (report 0 (NewRebalancer DefaultRebalancerConfig))));
  let '(actions, rebalancer) := PendingActions rebalancer in
  Some ([line 0; line 1; line 2] ++
        match actions with
        | [] => [say "  No actions needed (RPS below threshold for demo)" []]
        | _ => map (fun a => say "  -> %s shard %d: %s" [ShStr (action_name (ra_Type a)); ShInt (ra_ShardID a)]) actions
        end).

Definition demoHotSpot (now zeroTime : Z) : option (list printed) :=
  sm ← Initialize 3 ["node-1"; "node-2"; "node-3"] NewShardMap;
  shardAccess ← access_counts sm (Z.to_nat 10000) 0 ∅;
  hot_lines now zeroTime sm shardAccess.

End hot.

(** ** Raft groups *)

Fixpoint group_lines (nodes splitPoints : list string) (shards : list nat) (nodeMembership : gmap string (list Z)) : option (list printed * gmap string (list Z)) :=
  match shards with
  | [] => Some ([], nodeMembership)
  | i :: shards =>
      replicas ← assignReplicas nodes (Z.of_nat i) 3;
      let nodeMembership := fold_left (fun m r => <[rep_NodeID r := default [] (m !! rep_NodeID r) ++ [Z.of_nat i]]> m) replicas nodeMembership in
      startKey ← (if (0 <? i)%nat then splitPoints !! (i - 1)%nat else Some EmptyString);
      endKey ← (if (i <? length splitPoints)%nat then splitPoints !! i else Some EmptyString);
      let endKey := if endKey =?s EmptyString then "∞" else endKey in
      '(out, nodeMembership) ← group_lines nodes splitPoints shards nodeMembership;
      Some (say "  Raft Group %d [%q, %q): %v" [ShInt (Z.of_nat i); ShStr startKey; ShStr endKey; ShStrs (map rep_NodeID replicas)] :: out, nodeMembership)
  end.

Definition demoMultiRaft : option (list printed) :=
  let nodes := ["node-1"; "node-2"; "node-3"; "node-4"; "node-5"] in
  let numShards := 3 in
  '(groups, nodeMembership) ← group_lines nodes (computeSplitPoints numShards) (seq 0 (Z.to_nat numShards)) ∅;
  Some ([say "Cluster: %d nodes, %d shards, %d-way replication" [ShInt (zlen nodes); ShInt numShards; ShInt 3]] ++ groups ++
        map (fun nodeID => say "  %-8s: Raft groups %v" [ShStr nodeID; ShInts (default [] (nodeMembership !! nodeID))]) (sort_Strings nodes) ++
        [say "  Multi-Raft:  %d leaders handle writes SIMULTANEOUSLY" [ShInt numShards]; say "  Throughput:  ~%dx higher than single Raft group" [ShInt numShards]]).

(** ** What the demonstrations show *)

Section ring_shown.
  Context `{SortSlice}.

Lemma ring_of_inv v nodes : ring_inv (ring_of v nodes).
Proof.
  assert (E : ring_of v nodes = ring_run v (map RAdd nodes)); [|rewrite E; apply ring_run_inv].
  unfold ring_of, ring_run. generalize (NewConsistentHashRing v). induction nodes as [|x nodes IH]; intros r; [done|]. apply IH.
Qed.

Lemma GetNode_total key r : exists x, GetNode key r = Some x.
Proof.
  unfold GetNode. destruct (Nat.eqb_spec (length (hr_vnodes r)) 0) as [|Hne]; [eauto|].
  destruct (lookup_lt_is_Some_2 (hr_vnodes r) (ring_index (hr_vnodes r) (hashKey key))) as [vn Hvn]; [apply ring_index_lt; by intros E; rewrite E in Hne|].
  rewrite Hvn. cbn. eauto.
Qed.

(** The keys that move when a node joins move to it. *)
Lemma moved_to_new r n keys : ring_inv r -> NoDup (vn_Hash <$> hr_vnodes (AddNode n r)) ->
  exists m, moved_keys r (AddNode n r) keys = Some m /\ forall key, key ∈ m -> key ∈ keys /\ GetNode key (AddNode n r) = Some (inr n).
Proof.
  intros Hinv Hnd. induction keys as [|key keys (m & Hm & IH)]; [exists []; split; [done|set_solver]|]. cbn [moved_keys].
  destruct (GetNode_total key r) as [n3 H3], (GetNode_total key (AddNode n r)) as [n4 H4]. rewrite H3 H4 Hm. cbn [mbind option_bind].
  destruct (String.eqb_spec (or_zero EmptyString n3) (or_zero EmptyString n4)) as [|Hne].
  - exists m. split; [done|]. intros k Hk. destruct (IH k Hk). split; [by right|done].
  - exists (key :: m). split; [done|]. intros k [->|Hk]%elem_of_cons; [|destruct (IH k Hk); split; [by right|done]].
    split; [by left|]. destruct (AddNode_moves n key r Hinv Hnd) as [Heq|]; [|done]. rewrite H3 H4 in Heq. by injection Heq as ->.
Qed.

(** Three in four keys move when the number of nodes is the modulus; on the
    ring only keys of the new node move. *)
Theorem mod_n_demo : let ring3 := ring_of 150 ["node-1"; "node-2"; "node-3"] in
  NoDup (vn_Hash <$> hr_vnodes (AddNode "node-4" ring3)) ->
  exists m, Forall (fun key => GetNode key (AddNode "node-4" ring3) = Some (inr "node-4")) m /\
    p_values <$> (default [] demoModNProblem !! 4%nat) = Some [ShInt (zlen m); ShFloat (fmul (fdiv (f64 (zlen m)) (f64 100)) (f64 100))] /\
    p_values <$> (default [] demoModNProblem !! 1%nat) = Some [ShInt 76; ShFloat (fmul (fdiv (f64 76) (f64 100)) (f64 100))].
Proof.
  intros ring3 Hnd. destruct (moved_to_new ring3 "node-4" mod_keys (ring_of_inv _ _) Hnd) as (m & Hm & Hall). exists m.
  split; [apply Forall_forall; intros k Hk; by apply Hall|]. unfold demoModNProblem.
  change (ring_of 150 ["node-1"; "node-2"; "node-3"; "node-4"]) with (AddNode "node-4" ring3). fold ring3. rewrite Hm.
  assert (E : mod_moved mod_keys = 76) by (vm_compute; done). rewrite E. cbn [mbind option_bind default]. change (zlen mod_keys) with 100. split; reflexivity.
Qed.

End ring_shown.

(** Printable keys start in the last shard: all six are routed to it. *)
Example shard_map_demo : exists shards, demoShardMap = Some
  (map (fun key => say "  %-20s -> shard=%d group=%d leader=%s" [ShStr key; ShInt 3; ShInt 3; ShStr EmptyString])
     ["user:alice"; "user:zeus"; "order:0001"; "payment:xyz"; "session:abc"; "product:tv"] ++ shards) /\
  shards = [say "Shard{id=%d, range=%s..%s, group=%d, leader=%s}" [ShInt 0; ShStr "(-∞"; ShStr "8)"; ShInt 0; ShStr "node-1"];
            say "Shard{id=%d, range=%s..%s, group=%d, leader=%s}" [ShInt 1; ShStr "[8"; ShStr "O)"; ShInt 1; ShStr "node-2"];
            say "Shard{id=%d, range=%s..%s, group=%d, leader=%s}" [ShInt 2; ShStr "[O"; ShStr "f)"; ShInt 2; ShStr "node-3"];
            say "Shard{id=%d, range=%s..%s, group=%d, leader=%s}" [ShInt 3; ShStr "[f"; ShStr "+∞)"; ShInt 3; ShStr "node-4"]].
Proof. eexists. split; [vm_compute; reflexivity|reflexivity]. Qed.

(** The routes said to come from the cache do not: of ten requests none hit it. *)
Example router_demo_never_caches : last (default [] demoRouter) = Some (RouterStats_String (mkRouterStats 10 0 1 0)).
Proof. vm_compute. reflexivity. Qed.

Example split_demo : drop 2 (default [] demoShardSplit) =
  [say "After split (shard map v%d):" [ShInt 2]; say "%s %s" [ShStr "original"; ShInt 0; ShStr "(-∞"; ShStr "G)"; ShInt 0; ShStr EmptyString];
   say "%s %s" [ShStr "new"; ShInt 2; ShStr "[G"; ShStr "O)"; ShInt 10; ShStr EmptyString]; say "%s %s" [ShStr EmptyString; ShInt 1; ShStr "[O"; ShStr "+∞)"; ShInt 1; ShStr EmptyString];
   say "  %-10s -> shard=%d" [ShStr "Alice"; ShInt 0]; say "  %-10s -> shard=%d" [ShStr "Bob"; ShInt 0];
   say "  %-10s -> shard=%d" [ShStr "George"; ShInt 2]; say "  %-10s -> shard=%d" [ShStr "Zara"; ShInt 1]].
Proof. vm_compute. reflexivity. Qed.

Example multi_raft_demo : take 5 (drop 4 (default [] demoMultiRaft)) =
  [say "  %-8s: Raft groups %v" [ShStr "node-1"; ShInts [0]]; say "  %-8s: Raft groups %v" [ShStr "node-2"; ShInts [0; 1]]; say "  %-8s: Raft groups %v" [ShStr "node-3"; ShInts [0; 1; 2]];
   say "  %-8s: Raft groups %v" [ShStr "node-4"; ShInts [1; 2]]; say "  %-8s: Raft groups %v" [ShStr "node-5"; ShInts [2]]].
Proof. vm_compute. reflexivity. Qed.

(** ** The hot shard *)

Definition three_shards : ShardMap := default NewShardMap (Initialize 3 ["node-1"; "node-2"; "node-3"] NewShardMap).

Definition hot_keys : list string := celebrities ++ normalUsers.

Lemma hot_keys_shard : forallb (fun key => match Lookup key three_shards with Some (inr p) => (p =? 2)%nat | _ => false end) hot_keys = true.
Proof. vm_compute. done. Qed.

Lemma three_shards_eq : Initialize 3 ["node-1"; "node-2"; "node-3"] NewShardMap = Some three_shards.
Proof. vm_compute. reflexivity. Qed.

Lemma three_shards_all : mapM (shm_heap three_shards !!.) (All three_shards) = Some (shm_heap three_shards).
Proof. vm_compute. reflexivity. Qed.

Lemma hot_lines_merge now zeroTime : hot_lines now zeroTime three_shards {[2 := 10000]} = Some
  [say "  Shard %d: %5d requests (%5.1f%%) %s" [ShInt 0; ShInt 0; ShFloat fzero; ShInt 0]; say "  Shard %d: %5d requests (%5.1f%%) %s" [ShInt 1; ShInt 0; ShFloat fzero; ShInt 0];
   say "  Shard %d: %5d requests (%5.1f%%) %s" [ShInt 2; ShInt 10000; ShFloat (f64 100); ShInt 50];
   say "  -> %s shard %d: %s" [ShStr "MERGE"; ShInt 0]; say "  -> %s shard %d: %s" [ShStr "MERGE"; ShInt 1]].
Proof.
  unfold hot_lines. set (r := UpdateStats _ _).
  assert (Hsplit : forall s, s ∈ shm_heap three_shards -> split_action now r s = []).
  { intros s Hs. unfold split_action. destruct (rb_shardStats r !! sd_ShardID s) as [st|] eqn:Hst; [|done]. unfold shouldSplit. destruct (_ <? _); [done|].
    assert (Hb : (rbc_MaxShardSize (rb_config r) <? ss_SizeBytes st) || fltb (rbc_MaxShardRPS (rb_config r)) (ss_RPS st) = false); [|by rewrite Hb].
    unfold r, UpdateStats in Hst. cbn [rb_shardStats] in Hst.
    repeat (apply lookup_insert_Some in Hst as [[_ <-]|[_ Hst]]; [vm_compute; done|]). by rewrite lookup_empty in Hst. }
  unfold evaluate. rewrite three_shards_all. cbn [mbind option_bind].
  rewrite (map_ext_in (split_action now r) (fun _ => [])); [|intros s Hs; by apply Hsplit, list_elem_of_In]. clear Hsplit. vm_compute. reflexivity.
Qed.

Section hot_shown.
  Context (f : nat -> float64) (n : nat -> Z -> Z) (Hn : forall i k, 0 < k -> 0 <= n i k < k).

Lemma hot_key_in i : exists key, hot_key f n i = Some key /\ key ∈ hot_keys.
Proof.
  unfold hot_key. destruct (fltb _ _).
  - destruct (lookup_lt_is_Some_2 celebrities (Z.to_nat (n i (zlen celebrities)))) as [key Hkey]; [pose proof (Hn i (zlen celebrities) ltac:(done)); unfold zlen in *; lia|].
    exists key. split; [done|]. apply elem_of_app. left. by eapply list_elem_of_lookup_2.
  - destruct (lookup_lt_is_Some_2 normalUsers (Z.to_nat (n i (zlen normalUsers)))) as [key Hkey]; [pose proof (Hn i (zlen normalUsers) ltac:(done)); unfold zlen in *; lia|].
    exists key. split; [done|]. apply elem_of_app. right. by eapply list_elem_of_lookup_2.
Qed.

Lemma one_access requests i m : access_counts f n three_shards (S requests) i m = access_counts f n three_shards requests (S i) (<[2 := default 0 (m !! 2) + 1]> m).
Proof.
  cbn [access_counts]. destruct (hot_key_in i) as (key & -> & Hin). cbn [mbind option_bind]. pose proof hot_keys_shard as H. rewrite forallb_forall in H.
  apply list_elem_of_In, H in Hin. clear H. destruct (Lookup key three_shards) as [[e|p]|]; [done| |done]. by apply Nat.eqb_eq in Hin as ->.
Qed.

Lemma all_in_one requests : forall i m, access_counts f n three_shards (S requests) i m = Some (<[2 := default 0 (m !! 2) + Z.of_nat (S requests)]> m).
Proof.
  induction requests as [|requests IH]; intros i m; rewrite one_access; [done|]. rewrite IH lookup_insert_eq insert_insert_eq. do 2 f_equal. cbn [default from_option id]. lia.
Qed.

Lemma all_counted total : 0 < total -> access_counts f n three_shards (Z.to_nat total) 0 ∅ = Some {[2 := total]}.
Proof.
  intros H. destruct (Z.to_nat total) as [|k] eqn:E; [lia|]. rewrite all_in_one lookup_empty. rewrite insert_empty. do 2 f_equal. cbn [default from_option id]. lia.
Qed.

Lemma hot_counted now zeroTime total : 0 < total ->
  (sm ← Initialize 3 ["node-1"; "node-2"; "node-3"] NewShardMap; shardAccess ← access_counts f n sm (Z.to_nat total) 0 ∅; hot_lines now zeroTime sm shardAccess) =
  hot_lines now zeroTime three_shards {[2 := total]}.
Proof. intros H. rewrite three_shards_eq. cbn [mbind option_bind]. by rewrite all_counted. Qed.

(** Whatever is drawn, all requests meet one shard, and the rebalancer proposes
    to merge it with its neighbour. *)
Theorem hot_spot_demo now zeroTime : demoHotSpot f n now zeroTime = Some
  [say "  Shard %d: %5d requests (%5.1f%%) %s" [ShInt 0; ShInt 0; ShFloat fzero; ShInt 0]; say "  Shard %d: %5d requests (%5.1f%%) %s" [ShInt 1; ShInt 0; ShFloat fzero; ShInt 0];
   say "  Shard %d: %5d requests (%5.1f%%) %s" [ShInt 2; ShInt 10000; ShFloat (f64 100); ShInt 50];
   say "  -> %s shard %d: %s" [ShStr "MERGE"; ShInt 0]; say "  -> %s shard %d: %s" [ShStr "MERGE"; ShInt 1]].
Proof. exact (eq_trans (hot_counted now zeroTime 10000 eq_refl) (hot_lines_merge now zeroTime)). Qed.

End hot_shown.
