(* ===== verification/DemoTxn.v ===== *)
(** * DemoTxn: the demonstrations of transactions (pkg/txn/demo.go), and the
    sample saga of pkg/txn/saga.go

    [pt i] is the wall clock in milliseconds at the [i]-th reading of a hybrid
    clock, [now i] the [i]-th reading in nanoseconds.  Clients that share a
    clock pass it on. *)

From S2P Require Import Prelude Bytes Float64 Hlc LockManager Ssi TwoPC TwoPhaseCommit Percolator Saga Demo.

Section clocks.
  Context (pt now : nat -> Z).

(** ** Locks *)

Definition demoLockManager : list printed :=
  let lm := NewLockManager in
  let txn1 := "txn-1" in
  let txn2 := "txn-2" in
  let lock1 := mkLock "A" txn1 (HLC_Now (pt 0%nat) (NewHLC "node-1")).1 EmptyString (Some (now 0%nat + 5 * sec)) in
  let '(acquired1, lm) := TryLock (now 1%nat) "A" lock1 lm in
  let lock2 := mkLock "A" txn2 (HLC_Now (pt 1%nat) (NewHLC "node-2")).1 EmptyString (Some (now 2%nat + 5 * sec)) in
  let '(acquired2, lm) := TryLock (now 3%nat) "A" lock2 lm in
  let lm := Unlock txn1 lm in
  let '(acquired3, lm) := TryLock (now 4%nat) "A" lock2 lm in
  let stats := LM_Stats lm in
  [say "  txn-1 locks A: %v" [ShBool acquired1]; say "  txn-2 locks A: %v (conflict!)" [ShBool acquired2]; say "  txn-2 locks A (after release): %v" [ShBool acquired3];
   say "  Lock stats: %v" [ShInt (ActiveLocks stats); ShInt (ActiveTxns stats)]].

(** ** Two-phase commit *)

Definition demoTwoPhaseCommit (coordinatorName : string) : list printed :=
  let coordinator := NewTwoPhaseCommitCoordinator (NewHLC "coordinator") in
  let coordinator := AddParticipant (mkParticipant "shard-1" 1 "shard-1:7000" false VoteCommit false) coordinator in
  let coordinator := AddParticipant (mkParticipant "shard-2" 2 "shard-2:7000" false VoteCommit false) coordinator in
  match TPC_Begin (pt 0%nat) (now 0%nat) (now 1%nat) coordinatorName Serializable [1; 2] coordinator with
  | (inl _, _) => [say "  Begin failed: %v" []]
  | (inr txn, coordinator) =>
      [say "  Transaction started: %s" [ShStr (txn_ID txn)]; say "  Participants: %v" [ShStrs (txn_Participants txn)]; say "  Read timestamp: %s" [ShInt (txn_ReadTimestamp txn)]] ++
      match TPC_Prepare (txn_ID txn) coordinator with
      | (inl _, _) => [say "  Prepare failed: %v" []]
      | (inr allReady, coordinator) =>
          [say "  All participants ready: %v" [ShBool allReady]] ++
          (if allReady then
             match TPC_Commit (pt 1%nat) (txn_ID txn) coordinator with
             | (Some _, _) => [say "  Commit failed: %v" []]
             | (None, _) => [say "  Transaction COMMITTED" []]
             end
           else [say "  Transaction ABORTED" []])
      end
  end.

(** ** Percolator

    [order] is the iteration order over the write set, for the printed list
    and for [Prewrite]. *)

Definition demoPercolator (printOrder order : list string) : list printed :=
  let client := NewPercolatorClient (NewHLC "node-1") in
  let '(txn, client) := Perc_Begin (pt 0%nat) (now 0%nat) (now 1%nat) Serializable client in
  let txn := Perc_Set "account:A" (bytes_of_string "100") txn in
  let txn := Perc_Set "account:B" (bytes_of_string "200") txn in
  let txn := Perc_Set "account:C" (bytes_of_string "300") txn in
  [say "  Transaction: %s" [ShStr (txn_ID (pc_Transaction txn))]; say "  Read timestamp: %s" [ShInt (txn_ReadTimestamp (pc_Transaction txn))]] ++
  map (fun key => say "    %s" [ShStr key]) printOrder ++ [say "  Primary key: %s" [ShStr (pc_PrimaryKey txn)]] ++
  match Perc_Prewrite order txn with
  | (Some _, _, _) => [say "  Prewrite failed: %v" []]
  | (None, txn, _) =>
      match Perc_Commit (pt 1%nat) txn client with
      | (Some _, _, _, _, _) => [say "  Commit failed: %v" []]
      | (None, txn, _, _, _) => [say "  Transaction COMMITTED" []; say "  Commit timestamp: %s" [ShInt (txn_CommitTimestamp (pc_Transaction txn))]]
      end
  end.

(** The three transactions at the end, with what is printed. *)
Definition demoPercolatorConflict : list printed * list PercolatorTransaction :=
  let client1 := NewPercolatorClient (NewHLC "node-1") in
  let '(txn1, client1) := Perc_Begin (pt 0%nat) (now 0%nat) (now 1%nat) Serializable client1 in
  let txn1 := Perc_Set "balance:X" (bytes_of_string "100") txn1 in
  let client2 := NewPercolatorClient (cl_hlc client1) in
  let '(txn2, client2) := Perc_Begin (pt 1%nat) (now 2%nat) (now 3%nat) Serializable client2 in
  let txn2 := Perc_Set "balance:X" (bytes_of_string "200") txn2 in
  let '(_, txn1, _) := Perc_Prewrite ["balance:X"] txn1 in
  let '(err, txn2, _) := Perc_Prewrite ["balance:X"] txn2 in
  let client1 := NewPercolatorClient (cl_hlc client2) in
  let '(_, txn1, client1, _, _) := Perc_Commit (pt 2%nat) txn1 client1 in
  let client2 := NewPercolatorClient (cl_hlc client1) in
  let '(txn2Retry, client2) := Perc_Begin (pt 3%nat) (now 4%nat) (now 5%nat) Serializable client2 in
  let txn2Retry := Perc_Set "balance:X" (bytes_of_string "200") txn2Retry in
  let '(_, txn2Retry, _) := Perc_Prewrite ["balance:X"] txn2Retry in
  let '(_, txn2Retry, client2, _, _) := Perc_Commit (pt 4%nat) txn2Retry client2 in
  (match err with Some _ => [say "  txn-2 prewrite failed: %v" []] | None => [] end ++ [say "  txn-1 committed, lock released" []; say "  txn-2 committed on retry" []],
   [txn1; txn2; txn2Retry]).

(** ** Serializable snapshot isolation *)

Definition demo_txn (id : string) (readTimestamp startTime : Z) : Transaction :=
  mkTransaction id TxnInit ReadCommitted readTimestamp 0 startTime EmptyString [] EmptyString ∅ ∅ ∅.

(** [gc] are the times of the rounds of the background goroutine before the check. *)
Definition demoSSI (gc : list Z) : list printed :=
  let hlc := NewHLC "node-1" in
  let '(r1, hlc) := HLC_Now (pt 0%nat) hlc in
  let txn1 := demo_txn "txn-1" r1 (now 0%nat) in
  let detector := RecordRead "txn-1" "account:A" (txn_ReadTimestamp txn1) (RegisterTxn txn1 NewSSIDetector) in
  let '(w1, hlc) := HLC_Now (pt 1%nat) hlc in
  let detector := RecordWrite "txn-1" "account:B" w1 detector in
  let '(r2, hlc) := HLC_Now (pt 2%nat) hlc in
  let txn2 := demo_txn "txn-2" r2 (now 1%nat) in
  let detector := RecordRead "txn-2" "account:B" (txn_ReadTimestamp txn2) (RegisterTxn txn2 detector) in
  let '(w2, hlc) := HLC_Now (pt 3%nat) hlc in
  let detector := RecordWrite "txn-2" "account:A" w2 detector in
  let '(c1, hlc) := HLC_Now (pt 4%nat) hlc in
  let detector := SSI_Commit (now 2%nat) "txn-1" c1 detector in
  let detector := fold_left (fun d t => gc_round t d) gc detector in
  match CheckConflict txn2 detector with
  | Some _ => [say "  txn-2 aborted: %v" []]
  | None => [say "  txn-2 committed (no conflict)" []]
  end.

End clocks.

(** ** The order saga (pkg/txn/saga.go) *)

Inductive datum := DString (s : string) | DInt (z : Z) | DFloat (f : float64) | DBool (b : bool).

(** The data of the saga, and what its steps have printed. *)
Record order_world := mkOrderWorld {
  ow_data : gmap string datum;
  ow_printed : list string;
}.

(** A step that prints a line, marks the data and succeeds. *)
Definition order_step (line : string) (mark : option string) (w : order_world) : bool * order_world :=
  (false, mkOrderWorld (match mark with Some k => <[k := DBool true]> (ow_data w) | None => ow_data w end) (ow_printed w ++ [line])).

Definition printing_order_saga : list (@SagaStep order_world) :=
  [mkSagaStep "Reserve Inventory" (order_step "  [Saga] Reserving inventory..." (Some "inventory_reserved")) (Some (order_step "  [Saga] Releasing inventory..." None)) 2 0;
   mkSagaStep "Charge Credit Card" (order_step "  [Saga] Charging credit card..." (Some "payment_charged")) (Some (order_step "  [Saga] Refunding payment..." None)) 0 0;
   mkSagaStep "Create Shipment" (order_step "  [Saga] Creating shipment..." (Some "shipment_created")) (Some (order_step "  [Saga] Canceling shipment..." None)) 0 0;
   mkSagaStep "Send Confirmation" (order_step "  [Saga] Sending confirmation email..." None) None 0 0].

Definition SagaState_String (s : SagaState) : string :=
  match s with SagaPending => "PENDING" | SagaRunning => "RUNNING" | SagaCompleted => "COMPLETED" | SagaFailed => "FAILED" | SagaCompensating => "COMPENSATING" end.

(** The background context is never done. *)
Definition demoSaga (startedAt completedAt : Z) : option (list printed * order_world) :=
  let orchestrator := NewSagaOrchestrator in
  let initialData := {["order_id" := DString "12345"; "product_id" := DString "PROD-001"; "quantity" := DInt 2; "amount" := DFloat (fdec 9999 2)]} in
  let '(saga, orchestrator) := Saga_Begin startedAt "order-12345" printing_order_saga (mkOrderWorld initialData []) orchestrator in
  '(err, _, saga') ← Saga_Execute (fun _ => false) completedAt orchestrator saga;
  Some ([say "  Saga started: %s" [ShStr (se_ID saga)]; say "  Steps: %d" [ShInt (zlen (se_Steps saga))]] ++
        (match err with Some _ => [say "  Saga failed: %v" []] | None => [say "  Saga completed successfully!" []] end) ++
        [say "  Final state: %s" [ShStr (SagaState_String (se_State saga'))]; say "  Duration: %v" [ShInt (se_CompletedAt saga' - se_StartedAt saga')]],
        se_Data saga').

(** ** What the demonstrations show *)

Section shown_txn.
  Context (pt now : nat -> Z).

(** The second lock is refused while the first is live. *)
Theorem lock_manager_demo : now 3%nat <= now 0%nat + 5 * sec ->
  demoLockManager pt now = [say "  txn-1 locks A: %v" [ShBool true]; say "  txn-2 locks A: %v (conflict!)" [ShBool false];
    say "  txn-2 locks A (after release): %v" [ShBool true]; say "  Lock stats: %v" [ShInt 1; ShInt 1]].
Proof.
  intros H. unfold demoLockManager. set (l1 := mkLock "A" "txn-1" _ _ _). set (l2 := mkLock "A" "txn-2" _ _ _).
  change (TryLock (now 1%nat) "A" l1 NewLockManager) with (true, mkLockManager {["A" := l1]} {["txn-1" := {["A"]}]}). cbn match.
  assert (E2 : TryLock (now 3%nat) "A" l2 (mkLockManager {["A" := l1]} {["txn-1" := {["A"]}]}) = (false, mkLockManager {["A" := l1]} {["txn-1" := {["A"]}]})).
  { unfold TryLock. cbn [lm_locks]. rewrite lookup_singleton_eq. cbn [lk_TxnID l1 l2 String.eqb Ascii.eqb Bool.eqb].
    unfold expired. cbn [lk_ExpiresAt l1]. rewrite (proj2 (Z.ltb_ge (now 0%nat + 5 * sec) (now 3%nat))); [done|lia]. }
  rewrite E2. reflexivity.
Qed.

(** Both participants vote to commit and the transaction commits, whatever the clocks. *)
Theorem two_phase_demo name : exists id readTS,
  demoTwoPhaseCommit pt now name = [say "  Transaction started: %s" [ShStr id]; say "  Participants: %v" [ShStrs ["shard-1"; "shard-2"]]; say "  Read timestamp: %s" [ShInt readTS];
    say "  All participants ready: %v" [ShBool true]; say "  Transaction COMMITTED" []].
Proof.
  unfold demoTwoPhaseCommit, TPC_Begin, TPC_generateTxnID. destruct (HLC_Now (pt 0%nat) _) as [ts h] eqn:E1. cbn [fst snd].
  match goal with |- context [participant_list [1; 2] ?c] => change (participant_list [1; 2] c) with ["shard-1"; "shard-2"] end. cbn match.
  change (tc_hlc (set_hlc h _)) with h. destruct (HLC_Now (pt 0%nat) h) as [readTS h2]. unfold TPC_Prepare. cbn [tc_transactions set_tpc txn_ID].
  rewrite lookup_insert_eq. cbn [tp_Txn]. unfold TPC_Commit. cbn [map txn_Participants set_txn_state collect_votes TPC_sendPrepare]. cbn [tc_transactions set_tpc].
  cbn -[txn_name HLC_Now]. rewrite lookup_insert_eq. cbn -[txn_name HLC_Now]. destruct (HLC_Now (pt 1%nat) h2). eauto.
Qed.

(** The primary key is prewritten after the others, and committing it commits
    the transaction: in every order of the write set. *)
Lemma prewrite_ok order t : pc_PrimaryKey t <> EmptyString -> exists t' evs, Perc_Prewrite order t = (None, t', evs) /\
  pc_Transaction t' = pc_Transaction t /\ pc_PrimaryKey t' = pc_PrimaryKey t /\ pc_prewriteSuccess t' !! pc_PrimaryKey t' = Some true.
Proof.
  intros Hp. unfold Perc_Prewrite. destruct (String.eqb_spec (pc_PrimaryKey t) EmptyString) as [|_]; [done|].
  assert (Hloop : forall keys t0, exists m evs, prewrite_loop keys t0 = (None, set_success m t0, evs)).
  { induction keys as [|key keys IH]; intros t0; [exists (pc_prewriteSuccess t0), []; by destruct t0|]. cbn [prewrite_loop prewriteKey].
    destruct (IH (set_success (<[key := true]> (pc_prewriteSuccess t0)) t0)) as (m & evs & ->). by exists m, ([EPrewrite key false] ++ evs). }
  destruct (Hloop (filter (fun key => key <> pc_PrimaryKey t) order) (set_secondary (filter (fun key => key <> pc_PrimaryKey t) order) t)) as (m & evs & ->).
  cbn [prewriteKey]. eexists _, _. split; [done|]. cbn. by rewrite lookup_insert_eq.
Qed.

Lemma commit_ok p t c : pc_prewriteSuccess t !! pc_PrimaryKey t = Some true -> exists t' c' evs, Perc_Commit p t c = (None, t', c', evs, true) /\
  txn_State (pc_Transaction t') = TxnCommitted.
Proof. intros H. unfold Perc_Commit. rewrite H. cbn [negb default]. destruct (cl_Now p c). cbn [commitKey]. eexists _, _, _. done. Qed.

Theorem percolator_demo printOrder order : exists id readTS commitTS, demoPercolator pt now printOrder order =
  [say "  Transaction: %s" [ShStr id]; say "  Read timestamp: %s" [ShInt readTS]] ++ map (fun key => say "    %s" [ShStr key]) printOrder ++
  [say "  Primary key: %s" [ShStr "account:A"]; say "  Transaction COMMITTED" []; say "  Commit timestamp: %s" [ShInt commitTS]].
Proof.
  unfold demoPercolator. destruct (Perc_Begin _ _ _ _ _) as [t c] eqn:Eb. set (t3 := Perc_Set "account:C" _ _).
  assert (Hp : pc_PrimaryKey t3 = "account:A").
  { unfold Perc_Begin in Eb. destruct (Perc_generateTxnID _ _ _) as [id c1]. destruct (cl_Now _ c1) as [ts c2]. injection Eb as <- _. reflexivity. }
  rewrite Hp. destruct (prewrite_ok order t3) as (t' & evs & -> & _ & _ & Hs); [by rewrite Hp|]. destruct (commit_ok (pt 1%nat) t' c Hs) as (t'' & c' & evs' & -> & _). cbn match.
  do 3 eexists. reflexivity.
Qed.

(** The conflict that the demonstration announces is not detected: both
    transactions prewrite the key. *)
Theorem conflict_demo_finds_none : exists t1 t2 t3, demoPercolatorConflict pt now =
    ([say "  txn-1 committed, lock released" []; say "  txn-2 committed on retry" []], [t1; t2; t3]) /\
  txn_State (pc_Transaction t1) = TxnCommitted /\ txn_State (pc_Transaction t3) = TxnCommitted /\ pc_prewriteSuccess t2 !! "balance:X" = Some true.
Proof.
  assert (Hset : forall p n1 n2 c v, exists t c', Perc_Begin p n1 n2 Serializable c = (t, c') /\ pc_PrimaryKey (Perc_Set "balance:X" v t) = "balance:X").
  { intros. unfold Perc_Begin. destruct (Perc_generateTxnID _ _ _) as [id c1]. destruct (cl_Now _ c1). by eexists _, _. }
  unfold demoPercolatorConflict.
  destruct (Hset (pt 0%nat) (now 0%nat) (now 1%nat) (NewPercolatorClient (NewHLC "node-1")) (bytes_of_string "100")) as (t1 & c1 & -> & H1).
  destruct (Hset (pt 1%nat) (now 2%nat) (now 3%nat) (NewPercolatorClient (cl_hlc c1)) (bytes_of_string "200")) as (t2 & c2 & -> & H2).
  destruct (prewrite_ok ["balance:X"] (Perc_Set "balance:X" (bytes_of_string "100") t1)) as (t1' & ? & -> & _ & _ & Hs1); [by rewrite H1|].
  destruct (prewrite_ok ["balance:X"] (Perc_Set "balance:X" (bytes_of_string "200") t2)) as (t2' & ? & -> & _ & Hp2 & Hs2); [by rewrite H2|].
  destruct (commit_ok (pt 2%nat) t1' (NewPercolatorClient (cl_hlc c2)) Hs1) as (t1'' & c1' & ? & -> & Hc1).
  destruct (Hset (pt 3%nat) (now 4%nat) (now 5%nat) (NewPercolatorClient (cl_hlc c1')) (bytes_of_string "200")) as (t3 & c3 & -> & H3).
  destruct (prewrite_ok ["balance:X"] (Perc_Set "balance:X" (bytes_of_string "200") t3)) as (t3' & ? & -> & _ & _ & Hs3); [by rewrite H3|].
  destruct (commit_ok (pt 4%nat) t3' c3 Hs3) as (t3'' & c3' & ? & -> & Hc3). exists t1'', t2', t3''. split; [done|]. rewrite Hp2 H2 in Hs2. done.
Qed.

(** The check never aborts the second transaction: the committed one has its
    timestamp after the read of the other.  The write skew goes through. *)
Theorem ssi_demo_misses_skew gc : (forall i, 0 <= pt i < two47) -> demoSSI pt now gc = [say "  txn-2 committed (no conflict)" []].
Proof.
  intros Hpt. unfold demoSSI. assert (U0 : clock_used 0 (NewHLC "node-1")) by (split; [done|cbn; lia]).
  destruct (HLC_Now (pt 0%nat) _) as [r1 h1] eqn:E1. destruct (HLC_Now_used _ _ _ _ _ U0 ltac:(rewrite LogicalMax_eq; lia) (Hpt _) E1) as (U1 & _ & _).
  destruct (HLC_Now (pt 1%nat) _) as [w1 h2] eqn:E2. destruct (HLC_Now_used _ _ _ _ _ U1 ltac:(rewrite LogicalMax_eq; lia) (Hpt _) E2) as (U2 & _ & _).
  destruct (HLC_Now (pt 2%nat) _) as [r2 h3] eqn:E3. destruct (HLC_Now_used _ _ _ _ _ U2 ltac:(rewrite LogicalMax_eq; lia) (Hpt _) E3) as (U3 & _ & R2).
  destruct (HLC_Now (pt 3%nat) _) as [w2 h4] eqn:E4. destruct (HLC_Now_used _ _ _ _ _ U3 ltac:(rewrite LogicalMax_eq; lia) (Hpt _) E4) as (U4 & L4 & W2).
  destruct (HLC_Now (pt 4%nat) _) as [c1 h5] eqn:E5. destruct (HLC_Now_used _ _ _ _ _ U4 ltac:(rewrite LogicalMax_eq; lia) (Hpt _) E5) as (_ & L5 & _).
  assert (Hlt : HLC_After r2 c1 = false) by (unfold HLC_After; apply Z.ltb_ge; lia).
  clear E1 E2 E3 E4 E5 U0 U1 U2 U3 U4 L4 L5 R2 W2. clear h1 h2 h3 h4 h5.
  set (d := SSI_Commit _ _ _ _).
  assert (Hd : ssi_readWriteSets d = <["txn-2" := <["account:A" := mkRWSet 0 true w2]> {["account:B" := mkRWSet r2 false 0]}]>
                 {["txn-1" := <["account:B" := mkRWSet 0 true w1]> {["account:A" := mkRWSet r1 false 0]}]} /\
               ssi_committedTxns d = {["txn-1" := mkCommittedTxnInfo "txn-1" c1 {["account:B"]} {["account:A"]} (now 2%nat + committedTTL)]}) by (split; reflexivity).
  assert (Hgc : forall gc d0, ssi_readWriteSets (fold_left (fun d t => gc_round t d) gc d0) = ssi_readWriteSets d0 /\
     (ssi_committedTxns (fold_left (fun d t => gc_round t d) gc d0)) ⊆ ssi_committedTxns d0).
  { clear. induction gc as [|t gc IH]; intros d0; [done|]. cbn. destruct (IH (gc_round t d0)) as [-> Hs]. split; [done|]. etrans; [exact Hs|]. apply map_filter_subseteq. }
  destruct (Hgc gc d) as [Hrw Hsub]. destruct Hd as [Hd1 Hd2]. rewrite Hd1 in Hrw. rewrite Hd2 in Hsub. clear Hgc Hd1 Hd2. clearbody d.
  set (d' := fold_left _ gc d) in *. clearbody d'. unfold CheckConflict. rewrite Hrw. change (txn_ID (demo_txn "txn-2" r2 (now 1%nat))) with "txn-2".
  rewrite lookup_insert_eq. set (rw2 := <["account:A" := _]> _).
  assert (Hc : concat (map (committed_conflicts (demo_txn "txn-2" r2 (now 1%nat)) rw2) (map_to_list (ssi_committedTxns d'))) = []).
  { apply concat_nil_Forall, Forall_map, Forall_forall. intros [id info] Hin%elem_of_map_to_list. eapply lookup_weaken in Hin; [|exact Hsub].
    apply lookup_singleton_Some in Hin as [<- <-]. unfold committed_conflicts. cbn [txn_ReadTimestamp ci_CommitTs demo_txn]. rewrite Hlt. vm_compute. reflexivity. }
  rewrite Hc. generalize (ssi_activeTxns d'). intros active. vm_compute. reflexivity.
Qed.

End shown_txn.

(** The steps run in their order, and the saga completes. *)
Example saga_demo_lines startedAt completedAt : option_map (fun r => (r.1, ow_printed r.2, ow_data r.2 !! "shipment_created")) (demoSaga startedAt completedAt) =
  Some ([say "  Saga started: %s" [ShStr "order-12345"]; say "  Steps: %d" [ShInt 4]; say "  Saga completed successfully!" [];
         say "  Final state: %s" [ShStr "COMPLETED"]; say "  Duration: %v" [ShInt (completedAt - startedAt)]],
        ["  [Saga] Reserving inventory..."; "  [Saga] Charging credit card..."; "  [Saga] Creating shipment..."; "  [Saga] Sending confirmation email..."], Some (DBool true)).
Proof. vm_compute. reflexivity. Qed.

(** The failure that the demonstration describes: when no shipment can be
    created the payment is refunded and then the inventory released. *)
Definition failing_shipment : list (@SagaStep order_world) :=
  imap (fun i s => if (i =? 2)%nat then mkSagaStep (sp_Name s) (fun w => (true, w)) (sp_Compensate s) (sp_RetryCount s) (sp_RetryDelay s) else s) printing_order_saga.

Example saga_failure_compensates startedAt completedAt :
  let '(saga, orchestrator) := Saga_Begin startedAt "order-12345" failing_shipment (mkOrderWorld ∅ []) NewSagaOrchestrator in
  option_map (fun '(err, _, saga) => (option_map fst err, SagaState_String (se_State saga), ow_printed (se_Data saga))) (Saga_Execute (fun _ => false) completedAt orchestrator saga) =
  Some (Some 2%nat, "FAILED", ["  [Saga] Reserving inventory..."; "  [Saga] Charging credit card..."; "  [Saga] Refunding payment..."; "  [Saga] Releasing inventory..."]).
Proof. vm_compute. reflexivity. Qed.
