(* ===== verification/DemoStorage.v ===== *)
(** * DemoStorage: the demonstrations of the storage engine
    (pkg/storage/demo.go)

    The temporary directories are empty at first, and no file operation fails.
    [pt] reads the wall clock in milliseconds for each write, [draws] has the
    coin flips of the memtable; other clock readings only measure how long
    calls take.  [exp] and [pow] are those of package math. *)

From S2P Require Import Prelude Bytes Float64 Hlc WalRecord Wal Bloom Skiplist SSTable Command Engine Demo.

(** [%06d] of a number below a million. *)
Definition six_digits (i : nat) : string := string_of_bytes (dec_digits 6 (Z.of_nat i)).

(** ** The Bloom filter *)

Section bloom.
  Context (optimalBits : Z -> Z) (optimalHashes : Z -> Z -> Z) (exp : float64 -> float64) (pow : float64 -> float64 -> float64).

Definition FalsePositiveRate (bf : BloomFilter) : float64 :=
  if bf_count bf =? 0 then fzero
  else
    let exponent := fdiv (fmul (SpecFloat.SFopp (f64 (bf_k bf))) (f64 (bf_count bf))) (f64 (bf_m bf)) in
    pow (fsub (f64 1) (exp exponent)) (f64 (bf_k bf)).

(** The keys that are denied; a panic is [None]. *)
Fixpoint denied (keys : list string) (bf : BloomFilter) : option (list string) :=
  match keys with
  | [] => Some []
  | key :: keys => found ← Bloom_Contains key bf; rest ← denied keys bf; Some (if found : bool then rest else key :: rest)
  end.

Definition user_keys (n : nat) : list string := map (fun i => "user:" +:+ six_digits i) (seq 0 n).
Definition missing_keys (n : nat) : list string := map (fun i => "nonexistent:" +:+ six_digits i) (seq 0 n).

(** With [n] keys and [testCount] tests. *)
Definition bloom_lines (n testCount : nat) : option (list printed) :=
  let keys := user_keys n in
  bf ← add_all keys (New optimalBits optimalHashes (Z.of_nat n));
  negatives ← denied (take 10 keys) bf;
  absent ← denied (missing_keys testCount) bf;
  let falsePositives := Z.of_nat testCount - zlen absent in
  let fpRate := fmul (fdiv (f64 falsePositives) (f64 (Z.of_nat testCount))) (f64 100) in
  Some ([say "  Bits used:            %d" [ShInt (BitCount bf)]; say "  False positive rate:  %.2f%%" [ShFloat (fmul (FalsePositiveRate bf) (f64 100))]] ++
        map (fun key => say "  FALSE NEGATIVE for %s - should never happen!" [ShStr key]) negatives ++
        say_if (bool_decide (negatives = [])) (say "  No false negatives (guaranteed)" []) ++
        [say "  False positives:      %d/%d (%.2f%%)" [ShInt falsePositives; ShInt (Z.of_nat testCount); ShFloat fpRate];
         say "  For a 100MB SSTable with 1M keys: bloom filter = %.1fMB" [ShFloat (fdiv (f64 9600000) (f64 8388608))]]).

Definition demoBloomFilter : option (list printed) := bloom_lines 1000 (Z.to_nat 10000).

End bloom.

(** ** The log *)

Section log.
  Context (pt : nat -> Z).

Fixpoint write_lines (i : nat) (writes : list string) (w : WAL) (fs : FS) : list printed * WAL * FS :=
  match writes with
  | [] => ([], w, fs)
  | cmd :: writes =>
      let '(res, w, fs) := wal_Write (pt i) (bytes_of_string cmd) w fs in
      let line := match res with inl _ => say "  Write error: %v" [] | inr entry => say "  [seq=%d, ts=%s] %s" [ShInt (went_Sequence entry); ShInt (went_Timestamp entry); ShStr cmd] end in
      let '(out, w, fs) := write_lines (S i) writes w fs in
      (line :: out, w, fs)
  end.

Definition demo_writes : list string := ["PUT user:alice balance=1000"; "PUT user:bob balance=500"; "DELETE user:charlie"; "PUT user:alice balance=900"].

(** [elapsed] is the time the writes took. *)
Definition demoWAL (elapsed : Z) : list printed :=
  match Open (NewHLC "demo-node") emptyFS with
  | (inl _, _) => [say "Error: %v" []]
  | (inr w, fs) =>
      let '(out, w, fs) := write_lines 0 demo_writes w fs in
      let stats := WAL_Stats w in
      let '(_, _, w, fs) := WAL_Close w fs in
      out ++
      [say "  Total time:       %v" [ShInt elapsed]; say "  Records written:  %d" [ShInt (RecordsWritten stats)]; say "  Bytes written:    %d" [ShInt (BytesWritten stats)];
       say "  Fsync calls:      %d (group commit!)" [ShInt (SyncCount stats)]; say "  Avg per write:    %v" [ShInt (Z.quot elapsed (zlen demo_writes))]] ++
      match Open (NewHLC "demo-node-2") fs with
      | (inl _, _) => [say "  Recovery error: %v" []]
      | (inr w2, _) => [say "  Recovered! Next sequence: %d" [ShInt (NextSequence (WAL_Stats w2))]]
      end
  end.

(** ** The engine *)

Context (draws : nat -> list bool).

Fixpoint put_all (i : nat) (kvs : list (string * string)) (e : Engine) (fs : FS) : option (option EngineError * Engine * FS) :=
  match kvs with
  | [] => Some (None, e, fs)
  | (key, value) :: kvs =>
      '(err, _, e, fs) ← Engine_Put (pt i) (draws i) key (bytes_of_string value) e fs;
      match err with Some err => Some (Some err, e, fs) | None => put_all (S i) kvs e fs end
  end.

Definition numbered (prefix : string) (digits : nat -> string) (n : nat) : list (string * string) :=
  map (fun i => (prefix +:+ digits i, "value-" +:+ string_of_bytes (fmt_d (Z.of_nat i)))) (seq 0 n).

(** A read: its value, and whether the key was found. *)
Definition read_key (r : EngineError + option bytes) : string * bool := match r with inr (Some v) => (string_of_bytes v, true) | _ => (EmptyString, false) end.

Fixpoint get_lines (keys : list string) (e : Engine) : option (list printed * Engine) :=
  match keys with
  | [] => Some ([], e)
  | key :: keys =>
      '(res, e) ← Engine_Get key ∅ e;
      let line := match res with
                  | inl _ => say "  GET %s -> error: %v" [ShStr key]
                  | inr (Some val) => say "  GET %s -> %s (%v)" [ShStr key; ShBytes val]
                  | inr None => say "  GET %s -> NOT FOUND" [ShStr key]
                  end in
      '(out, e) ← get_lines keys e;
      Some (line :: out, e)
  end.

(** With [n] keys, of which [reads] are read; [n] memtable entries stay below
    the size of a flush.  The clock is shared by the demonstration and the log
    of the engine. *)
Definition engine_lines (n : nat) (reads : list string) : option (list printed) :=
  '(res, fs) ← Engine_Open DefaultSegmentSize DefaultEngineConfig (NewHLC "engine-demo") (fun _ => []) emptyFS ∅;
  match res with
  | inl _ => Some [say "Error: %v" []]
  | inr e =>
      '(err, e, fs) ← put_all 0 (numbered "key:" six_digits n) e fs;
      match err with
      | Some _ => Some [say "  Put error: %v" []]
      | None =>
          let size := es_MemTableSize (Engine_Stats e) in
          '(gets, e) ← get_lines reads e;
          let w := en_wal e in
          let '(snapshotTS, clock) := HLC_Now (pt n) (w_clock w) in
          let e := set_wal (mkWAL (w_active w) (w_sealed w) (w_nextSeq w) clock (w_segmentSize w) (w_pendingSync w) (w_syncTimer w) (w_closed w) (w_bytesWritten w) (w_recordsWritten w) (w_syncCount w)) e in
          '(_, _, e, fs) ← Engine_Put (pt (1 + n)%nat) (draws (1 + n)%nat) "mvcc-key" (bytes_of_string "version-1") e fs;
          '(_, _, e, fs) ← Engine_Put (pt (2 + n)%nat) (draws (2 + n)%nat) "mvcc-key" (bytes_of_string "version-2") e fs;
          '(v1, e) ← Engine_GetAtTimestamp "mvcc-key" snapshotTS ∅ e;
          '(v2, e) ← Engine_Get "mvcc-key" ∅ e;
          '(_, _, e, fs) ← Engine_Put (pt (3 + n)%nat) (draws (3 + n)%nat) "temp-key" (bytes_of_string "temporary") e fs;
          '(before, e) ← Engine_Get "temp-key" ∅ e;
          '(_, _, e, fs) ← Engine_Delete (pt (4 + n)%nat) (draws (4 + n)%nat) "temp-key" e fs;
          '(after, e) ← Engine_Get "temp-key" ∅ e;
          let stats := Engine_Stats e in
          Some ([say "  MemTable size: %d bytes" [ShInt size]] ++ gets ++
                [say "  Taking snapshot at: %s" [ShInt snapshotTS]; say "  Read at snapshot:  %s" [ShStr (read_key v1).1]; say "  Read current:      %s" [ShStr (read_key v2).1];
                 say "  Before delete: GET temp-key -> %s (found=%v)" [ShStr (read_key before).1; ShBool (read_key before).2];
                 say "  After delete:  GET temp-key -> found=%v" [ShBool (read_key after).2];
                 say "  Total writes:    %d" [ShInt (es_WriteCount stats)]; say "  Total reads:     %d" [ShInt (es_ReadCount stats)]; say "  SSTable count:   %d" [ShInt (es_SSTableCount stats)];
                 say "  WAL syncs:       %d" [ShInt (SyncCount (es_WALStats stats))]])
      end
  end.

Definition demoEngine : option (list printed) := engine_lines 1000 ["key:000000"; "key:000500"; "key:000999"].

Fixpoint recovered (keys : list string) (e : Engine) (count : Z) : option Z :=
  match keys with
  | [] => Some count
  | key :: keys => '(res, e) ← Engine_Get key ∅ e; recovered keys e (if (read_key res).2 then count + 1 else count)
  end.

(** With [n] keys; a nil engine panics. *)
Definition recovery_lines (n : nat) : option (list printed) :=
  '(res, fs) ← Engine_Open DefaultSegmentSize DefaultEngineConfig (NewHLC "crash-demo") (fun _ => []) emptyFS ∅;
  e ← (match res with inr e => Some e | inl _ => None end);
  let kvs := numbered "persistent-key:" (fun i => string_of_bytes (fmt_d (Z.of_nat i))) n in
  '(_, e, fs) ← put_all 0 kvs e fs;
  let '(_, _, _, fs) := WAL_Close (en_wal e) fs in
  '(res, fs) ← Engine_Open DefaultSegmentSize DefaultEngineConfig (NewHLC "recovered") draws fs ∅;
  match res with
  | inl _ => Some [say "  Recovery failed: %v" []]
  | inr engine2 => count ← recovered (map fst kvs) engine2 0; Some [say "  Recovered %d/100 keys from WAL after crash!" [ShInt count]]
  end.

Definition demoCrashRecovery : option (list printed) := recovery_lines 100.

End log.

(** ** What the demonstrations show *)

Section bloom_shown.
  Context (optimalBits : Z -> Z) (optimalHashes : Z -> Z -> Z) (exp : float64 -> float64) (pow : float64 -> float64 -> float64).

Lemma denied_total bf keys : bloom_wf bf -> exists l, denied keys bf = Some l /\ ((forall key, key ∈ keys -> Bloom_Contains key bf = Some true) -> l = []) /\ zlen l <= zlen keys.
Proof.
  intros Hwf. induction keys as [|key keys (l & Hl & Hin & Hlen)]; [by exists []|]. cbn [denied].
  assert (Hc : exists b, Bloom_Contains key bf = Some b).
  { unfold Bloom_Contains. destruct (hash128 key) as [h1 h2]. destruct (Contains_loop_spec (Z.to_nat (bf_k bf)) 0 h1 h2 bf Hwf) as (b & -> & _). eauto. }
  destruct Hc as [b Hb]. rewrite Hb Hl. cbn [mbind option_bind]. eexists. split; [done|]. split.
  - intros Hall. assert (E := Hall key ltac:(by left)). rewrite Hb in E. injection E as ->. apply Hin. intros k Hk. apply Hall. by right.
  - rewrite zlen_cons. destruct b; rewrite ?zlen_cons; lia.
Qed.

(** Whatever the size of the filter and the number of keys, no panic and no
    line of a false negative. *)
Theorem bloom_demo n testCount : 0 < optimalBits (Z.of_nat n) -> optimalBits (Z.of_nat n) + 63 < two64 ->
  exists bits rate fp fpRate, 0 <= fp <= Z.of_nat testCount /\
  bloom_lines optimalBits optimalHashes exp pow n testCount = Some
    [say "  Bits used:            %d" [ShInt bits]; say "  False positive rate:  %.2f%%" [ShFloat rate]; say "  No false negatives (guaranteed)" [];
     say "  False positives:      %d/%d (%.2f%%)" [ShInt fp; ShInt (Z.of_nat testCount); ShFloat fpRate];
     say "  For a 100MB SSTable with 1M keys: bloom filter = %.1fMB" [ShFloat (fdiv (f64 9600000) (f64 8388608))]].
Proof.
  intros Hb Hb'. unfold bloom_lines.
  destruct (add_all_spec (user_keys n) _ (New_wf optimalBits optimalHashes (Z.of_nat n) Hb Hb')) as (bf & -> & Hwf & _ & Hall). cbn [mbind option_bind].
  destruct (denied_total bf (take 10 (user_keys n)) Hwf) as (neg & -> & Hneg & _). cbn [mbind option_bind].
  destruct (denied_total bf (missing_keys testCount) Hwf) as (absent & -> & _ & Hlen). cbn [mbind option_bind].
  rewrite Hneg; [|intros key (i & Hi & _)%elem_of_take; apply Hall; by eapply list_elem_of_lookup_2]. cbn [map app].
  do 4 eexists. split; [|reflexivity]. pose proof (zlen_nonneg absent). unfold zlen, missing_keys in *. rewrite length_map length_seq in Hlen. lia.
Qed.

End bloom_shown.

(** A clock that goes on by a millisecond at every reading. *)
Definition ticking (i : nat) : Z := 1000 + Z.of_nat i.

(** The four commands get the sequence numbers 1 to 4, one sync each, and the
    reopened log goes on with 5. *)
Example wal_demo elapsed : exists out, demoWAL ticking elapsed = out ++ [say "  Recovered! Next sequence: %d" [ShInt 5]] /\
  map p_values out = [[ShInt 1; ShInt 65536000; ShStr "PUT user:alice balance=1000"]; [ShInt 2; ShInt 65601536; ShStr "PUT user:bob balance=500"];
    [ShInt 3; ShInt 65667072; ShStr "DELETE user:charlie"]; [ShInt 4; ShInt 65732608; ShStr "PUT user:alice balance=900"];
    [ShInt elapsed]; [ShInt 4]; [ShInt 196]; [ShInt 4]; [ShInt (Z.quot elapsed 4)]].
Proof. eexists (take 9 (demoWAL ticking elapsed)). split; vm_compute; reflexivity. Qed.

(** Reads return the last write, the snapshot from before the writes sees
    neither version, and the deleted key is gone. *)
Example engine_demo : drop 4 (default [] (engine_lines ticking (fun _ => [false]) 10 ["key:000000"; "key:000005"; "key:000009"])) =
  [say "  Taking snapshot at: %s" [ShInt 66191360]; say "  Read at snapshot:  %s" [ShStr EmptyString]; say "  Read current:      %s" [ShStr "version-2"];
   say "  Before delete: GET temp-key -> %s (found=%v)" [ShStr "temporary"; ShBool true]; say "  After delete:  GET temp-key -> found=%v" [ShBool false];
   say "  Total writes:    %d" [ShInt 14]; say "  Total reads:     %d" [ShInt 7]; say "  SSTable count:   %d" [ShInt 0]; say "  WAL syncs:       %d" [ShInt 14]].
Proof. vm_compute. reflexivity. Qed.

(** The demonstration of durability: none of the keys is found again. *)
Example recovery_demo_finds_none : recovery_lines ticking (fun _ => [false]) 10 = Some [say "  Recovered %d/100 keys from WAL after crash!" [ShInt 0]].
Proof. vm_compute. reflexivity. Qed.
