(* ===== verification/DemoMembership.v ===== *)
(** * DemoMembership: the demonstrations of the membership package
    (pkg/membership/demo.go)

    [Erfc], [Log10] and [Log] are those of package math.  The demonstrations
    that only watch the protocol run for a while are left out: Swim.v has its
    runs. *)

From Stdlib Require Import SpecFloat.
From S2P Require Import Prelude Float64 PhiAccrual Memberlist Swim SwimTransport Demo.

(** ** The failure detector *)

Section phi.
  Context (Erfc Log10 : float64 -> float64).

(** The status of a suspicion level. *)
Definition phi_status (phi : float64) : string :=
  if fleb (f64 8) phi then "DEAD (φ ≥ 8)"
  else if fleb (f64 5) phi then "SUSPECTED (φ ≥ 5)"
  else if fleb (f64 3) phi then "WATCH (φ ≥ 3)"
  else "ALIVE".

(** [math.IsInf(f, 1)]. *)
Definition is_inf (f : float64) : bool := match f with S754_infinity false => true | _ => false end.

Definition phi_line (window : HeartbeatWindow) (lastTime interval : Z) : option printed :=
  phi ← HW_Phi Erfc Log10 (lastTime + interval) window;
  Some (say "  %-30s %-8s %s" [ShInt interval; if is_inf phi then ShStr "∞" else ShFloat phi; ShStr (phi_status phi)]).

Definition regular_beats (base : Z) : list Z := map (fun i => base + Z.of_nat i * (200 * ms)) (seq 0 20).

(** [now] is the wall clock in nanoseconds. *)
Definition demoPhiAccrual (now : Z) : option (list printed) :=
  let base := now - 2 * sec in
  window ← for_each HW_Heartbeat (regular_beats base) newHeartbeatWindow;
  mapM (phi_line window (base + 20 * 200 * ms)) [100 * ms; 200 * ms; 300 * ms; 500 * ms; 800 * ms; 1 * sec; 2 * sec; 3 * sec; 5 * sec].

End phi.

(** ** The cluster *)

Definition test_config (id : string) : SWIMConfig :=
  let config := DefaultSWIMConfig id (id ++ ":7001") in
  mkSWIMConfig (cf_NodeID config) (cf_BindAddr config) (100 * ms) (cf_PingTimeout config) (cf_IndirectPingCount config) (cf_IndirectTimeout config) (500 * ms) (cf_GossipFanout config).

Definition connect_all (nodeIDs : list string) (net : mem_net) : mem_net :=
  fold_left (fun net id => fold_left (fun net other => if negb (id =?s other) then mem_connect id other net else net) nodeIDs net) nodeIDs net.

Definition known_peer (other : string) : GossipUpdate := mkGossipUpdate other StateAlive 0 (other ++ ":7000").

(** The goroutines that the updates start notify the manager of its peers. *)
Definition test_manager (now : Z) (nodeIDs : list string) (id : string) : SWIMConfig * MembershipManager * list notification :=
  let mgr := NewMembershipManager now id in
  let '(ml, notes) := fold_left (fun '(ml, notes) other =>
    if negb (other =?s id) then let '(_, ml, started) := ApplyUpdate now (known_peer other) ml in (ml, notes ++ started) else (ml, notes))
    nodeIDs (mm_memberList mgr, []) in
  (test_config id, mkMembershipManager (mm_nodeID mgr) ml (mm_events mgr) (mm_started mgr), notes).

Definition buildTestCluster (now : Z) (nodeIDs : list string) : gmap string (SWIMConfig * MembershipManager * list notification) * mem_net :=
  let transports := fold_left (fun net id => <[id := NewMemSWIMTransport id]> net) nodeIDs ∅ in
  let transports := connect_all nodeIDs transports in
  (fold_left (fun managers id => <[id := test_manager now nodeIDs id]> managers) nodeIDs ∅, transports).

(** ** The spreading of rumours *)

Section gossip.
  Context (Log : float64 -> float64).

Definition convergence_line (gossipFanout roundInterval n : Z) : printed :=
  let rounds := fdiv (Log (f64 n)) (Log (f64 gossipFanout)) in
  let timeMs := fmul rounds (f64 roundInterval) in
  say "  %-15d %-15.1f %-15s O(log N/log K)" [ShInt n; ShFloat rounds; ShFloat timeMs].

Definition comparison_line (gossipFanout n : Z) : printed :=
  let gossipMsgs := n * gossipFanout in
  let allToAll := n * n in
  say "  %-15d Gossip: %-7d All-to-all: %-7d  (%.0fx more)" [ShInt n; ShInt gossipMsgs; ShInt allToAll; ShFloat (fdiv (f64 allToAll) (f64 gossipMsgs))].

Definition demoGossipConvergence : list printed :=
  let gossipFanout := 3 in
  let roundInterval := 200 in
  [say "  K = %d peers per gossip round, %dms per round" [ShInt gossipFanout; ShInt roundInterval]] ++
  map (convergence_line gossipFanout roundInterval) [10; 50; 100; 500; 1000; 5000; 10000] ++
  map (comparison_line gossipFanout) [100; 1000; 10000].

End gossip.

(** ** The member list as text *)

Definition MemberState_String (s : MemberState) : string :=
  match s with StateAlive => "ALIVE" | StateSuspected => "SUSPECTED" | StateDead => "DEAD" | StateLeft => "LEFT" end.

Definition member_icon (s : MemberState) : string :=
  match s with StateAlive => "✅" | StateSuspected => "🟡" | StateDead => "💀" | StateLeft => "👋" end.

(** One line per member, in the order of [range]. *)
Definition ML_String `{RangeOrder} (ml : MemberList) : list printed :=
  say "MemberList (%d members):" [ShInt (Z.of_nat (size (ml_members ml)))] ::
  omap (fun k => (fun m => say "  %s %-12s state=%-9s incarnation=%d"
    [ShStr (member_icon (mb_State m)); ShStr (mb_NodeID m); ShStr (MemberState_String (mb_State m)); ShInt (mb_Incarnation m)]) <$> ml_members ml !! k)
    (range_keys (ml_members ml)).

(** ** A suspicion refuted

    The members lists of the cluster, and what the running protocol makes of
    them while the demonstration sleeps. *)

Notation lists := (gmap string MemberList).

Definition member_line (fmt : string) (ml : option MemberList) : list printed :=
  match ml ≫= ML_Get "node-2" with
  | Some m2 => [say fmt [ShStr (MemberState_String (mb_State m2)); ShInt (mb_Incarnation m2)]]
  | None => []
  end.

Definition set_partition (f : string -> string -> mem_net -> mem_net) (net : mem_net) : mem_net :=
  f "node-3" "node-2" (f "node-2" "node-3" (f "node-1" "node-2" (f "node-2" "node-1" net))).

(** The clock is read when the cluster is built and for each update; the
    transports are what the protocol uses while it runs. *)
Definition demoSuspicionRefutation (now : nat -> Z) (pause : nat -> mem_net -> lists -> mem_net * lists) : option (list printed * lists) :=
  let '(managers, transports) := buildTestCluster (now 0%nat) ["node-1"; "node-2"; "node-3"] in
  let members := (fun x => mm_memberList x.1.2) <$> managers in
  let '(transports, members) := pause 0%nat transports members in
  let transports := set_partition mem_partition transports in
  let '(transports, members) := pause 1%nat transports members in
  let before := member_line "  node-2 state from node-1: %s (incarnation=%d)" (members !! "node-1") in
  let transports := set_partition mem_heal transports in
  ml2 ← members !! "node-2";
  '(refutation, ml2) ← RefuteSuspicion ml2;
  let members := <["node-2" := ml2]> members in
  let members := alter (fun ml => (ApplyUpdate (now 1%nat) refutation ml).1.2) "node-1" members in
  let members := alter (fun ml => (ApplyUpdate (now 2%nat) refutation ml).1.2) "node-3" members in
  let '(_, members) := pause 2%nat transports members in
  Some (before ++ [say "  node-2 broadcasts REFUTATION (incarnation=%d)" [ShInt (gu_Incarnation refutation)]] ++
        member_line "  node-2 state from node-1 after refutation: %s (incarnation=%d)" (members !! "node-1"), members).

(** ** What is shown *)

Section beats.
  Context (Erfc Log10 : float64 -> float64).

Lemma interval_ms_shift b x y : interval_ms (b + x) (b + y) = interval_ms x y.
Proof. unfold interval_ms, time_Sub. by replace (b + x - (b + y)) with (x - y) by lia. Qed.

Definition shift_window (b : Z) (w : HeartbeatWindow) : HeartbeatWindow :=
  mkHeartbeatWindow (hw_intervals w) (hw_writeIdx w) (hw_count w) (Z.add b <$> hw_lastHeartbeat w).

Lemma HW_Heartbeat_shift b t w : HW_Heartbeat (b + t) (shift_window b w) = shift_window b <$> HW_Heartbeat t w.
Proof.
  unfold HW_Heartbeat. destruct w as [iv wi c [last|]]; cbn [shift_window hw_lastHeartbeat hw_intervals hw_writeIdx hw_count fmap option_fmap option_map]; [|done].
  rewrite interval_ms_shift. by destruct (_ && _).
Qed.

Lemma beats_shift b ts : forall w, for_each HW_Heartbeat (map (Z.add b) ts) (shift_window b w) = shift_window b <$> for_each HW_Heartbeat ts w.
Proof. induction ts as [|t ts IH]; intros w; [done|]. cbn. rewrite HW_Heartbeat_shift. destruct (HW_Heartbeat t w); [apply IH|done]. Qed.

Lemma HW_Phi_shift b t w : HW_Phi Erfc Log10 (b + t) (shift_window b w) = HW_Phi Erfc Log10 t w.
Proof. unfold HW_Phi. destruct w as [iv wi c [last|]]; cbn [shift_window hw_lastHeartbeat fmap option_fmap option_map]; [by rewrite interval_ms_shift|done]. Qed.

Lemma demoPhiAccrual_at now : demoPhiAccrual Erfc Log10 now = demoPhiAccrual Erfc Log10 (2 * sec).
Proof.
  unfold demoPhiAccrual. set (b := now - 2 * sec). replace (2 * sec - 2 * sec) with 0 by lia.
  assert (Hb : regular_beats b = map (Z.add b) (regular_beats 0)) by (unfold regular_beats; rewrite map_map; apply map_ext; intros; lia).
  rewrite Hb. change newHeartbeatWindow with (shift_window b newHeartbeatWindow) at 1. rewrite beats_shift.
  destruct (for_each HW_Heartbeat (regular_beats 0) newHeartbeatWindow) as [w|]; [|done]. cbn [fmap option_fmap option_map mbind option_bind].
  assert (Hl : forall d, phi_line Erfc Log10 (shift_window b w) (b + 20 * 200 * ms) d = phi_line Erfc Log10 w (0 + 20 * 200 * ms) d).
  { intros d. unfold phi_line. replace (b + 20 * 200 * ms + d) with (b + (0 + 20 * 200 * ms + d)) by lia. by rewrite HW_Phi_shift. }
  by rewrite (mapM_ext _ _ _ Hl).
Qed.

(** The documented underflow of [math.Erfc]. *)
Context (Erfc_underflow : forall x, fleb (f64 28) x = true -> Erfc x = fzero).

(** The next heartbeat is so late that its probability underflows. *)
Definition overdue (now : Z) (w : HeartbeatWindow) : bool :=
  match hw_lastHeartbeat w, statistics w with
  | Some last, Some (mean, variance) =>
      let t := interval_ms now last in
      let mean := if fleb mean fzero then defaultMeanMs else mean in
      let sigma := fsqrt variance in
      let sigma := if fltb sigma fone then fone else sigma in
      negb (fleb t fzero) && fleb (f64 28) (fdiv (fdiv (fsub t mean) sigma) math_Sqrt2)
  | _, _ => false
  end.

Lemma overdue_dead now w : overdue now w = true -> HW_Phi Erfc Log10 now w = Some finf.
Proof using Erfc_underflow.
  unfold overdue, HW_Phi. destruct (hw_lastHeartbeat w) as [last|]; [|done]. destruct (statistics w) as [[mean variance]|]; [|done].
  intros [Ht%negb_true_iff Hy]%andb_prop. rewrite Ht. cbn [mbind option_bind]. unfold phi_cdf. rewrite Erfc_underflow; [done|done].
Qed.

Definition demo_intervals : list Z := [100 * ms; 200 * ms; 300 * ms; 500 * ms; 800 * ms; 1 * sec; 2 * sec; 3 * sec; 5 * sec].

Lemma demo_overdue : match for_each HW_Heartbeat (regular_beats 0) newHeartbeatWindow with
  | Some w => forallb (fun d => overdue (20 * 200 * ms + d) w) demo_intervals | None => false end = true.
Proof. vm_compute. reflexivity. Qed.

(** The heartbeats come at exact intervals, so the detector expects the next
    one at the very millisecond: whatever the logarithm, each of the nine lines
    shows an infinite level and a dead node, at 100 milliseconds already. *)
Theorem phi_demo_always_dead now : demoPhiAccrual Erfc Log10 now =
  Some (map (fun d => say "  %-30s %-8s %s" [ShInt d; ShStr "∞"; ShStr "DEAD (φ ≥ 8)"]) demo_intervals).
Proof using Erfc_underflow.
  rewrite demoPhiAccrual_at. unfold demoPhiAccrual. change (2 * sec - 2 * sec) with 0. pose proof demo_overdue as Hd.
  destruct (for_each HW_Heartbeat (regular_beats 0) newHeartbeatWindow) as [w|]; [|done]. cbn [mbind option_bind].
  fold demo_intervals. apply mapM_Some, Forall2_fmap_r, Forall_Forall2_diag. rewrite forallb_forall in Hd. apply Forall_forall. intros d Hin.
  unfold phi_line. rewrite overdue_dead; [done|]. by apply Hd, list_elem_of_In.
Qed.

End beats.

(** ** The cluster that is built *)

Definition add_peers (s : gset string) (t : MemSWIMTransport) : MemSWIMTransport :=
  mkMemTransport (mt_nodeID t) (s ∪ mt_peers t) (mt_recvCh t) (mt_dropRate t) (mt_partitions t) (mt_latencyMin t) (mt_latencyMax t).

Lemma add_peers_twice s s' t : add_peers s (add_peers s' t) = add_peers (s ∪ s') t.
Proof. unfold add_peers. cbn. f_equal. set_solver. Qed.

Lemma connect_row id others : forall net k, fold_left (fun net other => if negb (id =?s other) then mem_connect id other net else net) others net !! k =
  if id =?s k then add_peers (list_to_set others ∖ {[id]}) <$> net !! k else net !! k.
Proof.
  induction others as [|o others IH]; intros net k; cbn [fold_left list_to_set].
  - destruct (id =?s k); [|done]. destruct (net !! k) as [[]|]; [|done]. unfold add_peers. cbn. do 2 f_equal. set_solver.
  - rewrite IH. destruct (String.eqb_spec id o) as [->|Hne]; cbn [negb].
    + destruct (o =?s k); [|done]. by replace (({[o]} ∪ list_to_set others) ∖ {[o]} : gset string) with (list_to_set others ∖ {[o]} : gset string) by set_solver.
    + unfold mem_connect. destruct (String.eqb_spec id k) as [<-|Hnk]; [|by rewrite lookup_alter_ne].
      rewrite lookup_alter_eq. destruct (net !! id) as [t|]; [|done]. cbn [fmap option_fmap option_map]. f_equal.
      change (add_peers (list_to_set others ∖ {[id]}) (add_peers {[o]} t) = add_peers (({[o]} ∪ list_to_set others) ∖ {[id]}) t).
      rewrite add_peers_twice. f_equal. set_solver.
Qed.

Lemma connect_rows others ids : forall net k,
  fold_left (fun net id => fold_left (fun net other => if negb (id =?s other) then mem_connect id other net else net) others net) ids net !! k =
  if bool_decide (k ∈ ids) then add_peers (list_to_set others ∖ {[k]}) <$> net !! k else net !! k.
Proof.
  induction ids as [|id ids IH]; intros net k; [by rewrite bool_decide_eq_false_2; [|apply not_elem_of_nil]|]. cbn [fold_left]. rewrite IH connect_row.
  destruct (String.eqb_spec id k) as [->|Hne].
  - rewrite (bool_decide_eq_true_2 (k ∈ k :: ids)); [|by left]. case_bool_decide; [|done]. destruct (net !! k); [|done]. cbn. rewrite add_peers_twice. do 2 f_equal. set_solver.
  - case_bool_decide as H1; case_bool_decide as H2; try done; set_solver.
Qed.

Lemma insert_all {A} (f : string -> A) ids : forall (m : gmap string A) k,
  fold_left (fun m id => <[id := f id]> m) ids m !! k = if bool_decide (k ∈ ids) then Some (f k) else m !! k.
Proof.
  induction ids as [|id ids IH]; intros m k; [by rewrite bool_decide_eq_false_2; [|apply not_elem_of_nil]|]. cbn [fold_left]. rewrite IH.
  case_bool_decide as H1; case_bool_decide as H2; try done; try set_solver.
  - apply elem_of_cons in H2 as [->|?]; [by rewrite lookup_insert_eq|done].
  - rewrite lookup_insert_ne; [done|]. intros ->. apply H2. by left.
Qed.

(** The members that a list knows are its own node and [seen], as given. *)
Definition told (now : Z) (id : string) (seen : list string) (ml : MemberList) : Prop :=
  ml_localID ml = id /\ forall k, ml_members ml !! k =
    if k =?s id then Some (mkMember id EmptyString StateAlive 1 now ∅) else if bool_decide (k ∈ seen) then Some (update_member now (known_peer k)) else None.

Lemma Supersedes_same m : Supersedes m m = false.
Proof. unfold Supersedes. by rewrite String.eqb_refl !Z.ltb_irrefl. Qed.

Lemma ApplyUpdate_told now id seen other ml : told now id seen ml -> other <> id -> told now id (seen ++ [other]) (ApplyUpdate now (known_peer other) ml).1.2.
Proof.
  intros [Hid Hm] Hne. unfold ApplyUpdate. cbn [gu_NodeID known_peer]. rewrite Hm. destruct (String.eqb_spec other id) as [|_]; [done|].
  case_bool_decide as Hin.
  - rewrite Supersedes_same. cbn [negb fst snd]. split; [done|]. intros k. rewrite Hm. destruct (k =?s id); [done|].
    case_bool_decide as H1; case_bool_decide as H2; try done; set_solver.
  - cbn [fst snd]. split; [done|]. intros k. unfold queueUpdate, set_members. cbn [ml_members].
    destruct (decide (other = k)) as [<-|Hk].
    + rewrite lookup_insert_eq. destruct (String.eqb_spec other id); [done|]. rewrite bool_decide_eq_true_2; [done|]. set_solver.
    + rewrite lookup_insert_ne // Hm. destruct (k =?s id); [done|]. case_bool_decide as H1; case_bool_decide as H2; try done; set_solver.
Qed.

Lemma test_manager_told now ids id : told now id (List.filter (fun o => negb (o =?s id)) ids) (mm_memberList (test_manager now ids id).1.2).
Proof.
  unfold test_manager. destruct (fold_left _ _ _) as [ml notes] eqn:E. cbn [fst snd mm_memberList].
  enough (H : forall ids seen ml0 n0, told now id seen ml0 -> told now id (seen ++ List.filter (fun o => negb (o =?s id)) ids)
    (fold_left (fun '(ml, notes) other => if negb (other =?s id) then let '(_, ml, started) := ApplyUpdate now (known_peer other) ml in (ml, notes ++ started) else (ml, notes)) ids (ml0, n0)).1).
  { specialize (H ids [] (mm_memberList (NewMembershipManager now id)) []). rewrite E in H. apply H. split; [done|]. intros k. cbn.
    destruct (String.eqb_spec k id) as [->|]; [by rewrite lookup_insert_eq|by rewrite lookup_insert_ne]. }
  clear. induction ids as [|o ids IH]; intros seen ml0 n0 H0; [by rewrite app_nil_r|]. cbn [fold_left List.filter].
  destruct (String.eqb_spec o id) as [->|Hne]; cbn [negb]; [by apply IH|]. pose proof (ApplyUpdate_told _ _ _ _ _ H0 Hne) as H1.
  destruct (ApplyUpdate now (known_peer o) ml0) as [[b ml1] st]. cbn [fst snd] in H1. specialize (IH _ _ (n0 ++ st) H1). by rewrite -app_assoc in IH.
Qed.

(** Every node of the cluster is connected to all others, none is cut off, and
    its list has itself and each other node once, alive and at its address. *)
Theorem test_cluster_complete now ids id : id ∈ ids -> exists mgr notes t,
  (buildTestCluster now ids).1 !! id = Some (test_config id, mgr, notes) /\ (buildTestCluster now ids).2 !! id = Some t /\
  mt_peers t = list_to_set ids ∖ {[id]} /\ mt_partitions t = ∅ /\
  (forall k, k ∈ ids <-> is_Some (ML_Get k (mm_memberList mgr))) /\
  (forall k m, ML_Get k (mm_memberList mgr) = Some m -> mb_State m = StateAlive /\ mb_NodeID m = k /\ (k <> id -> mb_Address m = (k ++ ":7000")%string)).
Proof.
  intros Hid. unfold buildTestCluster, connect_all. cbn [fst snd]. rewrite connect_rows !insert_all !bool_decide_eq_true_2 //.
  destruct (test_manager now ids id) as [[cfg mgr] notes] eqn:E. pose proof (test_manager_told now ids id) as [_ Hm]. rewrite E in Hm. cbn [fst snd] in Hm.
  assert (cfg = test_config id) as -> by (unfold test_manager in E; destruct (fold_left _ _ _); congruence).
  eexists mgr, notes, _. split_and!; [done|done| |done| |].
  - cbn. set_solver.
  - intros k. unfold ML_Get. rewrite Hm. destruct (String.eqb_spec k id) as [->|Hne]; [by split|]. case_bool_decide as Hin.
    + rewrite -> list_elem_of_In, filter_In, <- list_elem_of_In in Hin. naive_solver.
    + split; [|by intros []]. intros Hk. destruct Hin. apply list_elem_of_In, filter_In. split; [by apply list_elem_of_In|]. by apply negb_true_iff, String.eqb_neq.
  - intros k m. unfold ML_Get. rewrite Hm. destruct (String.eqb_spec k id) as [->|Hne]; [by intros [= <-]|]. case_bool_decide; [|done]. by intros [= <-].
Qed.

Lemma test_cluster_complete_witness : "b" ∈ ["a"; "b"] /\ exists t, (buildTestCluster 7 ["a"; "b"]).2 !! "b" = Some t /\ mt_peers t = list_to_set ["a"; "b"] ∖ {["b"]}.
Proof. split; [set_solver|]. destruct (test_cluster_complete 7 ["a"; "b"] "b") as (_ & _ & t & _ & Ht & Hp & _); [set_solver|]. by exists t. Defined.

(** *** A refutation that holds

    While the protocol runs, records only advance and no node changes the
    record of itself. *)
Definition pause_keeps (ls ls' : lists) : Prop := forall id ml, ls !! id = Some ml -> exists ml', ls' !! id = Some ml' /\
  ml_wf ml' /\ ml_localID ml' = ml_localID ml /\ ranks ml' id = ranks ml id /\ forall k x, ranks ml k = Some x -> exists y, ranks ml' k = Some y /\ x <= y.

Definition lists_wf (ls : lists) : Prop := forall id ml, ls !! id = Some ml -> ml_wf ml.

Definition pause_ok (pause : nat -> mem_net -> lists -> mem_net * lists) : Prop := forall i net ls, lists_wf ls -> lists_wf (pause i net ls).2 /\ pause_keeps ls (pause i net ls).2.

Lemma told_wf now id seen ml : told now id seen ml -> ml_wf ml.
Proof. intros [_ Hm] k m. rewrite Hm. destruct (String.eqb_spec k id) as [->|]; [by intros [= <-]|]. case_bool_decide; [|done]. by intros [= <-]. Qed.

Lemma pause_keeps_trans a b c : pause_keeps a b -> pause_keeps b c -> pause_keeps a c.
Proof.
  intros Hab Hbc id ml (ml1 & H1 & _ & L1 & R1 & A1)%Hab. destruct (Hbc _ _ H1) as (ml2 & H2 & W2 & L2 & R2 & A2). exists ml2. split_and!; [done..|congruence|congruence|].
  intros k x (y & Hy & ?)%A1. apply A2 in Hy as (z & Hz & ?). exists z. split; [done|lia].
Qed.

Lemma member_line_rank fmt (ls : lists) ml x : ls !! "node-1" = Some ml -> ranks ml "node-2" = Some x ->
  exists s i, member_line fmt (ls !! "node-1") = [say fmt [ShStr (MemberState_String s); ShInt i]] /\ rank i s = x.
Proof.
  intros Hl Hx. unfold member_line. rewrite Hl. cbn [mbind option_bind]. unfold ML_Get. unfold ranks in Hx. destruct (ml_members ml !! "node-2") as [m|]; [|done].
  injection Hx as <-. by eexists _, _.
Qed.

Definition first_lists (now : Z) : lists := (fun x => mm_memberList x.1.2) <$> (buildTestCluster now ["node-1"; "node-2"; "node-3"]).1.

Lemma first_lists_told now id ml : first_lists now !! id = Some ml -> ml_wf ml.
Proof.
  unfold first_lists, buildTestCluster. cbn [fst]. rewrite lookup_fmap insert_all. case_bool_decide; [|done]. intros [= <-]. eapply told_wf, test_manager_told.
Qed.

Lemma first_lists_ranks now : exists ml1 ml2, first_lists now !! "node-1" = Some ml1 /\ first_lists now !! "node-2" = Some ml2 /\
  ranks ml1 "node-2" = Some (rank 0 StateAlive) /\ ranks ml2 "node-2" = Some (rank 1 StateAlive) /\ ml_localID ml2 = "node-2".
Proof.
  unfold first_lists, buildTestCluster. cbn [fst]. rewrite !lookup_fmap !insert_all !bool_decide_eq_true_2; [|set_solver..]. cbn [fmap option_fmap option_map].
  destruct (test_manager_told now ["node-1"; "node-2"; "node-3"] "node-1") as [_ H1]. destruct (test_manager_told now ["node-1"; "node-2"; "node-3"] "node-2") as [L2 H2].
  do 2 eexists. split_and!; [done|done| | |done]; unfold ranks; [by rewrite H1|by rewrite H2].
Qed.

Lemma alter_wf now u id (ls : lists) : lists_wf ls -> lists_wf (alter (fun ml => (ApplyUpdate now u ml).1.2) id ls).
Proof.
  intros Hw k ml [(-> & ml0 & H0 & ->)|[_ Hk]]%lookup_alter_Some; [|by eapply Hw]. apply ApplyUpdate_members. by eapply Hw.
Qed.

Lemma insert_wf id ml (ls : lists) : lists_wf ls -> ml_wf ml -> lists_wf (<[id := ml]> ls).
Proof. intros Hw Hm k ml' [[_ <-]|[_ Hk]]%lookup_insert_Some; [done|by eapply Hw]. Qed.

Lemma refuted ml : ml_localID ml = "node-2" -> ml_wf ml -> ranks ml "node-2" = Some (rank 1 StateAlive) ->
  exists addr ml', RefuteSuspicion ml = Some (mkGossipUpdate "node-2" StateAlive 2 addr, ml') /\ ml_wf ml'.
Proof.
  intros Hl Hw Hr. unfold RefuteSuspicion, ranks in *. rewrite Hl. destruct (ml_members ml !! "node-2") as [self|] eqn:Es; [|done]. injection Hr as Hr.
  apply rank_inj in Hr as [Hi _]. cbn [mbind option_bind]. rewrite Hi. eexists _, _. split; [done|].
  intros k m. cbn [set_members ml_members]. intros [[<- <-]|[_ Hk]]%lookup_insert_Some; [exact (Hw _ _ Es)|by apply Hw].
Qed.

(** Whatever the protocol does meanwhile, the refutation has incarnation 2 and
    node-1 shows node-2 at that incarnation or a later one: a death declared at
    incarnation 1 does not come back. *)
Theorem refutation_demo now pause : pause_ok pause -> exists s0 i0 s i members,
  demoSuspicionRefutation now pause = Some
    ([say "  node-2 state from node-1: %s (incarnation=%d)" [ShStr (MemberState_String s0); ShInt i0];
      say "  node-2 broadcasts REFUTATION (incarnation=%d)" [ShInt 2];
      say "  node-2 state from node-1 after refutation: %s (incarnation=%d)" [ShStr (MemberState_String s); ShInt i]], members) /\ 2 <= i.
Proof.
  intros Hp. unfold demoSuspicionRefutation. destruct (buildTestCluster _ _) as [mgrs net0] eqn:Eb.
  assert (Ef : (fun x => mm_memberList x.1.2) <$> mgrs = first_lists (now 0%nat)) by (unfold first_lists; by rewrite Eb). rewrite Ef.
  destruct (first_lists_ranks (now 0%nat)) as (a1 & a2 & Ha1 & Ha2 & Ra1 & Ra2 & La2).
  destruct (Hp 0%nat net0 (first_lists (now 0%nat)) (first_lists_told _)) as [W1 K1]. destruct (pause 0%nat net0 _) as [net1 ls1]. cbn [snd] in *.
  destruct (Hp 1%nat (set_partition mem_partition net1) ls1 W1) as [W2 K2]. destruct (pause 1%nat _ ls1) as [net2 ls2]. cbn [snd] in *.
  pose proof (pause_keeps_trans _ _ _ K1 K2) as K. destruct (K _ _ Ha1) as (b1 & Hb1 & Wb1 & _ & _ & Ab1). destruct (K _ _ Ha2) as (b2 & Hb2 & Wb2 & Lb2 & Rb2 & _).
  destruct (Ab1 _ _ Ra1) as (x & Hx & _). destruct (member_line_rank "  node-2 state from node-1: %s (incarnation=%d)" ls2 b1 x Hb1 Hx) as (s0 & i0 & -> & _).
  rewrite Hb2. cbn [mbind option_bind]. rewrite La2 in Lb2. rewrite Ra2 in Rb2. destruct (refuted b2 Lb2 Wb2 Rb2) as (addr & c2 & -> & Wc2).
  set (u := mkGossipUpdate "node-2" StateAlive 2 addr). cbn [mbind option_bind]. match goal with |- context [pause 2%nat _ ?l] => set (ls3 := l) end.
  assert (W3 : lists_wf ls3) by (by apply alter_wf, alter_wf, insert_wf).
  assert (H3 : ls3 !! "node-1" = Some (ApplyUpdate (now 1%nat) u b1).1.2) by (unfold ls3; rewrite lookup_alter_ne // lookup_alter_eq lookup_insert_ne // Hb1 //).
  destruct (Hp 2%nat (set_partition mem_heal net2) ls3 W3) as [_ K3]. destruct (pause 2%nat _ ls3) as [net4 ls4]. cbn [snd] in *.
  destruct (K3 _ _ H3) as (d1 & Hd1 & _ & _ & _ & Ad1). destruct (ApplyUpdate_members (now 1%nat) u b1 Wb1) as (_ & _ & Hr).
  specialize (Hr "node-2"). change (String.eqb (gu_NodeID u) "node-2") with true in Hr. cbn match in Hr. rewrite Hx in Hr. destruct (Ad1 _ _ Hr) as (y & Hy & Hle).
  destruct (member_line_rank "  node-2 state from node-1 after refutation: %s (incarnation=%d)" ls4 d1 y Hd1 Hy) as (s & i & -> & Hsi).
  exists s0, i0, s, i, ls4. split; [done|]. assert (8 <= y) by (change (update_rank u) with 8 in Hle; lia). subst y. unfold rank in *. pose proof (statePriority_range s). lia.
Qed.

(** In each pause node-1 hears that node-2 is suspected. *)
Definition rumour : GossipUpdate := mkGossipUpdate "node-2" StateSuspected 0 EmptyString.
Definition rumour_pause (i : nat) (net : mem_net) (ls : lists) : mem_net * lists := (net, alter (fun ml => (ApplyUpdate 5 rumour ml).1.2) "node-1" ls).

Lemma rumour_pause_ok : pause_ok rumour_pause.
Proof.
  intros i net ls Hw. cbn [rumour_pause snd]. split; [by apply alter_wf|]. intros id ml Hid. destruct (decide (id = "node-1")) as [->|Hne].
  - rewrite lookup_alter_eq Hid. destruct (ApplyUpdate_members 5 rumour ml (Hw _ _ Hid)) as (Hw' & Hl & Hr). eexists. split_and!; [done|done|done|by rewrite Hr|].
    intros k x Hx. rewrite Hr Hx. destruct (String.eqb _ k); cbn; eauto with lia.
  - rewrite lookup_alter_ne //. exists ml. split_and!; [done|by eapply Hw|done|done|]. intros k x Hx. exists x. split; [done|lia].
Qed.

Lemma refutation_demo_witness : exists s i, 2 <= i /\ match demoSuspicionRefutation (fun _ => 0) rumour_pause with
  | Some (lines, _) => last lines = Some (say "  node-2 state from node-1 after refutation: %s (incarnation=%d)" [ShStr (MemberState_String s); ShInt i]) | None => False end.
Proof. destruct (refutation_demo (fun _ => 0) rumour_pause rumour_pause_ok) as (? & ? & s & i & ? & -> & Hi). by exists s, i. Defined.

(** The text of a list has a line for each member. *)
Lemma ML_String_length `{RangeOrder} ml : length (ML_String ml) = S (size (ml_members ml)).
Proof.
  unfold ML_String. cbn [length]. f_equal. assert (Hall : Forall (fun k => is_Some (ml_members ml !! k)) (range_keys (ml_members ml))).
  { apply Forall_forall. intros k. by rewrite range_keys_in. }
  rewrite -(length_map_to_list (ml_members ml)) -(length_fmap fst (map_to_list _)) -(Permutation_length (range_keys_perm (ml_members ml))).
  induction Hall as [|k ks [m Hm] _ IH]; [done|]. cbn [omap list_omap]. rewrite Hm. cbn. by f_equal.
Qed.

(** With three messages per node, all-to-all costs a third of the cluster size
    more. *)
Example gossip_demo Log : drop 8 (demoGossipConvergence Log) = map (fun x => say "  %-15d Gossip: %-7d All-to-all: %-7d  (%.0fx more)" x)
  [[ShInt 100; ShInt 300; ShInt 10000; ShFloat (fdiv (f64 100) (f64 3))]; [ShInt 1000; ShInt 3000; ShInt 1000000; ShFloat (fdiv (f64 1000) (f64 3))];
   [ShInt 10000; ShInt 30000; ShInt 100000000; ShFloat (fdiv (f64 10000) (f64 3))]].
Proof. vm_compute. reflexivity. Qed.
