(* ===== verification/DemoObservability.v ===== *)
(** * DemoObservability: the demonstrations of the observability package
    (pkg/observability/demo.go)

    The durations that the histograms observe, the random draws and what the
    runtime reports are arguments. *)

From S2P Require Import Prelude Bytes Md5 Float64 Metrics Health Tracing Logger Demo ObservabilityText.

(** ** The metrics of a working node *)

Definition on_raft (f : RaftMetrics -> option RaftMetrics) (m : HermesMetrics) : option HermesMetrics :=
  r ← f (hm_raft m);
  Some (mkHermesMetrics (hm_NodeID m) r (hm_wal m) (hm_storage m) (hm_requests m) (hm_txn m) (hm_network m) (hm_cluster m) (hm_system m)).
Definition on_wal (f : WALMetrics -> option WALMetrics) (m : HermesMetrics) : option HermesMetrics :=
  w ← f (hm_wal m);
  Some (mkHermesMetrics (hm_NodeID m) (hm_raft m) w (hm_storage m) (hm_requests m) (hm_txn m) (hm_network m) (hm_cluster m) (hm_system m)).
Definition on_requests (f : RequestMetrics -> option RequestMetrics) (m : HermesMetrics) : option HermesMetrics :=
  r ← f (hm_requests m);
  Some (mkHermesMetrics (hm_NodeID m) (hm_raft m) (hm_wal m) (hm_storage m) r (hm_txn m) (hm_network m) (hm_cluster m) (hm_system m)).
Definition on_errors (f : Counter -> Counter) (m : HermesMetrics) : HermesMetrics :=
  let n := hm_network m in
  mkHermesMetrics (hm_NodeID m) (hm_raft m) (hm_wal m) (hm_storage m) (hm_requests m) (hm_txn m)
    (mkNetworkMetrics (NetworkBytesSent n) (NetworkBytesReceived n) (f (GRPCErrors n)) (PeerConnections n)) (hm_cluster m) (hm_system m).

Definition wal_write (elapsed : Z) (w : WALMetrics) : option WALMetrics :=
  h ← ObserveDuration elapsed (WALWriteLatency w);
  Some (mkWALMetrics h (WALFsyncLatency w) (Counter_Inc (WALWritesTotal w)) (WALBytesTotal w) (WALFsyncsTotal w)).
Definition wal_fsync (elapsed : Z) (w : WALMetrics) : option WALMetrics :=
  h ← ObserveDuration elapsed (WALFsyncLatency w);
  Some (mkWALMetrics (WALWriteLatency w) h (WALWritesTotal w) (WALBytesTotal w) (Counter_Inc (WALFsyncsTotal w))).
Definition raft_commit (elapsed : Z) (r : RaftMetrics) : option RaftMetrics :=
  h ← ObserveDuration elapsed (RaftCommitLatency r);
  Some (mkRaftMetrics (RaftLeaderChanges r) (RaftCurrentTerm r) (RaftIsLeader r) (RaftReplicationLag r) h (RaftHeartbeatsSent r) (Counter_Inc (RaftLogAppended r))).
Definition client_request (seconds : float64) (r : RequestMetrics) : option RequestMetrics :=
  h ← Observe seconds (RequestDuration r);
  Some (mkRequestMetrics (Counter_Inc (RequestsTotal r)) h (NotLeaderTotal r)).

(** What an operation of the simulated node takes. *)
Record Load := mkLoad {
  ld_wal : nat -> Z;
  ld_fsync : nat -> Z;
  ld_raft : nat -> Z;
  ld_request : nat -> Z;
  ld_draw : nat -> float64;
}.

Definition operation (load : Load) (i : nat) (m : HermesMetrics) : option HermesMetrics :=
  m ← on_wal (wal_write (ld_wal load i)) m;
  m ← (if Z.of_nat i mod 10 =? 0 then on_wal (wal_fsync (ld_fsync load i)) m else Some m);
  m ← on_raft (raft_commit (ld_raft load i)) m;
  m ← on_requests (client_request (Seconds (ld_request load i))) m;
  Some (if fltb (ld_draw load i) (fdec 2 2) then on_errors Counter_Inc m else m).

Definition set_gauges (numGoroutine : Z) (m : HermesMetrics) : HermesMetrics :=
  let r := hm_raft m in let s := hm_storage m in let n := hm_network m in let t := hm_txn m in let c := hm_cluster m in let y := hm_system m in
  mkHermesMetrics (hm_NodeID m)
    (mkRaftMetrics (RaftLeaderChanges r) (Gauge_Set (f64 42) (RaftCurrentTerm r)) (Gauge_Set (f64 1) (RaftIsLeader r)) (Gauge_Set (f64 3) (RaftReplicationLag r))
      (RaftCommitLatency r) (RaftHeartbeatsSent r) (RaftLogAppended r))
    (hm_wal m)
    (mkStorageMetrics (Gauge_Set (f64 (32 * 1024 * 1024)) (MemTableSize s)) (SSTableCount s) (StorageReadLatency s) (StorageWriteLatency s) (BloomFilterHits s)
      (BloomFilterMisses s) (CompactionBytesTotal s))
    (hm_requests m) (mkTxnMetrics (TxnTotal t) (TxnConflicts t) (TxnDuration t) (Gauge_Set (f64 12) (TxnActive t)))
    (mkNetworkMetrics (NetworkBytesSent n) (NetworkBytesReceived n) (GRPCErrors n) (Gauge_Set (f64 4) (PeerConnections n)))
    (mkClusterMetrics (Gauge_Set (f64 5) (ClusterSize c)) (NodesSuspected c) (NodesDead c))
    (mkSystemMetrics (Gauge_Set (f64 numGoroutine) (GoroutineCount y)) (GCPauseDuration y) (MemoryUsageBytes y) (FDCount y)).

Definition in_ms (seconds : float64) : shown := ShFloat (fmul seconds (f64 1000)).

Definition snapshot_lines (snap : MetricsSnapshot) : list printed :=
  [say "METRICS SNAPSHOT: %s" [ShStr (sn_NodeID snap)];
   say "    Leader:            %v" [ShBool (sn_RaftIsLeader snap)];
   say "    Term:              %.0f" [ShFloat (sn_RaftCurrentTerm snap)];
   say "    Replication lag:   %.0f entries" [ShFloat (sn_RaftReplicationLag snap)];
   say "    Commit P50/P99:    %.1fms / %.1fms" [in_ms (hs_P50 (sn_RaftCommitLatency snap)); in_ms (hs_P99 (sn_RaftCommitLatency snap))];
   say "    Heartbeats sent:   %d" [ShInt (sn_RaftHeartbeatsSent snap)];
   say "    Writes:            %d" [ShInt (sn_WALWritesTotal snap)];
   say "    Fsyncs:            %d" [ShInt (sn_WALFsyncsTotal snap)];
   say "    Write P50/P99:     %.1fms / %.1fms" [in_ms (hs_P50 (sn_WALWriteLatency snap)); in_ms (hs_P99 (sn_WALWriteLatency snap))];
   say "    Fsync P50/P99:     %.1fms / %.1fms" [in_ms (hs_P50 (sn_WALFsyncLatency snap)); in_ms (hs_P99 (sn_WALFsyncLatency snap))];
   say "    Total:             %d" [ShInt (sn_RequestsTotal snap)];
   say "    P50/P95/P99:       %.1fms / %.1fms / %.1fms" [in_ms (hs_P50 (sn_RequestDuration snap)); in_ms (hs_P95 (sn_RequestDuration snap)); in_ms (hs_P99 (sn_RequestDuration snap))];
   say "    gRPC errors:       %d" [ShInt (sn_GRPCErrors snap)];
   say "    Goroutines:        %.0f" [ShFloat (sn_GoroutineCount snap)];
   say "    Active txns:       %.0f" [ShFloat (sn_TxnActive snap)];
   say "    Cluster size:      %.0f" [ShFloat (sn_ClusterSize snap)];
   say "    MemTable:          %.1fMB" [ShFloat (fdiv (fdiv (sn_MemTableSizeBytes snap) (f64 1024)) (f64 1024))]].

(** The lines of [PrometheusFormat] end in a newline each, so splitting gives
    one empty line more, which is not shown. *)
Definition demoMetrics (load : Load) (numGoroutine now : Z) : option (list printed) :=
  metrics ← for_each (operation load) (seq 0 1000) (NewHermesMetrics "hermes-0");
  let metrics := set_gauges numGoroutine metrics in
  let snap := Snapshot now metrics in
  let lines := PrometheusFormat snap in
  Some (snapshot_lines snap ++ take (Nat.min 15 (S (length lines))) lines).

(** ** Logs *)

Section logging.
  Context (fmt_duration : Z -> string).

Definition demoStructuredLogging : list LogLine :=
  let raftLog := NewRaftLogger "hermes-0" in
  let walLog := NewWALLogger "hermes-0" in
  let memberLog := NewMembershipLogger "hermes-0" in
  LeaderElected 42 (187 * ms) 3 5 raftLog ++
  EntryCommitted 1042 42 (8 * ms) raftLog ++
  ReplicationLag "hermes-2" 1500 raftLog ++
  WriteComplete 1042 256 (3 * ms) walLog ++
  FsyncComplete fmt_duration (8 * ms) 10 walLog ++
  FsyncComplete fmt_duration (120 * ms) 1 walLog ++
  NodeJoined "hermes-5" "10.0.1.5:7000" memberLog ++
  NodeSuspected "hermes-3" (fdec 85 1) memberLog ++
  NodeDead fmt_duration "hermes-3" (3 * sec) memberLog.

End logging.

(** ** Traces *)

Section tracing.
  Context `{RangeOrder}.

(** The readings of the clock and the random identifiers, in their order. *)
Context (now : nat -> Z) (traceID : nat -> TraceID) (spanID : nat -> SpanID).

(** The references of the spans are 0 the request, 1 the routing, 2 the
    proposal, 3 the write, 4 the replication and 5 the application. *)
Definition put_trace : list trace_call := [
  TcStart None "gRPC.HermesKV.Put" (now 0) (traceID 0) (spanID 0);
  TcSetAttribute 0 "grpc.method" (AttrString "Put");
  TcSetAttribute 0 "key" (AttrString "balance:alice");
  TcSetAttribute 0 "value_size" (AttrInt 8);
  TcStart (Some 0) "Router.Route" (now 1) (traceID 1) (spanID 1);
  TcSetAttribute 1 "key" (AttrString "balance:alice");
  TcSetAttribute 1 "shard_id" (AttrInt 0);
  TcSetAttribute 1 "target_node" (AttrString "hermes-0");
  TcEnd 1 (now 2);
  TcStart (Some 1) "Raft.Propose" (now 3) (traceID 2) (spanID 2);
  TcSetAttribute 2 "term" (AttrInt 42);
  TcSetAttribute 2 "log_index" (AttrInt 1043);
  TcStart (Some 2) "WAL.Write" (now 4) (traceID 3) (spanID 3);
  TcSetAttribute 3 "sequence" (AttrInt 1043);
  TcSetAttribute 3 "bytes" (AttrInt 128);
  TcAddEvent 3 (now 5) "fsync_start" ∅;
  TcAddEvent 3 (now 6) "fsync_complete" {["duration_ms" := AttrInt 3]};
  TcEnd 3 (now 7);
  TcStart None "Raft.Replicate" (now 8) (traceID 4) (spanID 4);
  TcSetAttribute 4 "follower_count" (AttrInt 2);
  TcSetAttribute 4 "required_acks" (AttrInt 2);
  TcAddEvent 4 (now 9) "quorum_reached" (list_to_map [("acks", AttrInt 2); ("elapsed_ms", AttrInt 7)]);
  TcEnd 4 (now 10);
  TcEnd 2 (now 11);
  TcStart None "Storage.Apply" (now 12) (traceID 5) (spanID 5);
  TcSetAttribute 5 "key" (AttrString "balance:alice");
  TcSetAttribute 5 "bytes" (AttrInt 64);
  TcEnd 5 (now 13);
  TcAddEvent 0 (now 14) "response_sent" {["status" := AttrString "ok"]};
  TcEnd 0 (now 15)
]%nat.

(** A share of the whole in percent. *)
Definition share (tenths totalMs : Z) : shown := ShFloat (fmul (fdiv (fdec tenths 1) (f64 totalMs)) (f64 100)).

Definition trace_lines (heap : list Span) : option (list printed) :=
  gRPCSpan ← heap !! 0%nat;
  tree ← PrintTrace (length heap) heap 0 0;
  let totalDuration := sp_Duration gRPCSpan in
  let total := Milliseconds totalDuration in
  Some ([say "Trace ID: %s" [ShStr (hex (sp_TraceID gRPCSpan))]] ++ tree ++
   [say "Total request duration: %v" [ShInt totalDuration];
    say "  Routing:      ~0.2ms (%.0f%%)" [share 2 total];
    say "  WAL write:    ~3ms   (%.0f%%)" [share 30 total];
    say "  Replication:  ~7ms   (%.0f%%)" [share 70 total];
    say "  Apply:        ~0.5ms (%.0f%%)" [share 5 total]]).

Definition demoDistributedTracing : option (list printed) := trace_lines (ts_heap (trace_run "hermes-0" "hermes" put_trace)).

End tracing.

(** ** Health *)

Section health.
  Context `{RangeOrder}.

Definition HealthStatus_String (s : HealthStatus) : string :=
  match s with HealthHealthy => "healthy" | HealthDegraded => "degraded" | HealthUnhealthy => "unhealthy" | HealthStarting => "starting" end.

(** The values that a message shows. *)
Definition message_values (m : HealthMessage) : list shown :=
  match m with
  | MsgText s => [ShStr s]
  | MsgFsyncVerySlow d | MsgFsyncSlow d => [ShInt d]
  | MsgReplicationLagTooHigh lag max => [ShInt lag; ShInt max]
  | MsgFollower lag => [ShInt lag]
  | MsgMemTableNearlyFull pct | MsgMemoryCritical pct | MsgMemoryPressure pct | MsgMemoryUsage pct => [ShFloat pct]
  | MsgCompactionBacklog files => [ShInt files]
  end.

Definition printHealthReport (report : HealthReport) : list printed :=
  let icon := match hr_Status report with HealthHealthy => "✅" | HealthDegraded => "🟡" | HealthUnhealthy => "❌" | HealthStarting => "🔄" end in
  say "  %s Overall: %s" [ShStr icon; ShStr (HealthStatus_String (hr_Status report))] ::
  map (fun check =>
    let checkIcon := match hc_Status check with HealthDegraded => "  🟡" | HealthUnhealthy => "  ❌" | _ => "  ✅" end in
    say "  %s %s: %s" ([ShStr checkIcon; ShStr (hc_Name check)] ++ message_values (hc_Message check))) (hr_Checks report).

Definition check_order (h : HealthChecker) : list HealthCheck := range_values (hk_checks h).

Definition check_all (now fsync : Z) (isLeader leaderKnown : bool) (lag used : Z) (h : HealthChecker) : HealthChecker :=
  let h := CheckWAL now fsync h in
  let h := CheckRaft now isLeader leaderKnown lag h in
  let h := CheckStorage now (f64 45) 2 h in
  CheckMemory now used (8 * 1024 * 1024 * 1024) h.

(** The checkers of the scenarios, and what is printed; [now] is read once per
    scenario. *)
Definition demoHealthChecks (now : nat -> Z) : list HealthChecker * list printed :=
  let checker := NewHealthChecker "hermes-0" in
  let checker1 := check_all (now 0%nat) (8 * ms) true true 3 (3 * 1024 * 1024 * 1024) checker in
  let report := Report (now 0%nat) (check_order checker1) checker1 in
  let checker2 := check_all (now 1%nat) (250 * ms) false true 50 (3 * 1024 * 1024 * 1024) checker1 in
  let report2 := Report (now 1%nat) (check_order checker2) checker2 in
  let checker3 := check_all (now 2%nat) (8 * ms) false false 0 (7 * 1024 * 1024 * 1024) checker2 in
  let report3 := Report (now 2%nat) (check_order checker3) checker3 in
  ([checker1; checker2; checker3], printHealthReport report ++ printHealthReport report2 ++ printHealthReport report3).

End health.

(** ** Rates and the runtime *)

(** The part of [runtime.MemStats] that is shown. *)
Record MemStats := mkMemStats {
  mst_HeapAlloc : Z;
  mst_HeapInuse : Z;
  mst_HeapSys : Z;
  mst_StackInuse : Z;
  mst_NumGC : Z;
  mst_PauseNs : list Z;
  mst_PauseTotalNs : Z;
}.

Definition in_mb (bytes : Z) : shown := ShFloat (fdiv (fdiv (f64 bytes) (f64 1024)) (f64 1024)).

(** An index outside of the 256 pauses panics. *)
Definition demoPerformanceProfiling (numGoroutine gomaxprocs : Z) (memStats : MemStats) : option (list printed) :=
  pause ← mst_PauseNs memStats !! Z.to_nat ((mst_NumGC memStats + 255) mod 2 ^ 32 mod 256);
  Some [say "  Goroutines:        %d" [ShInt numGoroutine];
        say "  GOMAXPROCS:        %d" [ShInt gomaxprocs];
        say "  Heap allocated:    %.1f MB" [in_mb (mst_HeapAlloc memStats)];
        say "  Heap in use:       %.1f MB" [in_mb (mst_HeapInuse memStats)];
        say "  Stack in use:      %.1f MB" [in_mb (mst_StackInuse memStats)];
        say "  GC runs:           %d" [ShInt (mst_NumGC memStats)];
        say "  Last GC pause:     %v" [ShInt pause];
        say "  Total GC pause:    %v" [ShInt (mst_PauseTotalNs memStats)]].

(** A request of the simulated traffic: the draw of an error and the duration
    in milliseconds. *)
Definition red_request (x : float64 * Z) (m : HermesMetrics) : option HermesMetrics :=
  let m := if fltb x.1 (fdec 2 2) then on_errors Counter_Inc m else m in
  on_requests (client_request (fdiv (f64 x.2) (f64 1000))) m.

(** [cpu], [disk] and [network] are the draws below 70, 60 and 30. *)
Definition demoREDUSE (draws : nat -> float64 * Z) (cpu disk network now : Z) (memStats : MemStats) : option (list printed) :=
  metrics ← for_each (fun i => red_request (draws i)) (seq 0 600) (NewHermesMetrics "hermes-0");
  let snap := Snapshot now metrics in
  let rate := fdiv (f64 (sn_RequestsTotal snap)) (f64 60) in
  let errorRate := fmul (fdiv (f64 (sn_GRPCErrors snap)) (f64 (sn_RequestsTotal snap))) (f64 100) in
  let cpuUtilization := f64 (cpu + 20) in
  Some [say "  RATE:     %.0f requests/sec" [ShFloat rate];
        say "  ERRORS:   %.1f%% error rate" [ShFloat errorRate];
        say "  DURATION: P50=%.1fms P95=%.1fms P99=%.1fms" [in_ms (hs_P50 (sn_RequestDuration snap)); in_ms (hs_P95 (sn_RequestDuration snap)); in_ms (hs_P99 (sn_RequestDuration snap))];
        say "  CPU:    UTILIZATION=%.0f%%  SATURATION=%s  ERRORS=0" [ShFloat cpuUtilization; ShStr (if fltb (f64 80) cpuUtilization then "HIGH (request queue growing)" else "LOW")];
        say "  MEMORY: UTILIZATION=%.0f%%  SATURATION=%s  ERRORS=0"
          [ShFloat (fmul (fdiv (f64 (mst_HeapInuse memStats)) (f64 (mst_HeapSys memStats))) (f64 100));
           ShStr (if u64 (mst_HeapSys memStats * 8) / 10 <? mst_HeapInuse memStats then "HIGH (GC running frequently)" else "LOW")];
        say "  DISK:   UTILIZATION=~%.0f%%  SATURATION=%s  ERRORS=0" [ShFloat (f64 (disk + 20)); ShStr "LOW"];
        say "  NETWORK:UTILIZATION=~%.0f%%  SATURATION=%s  ERRORS=0" [ShFloat (f64 (network + 5)); ShStr "LOW"]].

(** ** What is shown *)

(** *** Traces *)

Section put_traced.
  Context `{RangeOrder}.
Context (now : nat -> Z) (traceID : nat -> TraceID) (spanID : nat -> SpanID).

Lemma put_trace_shape : shape (ts_heap (trace_run "hermes-0" "hermes" (put_trace now traceID spanID))) =
  [("gRPC.HermesKV.Put", [1]); ("Router.Route", [2]); ("Raft.Propose", [3]); ("WAL.Write", []); ("Raft.Replicate", []); ("Storage.Apply", [])]%nat.
Proof. reflexivity. Qed.

Lemma trace_lines_titles heap l : shape heap = l -> is_Some (head l) ->
  titles <$> trace_lines heap = outline (length l) l 0 0.
Proof.
  intros Hs Hl. unfold trace_lines. assert (Hlen : length heap = length l) by (rewrite -Hs; unfold shape; by rewrite length_map).
  destruct (heap !! 0%nat) as [span|] eqn:E0; [|apply lookup_ge_None in E0; destruct l; [by destruct Hl|cbn in Hlen; lia]]. cbn [mbind option_bind].
  pose proof (PrintTrace_outline heap (length heap) 0 0) as Ho. rewrite Hs {2}Hlen in Ho. rewrite -Ho. destruct (PrintTrace _ heap 0 0) as [tree|]; [|done].
  cbn [mbind option_bind fmap option_fmap option_map]. f_equal. rewrite !titles_app. cbn. by rewrite app_nil_r.
Qed.

(** The trace has the request, below it the routing, below that the proposal
    and below that the write, although the routing has ended by then.  The
    replication and the application, which the breakdown counts, are not part
    of it. *)
Theorem trace_demo_misses_replication : titles <$> demoDistributedTracing now traceID spanID =
  Some [(0, "gRPC.HermesKV.Put"); (1, "Router.Route"); (2, "Raft.Propose"); (3, "WAL.Write")].
Proof. unfold demoDistributedTracing. rewrite (trace_lines_titles _ _ put_trace_shape); [done|by eexists]. Qed.

End put_traced.

(** *** Logs and health *)

(** Of nine calls six write a line: what is at debug level is dropped. *)
Example logging_demo fmt : map (fun l => (ll_Level l, ll_Msg l)) (demoStructuredLogging fmt) =
  [("info", "leader elected"); ("error", "critical follower replication lag"); ("error", "very slow WAL fsync"); ("info", "node joined cluster");
   ("warn", "node suspected dead"); ("error", "node confirmed dead")].
Proof. reflexivity. Qed.

Section health_shown.
  Context `{RangeOrder}.

Lemma existsb_perm {A} (f : A -> bool) l k : l ≡ₚ k -> existsb f l = existsb f k.
Proof. induction 1; cbn; [done|congruence|by destruct (f x), (f y)|congruence]. Qed.

Lemma worst_perm l k : l ≡ₚ k -> worst l = worst k.
Proof. intros Hp. unfold worst. by rewrite !(existsb_perm _ _ _ Hp). Qed.

Lemma check_order_perm h : check_order h ≡ₚ map snd (map_to_list (hk_checks h)).
Proof. apply range_values_perm. Qed.

(** The status of a report does not depend on the order of the checks. *)
Lemma Report_status now h : hr_Status (Report now (check_order h) h) = worst (map snd (map_to_list (hk_checks h))).
Proof. unfold Report. rewrite -(worst_perm _ _ (check_order_perm h)). by destruct (report_fold (check_order h) [] (mkHealthReport HealthHealthy (hk_nodeID h) now []) eq_refl eq_refl) as [-> _]. Qed.

Lemma IsReady_status now h : IsReady now (check_order h) h =
  let s := worst (map snd (map_to_list (hk_checks h))) in negb (bool_decide (s = HealthUnhealthy)) && negb (bool_decide (s = HealthStarting)).
Proof. unfold IsReady. by rewrite Report_status. Qed.

(** The readiness that the demonstration states for its scenarios is what the
    probes answer, in every order of the checks. *)
Theorem health_demo now t : map (fun h => (hr_Status (Report t (check_order h) h), IsLive h, IsReady t (check_order h) h)) (demoHealthChecks now).1 =
  [(HealthHealthy, true, true); (HealthDegraded, true, true); (HealthUnhealthy, true, false)].
Proof. unfold demoHealthChecks. cbn [fst map]. rewrite !IsReady_status !Report_status. reflexivity. Qed.

End health_shown.

(** *** Metrics *)

(** A histogram that has seen [n] observations. *)
Definition seen (n : Z) (h : Histogram) : Prop := exists obs, observed h obs /\ zlen obs = n.

Lemma seen_new name help buckets : seen 0 (NewHistogram name help buckets).
Proof. exists []. split; [apply observed_new|done]. Qed.

Lemma Observe_seen v n h : seen n h -> n < two63 - 1 -> exists h', Observe v h = Some h' /\ seen (n + 1) h'.
Proof.
  intros (obs & [Hc Hn] & Hl) Hlt. unfold Observe. rewrite Hc count_buckets_spec; [|lia]. cbn [mbind option_bind]. eexists. split; [done|]. exists (obs ++ [v]).
  pose proof (zlen_nonneg obs). rewrite zlen_app. change (zlen [v]) with 1. split; [|lia]. split; [done|]. cbn [hi_count]. rewrite Hn i64_small; [|lia]. by rewrite zlen_app.
Qed.

Definition errors (draw : nat -> float64) (n : nat) : Z := zlen (List.filter (fun i => fltb (draw i) (fdec 2 2)) (seq 0 n)).

Lemma errors_S draw n : errors draw (S n) = errors draw n + (if fltb (draw n) (fdec 2 2) then 1 else 0).
Proof. unfold errors. rewrite seq_S List.filter_app zlen_app. cbn. by destruct (fltb _ _). Qed.

Lemma errors_bound draw n : 0 <= errors draw n <= Z.of_nat n.
Proof. unfold errors, zlen. pose proof (List.filter_length_le (fun i => fltb (draw i) (fdec 2 2)) (seq 0 n)) as H. rewrite length_seq in H. lia. Qed.

(** The metrics after [n] operations. *)
Record worked (load : Load) (n : nat) (m : HermesMetrics) : Prop := {
  wk_writes : ct_value (WALWritesTotal (hm_wal m)) = Z.of_nat n;
  wk_write_latency : seen (Z.of_nat n) (WALWriteLatency (hm_wal m));
  wk_fsyncs : ct_value (WALFsyncsTotal (hm_wal m)) = (Z.of_nat n + 9) / 10;
  wk_fsync_latency : seen ((Z.of_nat n + 9) / 10) (WALFsyncLatency (hm_wal m));
  wk_commit_latency : seen (Z.of_nat n) (RaftCommitLatency (hm_raft m));
  wk_requests : ct_value (RequestsTotal (hm_requests m)) = Z.of_nat n;
  wk_request_latency : seen (Z.of_nat n) (RequestDuration (hm_requests m));
  wk_errors : ct_value (GRPCErrors (hm_network m)) = errors (ld_draw load) n;
  wk_heartbeats : ct_value (RaftHeartbeatsSent (hm_raft m)) = 0;
}.

Lemma next_fsyncs n : (Z.of_nat (S n) + 9) / 10 = (Z.of_nat n + 9) / 10 + (if Z.of_nat n mod 10 =? 0 then 1 else 0).
Proof. rewrite Nat2Z.inj_succ. destruct (Z.eqb_spec (Z.of_nat n mod 10) 0); Z.to_euclidean_division_equations; lia. Qed.

Lemma Counter_Inc_value n c : ct_value c = n -> 0 <= n < two63 - 1 -> ct_value (Counter_Inc c) = n + 1.
Proof. intros Hc Hn. unfold Counter_Inc, Counter_Add. cbn [ct_value]. rewrite Hc i64_small; lia. Qed.

Ltac parts := cbn [mbind option_bind on_errors hm_NodeID hm_raft hm_wal hm_storage hm_requests hm_txn hm_network hm_cluster hm_system WALFsyncLatency WALWriteLatency
  WALWritesTotal WALBytesTotal WALFsyncsTotal RaftLeaderChanges RaftCurrentTerm RaftIsLeader RaftReplicationLag RaftCommitLatency RaftHeartbeatsSent RaftLogAppended
  RequestsTotal RequestDuration NotLeaderTotal NetworkBytesSent NetworkBytesReceived GRPCErrors PeerConnections].

Lemma operation_worked load n m : worked load n m -> Z.of_nat n < 1000000 -> exists m', operation load n m = Some m' /\ worked load (S n) m'.
Proof.
  intros [W1 W2 W3 W4 W5 W6 W7 W8 W9] Hn. pose proof (next_fsyncs n) as Hf. pose proof (errors_S (ld_draw load) n) as He. pose proof (errors_bound (ld_draw load) n).
  assert (Hq : 0 <= (Z.of_nat n + 9) / 10 < 2000000) by (Z.to_euclidean_division_equations; lia).
  destruct (Observe_seen (Seconds (ld_wal load n)) _ _ W2 ltac:(lia)) as (h2 & E2 & S2).
  destruct (Observe_seen (Seconds (ld_fsync load n)) _ _ W4 ltac:(lia)) as (h4 & E4 & S4).
  destruct (Observe_seen (Seconds (ld_raft load n)) _ _ W5 ltac:(lia)) as (h5 & E5 & S5).
  destruct (Observe_seen (Seconds (ld_request load n)) _ _ W7 ltac:(lia)) as (h7 & E7 & S7).
  pose proof (Counter_Inc_value _ _ W1 ltac:(lia)) as C1. pose proof (Counter_Inc_value _ _ W3 ltac:(lia)) as C3. pose proof (Counter_Inc_value _ _ W6 ltac:(lia)) as C6. pose proof (Counter_Inc_value _ _ W8 ltac:(lia)) as C8.
  replace (Z.of_nat n + 1) with (Z.of_nat (S n)) in * by lia.
  unfold operation, on_wal, on_raft, on_requests, wal_write, wal_fsync, raft_commit, client_request, ObserveDuration. rewrite E2. parts.
  destruct (Z.of_nat n mod 10 =? 0); parts; rewrite ?E4; parts; rewrite E5; parts; rewrite E7; parts.
  all: eexists; split; [done|]; destruct (fltb (ld_draw load n) (fdec 2 2)); constructor; parts; rewrite ?Hf ?He ?Z.add_0_r; done.
Qed.

Lemma operations_worked load n : Z.of_nat n <= 1000000 -> exists m, for_each (operation load) (seq 0 n) (NewHermesMetrics "hermes-0") = Some m /\ worked load n m.
Proof.
  induction n as [|n IH]; intros Hn.
  - eexists. split; [done|]. constructor; try apply seen_new; done.
  - destruct IH as (m & Hm & Hw); [lia|]. rewrite seq_S for_each_app Hm. cbn [mbind option_bind for_each Nat.add].
    destruct (operation_worked load n m Hw ltac:(lia)) as (m' & -> & Hw'). by exists m'.
Qed.

Definition counter (f : HermesMetrics -> Counter) (m : HermesMetrics) : option (list shown) := Some [ShInt (ct_value (f m))].

Lemma snapshot_shown now g m rest : map (fun i => p_values <$> (snapshot_lines (Snapshot now (set_gauges g m)) ++ rest) !! i) [1; 2; 5; 6; 7; 10; 12; 14]%nat =
  [Some [ShBool true]; Some [ShFloat (f64 42)]; counter (fun m => RaftHeartbeatsSent (hm_raft m)) m; counter (fun m => WALWritesTotal (hm_wal m)) m;
   counter (fun m => WALFsyncsTotal (hm_wal m)) m; counter (fun m => RequestsTotal (hm_requests m)) m; counter (fun m => GRPCErrors (hm_network m)) m; Some [ShFloat (f64 12)]].
Proof. reflexivity. Qed.

(** Whatever the load, the snapshot shows 1000 writes and requests, 100 fsyncs,
    the errors drawn, the gauges that were set and no heartbeat. *)
Theorem metrics_demo load numGoroutine now : exists lines, demoMetrics load numGoroutine now = Some lines /\
  map (fun i => p_values <$> lines !! i) [1; 2; 5; 6; 7; 10; 12; 14]%nat =
  [Some [ShBool true]; Some [ShFloat (f64 42)]; Some [ShInt 0]; Some [ShInt 1000]; Some [ShInt 100]; Some [ShInt 1000]; Some [ShInt (errors (ld_draw load) 1000)]; Some [ShFloat (f64 12)]].
Proof.
  unfold demoMetrics. destruct (operations_worked load 1000 ltac:(lia)) as (m & -> & [W1 W2 W3 W4 W5 W6 W7 W8 W9]). cbn [mbind option_bind]. eexists. split; [done|].
  rewrite snapshot_shown. unfold counter. by rewrite W1 W3 W6 W8 W9.
Qed.

Record served (draws : nat -> float64 * Z) (n : nat) (m : HermesMetrics) : Prop := {
  sv_requests : ct_value (RequestsTotal (hm_requests m)) = Z.of_nat n;
  sv_latency : seen (Z.of_nat n) (RequestDuration (hm_requests m));
  sv_errors : ct_value (GRPCErrors (hm_network m)) = errors (fun i => (draws i).1) n;
}.

Lemma requests_served draws n : Z.of_nat n <= 1000000 -> exists m, for_each (fun i => red_request (draws i)) (seq 0 n) (NewHermesMetrics "hermes-0") = Some m /\ served draws n m.
Proof.
  induction n as [|n IH]; intros Hn; [eexists; split; [done|]; constructor; try apply seen_new; done|].
  destruct IH as (m & Hm & [W1 W2 W3]); [lia|]. rewrite seq_S for_each_app Hm. cbn [mbind option_bind for_each Nat.add]. unfold red_request, on_requests, client_request.
  pose proof (errors_S (fun i => (draws i).1) n) as He. pose proof (errors_bound (fun i => (draws i).1) n).
  destruct (Observe_seen (fdiv (f64 (draws n).2) (f64 1000)) _ _ W2 ltac:(lia)) as (h & E & S). pose proof (Counter_Inc_value _ _ W1 ltac:(lia)) as C1. pose proof (Counter_Inc_value _ _ W3 ltac:(lia)) as C3.
  replace (Z.of_nat n + 1) with (Z.of_nat (Datatypes.S n)) in * by lia.
  destruct (fltb (draws n).1 (fdec 2 2)); parts; rewrite E; parts; eexists; (split; [done|]); constructor; parts; rewrite ?He ?Z.add_0_r; done.
Qed.

(** The rate is ten requests per second, and the error rate the share of the
    600 draws that are errors. *)
Theorem red_demo draws cpu disk network now memStats : exists lines, demoREDUSE draws cpu disk network now memStats = Some lines /\
  take 2 lines = [say "  RATE:     %.0f requests/sec" [ShFloat (f64 10)];
                  say "  ERRORS:   %.1f%% error rate" [ShFloat (fmul (fdiv (f64 (errors (fun i => (draws i).1) 600)) (f64 600)) (f64 100))]].
Proof.
  unfold demoREDUSE. destruct (requests_served draws 600 ltac:(lia)) as (m & -> & [W1 W2 W3]). cbn [mbind option_bind]. eexists. split; [done|].
  cbn [take]. unfold Snapshot. cbn [sn_RequestsTotal sn_GRPCErrors]. rewrite W1 W3. change (Z.of_nat 600) with 600. by change (fdiv (f64 600) (f64 60)) with (f64 10).
Qed.

(** The last pause is one of the 256 that the runtime keeps. *)
Theorem profiling_demo_total numGoroutine gomaxprocs memStats : length (mst_PauseNs memStats) = 256%nat -> is_Some (demoPerformanceProfiling numGoroutine gomaxprocs memStats).
Proof.
  intros Hl. unfold demoPerformanceProfiling. destruct (lookup_lt_is_Some_2 (mst_PauseNs memStats) (Z.to_nat ((mst_NumGC memStats + 255) mod 2 ^ 32 mod 256))) as [p ->]; [|by eexists].
  rewrite Hl. pose proof (Z.mod_pos_bound ((mst_NumGC memStats + 255) mod 2 ^ 32) 256). lia.
Qed.
