(* ===== verification/DemoTransport.v ===== *)
(** * DemoTransport: the demonstrations of the transport
    (pkg/transport/demo.go)

    Listening, dialling and the failures of calls are arguments; a call that
    does not fail runs the handler of the server it reaches.  A demonstration
    that waits forever is [None].  The lines that the transport and the handlers
    of concurrent calls print are left out. *)

From S2P Require Import Prelude Bytes Float64 Transport NetworkSimulator Demo.

(** ** The handlers of the demonstrations *)

(** The fields of the requests and responses that the demonstrations use. *)
Record AppendRequest := mkAppendRequest {
  ar_Term : Z;
  ar_LeaderId : string;
  ar_PrevLogIndex : Z;
  ar_PrevLogTerm : Z;
  ar_Entries : list (Z * Z * string);
  ar_LeaderCommit : Z;
}.

Record AppendResponse := mkAppendResponse {
  ap_Term : Z;
  ap_Success : bool;
  ap_FollowerId : string;
}.

(** The response, and the line that the handler prints. *)
Definition Placeholder_AppendEntries (nodeID : string) (req : AppendRequest) : AppendResponse * printed :=
  (mkAppendResponse (ar_Term req) true nodeID,
   say "[%s] Received AppendEntries from %s (term=%d, entries=%d)" [ShStr nodeID; ShStr (ar_LeaderId req); ShInt (ar_Term req); ShInt (zlen (ar_Entries req))]).

(** Term, vote and voter. *)
Definition Placeholder_RequestVote (nodeID candidateId : string) (term : Z) : Z * bool * string * printed :=
  (term, true, nodeID, say "[%s] Received RequestVote from %s (term=%d)" [ShStr nodeID; ShStr candidateId; ShInt term]).

Definition Placeholder_Ping (nodeID : string) (sequenceNumber : Z) : string * Z := (nodeID, sequenceNumber).

Record PlaceholderKVHandler := mkPlaceholderKV {
  ph_nodeID : string;
  ph_store : gmap string bytes;
}.

Definition NewPlaceholderKVHandler (nodeID : string) : PlaceholderKVHandler := mkPlaceholderKV nodeID ∅.

(** The version, and the line that the handler prints. *)
Definition Placeholder_Put (key : string) (value : bytes) (h : PlaceholderKVHandler) : Z * printed * PlaceholderKVHandler :=
  (1, say "[%s] PUT %s = %s" [ShStr (ph_nodeID h); ShStr key; ShBytes value], mkPlaceholderKV (ph_nodeID h) (<[key := value]> (ph_store h))).

(** Found, with the value; otherwise the error is KEY_NOT_FOUND. *)
Definition Placeholder_Get (key : string) (h : PlaceholderKVHandler) : bool * bytes :=
  match ph_store h !! key with Some val => (true, val) | None => (false, []) end.

(** ** Demonstrations *)

Section network.
  (** [listen i] is the [i]-th call of [net.Listen]. *)
  Context (listen : nat -> string -> option string) (dial : string -> option rpc_error) (now : Z).

(** [fails] is the error of each of the three calls. *)
Definition demoBasicGRPC (fails : nat -> option rpc_error) : list printed :=
  let server := NewServer (DefaultTransportConfig "127.0.0.1:0" "node-1") in
  let kv := NewPlaceholderKVHandler "node-1" in
  match Server_Start (listen 0%nat) server with
  | (Some err, _) => [say "Failed to start server: %v" []]
  | (None, server) =>
      let pool := NewConnectionPool (DefaultTransportConfig EmptyString "client") in
      match Pool_AddPeer now dial "node-1" (Server_Addr server) pool with
      | (Some err, _) => [say "Failed to connect: %v" []]
      | (None, pool) =>
          match fails 0%nat with
          | Some err => [say "Put failed: %v" []]
          | None =>
              let '(version, served, kv) := Placeholder_Put "hello" (bytes_of_string "distributed world") kv in
              [served; say "  PUT hello = 'distributed world' → version=%d" [ShInt version]] ++
              match fails 1%nat with
              | Some err => [say "Get failed: %v" []]
              | None =>
                  let '(found, value) := Placeholder_Get "hello" kv in
                  [say "  GET hello → '%s' (found=%v)" [ShBytes value; ShBool found]] ++
                  match fails 2%nat with
                  | Some err => [say "AppendEntries failed: %v" []]
                  | None =>
                      let '(raftResp, served) := Placeholder_AppendEntries "node-1" (mkAppendRequest 1 "leader-node" 0 0 [(1, 1, "PUT key1 value1"); (2, 1, "PUT key2 value2")] 0) in
                      [served; say "  AppendEntries → success=%v, term=%d" [ShBool (ap_Success raftResp); ShInt (ap_Term raftResp)]]
                  end
              end
          end
      end
  end.

(** The servers started, errors ignored, and the pool of their peers. *)
Definition start_servers (prefix : string) (n : nat) : list (string * GrpcServer) :=
  map (fun i => let id := prefix +:+ string_of_bytes (fmt_d (Z.of_nat i)) in (id, (Server_Start (listen i) (NewServer (DefaultTransportConfig "127.0.0.1:0" id))).2)) (seq 1 n).

Definition connect_servers (servers : list (string * GrpcServer)) : ConnectionPool :=
  fold_left (fun pool s => (Pool_AddPeer now dial s.1 (Server_Addr s.2) pool).2) servers (NewConnectionPool (DefaultTransportConfig EmptyString "leader")).

(** [fails] is the error of the ping of a peer. *)
Definition demoConnectionPool `{RangeOrder} (fails : string -> option rpc_error) : list printed :=
  let servers := start_servers "node-" 3 in
  let pool := connect_servers servers in
  let health := Pool_HealthCheck (range_keys (cp_peers pool)) (fun c => fails (pc_peerID c)) pool in
  say "Connected to %d peers" [ShInt (zlen servers)] ::
  omap (fun peerID => (fun healthy : bool => say "  %s %s" [ShStr (if healthy then "✅" else "❌"); ShStr peerID]) <$> health !! peerID) (range_keys health).

(** The counting of the acknowledgements. *)
Definition count_ack (quorumNeeded index : Z) (s : list printed * Z * bool) (result : @BroadcastResult AppendResponse) : option (list printed * Z * bool) :=
  let '(out, acks, quorumAchieved) := s in
  match br_Err result with
  | Some err => Some (out ++ [say "  ❌ %s: error=%v" [ShStr (br_PeerID result)]], acks, quorumAchieved)
  | None =>
      response ← br_Response result;
      let out := out ++ [say "  ✅ %s: success=%v (term=%d)" [ShStr (br_PeerID result); ShBool (ap_Success response); ShInt (ap_Term response)]] in
      if ap_Success response then
        let acks := acks + 1 in
        if negb quorumAchieved && (quorumNeeded <=? acks) then Some (out ++ [say "  QUORUM REACHED at %v! Entry %d is COMMITTED" [ShInt index]], acks, true)
        else Some (out, acks, quorumAchieved)
      else Some (out, acks, quorumAchieved)
  end.

Definition broadcast_request : AppendRequest := mkAppendRequest 5 "leader" 9 4 [(10, 5, "PUT user:1 alice")] 9.

(** The results in the order [arrive] in which the channel has them.  Each of
    the followers is waited for, also those that were not connected. *)
Definition demoConcurrentBroadcast `{RangeOrder} (fails : string -> option rpc_error) (arrive : list (@BroadcastResult AppendResponse) -> list (@BroadcastResult AppendResponse)) : option (list printed) :=
  let followers := start_servers "follower-" 4 in
  let pool := connect_servers followers in
  let results := arrive (Broadcast (range_keys (cp_peers pool)) (fun c =>
    match fails (pc_peerID c) with Some err => (None, Some err) | None => (Some (Placeholder_AppendEntries (pc_peerID c) broadcast_request).1, None) end) pool) in
  let quorumNeeded := zlen followers / 2 + 1 in
  if zlen results <? zlen followers then None
  else
    '(out, acks, _) ← for_each (fun r s => count_ack quorumNeeded 10 s r) results ([], 0, false);
    Some ([say "Leader broadcasting AppendEntries (index=10) to %d followers:" [ShInt (zlen followers)]] ++ out ++
          [say "Final: %d/%d acknowledged | Total time: %v" [ShInt acks; ShInt (zlen followers)]]).

End network.

(** The text of [SimulatorStats]. *)
Definition SimulatorStats_String (s : SimulatorStats) : printed :=
  say "Sent=%d Dropped=%d Delayed=%d Duplicated=%d Partitioned=%d" [ShInt (ss_Sent s); ShInt (ss_Dropped s); ShInt (ss_Delayed s); ShInt (ss_Duplicated s); ShInt (ss_Partitioned s)].

(** A delivery shown; no rule of the demonstration drops at random. *)
Definition deliver_line (icons : bool) (drawF : float64) (drawI : Z -> Z) (x : string * string) (s : list printed * NetworkSimulator) : list printed * NetworkSimulator :=
  let '(out, sim) := s in
  let '(result, _, sim) := ShouldDeliver drawF drawI x.1 x.2 sim in
  (out ++ [if icons then say "  %s %s → %s: deliver=%v" [ShStr (if result then "✅" else "❌"); ShStr x.1; ShStr x.2; ShBool result]
           else say "  %s → %s: deliver=%v" [ShStr x.1; ShStr x.2; ShBool result]], sim).

(** [elapsed] is what the clock says of a delivery after [delay]. *)
Definition demoNetworkSimulator (drawF : float64) (drawI : Z -> Z) (elapsed : Z -> Z) : list printed :=
  let sim := NewNetworkSimulator in
  let left := ["node-1"; "node-2"] in
  let right := ["node-3"; "node-4"; "node-5"] in
  let '(out, sim) := fold_left (fun s x => deliver_line false drawF drawI x s) (list_prod left right) ([], sim) in
  let sim := net_Partition left right sim in
  let '(out, sim) := fold_left (fun s x => deliver_line true drawF drawI x s)
    [("node-1", "node-2"); ("node-1", "node-3"); ("node-3", "node-4"); ("node-4", "node-1")] (out, sim) in
  let sim := SetLatency "node-3" "node-4" (50 * ms) (100 * ms) sim in
  let '(_, delay, sim) := ShouldDeliver drawF drawI "node-3" "node-4" sim in
  let out := out ++ [say "  Delivery time with latency: %v" [ShInt (elapsed delay)]] in
  let sim := HealPartition left right sim in
  out ++ [SimulatorStats_String (ns_stats sim)].

(** ** What is shown *)

(** What was put is read back. *)
Theorem basic_demo listen dial now addr : listen 0%nat "127.0.0.1:0" = Some addr -> dial addr = None ->
  demoBasicGRPC listen dial now (fun _ => None) =
  [say "[%s] PUT %s = %s" [ShStr "node-1"; ShStr "hello"; ShStr "distributed world"]; say "  PUT hello = 'distributed world' → version=%d" [ShInt 1];
   say "  GET hello → '%s' (found=%v)" [ShStr "distributed world"; ShBool true];
   say "[%s] Received AppendEntries from %s (term=%d, entries=%d)" [ShStr "node-1"; ShStr "leader-node"; ShInt 1; ShInt 2];
   say "  AppendEntries → success=%v, term=%d" [ShBool true; ShInt 1]].
Proof.
  intros Hl Hd. unfold demoBasicGRPC, Server_Start, NewServer. cbn [gs_started gs_config tc_ListenAddr DefaultTransportConfig]. rewrite Hl. cbn match.
  unfold Pool_AddPeer, newPeerClient, Server_Addr, NewConnectionPool. cbn [cp_peers gs_listener]. rewrite lookup_empty Hd. reflexivity.
Qed.

(** The partition cuts the two deliveries across it, and the delayed delivery
    counts as two messages, whatever is drawn. *)
Theorem network_demo drawF drawI elapsed :
  map p_values (take 4 (drop 6 (demoNetworkSimulator drawF drawI elapsed))) =
    [[ShStr "✅"; ShStr "node-1"; ShStr "node-2"; ShBool true]; [ShStr "❌"; ShStr "node-1"; ShStr "node-3"; ShBool false];
     [ShStr "✅"; ShStr "node-3"; ShStr "node-4"; ShBool true]; [ShStr "❌"; ShStr "node-4"; ShStr "node-1"; ShBool false]] /\
  last (demoNetworkSimulator drawF drawI elapsed) = Some (SimulatorStats_String (mkSimulatorStats 12 0 1 0 0 2)).
Proof. by vm_compute. Qed.

Section broadcast.
  Context `{RangeOrder} (listen : nat -> string -> option string) (dial : string -> option rpc_error) (now : Z).

Definition reachable (s : string * GrpcServer) : bool := match dial (Server_Addr s.2) with None => true | Some _ => false end.

Lemma connect_peers servers : forall pool k, NoDup servers.*1 -> (forall id, id ∈ servers.*1 -> cp_peers pool !! id = None) ->
  is_Some (cp_peers (fold_left (fun pool s => (Pool_AddPeer now dial s.1 (Server_Addr s.2) pool).2) servers pool) !! k) <->
  is_Some (cp_peers pool !! k) \/ k ∈ (List.filter reachable servers).*1.
Proof.
  induction servers as [|[id srv] servers IH]; intros pool k Hnd Hfresh; [set_solver|]. cbn [fold_left fmap list_fmap List.filter] in *. apply NoDup_cons in Hnd as [Hid Hnd].
  rewrite IH; [|done|].
  - unfold Pool_AddPeer, newPeerClient, reachable. cbn [fst snd]. rewrite Hfresh; [|by left]. destruct (dial (Server_Addr srv)); cbn [snd cp_peers fmap list_fmap fst]; [done|].
    destruct (decide (k = id)) as [->|Hk]; [rewrite lookup_insert_eq; set_solver|rewrite lookup_insert_ne; [set_solver|done]].
  - intros j Hj. unfold Pool_AddPeer, newPeerClient. cbn [fst snd]. rewrite Hfresh; [|by left]. destruct (dial (Server_Addr srv)); cbn [snd cp_peers]; [apply Hfresh; set_solver|].
    rewrite lookup_insert_ne; [apply Hfresh; set_solver|set_solver].
Qed.

Lemma connected_keys servers : NoDup servers.*1 -> range_keys (cp_peers (connect_servers dial now servers)) ≡ₚ (List.filter reachable servers).*1.
Proof.
  intros Hnd. apply NoDup_Permutation.
  - rewrite range_keys_perm. apply NoDup_fst_map_to_list.
  - clear -Hnd. induction servers as [|s servers IH]; [constructor|]. cbn in *. apply NoDup_cons in Hnd as [Hs Hnd]. destruct (reachable s); [|by apply IH]. cbn. constructor; [|by apply IH].
    intros (x & Hx & Hin)%list_elem_of_fmap. apply Hs, list_elem_of_fmap. exists x. split; [done|]. by apply list_elem_of_In, filter_In in Hin as [?%list_elem_of_In _].
  - intros k. rewrite range_keys_in. unfold connect_servers. rewrite connect_peers; [|done|intros; apply lookup_empty]. cbn [NewConnectionPool cp_peers]. rewrite lookup_empty. split; [intros [[]|?]; done|by right].
Qed.

Lemma connected_ok servers : pool_ok (connect_servers dial now servers).
Proof.
  unfold connect_servers. assert (H0 : pool_ok (NewConnectionPool (DefaultTransportConfig EmptyString "leader"))) by (intros id c; cbn; by rewrite lookup_empty).
  revert H0. generalize (NewConnectionPool (DefaultTransportConfig EmptyString "leader")). induction servers as [|s servers IH]; intros pool Hp; [done|]. cbn [fold_left]. apply IH, AddPeer_ok, Hp.
Qed.

Context (fails : string -> option rpc_error).

Definition result_of (id : string) : @BroadcastResult AppendResponse :=
  match fails id with Some err => mkBroadcastResult _ id None (Some err) | None => mkBroadcastResult _ id (Some (mkAppendResponse 5 true id)) None end.

Lemma Broadcast_results pool : pool_ok pool -> Broadcast (range_keys (cp_peers pool)) (fun c =>
    match fails (pc_peerID c) with Some err => (None, Some err) | None => (Some (Placeholder_AppendEntries (pc_peerID c) broadcast_request).1, None) end) pool =
  map result_of (range_keys (cp_peers pool)).
Proof.
  intros Hp. unfold Broadcast, GetAllPeers. assert (Hall : Forall (fun k => is_Some (cp_peers pool !! k)) (range_keys (cp_peers pool))) by (apply Forall_forall; intros k; by rewrite range_keys_in).
  induction Hall as [|k ks [c Hc] _ IH]; [done|]. cbn [omap list_omap map]. rewrite Hc. cbn [map]. rewrite IH (Hp _ _ Hc). f_equal. unfold result_of. by destruct (fails k).
Qed.

Definition acked (ids : list string) : Z := zlen (List.filter (fun id => match fails id with None => true | Some _ => false end) ids).

Notation quorum_line := "  QUORUM REACHED at %v! Entry %d is COMMITTED".

Definition answers (id : string) : Z := match fails id with None => 1 | Some _ => 0 end.

Lemma acked_cons id ids : acked (id :: ids) = answers id + acked ids.
Proof. unfold acked, answers. cbn [List.filter]. destruct (fails id); [lia|]. rewrite zlen_cons. lia. Qed.

(** The quorum is announced once the acknowledgements are enough. *)
Lemma count_ack_step needed id out acks : shows quorum_line out = (needed <=? acks) -> exists out',
  count_ack needed 10 (out, acks, needed <=? acks) (result_of id) = Some (out', acks + answers id, needed <=? acks + answers id) /\ shows quorum_line out' = (needed <=? acks + answers id).
Proof.
  intros Hq. unfold count_ack, result_of, answers. destruct (fails id) as [err|]; cbn [br_Err br_Response br_PeerID mbind option_bind ap_Success].
  - rewrite Z.add_0_r. eexists. split; [done|]. rewrite shows_app Hq. by rewrite orb_false_r.
  - destruct (Z.leb_spec needed acks) as [H1|H1]; cbn [negb andb].
    + assert (E : (needed <=? acks + 1) = true) by (apply Z.leb_le; lia). rewrite E. eexists. split; [done|]. by rewrite shows_app Hq.
    + destruct (needed <=? acks + 1) eqn:E; (eexists; split; [done|]); rewrite !shows_app Hq; done.
Qed.

Lemma count_acks needed ids : forall out acks, shows quorum_line out = (needed <=? acks) -> exists out',
  for_each (fun r s => count_ack needed 10 s r) (map result_of ids) (out, acks, needed <=? acks) = Some (out', acks + acked ids, needed <=? acks + acked ids) /\
  shows quorum_line out' = (needed <=? acks + acked ids).
Proof.
  induction ids as [|id ids IH]; intros out acks Hq; [exists out; unfold acked; by rewrite zlen_nil Z.add_0_r|]. cbn [map for_each].
  destruct (count_ack_step needed id out acks Hq) as (out1 & -> & H1). cbn [mbind option_bind]. destruct (IH _ _ H1) as (out' & -> & H').
  exists out'. by rewrite acked_cons Z.add_assoc.
Qed.

Definition followers : list (string * GrpcServer) := start_servers listen "follower-" 4.
Definition follower_ids : list string := ["follower-1"; "follower-2"; "follower-3"; "follower-4"].

Lemma follower_keys : followers.*1 = follower_ids.
Proof. reflexivity. Qed.

Lemma followers_distinct : NoDup followers.*1.
Proof. rewrite follower_keys. by apply (bool_decide_unpack (NoDup follower_ids)). Qed.

Context (arrive : list (@BroadcastResult AppendResponse) -> list (@BroadcastResult AppendResponse)) (arrive_all : forall l, arrive l ≡ₚ l).

(** A follower that could not be connected is waited for forever. *)
Theorem broadcast_demo_hangs s : s ∈ followers -> reachable s = false -> demoConcurrentBroadcast listen dial now fails arrive = None.
Proof using arrive_all.
  intros Hs Hr. unfold demoConcurrentBroadcast. fold followers. rewrite Broadcast_results; [|apply connected_ok].
  set (results := arrive _). enough (Hlt : zlen results < zlen followers) by (rewrite (proj2 (Z.ltb_lt _ _)); done).
  unfold results, zlen. rewrite (Permutation_length (arrive_all _)) length_map (Permutation_length (connected_keys followers followers_distinct)) length_fmap.
  apply Nat2Z.inj_lt. clear -Hs Hr. induction followers as [|x l IH]; [set_solver|]. cbn. pose proof (List.filter_length_le reachable l). apply elem_of_cons in Hs as [->|Hs]; [rewrite Hr; lia|].
  specialize (IH Hs). destruct (reachable x); cbn; lia.
Qed.

Lemma acked_perm l k : l ≡ₚ k -> acked l = acked k.
Proof. unfold acked, zlen. intros Hp. f_equal. induction Hp; cbn; repeat destruct (fails _); cbn; congruence. Qed.

(** With all followers connected, the end counts the calls that did not fail,
    in whatever order the results arrive, and the quorum is announced exactly
    if they are three or more. *)
Theorem broadcast_demo : Forall (fun s => reachable s = true) followers -> exists lines, demoConcurrentBroadcast listen dial now fails arrive = Some lines /\
  last lines = Some (say "Final: %d/%d acknowledged | Total time: %v" [ShInt (acked follower_ids); ShInt 4]) /\
  shows quorum_line lines = (3 <=? acked follower_ids).
Proof using arrive_all.
  intros Hr. unfold demoConcurrentBroadcast. fold followers. rewrite Broadcast_results; [|apply connected_ok].
  destruct (Permutation_map_inv result_of _ (arrive_all (map result_of (range_keys (cp_peers (connect_servers dial now followers)))))) as (ids & Hids & Hp).
  rewrite Hids. assert (Hk : ids ≡ₚ follower_ids).
  { rewrite -Hp connected_keys; [|apply followers_distinct]. rewrite -follower_keys. f_equiv. clear -Hr. induction Hr as [|x l Hx _ IH]; [done|]. cbn. rewrite Hx. by rewrite IH. }
  change (zlen followers) with 4. assert (Hz : zlen (map result_of ids) = 4) by (unfold zlen; by rewrite length_map (Permutation_length Hk)). rewrite Hz. cbn [Z.ltb Z.compare Pos.compare Pos.compare_cont].
  change (4 / 2 + 1) with 3. destruct (count_acks 3 ids [] 0 eq_refl) as (out & Hout & Hq). change (3 <=? 0) with false in Hout. rewrite Hout. cbn [mbind option_bind Z.add].
  rewrite !(acked_perm _ _ Hk) in Hq |- *. eexists. split; [done|]. split; [by rewrite app_assoc last_snoc|]. rewrite !shows_app Hq. cbn. by rewrite orb_false_r.
Qed.

End broadcast.
