(* ===== verification/DemoAdvanced.v ===== *)
(** * DemoAdvanced: the demonstrations of the advanced features
    (pkg/advanced/demo.go)

    The executor of the query demonstration answers sub-queries from a table of
    entries for each shard.  [Sscanf] stands for the number that fmt.Sscanf
    reads from a value, 0 if there is none.  The readings of the clock and the
    orders of iterations are arguments; delays are left out. *)

From S2P Require Import Prelude GoSort Bytes Float64 Query ChangeFeed Topology RateLimit Demo.

(** ** The executor *)

Section mock.
  Context (Sscanf : list ascii -> float64).

(** One round of the loop over the entries of a shard. *)
Definition mock_entry (q : ShardQuery) (r : ShardResult) (entry : KeyValue) : ShardResult :=
  if negb (sq_StartKey q =?s EmptyString) && (entry.1 <?s sq_StartKey q) then r
  else if negb (sq_EndKey q =?s EmptyString) && (sq_EndKey q <=?s entry.1) then r
  else
    let count := i64 (sr_Count r + 1) in
    match sq_LocalAgg q with
    | AggCount => mkShardResult (sr_ShardID r) (sr_Entries r) count (sr_Sum r) (sr_Min r) (sr_Max r) (sr_Err r)
    | AggSum => mkShardResult (sr_ShardID r) (sr_Entries r) count (fadd (sr_Sum r) (Sscanf entry.2)) (sr_Min r) (sr_Max r) (sr_Err r)
    | AggMin =>
        let val := Sscanf entry.2 in
        let m := if (sr_Count r =? 0) || fltb val (sr_Min r) then val else sr_Min r in
        mkShardResult (sr_ShardID r) (sr_Entries r) count (sr_Sum r) m (sr_Max r) (sr_Err r)
    | AggMax =>
        let val := Sscanf entry.2 in
        let m := if fltb (sr_Max r) val then val else sr_Max r in
        mkShardResult (sr_ShardID r) (sr_Entries r) count (sr_Sum r) (sr_Min r) m (sr_Err r)
    | AggAvg | AggNone => mkShardResult (sr_ShardID r) (sr_Entries r ++ [entry]) count (sr_Sum r) (sr_Min r) (sr_Max r) (sr_Err r)
    end.

Definition mock_ExecuteShard (data : gmap Z (list KeyValue)) (q : ShardQuery) : option ShardResult :=
  Some (fold_left (mock_entry q) (default [] (data !! sq_ShardID q)) (mkShardResult (sq_ShardID q) [] 0 fzero fzero fzero false)).
End mock.

(** ** What it answers *)

(** The test of the loop. *)
Definition mock_in_range (q : ShardQuery) (entry : KeyValue) : bool :=
  negb (negb (sq_StartKey q =?s EmptyString) && (entry.1 <?s sq_StartKey q)) && negb (negb (sq_EndKey q =?s EmptyString) && (sq_EndKey q <=?s entry.1)).

Lemma mock_in_range_key q e : mock_in_range q e = key_in_range (sq_StartKey q) (sq_EndKey q) e.1.
Proof.
  unfold mock_in_range, key_in_range. rewrite negb_andb negb_involutive (str_ltb_leb e.1 (sq_StartKey q)) negb_involutive negb_andb negb_involutive.
  rewrite (str_ltb_leb e.1 (sq_EndKey q)). f_equal. destruct (String.eqb_spec (sq_StartKey q) EmptyString) as [->|_]; [|done]. by destruct e.1.
Qed.

Lemma mock_entry_skip Sscanf q r e : mock_in_range q e = false -> mock_entry Sscanf q r e = r.
Proof. unfold mock_in_range, mock_entry. by destruct (_ && (e.1 <?s _)), (_ && (_ <=?s e.1)). Qed.

Lemma mock_entry_scan Sscanf q r e : sq_LocalAgg q = AggNone -> mock_in_range q e = true ->
  mock_entry Sscanf q r e = mkShardResult (sr_ShardID r) (sr_Entries r ++ [e]) (i64 (sr_Count r + 1)) (sr_Sum r) (sr_Min r) (sr_Max r) (sr_Err r).
Proof. unfold mock_in_range, mock_entry. intros ->. by destruct (_ && (e.1 <?s _)), (_ && (_ <=?s e.1)). Qed.

(** A scan answers the entries of the shard's table that are in its range, in
    the order of the table; neither the filter nor the limit is applied. *)
Lemma mock_scan Sscanf data q : sq_LocalAgg q = AggNone -> exists r, mock_ExecuteShard Sscanf data q = Some r /\ sr_Err r = false /\
  sr_Entries r = matching (default [] (data !! sq_ShardID q)) (sq_StartKey q) (sq_EndKey q) (fun _ _ => true).
Proof.
  intros Hq. unfold mock_ExecuteShard. eexists. split; [done|].
  enough (forall l r, sr_Err (fold_left (mock_entry Sscanf q) l r) = sr_Err r /\
    sr_Entries (fold_left (mock_entry Sscanf q) l r) = sr_Entries r ++ matching l (sq_StartKey q) (sq_EndKey q) (fun _ _ => true)) as H by apply H.
  induction l as [|e l IH]; intros r; [cbn; by rewrite app_nil_r|]. cbn [fold_left matching List.filter]. rewrite -mock_in_range_key andb_true_r.
  destruct (mock_in_range q e) eqn:He.
  - rewrite mock_entry_scan //. destruct (IH (mkShardResult (sr_ShardID r) (sr_Entries r ++ [e]) (i64 (sr_Count r + 1)) (sr_Sum r) (sr_Min r) (sr_Max r) (sr_Err r))) as [-> ->].
    split; [done|]. cbn. by rewrite -app_assoc.
  - rewrite mock_entry_skip //.
Qed.

(** ** The demonstration *)

Definition account_shards : list ShardInfo :=
  [mkShardInfo 0 EmptyString "key:d" "node-1"; mkShardInfo 1 "key:d" "key:m" "node-2";
   mkShardInfo 2 "key:m" "key:t" "node-3"; mkShardInfo 3 "key:t" EmptyString "node-4"].

Definition account_data : gmap Z (list KeyValue) :=
  list_to_map [
    (0, [("key:alice", bytes_of_string "100"); ("key:bob", bytes_of_string "200"); ("key:charlie", bytes_of_string "150")]);
    (1, [("key:dave", bytes_of_string "300"); ("key:eve", bytes_of_string "250"); ("key:frank", bytes_of_string "175")]);
    (2, [("key:mallory", bytes_of_string "500"); ("key:nancy", bytes_of_string "125")]);
    (3, [("key:oscar", bytes_of_string "400"); ("key:peggy", bytes_of_string "350")])].

Definition demo_query (start fin : string) (agg : AggregationType) : Query :=
  mkQuery (match agg with AggNone => QueryScan | _ => QueryAggregate end) EmptyString start fin (fun _ _ => true) agg 0.

(** The results of the shards, in the order of the plan. *)
Definition demo_results (Sscanf : list ascii -> float64) (q : Query) : list ShardResult :=
  map (@run_shard (mock_ExecuteShard Sscanf account_data)) (ep_ShardPlans (Plan account_shards q)).

(** The count of all accounts is 8 of the 10 in the tables: the last table
    holds two keys outside the range of its shard. *)
Example demo_count_misses_two {SS : SortSlice} Sscanf : let q := demo_query EmptyString EmptyString AggCount in
  option_map qr_Count (Execute account_shards false (demo_results Sscanf q) q) = Some 8 /\ sum_list_with (fun p => length p.2) (map_to_list account_data) = 10%nat.
Proof. split; vm_compute; reflexivity. Qed.

(** The range from key:d to key:n is answered by two of the four shards. *)
Example demo_range_pruned : map sq_ShardID (ep_ShardPlans (Plan account_shards (demo_query "key:d" "key:n" AggNone))) = [1; 2].
Proof. vm_compute. reflexivity. Qed.

(** ** Queries *)

Section queries.
  Context {SS : SortSlice} (Sscanf : bytes -> float64).

(** The answer of the cluster; no query of the demonstration times out. *)
Definition demo_execute (arrive : list ShardResult -> list ShardResult) (q : Query) : option QueryResult :=
  Execute account_shards false (arrive (demo_results Sscanf q)) q.

(** [arrive i] is the order in which the results of the [i]-th query arrive.
    How long a query takes is not shown. *)
Definition demoDistributedQuery (arrive : nat -> list ShardResult -> list ShardResult) : option (list printed) :=
  let scan := match demo_execute (arrive 0%nat) (demo_query EmptyString EmptyString AggNone) with
    | None => [say "  Error: %v" []]
    | Some result =>
        [say "  Found %d entries in %v" [ShInt (zlen (qr_Entries result))]] ++
        map (fun e => say "  %s = %s" [ShStr e.1; ShBytes e.2]) (take (Nat.min 3 (length (qr_Entries result))) (qr_Entries result)) ++
        say_if (3 <? zlen (qr_Entries result)) (say "  ... and %d more" [ShInt (zlen (qr_Entries result) - 3)])
    end in
  let count := match demo_execute (arrive 1%nat) (demo_query EmptyString EmptyString AggCount) with
    | None => [say "  Error: %v" []]
    | Some result => [say "  COUNT = %d (in %v)" [ShInt (qr_Count result)]]
    end in
  let sum := match demo_execute (arrive 2%nat) (demo_query EmptyString EmptyString AggSum) with
    | None => [say "  Error: %v" []]
    | Some result => [say "  SUM = %.0f (in %v)" [ShFloat (qr_Sum result)]; say "  Coordinator received %d partial results and summed them" [ShInt (zlen account_shards)]]
    end in
  let plan := Plan account_shards (demo_query "key:d" "key:n" AggNone) in
  let pruned := say "  Shard pruning: %d of %d shards needed (skipped %d)"
    [ShInt (zlen (ep_ShardPlans plan)); ShInt (zlen account_shards); ShInt (zlen account_shards - zlen (ep_ShardPlans plan))] in
  result ← demo_execute (arrive 3%nat) (demo_query "key:d" "key:n" AggNone);
  Some (scan ++ count ++ sum ++ [pruned; say "  Found %d entries in %v" [ShInt (zlen (qr_Entries result))]]).

End queries.

(** ** Change data capture *)

Definition cdc_config : ChangeFeedConfig :=
  let config := DefaultChangeFeedConfig "feed-1" in
  mkChangeFeedConfig (fc_ID config) "user:" (fc_StartAt config) (fc_BatchSize config) (fc_FlushInterval config).

Definition cdc_writes : list (string * string) :=
  [("user:alice", "1000"); ("user:bob", "500"); ("product:laptop", "999"); ("user:charlie", "750"); ("user:alice", "900")].

(** [now i] is the clock at the [i]-th write. *)
Definition cdc_entries (now : nat -> Z) : list WALEntry :=
  imap (fun i w => mkWALEntry (Z.of_nat i + 1) (now i) w.1 (Some (bytes_of_string w.2)) false 0 "node-1") cdc_writes.

(** [inputs] is what the loop of the feed receives: the entries, with the ticks
    between them, and the end.  The channel of the sink is read until the
    demonstration times out, long after the feed has stopped. *)
Definition demoCDC (inputs : list feed_input) : option (list printed) :=
  feed ← CF_Start (NewChangeFeed cdc_config (NewChannelSink 100));
  let feed := run feed (Some inputs) in
  let events := cs_ch (cf_sink feed) in
  let stats := CF_Stats feed in
  Some (map (fun event => say "  [%s] key=%s value=%s" [ShStr (ChangeOp_String (ev_Op event)); ShStr (ev_Key event); ShBytes (default [] (ev_AfterValue event))]) events ++
        [say "CDC Stats: %+v" [ShStr (fs_FeedID stats); ShInt (fs_EventsDelivered stats); ShInt (fs_LastEventID stats); ShBool (fs_IsRunning stats)];
         say "Delivered: %d events (2 filtered: product: key)" [ShInt (zlen events)]]).

(** ** Regions *)

Section regions.
  Context {SS : SortSlice} `{RangeOrder}.

Definition demo_regions : list Region :=
  [mkRegion "us-east" "US East" "us-east-1" ["he-0"; "he-1"; "he-2"] (list_to_map [("eu-west", 87 * ms); ("ap-syd", 168 * ms)]);
   mkRegion "eu-west" "Europe West" "eu-west-1" ["hw-0"; "hw-1"; "hw-2"] (list_to_map [("us-east", 87 * ms); ("ap-syd", 253 * ms)]);
   mkRegion "ap-syd" "Asia Pacific (Sydney)" "ap-southeast-2" ["ha-0"; "ha-1"; "ha-2"] (list_to_map [("us-east", 168 * ms); ("eu-west", 253 * ms)])].

Definition visit_regions (t : RegionTopology) : list Region := range_values (rt_regions t).

Definition demoMultiRegion : list printed :=
  let topology := fold_left (fun t region => AddRegion region t) demo_regions (NewRegionTopology "us-east") in
  let router := NewFollowerReadRouter topology (200 * ms) in
  map (fun region => if rg_ID region =?s "us-east" then say "  ✦ %-8s [LOCAL]  ← %d nodes" [ShStr (rg_ID region); ShInt (zlen (rg_Nodes region))]
                     else say "  → %-8s [REMOTE] ← %d nodes" [ShStr (rg_ID region); ShInt (zlen (rg_Nodes region))])
    (AllRegionsByLatency (visit_regions topology) topology) ++
  map (fun level =>
    let '(regionID, latency, staleness) := RouteRead (visit_regions topology) level router in
    say "  %-10s → %-12s latency=%-8v staleness=%v" [ShStr level; ShStr regionID; ShInt (Duration_Round latency ms); ShInt (Duration_Round staleness ms)])
    ["eventual"; "bounded"; "strong"].

End regions.

(** ** Rate limits *)

(** [n] requests of a cost: allowed, rejected and the bucket. *)
Definition ask (now : nat -> Z) (cost : float64) (first n : nat) (tb : TokenBucket) : Z * Z * TokenBucket :=
  fold_left (fun '(allowed, rejected, tb) i =>
    let '(ok, tb) := TB_Allow (now i) cost tb in
    if (ok : bool) then (allowed + 1, rejected, tb) else (allowed, rejected + 1, tb)) (seq first n) (0, 0, tb).

(** The text of [TokenBucketStats]. *)
Definition TokenBucketStats_String (s : TokenBucketStats) : printed :=
  let total := i64 (ts_Allowed s + ts_Rejected s) in
  let rejectRate := if 0 <? total then fmul (fdiv (f64 (ts_Rejected s)) (f64 total)) (f64 100) else fzero in
  say "TokenBucket{capacity=%.0f, rate=%.0f/s, tokens=%.1f, rejected=%.1f%%}" [ShFloat (ts_Capacity s); ShFloat (ts_Rate s); ShFloat (ts_CurrentTokens s); ShFloat rejectRate].

(** The clock is read once for each bucket and each request. *)
Definition demoTokenBucket (now : nat -> Z) : list printed :=
  let tb := NewTokenBucket (now 0%nat) (f64 20) (f64 100) in
  let '(allowed, rejected, tb) := ask now (f64 1) 1 100 tb in
  let tb2 := NewTokenBucket (now 101%nat) (f64 20) (f64 100) in
  let '(allowed2, rejected2, tb2) := ask now (f64 1) 102 200 tb2 in
  let tb3 := NewTokenBucket (now 302%nat) (f64 100) (f64 100) in
  let tb3 := (TB_Allow (now 303%nat) (f64 50) tb3).2 in
  let '(putAllowed, _, tb3) := ask now (f64 1) 304 20 tb3 in
  let '(scanAllowed, _, tb3) := ask now (f64 10) 324 5 tb3 in
  [say "  Result: %d allowed, %d rejected" [ShInt allowed; ShInt rejected];
   say "  Result: %d allowed, %d rejected" [ShInt allowed2; ShInt rejected2];
   say "  PUTs allowed: %d/20" [ShInt putAllowed];
   say "  SCANs allowed: %d/5" [ShInt scanAllowed];
   TokenBucketStats_String (TB_Stats tb)].

(** A node under load: the clock is read for each turn of the loop and each
    request; [None] when the readings end before the 100 milliseconds. *)
Fixpoint node_load (start : Z) (readings : list (Z * Z)) (allowed rejected : Z) (d : DistributedRateLimiter) : option (Z * Z * DistributedRateLimiter) :=
  match readings with
  | [] => None
  | (turn, request) :: readings =>
      if turn - start <? 100 * ms then
        let '(ok, d) := DR_Allow request d in
        if (ok : bool) then node_load start readings (allowed + 1) rejected d else node_load start readings allowed (rejected + 1) d
      else Some (allowed, rejected, d)
  end.

(** [starts] are the readings when the limiters and the loops start; the map of
    results is visited in the order of [range]. *)
Definition demoDistributedRateLimit `{RangeOrder} (created started : Z) (readings : string -> list (Z * Z)) : option (list printed) :=
  let globalLimit := f64 1000 in
  let clusterSize := 3 in
  nodes ← mapM (fun id => '(allowed, rejected, d) ← node_load started (readings id) 0 0 (NewDistributedRateLimiter created id globalLimit clusterSize); Some (id, (allowed, rejected, d)))
    ["node-1"; "node-2"; "node-3"];
  let results : gmap string (Z * Z * DistributedRateLimiter) := list_to_map nodes in
  let counts := omap (fun id => (fun r => (id, r.1)) <$> results !! id) (range_keys results) in
  let totalAllowed := fold_left (fun acc x => i64 (acc + x.2.1)) counts 0 in
  let totalRejected := fold_left (fun acc x => i64 (acc + x.2.2)) counts 0 in
  let adjusted id := (fun r => ds_LocalLimit (DR_Stats (UpdatePeerRate map_to_list "node-1" (f64 500) r.2))) <$> results !! id in
  limit2 ← adjusted "node-2";
  limit3 ← adjusted "node-3";
  Some ([say "Global limit: %.0f req/sec across %d nodes" [ShFloat globalLimit; ShInt clusterSize];
         say "Each node gets: %.0f req/sec initially" [ShFloat (fdiv globalLimit (f64 clusterSize))]] ++
        map (fun x => say "  %s: %d allowed, %d rejected" [ShStr x.1; ShInt x.2.1; ShInt x.2.2]) counts ++
        [say "  Total: %d allowed, %d rejected" [ShInt totalAllowed; ShInt totalRejected];
         say "  node-2 local limit adjusted to: %.0f req/sec" [ShFloat limit2];
         say "  node-3 local limit adjusted to: %.0f req/sec" [ShFloat limit3]]).

(** ** The circuit breaker *)

(** A request that succeeds if it is allowed. *)
Definition healthy_request (now : Z) (cb : CircuitBreaker) : CircuitBreaker :=
  let '(allowed, cb) := CB_Allow now cb in if (allowed : bool) then CB_Success cb else cb.

(** Every second request fails. *)
Definition failing_request (now : nat -> Z) (i : nat) (cb : CircuitBreaker) : CircuitBreaker :=
  let '(allowed, cb) := CB_Allow (now (2 * i)%nat) cb in
  if (allowed : bool) then if Nat.even i then CB_Failure (now (2 * i + 1)%nat) cb else CB_Success cb else cb.

(** The clock has readings for the three phases. *)
Definition demoCircuitBreaker (zeroTime : Z) (normal failing open : nat -> Z) : list printed :=
  let cb := NewCircuitBreaker zeroTime "storage-service" in
  let line1 := say "Initial state: %s" [ShStr (CircuitState_String (State cb))] in
  let cb := fold_left (fun cb i => healthy_request (normal i) cb) (seq 0 15) cb in
  let line2 := say "State: %s" [ShStr (CircuitState_String (State cb))] in
  let cb := fold_left (fun cb i => failing_request failing i cb) (seq 0 20) cb in
  let line3 := say "State: %s" [ShStr (CircuitState_String (State cb))] in
  let '(rejected, cb) := fold_left (fun '(rejected, cb) i => let '(allowed, cb) := CB_Allow (open i) cb in (if (allowed : bool) then rejected else rejected + 1, cb)) (seq 0 10) (0, cb) in
  [line1; line2; line3; say "  Rejected %d/10 requests immediately" [ShInt rejected]; say "  State: %s" [ShStr (CircuitState_String (State cb))]].

(** ** All together *)

Record ShopRequest := mkShopRequest {
  sh_clientID : string;
  sh_operation : string;
  sh_key : string;
  sh_region : string;
}.

Definition shop_requests : list ShopRequest :=
  [mkShopRequest "client-1" "GET" "product:laptop" "us-east"; mkShopRequest "client-1" "GET" "product:phone" "us-east";
   mkShopRequest "client-2" "PUT" "cart:user-42" "eu-west"; mkShopRequest "client-1" "GET" "inventory:laptop" "us-east";
   mkShopRequest "client-3" "SCAN" "products:" "ap-syd"; mkShopRequest "client-1" "PUT" "order:1234" "us-east"].

(** The limiter of a client is created at its first request. *)
Definition getOrCreateLimiter (now : Z) (clientID : string) (limiters : gmap string TokenBucket) : TokenBucket :=
  match limiters !! clientID with Some lb => lb | None => NewTokenBucket now (f64 10) (f64 100) end.

(** Three readings of the clock for a request: the new limiter, its check and
    the breaker. *)
Definition shop_request (now : nat -> Z) (s : list printed * gmap string TokenBucket * CircuitBreaker) (x : nat * ShopRequest) : list printed * gmap string TokenBucket * CircuitBreaker :=
  let '(out, limiters, cb) := s in
  let '(i, req) := x in
  let limiter := getOrCreateLimiter (now (3 * i)%nat) (sh_clientID req) limiters in
  let '(ok, limiter) := TB_Allow (now (3 * i + 1)%nat) (f64 1) limiter in
  let limiters := <[sh_clientID req := limiter]> limiters in
  if negb ok then (out ++ [say "  ❌ [%s] %s %s: RATE LIMITED" [ShStr (sh_clientID req); ShStr (sh_operation req); ShStr (sh_key req)]], limiters, cb)
  else
    let '(ok, cb) := CB_Allow (now (3 * i + 2)%nat) cb in
    if negb ok then (out ++ [say "  ❌ [%s] %s %s: CIRCUIT OPEN (storage unavailable)" [ShStr (sh_clientID req); ShStr (sh_operation req); ShStr (sh_key req)]], limiters, cb)
    else (out ++ [say "  ✅ [%s] %s %s (from %s)" [ShStr (sh_clientID req); ShStr (sh_operation req); ShStr (sh_key req); ShStr (sh_region req)]], limiters, CB_Success cb).

Definition demoIntegration (zeroTime : Z) (now : nat -> Z) : list printed :=
  (fold_left (shop_request now) (imap pair shop_requests) ([], ∅, NewCircuitBreaker zeroTime "storage")).1.1.

(** ** What is shown *)

(** The half of the requests that fail never bring the share of failures among
    all requests to a half: the breaker stays closed in all phases and rejects
    nothing, whatever the clock says. *)
Theorem breaker_demo_never_opens zeroTime normal failing open : demoCircuitBreaker zeroTime normal failing open =
  [say "Initial state: %s" [ShStr "CLOSED"]; say "State: %s" [ShStr "CLOSED"]; say "State: %s" [ShStr "CLOSED"];
   say "  Rejected %d/10 requests immediately" [ShInt 0]; say "  State: %s" [ShStr "CLOSED"]].
Proof. vm_compute. reflexivity. Qed.

(** With the requests at their times and the bursts in an instant. *)
Example bucket_demo : take 4 (demoTokenBucket (fun i => if (i <? 101)%nat then Z.of_nat i * (10 * ms) else 2 * sec)) =
  [say "  Result: %d allowed, %d rejected" [ShInt 100; ShInt 0]; say "  Result: %d allowed, %d rejected" [ShInt 20; ShInt 180];
   say "  PUTs allowed: %d/20" [ShInt 20]; say "  SCANs allowed: %d/5" [ShInt 3]].
Proof. vm_compute. reflexivity. Qed.

Lemma ask_total now cost first n tb : let '(allowed, rejected, _) := ask now cost first n tb in allowed + rejected = Z.of_nat n /\ 0 <= allowed /\ 0 <= rejected.
Proof.
  unfold ask. assert (K : forall l a r tb, 0 <= a -> 0 <= r -> let '(a', r', _) := fold_left (fun '(allowed, rejected, tb) i =>
    let '(ok, tb) := TB_Allow (now i) cost tb in if (ok : bool) then (allowed + 1, rejected, tb) else (allowed, rejected + 1, tb)) l (a, r, tb) in
    a' + r' = a + r + Z.of_nat (length l) /\ 0 <= a' /\ 0 <= r').
  { induction l as [|i l IH]; intros a r tb0 Ha Hr; cbn [fold_left length]; [lia|]. destruct (TB_Allow (now i) cost tb0) as [[|] tb1].
    - specialize (IH (a + 1) r tb1). destruct (fold_left _ l _) as [[a' r'] tb']. lia.
    - specialize (IH a (r + 1) tb1). destruct (fold_left _ l _) as [[a' r'] tb']. lia. }
  specialize (K (seq first n) 0 0 tb). rewrite length_seq in K. destruct (fold_left _ _ _) as [[a r] tb']. lia.
Qed.

Example integration_demo : map p_format (demoIntegration 0 (fun i => sec + Z.of_nat (Nat.div i 3) * (5 * ms))) = replicate 6 "  ✅ [%s] %s %s (from %s)".
Proof. vm_compute. reflexivity. Qed.

Definition demo_topology : RegionTopology := fold_left (fun t region => AddRegion region t) demo_regions (NewRegionTopology "us-east").

Lemma regions_by_latency {SS : SortSlice} `{RangeOrder} : AllRegionsByLatency (visit_regions demo_topology) demo_topology = demo_regions.
Proof.
  unfold AllRegionsByLatency. destruct (rt_regions demo_topology !! rt_localID demo_topology) as [us|] eqn:Eus; [|by vm_compute in Eus].
  set (with_latency := fun region => (region, latency_of demo_topology us region)).
  rewrite (sort_Slice_unique _ _ (map with_latency demo_regions)); [by rewrite map_map map_id|apply (strict_weak_Z snd)| |].
  - vm_compute in Eus. injection Eus as <-. repeat constructor.
  - apply fmap_Permutation. unfold visit_regions. rewrite range_values_perm.
    change (rt_regions demo_topology) with (list_to_map (map (fun r => (rg_ID r, r)) (rev demo_regions)) : gmap string Region).
    rewrite map_to_list_to_map; [|by apply (bool_decide_unpack (NoDup ["ap-syd"; "eu-west"; "us-east"]))]. change (rev demo_regions ≡ₚ demo_regions). symmetry. apply Permutation_rev.
Qed.

(** The regions are listed from the nearest, for every sort and every order of
    the map, and reads go to the local region unless they are strong. *)
Theorem region_demo {SS : SortSlice} `{RangeOrder} : demoMultiRegion =
  [say "  ✦ %-8s [LOCAL]  ← %d nodes" [ShStr "us-east"; ShInt 3]; say "  → %-8s [REMOTE] ← %d nodes" [ShStr "eu-west"; ShInt 3];
   say "  → %-8s [REMOTE] ← %d nodes" [ShStr "ap-syd"; ShInt 3];
   say "  %-10s → %-12s latency=%-8v staleness=%v" [ShStr "eventual"; ShStr "us-east"; ShInt ms; ShInt (200 * ms)];
   say "  %-10s → %-12s latency=%-8v staleness=%v" [ShStr "bounded"; ShStr "us-east"; ShInt ms; ShInt (50 * ms)];
   say "  %-10s → %-12s latency=%-8v staleness=%v" [ShStr "strong"; ShStr "global-leader"; ShInt (100 * ms); ShInt 0]].
Proof.
  unfold demoMultiRegion. fold demo_topology. rewrite regions_by_latency. unfold RouteRead. cbn [map String.eqb Ascii.eqb Bool.eqb].
  unfold fr_topology, NewFollowerReadRouter. rewrite regions_by_latency. reflexivity.
Qed.

(** *** The feed *)

Lemma publish_fits events : forall s, zlen (cs_ch s) + zlen events <= cs_cap s -> ChannelSink_Publish s events = (mkChannelSink (cs_cap s) (cs_ch s ++ events), true).
Proof.
  induction events as [|e events IH]; intros [cap ch] Hle; cbn [ChannelSink_Publish cs_ch cs_cap] in *; [by rewrite app_nil_r|]. rewrite zlen_cons in Hle. pose proof (zlen_nonneg events).
  rewrite (proj2 (Z.ltb_lt _ _)); [|lia]. rewrite IH; cbn [cs_ch cs_cap]; [by rewrite -app_assoc|]. rewrite zlen_app. change (zlen [e]) with 1. lia.
Qed.

Definition room (f : ChangeFeed ChannelSink) : Z := cs_cap (cf_sink f) - zlen (cs_ch (cf_sink f)) - zlen (cf_batch f).
Definition waiting (f : ChangeFeed ChannelSink) : list ChangeEvent := cs_ch (cf_sink f) ++ cf_batch f.

Lemma flush_fits f : batch_ok f -> 0 <= room f -> cs_ch (cf_sink (flush f)) = waiting f /\ cf_batch (flush f) = [] /\
  cf_lastEventID (flush f) = cf_lastEventID f /\ cf_config (flush f) = cf_config f /\ room (flush f) = room f.
Proof.
  intros Hb Hr. unfold flush, waiting, room in *. destruct (last (cf_batch f)) as [e|] eqn:El.
  - cbn [Publish channel_sink]. rewrite publish_fits; [|lia]. cbn. rewrite (Hb _ El) zlen_app zlen_nil. split_and!; [done..|lia].
  - apply last_None in El. rewrite El app_nil_r. done.
Qed.

Lemma on_entry_fits f e : batch_ok f -> 1 <= room f -> let f' := on_entry f e in
  waiting f' = waiting f ++ events_from (cf_config f) (cf_lastEventID f) [e] /\ batch_ok f' /\ cf_config f' = cf_config f /\
  cf_lastEventID f' = (if passes (cf_config f) e then u64 (cf_lastEventID f + 1) else cf_lastEventID f) /\ room f - 1 <= room f'.
Proof.
  intros Hb Hr f'. subst f'. unfold on_entry. cbn [events_from]. destruct (passes (cf_config f) e); [|rewrite app_nil_r; split_and!; [done..|lia]]. cbv zeta.
  set (g := mkChangeFeed _ _ _ _ _ _). assert (Hg : batch_ok g). { intros e' He'. cbn in *. rewrite last_snoc in He'. simplify_eq. apply build_event_id. }
  assert (Hrg : room g = room f - 1) by (unfold room; cbn [g cf_sink cf_batch]; rewrite zlen_app; change (zlen [_]) with 1; lia).
  assert (Hw : waiting g = waiting f ++ [build_event (fc_StartAt (cf_config f)) (u64 (cf_lastEventID f + 1)) e]) by (unfold waiting; cbn; by rewrite app_assoc).
  destruct (_ <=? _); [|split_and!; [done..|lia]]. destruct (flush_fits g Hg ltac:(lia)) as (H1 & H2 & H3 & H4 & H5). split_and!; [|intros ? He'; by rewrite H2 in He'|by rewrite H4|by rewrite H3|lia].
  unfold waiting at 1. by rewrite H1 H2 app_nil_r.
Qed.

(** The loop stops. *)
Definition stops (inputs : list feed_input) : bool := existsb (fun i => match i with InDone | InClosed => true | _ => false end) inputs.

Lemma feed_loop_fits inputs : forall f, batch_ok f -> zlen (entries_of inputs) <= room f -> stops inputs = true ->
  cs_ch (cf_sink (feed_loop f inputs)) = waiting f ++ events_from (cf_config f) (cf_lastEventID f) (entries_of inputs).
Proof.
  induction inputs as [|i inputs IH]; intros f Hb Hr Hs; [done|]. pose proof (zlen_nonneg (entries_of (i :: inputs))). destruct (flush_fits f Hb ltac:(lia)) as (F1 & F2 & F3 & F4 & F5).
  destruct i as [|e| |]; cbn [feed_loop entries_of events_from stopped cf_sink] in *.
  - by rewrite F1 app_nil_r.
  - rewrite zlen_cons in Hr. pose proof (zlen_nonneg (entries_of inputs)). destruct (on_entry_fits f e Hb ltac:(lia)) as (H1 & H2 & H3 & H4 & H5). rewrite IH; [|done|lia|done].
    rewrite H1 H3 H4 -app_assoc. f_equal. cbn [events_from]. by destruct (passes (cf_config f) e).
  - by rewrite F1 app_nil_r.
  - rewrite IH; [|intros ? He'; by rewrite F2 in He'|lia|done]. unfold waiting at 1. by rewrite F1 F2 F3 F4 app_nil_r.
Qed.

(** The four writes below the prefix are delivered once and in order, however
    the ticks fall: one write is filtered, not two as the last line says, and
    the second write to a key is an insert like the first. *)
Theorem cdc_demo now inputs : entries_of inputs = cdc_entries now -> stops inputs = true -> exists stats, demoCDC inputs = Some
  [say "  [%s] key=%s value=%s" [ShStr "INSERT"; ShStr "user:alice"; ShStr "1000"]; say "  [%s] key=%s value=%s" [ShStr "INSERT"; ShStr "user:bob"; ShStr "500"];
   say "  [%s] key=%s value=%s" [ShStr "INSERT"; ShStr "user:charlie"; ShStr "750"]; say "  [%s] key=%s value=%s" [ShStr "INSERT"; ShStr "user:alice"; ShStr "900"];
   say "CDC Stats: %+v" stats; say "Delivered: %d events (2 filtered: product: key)" [ShInt 4]].
Proof.
  intros He Hs. unfold demoCDC, CF_Start, NewChangeFeed. cbn [cf_running mbind option_bind run]. set (f := mkChangeFeed _ _ _ _ _ _).
  rewrite (feed_loop_fits inputs f); [|done|rewrite He; by vm_compute|done]. rewrite He. eexists. reflexivity.
Qed.

Lemma cdc_demo_witness : exists stats, demoCDC (InTick :: map InEntry (cdc_entries (fun _ => 5)) ++ [InTick; InDone]) = Some
  [say "  [%s] key=%s value=%s" [ShStr "INSERT"; ShStr "user:alice"; ShStr "1000"]; say "  [%s] key=%s value=%s" [ShStr "INSERT"; ShStr "user:bob"; ShStr "500"];
   say "  [%s] key=%s value=%s" [ShStr "INSERT"; ShStr "user:charlie"; ShStr "750"]; say "  [%s] key=%s value=%s" [ShStr "INSERT"; ShStr "user:alice"; ShStr "900"];
   say "CDC Stats: %+v" stats; say "Delivered: %d events (2 filtered: product: key)" [ShInt 4]].
Proof. apply (cdc_demo (fun _ => 5)); reflexivity. Defined.

(** *** The queries *)

Section query_shown.
  Context {SS : SortSlice} (Sscanf : bytes -> float64).

Lemma arrived_good arrived q : arrived ≡ₚ demo_results Sscanf q -> good arrived ≡ₚ demo_results Sscanf q.
Proof.
  intros Hp. unfold good. rewrite Hp. assert (Hall : Forall (fun r => sr_Err r = false) (demo_results Sscanf q)).
  { apply Forall_fmap, Forall_forall. intros sq _. cbn. unfold run_shard, ExecuteShard, mock_ExecuteShard.
    enough (K : forall l r, sr_Err (fold_left (mock_entry Sscanf sq) l r) = sr_Err r) by apply K.
    induction l as [|e l IH]; intros r; [done|]. cbn [fold_left]. rewrite IH. unfold mock_entry. repeat case_match; done. }
  clear Hp. induction Hall as [|r l Hr _ IH]; [done|]. cbn. rewrite Hr. cbn. by rewrite IH.
Qed.

Lemma scan_sorted arrived q k : arrived ≡ₚ demo_results Sscanf q -> concat (map sr_Entries (demo_results Sscanf q)) = k -> StronglySorted (fun a b => kv_less a b = true) k ->
  sort_Slice kv_less (concat (map sr_Entries (good arrived))) = k.
Proof. intros Hp <- Hk. apply sort_Slice_unique; [apply (strict_weak_str fst)|done|]. apply concat_map_perm. by apply arrived_good. Qed.

Lemma demo_execute_scan arrive start fin k : (forall l, arrive l ≡ₚ l) -> let q := demo_query start fin AggNone in
  ep_ShardPlans (Plan account_shards q) <> [] -> concat (map sr_Entries (demo_results Sscanf q)) = k -> StronglySorted (fun a b => kv_less a b = true) k ->
  qr_Entries <$> demo_execute Sscanf arrive q = Some k.
Proof.
  intros Ha q Hplan Hk Hs. unfold demo_execute, Execute. destruct (ep_ShardPlans (Plan account_shards q)) as [|p ps]; [done|]. cbn [fmap option_fmap option_map qr_Entries]. f_equal.
  unfold merge. cbn [ep_MergeOp Plan q demo_query qu_Aggregation qr_Entries]. rewrite (scan_sorted _ q k); [done|apply Ha|done|done].
Qed.

Lemma demo_execute_count arrive : (forall l, arrive l ≡ₚ l) -> qr_Count <$> demo_execute Sscanf arrive (demo_query EmptyString EmptyString AggCount) = Some 8.
Proof.
  intros Ha. unfold demo_execute, Execute. set (q := demo_query EmptyString EmptyString AggCount).
  assert (Hplan : exists p ps, ep_ShardPlans (Plan account_shards q) = p :: ps) by (do 2 eexists; vm_compute; reflexivity). destruct Hplan as (p & ps & ->).
  cbn [fmap option_fmap option_map qr_Count]. f_equal. unfold merge. change (ep_MergeOp (Plan account_shards q)) with AggCount. cbn [qr_Count].
  pose proof (arrived_good _ _ (Ha (demo_results Sscanf q))) as Hg. rewrite sum_counts_total.
  - rewrite (total_perm _ (map sr_Count (demo_results Sscanf q))); [by vm_compute|by apply fmap_Permutation].
  - rewrite Hg. vm_compute. repeat (apply List.Forall_cons; [done|]). apply List.Forall_nil.
  - rewrite (total_perm _ (map sr_Count (demo_results Sscanf q))); [by vm_compute|by apply fmap_Permutation].
Qed.

Definition first_accounts : list KeyValue := [("key:alice", bytes_of_string "100"); ("key:bob", bytes_of_string "200"); ("key:charlie", bytes_of_string "150")].
Definition middle_accounts : list KeyValue := [("key:dave", bytes_of_string "300"); ("key:eve", bytes_of_string "250"); ("key:frank", bytes_of_string "175"); ("key:mallory", bytes_of_string "500")].
Definition all_accounts : list KeyValue := first_accounts ++ middle_accounts ++ [("key:nancy", bytes_of_string "125")].

Lemma all_accounts_sorted : StronglySorted (fun a b => kv_less a b = true) all_accounts.
Proof. repeat constructor. Qed.

Lemma middle_accounts_sorted : StronglySorted (fun a b => kv_less a b = true) middle_accounts.
Proof. repeat constructor. Qed.

(** Two of the ten accounts are not found, in whatever order the shards
    answer; the range needs two of the four shards. *)
Theorem query_demo arrive : (forall i l, arrive i l ≡ₚ l) -> exists sum, demoDistributedQuery Sscanf arrive = Some
  [say "  Found %d entries in %v" [ShInt 8]; say "  %s = %s" [ShStr "key:alice"; ShStr "100"]; say "  %s = %s" [ShStr "key:bob"; ShStr "200"];
   say "  %s = %s" [ShStr "key:charlie"; ShStr "150"]; say "  ... and %d more" [ShInt 5]; say "  COUNT = %d (in %v)" [ShInt 8];
   say "  SUM = %.0f (in %v)" [ShFloat sum]; say "  Coordinator received %d partial results and summed them" [ShInt 4];
   say "  Shard pruning: %d of %d shards needed (skipped %d)" [ShInt 2; ShInt 4; ShInt 2]; say "  Found %d entries in %v" [ShInt 4]].
Proof.
  intros Ha. unfold demoDistributedQuery.
  pose proof (demo_execute_count (arrive 1%nat) (Ha 1%nat)) as Hc. destruct (demo_execute Sscanf (arrive 1%nat) _) as [rc|]; [|done]. injection Hc as ->.
  assert (Hs : exists rs, demo_execute Sscanf (arrive 2%nat) (demo_query EmptyString EmptyString AggSum) = Some rs) by (by eexists). destruct Hs as [rs ->].
  pose proof (demo_execute_scan (arrive 0%nat) EmptyString EmptyString all_accounts (Ha 0%nat) ltac:(done) ltac:(vm_compute; reflexivity) all_accounts_sorted) as H0.
  pose proof (demo_execute_scan (arrive 3%nat) "key:d" "key:n" middle_accounts (Ha 3%nat) ltac:(done) ltac:(vm_compute; reflexivity) middle_accounts_sorted) as H3.
  destruct (demo_execute Sscanf (arrive 0%nat) _) as [r0|]; [|done]. injection H0 as ->.
  destruct (demo_execute Sscanf (arrive 3%nat) _) as [r3|]; [|done]. injection H3 as H3. cbn [mbind option_bind]. rewrite H3.
  exists (qr_Sum rs). vm_compute. reflexivity.
Qed.

End query_shown.

Lemma node_load_keeps start readings : forall a r d a' r' d', node_load start readings a r d = Some (a', r', d') ->
  dr_globalLimit d' = dr_globalLimit d /\ dr_peerRates d' = dr_peerRates d.
Proof.
  induction readings as [|[turn request] readings IH]; intros a r d a' r' d'; [done|]. cbn [node_load]. destruct (_ <? _); [|by intros [= _ _ <-]].
  unfold DR_Allow. destruct (TB_Allow _ _ _) as [[|] b]; intros H; apply IH in H as [-> ->]; done.
Qed.

Lemma adjusted_limit d : dr_globalLimit d = f64 1000 -> dr_peerRates d = ∅ -> ds_LocalLimit (DR_Stats (UpdatePeerRate map_to_list "node-1" (f64 500) d)) = f64 500.
Proof. intros Hg Hp. unfold UpdatePeerRate, DR_Stats. cbn [ds_LocalLimit dr_localLimit]. rewrite Hg Hp. reflexivity. Qed.

(** A node that gives half of the traffic leaves half of the limit to each of
    the others, whatever traffic they have seen. *)
Theorem rate_demo_adjusts `{RangeOrder} created started readings lines : demoDistributedRateLimit created started readings = Some lines ->
  exists total, drop (length lines - 3) lines = [total; say "  node-2 local limit adjusted to: %.0f req/sec" [ShFloat (f64 500)]; say "  node-3 local limit adjusted to: %.0f req/sec" [ShFloat (f64 500)]].
Proof.
  unfold demoDistributedRateLimit. cbn [mapM].
  destruct (node_load started (readings "node-1") _ _ _) as [[[a1 r1] d1]|]; [|done]. cbn [mbind option_bind].
  destruct (node_load started (readings "node-2") _ _ _) as [[[a2 r2] d2]|] eqn:E2; [|done]. cbn [mbind option_bind].
  destruct (node_load started (readings "node-3") _ _ _) as [[[a3 r3] d3]|] eqn:E3; [|done]. cbn [mbind option_bind mret option_ret].
  apply node_load_keeps in E2 as [G2 P2]. apply node_load_keeps in E3 as [G3 P3]. set (results := list_to_map _ : gmap _ _).
  assert (H2 : results !! "node-2" = Some (a2, r2, d2)) by done. assert (H3 : results !! "node-3" = Some (a3, r3, d3)) by done. rewrite H2 H3. cbn [fmap option_fmap option_map mbind option_bind snd].
  rewrite !adjusted_limit //. intros [= <-]. eexists.
  match goal with |- context [?x :: ?y :: ?l ++ ?k] => change (x :: y :: l ++ k) with ((x :: y :: l) ++ k) end.
  rewrite drop_app_length'; [done|]. rewrite length_app. cbn. lia.
Qed.
