(* ===== verification/NodeLifecycle.v ===== *)
(** * NodeLifecycle: start, background loop, endpoints and stop of a node
    (pkg/server/node.go)

    The fields of a node are nil until [Start] has come to them, so they are
    options here; [assemble] is the running node of Server.v.  What the
    operating system, the join and the gossip answer is in [StartEnv].  A nil
    dereference and a second close of a channel are panics, a receive that
    nothing answers hangs. *)

From S2P Require Import Prelude Bytes Float64 Hlc RaftLog Raft RaftSpec RaftNode Engine ReadPath RateLimit Memberlist Swim ShardMap Metrics Health Tracing Logger Transport MvccGc FaultInjector Server Demo ObservabilityText.

(** ** State *)

Inductive gc_state := GcCreated | GcRunning | GcStopped.

Record Consistency := mkConsistency {
  co_shardMap : ShardMap;
  co_lease : LeaderLease;
  co_readIndex : ReadIndexTracker;
  co_limiter : option TokenBucket;
  co_breaker : CircuitBreaker;
}.

(** [ln_log] has the lines of the logger, [None] before it exists; [ln_closed]
    whether the engine is closed. *)
Record LNode := mkLNode {
  ln_config : ServerConfig;
  ln_log : option (list LogLine);
  ln_observe : option (HermesMetrics * TState * HealthChecker);
  ln_gc : option gc_state;
  ln_engine : option EState;
  ln_closed : bool;
  ln_grpc : option GrpcServer;
  ln_pool : option ConnectionPool;
  ln_members : option MembershipManager;
  ln_raft : option RaftNode;
  ln_raftRunning : bool;
  ln_rest : option Consistency;
  ln_faults : option FaultInjector;
  ln_http : bool;
  ln_loops : bool;
  ln_ready : bool;
  ln_cancelled : bool;
}.

Definition NewHermesNode (config : ServerConfig) : LNode :=
  mkLNode config None None None None false None None None None false None None false false false false.

(** Assignments. *)
Definition ln_say (lines : list LogLine) (n : LNode) : LNode :=
  mkLNode (ln_config n) (Some (default [] (ln_log n) ++ lines)) (ln_observe n) (ln_gc n) (ln_engine n) (ln_closed n) (ln_grpc n) (ln_pool n) (ln_members n) (ln_raft n) (ln_raftRunning n) (ln_rest n) (ln_faults n) (ln_http n) (ln_loops n) (ln_ready n) (ln_cancelled n).
Definition ln_set_observe (o : HermesMetrics * TState * HealthChecker) (n : LNode) : LNode :=
  mkLNode (ln_config n) (ln_log n) (Some o) (ln_gc n) (ln_engine n) (ln_closed n) (ln_grpc n) (ln_pool n) (ln_members n) (ln_raft n) (ln_raftRunning n) (ln_rest n) (ln_faults n) (ln_http n) (ln_loops n) (ln_ready n) (ln_cancelled n).
Definition ln_set_gc (g : gc_state) (n : LNode) : LNode :=
  mkLNode (ln_config n) (ln_log n) (ln_observe n) (Some g) (ln_engine n) (ln_closed n) (ln_grpc n) (ln_pool n) (ln_members n) (ln_raft n) (ln_raftRunning n) (ln_rest n) (ln_faults n) (ln_http n) (ln_loops n) (ln_ready n) (ln_cancelled n).
Definition ln_set_engine (e : EState) (closed : bool) (n : LNode) : LNode :=
  mkLNode (ln_config n) (ln_log n) (ln_observe n) (ln_gc n) (Some e) closed (ln_grpc n) (ln_pool n) (ln_members n) (ln_raft n) (ln_raftRunning n) (ln_rest n) (ln_faults n) (ln_http n) (ln_loops n) (ln_ready n) (ln_cancelled n).
Definition ln_set_grpc (s : GrpcServer) (n : LNode) : LNode :=
  mkLNode (ln_config n) (ln_log n) (ln_observe n) (ln_gc n) (ln_engine n) (ln_closed n) (Some s) (ln_pool n) (ln_members n) (ln_raft n) (ln_raftRunning n) (ln_rest n) (ln_faults n) (ln_http n) (ln_loops n) (ln_ready n) (ln_cancelled n).
Definition ln_set_pool (p : ConnectionPool) (n : LNode) : LNode :=
  mkLNode (ln_config n) (ln_log n) (ln_observe n) (ln_gc n) (ln_engine n) (ln_closed n) (ln_grpc n) (Some p) (ln_members n) (ln_raft n) (ln_raftRunning n) (ln_rest n) (ln_faults n) (ln_http n) (ln_loops n) (ln_ready n) (ln_cancelled n).
Definition ln_set_members (m : MembershipManager) (n : LNode) : LNode :=
  mkLNode (ln_config n) (ln_log n) (ln_observe n) (ln_gc n) (ln_engine n) (ln_closed n) (ln_grpc n) (ln_pool n) (Some m) (ln_raft n) (ln_raftRunning n) (ln_rest n) (ln_faults n) (ln_http n) (ln_loops n) (ln_ready n) (ln_cancelled n).
Definition ln_set_raft (r : RaftNode) (running : bool) (n : LNode) : LNode :=
  mkLNode (ln_config n) (ln_log n) (ln_observe n) (ln_gc n) (ln_engine n) (ln_closed n) (ln_grpc n) (ln_pool n) (ln_members n) (Some r) running (ln_rest n) (ln_faults n) (ln_http n) (ln_loops n) (ln_ready n) (ln_cancelled n).
Definition ln_set_rest (c : Consistency) (n : LNode) : LNode :=
  mkLNode (ln_config n) (ln_log n) (ln_observe n) (ln_gc n) (ln_engine n) (ln_closed n) (ln_grpc n) (ln_pool n) (ln_members n) (ln_raft n) (ln_raftRunning n) (Some c) (ln_faults n) (ln_http n) (ln_loops n) (ln_ready n) (ln_cancelled n).
Definition ln_set_faults (f : FaultInjector) (n : LNode) : LNode :=
  mkLNode (ln_config n) (ln_log n) (ln_observe n) (ln_gc n) (ln_engine n) (ln_closed n) (ln_grpc n) (ln_pool n) (ln_members n) (ln_raft n) (ln_raftRunning n) (ln_rest n) (Some f) (ln_http n) (ln_loops n) (ln_ready n) (ln_cancelled n).
Definition ln_set_life (http loops ready cancelled : bool) (n : LNode) : LNode :=
  mkLNode (ln_config n) (ln_log n) (ln_observe n) (ln_gc n) (ln_engine n) (ln_closed n) (ln_grpc n) (ln_pool n) (ln_members n) (ln_raft n) (ln_raftRunning n) (ln_rest n) (ln_faults n) http loops ready cancelled.

Definition ln_health (check : HealthChecker -> HealthChecker) (n : LNode) : LNode :=
  match ln_observe n with Some (m, t, h) => ln_set_observe (m, t, check h) n | None => n end.

Definition node_logger (n : LNode) : Logger := NewLogger (sc_NodeID (ln_config n)) "node".
Definition ln_info (msg : string) (fs : list fields) (n : LNode) : LNode := ln_say (Logger_Info msg fs (node_logger n)) n.
Definition ln_warn (msg : string) (fs : list fields) (n : LNode) : LNode := ln_say (Logger_Warn msg fs (node_logger n)) n.
Definition ln_error (msg : string) (err : string) (n : LNode) : LNode := ln_say (Logger_Error msg (Some err) [] (node_logger n)) n.

(** ** Start *)

Inductive StartError := ErrDataDir | ErrStorageOpen | ErrTLSSetup (err : tls_error) | ErrGRPCStart (err : server_error).

(** [env_open] is the engine that opens, [env_tls] the error of the
    credentials; [env_gossip] is what the join and the protocol make of the
    members before the Raft node starts, [env_gossip'] until the shard map is
    made. *)
Record StartEnv := mkStartEnv {
  env_now : Z;
  env_zeroTime : Z;
  env_mkdir : bool;
  env_open : option EState;
  env_tls : option tls_error;
  env_listen : string -> option string;
  env_joined : bool;
  env_gossip : MembershipManager -> MembershipManager;
  env_gossip' : MembershipManager -> MembershipManager;
}.

Definition start_observe (env : StartEnv) (n : LNode) : LNode :=
  let config := ln_config n in
  let n := ln_info "starting Hermes node" [list_to_map [("version", FStr "1.0.0"); ("node_id", FStr (sc_NodeID config)); ("listen_addr", FStr (sc_ListenAddr config));
    ("data_dir", FStr (sc_DataDir config)); ("tls_enabled", FBool (sc_TLS config))]] n in
  let n := ln_set_observe (NewHermesMetrics (sc_NodeID config), mkTState (NewTracer (sc_NodeID config) "hermes") [], NewHealthChecker (sc_NodeID config)) n in
  ln_set_gc GcCreated n.

Definition start_storage (env : StartEnv) (n : LNode) : LNode * option StartError :=
  if negb (env_mkdir env) then (n, Some ErrDataDir)
  else
    match env_open env with
    | None => (n, Some ErrStorageOpen)
    | Some engine =>
        let n := ln_set_engine engine false n in
        let n := ln_set_gc GcRunning n in
        let n := ln_health (SetCheck (env_now env) "storage" HealthHealthy (MsgText "storage engine open")) n in
        (ln_info "storage engine ready" [] n, None)
    end.

Definition start_grpc (env : StartEnv) (n : LNode) : LNode * option StartError :=
  let serverCfg := DefaultTransportConfig (sc_ListenAddr (ln_config n)) (sc_NodeID (ln_config n)) in
  match (if sc_TLS (ln_config n) then env_tls env else None) with
  | Some err => (n, Some (ErrTLSSetup err))
  | None =>
      let n := if sc_TLS (ln_config n) then ln_info "mTLS enabled" [] n else n in
      let n := ln_set_grpc (NewServer serverCfg) n in
      match Server_Start (env_listen env) (NewServer serverCfg) with
      | (Some err, server) => (ln_set_grpc server n, Some (ErrGRPCStart err))
      | (None, server) =>
          let n := ln_set_grpc server n in
          let n := ln_set_pool (NewConnectionPool serverCfg) n in
          (ln_info "gRPC server started" [list_to_map [("addr", FStr (Server_Addr server))]] n, None)
      end
  end.

(** The addresses that the SWIM transport dials. *)
Definition resolve (n : LNode) (id : string) : string :=
  match ln_members n with
  | Some mgr => match ML_Get id (mm_memberList mgr) with Some m => mb_Address m | None => id end
  | None => id
  end.

Definition manager_start (m : MembershipManager) : MembershipManager := mkMembershipManager (mm_nodeID m) (mm_memberList m) (mm_events m) true.

(** [n.grpcServer] is set by then; the configuration has its address. *)
Definition start_membership (env : StartEnv) (n : LNode) : option LNode :=
  server ← ln_grpc n;
  let swimCfg := DefaultSWIMConfig (sc_NodeID (ln_config n)) (Server_Addr server) in
  let mgr := NewMembershipManager (env_now env) (cf_NodeID swimCfg) in
  let mgr := manager_start mgr in
  let n := ln_set_members (env_gossip env mgr) n in
  let n := if (0 <? zlen (sc_SeedNodes (ln_config n))) && negb (env_joined env) then ln_warn "join via seeds failed (will retry)" [] n else n in
  Some (ln_info "membership started" [] n).

Section start.
  Context `{R : Rand}.

Definition start_raft (env : StartEnv) (n : LNode) : option LNode :=
  mgr ← ln_members n;
  let alive := ML_Alive (mm_memberList mgr) in
  raft ← startRaft (ln_config n) alive;
  let n := ln_set_raft raft true n in
  let n := ln_health (SetCheck (env_now env) "raft" HealthStarting (MsgText "waiting for leader election")) n in
  Some (ln_info "Raft started" [list_to_map [("peers", FStrs (Peers (raft_config (ln_config n) alive)))]] n).

(** [startShardMap], [startConsistency] and [startRateLimiting]. *)
Definition start_rest (env : StartEnv) (n : LNode) : option LNode :=
  mgr ← ln_members n;
  let mgr := env_gossip' env mgr in
  let alive := ML_Alive (mm_memberList mgr) in
  shards ← startShardMap (ln_config n) alive;
  let '(lease, readIndex) := startConsistency (ln_config n) in
  let '(limiter, breaker) := startRateLimiting (env_now env) (env_zeroTime env) (ln_config n) in
  let n := ln_set_members mgr n in
  let n := ln_info "shard map initialized" [list_to_map [("shards", FInt (zlen alive + 1)); ("nodes", FInt (zlen alive + 1))]] n in
  Some (ln_set_rest (mkConsistency shards lease readIndex limiter breaker) n).

Definition start_chaos (n : LNode) : LNode :=
  if sc_EnableChaos (ln_config n) then ln_warn "CHAOS MODE ENABLED — NOT FOR PRODUCTION" [] (ln_set_faults (Activate NewFaultInjector) n) else n.

(** A cluster event in the goroutine of [startMembership]; before the Raft node
    exists, asking it for its leader panics; afterwards [handleMembershipEvent] of
    Server.v says what is sent.  [dial] as in Transport.v. *)
Definition early_event (now : Z) (dial : string -> option rpc_error) (event : ClusterEvent) (n : LNode) : option LNode :=
  '(m, t, h) ← ln_observe n;
  let member := ce_Member event in
  let cluster f := ln_set_observe (with_cluster_metrics f m, t, h) in
  match ce_Type event with
  | EventNodeJoined =>
      let n := ln_info "node joined" [list_to_map [("node", FStr (mb_NodeID member))]] n in
      let n := cluster (fun c => mkClusterMetrics (Gauge_Inc (ClusterSize c)) (NodesSuspected c) (NodesDead c)) n in
      pool ← ln_pool n;
      Some (ln_set_pool (Pool_AddPeer now dial (mb_NodeID member) (mb_Address member) pool).2 n)
  | EventNodeDead =>
      let n := ln_warn "node dead" [list_to_map [("node", FStr (mb_NodeID member))]] n in
      let n := cluster (fun c => mkClusterMetrics (ClusterSize c) (NodesSuspected c) (Gauge_Inc (NodesDead c))) n in
      _ ← ln_raft n;
      Some n
  | EventNodeSuspected => Some (cluster (fun c => mkClusterMetrics (ClusterSize c) (Gauge_Inc (NodesSuspected c)) (NodesDead c)) n)
  | EventNodeRevived => Some (cluster (fun c => mkClusterMetrics (ClusterSize c) (Gauge_Dec (NodesSuspected c)) (NodesDead c)) n)
  | EventNodeLeft => Some n
  end.

(** The second close of [ready] panics.  [events] are the cluster events handled
    before the Raft node exists. *)
Definition Start (env : StartEnv) (dial : string -> option rpc_error) (events : list ClusterEvent) (n : LNode) : option (option StartError * LNode) :=
  let n := start_observe env n in
  match start_storage env n with
  | (n, Some err) => Some (Some err, n)
  | (n, None) =>
      match start_grpc env n with
      | (n, Some err) => Some (Some err, n)
      | (n, None) =>
          n ← start_membership env n;
          n ← for_each (early_event (env_now env) dial) events n;
          n ← start_raft env n;
          n ← start_rest env n;
          let n := start_chaos n in
          let http := negb (sc_MetricsAddr (ln_config n) =?s EmptyString) in
          if ln_ready n then None
          else
            let n := ln_set_life http true true (ln_cancelled n) n in
            Some (None, ln_info "✅ Hermes node READY" [] n)
      end
  end.

End start.

(** The node of Server.v. *)
Definition assemble (n : LNode) : option HermesNode :=
  '(m, t, h) ← ln_observe n;
  store ← ln_engine n;
  raft ← ln_raft n;
  rest ← ln_rest n;
  Some (mkHermesNode (ln_config n) raft store (co_shardMap rest) (co_lease rest) (co_readIndex rest) (co_limiter rest) (co_breaker rest) m t h).

(** ** The background loop *)

Inductive loop_input :=
  | LoopDone
  | LoopMetrics (goroutines heapAlloc : Z) (alive : list Member)
  | LoopHealth (now heapAlloc heapSys : Z)
  | LoopLeader (now : Z).

Fixpoint runBackgroundLoops (inputs : list loop_input) (n : HermesNode) : HermesNode :=
  match inputs with
  | [] => n
  | LoopDone :: _ => n
  | LoopMetrics goroutines heapAlloc alive :: inputs => runBackgroundLoops inputs (updateMetrics goroutines heapAlloc alive n)
  | LoopHealth now heapAlloc heapSys :: inputs => runBackgroundLoops inputs (updateHealth now heapAlloc heapSys n)
  | LoopLeader now :: inputs => runBackgroundLoops inputs (receive_leader now n)
  end.

(** ** The endpoints of [startHTTPServer] *)

Definition NodeStatus_String (s : NodeStatus) : printed :=
  say "[%s] %s term=%d commit=%d applied=%d cluster=%d"
    [ShStr (if ns_IsLeader s then "LEADER" else "FOLLOWER"); ShStr (ns_NodeID s); ShInt (ns_Term s); ShInt (ns_CommitIndex s); ShInt (ns_AppliedIndex s); ShInt (ns_ClusterSize s)].

Definition GCStats_String (now : Z) (s : GCStats) : printed :=
  say "GC{versions_removed=%d, keys_gc'd=%d, bytes_reclaimed=%d, last_run=%v (%v ago)}"
    [ShInt (gs_VersionsRemoved s); ShInt (gs_KeysGCd s); ShInt (gs_BytesReclaimed s); ShInt (gs_LastRunAt s); ShInt (Duration_Round (now - gs_LastRunAt s) sec)].

(** Status and body; the pattern of a path without a slash at its end matches
    only that path. *)
Definition http_answer (path : string) (now : Z) (alive : list Member) (order : list HealthCheck) (ready : bool) (gc : GCStats) (n : HermesNode) : Z * list printed :=
  if path =?s "/metrics" then (200, PrometheusFormat (Snapshot now (hn_metrics n)))
  else if path =?s "/healthz/live" then (200, [say "{status:live}" []])
  else if path =?s "/healthz/ready" then
    if IsReady now order (hn_health n) then (200, [say "{status:ready,node:%s}" [ShStr (sc_NodeID (hn_config n))]]) else (503, [say "{status:not_ready}" []])
  else if path =?s "/healthz/startup" then if ready then (200, [say "{status:started}" []]) else (503, [say "{status:starting}" []])
  else if path =?s "/debug/status" then
    let snap := Snapshot now (hn_metrics n) in
    (200, [NodeStatus_String (Node_Status now alive order n); say "GC: %s" (p_values (GCStats_String now gc)); say "Goroutines: %.0f" [ShFloat (sn_GoroutineCount snap)];
           say "MemTable:   %.1fMB" [ShFloat (fdiv (fdiv (sn_MemTableSizeBytes snap) (f64 1024)) (f64 1024))]])
  else (404, [say "404 page not found" []]).

(** Whether the node becomes ready before the timeout. *)
Definition WaitReady (readyInTime : bool) (timeout : Z) : option printed :=
  if readyInTime then None else Some (say "node not ready after %v" [ShInt timeout]).

(** ** Stop *)

Inductive stop_outcome := Stopped (n : LNode) | StopPanics | StopHangs.

(** [gc.Stop]: it waits for the goroutine that only [gc.Start] runs. *)
Definition stop_gc (n : LNode) : stop_outcome :=
  match ln_gc n with
  | None => Stopped n
  | Some GcCreated => StopHangs
  | Some GcRunning => Stopped (ln_set_gc GcStopped n)
  | Some GcStopped => StopPanics
  end.

Definition stop_grpc (graceful : bool) (n : LNode) : LNode :=
  match ln_grpc n with Some s => ln_set_grpc (Server_Stop graceful s).2 n | None => n end.

Definition stop_raft (n : LNode) : LNode :=
  match ln_raft n with Some r => ln_set_raft r false n | None => n end.

(** The events of the manager are closed once. *)
Definition stop_members (n : LNode) : option LNode :=
  match ln_members n with
  | None => Some n
  | Some m => _ ← mm_events m; Some (ln_set_members (MM_Stop m) n)
  end.

Definition stop_pool (n : LNode) : LNode := match ln_pool n with Some p => ln_set_pool (Pool_Close p) n | None => n end.

(** [bits], [hashes] and [nanos] as in [Engine_Close]. *)
Definition stop_engine (bits : Z -> Z) (hashes : Z -> Z -> Z) (nanos : Z) (n : LNode) : option LNode :=
  match ln_engine n with
  | None => Some n
  | Some s =>
      '(err, e, fs, sst) ← Engine_Close bits hashes nanos (st_engine s) (st_fs s) (st_sst s);
      let n := ln_set_engine (mkEState e fs sst (st_inflight s) (st_worker s) (st_compactor s) (st_stalls s)) true n in
      Some (match err with Some _ => ln_error "storage close error" EmptyString n | None => n end)
  end.

Definition ln_is_leader (n : LNode) : bool := match ln_raft n with Some r => bool_decide (state (n_raft r) = Leader) | None => false end.

(** The node that [Stop] stops: it has logged, and its context is cancelled. *)
Definition stopping (n : LNode) : LNode :=
  let n := ln_set_life (ln_http n) false (ln_ready n) true (ln_info "shutting down Hermes node gracefully" [] n) in
  if ln_is_leader n then ln_info "transferring leadership before shutdown" [] n else n.

Definition Stop (graceful : bool) (bits : Z -> Z) (hashes : Z -> Z -> Z) (nanos : Z) (n : LNode) : stop_outcome :=
  match ln_log n with
  | None => StopPanics
  | Some _ =>
      match stop_gc (stopping n) with
      | Stopped n =>
          let n := stop_grpc graceful n in
          let n := stop_raft n in
          match stop_members n with
          | None => StopPanics
          | Some n =>
              let n := stop_pool n in
              match stop_engine bits hashes nanos n with
              | None => StopPanics
              | Some n => Stopped (ln_info "Hermes node stopped" [] n)
              end
          end
      | other => other
      end
  end.

(** ** What start and stop do *)

Ltac life := cbn [mbind option_bind fst snd ln_config ln_log ln_observe ln_gc ln_engine ln_closed ln_grpc ln_pool ln_members ln_raft ln_raftRunning ln_rest ln_faults ln_http ln_loops ln_ready ln_cancelled
  NewHermesNode ln_say ln_set_observe ln_set_gc ln_set_engine ln_set_grpc ln_set_pool ln_set_members ln_set_raft ln_set_rest ln_set_faults ln_set_life ln_health ln_info ln_warn ln_error start_observe
  gs_started gs_config gs_listener tc_ListenAddr DefaultTransportConfig].

Section lifecycle.
  Context `{R : Rand} (env : StartEnv) (dial : string -> option rpc_error) (cfg : ServerConfig) (addr : string) (store : EState).

(** The members that are alive when the Raft node starts. *)
Definition first_members : MembershipManager := env_gossip env (manager_start (NewMembershipManager (env_now env) (sc_NodeID cfg))).
Definition first_alive : list Member := ML_Alive (mm_memberList first_members).

(** What the node finds when nothing fails. *)
Definition host_ready : Prop :=
  env_mkdir env = true /\ env_open env = Some store /\ (sc_TLS cfg = true -> env_tls env = None) /\ env_listen env (sc_ListenAddr cfg) = Some addr.

Lemma tls_ok : host_ready -> (if sc_TLS cfg then env_tls env else None) = None.
Proof. intros (_ & _ & Ht & _). destruct (sc_TLS cfg); auto. Qed.

Definition first_observe : HermesMetrics * TState * HealthChecker :=
  (NewHermesMetrics (sc_NodeID cfg), mkTState (NewTracer (sc_NodeID cfg) "hermes") [], NewHealthChecker (sc_NodeID cfg)).

(** The stages, up to what they log. *)
Lemma start_observe_eq : exists log, start_observe env (NewHermesNode cfg) =
  mkLNode cfg log (Some first_observe) (Some GcCreated) None false None None None None false None None false false false false.
Proof. eexists. reflexivity. Qed.

Definition storage_health (h : HealthChecker) : HealthChecker := SetCheck (env_now env) "storage" HealthHealthy (MsgText "storage engine open") h.
Definition raft_health (h : HealthChecker) : HealthChecker := SetCheck (env_now env) "raft" HealthStarting (MsgText "waiting for leader election") h.

Lemma start_storage_eq log m tr h : host_ready -> exists log',
  start_storage env (mkLNode cfg log (Some (m, tr, h)) (Some GcCreated) None false None None None None false None None false false false false) =
  (mkLNode cfg log' (Some (m, tr, storage_health h)) (Some GcRunning) (Some store) false None None None None false None None false false false false, None).
Proof. intros (Hm & Ho & _). unfold start_storage. rewrite Hm Ho. cbn [negb]. eexists. reflexivity. Qed.

Definition serving : GrpcServer := mkGrpcServer (DefaultTransportConfig (sc_ListenAddr cfg) (sc_NodeID cfg)) (Some addr) true false.

Lemma start_grpc_eq log o : host_ready -> exists log',
  start_grpc env (mkLNode cfg log o (Some GcRunning) (Some store) false None None None None false None None false false false false) =
  (mkLNode cfg log' o (Some GcRunning) (Some store) false (Some serving) (Some (NewConnectionPool (DefaultTransportConfig (sc_ListenAddr cfg) (sc_NodeID cfg)))) None None false None None false false false false, None).
Proof.
  intros Hh. pose proof (tls_ok Hh) as Ht. destruct Hh as (_ & _ & _ & Hl). unfold start_grpc. cbn [ln_config]. rewrite Ht. unfold Server_Start, NewServer. cbn [gs_started gs_config tc_ListenAddr DefaultTransportConfig].
  rewrite Hl. destruct (sc_TLS cfg); eexists; reflexivity.
Qed.

Lemma start_membership_eq log o pool : exists log',
  start_membership env (mkLNode cfg log o (Some GcRunning) (Some store) false (Some serving) pool None None false None None false false false false) =
  Some (mkLNode cfg log' o (Some GcRunning) (Some store) false (Some serving) pool (Some first_members) None false None None false false false false).
Proof. unfold start_membership. cbn [ln_grpc mbind option_bind]. destruct (_ && _); eexists; reflexivity. Qed.

Lemma start_raft_eq log m tr h pool raft : startRaft cfg first_alive = Some raft -> exists log',
  start_raft env (mkLNode cfg log (Some (m, tr, h)) (Some GcRunning) (Some store) false (Some serving) pool (Some first_members) None false None None false false false false) =
  Some (mkLNode cfg log' (Some (m, tr, raft_health h)) (Some GcRunning) (Some store) false (Some serving) pool (Some first_members) (Some raft) true None None false false false false).
Proof. intros Hr. unfold start_raft. cbn [ln_members ln_config mbind option_bind]. fold first_alive. rewrite Hr. eexists. reflexivity. Qed.

Definition consistency (shards : ShardMap) : Consistency :=
  mkConsistency shards (startConsistency cfg).1 (startConsistency cfg).2 (startRateLimiting (env_now env) (env_zeroTime env) cfg).1 (startRateLimiting (env_now env) (env_zeroTime env) cfg).2.

Lemma start_rest_eq log o pool raft shards : env_gossip' env first_members = first_members -> startShardMap cfg first_alive = Some shards -> exists log',
  start_rest env (mkLNode cfg log o (Some GcRunning) (Some store) false (Some serving) pool (Some first_members) raft true None None false false false false) =
  Some (mkLNode cfg log' o (Some GcRunning) (Some store) false (Some serving) pool (Some first_members) raft true (Some (consistency shards)) None false false false false).
Proof.
  intros Hg Hs. unfold start_rest. cbn [ln_members ln_config mbind option_bind]. rewrite Hg. fold first_alive. rewrite Hs. cbn [mbind option_bind]. unfold consistency.
  destruct (startConsistency cfg) as [lease rix]. destruct (startRateLimiting (env_now env) (env_zeroTime env) cfg) as [lim brk]. eexists. reflexivity.
Qed.

Lemma start_chaos_eq log o pool raft rest : exists log' faults,
  start_chaos (mkLNode cfg log o (Some GcRunning) (Some store) false (Some serving) pool (Some first_members) raft true rest None false false false false) =
  mkLNode cfg log' o (Some GcRunning) (Some store) false (Some serving) pool (Some first_members) raft true rest faults false false false false.
Proof. unfold start_chaos. cbn [ln_config]. destruct (sc_EnableChaos cfg); do 2 eexists; reflexivity. Qed.

(** The node after a start without failures. *)
Definition running (raft : RaftNode) (shards : ShardMap) (log : option (list LogLine)) (faults : option FaultInjector) : LNode :=
  mkLNode cfg log (Some (first_observe.1, raft_health (storage_health first_observe.2))) (Some GcRunning) (Some store) false (Some serving)
    (Some (NewConnectionPool (DefaultTransportConfig (sc_ListenAddr cfg) (sc_NodeID cfg)))) (Some first_members) (Some raft) true (Some (consistency shards)) faults
    (negb (sc_MetricsAddr cfg =?s EmptyString)) true true false.

Lemma start_running raft shards : host_ready -> env_gossip' env first_members = first_members -> startRaft cfg first_alive = Some raft -> startShardMap cfg first_alive = Some shards ->
  exists log faults, Start env dial [] (NewHermesNode cfg) = Some (None, running raft shards log faults) /\ is_Some log.
Proof.
  intros Hh Hg Hr Hs. unfold Start. destruct start_observe_eq as [l1 ->]. destruct (start_storage_eq l1 first_observe.1.1 first_observe.1.2 first_observe.2 Hh) as [l2 E2].
  change (Some (first_observe.1.1, first_observe.1.2, first_observe.2)) with (Some first_observe) in E2. rewrite E2. destruct (start_grpc_eq l2 (Some (first_observe.1.1, first_observe.1.2, storage_health first_observe.2)) Hh) as [l3 ->].
  match goal with |- context [start_membership env (mkLNode cfg l3 ?o _ _ _ _ ?pl _ _ _ _ _ _ _ _ _)] => destruct (start_membership_eq l3 o pl) as [l4 ->] end. cbn [mbind option_bind for_each].
  match goal with |- context [start_raft env (mkLNode cfg l4 (Some (?a, ?b, ?h)) _ _ _ _ ?pl _ _ _ _ _ _ _ _ _)] => destruct (start_raft_eq l4 a b h pl raft Hr) as [l5 ->] end. cbn [mbind option_bind].
  match goal with |- context [start_rest env (mkLNode cfg l5 ?o _ _ _ _ ?pl _ ?r _ _ _ _ _ _ _)] => destruct (start_rest_eq l5 o pl r shards Hg Hs) as [l6 ->] end. cbn [mbind option_bind].
  match goal with |- context [start_chaos (mkLNode cfg l6 ?o _ _ _ _ ?pl _ ?r _ ?re _ _ _ _ _)] => destruct (start_chaos_eq l6 o pl r re) as (l7 & f & ->) end.
  eexists _, f. split; [reflexivity|]. by eexists.
Qed.

(** A start on such a host assembles the node of [Node_Start], ready, with its
    collector, server, members and Raft node running. *)
Theorem start_assembles : host_ready -> env_gossip' env first_members = first_members -> is_Some (startRaft cfg first_alive) -> is_Some (startShardMap cfg first_alive) ->
  exists n, Start env dial [] (NewHermesNode cfg) = Some (None, n) /\ assemble n = Node_Start (env_now env) (env_zeroTime env) cfg first_alive store /\
    ln_ready n = true /\ ln_gc n = Some GcRunning /\ ln_members n = Some first_members /\ ln_raftRunning n = true /\
    ln_http n = negb (sc_MetricsAddr cfg =?s EmptyString) /\ (exists s, ln_grpc n = Some s /\ gs_started s = true /\ Server_Addr s = addr) /\ is_Some (ln_pool n).
Proof.
  intros Hh Hg [raft Hr] [shards Hs]. destruct (start_running raft shards Hh Hg Hr Hs) as (log & faults & -> & _). exists (running raft shards log faults).
  split; [done|]. split_and!; try done; [|by exists serving]. unfold assemble, Node_Start, running. cbn [ln_observe ln_engine ln_raft ln_rest ln_config mbind option_bind]. rewrite Hr Hs.
  cbn [mbind option_bind]. unfold consistency. destruct (startConsistency cfg) as [lease rix]. destruct (startRateLimiting (env_now env) (env_zeroTime env) cfg) as [lim brk]. reflexivity.
Qed.

(** *** Failures *)

Lemma stopping_eq n : exists log, stopping n =
  mkLNode (ln_config n) (Some log) (ln_observe n) (ln_gc n) (ln_engine n) (ln_closed n) (ln_grpc n) (ln_pool n) (ln_members n) (ln_raft n) (ln_raftRunning n) (ln_rest n) (ln_faults n) (ln_http n) false (ln_ready n) true.
Proof. unfold stopping. destruct (ln_is_leader _); eexists; reflexivity. Qed.

Lemma stop_waits graceful bits hashes nanos n : is_Some (ln_log n) -> ln_gc n = Some GcCreated -> Stop graceful bits hashes nanos n = StopHangs.
Proof.
  intros [lines Hl] Hg. unfold Stop. rewrite Hl. destruct (stopping_eq n) as [log ->]. unfold stop_gc. cbn [ln_gc]. by rewrite Hg.
Qed.

Lemma stop_again graceful bits hashes nanos n : is_Some (ln_log n) -> ln_gc n = Some GcStopped -> Stop graceful bits hashes nanos n = StopPanics.
Proof.
  intros [lines Hl] Hg. unfold Stop. rewrite Hl. destruct (stopping_eq n) as [log ->]. unfold stop_gc. cbn [ln_gc]. by rewrite Hg.
Qed.

Lemma start_storage_fails n : env_mkdir env = false \/ env_open env = None -> exists err, start_storage env n = (n, Some err).
Proof. intros Hf. unfold start_storage. destruct (env_mkdir env); [destruct Hf as [|Hf]; [done|]; rewrite Hf|]; cbn [negb]; by eexists. Qed.

(** When the storage does not open, the collector exists and does not run: the
    start reports the error, and stopping the node then waits forever. *)
Theorem stop_after_failed_storage_hangs graceful bits hashes nanos : env_mkdir env = false \/ env_open env = None -> exists err n,
  Start env dial [] (NewHermesNode cfg) = Some (Some err, n) /\ ln_engine n = None /\ Stop graceful bits hashes nanos n = StopHangs.
Proof.
  intros Hf. unfold Start. destruct start_observe_eq as [l1 E1]. assert (Hl1 : is_Some l1). { apply (f_equal ln_log) in E1. cbn in E1. rewrite -E1. by eexists. } rewrite E1.
  destruct (start_storage_fails (mkLNode cfg l1 (Some first_observe) (Some GcCreated) None false None None None None false None None false false false false) Hf) as [err ->].
  eexists err, _. split; [reflexivity|]. split; [reflexivity|]. apply stop_waits; [exact Hl1|reflexivity].
Qed.

(** When the port is taken, the start fails with the collector running and the
    engine open; the stop closes both. *)
Lemma start_port_taken log o : (sc_TLS cfg = true -> env_tls env = None) -> env_listen env (sc_ListenAddr cfg) = None -> exists log',
  start_grpc env (mkLNode cfg log o (Some GcRunning) (Some store) false None None None None false None None false false false false) =
  (mkLNode cfg log' o (Some GcRunning) (Some store) false (Some (NewServer (DefaultTransportConfig (sc_ListenAddr cfg) (sc_NodeID cfg)))) None None None false None None false false false false,
   Some (ErrGRPCStart (ErrListen (sc_ListenAddr cfg)))).
Proof.
  intros Ht Hl. assert (Ht' : (if sc_TLS cfg then env_tls env else None) = None) by (destruct (sc_TLS cfg); auto). unfold start_grpc. cbn [ln_config]. rewrite Ht'.
  unfold Server_Start, NewServer. cbn [gs_started gs_config tc_ListenAddr DefaultTransportConfig]. rewrite Hl. destruct (sc_TLS cfg); eexists; reflexivity.
Qed.

Theorem port_taken_leaks : env_mkdir env = true -> env_open env = Some store -> (sc_TLS cfg = true -> env_tls env = None) -> env_listen env (sc_ListenAddr cfg) = None -> exists n,
  Start env dial [] (NewHermesNode cfg) = Some (Some (ErrGRPCStart (ErrListen (sc_ListenAddr cfg))), n) /\
  ln_gc n = Some GcRunning /\ ln_engine n = Some store /\ ln_closed n = false /\ ln_ready n = false.
Proof.
  intros Hm Ho Ht Hl. unfold Start. destruct start_observe_eq as [l1 ->].
  assert (E2 : exists l2, start_storage env (mkLNode cfg l1 (Some first_observe) (Some GcCreated) None false None None None None false None None false false false false) =
    (mkLNode cfg l2 (Some (first_observe.1, storage_health first_observe.2)) (Some GcRunning) (Some store) false None None None None false None None false false false false, None))
    by (unfold start_storage; rewrite Hm Ho; cbn [negb]; eexists; reflexivity).
  destruct E2 as [l2 ->]. destruct (start_port_taken l2 (Some (first_observe.1, storage_health first_observe.2)) Ht Hl) as [l3 ->]. by eexists.
Qed.

(** Before the Raft node exists a death in the cluster panics the process. *)
Lemma early_event_raft now event n n' : early_event now dial event n = Some n' -> ln_raft n = None -> ln_raft n' = None /\ ce_Type event <> EventNodeDead.
Proof.
  unfold early_event. destruct (ln_observe n) as [[[m tr] h]|]; [|done]. cbn [mbind option_bind]. intros He Hr.
  destruct (ce_Type event); cbn [ln_info ln_warn ln_say ln_set_observe ln_pool ln_raft mbind option_bind] in He.
  - destruct (ln_pool n) as [p|]; [|done]. cbn [mbind option_bind] in He. by injection He as <-.
  - by injection He as <-.
  - by injection He as <-.
  - by rewrite Hr in He.
  - by injection He as <-.
Qed.

Theorem early_death_panics events : (exists event, event ∈ events /\ ce_Type event = EventNodeDead) -> host_ready -> Start env dial events (NewHermesNode cfg) = None.
Proof.
  intros Hd Hh. unfold Start. destruct start_observe_eq as [l1 ->]. destruct (start_storage_eq l1 first_observe.1.1 first_observe.1.2 first_observe.2 Hh) as [l2 E2].
  change (Some (first_observe.1.1, first_observe.1.2, first_observe.2)) with (Some first_observe) in E2. rewrite E2. destruct (start_grpc_eq l2 (Some (first_observe.1.1, first_observe.1.2, storage_health first_observe.2)) Hh) as [l3 ->].
  match goal with |- context [start_membership env (mkLNode cfg l3 ?o _ _ _ _ ?pl _ _ _ _ _ _ _ _ _)] => destruct (start_membership_eq l3 o pl) as [l4 ->] end. cbn [mbind option_bind].
  set (n := mkLNode _ _ _ _ _ _ _ _ _ _ _ _ _ _ _ _ _). assert (Hr : ln_raft n = None) by done. clearbody n.
  enough (for_each (early_event (env_now env) dial) events n = None) as -> by done. revert n Hr. destruct Hd as (event & Hin & Hdead).
  induction events as [|e events IH]; intros n Hr; [by apply elem_of_nil in Hin|]. cbn [for_each]. destruct (early_event (env_now env) dial e n) as [n'|] eqn:E; [|done]. cbn [mbind option_bind].
  apply early_event_raft in E as [Hr' Hne]; [|done]. apply elem_of_cons in Hin as [->|Hin]; [done|by apply IH].
Qed.

(** *** A node that has just started

    The readiness probe of a node that waits for its first election is answered
    with success, in every order of the checks. *)
Lemma worst_calm order : Forall (fun c => hc_Status c = HealthHealthy \/ hc_Status c = HealthStarting) order -> worst order = HealthHealthy.
Proof.
  intros Hs. unfold worst.
  assert (He : forall s, s = HealthUnhealthy \/ s = HealthDegraded -> existsb (fun c => bool_decide (hc_Status c = s)) order = false).
  { intros s Hs'. induction Hs as [|c l Hc _ IH]; [done|]. cbn [existsb]. rewrite IH bool_decide_eq_false_2; [done|].
    by destruct Hc as [->| ->], Hs' as [->| ->]. }
  rewrite !He; auto.
Qed.

Lemma starting_checks id c : c ∈ map snd (map_to_list (hk_checks (raft_health (storage_health (NewHealthChecker id))))) ->
  hc_Status c = HealthHealthy \/ hc_Status c = HealthStarting.
Proof.
  intros ([k c'] & -> & Hk%elem_of_map_to_list)%list_elem_of_fmap. revert Hk. cbn [snd]. unfold raft_health, storage_health, SetCheck, NewHealthChecker. cbn [hk_checks].
  rewrite !lookup_insert_Some lookup_empty. intros [[_ <-]|[_ [[_ <-]|[_ ?]]]]; [by right|by left|done].
Qed.

Theorem started_node_is_ready now alive order gc n : hn_health n = raft_health (storage_health (NewHealthChecker (sc_NodeID cfg))) ->
  Forall (fun c => c ∈ map snd (map_to_list (hk_checks (hn_health n)))) order -> (http_answer "/healthz/ready" now alive order true gc n).1 = 200.
Proof.
  intros Hh Ho. rewrite Hh in Ho. unfold http_answer. cbn [String.eqb Ascii.eqb Bool.eqb]. unfold IsReady.
  assert (Hw : hr_Status (Report now order (hn_health n)) = HealthHealthy); [|by rewrite Hw].
  unfold Report. destruct (report_fold order [] (mkHealthReport HealthHealthy (hk_nodeID (hn_health n)) now []) eq_refl eq_refl) as [-> _].
  apply worst_calm. eapply Forall_impl; [exact Ho|]. intros c. apply starting_checks.
Qed.

(** *** Stopping a running node *)

(** A stop ends the collector, the server, the Raft node, the members, the
    connections and the engine.  It does not end the server of the metrics,
    which keeps answering that the node has started.  A second stop panics. *)
Theorem stop_stops raft shards log faults graceful bits hashes nanos err e fs sst : is_Some log ->
  mm_events first_members <> None -> Engine_Close bits hashes nanos (st_engine store) (st_fs store) (st_sst store) = Some (err, e, fs, sst) -> exists n,
  Stop graceful bits hashes nanos (running raft shards log faults) = Stopped n /\
    ln_gc n = Some GcStopped /\ ln_raftRunning n = false /\ ln_loops n = false /\ ln_cancelled n = true /\ (exists s, ln_grpc n = Some s /\ gs_stopped s = true) /\
    (exists m, ln_members n = Some m /\ mm_events m = None) /\ (exists p, ln_pool n = Some p /\ cp_peers p = ∅) /\ ln_closed n = true /\ (st_engine <$> ln_engine n) = Some e /\
    ln_ready n = true /\ ln_http n = negb (sc_MetricsAddr cfg =?s EmptyString) /\ Stop graceful bits hashes nanos n = StopPanics.
Proof.
  intros [lines ->] Hev Hcl. set (n0 := running raft shards (Some lines) faults). destruct (stopping_eq n0) as [log E0]. unfold n0 in E0. cbn [running ln_config ln_observe ln_gc ln_engine ln_closed ln_grpc ln_pool ln_members ln_raft ln_raftRunning ln_rest ln_faults ln_http ln_ready] in E0.
  destruct (mm_events first_members) as [evs|] eqn:Eev; [|done].
  assert (Hs : exists n, Stop graceful bits hashes nanos n0 = Stopped n /\ exists log', n = mkLNode cfg (Some log') (ln_observe n0) (Some GcStopped)
    (Some (mkEState e fs sst (st_inflight store) (st_worker store) (st_compactor store) (st_stalls store))) true (Some (Server_Stop graceful serving).2)
    (Some (Pool_Close (NewConnectionPool (DefaultTransportConfig (sc_ListenAddr cfg) (sc_NodeID cfg))))) (Some (MM_Stop first_members)) (Some raft) false (ln_rest n0) faults (ln_http n0) false true true).
  { unfold Stop. change (ln_log n0) with (Some lines). cbn match. rewrite E0. unfold stop_gc. cbn [ln_gc ln_set_gc]. unfold stop_grpc, stop_raft, stop_members, stop_pool, stop_engine.
    life. rewrite Eev. life. rewrite Hcl. life. destruct err; (eexists; split; [reflexivity|]; eexists; reflexivity). }
  destruct Hs as (n & Hstop & log' & ->). eexists. split; [exact Hstop|]. split_and!; try done; try (by eexists). apply stop_again; [by eexists|done].
Qed.

End lifecycle.
