(* ===== verification/Programs.v ===== *)
(** * Programs: the server and the client as programs
    (cmd/hermes-server/main.go, cmd/hermes-cli/main.go, pkg/server/http_api.go)

    The server's commands, its configuration from the environment, the life of
    the node it runs and the routes of the HTTP interface; the client's
    environment and its interactive loop.  [getenv] answers the empty string
    for a variable that is not set.  Lines are ASCII text, on which
    [strings.Fields] and [strings.TrimSpace] know six spaces.  A demonstration
    is the event that it runs; the files Demo* say what they show. *)

From S2P Require Import Prelude Bytes Float64 Hlc RaftLog Raft RaftSpec RaftNode Engine ReadPath Memberlist ShardMap Metrics Health Tracing Logger Transport Server ServerApi Cli Demo NodeLifecycle.

(** ** strings *)

Definition strings_Split (s : string) (sep : Z) : list string := map string_of_bytes (split_at sep (bytes_of_string s)).

Definition is_space (c : ascii) : bool := (ch c =? 32) || ((9 <=? ch c) && (ch c <=? 13)).

Fixpoint TrimLeft (s : bytes) : bytes :=
  match s with
  | [] => []
  | c :: s' => if is_space c then TrimLeft s' else s
  end.

Definition TrimSpace (s : bytes) : bytes := rev (TrimLeft (rev (TrimLeft s))).

(** [field] has the bytes of the field being read, the last first. *)
Fixpoint fields_from (field : bytes) (s : bytes) : list bytes :=
  let finished := match field with [] => [] | _ => [rev field] end in
  match s with
  | [] => finished
  | c :: s => if is_space c then finished ++ fields_from [] s else fields_from (c :: field) s
  end.

Definition Fields (s : bytes) : list bytes := fields_from [] s.

(** ** The client *)

(** The address of the server. *)
Definition client_addr (getenv : string -> string) : string :=
  let addr := getenv "HERMES_HTTP_ADDR" in
  if negb (addr =?s EmptyString) then
    if negb (HasPrefix addr "http://") then "http://" +:+ addr else addr
  else "http://localhost:7000".

(** What a run of the client shows: the prompt, or the output of a command. *)
Inductive repl_event := ReplSays (p : printed) | ReplPrompt | ReplOutput (o : cli_output).

Section client.
  Context (server : string -> HTTPRequest -> Z * HTTPBody).

(** The loop, on the lines that the scanner reads; [None] when a command panics. *)
Fixpoint repl_loop (lines : list bytes) : option (list repl_event) :=
  match lines with
  | [] => Some [ReplPrompt]
  | text :: lines =>
      let line := TrimSpace text in
      match line with
      | [] => rest ← repl_loop lines; Some (ReplPrompt :: rest)
      | _ =>
          if bool_decide (line = bytes_of_string "exit") || bool_decide (line = bytes_of_string "quit") then Some [ReplPrompt]
          else
            out ← runCommand server (map string_of_bytes (Fields line));
            rest ← repl_loop lines;
            Some (ReplPrompt :: ReplOutput out :: rest)
      end
  end.

Definition runREPL (serverAddr : string) (lines : list bytes) : option (list repl_event) :=
  events ← repl_loop lines;
  Some ([ReplSays (say "Hermes CLI REPL" []); ReplSays (say "Connecting to %s" [ShStr serverAddr]);
         ReplSays (say "Commands: put <key> <val>, get <key>, delete <key>, scan <prefix>, cluster status, exit" [])] ++ events).

Definition output_error (o : cli_output) : bool :=
  match o with OutLines (inl _) | OutStatus (inl _) => true | _ => false end.

(** The events and the exit code; [args] leaves out the name of the program. *)
Definition client_main (getenv : string -> string) (args : list string) (lines : list bytes) : option (list repl_event * Z) :=
  match args with
  | [] => events ← runREPL (client_addr getenv) lines; Some (events, 0)
  | _ => out ← runCommand server args; Some ([ReplOutput out], if output_error out then 1 else 0)
  end.

End client.

(** ** The HTTP interface of a node *)

(** What the routes answer, and a path without one; the clock readings and
    identifiers as in ServerApi.v. *)
Section api.
  Context `{R : Rand}.

Definition api_answer (now ptMs : Z) (draws : list bool) (traceID spanID : bytes) (alive : list Member) (order : list HealthCheck)
    (path : string) (r : HTTPRequest) (n : HermesNode) : option (Z * HTTPBody * HermesNode * list Message) :=
  if path =?s "/put" then handlePut now ptMs draws traceID spanID r n
  else if path =?s "/get" then '(status, body, n) ← handleGet now traceID spanID r n; Some (status, body, n, [])
  else if path =?s "/delete" then handleDelete ptMs draws r n
  else if path =?s "/scan" then '(status, body, n) ← handleScan now traceID spanID r n; Some (status, body, n, [])
  else if path =?s "/cluster/status" then let '(status, body) := handleClusterStatus now alive order n in Some (status, body, n, [])
  else if path =?s "/healthz" then let '(status, body) := handleHealth in Some (status, body, n, [])
  else Some (404, BodyError "404 page not found", n, []).

(** [StartHTTPAPI]: the address it listens on is logged. *)
Definition StartHTTPAPI (listen : string -> option string) (addr : string) (n : LNode) : option LNode :=
  match listen addr with
  | None => None
  | Some bound => Some (ln_info "HTTP API started" [list_to_map [("addr", FStr bound)]] n)
  end.

(** ** The server *)

Definition getEnv (getenv : string -> string) (key defaultVal : string) : string :=
  if negb (getenv key =?s EmptyString) then getenv key else defaultVal.

Definition env_config (getenv : string -> string) : ServerConfig :=
  let c := DefaultServerConfig (getEnv getenv "HERMES_NODE_ID" "hermes-0") (getEnv getenv "HERMES_LISTEN_ADDR" "0.0.0.0:7001") (getEnv getenv "HERMES_DATA_DIR" "/data") in
  let seedNodesStr := getEnv getenv "HERMES_SEED_NODES" EmptyString in
  mkServerConfig (sc_NodeID c) (sc_ListenAddr c) (sc_DataDir c) (if negb (seedNodesStr =?s EmptyString) then strings_Split seedNodesStr 44 else sc_SeedNodes c)
    (sc_ClusterSize c) (sc_HeartbeatInterval c) (sc_ElectionTimeout c) (sc_MemTableSize c) (sc_WALSync c) (sc_GlobalRateLimit c) (sc_PerClientLimit c)
    (getEnv getenv "HERMES_METRICS_ADDR" ":9090") (sc_TLS c) (sc_EnableChaos c).

Inductive server_run :=
  | RunFailed (message : string) (n : LNode)
  | RunPanics
  | RunStopped (said : list printed) (outcome : stop_outcome).

(** [httpListen] is what the HTTP address gives; [live] is what the node does
    until the signal comes. *)
Definition runServer (getenv : string -> string) (env : StartEnv) (dial : string -> option rpc_error) (events : list ClusterEvent) (httpListen : string -> option string)
    (live : LNode -> LNode) (graceful : bool) (bits : Z -> Z) (hashes : Z -> Z -> Z) (nanos : Z) : server_run :=
  let config := env_config getenv in
  let httpAddr := getEnv getenv "HERMES_HTTP_ADDR" "0.0.0.0:7000" in
  match Start env dial events (NewHermesNode config) with
  | None => RunPanics
  | Some (Some _, n) => RunFailed "Failed to start node: %v" n
  | Some (None, n) =>
      match StartHTTPAPI httpListen httpAddr n with
      | None => RunFailed "Failed to start HTTP API: %v" n
      | Some n =>
          RunStopped [say "Hermes node %s running." [ShStr (sc_NodeID config)]; say "gRPC listening on %s" [ShStr (sc_ListenAddr config)];
                      say "HTTP listening on %s" [ShStr httpAddr]; say "Press Ctrl+C to stop." []; say "Shutting down..." []]
            (Stop graceful bits hashes nanos (live n))
      end
  end.

End api.

Inductive demo :=
  | DOs | DTransport | DClocks | DStorage | DRaft | DPartition | DMembership | DTxn | DConsistency | DChaos | DObservability | DAdvanced.

#[global] Instance demo_eq_dec : EqDecision demo.
Proof. solve_decision. Defined.

Definition demos : list demo := [DOs; DTransport; DClocks; DStorage; DRaft; DPartition; DMembership; DTxn; DConsistency; DChaos; DObservability; DAdvanced].

Inductive main_event := MainDemo (d : demo) | MainPause | MainServer | MainUnknown (cmd : string) | MainUsage.

(** The events and the exit code. *)
Definition main (args : list string) : list main_event * Z :=
  match args with
  | [] => ([MainUsage], 1)
  | cmd :: _ =>
      if cmd =?s "os-fundamentals" then ([MainDemo DOs], 0)
      else if cmd =?s "transport" then ([MainDemo DTransport], 0)
      else if cmd =?s "clocks" then ([MainDemo DClocks], 0)
      else if cmd =?s "storage" then ([MainDemo DStorage], 0)
      else if cmd =?s "raft" then ([MainDemo DRaft], 0)
      else if cmd =?s "partition" then ([MainDemo DPartition], 0)
      else if cmd =?s "membership" then ([MainDemo DMembership], 0)
      else if cmd =?s "txn" then ([MainDemo DTxn], 0)
      else if cmd =?s "consistency" then ([MainDemo DConsistency], 0)
      else if cmd =?s "chaos" then ([MainDemo DChaos], 0)
      else if cmd =?s "observability" then ([MainDemo DObservability], 0)
      else if cmd =?s "advanced" then ([MainDemo DAdvanced], 0)
      else if cmd =?s "all-demos" then (flat_map (fun d => [MainDemo d; MainPause]) demos, 0)
      else if cmd =?s "server" then ([MainServer], 0)
      else ([MainUnknown cmd; MainUsage], 1)
  end.

(** The commands that [printUsage] lists. *)
Definition usage_commands : list string :=
  ["os-fundamentals"; "transport"; "clocks"; "storage"; "raft"; "partition"; "membership"; "txn"; "consistency"; "chaos"; "observability"; "advanced"; "all-demos"; "whats-next"; "server"].

(** ** Words of a line *)

Lemma TrimLeft_cons s c r : TrimLeft s = c :: r -> is_space c = false.
Proof. induction s as [|d s IH]; [done|]. cbn. destruct (is_space d) eqn:E; [done|]. by intros [= -> _]. Qed.

Lemma fields_some field s : field <> [] -> fields_from field s <> [].
Proof.
  revert field. induction s as [|c s IH]; intros field Hf; cbn; [by destruct field|]. destruct (is_space c); [by destruct field|by apply IH].
Qed.

(** A word stays whole, and words joined by single spaces are read back. *)
Definition word (s : bytes) : Prop := s <> [] /\ forallb (fun c => negb (is_space c)) s = true.

Lemma fields_word field w s : forallb (fun c => negb (is_space c)) w = true -> fields_from field (w ++ s) = fields_from (rev w ++ field) s.
Proof.
  revert field. induction w as [|c w IH]; intros field; [done|]. cbn. intros [Hc Hw]%andb_true_iff. apply negb_true_iff in Hc. rewrite Hc (IH _ Hw). by rewrite -app_assoc.
Qed.

Fixpoint join_words (ws : list bytes) : bytes :=
  match ws with [] => [] | [w] => w | w :: ws => w ++ byte_of_Z 32 :: join_words ws end.

Theorem Fields_join ws : Forall word ws -> Fields (join_words ws) = ws.
Proof.
  unfold Fields. induction 1 as [|w ws [Hne Hw] _ IH]; [done|]. assert (Hr : forall A (x y : A), match rev w with [] => x | _ => y end = y).
  { intros. destruct (rev w) eqn:E; [|done]. apply (f_equal (@rev _)) in E. by rewrite rev_involutive in E. }
  destruct ws as [|w' ws].
  - cbn [join_words]. rewrite -{1}(app_nil_r w) fields_word // app_nil_r. cbn. by rewrite Hr rev_involutive.
  - change (join_words (w :: w' :: ws)) with (w ++ byte_of_Z 32 :: join_words (w' :: ws)). rewrite fields_word // app_nil_r. cbn [fields_from]. change (is_space (byte_of_Z 32)) with true. cbn match.
    by rewrite Hr rev_involutive IH.
Qed.

(** ** The client *)

Lemma trimmed_has_field s c r : TrimSpace s = c :: r -> Fields (c :: r) <> [].
Proof.
  intros Ht. unfold Fields. cbn [fields_from]. destruct (is_space c) eqn:E; [|by apply fields_some]. exfalso.
  unfold TrimSpace in Ht. destruct (TrimLeft s) as [|d l] eqn:El; [done|]. pose proof (TrimLeft_cons _ _ _ El) as Hd. cbn in Ht.
  assert (Hh : forall u, exists v, TrimLeft (u ++ [d]) = v ++ [d]).
  { induction u as [|e u [v IHu]]; cbn; [rewrite Hd; by exists []|]. destruct (is_space e); [by exists v|by exists (e :: u)]. }
  destruct (Hh (rev l)) as [v Hv]. rewrite Hv rev_app_distr in Ht. cbn in Ht. injection Ht as -> _. by rewrite E in Hd.
Qed.

(** The interactive loop never panics: a line that is not blank has a word. *)
Theorem repl_total server addr lines : is_Some (runREPL server addr lines).
Proof.
  unfold runREPL. assert (Hl : is_Some (repl_loop server lines)); [|destruct Hl as [ev ->]; by eexists].
  induction lines as [|text lines [rest IH]]; [by eexists|]. cbn [repl_loop]. destruct (TrimSpace text) as [|c r] eqn:Et; [rewrite IH; by eexists|].
  destruct (_ || _); [by eexists|]. apply trimmed_has_field in Et. destruct (Fields (c :: r)) as [|w ws]; [done|]. cbn [map]. unfold runCommand. cbn [mbind option_bind]. rewrite IH. by eexists.
Qed.

(** ** The client and a node

    A get of a plain key prints what the node reads: its value, or the error of
    the status that the handler answers. *)
Section client_node.
  Context `{R : Rand} (now ptMs : Z) (draws : list bool) (traceID spanID : bytes) (alive : list Member) (order : list HealthCheck) (n : HermesNode).

(** The node as the server of the client; a handler that panics answers nothing. *)
Definition node_server (path : string) (r : HTTPRequest) : Z * HTTPBody :=
  match api_answer now ptMs draws traceID spanID alive order path r n with Some (status, body, _, _) => (status, body) | None => (0, BodyError EmptyString) end.

Theorem client_get key res n' : key <> EmptyString -> forallb plain (bytes_of_string key) = true -> Node_Get now traceID spanID key n = Some (res, n') ->
  runCommand node_server ["get"; key] = Some (OutLines
    (match res with
     | inr (Some value) => inr [string_of_bytes value]
     | inr None => inl (ErrServer 404 "key not found")
     | inl err => inl (ErrServer (statusForErr (Some err)) (error_text err))
     end)).
Proof.
  intros Hne Hp Hg. unfold runCommand. cbn [String.eqb Ascii.eqb Bool.eqb]. do 2 f_equal. unfold doGet. rewrite get_asks_key //. unfold node_server, api_answer.
  cbn [String.eqb Ascii.eqb Bool.eqb]. unfold handleGet, query_get. cbn [hq_Query]. rewrite lookup_singleton. cbn [default].
  rewrite (proj2 (String.eqb_neq _ _) Hne) Hg. destruct res as [err|[value|]]; [|done..]. cbn. by destruct (HasPrefix _ _).
Qed.

(** A put through the client is the put of the node. *)
Theorem client_put key value err n' sent : key <> EmptyString -> Node_Put now ptMs draws traceID spanID key (bytes_of_string value) n = Some (err, n', sent) ->
  runCommand node_server ["put"; key; value] = Some (OutLines (match err with None => inr ["OK"] | Some e => inl (ErrServer (statusForErr err) (error_text e)) end)).
Proof.
  intros Hne Hp. unfold runCommand. cbn [String.eqb Ascii.eqb Bool.eqb]. do 2 f_equal. unfold doPut, node_server, api_answer. cbn [String.eqb Ascii.eqb Bool.eqb].
  unfold handlePut, body_field. cbn [hq_Method hq_Body String.eqb Ascii.eqb Bool.eqb negb]. change (list_to_map [("key", key); ("value", value)] !! "key") with (Some key).
  change (list_to_map [("key", key); ("value", value)] !! "value") with (Some value). cbn [default]. rewrite (proj2 (String.eqb_neq _ _) Hne) Hp. cbn [mbind option_bind].
  destruct err as [e|]; [|done]. cbn [statusForErr]. by destruct (HasPrefix _ _).
Qed.

End client_node.

(** ** The environment of the server *)

Lemma split_at_app sep w s : forallb (fun c => negb (ch c =? sep)) w = true -> split_at sep (w ++ byte_of_Z sep :: s) = if ch (byte_of_Z sep) =? sep then w :: split_at sep s else split_at sep (w ++ byte_of_Z sep :: s).
Proof.
  intros Hw. destruct (ch (byte_of_Z sep) =? sep) eqn:E; [|done]. induction w as [|c w IH]; cbn in *; [by rewrite E|].
  apply andb_true_iff in Hw as [Hc Hw]. apply negb_true_iff in Hc. by rewrite Hc (IH Hw).
Qed.

(** Addresses written with commas between them are the seeds of the node. *)
Fixpoint join_commas (l : list string) : string :=
  match l with [] => EmptyString | [s] => s | s :: l => s +:+ "," +:+ join_commas l end.

Definition no_comma (s : string) : bool := forallb (fun c => negb (ch c =? 44)) (bytes_of_string s).

Lemma bytes_of_string_app s t : bytes_of_string (s +:+ t) = bytes_of_string s ++ bytes_of_string t.
Proof. induction s as [|c s IH]; [done|]. change (c :: bytes_of_string (s +:+ t) = c :: (bytes_of_string s ++ bytes_of_string t)). by rewrite IH. Qed.

Theorem seeds_of_environment getenv seeds : forallb no_comma seeds = true -> getenv "HERMES_SEED_NODES" = join_commas seeds -> join_commas seeds <> EmptyString ->
  sc_SeedNodes (env_config getenv) = seeds.
Proof.
  intros Hs He Hne. unfold env_config. cbn [sc_SeedNodes]. unfold getEnv. rewrite He !(proj2 (String.eqb_neq _ _) Hne). cbn [negb]. unfold strings_Split. clear He.
  destruct seeds as [|s seeds]; [done|]. clear Hne. revert s Hs. induction seeds as [|t seeds IH]; intros s Hs; cbn [forallb] in Hs; apply andb_true_iff in Hs as [H1 H2].
  - cbn [join_commas]. rewrite split_plain //. cbn. by rewrite string_of_bytes_of_string.
  - change (join_commas (s :: t :: seeds)) with (s +:+ "," +:+ join_commas (t :: seeds)). rewrite !bytes_of_string_app. change (bytes_of_string ",") with [byte_of_Z 44]. cbn [app].
    rewrite split_at_app //. change (ch (byte_of_Z 44) =? 44) with true. cbn match. cbn [map]. by rewrite string_of_bytes_of_string (IH t H2).
Qed.

(** An empty variable is one that is not set. *)
Theorem empty_environment : env_config (fun _ => EmptyString) = DefaultServerConfig "hermes-0" "0.0.0.0:7001" "/data".
Proof. reflexivity. Qed.

(** The client takes an https address for the name of a host. *)
Example client_https : client_addr (fun _ => "https://db:7000") = "http://https://db:7000".
Proof. reflexivity. Qed.

(** ** The commands of the server *)

(** Every listed command but [whats-next] is known; the whole course runs the
    demonstrations in their listed order, each once. *)
Theorem usage_misses_one : List.filter (fun cmd => (main [cmd]).2 =? 1) usage_commands = ["whats-next"].
Proof. reflexivity. Qed.

Definition demo_of (e : main_event) : list demo := match e with MainDemo d => [d] | _ => [] end.

Theorem all_demos_course : flat_map demo_of (main ["all-demos"]).1 = flat_map (fun cmd => flat_map demo_of (main [cmd]).1) (take 12 usage_commands) /\
  NoDup (flat_map demo_of (main ["all-demos"]).1).
Proof. split; [reflexivity|]. by apply (bool_decide_unpack _). Qed.

(** ** A run of the server *)

(** When the address of the HTTP interface is taken the program ends with a
    node that runs: it is not stopped, and its engine is not closed. *)
Theorem http_port_taken `{R : Rand} getenv env dial addr store httpListen live graceful bits hashes nanos : let cfg := env_config getenv in
  host_ready env cfg addr store -> env_gossip' env (first_members env cfg) = first_members env cfg -> is_Some (startRaft cfg (first_alive env cfg)) ->
  is_Some (startShardMap cfg (first_alive env cfg)) -> httpListen (getEnv getenv "HERMES_HTTP_ADDR" "0.0.0.0:7000") = None -> exists n,
  runServer getenv env dial [] httpListen live graceful bits hashes nanos = RunFailed "Failed to start HTTP API: %v" n /\ ln_ready n = true /\ ln_engine n = Some store /\ ln_closed n = false.
Proof.
  intros cfg Hh Hg [raft Hr] [shards Hs] Hl. unfold runServer. fold cfg. destruct (start_running env dial cfg addr store raft shards Hh Hg Hr Hs) as (log & faults & -> & _).
  unfold StartHTTPAPI. rewrite Hl. by eexists.
Qed.

(** Otherwise a signal that comes at once stops the node. *)
Theorem server_runs `{R : Rand} getenv env dial addr store httpListen bound graceful bits hashes nanos err e fs sst : let cfg := env_config getenv in
  host_ready env cfg addr store -> env_gossip' env (first_members env cfg) = first_members env cfg -> is_Some (startRaft cfg (first_alive env cfg)) ->
  is_Some (startShardMap cfg (first_alive env cfg)) -> httpListen (getEnv getenv "HERMES_HTTP_ADDR" "0.0.0.0:7000") = Some bound -> mm_events (first_members env cfg) <> None ->
  Engine_Close bits hashes nanos (st_engine store) (st_fs store) (st_sst store) = Some (err, e, fs, sst) -> exists said n,
  runServer getenv env dial [] httpListen (fun n => n) graceful bits hashes nanos = RunStopped said (Stopped n) /\ ln_closed n = true /\ ln_raftRunning n = false.
Proof.
  intros cfg Hh Hg [raft Hr] [shards Hs] Hl Hev Hcl. unfold runServer. fold cfg. destruct (start_running env dial cfg addr store raft shards Hh Hg Hr Hs) as (log & faults & -> & _).
  unfold StartHTTPAPI. rewrite Hl. match goal with |- context [Stop graceful bits hashes nanos (ln_info ?m ?f (running env cfg addr store raft shards log faults))] =>
    assert (Hi : exists log', ln_info m f (running env cfg addr store raft shards log faults) = running env cfg addr store raft shards log' faults /\ is_Some log') by (eexists; split; [reflexivity|by eexists]) end.
  destruct Hi as (log' & -> & Hlog). destruct (stop_stops env cfg addr store raft shards log' faults graceful bits hashes nanos err e fs sst Hlog Hev Hcl) as (n & -> & _ & H1 & _ & _ & _ & _ & _ & H2 & _).
  eexists _, n. by split_and!.
Qed.
