(* ===== verification/DemoRaft.v ===== *)
(** * DemoRaft: the demonstrations of Raft (pkg/raft/demo.go)

    The scenarios run the cluster of MemCluster.v.  While a scenario waits, the
    cluster does what it does by itself: an argument gives the actions of each
    wait, and [None] is a wait with actions that are not possible, or a panic.
    The orders in which maps are iterated are arguments as well.  Output is as
    in Demo.v. *)

From S2P Require Import Prelude Bytes RaftLog Raft RaftSpec RaftSafety RaftNode RaftSystem RaftFailover MemCluster Demo.

(** ** Waiting *)

(** What a cluster does by itself. *)
Definition internal (a : demo_action) : bool := match a with DPropose _ _ | DPartition _ _ | DHeal _ _ | DStop _ => false | _ => true end.

Section scenarios.
  Context `{R : Rand}.

Definition act (a : demo_action) (c : DemoCluster) : option DemoCluster := if demo_enabled a c then dstep a c else None.

Definition pause (acts : list demo_action) (c : DemoCluster) : option DemoCluster :=
  for_each (fun a c => if internal a then act a c else None) acts c.

(** Each poll has the order of its iteration and what happens in the sleep
    after it; after the last one the deadline has passed. *)
Fixpoint WaitForLeader (polls : list (list string * list demo_action)) (c : DemoCluster) : option (string * DemoCluster) :=
  match polls with
  | [] => Some (EmptyString, c)
  | (order, acts) :: polls =>
      match Cluster_Leader order c with
      | Some id => Some (id, c)
      | None => c ← pause acts c; WaitForLeader polls c
      end
  end.

(** [RaftNode.Propose]: the request is put on the channel, and after [acts] the
    node takes it and answers; [answered] is false when the context ends first. *)
Inductive propose_result := ProposeOk | ProposeErr (err : RaftError) | ProposeTimeout.

Definition propose_call (i : string) (data : string) (acts : list demo_action) (answered : bool) (c : DemoCluster) : option (propose_result * DemoCluster) :=
  c ← act (DPropose i (bytes_of_string data)) c;
  c ← pause acts c;
  if answered then
    if bool_decide (dc_proposeCh c !! i = Some [bytes_of_string data]) then
      node ← dc_nodes c !! i;
      '(err, _, _) ← run_round (Propose (bytes_of_string data)) node;
      c ← act (DTakePropose i) c;
      Some (match err with None => ProposeOk | Some e => ProposeErr e end, c)
    else None
  else Some (ProposeTimeout, c).

(** [DemoCluster.Propose] without a deadline; [None] is the error of a cluster
    without a leader. *)
Definition propose (order : list string) (data : string) (acts : list demo_action) (c : DemoCluster) : option (option propose_result * DemoCluster) :=
  match Cluster_Leader order c with
  | None => Some (None, c)
  | Some leader => '(res, c) ← propose_call leader data acts true c; Some (Some res, c)
  end.

Definition is_leader (id : string) (c : DemoCluster) : bool := match dc_nodes c !! id with Some node => IsLeader node | None => false end.

Definition status_line (c : DemoCluster) (id : string) : list printed :=
  match dc_nodes c !! id with
  | None => []
  | Some node =>
      let r := n_raft node in
      [say "  %s %s | term=%d | commit=%d | applied=%d | log=%d"
         [ShStr (if IsLeader node then "LEADER" else if decide (state r = Candidate) then "CANDIDATE" else "FOLLOWER"); ShStr id; ShInt (term r);
          ShInt (committed (log r)); ShInt (n_appliedIndex node); ShInt (lastIndex (log r))]]
  end.

Definition PrintStatus (order : list string) (c : DemoCluster) : list printed := flat_map (status_line c) order.

(** The links between [a] and each of [others], both ways. *)
Definition links (f : string -> string -> demo_action) (a : string) (others : list string) (c : DemoCluster) : option DemoCluster :=
  for_each (fun b c => c ← act (f a b) c; act (f b a) c) others c.

Definition others_of (a : string) (nodes : list string) : list string := List.filter (fun b => negb (b =?s a)) nodes.

(** ** The scenarios *)

Definition five : list string := ["node-1"; "node-2"; "node-3"; "node-4"; "node-5"].
Definition three : list string := ["node-1"; "node-2"; "node-3"].

Definition demoLeaderElection (polls : list (list string * list demo_action)) (elapsed : Z) (order : list string) : option (list printed) :=
  c ← NewDemoCluster five;
  '(leader, c) ← WaitForLeader polls c;
  Some (if leader =?s EmptyString then [say "  No leader elected: %v" []]
        else say "  Leader elected: %s in %v" [ShStr leader; ShInt elapsed] :: PrintStatus order c).

(** [steps i] has the order of the search for a leader, the actions until the
    [i]-th write is answered, those of the sleep after it, and the time. *)
Fixpoint write_all (i : nat) (steps : nat -> list string * list demo_action * list demo_action * Z) (writes : list string) (c : DemoCluster) : option (list printed * DemoCluster) :=
  match writes with
  | [] => Some ([], c)
  | write :: writes =>
      let '(order, acts, sleep, elapsed) := steps i in
      '(res, c) ← propose order write acts c;
      '(line, c) ← (match res with
                    | Some ProposeOk => c ← pause sleep c; Some (say "  Proposed in %v" [ShInt elapsed], c)
                    | _ => Some (say "  Propose failed: %v" [], c)
                    end);
      '(lines, c) ← write_all (S i) steps writes c;
      Some (say "  Proposing: %s" [ShStr write] :: line :: lines, c)
  end.

Definition store_line (c : DemoCluster) (id : string) : list printed :=
  match dc_kvStores c !! id with
  | None => []
  | Some kv => [say "  %s: balance=%s user=%s" [ShStr id; ShStr (SimpleKV_Get "balance" kv).1; ShStr (SimpleKV_Get "user" kv).1]]
  end.

Definition demoLogReplication (polls : list (list string * list demo_action)) (steps : nat -> list string * list demo_action * list demo_action * Z)
    (order : list string) (settle : list demo_action) (order' : list string) : option (list printed) :=
  c ← NewDemoCluster three;
  '(leader, c) ← WaitForLeader polls c;
  '(lines, c) ← write_all 0 steps ["balance=1000"; "user=alice"; "status=active"] c;
  let status := PrintStatus order c in
  c ← pause settle c;
  Some ([say "  Leader: %s" [ShStr leader]] ++ lines ++ status ++ flat_map (store_line c) order').

(** The search for another leader. *)
Fixpoint find_new (firstLeader : string) (polls : list (list string * list demo_action)) (c : DemoCluster) : option (string * DemoCluster) :=
  match polls with
  | [] => Some (EmptyString, c)
  | (order, acts) :: polls =>
      match List.find (fun id => negb (id =?s firstLeader) && is_leader id c) order with
      | Some id => Some (id, c)
      | None => c ← pause acts c; find_new firstLeader polls c
      end
  end.

(** The part after the leader is cut off. *)
Definition failover_search (firstLeader : string) (polls : list (list string * list demo_action)) (elapsed : Z) (acts sleep : list demo_action) (order : list string) (c : DemoCluster) :
    option (list printed) :=
  '(newLeader, c) ← find_new firstLeader polls c;
  if newLeader =?s EmptyString then Some [say "  No new leader elected" []]
  else
    '(_, c) ← propose_call newLeader "key=value-after-failover" acts true c;
    c ← pause sleep c;
    Some ([say "  New leader: %s elected in %v" [ShStr newLeader; ShInt elapsed]] ++ PrintStatus order c ++ [say "  - Failover time: %v (bounded by election timeout)" [ShInt elapsed]]).

Definition demoLeaderFailure (nodes : list string) (polls : list (list string * list demo_action)) (order : list string) (acts sleep : list demo_action)
    (polls' : list (list string * list demo_action)) (elapsed : Z) (acts' sleep' : list demo_action) (order' : list string) : option (list printed) :=
  c ← NewDemoCluster nodes;
  '(firstLeader, c) ← WaitForLeader polls c;
  '(_, c) ← propose order "key=value-before-crash" acts c;
  c ← pause sleep c;
  c ← links DPartition firstLeader (others_of firstLeader nodes) c;
  lines ← failover_search firstLeader polls' elapsed acts' sleep' order' c;
  Some ([say "  Initial leader: %s" [ShStr firstLeader]; say "  Simulating leader crash (%s)..." [ShStr firstLeader]] ++ lines).

Definition minority_side : list string := ["node-1"; "node-2"].
Definition majority_side : list string := ["node-3"; "node-4"; "node-5"].

Definition role_line (c : DemoCluster) (id : string) : list printed :=
  match dc_nodes c !! id with
  | None => []
  | Some node => [say "    [%s] %s - %s (term=%d)" [ShStr (if bool_decide (id ∈ majority_side) then "majority" else "minority"); ShStr id;
                    ShStr (if IsLeader node then "LEADER" else "FOLLOWER"); ShInt (term (n_raft node))]]
  end.

(** The writes on the two sides; the second goes to the first node of the minority. *)
Definition majority_write (acts : list demo_action) (answered : bool) (c : DemoCluster) : option (list printed * DemoCluster) :=
  match List.find (fun id => is_leader id c) majority_side with
  | None => Some ([], c)
  | Some id =>
      '(res, c) ← propose_call id "state=majority-write" acts answered c;
      Some ([match res with
             | ProposeOk => say "    Write to majority leader (%s): SUCCESS" [ShStr id]
             | _ => say "    Write to majority leader (%s): %v" [ShStr id]
             end], c)
  end.

Definition minority_write (acts : list demo_action) (answered : bool) (c : DemoCluster) : option (list printed * DemoCluster) :=
  '(res, c) ← propose_call "node-1" "state=minority-write" acts answered c;
  Some ([match res with
         | ProposeOk => say "    Write to minority (%s): committed (should not happen!)" [ShStr "node-1"]
         | _ => say "    Write to minority (%s): BLOCKED (correct! no quorum)" [ShStr "node-1"]
         end], c).

Definition demoNetworkPartition (polls : list (list string * list demo_action)) (order : list string) (acts sleep sleep' : list demo_action) (order' : list string)
    (major : list demo_action * bool) (minor : list demo_action * bool) : option (list printed) :=
  c ← NewDemoCluster five;
  '(leader, c) ← WaitForLeader polls c;
  '(_, c) ← propose order "state=before-partition" acts c;
  c ← pause sleep c;
  c ← for_each (fun m c => links DPartition m majority_side c) minority_side c;
  c ← pause sleep' c;
  let roles := flat_map (role_line c) order' in
  '(l1, c) ← majority_write major.1 major.2 c;
  '(l2, c) ← minority_write minor.1 minor.2 c;
  Some ([say "  Initial leader: %s" [ShStr leader]] ++ roles ++ l1 ++ l2).

Definition entry_key (i : nat) : string := "entry-" +:+ string_of_bytes (fmt_d (Z.of_nat i)).

Fixpoint propose_entries (entries : list nat) (steps : nat -> list string * list demo_action) (c : DemoCluster) : option DemoCluster :=
  match entries with
  | [] => Some c
  | i :: entries => '(_, c) ← propose (steps i).1 (entry_key i +:+ "=committed") (steps i).2 c; propose_entries entries steps c
  end.

Definition missing_lines (c : DemoCluster) (id : string) : list printed :=
  match dc_kvStores c !! id with
  | None => []
  | Some kv => flat_map (fun i => if (SimpleKV_Get (entry_key i) kv).2 then [] else [say "  %s: missing committed entry %s!" [ShStr id; ShStr (entry_key i)]]) (seq 1 5)
  end.

Definition demoLogSafety (polls : list (list string * list demo_action)) (steps : nat -> list string * list demo_action) (sleep sleep' sleep'' : list demo_action) (order : list string) :
    option (list printed) :=
  c ← NewDemoCluster three;
  '(leader, c) ← WaitForLeader polls c;
  c ← propose_entries (seq 1 5) steps c;
  c ← pause sleep c;
  node ← dc_nodes c !! leader;
  let commitIndex := committed (log (n_raft node)) in
  c ← links DPartition leader (others_of leader three) c;
  c ← pause sleep' c;
  c ← links DHeal leader (others_of leader three) c;
  c ← pause sleep'' c;
  let missing := flat_map (missing_lines c) order in
  Some ([say "  Initial leader: %s" [ShStr leader]; say "  Committed %d entries (commit index=%d)" [ShInt commitIndex; ShInt commitIndex]] ++ missing ++
        match missing with [] => [say "  All committed entries present on all nodes!" []] | _ => [] end).

End scenarios.

(** ** Reachability *)

Section reach.
  Context `{R : Rand}.

Lemma demo_steps_app c1 c2 c3 : demo_steps c1 c2 -> demo_steps c2 c3 -> demo_steps c1 c3.
Proof. intros H1 H2. induction H2 as [|c a c2 c3 _ IH He Hd]; [done|]. eapply demo_next; [by apply IH|exact He|exact Hd]. Qed.

Lemma act_steps a c c' : act a c = Some c' -> demo_steps c c'.
Proof. unfold act. destruct (demo_enabled a c) eqn:E; [|done]. intros H. econstructor; [constructor|done|done]. Qed.

Lemma pause_steps acts c c' : pause acts c = Some c' -> demo_steps c c'.
Proof.
  unfold pause. revert c. induction acts as [|a acts IH]; intros c; cbn; [intros [= <-]; constructor|]. destruct (internal a); [|done].
  destruct (act a c) as [c1|] eqn:E; [|done]. cbn. intros H. eapply demo_steps_app; [by eapply act_steps|by apply IH].
Qed.

Lemma WaitForLeader_steps polls c id c' : WaitForLeader polls c = Some (id, c') -> demo_steps c c' /\ (id <> EmptyString -> is_leader id c' = true).
Proof.
  revert c. induction polls as [|[order acts] polls IH]; intros c; cbn; [intros [= <- <-]; split; [constructor|done]|].
  destruct (Cluster_Leader order c) as [l|] eqn:El.
  - intros [= <- <-]. split; [constructor|]. intros _. unfold Cluster_Leader in El. by apply find_some in El as [_ El].
  - destruct (pause acts c) as [c1|] eqn:Ep; [|done]. cbn. intros H. destruct (IH _ H) as [H1 H2]. split; [|done]. eapply demo_steps_app; [by eapply pause_steps|done].
Qed.

(** A reachable cluster has one leader per term. *)
Lemma one_leader nodeIDs c i j ni nj : NoDup nodeIDs -> EmptyString ∉ nodeIDs -> demo_reach nodeIDs c -> dc_nodes c !! i = Some ni -> dc_nodes c !! j = Some nj ->
  IsLeader ni = true -> IsLeader nj = true -> term (n_raft ni) = term (n_raft nj) -> i = j.
Proof.
  intros Hnd Hne Hc Hi Hj Li Lj Ht. destruct (demo_reach_rel nodeIDs Hnd Hne c Hc) as (s & Hs & Hr). pose proof (demo_config_ok _ Hnd Hne) as Hco.
  destruct (si_ghost _ _ _ (reachable_inv _ _ Hco s Hs)) as (V & W & L & He & _). rewrite -(dr_nodes _ _ Hr) in Hi Hj. apply bool_decide_eq_true in Li, Lj.
  assert (H1 : leads s (term (n_raft ni)) i) by (left; eauto). assert (H2 : leads s (term (n_raft ni)) j) by (left; eauto).
  apply (leads_won _ _ _ _ _ _ He) in H1, H2. congruence.
Qed.

End reach.

(** ** What the scenarios show *)

Section shown.
  Context `{R : Rand}.

(** The leader that is announced leads, and nobody else leads its term. *)
Theorem election_demo_safe polls elapsed order out : demoLeaderElection polls elapsed order = Some out -> out <> [say "  No leader elected: %v" []] ->
  exists leader c node, out = say "  Leader elected: %s in %v" [ShStr leader; ShInt elapsed] :: PrintStatus order c /\ demo_reach five c /\
    dc_nodes c !! leader = Some node /\ IsLeader node = true /\
    forall i other, dc_nodes c !! i = Some other -> IsLeader other = true -> term (n_raft other) = term (n_raft node) -> i = leader.
Proof.
  unfold demoLeaderElection. destruct (NewDemoCluster five) as [c0|] eqn:E0; [|done]. cbn [mbind option_bind]. destruct (WaitForLeader polls c0) as [[leader c]|] eqn:Ew; [|done].
  cbn [mbind option_bind]. destruct (WaitForLeader_steps _ _ _ _ Ew) as [Hst Hl]. destruct (String.eqb_spec leader EmptyString) as [->|Hne]; intros [= <-] Hn; [done|].
  specialize (Hl Hne). unfold is_leader in Hl. destruct (dc_nodes c !! leader) as [node|] eqn:En; [|done]. assert (Hr : demo_reach five c) by by exists c0.
  exists leader, c, node. split_and!; [done|done|done|done|]. intros i other Hi Ho Ht. eapply (one_leader five); [| |exact Hr|exact Hi|exact En|done..];
    [by apply (bool_decide_unpack _)|]. by apply (bool_decide_unpack (EmptyString ∉ five)).
Qed.

(** What a node answers to a proposal: a leader takes it, a follower passes it
    to the leader it knows and answers with success at once. *)
Definition propose_answer (r : Raft) : propose_result :=
  match state r with
  | Leader => ProposeOk
  | Candidate => ProposeErr ErrProposeDuringElection
  | Follower => if lead r =?s EmptyString then ProposeErr ErrNoLeader else ProposeOk
  end.

Lemma run_round_answer data node err n' out : run_round (Propose data) node = Some (err, n', out) ->
  match err with None => ProposeOk | Some e => ProposeErr e end = propose_answer (n_raft node).
Proof.
  unfold run_round, Propose, handle_event, Step, propose_answer. cbn [m_Term propose_msg]. change (0 =? 0) with true. cbn match. unfold step.
  destruct (state (n_raft node)); cbn [m_Type m_Entries propose_msg].
  - unfold stepFollower. cbn [m_Type propose_msg]. destruct (lead (n_raft node) =?s EmptyString); cbn [mbind option_bind].
    + destruct (ready_phase _) as [[n1 s1]|]; [|done]. by intros [= <- _ _].
    + unfold ok. cbn [mbind option_bind fmap option_fmap option_map]. destruct (ready_phase _) as [[n1 s1]|]; [|done]. cbn [mbind option_bind]. destruct (ready_phase n1) as [[n2 s2]|]; [|done]. by intros [= <- _ _].
  - unfold stepCandidate. cbn [m_Type propose_msg mbind option_bind]. destruct (ready_phase _) as [[n1 s1]|]; [|done]. by intros [= <- _ _].
  - unfold stepLeader. cbn [m_Type m_Entries propose_msg]. unfold ok. destruct (handleProposal _ _) as [r|]; [|done]. cbn [mbind option_bind fmap option_fmap option_map].
    destruct (ready_phase _) as [[n1 s1]|]; [|done]. cbn [mbind option_bind]. destruct (ready_phase n1) as [[n2 s2]|]; [|done]. by intros [= <- _ _].
Qed.

(** The write on the side without a quorum is reported as blocked only when its
    node is a candidate or knows no leader, or does not answer in time. *)
Theorem minority_write_blocked acts c l c' : minority_write acts true c = Some (l, c') -> exists c1 node, demo_steps c c1 /\ dc_nodes c1 !! "node-1" = Some node /\
  (l = [say "    Write to minority (%s): BLOCKED (correct! no quorum)" [ShStr "node-1"]] <-> state (n_raft node) = Candidate \/ (state (n_raft node) = Follower /\ lead (n_raft node) = EmptyString)).
Proof.
  unfold minority_write, propose_call. destruct (act (DPropose _ _) c) as [c0|] eqn:E0; [|done]. cbn [mbind option_bind]. destruct (pause acts c0) as [c1|] eqn:E1; [|done]. cbn [mbind option_bind].
  destruct (bool_decide _); [|done]. destruct (dc_nodes c1 !! "node-1") as [node|] eqn:En; [|done]. cbn [mbind option_bind].
  destruct (run_round _ node) as [[[err n'] out]|] eqn:Er; [|done]. cbn [mbind option_bind]. destruct (act (DTakePropose _) c1) as [c2|]; [|done]. cbn [mbind option_bind]. intros [= <- <-].
  exists c1, node. split_and!; [eapply demo_steps_app; [by eapply act_steps|by eapply pause_steps]|done|]. rewrite (run_round_answer _ _ _ _ _ Er). unfold propose_answer.
  destruct (state (n_raft node)); [destruct (String.eqb_spec (lead (n_raft node)) EmptyString)| |]; split; try done; try tauto; naive_solver.
Qed.

End shown.

(** ** Runs

    Scripts for the waits: the ticks of a node, each followed by the delivery of
    what is on its way. *)

#[local] Existing Instance zero_rand.

Fixpoint drive (fuel : nat) (ids : list string) (ticks : list demo_action) (c : DemoCluster) : list demo_action :=
  match fuel with
  | O => []
  | S fuel =>
      match List.find (fun a => demo_enabled a c) ([DDeliver 0; DPut 0] ++ (DTakeStep <$> ids)) with
      | Some a => match act a c with Some c => a :: drive fuel ids ticks c | None => [] end
      | None => match ticks with a :: ticks => match act a c with Some c => a :: drive fuel ids ticks c | None => [] end | [] => [] end
      end
  end.

Definition settled (x : option DemoCluster) : DemoCluster := default (mkDemo ∅ ∅ NewMemTransport [] [] ∅ ∅ ∅) x.

(** The first node of [ids] is elected, and is given one tick after another. *)
Definition electing (ids : list string) (i : string) : list demo_action := drive 200 ids (replicate 10 (DTick i)) (settled (NewDemoCluster ids)).
Definition first_polls (ids : list string) (i : string) : list (list string * list demo_action) := [(ids, electing ids i); (ids, [])].
Definition elected (ids : list string) (i : string) : DemoCluster := settled (snd <$> (c ← NewDemoCluster ids; WaitForLeader (first_polls ids i) c)).
Definition beating (ids : list string) (i : string) (c : DemoCluster) : list demo_action := drive 200 ids (replicate 5 (DTick i)) c.
Definition proposed (ids : list string) (data : string) (c : DemoCluster) : DemoCluster := settled (snd <$> propose ids data [] c).

Definition node_status (role id : string) (tm commit applied last : Z) : printed :=
  say "  %s %s | term=%d | commit=%d | applied=%d | log=%d" [ShStr role; ShStr id; ShInt tm; ShInt commit; ShInt applied; ShInt last].

Example election_run : demoLeaderElection (first_polls five "node-1") 0 five =
  Some [say "  Leader elected: %s in %v" [ShStr "node-1"; ShInt 0]; node_status "LEADER" "node-1" 1 1 1 1; node_status "FOLLOWER" "node-2" 1 0 0 1;
        node_status "FOLLOWER" "node-3" 1 0 0 1; node_status "FOLLOWER" "node-4" 1 0 0 1; node_status "FOLLOWER" "node-5" 1 1 1 1].
Proof. vm_compute. reflexivity. Qed.

(** The cluster after a write and the sleep after it, and the scripts of the
    writes of a scenario. *)
Definition written (ids : list string) (i data : string) (c : DemoCluster) : DemoCluster := let c := proposed ids data c in settled (pause (beating ids i c) c).

Definition replication_steps (k : nat) : list string * list demo_action * list demo_action * Z :=
  let c1 := elected three "node-1" in
  let c2 := written three "node-1" "balance=1000" c1 in
  let c3 := written three "node-1" "user=alice" c2 in
  let c := match k with O => proposed three "balance=1000" c1 | S O => proposed three "user=alice" c2 | _ => proposed three "status=active" c3 end in
  (three, [], beating three "node-1" c, 0).

Example replication_run : drop 10 <$> demoLogReplication (first_polls three "node-1") replication_steps three [] three =
  Some (map (fun id => say "  %s: balance=%s user=%s" [ShStr id; ShStr "1000"; ShStr "alice"]) three).
Proof. vm_compute. reflexivity. Qed.

(** *** The failure of a leader

    The cluster of MemCluster.v after its leader is cut off is the one that the
    scenario reaches: whatever happens in its waits, it finds no new leader. *)
Definition crash_sleep : list demo_action := beating demo_ids "a" (proposed demo_ids "key=value-before-crash" (elected demo_ids "a")).

Lemma unhealed_app c1 c2 c3 : unhealed c1 c2 -> unhealed c2 c3 -> unhealed c1 c3.
Proof. intros H1 H2. induction H2 as [|c a c2 c3 _ IH Hh He Hd]; [done|]. eapply unhealed_next; [by apply IH|exact Hh|exact He|exact Hd]. Qed.

Lemma pause_unhealed acts c c' : pause acts c = Some c' -> unhealed c c'.
Proof.
  unfold pause. revert c. induction acts as [|a acts IH]; intros c; cbn; [intros [= <-]; constructor|]. destruct (internal a) eqn:Ei; [|done].
  destruct (act a c) as [c1|] eqn:E; [|done]. unfold act in E. destruct (demo_enabled a c) eqn:Een; [|done]. cbn. intros H. apply (unhealed_app c c1); [|by apply IH].
  eapply unhealed_next; [constructor| |exact Een|exact E]. intros x y ->. discriminate Ei.
Qed.

Lemma failed_over_names c x node : unhealed failed_over c -> dc_nodes c !! x = Some node -> x = "a" \/ x = "b" \/ x = "c".
Proof.
  intros Hc Hx. destruct (unhealed_deaf _ _ Hc failover_deaf) as (s & Hr & Hd & _). rewrite -(dr_nodes _ _ Hr) in Hx.
  assert (H : x = "a" \/ x ∈ bc) by (apply (ds_names _ _ _ _ _ Hd); by eexists). unfold bc in H. clear -H. set_solver.
Qed.

Lemma find_new_none polls c x c' : unhealed failed_over c -> find_new "a" polls c = Some (x, c') -> x = EmptyString.
Proof.
  revert c. induction polls as [|[order acts] polls IH]; intros c Hc; cbn [find_new]; [by intros [= <- _]|].
  destruct (List.find _ order) as [id|] eqn:Ef.
  - apply find_some in Ef as [_ Ef]. apply andb_true_iff in Ef as [Hid Hl]. unfold is_leader in Hl. destruct (dc_nodes c !! id) as [node|] eqn:En; [|done]. exfalso.
    destruct (failed_over_names c id node Hc En) as [->|Hbc]; [done|]. destruct failover_demo_finds_no_leader as [_ Hno]. by rewrite (Hno c id node Hc Hbc En) in Hl.
  - destruct (pause acts c) as [c1|] eqn:Ep; [|done]. cbn. intros H. apply (IH c1); [|done]. eapply unhealed_app; [exact Hc|by eapply pause_unhealed].
Qed.

(** The scenario up to the crash. *)
Definition crash (nodes : list string) (polls : list (list string * list demo_action)) (order : list string) (acts sleep : list demo_action) : option (string * DemoCluster) :=
  c ← NewDemoCluster nodes; '(firstLeader, c) ← WaitForLeader polls c; '(_, c) ← propose order "key=value-before-crash" acts c;
  c ← pause sleep c; c ← links DPartition firstLeader (others_of firstLeader nodes) c; Some (firstLeader, c).

Lemma crash_reaches : crash demo_ids (first_polls demo_ids "a") demo_ids [] crash_sleep = Some ("a", failed_over).
Proof. vm_compute. reflexivity. Qed.

Lemma failure_after_crash nodes polls order acts sleep polls' elapsed acts' sleep' order' l c : crash nodes polls order acts sleep = Some (l, c) ->
  demoLeaderFailure nodes polls order acts sleep polls' elapsed acts' sleep' order' =
  lines ← failover_search l polls' elapsed acts' sleep' order' c; Some ([say "  Initial leader: %s" [ShStr l]; say "  Simulating leader crash (%s)..." [ShStr l]] ++ lines).
Proof.
  unfold crash, demoLeaderFailure. destruct (NewDemoCluster nodes) as [c0|]; [|done]. cbn [mbind option_bind]. destruct (WaitForLeader polls c0) as [[l' c1]|]; [|done]. cbn [mbind option_bind].
  destruct (propose order _ acts c1) as [[res c2]|]; [|done]. cbn [mbind option_bind]. destruct (pause sleep c2) as [c3|]; [|done]. cbn [mbind option_bind].
  destruct (links DPartition l' _ c3) as [c4|]; [|done]. by intros [= -> ->].
Qed.

Lemma failover_search_none polls elapsed acts sleep order c out : (forall x c', find_new "a" polls c = Some (x, c') -> x = EmptyString) ->
  failover_search "a" polls elapsed acts sleep order c = Some out -> out = [say "  No new leader elected" []].
Proof. intros H. unfold failover_search. destruct (find_new "a" polls c) as [[x c']|]; [|done]. cbn [mbind option_bind]. rewrite (H x c' eq_refl). by intros [= <-]. Qed.

Theorem failure_demo_finds_none polls elapsed acts sleep order out :
  demoLeaderFailure demo_ids (first_polls demo_ids "a") demo_ids [] crash_sleep polls elapsed acts sleep order = Some out ->
  out = [say "  Initial leader: %s" [ShStr "a"]; say "  Simulating leader crash (%s)..." [ShStr "a"]; say "  No new leader elected" []].
Proof.
  rewrite (failure_after_crash _ _ _ _ _ _ _ _ _ _ _ _ crash_reaches). pose proof (fun x c' => find_new_none polls failed_over x c' (unhealed_refl _)) as Hn. revert Hn.
  generalize failed_over. intros c Hn. destruct (failover_search "a" polls elapsed acts sleep order c) as [lines|] eqn:Ef; [|done]. rewrite (failover_search_none _ _ _ _ _ _ _ Hn Ef). by intros [= <-].
Qed.

(** *** Runs of the partition and of the chaos

    The first node leads when the network splits.  Nobody is elected on the
    side with the quorum, and the write on the other side is accepted. *)
Definition before_split : list demo_action := beating five "node-1" (proposed five "state=before-partition" (elected five "node-1")).

Example partition_run : demoNetworkPartition (first_polls five "node-1") five [] before_split [] five ([], true) ([], true) =
  Some [say "  Initial leader: %s" [ShStr "node-1"];
        say "    [%s] %s - %s (term=%d)" [ShStr "minority"; ShStr "node-1"; ShStr "LEADER"; ShInt 1]; say "    [%s] %s - %s (term=%d)" [ShStr "minority"; ShStr "node-2"; ShStr "FOLLOWER"; ShInt 1];
        say "    [%s] %s - %s (term=%d)" [ShStr "majority"; ShStr "node-3"; ShStr "FOLLOWER"; ShInt 1]; say "    [%s] %s - %s (term=%d)" [ShStr "majority"; ShStr "node-4"; ShStr "FOLLOWER"; ShInt 1];
        say "    [%s] %s - %s (term=%d)" [ShStr "majority"; ShStr "node-5"; ShStr "FOLLOWER"; ShInt 1];
        say "    Write to minority (%s): committed (should not happen!)" [ShStr "node-1"]].
Proof. vm_compute. reflexivity. Qed.

(** Five entries are proposed and committed, the leader is cut off and comes back. *)
Fixpoint after_entries (ks : list nat) (c : DemoCluster) : DemoCluster :=
  match ks with [] => c | k :: ks => after_entries ks (proposed three (entry_key k +:+ "=committed") c) end.

Definition safety_sleep : list demo_action := beating three "node-1" (after_entries (seq 1 5) (elected three "node-1")).

Example safety_run : demoLogSafety (first_polls three "node-1") (fun _ => (three, [])) safety_sleep [] [] three =
  Some [say "  Initial leader: %s" [ShStr "node-1"]; say "  Committed %d entries (commit index=%d)" [ShInt 6; ShInt 6]; say "  All committed entries present on all nodes!" []].
Proof. vm_compute. reflexivity. Qed.

(** When the cluster does nothing after the proposals, entries that were only
    proposed are reported as committed and missing. *)
Example safety_run_early : (fun out => zlen (List.filter (fun p => p_format p =?s "  %s: missing committed entry %s!") out)) <$>
  demoLogSafety (first_polls three "node-1") (fun _ => (three, [])) [] [] [] three = Some 15.
Proof. vm_compute. reflexivity. Qed.
